(* ===== verification/_CoqProject ===== *)
-Q . S2P
Prelude.v
Bytes.v
UndoLog.v
Domain.v
Manager.v
Crash.v
Snapshot.v
RecoveryOrder.v
Reset.v
Parallel.v
Credo.v
Grants.v
Policy.v
Flock.v
Pipe.v
WaitQueue.v
MsgQueue.v
Shm.v
Sha256.v
Seccomp.v
Rlimit.v
FdAlloc.v
Netfilter.v
Route.v
EbpfMap.v
Ebpf.v
EbpfVerifier.v
EbpfSubsys.v
BlockDev.v
Compress.v
Raidz.v
Metaslab.v
Block.v
Spa.v
Zap.v
Pmm.v
PmmPool.v
PmmSpec.v
Process.v
RunQueue.v
Scheduler.v
SchedulerSpec.v
WasmTypes.v
Leb128.v
WasmModule.v
WasmRuntime.v
WasmInterp.v
WasmSpec.v
WasmInst.v
Vma.v
Mmap.v
VmaSpec.v
PageTable.v
PageTableSpec.v
Cow.v
CowSpec.v
Swap.v
SwapSpec.v
PageCache.v
PageCacheSpec.v
