(* ===== verification/Prelude.v ===== *)
(** * Verification of the QueenX kernel

    QueenX is a kernel in Rust split into [src/kernel/framework] (the trusted
    base, where [unsafe] is allowed) and [src/kernel/services] (safe policy
    code).  This library models the fault recovery of both layers and the
    capability policy it acts on, services with shared tables (file locks, pipes,
    message queues, shared memory, descriptors, limits, filters, routes), the
    eBPF machine with its verifier, the WebAssembly runtime, the page allocator and
    the scheduler, and the
    storage side of HVFS down to the block devices.

    ** The program and the files

    Paths are relative to [src/kernel].

    Shared
    - [Prelude.v]: this file.
    - [Bytes.v]: byte strings, little and big endian numbers, byte memory.

    Recovery
    - [UndoLog.v]: [framework/barrier/undo_log.rs], the log of old field values
      behind every recovery domain, over a byte memory.
    - [Domain.v]: [framework/barrier/domain.rs] and [types.rs], one recovery
      domain: state, rollback admission with back-off, capability tiers, quota,
      heartbeat, dependencies, barrier snapshots.
    - [Manager.v]: [framework/barrier/manager.rs] and the registration part of
      [api.rs]: the table of domains (references into a store, so that aliasing
      through the pool of [api.rs] is visible), rollback of one domain, the
      breadth-first cascade, the periodic tick, fault location.
    - [Crash.v]: the rest of [api.rs] with its statics, the entry from the
      exception handler, maintenance, and [recoverable.rs].
    - [Snapshot.v]: [framework/barrier/snapshot.rs], register snapshots of
      devices and their restore order.  Register access is the class [Mmio]; the
      round trip is proved from its laws (a register reads back what was written
      to it, registers are independent, reading has no effect).
    - [RecoveryOrder.v]: [framework/barrier/recovery.rs], the registry of
      subsystem callbacks and the order in which a cascade restores them.
    - [Reset.v]: [framework/barrier/reset/] ([bbr.rs], [bsr.rs], [bhr.rs],
      [layered.rs], [audit.rs]) and [services/barrier/reset_config.rs], the three
      reset layers.
    - [Parallel.v]: [framework/barrier/reset/parallel.rs], dependency layers and
      the rollback of a layer by workers.
    - [Policy.v]: [services/barrier/] ([attribution.rs], [recovery_policy.rs],
      [cascade.rs], [health_monitor.rs]), the decisions about recovery.

    Capabilities and processes
    - [Credo.v]: [services/credo/policy.rs], capability matrix and policy engine.
      The trait [CapabilityMatrix] is a class; the engine is verified against
      its laws and the in-memory matrix is shown to satisfy them.
    - [Grants.v]: [services/credo/grants.rs], delegation and cascading
      revocation.
    - [Sha256.v]: [services/credo/sha256.rs], against the definition of the
      standard.
    - [Seccomp.v]: [services/proc/seccomp.rs], the system call filter.
    - [Rlimit.v]: [services/proc/rlimit.rs] and [framework/proc/rlimit.rs], the
      resource limits and their system calls.
    - [FdAlloc.v]: [services/proc/fd_alloc.rs], descriptor numbers.

    Scheduling
    - [Process.v]: [framework/proc/process.rs] and [services/proc/types.rs], the
      process table, its numbers and reference counts, the states of a process.
    - [RunQueue.v]: [services/proc/sched_policy.rs], the fair and the deadline run
      queue, nice weights, the policy's decisions.
    - [Scheduler.v]: [framework/proc/scheduler.rs], the three scheduling classes,
      the switch, blocking, exit, the timer tick, load balancing.
    - [SchedulerSpec.v]: what the scheduler guarantees, and where it does not.

    Communication
    - [Flock.v]: [services/fs/flock.rs], whole-file and byte-range locks.
    - [Pipe.v]: [services/ipc/pipe.rs], pipes.
    - [WaitQueue.v]: the wait queue of [services/ipc/types.rs] and the wake-ups of
      [services/ipc/scheduler_integration.rs].
    - [MsgQueue.v]: [services/ipc/msgq.rs] with the nodes of
      [framework/ipc/msgq.rs], message queues as linked lists in a heap.
    - [Shm.v]: [services/ipc/shm.rs], shared memory segments.
    - [Netfilter.v]: [services/net/netfilter.rs], the packet filter.
    - [Route.v]: [services/net/route.rs] and [framework/net/route.rs], the routing
      table and its copy in the network stack.

    Programs in the kernel
    - [EbpfMap.v], [Ebpf.v], [EbpfSubsys.v]: [framework/debug/ebpf.rs], the maps,
      the interpreter with its helpers, and the tables behind [sys_bpf].
    - [EbpfVerifier.v]: [services/debug/ebpf_verifier.rs].
    - [WasmTypes.v], [Leb128.v], [WasmModule.v], [WasmRuntime.v], [WasmInterp.v]:
      [types.rs], [leb128.rs], [module.rs], [runtime.rs], [interpreter.rs] of
      [services/wasm/], the WebAssembly runtime: readers of bytes with their
      laws, the parser of modules against an encoder, memory, instructions.
    - [WasmSpec.v], [WasmInst.v]: what every instruction keeps; instantiation and
      calls.

    Memory
    - [Pmm.v], [PmmPool.v], [PmmSpec.v]: [framework/mm/pmm.rs], the buddy allocator
      of physical pages: the model, the pool of free blocks, what it promises.
    - [Vma.v], [Mmap.v], [VmaSpec.v]: [framework/mm/vma.rs], the areas of an address
      space; [services/mm/] and [framework/syscall/brk.rs], the system calls on
      them; the address space as a function, which they refine.
    - [PageTable.v], [PageTableSpec.v]: [framework/mm/vmm_x86_64.rs], four-level page
      tables: the words in physical pages and every operation on them; which table
      belongs to which place, the translation level by level, and calls on several
      tables as updates of a function.  [PageSource] with [PageSourceLaws] is what
      they need of the page allocator, which [Pmm] is shown to give.
    - [Cow.v], [CowSpec.v]: [framework/mm/cow.rs] and the end of a table, copy on
      write: what fork and a write fault do to the views of all processes.
    - [PageCache.v], [PageCacheSpec.v]: [framework/mm/pcache.rs], the pages of
      files kept in memory: a hash table of frames, which implements a map from
      pages to their bytes over any [PageSource].
    - [Swap.v], [SwapSpec.v]: [framework/mm/swap.rs] with its policy, slots, lists of
      used pages, reclaim and the fault on a page that is out; why no page changes.

    Storage
    - [BlockDev.v]: [framework/chitin/mod.rs] (block devices) and
      [composite.rs], striping and mirroring.  [BlockDevice] is the class of a
      driver with the laws of a fault-free disk; [SectorStore] is the class of
      numbered drives the file system relies on, which the registry implements.
    - [Compress.v], [Raidz.v], [Metaslab.v], [Block.v] (block pointers, checksums,
      uberblock), [Spa.v] (the pool and its devices), [Zap.v] (attribute
      tables): the files of [services/fs/hvfs/].

    The interrupt handler calls [Crash], which locates a domain and runs the
    cascade of [Manager]; that rolls back [Domain]s through their [UndoLog]s.
    Escalation leads to [Reset], which uses [Manager], [Snapshot] and [Parallel].
    [Policy] decides on the services side and writes capability rows through the
    interface of [Credo], on which [Grants] is built too.  [sys_bpf] of
    [EbpfSubsys] loads a program through the verifier and runs it in the
    interpreter on the shared maps.  [Scheduler] changes processes through
    [Process] and keeps them in the queues of [RunQueue].  [Spa] allocates from [Metaslab]s, seals its
    uberblock with [Block] (whose SHA-256 is [Sha256]) and reaches the drives
    through [SectorStore].

    ** Modelling

    A structure is a record with the source's fields; fixed-size arrays are
    lists of that length; a machine integer is a [Z] (or a [nat] where it is an
    index) with its wrap-around written out, as release builds wrap.  Code that
    can fail returns an [outcome]: [Done], [Panic] (index out of range) or
    [Deadlock] (a lock the caller already holds, or a loop or recursion that
    does not end).  Each operation holds its lock for its whole duration, so
    executions are sequences of operations; where the source does not, the model
    shows it: the compare-and-swap loops of [Credo] run against an explicit list
    of writes by other processors, and [FdAlloc] interleaves the accesses of two
    allocations.  Hardware ticks, callbacks and register access are inputs.
    Each file has a module with the definitions and a module [...Facts] with the
    theorems.

    Fuel: the cascade of [Manager] runs at most [MAX_RECOVERY_DOMAINS] rounds
    (a domain enters the queue once); the depth-first search of [RecoveryOrder]
    at most one more round than there are dependencies; [collect_descendants] of
    [Grants] recurses at most as deep as the table is long; destroying a message
    queue visits at most as many nodes as are allocated; waking all threads at
    most the slots of the queue.  The loops of [Compress] consume a byte of input
    per round, and the round trip includes that their fuel is enough.  The
    interpreter of [Ebpf] has no bound: [run] takes fuel and answers [None] when
    it runs out, and a theorem shows an accepted program for which every fuel
    runs out.  [scan_pids] of [Process] looks at every number once.
    The loops of [Leb128] run 5 and 10 rounds, those of [WasmModule] one round per
    byte of input at most, and both are proved to end; [run_loop] of [WasmInterp]
    ends within twice the gas left and the frames, [rounds].  Registry accesses of [BlockDev] take the nesting depth of
    composite devices as fuel, and the theorem about them holds at every depth.

    ** What is proved

    - Undo log: exactly the entries of the undone generations are popped, newest
      first; the first value of a generation is the one kept.
    - Domains: rollback admission on every branch, bounded and spaced rollbacks,
      capabilities only shrink between recoveries, the snapshot ring implements
      the history of barriers.
    - Manager and crash path: termination of cascades on every graph, effect of a
      rollback, all outcomes of a recovery attempt.
    - Devices: capture and restore round trip, restore order, removal.
    - Reset: both branches of the soft reset, soundness and completeness of the
      layering, workers against the serial rollback, recovery order.
    - Capabilities: grants give only what is owned under interference, revocation
      keeps the floor and removes a grant with its descendants and nothing else,
      all reachable tables are well formed; SHA-256 is the standard's function.
    - Processes: a system call the filter denies stays denied under every later
      call; no process but init raises a hard limit by any sequence of calls and
      forks; the descriptor bitmaps implement a set of live numbers.
    - Physical pages: in every history of allocations, releases and reservations no
      page is handed out twice, and the allocator implements a set of free pages.
    - Address spaces: every history of mappings, removals and protection changes
      acts on addresses as on a function; [mmap] gives fresh ranges, [munmap]
      unmaps every page it removes; the page tables implement a map from pages, fork
      and write faults act on the views of all processes as they should, the page
      cache implements a map, and swapping changes no page.
    - Scheduling: a process somebody holds is never freed and the last holder frees
      it; on one CPU a queued fair task runs within a bounded number of the
      scheduler's ticks; the
      virtual time of a queue never goes back; admitted deadline tasks fit into 95
      percent; load balancing keeps every task and respects affinity.
    - Communication: mutual exclusion of file locks, pipes as bounded queues,
      linked message lists refine a table of bounded queues without leaks or use
      after free, shared memory references and pages, wake-ups; which rule
      decides a packet; route queries are longest-prefix matches and the stack
      holds a copy of the table.
    - eBPF: the interpreter never panics on a program the verifier accepted and
      stays within its instructions, and only such programs get a descriptor; maps
      refine finite maps.
    - WebAssembly: the integer readers on every input, the parser reads back the
      modules of its own dialect and always ends, linear memory, the interpreter's
      invariant and its gas bound for every byte code the loop is given.
    - Storage: compression round trips; the parity tables are the field GF(2^8),
      parity is the Reed-Solomon sum and a scrub finds every corrupted byte it can;
      live extents of a metaslab and of the pool are disjoint and freeing returns
      exactly them; a block written is read back; a sealed uberblock survives the
      disk and is found again; Fletcher-4 detects the change of a word; mirrors
      answer as long as one drive has the data (when the drives are reached without
      the lock that makes composite devices hang); striping is a bijection;
      attribute tables are finite maps.
    - Behaviour that departs from what comments, tests or the purpose of the
      source intend is proved too; each such theorem sits in the file of its
      component, for example: modified fields are not restored by a rollback, the
      soft reset is never reached, one failed recovery disables the mechanism, a
      full delegation table leaks capabilities, verified eBPF programs can write
      outside their stack and run for ever, composite devices deadlock, the last
      metaslab overruns its device, an old uberblock is loaded after the ring
      wraps, RAID-Z reconstruction reorders or panics,
      a WebAssembly function with code is never run to its end, a blocked task goes on
      running, a process with children never gets past its exit.

    ** What is not modelled

    Log output; the atomics' memory orderings (operations are atomic steps);
    wake-ups of pipes; the context switch; what the timer interrupt does before the
    scheduler's part (recovery, OOM killer, accounting, kswapd);
    the host functions of WASI (parameters of the interpreter); the parts of a process other components
    keep there (registers, signal handlers, page tables); semaphores, signals and the asynchronous IPC; the x86 port writes of the hard reset;
    [fault_inject.rs] (a test feature); the formatter [audit_export.rs];
    registration and discovery of devices.  The rest of the kernel
    (page faults, the kernel heap, the other file systems and services, drivers, the network
    stack, system calls, architecture code) is outside this library so far.

    ** This file

    Shared definitions: outcomes, machine integers, boolean case analysis, record
    updates, searches in and counts over fixed-size tables, loop invariants, and
    the hint database [kernel]. *)

From Stdlib Require Export ZArith Lia Sorted.
From stdpp Require Export base numbers list sorting gmap.

#[global] Open Scope Z_scope.

(** ** Outcomes of kernel code

    Safe Rust code either returns, panics (an array index out of range, an
    [unwrap] of [None]) or, when it takes a spin lock its own call chain
    already holds, never returns. *)
Inductive outcome (A : Type) : Type :=
  | Done (a : A)
  | Panic
  | Deadlock.
Arguments Done {A} a.
Arguments Panic {A}.
Arguments Deadlock {A}.

#[export] Instance outcome_ret : MRet outcome := fun A a => Done a.
#[export] Instance outcome_bind : MBind outcome := fun A B f m =>
  match m with
  | Done a => f a
  | Panic => Panic
  | Deadlock => Deadlock
  end.
#[export] Instance outcome_fmap : FMap outcome := fun A B f m =>
  match m with
  | Done a => Done (f a)
  | Panic => Panic
  | Deadlock => Deadlock
  end.

(** A [for] loop whose body can panic. *)
Fixpoint ofold {A B} (l : list B) (a : A) (f : A -> B -> outcome A) : outcome A :=
  match l with
  | [] => Done a
  | x :: l => a ← f a x; ofold l a f
  end.

Lemma ofold_inv {A B} (P : A -> Prop) (l : list B) (a : A) f :
  P a -> (forall a x, x ∈ l -> P a -> exists a', f a x = Done a' /\ P a') ->
  exists a', ofold l a f = Done a' /\ P a'.
Proof.
  revert a. induction l as [|x l IH]; intros a Ha Hf; [by exists a|]. simpl.
  destruct (Hf a x) as (a' & -> & Ha'); [by left|done|]. apply IH; [done|].
  intros b y Hy. apply Hf. by right.
Qed.

(** The loop panics when the bodies before some element return and that one panics. *)
Lemma ofold_panics {A B} (P : A -> Prop) (l : list B) (a : A) f x :
  P a -> x ∈ l -> (forall a, P a -> f a x = Panic) ->
  (forall a y, y ∈ l -> P a -> f a y = Panic \/ exists a', f a y = Done a' /\ P a') ->
  ofold l a f = Panic.
Proof.
  intros Ha Hx Hpanic. revert a Ha. induction l as [|y l IH]; intros a Ha Hf.
  { by apply elem_of_nil in Hx. }
  simpl. destruct (Hf a y) as [->|(a' & Hy & Ha')]; [by left|done|done|]. rewrite Hy.
  apply elem_of_cons in Hx as [->|Hx]; [by rewrite Hpanic in Hy|].
  apply IH; [done|done|]. intros b z Hz. apply Hf. by right.
Qed.

(** ** Machine integers

    A [uN] value is a [Z] in [0 .. 2^N); release builds of the kernel
    ([profile.release] sets no overflow checks) wrap on overflow. *)
Definition U8_MAX : Z := 255.
Definition U32_MAX : Z := 4294967295.
Definition U64_MAX : Z := 18446744073709551615.

Definition wrap (w z : Z) : Z := z mod 2 ^ w.
Definition wrap_u32 (z : Z) : Z := wrap 32 z.
Definition wrap_u64 (z : Z) : Z := wrap 64 z.

(** [x as i32] of an unsigned value. *)
Definition as_i32 (z : Z) : Z :=
  let u := wrap_u32 z in if u <? 2 ^ 31 then u else u - 2 ^ 32.

(** The two's complement reading of the low [w] bits: [as iN], and the wrapped
    result of [iN] arithmetic. *)
Definition as_signed (w z : Z) : Z :=
  let u := wrap w z in if u <? 2 ^ (w - 1) then u else u - 2 ^ w.

(** [saturating_sub] / [saturating_add] of the unsigned types. *)
Definition sat_sub (a b : Z) : Z := Z.max 0 (a - b).
Definition sat_add_u64 (a b : Z) : Z := Z.min U64_MAX (a + b).
Definition sat_add_u32 (a b : Z) : Z := Z.min U32_MAX (a + b).

(** [!x] on a [u64]. *)
Definition not_u64 (z : Z) : Z := U64_MAX - z.

Definition u8 (z : Z) : Prop := 0 <= z < 256.
Definition u32 (z : Z) : Prop := 0 <= z <= U32_MAX.
Definition u64 (z : Z) : Prop := 0 <= z <= U64_MAX.

Lemma wrap_small w z : 0 <= z < 2 ^ w -> wrap w z = z.
Proof. intros. unfold wrap. by apply Z.mod_small. Qed.

Lemma wrap_u32_small z : u32 z -> wrap_u32 z = z.
Proof. unfold u32, U32_MAX. intros. apply wrap_small. lia. Qed.

Lemma wrap_u64_small z : u64 z -> wrap_u64 z = z.
Proof. unfold u64, U64_MAX. intros. apply wrap_small. lia. Qed.

Lemma wrap_u32_range z : u32 (wrap_u32 z).
Proof.
  unfold u32, U32_MAX, wrap_u32, wrap.
  pose proof (Z.mod_pos_bound z (2 ^ 32)). lia.
Qed.

Lemma wrap_u64_range z : u64 (wrap_u64 z).
Proof.
  unfold u64, U64_MAX, wrap_u64, wrap.
  pose proof (Z.mod_pos_bound z (2 ^ 64)). lia.
Qed.

(** [z] fits a signed [w]-bit integer. *)
Definition signed (w z : Z) : Prop := - 2 ^ (w - 1) <= z < 2 ^ (w - 1).

Lemma pow_half w : 0 < w -> 2 ^ w = 2 * 2 ^ (w - 1).
Proof. intros. rewrite <- Z.pow_succ_r by lia. f_equal. lia. Qed.

Lemma as_signed_range w z : 0 < w -> signed w (as_signed w z).
Proof.
  intros Hw. unfold signed, as_signed, wrap. pose proof (pow_half w Hw).
  pose proof (Z.pow_pos_nonneg 2 (w - 1)). pose proof (Z.mod_pos_bound z (2 ^ w)).
  destruct (Z.ltb_spec (z mod 2 ^ w) (2 ^ (w - 1))); lia.
Qed.

(** A signed value is determined by its residue. *)
Lemma as_signed_unique w z s : 0 < w -> signed w s -> s mod 2 ^ w = z mod 2 ^ w -> as_signed w z = s.
Proof.
  intros Hw Hs Hm. unfold signed, as_signed, wrap in *. rewrite <- Hm. pose proof (pow_half w Hw).
  pose proof (Z.pow_pos_nonneg 2 (w - 1)). destruct (decide (0 <= s)).
  - rewrite Z.mod_small by lia. destruct (Z.ltb_spec s (2 ^ (w - 1))); lia.
  - replace (s mod 2 ^ w) with (s + 2 ^ w)
      by (symmetry; rewrite <- (Z_mod_plus_full s 1), Z.mul_1_l; apply Z.mod_small; lia).
    destruct (Z.ltb_spec (s + 2 ^ w) (2 ^ (w - 1))); lia.
Qed.

Lemma as_signed_small w z : 0 < w -> signed w z -> as_signed w z = z.
Proof. intros. by apply as_signed_unique. Qed.

Lemma as_signed_mod w z : 0 < w -> as_signed w z mod 2 ^ w = z mod 2 ^ w.
Proof.
  intros Hw. unfold as_signed, wrap. destruct (Z.ltb_spec (z mod 2 ^ w) (2 ^ (w - 1))).
  - apply Z.mod_mod. lia.
  - replace (z mod 2 ^ w - 2 ^ w) with (z mod 2 ^ w + (-1) * 2 ^ w) by lia.
    rewrite Z_mod_plus_full. apply Z.mod_mod. lia.
Qed.

Lemma land_not_u64 a b : u64 a -> u64 b -> Z.land a (not_u64 b) = Z.ldiff a b.
Proof.
  unfold u64, not_u64, U64_MAX. intros Ha Hb.
  replace (18446744073709551615 - b) with (Z.ldiff (Z.ones 64) b).
  - apply Z.bits_inj'. intros n Hn.
    rewrite Z.land_spec, !Z.ldiff_spec.
    destruct (Z.testbit a n) eqn:Hbit; [|done]. simpl.
    rewrite Z.testbit_ones_nonneg by lia.
    destruct (Z.ltb_spec n 64); [done|].
    rewrite (Z.bits_above_log2 a n) in Hbit; [done|lia|].
    destruct (Z.eq_dec a 0) as [->|]; [simpl; lia|].
    apply Z.log2_lt_pow2; [lia|]. apply Z.lt_le_trans with (2 ^ 64); [lia|].
    apply Z.pow_le_mono_r; lia.
  - rewrite <- Z.sub_nocarry_ldiff; [done|].
    apply Z.bits_inj'. intros n Hn. rewrite Z.ldiff_spec, Z.bits_0.
    rewrite Z.testbit_ones_nonneg by lia.
    destruct (Z.ltb_spec n 64); [by rewrite andb_false_r|].
    rewrite andb_true_r.
    destruct (Z.eq_dec b 0) as [->|]; [apply Z.bits_0|].
    apply Z.bits_above_log2; [lia|]. apply Z.log2_lt_pow2; [lia|].
    apply Z.lt_le_trans with (2 ^ 64); [lia|]. apply Z.pow_le_mono_r; lia.
Qed.

Lemma ldiff_le_l a b : 0 <= a -> Z.ldiff a b <= a.
Proof.
  intros Ha.
  assert (Hdis : Z.land (Z.ldiff a b) (Z.land a b) = 0).
  { apply Z.bits_inj. intros n. rewrite !Z.land_spec, Z.ldiff_spec, Z.testbit_0_l.
    by destruct (Z.testbit a n), (Z.testbit b n). }
  assert (Hsum : Z.ldiff a b + Z.land a b = a)
    by by rewrite Z.add_nocarry_lxor, Z.lxor_lor, Z.lor_ldiff_and.
  assert (0 <= Z.land a b) by (apply Z.land_nonneg; by left). lia.
Qed.

Lemma ldiff_u64 a b : u64 a -> u64 (Z.ldiff a b).
Proof.
  unfold u64. intros [H0 H1]. pose proof (ldiff_le_l a b H0).
  split; [apply Z.ldiff_nonneg; by left|lia].
Qed.

(** [u64] values are closed under the bit operations. *)
Lemma u64_land_ones z : u64 z <-> Z.land z (Z.ones 64) = z.
Proof.
  unfold u64, U64_MAX. rewrite Z.land_ones by lia. split.
  - intros. apply Z.mod_small. lia.
  - intros <-. pose proof (Z.mod_pos_bound z (2 ^ 64)). lia.
Qed.

Lemma u64_land a b : u64 a -> u64 (Z.land a b).
Proof.
  rewrite !u64_land_ones. intros Ha. rewrite (Z.land_comm a b), <- Z.land_assoc. by rewrite Ha.
Qed.

Lemma u64_lor a b : u64 a -> u64 b -> u64 (Z.lor a b).
Proof. rewrite !u64_land_ones. intros Ha Hb. rewrite Z.land_lor_distr_l. by rewrite Ha, Hb. Qed.

Lemma u64_lxor a b : u64 a -> u64 b -> u64 (Z.lxor a b).
Proof.
  rewrite !u64_land_ones. intros Ha Hb. rewrite <- Ha at 2. rewrite <- Hb at 2.
  apply Z.bits_inj'. intros n Hn. rewrite !Z.land_spec, !Z.lxor_spec, !Z.land_spec.
  by destruct (Z.testbit a n), (Z.testbit b n), (Z.testbit (Z.ones 64) n).
Qed.

(** A low part and a high part put together with [|] are added. *)
Lemma lor_shiftl_add a b k :
  0 <= k -> 0 <= a < 2 ^ k -> Z.lor a (Z.shiftl b k) = a + b * 2 ^ k.
Proof.
  intros Hk Ha. rewrite <- Z.shiftl_mul_pow2 by done.
  assert (Hdis : Z.land a (Z.shiftl b k) = 0).
  { apply Z.bits_inj'. intros n Hn. rewrite Z.land_spec, Z.shiftl_spec, Z.bits_0 by done.
    destruct (Z.ltb_spec n k); [rewrite (Z.testbit_neg_r b) by lia; by rewrite andb_false_r|].
    destruct (Z.eq_dec a 0) as [->|]; [by rewrite Z.bits_0|].
    rewrite (Z.bits_above_log2 a n); [done|lia|]. apply Z.log2_lt_pow2; [lia|].
    apply Z.lt_le_trans with (2 ^ k); [lia|]. apply Z.pow_le_mono_r; lia. }
  by rewrite Z.add_nocarry_lxor, Z.lxor_lor.
Qed.

(** ** Boolean case analysis *)

(** Splits on one boolean comparison of the goal or a hypothesis, leaving
    the corresponding arithmetic fact. *)
Ltac split_bool_once :=
  match goal with
  | |- context [Z.eqb ?a ?b] => destruct (Z.eqb_spec a b)
  | |- context [Z.ltb ?a ?b] => destruct (Z.ltb_spec a b)
  | |- context [Z.leb ?a ?b] => destruct (Z.leb_spec a b)
  | |- context [Nat.eqb ?a ?b] => destruct (Nat.eqb_spec a b)
  | |- context [Nat.ltb ?a ?b] => destruct (Nat.ltb_spec a b)
  | |- context [Nat.leb ?a ?b] => destruct (Nat.leb_spec a b)
  | H : context [Z.eqb ?a ?b] |- _ => destruct (Z.eqb_spec a b)
  | H : context [Z.ltb ?a ?b] |- _ => destruct (Z.ltb_spec a b)
  | H : context [Z.leb ?a ?b] |- _ => destruct (Z.leb_spec a b)
  | H : context [Nat.eqb ?a ?b] |- _ => destruct (Nat.eqb_spec a b)
  | H : context [Nat.ltb ?a ?b] |- _ => destruct (Nat.ltb_spec a b)
  | H : context [Nat.leb ?a ?b] |- _ => destruct (Nat.leb_spec a b)
  end.
Ltac split_bool := repeat (split_bool_once; cbn [negb andb orb] in *).

(** Evaluates the comparisons that the hypotheses decide. *)
Ltac decide_bool :=
  repeat match goal with
  | |- context [Z.leb ?a ?b] =>
      first [rewrite (proj2 (Z.leb_le a b)) by lia | rewrite (proj2 (Z.leb_gt a b)) by lia]
  | |- context [Z.ltb ?a ?b] =>
      first [rewrite (proj2 (Z.ltb_lt a b)) by lia | rewrite (proj2 (Z.ltb_ge a b)) by lia]
  | |- context [Z.eqb ?a ?b] =>
      first [rewrite (proj2 (Z.eqb_eq a b)) by lia | rewrite (proj2 (Z.eqb_neq a b)) by lia]
  end; cbn [negb andb orb].

(** ** Record updates

    [setter eta proj v r] builds [r] with field [proj] replaced by [v], where
    [eta] is the eta expansion of the record. *)
Ltac setter eta proj v r :=
  let body := eval unfold eta in eta in
  let pat := eval pattern proj in body in
  match pat with
  | ?F _ => let t := eval cbv beta in (F (fun _ => v) r) in exact t
  end.

(** ** First matching slot of a fixed-size table

    [position f l] is the index of the first element that satisfies [f], the
    shape of every [for i in 0..N { if ... { return Some(i) } }] loop. *)
Fixpoint position {A} (f : A -> bool) (l : list A) : option nat :=
  match l with
  | [] => None
  | x :: l => if f x then Some O else S <$> position f l
  end.

Section position.
Context {A : Type} (f : A -> bool).
Implicit Types l : list A.

Lemma position_Some l i :
  position f l = Some i ->
  exists x, l !! i = Some x /\ f x = true /\
            (forall j y, (j < i)%nat -> l !! j = Some y -> f y = false).
Proof.
  revert i. induction l as [|x l IH]; intros i; simpl; [done|].
  destruct (f x) eqn:Hx.
  - intros [= <-]. exists x. split_and!; [done..|]. intros j y ?. lia.
  - destruct (position f l) as [k|] eqn:Hk; [|done]. intros [= <-].
    destruct (IH k eq_refl) as (y & Hy & Hf & Hlt).
    exists y. split_and!; [done..|]. intros [|j] z ? Hz; simpl in Hz.
    + by simplify_eq.
    + apply (Hlt j); [lia|done].
Qed.

Lemma position_None l :
  position f l = None <-> (forall x, x ∈ l -> f x = false).
Proof.
  induction l as [|x l IH]; simpl.
  - split; [|done]. intros _ x Hx. by apply not_elem_of_nil in Hx.
  - destruct (f x) eqn:Hx.
    + split; [done|]. intros H. by rewrite H in Hx by left.
    + destruct (position f l); simpl.
      * split; [done|]. intros H. destruct IH as [_ IH].
        discriminate IH. intros y Hy. apply H. by right.
      * split; [|done]. intros _ y [->|Hy]%elem_of_cons; [done|].
        by apply IH.
Qed.

Lemma position_lt l i : position f l = Some i -> (i < length l)%nat.
Proof. intros (x & Hx & _)%position_Some. by eapply lookup_lt_Some. Qed.
End position.

Lemma position_fmap {A B} (f : B -> bool) (g : A -> B) (l : list A) :
  position f (g <$> l) = position (fun x => f (g x)) l.
Proof. induction l as [|x l IH]; [done|]. simpl. by rewrite <- IH. Qed.

(** [find_first f l] is the element [position f l] points at. *)
Definition find_first {A} (f : A -> bool) (l : list A) : option A :=
  match position f l with
  | Some i => l !! i
  | None => None
  end.

Lemma find_first_nil {A} (f : A -> bool) : find_first f [] = None.
Proof. done. Qed.

Lemma find_first_cons {A} (f : A -> bool) x l :
  find_first f (x :: l) = if f x then Some x else find_first f l.
Proof.
  unfold find_first. simpl. destruct (f x); [done|]. by destruct (position f l).
Qed.

(** ** Counting the entries of a table that satisfy a test *)
Definition count_if {A} (f : A -> bool) (l : list A) : nat :=
  length (List.filter f l).

Lemma count_if_app {A} (f : A -> bool) l1 l2 :
  count_if f (l1 ++ l2) = (count_if f l1 + count_if f l2)%nat.
Proof. unfold count_if. by rewrite List.filter_app, length_app. Qed.

Lemma count_if_le {A} (f : A -> bool) l : (count_if f l <= length l)%nat.
Proof. unfold count_if. apply List.filter_length_le. Qed.

Lemma count_if_permutation {A} (f : A -> bool) l1 l2 :
  l1 ≡ₚ l2 -> count_if f l1 = count_if f l2.
Proof.
  unfold count_if. induction 1 as [|x l1 l2 _ IH|x y l|l1 l2 l3 _ IH1 _ IH2]; simpl.
  - done.
  - by destruct (f x); simpl; rewrite IH.
  - by destruct (f x), (f y).
  - by rewrite IH1.
Qed.

(** Overwriting a slot moves the count by the difference of the two tests. *)
Lemma count_if_insert {A} (f : A -> bool) (l : list A) i x y :
  l !! i = Some x ->
  (count_if f (<[i:=y]> l) + Nat.b2n (f x) = count_if f l + Nat.b2n (f y))%nat.
Proof.
  intros Hi. pose proof (lookup_lt_Some _ _ _ Hi).
  rewrite insert_take_drop by done.
  rewrite <- (take_drop_middle l i x Hi) at 3.
  rewrite !count_if_app. unfold count_if; simpl.
  destruct (f x), (f y); simpl; lia.
Qed.

(** ** Arrays read with [nth]

    [nth i l d] reads a fixed-size array whose index is known to be in range. *)
Lemma nth_insert_eq {A} (l : list A) i x d :
  (i < length l)%nat -> nth i (<[i := x]> l) d = x.
Proof. intros Hi. by rewrite nth_lookup, list_lookup_insert_eq. Qed.

Lemma nth_insert_ne {A} (l : list A) i j x d :
  i <> j -> nth j (<[i := x]> l) d = nth j l d.
Proof. intros Hij. by rewrite !nth_lookup, list_lookup_insert_ne. Qed.

(** Counting below a bound: all hits are among the first [n] entries. *)
Lemma count_if_bound {A} (f : A -> bool) (l : list A) n :
  (forall i x, (n <= i)%nat -> l !! i = Some x -> f x = false) ->
  (count_if f l <= n)%nat.
Proof.
  intros Hout. rewrite <- (take_drop n l), count_if_app.
  pose proof (count_if_le f (take n l)). rewrite length_take in *.
  assert (count_if f (drop n l) = 0%nat); [|lia].
  unfold count_if. assert (Hall : Forall (fun x => f x = false) (drop n l)).
  { apply Forall_lookup. intros i x. rewrite lookup_drop. apply Hout. lia. }
  induction Hall as [|x l' Hx _ IH]; [done|]. simpl. by rewrite Hx.
Qed.

(** ** Searching and counting *)
Lemma find_first_spec {A} (f : A -> bool) l :
  match find_first f l with Some x => x ∈ l /\ f x = true | None => forall x, x ∈ l -> f x = false end.
Proof.
  induction l as [|a l IH]; [by intros x ?%not_elem_of_nil|]. rewrite find_first_cons.
  destruct (f a) eqn:E; [split; [by left|done]|]. destruct (find_first f l) as [y|].
  - destruct IH. split; [by right|done].
  - by intros x [->|?]%elem_of_cons; [|apply IH].
Qed.

Lemma existsb_false_iff {A} (f : A -> bool) l : existsb f l = false <-> forall x, x ∈ l -> f x = false.
Proof.
  rewrite <- not_true_iff_false, existsb_exists. split.
  - intros H x Hx. apply not_true_iff_false. intros Hf. apply H. exists x. by rewrite <- list_elem_of_In.
  - intros H (x & Hx & Hf). apply list_elem_of_In, H in Hx. congruence.
Qed.

Lemma count_if_ext {A} (f g : A -> bool) l : (forall x, x ∈ l -> f x = g x) -> count_if f l = count_if g l.
Proof.
  intros H. unfold count_if. f_equal. apply List.filter_ext_in. intros x Hx. by apply H, list_elem_of_In.
Qed.

Lemma count_if_shift (f : Z -> bool) a n : count_if f (seqZ a n) = count_if (fun x => f (a + x)) (seqZ 0 n).
Proof.
  replace (seqZ a n) with (Z.add a <$> seqZ 0 n) by (rewrite fmap_add_seqZ; f_equal; lia).
  generalize (seqZ 0 n). intros l. induction l as [|x l IH]; [done|]. unfold count_if in *. cbn.
  destruct (f (a + x)); cbn; by rewrite IH.
Qed.

(** ** Invariants of loops written as folds *)
Lemma fold_left_inv {A B} (P : A -> Prop) (f : A -> B -> A) l a :
  (forall a x, x ∈ l -> P a -> P (f a x)) -> P a -> P (fold_left f l a).
Proof.
  revert a. induction l as [|x l IH]; intros a Hf Ha; [done|]. simpl. apply IH.
  - intros b y Hy. apply Hf. by right.
  - apply Hf; [by left|done].
Qed.

(** ** Hint database of the library *)
Create HintDb kernel discriminated.
#[export] Hint Resolve wrap_u32_range wrap_u64_range position_lt u64_land u64_lor u64_lxor : kernel.
