(* ===== verification/Bytes.v ===== *)
(** * Bytes and memory

    What the components share of Rust's integer/byte conversions
    ([uN::from_le_bytes], [to_le_bytes], [from_be_bytes]) and of raw memory: an
    address space is a finite map from 64-bit addresses to bytes, an address
    that was never written reads as zero. *)
From S2P Require Import Prelude.

Abbreviation bytes := (list Z).

(** [uN::from_le_bytes]; [from_ne_bytes] is the same on the kernel's targets. *)
Fixpoint from_le_bytes (l : bytes) : Z :=
  match l with
  | [] => 0
  | b :: l => b + 256 * from_le_bytes l
  end.

(** [to_le_bytes] of the low [n] bytes of [v]. *)
Fixpoint to_le_bytes (n : nat) (v : Z) : bytes :=
  match n with
  | O => []
  | S n => v mod 256 :: to_le_bytes n (v / 256)
  end.

(** [uN::from_be_bytes]. *)
Definition from_be_bytes (l : bytes) : Z := fold_left (fun v b => v * 256 + b) l 0.

(** [to_be_bytes] of the low [n] bytes of [v]. *)
Definition to_be_bytes (n : nat) (v : Z) : bytes := rev (to_le_bytes n v).

(** [[a..b]] of a slice. *)
Definition sub_slice (l : bytes) (a b : nat) : bytes := take (b - a) (drop a l).

Lemma from_le_bytes_bound l :
  Forall u8 l -> 0 <= from_le_bytes l < 2 ^ (8 * Z.of_nat (length l)).
Proof.
  induction 1 as [|b l Hb _ IH]; [simpl; lia|]. cbn [from_le_bytes length]. unfold u8 in Hb.
  replace (8 * Z.of_nat (S (length l))) with (8 + 8 * Z.of_nat (length l)) by lia.
  rewrite Z.pow_add_r by lia. lia.
Qed.

Lemma from_le_bytes_inj l l' :
  Forall u8 l -> Forall u8 l' -> length l = length l' ->
  from_le_bytes l = from_le_bytes l' -> l = l'.
Proof.
  intros Hl. revert l'. induction Hl as [|b l Hb Hl IH]; intros [|b' l'] Hl' Hlen Heq; try done.
  inversion Hl' as [|?? Hb' Hl'']; subst. cbn [from_le_bytes] in Heq. unfold u8 in *.
  assert (b = b') as -> by lia. f_equal. apply IH; [done|by injection Hlen|lia].
Qed.

Lemma to_le_bytes_u8 n v : Forall u8 (to_le_bytes n v).
Proof.
  revert v. induction n as [|n IH]; intros v; constructor; [|apply IH].
  unfold u8. pose proof (Z.mod_pos_bound v 256). lia.
Qed.

Lemma length_to_le_bytes n v : length (to_le_bytes n v) = n.
Proof. revert v. induction n as [|n IH]; intros v; [done|]. simpl. by rewrite IH. Qed.

Lemma from_to_le_bytes n v :
  0 <= v < 2 ^ (8 * Z.of_nat n) -> from_le_bytes (to_le_bytes n v) = v.
Proof.
  revert v. induction n as [|n IH]; intros v Hv.
  { change (2 ^ (8 * Z.of_nat 0)) with 1 in Hv. simpl. lia. }
  cbn [to_le_bytes from_le_bytes].
  replace (8 * Z.of_nat (S n)) with (8 + 8 * Z.of_nat n) in Hv by lia.
  rewrite Z.pow_add_r in Hv by lia. rewrite IH.
  - pose proof (Z.div_mod v 256). lia.
  - split; [apply Z.div_pos; lia|]. apply Z.div_lt_upper_bound; lia.
Qed.

Lemma to_from_le_bytes n l :
  Forall u8 l -> length l = n -> to_le_bytes n (from_le_bytes l) = l.
Proof.
  intros HF <-. apply from_le_bytes_inj; [apply to_le_bytes_u8|done|apply length_to_le_bytes|].
  apply from_to_le_bytes, from_le_bytes_bound, HF.
Qed.

Lemma from_be_bytes_snoc l b : from_be_bytes (l ++ [b]) = from_be_bytes l * 256 + b.
Proof. unfold from_be_bytes. by rewrite fold_left_app. Qed.

Lemma from_be_bytes_app l1 l2 :
  from_be_bytes (l1 ++ l2) = from_be_bytes l1 * 256 ^ Z.of_nat (length l2) + from_be_bytes l2.
Proof.
  induction l2 as [|b l2 IH] using rev_ind.
  - rewrite app_nil_r. change (from_be_bytes []) with 0. simpl. lia.
  - rewrite app_assoc, !from_be_bytes_snoc, IH, length_app. simpl.
    replace (Z.of_nat (length l2 + 1)) with (Z.of_nat (length l2) + 1) by lia.
    rewrite Z.pow_add_r by lia. ring.
Qed.

Lemma from_be_bytes_bound l : Forall u8 l -> 0 <= from_be_bytes l < 256 ^ Z.of_nat (length l).
Proof.
  induction l as [|b l IH] using rev_ind; [unfold from_be_bytes; simpl; lia|].
  intros [HF Hb]%Forall_app. inversion Hb as [|?? Hb' _]; subst. unfold u8 in Hb'.
  rewrite from_be_bytes_snoc, length_app. simpl.
  replace (Z.of_nat (length l + 1)) with (Z.of_nat (length l) + 1) by lia.
  rewrite Z.pow_add_r by lia. specialize (IH HF). nia.
Qed.

Lemma from_be_bytes_inj l l' :
  Forall u8 l -> Forall u8 l' -> length l = length l' -> from_be_bytes l = from_be_bytes l' -> l = l'.
Proof.
  revert l'. induction l as [|b l IH] using rev_ind; intros l' HF HF' Hlen Heq.
  { by destruct l'. }
  destruct l' as [|b' l' _] using rev_ind; [rewrite length_app in Hlen; simpl in Hlen; lia|].
  rewrite !length_app in Hlen. simpl in Hlen.
  apply Forall_app in HF as [HF Hb], HF' as [HF' Hb'].
  inversion Hb as [|?? Hb1 _]; inversion Hb' as [|?? Hb1' _]; subst. unfold u8 in *.
  rewrite !from_be_bytes_snoc in Heq.
  assert (b = b') as -> by lia. f_equal. apply IH; [done|done|lia|lia].
Qed.

Lemma from_to_be_bytes n v :
  0 <= v < 2 ^ (8 * Z.of_nat n) -> from_be_bytes (to_be_bytes n v) = v.
Proof.
  intros Hv. rewrite <- (from_to_le_bytes n v) at 2 by done. unfold to_be_bytes.
  induction (to_le_bytes n v) as [|b l IH]; [done|].
  cbn [rev from_le_bytes]. rewrite from_be_bytes_snoc, IH. lia.
Qed.

Lemma length_to_be_bytes n v : length (to_be_bytes n v) = n.
Proof. unfold to_be_bytes. by rewrite length_rev, length_to_le_bytes. Qed.

Lemma to_be_bytes_u8 n v : Forall u8 (to_be_bytes n v).
Proof. apply Forall_rev, to_le_bytes_u8. Qed.

Lemma length_sub_slice (l : bytes) a b :
  (a <= b)%nat -> (b <= length l)%nat -> length (sub_slice l a b) = (b - a)%nat.
Proof. intros. unfold sub_slice. rewrite length_take, length_drop. lia. Qed.

Lemma Forall_sub_slice (P : Z -> Prop) (l : bytes) a b : Forall P l -> Forall P (sub_slice l a b).
Proof. intros HF. unfold sub_slice. by apply Forall_take, Forall_drop. Qed.

Lemma sub_slice_app_l (l l' : bytes) a b :
  (b <= length l)%nat -> sub_slice (l ++ l') a b = sub_slice l a b.
Proof.
  intros Hb. unfold sub_slice. destruct (decide (a <= length l)%nat).
  - rewrite drop_app_le by done. apply take_app_le. rewrite length_drop. lia.
  - replace (b - a)%nat with 0%nat by lia. done.
Qed.

(** ** Memory *)
Abbreviation memory := (gmap Z Z).

Definition load_byte (m : memory) (a : Z) : Z := default 0 (m !! wrap_u64 a).

Definition load_bytes (m : memory) (a : Z) (n : nat) : bytes :=
  (fun i => load_byte m (a + Z.of_nat i)) <$> seq 0 n.

Fixpoint store_bytes (m : memory) (a : Z) (l : bytes) : memory :=
  match l with
  | [] => m
  | b :: l => store_bytes (<[wrap_u64 a := b]> m) (a + 1) l
  end.

(** Every cell holds a byte. *)
Definition store_ok (m : memory) : Prop := map_Forall (fun _ => u8) m.

Lemma length_load_bytes m a n : length (load_bytes m a n) = n.
Proof. unfold load_bytes. by rewrite length_fmap, length_seq. Qed.

Lemma load_bytes_u8 m a n : store_ok m -> Forall u8 (load_bytes m a n).
Proof.
  intros Hm. apply Forall_fmap, Forall_true. intros i. simpl. unfold load_byte.
  destruct (m !! _) eqn:E; [by apply (Hm _ _ E)|]. simpl. unfold u8. lia.
Qed.

Lemma store_bytes_ok m a l : store_ok m -> Forall u8 l -> store_ok (store_bytes m a l).
Proof.
  intros Hm HF. revert m a Hm. induction HF as [|b l Hb _ IH]; intros m a Hm; [done|].
  apply IH. by apply map_Forall_insert_2.
Qed.

(** A write to [[a, a + length l)] leaves every other address alone. *)
Lemma load_byte_store_bytes_ne m a l x :
  0 <= a -> a + Z.of_nat (length l) <= 2 ^ 64 -> 0 <= x < 2 ^ 64 ->
  x < a \/ a + Z.of_nat (length l) <= x ->
  load_byte (store_bytes m a l) x = load_byte m x.
Proof.
  revert m a. induction l as [|b l IH]; intros m a Ha Hl Hx Hd; [done|].
  cbn [store_bytes length] in *. rewrite IH by lia. unfold load_byte.
  rewrite lookup_insert_ne; [done|]. rewrite !wrap_u64_small by (unfold u64, U64_MAX; lia). lia.
Qed.

Lemma load_store_bytes m a l :
  0 <= a -> a + Z.of_nat (length l) <= 2 ^ 64 -> load_bytes (store_bytes m a l) a (length l) = l.
Proof.
  intros Ha Hl. revert m a Ha Hl. induction l as [|b l IH]; intros m a Ha Hl; [done|].
  cbn [store_bytes length] in *. unfold load_bytes. cbn [seq fmap list_fmap]. f_equal.
  - rewrite Z.add_0_r, load_byte_store_bytes_ne by lia. unfold load_byte.
    by rewrite lookup_insert_eq.
  - rewrite <- (IH (<[wrap_u64 a := b]> m) (a + 1)) at 2 by lia. unfold load_bytes.
    rewrite <- fmap_S_seq, <- list_fmap_compose. apply list_fmap_ext. intros i x _. simpl.
    f_equal. lia.
Qed.
