(* ===== verification/UndoLog.v ===== *)
(** * The undo log of a recovery domain

    Model of [src/kernel/framework/barrier/undo_log.rs] and of the entry type
    of [barrier/types.rs]: the byte memory the log points into, the FNV-1a
    checksum, [record], [rollback_to] and the two compactions.  The fixed array
    [entries] is a list of [MAX_UNDO_ENTRIES] slots of which the first [count]
    are live, as in the source.

    The theorems: what [record] and [rollback_to] do to the log on every branch
    ([rollback_to_pops], [record_keeps_first_of_generation]), the effect of the
    checksum gate on memory ([rollback_to_restores_nothing]), the compactions
    ([emergency_compact_keeps_newest], [record_full_log_panics]). *)

From S2P Require Import Prelude.

Definition MAX_UNDO_ENTRIES : nat := 256.

(** ** Memory: bytes by address; an address never written reads 0. *)

Definition mem_byte (m : gmap Z Z) (a : Z) : Z := default 0 (m !! a).

Definition mem_read (m : gmap Z Z) (p : Z) (n : nat) : list Z :=
  (fun i => mem_byte m (p + Z.of_nat i)) <$> seq 0 n.

Fixpoint mem_write (m : gmap Z Z) (p : Z) (bs : list Z) : gmap Z Z :=
  match bs with
  | [] => m
  | b :: bs => mem_write (<[p := b]> m) (p + 1) bs
  end.

(** Two memories are the same when every byte reads the same. *)
Definition mem_same (m1 m2 : gmap Z Z) : Prop :=
  forall a, mem_byte m1 a = mem_byte m2 a.

(** ** The log *)

Module UndoLog.

Definition fnv1a_32 (data : list Z) : Z :=
  fold_left (fun h b => wrap_u32 (Z.lxor h b * 16777619)) data 2166136261.

Record UndoEntry := mkUndoEntry {
  generation : Z;
  field_ptr : Z;
  old_value : list Z;
  value_size : nat;
  checksum : Z;
}.

Definition empty_entry : UndoEntry := mkUndoEntry 0 0 (replicate 8 0) 0 0.

Record UndoLog := mkUndoLog {
  entries : list UndoEntry;
  count : nat;
  current_generation : Z;
}.

Definition new : UndoLog :=
  mkUndoLog (replicate MAX_UNDO_ENTRIES empty_entry) 0 0.

Definition set_current_generation (g : Z) (log : UndoLog) : UndoLog :=
  mkUndoLog (entries log) (count log) g.

(** The live entries, oldest first. *)
Definition live (log : UndoLog) : list UndoEntry :=
  take (count log) (entries log).

(** *** [raw]: the pointer primitives *)

Definition read_field (bytes : list Z) (size : nat) : list Z :=
  take size bytes ++ replicate (8 - size) 0.

Definition write_field (m : gmap Z Z) (ptr : Z) (bytes : list Z) (size : nat)
    : gmap Z Z :=
  mem_write m ptr (take size bytes).

Definition compute_checksum (m : gmap Z Z) (ptr : Z) (size : nat) : Z :=
  fnv1a_32 (mem_read m ptr size).

(** *** [emergency_compact] *)

(** One iteration over an entry: [temp] and [seen] are the arrays filled so
    far, in the order they were filled. *)
Definition emergency_step (keep_gen : Z) (acc : list UndoEntry * list Z)
    (entry : UndoEntry) : list UndoEntry * list Z :=
  let '(temp, seen) := acc in
  if keep_gen <=? generation entry then
    if existsb (Z.eqb (field_ptr entry)) seen then (temp, seen)
    else
      let seen := if (length seen <? 64)%nat
                  then seen ++ [field_ptr entry] else seen in
      if (length temp <? MAX_UNDO_ENTRIES)%nat
      then (temp ++ [entry], seen) else (temp, seen)
  else if (length temp <? MAX_UNDO_ENTRIES)%nat
       then (temp ++ [entry], seen) else (temp, seen).

Definition emergency_compact (log : UndoLog) (keep_gen : Z) : UndoLog :=
  let '(temp, _) :=
    fold_left (emergency_step keep_gen) (rev (live log)) ([], []) in
  mkUndoLog (rev temp ++ drop (length temp) (entries log)) (length temp)
    (current_generation log).

(** *** [record]: [value] is the byte image of the [old_value : T]. *)

Definition same_field_now (log : UndoLog) (ptr : Z) (e : UndoEntry) : bool :=
  (field_ptr e =? ptr) && (generation e =? current_generation log).

(** The duplicate scan, newest entry first. *)
Fixpoint scan_duplicate (cur ptr : Z) (newest_first : list UndoEntry) : bool :=
  match newest_first with
  | [] => false
  | e :: rest =>
      if generation e <? cur then false
      else if field_ptr e =? ptr then true
      else scan_duplicate cur ptr rest
  end.

Definition already_recorded (log : UndoLog) (ptr : Z) : bool :=
  match last (live log) with
  | Some e => same_field_now log ptr e
  | None => false
  end || scan_duplicate (current_generation log) ptr (rev (live log)).

Definition push (log : UndoLog) (e : UndoEntry) : outcome UndoLog :=
  if (count log <? length (entries log))%nat
  then Done (mkUndoLog (<[count log := e]> (entries log)) (S (count log))
               (current_generation log))
  else Panic.

Definition make_entry (gen ptr : Z) (value : list Z) : UndoEntry :=
  let size := Nat.min (length value) 8 in
  let old_bytes := read_field value size in
  mkUndoEntry gen ptr old_bytes size (fnv1a_32 (take size old_bytes)).

Definition record (log : UndoLog) (ptr : Z) (value : list Z) : outcome UndoLog :=
  if already_recorded log ptr then Done log
  else
    let log :=
      if (MAX_UNDO_ENTRIES <=? count log)%nat
      then emergency_compact log (sat_sub (current_generation log) 1)
      else log in
    push log (make_entry (current_generation log) ptr value).

(** *** [compact_keeping] *)

(** The first 16 generation starts among the live entries, with the running
    index and the previous generation. *)
Fixpoint gen_starts_from (i : nat) (prev : Z) (acc : list nat)
    (es : list UndoEntry) : list nat :=
  match es with
  | [] => acc
  | e :: es =>
      if generation e =? prev then gen_starts_from (S i) prev acc es
      else gen_starts_from (S i) (generation e)
             (if (length acc <? 16)%nat then acc ++ [i] else acc) es
  end.

Definition gen_starts (log : UndoLog) : list nat :=
  gen_starts_from 0 U64_MAX [] (live log).

Definition compact_keeping (log : UndoLog) (keep_generations : nat) : UndoLog :=
  if (count log =? 0)%nat then log
  else
    let starts := gen_starts log in
    let gen_count := length starts in
    let keep := Nat.min keep_generations gen_count in
    if (keep <? gen_count)%nat && (0 <? keep)%nat then
      let keep_from := nth (gen_count - keep) starts 0%nat in
      let new_count := (count log - keep_from)%nat in
      mkUndoLog
        (take new_count (drop keep_from (entries log)) ++
         drop new_count (entries log))
        new_count (current_generation log)
    else log.

Definition compact (log : UndoLog) : UndoLog := compact_keeping log 4.

(** *** [rollback_to] *)

(** The checksum gate and the write back of one entry. *)
Definition undo_entry (m : gmap Z Z) (e : UndoEntry) : gmap Z Z :=
  if compute_checksum m (field_ptr e) (value_size e) =? checksum e
  then write_field m (field_ptr e) (old_value e) (value_size e)
  else m.

Fixpoint rollback_loop (es : list UndoEntry) (target : Z) (n : nat)
    (m : gmap Z Z) (rolled_back : nat) : outcome (nat * gmap Z Z * nat) :=
  match n with
  | O => Done (O, m, rolled_back)
  | S k =>
      match es !! k with
      | None => Panic
      | Some e =>
          if generation e <? target then Done (n, m, rolled_back)
          else rollback_loop es target k (undo_entry m e) (S rolled_back)
      end
  end.

Definition rollback_to (log : UndoLog) (target_generation : Z) (m : gmap Z Z)
    : outcome (UndoLog * gmap Z Z * nat) :=
  '(n, m, rolled_back) ←
     rollback_loop (entries log) target_generation (count log) m 0;
  let log := mkUndoLog (entries log) n (current_generation log) in
  let log := if (MAX_UNDO_ENTRIES / 2 <? n)%nat then compact log else log in
  Done (log, m, rolled_back).

End UndoLog.

(** ** Memory lemmas *)

#[export] Instance mem_same_equivalence : Equivalence mem_same.
Proof.
  split; unfold mem_same; [done| |].
  - by intros m1 m2 H a.
  - intros m1 m2 m3 H1 H2 a. by rewrite H1, H2.
Qed.

#[export] Instance mem_read_proper :
  Proper (mem_same ==> eq ==> eq ==> eq) mem_read.
Proof.
  intros m1 m2 H p ? <- n ? <-. unfold mem_read.
  apply list_fmap_ext. intros i x _. apply H.
Qed.

Lemma mem_byte_insert m a b a' :
  mem_byte (<[a := b]> m) a' = if decide (a = a') then b else mem_byte m a'.
Proof. unfold mem_byte. rewrite lookup_insert. by case_decide. Qed.

#[export] Instance mem_insert_proper a b :
  Proper (mem_same ==> mem_same) (insert a b).
Proof. intros m1 m2 H a'. rewrite !mem_byte_insert. by case_decide. Qed.

#[export] Instance mem_write_proper :
  Proper (mem_same ==> eq ==> eq ==> mem_same) mem_write.
Proof.
  intros m1 m2 H p ? <- bs ? <-. revert m1 m2 H p.
  induction bs as [|b bs IH]; intros m1 m2 H p; simpl; [done|].
  apply IH. by apply mem_insert_proper.
Qed.

Lemma length_mem_read m p n : length (mem_read m p n) = n.
Proof. unfold mem_read. by rewrite length_fmap, length_seq. Qed.

Lemma mem_read_S m p n :
  mem_read m p (S n) = mem_byte m p :: mem_read m (p + 1) n.
Proof.
  unfold mem_read. simpl. f_equal; [f_equal; lia|].
  rewrite <- seq_shift, <- list_fmap_compose.
  apply list_fmap_ext. intros i x _. unfold compose. f_equal. lia.
Qed.

(** Writing back what is there already changes nothing. *)
Lemma mem_write_read m p n : mem_same (mem_write m p (mem_read m p n)) m.
Proof.
  revert m p. induction n as [|n IH]; intros m p; [done|].
  rewrite mem_read_S. simpl.
  assert (Hid : mem_same (<[p := mem_byte m p]> m) m).
  { intros a. rewrite mem_byte_insert. by case_decide; subst. }
  transitivity (mem_write m (p + 1) (mem_read m (p + 1) n)); [|apply IH].
  by apply mem_write_proper.
Qed.

Module UndoLogFacts.
Import UndoLog.

(** ** Well-formedness *)

Definition entry_ok (e : UndoEntry) : Prop :=
  length (old_value e) = 8%nat /\ (value_size e <= 8)%nat /\
  checksum e = fnv1a_32 (take (value_size e) (old_value e)).

Definition log_ok (log : UndoLog) : Prop :=
  length (entries log) = MAX_UNDO_ENTRIES /\
  (count log <= MAX_UNDO_ENTRIES)%nat /\ Forall entry_ok (live log).

(** The live generations never decrease and none is in the future. *)
Definition gens_ok (log : UndoLog) : Prop :=
  StronglySorted (fun e1 e2 => generation e1 <= generation e2) (live log) /\
  Forall (fun e => generation e <= current_generation log) (live log).

Lemma log_ok_new : log_ok new.
Proof. split_and!; [done|simpl; lia|constructor]. Qed.

Lemma length_live log : log_ok log -> length (live log) = count log.
Proof. intros (Hl & Hc & _). unfold live. rewrite length_take. lia. Qed.

Lemma entry_ok_make gen ptr value : entry_ok (make_entry gen ptr value).
Proof.
  unfold make_entry, entry_ok, read_field. simpl.
  rewrite length_app, length_take, length_replicate. split_and!; [lia..|done].
Qed.

Lemma push_spec log e :
  log_ok log -> (count log < MAX_UNDO_ENTRIES)%nat -> entry_ok e ->
  exists log', push log e = Done log' /\ log_ok log' /\
    live log' = live log ++ [e] /\
    current_generation log' = current_generation log.
Proof.
  intros Hok Hc He. pose proof (length_live _ Hok) as Hlen.
  destruct Hok as (Hl & _ & Hf). unfold push.
  rewrite (proj2 (Nat.ltb_lt _ _)) by lia. eexists. split; [done|].
  set (log' := mkUndoLog _ _ _).
  assert (Hlive : live log' = live log ++ [e]).
  { unfold live, log'. simpl.
    rewrite (take_S_r _ _ e).
    - by rewrite take_insert_ge by lia.
    - apply list_lookup_insert_eq. lia. }
  split_and!; [|done|done]. unfold log_ok. rewrite Hlive. split_and!.
  - unfold log'. simpl. by rewrite length_insert.
  - unfold log'. simpl. lia.
  - apply Forall_app_2; [done|by constructor].
Qed.

(** ** [rollback_to] *)

Lemma rollback_loop_spec es target n m r :
  (n <= length es)%nat ->
  exists keep popped,
    take n es = keep ++ popped /\
    rollback_loop es target n m r
      = Done (length keep, foldl undo_entry m (rev popped),
              (r + length popped)%nat) /\
    Forall (fun e => target <= generation e) popped /\
    (forall e, last keep = Some e -> generation e < target).
Proof.
  revert m r. induction n as [|k IH]; intros m r Hn.
  { exists [], []. split_and!; [done| |constructor|done].
    simpl. by rewrite Nat.add_0_r. }
  destruct (lookup_lt_is_Some_2 es k) as [e He]; [lia|].
  simpl. rewrite He, (take_S_r _ _ _ He).
  destruct (Z.ltb_spec (generation e) target) as [Hlt|Hge].
  - exists (take k es ++ [e]), []. rewrite app_nil_r. split_and!.
    + done.
    + rewrite length_app, length_take. simpl. do 3 f_equal; lia.
    + constructor.
    + intros e' Hl. rewrite last_snoc in Hl. by simplify_eq.
  - destruct (IH (undo_entry m e) (S r)) as (keep & popped & Ht & Hr & Hp & Hk);
      [lia|].
    exists keep, (popped ++ [e]). rewrite Hr, Ht, rev_app_distr, length_app.
    split_and!; [by rewrite app_assoc| |by apply Forall_app_2; [|constructor]|done].
    simpl. do 2 f_equal. lia.
Qed.

(** *** The compactions keep a suffix *)

Lemma gen_starts_from_bound i prev acc es n :
  Forall (fun k => (k < n)%nat) acc -> (i + length es <= n)%nat ->
  Forall (fun k => (k < n)%nat) (gen_starts_from i prev acc es).
Proof.
  revert i prev acc. induction es as [|e es IH]; intros i prev acc Ha Hn;
    simpl in *; [done|].
  split_bool; apply IH; try lia; [done| |done].
  apply Forall_app_2; [done|]. constructor; [lia|constructor].
Qed.

(** The entries in runs of one generation; a compaction keeps the last of the
    first sixteen runs and everything behind them. *)
Fixpoint runs (es : list UndoEntry) : list (list UndoEntry) :=
  match es with
  | [] => []
  | e :: es =>
      match runs es with
      | (e' :: r) :: rs =>
          if generation e' =? generation e then (e :: e' :: r) :: rs
          else [e] :: (e' :: r) :: rs
      | rs => [e] :: rs
      end
  end.

Definition newest_runs (k : nat) (es : list UndoEntry) : list UndoEntry :=
  concat (drop (Nat.min 16 (length (runs es)) - k) (runs es)).

(** Where the runs start. *)
Fixpoint offsets (rs : list (list UndoEntry)) : list nat :=
  match rs with
  | [] => []
  | r :: rs => O :: ((fun i => length r + i)%nat <$> offsets rs)
  end.

Lemma runs_cons e es : exists r rs, runs (e :: es) = (e :: r) :: rs.
Proof.
  simpl. destruct (runs es) as [|[|e' r] rs]; eauto. case_match; eauto.
Qed.

Lemma concat_runs es : concat (runs es) = es.
Proof.
  induction es as [|e es IH]; [done|]. simpl. destruct (runs es) as [|[|e' r] rs]; simpl in *.
  - by rewrite <- IH.
  - by rewrite <- IH.
  - case_match; simpl; by rewrite <- IH.
Qed.

Lemma length_offsets rs : length (offsets rs) = length rs.
Proof. induction rs as [|r rs IH]; [done|]. simpl. by rewrite length_fmap, IH. Qed.

Lemma drop_offset rs k o : offsets rs !! k = Some o -> drop o (concat rs) = concat (drop k rs).
Proof.
  revert k o. induction rs as [|r rs IH]; intros [|k] o Hk; simpl in *; [done..|by simplify_eq|].
  rewrite list_lookup_fmap in Hk. apply fmap_Some in Hk as (o' & Ho & ->).
  rewrite <- (IH k o' Ho). by rewrite drop_app_add.
Qed.

(** The scan, without its limit of sixteen. *)
Fixpoint starts (i : nat) (prev : Z) (es : list UndoEntry) : list nat :=
  match es with
  | [] => []
  | e :: es =>
      if generation e =? prev then starts (S i) prev es
      else i :: starts (S i) (generation e) es
  end.

Lemma gen_starts_from_take i prev acc es : (length acc <= 16)%nat ->
  gen_starts_from i prev acc es = take 16 (acc ++ starts i prev es).
Proof.
  revert i prev acc. induction es as [|e es IH]; intros i prev acc Ha; simpl.
  { rewrite app_nil_r. by rewrite firstn_all2 by lia. }
  destruct (generation e =? prev); [by apply IH|].
  destruct (Nat.ltb_spec (length acc) 16).
  - rewrite IH by (rewrite length_app; simpl; lia). by rewrite <- app_assoc.
  - rewrite IH by done. by rewrite !take_app_le by lia.
Qed.

Definition from_runs (i : nat) (prev : Z) (es : list UndoEntry) : list nat :=
  (fun k => i + k)%nat <$>
    match es with
    | e :: _ => if generation e =? prev then tail (offsets (runs es)) else offsets (runs es)
    | [] => []
    end.

Lemma starts_runs i prev es : starts i prev es = from_runs i prev es.
Proof.
  revert i prev. induction es as [|e es IH]; intros i prev; [done|].
  unfold from_runs. destruct es as [|e' es].
  { simpl. destruct (generation e =? prev); simpl; [done|]. f_equal. lia. }
  destruct (runs_cons e' es) as (r & rs & Hr).
  assert (Htail : starts (S i) (generation e) (e' :: es) =
    (fun k => i + k)%nat <$> tail (offsets (runs (e :: e' :: es)))).
  { rewrite IH. unfold from_runs. change (runs (e :: e' :: es)) with
      (match runs (e' :: es) with (x :: r) :: rs => if generation x =? generation e then (e :: x :: r) :: rs else [e] :: (x :: r) :: rs | rs => [e] :: rs end).
    rewrite Hr. destruct (generation e' =? generation e); simpl; rewrite <- !list_fmap_compose; [|f_equal; [lia|]];
      apply list_fmap_ext; intros ? x _; unfold compose; simpl; lia. }
  cbn [starts]. destruct (runs_cons e (e' :: es)) as (r2 & rs2 & Hr2). rewrite Hr2 in *. cbn [offsets tail] in *.
  destruct (Z.eqb_spec (generation e) prev) as [<-|Hne]; [exact Htail|].
  rewrite fmap_cons. f_equal; [lia|exact Htail].
Qed.

Lemma gen_starts_runs log : (forall e, head (live log) = Some e -> generation e <> U64_MAX) ->
  gen_starts log = take 16 (offsets (runs (live log))).
Proof.
  intros Hh. unfold gen_starts. rewrite gen_starts_from_take by (simpl; lia). simpl app. rewrite starts_runs.
  unfold from_runs. destruct (live log) as [|e es]; [done|].
  destruct (Z.eqb_spec (generation e) U64_MAX) as [He|]; [by destruct (Hh e)|]. by rewrite list_fmap_id.
Qed.

Lemma compact_keeping_spec log k :
  log_ok log ->
  log_ok (compact_keeping log k) /\
  live (compact_keeping log k) `suffix_of` live log /\
  ((0 < k)%nat -> (forall e, head (live log) = Some e -> generation e <> U64_MAX) ->
   live (compact_keeping log k) = newest_runs k (live log)).
Proof.
  intros Hok. pose proof (length_live _ Hok) as Hlen.
  assert (Hb : Forall (fun i => (i < count log)%nat) (gen_starts log)).
  { apply gen_starts_from_bound; [constructor|lia]. }
  destruct Hok as (Hl & Hc & Hf).
  assert (Hlg : (forall e, head (live log) = Some e -> generation e <> U64_MAX) ->
    length (gen_starts log) = Nat.min 16 (length (runs (live log)))).
  { intros Hh. rewrite gen_starts_runs by done. by rewrite length_take, length_offsets. }
  unfold compact_keeping.
  destruct (Nat.eqb_spec (count log) 0) as [Hz|Hne].
  { split_and!; [done|done|]. intros _ _. unfold newest_runs. destruct (live log); [done|simpl in Hlen; lia]. }
  destruct (_ && _) eqn:Hk.
  2: { split_and!; [done|done|]. intros Hk0 Hh. unfold newest_runs. rewrite <- (Hlg Hh).
       apply andb_false_iff in Hk as [Hk%Nat.ltb_ge|Hk%Nat.ltb_ge].
       - replace (length (gen_starts log) - k)%nat with O by lia. by rewrite drop_0, concat_runs.
       - assert (length (gen_starts log) = O) as -> by lia. by rewrite drop_0, concat_runs. }
  apply andb_true_iff in Hk as [Hk1%Nat.ltb_lt Hk2%Nat.ltb_lt].
  set (from := nth _ _ _).
  assert (Hfrom : gen_starts log !! (length (gen_starts log) - Nat.min k (length (gen_starts log)))%nat = Some from).
  { unfold from. rewrite nth_lookup. destruct (gen_starts log !! _) eqn:E; [done|]. apply lookup_ge_None in E. lia. }
  assert (Hlt : (from < count log)%nat).
  { rewrite Forall_forall in Hb. apply Hb. by eapply list_elem_of_lookup_2. }
  set (log' := mkUndoLog _ _ _).
  assert (Hlive : live log' = drop from (live log)).
  { unfold live, log'. simpl. rewrite take_app_le.
    - rewrite take_take, Nat.min_id, take_drop_commute. do 2 f_equal. lia.
    - rewrite length_take, length_drop. lia. }
  rewrite Hlive. split; [|split].
  - unfold log_ok. rewrite Hlive. unfold log'. simpl. split_and!; [|lia|by apply Forall_drop].
    rewrite length_app, length_take, !length_drop. lia.
  - exists (take from (live log)). by rewrite take_drop.
  - intros _ Hh. unfold newest_runs. rewrite <- (Hlg Hh). rewrite <- (concat_runs (live log)) at 1.
    rewrite gen_starts_runs in Hfrom by done. apply lookup_take_Some in Hfrom as [Hfrom _].
    rewrite (drop_offset _ _ _ Hfrom). do 2 f_equal. rewrite gen_starts_runs in Hk1 |- * by done. lia.
Qed.

(** *** The checksum gate *)

(** The current bytes of the field the entry records do not share their
    FNV-1a checksum with different recorded bytes. *)
Definition collision_free (m : gmap Z Z) (e : UndoEntry) : Prop :=
  fnv1a_32 (mem_read m (field_ptr e) (value_size e))
    = fnv1a_32 (take (value_size e) (old_value e)) ->
  mem_read m (field_ptr e) (value_size e)
    = take (value_size e) (old_value e).

Lemma undo_entry_same m e :
  entry_ok e -> collision_free m e -> mem_same (undo_entry m e) m.
Proof.
  intros (_ & _ & Hsum) Hcf. unfold undo_entry, compute_checksum, write_field.
  destruct (Z.eqb_spec (fnv1a_32 (mem_read m (field_ptr e) (value_size e)))
              (checksum e)) as [Heq|]; [|done].
  rewrite Hsum in Heq. rewrite <- (Hcf Heq). apply mem_write_read.
Qed.

Lemma undo_entries_same m m' es :
  mem_same m' m -> Forall entry_ok es -> Forall (collision_free m) es ->
  mem_same (foldl undo_entry m' es) m.
Proof.
  intros Hm Hok Hcf. revert m' Hm.
  induction es as [|e es IH]; intros m' Hm; [done|].
  apply Forall_cons in Hok as [He Hok]. apply Forall_cons in Hcf as [Hc Hcf].
  simpl. apply IH; [done..|]. rewrite <- Hm.
  apply undo_entry_same; [done|]. unfold collision_free in *.
  by rewrite (mem_read_proper _ _ Hm _ _ eq_refl _ _ eq_refl).
Qed.

(** A byte that changes gets the byte an entry recorded. *)
Lemma mem_write_byte m p bs a :
  mem_byte (mem_write m p bs) a = mem_byte m a \/
  p <= a < p + Z.of_nat (length bs) /\ bs !! Z.to_nat (a - p) = Some (mem_byte (mem_write m p bs) a).
Proof.
  revert m p. induction bs as [|b bs IH]; intros m p; simpl; [by left|].
  destruct (IH (<[p := b]> m) (p + 1)) as [Hs|[Hr Hb]].
  - rewrite Hs, mem_byte_insert. case_decide as Hd; [|by left]. subst. right. rewrite Z.sub_diag. split; [lia|done].
  - right. split; [lia|]. replace (Z.to_nat (a - p)) with (S (Z.to_nat (a - (p + 1)))) by lia. exact Hb.
Qed.

Lemma undo_entries_bytes es m a : Forall entry_ok es ->
  mem_byte (foldl undo_entry m es) a = mem_byte m a \/
  exists e, e ∈ es /\ field_ptr e <= a < field_ptr e + Z.of_nat (value_size e) /\
    old_value e !! Z.to_nat (a - field_ptr e) = Some (mem_byte (foldl undo_entry m es) a).
Proof.
  revert m. induction es as [|e es IH]; intros m Hok; simpl; [by left|]. apply Forall_cons in Hok as [He Hok].
  destruct (IH (undo_entry m e) Hok) as [Hs|(e' & Hin & Hb)]; [|right; exists e'; by rewrite elem_of_cons; auto].
  rewrite Hs. unfold undo_entry. case_match; [|by left].
  destruct (mem_write_byte m (field_ptr e) (take (value_size e) (old_value e)) a) as [?|[Hr Hb]]; [by left|right].
  exists e. destruct He as (Hl & Hv & _). rewrite length_take in Hr. rewrite lookup_take_lt in Hb by lia.
  rewrite elem_of_cons. split_and!; [by left|lia..|exact Hb].
Qed.

(** FNV-1a is injective on single bytes: the prime is odd. *)
Lemma fnv1a_32_byte_inverse b :
  u8 b ->
  Z.lxor (wrap_u32 (fnv1a_32 [b] * 899433627)) 2166136261 = b.
Proof.
  intros Hb.
  assert (Hall : forallb (fun b =>
    Z.lxor (wrap_u32 (fnv1a_32 [b] * 899433627)) 2166136261 =? b)
      (seqZ 0 256) = true) by (vm_compute; reflexivity).
  rewrite forallb_forall in Hall. apply Z.eqb_eq, Hall.
  apply list_elem_of_In, elem_of_seqZ. unfold u8 in Hb. lia.
Qed.

Lemma fnv1a_32_byte_inj b1 b2 :
  u8 b1 -> u8 b2 -> fnv1a_32 [b1] = fnv1a_32 [b2] -> b1 = b2.
Proof.
  intros H1 H2 Heq. rewrite <- (fnv1a_32_byte_inverse b1 H1), Heq.
  by apply fnv1a_32_byte_inverse.
Qed.

(** The newest-first scan finds the current generation's entry of a field. *)
Lemma scan_duplicate_spec cur ptr es :
  StronglySorted (fun e1 e2 => generation e1 <= generation e2) es ->
  Forall (fun e => generation e <= cur) es ->
  scan_duplicate cur ptr (rev es) = true <->
  exists e, e ∈ es /\ field_ptr e = ptr /\ generation e = cur.
Proof.
  induction es as [|e es IH] using rev_ind; intros Hs Hm.
  { simpl. split; [done|]. intros (e & He & _).
    by apply not_elem_of_nil in He. }
  rewrite rev_app_distr. simpl.
  apply Forall_app in Hm as [Hm He]. rewrite Forall_singleton in He.
  pose proof (list_elem_of_singleton e e) as [_ Hin1].
  setoid_rewrite elem_of_app. setoid_rewrite list_elem_of_singleton.
  destruct (Z.ltb_spec (generation e) cur) as [Hlt|Hge].
  { split; [done|]. intros (e' & [Hin| ->] & _ & Hg); [|lia].
    pose proof (StronglySorted_app_1_elem_of _ _ _ e' e Hs Hin (Hin1 eq_refl)).
    simpl in *. lia. }
  destruct (Z.eqb_spec (field_ptr e) ptr) as [Hp|Hp].
  { split; [|done]. intros _. exists e. split_and!; [by right|done|lia]. }
  rewrite IH; [|by eapply StronglySorted_app_1_l|done].
  split; [intros (e' & ? & ? & ?); exists e'; by auto|].
  intros (e' & [?| ->] & ? & ?); [by exists e'|done].
Qed.

(** ** The theorems *)

(** The run of [rollback_to]: the loop splits the live entries and the final
    compaction sees the kept prefix. *)
Lemma rollback_to_run log target m :
  log_ok log ->
  exists keep popped log1,
    live log = keep ++ popped /\ live log1 = keep /\ log_ok log1 /\
    Forall (fun e => target <= generation e) popped /\
    (forall e, last keep = Some e -> generation e < target) /\
    rollback_to log target m
      = Done (if (128 <? length keep)%nat then compact log1 else log1,
              foldl undo_entry m (rev popped), length popped).
Proof.
  intros Hok. pose proof (length_live _ Hok) as Hlen.
  pose proof Hok as (Hl & Hc & Hf).
  destruct (rollback_loop_spec (entries log) target (count log) m 0)
    as (keep & popped & Ht & Hr & Hp & Hk); [lia|].
  unfold live in Hlen, Hf. rewrite Ht in Hf, Hlen. rewrite length_app in Hlen.
  set (log1 := mkUndoLog (entries log) (length keep) (current_generation log)).
  assert (Hlive : live log1 = keep).
  { unfold live, log1. simpl.
    replace (length keep) with (Nat.min (length keep) (count log)) by lia.
    by rewrite <- take_take, Ht, take_app_length. }
  exists keep, popped, log1. split_and!; [done|done| |done|done|].
  - unfold log_ok. rewrite Hlive. split_and!; [done|simpl; lia|].
    by apply Forall_app in Hf as [? _].
  - unfold rollback_to. by rewrite Hr.
Qed.

(** C11: [rollback_to] terminates without panicking on every well-formed log
    and pops exactly the maximal suffix of live entries whose generation is
    at least the target: it reports how many it popped, undoes them newest
    first and stops in front of the first older entry.  A byte of memory that
    changes gets the byte recorded for it by a popped entry; and as an entry is
    written back only when the field already has the recorded checksum, no byte
    changes unless a current value collides with the recorded one.  The
    remaining prefix stays in the log, when it has at most 128 entries all of
    it, and otherwise, of its runs of one generation, the last four of the
    first sixteen and all behind them (of fewer than 17 runs the last four; no
    entry is of generation 2^64 - 1). *)
Theorem rollback_to_pops log target m :
  log_ok log ->
  exists keep popped log' m',
    live log = keep ++ popped /\
    rollback_to log target m = Done (log', m', length popped) /\
    m' = foldl undo_entry m (rev popped) /\
    (forall a, mem_byte m' a <> mem_byte m a -> exists e, e ∈ popped /\
       field_ptr e <= a < field_ptr e + Z.of_nat (value_size e) /\
       old_value e !! Z.to_nat (a - field_ptr e) = Some (mem_byte m' a)) /\
    (Forall (collision_free m) popped -> mem_same m' m) /\
    Forall (fun e => target <= generation e) popped /\
    (forall e, last keep = Some e -> generation e < target) /\
    (Forall (fun e => generation e <> U64_MAX) keep ->
     live log' = if (128 <? length keep)%nat then newest_runs 4 keep else keep) /\
    live log' `suffix_of` keep /\
    ((length keep <= 128)%nat -> live log' = keep) /\
    log_ok log'.
Proof.
  intros Hok. pose proof Hok as (_ & _ & Hf). destruct (rollback_to_run log target m Hok)
    as (keep & popped & log1 & Hl & Hk & Hok1 & Hp & Hlast & Hr).
  destruct (compact_keeping_spec log1 4 Hok1) as (Hcok & Hcs & Hcr).
  rewrite Hk in Hcs, Hcr. rewrite Hl in Hf. apply Forall_app in Hf as [_ Hf].
  do 4 eexists. split; [exact Hl|]. split; [exact Hr|]. split; [done|].
  split; [|split; [|split; [exact Hp|split; [exact Hlast|]]]].
  - intros a Ha. destruct (undo_entries_bytes (rev popped) m a) as [Hs|(e & He & Hb)]; [by apply Forall_rev|done|].
    exists e. split; [by apply list_elem_of_In, in_rev, list_elem_of_In|done].
  - intros Hcf. apply undo_entries_same; [done|by apply Forall_rev..].
  - destruct (Nat.ltb_spec 128 (length keep)); split_and!; rewrite ?Hk; try done; intros; try lia.
    apply Hcr; [lia|]. intros e He. destruct keep as [|e' keep]; [done|]. injection He as ->. by inversion_clear H0.
Qed.

(** The scan of [record] is exact.  In a log whose generations are
    ordered, a field counts as recorded precisely when some live entry of
    the current generation has its address; so the first value recorded for
    a field in a generation is the one kept, and while the table has a free
    slot a field not yet recorded gets exactly one new entry at the end. *)
Theorem record_keeps_first_of_generation log ptr value :
  log_ok log -> gens_ok log ->
  ((exists e, e ∈ live log /\ field_ptr e = ptr /\
              generation e = current_generation log) <->
   already_recorded log ptr = true) /\
  (already_recorded log ptr = true -> record log ptr value = Done log) /\
  (already_recorded log ptr = false -> (count log < MAX_UNDO_ENTRIES)%nat ->
   exists log', record log ptr value = Done log' /\ log_ok log' /\
     live log' = live log ++ [make_entry (current_generation log) ptr value] /\
     current_generation log' = current_generation log).
Proof.
  intros Hok [Hsorted Hmax]. unfold record. split_and!.
  2: by intros ->.
  2: { intros -> Hc. rewrite (proj2 (Nat.leb_gt _ _)) by done.
       apply push_spec; auto using entry_ok_make. }
  unfold already_recorded.
  set (cur := current_generation log) in *.
  rewrite <- (scan_duplicate_spec cur ptr (live log)) by done.
  rewrite orb_true_iff.
  split; [by right|]. intros [Hlast|]; [|done].
  destruct (last (live log)) as [e|] eqn:He; [|done].
  apply (scan_duplicate_spec cur ptr (live log)); [done..|]. exists e.
  unfold same_field_now in Hlast. apply andb_true_iff in Hlast as [Hp Hg].
  apply Z.eqb_eq in Hp, Hg. split_and!; [|done..].
  by apply last_Some_elem_of.
Qed.

Definition entry1 (gen ptr old : Z) : UndoEntry := make_entry gen ptr [old].

Definition sample_log : UndoLog :=
  mkUndoLog
    ([entry1 1 100 7; entry1 2 100 8; entry1 2 200 9]
       ++ replicate 253 empty_entry) 3 2.

Lemma sample_log_ok : log_ok sample_log.
Proof.
  split_and!; [by vm_compute|vm_compute; lia|].
  change (live sample_log)
    with [entry1 1 100 7; entry1 2 100 8; entry1 2 200 9].
  repeat constructor; apply entry_ok_make.
Qed.

Lemma sample_log_gens : gens_ok sample_log.
Proof.
  split; change (live sample_log)
    with [entry1 1 100 7; entry1 2 100 8; entry1 2 200 9];
    repeat constructor; vm_compute; done.
Qed.

Lemma rollback_to_pops_witness :
  log_ok sample_log /\
  exists log' m', rollback_to sample_log 2 {[100 := 8]} = Done (log', m', 2%nat) /\
    live log' = [entry1 1 100 7] /\ mem_byte m' 100 = 8.
Proof.
  split; [exact sample_log_ok|].
  destruct (rollback_to_pops sample_log 2 {[100 := 8]} sample_log_ok)
    as (keep & popped & log' & m' & Hl & Hr & Hm & _ & _ & Hp & Hlast & _ & _ & Hk & _).
  change (live sample_log) with [entry1 1 100 7; entry1 2 100 8; entry1 2 200 9] in Hl.
  assert (Hc : keep = [entry1 1 100 7] /\ popped = [entry1 2 100 8; entry1 2 200 9]).
  { destruct keep as [|e1 [|e2 [|e3 [|e4 keep]]]]; simpl in Hl; by simplify_eq. }
  destruct Hc as [-> ->]. exists log', m'. split_and!; [exact Hr|apply Hk; simpl; lia|]. rewrite Hm. by vm_compute.
Defined.

Lemma record_keeps_first_of_generation_witness :
  record sample_log 100 [5] = Done sample_log.
Proof.
  destruct (record_keeps_first_of_generation sample_log 100 [5]
    sample_log_ok sample_log_gens) as (_ & H & _).
  apply H. vm_compute. reflexivity.
Defined.

(** The checksum gate of [rollback_to] compares the field's {e current}
    bytes with the checksum of the {e recorded} bytes, so a modified field
    is skipped and an unmodified one is rewritten with what it holds: unless
    a current value collides with the recorded one under FNV-1a, a rollback
    pops its entries and leaves every byte of memory as it was. *)
Theorem rollback_to_restores_nothing log target m :
  log_ok log -> Forall (collision_free m) (live log) ->
  exists log' m' n,
    rollback_to log target m = Done (log', m', n) /\ mem_same m' m.
Proof.
  intros Hok Hcf. pose proof Hok as (_ & _ & Hf).
  destruct (rollback_to_run log target m Hok)
    as (keep & popped & log1 & Hl & _ & _ & _ & _ & Hr).
  do 3 eexists. split; [exact Hr|]. rewrite Hl in Hcf, Hf.
  apply Forall_app in Hcf as [_ Hcf]. apply Forall_app in Hf as [_ Hf].
  apply undo_entries_same; [done|by apply Forall_rev..].
Qed.

(** A one-byte field (a [bool], a [u8]) never collides, so for such fields
    the gate makes every rollback a no-op. *)
Lemma collision_free_byte gen ptr old m :
  u8 old -> u8 (mem_byte m ptr) -> collision_free m (make_entry gen ptr [old]).
Proof.
  intros Ho Hm. unfold collision_free. cbn -[fnv1a_32].
  rewrite Z.add_0_r. intros Heq. f_equal. by apply fnv1a_32_byte_inj.
Qed.

Lemma rollback_to_restores_nothing_witness :
  Forall (collision_free {[100 := 55; 200 := 66]}) (live sample_log) /\
  exists log' m' n,
    rollback_to sample_log 1 {[100 := 55; 200 := 66]} = Done (log', m', n) /\
    mem_same m' {[100 := 55; 200 := 66]}.
Proof.
  assert (H : Forall (collision_free {[100 := 55; 200 := 66]}) (live sample_log)).
  { change (live sample_log)
      with [entry1 1 100 7; entry1 2 100 8; entry1 2 200 9].
    repeat constructor; apply collision_free_byte; by vm_compute. }
  split; [exact H|].
  apply (rollback_to_restores_nothing sample_log 1 _ sample_log_ok H).
Defined.

(** ** [emergency_compact] against a reference *)

Definition recent (keep_gen : Z) (e : UndoEntry) : bool :=
  keep_gen <=? generation e.

(** Reference: of the entries of one field in the kept generations only the
    newest survives; older generations are left alone. *)
Fixpoint keep_newest (keep_gen : Z) (es : list UndoEntry) : list UndoEntry :=
  match es with
  | [] => []
  | e :: es =>
      if recent keep_gen e &&
         existsb (fun e' => recent keep_gen e' && (field_ptr e =? field_ptr e')) es
      then keep_newest keep_gen es
      else e :: keep_newest keep_gen es
  end.

Definition recent_fields (keep_gen : Z) (es : list UndoEntry) : list Z :=
  field_ptr <$> List.filter (recent keep_gen) es.

Lemma elem_of_recent_fields k es p :
  p ∈ recent_fields k es <->
  exists e, e ∈ es /\ recent k e = true /\ field_ptr e = p.
Proof.
  unfold recent_fields. rewrite list_elem_of_fmap. split.
  - intros (e & -> & Hin%list_elem_of_In). apply filter_In in Hin as [Hin Hr].
    exists e. by rewrite list_elem_of_In.
  - intros (e & Hin & Hr & <-). exists e. split; [done|].
    apply list_elem_of_In, filter_In. by rewrite <- list_elem_of_In.
Qed.

Lemma keep_newest_length k es : (length (keep_newest k es) <= length es)%nat.
Proof. induction es as [|e es IH]; simpl; [lia|]. case_match; simpl; lia. Qed.

Lemma existsb_elem_of (p : Z) l : existsb (Z.eqb p) l = true <-> p ∈ l.
Proof.
  rewrite existsb_exists, list_elem_of_In. split.
  - by intros (x & Hx & ->%Z.eqb_eq).
  - intros Hp. exists p. by rewrite Z.eqb_refl.
Qed.

Lemma existsb_recent k e es :
  existsb (fun e' => recent k e' && (field_ptr e =? field_ptr e')) es = true <->
  field_ptr e ∈ recent_fields k es.
Proof.
  rewrite existsb_exists, elem_of_recent_fields. split.
  - intros (e' & Hin & [Hr Hp%Z.eqb_eq]%andb_true_iff). exists e'.
    by rewrite list_elem_of_In.
  - intros (e' & Hin & Hr & Hp). exists e'.
    rewrite <- list_elem_of_In, Hr, Hp, Z.eqb_refl. done.
Qed.

(** The fold runs over the reversed list; [seen] collects the recent fields
    while there are at most 64 of them. *)
Lemma emergency_fold k es :
  (length es <= MAX_UNDO_ENTRIES)%nat ->
  (length (remove_dups (recent_fields k es)) <= 64)%nat ->
  exists seen,
    fold_left (emergency_step k) (rev es) ([], [])
      = (rev (keep_newest k es), seen) /\
    NoDup seen /\ (forall p, p ∈ seen <-> p ∈ recent_fields k es).
Proof.
  induction es as [|e es IH]; intros Hlen Hdup.
  { exists []. split_and!; [done|constructor|done]. }
  destruct IH as (seen & Hfold & Hnd & Hseen); [simpl in Hlen; lia| |].
  { etrans; [|exact Hdup]. apply submseteq_length, NoDup_submseteq.
    - apply NoDup_remove_dups.
    - intros p. rewrite !elem_of_remove_dups, !elem_of_recent_fields.
      intros (e' & ? & ?). exists e'. by rewrite elem_of_cons; auto. }
  pose proof (keep_newest_length k es) as Hkl. simpl in Hlen.
  simpl. rewrite fold_left_app, Hfold. simpl.
  change (k <=? generation e) with (recent k e).
  rewrite length_rev, (proj2 (Nat.ltb_lt _ _)) by lia.
  destruct (recent k e) eqn:Hr; simpl.
  - assert (Hcase : existsb (Z.eqb (field_ptr e)) seen =
      existsb (fun e' => recent k e' && (field_ptr e =? field_ptr e')) es).
    { apply eq_true_iff_eq. by rewrite existsb_elem_of, existsb_recent. }
    rewrite <- Hcase. unfold recent_fields at 1. simpl. rewrite Hr. simpl.
    fold (recent_fields k es).
    destruct (existsb (Z.eqb (field_ptr e)) seen) eqn:Hex.
    + exists seen. split_and!; [done|done|]. intros p.
      rewrite elem_of_cons, <- Hseen. apply existsb_elem_of in Hex.
      split; [by auto|]. by intros [->|].
    + assert (Hnew : field_ptr e ∉ seen)
        by (rewrite <- existsb_elem_of, Hex; done).
      assert (Hlt : (length seen < 64)%nat).
      { apply Nat.lt_le_trans with (length (field_ptr e :: seen)); [simpl; lia|].
        etrans; [|exact Hdup]. apply submseteq_length, NoDup_submseteq.
        - by constructor.
        - intros p. rewrite elem_of_cons, Hseen, elem_of_remove_dups.
          unfold recent_fields. simpl. rewrite Hr. simpl.
          by rewrite elem_of_cons. }
      rewrite (proj2 (Nat.ltb_lt _ _) Hlt).
      exists (seen ++ [field_ptr e]). split_and!; [done| |].
      * apply NoDup_app. split_and!; [done| |by apply NoDup_singleton].
        intros p Hp ->%list_elem_of_singleton. done.
      * intros p. rewrite elem_of_app, list_elem_of_singleton, elem_of_cons, Hseen.
        tauto.
  - exists seen. unfold recent_fields. simpl. by rewrite Hr.
Qed.

Lemma keep_newest_ok k es : Forall entry_ok es -> Forall entry_ok (keep_newest k es).
Proof.
  induction 1 as [|e es He Hes IH]; simpl; [constructor|].
  case_match; [done|by constructor].
Qed.

(** While the kept generations touch at most 64 fields,
    [emergency_compact] computes the reference [keep_newest]: of several
    entries of one field in those generations only the {e newest} stays.  (The
    oldest holds the value a rollback over both generations has to restore,
    and that one is dropped.) *)
Theorem emergency_compact_keeps_newest log keep_gen :
  log_ok log ->
  (length (remove_dups (recent_fields keep_gen (live log))) <= 64)%nat ->
  live (emergency_compact log keep_gen) = keep_newest keep_gen (live log) /\
  log_ok (emergency_compact log keep_gen).
Proof.
  intros Hok Hdup. pose proof (length_live _ Hok) as Hlen.
  destruct Hok as (Hl & Hc & Hf).
  destruct (emergency_fold keep_gen (live log)) as (seen & Hfold & _);
    [lia|done|].
  pose proof (keep_newest_length keep_gen (live log)) as Hk.
  unfold emergency_compact. rewrite Hfold, rev_involutive, length_rev.
  set (log' := mkUndoLog _ _ _).
  assert (Hlive : live log' = keep_newest keep_gen (live log)).
  { unfold live at 1, log'. simpl. by rewrite take_app_length. }
  split; [done|]. split_and!.
  - unfold log'. simpl. rewrite length_app, length_drop. lia.
  - unfold log'. simpl. lia.
  - rewrite Hlive. by apply keep_newest_ok.
Qed.

Lemma emergency_compact_keeps_newest_witness :
  live (emergency_compact sample_log 1) = [entry1 2 100 8; entry1 2 200 9].
Proof.
  destruct (emergency_compact_keeps_newest sample_log 1 sample_log_ok) as [H _];
    [vm_compute; lia|]. rewrite H. vm_compute. reflexivity.
Defined.

Lemma emergency_fold_distinct k es :
  (length es <= MAX_UNDO_ENTRIES)%nat -> NoDup (field_ptr <$> es) ->
  exists seen,
    fold_left (emergency_step k) (rev es) ([], []) = (rev es, seen) /\
    (forall p, p ∈ seen -> p ∈ (field_ptr <$> es)).
Proof.
  induction es as [|e es IH]; intros Hlen Hnd.
  { exists []. by split. }
  apply NoDup_cons in Hnd as [Hnew Hnd]. simpl in Hlen.
  destruct IH as (seen & Hfold & Hseen); [lia|done|].
  simpl. rewrite fold_left_app, Hfold. simpl.
  assert (Hex : existsb (Z.eqb (field_ptr e)) seen = false).
  { apply not_true_is_false. rewrite existsb_elem_of. auto. }
  rewrite Hex, length_rev, (proj2 (Nat.ltb_lt _ _)) by lia.
  destruct (k <=? generation e), (length seen <? 64)%nat;
    eexists; (split; [done|]); intros p;
    rewrite elem_of_cons, ?elem_of_app, ?list_elem_of_singleton; intuition auto.
Qed.

(** A log whose 256 entries record 256 different fields cannot be
    compacted, and recording one more field indexes the array out of range:
    the kernel panics inside its own recovery bookkeeping. *)
Theorem record_full_log_panics log ptr value :
  log_ok log -> count log = MAX_UNDO_ENTRIES ->
  NoDup (field_ptr <$> live log) -> ptr ∉ (field_ptr <$> live log) ->
  record log ptr value = Panic.
Proof.
  intros Hok Hc Hnd Hnew. pose proof (length_live _ Hok) as Hlen.
  destruct Hok as (Hl & _ & _).
  assert (Hfresh : already_recorded log ptr = false).
  { assert (Hp : forall e, e ∈ live log -> field_ptr e <> ptr).
    { intros e He <-. by apply Hnew, list_elem_of_fmap_2. }
    unfold already_recorded. apply orb_false_iff. split.
    - destruct (last (live log)) as [e|] eqn:He; [|done].
      apply last_Some_elem_of in He. unfold same_field_now.
      by rewrite (proj2 (Z.eqb_neq _ _) (Hp e He)).
    - assert (Hp' : forall e, e ∈ rev (live log) -> field_ptr e <> ptr).
      { intros e. rewrite list_elem_of_In, <- in_rev, <- list_elem_of_In. apply Hp. }
      induction (rev (live log)) as [|e es IH]; [done|]. simpl.
      rewrite (proj2 (Z.eqb_neq _ _) (Hp' e ltac:(by left))).
      case_match; [done|]. apply IH. intros e' ?. apply Hp'. by right. }
  unfold record. rewrite Hfresh, Hc. simpl.
  destruct (emergency_fold_distinct
    (sat_sub (current_generation log) 1) (live log)) as (seen & Hfold & _);
    [lia|done|].
  unfold emergency_compact. rewrite Hfold, length_rev, Hlen. unfold push. simpl.
  rewrite length_app, length_rev, length_rev, length_drop.
  rewrite (proj2 (Nat.ltb_ge _ _)) by lia. done.
Qed.

Definition full_log : UndoLog :=
  mkUndoLog ((fun i => entry1 1 i 0) <$> seqZ 0 256) 256 1.

Lemma full_log_ok : log_ok full_log.
Proof.
  split_and!; [by vm_compute|vm_compute; lia|].
  apply Forall_take, Forall_fmap, Forall_forall.
  intros i _. apply entry_ok_make.
Qed.

Lemma record_full_log_panics_witness : record full_log 1000 [1; 2] = Panic.
Proof.
  assert (H : (field_ptr <$> live full_log) = seqZ 0 256)
    by (vm_compute; reflexivity).
  apply (record_full_log_panics full_log 1000 [1; 2] full_log_ok eq_refl).
  - rewrite H. apply NoDup_seqZ.
  - rewrite H, elem_of_seqZ. lia.
Defined.

End UndoLogFacts.
