(* ===== verification/Domain.v ===== *)
(** * Recovery domains

    Model of [src/kernel/framework/barrier/domain.rs]: the per-domain recovery
    state (failure counter, exponential backoff, crash fingerprint, capability
    degradation), the dependency tables, the ring of barrier snapshots, the
    address ranges and the CPU, heartbeat and process quotas.  Every field of
    the struct is an atomic or sits behind its own lock and each operation runs
    under the recovery manager's lock, so a domain is a value and an operation
    returns the new one.

    The theorems: the decision and effects of [try_rollback]
    ([try_rollback_cases]), the bound on rollbacks of a domain that never
    recovers ([rollbacks_bounded_and_spaced]), the capability mask invariant
    ([reachable_caps_degrade_only]), the snapshot ring against the history of
    barriers ([snapshot_ring_refines_history]) and the dependency table. *)

From S2P Require Import Prelude UndoLog.

Definition MAX_RECOVERY_DOMAINS : nat := 32.
Definition MAX_DOMAIN_DEPENDENCIES : nat := 8.
Definition DEFAULT_BARRIER_INTERVAL : Z := 100.
Definition MAX_CONSECUTIVE_FAILURES : Z := 5.
Definition BACKOFF_BASE_TICKS : Z := 100.
Definition MAX_ROLLBACK_LOG : nat := 64.
Definition MAX_BARRIER_SNAPSHOTS : nat := 8.
Definition MAX_ADDR_RANGES : nat := 16.
Definition DIRECT_MAP_SIZE : nat := 64.

Definition CAP_FS_WRITE : Z := Z.shiftl 1 0.
Definition CAP_NET_SEND : Z := Z.shiftl 1 1.
Definition CAP_PROC_CREATE : Z := Z.shiftl 1 2.

Inductive DomainState :=
  | Active
  | Freezing
  | RollingBack
  | Recovering
  | Degraded
  | Quarantined.

#[export] Instance DomainState_eq_dec : EqDecision DomainState.
Proof. solve_decision. Defined.

Module Domain.

Definition as_u32 (s : DomainState) : Z :=
  match s with
  | Active => 0
  | Freezing => 1
  | RollingBack => 2
  | Recovering => 3
  | Degraded => 4
  | Quarantined => 5
  end.

Definition from_u32 (v : Z) : option DomainState :=
  match v with
  | 0 => Some Active
  | 1 => Some Freezing
  | 2 => Some RollingBack
  | 3 => Some Recovering
  | 4 => Some Degraded
  | 5 => Some Quarantined
  | _ => None
  end.

Definition from_u32_fallback (v : Z) : DomainState :=
  default Quarantined (from_u32 v).

Record BarrierSnapshot := mkBarrierSnapshot {
  snap_generation : Z;
  snap_tick : Z;
  undo_offset : nat;
}.

(** A callback registered by the domain's owner acts on memory; the kernel
    ignores the result of the rollback callback. *)
Record RecoveryDomain := mkRecoveryDomain {
  id : Z;
  state : Z;
  barrier_generation : Z;
  barrier_interval_ticks : Z;
  next_barrier_tick : Z;
  rollback_count : Z;
  consecutive_failures : Z;
  last_crash_fingerprint : Z;
  last_rollback_time : Z;
  backoff_until : Z;
  depends_on : list (option Z);
  depended_by : list (option Z);
  dom_cap_mask : Z;
  original_cap_mask : Z;
  cpu_quota_max : Z;
  cpu_quota_period : Z;
  cpu_quota_consumed : Z;
  cpu_quota_exceeded : Z;
  proc_limit_max : Z;
  proc_limit_current : Z;
  last_heartbeat : Z;
  heartbeat_max_gap : Z;
  undo : UndoLog.UndoLog;
  capture_cb : option (gmap Z Z -> gmap Z Z);
  rollback_cb : option (gmap Z Z -> gmap Z Z);
  barrier_stack : list BarrierSnapshot;
  barrier_stack_top : Z;
  addr_ranges : list (Z * Z);
  addr_range_count : Z;
}.

Definition new (i : Z) : RecoveryDomain := {|
  id := i;
  state := as_u32 Active;
  barrier_generation := 0;
  barrier_interval_ticks := DEFAULT_BARRIER_INTERVAL;
  next_barrier_tick := DEFAULT_BARRIER_INTERVAL;
  rollback_count := 0;
  consecutive_failures := 0;
  last_crash_fingerprint := 0;
  last_rollback_time := 0;
  backoff_until := 0;
  depends_on := replicate MAX_DOMAIN_DEPENDENCIES None;
  depended_by := replicate MAX_DOMAIN_DEPENDENCIES None;
  dom_cap_mask := U64_MAX;
  original_cap_mask := U64_MAX;
  cpu_quota_max := 0;
  cpu_quota_period := 0;
  cpu_quota_consumed := 0;
  cpu_quota_exceeded := 0;
  proc_limit_max := 0;
  proc_limit_current := 0;
  last_heartbeat := 0;
  heartbeat_max_gap := 0;
  undo := UndoLog.new;
  capture_cb := None;
  rollback_cb := None;
  barrier_stack := replicate MAX_BARRIER_SNAPSHOTS (mkBarrierSnapshot 0 0 0);
  barrier_stack_top := 0;
  addr_ranges := replicate MAX_ADDR_RANGES (0, 0);
  addr_range_count := 0;
|}.

(** *** Field updates *)

Definition eta (d : RecoveryDomain) : RecoveryDomain :=
  mkRecoveryDomain (id d) (state d) (barrier_generation d)
    (barrier_interval_ticks d) (next_barrier_tick d) (rollback_count d)
    (consecutive_failures d) (last_crash_fingerprint d) (last_rollback_time d)
    (backoff_until d) (depends_on d) (depended_by d) (dom_cap_mask d)
    (original_cap_mask d) (cpu_quota_max d) (cpu_quota_period d)
    (cpu_quota_consumed d) (cpu_quota_exceeded d) (proc_limit_max d)
    (proc_limit_current d) (last_heartbeat d) (heartbeat_max_gap d) (undo d)
    (capture_cb d) (rollback_cb d) (barrier_stack d) (barrier_stack_top d)
    (addr_ranges d) (addr_range_count d).

Definition with_state (v : Z) (d : RecoveryDomain) : RecoveryDomain :=
  ltac:(setter eta state v d).
Definition with_barrier_generation (v : Z) (d : RecoveryDomain) : RecoveryDomain :=
  ltac:(setter eta barrier_generation v d).
Definition with_next_barrier_tick (v : Z) (d : RecoveryDomain) : RecoveryDomain :=
  ltac:(setter eta next_barrier_tick v d).
Definition with_rollback_count (v : Z) (d : RecoveryDomain) : RecoveryDomain :=
  ltac:(setter eta rollback_count v d).
Definition with_consecutive_failures (v : Z) (d : RecoveryDomain) : RecoveryDomain :=
  ltac:(setter eta consecutive_failures v d).
Definition with_last_crash_fingerprint (v : Z) (d : RecoveryDomain) : RecoveryDomain :=
  ltac:(setter eta last_crash_fingerprint v d).
Definition with_last_rollback_time (v : Z) (d : RecoveryDomain) : RecoveryDomain :=
  ltac:(setter eta last_rollback_time v d).
Definition with_backoff_until (v : Z) (d : RecoveryDomain) : RecoveryDomain :=
  ltac:(setter eta backoff_until v d).
Definition with_depends_on (v : list (option Z)) (d : RecoveryDomain) : RecoveryDomain :=
  ltac:(setter eta depends_on v d).
Definition with_depended_by (v : list (option Z)) (d : RecoveryDomain) : RecoveryDomain :=
  ltac:(setter eta depended_by v d).
Definition with_dom_cap_mask (v : Z) (d : RecoveryDomain) : RecoveryDomain :=
  ltac:(setter eta dom_cap_mask v d).
Definition with_cpu_quota_consumed (v : Z) (d : RecoveryDomain) : RecoveryDomain :=
  ltac:(setter eta cpu_quota_consumed v d).
Definition with_cpu_quota_exceeded (v : Z) (d : RecoveryDomain) : RecoveryDomain :=
  ltac:(setter eta cpu_quota_exceeded v d).
Definition with_last_heartbeat (v : Z) (d : RecoveryDomain) : RecoveryDomain :=
  ltac:(setter eta last_heartbeat v d).
Definition with_undo (v : UndoLog.UndoLog) (d : RecoveryDomain) : RecoveryDomain :=
  ltac:(setter eta undo v d).
Definition with_capture_cb (v : option (gmap Z Z -> gmap Z Z)) (d : RecoveryDomain) : RecoveryDomain :=
  ltac:(setter eta capture_cb v d).
Definition with_rollback_cb (v : option (gmap Z Z -> gmap Z Z)) (d : RecoveryDomain) : RecoveryDomain :=
  ltac:(setter eta rollback_cb v d).
Definition with_barrier_stack (v : list BarrierSnapshot) (d : RecoveryDomain) : RecoveryDomain :=
  ltac:(setter eta barrier_stack v d).
Definition with_barrier_stack_top (v : Z) (d : RecoveryDomain) : RecoveryDomain :=
  ltac:(setter eta barrier_stack_top v d).
Definition with_addr_ranges (v : list (Z * Z)) (d : RecoveryDomain) : RecoveryDomain :=
  ltac:(setter eta addr_ranges v d).
Definition with_addr_range_count (v : Z) (d : RecoveryDomain) : RecoveryDomain :=
  ltac:(setter eta addr_range_count v d).

(** *** State *)

Definition set_state (s : DomainState) (d : RecoveryDomain) : RecoveryDomain :=
  with_state (as_u32 s) d.

Definition get_state (d : RecoveryDomain) : DomainState :=
  from_u32_fallback (state d).

Definition is_active (d : RecoveryDomain) : bool :=
  match get_state d with
  | Active | Degraded => true
  | _ => false
  end.

(** *** Rollback admission and degradation *)

Definition apply_degradation (d : RecoveryDomain) : RecoveryDomain :=
  let failures := consecutive_failures d in
  let original := original_cap_mask d in
  if (1 <=? failures) && (failures <=? 2) then with_dom_cap_mask original d
  else if failures =? 3 then
    set_state Degraded
      (with_dom_cap_mask (Z.land original (not_u64 CAP_FS_WRITE)) d)
  else if failures =? 4 then
    set_state Degraded
      (with_dom_cap_mask
         (Z.land original
            (not_u64 (Z.lor (Z.lor CAP_FS_WRITE CAP_NET_SEND) CAP_PROC_CREATE))) d)
  else set_state Quarantined d.

Definition try_rollback (d : RecoveryDomain) (current_tick crash_fingerprint : Z)
    : RecoveryDomain * bool :=
  let failures := consecutive_failures d in
  if MAX_CONSECUTIVE_FAILURES <=? failures
  then (set_state Quarantined d, false)
  else
    let prev_fp := last_crash_fingerprint d in
    let d := with_last_crash_fingerprint crash_fingerprint d in
    if negb (crash_fingerprint =? 0) && (prev_fp =? crash_fingerprint)
    then (set_state Quarantined
            (with_consecutive_failures MAX_CONSECUTIVE_FAILURES d), false)
    else
      let backoff :=
        wrap_u64 (Z.shiftl 1 (Z.min failures 8) * BACKOFF_BASE_TICKS) in
      if current_tick <? backoff_until d then (d, false)
      else
        let d := with_backoff_until (wrap_u64 (current_tick + backoff)) d in
        let d := with_consecutive_failures
                   (wrap_u32 (consecutive_failures d + 1)) d in
        let d := with_rollback_count (wrap_u32 (rollback_count d + 1)) d in
        let d := with_last_rollback_time current_tick d in
        (apply_degradation d, true).

Definition mark_recovered (d : RecoveryDomain) : RecoveryDomain :=
  let d := with_consecutive_failures 0 d in
  with_dom_cap_mask (original_cap_mask d) d.

(** *** Dependencies *)

Definition slot_is (i : Z) (slot : option Z) : bool :=
  match slot with
  | Some x => x =? i
  | None => false
  end.

Definition slot_free (slot : option Z) : bool :=
  match slot with
  | Some _ => false
  | None => true
  end.

(** Puts [i] in the first free slot; [None] when there is none. *)
Definition fill_slot (i : Z) (deps : list (option Z)) : option (list (option Z)) :=
  match position slot_free deps with
  | Some k => Some (<[k := Some i]> deps)
  | None => None
  end.

Definition add_dependency (d : RecoveryDomain) (dependency_id : Z)
    : RecoveryDomain * bool :=
  if existsb (slot_is dependency_id) (depends_on d) then (d, true)
  else
    match fill_slot dependency_id (depends_on d) with
    | Some deps => (with_depends_on deps d, true)
    | None => (d, true)
    end.

Definition add_depended_by (d : RecoveryDomain) (dependent_id : Z)
    : RecoveryDomain * bool :=
  if existsb (slot_is dependent_id) (depended_by d) then (d, true)
  else
    match fill_slot dependent_id (depended_by d) with
    | Some deps => (with_depended_by deps d, true)
    | None => (d, false)
    end.

Definition dependency_count (d : RecoveryDomain) : nat :=
  count_if (fun s => negb (slot_free s)) (depends_on d).

Definition depends_on_id (d : RecoveryDomain) (dep_id : Z) : bool :=
  existsb (slot_is dep_id) (depends_on d).

(** *** Barrier snapshots: a ring of [MAX_BARRIER_SNAPSHOTS] slots *)

Definition push_barrier_snapshot (d : RecoveryDomain) (tick : Z)
    : RecoveryDomain :=
  let snap := mkBarrierSnapshot (barrier_generation d) tick
                (UndoLog.count (undo d)) in
  let top := Z.to_nat (barrier_stack_top d) in
  let idx := (top mod MAX_BARRIER_SNAPSHOTS)%nat in
  let d := with_barrier_stack (<[idx := snap]> (barrier_stack d)) d in
  with_barrier_stack_top (wrap_u32 (barrier_stack_top d + 1)) d.

Definition get_rollback_generation (d : RecoveryDomain) (levels_back : nat) : Z :=
  let top := Z.to_nat (barrier_stack_top d) in
  if (top =? 0)%nat then 0
  else
    let target := (top - levels_back)%nat in
    let idx := ((target - 1) mod MAX_BARRIER_SNAPSHOTS)%nat in
    match barrier_stack d !! idx with
    | Some s => snap_generation s
    | None => 0
    end.

(** *** Address ranges *)

Definition add_addr_range (d : RecoveryDomain) (start end_ : Z)
    : RecoveryDomain * bool :=
  let count := Z.to_nat (addr_range_count d) in
  if (MAX_ADDR_RANGES <=? count)%nat then (d, false)
  else
    let d := with_addr_ranges (<[count := (start, end_)]> (addr_ranges d)) d in
    (with_addr_range_count (Z.of_nat count + 1) d, true).

Definition contains_addr (d : RecoveryDomain) (addr : Z) : bool :=
  existsb (fun '(lo, hi) => (lo <=? addr) && (addr <? hi))
    (take (Z.to_nat (addr_range_count d)) (addr_ranges d)).

(** *** Quotas and health *)

Definition consume_quota_tick (d : RecoveryDomain) : RecoveryDomain * bool :=
  if cpu_quota_max d =? 0 then (d, false)
  else
    let c := wrap_u64 (cpu_quota_consumed d + 1) in
    (with_cpu_quota_consumed c d, cpu_quota_max d <=? c).

Definition heartbeat (d : RecoveryDomain) (tick : Z) : RecoveryDomain :=
  with_last_heartbeat tick d.

Definition check_quota (d : RecoveryDomain) : RecoveryDomain * bool :=
  if (cpu_quota_max d =? 0) || (cpu_quota_period d =? 0) then (d, true)
  else
    let consumed := wrap_u64 (cpu_quota_consumed d + 1) in
    let d := with_cpu_quota_consumed consumed d in
    if consumed <? cpu_quota_max d then (d, true)
    else (with_cpu_quota_exceeded (wrap_u64 (cpu_quota_exceeded d + 1)) d, false).

Definition reset_quota (d : RecoveryDomain) : RecoveryDomain :=
  with_cpu_quota_consumed 0 d.

Definition check_health (d : RecoveryDomain) (tick : Z) : RecoveryDomain * bool :=
  if heartbeat_max_gap d =? 0 then (d, true)
  else
    let last := last_heartbeat d in
    if last =? 0 then (with_last_heartbeat tick d, true)
    else (d, sat_sub tick last <=? heartbeat_max_gap d).

Definition is_quota_exceeded (d : RecoveryDomain) : bool :=
  0 <? cpu_quota_exceeded d.

Definition check_proc_limit (d : RecoveryDomain) : bool :=
  (proc_limit_max d =? 0) || (proc_limit_current d <? proc_limit_max d).

(** *** Crash fingerprints *)

Definition persist_crash_fingerprint (d : RecoveryDomain) (fp : Z)
    : RecoveryDomain :=
  if fp =? 0 then d else with_last_crash_fingerprint fp d.

Definition load_boot_fingerprint (d : RecoveryDomain) : Z :=
  last_crash_fingerprint d.

Definition clear_boot_fingerprint (d : RecoveryDomain) : RecoveryDomain :=
  with_last_crash_fingerprint 0 d.

End Domain.

Module DomainFacts.
Import Domain.

(** ** Capability tiers *)

(** The mask after the [n]-th consecutive failure, as set differences:
    full authority up to two failures, no file writes at three, neither file
    writes, sends nor process creation at four. *)
Definition tier_mask (n original current : Z) : Z :=
  if n <=? 2 then original
  else if n =? 3 then Z.ldiff original CAP_FS_WRITE
  else if n =? 4 then
    Z.ldiff original (Z.lor (Z.lor CAP_FS_WRITE CAP_NET_SEND) CAP_PROC_CREATE)
  else current.

(** The state a successful rollback leaves a domain in. *)
Definition tier_state (n : Z) (s : DomainState) : DomainState :=
  if n <=? 2 then s else if n <=? 4 then Degraded else Quarantined.

Lemma from_as_u32 s : from_u32_fallback (as_u32 s) = s.
Proof. by destruct s. Qed.

Lemma get_set_state s d : get_state (set_state s d) = s.
Proof. apply from_as_u32. Qed.

Lemma apply_degradation_spec d :
  1 <= consecutive_failures d -> u64 (original_cap_mask d) ->
  dom_cap_mask (apply_degradation d)
    = tier_mask (consecutive_failures d) (original_cap_mask d) (dom_cap_mask d) /\
  get_state (apply_degradation d)
    = tier_state (consecutive_failures d) (get_state d).
Proof.
  intros Hf Ho. unfold apply_degradation, tier_mask, tier_state.
  rewrite !land_not_u64 by (done || by vm_compute).
  split_bool; simpl; rewrite ?get_set_state; split; lia || done.
Qed.

Definition repeated_crash (d : RecoveryDomain) (fp : Z) : Prop :=
  fp <> 0 /\ last_crash_fingerprint d = fp.

Lemma repeated_crash_spec d fp :
  negb (fp =? 0) && (last_crash_fingerprint d =? fp) = true <->
  repeated_crash d fp.
Proof.
  unfold repeated_crash. rewrite andb_true_iff, negb_true_iff, Z.eqb_neq, Z.eqb_eq.
  done.
Qed.

Lemma try_rollback_limit d tick fp :
  5 <= consecutive_failures d ->
  try_rollback d tick fp = (set_state Quarantined d, false).
Proof.
  intros H. unfold try_rollback, MAX_CONSECUTIVE_FAILURES.
  by rewrite (proj2 (Z.leb_le _ _) H).
Qed.

Lemma try_rollback_repeated d tick fp :
  consecutive_failures d < 5 -> repeated_crash d fp ->
  try_rollback d tick fp
    = (set_state Quarantined
         (with_consecutive_failures 5 (with_last_crash_fingerprint fp d)), false).
Proof.
  intros Hf Hr%repeated_crash_spec. unfold try_rollback, MAX_CONSECUTIVE_FAILURES.
  by rewrite (proj2 (Z.leb_gt _ _) Hf), Hr.
Qed.

Lemma try_rollback_backing_off d tick fp :
  consecutive_failures d < 5 -> ~ repeated_crash d fp -> tick < backoff_until d ->
  try_rollback d tick fp = (with_last_crash_fingerprint fp d, false).
Proof.
  intros Hf Hr Ht. rewrite <- repeated_crash_spec in Hr.
  apply not_true_is_false in Hr. unfold try_rollback, MAX_CONSECUTIVE_FAILURES.
  rewrite (proj2 (Z.leb_gt _ _) Hf), Hr.
  cbn [with_last_crash_fingerprint backoff_until].
  by rewrite (proj2 (Z.ltb_lt _ _) Ht).
Qed.

Lemma try_rollback_admitted d tick fp :
  0 <= consecutive_failures d < 5 -> u64 (original_cap_mask d) ->
  ~ repeated_crash d fp -> backoff_until d <= tick ->
  exists d', try_rollback d tick fp = (d', true) /\
    consecutive_failures d' = consecutive_failures d + 1 /\
    backoff_until d' = wrap_u64 (tick + 100 * 2 ^ consecutive_failures d) /\
    last_rollback_time d' = tick /\
    dom_cap_mask d' = tier_mask (consecutive_failures d + 1)
                        (original_cap_mask d) (dom_cap_mask d) /\
    get_state d' = tier_state (consecutive_failures d + 1) (get_state d).
Proof.
  intros Hf Ho Hr Ht. rewrite <- repeated_crash_spec in Hr.
  apply not_true_is_false in Hr. unfold try_rollback, MAX_CONSECUTIVE_FAILURES.
  rewrite (proj2 (Z.leb_gt _ _)), Hr by lia.
  cbn -[apply_degradation wrap_u32 wrap_u64 tier_mask tier_state get_state].
  rewrite (proj2 (Z.ltb_ge _ _) Ht). eexists. split; [done|].
  set (d1 := with_last_rollback_time _ _).
  assert (Hc1 : consecutive_failures d1 = consecutive_failures d + 1).
  { apply wrap_u32_small. unfold u32, U32_MAX in *. lia. }
  destruct (apply_degradation_spec d1) as [Hmask Hstate]; [lia|done|].
  rewrite Hc1 in Hmask, Hstate.
  assert (Hkeep : consecutive_failures (apply_degradation d1) = consecutive_failures d1
    /\ backoff_until (apply_degradation d1) = backoff_until d1
    /\ last_rollback_time (apply_degradation d1) = last_rollback_time d1).
  { unfold apply_degradation. split_bool; done. }
  destruct Hkeep as (-> & -> & ->). split_and!; [done| |done|done|done].
  unfold d1. simpl. rewrite Z.min_l, Z.shiftl_1_l by lia.
  unfold BACKOFF_BASE_TICKS, wrap_u64, wrap.
  rewrite Z.add_mod_idemp_r by lia. f_equal. lia.
Qed.

(** [try_rollback] on every branch.  A domain at the failure limit or
    crashing twice with the same non-zero fingerprint is refused and
    quarantined; one still backing off is refused and keeps its state,
    counter and capabilities; otherwise the rollback is admitted, the failure
    counter grows by one, the next attempt is due [100 * 2^failures] ticks
    later and the capabilities drop to those of the new failure count. *)
Theorem try_rollback_cases d tick fp :
  0 <= consecutive_failures d -> u64 (original_cap_mask d) ->
  let '(d', ok) := try_rollback d tick fp in
  let failures := consecutive_failures d in
  let repeated := repeated_crash d fp in
  (5 <= failures \/ repeated ->
     ok = false /\ get_state d' = Quarantined /\
     5 <= consecutive_failures d' /\ dom_cap_mask d' = dom_cap_mask d) /\
  (failures < 5 -> ~ repeated -> tick < backoff_until d ->
     ok = false /\ get_state d' = get_state d /\
     consecutive_failures d' = failures /\ dom_cap_mask d' = dom_cap_mask d /\
     backoff_until d' = backoff_until d) /\
  (failures < 5 -> ~ repeated -> backoff_until d <= tick ->
     ok = true /\ consecutive_failures d' = failures + 1 /\
     backoff_until d' = wrap_u64 (tick + 100 * 2 ^ failures) /\
     last_rollback_time d' = tick /\
     dom_cap_mask d'
       = tier_mask (failures + 1) (original_cap_mask d) (dom_cap_mask d) /\
     get_state d' = tier_state (failures + 1) (get_state d)).
Proof.
  intros Hf Ho.
  destruct (decide (5 <= consecutive_failures d)) as [Hm|Hm].
  { rewrite try_rollback_limit by lia. split_and!; [|lia..]. intros _.
    by rewrite get_set_state. }
  destruct (decide (negb (fp =? 0) && (last_crash_fingerprint d =? fp) = true))
    as [Hr|Hr]; rewrite repeated_crash_spec in Hr.
  { rewrite try_rollback_repeated by (done || lia).
    split_and!; [|done..]. intros _. by rewrite get_set_state. }
  destruct (decide (tick < backoff_until d)) as [Ht|Ht].
  { rewrite try_rollback_backing_off by (done || lia).
    split_and!; [intros []; [lia|done]|done|lia]. }
  destruct (try_rollback_admitted d tick fp) as (d' & -> & H); [lia|done|done|lia|].
  split_and!; [intros []; [lia|done]|lia|]. intros _ _ _. by split.
Qed.

Lemma try_rollback_cases_witness :
  let '(d', ok) := try_rollback (with_consecutive_failures 2 (new 4)) 50 7 in
  ok = true /\ consecutive_failures d' = 3 /\ backoff_until d' = 450 /\
  get_state d' = Degraded /\ Z.testbit (dom_cap_mask d') 0 = false.
Proof.
  pose proof (try_rollback_cases (with_consecutive_failures 2 (new 4)) 50 7) as H.
  destruct (try_rollback _ _ _) as [d' ok].
  destruct H as (_ & _ & H); [by vm_compute|by vm_compute|].
  destruct H as (H1 & H2 & H3 & _ & H4 & H5);
    [done|vm_compute; by intros []|done|].
  rewrite H1, H2, H3, H4, H5. by vm_compute.
Defined.

(** ** Repeated attempts without a recovery *)

(** The ticks of the admitted rollbacks among a sequence of attempts. *)
Fixpoint attempts (d : RecoveryDomain) (calls : list (Z * Z))
    : RecoveryDomain * list Z :=
  match calls with
  | [] => (d, [])
  | (tick, fp) :: calls =>
      let '(d1, ok) := try_rollback d tick fp in
      let '(d2, ts) := attempts d1 calls in
      (d2, if ok then tick :: ts else ts)
  end.

(** Admissions [n], [n+1], ... keep exponentially growing distances. *)
Fixpoint spaced (n : Z) (ts : list Z) : Prop :=
  match ts with
  | t1 :: ((t2 :: _) as ts') => t1 + 100 * 2 ^ n <= t2 /\ spaced (n + 1) ts'
  | _ => True
  end.

Lemma try_rollback_keeps_original d tick fp :
  original_cap_mask (fst (try_rollback d tick fp)) = original_cap_mask d.
Proof.
  unfold try_rollback, apply_degradation.
  repeat (case_match; simpl); done.
Qed.

(** One attempt, as the accounting below needs it. *)
Lemma try_rollback_account d tick fp :
  0 <= consecutive_failures d <= 5 -> u64 (original_cap_mask d) ->
  0 <= tick < 2 ^ 63 ->
  let '(d', ok) := try_rollback d tick fp in
  consecutive_failures d <= consecutive_failures d' <= 5 /\
  if ok then backoff_until d <= tick /\
             consecutive_failures d' = consecutive_failures d + 1 /\
             backoff_until d' = tick + 100 * 2 ^ consecutive_failures d
  else backoff_until d' = backoff_until d /\
       (consecutive_failures d' = consecutive_failures d \/
        consecutive_failures d' = 5).
Proof.
  intros Hf Ho Ht.
  destruct (decide (5 <= consecutive_failures d)) as [Hm|Hm].
  { rewrite try_rollback_limit by lia. simpl. lia. }
  destruct (decide (negb (fp =? 0) && (last_crash_fingerprint d =? fp) = true))
    as [Hr|Hr]; rewrite repeated_crash_spec in Hr.
  { rewrite try_rollback_repeated by (done || lia). simpl. lia. }
  destruct (decide (tick < backoff_until d)) as [Hb|Hb].
  { rewrite try_rollback_backing_off by (done || lia). simpl. lia. }
  destruct (try_rollback_admitted d tick fp)
    as (d' & -> & Hc & Hu & _); [lia|done|done|lia|].
  split_and!; [lia..|]. rewrite Hu. apply wrap_u64_small.
  assert (2 ^ consecutive_failures d <= 2 ^ 4) by (apply Z.pow_le_mono_r; lia).
  assert (0 < 2 ^ consecutive_failures d) by (apply Z.pow_pos_nonneg; lia).
  unfold u64, U64_MAX. lia.
Qed.

(** As long as nothing marks the domain recovered, at most
    [MAX_CONSECUTIVE_FAILURES] minus the current count of rollback attempts
    are ever admitted, whatever the ticks and fingerprints of the crashes,
    the first not before the pending backoff, and each waits at least
    [100 * 2^n] ticks after admission [n]. *)
Theorem rollbacks_bounded_and_spaced d calls :
  0 <= consecutive_failures d <= 5 -> u64 (original_cap_mask d) ->
  Forall (fun c => 0 <= fst c < 2 ^ 63) calls ->
  let ts := snd (attempts d calls) in
  Z.of_nat (length ts) <= 5 - consecutive_failures d /\
  (forall t, head ts = Some t -> backoff_until d <= t) /\
  spaced (consecutive_failures d) ts.
Proof.
  revert d. induction calls as [|[tick fp] calls IH]; intros d Hf Ho Hc; simpl.
  { split_and!; [lia|done|done]. }
  apply Forall_cons in Hc as [Ht Hc]. simpl in Ht.
  pose proof (try_rollback_account d tick fp Hf Ho Ht) as Hacc.
  pose proof (try_rollback_keeps_original d tick fp) as Hkeep.
  destruct (try_rollback d tick fp) as [d1 ok]. simpl in Hkeep.
  specialize (IH d1). destruct (attempts d1 calls) as [d2 ts]. simpl in *.
  destruct Hacc as [Hb Hok]. rewrite Hkeep in IH.
  destruct IH as (Hlen & Hhead & Hsp); [lia|done|done|].
  destruct ok; simpl.
  - destruct Hok as (Hu & Hn & Hb').
    split_and!; [lia|by intros t [= <-]|].
    destruct ts as [|t ts]; [done|]. rewrite <- Hn. split; [|done].
    specialize (Hhead t eq_refl). lia.
  - destruct Hok as [Hb' [Heq|H5]]; rewrite Hb' in Hhead.
    + rewrite <- Heq. split_and!; [lia|done|done].
    + destruct ts; [|simpl in Hlen; lia]. split_and!; [simpl; lia|done|done].
Qed.

Definition crash_history : list (Z * Z) :=
  [(0, 1); (50, 2); (100, 3); (300, 4); (700, 5); (1500, 6); (9000, 7)].

Lemma rollbacks_bounded_and_spaced_witness :
  Z.of_nat (length (snd (attempts (new 3) crash_history))) <= 5.
Proof.
  destruct (rollbacks_bounded_and_spaced (new 3) crash_history) as [H _].
  - by vm_compute.
  - by vm_compute.
  - repeat constructor; by vm_compute.
  - exact H.
Defined.

(** ** Reachable domains *)

Inductive event :=
  | TryRollback (tick fp : Z)
  | MarkRecovered
  | SetState (s : DomainState)
  | HeartbeatLost
  | AddDependency (i : Z)
  | AddDependedBy (i : Z)
  | PushBarrier (tick : Z)
  | AddAddrRange (a b : Z)
  | ConsumeQuotaTick
  | CheckQuota
  | ResetQuota
  | Heartbeat (tick : Z)
  | CheckHealth (tick : Z)
  | PersistFingerprint (fp : Z)
  | ClearFingerprint.

Definition handle (d : RecoveryDomain) (e : event) : RecoveryDomain :=
  match e with
  | TryRollback tick fp => fst (try_rollback d tick fp)
  | MarkRecovered => mark_recovered d
  | SetState s => set_state s d
  | HeartbeatLost =>
      with_consecutive_failures (wrap_u32 (consecutive_failures d + 1)) d
  | AddDependency i => fst (add_dependency d i)
  | AddDependedBy i => fst (add_depended_by d i)
  | PushBarrier tick => push_barrier_snapshot d tick
  | AddAddrRange a b => fst (add_addr_range d a b)
  | ConsumeQuotaTick => fst (consume_quota_tick d)
  | CheckQuota => fst (check_quota d)
  | ResetQuota => reset_quota d
  | Heartbeat tick => heartbeat d tick
  | CheckHealth tick => fst (check_health d tick)
  | PersistFingerprint fp => persist_crash_fingerprint d fp
  | ClearFingerprint => clear_boot_fingerprint d
  end.

Inductive reachable (i : Z) : RecoveryDomain -> Prop :=
  | reachable_new : reachable i (new i)
  | reachable_step d e : reachable i d -> reachable i (handle d e).

(** The fields the capability invariant reads change only under these. *)
Lemma handle_caps d e :
  (forall tick fp, e <> TryRollback tick fp) -> e <> MarkRecovered ->
  dom_cap_mask (handle d e) = dom_cap_mask d /\
  original_cap_mask (handle d e) = original_cap_mask d.
Proof.
  intros H1 H2. destruct e; try (by destruct (H1 tick fp)); try done; simpl;
    unfold add_dependency, add_depended_by, add_addr_range, consume_quota_tick,
      check_quota, check_health, persist_crash_fingerprint;
    repeat (case_match; simpl); done.
Qed.

(** Whatever sequence of crashes, recoveries and maintenance a domain
    goes through, its capability mask is one of three: the original mask, the
    original without file writes, or the original without file writes, sends
    and process creation.  In particular it never exceeds the original. *)
Theorem reachable_caps_degrade_only i d :
  reachable i d ->
  original_cap_mask d = U64_MAX /\
  (dom_cap_mask d = U64_MAX \/
   dom_cap_mask d = Z.ldiff U64_MAX 1 \/ dom_cap_mask d = Z.ldiff U64_MAX 7).
Proof.
  induction 1 as [|d e Hd [IHo IHm]]; [by auto|].
  assert (Hother : (forall tick fp, e <> TryRollback tick fp) ->
    e <> MarkRecovered ->
    original_cap_mask (handle d e) = U64_MAX /\
    (dom_cap_mask (handle d e) = U64_MAX \/
     dom_cap_mask (handle d e) = Z.ldiff U64_MAX 1 \/
     dom_cap_mask (handle d e) = Z.ldiff U64_MAX 7)).
  { intros H1 H2. by destruct (handle_caps d e H1 H2) as [-> ->]. }
  destruct e; try (by apply Hother); clear Hother.
  - simpl. rewrite try_rollback_keeps_original. split; [done|].
    unfold try_rollback. repeat (case_match; [done|]). simpl.
    set (d1 := with_last_rollback_time _ _).
    assert (Ho : original_cap_mask d1 = U64_MAX) by done.
    assert (Hm : dom_cap_mask d1 = dom_cap_mask d) by done.
    clearbody d1. unfold apply_degradation. rewrite Ho.
    repeat (case_match; simpl; [by auto|]). by rewrite Hm.
  - simpl. auto.
Qed.

Lemma reachable_caps_degrade_only_witness :
  let d := fold_left handle
    [TryRollback 0 1; TryRollback 200 2; TryRollback 600 3; TryRollback 1500 4]
    (new 2) in
  Z.land (dom_cap_mask d) 7 = 0 /\
  (dom_cap_mask d = U64_MAX \/
   dom_cap_mask d = Z.ldiff U64_MAX 1 \/ dom_cap_mask d = Z.ldiff U64_MAX 7).
Proof.
  split; [by vm_compute|].
  apply (reachable_caps_degrade_only 2). repeat constructor.
Defined.

(** ** The snapshot ring *)

(** [h] lists all barrier snapshots ever pushed, oldest first; the ring holds
    the last [MAX_BARRIER_SNAPSHOTS] of them. *)
Definition ring_ok (h : list BarrierSnapshot) (d : RecoveryDomain) : Prop :=
  barrier_stack_top d = Z.of_nat (length h) /\
  length (barrier_stack d) = MAX_BARRIER_SNAPSHOTS /\
  (forall j s, (length h <= j + MAX_BARRIER_SNAPSHOTS)%nat -> h !! j = Some s ->
     barrier_stack d !! (j mod MAX_BARRIER_SNAPSHOTS)%nat = Some s).

Lemma ring_ok_new i : ring_ok [] (new i).
Proof. by split_and!. Qed.

(** Two of the last eight positions share a slot only if they are equal. *)
Lemma ring_slot_inj a b :
  (a < b)%nat -> (b < a + 8)%nat -> (a mod 8 <> b mod 8)%nat.
Proof.
  intros H1 H2 He. pose proof (Nat.div_mod_eq a 8). pose proof (Nat.div_mod_eq b 8).
  lia.
Qed.

(** The snapshot ring implements the history of barriers: pushing appends
    to the history, and asking for the generation [n] levels back, for
    [n] below the ring size and below the number of barriers taken, returns
    the generation of the barrier [n] positions before the newest. *)
Theorem snapshot_ring_refines_history h d tick :
  ring_ok h d -> Z.of_nat (length h) < U32_MAX ->
  ring_ok (h ++ [mkBarrierSnapshot (barrier_generation d) tick
                   (UndoLog.count (undo d))]) (push_barrier_snapshot d tick) /\
  (forall n, (n < length h)%nat -> (n < MAX_BARRIER_SNAPSHOTS)%nat ->
     exists s, h !! (length h - 1 - n)%nat = Some s /\
               get_rollback_generation d n = snap_generation s).
Proof.
  intros (Htop & Hlen & Hring) Hmax.
  unfold ring_ok, push_barrier_snapshot, get_rollback_generation,
    MAX_BARRIER_SNAPSHOTS in *. split.
  - rewrite Htop, Nat2Z.id.
    split_and!; cbn -[Nat.modulo wrap_u32 Z.of_nat].
    + rewrite length_app, Htop. cbn [length]. rewrite wrap_u32_small; [lia|].
      unfold u32, U32_MAX in *. lia.
    + rewrite length_insert. exact Hlen.
    + intros j s Hj. rewrite length_app in Hj. cbn [length] in Hj.
      intros Hs. destruct (decide (j = length h)) as [->|Hne].
      * rewrite list_lookup_middle in Hs by done. simplify_eq.
        apply list_lookup_insert_eq. rewrite Hlen. apply Nat.mod_upper_bound. lia.
      * apply lookup_lt_Some in Hs as Hlt. rewrite length_app in Hlt. simpl in Hlt.
        rewrite lookup_app_l in Hs by lia.
        rewrite list_lookup_insert_ne; [apply Hring; [lia|done]|].
        intros He. apply (ring_slot_inj j (length h)); lia.
  - intros n Hn H8. destruct (lookup_lt_is_Some_2 h (length h - 1 - n)) as [s Hs];
      [lia|].
    exists s. split; [done|]. rewrite Htop, Nat2Z.id. rewrite (proj2 (Nat.eqb_neq _ _)) by lia.
    replace (length h - n - 1)%nat with (length h - 1 - n)%nat by lia.
    rewrite (Hring _ s); [done|lia|done].
Qed.

Lemma snapshot_ring_refines_history_witness :
  let d0 := with_barrier_generation 1 (new 9) in
  let d1 := push_barrier_snapshot d0 100 in
  let d2 := with_barrier_generation 2 d1 in
  let d3 := push_barrier_snapshot d2 200 in
  ring_ok [mkBarrierSnapshot 1 100 0; mkBarrierSnapshot 2 200 0] d3 /\
  get_rollback_generation d3 1 = 1.
Proof.
  intros d0 d1 d2 d3.
  destruct (snapshot_ring_refines_history [] d0 100) as [H1 _];
    [apply ring_ok_new|done|].
  destruct (snapshot_ring_refines_history [mkBarrierSnapshot 1 100 0] d2 200)
    as [H2 _]; [exact H1|done|].
  split; [exact H2|]. vm_compute. reflexivity.
Defined.

(** ** Dependency tables *)

Lemma fill_slot_spec i deps :
  match fill_slot i deps with
  | Some deps' => existsb (slot_is i) deps' = true /\ existsb slot_free deps = true
  | None => existsb slot_free deps = false
  end.
Proof.
  unfold fill_slot. destruct (position slot_free deps) as [k|] eqn:Hk.
  - apply position_Some in Hk as (x & Hx & Hf & _). split.
    + apply existsb_exists. exists (Some i). split; [|apply Z.eqb_refl].
      apply list_elem_of_In, list_elem_of_lookup. exists k.
      apply list_lookup_insert_eq. by eapply lookup_lt_Some.
    + apply existsb_exists. exists x. split; [|done].
      by eapply list_elem_of_In, list_elem_of_lookup_2.
  - rewrite position_None in Hk. apply not_true_is_false.
    rewrite existsb_exists. intros (x & Hx%list_elem_of_In & Hf).
    by rewrite Hk in Hf.
Qed.

(** An edge of the dependency graph is stored in a domain's table
    exactly when it was there already or a slot was free.  [add_depended_by]
    reports that; [add_dependency] reports success always, so with all
    [MAX_DOMAIN_DEPENDENCIES] slots taken the caller is told the dependency
    was added although it is dropped. *)
Theorem add_dependency_reports_always_true d i :
  snd (add_dependency d i) = true /\
  depends_on_id (fst (add_dependency d i)) i
    = depends_on_id d i || existsb slot_free (depends_on d) /\
  existsb (slot_is i) (depended_by (fst (add_depended_by d i)))
    = snd (add_depended_by d i) /\
  snd (add_depended_by d i)
    = existsb (slot_is i) (depended_by d) || existsb slot_free (depended_by d).
Proof.
  unfold add_dependency, add_depended_by, depends_on_id.
  pose proof (fill_slot_spec i (depends_on d)) as H1.
  pose proof (fill_slot_spec i (depended_by d)) as H2.
  destruct (existsb (slot_is i) (depends_on d)) eqn:E1;
    destruct (fill_slot i (depends_on d)); simpl;
    destruct (existsb (slot_is i) (depended_by d)) eqn:E2;
    destruct (fill_slot i (depended_by d)); simpl;
    destruct_and?;
    rewrite ?E1, ?E2; split_and!; congruence || done.
Qed.

End DomainFacts.
