(* ===== verification/Manager.v ===== *)
(** * The recovery manager

    Model of [src/kernel/framework/barrier/manager.rs] and of the registration
    and dependency entry points of [barrier/api.rs].  Domains are [&'static]
    references into statically allocated storage: [store] is that storage and a
    reference is an index into it, so the aliasing between the [domains] table,
    the [direct_map] and the pool is the one of the source.  All of this runs
    under the [RECOVERY_MANAGER] lock.

    The theorems: the state [rollback_domain] leaves behind
    ([rollback_domain_always_recovers]), termination and bounds of the breadth-
    first [cascade_rollback] ([cascade_rollback_terminates]), that the crash
    path never reaches the degraded tiers ([crash_path_never_degrades]), what a
    domain registered through the API can be found by
    ([registered_domains_are_not_found]) and the heartbeat escalation of [tick]
    ([tick_escalates_and_returns]). *)

From S2P Require Import Prelude UndoLog Domain.
Import Domain.

Module Manager.

Record RollbackEvent := mkRollbackEvent {
  ev_tick : Z;
  domain_id : Z;
  generation_from : Z;
  generation_to : Z;
  entries_rolled_back : nat;
  crash_fingerprint : Z;
  cascade_depth : nat;
  result : Z;
}.

Record RecoveryManager := mkRecoveryManager {
  domains : list (option nat);
  direct_map : list (option nat);
  count : nat;
}.

Definition new_manager : RecoveryManager :=
  mkRecoveryManager (replicate MAX_RECOVERY_DOMAINS None)
    (replicate DIRECT_MAP_SIZE None) 0.

(** The manager with everything it touches: the domain storage, the memory
    the undo logs and callbacks act on, the rollback audit ring and the
    escalation flag. *)
Record world := mkWorld {
  store : list RecoveryDomain;
  mgr : RecoveryManager;
  memory : gmap Z Z;
  rollback_log : list (option RollbackEvent);
  rollback_log_idx : Z;
  need_bsr_escalation : bool;
}.

Definition with_store (s : list RecoveryDomain) (w : world) : world :=
  mkWorld s (mgr w) (memory w) (rollback_log w) (rollback_log_idx w)
    (need_bsr_escalation w).
Definition with_mgr (m : RecoveryManager) (w : world) : world :=
  mkWorld (store w) m (memory w) (rollback_log w) (rollback_log_idx w)
    (need_bsr_escalation w).
Definition with_memory (m : gmap Z Z) (w : world) : world :=
  mkWorld (store w) (mgr w) m (rollback_log w) (rollback_log_idx w)
    (need_bsr_escalation w).
Definition with_escalation (b : bool) (w : world) : world :=
  mkWorld (store w) (mgr w) (memory w) (rollback_log w) (rollback_log_idx w) b.

(** Dereferencing and updating through a reference. *)
Definition deref (w : world) (r : nat) : outcome RecoveryDomain :=
  match store w !! r with
  | Some d => Done d
  | None => Panic
  end.
Definition assign (r : nat) (d : RecoveryDomain) (w : world) : world :=
  with_store (<[r := d]> (store w)) w.

Definition log_rollback_event (event : RollbackEvent) (w : world) : world :=
  let idx := (Z.to_nat (rollback_log_idx w) mod MAX_ROLLBACK_LOG)%nat in
  mkWorld (store w) (mgr w) (memory w)
    (<[idx := Some event]> (rollback_log w))
    (wrap_u32 (rollback_log_idx w + 1)) (need_bsr_escalation w).

Definition register (w : world) (r : nat) (d : RecoveryDomain)
    : world * option Z :=
  let m := mgr w in
  let idx := count m in
  if (MAX_RECOVERY_DOMAINS <=? idx)%nat then (w, None)
  else
    let i := Z.to_nat (id d) in
    let dm := if (i <? DIRECT_MAP_SIZE)%nat
              then <[i := Some r]> (direct_map m) else direct_map m in
    (with_mgr (mkRecoveryManager (<[idx := Some r]> (domains m)) dm (S idx)) w,
     Some (id d)).

(** The references of the first [count] slots of [domains]. *)
Definition registered (w : world) : list (option nat) :=
  take (count (mgr w)) (domains (mgr w)).

Definition ref_has_id (w : world) (i : Z) (slot : option nat) : bool :=
  match slot with
  | Some r => match store w !! r with
              | Some d => id d =? i
              | None => false
              end
  | None => false
  end.

Definition find (w : world) (i : Z) : option nat :=
  let idx := Z.to_nat i in
  if (idx <? DIRECT_MAP_SIZE)%nat
  then match direct_map (mgr w) !! idx with
       | Some slot => slot
       | None => None
       end
  else match find_first (ref_has_id w i) (registered w) with
       | Some slot => slot
       | None => None
       end.

(** *** One domain *)

Definition rollback_domain (w : world) (r : nat) (tick fingerprint : Z)
    (depth : nat) : outcome (world * (nat * Z * Z * Z)) :=
  dom ← deref w r;
  let gen_from := barrier_generation dom in
  let target_gen := if (0 <? depth)%nat
                    then get_rollback_generation dom depth else gen_from in
  let dom := set_state RollingBack dom in
  '(undo', mem', entries_rolled_back) ←
    UndoLog.rollback_to
      (UndoLog.set_current_generation (barrier_generation dom) (undo dom))
      target_gen (memory w);
  let dom := with_undo undo' dom in
  let mem' := match rollback_cb dom with
              | Some f => f mem'
              | None => mem'
              end in
  let result := if (0 <? entries_rolled_back)%nat then 0 else -1 in
  let dom := mark_recovered (set_state Active dom) in
  let w := assign r dom (with_memory mem' w) in
  let w := log_rollback_event
    (mkRollbackEvent tick (id dom) gen_from target_gen entries_rolled_back
       fingerprint depth result) w in
  Done (w, (entries_rolled_back, gen_from, target_gen, result)).

(** *** [cascade_rollback] *)

Definition index_of_id (w : world) (i : Z) : option nat :=
  position (ref_has_id w i) (registered w).

(** The queue: the ids between [queue_head] and [queue_tail], [queue_tail]
    itself and the [visited] flags. *)
Record bfs := mkBfs {
  pending : list Z;
  queue_tail : nat;
  visited : list bool;
}.

(** The loop over [depended_by]; it stops when the queue array is full. *)
Fixpoint enqueue_dependents (w : world) (q : bfs) (slots : list (option Z)) : bfs :=
  match slots with
  | [] => q
  | None :: slots => enqueue_dependents w q slots
  | Some dep_id :: slots =>
      if (MAX_RECOVERY_DOMAINS <=? queue_tail q)%nat then q
      else
        match index_of_id w dep_id with
        | Some di =>
            if nth di (visited q) false then enqueue_dependents w q slots
            else enqueue_dependents w
                   (mkBfs (pending q ++ [dep_id]) (S (queue_tail q))
                      (<[di := true]> (visited q))) slots
        | None => enqueue_dependents w q slots
        end
  end.

(** One round of the [while] loop for the dequeued [current_id]. *)
Definition cascade_round (w : world) (q : bfs) (rolled_back : nat)
    (current_id tick fingerprint : Z) : outcome (world * bfs * nat) :=
  match find w current_id with
  | None => Done (w, q, rolled_back)
  | Some r =>
      dom ← deref w r;
      let '(dom, ok) := try_rollback dom tick fingerprint in
      let w := assign r dom w in
      if ok then
        '(w, (entries, _, _, _)) ← rollback_domain w r tick fingerprint rolled_back;
        let rolled_back := if (0 <? entries)%nat then S rolled_back else rolled_back in
        dom ← deref w r;
        Done (w, enqueue_dependents w q (depended_by dom), rolled_back)
      else Done (w, q, rolled_back)
  end.

Fixpoint cascade_loop (fuel : nat) (w : world) (q : bfs) (rolled_back : nat)
    (tick fingerprint : Z) : outcome (world * bfs * nat) :=
  match fuel, pending q with
  | S fuel, current_id :: rest =>
      '(w, q, rolled_back) ←
        cascade_round w (mkBfs rest (queue_tail q) (visited q)) rolled_back
          current_id tick fingerprint;
      cascade_loop fuel w q rolled_back tick fingerprint
  | _, _ => Done (w, q, rolled_back)
  end.

Definition cascade_start (w : world) (i : Z) : bfs :=
  let visited := replicate MAX_RECOVERY_DOMAINS false in
  match index_of_id w i with
  | Some idx => mkBfs [i] 1 (<[idx := true]> visited)
  | None => mkBfs [] 0 visited
  end.

Definition cascade_rollback (w : world) (i tick fingerprint : Z)
    : outcome (world * nat) :=
  '(w, _, rolled_back) ←
    cascade_loop MAX_RECOVERY_DOMAINS w (cascade_start w i) 0 tick fingerprint;
  Done (w, rolled_back).

(** *** [tick] *)

(** The barrier part: a new generation and snapshot when it is due. *)
Definition tick_barrier (w : world) (r : nat) (current_tick : Z) : outcome world :=
  dom ← deref w r;
  if is_active dom && (next_barrier_tick dom <=? current_tick) then
    let dom := with_barrier_generation (wrap_u64 (barrier_generation dom + 1)) dom in
    let dom := with_next_barrier_tick
                 (wrap_u64 (current_tick + barrier_interval_ticks dom)) dom in
    let dom := push_barrier_snapshot dom current_tick in
    let w := assign r dom w in
    Done (match capture_cb dom with
          | Some f => with_memory (f (memory w)) w
          | None => w
          end)
  else Done w.

(** How one loop iteration ends: [continue] or fall through, or [return]. *)
Inductive control := Next | Return.

Definition tick_quota (w : world) (r : nat) (current_tick : Z) : outcome world :=
  dom ← deref w r;
  if (0 <? cpu_quota_period dom) && (current_tick mod cpu_quota_period dom =? 0)
  then Done (assign r (reset_quota dom) w)
  else Done w.

(** The heartbeat part.  [Some c] ends the iteration with [c]; [None] goes on
    to the quota. *)
Definition tick_health (w : world) (r : nat) (current_tick : Z)
    : outcome (world * option control) :=
  dom ← deref w r;
  let '(dom, healthy) := check_health dom current_tick in
  let w := assign r dom w in
  if healthy then Done (w, None)
  else
    let failures := wrap_u32 (consecutive_failures dom + 1) in
    let dom := with_consecutive_failures failures dom in
    let w := assign r dom w in
    let escalate (w : world) : world * option control :=
      if 3 <=? failures then (with_escalation true w, Some Return) else (w, None) in
    if failures <=? 2 then
      let '(dom, ok) := try_rollback dom current_tick 0 in
      let w := assign r dom w in
      if ok then
        '(w, _) ← rollback_domain w r current_tick 0 0;
        dom ← deref w r;
        Done (assign r (with_consecutive_failures 0 (mark_recovered dom)) w, Some Next)
      else Done (escalate w)
    else Done (escalate w).

Definition tick_domain (w : world) (r : nat) (current_tick : Z)
    : outcome (world * control) :=
  w ← tick_barrier w r current_tick;
  '(w, c) ← tick_health w r current_tick;
  match c with
  | Some c => Done (w, c)
  | None => w ← tick_quota w r current_tick; Done (w, Next)
  end.

Fixpoint tick_loop (w : world) (slots : list (option nat)) (current_tick : Z)
    : outcome world :=
  match slots with
  | [] => Done w
  | None :: slots => tick_loop w slots current_tick
  | Some r :: slots =>
      '(w, c) ← tick_domain w r current_tick;
      match c with
      | Next => tick_loop w slots current_tick
      | Return => Done w
      end
  end.

Definition tick (w : world) (current_tick : Z) : outcome world :=
  if (count (mgr w) =? 0)%nat then Done w
  else tick_loop w (registered w) current_tick.

(** *** Boot fingerprints and fault location *)

Definition check_boot_fingerprint (w : world) (slot : option nat) : world :=
  match slot with
  | Some r =>
      match store w !! r with
      | Some dom =>
          let fp := load_boot_fingerprint dom in
          if negb (fp =? 0) && (3 <=? consecutive_failures dom)
          then assign r (clear_boot_fingerprint (set_state Degraded dom)) w
          else w
      | None => w
      end
  | None => w
  end.

Definition check_boot_fingerprints (w : world) : world :=
  fold_left check_boot_fingerprint (registered w) w.

Definition slot_domain (w : world) (slot : option nat) : option RecoveryDomain :=
  match slot with
  | Some r => store w !! r
  | None => None
  end.

Definition locate_domain_by_addr (w : world) (fault_rip : Z) : option Z :=
  match find_first (fun slot => match slot_domain w slot with
                                | Some d => contains_addr d fault_rip
                                | None => false
                                end) (registered w) with
  | Some slot => id <$> slot_domain w slot
  | None => None
  end.

(** The prefixes as byte strings: "PMM", "PROC", "NET", "VFS", "HvFS",
    "RAMFS". *)
Definition PANIC_DOMAIN_MAP : list (list Z * Z) :=
  [([80; 77; 77], 3); ([80; 82; 79; 67], 4); ([78; 69; 84], 5);
   ([86; 70; 83], 2); ([72; 118; 70; 83], 2); ([82; 65; 77; 70; 83], 2)].

Definition has_prefix (msg prefix : list Z) : bool :=
  bool_decide (take (length prefix) msg = prefix).

Definition locate_domain_by_panic_msg (w : world) (msg : list Z) : option Z :=
  snd <$> find_first
    (fun '(prefix, i) => has_prefix msg prefix &&
                         existsb (ref_has_id w i) (registered w))
    PANIC_DOMAIN_MAP.

(** *** [api.rs] *)

Definition recovery_domain_register (w : world) (domain_id : Z) : world * Z :=
  let idx := Z.to_nat (domain_id mod Z.of_nat MAX_RECOVERY_DOMAINS) in
  match store w !! idx with
  | Some domain =>
      match register w idx domain with
      | (w, Some _) => (w, 0)
      | (w, None) => (w, -1)
      end
  | None => (w, -1)
  end.

Definition recovery_domain_unregister (w : world) (domain_id : Z) : world * Z :=
  match index_of_id w domain_id with
  | Some i =>
      let m := mgr w in
      let id_idx := Z.to_nat domain_id in
      let dm := if (id_idx <? DIRECT_MAP_SIZE)%nat
                then <[id_idx := None]> (direct_map m) else direct_map m in
      (with_mgr (mkRecoveryManager (<[i := None]> (domains m)) dm (count m)) w, 0)
  | None => (w, -1)
  end.

Definition recovery_domain_add_dep (w : world) (domain_id dep_id : Z)
    : outcome (world * Z) :=
  match find w domain_id with
  | None => Done (w, -1)
  | Some r =>
      dom ← deref w r;
      let '(dom, ok) := add_dependency dom dep_id in
      let w := assign r dom w in
      if ok then
        match find w dep_id with
        | Some r2 =>
            dep ← deref w r2;
            Done (assign r2 (fst (add_depended_by dep domain_id)) w, 0)
        | None => Done (w, 0)
        end
      else Done (w, -1)
  end.

Definition recovery_undo_record (w : world) (domain_id field_ptr : Z)
    (old_val : list Z) : outcome (world * Z) :=
  match find w domain_id with
  | None => Done (w, -1)
  | Some r =>
      dom ← deref w r;
      undo' ← UndoLog.record (undo dom) field_ptr old_val;
      Done (assign r (with_undo undo' dom) w, 0)
  end.

Definition recovery_domain_get_state (w : world) (domain_id : Z) : outcome Z :=
  match find w domain_id with
  | None => Done (-1)
  | Some r => dom ← deref w r; Done (as_u32 (get_state dom))
  end.

Definition recovery_domain_get_failures (w : world) (domain_id : Z) : outcome Z :=
  match find w domain_id with
  | None => Done (-1)
  | Some r => dom ← deref w r; Done (as_i32 (consecutive_failures dom))
  end.

(** The pool of [MAX_RECOVERY_DOMAINS] domains built with [new 0] and the
    empty manager: the state at boot. *)
Definition boot : world :=
  mkWorld (replicate MAX_RECOVERY_DOMAINS (Domain.new 0)) new_manager ∅
    (replicate MAX_ROLLBACK_LOG None) 0 false.

End Manager.

Module ManagerFacts.
Import Manager.

(** ** Well-formed worlds *)

Definition dom_ok (d : RecoveryDomain) : Prop :=
  UndoLogFacts.log_ok (undo d) /\ u64 (original_cap_mask d) /\
  0 <= consecutive_failures d.

(** Every reference of the tables points into the store. *)
Definition refs_ok (n : nat) (slots : list (option nat)) : Prop :=
  Forall (fun slot => forall r, slot = Some r -> (r < n)%nat) slots.

Record world_ok (w : world) : Prop := mkWorldOk {
  wo_length : length (domains (mgr w)) = MAX_RECOVERY_DOMAINS;
  wo_domains : refs_ok (length (store w)) (domains (mgr w));
  wo_direct : refs_ok (length (store w)) (direct_map (mgr w));
  wo_store : Forall dom_ok (store w);
}.

Lemma dom_ok_new i : dom_ok (Domain.new i).
Proof. split_and!; [apply UndoLogFacts.log_ok_new|done..]. Qed.

Lemma boot_ok : world_ok boot.
Proof.
  split; [done|apply Forall_replicate; done..|].
  apply Forall_replicate, dom_ok_new.
Qed.

Lemma refs_ok_lookup n slots k r :
  refs_ok n slots -> slots !! k = Some (Some r) -> (r < n)%nat.
Proof. intros H Hk. by apply (Forall_lookup_1 _ _ _ _ H Hk). Qed.

Lemma registered_sub w : registered w ⊆ domains (mgr w).
Proof. intros x Hx. by apply elem_of_take in Hx as (i & Hi%list_elem_of_lookup_2 & _). Qed.

Lemma find_valid w i r : world_ok w -> find w i = Some r -> (r < length (store w))%nat.
Proof.
  intros [_ Hd Hm _]. unfold find. case_match.
  - destruct (direct_map (mgr w) !! _) as [slot|] eqn:Hs; [|done].
    intros ->. exact (refs_ok_lookup _ _ _ _ Hm Hs).
  - unfold find_first. destruct (position _ _) as [k|]; [|done].
    destruct (registered w !! k) as [slot|] eqn:Hs; [|done]. intros ->.
    unfold registered in Hs. rewrite lookup_take in Hs.
    case_decide; [|done]. exact (refs_ok_lookup _ _ _ _ Hd Hs).
Qed.

Lemma deref_ok w r :
  world_ok w -> (r < length (store w))%nat ->
  exists d, store w !! r = Some d /\ deref w r = Done d /\ dom_ok d.
Proof.
  intros [_ _ _ Hs] Hr. destruct (lookup_lt_is_Some_2 _ _ Hr) as [d Hd].
  exists d. unfold deref. rewrite Hd. split_and!; [done..|].
  by apply (Forall_lookup_1 _ _ _ _ Hs Hd).
Qed.

Lemma assign_ok w r d : world_ok w -> dom_ok d -> world_ok (assign r d w).
Proof.
  intros [Hl Hd Hm Hs] Hok. split; simpl; rewrite ?length_insert; try done.
  by apply Forall_insert.
Qed.

Lemma try_rollback_ok d tick fp : dom_ok d -> dom_ok (fst (try_rollback d tick fp)).
Proof.
  intros (Hu & Ho & Hf). unfold try_rollback, apply_degradation.
  repeat (case_match; simpl); (split_and!; simpl; [done|done|]);
    unfold MAX_CONSECUTIVE_FAILURES; try lia;
    apply wrap_u32_range.
Qed.

(** ** One domain *)

(** What [rollback_domain] does to the domain it is given. *)
Definition recovered (d : RecoveryDomain) : Prop :=
  get_state d = Active /\ consecutive_failures d = 0 /\
  dom_cap_mask d = original_cap_mask d.

Lemma set_current_generation_ok g log :
  UndoLogFacts.log_ok log ->
  UndoLogFacts.log_ok (UndoLog.set_current_generation g log).
Proof. done. Qed.

(** The run of [rollback_domain], with everything the callers need. *)
Lemma rollback_domain_run w r d tick fp depth :
  world_ok w -> store w !! r = Some d ->
  exists w' d' n from to res,
    rollback_domain w r tick fp depth = Done (w', (n, from, to, res)) /\
    store w' = <[r := d']> (store w) /\ mgr w' = mgr w /\
    need_bsr_escalation w' = need_bsr_escalation w /\
    world_ok w' /\ recovered d' /\ id d' = id d /\
    original_cap_mask d' = original_cap_mask d /\
    last_crash_fingerprint d' = last_crash_fingerprint d /\
    depended_by d' = depended_by d /\
    res = (if (0 <? n)%nat then 0 else -1).
Proof.
  intros Hw Hd. pose proof (wo_store _ Hw) as Hs.
  pose proof (Forall_lookup_1 _ _ _ _ Hs Hd) as (Hu & Ho & Hf).
  set (from := barrier_generation d).
  set (to := if (0 <? depth)%nat then get_rollback_generation d depth else from).
  destruct (UndoLogFacts.rollback_to_run
    (UndoLog.set_current_generation from (undo d)) to (memory w))
    as (keep & popped & log1 & _ & _ & Hok1 & _ & _ & Hr).
  { by apply set_current_generation_ok. }
  set (log' := if (128 <? length keep)%nat then UndoLog.compact log1 else log1) in Hr.
  assert (Hlog' : UndoLogFacts.log_ok log').
  { unfold log'. case_match; [by apply UndoLogFacts.compact_keeping_spec|done]. }
  exists (log_rollback_event
    (mkRollbackEvent tick (id d) from to (length popped) fp depth
       (if (0 <? length popped)%nat then 0 else -1))
    (assign r (mark_recovered (set_state Active (with_undo log'
        (set_state RollingBack d))))
      (with_memory (match rollback_cb d with
                    | Some f => f (foldl UndoLog.undo_entry (memory w) (rev popped))
                    | None => foldl UndoLog.undo_entry (memory w) (rev popped)
                    end) w))).
  do 5 eexists. split_and!.
  - unfold rollback_domain, deref. rewrite Hd. cbn -[UndoLog.rollback_to Nat.ltb].
    fold from. fold to. rewrite Hr. reflexivity.
  - reflexivity.
  - done.
  - done.
  - split; simpl; rewrite ?length_insert; try apply Hw.
    apply Forall_insert; [done|]. by split_and!.
  - by split_and!.
  - done.
  - done.
  - done.
  - done.
  - done.
Qed.

(** [rollback_domain] terminates without a panic on any registered
    domain and, however few entries its undo log held and whatever state it
    was in (a quarantined domain included), leaves it [Active] with a failure
    count of zero and its original capabilities; it reports success exactly
    when an entry was popped, touches no other domain and appends one event
    to the rollback ring. *)
Theorem rollback_domain_always_recovers w r d tick fp depth :
  world_ok w -> store w !! r = Some d ->
  exists w' d' n from to res,
    rollback_domain w r tick fp depth = Done (w', (n, from, to, res)) /\
    store w' !! r = Some d' /\ get_state d' = Active /\
    consecutive_failures d' = 0 /\ dom_cap_mask d' = original_cap_mask d' /\
    (res = 0 <-> (0 < n)%nat) /\
    (forall r', r' <> r -> store w' !! r' = store w !! r') /\ world_ok w'.
Proof.
  intros Hw Hd. destruct (rollback_domain_run w r d tick fp depth Hw Hd)
    as (w' & d' & n & from & to & res & H & Hst & _ & _ & Hw' & Hrec & _ & _ & _
        & _ & Hres).
  destruct Hrec as (? & ? & ?). exists w', d', n, from, to, res.
  split_and!; try done.
  - rewrite Hst. apply list_lookup_insert_eq. by eapply lookup_lt_Some.
  - subst res. destruct (Nat.ltb_spec 0 n); split; lia.
  - intros r' Hr'. rewrite Hst. by apply list_lookup_insert_ne.
Qed.

Definition quarantined_world : world :=
  assign 3 (set_state Quarantined (with_consecutive_failures 5 (Domain.new 0))) boot.

Lemma quarantined_world_ok : world_ok quarantined_world.
Proof.
  apply assign_ok; [apply boot_ok|].
  split_and!; [apply UndoLogFacts.log_ok_new|done..].
Qed.

Lemma rollback_domain_always_recovers_witness :
  exists w' d' n from to res,
    rollback_domain quarantined_world 3 500 77 0 = Done (w', (n, from, to, res)) /\
    store w' !! 3%nat = Some d' /\ get_state d' = Active /\
    consecutive_failures d' = 0.
Proof.
  destruct (rollback_domain_always_recovers quarantined_world 3
    (set_state Quarantined (with_consecutive_failures 5 (Domain.new 0)))
    500 77 0 quarantined_world_ok eq_refl)
    as (w' & d' & n & from & to & res & H1 & H2 & H3 & H4 & _).
  by exists w', d', n, from, to, res.
Defined.

(** ** The breadth-first cascade *)

(** As many domains entered the queue as flags are set: a domain enters the
    queue at most once. *)
Definition bfs_ok (q : bfs) : Prop :=
  length (visited q) = MAX_RECOVERY_DOMAINS /\
  count_if (fun b => b) (visited q) = queue_tail q.

Lemma bfs_ok_tail q : bfs_ok q -> (queue_tail q <= MAX_RECOVERY_DOMAINS)%nat.
Proof.
  intros [Hl Hc]. pose proof (count_if_le (fun b => b) (visited q)). lia.
Qed.

Lemma index_of_id_lt w i k :
  world_ok w -> index_of_id w i = Some k -> (k < MAX_RECOVERY_DOMAINS)%nat.
Proof.
  intros Hw Hk%position_lt. unfold registered in Hk. rewrite length_take in Hk.
  rewrite (wo_length _ Hw) in Hk. lia.
Qed.

Lemma mark_visited_ok p t v di :
  bfs_ok (mkBfs p t v) -> (di < MAX_RECOVERY_DOMAINS)%nat ->
  nth di v false = false ->
  forall p', bfs_ok (mkBfs p' (S t) (<[di := true]> v)).
Proof.
  intros [Hl Hc] Hdi Hv p'. simpl in *. split; simpl; [by rewrite length_insert|].
  destruct (lookup_lt_is_Some_2 v di) as [b Hb]; [lia|].
  rewrite (nth_lookup_Some _ _ _ _ Hb) in Hv. subst b.
  pose proof (count_if_insert (fun b => b) v di false true Hb) as H.
  simpl in H. lia.
Qed.

Lemma enqueue_dependents_ok w q slots :
  world_ok w -> bfs_ok q ->
  let q' := enqueue_dependents w q slots in
  bfs_ok q' /\
  (queue_tail q' + length (pending q) = queue_tail q + length (pending q'))%nat.
Proof.
  intros Hw. revert q. induction slots as [|[i|] slots IH]; intros q Hq;
    cbn [enqueue_dependents]; [done| |by auto].
  destruct (Nat.leb_spec MAX_RECOVERY_DOMAINS (queue_tail q)); [done|].
  destruct (index_of_id w i) as [di|] eqn:Hdi; [|by auto].
  destruct (nth di (visited q) false) eqn:Hv; [by auto|].
  destruct (IH (mkBfs (pending q ++ [i]) (S (queue_tail q))
    (<[di := true]> (visited q)))) as [H1 H2].
  { eapply (mark_visited_ok (pending q)); [by destruct q| |done].
    by eapply index_of_id_lt. }
  split; [done|]. cbn [queue_tail pending] in H2.
  rewrite length_app in H2. cbn [length] in H2. lia.
Qed.

Lemma cascade_start_ok w i :
  world_ok w ->
  bfs_ok (cascade_start w i) /\
  queue_tail (cascade_start w i) = length (pending (cascade_start w i)).
Proof.
  intros Hw. unfold cascade_start.
  destruct (index_of_id w i) as [k|] eqn:Hk; [|done]. split; [|done].
  apply (mark_visited_ok []); [done|by eapply index_of_id_lt|].
  destruct (nth_lookup_or_length (replicate MAX_RECOVERY_DOMAINS false) k false)
    as [H|H].
  - by apply lookup_replicate in H as [-> _].
  - by apply nth_overflow.
Qed.

(** An invariant of every domain kept by a round is kept by the cascade. *)
Section cascade.
Context (P : RecoveryDomain -> Prop) (tick fp : Z).
(** Refused attempts and completed rollbacks preserve [P]. *)
Context (P_refused : forall d d',
  P d -> dom_ok d -> try_rollback d tick fp = (d', false) -> P d').
Context (P_admitted : forall d d1 d',
  P d -> dom_ok d -> try_rollback d tick fp = (d1, true) ->
  recovered d' -> original_cap_mask d' = original_cap_mask d1 ->
  last_crash_fingerprint d' = last_crash_fingerprint d1 -> P d').

Lemma cascade_round_spec w q rolled i :
  world_ok w -> Forall P (store w) ->
  bfs_ok q ->
  exists w' q' rolled',
    cascade_round w q rolled i tick fp = Done (w', q', rolled') /\
    world_ok w' /\ Forall P (store w') /\
    bfs_ok q' /\
    (queue_tail q' + length (pending q) = queue_tail q + length (pending q'))%nat /\
    (rolled' <= S rolled)%nat /\ mgr w' = mgr w.
Proof.
  intros Hw HP Hq. unfold cascade_round.
  destruct (find w i) as [r|] eqn:Hfind.
  2: { exists w, q, rolled. by split_and!; auto. }
  destruct (deref_ok w r) as (d & Hd & -> & Hok); [done|by eapply find_valid|].
  pose proof (Forall_lookup_1 _ _ _ _ HP Hd) as HPd. simpl.
  pose proof (try_rollback_ok d tick fp Hok) as Hok1.
  destruct (try_rollback d tick fp) as [d1 ok] eqn:Htry. simpl in Hok1.
  pose proof (assign_ok w r d1 Hw Hok1) as Hw1.
  destruct ok.
  2: { exists (assign r d1 w), q, rolled. split_and!; auto.
       apply Forall_insert; [done|by eapply P_refused]. }
  assert (Hd1 : store (assign r d1 w) !! r = Some d1).
  { apply list_lookup_insert_eq. by eapply lookup_lt_Some. }
  destruct (rollback_domain_run (assign r d1 w) r d1 tick fp rolled Hw1 Hd1)
    as (w' & d' & n & from & to & res & -> & Hst & Hmgr & _ & Hw' & Hrec & _ & Hor
        & Hfp & _).
  simpl. assert (Hd' : store w' !! r = Some d').
  { rewrite Hst. apply list_lookup_insert_eq. by eapply lookup_lt_Some. }
  unfold deref. rewrite Hd'. simpl.
  destruct (enqueue_dependents_ok w' q (depended_by d') Hw' Hq) as [Hq1 Hq2].
  do 3 eexists. split; [reflexivity|]. split_and!; try done.
  - rewrite Hst. simpl. rewrite list_insert_insert.
    case_decide; [|done]. apply Forall_insert; [done|]. by eapply P_admitted.
  - case_match; lia.
Qed.

Lemma cascade_loop_spec fuel w q rolled :
  world_ok w -> Forall P (store w) ->
  bfs_ok q ->
  (MAX_RECOVERY_DOMAINS + length (pending q) <= fuel + queue_tail q)%nat ->
  exists w' q' rolled',
    cascade_loop fuel w q rolled tick fp = Done (w', q', rolled') /\
    pending q' = [] /\ bfs_ok q' /\ world_ok w' /\ Forall P (store w') /\
    (rolled' <= rolled + fuel)%nat /\ mgr w' = mgr w.
Proof.
  revert w q rolled. induction fuel as [|fuel IH]; intros w q rolled Hw HP Hq Hf.
  { exists w, q, rolled. split_and!; [done| |done|done|done|lia|done].
    apply bfs_ok_tail in Hq. destruct (pending q); [done|cbn [length] in Hf; lia]. }
  simpl. destruct (pending q) as [|i rest] eqn:Hpend.
  { exists w, q, rolled. split_and!; [done|done|done|done|done|lia|done]. }
  destruct (cascade_round_spec w (mkBfs rest (queue_tail q) (visited q)) rolled i)
    as (w1 & q1 & rolled1 & -> & Hw1 & HP1 & Hq1 & Hlen & Hr1 & Hm1); [done..|].
  cbn [length pending queue_tail mbind outcome_bind] in *.
  destruct (IH w1 q1 rolled1) as (w2 & q2 & rolled2 & -> & H); [done..|lia|].
  exists w2, q2, rolled2. destruct H as (? & ? & ? & ? & ? & ?).
  split_and!; [done|done|done|done|done|lia|congruence].
Qed.
End cascade.

(** C20: [cascade_rollback] terminates on every dependency graph, cycles
    included: the [while] loop empties its queue within
    [MAX_RECOVERY_DOMAINS] rounds and without a panic, every domain enters
    the queue at most once (as many entries as visited flags), so the
    overflow guard of the queue array is never needed, and at most 32
    rollbacks are reported. *)
Theorem cascade_rollback_terminates w i tick fp :
  world_ok w ->
  exists w' q rolled,
    cascade_loop MAX_RECOVERY_DOMAINS w (cascade_start w i) 0 tick fp
      = Done (w', q, rolled) /\
    pending q = [] /\ (queue_tail q <= MAX_RECOVERY_DOMAINS)%nat /\
    count_if (fun b => b) (visited q) = queue_tail q /\
    cascade_rollback w i tick fp = Done (w', rolled) /\
    (rolled <= 32)%nat /\ world_ok w'.
Proof.
  intros Hw. destruct (cascade_start_ok w i Hw) as [Hok Hlen].
  destruct (cascade_loop_spec (fun _ => True) tick fp) with
    (fuel := MAX_RECOVERY_DOMAINS) (w := w) (q := cascade_start w i) (rolled := 0%nat)
    as (w' & q & rolled & Hrun & Hp & Hq & Hw' & _ & Hr & _); try done.
  { by apply Forall_true. }
  { lia. }
  exists w', q, rolled. split_and!; [done|done|by apply bfs_ok_tail|apply Hq| | |done].
  - unfold cascade_rollback. by rewrite Hrun.
  - exact Hr.
Qed.

(** A cycle of two domains: 1 and 2 depend on each other. *)
Definition cyclic_world : world :=
  let d i j := with_depended_by (Some j :: replicate 7 None) (Domain.new i) in
  mkWorld [d 1 2; d 2 1]
    (mkRecoveryManager ([Some 0; Some 1]%nat ++ replicate 30 None)
       ([None; Some 0; Some 1]%nat ++ replicate 61 None) 2)
    ∅ (replicate MAX_ROLLBACK_LOG None) 0 false.

Lemma cyclic_world_ok : world_ok cyclic_world.
Proof.
  split; [done|..].
  1, 2: apply Forall_app_2; [|by apply Forall_replicate];
    repeat (apply Forall_cons; split; [intros ? [= <-]; simpl; lia|]);
    apply Forall_nil; done.
  repeat (apply Forall_cons; split; [split_and!; [apply UndoLogFacts.log_ok_new|done..]|]).
  by apply Forall_nil.
Qed.

Lemma cascade_rollback_terminates_witness :
  exists w' q rolled,
    cascade_loop MAX_RECOVERY_DOMAINS cyclic_world (cascade_start cyclic_world 1)
      0 10 99 = Done (w', q, rolled) /\ pending q = [] /\
    count_if (fun b => b) (visited q) = queue_tail q.
Proof.
  destruct (cascade_rollback_terminates cyclic_world 1 10 99 cyclic_world_ok)
    as (w' & q & rolled & H1 & H2 & _ & H3 & _).
  by exists w', q, rolled.
Defined.

(** ** The crash path and the degraded tiers *)

(** Between crashes a domain has full authority and either no failure on
    record or is out of attempts. *)
Definition settled (d : RecoveryDomain) : Prop :=
  dom_cap_mask d = original_cap_mask d /\ get_state d <> Degraded /\
  (consecutive_failures d = 0 \/ 5 <= consecutive_failures d).

(** A sequence of crashes, each handled by a cascade. *)
Fixpoint crashes (w : world) (cs : list (Z * Z * Z)) : outcome world :=
  match cs with
  | [] => Done w
  | (i, tick, fp) :: cs =>
      '(w, _) ← cascade_rollback w i tick fp; crashes w cs
  end.

Lemma settled_refused tick fp d d' :
  settled d -> dom_ok d -> try_rollback d tick fp = (d', false) -> settled d'.
Proof.
  intros (Hm & Hst & Hf) _. unfold try_rollback. repeat case_match; try done.
  - intros [= <-]. split_and!; [done|by rewrite DomainFacts.get_set_state|].
    right. simpl. unfold MAX_CONSECUTIVE_FAILURES in *.
    by apply Z.leb_le.
  - intros [= <-]. split_and!; [done|by rewrite DomainFacts.get_set_state|by right].
  - by intros [= <-].
Qed.

(** Handling crashes by cascading rollbacks, with any domains, ticks
    and fingerprints, never leaves a domain with a failure count between 1
    and 4, a reduced capability mask or the [Degraded] state:
    [rollback_domain] clears the count at once, so the tiers of
    [apply_degradation] after the third and fourth failure are never
    entered from the crash path. *)
Theorem crash_path_never_degrades w cs :
  world_ok w -> Forall settled (store w) ->
  exists w', crashes w cs = Done w' /\ world_ok w' /\ Forall settled (store w').
Proof.
  revert w. induction cs as [|[[i tick] fp] cs IH]; intros w Hw Hs.
  { by exists w. }
  destruct (cascade_start_ok w i Hw) as [Hok Hlen].
  destruct (cascade_loop_spec settled tick fp) with
    (fuel := MAX_RECOVERY_DOMAINS) (w := w) (q := cascade_start w i) (rolled := 0%nat)
    as (w' & q & rolled & Hrun & _ & _ & Hw' & Hs' & _); try done.
  - intros d d'. apply settled_refused.
  - intros d d1 d' _ _ _ (Ha & Hz & Hc) _ _. split_and!; [done| |by left].
    by rewrite Ha.
  - lia.
  - simpl. unfold cascade_rollback. rewrite Hrun. simpl. by apply IH.
Qed.

Definition sample_crashes : list (Z * Z * Z) :=
  [(1, 10, 99); (2, 400, 98); (1, 900, 97); (1, 2000, 96); (2, 5000, 98)].

Lemma crash_path_never_degrades_witness :
  exists w', crashes cyclic_world sample_crashes = Done w' /\
    Forall settled (store w').
Proof.
  destruct (crash_path_never_degrades cyclic_world sample_crashes cyclic_world_ok)
    as (w' & H1 & _ & H2).
  - repeat (apply Forall_cons; split; [by split_and!; [| |left]|]).
    by apply Forall_nil.
  - exists w'. split; [exact H1|exact H2].
Defined.

(** ** Registration *)

Definition register_all (ids : list Z) : world :=
  fold_left (fun w i => fst (recovery_domain_register w i)) ids boot.

(** No pool domain has an id, and only slot 0 of the direct map is used. *)
Definition anonymous (w : world) : Prop :=
  Forall (fun d => id d = 0) (store w) /\
  (forall k, k <> 0%nat -> direct_map (mgr w) !! k = Some None \/
                           direct_map (mgr w) !! k = None).

Lemma register_anonymous w i :
  anonymous w -> anonymous (fst (recovery_domain_register w i)).
Proof.
  intros [Hs Hd]. unfold recovery_domain_register.
  destruct (store w !! _) as [d|] eqn:Hlk; [|done].
  pose proof (Forall_lookup_1 _ _ _ _ Hs Hlk) as Hid. simpl in Hid.
  unfold register. rewrite Hid.
  destruct (MAX_RECOVERY_DOMAINS <=? count (mgr w))%nat; [done|].
  split; [done|]. intros k Hk. simpl. rewrite list_lookup_insert_ne by done.
  by apply Hd.
Qed.


Lemma boot_anonymous : anonymous boot.
Proof.
  split; [by apply Forall_replicate|]. intros k _.
  change (direct_map (mgr boot)) with (replicate DIRECT_MAP_SIZE (@None nat)).
  destruct (decide (k < DIRECT_MAP_SIZE)%nat).
  - left. by apply lookup_replicate.
  - right. apply lookup_replicate_None. lia.
Qed.

Lemma register_all_anonymous ids : anonymous (register_all ids).
Proof.
  unfold register_all. generalize boot, boot_anonymous.
  induction ids as [|i ids IH]; intros w Hw; [done|].
  simpl. by apply IH, register_anonymous.
Qed.

Lemma anonymous_no_ref w i slot :
  anonymous w -> 0 < i -> ref_has_id w i slot = false.
Proof.
  intros [Hs _] Hi. unfold ref_has_id. destruct slot as [r|]; [|done].
  destruct (store w !! r) as [d|] eqn:Hd; [|done].
  pose proof (Forall_lookup_1 _ _ _ _ Hs Hd) as Hid. simpl in Hid.
  rewrite Hid. apply Z.eqb_neq. lia.
Qed.

(** [recovery_domain_register] never stores the id it is given: every
    domain of the pool keeps the id 0 it was built with, so after any
    sequence of registrations no domain can be found under a non-zero id,
    recording an undo entry or adding a dependency for it fails, and a
    cascade for it rolls nothing back. *)
Theorem registered_domains_are_not_found ids i tick fp ptr v dep :
  0 < i ->
  let w := register_all ids in
  find w i = None /\
  recovery_undo_record w i ptr v = Done (w, -1) /\
  recovery_domain_add_dep w i dep = Done (w, -1) /\
  recovery_domain_get_state w i = Done (-1) /\
  cascade_rollback w i tick fp = Done (w, 0%nat).
Proof.
  intros Hi w. pose proof (register_all_anonymous ids) as Ha. fold w in Ha.
  assert (Hpos : position (ref_has_id w i) (registered w) = None).
  { apply position_None. intros slot _. by apply anonymous_no_ref. }
  assert (Hfind : find w i = None).
  { unfold find, find_first. rewrite Hpos. case_match; [|done].
    destruct Ha as [_ Hd]. destruct (Hd (Z.to_nat i)) as [-> | ->]; [lia|done..]. }
  unfold recovery_undo_record, recovery_domain_add_dep, recovery_domain_get_state.
  rewrite Hfind. split_and!; try done.
  unfold cascade_rollback, cascade_start, index_of_id. by rewrite Hpos.
Qed.

Lemma registered_domains_are_not_found_witness :
  find (register_all [3; 4]) 3 = None /\
  cascade_rollback (register_all [3; 4]) 3 100 7
    = Done (register_all [3; 4], 0%nat).
Proof.
  destruct (registered_domains_are_not_found [3; 4] 3 100 7 0 [] 0)
    as (H1 & _ & _ & _ & H2); [lia|]. split; [exact H1|exact H2].
Defined.

(** ** Heartbeat escalation *)

Definition heartbeat_lost (d : RecoveryDomain) (t : Z) : Prop :=
  heartbeat_max_gap d <> 0 /\ last_heartbeat d <> 0 /\
  heartbeat_max_gap d < t - last_heartbeat d.

Lemma check_health_lost d t :
  0 <= heartbeat_max_gap d -> heartbeat_lost d t -> check_health d t = (d, false).
Proof.
  intros Hg (H1 & H2 & H3). unfold check_health.
  rewrite (proj2 (Z.eqb_neq _ _) H1), (proj2 (Z.eqb_neq _ _) H2). f_equal.
  apply Z.leb_gt. unfold sat_sub. lia.
Qed.

(** The barrier part leaves the health fields alone. *)
Lemma tick_barrier_spec w r d t :
  store w !! r = Some d ->
  exists w' d', tick_barrier w r t = Done w' /\ store w' = <[r := d']> (store w) /\
    consecutive_failures d' = consecutive_failures d /\
    heartbeat_max_gap d' = heartbeat_max_gap d /\
    last_heartbeat d' = last_heartbeat d.
Proof.
  intros Hd. unfold tick_barrier, deref. rewrite Hd. simpl.
  destruct (is_active d && _).
  - do 2 eexists. split; [reflexivity|]. case_match; by split_and!.
  - exists w, d. split_and!; try done. by rewrite list_insert_id.
Qed.

(** A domain whose heartbeat is overdue while two failures are already
    on record makes [tick] request the soft reset and {e return}: the domains
    registered after it get neither barrier, health check nor quota reset in
    this tick (their state is untouched). *)
Theorem tick_escalates_and_returns w r d t later :
  store w !! r = Some d -> 0 <= heartbeat_max_gap d -> heartbeat_lost d t ->
  2 <= consecutive_failures d < U32_MAX ->
  exists w', tick_loop w (Some r :: later) t = Done w' /\
    need_bsr_escalation w' = true /\
    (forall r', r' <> r -> store w' !! r' = store w !! r').
Proof.
  intros Hd Hg (H1 & H2 & H3) Hf.
  destruct (tick_barrier_spec w r d t Hd) as (w1 & d1 & Hb & Hst & Hf1 & Hg1 & Hl1).
  assert (Hd1 : store w1 !! r = Some d1).
  { rewrite Hst. apply list_lookup_insert_eq. by eapply lookup_lt_Some. }
  assert (Hlost : heartbeat_lost d1 t) by (unfold heartbeat_lost; rewrite Hg1, Hl1; done).
  cbn [tick_loop]. unfold tick_domain. rewrite Hb. cbn [mbind outcome_bind].
  unfold tick_health, deref. rewrite Hd1. cbn [mbind outcome_bind].
  rewrite check_health_lost by (done || lia).
  rewrite wrap_u32_small by (unfold u32; lia).
  rewrite (proj2 (Z.leb_gt _ _)), (proj2 (Z.leb_le 3 _)) by lia.
  eexists. split; [reflexivity|]. split; [done|].
  intros r' Hr'. simpl. rewrite !list_lookup_insert_ne by done.
  rewrite Hst. by apply list_lookup_insert_ne.
Qed.

Definition silent_domain : RecoveryDomain :=
  with_consecutive_failures 2 (with_last_heartbeat 10
    (mkRecoveryDomain 7 0 0 100 100 0 0 0 0 0 [] [] 0 0 0 0 0 0 0 0 0 50
       UndoLog.new None None [] 0 [] 0)).

Lemma tick_escalates_and_returns_witness :
  let w := mkWorld [silent_domain; Domain.new 8]
    (mkRecoveryManager [Some 0; Some 1]%nat [] 2) ∅ [] 0 false in
  exists w', tick_loop w [Some 0; Some 1]%nat 200 = Done w' /\
    need_bsr_escalation w' = true /\ store w' !! 1%nat = Some (Domain.new 8).
Proof.
  intros w.
  destruct (tick_escalates_and_returns w 0 silent_domain 200 [Some 1%nat])
    as (w' & H1 & H2 & H3); [done|by vm_compute|by vm_compute|by vm_compute|].
  exists w'. split_and!; [exact H1|exact H2|]. by rewrite (H3 1%nat).
Defined.

End ManagerFacts.
