(* ===== verification/Crash.v ===== *)
(** * The crash path

    Model of the entry points of [src/kernel/framework/barrier/api.rs] that
    are called from the exception handler and the scheduler tick, with the
    statics they use ([mod.rs], [api.rs]), and of [RecoverableMutex::lock]
    ([recoverable.rs]).  The current tick, whether [try_lock] finds the manager
    free and whether [PANIC_MSG] is free are inputs of each call.  The locks
    of a domain are taken only under the manager's, so an attempt that gets the
    manager finds them free; [ROLLBACK_LOG] is taken to be free too (outside
    the manager's lock only [recovery_rollback_log_count] takes it).

    The theorems: every way an attempt can end ([try_recover_outcomes]), and the
    latch a failed attempt leaves behind ([failed_recovery_disables]). *)

From S2P Require Import Prelude UndoLog Domain Manager.
Import Domain Manager.

Module Crash.

(** The statics [RECOVERY_MANAGER] (with everything it touches),
    [RECOVERY_ATTEMPTED], [BOOT_FINGERPRINTS_CHECKED], [PANIC_FLAG],
    [PANIC_MSG] and [CRASH_RIP]. *)
Record machine := mkMachine {
  wld : world;
  recovery_attempted : bool;
  boot_fingerprints_checked : bool;
  panic_flag : bool;
  panic_msg : list Z;
  crash_rip : Z;
}.

Definition with_world (w : world) (m : machine) : machine :=
  mkMachine w (recovery_attempted m) (boot_fingerprints_checked m)
    (panic_flag m) (panic_msg m) (crash_rip m).
Definition with_attempted (b : bool) (m : machine) : machine :=
  mkMachine (wld m) b (boot_fingerprints_checked m) (panic_flag m)
    (panic_msg m) (crash_rip m).
Definition with_checked (b : bool) (m : machine) : machine :=
  mkMachine (wld m) (recovery_attempted m) b (panic_flag m)
    (panic_msg m) (crash_rip m).
Definition with_panic_flag (b : bool) (m : machine) : machine :=
  mkMachine (wld m) (recovery_attempted m) (boot_fingerprints_checked m) b
    (panic_msg m) (crash_rip m).

Definition boot_machine : machine :=
  mkMachine boot false false false (replicate 128 0) 0.

(** ** Maintenance *)

Definition recovery_barrier_maintenance (m : machine) (current_tick : Z)
    : outcome machine :=
  w ← tick (wld m) current_tick;
  let m := with_world w m in
  if boot_fingerprints_checked m then Done m
  else Done (with_checked true (with_world (check_boot_fingerprints (wld m)) m)).

Definition check_and_clear_bsr_escalation (m : machine) : machine * bool :=
  (with_world (with_escalation false (wld m)) m, need_bsr_escalation (wld m)).

Definition recovery_panic_flag_is_set (m : machine) : bool := panic_flag m.

Definition recovery_panic_flag_clear (m : machine) : machine :=
  with_panic_flag false m.

(** The flag is set before the [panic!]. *)
Definition recovery_trigger_panic (m : machine) : machine :=
  with_panic_flag true m.

(** ** Recovery from the exception handler *)

(** The hash of the panic message, up to its terminator. *)
Fixpoint hash_msg (h : Z) (msg : list Z) : Z :=
  match msg with
  | [] => h
  | b :: msg => if b =? 0 then h else hash_msg (wrap_u64 (wrap_u64 (h * 33) + b)) msg
  end.

Definition fingerprint_of (msg : list Z) : Z := hash_msg 5381 msg.

Definition locate (m : machine) : option Z :=
  match locate_domain_by_addr (wld m) (crash_rip m) with
  | Some i => Some i
  | None => locate_domain_by_panic_msg (wld m) (panic_msg m)
  end.

(** The successful end: the fingerprint is stored in the domain at [r]. *)
Definition succeed (m : machine) (w : world) (r : option nat) (fp : Z)
    : outcome machine :=
  w ← match r with
      | Some r => dom ← deref w r; Done (assign r (persist_crash_fingerprint dom fp) w)
      | None => Done w
      end;
  Done (with_attempted false (recovery_panic_flag_clear (with_world w m))).

(** The fallback loop over the first [count] slots. *)
Fixpoint recover_any (m : machine) (slots : list (option nat)) (current_tick fp : Z)
    : outcome (machine * Z) :=
  match slots with
  | [] => Done (m, -1)
  | None :: slots => recover_any m slots current_tick fp
  | Some r :: slots =>
      dom ← deref (wld m) r;
      '(w, rollbacks) ← cascade_rollback (wld m) (id dom) current_tick fp;
      if (0 <? rollbacks)%nat
      then m ← succeed m w (Some r) fp; Done (m, 0)
      else recover_any (with_world w m) slots current_tick fp
  end.

(** [lock_free] and [msg_free]: nobody holds [RECOVERY_MANAGER], [PANIC_MSG]
    at the fault.  The holder is the interrupted code of the same processor, or
    waits for this one, so [lock] does not return. *)
Definition recovery_try_recover_from_idt (m : machine) (lock_free msg_free : bool)
    (current_tick : Z) : outcome (machine * Z) :=
  if recovery_attempted m then Done (m, -2)
  else
    let m := with_attempted true m in
    if negb lock_free then Done (with_attempted false m, -3)
    else if (count (mgr (wld m)) =? 0)%nat then Done (m, -1)
    else if negb msg_free then Deadlock
    else
      let slots := registered (wld m) in
      let fp := fingerprint_of (panic_msg m) in
      match locate m with
      | Some target_id =>
          '(w, rollbacks) ← cascade_rollback (wld m) target_id current_tick fp;
          if (0 <? rollbacks)%nat
          then m ← succeed m w (find w target_id) fp; Done (m, 0)
          else recover_any (with_world w m) slots current_tick fp
      | None => recover_any m slots current_tick fp
      end.

Definition recovery_was_attempted (m : machine) : Z :=
  if recovery_attempted m then 1 else 0.

(** ** Other entry points *)

Definition recovery_domain_set_cbs (w : world) (i : Z)
    (capture_fn rollback_fn : option (gmap Z Z -> gmap Z Z)) : outcome (world * Z) :=
  match find w i with
  | None => Done (w, -1)
  | Some r =>
      dom ← deref w r;
      Done (assign r (with_rollback_cb rollback_fn (with_capture_cb capture_fn dom)) w, 0)
  end.

Definition recovery_undo_count (w : world) (i : Z) : outcome Z :=
  match find w i with
  | None => Done (-1)
  | Some r => dom ← deref w r; Done (as_i32 (Z.of_nat (UndoLog.count (undo dom))))
  end.

Definition recovery_domain_dep_count (w : world) (i : Z) : outcome Z :=
  match find w i with
  | None => Done (-1)
  | Some r => dom ← deref w r; Done (as_i32 (Z.of_nat (dependency_count dom)))
  end.

Definition recovery_domain_add_addr_range (w : world) (i start end_ : Z)
    : outcome (world * Z) :=
  match find w i with
  | None => Done (w, -1)
  | Some r =>
      dom ← deref w r;
      let '(dom, ok) := add_addr_range dom start end_ in
      Done (assign r dom w, if ok then 0 else -1)
  end.

Definition recovery_rollback_log_count (w : world) : Z :=
  as_i32 (Z.of_nat (count_if (fun e => bool_decide (is_Some e)) (rollback_log w))).

(** [RecoverableMutex::lock] for a value of [bytes] at [key_ptr]: the value is
    recorded in the undo log of its domain before the guard is handed out.  Without
    the feature [fault_injection], [maybe_inject_fault] does nothing. *)
Definition recoverable_lock (w : world) (dom_id key_ptr : Z) (bytes : list Z)
    : outcome world :=
  if dom_id =? 0 then Done w
  else
    match find w dom_id with
    | None => Done w
    | Some r =>
        dom ← deref w r;
        undo' ← UndoLog.record
                  (UndoLog.set_current_generation (barrier_generation dom) (undo dom))
                  key_ptr bytes;
        Done (assign r (with_undo undo' dom) w)
    end.

(** ** Sequences of calls *)

(** The calls other parts of the kernel make, in any order. *)
Inductive call :=
  | Maintenance (current_tick : Z)
  | TryRecover (lock_free msg_free : bool) (current_tick : Z)
  | TriggerPanic
  | PanicFlagClear
  | ClearEscalation
  | Register (domain_id : Z)
  | Unregister (domain_id : Z)
  | AddDep (domain_id dep_id : Z)
  | AddAddrRange (domain_id start end_ : Z)
  | Lock (domain_id key_ptr : Z) (bytes : list Z).

Definition do_call (m : machine) (c : call) : outcome machine :=
  match c with
  | Maintenance t => recovery_barrier_maintenance m t
  | TryRecover free msg_free t => fst <$> recovery_try_recover_from_idt m free msg_free t
  | TriggerPanic => Done (recovery_trigger_panic m)
  | PanicFlagClear => Done (recovery_panic_flag_clear m)
  | ClearEscalation => Done (fst (check_and_clear_bsr_escalation m))
  | Register i => Done (with_world (fst (recovery_domain_register (wld m) i)) m)
  | Unregister i => Done (with_world (fst (recovery_domain_unregister (wld m) i)) m)
  | AddDep i j =>
      '(w, _) ← recovery_domain_add_dep (wld m) i j; Done (with_world w m)
  | AddAddrRange i a b =>
      '(w, _) ← recovery_domain_add_addr_range (wld m) i a b; Done (with_world w m)
  | Lock i p bs => w ← recoverable_lock (wld m) i p bs; Done (with_world w m)
  end.

Fixpoint do_calls (m : machine) (cs : list call) : outcome machine :=
  match cs with
  | [] => Done m
  | c :: cs => m ← do_call m c; do_calls m cs
  end.

End Crash.

Module CrashFacts.
Import Crash ManagerFacts.

Lemma cascade_rollback_run w i t fp :
  world_ok w ->
  exists w' n, cascade_rollback w i t fp = Done (w', n) /\ world_ok w' /\ mgr w' = mgr w.
Proof.
  intros Hw. destruct (cascade_start_ok w i Hw) as [Hok Hlen].
  destruct (cascade_loop_spec (fun _ => True) t fp) with
    (fuel := MAX_RECOVERY_DOMAINS) (w := w) (q := cascade_start w i) (rolled := 0%nat)
    as (w' & q & n & Hrun & _ & _ & Hw' & _ & _ & Hm); try done.
  { by apply Forall_true. }
  { lia. }
  exists w', n. unfold cascade_rollback. by rewrite Hrun.
Qed.

Lemma persist_ok d fp : dom_ok d -> dom_ok (persist_crash_fingerprint d fp).
Proof. unfold persist_crash_fingerprint. by case_match. Qed.

(** A domain an attempt tries: the located one, by its id, or a registered
    one, by its reference. *)
Inductive candidate :=
  | ById (i : Z)
  | ByRef (r : nat).

Definition candidates (m : machine) : list candidate :=
  (ById <$> option_list (locate m)) ++ (ByRef <$> omap (fun r => r) (registered (wld m))).

Definition candidate_id (w : world) (c : candidate) : option Z :=
  match c with
  | ById i => Some i
  | ByRef r => id <$> store w !! r
  end.

Definition candidate_ref (w : world) (c : candidate) : option nat :=
  match c with
  | ById i => find w i
  | ByRef r => Some r
  end.

(** The candidates in turn, up to the first whose cascade undoes something:
    the world left behind and that candidate. *)
Inductive attempts (t fp : Z) : world -> list candidate -> world -> option candidate -> Prop :=
  | attempts_end w : attempts t fp w [] w None
  | attempts_hit w c cs i w' n :
      candidate_id w c = Some i -> cascade_rollback w i t fp = Done (w', S n) ->
      attempts t fp w (c :: cs) w' (Some c)
  | attempts_miss w c cs i w1 w' r :
      candidate_id w c = Some i -> cascade_rollback w i t fp = Done (w1, 0%nat) ->
      attempts t fp w1 cs w' r -> attempts t fp w (c :: cs) w' r.

(** The fingerprint is stored in the domain that was rolled back. *)
Definition persisted (w : world) (c : candidate) (fp : Z) : world :=
  match candidate_ref w c with
  | Some r => with_store (alter (fun d => persist_crash_fingerprint d fp) r (store w)) w
  | None => w
  end.

(** The machine after the attempts, and the result reported. *)
Definition attempted (m : machine) (w : world) (res : option candidate) (fp : Z) : machine * Z :=
  match res with
  | Some c => (with_attempted false (with_panic_flag false (with_world (persisted w c fp) m)), 0)
  | None => (with_attempted true (with_world w m), -1)
  end.

Lemma succeed_run m w c fp :
  world_ok w -> (forall r, candidate_ref w c = Some r -> (r < length (store w))%nat) ->
  exists w', succeed m w (candidate_ref w c) fp
    = Done (with_attempted false (with_panic_flag false (with_world w' m))) /\
    w' = persisted w c fp /\ world_ok w'.
Proof.
  intros Hw Hr. unfold succeed, persisted. destruct (candidate_ref w c) as [k|].
  - destruct (deref_ok w k Hw) as (d & Hk & Hd & Hok); [by apply Hr|].
    rewrite Hd. cbn [mbind outcome_bind]. eexists. split; [reflexivity|].
    split; [|by apply assign_ok; [|apply persist_ok]].
    unfold assign. f_equal. apply list_eq. intros j.
    destruct (decide (j = k)) as [->|Hj].
    + by rewrite list_lookup_insert_eq, list_lookup_alter_eq, Hk by (by eapply lookup_lt_Some).
    + by rewrite list_lookup_insert_ne, list_lookup_alter_ne.
  - by exists w.
Qed.

Lemma registered_ref_ok w r :
  world_ok w -> Some r ∈ domains (mgr w) -> (r < length (store w))%nat.
Proof.
  intros Hw Hin. pose proof (wo_domains _ Hw) as Hd. unfold refs_ok in Hd.
  rewrite Forall_forall in Hd. by apply (Hd (Some r)).
Qed.

Lemma with_attempted_world m b w b' :
  with_attempted b (with_world w (with_attempted b' m)) = with_attempted b (with_world w m).
Proof. done. Qed.

Lemma recover_any_run m slots t fp :
  world_ok (wld m) -> slots ⊆ domains (mgr (wld m)) ->
  recovery_attempted m = true ->
  exists w res, attempts t fp (wld m) (ByRef <$> omap (fun r => r) slots) w res /\
    recover_any m slots t fp = Done (attempted m w res fp) /\
    world_ok (wld (attempted m w res fp).1).
Proof.
  revert m. induction slots as [|[r|] slots IH]; intros m Hw Hsub Ha; cbn [recover_any].
  - exists (wld m), None. split; [apply attempts_end|].
    split; [|done]. destruct m; cbn in Ha; by subst.
  - pose proof (registered_ref_ok _ r Hw (Hsub _ ltac:(by left))) as Hr.
    destruct (deref_ok _ _ Hw Hr) as (d & Hd & -> & _). cbn [mbind outcome_bind].
    destruct (cascade_rollback_run (wld m) (id d) t fp Hw) as (w & n & Hc & Hw' & Hm).
    rewrite Hc. cbn [mbind outcome_bind].
    assert (Hi : candidate_id (wld m) (ByRef r) = Some (id d)) by (cbn; by rewrite Hd).
    destruct n as [|n].
    + destruct (IH (with_world w m)) as (w' & res & Hat & Hrun & Hok); [done| |done|].
      { simpl. rewrite Hm. intros x Hx. apply Hsub. by right. }
      exists w', res. split; [by eapply attempts_miss|].
      cbn [Nat.ltb Nat.leb]. rewrite Hrun. by destruct res.
    + destruct (succeed_run m w (ByRef r) fp Hw') as (w' & Hs & Hp & Hok).
      { intros k [= <-]. apply registered_ref_ok; [done|]. rewrite Hm. apply Hsub. by left. }
      exists w, (Some (ByRef r)). split; [by eapply attempts_hit|].
      cbn [Nat.ltb Nat.leb]. cbn [candidate_ref] in Hs. rewrite Hs. subst w'. by split.
  - apply IH; [done| |done]. intros x Hx. apply Hsub. by right.
Qed.

Lemma locate_none m : count (mgr (wld m)) = 0%nat -> candidates m = [].
Proof.
  intros Hc. unfold candidates, locate, locate_domain_by_addr, locate_domain_by_panic_msg,
    registered. rewrite Hc.
  change (take 0 (domains (mgr (wld m)))) with (@nil (option nat)).
  unfold PANIC_DOMAIN_MAP. rewrite !find_first_cons, !find_first_nil. cbn [existsb].
  by rewrite !andb_false_r.
Qed.

Lemma try_recover_run m msg_free t :
  world_ok (wld m) -> recovery_attempted m = false ->
  (count (mgr (wld m)) = 0%nat \/ msg_free = true) ->
  exists w res, let fp := fingerprint_of (panic_msg m) in
    attempts t fp (wld m) (candidates m) w res /\
    recovery_try_recover_from_idt m true msg_free t = Done (attempted m w res fp) /\
    world_ok (wld (attempted m w res fp).1).
Proof.
  intros Hw Ha Hf. unfold recovery_try_recover_from_idt. rewrite Ha.
  cbn [negb wld with_attempted panic_msg].
  destruct (Nat.eqb_spec (count (mgr (wld m))) 0) as [H0|Hc].
  { exists (wld m), None. rewrite locate_none by done. split; [apply attempts_end|]. by destruct m. }
  destruct Hf as [Hf| ->]; [done|]. cbn [negb].
  set (fp := fingerprint_of (panic_msg m)). set (m1 := with_attempted true m).
  assert (Hat : forall w res, attempted (with_world w m1) w res fp = attempted m w res fp) by (by intros ? []).
  assert (Hsub : registered (wld m) ⊆ domains (mgr (wld m))) by apply registered_sub.
  unfold candidates. change (locate m1) with (locate m). destruct (locate m) as [i|]; cbn [option_list].
  - destruct (cascade_rollback_run (wld m) i t fp Hw) as (w & n & Hc1 & Hw' & Hm).
    rewrite Hc1. cbn [mbind outcome_bind]. destruct n as [|n].
    + destruct (recover_any_run (with_world w m1) (registered (wld m)) t fp)
        as (w' & res & H1 & H2 & H3); [done|by cbn; rewrite Hm|done|].
      exists w', res. cbn [Nat.ltb Nat.leb]. rewrite H2.
      split; [|by destruct res]. by eapply attempts_miss.
    + destruct (succeed_run m1 w (ById i) fp Hw') as (w' & Hs & Hp & Hok).
      { intros r Hr. by eapply find_valid. }
      exists w, (Some (ById i)). split; [by eapply attempts_hit|].
      cbn [Nat.ltb Nat.leb]. cbn [candidate_ref] in Hs. rewrite Hs. subst w'. by split.
  - destruct (recover_any_run m1 (registered (wld m)) t fp) as (w' & res & H1 & H2 & H3); [done..|].
    exists w', res. split; [done|]. rewrite H2. by destruct res.
Qed.

(** C40: what [recovery_try_recover_from_idt] does from every well-formed
    machine state.  With the latch set it returns -2 and with the manager
    locked -3, both without any effect; with a domain registered and [PANIC_MSG]
    held by the interrupted code it never returns.  Otherwise it returns,
    whatever the dependency graph, the logs and the memory: it runs the cascade
    of the located domain and then of every registered one, in order, up to the
    first that rolls something back.  If there is one the result is 0, its
    crash fingerprint is stored, the panic flag cleared and the latch released;
    if there is none the result is -1, the panic flag is kept and the latch stays
    set.  (The locks of the domains are taken under the manager's lock only;
    [ROLLBACK_LOG] is taken to be free.) *)
Theorem try_recover_outcomes m free msg_free t :
  world_ok (wld m) ->
  (recovery_attempted m = true ->
   recovery_try_recover_from_idt m free msg_free t = Done (m, -2)) /\
  (recovery_attempted m = false -> free = false ->
   recovery_try_recover_from_idt m free msg_free t = Done (m, -3)) /\
  (recovery_attempted m = false -> free = true -> count (mgr (wld m)) <> 0%nat ->
   msg_free = false -> recovery_try_recover_from_idt m free msg_free t = Deadlock) /\
  (recovery_attempted m = false -> free = true ->
   (count (mgr (wld m)) = 0%nat \/ msg_free = true) ->
   exists w res, let fp := fingerprint_of (panic_msg m) in
     attempts t fp (wld m) (candidates m) w res /\
     recovery_try_recover_from_idt m free msg_free t = Done (attempted m w res fp) /\
     world_ok (wld (attempted m w res fp).1)).
Proof.
  intros Hw. split_and!; [intros Ha|intros Ha ->|intros Ha -> Hc%Nat.eqb_neq ->|
    intros Ha -> Hf; by apply try_recover_run].
  all: unfold recovery_try_recover_from_idt; rewrite Ha.
  - done.
  - destruct m; cbn in Ha; by subst.
  - cbn [negb wld with_attempted mgr]. by rewrite Hc.
Qed.

(** ** The latch *)

Lemma do_call_latched m c m' :
  recovery_attempted m = true -> do_call m c = Done m' -> recovery_attempted m' = true.
Proof.
  intros Ha. destruct c; simpl.
  - unfold recovery_barrier_maintenance. destruct (tick _ _) as [w| |]; [|done..].
    cbn [mbind outcome_bind]. case_match; by intros [= <-].
  - unfold recovery_try_recover_from_idt. rewrite Ha. by intros [= <-].
  - by intros [= <-].
  - by intros [= <-].
  - by intros [= <-].
  - by intros [= <-].
  - by intros [= <-].
  - destruct (recovery_domain_add_dep _ _ _) as [[w r]| |]; [|done..].
    by intros [= <-].
  - destruct (recovery_domain_add_addr_range _ _ _ _) as [[w r]| |]; [|done..].
    by intros [= <-].
  - destruct (recoverable_lock _ _ _ _) as [w| |]; [|done..]. by intros [= <-].
Qed.

Lemma do_calls_latched m cs m' :
  recovery_attempted m = true -> do_calls m cs = Done m' -> recovery_attempted m' = true.
Proof.
  revert m. induction cs as [|c cs IH]; intros m Ha; simpl; [by intros [= <-]|].
  destruct (do_call m c) as [m1| |] eqn:Hc; [|done..]. cbn [mbind outcome_bind].
  apply IH. by eapply do_call_latched.
Qed.

Lemma failed_latched m free msg_free t m1 :
  world_ok (wld m) -> recovery_try_recover_from_idt m free msg_free t = Done (m1, -1) ->
  recovery_attempted m1 = true.
Proof.
  intros Hw Hfail. destruct (recovery_attempted m) eqn:Ha.
  { unfold recovery_try_recover_from_idt in Hfail. by rewrite Ha in Hfail. }
  destruct free.
  2: { unfold recovery_try_recover_from_idt in Hfail. by rewrite Ha in Hfail. }
  destruct (decide (count (mgr (wld m)) = 0%nat \/ msg_free = true)) as [Hc|Hc].
  - destruct (try_recover_run m msg_free t Hw Ha Hc) as (w & res & _ & Hr & _).
    rewrite Hfail in Hr. destruct res; cbn in Hr; by simplify_eq.
  - unfold recovery_try_recover_from_idt in Hfail. rewrite Ha in Hfail.
    cbn [negb wld with_attempted] in Hfail.
    destruct (Nat.eqb_spec (count (mgr (wld m))) 0); [by destruct Hc; left|].
    destruct msg_free; [by destruct Hc; right|]. done.
Qed.

(** One failed attempt disables recovery for good: after an attempt that
    returned -1, whatever the kernel calls next (maintenance ticks, new
    registrations, further faults), every later attempt returns -2 and changes
    nothing, because only a successful attempt or a busy manager releases the
    latch. *)
Theorem failed_recovery_disables m free msg_free t m1 cs m2 free' msg_free' t' :
  world_ok (wld m) ->
  recovery_try_recover_from_idt m free msg_free t = Done (m1, -1) ->
  do_calls m1 cs = Done m2 ->
  recovery_try_recover_from_idt m2 free' msg_free' t' = Done (m2, -2).
Proof.
  intros Hw Hfail Hcs. assert (Ha : recovery_attempted m2 = true).
  { eapply do_calls_latched; [|exact Hcs]. by eapply failed_latched. }
  unfold recovery_try_recover_from_idt. by rewrite Ha.
Qed.

(** ** Witnesses *)

Definition crashed_machine : machine :=
  mkMachine cyclic_world false true true ([80; 77; 77] ++ replicate 125 0) 4096.

(** No domain has an undo entry, so nothing is rolled back; with the message
    locked the handler hangs. *)
Lemma try_recover_outcomes_witness :
  recovery_try_recover_from_idt crashed_machine true false 10 = Deadlock /\
  exists w res, attempts 10 (fingerprint_of (panic_msg crashed_machine))
      (wld crashed_machine) (candidates crashed_machine) w res /\
    recovery_try_recover_from_idt crashed_machine true true 10
      = Done (attempted crashed_machine w res (fingerprint_of (panic_msg crashed_machine))).
Proof.
  split.
  - destruct (try_recover_outcomes crashed_machine true false 10 cyclic_world_ok) as (_ & _ & H & _).
    by apply H.
  - destruct (try_recover_outcomes crashed_machine true true 10 cyclic_world_ok) as (_ & _ & _ & H).
    destruct (H eq_refl eq_refl (or_intror eq_refl)) as (w & res & Hat & Hr & _).
    exists w, res. by split.
Defined.

(** Before any domain is registered an attempt fails; a later registration and
    tick do not bring recovery back. *)
Lemma failed_recovery_disables_witness :
  exists m2,
    do_calls (with_attempted true boot_machine) [Register 2; Maintenance 5] = Done m2 /\
    recovery_try_recover_from_idt m2 true true 6 = Done (m2, -2).
Proof.
  destruct (do_calls (with_attempted true boot_machine) [Register 2; Maintenance 5])
    as [m2| |] eqn:E; [|vm_compute in E; discriminate E..].
  exists m2. split; [reflexivity|].
  apply (failed_recovery_disables boot_machine true true 4 (with_attempted true boot_machine)
           [Register 2; Maintenance 5] m2 true true 6 boot_ok); [reflexivity|exact E].
Defined.

End CrashFacts.
