(* ===== verification/Snapshot.v ===== *)
(** * Device snapshots

    Model of [src/kernel/framework/barrier/snapshot.rs]: the register snapshot
    of one device, the registry of at most [MAX_DEVICE_SNAPSHOTS] devices with
    its swap-removal, and the restore loop with its in-place insertion sort by
    priority.  The MMIO accessors [read_fn] and [write_fn] are function pointers
    the callers pass in; they are the interface [Mmio].  The round trip is about devices with
    the laws [MmioLaws]: a register reads back what was written to it, registers with
    another base or offset keep their value (so no two of these pairs name overlapping
    addresses), and reading has no effect.  Nothing in the source says that its
    devices are like that.

    The theorems: the sort ([restore_all_in_priority_order]), the
    capture/restore round trip ([capture_restore_roundtrip]) and removal from
    the registry ([unregister_removes_only]). *)

From S2P Require Import Prelude.

Definition MAX_DEVICE_SNAPSHOTS : nat := 16.
Definition MAX_REGISTERS_PER_DEVICE : nat := 32.
Definition SNAPSHOT_FLAG_CAPTURED : Z := 1.

(** ** Register access *)

Class Mmio (D : Type) := {
  read_fn : D -> Z -> Z -> Z;
  write_fn : D -> Z -> Z -> Z -> D;
}.

Class MmioLaws (D : Type) `{Mmio D} : Prop := {
  read_write_same : forall d base off v,
    read_fn (write_fn d base off v) base off = v;
  read_write_other : forall d base off v base' off',
    (base, off) <> (base', off') ->
    read_fn (write_fn d base off v) base' off' = read_fn d base' off';
}.

(** A bus of plain registers. *)
#[export] Instance mmio_map : Mmio (gmap (Z * Z) Z) := {
  read_fn d base off := default 0 (d !! (base, off));
  write_fn d base off v := <[(base, off) := v]> d;
}.

#[export] Instance mmio_map_laws : MmioLaws (gmap (Z * Z) Z).
Proof.
  split; intros; simpl.
  - by rewrite lookup_insert_eq.
  - by rewrite lookup_insert_ne.
Qed.

Module Snapshot.

Inductive DeviceType :=
  | Unknown
  | Keyboard
  | Serial
  | Timer
  | Network
  | Storage
  | Display.

Definition device_type_from_u32 (v : Z) : DeviceType :=
  match v with
  | 1 => Keyboard
  | 2 => Serial
  | 3 => Timer
  | 4 => Network
  | 5 => Storage
  | 6 => Display
  | _ => Unknown
  end.

Record RegisterState := mkRegisterState {
  offset : Z;
  value : Z;
}.

(** [name] is a string constant used in log messages only. *)
Record DeviceSnapshot := mkDeviceSnapshot {
  device_id : Z;
  device_type : DeviceType;
  mmio_base : Z;
  registers : list RegisterState;
  register_count : nat;
  priority : Z;
  flags : Z;
}.

Definition new (i : Z) (ty : DeviceType) (base prio : Z) : DeviceSnapshot :=
  mkDeviceSnapshot i ty base
    (replicate MAX_REGISTERS_PER_DEVICE (mkRegisterState 0 0)) 0 prio 0.

Definition add_register (s : DeviceSnapshot) (off v : Z) : DeviceSnapshot :=
  if (register_count s <? MAX_REGISTERS_PER_DEVICE)%nat then
    mkDeviceSnapshot (device_id s) (device_type s) (mmio_base s)
      (<[register_count s := mkRegisterState off v]> (registers s))
      (S (register_count s)) (priority s) (flags s)
  else s.

Definition clear (s : DeviceSnapshot) : DeviceSnapshot :=
  mkDeviceSnapshot (device_id s) (device_type s) (mmio_base s) (registers s)
    0 (priority s) 0.

Definition is_empty (s : DeviceSnapshot) : bool := (register_count s =? 0)%nat.

(** The captured registers: the first [register_count] slots. *)
Definition captured (s : DeviceSnapshot) : list RegisterState :=
  take (register_count s) (registers s).

Section access.
Context {D : Type} `{Mmio D}.

Definition capture_register (d : D) (base : Z) (r : RegisterState) : RegisterState :=
  mkRegisterState (offset r) (read_fn d base (offset r)).

Definition capture (d : D) (s : DeviceSnapshot) : DeviceSnapshot :=
  mkDeviceSnapshot (device_id s) (device_type s) (mmio_base s)
    ((capture_register d (mmio_base s) <$> captured s)
       ++ drop (register_count s) (registers s))
    (register_count s) (priority s) (Z.lor (flags s) SNAPSHOT_FLAG_CAPTURED).

Definition restore (s : DeviceSnapshot) (d : D) : D * bool :=
  if mmio_base s =? 0 then (d, false)
  else (fold_left (fun d r => write_fn d (mmio_base s) (offset r) (value r))
          (captured s) d, true).
End access.

(** ** The registry *)

Record Registry := mkRegistry {
  snapshots : list (option DeviceSnapshot);
  count : nat;
  init_captured : bool;
}.

Definition new_registry : Registry :=
  mkRegistry (replicate MAX_DEVICE_SNAPSHOTS None) 0 false.

Definition register (reg : Registry) (s : DeviceSnapshot) : Registry * bool :=
  if (MAX_DEVICE_SNAPSHOTS <=? count reg)%nat then (reg, false)
  else (mkRegistry (<[count reg := Some s]> (snapshots reg)) (S (count reg))
          (init_captured reg), true).

Definition has_id (i : Z) (slot : option DeviceSnapshot) : bool :=
  match slot with
  | Some s => device_id s =? i
  | None => false
  end.

Definition index_of (reg : Registry) (i : Z) : option nat :=
  position (has_id i) (take (count reg) (snapshots reg)).

(** The removed slot is refilled with the last one, which is emptied. *)
Definition unregister (reg : Registry) (i : Z) : Registry * bool :=
  match index_of reg i with
  | Some k =>
      let last := (count reg - 1)%nat in
      let slots := <[k := None]> (snapshots reg) in
      let slots := if (k <? last)%nat
                   then <[last := None]> (<[k := nth last slots None]> slots)
                   else slots in
      (mkRegistry slots last (init_captured reg), true)
  | None => (reg, false)
  end.

Definition get (reg : Registry) (i : Z) : option DeviceSnapshot :=
  match index_of reg i with
  | Some k => nth k (snapshots reg) None
  | None => None
  end.

Definition slot_priority (reg : Registry) (idx : nat) : Z :=
  match nth idx (snapshots reg) None with
  | Some s => priority s
  | None => 0
  end.

(** The inner [while]: moves element [j] left past larger priorities. *)
Fixpoint sift (prio : nat -> Z) (indices : list nat) (j : nat) : list nat :=
  match j with
  | O => indices
  | S k =>
      match indices !! k, indices !! j with
      | Some a, Some b =>
          if prio a <=? prio b then indices
          else sift prio (<[k := b]> (<[j := a]> indices)) k
      | _, _ => indices
      end
  end.

Definition sorted_indices (reg : Registry) : list nat :=
  fold_left (sift (slot_priority reg)) (seq 1 (count reg - 1)) (seq 0 (count reg)).

Section restore_all.
Context {D : Type} `{Mmio D}.

Definition capture_all_init (d : D) (reg : Registry) : Registry :=
  mkRegistry
    (((fun slot : option DeviceSnapshot => capture d <$> slot) <$>
        take (count reg) (snapshots reg))
       ++ drop (count reg) (snapshots reg))
    (count reg) true.

Definition restore_slot (reg : Registry) (acc : D * nat * nat) (idx : nat)
    : D * nat * nat :=
  let '(d, success, failed) := acc in
  match nth idx (snapshots reg) None with
  | Some s =>
      let '(d, ok) := restore s d in
      if ok then (d, S success, failed) else (d, success, S failed)
  | None => acc
  end.

Definition restore_all (reg : Registry) (d : D) : D * nat * nat :=
  fold_left (restore_slot reg) (sorted_indices reg) (d, 0%nat, 0%nat).
End restore_all.

End Snapshot.

Module SnapshotFacts.
Import Snapshot.

(** A registry whose occupied slots are the snapshots [ss]. *)
Definition reg_ok (reg : Registry) (ss : list DeviceSnapshot) : Prop :=
  length (snapshots reg) = MAX_DEVICE_SNAPSHOTS /\ count reg = length ss /\
  (count reg <= MAX_DEVICE_SNAPSHOTS)%nat /\
  take (count reg) (snapshots reg) = Some <$> ss.

(** ** The insertion sort *)

Section sort.
Context (prio : nat -> Z).

(** Ascending priority, registration order among equals. *)
Definition before (a b : nat) : Prop :=
  prio a < prio b \/ prio a = prio b /\ (a < b)%nat.

Lemma before_le a b : before a b -> prio a <= prio b.
Proof. unfold before. lia. Qed.

Lemma sift_spec p x rest :
  StronglySorted before p -> Forall (fun y => (y < x)%nat) p ->
  exists p', sift prio (p ++ x :: rest) (length p) = p' ++ rest /\
    p' ≡ₚ x :: p /\ StronglySorted before p'.
Proof.
  revert rest. induction p as [|y q IH] using rev_ind; intros rest Hs Hlt.
  { exists [x]. split_and!; [done|done|]. repeat constructor. }
  apply Forall_app in Hlt as [Hlt Hy]. rewrite Forall_singleton in Hy.
  rewrite length_app, Nat.add_comm. simpl. rewrite <- app_assoc. simpl.
  rewrite list_lookup_middle by done.
  rewrite (lookup_app_r _ _ (S (length q))), Nat.sub_succ_l, Nat.sub_diag by lia.
  simpl. destruct (Z.leb_spec (prio y) (prio x)) as [Hle|Hgt].
  - exists (q ++ [y; x]). split_and!.
    + by rewrite <- app_assoc.
    + solve_Permutation.
    + replace (q ++ [y; x]) with ((q ++ [y]) ++ [x]) by by rewrite <- app_assoc.
      apply StronglySorted_app_2; [|done|repeat constructor].
      intros z x' Hz ->%list_elem_of_singleton.
      assert (Hzx : (z < x)%nat).
      { rewrite elem_of_app, list_elem_of_singleton in Hz.
        rewrite Forall_forall in Hlt. destruct Hz as [Hz| ->]; auto. }
      assert (prio z <= prio y).
      { rewrite elem_of_app, list_elem_of_singleton in Hz. destruct Hz as [Hz| ->]; [|lia].
        apply before_le. eapply StronglySorted_app_1_elem_of; [done|done|].
        by apply list_elem_of_singleton. }
      unfold before. lia.
  - rewrite insert_app_r_alt, Nat.sub_succ_l, Nat.sub_diag by lia. simpl.
    rewrite insert_app_r_alt, Nat.sub_diag by lia. simpl.
    destruct (IH (y :: rest)) as (p' & -> & Hp & Hs'); [|done|].
    { by eapply StronglySorted_app_1_l. }
    exists (p' ++ [y]). split_and!.
    + by rewrite <- app_assoc.
    + rewrite Hp. solve_Permutation.
    + apply StronglySorted_app_2; [|done|repeat constructor].
      intros z y' Hz ->%list_elem_of_singleton. rewrite Hp in Hz.
      apply elem_of_cons in Hz as [->|Hz]; [unfold before; lia|].
      eapply StronglySorted_app_1_elem_of; [done|done|].
      by apply list_elem_of_singleton.
Qed.

Lemma sift_all n m :
  exists p, fold_left (sift prio) (seq 1 n) (seq 0 (S n + m)) = p ++ seq (S n) m /\
    p ≡ₚ seq 0 (S n) /\ StronglySorted before p.
Proof.
  revert m. induction n as [|n IH]; intros m.
  { exists [0%nat]. split_and!; [done|done|]. repeat constructor. }
  destruct (IH (S m)) as (p & Hp & Hperm & Hs).
  rewrite (seq_S n 1), fold_left_app.
  replace (S (S n) + m)%nat with (S n + S m)%nat by lia. rewrite Hp.
  cbn [fold_left].
  change (seq (S n) (S m)) with (S n :: seq (S (S n)) m).
  replace (1 + n)%nat with (length p)
    by (rewrite Hperm, length_seq; lia).
  destruct (sift_spec p (S n) (seq (S (S n)) m)) as (p' & Hsift & Hp' & Hs'); [done| |].
  - rewrite Hperm. apply Forall_forall. intros y Hy%elem_of_seq. lia.
  - exists p'. split_and!; [done| |done].
    rewrite Hp', Hperm. rewrite (seq_S (S n) 0). solve_Permutation.
Qed.
End sort.

Lemma sorted_indices_permutation reg :
  sorted_indices reg ≡ₚ seq 0 (count reg) /\
  StronglySorted (before (slot_priority reg)) (sorted_indices reg).
Proof.
  unfold sorted_indices. destruct (count reg) as [|n].
  { split; [done|constructor]. }
  destruct (sift_all (slot_priority reg) n 0) as (p & Hp & Hperm & Hs).
  rewrite Nat.sub_succ, Nat.sub_0_r. rewrite Nat.add_0_r, app_nil_r in Hp.
  by rewrite Hp.
Qed.

Lemma StronglySorted_fmap {A B} (R : A -> A -> Prop) (S : B -> B -> Prop) (f : A -> B) l :
  (forall a b, a ∈ l -> b ∈ l -> R a b -> S (f a) (f b)) ->
  StronglySorted R l -> StronglySorted S (f <$> l).
Proof.
  intros Hf. induction 1 as [|a l Hl IH Ha]; [constructor|].
  simpl. constructor.
  - apply IH. intros x y Hx Hy. apply Hf; by right.
  - apply Forall_fmap. rewrite Forall_forall in *. intros x Hx.
    apply Hf; [by left|by right|by apply Ha].
Qed.

Lemma slot_at_nth reg ss i dflt :
  reg_ok reg ss -> (i < count reg)%nat ->
  nth i (snapshots reg) None = Some (nth i ss dflt).
Proof.
  intros (Hl & Hc & Hm & Ht) Hi. rewrite !nth_lookup.
  rewrite <- (lookup_take_lt _ (count reg)), Ht, list_lookup_fmap by done.
  destruct (lookup_lt_is_Some_2 ss i) as [s Hs]; [lia|]. by rewrite Hs.
Qed.

Lemma fmap_nth_seq {A} (l : list A) dflt :
  (fun i => nth i l dflt) <$> seq 0 (length l) = l.
Proof.
  apply list_eq. intros i. rewrite list_lookup_fmap.
  destruct (decide (i < length l)%nat) as [Hi|Hi].
  - rewrite lookup_seq_lt by done. destruct (lookup_lt_is_Some_2 l i Hi) as [x Hx].
    simpl. by rewrite Hx, (nth_lookup_Some _ _ _ _ Hx).
  - rewrite (lookup_ge_None_2 l i) by lia.
    by rewrite (lookup_ge_None_2 (seq 0 (length l)) i) by (rewrite length_seq; lia).
Qed.

Section order.
Context {D : Type} `{Mmio D}.

Lemma restore_ok s (d : D) : snd (restore s d) = negb (mmio_base s =? 0)%Z.
Proof. unfold restore. by destruct (mmio_base s =? 0)%Z. Qed.

Lemma restore_slots_run reg ss dflt order (d : D) s f :
  reg_ok reg ss -> Forall (fun i => (i < count reg)%nat) order ->
  let devs := (fun i => nth i ss dflt) <$> order in
  fold_left (restore_slot reg) order (d, s, f)
    = (fold_left (fun d s => fst (restore s d)) devs d,
       (s + count_if (fun s => negb (mmio_base s =? 0)%Z) devs)%nat,
       (f + count_if (fun s => (mmio_base s =? 0)%Z) devs)%nat).
Proof.
  intros Hok Hlt. cbn zeta. revert d s f.
  induction Hlt as [|i order Hi Hlt IH]; intros d s f.
  { unfold count_if. simpl. by rewrite !Nat.add_0_r. }
  cbn [fold_left fmap list_fmap]. unfold restore_slot at 2.
  rewrite (slot_at_nth reg ss i dflt) by done.
  pose proof (restore_ok (nth i ss dflt) d) as Hr.
  destruct (restore (nth i ss dflt) d) as [d1 ok]. simpl in Hr. subst ok.
  unfold count_if. simpl.
  destruct (mmio_base (nth i ss dflt) =? 0)%Z; simpl; rewrite IH;
    unfold count_if; by rewrite <- ?plus_n_Sm.
Qed.

(** [restore_all] restores every registered device exactly once, in
    ascending order of priority: it equals restoring, one after another, the
    devices of a priority-sorted permutation of the registry; it counts a
    device as failed exactly when its base address is zero. *)
Theorem restore_all_in_priority_order reg ss (d : D) :
  reg_ok reg ss ->
  exists devs,
    devs ≡ₚ ss /\ StronglySorted (fun a b => priority a <= priority b) devs /\
    restore_all reg d
      = (fold_left (fun d s => fst (restore s d)) devs d,
         count_if (fun s => negb (mmio_base s =? 0)%Z) ss,
         count_if (fun s => (mmio_base s =? 0)%Z) ss).
Proof.
  intros Hok. destruct (sorted_indices_permutation reg) as [Hp Hs].
  pose proof Hok as (_ & Hc & _).
  set (dflt := new 0 Unknown 0 0).
  set (devs := (fun i => nth i ss dflt) <$> sorted_indices reg).
  assert (Hdevs : devs ≡ₚ ss).
  { unfold devs. rewrite Hp, Hc. by rewrite fmap_nth_seq. }
  assert (Hlt : Forall (fun i => (i < count reg)%nat) (sorted_indices reg)).
  { rewrite Hp. apply Forall_forall. intros i Hi%elem_of_seq. lia. }
  exists devs. split_and!; [done| |].
  - revert Hs. apply StronglySorted_fmap. rewrite Forall_forall in Hlt.
    intros a b Ha%Hlt Hb%Hlt Hab%before_le. unfold slot_priority in Hab.
    by rewrite !(slot_at_nth reg ss _ dflt) in Hab.
  - unfold restore_all. rewrite (restore_slots_run reg ss dflt) by done.
    fold devs. simpl. by rewrite !(count_if_permutation _ _ _ Hdevs).
Qed.
End order.

(** ** Capture and restore *)

Section roundtrip.
Context {D : Type} `{MmioLaws D}.
Implicit Types d : D.

Definition slot_writes (slot : option DeviceSnapshot) : list (Z * Z * Z) :=
  match slot with
  | Some s => if mmio_base s =? 0 then []
              else (fun r => (mmio_base s, offset r, value r)) <$> captured s
  | None => []
  end.

Definition do_write d (w : Z * Z * Z) : D :=
  let '(b, o, v) := w in write_fn d b o v.

Definition slot_at (reg : Registry) (i : nat) : option DeviceSnapshot :=
  nth i (snapshots reg) None.

(** The registers restored by a registry. *)
Definition reg_writes (reg : Registry) (order : list nat) : list (Z * Z * Z) :=
  order ≫= (fun i => slot_writes (slot_at reg i)).

Lemma restore_writes s d :
  restore s d = (fold_left do_write (slot_writes (Some s)) d, negb (mmio_base s =? 0)).
Proof.
  unfold restore, slot_writes. case_match; [done|]. f_equal.
  generalize (captured s), d. induction l as [|r l IH]; intros d0; simpl; [done|].
  apply IH.
Qed.

Lemma restore_slots_writes reg order d s f :
  fst (fst (fold_left (restore_slot reg) order (d, s, f)))
    = fold_left do_write (reg_writes reg order) d.
Proof.
  revert d s f. induction order as [|i order IH]; intros d s f; [done|].
  cbn [fold_left reg_writes mbind list_bind]. rewrite fold_left_app.
  unfold slot_at, restore_slot at 2.
  destruct (nth i (snapshots reg) None) as [snap|]; [|apply IH].
  rewrite restore_writes. destruct (negb _); apply IH.
Qed.

(** Writes of values read from [d0] bring the written registers back to
    [d0] and leave the others. *)
Lemma writes_from d0 ws d b o :
  Forall (fun '(b, o, v) => v = read_fn d0 b o) ws ->
  ((b, o) ∈ (fst <$> ws) -> read_fn (fold_left do_write ws d) b o = read_fn d0 b o) /\
  ((b, o) ∉ (fst <$> ws) -> read_fn (fold_left do_write ws d) b o = read_fn d b o).
Proof.
  intros Hws. revert d. induction Hws as [|[[b1 o1] v1] ws -> Hws IH]; intros d; simpl.
  { split; [|done]. intros Hin. by apply not_elem_of_nil in Hin. }
  rewrite elem_of_cons.
  destruct (IH (write_fn d b1 o1 (read_fn d0 b1 o1))) as [IH1 IH2].
  destruct (decide ((b, o) ∈ (fst <$> ws))) as [Hin|Hout]; [by split; intuition auto|].
  rewrite (IH2 Hout). split.
  - intros [[= -> ->]|Hin]; [apply read_write_same|done].
  - intros Hne. apply read_write_other. intros Heq. apply Hne. by left.
Qed.

Lemma captured_capture d s :
  captured (capture d s) = capture_register d (mmio_base s) <$> captured s.
Proof.
  unfold captured at 1. simpl.
  destruct (Nat.le_gt_cases (register_count s) (length (registers s))) as [Hle|Hgt].
  - rewrite take_app_le; [|unfold captured; rewrite length_fmap, length_take; lia].
    apply take_ge. rewrite length_fmap. unfold captured. rewrite length_take. lia.
  - rewrite drop_ge, app_nil_r by lia. apply take_ge.
    rewrite length_fmap. unfold captured. rewrite length_take. lia.
Qed.

Lemma capture_slot_writes d0 slot :
  Forall (fun '(b, o, v) => v = read_fn d0 b o) (slot_writes (capture d0 <$> slot)) /\
  (fst <$> slot_writes (capture d0 <$> slot)) = (fst <$> slot_writes slot).
Proof.
  destruct slot as [s|]; [|split; [constructor|done]].
  cbn [fmap option_fmap option_map slot_writes]. rewrite captured_capture.
  change (mmio_base (capture d0 s)) with (mmio_base s).
  case_match; [split; [constructor|done]|]. split.
  - apply Forall_fmap, Forall_fmap, Forall_forall. by intros r _.
  - by rewrite <- !list_fmap_compose.
Qed.

Lemma slot_at_capture d0 reg ss i :
  reg_ok reg ss -> (i < count reg)%nat ->
  slot_at (capture_all_init d0 reg) i = capture d0 <$> slot_at reg i.
Proof.
  intros (Hl & _ & Hc & _) Hi. unfold slot_at, capture_all_init. simpl.
  rewrite !nth_lookup, lookup_app_l
    by (rewrite length_fmap, length_take; lia).
  rewrite list_lookup_fmap, lookup_take_lt by done.
  by destruct (snapshots reg !! i).
Qed.

(** The registers a registry restores, independently of the order. *)
Definition restored (ss : list DeviceSnapshot) (b o : Z) : Prop :=
  b <> 0 /\ exists s r, s ∈ ss /\ mmio_base s = b /\ r ∈ captured s /\ offset r = o.

Lemma elem_of_slot_writes slot b o :
  (b, o) ∈ (fst <$> slot_writes slot) <->
  exists s, slot = Some s /\ restored [s] b o.
Proof.
  unfold restored. destruct slot as [s|]; simpl.
  2: { split; [intros Hin; by apply not_elem_of_nil in Hin|by intros (? & ? & _)]. }
  destruct (Z.eqb_spec (mmio_base s) 0) as [Hz|Hnz].
  - split; [intros Hin; by apply not_elem_of_nil in Hin|].
    intros (s' & [= <-] & Hb & s1 & r & ->%list_elem_of_singleton & <- & _). done.
  - rewrite <- list_fmap_compose, list_elem_of_fmap. split.
    + intros (r & [= -> ->] & Hr). exists s. split_and!; [done..|].
      exists s, r. by rewrite list_elem_of_singleton.
    + intros (s' & [= <-] & _ & s1 & r & ->%list_elem_of_singleton & <- & Hr & <-).
      by exists r.
Qed.

Lemma reg_slot reg ss i :
  reg_ok reg ss -> (i < count reg)%nat -> slot_at reg i = ss !! i.
Proof.
  intros (Hl & Hc & Hm & Ht) Hi. unfold slot_at. rewrite nth_lookup.
  rewrite <- (lookup_take_lt _ (count reg)), Ht, list_lookup_fmap by done.
  by destruct (ss !! i).
Qed.

Lemma elem_of_reg_writes d0 reg ss b o :
  reg_ok reg ss ->
  (b, o) ∈ (fst <$> reg_writes (capture_all_init d0 reg) (sorted_indices
                                  (capture_all_init d0 reg))) <-> restored ss b o.
Proof.
  intros Hok. destruct (sorted_indices_permutation (capture_all_init d0 reg)) as [Hp _].
  assert (Hlen : length ss = count reg) by by destruct Hok as (_ & -> & _).
  unfold reg_writes. setoid_rewrite list_elem_of_fmap.
  setoid_rewrite list_elem_of_bind. split.
  - intros ([[b' o'] v] & [= -> ->] & i & Hw & Hi).
    rewrite Hp in Hi. apply elem_of_seq in Hi. simpl in Hi.
    rewrite (slot_at_capture d0 reg ss) in Hw by (done || lia).
    assert (Hin : (b', o') ∈ (fst <$> slot_writes (slot_at reg i))).
    { rewrite <- (proj2 (capture_slot_writes d0 (slot_at reg i))).
      by apply (list_elem_of_fmap_2 fst _ (b', o', v)). }
    apply elem_of_slot_writes in Hin as (s & Hs & Hb & s1 & r & Hs1 & Hr).
    apply list_elem_of_singleton in Hs1 as ->.
    rewrite (reg_slot reg ss) in Hs by (done || lia).
    split; [done|]. exists s, r. split; [|done]. by eapply list_elem_of_lookup_2.
  - intros (Hb & s & r & Hs & Hr). apply list_elem_of_lookup in Hs as [i Hi].
    pose proof (lookup_lt_Some _ _ _ Hi) as Hlt.
    assert (Hin : (b, o) ∈ (fst <$> slot_writes (slot_at (capture_all_init d0 reg) i))).
    { rewrite (slot_at_capture d0 reg ss) by (done || lia).
      rewrite (proj2 (capture_slot_writes d0 (slot_at reg i))).
      apply elem_of_slot_writes. exists s.
      rewrite (reg_slot reg ss) by (done || lia). split; [done|].
      split; [done|]. exists s, r. by rewrite list_elem_of_singleton. }
    apply list_elem_of_fmap in Hin as (w & -> & Hw). exists w. split; [done|].
    exists i. split; [done|]. rewrite Hp. apply elem_of_seq. simpl. lia.
Qed.

(** Restoring a registry captured from device state [d0] into any later
    state [d] brings every captured register of every device with a non-zero
    base address back to its value in [d0] and leaves all other registers of
    the bus unchanged, whatever the priorities of the devices. *)
Theorem capture_restore_roundtrip reg ss d0 d b o :
  reg_ok reg ss ->
  let d' := fst (fst (restore_all (capture_all_init d0 reg) d)) in
  (restored ss b o -> read_fn d' b o = read_fn d0 b o) /\
  (~ restored ss b o -> read_fn d' b o = read_fn d b o).
Proof.
  intros Hok. cbn zeta. unfold restore_all. rewrite restore_slots_writes.
  rewrite <- (elem_of_reg_writes d0 reg ss b o Hok). apply writes_from.
  apply Forall_bind, Forall_forall. intros i Hi.
  destruct (sorted_indices_permutation (capture_all_init d0 reg)) as [Hp _].
  rewrite Hp in Hi. apply elem_of_seq in Hi. simpl in Hi. unfold compose.
  rewrite (slot_at_capture d0 reg ss) by (done || lia).
  apply capture_slot_writes.
Qed.
End roundtrip.

(** ** Removal *)

Definition ids (ss : list DeviceSnapshot) : list Z := device_id <$> ss.

Lemma index_of_spec reg ss i :
  reg_ok reg ss -> index_of reg i = position (fun s => device_id s =? i) ss.
Proof.
  intros (_ & _ & _ & Ht). unfold index_of. rewrite Ht. clear Ht.
  induction ss as [|s ss IH]; [done|]. cbn [fmap list_fmap position has_id].
  by rewrite <- IH.
Qed.

Lemma filter_other_ids i ss :
  i ∉ ids ss -> List.filter (fun s => negb (device_id s =? i)) ss = ss.
Proof.
  unfold ids. induction ss as [|s ss IH]; [done|]. simpl.
  rewrite not_elem_of_cons. intros [Hne Hni].
  destruct (Z.eqb_spec (device_id s) i); [congruence|]. simpl. by rewrite IH.
Qed.

Lemma reg_ok_slots reg ss :
  reg_ok reg ss -> snapshots reg = (Some <$> ss) ++ drop (length ss) (snapshots reg).
Proof. intros (_ & Hc & _ & Ht). rewrite <- Hc, <- Ht. by rewrite take_drop. Qed.

(** Removal of the last device. *)
Lemma unregister_last reg p x i :
  reg_ok reg (p ++ [x]) -> index_of reg i = Some (length p) ->
  snd (unregister reg i) = true /\ reg_ok (fst (unregister reg i)) p.
Proof.
  intros Hok Hi. pose proof Hok as (Hl & Hc & Hm & _).
  rewrite length_app in Hc. simpl in Hc.
  unfold unregister. rewrite Hi. split; [done|]. simpl.
  replace (count reg - 1)%nat with (length p) by lia. rewrite Nat.ltb_irrefl.
  unfold reg_ok. simpl. rewrite length_insert. split_and!; [done|done|lia|].
  rewrite take_insert_ge, (reg_ok_slots _ _ Hok), fmap_app, <- app_assoc by lia.
  apply take_app_length'. by rewrite length_fmap.
Qed.

(** Removal of another device moves the last one into its slot. *)
Lemma unregister_inner reg p x m z i :
  reg_ok reg (p ++ x :: m ++ [z]) -> index_of reg i = Some (length p) ->
  snd (unregister reg i) = true /\ reg_ok (fst (unregister reg i)) (p ++ z :: m).
Proof.
  intros Hok Hi. pose proof Hok as (Hl & Hc & Hm & _).
  pose proof (reg_ok_slots _ _ Hok) as Hs.
  rewrite length_app in Hc. simpl in Hc. rewrite length_app in Hc. simpl in Hc.
  unfold unregister. rewrite Hi. split; [done|]. simpl.
  replace (count reg - 1)%nat with (length p + S (length m))%nat by lia.
  destruct (Nat.ltb_spec (length p) (length p + S (length m))) as [_|]; [|lia].
  assert (Hz : nth (length p + S (length m)) (<[length p:=None]> (snapshots reg)) None
               = Some z).
  { rewrite nth_lookup, list_lookup_insert_ne, Hs by lia.
    rewrite fmap_app, <- app_assoc. simpl.
    rewrite lookup_app_r by (rewrite length_fmap; lia).
    rewrite length_fmap. replace (length p + S (length m) - length p)%nat
      with (S (length m)) by lia. simpl.
    rewrite fmap_app, <- app_assoc.
    rewrite lookup_app_r by (rewrite length_fmap; lia).
    by rewrite length_fmap, Nat.sub_diag. }
  rewrite Hz. unfold reg_ok. simpl. rewrite !length_insert, length_app. simpl.
  split_and!; [done|lia|lia|].
  rewrite take_insert_ge, list_insert_insert_eq, Hs by lia.
  rewrite fmap_app, <- app_assoc. simpl.
  rewrite insert_app_r_alt, length_fmap, Nat.sub_diag by (rewrite length_fmap; lia).
  simpl. rewrite fmap_app, <- app_assoc. simpl.
  rewrite (fmap_app Some p (z :: m)). simpl.
  replace ((Some <$> p) ++ Some z :: (Some <$> m) ++ Some z
           :: drop (length (p ++ x :: m ++ [z])) (snapshots reg))
    with (((Some <$> p) ++ Some z :: (Some <$> m)) ++ Some z
           :: drop (length (p ++ x :: m ++ [z])) (snapshots reg))
    by by rewrite <- app_assoc.
  apply take_app_length'. rewrite length_app. simpl. by rewrite !length_fmap.
Qed.

(** [unregister] removes the device with the given id and no other: it
    reports whether the id was registered, and in a registry without duplicate
    ids the devices left are those with another id (the last one moved into the
    freed slot), in a registry that is again well formed. *)
Theorem unregister_removes_only reg ss i :
  reg_ok reg ss -> NoDup (ids ss) ->
  exists ss',
    reg_ok (fst (unregister reg i)) ss' /\
    ss' ≡ₚ List.filter (fun s => negb (device_id s =? i)) ss /\
    (snd (unregister reg i) = true <-> i ∈ ids ss).
Proof.
  intros Hok Hnd. pose proof (index_of_spec reg ss i Hok) as Hidx.
  destruct (position _ ss) as [k|] eqn:Hk; cycle 1.
  - rewrite position_None in Hk.
    assert (Hni : i ∉ ids ss).
    { intros (s & -> & Hs)%list_elem_of_fmap. apply Hk in Hs. lia. }
    exists ss. unfold unregister. rewrite Hidx, filter_other_ids by done.
    split_and!; [done..|]. simpl. by split.
  - apply position_Some in Hk as (x & Hx & Hxi & _).
    apply Z.eqb_eq in Hxi. subst i.
    pose proof (take_drop_middle _ _ _ Hx) as Hss.
    pose proof (lookup_lt_Some _ _ _ Hx) as Hlt.
    assert (Hp : length (take k ss) = k) by (rewrite length_take; lia).
    set (p := take k ss) in *. set (q := drop (S k) ss) in *. clearbody p q.
    subst ss k. unfold ids in *. rewrite fmap_app in Hnd. simpl in Hnd.
    apply NoDup_app in Hnd as (_ & Hpx & [Hxq _]%NoDup_cons).
    assert (Hxp : device_id x ∉ (device_id <$> p)).
    { intros Hin. by apply (Hpx _ Hin); left. }
    assert (Hin : device_id x ∈ (device_id <$> (p ++ x :: q))).
    { rewrite fmap_app, elem_of_app. right. by left. }
    rewrite List.filter_app. simpl. rewrite Z.eqb_refl. simpl.
    rewrite !filter_other_ids by done.
    destruct q as [|z m _] using rev_ind.
    + destruct (unregister_last reg p x (device_id x) Hok Hidx) as [Hb Hr].
      exists p. rewrite app_nil_r. by rewrite Hb.
    + destruct (unregister_inner reg p x m z (device_id x) Hok Hidx) as [Hb Hr].
      exists (p ++ z :: m). rewrite Hb. split_and!; [done|solve_Permutation|done].
Qed.

(** ** Witnesses *)

(** A timer restored before a serial port, and a device without base address. *)
Definition ex_serial : DeviceSnapshot :=
  add_register (add_register (new 1 Serial 4096 7) 0 0) 4 0.
Definition ex_timer : DeviceSnapshot := add_register (new 2 Timer 8192 3) 8 0.
Definition ex_none : DeviceSnapshot := add_register (new 3 Unknown 0 5) 0 0.
Definition ex_reg : Registry :=
  fst (register (fst (register (fst (register new_registry ex_serial)) ex_timer)) ex_none).
Definition ex_bus : gmap (Z * Z) Z :=
  write_fn (write_fn (write_fn ∅ 4096 0 10) 4096 4 11) 8192 8 12.
Definition ex_later : gmap (Z * Z) Z :=
  write_fn (write_fn ex_bus 4096 0 99) 8192 12 77.

Lemma ex_reg_ok : reg_ok ex_reg [ex_serial; ex_timer; ex_none].
Proof. unfold reg_ok. split_and!; [done|done|vm_compute; lia|done]. Qed.

Lemma restore_all_in_priority_order_witness :
  exists devs,
    devs ≡ₚ [ex_serial; ex_timer; ex_none] /\
    StronglySorted (fun a b => priority a <= priority b) devs /\
    restore_all ex_reg ex_later
      = (fold_left (fun d s => fst (restore s d)) devs ex_later, 2%nat, 1%nat).
Proof.
  exact (restore_all_in_priority_order ex_reg [ex_serial; ex_timer; ex_none]
           ex_later ex_reg_ok).
Defined.

Lemma capture_restore_roundtrip_witness :
  let d' := fst (fst (restore_all (capture_all_init ex_bus ex_reg) ex_later)) in
  read_fn d' 4096 0 = 10 /\ read_fn d' 8192 12 = 77.
Proof.
  pose proof (capture_restore_roundtrip ex_reg [ex_serial; ex_timer; ex_none]
                ex_bus ex_later 4096 0 ex_reg_ok) as [H1 _].
  pose proof (capture_restore_roundtrip ex_reg [ex_serial; ex_timer; ex_none]
                ex_bus ex_later 8192 12 ex_reg_ok) as [_ H2].
  cbn zeta in *. split.
  - rewrite H1; [reflexivity|]. split; [done|].
    exists ex_serial, (mkRegisterState 0 0).
    split_and!; [by left|done|by left|done].
  - rewrite H2; [reflexivity|]. intros (_ & s & r & Hs & Hb & Hr & Ho).
    rewrite !elem_of_cons in Hs.
    destruct Hs as [-> | [-> | [-> | []%not_elem_of_nil]]]; try discriminate Hb.
    apply list_elem_of_singleton in Hr as ->. discriminate Ho.
Defined.

Lemma unregister_removes_only_witness :
  exists ss',
    reg_ok (fst (unregister ex_reg 1)) ss' /\ ss' ≡ₚ [ex_timer; ex_none] /\
    (snd (unregister ex_reg 1) = true <-> 1 ∈ [1; 2; 3]).
Proof.
  apply (unregister_removes_only ex_reg [ex_serial; ex_timer; ex_none] 1 ex_reg_ok).
  apply (bool_decide_unpack (NoDup _)). reflexivity.
Defined.

End SnapshotFacts.
