(* ===== verification/RecoveryOrder.v ===== *)
(** * Recovery order of the registered subsystems

    Model of [src/kernel/framework/barrier/recovery.rs]: the registry of
    subsystem domains with their save, restore and reset callbacks, the
    depth-first computation of the recovery order and the cascade over it.  The
    callbacks are state transformers of an arbitrary machine state [M].

    The depth-first loop runs on fuel [1 + total number of dependencies]; the
    first theorem ([recovery_order_spec]) includes that this is always enough.
    The second is the behaviour of the second loop, which takes the registry
    lock again while the function already holds it. *)

From S2P Require Import Prelude.

Module RecoveryOrder.
Section registry.
Context {M : Type}.

Record RegisteredDomain := mkRegisteredDomain {
  rid : Z;
  deps : list Z;
  save_fn : M -> M;
  restore_fn : M -> M;
  reset_fn : M -> M;
}.

Record RecoveryRegistry := mkRecoveryRegistry {
  registered : list RegisteredDomain;
  next_id : Z;
  initialized : bool;
}.

Definition new_registry : RecoveryRegistry := mkRecoveryRegistry [] 16 false.

Definition recovery_registry_init (reg : RecoveryRegistry) : RecoveryRegistry :=
  if initialized reg then reg else mkRecoveryRegistry [] (next_id reg) true.

(** A preferred id that is already present is returned unchanged. *)
Definition recovery_domain_register (reg : RecoveryRegistry) (prefer_id : Z)
    (ds : list Z) (save restore reset : M -> M) : RecoveryRegistry * Z :=
  let push i next :=
    (mkRecoveryRegistry
       (registered reg ++ [mkRegisteredDomain i ds save restore reset])
       next (initialized reg), i) in
  if negb (prefer_id =? 0) then
    if existsb (fun r => rid r =? prefer_id) (registered reg) then (reg, prefer_id)
    else push prefer_id (next_id reg)
  else push (next_id reg) (wrap_u64 (next_id reg + 1)).

Definition lookup_domain (reg : RecoveryRegistry) (i : Z) : option RegisteredDomain :=
  find_first (fun r => rid r =? i) (registered reg).

Definition recovery_subdomain_save_checkpoint (reg : RecoveryRegistry) (i : Z) (m : M) : M :=
  match lookup_domain reg i with
  | Some r => save_fn r m
  | None => m
  end.

Definition hard_reset_domain (reg : RecoveryRegistry) (i : Z) (m : M) : M :=
  match lookup_domain reg i with
  | Some r => reset_fn r m
  | None => m
  end.

(** [held] says whether the caller holds the registry lock, which is not
    reentrant. *)
Definition has_dependency (held : bool) (reg : RecoveryRegistry) (sub_id on_id : Z)
    : outcome bool :=
  if held then Deadlock
  else Done (match lookup_domain reg sub_id with
             | Some r => existsb (Z.eqb on_id) (deps r)
             | None => false
             end).

(** ** The depth-first loop *)

Definition VISITED_LEN : nat := 64.

Definition visited_at (visited : list bool) (i : nat) : outcome bool :=
  match visited !! i with
  | Some b => Done b
  | None => Panic
  end.

Definition index_in (all_ids : list Z) (x : Z) : option nat :=
  position (fun y => y =? x) all_ids.

(** The head of [stack] is its top. *)
Fixpoint push_deps (all_ids : list Z) (visited : list bool) (ds stack : list Z)
    : outcome (list Z) :=
  match ds with
  | [] => Done stack
  | dep :: ds =>
      match index_in all_ids dep with
      | Some di =>
          v ← visited_at visited di;
          push_deps all_ids visited ds (if (v : bool) then stack else dep :: stack)
      | None => push_deps all_ids visited ds stack
      end
  end.

Fixpoint dfs (fuel : nat) (reg : RecoveryRegistry) (all_ids : list Z)
    (visited : list bool) (stack order : list Z) : outcome (list bool * list Z) :=
  match fuel, stack with
  | S fuel, x :: stack =>
      match index_in all_ids x with
      | None => dfs fuel reg all_ids visited stack order
      | Some i =>
          v ← visited_at visited i;
          if (v : bool) then dfs fuel reg all_ids visited stack order
          else
            let visited := <[i := true]> visited in
            stack ← match lookup_domain reg x with
                    | Some r => push_deps all_ids visited (deps r) stack
                    | None => Done stack
                    end;
            dfs fuel reg all_ids visited stack (order ++ [x])
      end
  | _, _ => Done (visited, order)
  end.

(** The second loop, over the domains the first one did not visit. *)
Fixpoint add_dependents (reg : RecoveryRegistry) (all_ids : list Z) (root : Z)
    (visited : list bool) (todo order : list Z) : outcome (list Z) :=
  match todo with
  | [] => Done order
  | x :: todo =>
      match index_in all_ids x with
      | Some idx =>
          v ← visited_at visited idx;
          if negb v && negb (x =? root) then
            dep ← has_dependency true reg x root;
            add_dependents reg all_ids root visited todo
              (if (dep : bool) then order ++ [x] else order)
          else add_dependents reg all_ids root visited todo order
      | None => add_dependents reg all_ids root visited todo order
      end
  end.

Definition dfs_fuel (reg : RecoveryRegistry) : nat :=
  S (sum_list_with (fun r => length (deps r)) (registered reg)).

Definition compute_recovery_order (reg : RecoveryRegistry) (root_id : Z)
    : outcome (list Z) :=
  let all_ids := rid <$> registered reg in
  '(visited, order) ←
    dfs (dfs_fuel reg) reg all_ids (replicate VISITED_LEN false) [root_id] [];
  add_dependents reg all_ids root_id visited all_ids order.

Definition recover_one (reg : RecoveryRegistry) (acc : M * nat) (i : Z) : M * nat :=
  match lookup_domain reg i with
  | Some r => (restore_fn r (fst acc), S (snd acc))
  | None => acc
  end.

Definition cascade_recover (reg : RecoveryRegistry) (domain_id : Z) (m : M)
    : outcome (M * nat) :=
  order ← compute_recovery_order reg domain_id;
  Done (fold_left (recover_one reg) order (m, 0%nat)).

End registry.
Arguments RegisteredDomain : clear implicits.
Arguments RecoveryRegistry : clear implicits.
End RecoveryOrder.

Module RecoveryOrderFacts.
Import RecoveryOrder.
Section facts.
Context {M : Type}.
Implicit Types reg : RecoveryRegistry M.

Definition ids reg : list Z := rid <$> registered reg.

(** The domains a domain needs, directly or not: the registered ids reached
    from [root] along [deps]. *)
Inductive needed reg (root : Z) : Z -> Prop :=
  | needed_root : root ∈ ids reg -> needed reg root root
  | needed_dep x r d : needed reg root x -> lookup_domain reg x = Some r ->
      d ∈ deps r -> d ∈ ids reg -> needed reg root d.

(** ** Positions of distinct ids *)

Lemma index_in_Some l x i : index_in l x = Some i -> l !! i = Some x.
Proof.
  intros (y & Hy & Heq & _)%position_Some. by apply Z.eqb_eq in Heq as ->.
Qed.

Lemma index_in_elem l x : x ∈ l -> exists i, index_in l x = Some i.
Proof.
  intros Hx. destruct (index_in l x) as [i|] eqn:E; [by exists i|].
  unfold index_in in E. rewrite position_None in E. specialize (E x Hx). lia.
Qed.

Lemma index_in_None l x : index_in l x = None -> x ∉ l.
Proof.
  intros E Hx. unfold index_in in E. rewrite position_None in E.
  specialize (E x Hx). lia.
Qed.

(** [visited] flags exactly the ids of [order]. *)
Definition flags (l : list Z) (visited : list bool) (order : list Z) : Prop :=
  forall i x, l !! i = Some x -> visited !! i = Some (bool_decide (x ∈ order)).

Lemma flags_lookup l visited order x i :
  flags l visited order -> index_in l x = Some i ->
  visited_at visited i = Done (bool_decide (x ∈ order)).
Proof.
  intros Hf Hi%index_in_Some. unfold visited_at. by rewrite (Hf i x Hi).
Qed.

Lemma flags_insert l visited order x i :
  NoDup l -> flags l visited order -> l !! i = Some x ->
  flags l (<[i := true]> visited) (order ++ [x]).
Proof.
  intros Hnd Hf Hi j y Hj. destruct (decide (i = j)) as [<-|Hne].
  - rewrite list_lookup_insert_eq by (eapply lookup_lt_Some, (Hf i x Hi)).
    simplify_eq. rewrite bool_decide_eq_true_2; [done|]. set_solver.
  - rewrite list_lookup_insert_ne, (Hf j y Hj) by done. f_equal.
    apply bool_decide_ext. rewrite elem_of_app, list_elem_of_singleton.
    split; [by left|]. intros [H| ->]; [done|]. destruct Hne.
    by eapply NoDup_lookup.
Qed.

Lemma push_deps_run l visited order ds stack :
  flags l visited order ->
  exists new, push_deps l visited ds stack = Done (new ++ stack) /\
    (length new <= length ds)%nat /\
    (forall d, d ∈ new <-> d ∈ ds /\ d ∈ l /\ d ∉ order).
Proof.
  intros Hf. revert stack. induction ds as [|d ds IH]; intros stack; simpl.
  { exists []. split_and!; [done|done|]. set_solver. }
  destruct (index_in l d) as [i|] eqn:Hi.
  - rewrite (flags_lookup _ _ _ _ _ Hf Hi). cbn [mbind outcome_bind].
    pose proof (list_elem_of_lookup_2 _ _ _ (index_in_Some _ _ _ Hi)) as Hd.
    case_bool_decide as Ho.
    + destruct (IH stack) as (new & -> & Hl & Hin). exists new.
      split_and!; [done|lia|]. set_solver.
    + destruct (IH (d :: stack)) as (new & -> & Hl & Hin). exists (new ++ [d]).
      split_and!; [by rewrite <- app_assoc|rewrite length_app; simpl; lia|].
      set_solver.
  - apply index_in_None in Hi. destruct (IH stack) as (new & -> & Hl & Hin).
    exists new. split_and!; [done|lia|]. set_solver.
Qed.

(** ** Fuel *)

(** Dependencies of the domains not visited yet. *)
Definition weight reg (order : list Z) : nat :=
  sum_list_with (fun r => if bool_decide (rid r ∈ order) then 0%nat else length (deps r))
    (registered reg).

Lemma weight_visit reg order r :
  r ∈ registered reg -> rid r ∉ order ->
  (weight reg (order ++ [rid r]) + length (deps r) <= weight reg order)%nat.
Proof.
  intros Hr Ho. unfold weight.
  assert (Hmono : forall l : list (RegisteredDomain M),
    (sum_list_with (fun r' => if bool_decide (rid r' ∈ order ++ [rid r])
       then 0%nat else length (deps r')) l <=
     sum_list_with (fun r' => if bool_decide (rid r' ∈ order)
       then 0%nat else length (deps r')) l)%nat).
  { induction l as [|r' l IH]; [done|]. simpl.
    case_bool_decide as H1; case_bool_decide as H2; try lia. set_solver. }
  induction (registered reg) as [|r' l IH]; [by apply not_elem_of_nil in Hr|].
  simpl. apply elem_of_cons in Hr as [<-|Hr]; [|specialize (IH Hr)].
  - rewrite bool_decide_eq_true_2 by set_solver.
    rewrite bool_decide_eq_false_2 by done. specialize (Hmono l). lia.
  - case_bool_decide as H1; case_bool_decide as H2; try lia.
    set_solver.
Qed.

Lemma weight_le reg : weight reg [] = pred (dfs_fuel reg).
Proof.
  unfold weight, dfs_fuel. simpl. induction (registered reg) as [|r l IH]; [done|].
  simpl in *. lia.
Qed.

Lemma lookup_domain_Some reg x r :
  lookup_domain reg x = Some r -> r ∈ registered reg /\ rid r = x.
Proof.
  unfold lookup_domain, find_first.
  destruct (position _ _) as [i|] eqn:Hi; [|done].
  apply position_Some in Hi as (y & Hy & Heq & _). rewrite Hy. intros [= <-].
  split; [by eapply list_elem_of_lookup_2|lia].
Qed.

Lemma lookup_domain_elem reg x : x ∈ ids reg -> exists r, lookup_domain reg x = Some r.
Proof.
  intros (r & -> & Hr)%list_elem_of_fmap. unfold lookup_domain, find_first.
  destruct (position _ _) as [i|] eqn:Hi.
  - apply position_Some in Hi as (y & Hy & _). by exists y.
  - rewrite position_None in Hi. specialize (Hi r Hr). lia.
Qed.

(** ** The loop invariant *)

Record dfs_inv reg (root : Z) (visited : list bool) (stack order : list Z) : Prop := {
  di_flags : flags (ids reg) visited order;
  di_nodup : NoDup order;
  di_order : forall x, x ∈ order -> needed reg root x;
  di_stack : forall x, x ∈ stack -> x ∈ ids reg -> needed reg root x;
  di_root : root ∈ ids reg -> root ∈ order \/ root ∈ stack;
  di_closed : forall x r d, x ∈ order -> lookup_domain reg x = Some r ->
    d ∈ deps r -> d ∈ ids reg -> d ∈ order \/ d ∈ stack;
}.

Lemma dfs_inv_pop reg root visited x stack order :
  dfs_inv reg root visited (x :: stack) order -> x ∈ order \/ x ∉ ids reg ->
  dfs_inv reg root visited stack order.
Proof.
  intros [Hf Hn Ho Hs Hr Hc] Hx. split; try done.
  - set_solver.
  - intros Hin. destruct (Hr Hin) as [H|[->|H]%elem_of_cons]; auto. naive_solver.
  - intros y r d Hy Hr' Hd Hin. destruct (Hc y r d Hy Hr' Hd Hin)
      as [H|[->|H]%elem_of_cons]; auto. naive_solver.
Qed.

Lemma dfs_inv_visit reg root visited x i r stack order new :
  NoDup (ids reg) -> dfs_inv reg root visited (x :: stack) order ->
  ids reg !! i = Some x -> x ∉ order -> lookup_domain reg x = Some r ->
  (forall d, d ∈ new <-> d ∈ deps r /\ d ∈ ids reg /\ d ∉ order ++ [x]) ->
  dfs_inv reg root (<[i := true]> visited) (new ++ stack) (order ++ [x]).
Proof.
  intros Hnd [Hf Hn Ho Hs Hr Hc] Hi Hx Hl Hnew.
  assert (Hxi : x ∈ ids reg) by by eapply list_elem_of_lookup_2.
  assert (Hnx : needed reg root x) by (apply Hs; [by left|done]). split.
  - by apply flags_insert.
  - apply NoDup_app. split_and!; [done|set_solver|apply NoDup_singleton].
  - intros y [Hy| ->%list_elem_of_singleton]%elem_of_app; auto.
  - intros y [Hy|Hy]%elem_of_app Hyi; [|by apply Hs; [right|]].
    apply Hnew in Hy as (Hd & _ & _). by eapply needed_dep.
  - set_solver.
  - intros y r' d Hy Hr' Hd Hin.
    destruct (decide (d ∈ order ++ [x])) as [|Hout]; [by left|]. right.
    apply elem_of_app in Hy as [Hy| ->%list_elem_of_singleton].
    + destruct (Hc y r' d Hy Hr' Hd Hin); set_solver.
    + simplify_eq. apply elem_of_app. left. by apply Hnew.
Qed.

Lemma dfs_run reg root fuel visited stack order :
  NoDup (ids reg) -> dfs_inv reg root visited stack order ->
  (length stack + weight reg order <= fuel)%nat ->
  exists visited' order',
    dfs fuel reg (ids reg) visited stack order = Done (visited', order') /\
    dfs_inv reg root visited' [] order'.
Proof.
  intros Hnd. revert visited stack order.
  induction fuel as [|fuel IH]; intros visited stack order Hinv Hf.
  - destruct stack; [by exists visited, order|simpl in Hf; lia].
  - destruct stack as [|x stack]; simpl; [by exists visited, order|].
    simpl in Hf. destruct (index_in (ids reg) x) as [i|] eqn:Hi.
    2: { apply index_in_None in Hi. apply IH; [|lia].
         eapply dfs_inv_pop; [done|by right]. }
    rewrite (flags_lookup _ _ _ _ _ (di_flags _ _ _ _ _ Hinv) Hi).
    cbn [mbind outcome_bind]. case_bool_decide as Hx.
    { apply IH; [|lia]. eapply dfs_inv_pop; [done|by left]. }
    apply index_in_Some in Hi.
    destruct (lookup_domain_elem reg x) as [r Hr]; [by eapply list_elem_of_lookup_2|].
    pose proof (lookup_domain_Some _ _ _ Hr) as [Hrin Hrid]. rewrite Hr.
    destruct (push_deps_run (ids reg) (<[i:=true]> visited) (order ++ [x]) (deps r) stack)
      as (new & -> & Hlen & Hnew); [by apply flags_insert; [|apply Hinv|]|].
    cbn [mbind outcome_bind].
    pose proof (weight_visit reg order r Hrin) as Hw. rewrite Hrid in Hw.
    apply IH; [by eapply dfs_inv_visit|].
    rewrite length_app. specialize (Hw Hx). lia.
Qed.

Lemma dfs_prefix fuel reg l visited stack order v o :
  dfs fuel reg l visited stack order = Done (v, o) -> exists t, o = order ++ t.
Proof.
  revert visited stack order. induction fuel as [|fuel IH]; intros visited stack order.
  { intros [= _ <-]. exists []. by rewrite app_nil_r. }
  destruct stack as [|x stack]; cbn [dfs].
  { intros [= _ <-]. exists []. by rewrite app_nil_r. }
  destruct (index_in l x) as [i|]; [|by apply IH].
  destruct (visited_at visited i) as [[]| |]; [by apply IH| |done..].
  cbn [mbind outcome_bind].
  destruct (match lookup_domain reg x with Some r => _ | None => _ end)
    as [st| |]; [|done..].
  intros [t ->]%IH. exists (x :: t). by rewrite <- app_assoc.
Qed.

Lemma dfs_inv_start reg root :
  (length (registered reg) <= VISITED_LEN)%nat ->
  dfs_inv reg root (replicate VISITED_LEN false) [root] [].
Proof.
  intros Hlen. split.
  - intros i x Hx. apply lookup_lt_Some in Hx. unfold ids in Hx.
    rewrite length_fmap in Hx. rewrite lookup_replicate_2 by lia.
    by rewrite bool_decide_eq_false_2 by apply not_elem_of_nil.
  - apply NoDup_nil_2.
  - set_solver.
  - intros x ->%list_elem_of_singleton. by constructor.
  - set_solver.
  - set_solver.
Qed.

Lemma dfs_all reg root :
  NoDup (ids reg) -> (length (registered reg) <= VISITED_LEN)%nat ->
  exists visited order,
    dfs (dfs_fuel reg) reg (ids reg) (replicate VISITED_LEN false) [root] []
      = Done (visited, order) /\
    flags (ids reg) visited order /\ NoDup order /\
    (forall x, x ∈ order <-> needed reg root x) /\
    (root ∈ ids reg -> head order = Some root).
Proof.
  intros Hnd Hlen. pose proof (dfs_inv_start reg root Hlen) as Hinv.
  destruct (dfs_run reg root (dfs_fuel reg) _ _ _ Hnd Hinv)
    as (v & o & Hrun & [Hf Hn Ho _ Hr Hc]).
  { simpl. rewrite weight_le. unfold dfs_fuel. simpl. lia. }
  exists v, o. split_and!; [done|done|done| |].
  - intros x. split; [apply Ho|].
    induction 1 as [Hin|x r d _ IH Hl Hd Hin].
    + destruct (Hr Hin) as [|H]; [done|by apply not_elem_of_nil in H].
    + destruct (Hc x r d IH Hl Hd Hin) as [|H]; [done|by apply not_elem_of_nil in H].
  - intros Hin. clear Hn Ho Hr Hc Hf. revert Hrun. unfold dfs_fuel. cbn [dfs].
    destruct (index_in_elem _ _ Hin) as [i Hi]. rewrite Hi.
    rewrite (flags_lookup _ _ _ _ _ (di_flags _ _ _ _ _ Hinv) Hi).
    rewrite bool_decide_eq_false_2 by apply not_elem_of_nil. cbn [mbind outcome_bind].
    destruct (match lookup_domain reg root with
              | Some r => _ | None => _ end) as [st| |] eqn:Hst; [|done..].
    cbn [mbind outcome_bind app]. intros Hrun.
    destruct (dfs_prefix _ _ _ _ _ _ _ _ Hrun) as [t ->]. done.
Qed.

Lemma add_dependents_run reg root visited order todo acc :
  flags (ids reg) visited order -> todo ⊆ ids reg ->
  add_dependents reg (ids reg) root visited todo acc
    = if forallb (fun x => bool_decide (x ∈ order) || (x =? root)) todo
      then Done acc else Deadlock.
Proof.
  intros Hf. induction todo as [|x todo IH]; intros Hsub; simpl; [done|].
  destruct (index_in_elem (ids reg) x) as [i Hi]; [set_solver|].
  rewrite Hi, (flags_lookup _ _ _ _ _ Hf Hi). cbn [mbind outcome_bind].
  rewrite IH by set_solver.
  by case_bool_decide; destruct (x =? root).
Qed.

(** With at most 64 registered domains of distinct ids, the depth-first
    part of [compute_recovery_order] terminates without a panic and lists
    exactly the registered domains [root] needs, each once, with [root] itself
    first; the whole function returns that list if there is no other
    registered domain, and otherwise never returns. *)
Theorem recovery_order_spec reg root :
  NoDup (ids reg) -> (length (registered reg) <= 64)%nat ->
  exists order,
    NoDup order /\ (forall x, x ∈ order <-> needed reg root x) /\
    (root ∈ ids reg -> head order = Some root) /\
    compute_recovery_order reg root
      = if forallb (fun x => bool_decide (x ∈ order) || (x =? root)) (ids reg)
        then Done order else Deadlock.
Proof.
  intros Hnd Hlen. destruct (dfs_all reg root Hnd Hlen) as (v & o & Hrun & Hf & Hn & Hs & Hh).
  exists o. split_and!; [done..|]. unfold compute_recovery_order.
  fold (ids reg). rewrite Hrun. cbn [mbind outcome_bind]. by apply add_dependents_run.
Qed.

(** A registered domain that the failed one does not depend on makes the
    recovery of the failed domain hang: [cascade_recover] deadlocks on the
    registry lock before any restore callback runs, whatever the machine
    state. *)
Theorem independent_domain_deadlocks reg root other (m : M) :
  NoDup (ids reg) -> (length (registered reg) <= 64)%nat ->
  other ∈ ids reg -> other <> root -> ~ needed reg root other ->
  cascade_recover reg root m = Deadlock.
Proof.
  intros Hnd Hlen Hin Hne Hout.
  destruct (dfs_all reg root Hnd Hlen) as (v & o & Hrun & Hf & _ & Hs & _).
  unfold cascade_recover, compute_recovery_order. fold (ids reg).
  rewrite Hrun. cbn [mbind outcome_bind]. rewrite (add_dependents_run _ _ _ o) by done.
  destruct (forallb _ _) eqn:Hall; [|done]. rewrite forallb_forall in Hall.
  specialize (Hall other (proj1 (list_elem_of_In _ _) Hin)).
  apply orb_true_iff in Hall as [Hall|Hall]; [|lia].
  by apply bool_decide_eq_true_1, Hs in Hall.
Qed.
End facts.

(** ** Witnesses *)

(** A chain: the file system needs a pool, which needs a disk. *)
Definition dom (i : Z) (ds : list Z) : RegisteredDomain (list Z) :=
  mkRegisteredDomain i ds (fun m => m) (fun m => m ++ [i]) (fun m => m).
Definition chain : RecoveryRegistry (list Z) :=
  mkRecoveryRegistry [dom 2 [16]; dom 17 []; dom 16 [17]] 18 true.

Lemma recovery_order_spec_witness :
  exists order, compute_recovery_order chain 2 = Done order /\
    (forall x, x ∈ order <-> needed chain 2 x).
Proof.
  destruct (recovery_order_spec chain 2) as (order & _ & Hs & _ & Hc).
  - apply (bool_decide_unpack (NoDup _)). reflexivity.
  - vm_compute. lia.
  - exists order. split; [|exact Hs]. rewrite Hc.
    assert (Hv : compute_recovery_order chain 2 = Done [2; 16; 17]) by reflexivity.
    rewrite Hv in Hc. destruct (forallb _ _); [reflexivity|discriminate Hc].
Defined.

(** The registrations the kernel makes: "hvfs" (2) and "net" (5), without
    dependencies. *)
Definition kernel_registry : RecoveryRegistry (list Z) :=
  mkRecoveryRegistry [dom 2 []; dom 5 []] 16 false.

Lemma independent_domain_deadlocks_witness :
  cascade_recover kernel_registry 2 [] = Deadlock.
Proof.
  apply (independent_domain_deadlocks kernel_registry 2 5 []).
  - apply (bool_decide_unpack (NoDup _)). reflexivity.
  - vm_compute. lia.
  - apply (bool_decide_unpack (5 ∈ _)). reflexivity.
  - discriminate.
  - assert (Honly : forall x, needed kernel_registry 2 x -> x = 2).
    { induction 1 as [|x r d _ -> Hl Hd _]; [reflexivity|].
      vm_compute in Hl. injection Hl as <-. by apply not_elem_of_nil in Hd. }
    intros H5%Honly. discriminate H5.
Defined.

End RecoveryOrderFacts.
