(* ===== verification/Reset.v ===== *)
(** * Layered reset

    Model of [src/kernel/framework/barrier/reset/] ([bbr.rs], [bsr.rs],
    [bhr.rs], [layered.rs], [audit.rs]) and of the types and statics of
    [src/kernel/services/barrier/reset_config.rs].  Functions of type [-> !]
    end in one of the ways of [ending].  The tick is an input; log lines are
    left out, as are the x86 port writes of [bhr.rs] that precede the end.

    The theorems: the soft reset on both of its branches
    ([bsr_execute_branches]), and what the layered entry really does
    ([layered_always_hard_resets]). *)

From S2P Require Import Prelude UndoLog Domain Manager Snapshot.
Import Domain Manager.

Module Reset.

Inductive RecoveryLayer := Layer1 | Layer2 | Layer3.

Definition layer_from_u32 (v : Z) : RecoveryLayer :=
  match v with
  | 1 => Layer1
  | 2 => Layer2
  | 3 => Layer3
  | _ => Layer1
  end.

Definition layer_as_u32 (l : RecoveryLayer) : Z :=
  match l with
  | Layer1 => 1
  | Layer2 => 2
  | Layer3 => 3
  end.

Inductive RecoveryResult := Success | Failed | Escalate.

Definition is_success (r : RecoveryResult) : bool :=
  match r with Success => true | _ => false end.
Definition should_escalate (r : RecoveryResult) : bool :=
  match r with Escalate => true | _ => false end.

Inductive RollbackMode := Serial | Parallel.

Record RecoveryConfig := mkRecoveryConfig {
  enable_layer1 : bool;
  enable_layer2 : bool;
  enable_layer3 : bool;
  layer1_failure_threshold : Z;
  layer2_device_timeout_ticks : Z;
  layer2_max_attempts : Z;
  audit_enabled : bool;
  rollback_mode : RollbackMode;
  parallel_max_workers : nat;
}.

Definition default_config : RecoveryConfig :=
  mkRecoveryConfig true true true 5 100 3 true Serial 4.

Definition RECOVERY_CONFIG : RecoveryConfig := default_config.

Definition is_parallel (c : RecoveryConfig) : bool :=
  match rollback_mode c with Parallel => true | Serial => false end.

(** ** Audit log *)

Definition MAX_AUDIT_ENTRIES : nat := 16.

Record ResetAuditEntry := mkAuditEntry {
  a_tick : Z;
  a_layer : RecoveryLayer;
  a_result : RecoveryResult;
  a_reason : Z;
  a_domain_id : Z;
  a_entries_rolled : nat;
}.

Definition empty_audit_entry : ResetAuditEntry :=
  mkAuditEntry 0 Layer1 Success 0 0 0.

Record ResetAuditLog := mkAuditLog {
  a_entries : list ResetAuditEntry;
  a_count : nat;
}.

Definition new_audit_log : ResetAuditLog :=
  mkAuditLog (replicate MAX_AUDIT_ENTRIES empty_audit_entry) 0.

(** A full log is shifted down by one entry first; the last slot keeps its old
    value until it is overwritten. *)
Definition audit_push (log : ResetAuditLog) (e : ResetAuditEntry) : ResetAuditLog :=
  let log :=
    if (MAX_AUDIT_ENTRIES <=? a_count log)%nat
    then mkAuditLog
           (drop 1 (a_entries log)
              ++ drop (MAX_AUDIT_ENTRIES - 1) (a_entries log))
           (MAX_AUDIT_ENTRIES - 1)
    else log in
  mkAuditLog (<[a_count log := e]> (a_entries log)) (S (a_count log)).

Definition audit_last (log : ResetAuditLog) : option ResetAuditEntry :=
  if (0 <? a_count log)%nat then a_entries log !! (a_count log - 1)%nat else None.

Definition audit_clear (log : ResetAuditLog) : ResetAuditLog :=
  mkAuditLog (a_entries log) 0.

(** ** State *)

Record state {D : Type} := mkState {
  wld : world;
  devices : Snapshot.Registry;
  bus : D;
  panic_flag : bool;
  current_layer : Z;
  reset_in_progress : bool;
  bbr_count : Z;
  bsr_count : Z;
  bhr_count : Z;
  last_reset_tick : Z;
  parallel_rollback_active : bool;
  audit_log : ResetAuditLog;
}.
Arguments state : clear implicits.
Arguments mkState {D}.

Section ops.
Context {D : Type} `{Mmio D}.
Implicit Types s : state D.

Definition eta s : state D :=
  mkState (wld s) (devices s) (bus s) (panic_flag s) (current_layer s)
    (reset_in_progress s) (bbr_count s) (bsr_count s) (bhr_count s)
    (last_reset_tick s) (parallel_rollback_active s) (audit_log s).

Definition with_world (v : world) s : state D := ltac:(setter eta (@wld D) v s).
Definition with_bus (v : D) s : state D := ltac:(setter eta (@bus D) v s).
Definition with_panic_flag (v : bool) s : state D := ltac:(setter eta (@panic_flag D) v s).
Definition with_current_layer (v : Z) s : state D :=
  ltac:(setter eta (@current_layer D) v s).
Definition set_reset_in_progress (v : bool) s : state D :=
  ltac:(setter eta (@reset_in_progress D) v s).
Definition with_bbr_count (v : Z) s : state D := ltac:(setter eta (@bbr_count D) v s).
Definition with_bsr_count (v : Z) s : state D := ltac:(setter eta (@bsr_count D) v s).
Definition with_bhr_count (v : Z) s : state D := ltac:(setter eta (@bhr_count D) v s).
Definition with_last_reset_tick (v : Z) s : state D :=
  ltac:(setter eta (@last_reset_tick D) v s).
Definition with_parallel_active (v : bool) s : state D :=
  ltac:(setter eta (@parallel_rollback_active D) v s).
Definition with_audit_log (v : ResetAuditLog) s : state D :=
  ltac:(setter eta (@audit_log D) v s).

Definition get_current_layer s : RecoveryLayer := layer_from_u32 (current_layer s).
Definition set_current_layer (l : RecoveryLayer) s : state D :=
  with_current_layer (layer_as_u32 l) s.
Definition increment_bbr_count s : state D := with_bbr_count (wrap_u32 (bbr_count s + 1)) s.
Definition increment_bsr_count s : state D := with_bsr_count (wrap_u32 (bsr_count s + 1)) s.
Definition increment_bhr_count s : state D := with_bhr_count (wrap_u32 (bhr_count s + 1)) s.

Definition get_stats s : Z * Z * Z :=
  (bsr_count s, bhr_count s, wrap_u32 (last_reset_tick s)).

Definition reset_stats s : state D :=
  with_parallel_active false (set_reset_in_progress false (with_current_layer 0
    (with_last_reset_tick 0 (with_bhr_count 0 (with_bsr_count 0 s))))).

Definition audit_record (l : RecoveryLayer) (r : RecoveryResult) (reason tick : Z) s
    : state D :=
  if audit_enabled RECOVERY_CONFIG
  then with_audit_log (audit_push (audit_log s) (mkAuditEntry tick l r reason 0 0)) s
  else s.

Definition audit_record_domain (l : RecoveryLayer) (r : RecoveryResult)
    (reason domain_id : Z) (entries_rolled : nat) (tick : Z) s : state D :=
  if audit_enabled RECOVERY_CONFIG
  then with_audit_log
         (audit_push (audit_log s) (mkAuditEntry tick l r reason domain_id entries_rolled)) s
  else s.

(** ** Soft reset *)

(** A write through the reference in a slot. *)
Definition modify_slot (f : RecoveryDomain -> RecoveryDomain) (w : world)
    (slot : option nat) : world :=
  match slot with
  | Some r => match store w !! r with
              | Some d => assign r (f d) w
              | None => w
              end
  | None => w
  end.

Definition for_all_domains (f : RecoveryDomain -> RecoveryDomain) (w : world) : world :=
  fold_left (modify_slot f) (registered w) w.

Definition freeze_all_domains (w : world) : world :=
  for_all_domains (set_state Freezing) w.

Definition unfreeze_all_domains (w : world) : world :=
  for_all_domains (fun d => with_consecutive_failures 0 (set_state Active d)) w.

(** Empties the undo log of the domain at [r] and restarts its generations. *)
Definition rollback_ref (w : world) (r : nat) : outcome (world * nat) :=
  dom ← deref w r;
  '(undo', mem', rolled) ← UndoLog.rollback_to (undo dom) 0 (memory w);
  let dom := with_barrier_generation 1 (with_undo undo' dom) in
  Done (assign r dom (with_memory mem' w), rolled).

Fixpoint rollback_slots (w : world) (slots : list (option nat)) (total : nat)
    : outcome (world * nat) :=
  match slots with
  | [] => Done (w, total)
  | None :: slots => rollback_slots w slots total
  | Some r :: slots =>
      '(w, rolled) ← rollback_ref w r;
      rollback_slots w slots (total + rolled)
  end.

Definition rollback_to_init (w : world) : outcome (world * nat) :=
  rollback_slots w (registered w) 0.

Definition reset_devices s : state D * RecoveryResult :=
  let '(b, success, failed) := Snapshot.restore_all (devices s) (bus s) in
  (with_bus b s,
   if (failed =? 0)%nat || (0 <? success)%nat then Success else Escalate).

Definition clear_panic_state s : state D :=
  set_reset_in_progress false (with_panic_flag false s).

Definition bsr_execute s (tick : Z) : outcome (state D * RecoveryResult) :=
  if reset_in_progress s then Done (s, Escalate)
  else
    let s := increment_bsr_count (set_current_layer Layer2 (set_reset_in_progress true s)) in
    let s := with_world (freeze_all_domains (wld s)) s in
    '(w, _) ← rollback_to_init (wld s);
    let s := with_world w s in
    let '(s, device_result) := reset_devices s in
    if should_escalate device_result
    then Done (audit_record Layer2 Escalate 1 tick s, Escalate)
    else
      let s := with_world (unfreeze_all_domains (wld s)) s in
      let s := clear_panic_state s in
      Done (audit_record Layer2 Success 0 tick s, Success).

(** ** Base recovery *)

(** [PanicInfo]: the address of its [Location], the address of the file name
    and the line, and the message when it is a plain string. *)
Record PanicInfo := mkPanicInfo {
  location : option (Z * Z * Z);
  message : option (list Z);
}.

(** The scan covers the first eight of the address ranges. *)
Definition locate_domain_from_panic (w : world) (p : PanicInfo) : option Z :=
  match location p with
  | Some (addr, _, _) =>
      match find_first
        (fun slot => match slot_domain w slot with
                     | Some d => existsb (fun '(start, end_) => (start <=? addr) && (addr <? end_))
                                   (take (Nat.min (length (addr_ranges d)) 8) (addr_ranges d))
                     | None => false
                     end) (registered w) with
      | Some slot => id <$> slot_domain w slot
      | None => None
      end
  | None => None
  end.

Definition FINGERPRINT_MUL : Z := 6364136223846793005.

Definition hash_byte (hash byte : Z) : Z :=
  wrap_u64 (wrap_u64 (hash * FINGERPRINT_MUL) + byte).

Definition compute_fingerprint (p : PanicInfo) : Z :=
  let hash := match location p with
              | Some (_, file_ptr, line) => hash_byte (wrap_u64 (0 + file_ptr)) line
              | None => 0
              end in
  match message p with
  | Some msg => fold_left hash_byte msg hash
  | None => hash
  end.

Definition try_rollback_single (w : world) (i tick fp : Z)
    : outcome (world * RecoveryResult) :=
  match find w i with
  | None => Done (w, Escalate)
  | Some r =>
      dom ← deref w r;
      let '(dom, ok) := try_rollback dom tick fp in
      let w := assign r dom w in
      if ok then
        '(w, (_, _, _, code)) ← rollback_domain w r tick fp 1;
        Done (w, if code =? 0 then Success else Escalate)
      else Done (w, Escalate)
  end.

Definition bbr_execute s (p : PanicInfo) (tick : Z) : outcome (state D * RecoveryResult) :=
  let s := increment_bbr_count (set_current_layer Layer1 s) in
  let fp := compute_fingerprint p in
  match locate_domain_from_panic (wld s) p with
  | None => Done (audit_record Layer1 Escalate 2 tick s, Escalate)
  | Some i =>
      '(w, rolled) ← cascade_rollback (wld s) i tick fp;
      let s := with_world w s in
      if (0 <? rolled)%nat
      then Done (audit_record Layer1 Success 0 tick s, Success)
      else Done (audit_record Layer1 Escalate 1 tick s, Escalate)
  end.

Definition bbr_mark_recovered (w : world) (i : Z) : outcome world :=
  match find w i with
  | None => Done w
  | Some r =>
      dom ← deref w r;
      Done (assign r (with_consecutive_failures 0 (set_state Active dom)) w)
  end.

Definition should_attempt_recovery (w : world) (i : Z) : outcome bool :=
  match find w i with
  | None => Done false
  | Some r =>
      dom ← deref w r;
      Done (consecutive_failures dom <? layer1_failure_threshold RECOVERY_CONFIG)
  end.

(** ** Layered entry *)

(** How a diverging function ends: past an [unreachable_unchecked], in the
    keyboard-controller reset or in the triple fault. *)
Inductive ending := Unreachable | KeyboardReset | TripleFault.

Definition bhr_execute s (tick : Z) : state D * ending :=
  let s := increment_bhr_count (set_current_layer Layer3 s) in
  (audit_record Layer3 Success 0 tick s, KeyboardReset).

Definition execute_layered s (tick : Z) : outcome (state D * ending) :=
  let s := if reset_in_progress s then s else set_reset_in_progress true s in
  '(s, done) ←
    (if enable_layer2 RECOVERY_CONFIG then
       '(s, r) ← bsr_execute (set_current_layer Layer2 s) tick;
       Done (s, is_success r)
     else Done (s, false));
  if (done : bool) then Done (s, Unreachable)
  else if enable_layer3 RECOVERY_CONFIG
  then Done (bhr_execute (set_current_layer Layer3 s) tick)
  else Done (s, TripleFault).

Definition execute_from_panic s (p : PanicInfo) (tick : Z) : outcome (state D * ending) :=
  '(s, done) ←
    (if enable_layer1 RECOVERY_CONFIG then
       '(s, r) ← bbr_execute (set_current_layer Layer1 s) p tick;
       if is_success r then Done (set_reset_in_progress false s, true)
       else Done (s, false)
     else Done (s, false));
  if (done : bool) then Done (s, Unreachable) else execute_layered s tick.

End ops.
End Reset.

Module ResetFacts.
Import Reset ManagerFacts.

(** ** Loops over the registered domains *)

Lemma modify_slot_ok f w slot :
  (forall d, dom_ok d -> dom_ok (f d)) -> world_ok w ->
  world_ok (modify_slot f w slot) /\ mgr (modify_slot f w slot) = mgr w /\
  memory (modify_slot f w slot) = memory w.
Proof.
  intros Hf Hw. destruct slot as [r|]; simpl; [|done].
  destruct (store w !! r) as [d|] eqn:Hd; [|done].
  split_and!; [|done|done]. apply assign_ok; [done|]. apply Hf.
  by apply (Forall_lookup_1 _ _ _ _ (wo_store _ Hw) Hd).
Qed.

Section loop.
Context (f : RecoveryDomain -> RecoveryDomain).
Context (f_ok : forall d, dom_ok d -> dom_ok (f d)).

Lemma modify_slots_ok slots w :
  world_ok w ->
  let w' := fold_left (modify_slot f) slots w in
  world_ok w' /\ mgr w' = mgr w /\ memory w' = memory w.
Proof.
  revert w. induction slots as [|slot slots IH]; intros w Hw; simpl; [done|].
  destruct (modify_slot_ok f w slot f_ok Hw) as (Hw1 & Hm & Hme).
  destruct (IH _ Hw1) as (Hw2 & Hm2 & Hme2). split_and!; [done|congruence..].
Qed.

(** A property of one domain that [f] preserves survives the loop. *)
Lemma modify_slots_keep (Q : RecoveryDomain -> Prop) r slots w :
  (forall d, Q d -> Q (f d)) ->
  (forall d, store w !! r = Some d -> Q d) ->
  forall d, store (fold_left (modify_slot f) slots w) !! r = Some d -> Q d.
Proof.
  intros HQ. revert w. induction slots as [|slot slots IH]; intros w Hr; simpl; [done|].
  apply IH. intros d. destruct slot as [k|]; simpl; [|by apply Hr].
  destruct (store w !! k) as [d1|] eqn:Hk; [|by apply Hr]. simpl.
  rewrite list_lookup_insert. case_decide as Hc; [|by apply Hr].
  intros [= <-]. destruct Hc as [-> _]. by apply HQ, Hr.
Qed.

(** What [f] establishes holds of every domain the loop visited. *)
Lemma modify_slots_touch (P : RecoveryDomain -> Prop) r slots w :
  (forall d, P (f d)) -> Some r ∈ slots ->
  forall d, store (fold_left (modify_slot f) slots w) !! r = Some d -> P d.
Proof.
  intros HP. revert w. induction slots as [|slot slots IH]; intros w Hin.
  { by apply not_elem_of_nil in Hin. }
  apply elem_of_cons in Hin as [<-|Hin]; [|by apply IH].
  apply (modify_slots_keep P r slots (modify_slot f w (Some r))); [by intros|].
  intros d. simpl.
  destruct (store w !! r) as [d1|] eqn:Hr; simpl; [|congruence].
  rewrite list_lookup_insert_eq by by eapply lookup_lt_Some. by intros [= <-].
Qed.
End loop.

(** ** Emptying the undo logs *)

Lemma rollback_ref_run w r :
  world_ok w -> (r < length (store w))%nat ->
  exists d d' n mem', store w !! r = Some d /\
    rollback_ref w r = Done (assign r d' (with_memory mem' w), n) /\
    world_ok (assign r d' (with_memory mem' w)) /\
    barrier_generation d' = 1 /\ Domain.state d' = Domain.state d /\
    (Forall (fun e => 0 <= UndoLog.generation e) (UndoLog.live (undo d)) ->
     UndoLog.live (undo d') = []).
Proof.
  intros Hw Hr. destruct (deref_ok w r Hw Hr) as (d & Hd & Hdr & Hok).
  unfold rollback_ref. rewrite Hdr. cbn [mbind outcome_bind].
  destruct (UndoLogFacts.rollback_to_run (undo d) 0 (memory w) (proj1 Hok))
    as (keep & popped & log1 & Hl & Hl1 & Hok1 & _ & Hlast & ->).
  cbn [mbind outcome_bind]. do 4 eexists. split; [done|]. split; [reflexivity|].
  split_and!; [|done|done|].
  - apply assign_ok; [by destruct Hw; split|]. destruct Hok as (_ & ? & ?).
    split_and!; [|done|done]. simpl.
    case_match; [by apply UndoLogFacts.compact_keeping_spec|done].
  - intros Hg. destruct keep as [|e keep _] using rev_ind; [done|exfalso].
    specialize (Hlast e (last_snoc _ _)). rewrite Hl, !Forall_app, Forall_singleton in Hg.
    lia.
Qed.

Lemma rollback_slots_run slots w total :
  world_ok w -> slots ⊆ domains (mgr w) ->
  exists w' total', rollback_slots w slots total = Done (w', total') /\
    world_ok w' /\ mgr w' = mgr w /\
    (forall r d', store w' !! r = Some d' ->
       (exists d, store w !! r = Some d /\ Domain.state d' = Domain.state d /\
          (barrier_generation d = 1 -> barrier_generation d' = 1)) /\
       (Some r ∈ slots -> barrier_generation d' = 1)).
Proof.
  revert w total. induction slots as [|[r|] slots IH]; intros w total Hw Hsub; simpl.
  - exists w, total. split_and!; [done..|]. intros r d Hd.
    split; [by exists d|]. intros Hin. by apply not_elem_of_nil in Hin.
  - assert (Hr : (r < length (store w))%nat).
    { pose proof (wo_domains _ Hw) as Hd. unfold refs_ok in Hd.
      rewrite Forall_forall in Hd. apply (Hd (Some r)); [apply Hsub; by left|done]. }
    destruct (rollback_ref_run w r Hw Hr)
      as (d & d1 & n & mem' & Hd & -> & Hw1 & Hg1 & Hs1 & _).
    cbn [mbind outcome_bind].
    destruct (IH (assign r d1 (with_memory mem' w)) (total + n)%nat Hw1)
      as (w' & total' & -> & Hw' & Hm & Hall).
    { intros x Hx. apply Hsub. by right. }
    exists w', total'. split_and!; [done..|]. intros k d' Hk.
    destruct (Hall k d' Hk) as [(d2 & Hd2 & Hs2 & Hg2) Htouch]. simpl in Hd2.
    destruct (decide (k = r)) as [->|Hne].
    + rewrite list_lookup_insert_eq in Hd2 by done. injection Hd2 as <-.
      split; [exists d; split_and!; [done|congruence|by auto]|by auto].
    + rewrite list_lookup_insert_ne in Hd2 by done. split; [by exists d2|].
      intros [[=]|Hin]%elem_of_cons; [by subst|by auto].
  - destruct (IH w total Hw) as (w' & total' & -> & Hw' & Hm & Hall).
    { intros x Hx. apply Hsub. by right. }
    exists w', total'. split_and!; [done..|]. intros k d' Hk.
    destruct (Hall k d' Hk) as [Hex Htouch]. split; [done|].
    intros [[=]|Hin]%elem_of_cons. by auto.
Qed.

Lemma dom_ok_set_state st d : dom_ok d -> dom_ok (set_state st d).
Proof. done. Qed.

Lemma dom_ok_unfreeze d :
  dom_ok d -> dom_ok (with_consecutive_failures 0 (set_state Active d)).
Proof. intros (? & ? & _). by split_and!. Qed.

(** Every registered domain satisfies [P]. *)
Definition each_registered (P : RecoveryDomain -> Prop) (w : world) : Prop :=
  forall r d, Some r ∈ registered w -> store w !! r = Some d -> P d.

Lemma registered_mgr w w' : mgr w' = mgr w -> registered w' = registered w.
Proof. unfold registered. by intros ->. Qed.

(** Freezing and emptying the logs. *)
Lemma freeze_and_roll w :
  world_ok w ->
  exists w' n, rollback_to_init (freeze_all_domains w) = Done (w', n) /\
    world_ok w' /\ mgr w' = mgr w /\
    each_registered (fun d => get_state d = Freezing /\ barrier_generation d = 1) w'.
Proof.
  intros Hw. unfold freeze_all_domains, for_all_domains.
  destruct (modify_slots_ok (set_state Freezing) (dom_ok_set_state Freezing)
              (registered w) w Hw) as (Hw1 & Hm1 & _).
  set (w1 := fold_left _ _ _) in *. unfold rollback_to_init.
  destruct (rollback_slots_run (registered w1) w1 0 Hw1 (registered_sub w1))
    as (w' & n & -> & Hw' & Hm & Hall).
  exists w', n. split_and!; [done|done|congruence|].
  intros r d Hin Hd. destruct (Hall r d Hd) as [(d1 & Hd1 & Hs & _) Hg].
  rewrite (registered_mgr _ _ Hm) in Hin. split; [|by apply Hg].
  unfold get_state. rewrite Hs.
  apply (modify_slots_touch (set_state Freezing)
    (fun d => from_u32_fallback (Domain.state d) = Freezing) r (registered w) w);
    [done| |done]. by rewrite <- (registered_mgr _ _ Hm1).
Qed.

Lemma unfreeze_ok w :
  world_ok w ->
  world_ok (unfreeze_all_domains w) /\ mgr (unfreeze_all_domains w) = mgr w /\
  (each_registered (fun d => barrier_generation d = 1) w ->
   each_registered (fun d => barrier_generation d = 1) (unfreeze_all_domains w)) /\
  each_registered (fun d => get_state d = Active /\ consecutive_failures d = 0)
    (unfreeze_all_domains w).
Proof.
  intros Hw. unfold unfreeze_all_domains, for_all_domains.
  destruct (modify_slots_ok _ dom_ok_unfreeze (registered w) w Hw) as (Hw2 & Hm2 & _).
  split_and!; [done|done| |].
  - intros Hg r d Hin. rewrite (registered_mgr _ _ Hm2) in Hin.
    revert d. apply (modify_slots_keep _ (fun d => barrier_generation d = 1)); [done|].
    intros d0. by apply (Hg r d0).
  - intros r d Hin. rewrite (registered_mgr _ _ Hm2) in Hin.
    revert d. by apply (modify_slots_touch _
      (fun d => get_state d = Active /\ consecutive_failures d = 0)).
Qed.

Section bsr.
Context {D : Type} `{Mmio D}.
Implicit Types s : Reset.state D.

(** The soft reset always returns.  If a reset is already in progress it
    escalates without any effect.  Otherwise all device snapshots are written
    back, and it succeeds exactly when no device failed or at least one was
    restored: then every registered domain is active with no recorded failure
    and restarts at generation 1, the panic flag is down and the reset is over;
    otherwise every registered domain stays frozen and the reset stays in
    progress. *)
Theorem bsr_execute_branches s tick :
  world_ok (wld s) ->
  (reset_in_progress s = true -> bsr_execute s tick = Done (s, Escalate)) /\
  (reset_in_progress s = false ->
   let '(b, success, failed) := Snapshot.restore_all (devices s) (bus s) in
   exists s', world_ok (wld s') /\ mgr (wld s') = mgr (wld s) /\ bus s' = b /\
     each_registered (fun d => barrier_generation d = 1) (wld s') /\
     if (failed =? 0)%nat || (0 <? success)%nat then
       bsr_execute s tick = Done (s', Success) /\
       panic_flag s' = false /\ reset_in_progress s' = false /\
       each_registered (fun d => get_state d = Active /\ consecutive_failures d = 0) (wld s')
     else
       bsr_execute s tick = Done (s', Escalate) /\
       panic_flag s' = panic_flag s /\ reset_in_progress s' = true /\
       each_registered (fun d => get_state d = Freezing) (wld s')).
Proof.
  intros Hw. split; [intros Hp; unfold bsr_execute; by rewrite Hp|]. intros Hp.
  destruct (Snapshot.restore_all (devices s) (bus s)) as [[b success] failed] eqn:Hdev.
  destruct (freeze_and_roll (wld s) Hw) as (w & n & Hrun & Hw' & Hm & Hall).
  unfold bsr_execute. rewrite Hp. cbn -[rollback_to_init Snapshot.restore_all Nat.eqb Nat.ltb].
  rewrite Hrun. cbn -[Snapshot.restore_all Nat.eqb Nat.ltb]. unfold reset_devices.
  cbn -[Snapshot.restore_all Nat.eqb Nat.ltb]. rewrite Hdev.
  destruct ((failed =? 0)%nat || (0 <? success)%nat); cbn -[Nat.eqb Nat.ltb].
  - destruct (unfreeze_ok w Hw') as (Hw2 & Hm2 & Hg2 & Ha2).
    eexists. split_and!; [| | | |reflexivity|..]; simpl; try done; [congruence|].
    apply Hg2. intros r d Hin Hd. by apply (Hall r d).
  - eexists. split_and!; [| | | |reflexivity|..]; simpl; try done.
    + intros r d Hin Hd. by apply (Hall r d).
    + intros r d Hin Hd. by apply (Hall r d).
Qed.

(** The layered entry never performs a soft reset: it marks a reset as in
    progress before calling the soft reset, which therefore escalates at once,
    so every call ends in the keyboard-controller reset with the domains, their
    memory, the devices and the soft-reset counter exactly as they were. *)
Theorem layered_always_hard_resets s tick :
  exists s', execute_layered s tick = Done (s', KeyboardReset) /\
    wld s' = wld s /\ bus s' = bus s /\ devices s' = devices s /\
    bsr_count s' = bsr_count s /\ bhr_count s' = wrap_u32 (bhr_count s + 1) /\
    reset_in_progress s' = true.
Proof.
  unfold execute_layered, bsr_execute.
  destruct (reset_in_progress s) eqn:Hp; simpl; rewrite ?Hp; simpl;
    eexists; (split_and!; [reflexivity|..]; try done).
Qed.
End bsr.

(** ** Witnesses *)

Definition crashed_state : Reset.state (gmap (Z * Z) Z) :=
  mkState cyclic_world SnapshotFacts.ex_reg SnapshotFacts.ex_later true 0 false 0 0 0 0
    false new_audit_log.

Lemma bsr_execute_branches_witness :
  exists s', bsr_execute crashed_state 9 = Done (s', Success) /\
    panic_flag s' = false /\ reset_in_progress s' = false /\
    each_registered (fun d => get_state d = Active /\ consecutive_failures d = 0) (wld s').
Proof.
  pose proof (bsr_execute_branches crashed_state 9 cyclic_world_ok) as [_ H].
  specialize (H eq_refl).
  assert (Hc : exists b, Snapshot.restore_all (devices crashed_state) (bus crashed_state)
                         = (b, 2%nat, 1%nat)) by (eexists; reflexivity).
  destruct Hc as [b Hc]. rewrite Hc in H. cbn [Nat.eqb Nat.ltb Nat.leb orb] in H.
  destruct H as (s' & _ & _ & _ & _ & H1 & H2 & H3 & H4).
  exists s'. split; [exact H1|]. split; [exact H2|]. split; [exact H3|exact H4].
Defined.

End ResetFacts.
