(* ===== verification/Parallel.v ===== *)
(** * Parallel rollback by dependency layers

    Model of [src/kernel/framework/barrier/reset/parallel.rs]: the layering of
    the registered domains by dependency depth, the serial and the per-worker
    rollback of a layer, and their composition.

    The theorems: the layering is sound and, for acyclic dependencies, complete
    ([layering_correct]), and the workers of a layer do together exactly what
    the serial rollback of the layer does ([workers_equal_serial]). *)

From S2P Require Import Prelude UndoLog Domain Manager Reset.
Import Domain Manager.

Module Parallel.

Definition MAX_DEPENDENCY_LAYERS : nat := 8.
Definition MAX_DOMAINS_PER_LAYER : nat := 16.

Record DependencyLayer := mkLayer {
  ldomains : list Z;
  lcount : nat;
  level : nat;
}.

Definition new_layer (l : nat) : DependencyLayer :=
  mkLayer (replicate MAX_DOMAINS_PER_LAYER 0) 0 l.

Definition add (l : DependencyLayer) (domain_id : Z) : DependencyLayer * bool :=
  if (MAX_DOMAINS_PER_LAYER <=? lcount l)%nat then (l, false)
  else (mkLayer (<[lcount l := domain_id]> (ldomains l)) (S (lcount l)) (level l), true).

Record DependencyLayers := mkLayers {
  layers : list DependencyLayer;
  layer_count : nat;
}.

Definition new_layers : DependencyLayers :=
  mkLayers (replicate MAX_DEPENDENCY_LAYERS (new_layer 0)) 0.

Definition layer_at (ls : DependencyLayers) (l : nat) : DependencyLayer :=
  nth l (layers ls) (new_layer 0).

Definition add_to_layer (ls : DependencyLayers) (l : nat) (domain_id : Z)
    : DependencyLayers * bool :=
  if (MAX_DEPENDENCY_LAYERS <=? l)%nat then (ls, false)
  else
    let n := if (lcount (layer_at ls l) =? 0)%nat && (layer_count ls <=? l)%nat
             then S l else layer_count ls in
    let '(layer, ok) := add (layer_at ls l) domain_id in
    (mkLayers (<[l := layer]> (layers ls)) n, ok).

(** ** The layering *)

Record layering := mkLayering {
  ls : DependencyLayers;
  visited : list bool;
  domain_levels : list nat;
}.

(** The scan of the dependencies of one domain: whether all registered ones
    are visited, and one more than their highest level. *)
Definition scan_dep (w : world) (st : layering) (acc : bool * nat) (slot : option Z)
    : bool * nat :=
  match slot with
  | Some dep_id =>
      match index_of_id w dep_id with
      | Some j =>
          if nth j (visited st) false
          then (fst acc, Nat.max (snd acc) (nth j (domain_levels st) 0 + 1)%nat)
          else (false, snd acc)
      | None => acc
      end
  | None => acc
  end.

Definition scan_deps (w : world) (st : layering) (deps : list (option Z)) : bool * nat :=
  fold_left (scan_dep w st) deps (true, 0%nat).

Definition domain_at (w : world) (i : nat) : option RecoveryDomain :=
  match domains (mgr w) !! i with
  | Some slot => slot_domain w slot
  | None => None
  end.

Definition layer_domain (w : world) (st : layering) (i : nat) : layering :=
  if nth i (visited st) false then st
  else
    match domain_at w i with
    | Some d =>
        let '(all_deps_visited, max_dep_level) := scan_deps w st (depends_on d) in
        if all_deps_visited
        then mkLayering (fst (add_to_layer (ls st) max_dep_level (id d)))
               (<[i := true]> (visited st))
               (<[i := max_dep_level]> (domain_levels st))
        else st
    | None => st
    end.

Definition layer_pass (w : world) (st : layering) : layering :=
  fold_left (layer_domain w) (seq 0 (count (mgr w))) st.

Definition layering_start : layering :=
  mkLayering new_layers (replicate 32 false) (replicate 32 0%nat).

Definition compute_layering (w : world) : layering :=
  Nat.iter (count (mgr w)) (layer_pass w) layering_start.

Definition compute_dependency_layers (w : world) : DependencyLayers :=
  ls (compute_layering w).

(** ** Rollback of a layer *)

(** One iteration: the body shared by the serial and the worker loop. *)
Definition rollback_id (acc : world * nat) (domain_id : Z) : outcome (world * nat) :=
  let '(w, total) := acc in
  match find w domain_id with
  | Some r =>
      dom ← deref w r;
      '(undo', mem', rolled) ← UndoLog.rollback_to (undo dom) 0 (memory w);
      let dom := set_state Active (with_barrier_generation 1 (with_undo undo' dom)) in
      Done (assign r dom (with_memory mem' w), (total + rolled)%nat)
  | None => Done (w, total)
  end.

Fixpoint rollback_ids (acc : world * nat) (l : list Z) : outcome (world * nat) :=
  match l with
  | [] => Done acc
  | i :: l => acc ← rollback_id acc i; rollback_ids acc l
  end.

(** [layer.domains[a..b]], an index past the array being a panic. *)
Definition layer_slice (l : DependencyLayer) (a b : nat) : outcome (list Z) :=
  if (b <=? length (ldomains l))%nat then Done (drop a (take b (ldomains l))) else Panic.

Definition rollback_layer_serial (w : world) (l : DependencyLayer)
    : outcome (world * nat) :=
  todo ← layer_slice l 0 (lcount l);
  rollback_ids (w, 0%nat) todo.

Definition div_ceil (a b : nat) : nat := ((a + (b - 1)) / b)%nat.

Definition rollback_layer_parallel (w : world) (l : DependencyLayer) (worker_id : nat)
    : outcome (world * nat) :=
  if (lcount l =? 0)%nat then Done (w, 0%nat)
  else
    let max_workers := Reset.parallel_max_workers Reset.RECOVERY_CONFIG in
    let chunk_size := div_ceil (lcount l) max_workers in
    let start := (worker_id * chunk_size)%nat in
    let end_ := Nat.min (start + chunk_size) (lcount l) in
    if (lcount l <=? start)%nat then Done (w, 0%nat)
    else todo ← layer_slice l start end_; rollback_ids (w, 0%nat) todo.

Fixpoint run_workers (w : world) (l : DependencyLayer) (workers : list nat) (total : nat)
    : outcome (world * nat) :=
  match workers with
  | [] => Done (w, total)
  | k :: workers =>
      '(w, rolled) ← rollback_layer_parallel w l k;
      run_workers w l workers (total + rolled)
  end.

Definition rollback_layer (w : world) (l : DependencyLayer) : outcome (world * nat) :=
  if (lcount l <=? 1)%nat then rollback_layer_serial w l
  else run_workers w l
         (seq 0 (Nat.min (Reset.parallel_max_workers Reset.RECOVERY_CONFIG) 4)) 0.

Fixpoint rollback_layers (w : world) (todo : list DependencyLayer) (total : nat)
    : outcome (world * nat) :=
  match todo with
  | [] => Done (w, total)
  | l :: todo =>
      '(w, rolled) ← rollback_layer w l;
      rollback_layers w todo (total + rolled)
  end.

Definition rollback_all_parallel (w : world) : outcome (world * nat) :=
  let computed := compute_dependency_layers w in
  rollback_layers w (take (layer_count computed) (layers computed)) 0.

Definition rollback_all (w : world) : outcome (world * nat) :=
  if Reset.is_parallel Reset.RECOVERY_CONFIG then rollback_all_parallel w
  else Reset.rollback_to_init w.

End Parallel.

Module ParallelFacts.
Import Parallel ManagerFacts.

(** ** Workers *)

Lemma rollback_id_total w t i :
  rollback_id (w, t) i =
    '(w', n) ← rollback_id (w, 0%nat) i; Done (w', (t + n)%nat).
Proof.
  unfold rollback_id. destruct (find w i) as [r|]; simpl; [|by rewrite Nat.add_0_r].
  destruct (deref w r) as [d| |]; simpl; [|done..].
  by destruct (UndoLog.rollback_to _ _ _) as [[[u m] n]| |].
Qed.

Lemma rollback_ids_total l w t :
  rollback_ids (w, t) l =
    '(w', n) ← rollback_ids (w, 0%nat) l; Done (w', (t + n)%nat).
Proof.
  revert w t. induction l as [|i l IH]; intros w t; cbn [rollback_ids].
  { simpl. by rewrite Nat.add_0_r. }
  rewrite rollback_id_total.
  destruct (rollback_id (w, 0%nat) i) as [[w1 n]| |]; cbn [mbind outcome_bind]; [|done..].
  rewrite IH, (IH w1 n).
  destruct (rollback_ids (w1, 0%nat) l) as [[w2 k]| |]; cbn [mbind outcome_bind]; [|done..].
  by rewrite Nat.add_assoc.
Qed.

Lemma rollback_ids_app l1 l2 acc :
  rollback_ids acc (l1 ++ l2) = acc ← rollback_ids acc l1; rollback_ids acc l2.
Proof.
  revert acc. induction l1 as [|i l1 IH]; intros acc; [done|]. cbn [rollback_ids app].
  destruct (rollback_id acc i) as [a| |]; cbn [mbind outcome_bind]; [apply IH|done..].
Qed.

(** The slice of one worker, empty past the end of the layer. *)
Definition chunk (n c k : nat) (l : list Z) : list Z :=
  drop (k * c) (take (Nat.min (k * c + c) n) l).

Lemma worker_chunk w l k :
  (lcount l <= length (ldomains l))%nat -> (0 < lcount l)%nat ->
  rollback_layer_parallel w l k
    = rollback_ids (w, 0%nat) (chunk (lcount l) (div_ceil (lcount l) 4) k (ldomains l)).
Proof.
  intros Hl Hn. unfold rollback_layer_parallel, chunk, layer_slice.
  destruct (Nat.eqb_spec (lcount l) 0) as [|_]; [lia|]. cbn zeta.
  change (Reset.parallel_max_workers Reset.RECOVERY_CONFIG) with 4%nat.
  set (c := div_ceil (lcount l) 4).
  destruct (Nat.leb_spec (lcount l) (k * c)) as [Hle|Hgt].
  - rewrite drop_ge; [done|]. rewrite length_take. lia.
  - by rewrite (proj2 (Nat.leb_le _ _)) by lia.
Qed.

Lemma chunk_next n c k l :
  (n <= length l)%nat ->
  drop (k * c) (take n l) = chunk n c k l ++ drop (S k * c) (take n l).
Proof.
  intros Hn. unfold chunk. replace (S k * c)%nat with (k * c + c)%nat by lia.
  rewrite <- drop_drop.
  replace (take (Nat.min (k * c + c) n) l) with (take (k * c + c) (take n l))
    by by rewrite take_take.
  rewrite <- (take_drop c (drop (k * c) (take n l))) at 1. f_equal.
  by rewrite take_drop_commute, Nat.add_comm.
Qed.

Lemma run_workers_chunks w l ks t :
  (lcount l <= length (ldomains l))%nat -> (0 < lcount l)%nat ->
  run_workers w l ks t
    = rollback_ids (w, t)
        (ks ≫= (fun k => chunk (lcount l) (div_ceil (lcount l) 4) k (ldomains l))).
Proof.
  intros Hl Hn. revert w t. induction ks as [|k ks IH]; intros w t; [done|].
  cbn [run_workers mbind list_bind]. rewrite rollback_ids_app, worker_chunk by done.
  rewrite (rollback_ids_total _ w t).
  destruct (rollback_ids (w, 0%nat) _) as [[w1 n]| |]; cbn [mbind outcome_bind];
    [apply IH|done..].
Qed.

Lemma chunks_cover n l :
  (n <= length l)%nat ->
  (seq 0 4 ≫= (fun k => chunk n (div_ceil n 4) k l)) = take n l.
Proof.
  intros Hn. set (c := div_ceil n 4). symmetry.
  transitivity (drop (0 * c) (take n l)); [done|].
  rewrite (chunk_next n c 0 l), (chunk_next n c 1 l), (chunk_next n c 2 l),
    (chunk_next n c 3 l) by done.
  rewrite (drop_ge (take n l) (4 * c)); [done|].
  rewrite length_take. unfold c, div_ceil.
  pose proof (Nat.div_mod (n + (4 - 1)) 4). pose proof (Nat.mod_upper_bound (n + (4 - 1)) 4).
  lia.
Qed.

(** Rolling a layer back through its workers is rolling it back serially:
    the four chunks are disjoint, in order, and cover the layer, so the domains
    are rolled back in the same order, with the same effect on domains and
    memory and the same total. *)
Theorem workers_equal_serial w l :
  (lcount l <= length (ldomains l))%nat ->
  rollback_layer w l = rollback_layer_serial w l.
Proof.
  intros Hl. unfold rollback_layer.
  destruct (Nat.leb_spec (lcount l) 1) as [|Hn]; [done|].
  change (Nat.min _ 4) with 4%nat.
  rewrite run_workers_chunks, chunks_cover by lia.
  unfold rollback_layer_serial, layer_slice. rewrite (proj2 (Nat.leb_le _ _)) by done.
  cbn [mbind outcome_bind]. by rewrite drop_0.
Qed.

(** ** Layering *)

(** [j] is the registered position of a dependency of the domain at [i]. *)
Definition dep_index (w : world) (i j : nat) : Prop :=
  exists d dep, domain_at w i = Some d /\ Some dep ∈ depends_on d /\
    index_of_id w dep = Some j.

Definition is_visited (st : layering) (i : nat) : Prop := nth i (visited st) false = true.
Definition level_of (st : layering) (i : nat) : nat := nth i (domain_levels st) 0%nat.

(** The scan in closed form. *)
Lemma scan_deps_spec w st deps ok0 m0 :
  let '(ok, m) := fold_left (scan_dep w st) deps (ok0, m0) in
  (m0 <= m)%nat /\
  (ok = false -> ok0 = false \/ exists dep j,
     Some dep ∈ deps /\ index_of_id w dep = Some j /\ ~ is_visited st j) /\
  (ok = true -> ok0 = true /\
     forall dep j, Some dep ∈ deps -> index_of_id w dep = Some j ->
       is_visited st j /\ (level_of st j < m)%nat).
Proof.
  revert ok0 m0. induction deps as [|slot deps IH]; intros ok0 m0.
  { simpl. split_and!; [done|by left|]. intros ->. split; [done|].
    intros dep j Hin. by apply not_elem_of_nil in Hin. }
  cbn [fold_left].
  destruct (scan_dep w st (ok0, m0) slot) as [ok1 m1] eqn:E.
  specialize (IH ok1 m1). destruct (fold_left _ _ _) as [ok m].
  destruct IH as (IH1 & IH2 & IH3).
  assert (Hstep : (m0 <= m1)%nat /\
    (ok1 = false -> ok0 = false \/ exists dep j,
       slot = Some dep /\ index_of_id w dep = Some j /\ ~ is_visited st j) /\
    (ok1 = true -> ok0 = true /\ forall dep j, slot = Some dep ->
       index_of_id w dep = Some j -> is_visited st j /\ (level_of st j < m1)%nat)).
  { clear IH1 IH2 IH3. unfold scan_dep, is_visited, level_of in *.
    destruct slot as [dep|]; [|injection E as <- <-; split_and!; auto].
    - destruct (index_of_id w dep) as [j|] eqn:Hj;
        [destruct (nth j (visited st) false) eqn:Hv|]; injection E as <- <-; simpl.
      + split_and!; [lia|by auto|]. intros ->. split; [done|].
        intros dep' j' [= <-] Hj'. rewrite Hj in Hj'. injection Hj' as <-.
        split; [done|lia].
      + split_and!; [done| |done]. intros _. right. exists dep, j. by rewrite Hv.
      + split_and!; [done|by auto|]. intros ->. split; [done|].
        intros dep' j' [= <-] Hj'. congruence.
    - intros ->. split; [done|]. by intros. }
  destruct Hstep as (S1 & S2 & S3). split_and!; [lia| |].
  - intros Hok. destruct (IH2 Hok) as [H1|(dep & j & Hin & Hj)].
    + destruct (S2 H1) as [|(dep & j & -> & Hj)]; [by left|]. right.
      exists dep, j. split; [by left|done].
    + right. exists dep, j. split; [by right|done].
  - intros Hok. destruct (IH3 Hok) as [H1 H2]. destruct (S3 H1) as [H3 H4].
    split; [done|]. intros dep j [<-|Hin]%elem_of_cons Hj; [|by eapply H2].
    destruct (H4 dep j eq_refl Hj). split; [done|lia].
Qed.

Section layering.
Context (w : world).

(** Visited domains come after all their dependencies. *)
Definition layering_sound (st : layering) : Prop :=
  length (visited st) = 32%nat /\ length (domain_levels st) = 32%nat /\
  (forall i, is_visited st i -> (i < count (mgr w))%nat) /\
  forall i j, is_visited st i -> dep_index w i j ->
    is_visited st j /\ (level_of st j < level_of st i)%nat.

(** The ids placed in layer [l]. *)
Definition members (st : layering) (l : nat) : list Z :=
  let layer := layer_at (ls st) l in take (lcount layer) (ldomains layer).

(** No layer overflows, and every visited domain of a representable level is in
    the layer of its level. *)
Definition layering_placed (st : layering) : Prop :=
  length (layers (ls st)) = MAX_DEPENDENCY_LAYERS /\
  (forall l, length (ldomains (layer_at (ls st) l)) = MAX_DOMAINS_PER_LAYER /\
     (lcount (layer_at (ls st) l) <= count_if (fun b => b) (visited st))%nat) /\
  (forall i, is_visited st i -> (level_of st i < MAX_DEPENDENCY_LAYERS)%nat ->
     exists d, domain_at w i = Some d /\ id d ∈ members st (level_of st i)).

(** One step visits a domain whose dependencies are all visited. *)
Lemma layer_domain_cases st i :
  (i < 32)%nat -> length (visited st) = 32%nat -> length (domain_levels st) = 32%nat ->
  let st' := layer_domain w st i in
  (st' = st /\ (domain_at w i = None \/ is_visited st i \/
                exists j, dep_index w i j /\ ~ is_visited st j)) \/
  (exists d m, domain_at w i = Some d /\ ~ is_visited st i /\
     st' = mkLayering (fst (add_to_layer (ls st) m (id d)))
             (<[i := true]> (visited st)) (<[i := m]> (domain_levels st)) /\
     forall j, dep_index w i j -> is_visited st j /\ (level_of st j < m)%nat).
Proof.
  intros Hi Hlv Hll. cbn zeta. unfold layer_domain.
  destruct (nth i (visited st) false) eqn:Hv; [by left; auto|].
  destruct (domain_at w i) as [d|] eqn:Hd; [|by left; auto].
  pose proof (scan_deps_spec w st (depends_on d) true 0) as Hs.
  unfold scan_deps. destruct (fold_left _ _ _) as [ok m].
  destruct Hs as (_ & Hbad & Hgood). destruct ok.
  - right. exists d, m. split_and!; [done|unfold is_visited; congruence|done|].
    intros j (d' & dep & Hd' & Hin & Hj). rewrite Hd in Hd'. injection Hd' as <-.
    by apply (proj2 (Hgood eq_refl) dep).
  - left. split; [done|]. right; right.
    destruct (Hbad eq_refl) as [|(dep & j & Hin & Hj & Hnv)]; [done|].
    exists j. split; [|done]. by exists d, dep.
Qed.

Lemma visited_insert st i k m v :
  length (visited st) = 32%nat -> (i < 32)%nat ->
  is_visited (mkLayering v (<[i := true]> (visited st)) m) k <-> k = i \/ is_visited st k.
Proof.
  intros Hl Hi. unfold is_visited. simpl. destruct (decide (k = i)) as [->|Hne].
  - rewrite nth_insert_eq by lia. by split; [left|].
  - rewrite nth_insert_ne by done. split; [by right|by intros [|]].
Qed.

Lemma layer_domain_sound st i :
  (i < count (mgr w))%nat -> (count (mgr w) <= 32)%nat ->
  layering_sound st -> layering_sound (layer_domain w st i).
Proof.
  intros Hi Hn (Hlv & Hll & Hb & Hs).
  destruct (layer_domain_cases st i) as [[-> _]|(d & m & Hd & Hnv & -> & Hdeps)];
    [lia|done|done|done|].
  assert (Hother : forall j, is_visited st j -> j <> i) by (intros j Hj ->; done).
  split_and!; [simpl; by rewrite length_insert..| |].
  - intros k. rewrite visited_insert by (done || lia). intros [->|]; [done|auto].
  - intros k j. rewrite !visited_insert by (done || lia). unfold level_of. simpl.
    intros [->|Hk] Hj.
    + destruct (Hdeps j Hj) as [Hvj Hlj]. split; [by right|].
      rewrite nth_insert_eq, nth_insert_ne by (lia || apply not_eq_sym; by apply Hother).
      done.
    + destruct (Hs k j Hk Hj) as [Hvj Hlj]. split; [by right|].
      by rewrite !nth_insert_ne by (apply not_eq_sym; by apply Hother).
Qed.

Lemma add_to_layer_spec lrs m x l :
  length (layers lrs) = MAX_DEPENDENCY_LAYERS -> (m < MAX_DEPENDENCY_LAYERS)%nat ->
  (lcount (layer_at lrs m) < MAX_DOMAINS_PER_LAYER)%nat ->
  layer_at (fst (add_to_layer lrs m x)) l =
    if decide (l = m) then
      let old := layer_at lrs m in
      mkLayer (<[lcount old := x]> (ldomains old)) (S (lcount old)) (level old)
    else layer_at lrs l.
Proof.
  intros Hlen Hm Hc. unfold add_to_layer. rewrite (proj2 (Nat.leb_gt _ _)) by done.
  unfold add. rewrite (proj2 (Nat.leb_gt _ _)) by done. simpl. unfold layer_at at 1. simpl.
  case_decide as E.
  - subst. by rewrite nth_insert_eq by lia.
  - by rewrite nth_insert_ne by done.
Qed.

Lemma add_to_layer_length lrs m x :
  length (layers (fst (add_to_layer lrs m x))) = length (layers lrs).
Proof.
  unfold add_to_layer. case_match; [done|]. destruct (add _ _). simpl.
  by rewrite length_insert.
Qed.

Lemma add_to_layer_past lrs m x :
  (MAX_DEPENDENCY_LAYERS <= m)%nat -> add_to_layer lrs m x = (lrs, false).
Proof. intros Hm. unfold add_to_layer. by rewrite (proj2 (Nat.leb_le _ _)). Qed.

(** Visiting a new domain adds 1 to the number of visited ones. *)
Lemma count_visited_insert st i :
  (i < length (visited st))%nat -> ~ is_visited st i ->
  count_if (fun b => b) (<[i:=true]> (visited st))
    = S (count_if (fun b => b) (visited st)).
Proof.
  intros Hi Hnv. destruct (lookup_lt_is_Some_2 (visited st) i) as [b Hbi]; [done|].
  pose proof (count_if_insert (fun b => b) _ _ _ true Hbi) as Hci.
  unfold is_visited in Hnv. rewrite (nth_lookup_Some _ _ _ _ Hbi) in Hnv.
  destruct b; [done|]. simpl in Hci. lia.
Qed.

(** A layer has room for a domain that is not visited yet. *)
Lemma visited_room st i :
  (i < count (mgr w))%nat -> (count (mgr w) <= 16)%nat ->
  layering_sound st -> ~ is_visited st i ->
  (count_if (fun b => b) (visited st) < 16)%nat.
Proof.
  intros Hi Hn (Hlv & _ & Hb & _) Hnv.
  enough (S (count_if (fun b => b) (visited st)) <= count (mgr w))%nat by lia.
  rewrite <- (count_visited_insert st i) by (done || lia).
  apply count_if_bound. intros k b Hk Hkb. destruct b; [|done].
  assert (Hv : is_visited (mkLayering (ls st) (<[i:=true]> (visited st)) []) k).
  { unfold is_visited. simpl. by apply nth_lookup_Some. }
  apply visited_insert in Hv as [->|Hv%Hb]; (done || lia).
Qed.

(** A new domain joins the layer of its level, where there is room. *)
Lemma members_add_to_layer lrs m x l :
  length (layers lrs) = MAX_DEPENDENCY_LAYERS -> (m < MAX_DEPENDENCY_LAYERS)%nat ->
  (lcount (layer_at lrs m) < MAX_DOMAINS_PER_LAYER)%nat ->
  length (ldomains (layer_at lrs m)) = MAX_DOMAINS_PER_LAYER ->
  let items lrs l := take (lcount (layer_at lrs l)) (ldomains (layer_at lrs l)) in
  x ∈ items (fst (add_to_layer lrs m x)) m /\
  items lrs l ⊆ items (fst (add_to_layer lrs m x)) l.
Proof.
  intros Hlen Hm Hc Hd. cbn beta zeta. rewrite !add_to_layer_spec by done.
  rewrite decide_True by done. simpl. split.
  - apply elem_of_take. exists (lcount (layer_at lrs m)). split; [|lia].
    apply list_lookup_insert_eq. by rewrite Hd.
  - case_decide as E; [|done]. subst. simpl. intros y Hy. rewrite elem_of_take in *.
    destruct Hy as (p & Hp & Hlt). exists p. split; [|lia].
    by rewrite list_lookup_insert_ne by lia.
Qed.

Lemma layer_domain_placed st i :
  (i < count (mgr w))%nat -> (count (mgr w) <= 16)%nat ->
  layering_sound st -> layering_placed st -> layering_placed (layer_domain w st i).
Proof.
  intros Hi Hn Hok (Hlen & Hsh & Hpl). pose proof Hok as (Hlv & Hll & _).
  destruct (layer_domain_cases st i) as [[-> _]|(d & m & Hd & Hnv & -> & Hdeps)];
    [lia|done|done|done|].
  pose proof (count_visited_insert st i ltac:(lia) Hnv) as Hcnt.
  pose proof (visited_room st i Hi Hn Hok Hnv) as Hlt.
  destruct (Nat.lt_ge_cases m MAX_DEPENDENCY_LAYERS) as [Hm|Hm].
  - assert (Hlc : (lcount (layer_at (ls st) m) < MAX_DOMAINS_PER_LAYER)%nat).
    { pose proof (proj2 (Hsh m)). unfold MAX_DOMAINS_PER_LAYER. lia. }
    split_and!; simpl; [by rewrite add_to_layer_length| |].
    + intros l. rewrite add_to_layer_spec by done. pose proof (Hsh m) as [? ?].
      rewrite Hcnt. case_decide; simpl; [rewrite length_insert; split; [done|lia]|].
      pose proof (Hsh l) as [? ?]. split; [done|lia].
    + intros k. rewrite visited_insert by (done || lia). unfold level_of, members.
      simpl. intros Hk. destruct (decide (k = i)) as [->|Hne].
      * rewrite nth_insert_eq by lia. intros _. exists d. split; [done|].
        by apply (members_add_to_layer _ _ _ 0%nat Hlen Hm Hlc (proj1 (Hsh m))).
      * rewrite nth_insert_ne by done. intros Hl. destruct Hk as [->|Hk]; [done|].
        destruct (Hpl k Hk Hl) as (dk & Hdk & Hin). exists dk. split; [done|].
        by apply (members_add_to_layer _ _ _ _ Hlen Hm Hlc (proj1 (Hsh m))).
  - rewrite add_to_layer_past by done. split_and!; simpl; [done| |].
    + intros l. rewrite Hcnt. pose proof (Hsh l) as [? ?]. split; [done|lia].
    + intros k. rewrite visited_insert by (done || lia). unfold level_of, members. simpl.
      destruct (decide (k = i)) as [->|Hne].
      * rewrite nth_insert_eq by lia. intros _ ?. lia.
      * rewrite nth_insert_ne by done. intros [->|Hk]; [done|]. by apply Hpl.
Qed.

Lemma layer_domain_mono st i k :
  (i < 32)%nat -> length (visited st) = 32%nat -> length (domain_levels st) = 32%nat ->
  is_visited st k -> is_visited (layer_domain w st i) k.
Proof.
  intros Hi Hlv Hll Hk.
  destruct (layer_domain_cases st i) as [[-> _]|(d & m & Hd & Hnv & -> & Hdeps)];
    [done..|]. apply visited_insert; [done..|]. by right.
Qed.

Context (Hn : (count (mgr w) <= 16)%nat).

Definition layering_inv (st : layering) : Prop :=
  layering_sound st /\ layering_placed st.

Lemma layer_domain_inv st i :
  i ∈ seq 0 (count (mgr w)) -> layering_inv st -> layering_inv (layer_domain w st i).
Proof.
  intros Hi%elem_of_seq [Hs Hp]. split.
  - apply layer_domain_sound; (done || lia).
  - apply layer_domain_placed; (done || lia).
Qed.

Lemma layer_pass_inv st : layering_inv st -> layering_inv (layer_pass w st).
Proof. apply fold_left_inv. intros a i Hi. by apply layer_domain_inv. Qed.

Lemma layering_start_inv : layering_inv layering_start.
Proof.
  assert (Hno : forall i, ~ is_visited layering_start i).
  { intros i. unfold is_visited, layering_start. cbn [visited].
    destruct (nth_in_or_default i (replicate 32 false) false) as [Hin| ->]; [|done].
    apply list_elem_of_In, elem_of_replicate in Hin as [-> _]. done. }
  assert (Hlayer : forall l, layer_at new_layers l = new_layer 0).
  { intros l. unfold layer_at, new_layers. cbn [layers].
    destruct (nth_in_or_default l (replicate MAX_DEPENDENCY_LAYERS (new_layer 0))
      (new_layer 0)) as [Hin|]; [|done].
    by apply list_elem_of_In, elem_of_replicate in Hin as [-> _]. }
  split; split_and!; try done.
  - intros i Hi. by destruct (Hno i).
  - intros i j Hi. by destruct (Hno i).
  - intros l. unfold layering_start. cbn [ls]. rewrite Hlayer. split; [done|].
    simpl. lia.
  - intros i Hi. by destruct (Hno i).
Qed.

(** A pass keeps what is visited and visits every domain whose dependencies
    were visited before it. *)
Lemma layer_pass_progress st :
  layering_inv st ->
  (forall k, is_visited st k -> is_visited (layer_pass w st) k) /\
  (forall i, (i < count (mgr w))%nat -> domain_at w i <> None ->
     (forall j, dep_index w i j -> is_visited st j) -> is_visited (layer_pass w st) i).
Proof.
  intros Hinv. unfold layer_pass. set (n := count (mgr w)) in *.
  assert (Hgen : forall l a, (forall i, i ∈ l -> (i < n)%nat) -> layering_inv a ->
    (forall k, is_visited a k -> is_visited (fold_left (layer_domain w) l a) k) /\
    (forall i, i ∈ l -> domain_at w i <> None -> (forall j, dep_index w i j -> is_visited a j) ->
       is_visited (fold_left (layer_domain w) l a) i)).
  { induction l as [|x l IH]; intros a Hl Ha.
    { split; [done|]. intros i Hi. by apply not_elem_of_nil in Hi. }
    cbn [fold_left].
    assert (Hx : (x < n)%nat) by by apply Hl; left.
    pose proof Ha as [(Hlv & Hll & _) _].
    destruct (IH (layer_domain w a x)) as [IH1 IH2].
    { intros i Hi. apply Hl. by right. }
    { apply layer_domain_inv; [apply elem_of_seq; lia|done]. }
    assert (Hmono : forall k, is_visited a k -> is_visited (layer_domain w a x) k)
      by (intros k; apply layer_domain_mono; (done || lia)).
    split; [by auto|]. intros i [->|Hi]%elem_of_cons Hd Hdeps; [|by apply IH2; auto].
    apply IH1. destruct (layer_domain_cases a x)
      as [[_ Hstuck]|(d & m & _ & _ & -> & _)]; [lia|done|done| |].
    - destruct Hstuck as [|[Hv|(j & Hj & Hnv)]]; [done|by auto|].
      by destruct Hnv; apply Hdeps.
    - apply visited_insert; [done|lia|by left]. }
  destruct (Hgen (seq 0 n) st) as [H1 H2]; [|done|].
  { intros i Hi%elem_of_seq. lia. }
  split; [done|]. intros i Hi. apply H2. apply elem_of_seq. lia.
Qed.

Lemma layer_passes p :
  layering_inv (Nat.iter p (layer_pass w) layering_start).
Proof.
  induction p as [|p IH]; [apply layering_start_inv|]. by apply layer_pass_inv.
Qed.

(** Acyclic dependencies, with the depth of every domain below the number of
    domains. *)
Definition ranked (rank : nat -> nat) : Prop :=
  (forall i, (rank i < count (mgr w))%nat) /\
  (forall i j, dep_index w i j -> (rank j < rank i)%nat).

(** Dependencies are found only at positions of registered domains. *)
Lemma dep_index_target i j :
  dep_index w i j -> (j < count (mgr w))%nat /\ domain_at w j <> None.
Proof.
  intros (d & dep & _ & _ & Hj). unfold index_of_id in Hj.
  apply position_Some in Hj as (slot & Hslot & Hid & _).
  unfold registered in Hslot. rewrite lookup_take in Hslot. case_decide; [|done].
  split; [done|]. unfold domain_at. rewrite Hslot. unfold slot_domain.
  unfold ref_has_id in Hid. destruct slot as [r|]; [|done]. by destruct (store w !! r).
Qed.

Lemma layer_passes_complete rank p i :
  ranked rank -> (rank i < p)%nat -> (i < count (mgr w))%nat -> domain_at w i <> None ->
  is_visited (Nat.iter p (layer_pass w) layering_start) i.
Proof.
  intros [_ Hrank]. revert i. induction p as [|p IH]; intros i Hi Hlt Hd; [lia|].
  cbn [Nat.iter nat_rect].
  destruct (layer_pass_progress _ (layer_passes p)) as [_ Hnew].
  apply Hnew; [done|done|]. intros j Hj. pose proof (Hrank i j Hj).
  destruct (dep_index_target i j Hj). apply IH; [lia|done|done].
Qed.
End layering.

(** C21: with at most 16 registered domains, [compute_dependency_layers] puts a
    domain strictly above all of its registered dependencies, and a domain is
    placed only after them; no layer overflows, and a domain of level below 8
    is a member of the layer of its level.  If the dependencies are acyclic,
    every registered domain gets a level. *)
Theorem layering_correct w :
  (count (mgr w) <= 16)%nat ->
  let st := compute_layering w in
  (forall i j, is_visited st i -> dep_index w i j ->
     is_visited st j /\ (level_of st j < level_of st i)%nat) /\
  (forall i, is_visited st i -> (level_of st i < MAX_DEPENDENCY_LAYERS)%nat ->
     exists d, domain_at w i = Some d /\ id d ∈ members st (level_of st i)) /\
  (forall rank, ranked w rank -> forall i, (i < count (mgr w))%nat ->
     domain_at w i <> None -> is_visited st i).
Proof.
  intros Hn. cbn zeta. unfold compute_layering.
  destruct (layer_passes w Hn (count (mgr w))) as [(_ & _ & _ & Hs) (_ & _ & Hp)].
  split_and!; [done|done|]. intros rank Hrank i Hi Hd.
  apply (layer_passes_complete w Hn rank); [done|apply Hrank|done|done].
Qed.

(** ** Witnesses *)

(** Domain 2, registered first, depends on domain 1. *)
Definition chain_world : world :=
  mkWorld [with_depends_on (Some 1 :: replicate 7 None) (Domain.new 2); Domain.new 1]
    (mkRecoveryManager ([Some 0; Some 1]%nat ++ replicate 30 None)
       ([None; Some 1; Some 0]%nat ++ replicate 61 None) 2)
    ∅ (replicate MAX_ROLLBACK_LOG None) 0 false.

Definition chain_rank (i : nat) : nat := match i with O => 1 | _ => 0 end.

Lemma chain_ranked : ranked chain_world chain_rank.
Proof.
  split; [intros [|i]; vm_compute; lia|].
  intros i j (d & dep & Hd & Hin & Hj).
  destruct i as [|[|i]].
  - injection Hd as <-. apply elem_of_cons in Hin as [[= ->]|Hin].
    + injection Hj as <-. vm_compute. lia.
    + by apply (elem_of_replicate 7) in Hin as [? _].
  - injection Hd as <-. by apply (elem_of_replicate 8) in Hin as [? _].
  - unfold domain_at in Hd.
    change (domains (mgr chain_world) !! S (S i))
      with (replicate 30 (@None nat) !! i) in Hd.
    destruct (replicate 30 (@None nat) !! i) as [slot|] eqn:E; [|done].
    by apply lookup_replicate in E as [-> _].
Qed.

Lemma layering_correct_witness :
  is_visited (compute_layering chain_world) 0 /\
  (level_of (compute_layering chain_world) 1 < level_of (compute_layering chain_world) 0)%nat.
Proof.
  destruct (layering_correct chain_world) as (H1 & _ & H3); [vm_compute; lia|].
  assert (Hv : is_visited (compute_layering chain_world) 0).
  { apply (H3 chain_rank chain_ranked); [vm_compute; lia|discriminate]. }
  split; [exact Hv|]. apply (H1 0%nat 1%nat Hv).
  do 2 eexists. split; [reflexivity|]. split; [by left|reflexivity].
Defined.

Definition wide_layer : DependencyLayer :=
  fst (add (fst (add (fst (add (new_layer 0) 1)) 2)) 7).

Lemma workers_equal_serial_witness :
  rollback_layer chain_world wide_layer = rollback_layer_serial chain_world wide_layer.
Proof. apply workers_equal_serial. vm_compute. lia. Defined.

End ParallelFacts.
