(* ===== verification/Credo.v ===== *)
(** * Capability policy

    Model of [src/kernel/services/credo/policy.rs]: the capability matrix as the
    interface the policy engine is written against (the trait
    [CapabilityMatrix]) with its in-memory implementation, and the engine's
    [check], [grant] and [revoke].  The compare-and-swap loops of the last two
    run against writes of other processors: [env] lists the values stored in the
    domain's row between a load and the following compare-and-swap, one per
    round.

    The theorems: what [check] decides ([check_allows_iff]), that [grant] gives
    what the grantor owns under any interference ([grant_gives_only_owned]), and
    that [revoke] keeps the viability floor ([revoke_keeps_floor]). *)

From S2P Require Import Prelude.

Module Credo.

Definition CAP_DOMAINS : nat := 16.

(** A [CapDomain] is a [u8] used as an index, a [CapBits] a [u64]. *)
Definition SYSTEM : nat := 0.
Definition FS : nat := 1.
Definition NET : nat := 2.
Definition PROC : nat := 3.
Definition DEVICE : nat := 4.
Definition USER_MGMT : nat := 5.

Definition is_valid (domain : nat) : bool := (domain <? CAP_DOMAINS)%nat.

Definition NONE : Z := 0.
Definition ALL : Z := U64_MAX.

Definition contains (bits other : Z) : bool := Z.land bits other =? other.
Definition is_empty (bits : Z) : bool := bits =? 0.
Definition diff (bits other : Z) : Z := Z.land bits (not_u64 other).

Inductive DenyReason :=
  | InvalidDomain
  | UnknownPwm
  | NoAuthority
  | FloorProtected
  | Disabled.

Inductive PolicyResult := Allow | Deny (r : DenyReason).

Inductive GrantResult := Granted | GrantNoAuthority | GrantInvalidDomain | GrantEmpty.

Inductive RevokeResult := Revoked | NoChange | RevokeInvalidDomain | RevokeFloorProtected.

(** ** The matrix *)

(** [cap_set] returns the old value or an error, [cap_cas] the old value
    ([inl]) or the actual one ([inr]). *)
Class CapabilityMatrix (M : Type) := {
  cap_get : M -> nat -> option Z;
  cap_set : M -> nat -> Z -> M * option Z;
  cap_cas : M -> nat -> Z -> Z -> M * (Z + Z);
}.

Definition InMemoryMatrix := list Z.

Definition new_matrix : InMemoryMatrix := replicate 16 0.

Definition matrix_get (m : InMemoryMatrix) (domain : nat) : option Z :=
  if is_valid domain then m !! domain else None.

Definition matrix_set (m : InMemoryMatrix) (domain : nat) (bits : Z)
    : InMemoryMatrix * option Z :=
  if is_valid domain
  then (<[domain := bits]> m, m !! domain)
  else (m, None).

Definition matrix_compare_exchange (m : InMemoryMatrix) (domain : nat) (current new : Z)
    : InMemoryMatrix * (Z + Z) :=
  if is_valid domain
  then match m !! domain with
       | Some v => if v =? current then (<[domain := new]> m, inl v)
                   else (m, inr v)
       | None => (m, inr current)
       end
  else (m, inr current).

#[export] Instance in_memory : CapabilityMatrix InMemoryMatrix := {
  cap_get := matrix_get;
  cap_set := matrix_set;
  cap_cas := matrix_compare_exchange;
}.

(** ** The viability floor *)

Definition VIABLE_FLOOR : list Z :=
  <[USER_MGMT := Z.shiftl 1 0]>
    (<[PROC := Z.lor (Z.shiftl 1 0) (Z.shiftl 1 1)]>
       (<[FS := Z.lor (Z.shiftl 1 0) (Z.shiftl 1 2)]> (replicate 16 0))).

Definition floor_of (domain : nat) : Z := nth domain VIABLE_FLOOR 0.

(** ** The engine *)

Section engine.
Context {M : Type} `{CapabilityMatrix M}.
Implicit Types m : M.

Definition check m (domain : nat) (required : Z) : PolicyResult :=
  if negb (is_valid domain) then Deny InvalidDomain
  else if is_empty required then Allow
  else
    match cap_get m domain with
    | None => Deny UnknownPwm
    | Some owned =>
        if negb (contains owned required) then Deny NoAuthority
        else if contains required (floor_of domain) then Deny FloorProtected
        else Allow
    end.

(** The retry loop: load, another processor's write, compare-and-swap. *)
Fixpoint cas_loop (env : list Z) (f : Z -> Z) m (domain : nat) : outcome M :=
  let current := default NONE (cap_get m domain) in
  match env with
  | [] => match cap_cas m domain current (f current) with
          | (m, inl _) => Done m
          | (_, inr _) => Deadlock
          end
  | v :: env =>
      let m := fst (cap_set m domain v) in
      match cap_cas m domain current (f current) with
      | (m, inl _) => Done m
      | (m, inr _) => cas_loop env f m domain
      end
  end.

Definition grant (env : list Z) (from to : M) (domain : nat) (bits : Z)
    : outcome (M * GrantResult) :=
  if negb (is_valid domain) then Done (to, GrantInvalidDomain)
  else if is_empty bits then Done (to, GrantEmpty)
  else
    match cap_get from domain with
    | None => Done (to, GrantNoAuthority)
    | Some owned =>
        if negb (contains owned bits) then Done (to, GrantNoAuthority)
        else to ← cas_loop env (fun current => Z.lor current bits) to domain;
             Done (to, Granted)
    end.

Definition revoke (env : list Z) m (domain : nat) (bits : Z) : outcome (M * RevokeResult) :=
  if negb (is_valid domain) then Done (m, RevokeInvalidDomain)
  else if is_empty bits then Done (m, NoChange)
  else
    let revocable := diff bits (floor_of domain) in
    if is_empty revocable then Done (m, RevokeFloorProtected)
    else m ← cas_loop env (fun current => diff current revocable) m domain;
         Done (m, Revoked).
End engine.

End Credo.

Module CredoFacts.
Import Credo.

(** What the engine relies on: the rows are independent, a store is seen by the
    next load, and the compare-and-swap is one. *)
Class MatrixLaws (M : Type) `{CapabilityMatrix M} : Prop := {
  set_get : forall m d v, is_valid d = true -> cap_get m d <> None ->
    cap_get (fst (cap_set m d v)) d = Some v;
  set_get_ne : forall m d d' v, d <> d' -> cap_get (fst (cap_set m d v)) d' = cap_get m d';
  cas_same : forall m d v new, is_valid d = true -> cap_get m d = Some v ->
    exists m', cap_cas m d v new = (m', inl v) /\ cap_get m' d = Some new /\
      forall d', d' <> d -> cap_get m' d' = cap_get m d';
  cas_other : forall m d v current new, is_valid d = true -> cap_get m d = Some v ->
    v <> current -> cap_cas m d current new = (m, inr v);
}.

#[export] Instance in_memory_laws : MatrixLaws InMemoryMatrix.
Proof.
  split; simpl; unfold matrix_get, matrix_set, matrix_compare_exchange.
  - intros m d v -> Hsome. simpl. apply list_lookup_insert_eq.
    destruct (m !! d) eqn:E; [by eapply lookup_lt_Some|done].
  - intros m d d' v Hne. destruct (is_valid d); simpl; [|done].
    destruct (is_valid d'); [by apply list_lookup_insert_ne|done].
  - intros m d v new -> Hv. rewrite Hv, Z.eqb_refl. eexists. split; [done|]. split.
    + apply list_lookup_insert_eq. by eapply lookup_lt_Some.
    + intros d' Hne. destruct (is_valid d'); [|done]. by apply list_lookup_insert_ne.
  - intros m d v current new -> Hv Hne. rewrite Hv.
    by rewrite (proj2 (Z.eqb_neq _ _)).
Qed.

(** ** Sets of bits *)

Lemma contains_spec a b : contains a b = true <-> forall n, Z.testbit b n = true -> Z.testbit a n = true.
Proof.
  unfold contains. rewrite Z.eqb_eq. split.
  - intros Heq n Hb. rewrite <- Heq, Z.land_spec in Hb. by apply andb_true_iff in Hb as [? _].
  - intros Hsub. apply Z.bits_inj. intros n. rewrite Z.land_spec.
    destruct (Z.testbit b n) eqn:Hb; [by rewrite Hsub|by rewrite andb_false_r].
Qed.

Lemma floor_u64 d : u64 (floor_of d).
Proof.
  unfold floor_of. destruct (nth_in_or_default d VIABLE_FLOOR 0) as [Hin| ->]; [|done].
  assert (Hall : Forall u64 VIABLE_FLOOR)
    by (repeat (constructor; [by vm_compute|]); constructor).
  by apply list_elem_of_In, (Forall_forall u64 VIABLE_FLOOR) in Hin.
Qed.

Section engine.
Context {M : Type} `{MatrixLaws M}.
Implicit Types m : M.

(** [check] on a valid domain and a non-empty request allows exactly the
    requests that are owned and do not include the whole viability floor of the
    domain.  As the floor is empty in all domains but the file system, the
    processes and user management, in the other 13 domains every non-empty
    request is denied, whatever the holder owns. *)
Theorem check_allows_iff m d required owned :
  is_valid d = true -> required <> 0 -> cap_get m d = Some owned ->
  (check m d required = Allow <->
     contains owned required = true /\ contains required (floor_of d) = false) /\
  (~ d ∈ [FS; PROC; USER_MGMT] -> exists r, check m d required = Deny r).
Proof.
  intros Hd Hr Ho. unfold check, is_empty. rewrite Hd, Ho. simpl.
  rewrite (proj2 (Z.eqb_neq _ _)) by done. split.
  - destruct (contains owned required); simpl; [|naive_solver].
    destruct (contains required (floor_of d)); naive_solver.
  - intros Hout. destruct (contains owned required); simpl; [|eauto].
    enough (Hf : floor_of d = 0).
    { rewrite Hf. unfold contains. rewrite Z.land_0_r. simpl. eauto. }
    rewrite !elem_of_cons in Hout. unfold is_valid, CAP_DOMAINS in Hd.
    destruct (Nat.ltb_spec d 16); [|done].
    do 16 (destruct d as [|d]; [done || naive_solver|]). lia.
Qed.

(** ** The retry loop *)

(** The writes of the other processors that happen before the update: a round whose
    compare-and-swap fails starts again behind the write that made it fail, so the
    update comes behind the first write that leaves the row with the value the
    round loaded, or behind all of them. *)
Fixpoint before_update (v : Z) (env : list Z) : list Z :=
  match env with
  | [] => []
  | x :: env => if x =? v then [x] else x :: before_update x env
  end.

(** The row at the compare-and-swap that succeeds: the last of these writes, or the
    old value when there is none. *)
Definition at_update (v : Z) (env : list Z) : Z := List.last (before_update v env) v.

Lemma before_update_nil v env : before_update v env = [] -> env = [].
Proof. destruct env as [|x env]; [done|]. cbn. by destruct (x =? v). Qed.

Lemma last_default {A} (l : list A) a b : l <> [] -> List.last l a = List.last l b.
Proof. induction l as [|x [|y l] IH]; [done|done|]. intros _. by apply IH. Qed.

Lemma at_update_elem v env : at_update v env ∈ v :: env.
Proof.
  unfold at_update. revert v. induction env as [|x env IH]; intros v; [by left|]. cbn [before_update].
  destruct (Z.eqb_spec x v) as [->|Hx]; [by left|]. right. destruct (before_update x env) as [|y l] eqn:E.
  - cbn. by left.
  - specialize (IH x). rewrite E in IH. change (List.last (x :: y :: l) v) with (List.last (y :: l) v).
    by rewrite (last_default (y :: l) v x).
Qed.

(** The loop ends after at most one round per interfering write, having applied
    [f] once, to the value the row then held. *)
Lemma cas_loop_run env f m d v :
  is_valid d = true -> cap_get m d = Some v ->
  exists m', cas_loop env f m d = Done m' /\
    cap_get m' d = Some (f (at_update v env)) /\
    forall d', d' <> d -> cap_get m' d' = cap_get m d'.
Proof.
  intros Hd. unfold at_update. revert m v. induction env as [|x env IH]; intros m v Hv; simpl.
  - rewrite Hv. simpl. destruct (cas_same m d v (f v) Hd Hv) as (m' & -> & Hg & Hne).
    by exists m'.
  - rewrite Hv. simpl. set (m1 := fst (cap_set m d x)).
    assert (Hx : cap_get m1 d = Some x) by (apply set_get; [done|by rewrite Hv]).
    assert (Hne1 : forall d', d' <> d -> cap_get m1 d' = cap_get m d')
      by (intros d' Hne; by apply set_get_ne).
    destruct (Z.eqb_spec x v) as [->|Hxv].
    + destruct (cas_same m1 d v (f v) Hd Hx) as (m' & -> & Hg & Hne).
      exists m'. split_and!; [done|done|]. intros d' Hd'. by rewrite Hne, Hne1.
    + rewrite (cas_other m1 d x v (f v) Hd Hx Hxv).
      destruct (IH m1 x Hx) as (m' & -> & Hg & Hne).
      exists m'. split_and!; [done| |intros d' Hd'; by rewrite Hne, Hne1].
      rewrite Hg. do 2 f_equal. destruct (before_update x env) as [|y l] eqn:E; [done|].
      change (List.last (x :: y :: l) v) with (List.last (y :: l) v). by apply last_default.
Qed.

(** C35: [grant] of a valid domain succeeds exactly when there is a bit to grant
    and the grantor owns all of them, and then terminates under every finite
    interference with the grantee's row holding the granted bits in addition to
    what it held at the moment of the update, all other rows being untouched; every
    other outcome leaves the grantee unchanged.  The interference is a list of writes to the
    row by other processors, one between the load and the compare-and-swap of each
    round; [at_update] is the last of those that come before the update (a
    write that comes between the load and the store is never lost).  The two matrices
    are different objects with laws of atomic rows. *)
Theorem grant_gives_only_owned env (from to : M) d bits owned v :
  is_valid d = true -> cap_get from d = Some owned -> cap_get to d = Some v ->
  exists to' r, grant env from to d bits = Done (to', r) /\
    (r = Granted <-> bits <> 0 /\ contains owned bits = true) /\
    (r = Granted -> cap_get to' d = Some (Z.lor (at_update v env) bits) /\
       forall d', d' <> d -> cap_get to' d' = cap_get to d') /\
    (r <> Granted -> to' = to).
Proof.
  intros Hd Hfrom Hto. unfold grant, is_empty. rewrite Hd, Hfrom. simpl.
  destruct (Z.eqb_spec bits 0) as [->|Hb].
  { exists to, GrantEmpty. split_and!; [done|naive_solver|done|done]. }
  destruct (contains owned bits) eqn:Hc; simpl.
  2: { exists to, GrantNoAuthority. split_and!; [done|naive_solver|done|done]. }
  destruct (cas_loop_run env (fun cur => Z.lor cur bits) to d v Hd Hto)
    as (m' & -> & Hg & Hne).
  exists m', Granted. cbn [mbind outcome_bind]. by split_and!.
Qed.

(** [revoke] never takes a bit of the viability floor: whatever is
    revoked and whoever interferes, a floor bit that was set when the row was
    updated is still set, every revoked bit outside the floor is clear, and all
    other bits are as they were; a request made of floor bits only is refused
    without a change. *)
Theorem revoke_keeps_floor env m d bits v :
  is_valid d = true -> cap_get m d = Some v -> u64 v -> Forall u64 env -> u64 bits ->
  exists m' r, revoke env m d bits = Done (m', r) /\
    (r <> Revoked -> m' = m) /\
    (r = RevokeFloorProtected <-> bits <> 0 /\ contains (floor_of d) bits = true) /\
    (r = Revoked -> exists v0 v1, v0 ∈ v :: env /\ cap_get m' d = Some v1 /\
       forall n, Z.testbit v1 n =
         Z.testbit v0 n && (negb (Z.testbit bits n) || Z.testbit (floor_of d) n)).
Proof.
  intros Hd Hv Hu Henv Hb. unfold revoke, is_empty. rewrite Hd. simpl.
  pose proof (floor_u64 d) as Hf.
  destruct (Z.eqb_spec bits 0) as [->|Hb0].
  { exists m, NoChange. split_and!; [done|done|naive_solver|done]. }
  assert (Hdiff : diff bits (floor_of d) = Z.ldiff bits (floor_of d))
    by by apply land_not_u64.
  rewrite Hdiff. destruct (Z.eqb_spec (Z.ldiff bits (floor_of d)) 0) as [Hz|Hz].
  { exists m, RevokeFloorProtected. split_and!; [done|done| |done].
    split; [intros _; split; [done|]|done]. apply contains_spec. intros n Hn.
    assert (Hbit : Z.testbit (Z.ldiff bits (floor_of d)) n = false)
      by (rewrite Hz; apply Z.testbit_0_l).
    rewrite Z.ldiff_spec, Hn in Hbit. by destruct (Z.testbit (floor_of d) n). }
  destruct (cas_loop_run env (fun cur => diff cur (Z.ldiff bits (floor_of d))) m d v Hd Hv)
    as (m' & -> & Hg & Hne).
  exists m', Revoked. cbn [mbind outcome_bind]. split_and!; [done|done| |].
  - split; [done|]. intros [_ Hc]. destruct Hz. apply Z.bits_inj. intros n.
    rewrite contains_spec in Hc. rewrite Z.ldiff_spec, Z.testbit_0_l.
    destruct (Z.testbit bits n) eqn:E; [|done]. by rewrite (Hc n E).
  - intros _. pose proof (at_update_elem v env) as Hin. set (v0 := at_update v env) in *.
    exists v0. eexists. split_and!; [done|done|]. intros n.
    assert (Hu0 : u64 v0).
    { apply elem_of_cons in Hin as [->|Hin]; [done|]. by apply (Forall_forall u64 env) in Hin. }
    unfold diff. rewrite land_not_u64 by (done || by apply ldiff_u64). rewrite !Z.ldiff_spec.
    by destruct (Z.testbit v0 n), (Z.testbit bits n), (Z.testbit (floor_of d) n).
Qed.
End engine.

(** ** Witnesses *)

Definition ex_from : InMemoryMatrix := fst (matrix_set new_matrix NET 15).
Definition ex_to : InMemoryMatrix := fst (matrix_set new_matrix FS 15).

Lemma check_allows_iff_witness :
  contains 15 8 = true /\ exists r, check ex_from NET 8 = Deny r.
Proof.
  split; [reflexivity|].
  apply (check_allows_iff ex_from NET 8 15); [reflexivity|lia|reflexivity|].
  rewrite !elem_of_cons. intros [H|[H|[H|H]]]; [discriminate H..|].
  by apply not_elem_of_nil in H.
Defined.

(** Another processor stores 64 and then 32 in the row being granted. *)
Lemma grant_gives_only_owned_witness :
  exists to' r, grant [64; 32] ex_from ex_to NET 12 = Done (to', r) /\
    (r = Granted <-> 12 <> 0 /\ contains 15 12 = true).
Proof.
  destruct (grant_gives_only_owned [64; 32] ex_from ex_to NET 12 15 0)
    as (to' & r & H1 & H2 & _); [reflexivity..|].
  exists to', r. split; [exact H1|exact H2].
Defined.

Lemma revoke_keeps_floor_witness :
  exists m' r, revoke [] ex_to FS 13 = Done (m', r) /\
    (r <> Revoked -> m' = ex_to).
Proof.
  destruct (revoke_keeps_floor [] ex_to FS 13 15) as (m' & r & H1 & H2 & _);
    [reflexivity|reflexivity|unfold u64, U64_MAX; lia|constructor
    |unfold u64, U64_MAX; lia|].
  exists m', r. split; [exact H1|exact H2].
Defined.

End CredoFacts.
