(* ===== verification/Grants.v ===== *)
(** * Delegation of capabilities

    Model of [src/kernel/services/credo/grants.rs]: the table of grant records,
    cascading revocation along the parent links, and the delegation engine on
    top of the policy engine.  [collect_descendants] recurses without bound in
    the source; here it runs on fuel one above the table size, and
    [mark_revoked_exact] includes that this is enough for every well-formed table.

    The theorems: revocation removes exactly a grant and its descendants
    ([mark_revoked_exact]), every table reached by delegations and revocations
    is well formed ([reachable_tables_ok]), how a delegation ends
    ([delegate_full_table_leaks]) and the flag it never looks at. *)

From S2P Require Import Prelude Credo.
Import Credo.

Module Grants.

Definition FLAG_NONE : Z := 0.
Definition NON_DELEGATABLE : Z := Z.shiftl 1 0.
Definition REVOKED : Z := Z.shiftl 1 1.
Definition AUDITED : Z := Z.shiftl 1 2.

Definition has_flag (flags f : Z) : bool := Z.land flags f =? f.

Record GrantRecord := mkGrantRecord {
  from_pwm : Z;
  to_pwm : Z;
  domain : nat;
  bits : Z;
  created_tick : Z;
  expires_tick : Z;
  generation : Z;
  parent_gen : Z;
  flags : Z;
}.

Definition EMPTY : GrantRecord := mkGrantRecord 0 0 0 0 0 0 0 0 FLAG_NONE.

Definition with_generation (g : Z) (r : GrantRecord) : GrantRecord :=
  mkGrantRecord (from_pwm r) (to_pwm r) (domain r) (bits r) (created_tick r)
    (expires_tick r) g (parent_gen r) (flags r).

(** The flag is set and the slot released. *)
Definition release (r : GrantRecord) : GrantRecord :=
  mkGrantRecord (from_pwm r) (to_pwm r) (domain r) (bits r) (created_tick r)
    (expires_tick r) 0 (parent_gen r) (Z.lor (flags r) REVOKED).

Definition GRANT_TABLE_CAPACITY : nat := 256.

Record GrantTable := mkGrantTable {
  records : list GrantRecord;
  next_gen : Z;
  used : Z;
}.

Definition new : GrantTable :=
  mkGrantTable (replicate GRANT_TABLE_CAPACITY EMPTY) 1 0.

Definition is_free (r : GrantRecord) : bool := generation r =? 0.
Definition has_gen (g : Z) (r : GrantRecord) : bool := generation r =? g.

(** A generation is consumed even when no free slot is found. *)
Definition add (t : GrantTable) (record : GrantRecord) : GrantTable * option Z :=
  if Z.of_nat GRANT_TABLE_CAPACITY <=? used t then (t, None)
  else
    let g := next_gen t in
    let next := wrap_u32 (g + 1) in
    match position is_free (records t) with
    | Some i => (mkGrantTable (<[i := with_generation g record]> (records t)) next
                   (wrap_u32 (used t + 1)), Some g)
    | None => (mkGrantTable (records t) next (used t), None)
    end.

Definition get (t : GrantTable) (g : Z) : option GrantRecord :=
  if g =? 0 then None else find_first (has_gen g) (records t).

Definition is_child (parent : Z) (r : GrantRecord) : bool :=
  negb (generation r =? 0) && (parent_gen r =? parent).

(** Depth first, a child before its own descendants. *)
Fixpoint collect_descendants (fuel : nat) (rs : list GrantRecord) (parent : Z)
    : option (list Z) :=
  match fuel with
  | O => None
  | S fuel =>
      foldr (fun r acc =>
        if is_child parent r then
          below ← collect_descendants fuel rs (generation r);
          rest ← acc;
          Some (generation r :: below ++ rest)
        else acc) (Some []) rs
  end.

(** One victim: the first slot with its generation. *)
Definition revoke_victim (acc : GrantTable * bool) (g : Z) : GrantTable * bool :=
  let '(t, revoked_any) := acc in
  match position (has_gen g) (records t) with
  | Some i =>
      match records t !! i with
      | Some r =>
          if has_flag (flags r) REVOKED then acc
          else (mkGrantTable (<[i := release r]> (records t)) (next_gen t)
                  (wrap_u32 (used t - 1)), true)
      | None => acc
      end
  | None => acc
  end.

(** [Deadlock] stands for the unbounded recursion of [collect_descendants]. *)
Definition mark_revoked (t : GrantTable) (g : Z) : outcome (GrantTable * bool) :=
  match collect_descendants (S GRANT_TABLE_CAPACITY) (records t) g with
  | Some below => Done (fold_left revoke_victim (g :: below) (t, false))
  | None => Deadlock
  end.

Definition is_valid (t : GrantTable) (g current_tick : Z) : bool :=
  match get t g with
  | Some r =>
      if has_flag (flags r) REVOKED then false
      else if negb (expires_tick r =? 0) && (expires_tick r <=? current_tick) then false
      else true
  | None => false
  end.

Definition revoke_one (acc : outcome (GrantTable * nat)) (g : Z)
    : outcome (GrantTable * nat) :=
  '(t, count) ← acc;
  '(t, ok) ← mark_revoked t g;
  Done (t, if (ok : bool) then S count else count).

Definition revoke_all_from (t : GrantTable) (pwm : Z) : outcome (GrantTable * nat) :=
  let gens := generation <$>
    List.filter (fun r => negb (generation r =? 0) && (from_pwm r =? pwm)) (records t) in
  fold_left revoke_one gens (Done (t, 0%nat)).

Definition len (t : GrantTable) : Z := used t.
Definition is_empty (t : GrantTable) : bool := len t =? 0.

(** ** The engine *)

Inductive DelegationDeny :=
  | NonDelegatable
  | TableFull
  | InvalidExpiry
  | SamePwm
  | Policy (r : GrantResult).

Inductive DelegationResult :=
  | DelegationGranted (g : Z)
  | Denied (d : DelegationDeny).

Section engine.
Context {M : Type} `{CapabilityMatrix M}.

Definition delegate (env : list Z) (t : GrantTable) (from_matrix to_matrix : M)
    (from to : Z) (dom : nat) (bs current_tick expires parent : Z)
    (non_delegatable : bool) : outcome (GrantTable * M * DelegationResult) :=
  if from =? to then Done (t, to_matrix, Denied SamePwm)
  else if negb (expires =? 0) && (expires <=? current_tick)
  then Done (t, to_matrix, Denied InvalidExpiry)
  else if negb (parent =? 0) && negb (is_valid t parent current_tick)
  then Done (t, to_matrix, Denied InvalidExpiry)
  else
    '(to_matrix, grant_res) ← Credo.grant env from_matrix to_matrix dom bs;
    match grant_res with
    | Granted =>
        let fl := if non_delegatable then NON_DELEGATABLE else FLAG_NONE in
        let rec := mkGrantRecord from to dom bs current_tick expires 0 parent fl in
        match add t rec with
        | (t, Some g) => Done (t, to_matrix, DelegationGranted g)
        | (t, None) => Done (t, to_matrix, Denied TableFull)
        end
    | other => Done (t, to_matrix, Denied (Policy other))
    end.

Definition revoke (env : list Z) (t : GrantTable) (matrix : M) (g : Z)
    : outcome (GrantTable * M * bool) :=
  match get t g with
  | Some rec =>
      if has_flag (flags rec) REVOKED then Done (t, matrix, false)
      else
        '(matrix, _) ← Credo.revoke env matrix (domain rec) (bits rec);
        '(t, _) ← mark_revoked t g;
        Done (t, matrix, true)
  | None => Done (t, matrix, false)
  end.
End engine.

End Grants.

Module GrantsFacts.
Import Grants.

(** The records in use. *)
Definition live (t : GrantTable) : list GrantRecord :=
  List.filter (fun r => negb (is_free r)) (records t).

Definition gens (t : GrantTable) : list Z := generation <$> live t.

(** Generations are unique, positive and below [next_gen]; a parent is older
    than its children; no record in use is flagged as revoked; [used] counts the
    records in use. *)
Record table_ok (t : GrantTable) : Prop := {
  to_length : length (records t) = GRANT_TABLE_CAPACITY;
  to_nodup : NoDup (gens t);
  to_order : Forall (fun r => 0 <= parent_gen r < generation r /\
                              generation r < next_gen t) (live t);
  to_flags : Forall (fun r => has_flag (flags r) REVOKED = false) (live t);
  to_used : used t = Z.of_nat (length (live t));
  to_next : 0 < next_gen t <= U32_MAX;
}.

(** Descendants along the parent links. *)
Inductive descendant (t : GrantTable) (g : Z) : Z -> Prop :=
  | desc_child r : r ∈ live t -> parent_gen r = g -> descendant t g (generation r)
  | desc_step x r : descendant t g x -> r ∈ live t -> parent_gen r = x ->
      descendant t g (generation r).

Lemma elem_of_live t r : r ∈ live t <-> r ∈ records t /\ generation r <> 0.
Proof.
  unfold live, is_free. rewrite !list_elem_of_In, List.filter_In.
  rewrite negb_true_iff, Z.eqb_neq. done.
Qed.

(** ** Collection of descendants *)

Lemma is_child_spec t g r :
  r ∈ records t -> is_child g r = true <-> r ∈ live t /\ parent_gen r = g.
Proof.
  intros Hr. rewrite elem_of_live. unfold is_child.
  rewrite andb_true_iff, negb_true_iff, Z.eqb_neq, Z.eqb_eq. naive_solver.
Qed.

(** Records younger than [g]: what a recursion below [g] can still visit. *)
Definition younger (t : GrantTable) (g : Z) : nat :=
  count_if (fun r => g <? generation r) (live t).

Lemma younger_child t g r :
  r ∈ live t -> g < generation r -> (younger t (generation r) < younger t g)%nat.
Proof.
  unfold younger. intros Hr Hg. induction (live t) as [|x l IH].
  { by apply not_elem_of_nil in Hr. }
  assert (Hle : (count_if (fun r' => (generation r <? generation r')%Z) l
                 <= count_if (fun r' => (g <? generation r')%Z) l)%nat).
  { clear -Hg. unfold count_if. induction l as [|y l IH]; [done|]. simpl.
    split_bool; simpl; lia. }
  unfold count_if in *. simpl. apply elem_of_cons in Hr as [->|Hr].
  - split_bool; simpl; lia.
  - specialize (IH Hr). split_bool; simpl; lia.
Qed.

(** A descendant is a child or a descendant of a child. *)
Lemma descendant_top t g x :
  descendant t g x <->
  exists r, r ∈ records t /\ is_child g r = true /\
    (x = generation r \/ descendant t (generation r) x).
Proof.
  split.
  - induction 1 as [r Hr Hp|y r _ IHy Hr Hp].
    + exists r. rewrite (is_child_spec t) by by apply elem_of_live in Hr as [? _].
      split_and!; [by apply elem_of_live in Hr as [? _]|done|done|by left].
    + destruct IHy as (r0 & Hr0 & Hc0 & Hy). exists r0. split_and!; [done|done|].
      right. destruct Hy as [->|Hy]; [by apply desc_child|by eapply desc_step].
  - intros (r & Hr & Hc & Hx). apply (is_child_spec t) in Hc as [Hl Hp]; [|done].
    destruct Hx as [->|Hx]; [by apply desc_child|].
    induction Hx as [r' Hr' Hpar|y r' _ IHy Hr' Hpar].
    + apply (desc_step t g (generation r) r'); [by apply desc_child|done|done].
    + by eapply desc_step.
Qed.

(** The loop of [collect_descendants] over records [l], given that the
    recursive calls below the children of [g] return the descendants. *)
Lemma collect_loop_run t fuel g l :
  (forall r, r ∈ l -> is_child g r = true ->
     exists below, collect_descendants fuel (records t) (generation r) = Some below /\
       forall x, x ∈ below <-> descendant t (generation r) x) ->
  exists out, foldr (fun r acc =>
      if is_child g r then
        below ← collect_descendants fuel (records t) (generation r);
        rest ← acc; Some (generation r :: below ++ rest)
      else acc) (Some []) l = Some out /\
    forall x, x ∈ out <->
      exists r, r ∈ l /\ is_child g r = true /\
        (x = generation r \/ descendant t (generation r) x).
Proof.
  induction l as [|r l IHl]; intros IH.
  { exists []. split; [done|]. intros x. setoid_rewrite elem_of_nil. naive_solver. }
  destruct IHl as (rest & Hrest & Hin); [intros; apply IH; [by right|done]|].
  cbn [foldr]. rewrite Hrest. setoid_rewrite elem_of_cons.
  destruct (is_child g r) eqn:Hc.
  - destruct (IH r) as (below & -> & Hb); [by left|done|].
    cbn [mbind option_bind]. eexists. split; [done|]. intros x.
    rewrite elem_of_cons, elem_of_app, Hb, Hin. naive_solver.
  - exists rest. split; [done|]. intros x. rewrite Hin. naive_solver congruence.
Qed.

Lemma collect_run t fuel g :
  table_ok t -> (younger t g < fuel)%nat ->
  exists out, collect_descendants fuel (records t) g = Some out /\
    forall x, x ∈ out <-> descendant t g x.
Proof.
  intros Hok. revert g. induction fuel as [|fuel IH]; intros g Hf; [lia|]. simpl.
  destruct (collect_loop_run t fuel g (records t)) as (out & -> & Hin).
  - intros r Hr Hc. apply (is_child_spec t) in Hc as [Hlive Hp]; [|done].
    pose proof (to_order _ Hok) as Ho. rewrite Forall_forall in Ho.
    specialize (Ho r Hlive). apply IH.
    pose proof (younger_child t g r Hlive). lia.
  - exists out. split; [done|]. intros x. by rewrite Hin, descendant_top.
Qed.

(** ** Revocation *)

(** Positions of distinct generations. *)
Lemma live_split t i r :
  records t !! i = Some r ->
  live t = List.filter (fun r => negb (is_free r)) (take i (records t)) ++
    List.filter (fun r => negb (is_free r)) [r] ++
    List.filter (fun r => negb (is_free r)) (drop (S i) (records t)).
Proof.
  intros Hi. unfold live. rewrite <- (take_drop_middle _ _ _ Hi) at 1.
  rewrite List.filter_app. f_equal. simpl. by destruct (negb (is_free r)).
Qed.

Lemma live_insert t i r r' next u :
  records t !! i = Some r ->
  live (mkGrantTable (<[i := r']> (records t)) next u)
    = List.filter (fun r => negb (is_free r)) (take i (records t)) ++
      List.filter (fun r => negb (is_free r)) [r'] ++
      List.filter (fun r => negb (is_free r)) (drop (S i) (records t)).
Proof.
  intros Hi. unfold live. simpl.
  rewrite insert_take_drop by by eapply lookup_lt_Some.
  rewrite List.filter_app. f_equal. simpl. by destruct (negb (is_free r')).
Qed.

Lemma length_filter_le t : (length (live t) <= length (records t))%nat.
Proof. apply List.filter_length_le. Qed.

(** Releasing a record in use keeps the others. *)
Lemma release_ok t i r :
  table_ok t -> records t !! i = Some r -> generation r <> 0 ->
  let t' := mkGrantTable (<[i := release r]> (records t)) (next_gen t)
              (wrap_u32 (used t - 1)) in
  table_ok t' /\
  (forall r', r' ∈ live t' <-> r' ∈ live t /\ generation r' <> generation r).
Proof.
  intros Hok Hr Hg t'.
  pose proof (live_split t i r Hr) as Hsplit.
  pose proof (live_insert t i r (release r) (next_gen t) (wrap_u32 (used t - 1)) Hr) as Hnew.
  simpl in Hsplit, Hnew. unfold is_free at 2 in Hsplit.
  rewrite (proj2 (Z.eqb_neq _ _)) in Hsplit by lia. simpl in Hsplit. fold t' in Hnew.
  set (pre := List.filter _ (take i _)) in *.
  set (post := List.filter _ (drop (S i) _)) in *. clearbody pre post.
  pose proof Hok as [Hlen Hnd Ho Hfl Hu Hnext]. unfold gens in Hnd.
  pose proof (length_filter_le t) as Hle.
  rewrite Hsplit in Hnd, Ho, Hfl, Hu, Hle. rewrite fmap_app in Hnd. simpl in Hnd.
  rewrite <- Permutation_middle in Hnd. apply NoDup_cons in Hnd as [Hnr Hnd].
  rewrite <- fmap_app in Hnr, Hnd. rewrite <- Permutation_middle in Ho, Hfl.
  apply Forall_cons_1 in Ho as [_ Ho]. apply Forall_cons_1 in Hfl as [_ Hfl].
  rewrite length_app in Hu, Hle. simpl in Hu, Hle.
  rewrite Hlen in Hle. unfold GRANT_TABLE_CAPACITY in Hle.
  split; [split; unfold gens; rewrite ?Hnew; try done|].
  - simpl. by rewrite length_insert.
  - simpl. rewrite Hu, length_app, wrap_u32_small; unfold u32, U32_MAX; lia.
  - intros r'. rewrite Hnew, Hsplit, <- Permutation_middle, elem_of_cons. split.
    + intros Hr'. split; [by right|]. intros Heq. apply Hnr.
      rewrite <- Heq. by apply list_elem_of_fmap_2.
    + intros [[->|?] ?]; done.
Qed.

(** Removing a victim that is in use keeps the others. *)
Lemma revoke_victim_run t g b :
  table_ok t -> g <> 0 ->
  let '(t', b') := revoke_victim (t, b) g in
  table_ok t' /\ next_gen t' = next_gen t /\ b' = b || bool_decide (g ∈ gens t) /\
  (forall r, r ∈ live t' <-> r ∈ live t /\ generation r <> g).
Proof.
  intros Hok Hg. unfold revoke_victim.
  destruct (position (has_gen g) (records t)) as [i|] eqn:Hpos.
  - apply position_Some in Hpos as (r & Hr & Hgr & _). rewrite Hr.
    unfold has_gen in Hgr. apply Z.eqb_eq in Hgr. subst g.
    assert (Hlive : r ∈ live t)
      by (apply elem_of_live; split; [by eapply list_elem_of_lookup_2|done]).
    pose proof (to_flags _ Hok) as Hfl. rewrite Forall_forall in Hfl.
    rewrite (Hfl r Hlive). destruct (release_ok t i r Hok Hr Hg) as [Hok' Hin].
    split_and!; [done|done| |done].
    rewrite bool_decide_eq_true_2; [by destruct b|]. by apply list_elem_of_fmap_2.
  - rewrite position_None in Hpos.
    assert (Hni : forall r, r ∈ live t -> generation r <> g).
    { intros r [Hr _]%elem_of_live. specialize (Hpos r Hr). unfold has_gen in Hpos. lia. }
    split_and!; [done|done| |].
    + rewrite bool_decide_eq_false_2; [by destruct b|].
      intros (r & -> & Hr)%list_elem_of_fmap. by apply (Hni r).
    + intros r. split; [|by intros [? _]]. auto.
Qed.

Lemma revoke_victims_run t vs b :
  table_ok t -> Forall (fun g => g <> 0) vs ->
  let '(t', b') := fold_left revoke_victim vs (t, b) in
  table_ok t' /\ next_gen t' = next_gen t /\
  (b' = true <-> b = true \/ exists g, g ∈ vs /\ g ∈ gens t) /\
  (forall r, r ∈ live t' <-> r ∈ live t /\ generation r ∉ vs).
Proof.
  intros Hok Hvs. revert t b Hok.
  induction Hvs as [|g vs Hg Hvs IH]; intros t b Hok; cbn [fold_left].
  { split_and!; [done|done| |].
    - split; [by left|]. intros [|(g & Hg & _)]; [done|by apply not_elem_of_nil in Hg].
    - intros r. split; [|by intros [? _]]. intros Hr. split; [done|].
      apply not_elem_of_nil. }
  pose proof (revoke_victim_run t g b Hok Hg) as Hstep.
  destruct (revoke_victim (t, b) g) as [t1 b1].
  destruct Hstep as (Hok1 & Hn1 & -> & Hl1).
  specialize (IH t1 (b || bool_decide (g ∈ gens t)) Hok1).
  destruct (fold_left revoke_victim vs (t1, _)) as [t2 b2].
  destruct IH as (Hok2 & Hn2 & Hb2 & Hl2).
  split_and!; [done|congruence| |].
  - rewrite Hb2, orb_true_iff, bool_decide_eq_true. split.
    + intros [[?|?]|(x & Hx & Hxg)]; [by left|right; exists g; split; [by left|done]|].
      right. exists x. split; [by right|].
      apply list_elem_of_fmap in Hxg as (r & -> & Hr%Hl1). apply list_elem_of_fmap_2, Hr.
    + intros [|(x & [->|Hx]%elem_of_cons & Hxg)]; [by auto..|].
      destruct (decide (x = g)) as [->|Hne]; [by auto|]. right. exists x.
      split; [done|]. apply list_elem_of_fmap in Hxg as (r & -> & Hr).
      apply list_elem_of_fmap_2, Hl1. done.
  - intros r. rewrite Hl2, Hl1, not_elem_of_cons. naive_solver.
Qed.

Lemma younger_le t g : table_ok t -> (younger t g <= GRANT_TABLE_CAPACITY)%nat.
Proof.
  intros Hok. unfold younger. rewrite <- (to_length _ Hok).
  etransitivity; [apply count_if_le|apply length_filter_le].
Qed.

Lemma descendant_pos t g x : table_ok t -> descendant t g x -> x <> 0 /\ x ∈ gens t.
Proof.
  intros Hok Hd. pose proof (to_order _ Hok) as Ho. rewrite Forall_forall in Ho.
  destruct Hd as [r Hr Hp|y r _ Hr Hp]; specialize (Ho r Hr);
    (split; [lia|by apply list_elem_of_fmap_2]).
Qed.

Lemma mark_revoked_run t g :
  table_ok t -> g <> 0 ->
  exists t' b, mark_revoked t g = Done (t', b) /\ table_ok t' /\ next_gen t' = next_gen t /\
    (b = true <-> g ∈ gens t \/ exists x, descendant t g x) /\
    (forall r, r ∈ live t' <->
       r ∈ live t /\ generation r <> g /\ ~ descendant t g (generation r)).
Proof.
  intros Hok Hg. unfold mark_revoked.
  destruct (collect_run t (S GRANT_TABLE_CAPACITY) g Hok) as (out & -> & Hout).
  { pose proof (younger_le t g Hok). lia. }
  pose proof (revoke_victims_run t (g :: out) false Hok) as Hrun.
  destruct (fold_left revoke_victim (g :: out) (t, false)) as [t' b].
  destruct Hrun as (Hok' & Hn & Hb & Hl).
  { constructor; [done|]. apply Forall_forall. intros x Hx%Hout.
    by apply (descendant_pos t g). }
  exists t', b. split_and!; [done|done|done| |].
  - rewrite Hb. split.
    + intros [|(x & [->|Hx%Hout]%elem_of_cons & Hin)]; [done|by left|right; by exists x].
    + intros [Hin|[x Hx]]; right; [exists g; split; [by left|done]|].
      exists x. split; [right; by apply Hout|]. by apply (descendant_pos t g).
  - intros r. rewrite Hl, not_elem_of_cons, Hout. done.
Qed.

(** C18: revoking a grant terminates and releases exactly that grant and all
    grants made below it, directly or not: a record stays in use if and only if
    it was in use and is neither the revoked grant nor a descendant of it, and
    the table stays well formed; the call reports whether anything was
    released. *)
Theorem mark_revoked_exact t g :
  table_ok t -> g <> 0 ->
  exists t' b, mark_revoked t g = Done (t', b) /\ table_ok t' /\
    (b = true <-> g ∈ gens t \/ exists x, descendant t g x) /\
    (forall r, r ∈ live t' <->
       r ∈ live t /\ generation r <> g /\ ~ descendant t g (generation r)).
Proof.
  intros Hok Hg. destruct (mark_revoked_run t g Hok Hg) as (t' & b & H1 & H2 & _ & H3 & H4).
  exists t', b. by split_and!.
Qed.

(** ** Adding a record *)

Lemma free_slot t :
  table_ok t -> used t < Z.of_nat GRANT_TABLE_CAPACITY ->
  exists i r, position is_free (records t) = Some i /\ records t !! i = Some r /\
    is_free r = true.
Proof.
  intros Hok Hu. destruct (position is_free (records t)) as [i|] eqn:Hp.
  - apply position_Some in Hp as (r & Hr & Hf & _). by exists i, r.
  - rewrite position_None in Hp. exfalso. rewrite (to_used _ Hok) in Hu.
    rewrite <- (to_length _ Hok) in Hu. 
    assert (Heq : live t = records t); [|rewrite Heq in Hu; lia].
    unfold live. clear -Hp. induction (records t) as [|r l IH]; [done|]. simpl.
    rewrite Hp by by left. simpl. f_equal. apply IH. intros x Hx. apply Hp. by right.
Qed.

(** A record whose parent is older than every new generation enters the table
    with the next generation. *)
Lemma add_run t rec :
  table_ok t -> next_gen t < U32_MAX -> used t < Z.of_nat GRANT_TABLE_CAPACITY ->
  0 <= parent_gen rec < next_gen t -> has_flag (flags rec) REVOKED = false ->
  exists t', add t rec = (t', Some (next_gen t)) /\ table_ok t' /\
    (forall r, r ∈ live t' <-> r = with_generation (next_gen t) rec \/ r ∈ live t).
Proof.
  intros Hok Hnext Hu Hpar Hfl. destruct (free_slot t Hok Hu) as (i & r0 & Hp & Hr0 & Hf0).
  pose proof Hok as [Hlen Hnd Ho Hflags Hused Hn].
  unfold add. rewrite (proj2 (Z.leb_gt _ _)) by done. rewrite Hp.
  eexists. split; [done|].
  pose proof (live_split t i r0 Hr0) as Hsplit.
  pose proof (live_insert t i r0 (with_generation (next_gen t) rec)
    (wrap_u32 (next_gen t + 1)) (wrap_u32 (used t + 1)) Hr0) as Hnew.
  simpl in Hsplit, Hnew. rewrite Hf0 in Hsplit. unfold is_free at 2 in Hnew.
  simpl in Hsplit, Hnew. rewrite (proj2 (Z.eqb_neq _ _)) in Hnew by lia. simpl in Hnew.
  set (pre := List.filter _ (take i _)) in *.
  set (post := List.filter _ (drop (S i) _)) in *. clearbody pre post.
  assert (Hin : forall r, r ∈ pre ++ with_generation (next_gen t) rec :: post
                <-> r = with_generation (next_gen t) rec \/ r ∈ live t).
  { intros r. rewrite Hsplit, !elem_of_app, elem_of_cons. naive_solver. }
  assert (Hperm : live (mkGrantTable (<[i:=with_generation (next_gen t) rec]> (records t))
    (wrap_u32 (next_gen t + 1)) (wrap_u32 (used t + 1)))
    ≡ₚ with_generation (next_gen t) rec :: live t).
  { rewrite Hnew, Hsplit. solve_Permutation. }
  assert (Hw : wrap_u32 (next_gen t + 1) = next_gen t + 1)
    by (apply wrap_u32_small; unfold u32; lia).
  split; [|intros r; by rewrite Hperm, elem_of_cons]. split.
  - simpl. by rewrite length_insert.
  - unfold gens. rewrite Hperm. simpl. apply NoDup_cons. split; [|done].
    intros (r & Hg & Hr)%list_elem_of_fmap. rewrite Forall_forall in Ho.
    specialize (Ho r Hr). lia.
  - rewrite Hperm. simpl. rewrite Hw. constructor; [simpl; lia|].
    eapply Forall_impl; [exact Ho|]. simpl. intros r ?. lia.
  - rewrite Hperm. by constructor.
  - rewrite Hperm. simpl. rewrite Hused. unfold GRANT_TABLE_CAPACITY in Hu.
    rewrite wrap_u32_small; [lia|]. unfold u32, U32_MAX. lia.
  - simpl. rewrite Hw. lia.
Qed.

Lemma add_full t rec :
  Z.of_nat GRANT_TABLE_CAPACITY <= used t -> add t rec = (t, None).
Proof. intros Hu. unfold add. by rewrite (proj2 (Z.leb_le _ _)). Qed.

Lemma get_live t g r : table_ok t -> get t g = Some r -> r ∈ live t /\ generation r = g.
Proof.
  intros Hok. unfold get, find_first. destruct (Z.eqb_spec g 0); [done|].
  destruct (position _ _) as [i|] eqn:Hp; [|done].
  apply position_Some in Hp as (x & Hx & Hg & _). rewrite Hx. intros [= <-].
  unfold has_gen in Hg. split; [|lia]. apply elem_of_live.
  split; [by eapply list_elem_of_lookup_2|lia].
Qed.

Lemma valid_parent t parent tick :
  table_ok t ->
  (negb (parent =? 0) && negb (is_valid t parent tick)) = false ->
  0 <= parent < next_gen t.
Proof.
  intros Hok Hp. pose proof (to_next _ Hok).
  destruct (Z.eqb_spec parent 0) as [->|Hne]; [lia|]. simpl in Hp.
  unfold is_valid in Hp. destruct (get t parent) as [r|] eqn:Hg; [|done].
  apply get_live in Hg as [Hr <-]; [|done]. pose proof (to_order _ Hok) as Ho.
  rewrite Forall_forall in Ho. specialize (Ho r Hr). lia.
Qed.

Section engine.
Context {M : Type} `{CredoFacts.MatrixLaws M}.

(** A delegation between distinct holders, with an expiry in the future
    and a valid parent, of bits the delegator owns, always changes the
    delegatee's row; the grant is recorded under a fresh generation while the
    table has room, but with a full table the call is denied although the bits
    have been handed out, and no record of them exists. *)
Theorem delegate_full_table_leaks env t (from_m to_m : M) from to d bs tick expires parent nd owned v :
  table_ok t -> next_gen t < U32_MAX ->
  from <> to -> expires = 0 \/ tick < expires -> parent = 0 \/ is_valid t parent tick = true ->
  Credo.is_valid d = true -> cap_get from_m d = Some owned -> cap_get to_m d = Some v ->
  bs <> 0 -> contains owned bs = true ->
  exists t' to' v0, v0 ∈ v :: env /\ cap_get to' d = Some (Z.lor v0 bs) /\
    (used t < 256 ->
       delegate env t from_m to_m from to d bs tick expires parent nd
         = Done (t', to', DelegationGranted (next_gen t)) /\ table_ok t' /\
       exists r, r ∈ live t' /\ generation r = next_gen t /\ to_pwm r = to /\ bits r = bs) /\
    (used t = 256 ->
       delegate env t from_m to_m from to d bs tick expires parent nd
         = Done (t, to', Denied TableFull)).
Proof.
  intros Hok Hnext Hft Hexp Hparent Hd Hfrom Hto Hb Hown.
  assert (Hgrant : exists to' v0, Credo.grant env from_m to_m d bs = Done (to', Granted) /\
    v0 ∈ v :: env /\ cap_get to' d = Some (Z.lor v0 bs)).
  { unfold Credo.grant, Credo.is_empty. rewrite Hd, Hfrom, Hown. simpl.
    rewrite (proj2 (Z.eqb_neq _ _)) by done.
    destruct (CredoFacts.cas_loop_run env (fun cur => Z.lor cur bs) to_m d v Hd Hto)
      as (m' & -> & Hg & _). exists m', (CredoFacts.at_update v env).
    split_and!; [done|apply CredoFacts.at_update_elem|done]. }
  destruct Hgrant as (to' & v0 & Hg & Hin & Hrow).
  assert (Hguard : negb (parent =? 0) && negb (is_valid t parent tick) = false).
  { destruct Hparent as [->| ->]; [done|by rewrite andb_false_r]. }
  set (fl := if nd then NON_DELEGATABLE else FLAG_NONE).
  set (rec := mkGrantRecord from to d bs tick expires 0 parent fl).
  assert (Hrun : delegate env t from_m to_m from to d bs tick expires parent nd
    = match add t rec with
      | (t, Some g) => Done (t, to', DelegationGranted g)
      | (t, None) => Done (t, to', Denied TableFull)
      end).
  { unfold delegate. rewrite (proj2 (Z.eqb_neq from to)) by done.
    replace (negb (expires =? 0) && (expires <=? tick)) with false
      by (destruct Hexp; split_bool; lia).
    rewrite Hguard, Hg. reflexivity. }
  rewrite Hrun. destruct (Z.lt_ge_cases (used t) 256) as [Hu|Hu].
  - destruct (add_run t rec Hok Hnext Hu) as (t' & -> & Hok' & Hlive).
    + by apply (valid_parent t parent tick).
    + unfold rec, fl. simpl. by destruct nd.
    + exists t', to', v0. split_and!; [done|done| |lia]. intros _.
      split_and!; [done|done|]. exists (with_generation (next_gen t) rec).
      split_and!; [|done..]. apply Hlive. by left.
  - exists t, to', v0. rewrite add_full by done. split_and!; [done|done|lia|done].
Qed.

(** ** Reachable tables *)

(** No grant outlives the grant it was made from. *)
Definition parents_live (t : GrantTable) : Prop :=
  forall r, r ∈ live t -> parent_gen r = 0 \/ parent_gen r ∈ gens t.

Definition table_inv (t : GrantTable) : Prop := table_ok t /\ parents_live t.

Lemma mark_revoked_inv t g t' b :
  table_inv t -> g <> 0 -> mark_revoked t g = Done (t', b) -> table_inv t'.
Proof.
  intros [Hok Hpl] Hg Hrun.
  destruct (mark_revoked_run t g Hok Hg) as (t1 & b1 & H1 & Hok' & _ & _ & Hlive).
  rewrite Hrun in H1. injection H1 as <- <-. split; [done|]. intros r Hr.
  apply Hlive in Hr as (Hr & Hrg & Hrd).
  destruct (Hpl r Hr) as [|Hp]; [by left|]. right.
  apply list_elem_of_fmap in Hp as (p & Hp & Hpin). rewrite Hp.
  apply list_elem_of_fmap_2, Hlive. split_and!; [done| |].
  - intros Heq. apply Hrd. apply desc_child; [done|congruence].
  - intros Hd. apply Hrd. by eapply desc_step.
Qed.

Inductive reachable : GrantTable -> Prop :=
  | reach_new : reachable new
  | reach_delegate env t (from_m to_m : M) from to d bs tick expires parent nd t' to' res :
      reachable t -> next_gen t < U32_MAX ->
      delegate env t from_m to_m from to d bs tick expires parent nd = Done (t', to', res) ->
      reachable t'
  | reach_revoke env t (m : M) g t' m' b :
      reachable t -> revoke env t m g = Done (t', m', b) -> reachable t'
  | reach_revoke_all t pwm t' n :
      reachable t -> revoke_all_from t pwm = Done (t', n) -> reachable t'.

Lemma table_inv_new : table_inv new.
Proof.
  assert (Hl : live new = []) by reflexivity.
  split; [split; rewrite ?Hl|].
  - done.
  - unfold gens. rewrite Hl. apply NoDup_nil_2.
  - constructor.
  - constructor.
  - done.
  - unfold U32_MAX. simpl. lia.
  - intros r. rewrite Hl. by intros ?%not_elem_of_nil.
Qed.

Lemma delegate_inv env t (from_m to_m : M) from to d bs tick expires parent nd t' to' res :
  table_inv t -> next_gen t < U32_MAX ->
  delegate env t from_m to_m from to d bs tick expires parent nd = Done (t', to', res) ->
  table_inv t'.
Proof.
  intros [Hok Hpl] Hn. unfold delegate.
  case_match; [by intros [= <- _ _]|]. case_match; [by intros [= <- _ _]|].
  destruct (negb (parent =? 0) && negb (is_valid t parent tick)) eqn:Hp;
    [by intros [= <- _ _]|].
  destruct (Credo.grant env from_m to_m d bs) as [[m' gr]| |]; [|done..].
  cbn [mbind outcome_bind]. destruct gr; try by intros [= <- _ _].
  destruct (Z.lt_ge_cases (used t) 256) as [Hu|Hu].
  2: { rewrite add_full by done. by intros [= <- _ _]. }
  set (rec := mkGrantRecord from to d bs tick expires 0 parent
                (if nd then NON_DELEGATABLE else FLAG_NONE)).
  destruct (add_run t rec Hok Hn Hu) as (t1 & -> & Hok1 & Hlive).
  { by apply (valid_parent t parent tick). }
  { unfold rec. simpl. by destruct nd. }
  intros [= <- _ _]. split; [done|]. intros r [->|Hr]%Hlive.
  - simpl. destruct (Z.eqb_spec parent 0) as [|Hne]; [by left|]. right. simpl in Hp.
    unfold is_valid in Hp. destruct (get t parent) as [p|] eqn:Hg; [|done].
    apply get_live in Hg as [Hpin <-]; [|done]. apply list_elem_of_fmap_2, Hlive. by right.
  - destruct (Hpl r Hr) as [|Hpr]; [by left|right].
    apply list_elem_of_fmap in Hpr as (p & -> & Hpin). apply list_elem_of_fmap_2, Hlive.
    by right.
Qed.

Lemma revoke_all_inv gs t n t' n' :
  table_inv t -> Forall (fun g => g <> 0) gs ->
  fold_left revoke_one gs (Done (t, n)) = Done (t', n') -> table_inv t'.
Proof.
  intros Hinv Hgs. revert t n Hinv. induction Hgs as [|g gs Hg Hgs IH]; intros t n Hinv.
  { by intros [= <- _]. }
  cbn [fold_left]. unfold revoke_one at 2. cbn [mbind outcome_bind].
  destruct (mark_revoked_run t g (proj1 Hinv) Hg) as (t1 & b & Hm & _). rewrite Hm.
  cbn [mbind outcome_bind]. apply IH. by apply (mark_revoked_inv t g t1 b).
Qed.

(** Every table reached from the empty one by delegations, revocations and
    bulk revocations (before the 32-bit generation counter wraps) is well
    formed: generations in use are unique and below the counter, [used] counts
    them, no record in use is flagged as revoked, and no grant outlives the
    grant it was made from. *)
Theorem reachable_tables_ok t : reachable t -> table_inv t.
Proof.
  induction 1 as [|env t from_m to_m from to d bs tick expires parent nd t' to' res _ IH Hn Hrun
                  |env t m g t' m' b _ IH Hrun|t pwm t' n _ IH Hrun].
  - apply table_inv_new.
  - by eapply delegate_inv.
  - revert Hrun. unfold revoke. destruct (get t g) as [rec|] eqn:Hg;
      [|by intros [= <- _ _]].
    case_match; [by intros [= <- _ _]|].
    destruct (Credo.revoke env m (domain rec) (bits rec)) as [[m1 rr]| |]; [|done..].
    cbn [mbind outcome_bind].
    destruct (mark_revoked t g) as [[t1 b1]| |] eqn:Hm; [|done..].
    intros [= <- _ _]. eapply mark_revoked_inv; [done| |done]. intros ->. done.
  - eapply revoke_all_inv; [done| |exact Hrun]. apply Forall_fmap, Forall_forall.
    intros r Hr. apply list_elem_of_In, List.filter_In in Hr as [_ Hf].
    apply andb_true_iff in Hf as [Hf _]. unfold compose. lia.
Qed.

(** A delegation is never denied because its parent grant was made
    non-delegatable: the engine stores the flag but no call ever reports
    [NonDelegatable], whatever the table, the matrices and the arguments. *)
Theorem non_delegatable_never_enforced env t (from_m to_m : M) from to d bs tick expires parent nd t' to' :
  delegate env t from_m to_m from to d bs tick expires parent nd
    <> Done (t', to', Denied NonDelegatable).
Proof.
  unfold delegate. repeat (case_match; [done|]).
  destruct (Credo.grant env from_m to_m d bs) as [[m' []]| |]; cbn [mbind outcome_bind];
    try done. destruct (add t _) as [t1 [g|]]; done.
Qed.
End engine.

(** ** Witnesses *)

Import CredoFacts.

(** Holder 1 grants to 2, and 2 passes the grant on to 3. *)
Definition grant_rec (from to parent : Z) : GrantRecord :=
  mkGrantRecord from to FS 8 100 0 0 parent FLAG_NONE.
Definition chain_table : GrantTable :=
  fst (add (fst (add new (grant_rec 1 2 0))) (grant_rec 2 3 1)).

Lemma chain_reachable : reachable (M := InMemoryMatrix) chain_table.
Proof.
  set (m := replicate 16 255 : InMemoryMatrix).
  eapply (reach_delegate [] (fst (add new (grant_rec 1 2 0))) m m 2 3 FS 8 100 0 1 false);
    [|vm_compute; reflexivity|vm_compute; reflexivity].
  eapply (reach_delegate [] new m m 1 2 FS 8 100 0 0 false);
    [constructor|vm_compute; reflexivity|vm_compute; reflexivity].
Qed.

Lemma chain_table_ok : table_ok chain_table.
Proof.
  assert (Hl : live chain_table = [with_generation 1 (grant_rec 1 2 0);
                                   with_generation 2 (grant_rec 2 3 1)]) by reflexivity.
  split; rewrite ?Hl.
  - reflexivity.
  - unfold gens. rewrite Hl. apply (bool_decide_unpack (NoDup _)). reflexivity.
  - repeat (constructor; [vm_compute; split_and!; congruence || reflexivity|]). constructor.
  - repeat (constructor; [reflexivity|]). constructor.
  - reflexivity.
  - vm_compute. split; congruence || reflexivity.
Qed.

Lemma mark_revoked_exact_witness :
  exists t' b, mark_revoked chain_table 1 = Done (t', b) /\ table_ok t' /\
    (b = true <-> 1 ∈ gens chain_table \/ exists x, descendant chain_table 1 x).
Proof.
  destruct (mark_revoked_exact chain_table 1 chain_table_ok) as (t' & b & H1 & H2 & H3 & _);
    [discriminate|].
  exists t', b. split; [exact H1|]. split; [exact H2|exact H3].
Defined.

Lemma reachable_tables_ok_witness : table_inv chain_table.
Proof. exact (reachable_tables_ok (M := InMemoryMatrix) chain_table chain_reachable). Defined.

Lemma delegate_full_table_leaks_witness :
  exists t' to' v0, v0 ∈ [0] /\ cap_get to' FS = Some (Z.lor v0 8) /\
    delegate [] chain_table (replicate 16 255 : InMemoryMatrix) new_matrix 1 4 FS 8 100 0 1
      false = Done (t', to', DelegationGranted 3).
Proof.
  destruct (delegate_full_table_leaks [] chain_table (replicate 16 255 : InMemoryMatrix)
              new_matrix 1 4 FS 8 100 0 1 false 255 0)
    as (t' & to' & v0 & H1 & H2 & H3 & _).
  - exact chain_table_ok.
  - reflexivity.
  - discriminate.
  - by left.
  - right. reflexivity.
  - reflexivity.
  - reflexivity.
  - reflexivity.
  - discriminate.
  - reflexivity.
  - exists t', to', v0. split; [exact H1|]. split; [exact H2|].
    apply H3. reflexivity.
Defined.

End GrantsFacts.
