(* ===== verification/Policy.v ===== *)
(** * Recovery policy

    Model of the policy side of recovery in [src/kernel/services/barrier/]:
    fault attribution and capability downgrade ([attribution.rs]), the choice of
    a recovery action ([recovery_policy.rs]), the topology and the cascade plan
    ([cascade.rs]) and the health monitor ([health_monitor.rs]).  Names of
    address ranges and domains are byte strings; the names of topology nodes are
    used for display only and left out.

    The theorems: attribution by address, what a handled failure does to the
    capabilities of the failing domain ([handle_overwrites_capabilities]), which
    domains a healthy monitor reports ([monitor_reports_silent_domains]) and the
    order of a cascade ([cascade_order_root_first]). *)

From S2P Require Import Prelude Credo.

Module Policy.

(** ** Attribution *)

Inductive TcbModule := Barrier | CredoModule | Memory | Sync | Idt | Other.

Inductive FaultAttribution :=
  | Service (domain_id : Z) (recoverable : bool)
  | Tcb (module : TcbModule)
  | CrossLayer (caller : Z) (callee : TcbModule)
  | Unknown.

(** The inner loop: does the haystack start with the needle? *)
Fixpoint starts_with (needle haystack : list Z) : bool :=
  match needle, haystack with
  | [], _ => true
  | _, [] => false
  | a :: needle, b :: haystack => (b =? a) && starts_with needle haystack
  end.

(** The outer loop over the start positions. *)
Fixpoint contains_from (needle haystack : list Z) : bool :=
  starts_with needle haystack ||
  match haystack with
  | [] => false
  | _ :: haystack => contains_from needle haystack
  end.

Definition contains_substr (haystack needle : list Z) : bool :=
  match needle with
  | [] => true
  | _ => if (length haystack <? length needle)%nat then false
         else contains_from needle haystack
  end.

(** "barrier", "credo", "mm", "pmm", "sync", "idt". *)
Definition str_barrier : list Z := [98; 97; 114; 114; 105; 101; 114].
Definition str_credo : list Z := [99; 114; 101; 100; 111].
Definition str_mm : list Z := [109; 109].
Definition str_pmm : list Z := [112; 109; 109].
Definition str_sync : list Z := [115; 121; 110; 99].
Definition str_idt : list Z := [105; 100; 116].

Definition tcb_from_name (name : list Z) : TcbModule :=
  if contains_substr name str_barrier then Barrier
  else if contains_substr name str_credo then CredoModule
  else if contains_substr name str_mm || contains_substr name str_pmm then Memory
  else if contains_substr name str_sync then Sync
  else if contains_substr name str_idt then Idt
  else Other.

Record AddrRange := mkAddrRange {
  start : Z;
  end_ : Z;
  name : list Z;
}.

Definition range_contains (r : AddrRange) (addr : Z) : bool :=
  (start r <=? addr) && (addr <? end_ r).

(** "services::" and "framework::". *)
Definition str_services : list Z := [115; 101; 114; 118; 105; 99; 101; 115; 58; 58].
Definition str_framework : list Z := [102; 114; 97; 109; 101; 119; 111; 114; 107; 58; 58].

Definition SERVICE_RANGES : list AddrRange :=
  [mkAddrRange 0xFFFFFFFF00000000 0xFFFFFFFF10000000 (str_services ++ str_credo);
   mkAddrRange 0xFFFFFFFF10000000 0xFFFFFFFF20000000 (str_services ++ [102; 115]);
   mkAddrRange 0xFFFFFFFF20000000 0xFFFFFFFF30000000 (str_services ++ [110; 101; 116]);
   mkAddrRange 0xFFFFFFFF30000000 0xFFFFFFFF40000000
     (str_services ++ [112; 114; 111; 99])].

Definition TCB_RANGES : list AddrRange :=
  [mkAddrRange 0xFFFFFFFF80000000 0xFFFFFFFF80010000 (str_framework ++ str_barrier);
   mkAddrRange 0xFFFFFFFF80010000 0xFFFFFFFF80020000 (str_framework ++ str_credo);
   mkAddrRange 0xFFFFFFFF80020000 0xFFFFFFFF80030000 (str_framework ++ str_mm);
   mkAddrRange 0xFFFFFFFF80030000 0xFFFFFFFF80040000 (str_framework ++ str_sync);
   mkAddrRange 0xFFFFFFFF80040000 0xFFFFFFFF80050000 (str_framework ++ str_idt)].

Definition attribute (panic_rip : Z) : FaultAttribution :=
  match find_first (fun r => range_contains r panic_rip) TCB_RANGES with
  | Some r => Tcb (tcb_from_name (name r))
  | None =>
      match find_first (fun r => range_contains r panic_rip) SERVICE_RANGES with
      | Some _ => Service (Z.land (Z.shiftr panic_rip 12) 0xFFFF) true
      | None => Unknown
      end
  end.

Definition attribute_cross (caller_id callee_panic_rip : Z) : FaultAttribution :=
  match find_first (fun r => range_contains r callee_panic_rip) TCB_RANGES with
  | Some r => CrossLayer caller_id (tcb_from_name (name r))
  | None => attribute callee_panic_rip
  end.

(** ** Failure records and downgrade *)

Record DomainFailureRecord := mkFailureRecord {
  fr_domain_id : Z;
  fr_consecutive : Z;
  fr_total : Z;
  fr_last_tick : Z;
  fr_downgraded : Z;
  fr_tier : Z;
}.

Definition new_record (domain_id : Z) : DomainFailureRecord :=
  mkFailureRecord domain_id 0 0 0 0 0.

Definition record_failure (r : DomainFailureRecord)
    (current_tick heartbeat_gap dependents : Z) : DomainFailureRecord * Z :=
  let total := wrap_u64 (fr_total r + 1) in
  let n := wrap_u32 (fr_consecutive r + 1) in
  let base := if 5 <=? n then 2 else if 3 <=? n then 1 else 0 in
  let hb_escalate := if 500 <? heartbeat_gap then 1 else 0 in
  let dep_escalate := if (0 <? dependents) && (3 <=? n) then 1 else 0 in
  let new_tier := Z.min (Z.max (Z.max base hb_escalate) dep_escalate) 2 in
  let old := fr_tier r in
  if old <? new_tier
  then (mkFailureRecord (fr_domain_id r) n total current_tick
          (wrap_u32 (fr_downgraded r + 1)) new_tier, new_tier)
  else (mkFailureRecord (fr_domain_id r) n total current_tick (fr_downgraded r) old, new_tier).

Definition record_success (r : DomainFailureRecord) : DomainFailureRecord :=
  mkFailureRecord (fr_domain_id r) 0 (fr_total r) (fr_last_tick r) (fr_downgraded r)
    (if 0 <? fr_tier r then fr_tier r - 1 else fr_tier r).

Definition downgrade_for_tier (tier : Z) : Z :=
  match tier with
  | 0 => Credo.ALL
  | 1 => 0xFFFFFFFFFFFFFFFE
  | 2 => 0xFFFFFFFFFFFFFFFC
  | _ => Credo.NONE
  end.

Definition MAX_SERVICE_DOMAINS : nat := 16.

(** [CrossLayerHandler::handle]: the failure is recorded and the row of the
    capability matrix overwritten. *)
Definition handle {M} `{Credo.CapabilityMatrix M} (matrix : M)
    (records : list DomainFailureRecord) (current_tick domain_id : Z)
    : outcome (M * list DomainFailureRecord * Z) :=
  let idx := (Z.to_nat (domain_id mod Z.of_nat MAX_SERVICE_DOMAINS))%nat in
  match records !! idx with
  | Some rec =>
      let '(rec, new_tier) := record_failure rec current_tick 0 0 in
      let target := downgrade_for_tier new_tier in
      Done (fst (Credo.cap_set matrix idx target), <[idx := rec]> records, new_tier)
  | None => Panic
  end.

(** ** Choice of the action *)

Inductive RecoveryAction :=
  | Noop
  | BarrierBaseRecovery
  | BarrierSoftReset
  | BarrierHardReset
  | Quarantine.

Definition to_framework_layer (a : RecoveryAction) : option Z :=
  match a with
  | BarrierBaseRecovery => Some 1
  | BarrierSoftReset => Some 2
  | BarrierHardReset => Some 3
  | Noop | Quarantine => None
  end.

Definition is_hardware_reset (a : RecoveryAction) : bool :=
  match a with BarrierHardReset => true | _ => false end.

Record FaultSignal := mkFaultSignal {
  attribution : FaultAttribution;
  retry_count : Z;
  heartbeat_gap : Z;
  dependents : Z;
  tick_ : Z;
}.

Definition service (domain_id retry gap deps t : Z) : FaultSignal :=
  mkFaultSignal (Service domain_id true) retry gap deps t.
Definition tcb (m : TcbModule) (t : Z) : FaultSignal := mkFaultSignal (Tcb m) 0 0 0 t.
Definition cross_layer (caller : Z) (m : TcbModule) (t : Z) : FaultSignal :=
  mkFaultSignal (CrossLayer caller m) 0 0 0 t.

Definition decide_service (s : FaultSignal) : RecoveryAction :=
  if 500 <? heartbeat_gap s then BarrierSoftReset
  else if retry_count s =? 0 then Noop
  else if retry_count s <=? 2 then
    (if dependents s =? 0 then BarrierBaseRecovery else BarrierSoftReset)
  else if retry_count s <=? 4 then BarrierSoftReset
  else Quarantine.

Definition decide (s : FaultSignal) : RecoveryAction :=
  match attribution s with
  | Tcb _ => BarrierHardReset
  | CrossLayer _ _ => if 0 <? dependents s then BarrierBaseRecovery else BarrierSoftReset
  | Service _ false => Quarantine
  | Service _ true | Unknown => decide_service s
  end.

(** ** Health monitor *)

Definition MAX_MONITOR_DOMAINS : nat := 16.

Record DomainHealth := mkDomainHealth {
  h_domain_id : Z;
  h_failures : Z;
  h_tier : Z;
  h_healthy : bool;
  h_tick : Z;
}.

Definition unknown_health (domain_id : Z) : DomainHealth := mkDomainHealth domain_id 0 0 true 0.

Definition to_fault_signal (h : DomainHealth) (gap deps : Z) : FaultSignal :=
  mkFaultSignal (Service (h_domain_id h) true) (h_failures h) gap deps (h_tick h).

Record HealthMonitor := mkHealthMonitor {
  m_records : list DomainFailureRecord;
  m_snapshots : list DomainHealth;
  check_interval_ticks : Z;
  last_check_tick : Z;
}.

Definition new_monitor (records : list DomainFailureRecord) : HealthMonitor :=
  mkHealthMonitor records (replicate MAX_MONITOR_DOMAINS (unknown_health 0)) 100 0.

Inductive MonitorAction :=
  | MonitorNoop
  | RecoverBatch (count : nat)
  | QuarantineBatch (count : nat).

Definition health_of (current_tick : Z) (rec : DomainFailureRecord) : DomainHealth :=
  mkDomainHealth (fr_domain_id rec) (fr_consecutive rec) (fr_tier rec)
    (fr_tier rec <? 2) current_tick.

(** The action chosen for one record at a tick. *)
Definition monitor_decision (current_tick : Z) (rec : DomainFailureRecord) : RecoveryAction :=
  decide (to_fault_signal (health_of current_tick rec)
            (sat_sub current_tick (fr_last_tick rec)) 0).

(** One iteration for the record at index [i]; the state is the snapshots and the
    two counters. *)
Definition monitor_record (current_tick : Z) (acc : list DomainHealth * nat * nat)
    (ir : nat * DomainFailureRecord) : list DomainHealth * nat * nat :=
  let '(snaps, quarantines, downgrades) := acc in
  let '(i, rec) := ir in
  let snaps := <[i := health_of current_tick rec]> snaps in
  match monitor_decision current_tick rec with
  | Quarantine => (snaps, S quarantines, downgrades)
  | BarrierSoftReset | BarrierBaseRecovery => (snaps, quarantines, S downgrades)
  | _ => (snaps, quarantines, downgrades)
  end.

Definition monitor_tick (m : HealthMonitor) (current_tick : Z)
    : HealthMonitor * MonitorAction :=
  if current_tick <? wrap_u64 (last_check_tick m + check_interval_ticks m)
  then (m, MonitorNoop)
  else
    let todo := imap pair (take MAX_MONITOR_DOMAINS (m_records m)) in
    let '(snaps, quarantines, downgrades) :=
      fold_left (monitor_record current_tick) todo (m_snapshots m, 0%nat, 0%nat) in
    (mkHealthMonitor (m_records m) snaps (check_interval_ticks m) current_tick,
     if (0 <? quarantines)%nat then QuarantineBatch quarantines
     else if (0 <? downgrades)%nat then RecoverBatch downgrades
     else MonitorNoop).

Definition has_domain (domain_id : Z) (r : DomainFailureRecord) : bool :=
  fr_domain_id r =? domain_id.

Definition report_success (records : list DomainFailureRecord) (domain_id : Z)
    : list DomainFailureRecord :=
  match position (has_domain domain_id) records with
  | Some i => alter record_success i records
  | None => records
  end.

Definition report_failure (records : list DomainFailureRecord) (domain_id tick : Z)
    : list DomainFailureRecord * Z :=
  match position (has_domain domain_id) records with
  | Some i =>
      match records !! i with
      | Some rec =>
          let gap := sat_sub tick (fr_last_tick rec) in
          let '(rec, tier) := record_failure rec tick gap 0 in
          (<[i := rec]> records, tier)
      | None => (records, 0)
      end
  | None => (records, 0)
  end.

(** ** Topology *)

Definition MAX_TOPOLOGY_DOMAINS : nat := 16.

Record DomainNode := mkDomainNode {
  node_id : Z;
  parent : option Z;
  children_count : Z;
}.

Definition empty_node : DomainNode := mkDomainNode 0 None 0.

Record DomainTopology := mkDomainTopology {
  nodes : list DomainNode;
  count : nat;
}.

Definition new_topology : DomainTopology :=
  mkDomainTopology (replicate MAX_TOPOLOGY_DOMAINS empty_node) 0.

Definition node_is (i : Z) (n : DomainNode) : bool := node_id n =? i.
Definition child_of (i : Z) (n : DomainNode) : bool := bool_decide (parent n = Some i).

Definition present (t : DomainTopology) : list DomainNode := take (count t) (nodes t).

Definition more_children (n : DomainNode) : DomainNode :=
  mkDomainNode (node_id n) (parent n) (wrap_u32 (children_count n + 1)).

Definition add (t : DomainTopology) (i : Z) (par : option Z) : DomainTopology * bool :=
  if (MAX_TOPOLOGY_DOMAINS <=? count t)%nat then (t, false)
  else if existsb (node_is i) (present t) then (t, false)
  else
    let ns := match par with
              | Some pid =>
                  match position (node_is pid) (present t) with
                  | Some k => alter more_children k (nodes t)
                  | None => nodes t
                  end
              | None => nodes t
              end in
    (mkDomainTopology (<[count t := mkDomainNode i par 0]> ns) (S (count t)), true).

Definition find (t : DomainTopology) (i : Z) : option DomainNode :=
  find_first (node_is i) (present t).

(** [CascadeQueue]. *)
Record CascadeQueue := mkCascadeQueue {
  order : list Z;
  q_count : nat;
}.

Definition new_queue : CascadeQueue :=
  mkCascadeQueue (replicate MAX_TOPOLOGY_DOMAINS 0) 0.

Definition push (q : CascadeQueue) (i : Z) : CascadeQueue :=
  if (q_count q <? MAX_TOPOLOGY_DOMAINS)%nat
  then mkCascadeQueue (<[q_count q := i]> (order q)) (S (q_count q))
  else q.

Definition push_children (t : DomainTopology) (root_id : Z) (q : CascadeQueue) : CascadeQueue :=
  fold_left (fun q n => if child_of root_id n then push q (node_id n) else q) (present t) q.

Definition bottom_up_order (t : DomainTopology) (root_id : Z) : CascadeQueue :=
  let q := match find t root_id with
           | Some root => push new_queue (node_id root)
           | None => new_queue
           end in
  push_children t root_id q.

Definition top_down_order (t : DomainTopology) (root_id : Z) : CascadeQueue :=
  match find t root_id with
  | Some root => push_children t root_id (push new_queue (node_id root))
  | None => new_queue
  end.

Inductive CascadeDirection := BottomUp | TopDown | Isolated.

Definition direction (a : FaultAttribution) (t : DomainTopology) (failed_id : Z)
    : CascadeDirection :=
  match a with
  | Tcb _ => Isolated
  | CrossLayer _ _ => Isolated
  | Service _ false => Isolated
  | Service _ true | Unknown =>
      match find t failed_id with
      | Some n => if children_count n =? 0 then BottomUp else TopDown
      | None => BottomUp
      end
  end.

Definition signal_domain_id (s : FaultSignal) : Z :=
  match attribution s with
  | Service i _ => i
  | _ => 0
  end.

Record CascadePlan := mkCascadePlan {
  action : RecoveryAction;
  plan_direction : CascadeDirection;
  queue : CascadeQueue;
}.

Definition orchestrate (s : FaultSignal) (t : DomainTopology) : CascadePlan :=
  let dir := direction (attribution s) t (signal_domain_id s) in
  mkCascadePlan (decide s) dir
    (match dir with
     | BottomUp => bottom_up_order t (signal_domain_id s)
     | TopDown => top_down_order t (signal_domain_id s)
     | Isolated => new_queue
     end).

End Policy.

Module PolicyFacts.
Import Policy.

(** ** Attribution *)

Definition TCB_BASE : Z := 0xFFFFFFFF80000000.
Definition SERVICE_BASE : Z := 0xFFFFFFFF00000000.

(** The modules in the order of their 64 KiB blocks. *)
Definition tcb_block (k : Z) : TcbModule :=
  nth (Z.to_nat k) [Barrier; CredoModule; Memory; Sync; Idt] Other.

Ltac walk_ranges :=
  rewrite ?find_first_cons, ?find_first_nil; unfold range_contains; cbn [start end_].

(** Faults are attributed by address alone: an address in the five 64 KiB
    blocks of the trusted base gives the module of its block, an address in the
    1 GiB service area gives a recoverable service fault, and any other address
    is unknown.  The service domain is the page number of the faulting
    instruction modulo 65536, not the service: pages of one service map to
    different domains. *)
Theorem attribute_by_address rip :
  (TCB_BASE <= rip < TCB_BASE + 0x50000 ->
     attribute rip = Tcb (tcb_block ((rip - TCB_BASE) / 0x10000))) /\
  (SERVICE_BASE <= rip < SERVICE_BASE + 0x40000000 ->
     attribute rip = Service ((rip / 4096) mod 65536) true) /\
  (~ TCB_BASE <= rip < TCB_BASE + 0x50000 ->
   ~ SERVICE_BASE <= rip < SERVICE_BASE + 0x40000000 -> attribute rip = Unknown).
Proof.
  unfold TCB_BASE, SERVICE_BASE, attribute, TCB_RANGES, SERVICE_RANGES. split_and!.
  - intros Hr.
    assert (Hk : exists k, rip - 0xFFFFFFFF80000000 = 0x10000 * k + (rip - 0xFFFFFFFF80000000) mod 0x10000
                 /\ (rip - 0xFFFFFFFF80000000) / 0x10000 = k /\ 0 <= k < 5).
    { eexists. split_and!; [apply Z.div_mod; lia|done|apply Z.div_pos; lia|].
      apply Z.div_lt_upper_bound; lia. }
    destruct Hk as (k & Hk & -> & Hk5).
    pose proof (Z.mod_pos_bound (rip - 0xFFFFFFFF80000000) 0x10000).
    walk_ranges.
    assert (Hc : k = 0 \/ k = 1 \/ k = 2 \/ k = 3 \/ k = 4) by lia.
    destruct Hc as [-> | [-> | [-> | [-> | ->]]]]; decide_bool; reflexivity.
  - intros Hr. walk_ranges.
    replace (Z.land (Z.shiftr rip 12) 65535) with ((rip / 4096) mod 65536).
    + destruct (Z.lt_ge_cases rip 0xFFFFFFFF10000000); [decide_bool; reflexivity|].
      destruct (Z.lt_ge_cases rip 0xFFFFFFFF20000000); [decide_bool; reflexivity|].
      destruct (Z.lt_ge_cases rip 0xFFFFFFFF30000000); decide_bool; reflexivity.
    + rewrite Z.shiftr_div_pow2 by lia. change 65535 with (Z.ones 16).
      rewrite Z.land_ones by lia. done.
  - intros H1 H2. walk_ranges.
    destruct (Z.lt_ge_cases rip 0xFFFFFFFF00000000); [decide_bool; reflexivity|].
    destruct (Z.lt_ge_cases rip 0xFFFFFFFF80000000); decide_bool; reflexivity.
Qed.

(** ** Downgrade *)

Section handle.
Context {M : Type} `{CredoFacts.MatrixLaws M}.

(** The capabilities written for the [n]-th consecutive failure. *)
Definition capabilities_after (n : Z) : Z :=
  if n <? 3 then Credo.ALL
  else if n <? 5 then 0xFFFFFFFFFFFFFFFE
  else 0xFFFFFFFFFFFFFFFC.

(** Handling a failure overwrites the capability row of the failing domain
    (the domain number modulo 16): up to the second consecutive failure the
    domain receives every capability, whatever it held before; from the third
    on bit 0, and from the fifth on bits 0 and 1, are withheld.  No other row
    changes. *)
Theorem handle_overwrites_capabilities (matrix : M) records tick i rec :
  let idx := Z.to_nat (i mod 16) in
  0 <= i -> records !! idx = Some rec -> 0 <= fr_consecutive rec < U32_MAX ->
  Credo.cap_get matrix idx <> None ->
  exists m' records' tier,
    handle matrix records tick i = Done (m', records', tier) /\
    Credo.cap_get m' idx = Some (capabilities_after (fr_consecutive rec + 1)) /\
    (forall d, d <> idx -> Credo.cap_get m' d = Credo.cap_get matrix d) /\
    exists rec', records' !! idx = Some rec' /\
      fr_consecutive rec' = fr_consecutive rec + 1 /\ fr_tier rec <= fr_tier rec'.
Proof.
  intros idx Hi Hrec Hc Hget. unfold handle.
  change (Z.of_nat MAX_SERVICE_DOMAINS) with 16. fold idx. rewrite Hrec.
  assert (Hvalid : Credo.is_valid idx = true).
  { unfold Credo.is_valid, Credo.CAP_DOMAINS. apply Nat.ltb_lt. unfold idx.
    pose proof (Z.mod_pos_bound i 16). lia. }
  unfold record_failure. rewrite (wrap_u32_small (fr_consecutive rec + 1))
    by (unfold u32; lia).
  set (n := fr_consecutive rec + 1). cbn zeta.
  set (tier := Z.min _ 2).
  assert (Ht : downgrade_for_tier tier = capabilities_after n).
  { unfold tier, capabilities_after. split_bool; try lia; reflexivity. }
  destruct (Z.ltb_spec (fr_tier rec) tier) as [Hlt|Hge];
    (do 3 eexists; split; [reflexivity|]; rewrite Ht; split_and!;
     [by apply CredoFacts.set_get|intros d Hd; by apply CredoFacts.set_get_ne|]);
    (eexists; split; [apply list_lookup_insert_eq; by eapply lookup_lt_Some|]);
    simpl; lia.
Qed.
End handle.

(** ** Health monitor *)

Definition silent (t : Z) (r : DomainFailureRecord) : bool :=
  500 <? sat_sub t (fr_last_tick r).

Definition to_quarantine (t : Z) (r : DomainFailureRecord) : bool :=
  negb (silent t r) && (5 <=? fr_consecutive r).

Definition to_recover (t : Z) (r : DomainFailureRecord) : bool :=
  silent t r || ((1 <=? fr_consecutive r) && (fr_consecutive r <=? 4)).

Lemma monitor_loop_run t recs k snaps q d :
  Forall (fun r => 0 <= fr_consecutive r) recs ->
  exists snaps',
    fold_left (monitor_record t) (imap (fun i r => ((k + i)%nat, r)) recs) (snaps, q, d)
    = (snaps', (q + count_if (to_quarantine t) recs)%nat,
       (d + count_if (to_recover t) recs)%nat).
Proof.
  intros Hf. revert k snaps q d. induction Hf as [|r recs Hr Hf IH]; intros k snaps q d.
  { exists snaps. unfold count_if. simpl. by rewrite !Nat.add_0_r. }
  rewrite imap_cons. cbn [fold_left].
  assert (Hext : imap ((fun i r => ((k + i)%nat, r)) ∘ S) recs
                 = imap (fun i r => ((S k + i)%nat, r)) recs).
  { apply imap_ext. intros i x _. simpl. f_equal. lia. }
  rewrite Hext. unfold monitor_record at 2. unfold count_if. cbn [List.filter].
  unfold to_quarantine at 1, to_recover at 1, silent at 1 2, monitor_decision.
  unfold decide, decide_service. cbn [attribution to_fault_signal health_of
    heartbeat_gap retry_count dependents h_failures].
  destruct (Z.ltb_spec 500 (sat_sub t (fr_last_tick r))); cbn [negb andb orb];
    [|destruct (Z.eqb_spec (fr_consecutive r) 0);
      [|destruct (Z.leb_spec (fr_consecutive r) 2);
        [|destruct (Z.leb_spec (fr_consecutive r) 4)]]];
    split_bool; try lia;
    (match goal with
     | |- exists snaps', fold_left _ _ (?sn, ?q', ?d') = _ =>
         destruct (IH (S k) sn q' d') as [snaps' Hs]; exists snaps'; rewrite Hs
     end; unfold count_if; simpl;
     match goal with
     | |- (_, ?a, ?b) = (_, ?a', ?b') =>
         replace a' with a by lia; replace b' with b by lia; reflexivity
     end).
Qed.

(** A due check of the monitor reports the number of domains to quarantine
    if there is one, else the number of domains to recover, counted over the
    first 16 records, where a domain is to be quarantined when it failed at
    least five times in a row and last failed at most 500 ticks ago, and to be
    recovered when it failed one to four times or its last failure is more than
    500 ticks past.  So once 500 ticks have passed every domain that never
    failed is reported for recovery. *)
Theorem monitor_reports_silent_domains m t :
  Forall (fun r => 0 <= fr_consecutive r) (m_records m) ->
  wrap_u64 (last_check_tick m + check_interval_ticks m) <= t ->
  let recs := take MAX_MONITOR_DOMAINS (m_records m) in
  let Q := count_if (to_quarantine t) recs in
  let D := count_if (to_recover t) recs in
  snd (monitor_tick m t) =
    (if (0 <? Q)%nat then QuarantineBatch Q
     else if (0 <? D)%nat then RecoverBatch D else MonitorNoop) /\
  (500 < t -> m_records m <> [] ->
   Forall (fun r => fr_consecutive r = 0 /\ fr_last_tick r = 0) (m_records m) ->
   snd (monitor_tick m t) = RecoverBatch (length recs)).
Proof.
  intros Hf Hdue. cbn zeta. set (recs := take MAX_MONITOR_DOMAINS (m_records m)).
  assert (Hfr : Forall (fun r => 0 <= fr_consecutive r) recs) by by apply Forall_take.
  assert (Hrun : snd (monitor_tick m t) =
    (if (0 <? count_if (to_quarantine t) recs)%nat
     then QuarantineBatch (count_if (to_quarantine t) recs)
     else if (0 <? count_if (to_recover t) recs)%nat
          then RecoverBatch (count_if (to_recover t) recs) else MonitorNoop)).
  { unfold monitor_tick. rewrite (proj2 (Z.ltb_ge _ _)) by done. fold recs.
    destruct (monitor_loop_run t recs 0 (m_snapshots m) 0 0 Hfr) as [snaps' Hs].
    assert (Hi : imap (fun i r => ((0 + i)%nat, r)) recs = imap pair recs) by done.
    rewrite Hi in Hs. by rewrite Hs. }
  split; [done|]. intros Ht Hne Hnever. rewrite Hrun.
  assert (Hcounts : count_if (to_quarantine t) recs = 0%nat /\
                    count_if (to_recover t) recs = length recs).
  { assert (Hn : Forall (fun r => fr_consecutive r = 0 /\ fr_last_tick r = 0) recs)
      by by apply Forall_take.
    clear -Hn Ht. unfold count_if.
    induction Hn as [|r l [Hc Hl] Hn [IH1 IH2]]; [done|]. cbn [List.filter].
    assert (Hs : silent t r = true)
      by (unfold silent, sat_sub; rewrite Hl; decide_bool; done).
    unfold to_quarantine at 1, to_recover at 1. rewrite Hs. simpl. by rewrite IH2. }
  destruct Hcounts as [-> ->]. simpl. unfold recs. destruct (m_records m); done.
Qed.

(** ** Cascades *)

(** The ids in a queue. *)
Definition queued (q : CascadeQueue) : list Z := take (q_count q) (order q).

Definition queue_ok (q : CascadeQueue) : Prop :=
  length (order q) = MAX_TOPOLOGY_DOMAINS /\ (q_count q <= MAX_TOPOLOGY_DOMAINS)%nat.

Lemma push_run q i :
  queue_ok q ->
  queue_ok (push q i) /\ queued (push q i) = take MAX_TOPOLOGY_DOMAINS (queued q ++ [i]).
Proof.
  intros [Hl Hc]. unfold push. destruct (Nat.ltb_spec (q_count q) MAX_TOPOLOGY_DOMAINS).
  - split; [split; simpl; [by rewrite length_insert|lia]|]. unfold queued. simpl.
    rewrite (take_S_r _ _ i) by (apply list_lookup_insert_eq; lia).
    rewrite take_insert_ge by done. symmetry. apply take_ge.
    rewrite length_app, length_take. simpl. lia.
  - split; [done|]. unfold queued.
    rewrite take_app_le by (rewrite length_take; lia). rewrite take_take.
    f_equal. lia.
Qed.

Lemma take_take_app {A} k (a b : list A) : take k (take k a ++ b) = take k (a ++ b).
Proof.
  destruct (Nat.le_gt_cases k (length a)).
  - rewrite !take_app_le by (rewrite ?length_take; lia). by rewrite take_take, Nat.min_id.
  - by rewrite (take_ge a) by lia.
Qed.

Lemma push_children_run t root q :
  queue_ok q ->
  queued (push_children t root q)
    = take MAX_TOPOLOGY_DOMAINS
        (queued q ++ (node_id <$> List.filter (child_of root) (present t))).
Proof.
  unfold push_children. revert q. induction (present t) as [|n l IH]; intros q Hq; simpl.
  - rewrite app_nil_r. unfold queued. destruct Hq. rewrite take_take. f_equal. lia.
  - destruct (child_of root n); [|by apply IH].
    destruct (push_run q (node_id n) Hq) as [Hq' Hp]. rewrite IH, Hp by done.
    by rewrite take_take_app, <- app_assoc.
Qed.

Definition topology_ok (t : DomainTopology) : Prop :=
  length (nodes t) = MAX_TOPOLOGY_DOMAINS /\ (count t <= MAX_TOPOLOGY_DOMAINS)%nat /\
  NoDup (node_id <$> present t).

Lemma alter_more_children k ns :
  length (alter more_children k ns) = length ns /\
  forall n, node_id <$> take n (alter more_children k ns) = node_id <$> take n ns.
Proof.
  split; [apply length_alter|]. intros n. rewrite !fmap_take. f_equal.
  revert k. induction ns as [|x ns IH]; intros [|k]; [done..|].
  cbn [alter list_alter fmap list_fmap]. by rewrite IH.
Qed.

Lemma add_ok t i p : topology_ok t -> topology_ok (fst (add t i p)).
Proof.
  intros (Hl & Hc & Hnd). unfold add.
  destruct (Nat.leb_spec MAX_TOPOLOGY_DOMAINS (count t)); [done|].
  destruct (existsb (node_is i) (present t)) eqn:Hex; [done|]. simpl.
  set (ns := match p with Some _ => _ | None => _ end).
  assert (Hns : length ns = length (nodes t) /\
                forall n, node_id <$> take n ns = node_id <$> take n (nodes t)).
  { unfold ns. destruct p as [pid|]; [|done].
    destruct (position _ _) as [k|]; [apply alter_more_children|done]. }
  destruct Hns as [Hlen Hids]. split_and!; simpl; [by rewrite length_insert, Hlen|lia|].
  unfold present. simpl.
  rewrite (take_S_r _ _ (mkDomainNode i p 0)) by (apply list_lookup_insert_eq; lia).
  rewrite take_insert_ge, fmap_app, Hids by done. apply NoDup_app.
  split_and!; [done| |apply NoDup_singleton].
  intros x Hx ->%list_elem_of_singleton. simpl in Hx.
  apply list_elem_of_fmap in Hx as (n & Hn & Hin).
  assert (existsb (node_is i) (present t) = true); [|congruence].
  apply existsb_exists. exists n. split; [by apply list_elem_of_In|].
  unfold node_is. lia.
Qed.

(** The topology built by a sequence of additions. *)
Definition build (adds : list (Z * option Z)) : DomainTopology :=
  fold_left (fun t '(i, p) => fst (add t i p)) adds new_topology.

Lemma build_ok adds : topology_ok (build adds).
Proof.
  apply (fold_left_inv topology_ok).
  - intros t [i p] _. apply add_ok.
  - split_and!; [done|vm_compute; lia|apply NoDup_nil_2].
Qed.

Lemma find_node t i n : find t i = Some n -> node_id n = i /\ n ∈ present t.
Proof.
  unfold find, find_first. destruct (position _ _) as [k|] eqn:Hp; [|done].
  apply position_Some in Hp as (x & Hx & Hi & _). rewrite Hx. intros [= <-].
  unfold node_is in Hi. split; [lia|by eapply list_elem_of_lookup_2].
Qed.

(** In every topology built by [add], ids are unique, and the cascade
    queue of a known domain is the domain itself followed by its children in
    the order of their registration (cut at 16 entries), in the bottom-up
    direction exactly as in the top-down direction; deeper descendants are
    never part of it.  An unknown domain yields its registered children
    bottom-up and nothing top-down. *)
Theorem cascade_order_root_first adds root :
  let t := build adds in
  let children := node_id <$> List.filter (child_of root) (present t) in
  NoDup (node_id <$> present t) /\
  (find t root <> None ->
     queued (bottom_up_order t root) = take 16 (root :: children) /\
     queued (top_down_order t root) = take 16 (root :: children)) /\
  (find t root = None ->
     queued (bottom_up_order t root) = take 16 children /\
     queued (top_down_order t root) = []).
Proof.
  cbn zeta. destruct (build_ok adds) as (_ & _ & Hnd). split; [done|].
  assert (Hnew : queue_ok new_queue) by (split; [done|vm_compute; lia]).
  unfold bottom_up_order, top_down_order.
  destruct (find (build adds) root) as [n|] eqn:Hf; split; intros Hc; try done.
  - apply find_node in Hf as [-> _].
    destruct (push_run new_queue root Hnew) as [Hq Hp].
    rewrite !push_children_run, Hp by done. done.
  - by rewrite push_children_run.
Qed.

(** ** Witnesses *)

#[local] Existing Instance Credo.in_memory.
#[local] Existing Instance CredoFacts.in_memory_laws.

Lemma handle_overwrites_capabilities_witness :
  exists m' records' tier,
    handle (fst (Credo.matrix_set Credo.new_matrix 7 6)) (new_record <$> seqZ 0 16) 100 7
      = Done (m', records', tier) /\
    Credo.cap_get m' 7%nat = Some Credo.ALL.
Proof.
  destruct (handle_overwrites_capabilities (fst (Credo.matrix_set Credo.new_matrix 7 6))
              (new_record <$> seqZ 0 16) 100 7 (new_record 7))
    as (m' & records' & tier & H1 & H2 & _).
  - lia.
  - reflexivity.
  - unfold U32_MAX. simpl. lia.
  - discriminate.
  - exists m', records', tier. split; [exact H1|exact H2].
Defined.

Lemma monitor_reports_silent_domains_witness :
  snd (monitor_tick (new_monitor [new_record 1; new_record 2]) 501) = RecoverBatch 2.
Proof.
  apply (monitor_reports_silent_domains (new_monitor [new_record 1; new_record 2]) 501).
  - repeat (constructor; [simpl; lia|]). constructor.
  - vm_compute. congruence.
  - lia.
  - discriminate.
  - repeat (constructor; [split; reflexivity|]). constructor.
Defined.

Lemma attribute_by_address_witness :
  attribute 0xFFFFFFFF80018000 = Tcb CredoModule /\
  attribute 0xFFFFFFFF05000000 = Service 20480 true.
Proof.
  split.
  - apply (attribute_by_address 0xFFFFFFFF80018000). unfold TCB_BASE. lia.
  - apply (attribute_by_address 0xFFFFFFFF05000000). unfold SERVICE_BASE. lia.
Defined.

End PolicyFacts.
