(* ===== verification/Flock.v ===== *)
(** * File locks

    Model of [src/kernel/services/fs/flock.rs]: whole-file locks held by a
    process and descriptor, and byte-range locks held by a process, each in a
    fixed table of 64 entries.  The locking mutexes are held for the whole of
    each operation, so an execution is a sequence of operations; the operation
    counters are statistics and left out.  An [i32] is a [Z], a [usize] counter
    wraps at 64 bits.

    The theorems: mutual exclusion of whole-file locks
    ([flock_mutual_exclusion]) and of byte-range locks
    ([posix_write_lock_exclusive]) after every sequence of operations. *)

From S2P Require Import Prelude.

(** ** Tables of entries with a valid flag *)

Section table.
Context {E : Type} (valid : E -> bool) (dflt : E) (dflt_free : valid dflt = false).

(** The release loops: entries that satisfy [p] are reset. *)
Definition release_where (p : E -> bool) (l : list E) : list E :=
  (fun e => if valid e && p e then dflt else e) <$> l.

Definition released (p : E -> bool) (l : list E) : nat :=
  count_if (fun e => valid e && p e) l.

Lemma release_where_count p l :
  (count_if valid (release_where p l) + released p l = count_if valid l)%nat.
Proof.
  unfold released, count_if. induction l as [|e l IH]; [done|]. simpl.
  destruct (valid e) eqn:Hv, (p e); simpl; rewrite ?dflt_free, ?Hv; simpl; lia.
Qed.

Lemma elem_of_release p l e :
  e ∈ release_where p l -> valid e = true -> e ∈ l.
Proof.
  intros (x & -> & Hx)%list_elem_of_fmap. case_match; [by rewrite dflt_free|done].
Qed.
End table.

Lemma elem_of_insert_inv {A} (l : list A) i x y : y ∈ <[i := x]> l -> y = x \/ y ∈ l.
Proof.
  intros [j Hj]%list_elem_of_lookup. rewrite list_lookup_insert in Hj.
  case_decide; [left; congruence|]. right. by eapply list_elem_of_lookup_2.
Qed.

Module Flock.

Definition FLOCK_TABLE_SIZE : nat := 64.

Definition LOCK_SH : Z := 1.
Definition LOCK_EX : Z := 2.
Definition LOCK_UN : Z := 8.
Definition LOCK_NB : Z := 4.

Record FlockEntry := mkFlockEntry {
  ino : Z;
  owner_pid : Z;
  owner_fd : Z;
  lock_type : Z;
  lcount : Z;
  valid : bool;
}.

Definition default_entry : FlockEntry := mkFlockEntry 0 0 (-1) 0 0 false.

Definition with_type (ty : Z) (e : FlockEntry) : FlockEntry :=
  mkFlockEntry (ino e) (owner_pid e) (owner_fd e) ty (lcount e) (valid e).
Definition with_lcount (n : Z) (e : FlockEntry) : FlockEntry :=
  mkFlockEntry (ino e) (owner_pid e) (owner_fd e) (lock_type e) n (valid e).

Record FlockTable := mkFlockTable {
  entries : list FlockEntry;
  count : Z;
}.

Definition new : FlockTable := mkFlockTable (replicate FLOCK_TABLE_SIZE default_entry) 0.

Definition other_on (i exclude_pid : Z) (e : FlockEntry) : bool :=
  valid e && (ino e =? i) && negb (owner_pid e =? exclude_pid).

Definition find_conflict_shared (t : FlockTable) (i exclude_pid : Z) : option Z :=
  owner_pid <$> find_first (fun e => other_on i exclude_pid e && (lock_type e =? LOCK_EX))
                  (entries t).

Definition find_conflict_exclusive (t : FlockTable) (i exclude_pid : Z) : option Z :=
  owner_pid <$> find_first (other_on i exclude_pid) (entries t).

Definition find_entry (t : FlockTable) (i pid fd : Z) : option nat :=
  position (fun e => valid e && (ino e =? i) && (owner_pid e =? pid) && (owner_fd e =? fd))
    (entries t).

Definition find_free (t : FlockTable) : option nat :=
  position (fun e => negb (valid e)) (entries t).

Definition shared_count (t : FlockTable) (i exclude_pid : Z) : nat :=
  count_if (fun e => other_on i exclude_pid e && (lock_type e =? LOCK_SH)) (entries t).

Inductive FlockResult := FOk | WouldBlock | Invalid | NoSpace | NotHeld.

Definition set_entry (t : FlockTable) (idx : nat) (e : FlockEntry) : FlockTable :=
  mkFlockTable (<[idx := e]> (entries t)) (count t).

(** Blocking and non-blocking requests end alike: there is no waiting. *)
Definition flock_lock (t : FlockTable) (fd pid i ty : Z) (nonblock : bool)
    : FlockTable * FlockResult :=
  match find_entry t i pid fd with
  | Some idx =>
      match entries t !! idx with
      | None => (t, FOk)
      | Some e =>
          let existing_type := lock_type e in
          if existing_type =? ty
          then (set_entry t idx (with_lcount (sat_add_u32 (lcount e) 1) e), FOk)
          else if (existing_type =? LOCK_SH) && (ty =? LOCK_EX) then
            if (0 <? shared_count t i pid)%nat
            then (t, if nonblock then WouldBlock else WouldBlock)
            else (set_entry t idx (with_type LOCK_EX e), FOk)
          else if (existing_type =? LOCK_EX) && (ty =? LOCK_SH)
          then (set_entry t idx (with_type LOCK_SH e), FOk)
          else (t, FOk)
      end
  | None =>
      let conflict :=
        if ty =? LOCK_SH then Some (find_conflict_shared t i pid)
        else if ty =? LOCK_EX then Some (find_conflict_exclusive t i pid)
        else None in
      match conflict with
      | None => (t, Invalid)
      | Some (Some _) => (t, if nonblock then WouldBlock else WouldBlock)
      | Some None =>
          match find_free t with
          | Some idx =>
              (mkFlockTable (<[idx := mkFlockEntry i pid fd ty 1 true]> (entries t))
                 (wrap_u64 (count t + 1)), FOk)
          | None => (t, NoSpace)
          end
      end
  end.

Definition flock_unlock (t : FlockTable) (fd pid i : Z) : FlockTable * FlockResult :=
  match find_entry t i pid fd with
  | Some idx =>
      match entries t !! idx with
      | None => (t, NotHeld)
      | Some e =>
          if 1 <? lcount e then (set_entry t idx (with_lcount (lcount e - 1) e), FOk)
          else (mkFlockTable (<[idx := default_entry]> (entries t))
                  (wrap_u64 (count t - 1)), FOk)
      end
  | None => (t, NotHeld)
  end.

Definition sys_flock (t : FlockTable) (fd operation pid i : Z)
    : FlockTable * FlockResult :=
  if i =? 0 then (t, Invalid)
  else
    let nonblock := negb (Z.land operation LOCK_NB =? 0) in
    let op := Z.land operation (Z.lnot LOCK_NB) in
    if op =? LOCK_SH then flock_lock t fd pid i LOCK_SH nonblock
    else if op =? LOCK_EX then flock_lock t fd pid i LOCK_EX nonblock
    else if op =? LOCK_UN then flock_unlock t fd pid i
    else (t, Invalid).

Definition flock_release (p : FlockEntry -> bool) (t : FlockTable) : FlockTable :=
  mkFlockTable (release_where valid default_entry p (entries t))
    (wrap_u64 (count t - Z.of_nat (released valid p (entries t)))).

Definition flock_release_fd (t : FlockTable) (pid fd : Z) : FlockTable :=
  flock_release (fun e => (owner_pid e =? pid) && (owner_fd e =? fd)) t.

Definition flock_release_pid (t : FlockTable) (pid : Z) : FlockTable :=
  flock_release (fun e => owner_pid e =? pid) t.

(** The operations other parts of the kernel perform. *)
Inductive op :=
  | SysFlock (fd operation pid i : Z)
  | ReleaseFd (pid fd : Z)
  | ReleasePid (pid : Z).

Definition do_op (t : FlockTable) (o : op) : FlockTable :=
  match o with
  | SysFlock fd operation pid i => fst (sys_flock t fd operation pid i)
  | ReleaseFd pid fd => flock_release_fd t pid fd
  | ReleasePid pid => flock_release_pid t pid
  end.

Definition run (ops : list op) : FlockTable := fold_left do_op ops new.

End Flock.

Module FlockFacts.
Import Flock.

(** Locks of different processes on one file are shared ones. *)
Definition compatible (e1 e2 : FlockEntry) : Prop :=
  valid e1 = true -> valid e2 = true -> ino e1 = ino e2 -> owner_pid e1 <> owner_pid e2 ->
  lock_type e1 = LOCK_SH /\ lock_type e2 = LOCK_SH.

Lemma compatible_sym e1 e2 : compatible e1 e2 -> compatible e2 e1.
Proof. unfold compatible. intros H ? ? ? ?. by destruct H. Qed.

Record table_ok (t : FlockTable) : Prop := {
  fo_length : length (entries t) = FLOCK_TABLE_SIZE;
  fo_excl : forall e1 e2, e1 ∈ entries t -> e2 ∈ entries t -> compatible e1 e2;
  fo_types : forall e, e ∈ entries t -> valid e = true ->
    lock_type e = LOCK_SH \/ lock_type e = LOCK_EX;
  fo_count : count t = Z.of_nat (count_if valid (entries t));
}.

Lemma find_first_None {A} (f : A -> bool) l :
  find_first f l = None -> forall x, x ∈ l -> f x = false.
Proof.
  unfold find_first. destruct (position f l) as [i|] eqn:Hp.
  - apply position_Some in Hp as (x & -> & _). done.
  - intros _. by apply position_None.
Qed.

(** Replacing an entry by a compatible one. *)
Lemma insert_ok t idx e e' n :
  table_ok t -> entries t !! idx = Some e ->
  (forall x, x ∈ entries t -> compatible e' x) ->
  (valid e' = true -> lock_type e' = LOCK_SH \/ lock_type e' = LOCK_EX) ->
  n = count t + Z.b2z (valid e') - Z.b2z (valid e) ->
  table_ok (mkFlockTable (<[idx := e']> (entries t)) n).
Proof.
  intros [Hl Hx Ht Hc] He Hcomp Htype ->. split; simpl.
  - by rewrite length_insert.
  - intros e1 e2 [->|H1]%elem_of_insert_inv [->|H2]%elem_of_insert_inv; [| | |by auto].
    + by intros.
    + by apply Hcomp.
    + by apply compatible_sym, Hcomp.
  - intros x [->|Hin]%elem_of_insert_inv; [done|by apply Ht].
  - pose proof (count_if_insert valid (entries t) idx e e' He) as Hci.
    rewrite Hc. destruct (valid e), (valid e'); simpl in *; lia.
Qed.

Lemma find_entry_Some t i pid fd idx :
  find_entry t i pid fd = Some idx ->
  exists e, entries t !! idx = Some e /\ e ∈ entries t /\
    valid e = true /\ ino e = i /\ owner_pid e = pid /\ owner_fd e = fd.
Proof.
  intros (e & He & Hm & _)%position_Some. exists e.
  rewrite !andb_true_iff, !Z.eqb_eq in Hm. destruct Hm as [[[? ?] ?] ?].
  split_and!; try done. by eapply list_elem_of_lookup_2.
Qed.

Lemma find_free_Some t idx :
  find_free t = Some idx ->
  exists e, entries t !! idx = Some e /\ valid e = false.
Proof. intros (e & He & Hv%negb_true_iff & _)%position_Some. by exists e. Qed.

Lemma other_on_false i pid e :
  other_on i pid e = false -> valid e = true -> ino e = i -> owner_pid e = pid.
Proof.
  unfold other_on. intros Ho Hv Hi. rewrite Hv, Hi, Z.eqb_refl in Ho. simpl in Ho.
  destruct (Z.eqb_spec (owner_pid e) pid); done.
Qed.

Lemma count_small t :
  table_ok t -> 0 <= count t <= 64.
Proof.
  intros [Hl _ _ ->]. pose proof (count_if_le valid (entries t)).
  rewrite Hl in *. unfold FLOCK_TABLE_SIZE in *. lia.
Qed.

(** No other process shares a file whose count of other sharers is 0. *)
Lemma shared_count_none t i pid x :
  (shared_count t i pid <= 0)%nat -> x ∈ entries t -> valid x = true -> ino x = i ->
  lock_type x = LOCK_SH -> owner_pid x = pid.
Proof.
  unfold shared_count, count_if. intros Hno Hx Hv Hi Ht.
  destruct (Z.eq_dec (owner_pid x) pid) as [|Hne]; [done|exfalso].
  assert (Hmem : x ∈ List.filter
    (fun e => other_on i pid e && (lock_type e =? LOCK_SH)) (entries t)).
  { apply list_elem_of_In, List.filter_In. split; [by apply list_elem_of_In|].
    unfold other_on. rewrite Hv, Ht, Hi, Z.eqb_refl, (proj2 (Z.eqb_neq _ _) Hne). done. }
  destruct (List.filter _ (entries t)); [by apply not_elem_of_nil in Hmem|].
  simpl in Hno. lia.
Qed.

(** A new lock is compatible with the table when the conflict search for its
    type finds nothing. *)
Lemma no_conflict_new t fd pid i ty x :
  table_ok t -> ty = LOCK_SH \/ ty = LOCK_EX ->
  (if ty =? LOCK_SH then find_conflict_shared t i pid
   else find_conflict_exclusive t i pid) = None ->
  x ∈ entries t -> compatible (mkFlockEntry i pid fd ty 1 true) x.
Proof.
  intros Hok [-> | ->] Hc%fmap_None Hx _ Hvx Hix Hpx; simpl in *;
    pose proof (find_first_None _ _ Hc x Hx) as Hno.
  - split; [done|]. unfold other_on in Hno.
    rewrite Hvx, <- Hix, Z.eqb_refl in Hno. simpl in Hno.
    destruct (Z.eqb_spec (owner_pid x) pid); [congruence|]. simpl in Hno.
    destruct (fo_types _ Hok x Hx Hvx) as [|Hex]; [done|]. by rewrite Hex in Hno.
  - by apply other_on_false in Hno; [congruence|..].
Qed.

Lemma flock_lock_ok t fd pid i ty nb :
  ty = LOCK_SH \/ ty = LOCK_EX ->
  table_ok t -> table_ok (fst (flock_lock t fd pid i ty nb)).
Proof.
  intros Hty Hok. unfold flock_lock.
  destruct (find_entry t i pid fd) as [idx|] eqn:Hfe.
  - destruct (find_entry_Some _ _ _ _ _ Hfe) as (e & He & Hin & Hv & Hi & Hp & _).
    rewrite He. destruct (Z.eqb_spec (lock_type e) ty) as [Hsame|Hdiff].
    { eapply insert_ok; [done|done| | |simpl; lia].
      - intros x Hx. apply (fo_excl _ Hok e x Hin Hx).
      - intros _. by apply (fo_types _ Hok e Hin). }
    destruct ((lock_type e =? LOCK_SH) && (ty =? LOCK_EX)) eqn:Hup.
    { destruct (Nat.ltb_spec 0 (shared_count t i pid)) as [|Hno]; [by destruct nb|].
      eapply insert_ok; [done|done| |by right|simpl; lia].
      intros x Hx _ Hvx Hix Hpx. simpl in *. destruct Hpx.
      destruct (Z.eq_dec (owner_pid e) (owner_pid x)) as [|Hne]; [done|].
      destruct (fo_excl _ Hok e x Hin Hx Hv Hvx) as [_ Hxs]; [congruence|done|].
      rewrite Hp. symmetry.
      eapply shared_count_none; [done|done|done|congruence|done]. }
    destruct ((lock_type e =? LOCK_EX) && (ty =? LOCK_SH)) eqn:Hdown; [|done].
    eapply insert_ok; [done|done| |by left|simpl; lia].
    intros x Hx _ Hvx Hix Hpx. split; [done|]. simpl in *.
    by destruct (fo_excl _ Hok e x Hin Hx Hv Hvx) as [_ ?].
  - set (conflict := if ty =? LOCK_SH then _ else _).
    destruct conflict as [[c|]|] eqn:Hc; [by destruct nb| |done].
    destruct (find_free t) as [idx|] eqn:Hfree; [|done].
    destruct (find_free_Some _ _ Hfree) as (e & He & Hv). simpl.
    pose proof (count_small t Hok). eapply insert_ok; [done|done| |by intros|].
    + intros x Hx. apply (no_conflict_new t); [done|done| |done].
      unfold conflict in Hc. destruct Hty as [-> | ->]; simpl in *; congruence.
    + rewrite Hv. simpl. rewrite wrap_u64_small; [lia|]. unfold u64, U64_MAX. lia.
Qed.

Lemma flock_unlock_ok t fd pid i : table_ok t -> table_ok (fst (flock_unlock t fd pid i)).
Proof.
  intros Hok. unfold flock_unlock. destruct (find_entry t i pid fd) as [idx|] eqn:Hfe; [|done].
  destruct (find_entry_Some _ _ _ _ _ Hfe) as (e & He & Hin & Hv & _). rewrite He.
  case_match; simpl.
  - eapply insert_ok; [done|done| | |simpl; lia].
    + intros x Hx. apply (fo_excl _ Hok e x Hin Hx).
    + intros _. by apply (fo_types _ Hok e Hin).
  - pose proof (count_small t Hok). pose proof (fo_count _ Hok) as Hc.
    eapply insert_ok; [done|done|by intros x _|done|].
    rewrite Hv. simpl. rewrite wrap_u64_small; [lia|]. unfold u64, U64_MAX.
    pose proof (count_if_insert valid (entries t) idx e default_entry He) as Hci.
    rewrite Hv in Hci. simpl in Hci. lia.
Qed.

Lemma flock_release_ok p t : table_ok t -> table_ok (flock_release p t).
Proof.
  intros Hok. pose proof Hok as [Hl Hx Ht Hc]. pose proof (count_small t Hok).
  pose proof (release_where_count valid default_entry eq_refl p (entries t)) as Hcnt.
  split; simpl.
  - unfold release_where. by rewrite length_fmap.
  - intros e1 e2 H1 H2 Hv1 Hv2.
    apply (elem_of_release valid default_entry eq_refl) in H1, H2; [|done..]. by apply Hx.
  - intros e He Hv. apply (elem_of_release valid default_entry eq_refl) in He; [|done]. by apply Ht.
  - rewrite wrap_u64_small; [lia|]. unfold u64, U64_MAX. lia.
Qed.

Lemma sys_flock_ok t fd o pid i : table_ok t -> table_ok (fst (sys_flock t fd o pid i)).
Proof.
  intros Hok. unfold sys_flock. repeat (case_match; [first
    [done | by apply flock_lock_ok; [auto|] | by apply flock_unlock_ok]|]). done.
Qed.

Lemma run_ok ops : table_ok (run ops).
Proof.
  apply (fold_left_inv table_ok).
  - intros t [fd o pid i|pid fd|pid] _ Hok; simpl;
      [by apply sys_flock_ok|by apply flock_release_ok..].
  - split; [done| | |done]; unfold new; cbn [entries].
    + intros e1 e2 H1 _ Hv. apply elem_of_replicate in H1 as [-> _]. done.
    + intros e H1 Hv. apply elem_of_replicate in H1 as [-> _]. done.
Qed.

(** C27: after any sequence of lock, unlock and release operations, a process
    that holds an exclusive lock on a file is the only holder on that file, the
    counter of the table equals the number of held locks, and a request for an
    exclusive lock that is granted leaves the requester with it. *)
Theorem flock_mutual_exclusion ops :
  let t := run ops in
  (forall e1 e2, e1 ∈ entries t -> e2 ∈ entries t ->
     valid e1 = true -> valid e2 = true -> ino e1 = ino e2 ->
     lock_type e1 = LOCK_EX -> owner_pid e1 = owner_pid e2) /\
  count t = Z.of_nat (count_if valid (entries t)) /\
  (forall fd pid i nb t',
     flock_lock t fd pid i LOCK_EX nb = (t', FOk) ->
     exists e, e ∈ entries t' /\ valid e = true /\ ino e = i /\ owner_pid e = pid /\
       owner_fd e = fd /\ lock_type e = LOCK_EX).
Proof.
  cbn zeta. pose proof (run_ok ops) as Hok. split_and!.
  - intros e1 e2 H1 H2 Hv1 Hv2 Hi Hex. destruct (decide (owner_pid e1 = owner_pid e2)) as [|Hne];
      [done|]. destruct (fo_excl _ Hok e1 e2 H1 H2 Hv1 Hv2 Hi Hne) as [Hsh _].
    rewrite Hsh in Hex. done.
  - apply Hok.
  - intros fd pid i nb t'. unfold flock_lock. generalize (run ops), Hok. clear ops Hok.
    intros t Hok. destruct (find_entry t i pid fd) as [idx|] eqn:Hfe.
    + destruct (find_entry_Some _ _ _ _ _ Hfe) as (e & He & Hin & Hv & Hi & Hp & Hf).
      assert (Hset : forall e', e' ∈ entries (set_entry t idx e')).
      { intros e'. apply list_elem_of_lookup. exists idx. simpl.
        apply list_lookup_insert_eq. by eapply lookup_lt_Some. }
      rewrite He. destruct (Z.eqb_spec (lock_type e) LOCK_EX) as [Hex|Hne].
      { intros [= <-]. eexists. split; [apply Hset|]. by split_and!. }
      destruct (fo_types _ Hok e Hin Hv) as [Hsh|]; [|done]. rewrite Hsh. simpl.
      case_match; [by destruct nb|]. intros [= <-]. eexists.
      split; [apply Hset|]. by split_and!.
    + simpl. case_match; [by destruct nb|]. destruct (find_free t) as [idx|] eqn:Hfree; [|done].
      destruct (find_free_Some _ _ Hfree) as (e & He & _). intros [= <-]. eexists.
      split; [apply list_elem_of_lookup; exists idx; simpl; apply list_lookup_insert_eq;
              by eapply lookup_lt_Some|]. by split_and!.
Qed.

End FlockFacts.

(** ** Byte-range locks *)

Module PosixLock.

Definition POSIX_LOCK_TABLE_SIZE : nat := 64.

Definition F_RDLCK : Z := 0.
Definition F_WRLCK : Z := 1.
Definition F_UNLCK : Z := 2.
Definition F_SETLK : Z := 6.
Definition F_SETLKW : Z := 7.
Definition F_GETLK : Z := 5.

Record PosixLockEntry := mkPosixLockEntry {
  ino : Z;
  owner_pid : Z;
  start : Z;
  len : Z;
  lock_type : Z;
  valid : bool;
}.

Definition default_entry : PosixLockEntry := mkPosixLockEntry 0 0 0 0 0 false.

Record PosixLockTable := mkPosixLockTable {
  entries : list PosixLockEntry;
  count : Z;
}.

Definition new : PosixLockTable :=
  mkPosixLockTable (replicate POSIX_LOCK_TABLE_SIZE default_entry) 0.

Definition range_end (s l : Z) : Z := if l =? 0 then U64_MAX else sat_add_u64 s l.

Definition ranges_overlap (a_start a_len b_start b_len : Z) : bool :=
  (a_start <? range_end b_start b_len) && (b_start <? range_end a_start a_len).

Definition conflicts (i pid s l ty : Z) (e : PosixLockEntry) : bool :=
  valid e && (ino e =? i) && negb (owner_pid e =? pid) &&
  ranges_overlap s l (start e) (len e) &&
  negb ((ty =? F_RDLCK) && (lock_type e =? F_RDLCK)).

Definition find_conflict (t : PosixLockTable) (i pid s l ty : Z) : option (Z * Z) :=
  (fun e => (owner_pid e, lock_type e)) <$> find_first (conflicts i pid s l ty) (entries t).

Definition own_overlapping (i pid s l : Z) (e : PosixLockEntry) : bool :=
  valid e && (ino e =? i) && (owner_pid e =? pid) && ranges_overlap s l (start e) (len e).

Definition find_overlapping (t : PosixLockTable) (i pid s l : Z) : option nat :=
  position (own_overlapping i pid s l) (entries t).

Definition find_free (t : PosixLockTable) : option nat :=
  position (fun e => negb (valid e)) (entries t).

Inductive PosixLockResult := WouldBlock | Invalid | NoSpace.

Record PosixLockConflict := mkConflict {
  c_pid : Z;
  c_lock_type : Z;
  c_start : Z;
  c_len : Z;
}.

Definition answer : Type := option PosixLockConflict + PosixLockResult.

Definition posix_getlk (t : PosixLockTable) (pid i ty s l : Z) : answer :=
  if ty =? F_UNLCK then inl None
  else
    match find_conflict t i pid s l ty with
    | Some (cpid, ctype) =>
        match find_first (fun e => valid e && (owner_pid e =? cpid) &&
                                   ranges_overlap s l (start e) (len e)) (entries t) with
        | Some e => inl (Some (mkConflict cpid ctype (start e) (len e)))
        | None => inl (Some (mkConflict cpid ctype 0 0))
        end
    | None => inl None
    end.

Definition posix_release (p : PosixLockEntry -> bool) (t : PosixLockTable) : PosixLockTable :=
  mkPosixLockTable (release_where valid default_entry p (entries t))
    (wrap_u64 (count t - Z.of_nat (released valid p (entries t)))).

Definition posix_setlk (t : PosixLockTable) (pid i ty s l : Z) : PosixLockTable * answer :=
  if ty =? F_UNLCK then (posix_release (own_overlapping i pid s l) t, inl None)
  else if (ty =? F_RDLCK) || (ty =? F_WRLCK) then
    match find_conflict t i pid s l ty with
    | Some (cpid, ctype) => (t, inl (Some (mkConflict cpid ctype 0 0)))
    | None =>
        match find_overlapping t i pid s l with
        | Some idx =>
            match entries t !! idx with
            | Some e =>
                (mkPosixLockTable
                   (<[idx := mkPosixLockEntry (ino e) (owner_pid e) s l ty (valid e)]>
                      (entries t)) (count t), inl None)
            | None => (t, inl None)
            end
        | None =>
            match find_free t with
            | Some idx =>
                (mkPosixLockTable
                   (<[idx := mkPosixLockEntry i pid s l ty true]> (entries t))
                   (wrap_u64 (count t + 1)), inl None)
            | None => (t, inr NoSpace)
            end
        end
    end
  else (t, inr Invalid).

Definition sys_posix_lock (t : PosixLockTable) (pid i cmd ty s l : Z)
    : PosixLockTable * answer :=
  if i =? 0 then (t, inr Invalid)
  else if cmd =? F_GETLK then (t, posix_getlk t pid i ty s l)
  else if (cmd =? F_SETLK) || (cmd =? F_SETLKW) then posix_setlk t pid i ty s l
  else (t, inr Invalid).

Definition posix_lock_release_pid (t : PosixLockTable) (pid : Z) : PosixLockTable :=
  posix_release (fun e => owner_pid e =? pid) t.

Definition posix_lock_release_inode (t : PosixLockTable) (i : Z) : PosixLockTable :=
  posix_release (fun e => ino e =? i) t.

Inductive op :=
  | SysPosixLock (pid i cmd ty s l : Z)
  | ReleasePid (pid : Z)
  | ReleaseInode (i : Z).

Definition do_op (t : PosixLockTable) (o : op) : PosixLockTable :=
  match o with
  | SysPosixLock pid i cmd ty s l => fst (sys_posix_lock t pid i cmd ty s l)
  | ReleasePid pid => posix_lock_release_pid t pid
  | ReleaseInode i => posix_lock_release_inode t i
  end.

Definition run (ops : list op) : PosixLockTable := fold_left do_op ops new.

End PosixLock.

Module PosixLockFacts.
Import PosixLock.

(** Overlapping locks of different processes on one file are read locks. *)
Definition compatible (e1 e2 : PosixLockEntry) : Prop :=
  valid e1 = true -> valid e2 = true -> ino e1 = ino e2 -> owner_pid e1 <> owner_pid e2 ->
  ranges_overlap (start e1) (len e1) (start e2) (len e2) = true ->
  lock_type e1 = F_RDLCK /\ lock_type e2 = F_RDLCK.

Lemma overlap_sym a b c d : ranges_overlap a b c d = ranges_overlap c d a b.
Proof. unfold ranges_overlap. apply andb_comm. Qed.

Lemma posix_compatible_sym e1 e2 : compatible e1 e2 -> compatible e2 e1.
Proof.
  unfold compatible. intros H ? ? ? ? Ho. rewrite overlap_sym in Ho. by destruct H.
Qed.

Record table_ok (t : PosixLockTable) : Prop := {
  po_length : length (entries t) = POSIX_LOCK_TABLE_SIZE;
  po_excl : forall e1 e2, e1 ∈ entries t -> e2 ∈ entries t -> compatible e1 e2;
  po_count : count t = Z.of_nat (count_if valid (entries t));
}.

Lemma posix_insert_ok t idx e e' n :
  table_ok t -> entries t !! idx = Some e ->
  (forall x, x ∈ entries t -> compatible e' x) ->
  n = count t + Z.b2z (valid e') - Z.b2z (valid e) ->
  table_ok (mkPosixLockTable (<[idx := e']> (entries t)) n).
Proof.
  intros [Hl Hx Hc] He Hcomp ->. split; simpl.
  - by rewrite length_insert.
  - intros e1 e2 [->|H1]%elem_of_insert_inv [->|H2]%elem_of_insert_inv; [| | |by auto].
    + by intros.
    + by apply Hcomp.
    + by apply posix_compatible_sym, Hcomp.
  - pose proof (count_if_insert valid (entries t) idx e e' He) as Hci.
    rewrite Hc. destruct (valid e), (valid e'); simpl in *; lia.
Qed.

(** No conflict found means that the new lock is compatible with all. *)
Lemma no_conflict_compatible t i pid s l ty v :
  ty = F_RDLCK \/ ty = F_WRLCK -> find_conflict t i pid s l ty = None ->
  forall x, x ∈ entries t -> compatible (mkPosixLockEntry i pid s l ty v) x.
Proof.
  intros Hty Hnone%fmap_None x Hx _ Hvx Hix Hpx Hov. simpl in *.
  pose proof (FlockFacts.find_first_None _ _ Hnone x Hx) as Hno. unfold conflicts in Hno.
  rewrite Hvx, <- Hix, Z.eqb_refl, Hov in Hno. simpl in Hno.
  destruct (Z.eqb_spec (owner_pid x) pid); [congruence|]. simpl in Hno.
  apply negb_false_iff, andb_true_iff in Hno as [H1%Z.eqb_eq H2%Z.eqb_eq]. done.
Qed.

Lemma posix_count_small t : table_ok t -> 0 <= count t <= 64.
Proof.
  intros [Hl _ ->]. pose proof (count_if_le valid (entries t)).
  rewrite Hl in *. unfold POSIX_LOCK_TABLE_SIZE in *. lia.
Qed.

Lemma posix_release_ok p t : table_ok t -> table_ok (posix_release p t).
Proof.
  intros Hok. pose proof Hok as [Hl Hx Hc]. pose proof (posix_count_small t Hok).
  pose proof (release_where_count valid default_entry eq_refl p (entries t)) as Hcnt.
  split; simpl.
  - unfold release_where. by rewrite length_fmap.
  - intros e1 e2 H1 H2 Hv1 Hv2.
    apply (elem_of_release valid default_entry eq_refl) in H1, H2; [|done..]. by apply Hx.
  - rewrite wrap_u64_small; [lia|]. unfold u64, U64_MAX. lia.
Qed.

Lemma posix_setlk_ok t pid i ty s l : table_ok t -> table_ok (fst (posix_setlk t pid i ty s l)).
Proof.
  intros Hok. unfold posix_setlk. case_match; [by apply posix_release_ok|].
  destruct ((ty =? F_RDLCK) || (ty =? F_WRLCK)) eqn:Hty; [|done].
  assert (Ht : ty = F_RDLCK \/ ty = F_WRLCK)
    by (apply orb_true_iff in Hty as [?|?]; [left|right]; lia).
  destruct (find_conflict t i pid s l ty) as [[cp ct]|] eqn:Hc; [done|].
  destruct (find_overlapping t i pid s l) as [idx|] eqn:Hov.
  - apply position_Some in Hov as (e & He & Hm & _). rewrite He. simpl.
    unfold own_overlapping in Hm. rewrite !andb_true_iff, !Z.eqb_eq in Hm.
    destruct Hm as [[[Hv Hi] Hp] _].
    eapply posix_insert_ok; [done|done| |simpl; rewrite Hv; simpl; lia].
    rewrite Hi, Hp. by apply (no_conflict_compatible t).
  - destruct (find_free t) as [idx|] eqn:Hf; [|done].
    apply position_Some in Hf as (e & He & Hv%negb_true_iff & _). simpl.
    pose proof (posix_count_small t Hok). eapply posix_insert_ok; [done|done| |].
    + by apply (no_conflict_compatible t).
    + rewrite Hv. simpl. rewrite wrap_u64_small; [lia|]. unfold u64, U64_MAX. lia.
Qed.

Lemma posix_run_ok ops : table_ok (run ops).
Proof.
  apply (fold_left_inv table_ok).
  - intros t [pid i cmd ty s l|pid|i] _ Hok; simpl; [|by apply posix_release_ok..].
    unfold sys_posix_lock. repeat (case_match; [first [done|by apply posix_setlk_ok]|]). done.
  - split; [done| |done]. unfold new; cbn [entries].
    intros e1 e2 H1 _ Hv. apply elem_of_replicate in H1 as [-> _]. done.
Qed.

(** A byte of a file as a one-byte range. *)
Definition covers (e : PosixLockEntry) (b : Z) : Prop :=
  start e <= b < range_end (start e) (len e).

(** C28: after any sequence of lock, query, unlock and release operations, a
    byte of a file that is write-locked by a process is locked by no other
    process, and the counter of the table equals the number of held locks. *)
Theorem posix_write_lock_exclusive ops :
  let t := run ops in
  (forall e1 e2 b, e1 ∈ entries t -> e2 ∈ entries t ->
     valid e1 = true -> valid e2 = true -> ino e1 = ino e2 -> covers e1 b -> covers e2 b ->
     lock_type e1 = F_WRLCK -> owner_pid e1 = owner_pid e2) /\
  count t = Z.of_nat (count_if valid (entries t)).
Proof.
  cbn zeta. pose proof (posix_run_ok ops) as Hok. split; [|apply Hok].
  intros e1 e2 b H1 H2 Hv1 Hv2 Hi Hb1 Hb2 Hw.
  destruct (decide (owner_pid e1 = owner_pid e2)) as [|Hne]; [done|].
  destruct (po_excl _ Hok e1 e2 H1 H2 Hv1 Hv2 Hi Hne) as [Hr _].
  - unfold covers in *. unfold ranges_overlap. apply andb_true_iff.
    rewrite !Z.ltb_lt. lia.
  - rewrite Hr in Hw. done.
Qed.

End PosixLockFacts.
