(* ===== verification/Pipe.v ===== *)
(** * Pipes

    Model of [src/kernel/services/ipc/pipe.rs] on the pipes of
    [src/kernel/services/ipc/types.rs]: creation, lookup by descriptor, the ring
    buffer behind [pipe_read_safe] and [pipe_write_safe], and closing.  The pipe
    lock is held during each call.  Waking threads only touches the wait queues
    and the scheduler; both are left out.  [Panic] is an index out of range of
    the caller's buffer.

    The theorem: the ring buffer behaves as a bounded byte queue
    ([pipe_is_bounded_queue]). *)

From S2P Require Import Prelude.

Module Pipe.

Definition IPC_MAX_PIPES : nat := 64.
Definition PIPE_BUFFER_SIZE : nat := Z.to_nat 4096.

Record Pipe := mkPipe {
  id : Z;
  buffer : list Z;
  read_pos : nat;
  write_pos : nat;
  count : nat;
  read_pid : Z;
  write_pid : Z;
  read_fd : Z;
  write_fd : Z;
  readers : Z;
  writers : Z;
}.

Definition Namespace := list Pipe.

Definition pipe_find_free_index (ns : Namespace) : option nat :=
  position (fun p => id p =? 0) (take IPC_MAX_PIPES ns).

Definition owns_fd (fd : Z) (p : Pipe) : bool :=
  negb (id p =? 0) && ((read_fd p =? fd) || (write_fd p =? fd)).

Definition pipe_find_by_fd_index (ns : Namespace) (fd : Z) : option nat :=
  position (owns_fd fd) (take IPC_MAX_PIPES ns).

Definition is_pipe_fd (ns : Namespace) (fd : Z) : bool :=
  match pipe_find_by_fd_index ns fd with Some _ => true | None => false end.

(** [Ok] is [inl], [Err] is [inr].  The descriptors are [u32] products cast to
    [i32]. *)
Definition pipe_create_safe (ns : Namespace) (next_id current_pid : Z)
    : Namespace * Z * ((Z * Z) + Z) :=
  match pipe_find_free_index ns with
  | None => (ns, next_id, inr (-1))
  | Some idx =>
      let rfd := as_i32 (wrap_u32 (next_id * 2)) in
      let wfd := as_i32 (wrap_u32 (wrap_u32 (next_id * 2) + 1)) in
      let p := mkPipe next_id (replicate PIPE_BUFFER_SIZE 0) 0 0 0
                 current_pid current_pid rfd wfd 1 1 in
      (<[idx := p]> ns, wrap_u32 (next_id + 1), inl (rfd, wfd))
  end.

(** *** The ring buffer *)

Definition take_byte (p : Pipe) : Pipe :=
  mkPipe (id p) (buffer p) ((read_pos p + 1) mod PIPE_BUFFER_SIZE)%nat (write_pos p)
    (count p - 1)%nat (read_pid p) (write_pid p) (read_fd p) (write_fd p)
    (readers p) (writers p).

Definition put_byte (p : Pipe) (b : Z) : Pipe :=
  mkPipe (id p) (<[write_pos p := b]> (buffer p)) (read_pos p)
    ((write_pos p + 1) mod PIPE_BUFFER_SIZE)%nat (S (count p))
    (read_pid p) (write_pid p) (read_fd p) (write_fd p) (readers p) (writers p).

(** The read loop with [todo = count - read_count] bytes to go; [out] holds the
    bytes stored in the caller's buffer of [buf_len] bytes. *)
Fixpoint read_loop (p : Pipe) (buf_len : nat) (out : list Z) (todo : nat)
    : outcome (Pipe * (list Z + Z)) :=
  match todo with
  | O => Done (p, inl out)
  | S todo =>
      if (count p =? 0)%nat then
        if writers p =? 0 then Done (p, inl out)
        else if (0 <? length out)%nat then Done (p, inl out)
        else Done (p, inr (-4))
      else if (length out <? buf_len)%nat then
        match buffer p !! read_pos p with
        | Some b => read_loop (take_byte p) buf_len (out ++ [b]) todo
        | None => Panic
        end
      else Panic
  end.

Definition pipe_read_safe (ns : Namespace) (fd : Z) (buf_len n : nat)
    : outcome (Namespace * (list Z + Z)) :=
  if (n =? 0)%nat then Done (ns, inl [])
  else
    match pipe_find_by_fd_index ns fd with
    | None => Done (ns, inr (-1))
    | Some idx =>
        match ns !! idx with
        | None => Panic
        | Some p =>
            if negb (fd =? read_fd p) then Done (ns, inr (-2))
            else '(p, r) ← read_loop p buf_len [] n; Done (<[idx := p]> ns, r)
        end
    end.

(** The write loop: [todo] are the remaining positions of [buf]. *)
Fixpoint write_loop (p : Pipe) (buf : list Z) (written todo : nat)
    : outcome (Pipe * (nat + Z)) :=
  match todo with
  | O => Done (p, inl written)
  | S todo =>
      if (PIPE_BUFFER_SIZE <=? count p)%nat then Done (p, inr (-4))
      else
        match buf !! written with
        | Some b => write_loop (put_byte p b) buf (S written) todo
        | None => Panic
        end
  end.

Definition pipe_write_safe (ns : Namespace) (fd : Z) (buf : list Z) (n : nat)
    : outcome (Namespace * (nat + Z)) :=
  if (n =? 0)%nat then Done (ns, inl 0%nat)
  else
    match pipe_find_by_fd_index ns fd with
    | None => Done (ns, inr (-1))
    | Some idx =>
        match ns !! idx with
        | None => Panic
        | Some p =>
            if negb (fd =? write_fd p) then Done (ns, inr (-2))
            else if readers p =? 0 then Done (ns, inr (-3))
            else '(p, r) ← write_loop p buf 0 n; Done (<[idx := p]> ns, r)
        end
    end.

Definition close_end (p : Pipe) (fd : Z) : Pipe :=
  let p :=
    if fd =? read_fd p
    then mkPipe (id p) (buffer p) (read_pos p) (write_pos p) (count p) (read_pid p)
           (write_pid p) 0 (write_fd p) (readers p - 1) (writers p)
    else if fd =? write_fd p
    then mkPipe (id p) (buffer p) (read_pos p) (write_pos p) (count p) (read_pid p)
           (write_pid p) (read_fd p) 0 (readers p) (writers p - 1)
    else p in
  if (readers p =? 0) && (writers p =? 0)
  then mkPipe 0 (buffer p) (read_pos p) (write_pos p) (count p) (read_pid p)
         (write_pid p) 0 0 (readers p) (writers p)
  else p.

Definition pipe_close_safe (ns : Namespace) (fd : Z) : outcome (Namespace * (unit + Z)) :=
  match pipe_find_by_fd_index ns fd with
  | None => Done (ns, inr (-1))
  | Some idx =>
      match ns !! idx with
      | None => Panic
      | Some p => Done (<[idx := close_end p fd]> ns, inl tt)
      end
  end.

End Pipe.

Module PipeFacts.
Import Pipe.

Lemma buffer_size_pos : (0 < PIPE_BUFFER_SIZE)%nat.
Proof. unfold PIPE_BUFFER_SIZE. lia. Qed.

#[local] Opaque PIPE_BUFFER_SIZE.

Definition pipe_ok (p : Pipe) : Prop :=
  length (buffer p) = PIPE_BUFFER_SIZE /\ (read_pos p < PIPE_BUFFER_SIZE)%nat /\
  (count p <= PIPE_BUFFER_SIZE)%nat /\
  write_pos p = ((read_pos p + count p) mod PIPE_BUFFER_SIZE)%nat.

(** The bytes in the pipe, oldest first. *)
Definition contents (p : Pipe) : list Z :=
  (fun i => nth ((read_pos p + i) mod PIPE_BUFFER_SIZE) (buffer p) 0) <$> seq 0 (count p).

Lemma length_contents p : length (contents p) = count p.
Proof. unfold contents. by rewrite length_fmap, length_seq. Qed.

Lemma mod_add_1 a : (((a mod PIPE_BUFFER_SIZE) + 1) mod PIPE_BUFFER_SIZE
                     = (a + 1) mod PIPE_BUFFER_SIZE)%nat.
Proof. pose proof buffer_size_pos. rewrite Nat.Div0.add_mod_idemp_l. done. Qed.

(** Two offsets less than the size apart have different positions. *)
Lemma mod_ne a i j :
  (i < j)%nat -> (j - i < PIPE_BUFFER_SIZE)%nat ->
  ((a + i) mod PIPE_BUFFER_SIZE <> (a + j) mod PIPE_BUFFER_SIZE)%nat.
Proof.
  pose proof buffer_size_pos. intros Hij Hd Heq.
  pose proof (Nat.div_mod (a + i) PIPE_BUFFER_SIZE) as H1.
  pose proof (Nat.div_mod (a + j) PIPE_BUFFER_SIZE) as H2.
  assert (Hq : (PIPE_BUFFER_SIZE * ((a + j) / PIPE_BUFFER_SIZE)
                = PIPE_BUFFER_SIZE * ((a + i) / PIPE_BUFFER_SIZE) + (j - i))%nat) by lia.
  destruct (Nat.le_gt_cases ((a + j) / PIPE_BUFFER_SIZE) ((a + i) / PIPE_BUFFER_SIZE)); nia.
Qed.

Lemma put_byte_ok p b :
  pipe_ok p -> (count p < PIPE_BUFFER_SIZE)%nat ->
  pipe_ok (put_byte p b) /\ contents (put_byte p b) = contents p ++ [b].
Proof.
  intros (Hl & Hr & Hc & Hw) Hlt. pose proof buffer_size_pos. split.
  - split_and!; simpl; [by rewrite length_insert|done|lia|].
    rewrite Hw, mod_add_1. f_equal. lia.
  - unfold contents. cbn [put_byte count read_pos buffer].
    rewrite seq_S, fmap_app, Hw. f_equal.
    + apply list_fmap_ext. intros i x Hi%lookup_seq. destruct Hi as [-> Hi].
      rewrite nth_insert_ne; [done|]. apply not_eq_sym. simpl. apply mod_ne; lia.
    + cbn [fmap list_fmap]. f_equal. apply nth_insert_eq. rewrite Hl. apply Nat.mod_upper_bound. lia.
Qed.

Lemma take_byte_ok p :
  pipe_ok p -> (0 < count p)%nat ->
  exists b, buffer p !! read_pos p = Some b /\ pipe_ok (take_byte p) /\
    contents p = b :: contents (take_byte p).
Proof.
  intros (Hl & Hr & Hc & Hw) Hlt. pose proof buffer_size_pos.
  destruct (lookup_lt_is_Some_2 (buffer p) (read_pos p)) as [b Hb]; [lia|].
  exists b. split_and!; [done|..].
  - split_and!; simpl; [done|apply Nat.mod_upper_bound; lia|lia|].
    rewrite Hw, Nat.Div0.add_mod_idemp_l. f_equal. lia.
  - unfold contents. simpl. destruct (count p) as [|n]; [lia|]. simpl.
    rewrite Nat.add_0_r, Nat.mod_small, (nth_lookup_Some _ _ _ _ Hb) by done. f_equal.
    rewrite Nat.sub_0_r, <- fmap_S_seq, <- list_fmap_compose.
    apply list_fmap_ext. intros i x _. simpl.
    rewrite Nat.Div0.add_mod_idemp_l. f_equal. f_equal. lia.
Qed.

Lemma write_loop_run p buf written todo :
  pipe_ok p -> (written + todo <= length buf)%nat ->
  let room := (PIPE_BUFFER_SIZE - count p)%nat in
  exists p', write_loop p buf written todo
      = Done (p', if (todo <=? room)%nat then inl (written + todo)%nat else inr (-4)) /\
    pipe_ok p' /\ contents p' = contents p ++ take (Nat.min todo room) (drop written buf).
Proof.
  revert p written. induction todo as [|todo IH]; intros p written Hok Hlen; cbn zeta.
  { exists p. cbn [write_loop Nat.leb]. rewrite Nat.add_0_r.
    split_and!; [done|done|]. simpl. by rewrite app_nil_r. }
  cbn [write_loop]. pose proof Hok as (_ & _ & Hc & _).
  destruct (Nat.leb_spec PIPE_BUFFER_SIZE (count p)) as [Hfull|Hroom].
  { exists p. replace (PIPE_BUFFER_SIZE - count p)%nat with 0%nat by lia. simpl.
    split_and!; [done|done|]. by rewrite app_nil_r. }
  destruct (lookup_lt_is_Some_2 buf written) as [b Hb]; [lia|]. rewrite Hb.
  destruct (put_byte_ok p b Hok Hroom) as [Hok' Hcont].
  destruct (IH (put_byte p b) (S written) Hok') as (p' & Hrun & Hp' & Hc'); [lia|].
  exists p'. simpl count in *. rewrite Hrun. split_and!; [|done|].
  - replace (S todo <=? PIPE_BUFFER_SIZE - count p)%nat
      with (todo <=? PIPE_BUFFER_SIZE - S (count p))%nat
      by (destruct (Nat.leb_spec todo (PIPE_BUFFER_SIZE - S (count p))),
           (Nat.leb_spec (S todo) (PIPE_BUFFER_SIZE - count p)); lia).
    case_match; do 3 f_equal. lia.
  - rewrite Hc', Hcont, <- app_assoc. f_equal. cbn [put_byte count app].
    rewrite (drop_S _ _ _ Hb).
    replace (Nat.min (S todo) (PIPE_BUFFER_SIZE - count p))
      with (S (Nat.min todo (PIPE_BUFFER_SIZE - S (count p)))) by lia. done.
Qed.

Lemma read_loop_run p buf_len out todo :
  pipe_ok p -> (length out + todo <= buf_len)%nat ->
  let n := Nat.min todo (count p) in
  exists p', read_loop p buf_len out todo
      = Done (p', if (writers p =? 0) || (0 <? length out + n)%nat || (todo =? 0)%nat
                  then inl (out ++ take n (contents p)) else inr (-4)) /\
    pipe_ok p' /\ contents p' = drop n (contents p).
Proof.
  revert p out. induction todo as [|todo IH]; intros p out Hok Hlen; cbn zeta.
  { exists p. rewrite orb_true_r. cbn. rewrite app_nil_r. by split_and!. }
  cbn [read_loop]. destruct (Nat.eqb_spec (count p) 0) as [Hz|Hnz].
  { exists p. rewrite Hz, Nat.min_0_r. cbn [take drop Nat.eqb]. rewrite app_nil_r, Nat.add_0_r.
    rewrite orb_false_r. split_and!; [|done|done].
    destruct (writers p =? 0); [done|]. by destruct (0 <? length out)%nat. }
  rewrite (proj2 (Nat.ltb_lt _ _)) by lia.
  destruct (take_byte_ok p Hok) as (b & Hb & Hok' & Hcont); [lia|]. rewrite Hb.
  destruct (IH (take_byte p) (out ++ [b]) Hok') as (p' & Hrun & Hp' & Hc').
  { rewrite length_app. simpl. lia. }
  exists p'. rewrite Hrun. rewrite length_app in *. cbn [take_byte writers count length] in *.
  replace (Nat.min (S todo) (count p)) with (S (Nat.min todo (count p - 1))) by lia.
  rewrite (proj2 (Nat.ltb_lt 0 (length out + 1 + _))) by lia.
  rewrite (proj2 (Nat.ltb_lt 0 (length out + S _))) by lia.
  rewrite !orb_true_r. simpl. split_and!; [|done|].
  - rewrite Hcont. simpl. by rewrite <- app_assoc.
  - by rewrite Hc', Hcont.
Qed.

(** The fields a transfer does not touch. *)
Definition same_ends (p p' : Pipe) : Prop :=
  id p' = id p /\ read_pid p' = read_pid p /\ write_pid p' = write_pid p /\ read_fd p' = read_fd p /\
  write_fd p' = write_fd p /\ readers p' = readers p /\ writers p' = writers p.

Lemma write_loop_ends buf todo : forall p written p' r,
  write_loop p buf written todo = Done (p', r) -> same_ends p p'.
Proof.
  induction todo as [|todo IH]; intros p written p' r; cbn [write_loop]; [by intros [= <- _]|].
  case_match; [by intros [= <- _]|]. case_match; [|done]. intros H'. exact (IH _ _ _ _ H').
Qed.

Lemma read_loop_ends buf_len todo : forall p out p' r,
  read_loop p buf_len out todo = Done (p', r) ->
  same_ends p p' /\ (forall e, r = inr e -> p' = p /\ out = []).
Proof.
  induction todo as [|todo IH]; intros p out p' r; cbn [read_loop]; [by intros [= <- <-]|].
  destruct (count p =? 0)%nat.
  { destruct (writers p =? 0); [by intros [= <- <-]|]. destruct (Nat.ltb_spec 0 (length out)); intros [= <- <-]; [done|].
    split; [done|]. intros e _. split; [done|]. destruct out; [done|simpl in *; lia]. }
  destruct (length out <? buf_len)%nat; [|done]. destruct (buffer p !! read_pos p) as [b|]; [|done].
  intros H. apply IH in H as [H1 H2]. split; [exact H1|]. intros e He. destruct (H2 e He) as [_ Ho]. by destruct out.
Qed.

(** C29: a pipe is a bounded byte queue.  With [buf] holding at least the [n > 0]
    bytes asked for, a write through the write end of a pipe with a reader appends
    to the bytes in the pipe as many as fit and succeeds if all of them fit;
    if not, it reports -4 although the bytes that fit have been written.  A read
    through the read end removes from the front the requested number of bytes or
    all there are, in the order they were written; it fails with -4 exactly when the
    pipe is empty and the write end is open, and then changes nothing, and returns 0
    bytes when the pipe is empty and the write end is closed.  Both keep the pipe well
    formed, with its descriptors, owners and counts, and touch no other pipe. *)
Theorem pipe_is_bounded_queue ns fd idx p buf n :
  pipe_find_by_fd_index ns fd = Some idx -> ns !! idx = Some p ->
  pipe_ok p -> (n <= length buf)%nat -> n <> 0%nat ->
  let room := (PIPE_BUFFER_SIZE - length (contents p))%nat in
  let avail := Nat.min n (length (contents p)) in
  (fd = write_fd p -> readers p <> 0 ->
   exists p', pipe_write_safe ns fd buf n
      = Done (<[idx := p']> ns, if (n <=? room)%nat then inl n else inr (-4)) /\
    pipe_ok p' /\ same_ends p p' /\ contents p' = contents p ++ take (Nat.min n room) buf) /\
  (fd = read_fd p ->
   exists p', pipe_read_safe ns fd (length buf) n
      = Done (<[idx := p']> ns, if (writers p =? 0) || (0 <? avail)%nat
                  then inl (take avail (contents p)) else inr (-4)) /\
    pipe_ok p' /\ same_ends p p' /\ contents p' = drop avail (contents p) /\
    ((writers p =? 0) || (0 <? avail)%nat = false -> <[idx := p']> ns = ns)).
Proof.
  intros Hidx Hp Hok Hn Hnz. cbn zeta. rewrite length_contents.
  unfold pipe_write_safe, pipe_read_safe. rewrite (proj2 (Nat.eqb_neq n 0)), Hidx, Hp by done. split.
  - intros -> Hr. rewrite Z.eqb_refl, (proj2 (Z.eqb_neq _ _) Hr). cbn [negb].
    destruct (write_loop_run p buf 0 n Hok Hn) as (p' & Hrun & Hp' & Hc).
    pose proof (write_loop_ends _ _ _ _ _ _ Hrun) as He. exists p'. rewrite Hrun, drop_0 in *. by split_and!.
  - intros ->. rewrite Z.eqb_refl. cbn [negb].
    destruct (read_loop_run p (length buf) [] n Hok Hn) as (p' & Hrun & Hp' & Hc).
    rewrite (proj2 (Nat.eqb_neq n 0)), orb_false_r in Hrun by done.
    destruct (read_loop_ends _ _ _ _ _ _ Hrun) as [He Hf]. exists p'. rewrite Hrun. split_and!; [done|done|done|done|].
    cbn [length Nat.add app] in Hf. intros Hb. rewrite Hb in Hf. destruct (Hf _ eq_refl) as [-> _].
    by apply list_insert_id.
Qed.

(** ** Witness *)

Definition empty_pipe : Pipe := mkPipe 1 (replicate PIPE_BUFFER_SIZE 0) 0 0 0 7 7 2 3 1 1.

Lemma empty_pipe_ok : pipe_ok empty_pipe.
Proof.
  pose proof buffer_size_pos. split_and!; simpl; [apply length_replicate|done|lia|].
  by rewrite Nat.Div0.mod_0_l.
Qed.

Lemma pipe_is_bounded_queue_witness :
  exists p', pipe_write_safe [empty_pipe] 3 [10; 11; 12] 3 = Done ([p'], inl 3%nat) /\
    pipe_ok p' /\ contents p' = [10; 11; 12].
Proof.
  destruct (pipe_is_bounded_queue [empty_pipe] 3 0 empty_pipe [10; 11; 12] 3 eq_refl eq_refl empty_pipe_ok)
    as [Hw _]; [simpl; lia|discriminate|].
  destruct (Hw eq_refl ltac:(discriminate)) as (p' & H1 & H2 & _ & H3).
  assert (Hroom : (3 <=? PIPE_BUFFER_SIZE - length (contents empty_pipe))%nat = true)
    by (vm_compute; reflexivity).
  rewrite Hroom in H1. exists p'. split; [exact H1|]. split; [exact H2|].
  rewrite H3. change (contents empty_pipe) with (@nil Z).
  rewrite Nat.min_l by (apply Nat.leb_le; exact Hroom). reflexivity.
Defined.

(** The documentation of [pipe_read_safe] has -4 when the pipe is empty and no writer
    waits; an empty pipe without writers is the end of the file, and with one it is
    -4 whether that writer waits or not. *)
Lemma empty_pipe_without_writers_reads_nothing p n :
  count p = 0%nat -> writers p = 0 -> read_loop p n [] (S n) = Done (p, inl []).
Proof. intros Hc Hw. cbn [read_loop]. by rewrite Hc, Hw. Qed.

End PipeFacts.
