(* ===== verification/WaitQueue.v ===== *)
(** * Wait queues and wake-ups of the IPC services

    Model of the wait queue of [src/kernel/services/ipc/types.rs] and of
    [src/kernel/services/ipc/scheduler_integration.rs]: four slots of blocked
    processes, and the wake-ups that take processes out and make them runnable.
    Whether the caller runs in interrupt context is an argument; the pids passed
    to [scheduler_unblock] are a result, in the order of the calls.  The timeout
    variant, which polls the hardware clock, is left out.

    The theorem: no blocked process is lost ([waiters_never_lost]). *)

From S2P Require Import Prelude.

Module WaitQueue.

Record WaitQueue := mkWaitQueue {
  items : list (option Z);
  wcount : Z;
  wake_pending : bool;
}.

Definition new : WaitQueue := mkWaitQueue (replicate 4 None) 0 false.

Definition is_none (slot : option Z) : bool :=
  match slot with None => true | Some _ => false end.

Definition add (q : WaitQueue) (pid : Z) : WaitQueue * bool :=
  if 4 <=? wcount q then (q, false)
  else
    match position is_none (items q) with
    | Some i => (mkWaitQueue (<[i := Some pid]> (items q)) (wrap_u32 (wcount q + 1))
                   (wake_pending q), true)
    | None => (q, false)
    end.

Definition request_wake (q : WaitQueue) : WaitQueue :=
  mkWaitQueue (items q) (wcount q) true.

(** The processes in slots, in order. *)
Fixpoint somes (slots : list (option Z)) : list Z :=
  match slots with
  | [] => []
  | Some pid :: slots => pid :: somes slots
  | None :: slots => somes slots
  end.

(** All slots are taken, each lowers the count by 1. *)
Definition drain_pending (q : WaitQueue) : WaitQueue * list Z :=
  if negb (wake_pending q) then (q, [])
  else
    let out := somes (items q) in
    (mkWaitQueue ((fun _ => None) <$> items q)
       (wrap_u32 (wcount q - Z.of_nat (length out))) false, out).

Definition wake_one (q : WaitQueue) : WaitQueue * option Z :=
  match position (fun slot => negb (is_none slot)) (items q) with
  | Some i => (mkWaitQueue (<[i := None]> (items q)) (wrap_u32 (wcount q - 1))
                 (wake_pending q), mjoin (items q !! i))
  | None => (q, None)
  end.

(** *** [scheduler_integration.rs] *)

(** [Ok] (blocked) is [inl], [Err] is [inr]. *)
Definition block_current_thread (irq : bool) (pid : Z) (q : WaitQueue)
    : WaitQueue * (unit + Z) :=
  if irq then (q, inr (-2))
  else if pid =? 0 then (q, inr (-2))
  else match add q pid with
       | (q, true) => (q, inl tt)
       | (q, false) => (q, inr (-1))
       end.

Definition wake_one_thread (irq : bool) (q : WaitQueue) : WaitQueue * list Z * bool :=
  if irq then (request_wake q, [], true)
  else
    let '(q, drained) := drain_pending q in
    match wake_one q with
    | (q, Some pid) => (q, drained ++ [pid], true)
    | (q, None) => (q, drained, false)
    end.

(** The [while let] loop; each round empties one of the four slots. *)
Fixpoint wake_loop (fuel : nat) (q : WaitQueue) (woken : list Z)
    : option (WaitQueue * list Z) :=
  match fuel with
  | O => None
  | S fuel =>
      match wake_one q with
      | (q, Some pid) => wake_loop fuel q (woken ++ [pid])
      | (q, None) => Some (q, woken)
      end
  end.

Definition wake_all_threads (irq : bool) (q : WaitQueue) : outcome (WaitQueue * list Z) :=
  if irq then Done (request_wake q, [])
  else
    let '(q, drained) := drain_pending q in
    match wake_loop (S (length (items q))) q drained with
    | Some r => Done r
    | None => Deadlock
    end.

End WaitQueue.

Module WaitQueueFacts.
Import WaitQueue.

(** The blocked processes, in slot order. *)
Definition waiting (q : WaitQueue) : list Z := somes (items q).

Definition queue_ok (q : WaitQueue) : Prop :=
  length (items q) = 4%nat /\ wcount q = Z.of_nat (length (waiting q)).

Lemma somes_app l1 l2 : somes (l1 ++ l2) = somes l1 ++ somes l2.
Proof. induction l1 as [|[p|] l1 IH]; simpl; by rewrite ?IH. Qed.

Lemma length_waiting q : (length (waiting q) <= length (items q))%nat.
Proof.
  unfold waiting. induction (items q) as [|[p|] l IH]; simpl; lia.
Qed.

(** The slots around an index, on the level of the blocked processes. *)
Lemma waiting_split q i x :
  items q !! i = Some x ->
  waiting q = somes (take i (items q)) ++ option_list x ++
              somes (drop (S i) (items q)).
Proof.
  intros Hi. unfold waiting. rewrite <- (take_drop_middle _ _ _ Hi) at 1.
  rewrite somes_app. by destruct x.
Qed.

Lemma waiting_insert q i x y n b :
  items q !! i = Some y ->
  waiting (mkWaitQueue (<[i := x]> (items q)) n b)
    = somes (take i (items q)) ++ option_list x ++
      somes (drop (S i) (items q)).
Proof.
  intros Hi. unfold waiting. simpl.
  rewrite insert_take_drop by by eapply lookup_lt_Some.
  rewrite somes_app. by destruct x.
Qed.

Lemma no_slot_free q :
  position is_none (items q) = None -> length (waiting q) = length (items q).
Proof.
  rewrite position_None. unfold waiting. induction (items q) as [|[p|] l IH]; intros H.
  - done.
  - simpl. f_equal. apply IH. intros x Hx. apply H. by right.
  - by specialize (H None ltac:(by left)).
Qed.

Lemma add_spec q pid :
  queue_ok q ->
  queue_ok (fst (add q pid)) /\
  (snd (add q pid) = true <-> (length (waiting q) < 4)%nat) /\
  (snd (add q pid) = true -> waiting (fst (add q pid)) ≡ₚ pid :: waiting q) /\
  (snd (add q pid) = false -> fst (add q pid) = q).
Proof.
  intros [Hl Hc]. unfold add. pose proof (length_waiting q) as Hle.
  destruct (Z.leb_spec 4 (wcount q)) as [Hfull|Hroom]; simpl.
  { split_and!; [done| |done|done]. split; [done|lia]. }
  destruct (position is_none (items q)) as [i|] eqn:Hp; simpl.
  2: { apply no_slot_free in Hp. lia. }
  apply position_Some in Hp as (x & Hi & Hx & _). destruct x; [done|].
  unfold queue_ok. erewrite !(waiting_insert q i (Some pid)) by done.
  rewrite (waiting_split q i None Hi) in *. simpl in *. rewrite length_insert.
  rewrite !length_app in *. simpl in *. rewrite wrap_u32_small.
  2: { unfold u32, U32_MAX. lia. }
  split_and!; [done|lia|split; [lia|done]| |done].
  intros _. by rewrite <- Permutation_middle.
Qed.

(** [wake_one] takes the first blocked process. *)
Lemma wake_one_spec q :
  queue_ok q ->
  queue_ok (fst (wake_one q)) /\ snd (wake_one q) = head (waiting q) /\
  waiting (fst (wake_one q)) = tail (waiting q) /\
  wake_pending (fst (wake_one q)) = wake_pending q.
Proof.
  intros [Hl Hc]. unfold wake_one. pose proof (length_waiting q) as Hle.
  destruct (position _ (items q)) as [i|] eqn:Hp; simpl.
  - apply position_Some in Hp as (x & Hi & Hx & Hbefore). destruct x as [pid|]; [|done].
    assert (Hpre : somes (take i (items q)) = []).
    { clear -Hbefore. revert i Hbefore.
      induction (items q) as [|s l IH]; intros [|i] Hb; try done.
      simpl. pose proof (Hb 0%nat s ltac:(lia) eq_refl) as Hs. destruct s; [done|].
      apply IH. intros j y Hj Hy. apply (Hb (S j)); [lia|done]. }
    unfold queue_ok. erewrite !(waiting_insert q i None) by done.
    rewrite (waiting_split q i _ Hi) in *. rewrite Hpre in *. simpl in *.
    rewrite Hi, length_insert. simpl. split_and!; [done| |done|done|done].
    rewrite wrap_u32_small; [lia|]. unfold u32, U32_MAX. lia.
  - rewrite position_None in Hp.
    assert (Hnil : waiting q = []).
    { unfold waiting. clear -Hp. induction (items q) as [|[p|] l IH]; [done| |].
      - by specialize (Hp (Some p) ltac:(by left)).
      - simpl. apply IH. intros x Hx. apply Hp. by right. }
    rewrite Hnil in *. unfold queue_ok. rewrite Hnil. done.
Qed.

Lemma drain_spec q :
  queue_ok q ->
  let '(q', out) := drain_pending q in
  queue_ok q' /\ wake_pending q' = false /\ length (items q') = length (items q) /\
  (out, waiting q') = if wake_pending q then (waiting q, []) else ([], waiting q).
Proof.
  intros [Hl Hc]. unfold drain_pending. destruct (wake_pending q) eqn:Hp; simpl.
  - assert (Hnil : somes ((fun _ => None) <$> items q) = []).
    { clear. induction (items q); simpl; done. }
    unfold queue_ok, waiting. simpl. rewrite Hnil, length_fmap. split_and!; try done.
    unfold waiting in Hc. rewrite wrap_u32_small; [simpl; lia|].
    unfold u32, U32_MAX. simpl. lia.
  - by split_and!.
Qed.

Lemma wake_loop_spec fuel q woken :
  queue_ok q -> (length (waiting q) < fuel)%nat ->
  exists q', wake_loop fuel q woken = Some (q', woken ++ waiting q) /\
    queue_ok q' /\ waiting q' = [] /\ wake_pending q' = wake_pending q.
Proof.
  revert q woken. induction fuel as [|fuel IH]; intros q woken Hok Hf; [lia|].
  simpl. destruct (wake_one_spec q Hok) as (Hok' & Hh & Ht & Hp).
  destruct (wake_one q) as [q1 [pid|]]; simpl in *.
  - destruct (waiting q) as [|x l]; [done|]. simpl in *. injection Hh as ->.
    destruct (IH q1 (woken ++ [x]) Hok') as (q' & -> & ? & ? & ?); [rewrite Ht; lia|].
    exists q'. rewrite Ht, <- app_assoc. split_and!; [done|done|done|congruence].
  - destruct (waiting q) as [|x l]; [|done]. simpl in *. exists q1.
    by rewrite app_nil_r.
Qed.

(** No blocked process is lost.  [add] answers true exactly when a slot is
    free and then the process is in the queue; a wake-up moves processes from the
    queue to the woken ones and keeps the others.  In interrupt context nobody is
    woken and the request is remembered; the next wake-up in process context then
    wakes everybody; without a remembered request [wake_one_thread] wakes exactly
    the first process, and [wake_all_threads] always ends with an empty queue. *)
Theorem waiters_never_lost q irq pid :
  queue_ok q ->
  (queue_ok (fst (add q pid)) /\
   (snd (add q pid) = true <-> (length (waiting q) < 4)%nat) /\
   (snd (add q pid) = true -> waiting (fst (add q pid)) ≡ₚ pid :: waiting q) /\
   (snd (add q pid) = false -> fst (add q pid) = q)) /\
  (exists q' woken r, wake_one_thread irq q = (q', woken, r) /\ queue_ok q' /\
     waiting q = woken ++ waiting q' /\ wake_pending q' = irq /\
     woken = if irq then [] else if wake_pending q then waiting q
             else take 1 (waiting q)) /\
  (exists q' woken, wake_all_threads irq q = Done (q', woken) /\ queue_ok q' /\
     waiting q = woken ++ waiting q' /\ wake_pending q' = irq /\
     woken = if irq then [] else waiting q).
Proof.
  intros Hok. split; [by apply add_spec|].
  unfold wake_one_thread, wake_all_threads. destruct irq.
  { split; [exists (request_wake q), [], true|exists (request_wake q), []]; done. }
  pose proof (drain_spec q Hok) as Hd. destruct (drain_pending q) as [q1 out].
  destruct Hd as (Hok1 & Hp1 & Hl1 & Hout). split.
  - destruct (wake_one_spec q1 Hok1) as (Hok2 & Hh & Ht & Hp).
    destruct (wake_one q1) as [q2 o]; simpl in *.
    destruct (wake_pending q); injection Hout as -> Hw1; rewrite Hw1 in *; simpl in *.
    + subst o. exists q2, (waiting q), false. rewrite Ht, app_nil_r.
      split_and!; done || congruence.
    + destruct (waiting q) as [|x l]; simpl in *; subst o.
      * exists q2, [], false. rewrite Ht. split_and!; done || congruence.
      * exists q2, [x], true. rewrite Ht. split_and!; done || congruence.
  - destruct (wake_loop_spec (S (length (items q1))) q1 out Hok1)
      as (q2 & -> & Hok2 & Hw2 & Hp2); [pose proof (length_waiting q1); lia|].
    exists q2, (out ++ waiting q1). rewrite Hw2, app_nil_r.
    assert (Hall : out ++ waiting q1 = waiting q).
    { destruct (wake_pending q); injection Hout as -> ->; [by rewrite app_nil_r|done]. }
    split_and!; [done|done|done|congruence|done].
Qed.

Lemma waiters_never_lost_witness :
  let q := mkWaitQueue [Some 7; None; Some 9; None] 2 true in
  exists q' woken r, wake_one_thread false q = (q', woken, r) /\ woken = [7; 9].
Proof.
  intros q.
  destruct (waiters_never_lost q false 11) as (_ & (q' & woken & r & H1 & _ & _ & _ & H2) & _);
    [by split|].
  by exists q', woken, r.
Defined.

End WaitQueueFacts.
