(* ===== verification/MsgQueue.v ===== *)
(** * Message queues

    Model of [src/kernel/services/ipc/msgq.rs] on the types of
    [src/kernel/services/ipc/types.rs], with the node primitives [raw] of
    [src/kernel/framework/ipc/msgq.rs]: bounded queues of messages kept as
    intrusive linked lists with head and tail pointers.  The nodes live in a
    heap of allocated messages; following or freeing a pointer that is not
    allocated is undefined behaviour in the source and [Panic] here.  The
    address the allocator returns is an argument of [msgq_send_safe] (0 when it
    returns none).

    The theorems: for the ids the service hands out, the linked lists implement
    bounded queues, and the heap holds exactly their messages
    ([msgq_refines_queues]); a destroyed queue keeps its tail pointer, through
    which a send to the id 0 reaches freed memory
    ([send_to_id_0_uses_freed_message]). *)

From S2P Require Import Prelude WaitQueue.

Module MsgQueue.

Definition MSG_MAX_SIZE : nat := Z.to_nat 4096.
Definition MSG_QUEUE_MAX_MSGS : Z := 64.
Definition IPC_MAX_MSG_QUEUES : nat := 32.

Record Message := mkMessage {
  type_ : Z;
  sender : Z;
  size : nat;
  data : list Z;
  next : Z;
}.

Definition new_message : Message := mkMessage 0 0 0 (replicate MSG_MAX_SIZE 0) 0.

Record MsgQueue := mkMsgQueue {
  id : Z;
  owner : Z;
  head : Z;
  tail : Z;
  count : Z;
  max_msgs : Z;
  max_size : Z;
  send_wait : WaitQueue.WaitQueue;
  recv_wait : WaitQueue.WaitQueue;
  flags : Z;
  perm : Z;
}.

Definition new_queue : MsgQueue :=
  mkMsgQueue 0 0 0 0 0 MSG_QUEUE_MAX_MSGS (Z.of_nat MSG_MAX_SIZE)
    WaitQueue.new WaitQueue.new 0 0.

(** The queue table, the allocated messages, the id counter of all IPC objects
    and the processes made runnable so far. *)
Record namespace := mkNamespace {
  msg_queues : list MsgQueue;
  heap : gmap Z Message;
  next_id : Z;
  unblocked : list Z;
}.

Definition new_namespace : namespace :=
  mkNamespace (replicate IPC_MAX_MSG_QUEUES new_queue) ∅ 1 [].

(** *** [raw]: nodes behind pointers *)

Definition get (h : gmap Z Message) (p : Z) : outcome Message :=
  match h !! p with
  | Some m => Done m
  | None => Panic
  end.

Definition with_next (p : Z) (m : Message) : Message :=
  mkMessage (type_ m) (sender m) (size m) (data m) p.

Definition set_next (h : gmap Z Message) (p next : Z) : outcome (gmap Z Message) :=
  m ← get h p; Done (<[p := with_next next m]> h).

Definition free (h : gmap Z Message) (p : Z) : outcome (gmap Z Message) :=
  _ ← get h p; Done (delete p h).

(** *** The service *)

Definition msgq_find_free (ns : namespace) : option nat :=
  position (fun q => id q =? 0) (msg_queues ns).

Definition msgq_find_by_id (ns : namespace) (i : Z) : option nat :=
  position (fun q => id q =? i) (msg_queues ns).

(** The answers: [Err], [Ok(())], [Ok(id)] and what [msgq_recv_safe] reports. *)
Inductive result :=
  | Err (e : Z)
  | Ok
  | Created (i : Z)
  | Received (read_size : nat) (out_type : Z) (out_data : option (list Z)).

Definition msgq_create_safe (ns : namespace) (prm current_pid : Z) : namespace * result :=
  match msgq_find_free ns with
  | None => (ns, Err (-1))
  | Some i =>
      let mq := mkMsgQueue (next_id ns) current_pid 0 0 0 MSG_QUEUE_MAX_MSGS
                  (Z.of_nat MSG_MAX_SIZE) WaitQueue.new WaitQueue.new 0 prm in
      (mkNamespace (<[i := mq]> (msg_queues ns)) (heap ns) (wrap_u32 (next_id ns + 1))
         (unblocked ns), Created (next_id ns))
  end.

(** The data array of a new message: the slice [..size] of the source is a
    panic when the caller's slice is shorter. *)
Definition fill_data (src : option (list Z)) (n : nat) : outcome (list Z) :=
  match src with
  | Some (b :: src) =>
      if (0 <? n)%nat then
        if (length (b :: src) <? n)%nat then Panic
        else Done (take n (b :: src) ++ drop n (data new_message))
      else Done (data new_message)
  | _ => Done (data new_message)
  end.

(** Insertion at the tail. *)
Definition enqueue (h : gmap Z Message) (mq : MsgQueue) (p : Z)
    : outcome (gmap Z Message * (Z * Z)) :=
  if tail mq =? 0 then Done (h, (p, p))
  else h ← set_next h (tail mq) p; Done (h, (head mq, p)).

Definition wake_if_waiting (irq : bool) (q : WaitQueue.WaitQueue)
    : WaitQueue.WaitQueue * list Z :=
  if 0 <? WaitQueue.wcount q
  then fst (WaitQueue.wake_one_thread irq q) else (q, []).

Definition msgq_send_safe (ns : namespace) (i ty : Z) (src : option (list Z)) (n : nat)
    (current_pid : Z) (irq : bool) (ptr : Z) : outcome (namespace * result) :=
  if (MSG_MAX_SIZE <? n)%nat then Done (ns, Err (-2))
  else
    match msgq_find_by_id ns i with
    | None => Done (ns, Err (-1))
    | Some k =>
        match msg_queues ns !! k with
        | None => Panic
        | Some mq =>
            if max_msgs mq <=? count mq then Done (ns, Err (-3))
            else if ptr =? 0 then Done (ns, Err (-4))
            else
              bytes ← fill_data src n;
              let h := <[ptr := mkMessage ty current_pid n bytes 0]> (heap ns) in
              '(h, (hd, tl)) ← enqueue h mq ptr;
              let '(rw, woken) := wake_if_waiting irq (recv_wait mq) in
              let mq := mkMsgQueue (id mq) (owner mq) hd tl (wrap_u32 (count mq + 1))
                          (max_msgs mq) (max_size mq) (send_wait mq) rw
                          (flags mq) (perm mq) in
              Done (mkNamespace (<[k := mq]> (msg_queues ns)) h (next_id ns)
                      (unblocked ns ++ woken), Ok)
        end
    end.

(** [buf] is the length of the caller's buffer, if there is one; the bytes
    written to its front are the result. *)
Definition copy_out (m : Message) (buf : option nat) : outcome (option (list Z)) :=
  match buf with
  | None => Done None
  | Some len =>
      let copy_len := Nat.min (size m) len in
      if (0 <? size m)%nat then
        if (length (data m) <? copy_len)%nat then Panic
        else Done (Some (take copy_len (data m)))
      else Done (Some [])
  end.

Definition msgq_recv_safe (ns : namespace) (i : Z) (buf : option nat) (irq : bool)
    : outcome (namespace * result) :=
  match msgq_find_by_id ns i with
  | None => Done (ns, Err (-1))
  | Some k =>
      match msg_queues ns !! k with
      | None => Panic
      | Some mq =>
          if head mq =? 0 then Done (ns, Err (-2))
          else
            m ← get (heap ns) (head mq);
            let hd := next m in
            let tl := if hd =? 0 then 0 else tail mq in
            out ← copy_out m buf;
            h ← free (heap ns) (head mq);
            let '(sw, woken) := wake_if_waiting irq (send_wait mq) in
            let mq := mkMsgQueue (id mq) (owner mq) hd tl (wrap_u32 (count mq - 1))
                        (max_msgs mq) (max_size mq) sw (recv_wait mq)
                        (flags mq) (perm mq) in
            Done (mkNamespace (<[k := mq]> (msg_queues ns)) h (next_id ns)
                    (unblocked ns ++ woken), Received (size m) (type_ m) out)
      end
  end.

(** The loop of [msgq_destroy_safe]; a round frees a node. *)
Fixpoint free_all (fuel : nat) (h : gmap Z Message) (p : Z) : outcome (gmap Z Message) :=
  match fuel with
  | O => Deadlock
  | S fuel =>
      if p =? 0 then Done h
      else m ← get h p; h ← free h p; free_all fuel h (next m)
  end.

(** The head follows the loop and ends as null; the id is cleared, all other
    fields stay. *)
Definition msgq_destroy_safe (ns : namespace) (i : Z) : outcome (namespace * result) :=
  match msgq_find_by_id ns i with
  | None => Done (ns, Err (-1))
  | Some k =>
      match msg_queues ns !! k with
      | None => Panic
      | Some mq =>
          h ← free_all (S (base.size (heap ns))) (heap ns) (head mq);
          let mq := mkMsgQueue 0 (owner mq) 0 (tail mq) (count mq) (max_msgs mq)
                      (max_size mq) (send_wait mq) (recv_wait mq) (flags mq) (perm mq) in
          Done (mkNamespace (<[k := mq]> (msg_queues ns)) h (next_id ns)
                  (unblocked ns), Ok)
      end
  end.

End MsgQueue.

Module MsgQueueFacts.
Import MsgQueue.

(** ** The specification: a table of bounded queues *)

Record amsg := mkAmsg { a_type : Z; a_sender : Z; a_data : list Z }.

(** Per slot the id (0 when it is free) and the messages, oldest first. *)
Abbreviation astate := (list (Z * list amsg)).

Inductive op :=
  | Create (prm pid : Z)
  | Send (i ty : Z) (src : option (list Z)) (n : nat) (pid : Z) (irq : bool) (ptr : Z)
  | Recv (i : Z) (buf : option nat) (irq : bool)
  | Destroy (i : Z).

Definition step (ns : namespace) (o : op) : outcome (namespace * result) :=
  match o with
  | Create prm pid => Done (msgq_create_safe ns prm pid)
  | Send i ty src n pid irq ptr => msgq_send_safe ns i ty src n pid irq ptr
  | Recv i buf irq => msgq_recv_safe ns i buf irq
  | Destroy i => msgq_destroy_safe ns i
  end.

(** The bytes a message carries: those of the caller, or zeros. *)
Definition payload (src : option (list Z)) (n : nat) : list Z :=
  match src with
  | Some (b :: src) => take n (b :: src)
  | _ => replicate n 0
  end.

Definition on_queue (a : astate) (i : Z) (f : list amsg -> (Z * list amsg) * result)
    : astate * result :=
  match position (fun q => fst q =? i) a with
  | None => (a, Err (-1))
  | Some k =>
      match a !! k with
      | None => (a, Err (-1))
      | Some (_, l) => let '(q, r) := f l in (<[k := q]> a, r)
      end
  end.

Definition astep (nid : Z) (a : astate) (o : op) : astate * result :=
  match o with
  | Create _ _ =>
      match position (fun q => fst q =? 0) a with
      | None => (a, Err (-1))
      | Some k => (<[k := (nid, [])]> a, Created nid)
      end
  | Send i ty src n pid _ _ =>
      if (MSG_MAX_SIZE <? n)%nat then (a, Err (-2))
      else on_queue a i (fun l =>
             if MSG_QUEUE_MAX_MSGS <=? Z.of_nat (length l) then ((i, l), Err (-3))
             else ((i, l ++ [mkAmsg ty pid (payload src n)]), Ok))
  | Recv i buf _ =>
      on_queue a i (fun l =>
        match l with
        | [] => ((i, []), Err (-2))
        | m :: l => ((i, l), Received (length (a_data m)) (a_type m)
                               ((fun len => take len (a_data m)) <$> buf))
        end)
  | Destroy i => on_queue a i (fun _ => ((0, []), Ok))
  end.

(** ** Linked lists *)

Definition abs (m : Message) : amsg :=
  mkAmsg (type_ m) (sender m) (take (size m) (data m)).

Definition msg_ok (m : Message) : Prop :=
  length (data m) = MSG_MAX_SIZE /\ (size m <= MSG_MAX_SIZE)%nat.

(** From [p] the nodes [l] follow one another and end with null; they hold
    [ams]. *)
Fixpoint chain (h : gmap Z Message) (p : Z) (l : list Z) (ams : list amsg) : Prop :=
  match l, ams with
  | [], [] => p = 0
  | x :: l, am :: ams =>
      p = x /\ x <> 0 /\
      exists m, h !! x = Some m /\ msg_ok m /\ abs m = am /\ chain h (next m) l ams
  | _, _ => False
  end.

Lemma chain_elem h p l ams x :
  chain h p l ams -> x ∈ l -> x <> 0 /\ is_Some (h !! x).
Proof.
  revert p ams. induction l as [|y l IH]; intros p [|am ams] Hc Hx; try done.
  - by apply not_elem_of_nil in Hx.
  - destruct Hc as (-> & Hy & m & Hm & _ & _ & Hc).
    apply elem_of_cons in Hx as [->|Hx]; [by rewrite Hm|]. by eapply IH.
Qed.

Lemma chain_length h p l ams : chain h p l ams -> length ams = length l.
Proof.
  revert p ams. induction l as [|y l IH]; intros p [|am ams] Hc; try done.
  destruct Hc as (_ & _ & m & _ & _ & _ & Hc). simpl. f_equal. by eapply IH.
Qed.

Lemma chain_null h p l ams : chain h p l ams -> (p = 0 <-> l = []).
Proof.
  destruct l, ams; simpl; try done. intros (-> & Hz & _). split; done.
Qed.

Lemma chain_frame h h' p l ams :
  (forall x, x ∈ l -> h' !! x = h !! x) -> chain h p l ams -> chain h' p l ams.
Proof.
  revert p ams. induction l as [|y l IH]; intros p [|am ams] Hf Hc; try done.
  destruct Hc as (-> & Hy & m & Hm & Hok & Ha & Hc). split_and!; [done|done|].
  exists m. rewrite Hf by by left. split_and!; [done|done|done|].
  apply IH; [|done]. intros x Hx. apply Hf. by right.
Qed.

(** Linking a new node behind the last one. *)
Lemma chain_snoc h p l t ams mt ptr msg :
  chain h p (l ++ [t]) ams -> NoDup (l ++ [t]) -> ptr ∉ l ++ [t] -> ptr <> 0 ->
  h !! t = Some mt -> h !! ptr = Some msg -> msg_ok msg -> next msg = 0 ->
  chain (<[t := with_next ptr mt]> h) p (l ++ [t; ptr]) (ams ++ [abs msg]).
Proof.
  intros Hc Hnd Hnp Hz Ht Hp Hok Hn. revert p ams Hc Hnd Hnp.
  induction l as [|y l IH]; intros p [|am ams] Hc Hnd Hnp; try done; simpl in *.
  - destruct Hc as (-> & Hy & m & Hm & Hmo & Ha & Hc). rewrite Ht in Hm. simplify_eq.
    destruct ams; [|done]. split_and!; [done|done|].
    exists (with_next ptr m). rewrite lookup_insert_eq. split_and!; [done|done|done|].
    split_and!; [done|done|]. exists msg.
    rewrite lookup_insert_ne by set_solver. done.
  - destruct Hc as (-> & Hy & m & Hm & Hmo & Ha & Hc).
    apply NoDup_cons in Hnd as [Hny Hnd]. split_and!; [done|done|].
    exists m. rewrite lookup_insert_ne by set_solver. split_and!; [done|done|done|].
    apply IH; [done|done|set_solver].
Qed.

Lemma nodes_le_heap (h : gmap Z Message) l :
  NoDup l -> (forall x, x ∈ l -> is_Some (h !! x)) -> (length l <= base.size h)%nat.
Proof.
  intros Hnd Hin. rewrite <- (size_list_to_set (C := gset Z) l Hnd), <- (size_dom (D := gset Z)).
  apply subseteq_size. intros x. rewrite elem_of_list_to_set, elem_of_dom. auto.
Qed.

Lemma free_all_run fuel h p l ams :
  chain h p l ams -> NoDup l -> (length l < fuel)%nat ->
  exists h', free_all fuel h p = Done h' /\
    forall x, h' !! x = if decide (x ∈ l) then None else h !! x.
Proof.
  revert h p l ams. induction fuel as [|fuel IH]; intros h p l ams Hc Hnd Hf; [lia|].
  simpl. destruct l as [|y l], ams as [|am ams]; try done.
  - simpl in Hc. subst p. exists h. split; [done|]. intros x.
    by rewrite decide_False by set_solver.
  - destruct Hc as (-> & Hy & m & Hm & _ & _ & Hc). apply Z.eqb_neq in Hy as ->.
    unfold free, get. rewrite Hm. cbn [mbind outcome_bind].
    apply NoDup_cons in Hnd as [Hny Hnd]. simpl in Hf.
    destruct (IH (delete y h) (next m) l ams) as (h' & -> & Hh'); [|done|lia|].
    { eapply chain_frame; [|done]. intros x Hx. apply lookup_delete_ne. congruence. }
    exists h'. split; [done|]. intros x. rewrite Hh'.
    destruct (decide (x ∈ l)) as [Hx|Hx]; [by rewrite decide_True by by right|].
    destruct (decide (x = y)) as [->|Hxy].
    + by rewrite lookup_delete_eq, decide_True by by left.
    + rewrite lookup_delete_ne by done. by rewrite decide_False by set_solver.
Qed.

(** ** The refinement relation *)

Definition slot_ok (h : gmap Z Message) (mq : MsgQueue) (l : list Z) (ams : list amsg)
    : Prop :=
  if id mq =? 0 then l = [] /\ ams = []
  else chain h (head mq) l ams /\ NoDup l /\ tail mq = default 0 (last l) /\
       count mq = Z.of_nat (length l) /\ (length l <= 64)%nat /\ max_msgs mq = 64.

(** [ptrs k] are the nodes of slot [k]: the slots do not share nodes, and the
    allocated messages are exactly the nodes. *)
Record refined (ns : namespace) (a : astate) (ptrs : nat -> list Z) : Prop := {
  rf_ids : fst <$> a = id <$> msg_queues ns;
  rf_slots : forall k mq q, msg_queues ns !! k = Some mq -> a !! k = Some q ->
    slot_ok (heap ns) mq (ptrs k) (snd q);
  rf_out : forall k, msg_queues ns !! k = None -> ptrs k = [];
  rf_disj : forall j k p, p ∈ ptrs j -> p ∈ ptrs k -> j = k;
  rf_heap : forall p, is_Some (heap ns !! p) <-> exists k, p ∈ ptrs k;
}.

Definition refines (ns : namespace) (a : astate) : Prop :=
  exists ptrs, refined ns a ptrs.

Lemma refines_new : refines new_namespace (replicate IPC_MAX_MSG_QUEUES (0, [])).
Proof.
  exists (fun _ => []). split.
  - done.
  - intros k mq q [-> _]%lookup_replicate [-> _]%lookup_replicate. done.
  - done.
  - intros j k p Hp. by apply not_elem_of_nil in Hp.
  - intros p. simpl. rewrite lookup_empty. split; [by intros []|].
    intros (k & Hk). by apply not_elem_of_nil in Hk.
Qed.

Lemma slot_frame h h' mq l ams :
  (forall x, x ∈ l -> h' !! x = h !! x) -> slot_ok h mq l ams -> slot_ok h' mq l ams.
Proof.
  unfold slot_ok. intros Hf. case_match; [done|]. intros (Hc & ?).
  split; [by eapply chain_frame|done].
Qed.

(** Replacing the contents of one slot. *)
Lemma refined_update ns a ptrs k mq mq' h' l' ams' nid u :
  refined ns a ptrs -> msg_queues ns !! k = Some mq ->
  slot_ok h' mq' l' ams' ->
  (forall p, p ∉ ptrs k -> p ∉ l' -> h' !! p = heap ns !! p) ->
  (forall p, p ∈ ptrs k \/ p ∈ l' -> (is_Some (h' !! p) <-> p ∈ l')) ->
  (forall p, p ∈ l' -> p ∈ ptrs k \/ heap ns !! p = None) ->
  refines (mkNamespace (<[k := mq']> (msg_queues ns)) h' nid u)
    (<[k := (id mq', ams')]> a).
Proof.
  intros [Hids Hslots Hout Hdisj Hheap] Hk Hslot Hsame Hnew Hfresh.
  assert (Hne : forall j p, j <> k -> p ∈ ptrs j -> (p ∉ ptrs k) /\ (p ∉ l')).
  { intros j p Hj Hp. assert (Hnk : p ∉ ptrs k) by eauto.
    split; [done|]. intros [?|Hnone]%Hfresh; [done|].
    destruct (Hheap p) as [_ Hh]. rewrite Hnone in Hh.
    by destruct Hh as [? ?]; [exists j|]. }
  exists (fun j => if decide (j = k) then l' else ptrs j).
  split; cbn [msg_queues heap].
  - by rewrite !list_fmap_insert, Hids.
  - intros j m q Hm Hq. case_decide as E.
    + subst j. apply list_lookup_insert_Some in Hm as [(_ & <- & _)|[? _]]; [|done].
      by apply list_lookup_insert_Some in Hq as [(_ & <- & _)|[? _]].
    + rewrite list_lookup_insert_ne in Hm by done.
      rewrite list_lookup_insert_ne in Hq by done.
      eapply slot_frame; [|by eapply Hslots]. intros x Hx.
      destruct (Hne j x E Hx). by apply Hsame.
  - intros j. case_decide as E.
    + subst j. intros Hnone%lookup_ge_None. rewrite length_insert in Hnone.
      apply lookup_lt_Some in Hk. lia.
    + rewrite list_lookup_insert_ne by done. apply Hout.
  - intros i j p. repeat case_decide; subst; intros Hi Hj; try done.
    + by destruct (Hne j p) as [_ []].
    + by destruct (Hne i p) as [_ []].
    + by eapply Hdisj.
  - intros p. destruct (decide (p ∈ ptrs k \/ p ∈ l')) as [Hp|Hp].
    + rewrite Hnew by done. split.
      * intros Hl. exists k. by rewrite decide_True.
      * intros (j & Hj). case_decide as E; [done|]. destruct (Hne j p E Hj). naive_solver.
    + rewrite Hsame, Hheap by naive_solver. split; intros (j & Hj).
      * exists j. rewrite decide_False; [done|]. intros ->. naive_solver.
      * case_decide; [naive_solver|by exists j].
Qed.

(** ** The operations *)

Lemma find_agrees ns a ptrs i :
  refined ns a ptrs -> position (fun q => fst q =? i) a = msgq_find_by_id ns i.
Proof.
  intros Hr. pose proof (position_fmap (fun x => x =? i) fst a) as Ha.
  pose proof (position_fmap (fun x => x =? i) id (msg_queues ns)) as Hq.
  rewrite (rf_ids _ _ _ Hr) in Ha. unfold msgq_find_by_id.
  by etrans; [symmetry; apply Ha|apply Hq].
Qed.

(** A queue found by an id that is in use. *)
Lemma found_queue ns a ptrs i k :
  refined ns a ptrs -> i <> 0 -> msgq_find_by_id ns i = Some k ->
  exists mq ams, msg_queues ns !! k = Some mq /\ a !! k = Some (i, ams) /\ id mq = i /\
    chain (heap ns) (head mq) (ptrs k) ams /\ NoDup (ptrs k) /\
    tail mq = default 0 (last (ptrs k)) /\ count mq = Z.of_nat (length (ptrs k)) /\
    (length (ptrs k) <= 64)%nat /\ max_msgs mq = 64.
Proof.
  intros Hr Hi (mq & Hk & Hid%Z.eqb_eq & _)%position_Some.
  assert (Hak : (fst <$> a) !! k = Some (id mq))
    by by rewrite (rf_ids _ _ _ Hr), list_lookup_fmap, Hk.
  rewrite list_lookup_fmap in Hak.
  destruct (a !! k) as [[i' ams]|] eqn:Hq; [|done]. simpl in Hak. simplify_eq.
  pose proof (rf_slots _ _ _ Hr _ _ _ Hk Hq) as Hs. unfold slot_ok in Hs.
  rewrite (proj2 (Z.eqb_neq _ _) Hi) in Hs. exists mq, ams. split_and!; done || apply Hs.
Qed.

Lemma on_queue_found a i k ams f :
  position (fun q => fst q =? i) a = Some k -> a !! k = Some (i, ams) ->
  on_queue a i f = let '(q, r) := f ams in (<[k := q]> a, r).
Proof. unfold on_queue. by intros -> ->. Qed.

Lemma create_refines ns a prm pid :
  refines ns a -> next_id ns <> 0 ->
  let '(a', r) := astep (next_id ns) a (Create prm pid) in
  exists ns', step ns (Create prm pid) = Done (ns', r) /\ refines ns' a'.
Proof.
  intros [ptrs Hr] Hn. simpl. rewrite (find_agrees _ _ _ 0 Hr).
  unfold msgq_create_safe. change (msgq_find_free ns) with (msgq_find_by_id ns 0).
  destruct (msgq_find_by_id ns 0) as [k|] eqn:Hf; [|by eexists; split; [|exists ptrs]].
  eexists. split; [done|]. pose proof Hf as (mq & Hk & Hid & _)%position_Some.
  assert (Hnil : ptrs k = []).
  { destruct (a !! k) as [q|] eqn:Hq.
    - pose proof (rf_slots _ _ _ Hr _ _ _ Hk Hq) as Hs. unfold slot_ok in Hs.
      rewrite Hid in Hs. apply Hs.
    - apply lookup_ge_None in Hq. apply lookup_lt_Some in Hk.
      pose proof (rf_ids _ _ _ Hr) as Hl%(f_equal length).
      rewrite !length_fmap in Hl. lia. }
  eapply (refined_update _ _ _ _ _ (mkMsgQueue (next_id ns) pid 0 0 0 _ _ _ _ _ _)
            _ [] []); [done|done| |done| |].
  - unfold slot_ok. simpl. rewrite (proj2 (Z.eqb_neq _ _) Hn).
    split_and!; [done|constructor|done|done|lia|done].
  - intros p. rewrite Hnil. set_solver.
  - set_solver.
Qed.

Lemma fill_data_run src n :
  (n <= MSG_MAX_SIZE)%nat ->
  (forall bytes, src = Some bytes -> bytes <> [] -> (n <= length bytes)%nat) ->
  exists bytes, fill_data src n = Done bytes /\ length bytes = MSG_MAX_SIZE /\
    take n bytes = payload src n.
Proof.
  intros Hn Hsrc.
  assert (Hz : take n (data new_message) = replicate n 0).
  { unfold new_message. cbn [data]. rewrite take_replicate. f_equal. lia. }
  destruct src as [[|b src]|]; unfold fill_data, payload;
    [eexists; split_and!; [done|apply length_replicate|done]| |
     eexists; split_and!; [done|apply length_replicate|done]].
  specialize (Hsrc _ eq_refl ltac:(done)).
  destruct (Nat.ltb_spec 0 n) as [Hp|Hp].
  - rewrite (proj2 (Nat.ltb_ge _ _)) by done. eexists. split_and!; [done| |].
    + rewrite length_app, length_take, length_drop. unfold new_message. cbn [data].
      rewrite length_replicate. lia.
    + rewrite take_app_le by (rewrite length_take; lia). rewrite take_take. f_equal. lia.
  - assert (n = 0%nat) as -> by lia. eexists. split_and!; [done|apply length_replicate|done].
Qed.

Lemma enqueue_run h mq l ams ptr msg :
  chain h (head mq) l ams -> NoDup l -> tail mq = default 0 (last l) ->
  h !! ptr = None -> ptr <> 0 -> msg_ok msg -> next msg = 0 ->
  exists h' hd, enqueue (<[ptr := msg]> h) mq ptr = Done (h', (hd, ptr)) /\
    chain h' hd (l ++ [ptr]) (ams ++ [abs msg]) /\ NoDup (l ++ [ptr]) /\
    forall p, p ∉ l ++ [ptr] -> h' !! p = h !! p.
Proof.
  intros Hc Hnd Htl Hfresh Hz Hok Hnx. unfold enqueue. rewrite Htl.
  assert (Hnl : ptr ∉ l).
  { intros Hin. destruct (chain_elem _ _ _ _ _ Hc Hin) as [_ [? ?]]. congruence. }
  assert (Hc' : chain (<[ptr := msg]> h) (head mq) l ams).
  { eapply chain_frame; [|done]. intros x Hx. apply lookup_insert_ne. congruence. }
  assert (Hnd' : NoDup (l ++ [ptr])).
  { apply NoDup_app. split_and!; [done|set_solver|apply NoDup_singleton]. }
  destruct l as [|t l _] using rev_ind; simpl.
  - destruct ams; [|done]. do 2 eexists. split_and!; [done| |done|].
    + simpl. split_and!; [done|done|]. exists msg. by rewrite lookup_insert_eq.
    + intros p Hp. apply lookup_insert_ne. set_solver.
  - rewrite last_snoc. simpl.
    destruct (chain_elem _ _ _ _ t Hc' ltac:(set_solver)) as [Ht [mt Hmt]].
    rewrite (proj2 (Z.eqb_neq _ _) Ht). unfold set_next, get. rewrite Hmt.
    cbn [mbind outcome_bind]. do 2 eexists. split_and!; [done| |done|].
    + rewrite <- app_assoc. apply chain_snoc; try done. by rewrite lookup_insert_eq.
    + intros p Hp. rewrite !lookup_insert_ne by set_solver. done.
Qed.

(** What the caller and the allocator guarantee: an id the service handed out,
    a fresh non-null address, a slice with the announced bytes. *)
Definition op_ok (ns : namespace) (o : op) : Prop :=
  match o with
  | Create _ _ => next_id ns <> 0
  | Send i _ src n _ _ ptr =>
      i <> 0 /\ ptr <> 0 /\ heap ns !! ptr = None /\
      (forall bytes, src = Some bytes -> bytes <> [] -> (n <= length bytes)%nat)
  | Recv i _ _ => i <> 0
  | Destroy i => i <> 0
  end.

Lemma send_refines ns a i ty src n pid irq ptr :
  let o := Send i ty src n pid irq ptr in
  refines ns a -> op_ok ns o ->
  let '(a', r) := astep (next_id ns) a o in
  exists ns', step ns o = Done (ns', r) /\ refines ns' a'.
Proof.
  intros o [ptrs Hr] (Hi & Hp & Hfresh & Hsrc). subst o. cbn [astep step].
  unfold msgq_send_safe. destruct (Nat.ltb_spec MSG_MAX_SIZE n) as [|Hn].
  { eexists. split; [done|]. by exists ptrs. }
  pose proof (find_agrees _ _ _ i Hr) as Hf.
  destruct (msgq_find_by_id ns i) as [k|] eqn:Hk.
  2: { unfold on_queue. rewrite Hf. eexists. split; [done|]. by exists ptrs. }
  destruct (found_queue _ _ _ _ _ Hr Hi Hk)
    as (mq & ams & Hq & Ha & Hid & Hc & Hnd & Htl & Hcnt & Hle & Hmax).
  rewrite (on_queue_found _ _ _ _ _ Hf Ha), Hq, Hmax, Hcnt, (chain_length _ _ _ _ Hc).
  unfold MSG_QUEUE_MAX_MSGS. destruct (Z.leb_spec 64 (Z.of_nat (length (ptrs k)))).
  { rewrite list_insert_id by done. eexists. split; [done|]. by exists ptrs. }
  rewrite (proj2 (Z.eqb_neq _ _) Hp).
  destruct (fill_data_run src n Hn Hsrc) as (bytes & -> & Hlen & Hpay).
  cbn [mbind outcome_bind]. set (msg := mkMessage ty pid n bytes 0).
  destruct (enqueue_run _ _ _ _ ptr msg Hc Hnd Htl Hfresh Hp) as
    (h' & hd & -> & Hc' & Hnd' & Hh'); [done|done|]. cbn [mbind outcome_bind].
  destruct (wake_if_waiting irq (recv_wait mq)) as [rw woken].
  eexists. split; [done|]. rewrite <- Hid. rewrite <- Hpay.
  eapply (refined_update _ _ _ _ _ (mkMsgQueue (id mq) _ _ _ _ _ _ _ _ _ _)
            _ (ptrs k ++ [ptr])); [done|done| | | |].
  - unfold slot_ok. cbn [id head tail count max_msgs]. rewrite Hid.
    rewrite (proj2 (Z.eqb_neq _ _) Hi), last_snoc, length_app. simpl.
    split_and!; [done|done|done| |lia|done].
    rewrite wrap_u32_small; unfold u32, U32_MAX; lia.
  - intros p _ Hp'. by apply Hh'.
  - intros p Hp'. split; [|intros Hin; by eapply chain_elem].
    intros _. set_solver.
  - intros p [?| ->%list_elem_of_singleton]%elem_of_app; [by left|by right].
Qed.

Lemma copy_out_run m buf :
  msg_ok m -> copy_out m buf = Done ((fun len => take len (a_data (abs m))) <$> buf).
Proof.
  intros [Hl Hs]. unfold copy_out. destruct buf as [len|]; [|done]. simpl.
  rewrite take_take. destruct (Nat.ltb_spec 0 (size m)) as [H0|H0].
  - rewrite (proj2 (Nat.ltb_ge _ _)) by lia. by rewrite Nat.min_comm.
  - assert (size m = 0%nat) as -> by lia. by rewrite Nat.min_0_r.
Qed.

Lemma recv_refines ns a i buf irq :
  let o := Recv i buf irq in
  refines ns a -> op_ok ns o ->
  let '(a', r) := astep (next_id ns) a o in
  exists ns', step ns o = Done (ns', r) /\ refines ns' a'.
Proof.
  intros o [ptrs Hr] Hi. subst o. cbn [astep step op_ok] in *. unfold msgq_recv_safe.
  pose proof (find_agrees _ _ _ i Hr) as Hf.
  destruct (msgq_find_by_id ns i) as [k|] eqn:Hk.
  2: { unfold on_queue. rewrite Hf. eexists. split; [done|]. by exists ptrs. }
  destruct (found_queue _ _ _ _ _ Hr Hi Hk)
    as (mq & ams & Hq & Ha & Hid & Hc & Hnd & Htl & Hcnt & Hle & Hmax).
  rewrite (on_queue_found _ _ _ _ _ Hf Ha), Hq.
  destruct (ptrs k) as [|x l] eqn:Hpk, ams as [|am ams]; try done.
  { simpl in Hc. rewrite Hc. simpl. rewrite list_insert_id by done.
    eexists. split; [done|]. by exists ptrs. }
  destruct Hc as (-> & Hx & m & Hm & Hmo & <- & Hc).
  rewrite (proj2 (Z.eqb_neq _ _) Hx). unfold free, get. rewrite Hm.
  cbn [mbind outcome_bind]. rewrite (copy_out_run m buf Hmo). cbn [mbind outcome_bind].
  destruct (wake_if_waiting irq (send_wait mq)) as [sw woken].
  assert (Hsz : length (a_data (abs m)) = size m).
  { simpl. rewrite length_take. destruct Hmo. lia. }
  rewrite Hsz. eexists. split; [done|]. rewrite <- Hid.
  apply NoDup_cons in Hnd as [Hnx Hnd].
  assert (Hc' : chain (delete x (heap ns)) (next m) l ams).
  { eapply chain_frame; [|done]. intros y Hy. apply lookup_delete_ne. congruence. }
  eapply (refined_update _ _ _ _ _ (mkMsgQueue (id mq) _ _ _ _ _ _ _ _ _ _) _ l);
    [done|done| | | |]; rewrite ?Hpk.
  - unfold slot_ok. cbn [id head tail count max_msgs]. rewrite Hid.
    rewrite (proj2 (Z.eqb_neq _ _) Hi). simpl in Hcnt, Hle. split_and!; try done; [| |lia].
    + destruct (Z.eqb_spec (next m) 0) as [E%(chain_null _ _ _ _ Hc)|E]; [by subst l|].
      rewrite (chain_null _ _ _ _ Hc) in E. rewrite Htl. by destruct l.
    + rewrite Hcnt, wrap_u32_small; unfold u32, U32_MAX; lia.
  - intros p Hp _. apply lookup_delete_ne. set_solver.
  - intros p Hp. split; [|intros Hin; by eapply chain_elem].
    intros Hs. destruct (decide (p = x)) as [->|]; [|set_solver].
    rewrite lookup_delete_eq in Hs. by destruct Hs.
  - intros p Hp. left. by right.
Qed.

Lemma destroy_refines ns a i :
  let o := Destroy i in
  refines ns a -> op_ok ns o ->
  let '(a', r) := astep (next_id ns) a o in
  exists ns', step ns o = Done (ns', r) /\ refines ns' a'.
Proof.
  intros o [ptrs Hr] Hi. subst o. cbn [astep step op_ok] in *. unfold msgq_destroy_safe.
  pose proof (find_agrees _ _ _ i Hr) as Hf.
  destruct (msgq_find_by_id ns i) as [k|] eqn:Hk.
  2: { unfold on_queue. rewrite Hf. eexists. split; [done|]. by exists ptrs. }
  destruct (found_queue _ _ _ _ _ Hr Hi Hk)
    as (mq & ams & Hq & Ha & Hid & Hc & Hnd & Htl & Hcnt & Hle & Hmax).
  rewrite (on_queue_found _ _ _ _ _ Hf Ha), Hq.
  destruct (free_all_run (S (base.size (heap ns))) _ _ _ _ Hc Hnd) as (h' & -> & Hh').
  { pose proof (nodes_le_heap (heap ns) (ptrs k) Hnd) as Hs. apply Nat.lt_succ_r, Hs.
    intros x Hx. by eapply chain_elem. }
  cbn [mbind outcome_bind]. eexists. split; [done|].
  eapply (refined_update _ _ _ _ _ (mkMsgQueue 0 _ _ _ _ _ _ _ _ _ _) _ [] []);
    [done|done|done| | |set_solver].
  - intros p Hp _. rewrite Hh'. by rewrite decide_False.
  - intros p [Hp|Hp]; [|set_solver]. rewrite Hh', decide_True by done.
    split; [by intros []|set_solver].
Qed.

(** C32: message queues are bounded queues.  Whenever the table of linked lists
    represents a table of queues and the caller passes an id the service handed
    out and a readable slice, each of the four calls returns, answers as the
    specification does on every branch (unknown id, oversized message, full
    queue, empty queue), and leaves lists that represent the new queues: sends
    append, receives take the oldest message with its bytes, other queues do not
    change, and the heap holds exactly the queued messages, so no message is
    leaked, freed twice or read after it was freed.  The heap gives fresh non-null
    addresses, and the next id handed out is not zero. *)
Theorem msgq_refines_queues ns a o :
  refines ns a -> op_ok ns o ->
  let '(a', r) := astep (next_id ns) a o in
  exists ns', step ns o = Done (ns', r) /\ refines ns' a'.
Proof.
  intros Hr Ho. destruct o; [by apply create_refines|by apply send_refines|
    by apply recv_refines|by apply destroy_refines].
Qed.

Lemma msgq_refines_queues_witness :
  let ns := fst (msgq_create_safe new_namespace 438 7) in
  let a : astate := (1, []) :: replicate 31 (0, []) in
  exists ns', step ns (Send 1 5 (Some [10; 20; 30]) 2 7 false 4096) = Done (ns', Ok) /\
    refines ns' ((1, [mkAmsg 5 7 [10; 20]]) :: replicate 31 (0, [])).
Proof.
  intros ns a.
  assert (Hr : refines ns a).
  { pose proof (create_refines new_namespace _ 438 7 refines_new ltac:(done)) as Hc.
    simpl in Hc. destruct Hc as (ns1 & Hs & Hr). by injection Hs as <-. }
  apply (msgq_refines_queues ns a (Send 1 5 (Some [10; 20; 30]) 2 7 false 4096) Hr).
  split_and!; [done|done|done|]. intros bytes [= <-] _. simpl. lia.
Defined.

(** A destroyed queue keeps its tail pointer and its count, and a free slot
    answers to the id 0.  When the destroyed queue held messages and its slot is
    the first free one, a send to the id 0 that passes the checks follows the
    tail to a message that has been freed. *)
Theorem send_to_id_0_uses_freed_message ns a i k mq ns1 ty src n pid irq ptr :
  refines ns a -> i <> 0 ->
  msgq_find_by_id ns i = Some k -> msg_queues ns !! k = Some mq -> 0 < count mq < 64 ->
  msgq_destroy_safe ns i = Done (ns1, Ok) -> msgq_find_free ns1 = Some k ->
  (n <= MSG_MAX_SIZE)%nat -> ptr <> 0 -> ptr <> tail mq ->
  (forall bytes, src = Some bytes -> bytes <> [] -> (n <= length bytes)%nat) ->
  heap ns1 !! tail mq = None /\
  msgq_send_safe ns1 0 ty src n pid irq ptr = Panic.
Proof.
  intros [ptrs Hr] Hi Hf Hk Hcount Hd Hfree Hn Hp Hpt Hsrc.
  destruct (found_queue _ _ _ _ _ Hr Hi Hf)
    as (mq' & ams & Hq & Ha & Hid & Hc & Hnd & Htl & Hcnt & Hle & Hmax).
  rewrite Hk in Hq. injection Hq as <-. unfold msgq_destroy_safe in Hd.
  rewrite Hf, Hk in Hd.
  destruct (free_all_run (S (base.size (heap ns))) _ _ _ _ Hc Hnd) as (h' & Hrun & Hh').
  { pose proof (nodes_le_heap (heap ns) (ptrs k) Hnd) as Hs. apply Nat.lt_succ_r, Hs.
    intros x Hx. by eapply chain_elem. }
  rewrite Hrun in Hd. cbn [mbind outcome_bind] in Hd. injection Hd as <-. cbn [heap].
  destruct (ptrs k) as [|t l _] using rev_ind; [simpl in Hcnt; lia|].
  rewrite last_snoc in Htl. simpl in Htl.
  destruct (chain_elem _ _ _ _ t Hc ltac:(set_solver)) as [Ht _].
  assert (Hnone : h' !! tail mq = None).
  { rewrite Htl, Hh', decide_True by set_solver. done. }
  split; [done|]. unfold msgq_send_safe.
  rewrite (proj2 (Nat.ltb_ge _ _) Hn). change (msgq_find_by_id _ 0) with (msgq_find_free
    (mkNamespace (<[k:=mkMsgQueue 0 (owner mq) 0 (tail mq) (count mq) (max_msgs mq)
       (max_size mq) (send_wait mq) (recv_wait mq) (flags mq) (perm mq)]> (msg_queues ns))
       h' (next_id ns) (unblocked ns))).
  rewrite Hfree. cbn [msg_queues]. rewrite list_lookup_insert_eq by by eapply lookup_lt_Some.
  cbn [max_msgs count heap]. rewrite Hmax, (proj2 (Z.leb_gt _ _)), (proj2 (Z.eqb_neq _ _) Hp)
    by lia.
  destruct (fill_data_run src n Hn Hsrc) as (bytes & -> & _). cbn [mbind outcome_bind].
  unfold enqueue, set_next, get. cbn [tail].
  rewrite (proj2 (Z.eqb_neq (tail mq) 0)) by congruence.
  by rewrite lookup_insert_ne, Hnone by done.
Qed.

(** Create, send, destroy, send to the id 0. *)
Lemma send_to_id_0_uses_freed_message_witness :
  let ns0 := fst (msgq_create_safe new_namespace 438 7) in
  exists ns ns1, msgq_send_safe ns0 1 5 None 0 7 false 4096 = Done (ns, Ok) /\
    msgq_destroy_safe ns 1 = Done (ns1, Ok) /\
    msgq_send_safe ns1 0 5 None 0 7 false 8192 = Panic.
Proof.
  intros ns0.
  destruct (create_refines new_namespace _ 438 7 refines_new ltac:(done))
    as (ns' & [= Hs] & Hr).
  destruct (send_refines ns' _ 1 5 None 0 7 false 4096 Hr) as (ns & Hsend & Hr').
  { by subst ns'. }
  subst ns'. exists ns. vm_compute in Hsend.
  injection Hsend as Hns. subst ns.
  eexists. split; [by vm_compute|]. split; [by vm_compute|].
  eapply (send_to_id_0_uses_freed_message _ _ 1 0);
    [exact Hr'|done|by vm_compute|by vm_compute|by vm_compute|by vm_compute|
     by vm_compute|lia|done|by vm_compute|done].
Defined.

End MsgQueueFacts.
