(* ===== verification/Shm.v ===== *)
(** * Shared memory segments

    Model of [src/kernel/services/ipc/shm.rs] on the segments of
    [src/kernel/services/ipc/types.rs]: creation, attaching and detaching
    processes, destruction.  The address [pmm_alloc_pages] returns is an
    argument (0 when the allocation fails); the page ranges passed to
    [pmm_free_pages] are a result.

    The theorem: reference counts are exact and every page range is held by a
    segment or was given back once ([shm_accounting]). *)

From S2P Require Import Prelude.

Module Shm.

Definition IPC_MAX_SHM_SEGS : nat := 16.
Definition SHM_MAX_SIZE : Z := 16 * 1024 * 1024.
Definition PAGE_SIZE : Z := 4096.
Definition MAX_ATTACHED : nat := 16.

Record ShmSegment := mkShmSegment {
  id : Z;
  phys_addr : Z;
  size : Z;
  creator : Z;
  ref_count : Z;
  attached_pids : list Z;
  attach_count : nat;
  flags : Z;
  perm : Z;
}.

Definition new_segment : ShmSegment :=
  mkShmSegment 0 0 0 0 0 (replicate MAX_ATTACHED 0) 0 0 0.

Definition shm_find_free (segs : list ShmSegment) : option nat :=
  position (fun s => id s =? 0) segs.

Definition shm_find_by_id (segs : list ShmSegment) (i : Z) : option nat :=
  position (fun s => id s =? i) segs.

(** [size.div_ceil(PAGE_SIZE)]. *)
Definition pages (sz : Z) : Z := (sz + PAGE_SIZE - 1) / PAGE_SIZE.

(** The segments, the id counter and [Ok] as [inl], [Err] as [inr].  The last
    component is the number of pages asked for, 0 when the call ends before. *)
Definition shm_create_safe (segs : list ShmSegment) (next_id sz prm current_pid phys : Z)
    : list ShmSegment * Z * (Z + Z) * Z :=
  if (sz =? 0) || (SHM_MAX_SIZE <? sz) then (segs, next_id, inr (-1), 0)
  else
    match shm_find_free segs with
    | None => (segs, next_id, inr (-2), 0)
    | Some k =>
        if phys =? 0 then (segs, next_id, inr (-3), pages sz)
        else
          let shm := mkShmSegment next_id phys sz current_pid 0
                       (replicate MAX_ATTACHED 0) 0 0 prm in
          (<[k := shm]> segs, wrap_u32 (next_id + 1), inl next_id, pages sz)
    end.

Definition with_attached (pids : list Z) (n : nat) (refs : Z) (s : ShmSegment)
    : ShmSegment :=
  mkShmSegment (id s) (phys_addr s) (size s) (creator s) refs pids n (flags s) (perm s).

(** Index of [pid] among the first [attach_count] entries. *)
Definition attached_index (s : ShmSegment) (pid : Z) : option nat :=
  position (fun p => p =? pid) (take (attach_count s) (attached_pids s)).

Definition attach_segment (s : ShmSegment) (pid : Z) : ShmSegment * (Z + Z) :=
  match attached_index s pid with
  | Some _ => (s, inl (phys_addr s))
  | None =>
      if (MAX_ATTACHED <=? attach_count s)%nat then (s, inr (-2))
      else (with_attached (<[attach_count s := pid]> (attached_pids s))
              (S (attach_count s)) (wrap_u32 (ref_count s + 1)) s, inl (phys_addr s))
  end.

Definition shm_attach_safe (segs : list ShmSegment) (i pid : Z)
    : list ShmSegment * (Z + Z) :=
  match shm_find_by_id segs i with
  | None => (segs, inr (-1))
  | Some k =>
      match segs !! k with
      | None => (segs, inr (-1))
      | Some s => let '(s, r) := attach_segment s pid in (<[k := s]> segs, r)
      end
  end.

(** The last entry moves into the hole. *)
Definition detach_segment (s : ShmSegment) (pid : Z) : ShmSegment * (unit + Z) :=
  match attached_index s pid with
  | None => (s, inr (-2))
  | Some j =>
      let last := (attach_count s - 1)%nat in
      let pids := <[j := nth last (attached_pids s) 0]> (attached_pids s) in
      (with_attached (<[last := 0]> pids) last (wrap_u32 (ref_count s - 1)) s, inl tt)
  end.

Definition shm_detach_safe (segs : list ShmSegment) (i pid : Z)
    : list ShmSegment * (unit + Z) :=
  match shm_find_by_id segs i with
  | None => (segs, inr (-1))
  | Some k =>
      match segs !! k with
      | None => (segs, inr (-1))
      | Some s => let '(s, r) := detach_segment s pid in (<[k := s]> segs, r)
      end
  end.

(** The page range given back, if any, is the last component. *)
Definition shm_destroy_safe (segs : list ShmSegment) (i : Z)
    : list ShmSegment * (unit + Z) * option (Z * Z) :=
  match shm_find_by_id segs i with
  | None => (segs, inr (-1), None)
  | Some k =>
      match segs !! k with
      | None => (segs, inr (-1), None)
      | Some s =>
          if 0 <? ref_count s then (segs, inr (-2), None)
          else
            (<[k := mkShmSegment 0 0 0 (creator s) (ref_count s) (attached_pids s)
                      (attach_count s) (flags s) (perm s)]> segs,
             inl tt, Some (phys_addr s, pages (size s)))
      end
  end.

(** ** Sequences of calls

    [allocated] and [freed] list the page ranges that went through the page
    allocator.  [Create] carries the value of the shared id counter. *)
Record state := mkState {
  segs : list ShmSegment;
  allocated : list (Z * Z);
  freed : list (Z * Z);
}.

Definition boot : state := mkState (replicate IPC_MAX_SHM_SEGS new_segment) [] [].

Inductive op :=
  | Create (next_id sz prm pid phys : Z)
  | Attach (i pid : Z)
  | Detach (i pid : Z)
  | Destroy (i : Z).

Definition do_op (s : state) (o : op) : state :=
  match o with
  | Create nid sz prm pid phys =>
      match shm_create_safe (segs s) nid sz prm pid phys with
      | (l, _, inl _, n) => mkState l ((phys, n) :: allocated s) (freed s)
      | (l, _, inr _, _) => mkState l (allocated s) (freed s)
      end
  | Attach i pid => mkState (fst (shm_attach_safe (segs s) i pid)) (allocated s) (freed s)
  | Detach i pid => mkState (fst (shm_detach_safe (segs s) i pid)) (allocated s) (freed s)
  | Destroy i =>
      match shm_destroy_safe (segs s) i with
      | (l, _, Some r) => mkState l (allocated s) (r :: freed s)
      | (l, _, None) => mkState l (allocated s) (freed s)
      end
  end.

Definition run (ops : list op) : state := fold_left do_op ops boot.

End Shm.

Module ShmFacts.
Import Shm.

(** The processes a segment counts as attached. *)
Definition attached (s : ShmSegment) : list Z := take (attach_count s) (attached_pids s).

Record seg_ok (s : ShmSegment) : Prop := {
  so_length : length (attached_pids s) = MAX_ATTACHED;
  so_count : (attach_count s <= MAX_ATTACHED)%nat;
  so_refs : ref_count s = Z.of_nat (attach_count s);
  so_nodup : NoDup (attached s);
  so_free : id s = 0 -> phys_addr s = 0 /\ size s = 0;
  so_used : id s <> 0 -> 0 < size s;
}.

Lemma length_attached s : seg_ok s -> length (attached s) = attach_count s.
Proof. intros [Hl Hc]. unfold attached. rewrite length_take. lia. Qed.

Lemma attached_index_Some s pid j :
  attached_index s pid = Some j -> attached s !! j = Some pid.
Proof. by intros (x & Hx & ->%Z.eqb_eq & _)%position_Some. Qed.

Lemma attached_index_None s pid : attached_index s pid = None <-> pid ∉ attached s.
Proof.
  unfold attached_index. rewrite position_None. split.
  - intros H Hin. specialize (H pid Hin). by rewrite Z.eqb_refl in H.
  - intros H x Hx. apply Z.eqb_neq. by intros ->.
Qed.

(** Attaching is idempotent, bounded, and adds just the process. *)
Lemma attach_spec s pid :
  seg_ok s ->
  let '(s', r) := attach_segment s pid in
  seg_ok s' /\ id s' = id s /\ phys_addr s' = phys_addr s /\ size s' = size s /\
  (pid ∈ attached s -> s' = s /\ r = inl (phys_addr s)) /\
  (pid ∉ attached s -> (length (attached s) < MAX_ATTACHED)%nat ->
     attached s' = attached s ++ [pid] /\ r = inl (phys_addr s)) /\
  (pid ∉ attached s -> length (attached s) = MAX_ATTACHED -> s' = s /\ r = inr (-2)).
Proof.
  intros Hok. pose proof (length_attached s Hok) as Hla. unfold attach_segment.
  destruct (attached_index s pid) as [j|] eqn:Hj.
  { apply attached_index_Some, list_elem_of_lookup_2 in Hj. by split_and!. }
  rewrite attached_index_None in Hj. pose proof Hok as [Hl Hc Hr Hnd Hf Hu].
  destruct (Nat.leb_spec MAX_ATTACHED (attach_count s)) as [Hfull|Hroom].
  { split_and!; try done. lia. }
  assert (Hatt : attached (with_attached (<[attach_count s:=pid]> (attached_pids s))
            (S (attach_count s)) (wrap_u32 (ref_count s + 1)) s) = attached s ++ [pid]).
  { unfold attached. simpl. erewrite take_S_r by (apply list_lookup_insert_eq; lia).
    by rewrite take_insert_ge by done. }
  split_and!; try done; [|intros; lia].
  split; try done; simpl; [by rewrite length_insert| |].
  - rewrite wrap_u32_small; [lia|]. unfold u32, U32_MAX, MAX_ATTACHED in *. lia.
  - rewrite Hatt. apply NoDup_app. split_and!; [done|set_solver|apply NoDup_singleton].
Qed.

(** Filling the hole at [j] with the last element removes just the element at
    [j]. *)
Lemma swap_remove_perm {A} (l : list A) z j x :
  (l ++ [z]) !! j = Some x -> x :: <[j := z]> l ≡ₚ l ++ [z].
Proof.
  intros Hj. destruct (Nat.lt_ge_cases j (length l)) as [Hlt|Hge].
  - rewrite lookup_app_l in Hj by done. rewrite insert_take_drop by done.
    rewrite <- (take_drop_middle l j x Hj) at 3. rewrite <- app_assoc. simpl.
    rewrite <- (Permutation_middle (take j l) (drop (S j) l ++ [z]) x).
    apply perm_skip, Permutation_app_head. by rewrite (Permutation_app_comm _ [z]).
  - rewrite list_insert_ge by done. rewrite lookup_app_r in Hj by done.
    apply list_lookup_singleton_Some in Hj as [_ <-].
    by rewrite Permutation_app_comm.
Qed.

Lemma detach_spec s pid :
  seg_ok s ->
  let '(s', r) := detach_segment s pid in
  seg_ok s' /\ id s' = id s /\ phys_addr s' = phys_addr s /\ size s' = size s /\
  (pid ∈ attached s -> pid :: attached s' ≡ₚ attached s /\ r = inl tt) /\
  (pid ∉ attached s -> s' = s /\ r = inr (-2)).
Proof.
  intros Hok. unfold detach_segment. destruct (attached_index s pid) as [j|] eqn:Hj.
  2: { rewrite attached_index_None in Hj. by split_and!. }
  apply attached_index_Some in Hj as Hlk. pose proof Hok as [Hl Hc Hr Hnd Hf Hu].
  pose proof (length_attached s Hok) as Hla. pose proof (lookup_lt_Some _ _ _ Hlk) as Hjl.
  set (n := (attach_count s - 1)%nat).
  destruct (lookup_lt_is_Some_2 (attached_pids s) n) as [z Hz]; [lia|].
  rewrite (nth_lookup_Some _ _ 0 _ Hz).
  assert (Hsplit : attached s = take n (attached_pids s) ++ [z]).
  { unfold attached. replace (attach_count s) with (S n) by lia. by apply take_S_r. }
  assert (Hatt : pid :: take n (<[n:=0]> (<[j:=z]> (attached_pids s))) ≡ₚ attached s).
  { rewrite take_insert_ge by done. rewrite Hsplit in Hlk |- *.
    destruct (Nat.lt_ge_cases j n).
    - rewrite take_insert_lt by done. by apply swap_remove_perm.
    - rewrite take_insert_ge by done. rewrite <- (swap_remove_perm _ z j pid Hlk).
      rewrite list_insert_ge; [done|]. rewrite length_take. lia. }
  split_and!; try done; [|by intros []; eapply list_elem_of_lookup_2].
  split; try done; simpl; [by rewrite !length_insert|lia| |].
  - rewrite wrap_u32_small; [lia|]. unfold u32, U32_MAX, MAX_ATTACHED in *. lia.
  - unfold attached at 1. simpl. rewrite <- Hatt in Hnd. by apply NoDup_cons in Hnd as [_ ?].
Qed.

(** ** Page ranges *)

(** The range a segment in use holds. *)
Definition range (s : ShmSegment) : list (Z * Z) :=
  if id s =? 0 then [] else [(phys_addr s, pages (size s))].

Definition held (l : list ShmSegment) : list (Z * Z) := l ≫= range.

(** A range with no pages gives nothing back. *)
Definition proper (r : Z * Z) : bool := 0 <? snd r.

Lemma held_insert l k s s' :
  l !! k = Some s -> range s ++ held (<[k := s']> l) ≡ₚ range s' ++ held l.
Proof.
  intros Hk. unfold held. rewrite insert_take_drop by by eapply lookup_lt_Some.
  rewrite <- (take_drop_middle l k s Hk) at 3. rewrite !bind_app. simpl.
  rewrite (Permutation_app_swap_app (range s')).
  rewrite (Permutation_app_swap_app (range s)).
  by rewrite (Permutation_app_swap_app (range s) (range s')).
Qed.

Record state_ok (s : state) : Prop := {
  st_segs : Forall seg_ok (segs s);
  st_ranges : allocated s ≡ₚ List.filter proper (freed s) ++ held (segs s);
}.

Lemma boot_state_ok : state_ok boot.
Proof.
  split; [|done]. apply Forall_replicate. split; try done; simpl; [lia|constructor].
Qed.

(** Replacing a segment by one with the same range. *)
Lemma replace_ok s k sg sg' :
  state_ok s -> segs s !! k = Some sg -> seg_ok sg' -> range sg' = range sg ->
  state_ok (mkState (<[k := sg']> (segs s)) (allocated s) (freed s)).
Proof.
  intros [Hs Hr] Hk Hok Heq. split; simpl; [by apply Forall_insert|].
  rewrite Hr. apply Permutation_app_head.
  pose proof (held_insert (segs s) k sg sg' Hk) as Hp. rewrite Heq in Hp.
  by apply Permutation_app_inv_l in Hp.
Qed.

Definition op_ok (o : op) : Prop :=
  match o with
  | Create nid sz _ _ _ => nid <> 0 /\ 0 <= sz
  | _ => True
  end.

Lemma create_ok s nid sz prm pid phys :
  state_ok s -> nid <> 0 -> 0 <= sz -> state_ok (do_op s (Create nid sz prm pid phys)).
Proof.
  intros Hok Hn Hsz. cbn [do_op]. unfold shm_create_safe. pose proof Hok as [Hs Hr].
  destruct (Z.eqb_spec sz 0); [by destruct s|]. destruct (SHM_MAX_SIZE <? sz); [by destruct s|].
  simpl. destruct (shm_find_free (segs s)) as [k|] eqn:Hf; [|by destruct s].
  destruct (phys =? 0); [by destruct s|].
  apply position_Some in Hf as (sg & Hk & Hid & _). split; simpl.
  - apply Forall_insert; [done|]. split; try done; simpl; [lia|constructor|lia].
  - rewrite Hr. set (sg' := mkShmSegment nid _ _ _ _ _ _ _ _).
    pose proof (held_insert (segs s) k sg sg' Hk) as Hp.
    unfold range in Hp. rewrite Hid in Hp. simpl in Hp.
    rewrite (proj2 (Z.eqb_neq _ _) Hn) in Hp. simpl in Hp. rewrite Hp.
    by rewrite <- Permutation_middle.
Qed.

Lemma destroy_ok s i : state_ok s -> state_ok (do_op s (Destroy i)).
Proof.
  intros Hok. cbn [do_op]. unfold shm_destroy_safe. pose proof Hok as [Hs Hr].
  destruct (shm_find_by_id (segs s) i) as [k|] eqn:Hf; [|by destruct s].
  apply position_Some in Hf as (sg & Hk & Hid & _). rewrite Hk.
  destruct (0 <? ref_count sg); [by destruct s|].
  pose proof (Forall_lookup_1 _ _ _ _ Hs Hk) as [Hl Hc Hrc Hnd Hfree Hused].
  split; simpl.
  - apply Forall_insert; [done|]. by split.
  - set (sg' := mkShmSegment 0 0 0 _ _ _ _ _ _).
    pose proof (held_insert (segs s) k sg sg' Hk) as Hp. rewrite Hr.
    unfold range, proper in *. simpl in *.
    destruct (Z.eqb_spec (id sg) 0) as [H0|H0].
    + destruct (Hfree H0) as [-> ->]. simpl in *. by rewrite Hp.
    + specialize (Hused H0). rewrite (proj2 (Z.ltb_lt _ _)); simpl in *.
      * by rewrite <- Hp, <- Permutation_middle.
      * unfold pages, PAGE_SIZE. apply Z.div_str_pos. lia.
Qed.

Lemma do_op_ok s o : state_ok s -> op_ok o -> state_ok (do_op s o).
Proof.
  intros Hok Ho. destruct o as [nid sz prm pid phys|i pid|i pid|i].
  - apply create_ok; [done|apply Ho..].
  - cbn [do_op]. unfold shm_attach_safe.
    destruct (shm_find_by_id (segs s) i) as [k|] eqn:Hf; [|by destruct s].
    apply position_Some in Hf as (sg & Hk & _). rewrite Hk.
    pose proof (attach_spec sg pid (Forall_lookup_1 _ _ _ _ (st_segs _ Hok) Hk)) as Ha.
    destruct (attach_segment sg pid) as [sg' r]. destruct Ha as (Hok' & Hi & Hp & Hz & _).
    eapply replace_ok; [done|done|done|]. unfold range. by rewrite Hi, Hp, Hz.
  - cbn [do_op]. unfold shm_detach_safe.
    destruct (shm_find_by_id (segs s) i) as [k|] eqn:Hf; [|by destruct s].
    apply position_Some in Hf as (sg & Hk & _). rewrite Hk.
    pose proof (detach_spec sg pid (Forall_lookup_1 _ _ _ _ (st_segs _ Hok) Hk)) as Ha.
    destruct (detach_segment sg pid) as [sg' r]. destruct Ha as (Hok' & Hi & Hp & Hz & _).
    eapply replace_ok; [done|done|done|]. unfold range. by rewrite Hi, Hp, Hz.
  - by apply destroy_ok.
Qed.

Lemma run_state_ok ops : Forall op_ok ops -> state_ok (run ops).
Proof.
  intros Hops. unfold run. apply fold_left_inv; [|apply boot_state_ok].
  intros s o Ho Hs. apply do_op_ok; [done|]. rewrite Forall_forall in Hops. auto.
Qed.

(** Shared memory accounting.  After any calls (with a non-zero id counter):
    the reference count of a segment is the number of processes attached to it,
    each counted once; attaching adds the process unless it is attached already
    or 16 are, detaching removes exactly it; an attached segment is not
    destroyed; and every page range that was allocated is either held by one
    segment or was given back exactly once. *)
Theorem shm_accounting ops :
  Forall op_ok ops ->
  let s := run ops in
  allocated s ≡ₚ List.filter proper (freed s) ++ held (segs s) /\
  (forall k sg pid, segs s !! k = Some sg ->
     ref_count sg = Z.of_nat (length (attached sg)) /\ NoDup (attached sg) /\
     attached (fst (attach_segment sg pid))
       = (if bool_decide (pid ∈ attached sg) then attached sg
          else if (MAX_ATTACHED <=? length (attached sg))%nat then attached sg
          else attached sg ++ [pid]) /\
     (pid ∈ attached sg ->
        pid :: attached (fst (detach_segment sg pid)) ≡ₚ attached sg) /\
     (shm_find_by_id (segs s) (id sg) = Some k -> attached sg <> [] ->
        shm_destroy_safe (segs s) (id sg) = (segs s, inr (-2), None))).
Proof.
  intros Hops s. destruct (run_state_ok ops Hops) as [Hs Hr]. split; [done|].
  intros k sg pid Hk. pose proof (Forall_lookup_1 _ _ _ _ Hs Hk) as Hok.
  pose proof (length_attached sg Hok) as Hla.
  pose proof (attach_spec sg pid Hok) as Ha. pose proof (detach_spec sg pid Hok) as Hd.
  destruct (attach_segment sg pid) as [s1 r1], (detach_segment sg pid) as [s2 r2].
  destruct Ha as (_ & _ & _ & _ & Ha1 & Ha2 & Ha3), Hd as (_ & _ & _ & _ & Hd1 & _).
  split_and!; cbn [fst].
  - rewrite Hla. apply so_refs, Hok.
  - apply Hok.
  - case_bool_decide as Hin; [by destruct (Ha1 Hin) as [-> _]|].
    destruct (Nat.leb_spec MAX_ATTACHED (length (attached sg))) as [Hm|Hm].
    + assert (Hfull : length (attached sg) = MAX_ATTACHED)
        by (pose proof (so_count _ Hok); lia).
      by destruct (Ha3 Hin Hfull) as [-> _].
    + by destruct (Ha2 Hin Hm).
  - intros Hin. by apply Hd1.
  - intros Hf Hne. unfold shm_destroy_safe. rewrite Hf. fold s in Hk. rewrite Hk.
    rewrite (so_refs _ Hok), <- Hla. by destruct (attached sg).
Qed.

Lemma shm_accounting_witness :
  let ops := [Create 1 8192 438 7 65536; Attach 1 7; Attach 1 9; Detach 1 7; Destroy 1] in
  let s := run ops in
  Forall op_ok ops /\ allocated s = [(65536, 2)] /\ freed s = [] /\
  exists sg, segs s !! 0%nat = Some sg /\ attached sg = [9] /\ ref_count sg = 1.
Proof.
  intros ops s. assert (Hops : Forall op_ok ops).
  { unfold ops. rewrite !Forall_cons. simpl. by split_and!. }
  destruct (shm_accounting ops Hops) as [Hr Hseg].
  split_and!; [done|done|done|]. eexists. split; [done|]. split; [done|].
  by destruct (Hseg 0%nat _ 7 ltac:(done)) as [-> _].
Defined.

End ShmFacts.
