(* ===== verification/Sha256.v ===== *)
(** * SHA-256 (services/credo/sha256.rs)

    [Sha256] is the kernel's implementation: the message schedule in an array of
    64 words, one block at a time, the last one or two blocks padded in place.
    [Fips] is the standard's definition (FIPS 180-4): the padded message as one
    string of whole blocks, the schedule as a recurrence, sums modulo 2^32.  The
    fact: the two agree. *)
From S2P Require Import Prelude Bytes.

Module Sha256.

(** The table, in rows of four. *)
Definition K : list Z := concat (
  [0x428a2f98; 0x71374491; 0xb5c0fbcf; 0xe9b5dba5] ::
  [0x3956c25b; 0x59f111f1; 0x923f82a4; 0xab1c5ed5] ::
  [0xd807aa98; 0x12835b01; 0x243185be; 0x550c7dc3] ::
  [0x72be5d74; 0x80deb1fe; 0x9bdc06a7; 0xc19bf174] ::
  [0xe49b69c1; 0xefbe4786; 0x0fc19dc6; 0x240ca1cc] ::
  [0x2de92c6f; 0x4a7484aa; 0x5cb0a9dc; 0x76f988da] ::
  [0x983e5152; 0xa831c66d; 0xb00327c8; 0xbf597fc7] ::
  [0xc6e00bf3; 0xd5a79147; 0x06ca6351; 0x14292967] ::
  [0x27b70a85; 0x2e1b2138; 0x4d2c6dfc; 0x53380d13] ::
  [0x650a7354; 0x766a0abb; 0x81c2c92e; 0x92722c85] ::
  [0xa2bfe8a1; 0xa81a664b; 0xc24b8b70; 0xc76c51a3] ::
  [0xd192e819; 0xd6990624; 0xf40e3585; 0x106aa070] ::
  [0x19a4c116; 0x1e376c08; 0x2748774c; 0x34b0bcb5] ::
  [0x391c0cb3; 0x4ed8aa4a; 0x5b9cca4f; 0x682e6ff3] ::
  [0x748f82ee; 0x78a5636f; 0x84c87814; 0x8cc70208] ::
  [0x90befffa; 0xa4506ceb; 0xbef9a3f7; 0xc67178f2] ::
  []).

Definition INITIAL_STATE : list Z :=
  [ 0x6a09e667; 0xbb67ae85; 0x3c6ef372; 0xa54ff53a; 0x510e527f; 0x9b05688c; 0x1f83d9ab; 0x5be0cd19 ].

Definition at_ (l : list Z) (i : nat) : Z := nth i l 0.
Definition wrapping_add (a b : Z) : Z := wrap_u32 (a + b).
Definition not_u32 (a : Z) : Z := U32_MAX - a.
Definition rotr (x n : Z) : Z := Z.lor (Z.shiftr x n) (wrap_u32 (Z.shiftl x (32 - n))).

(** [for i in 0..16] and [for i in 16..64] of the message schedule. *)
Definition load_word (block : bytes) (w : list Z) (i : nat) : list Z :=
  <[i := Z.lor (Z.lor (Z.lor (Z.shiftl (at_ block (i * 4)) 24) (Z.shiftl (at_ block (i * 4 + 1)) 16))
                  (Z.shiftl (at_ block (i * 4 + 2)) 8))
           (at_ block (i * 4 + 3))]> w.

Definition extend_word (w : list Z) (i : nat) : list Z :=
  let s0 := Z.lxor (Z.lxor (rotr (at_ w (i - 15)) 7) (rotr (at_ w (i - 15)) 18))
              (Z.shiftr (at_ w (i - 15)) 3) in
  let s1 := Z.lxor (Z.lxor (rotr (at_ w (i - 2)) 17) (rotr (at_ w (i - 2)) 19))
              (Z.shiftr (at_ w (i - 2)) 10) in
  <[i := wrapping_add (wrapping_add (wrapping_add (at_ w (i - 16)) s0) (at_ w (i - 7))) s1]> w.

Definition schedule (block : bytes) : list Z :=
  let w := fold_left (load_word block) (seq 0 16) (replicate 64 0) in
  fold_left extend_word (seq 16 48) w.

Definition vars : Type := Z * Z * Z * Z * Z * Z * Z * Z.

Definition round (w : list Z) (v : vars) (i : nat) : vars :=
  let '(a, b, c, d, e, f, g, h) := v in
  let s1 := Z.lxor (Z.lxor (rotr e 6) (rotr e 11)) (rotr e 25) in
  let ch := Z.lxor (Z.land e f) (Z.land (not_u32 e) g) in
  let t1 := wrapping_add (wrapping_add (wrapping_add (wrapping_add h s1) ch) (at_ K i)) (at_ w i) in
  let s0 := Z.lxor (Z.lxor (rotr a 2) (rotr a 13)) (rotr a 22) in
  let maj := Z.lxor (Z.lxor (Z.land a b) (Z.land a c)) (Z.land b c) in
  let t2 := wrapping_add s0 maj in
  (wrapping_add t1 t2, a, b, c, wrapping_add d t1, e, f, g).

Definition sha256_transform (state : list Z) (block : bytes) : list Z :=
  let w := schedule block in
  let '(a, b, c, d, e, f, g, h) :=
    fold_left (round w) (seq 0 64)
      (at_ state 0, at_ state 1, at_ state 2, at_ state 3,
       at_ state 4, at_ state 5, at_ state 6, at_ state 7) in
  [ wrapping_add (at_ state 0) a; wrapping_add (at_ state 1) b; wrapping_add (at_ state 2) c;
    wrapping_add (at_ state 3) d; wrapping_add (at_ state 4) e; wrapping_add (at_ state 5) f;
    wrapping_add (at_ state 6) g; wrapping_add (at_ state 7) h ].

(** [while i + 64 <= len]; [length data] turns are enough. *)
Fixpoint absorb (fuel : nat) (data : bytes) (i : nat) (state : list Z) : list Z * nat :=
  match fuel with
  | O => (state, i)
  | S fuel =>
      if (i + 64 <=? length data)%nat
      then absorb fuel data (i + 64) (sha256_transform state (sub_slice data i (i + 64)))
      else (state, i)
  end.

(** [block[a..a + n].copy_from_slice(l)]. *)
Definition copy_at (block : bytes) (a : nat) (l : bytes) : bytes :=
  take a block ++ l ++ drop (a + length l) block.

Definition sha256 (data : bytes) : bytes :=
  let '(state, i) := absorb (length data) data 0 INITIAL_STATE in
  let remaining := (length data - i)%nat in
  let block := replicate 64 0 in
  let block := if (0 <? remaining)%nat then copy_at block 0 (sub_slice data i (i + remaining)) else block in
  let block := <[remaining := 128]> block in
  let '(state, block) :=
    if (56 <=? remaining)%nat then (sha256_transform state block, replicate 64 0) else (state, block) in
  let bit_len := wrap_u64 (Z.of_nat (length data) * 8) in
  let block := copy_at block 56 (to_be_bytes 8 bit_len) in
  let state := sha256_transform state block in
  concat (map (fun j => [ wrap 8 (Z.shiftr (at_ state j) 24); wrap 8 (Z.shiftr (at_ state j) 16);
                          wrap 8 (Z.shiftr (at_ state j) 8); wrap 8 (at_ state j) ]) (seq 0 8)).

End Sha256.

(** ** The standard *)
Module Fips.
Import Sha256.

(** The constants: the first 32 bits of the fractional parts of the cube roots
    of the first 64 primes and of the square roots of the first eight. *)
Definition primes : list Z :=
  [2; 3; 5; 7; 11; 13; 17; 19; 23; 29; 31; 37; 41; 43; 47; 53;
   59; 61; 67; 71; 73; 79; 83; 89; 97; 101; 103; 107; 109; 113; 127; 131;
   137; 139; 149; 151; 157; 163; 167; 173; 179; 181; 191; 193; 197; 199; 211; 223;
   227; 229; 233; 239; 241; 251; 257; 263; 269; 271; 277; 281; 283; 293; 307; 311].

(** The largest [r] below [2^n] with [r^3 <= x]. *)
Fixpoint cube_root (n : nat) (x r : Z) : Z :=
  match n with
  | O => r
  | S n => let r' := r + 2 ^ Z.of_nat n in cube_root n x (if r' ^ 3 <=? x then r' else r)
  end.

Definition round_constants : list Z := map (fun p => cube_root 36 (p * 2 ^ 96) 0 mod 2 ^ 32) primes.
Definition initial_hash : list Z := map (fun p => Z.sqrt (p * 2 ^ 64) mod 2 ^ 32) (take 8 primes).

Definition small0 (x : Z) : Z := Z.lxor (Z.lxor (rotr x 7) (rotr x 18)) (Z.shiftr x 3).
Definition small1 (x : Z) : Z := Z.lxor (Z.lxor (rotr x 17) (rotr x 19)) (Z.shiftr x 10).
Definition big0 (x : Z) : Z := Z.lxor (Z.lxor (rotr x 2) (rotr x 13)) (rotr x 22).
Definition big1 (x : Z) : Z := Z.lxor (Z.lxor (rotr x 6) (rotr x 11)) (rotr x 25).
Definition Ch (x y z : Z) : Z := Z.lxor (Z.land x y) (Z.land (not_u32 x) z).
Definition Maj (x y z : Z) : Z := Z.lxor (Z.lxor (Z.land x y) (Z.land x z)) (Z.land y z).

(** The words [W_0 .. W_(n-1)] of a block. *)
Fixpoint words (block : bytes) (n : nat) : list Z :=
  match n with
  | O => []
  | S t =>
      let W := words block t in
      W ++ [ if (t <? 16)%nat then from_be_bytes (sub_slice block (4 * t) (4 * t + 4))
             else (small1 (at_ W (t - 2)) + at_ W (t - 7) + small0 (at_ W (t - 15)) + at_ W (t - 16))
                    mod 2 ^ 32 ]
  end.

Definition step (W : list Z) (v : vars) (t : nat) : vars :=
  let '(a, b, c, d, e, f, g, h) := v in
  let T1 := h + big1 e + Ch e f g + at_ round_constants t + at_ W t in
  let T2 := big0 a + Maj a b c in
  ((T1 + T2) mod 2 ^ 32, a, b, c, (d + T1) mod 2 ^ 32, e, f, g).

Definition compress (H : list Z) (block : bytes) : list Z :=
  let '(a, b, c, d, e, f, g, h) :=
    fold_left (step (words block 64)) (seq 0 64)
      (at_ H 0, at_ H 1, at_ H 2, at_ H 3, at_ H 4, at_ H 5, at_ H 6, at_ H 7) in
  zip_with (fun x y => (x + y) mod 2 ^ 32) [at_ H 0; at_ H 1; at_ H 2; at_ H 3; at_ H 4; at_ H 5; at_ H 6; at_ H 7]
    [a; b; c; d; e; f; g; h].

(** The message, a one bit, the zeros that make 56 bytes modulo 64, the length. *)
Definition pad (m : bytes) : bytes :=
  m ++ [128] ++ replicate (Z.to_nat ((55 - Z.of_nat (length m)) mod 64)) 0
    ++ to_be_bytes 8 (8 * Z.of_nat (length m)).

Definition hash_blocks (m : bytes) (n : nat) (H : list Z) : list Z :=
  fold_left (fun H i => compress H (sub_slice m (64 * i) (64 * i + 64))) (seq 0 n) H.

Definition digest (m : bytes) : bytes :=
  concat (map (to_be_bytes 4) (hash_blocks (pad m) (length (pad m) / 64) initial_hash)).

End Fips.

Module Sha256Facts.
Import Sha256 Fips.

(** The vectors of the unit tests. *)
Example sha256_empty :
  sha256 [] = [ 0xe3; 0xb0; 0xc4; 0x42; 0x98; 0xfc; 0x1c; 0x14; 0x9a; 0xfb; 0xf4; 0xc8; 0x99; 0x6f;
    0xb9; 0x24; 0x27; 0xae; 0x41; 0xe4; 0x64; 0x9b; 0x93; 0x4c; 0xa4; 0x95; 0x99; 0x1b; 0x78; 0x52;
    0xb8; 0x55 ].
Proof. vm_compute. reflexivity. Qed.

Example sha256_abc :
  sha256 [97; 98; 99] = [ 0xba; 0x78; 0x16; 0xbf; 0x8f; 0x01; 0xcf; 0xea; 0x41; 0x41; 0x40; 0xde;
    0x5d; 0xae; 0x22; 0x23; 0xb0; 0x03; 0x61; 0xa3; 0x96; 0x17; 0x7a; 0x9c; 0xb4; 0x10; 0xff; 0x61;
    0xf2; 0x00; 0x15; 0xad ].
Proof. vm_compute. reflexivity. Qed.

(** The tables of the code are those of the standard. *)
Lemma K_is_cube_roots : K = round_constants.
Proof. vm_compute. reflexivity. Qed.

Lemma INITIAL_STATE_is_square_roots : INITIAL_STATE = initial_hash.
Proof. vm_compute. reflexivity. Qed.

(** *** The message schedule *)
Lemma length_words block n : length (words block n) = n.
Proof. induction n as [|n IH]; [done|]. cbn [words]. rewrite length_app, IH. simpl. lia. Qed.

Lemma words_prefix block n t : (t < n)%nat -> at_ (words block n) t = at_ (words block (S t)) t.
Proof.
  intros Ht. induction n as [|n IH]; [lia|]. destruct (decide (t = n)) as [->|]; [done|].
  rewrite <- IH by lia. unfold at_. cbn [words]. rewrite app_nth1; [done|]. rewrite length_words. lia.
Qed.

Lemma at_words_last block t :
  at_ (words block (S t)) t
  = if (t <? 16)%nat then from_be_bytes (sub_slice block (4 * t) (4 * t + 4))
    else (small1 (at_ (words block t) (t - 2)) + at_ (words block t) (t - 7)
          + small0 (at_ (words block t) (t - 15)) + at_ (words block t) (t - 16)) mod 2 ^ 32.
Proof.
  unfold at_ at 1. cbn [words]. rewrite app_nth2; rewrite length_words; [|lia].
  by rewrite Nat.sub_diag.
Qed.

Lemma be_word b0 b1 b2 b3 :
  u8 b0 -> u8 b1 -> u8 b2 -> u8 b3 ->
  Z.lor (Z.lor (Z.lor (Z.shiftl b0 24) (Z.shiftl b1 16)) (Z.shiftl b2 8)) b3
  = from_be_bytes [b0; b1; b2; b3].
Proof.
  unfold u8. intros H0 H1 H2 H3.
  replace (Z.shiftl b0 24) with (Z.shiftl (Z.shiftl b0 8) 16) by by rewrite Z.shiftl_shiftl.
  rewrite <- Z.shiftl_lor.
  replace (Z.shiftl _ 16) with (Z.shiftl (Z.shiftl (Z.lor (Z.shiftl b0 8) b1) 8) 8)
    by by rewrite Z.shiftl_shiftl.
  rewrite <- Z.shiftl_lor. rewrite !(Z.lor_comm (Z.shiftl _ 8)).
  rewrite !lor_shiftl_add by lia. unfold from_be_bytes. simpl. lia.
Qed.

Lemma block_word block t :
  length block = 64%nat -> (t < 16)%nat ->
  sub_slice block (4 * t) (4 * t + 4)
  = [at_ block (t * 4); at_ block (t * 4 + 1); at_ block (t * 4 + 2); at_ block (t * 4 + 3)].
Proof.
  intros Hl Ht. apply (list_eq_same_length _ _ 4); [done| |].
  { rewrite length_sub_slice by lia. lia. }
  intros i x y Hi. unfold sub_slice.
  replace (4 * t + 4 - 4 * t)%nat with 4%nat by lia. rewrite (lookup_take_lt _ 4) by done.
  rewrite lookup_drop.
  unfold at_. rewrite !nth_lookup, !(Nat.mul_comm t 4).
  intros Hx. destruct i as [|[|[|[|i]]]].
  5: { lia. }
  all: rewrite ?Nat.add_0_r in Hx; rewrite ?Hx; simpl; congruence.
Qed.

(** The array holds [W_0 .. W_(n-1)]. *)
Definition filled (block : bytes) (w : list Z) (n : nat) : Prop :=
  length w = 64%nat /\ forall t, (t < n)%nat -> at_ w t = at_ (words block 64) t.

Lemma filled_insert block w n v :
  filled block w n -> (n < 64)%nat -> v = at_ (words block (S n)) n -> filled block (<[n := v]> w) (S n).
Proof.
  intros [Hl Hw] Hn ->. split; [by rewrite length_insert|]. intros t Ht. unfold at_ at 1.
  destruct (decide (t = n)) as [->|].
  - rewrite nth_insert_eq by lia. symmetry. by apply words_prefix.
  - rewrite nth_insert_ne by done. apply Hw. lia.
Qed.

Lemma fill_words block (f : list Z -> nat -> list Z) k n w :
  (forall w t, filled block w t -> (k <= t < k + n)%nat -> filled block (f w t) (S t)) ->
  filled block w k -> filled block (fold_left f (seq k n) w) (k + n).
Proof.
  revert k w. induction n as [|n IH]; intros k w Hf Hw; [by rewrite Nat.add_0_r|].
  cbn [seq fold_left]. replace (k + S n)%nat with (S k + n)%nat by lia.
  apply IH; [|by apply Hf; [done|lia]]. intros w' t Hw' Ht. apply Hf; [done|lia].
Qed.

Lemma wrapping_sum4 a b c d :
  wrapping_add (wrapping_add (wrapping_add a b) c) d = (d + c + b + a) mod 2 ^ 32.
Proof.
  unfold wrapping_add, wrap_u32, wrap.
  do 2 rewrite Zplus_mod_idemp_l, <- Z.add_assoc. f_equal. lia.
Qed.

Lemma wrapping_sum5 a b c d e :
  wrapping_add (wrapping_add (wrapping_add (wrapping_add a b) c) d) e = (a + b + c + d + e) mod 2 ^ 32.
Proof.
  unfold wrapping_add, wrap_u32, wrap.
  do 3 rewrite Zplus_mod_idemp_l, <- Z.add_assoc. f_equal. lia.
Qed.

Lemma schedule_words block :
  length block = 64%nat -> Forall u8 block -> forall t, (t < 64)%nat -> at_ (schedule block) t = at_ (words block 64) t.
Proof.
  intros Hl HF. unfold schedule.
  assert (H16 : filled block (fold_left (load_word block) (seq 0 16) (replicate 64 0)) (0 + 16)).
  { apply fill_words; [|by split; [|intros; lia]]. intros w t Hw Ht. apply filled_insert; [done|lia|].
    rewrite at_words_last. destruct (Nat.ltb_spec t 16); [|lia].
    rewrite block_word by (done || lia). apply be_word; unfold at_; rewrite nth_lookup;
      match goal with |- u8 (default _ (_ !! ?i)) =>
        destruct (lookup_lt_is_Some_2 block i) as [x Hx]; [lia|]; rewrite Hx;
        by apply (proj1 (Forall_lookup _ _) HF _ _ Hx) end. }
  apply (fill_words block extend_word 16 48) in H16 as [_ H]; [exact H|].
  intros w t [Hlw Hw] Ht. apply filled_insert; [by split|lia|].
  rewrite at_words_last. destruct (Nat.ltb_spec t 16); [lia|].
  assert (Hat : forall j, (j < t)%nat -> at_ w j = at_ (words block t) j).
  { intros j Hj. rewrite Hw by lia. by rewrite (words_prefix block 64 j), (words_prefix block t j) by lia. }
  rewrite !Hat by lia. by rewrite wrapping_sum4.
Qed.

(** *** The compression function *)
Lemma wrapping_add_mod a b : wrapping_add a b = (a + b) mod 2 ^ 32.
Proof. done. Qed.

Lemma round_step block v t :
  (t < 64)%nat -> length block = 64%nat -> Forall u8 block ->
  round (schedule block) v t = step (words block 64) v t.
Proof.
  intros Ht Hl HF. destruct v as [[[[[[[a b] c] d] e] f] g] h]. unfold round, step.
  rewrite schedule_words, <- K_is_cube_roots by done. fold (big1 e) (big0 a) (Ch e f g) (Maj a b c).
  rewrite (wrapping_sum5 h). rewrite !wrapping_add_mod.
  rewrite Zplus_mod_idemp_l, !Zplus_mod_idemp_r. done.
Qed.

Lemma fold_left_ext_in {A B} (f g : A -> B -> A) l a :
  (forall a x, x ∈ l -> f a x = g a x) -> fold_left f l a = fold_left g l a.
Proof.
  revert a. induction l as [|x l IH]; intros a H; [done|]. simpl. rewrite H by by left.
  apply IH. intros b y Hy. apply H. by right.
Qed.

Lemma transform_compress state block :
  length block = 64%nat -> Forall u8 block -> sha256_transform state block = compress state block.
Proof.
  intros Hl HF. unfold sha256_transform, compress.
  rewrite (fold_left_ext_in _ (step (words block 64))).
  - by destruct (fold_left _ _ _) as [[[[[[[a b] c] d] e] f] g] h].
  - intros v t Ht%elem_of_seq. apply round_step; [lia|done|done].
Qed.

(** *** The blocks *)
Lemma hash_blocks_S m n H :
  hash_blocks m (S n) H = compress (hash_blocks m n H) (sub_slice m (64 * n) (64 * n + 64)).
Proof. unfold hash_blocks. by rewrite seq_S, fold_left_app. Qed.

Lemma absorb_spec fuel data k state :
  Forall u8 data -> (64 * k <= length data)%nat -> (length data / 64 <= k + fuel)%nat ->
  state = hash_blocks data k INITIAL_STATE ->
  absorb fuel data (64 * k) state
  = (hash_blocks data (length data / 64) INITIAL_STATE, (64 * (length data / 64))%nat).
Proof.
  intros HF. revert k state. induction fuel as [|fuel IH]; intros k state Hk Hfuel ->.
  { assert (k = length data / 64)%nat as <-; [|done].
    pose proof (Nat.Div0.div_le_upper_bound (length data) 64 k). 
    assert (k <= length data / 64)%nat by (apply Nat.div_le_lower_bound; lia). lia. }
  cbn [absorb]. destruct (Nat.leb_spec (64 * k + 64) (length data)) as [Hle|Hgt].
  - replace (64 * k + 64)%nat with (64 * S k)%nat by lia. apply IH; [lia|lia|].
    rewrite hash_blocks_S. replace (64 * S k)%nat with (64 * k + 64)%nat by lia.
    apply transform_compress; [rewrite length_sub_slice; lia|by apply Forall_sub_slice].
  - assert (length data / 64 = k)%nat as ->; [|done].
    symmetry. apply (Nat.div_unique _ _ _ (length data - 64 * k)); lia.
Qed.

(** Blocks of a prefix are not touched by what follows. *)
Lemma hash_blocks_app m m' n H :
  (64 * n <= length m)%nat -> hash_blocks (m ++ m') n H = hash_blocks m n H.
Proof.
  intros Hn. unfold hash_blocks. apply fold_left_ext_in. intros H' i Hi%elem_of_seq.
  rewrite sub_slice_app_l by lia. reflexivity.
Qed.

Lemma sub_slice_drop (m : bytes) a b r : drop a m = r -> sub_slice m a b = take (b - a) r.
Proof. unfold sub_slice. by intros ->. Qed.

Lemma copy_at_0 (l z : bytes) : copy_at z 0 l = l ++ drop (length l) z.
Proof. done. Qed.

(** The state's words, most significant byte first. *)
Lemma word_bytes x :
  [ wrap 8 (Z.shiftr x 24); wrap 8 (Z.shiftr x 16); wrap 8 (Z.shiftr x 8); wrap 8 x ] = to_be_bytes 4 x.
Proof.
  unfold to_be_bytes, wrap. cbn [to_le_bytes rev app].
  rewrite !Z.shiftr_div_pow2 by lia. change (2 ^ 8) with 256. rewrite !Z.div_div by lia.
  done.
Qed.

Lemma length_compress H b : length (compress H b) = 8%nat.
Proof. unfold compress. by destruct (fold_left _ _ _) as [[[[[[[? ?] ?] ?] ?] ?] ?] ?]. Qed.

Lemma length_hash_blocks m n : length (hash_blocks m n INITIAL_STATE) = 8%nat.
Proof. destruct n; [done|]. rewrite hash_blocks_S. apply length_compress. Qed.

Lemma output_bytes state :
  length state = 8%nat ->
  concat (map (fun j => [ wrap 8 (Z.shiftr (at_ state j) 24); wrap 8 (Z.shiftr (at_ state j) 16);
                          wrap 8 (Z.shiftr (at_ state j) 8); wrap 8 (at_ state j) ]) (seq 0 8))
  = concat (map (to_be_bytes 4) state).
Proof.
  intros Hl. do 8 (destruct state as [|? state]; [done|]). destruct state; [|done].
  cbn [seq map]. unfold at_. cbn [nth]. by rewrite !word_bytes.
Qed.

(** The padding block or blocks, as a string. *)
Definition tail_blocks (r len : bytes) : bytes :=
  r ++ [128] ++ replicate (Z.to_nat ((55 - Z.of_nat (length r)) mod 64)) 0 ++ len.

Lemma last_block (r z : bytes) len :
  (length r < 56)%nat -> length len = 8%nat ->
  copy_at (<[length r := 128]> (copy_at (replicate 64 0) 0 r)) 56 len = tail_blocks r len.
Proof.
  intros Hr Hlen. rewrite copy_at_0, drop_replicate.
  replace (64 - length r)%nat with (S (63 - length r)) by lia. cbn [replicate].
  rewrite insert_app_r_alt, Nat.sub_diag by done. simpl. unfold copy_at, tail_blocks.
  rewrite take_app, drop_app. rewrite take_ge, (drop_ge r) by lia.
  replace (56 - length r)%nat with (S (55 - length r)) by lia.
  replace (56 + length len - length r)%nat with (S (63 - length r)) by lia. simpl.
  rewrite take_replicate, drop_replicate, Nat.sub_diag. simpl.
  rewrite app_nil_r, <- app_assoc. simpl. do 3 f_equal. f_equal.
  rewrite Z.mod_small by lia. lia.
Qed.

Lemma two_blocks (r : bytes) len :
  (56 <= length r < 64)%nat -> length len = 8%nat ->
  <[length r := 128]> (copy_at (replicate 64 0) 0 r) ++ copy_at (replicate 64 0) 56 len
  = tail_blocks r len.
Proof.
  intros Hr Hlen. rewrite copy_at_0, drop_replicate.
  replace (64 - length r)%nat with (S (63 - length r)) by lia. rewrite replicate_S.
  rewrite insert_app_r_alt, Nat.sub_diag by done. cbn [insert list_insert]. unfold copy_at, tail_blocks.
  rewrite take_replicate, drop_replicate. replace (64 - (56 + length len))%nat with 0%nat by lia.
  change (replicate 0 0) with (@nil Z). rewrite app_nil_r, <- app_assoc. cbn [app].
  rewrite (app_assoc (replicate _ _)), <- replicate_add. do 4 f_equal.
  replace (Z.to_nat _) with (63 - length r + 56)%nat; [lia|].
  replace (55 - Z.of_nat (length r)) with (119 - Z.of_nat (length r) + (-1) * 64) by lia.
  rewrite Z.mod_add, Z.mod_small by lia. lia.
Qed.

Lemma pad_tail m :
  pad m = take (64 * (length m / 64)) m
          ++ tail_blocks (drop (64 * (length m / 64)) m) (to_be_bytes 8 (8 * Z.of_nat (length m))).
Proof.
  unfold pad, tail_blocks. rewrite (app_assoc (take _ _)), take_drop, length_drop. do 4 f_equal. f_equal.
  pose proof (Nat.div_mod_eq (length m) 64).
  rewrite <- (Z.mod_add (55 - Z.of_nat (length m)) (Z.of_nat (length m / 64)) 64) by lia.
  f_equal. lia.
Qed.

Lemma length_tail_blocks r len :
  length len = 8%nat -> (length r < 64)%nat ->
  length (tail_blocks r len) = if (56 <=? length r)%nat then 128%nat else 64%nat.
Proof.
  intros Hlen Hr. unfold tail_blocks. rewrite !length_app, length_replicate, Hlen. cbn [length].
  destruct (Nat.leb_spec 56 (length r)).
  - replace (55 - Z.of_nat (length r)) with (119 - Z.of_nat (length r) + (-1) * 64) by lia.
    rewrite Z.mod_add, Z.mod_small by lia. lia.
  - rewrite Z.mod_small by lia. lia.
Qed.

Lemma tail_blocks_u8 r len : Forall u8 r -> Forall u8 len -> Forall u8 (tail_blocks r len).
Proof.
  intros Hr Hl. unfold tail_blocks. repeat apply Forall_app_2; try done.
  - by repeat constructor.
  - by apply Forall_replicate.
Qed.

(** Blocks after a prefix of whole blocks. *)
Lemma sub_slice_app_r (m m' : bytes) a b :
  (length m <= a)%nat -> sub_slice (m ++ m') a b = sub_slice m' (a - length m) (b - length m).
Proof.
  intros Ha. unfold sub_slice. rewrite drop_app_ge by done. f_equal. lia.
Qed.

Lemma sub_slice_full (m : bytes) n : length m = n -> sub_slice m 0 n = m.
Proof. intros <-. unfold sub_slice. rewrite Nat.sub_0_r. apply firstn_all. Qed.

(** C24: the implementation computes SHA-256: for every message of fewer than
    2^61 bytes its result is the digest FIPS 180-4 defines, over the padded
    message, with the schedule, the rounds and the constants of the standard. *)
Theorem sha256_is_fips_180_4 data :
  Forall u8 data -> Z.of_nat (length data) < 2 ^ 61 -> sha256 data = digest data.
Proof.
  intros HF Hlen. set (q := (length data / 64)%nat). set (r := drop (64 * q) data).
  assert (Hq : (64 * q <= length data)%nat) by (unfold q; pose proof (Nat.div_mod_eq (length data) 64); lia).
  assert (Hr : length r = (length data - 64 * q)%nat) by (unfold r; apply length_drop).
  assert (Hr64 : (length r < 64)%nat).
  { rewrite Hr. unfold q. pose proof (Nat.div_mod_eq (length data) 64).
    pose proof (Nat.mod_upper_bound (length data) 64). lia. }
  set (len8 := to_be_bytes 8 (8 * Z.of_nat (length data))).
  assert (Hl8 : length len8 = 8%nat) by apply length_to_be_bytes.
  assert (Hru : Forall u8 r) by by apply Forall_drop.
  assert (Htu : Forall u8 (tail_blocks r len8)) by (apply tail_blocks_u8; [done|apply to_be_bytes_u8]).
  assert (Habs := absorb_spec (length data) data 0 INITIAL_STATE HF ltac:(lia) ltac:(lia) eq_refl).
  rewrite Nat.mul_0_r in Habs. unfold sha256, digest. rewrite Habs, <- INITIAL_STATE_is_square_roots.
  fold q. rewrite <- Hr.
  assert (Hsub : sub_slice data (64 * q) (64 * q + length r) = r).
  { rewrite (sub_slice_drop _ _ _ r) by done. rewrite take_ge; [done|lia]. }
  rewrite Hsub. replace (wrap_u64 (Z.of_nat (length data) * 8)) with (8 * Z.of_nat (length data))
    by (rewrite wrap_u64_small; unfold u64, U64_MAX; lia). fold len8.
  replace (if (0 <? length r)%nat then _ else _) with (copy_at (replicate 64 0) 0 r).
  2:{ destruct (Nat.ltb_spec 0 (length r)); [done|].
      assert (r = []) as -> by (apply nil_length_inv; lia). done. }
  assert (Hpre : length (take (64 * q) data) = (64 * q)%nat) by (rewrite length_take; lia).
  assert (Hpad : pad data = take (64 * q) data ++ tail_blocks r len8) by apply pad_tail.
  pose proof (length_tail_blocks r len8 Hl8 Hr64) as Hlt.
  rewrite Hpad, length_app, Hpre, Hlt.
  assert (Hhead : hash_blocks (take (64 * q) data ++ tail_blocks r len8) q INITIAL_STATE
                  = hash_blocks data q INITIAL_STATE).
  { rewrite hash_blocks_app by lia. rewrite <- (take_drop (64 * q) data) at 2. by rewrite hash_blocks_app by lia. }
  destruct (Nat.leb_spec 56 (length r)) as [Hge|Hlt56].
  - replace ((64 * q + 128) / 64)%nat with (S (S q))
      by (apply (Nat.div_unique _ _ _ 0); lia).
    rewrite !hash_blocks_S, Hhead. rewrite !sub_slice_app_r, Hpre by lia.
    pose proof (two_blocks r len8 ltac:(lia) Hl8) as Htwo.
    set (b1 := <[length r := 128]> _) in *. set (b2 := copy_at _ 56 len8) in *.
    assert (Hb1 : length b1 = 64%nat).
    { unfold b1. rewrite length_insert. unfold copy_at. rewrite !length_app, length_drop, length_replicate.
      simpl. lia. }
    assert (Hb2 : length b2 = 64%nat).
    { rewrite <- Htwo, length_app in Hlt. lia. }
    rewrite <- Htwo in Htu |- *. apply Forall_app in Htu as [Hu1 Hu2].
    replace (64 * q - 64 * q)%nat with 0%nat by lia. replace (64 * q + 64 - 64 * q)%nat with 64%nat by lia.
    replace (64 * S q - 64 * q)%nat with 64%nat by lia. replace (64 * S q + 64 - 64 * q)%nat with 128%nat by lia.
    rewrite (sub_slice_app_l b1) by lia. rewrite sub_slice_full by done.
    rewrite sub_slice_app_r, Hb1 by lia. simpl (64 - 64)%nat. simpl (128 - 64)%nat.
    rewrite sub_slice_full by done. rewrite !transform_compress by done.
    apply output_bytes, length_compress.
  - replace ((64 * q + 64) / 64)%nat with (S q) by (apply (Nat.div_unique _ _ _ 0); lia).
    rewrite hash_blocks_S, Hhead, sub_slice_app_r, Hpre by lia.
    replace (64 * q - 64 * q)%nat with 0%nat by lia. replace (64 * q + 64 - 64 * q)%nat with 64%nat by lia.
    rewrite sub_slice_full by done. rewrite last_block by (done || lia).
    rewrite transform_compress by done. apply output_bytes, length_compress.
Qed.

Lemma sha256_is_fips_180_4_witness : sha256 [97; 98; 99] = digest [97; 98; 99].
Proof.
  apply sha256_is_fips_180_4; [|reflexivity]. repeat (constructor; [unfold u8; lia|]). constructor.
Defined.

End Sha256Facts.
