(* ===== verification/Seccomp.v ===== *)
(** * System call filtering (services/proc/seccomp.rs)

    The per-process filter state of the process table, the check every system
    call goes through and the calls that change the state.  A process is looked
    up by its pid in a [gmap]; a signal the check sends is appended to
    [signals].  The facts: restrictions only grow. *)
From S2P Require Import Prelude.

Module Seccomp.

Definition MAX_FILTERS : nat := 4.
Definition STRICT_ALLOWED : list Z := [502; 503; 501; 525; 542].

Inductive SeccompMode : Type := Disabled | Strict | Filter.

#[export] Instance SeccompMode_eq_dec : EqDecision SeccompMode.
Proof. solve_decision. Defined.

Definition mode_code (m : SeccompMode) : Z :=
  match m with Disabled => 0 | Strict => 1 | Filter => 2 end.

Inductive SeccompAction : Type :=
  | Allow | KillThread | KillProcess | Trap | ErrnoAct (e : Z) | Log.

#[export] Instance SeccompAction_eq_dec : EqDecision SeccompAction.
Proof. solve_decision. Defined.

Definition from_linux (ret : Z) : SeccompAction :=
  let k := Z.land ret 4294901760 in
  if k =? 2147418112 then Allow
  else if k =? 0 then KillThread
  else if k =? 2147483648 then KillProcess
  else if k =? 196608 then Trap
  else if k =? 327680 then ErrnoAct (Z.land ret 65535)
  else if k =? 2147221504 then Log
  else Allow.

Definition to_linux (a : SeccompAction) : Z :=
  match a with
  | Allow => 2147418112
  | KillThread => 0
  | KillProcess => 2147483648
  | Trap => 196608
  | ErrnoAct e => Z.lor 327680 (Z.land e 65535)
  | Log => 2147221504
  end.

Definition DEFAULT_ACTION : SeccompAction := Allow.

Inductive CmpOp : Type :=
  | Equal | NotEqual | GreaterThan | GreaterEqual | LessThan | LessEqual | MaskedEqual.

Record ArgComparator : Type := mkCmp {
  index : Z;
  cmp_op : CmpOp;
  value : Z;
  mask : Z;
}.

Definition evaluate (c : ArgComparator) (arg : Z) : bool :=
  match cmp_op c with
  | Equal => arg =? value c
  | NotEqual => negb (arg =? value c)
  | GreaterThan => value c <? arg
  | GreaterEqual => value c <=? arg
  | LessThan => arg <? value c
  | LessEqual => arg <=? value c
  | MaskedEqual => Z.land arg (mask c) =? value c
  end.

Record SeccompRule : Type := mkRule {
  syscall_nr : Z;
  arg_comparators : list ArgComparator;
  action : SeccompAction;
}.

Definition matches (r : SeccompRule) (nr : Z) (args : list Z) : bool :=
  if negb (syscall_nr r =? nr) then false
  else forallb (fun c => if 6 <=? index c then false
                         else evaluate c (nth (Z.to_nat (index c)) args 0)) (arg_comparators r).

Record SeccompFilter : Type := mkFilter {
  rules : list SeccompRule;
  default_action : SeccompAction;
}.

Fixpoint check_rules (l : list SeccompRule) (d : SeccompAction) (nr : Z) (args : list Z)
  : SeccompAction :=
  match l with
  | [] => d
  | r :: l => if matches r nr args then action r else check_rules l d nr args
  end.

Definition check (f : SeccompFilter) (nr : Z) (args : list Z) : SeccompAction :=
  check_rules (rules f) (default_action f) nr args.

Record SeccompState : Type := mkState {
  mode : Z;
  filters : list SeccompFilter;
  no_new_privs : Z;
}.

Definition state_new : SeccompState := {| mode := 0; filters := []; no_new_privs := 0 |}.

Definition get_mode (s : SeccompState) : SeccompMode :=
  if mode s =? 1 then Strict else if mode s =? 2 then Filter else Disabled.

Definition set_mode (m : SeccompMode) (s : SeccompState) : SeccompState :=
  {| mode := mode_code m; filters := filters s; no_new_privs := no_new_privs s |}.
Definition set_filters (l : list SeccompFilter) (s : SeccompState) : SeccompState :=
  {| mode := mode s; filters := l; no_new_privs := no_new_privs s |}.
Definition set_no_new_privs (s : SeccompState) : SeccompState :=
  {| mode := mode s; filters := filters s; no_new_privs := 1 |}.
Definition is_no_new_privs (s : SeccompState) : bool := negb (no_new_privs s =? 0).

(** The part of the kernel the calls touch: the process table and the signals
    sent. *)
Record world : Type := mkWorld {
  procs : gmap Z SeccompState;
  signals : list (Z * Z);
}.

Definition set_proc (pid : Z) (s : SeccompState) (w : world) : world :=
  {| procs := <[pid := s]> (procs w); signals := signals w |}.
Definition send_signal (pid sig : Z) (w : world) : world :=
  {| procs := procs w; signals := signals w ++ [(pid, sig)] |}.

(** The loop over the filters: stops at the first result that is not [Allow]. *)
Fixpoint run_filters (l : list SeccompFilter) (result : SeccompAction) (nr : Z) (args : list Z)
  : SeccompAction :=
  match l with
  | [] => result
  | f :: l =>
      let result := check f nr args in
      if bool_decide (result = Allow) then run_filters l result nr args else result
  end.

Definition EPERM : Z := 1.
Definition ESRCH : Z := 3.
Definition ENOMEM : Z := 12.
Definition EACCES : Z := 13.
Definition EINVAL : Z := 22.
Definition ENOSYS : Z := 38.

(** [None]: the system call proceeds; [Some r]: it returns [r]. *)
Definition seccomp_check (pid nr : Z) (args : list Z) (w : world) : option Z * world :=
  let m := match procs w !! pid with Some s => get_mode s | None => Disabled end in
  match m with
  | Disabled => (None, w)
  | Strict =>
      if existsb (Z.eqb nr) STRICT_ALLOWED then (None, w)
      else (Some (- EPERM), send_signal pid 9 w)
  | Filter =>
      let act := match procs w !! pid with
                 | Some s => run_filters (filters s) DEFAULT_ACTION nr args
                 | None => Allow
                 end in
      match act with
      | Allow | Log => (None, w)
      | KillThread | KillProcess | Trap => (Some (- EPERM), send_signal pid 31 w)
      | ErrnoAct e => (Some (- e), w)
      end
  end.

Definition sys_seccomp (pid operation : Z) (w : world) : Z * world :=
  if operation =? 0 then
    match procs w !! pid with
    | None => (- ESRCH, w)
    | Some s =>
        if negb (bool_decide (get_mode s = Disabled)) then (- EINVAL, w)
        else (0, set_proc pid (set_mode Strict s) w)
    end
  else if operation =? 1 then
    let has_priv := match procs w !! pid with Some s => is_no_new_privs s | None => false end in
    if negb has_priv && negb (pid =? 1) then (- EACCES, w)
    else
      match procs w !! pid with
      | None => (- ESRCH, w)
      | Some s =>
          if bool_decide (get_mode s = Strict) then (- EINVAL, w)
          else if (MAX_FILTERS <=? length (filters s))%nat then (- ENOMEM, w)
          else (0, set_proc pid (set_mode Filter
                   (set_filters (filters s ++ [mkFilter [] DEFAULT_ACTION]) s)) w)
      end
  else (- EINVAL, w).

Definition PR_GET_SECCOMP : Z := 21.
Definition PR_SET_SECCOMP : Z := 22.
Definition PR_SET_NO_NEW_PRIVS : Z := 38.
Definition PR_GET_NO_NEW_PRIVS : Z := 39.

Definition sys_prctl_prctl (pid option arg2 : Z) (w : world) : Z * world :=
  if option =? PR_SET_SECCOMP then
    if arg2 =? 1 then sys_seccomp pid 0 w
    else if arg2 =? 2 then sys_seccomp pid 1 w
    else (- EINVAL, w)
  else if option =? PR_GET_SECCOMP then
    (mode_code (match procs w !! pid with Some s => get_mode s | None => Disabled end), w)
  else if option =? PR_SET_NO_NEW_PRIVS then
    if negb (arg2 =? 1) then (- EINVAL, w)
    else (0, match procs w !! pid with
             | Some s => set_proc pid (set_no_new_privs s) w
             | None => w
             end)
  else if option =? PR_GET_NO_NEW_PRIVS then
    (match procs w !! pid with Some s => Z.b2z (is_no_new_privs s) | None => 0 end, w)
  else (- ENOSYS, w).

(** [inl] is the error. *)
Definition add_rule (pid : Z) (r : SeccompRule) (w : world) : Z + world :=
  match procs w !! wrap_u32 pid with
  | None => inl ESRCH
  | Some s =>
      let s := if bool_decide (get_mode s = Disabled) then set_mode Filter s else s in
      let fs := match filters s with
                | [] => [mkFilter [r] DEFAULT_ACTION]
                | f :: fs => mkFilter (rules f ++ [r]) (default_action f) :: fs
                end in
      inr (set_proc (wrap_u32 pid) (set_filters fs s) w)
  end.

End Seccomp.

(** ** Facts *)
Module SeccompFacts.
Import Seccomp.

(** The Linux return codes round-trip: decoding the code of an action gives
    the action back, for every error number that fits in 16 bits. *)
Theorem linux_code_roundtrip a :
  (forall e, a = ErrnoAct e -> 0 <= e < 65536) -> from_linux (to_linux a) = a.
Proof.
  intros He. destruct a as [| | | |e|]; try reflexivity. specialize (He e eq_refl).
  unfold from_linux, to_linux. change 327680 with (Z.shiftl 5 16).
  change 65535 with (Z.ones 16). rewrite Z.land_ones, (Z.mod_small e) by lia.
  rewrite Z.lor_comm, lor_shiftl_add by lia.
  assert (Hhi : Z.land (e + 5 * 2 ^ 16) 4294901760 = 327680).
  { change 4294901760 with (Z.shiftl (Z.ones 16) 16).
    apply Z.bits_inj'. intros n Hn. rewrite Z.land_spec, Z.shiftl_spec by done.
    rewrite <- (lor_shiftl_add e 5 16), Z.lor_spec, Z.shiftl_spec by lia.
    change 327680 with (Z.shiftl 5 16). rewrite Z.shiftl_spec by done.
    destruct (Z.ltb_spec n 16).
    - rewrite (Z.testbit_neg_r (Z.ones 16)), (Z.testbit_neg_r 5) by lia. apply andb_false_r.
    - rewrite Z.testbit_ones_nonneg by lia.
      assert (Z.testbit e n = false) as ->.
      { destruct (Z.eq_dec e 0) as [->|]; [apply Z.bits_0|].
        apply Z.bits_above_log2; [lia|]. apply Z.log2_lt_pow2; [lia|].
        apply Z.lt_le_trans with (2 ^ 16); [lia|]. apply Z.pow_le_mono_r; lia. }
      cbn [orb]. destruct (Z.ltb_spec (n - 16) 16); [apply andb_true_r|].
      rewrite andb_false_r. symmetry. apply Z.bits_above_log2; [lia|]. simpl. lia. }
  rewrite Hhi. cbn [Z.eqb Pos.eqb]. f_equal. rewrite Z.land_ones by lia.
  change (2 ^ 16) with 65536. Z.div_mod_to_equations. lia.
Qed.

Lemma linux_code_roundtrip_witness : from_linux (to_linux (ErrnoAct 13)) = ErrnoAct 13.
Proof. apply linux_code_roundtrip. intros e [= <-]. lia. Defined.

(** *** Restrictions only grow *)

(** What the calls can build: only the first filter has rules, and every
    filter allows by default. *)
Definition filters_ok (l : list SeccompFilter) : Prop :=
  Forall (fun f => default_action f = Allow) l /\ Forall (fun f => rules f = []) (tail l).

Definition world_ok (w : world) : Prop := map_Forall (fun _ s => filters_ok (filters s)) (procs w).

(** One call of a process, or of the policy code for any process. *)
Inductive call : world -> world -> Prop :=
  | call_seccomp pid o w : call w (sys_seccomp pid o w).2
  | call_prctl pid o a w : call w (sys_prctl_prctl pid o a w).2
  | call_add_rule pid r w w' : add_rule pid r w = inr w' -> call w w'
  | call_check pid nr args w : call w (seccomp_check pid nr args w).2.

Definition denied (w : world) (pid nr : Z) (args : list Z) : Prop :=
  is_Some (seccomp_check pid nr args w).1.

(** The verdict of a process' own state. *)
Definition state_denies (s : SeccompState) (nr : Z) (args : list Z) : bool :=
  match get_mode s with
  | Disabled => false
  | Strict => negb (existsb (Z.eqb nr) STRICT_ALLOWED)
  | Filter => match run_filters (filters s) DEFAULT_ACTION nr args with
              | Allow | Log => false
              | _ => true
              end
  end.

Lemma denied_iff w pid nr args :
  denied w pid nr args <-> exists s, procs w !! pid = Some s /\ state_denies s nr args = true.
Proof.
  unfold denied, seccomp_check, state_denies. destruct (procs w !! pid) as [s|] eqn:E.
  - split.
    + intros H. exists s. split; [done|]. destruct (get_mode s).
      * by destruct H.
      * destruct (existsb _ _); [by destruct H|done].
      * destruct (run_filters _ _ _ _); try done; by destruct H.
    + intros (s' & [= <-] & Hd). destruct (get_mode s); [done| |].
      * destruct (existsb _ _); [done|by eexists].
      * destruct (run_filters _ _ _ _); try done; by eexists.
  - split; [intros [? ?]; done|by intros (? & ? & _)].
Qed.

Lemma run_filters_allow l nr args :
  Forall (fun f => rules f = [] /\ default_action f = Allow) l ->
  run_filters l Allow nr args = Allow.
Proof.
  induction 1 as [|f l [Hr Hd] _ IH]; [done|]. simpl. unfold check. rewrite Hr, Hd. simpl. apply IH.
Qed.

(** On the filters the calls build, the first one decides. *)
Lemma run_filters_head f l nr args :
  filters_ok (f :: l) -> run_filters (f :: l) DEFAULT_ACTION nr args = check f nr args.
Proof.
  intros [Hd Hr]. simpl in *. case_bool_decide as H; [|done]. rewrite H.
  apply run_filters_allow. apply Forall_and. split; [done|]. by inversion Hd.
Qed.

(** Appending a rule does not change what the rules before it decide. *)
Lemma check_rules_app l r nr args :
  check_rules l Allow nr args <> Allow ->
  check_rules (l ++ [r]) Allow nr args = check_rules l Allow nr args.
Proof.
  induction l as [|x l IH]; simpl; [done|]. destruct (matches x nr args); [done|apply IH].
Qed.

(** A later state of a process that is at least as strict. *)
Definition stricter (s s' : SeccompState) : Prop :=
  filters_ok (filters s') /\
  forall nr args, state_denies s nr args = true -> state_denies s' nr args = true.

Lemma get_set_mode m s : get_mode (set_mode m s) = m.
Proof. by destruct m. Qed.

Lemma strict_call s : filters_ok (filters s) -> get_mode s = Disabled -> stricter s (set_mode Strict s).
Proof. intros Hf Hm. split; [done|]. intros nr args. unfold state_denies. by rewrite Hm. Qed.

Lemma filter_call s :
  filters_ok (filters s) -> get_mode s <> Strict ->
  stricter s (set_mode Filter (set_filters (filters s ++ [mkFilter [] DEFAULT_ACTION]) s)).
Proof.
  intros Hf Hm.
  assert (Hok : filters_ok (filters s ++ [mkFilter [] DEFAULT_ACTION])).
  { destruct Hf as [Hd Hr]. split; [apply Forall_app; by repeat constructor|].
    destruct (filters s) as [|f l]; simpl in *; [constructor|]. apply Forall_app. by repeat constructor. }
  split; [done|]. intros nr args. unfold state_denies. rewrite get_set_mode.
  destruct (get_mode s); [done|done|]. cbn [filters set_mode set_filters].
  destruct (filters s) as [|f l]; [done|]. rewrite <- app_comm_cons in *.
  by rewrite !run_filters_head.
Qed.

Lemma rule_call s r :
  filters_ok (filters s) ->
  stricter s
    (set_filters (match filters s with
                  | [] => [mkFilter [r] DEFAULT_ACTION]
                  | f :: fs => mkFilter (rules f ++ [r]) (default_action f) :: fs
                  end) (if bool_decide (get_mode s = Disabled) then set_mode Filter s else s)).
Proof.
  intros Hf.
  assert (Hok : filters_ok (match filters s with
                  | [] => [mkFilter [r] DEFAULT_ACTION]
                  | f :: fs => mkFilter (rules f ++ [r]) (default_action f) :: fs
                  end)).
  { destruct (filters s) as [|f fs]; [split; repeat constructor|].
    destruct Hf as [Hd Hr]. inversion Hd; subst. split; [by constructor|done]. }
  split; [done|]. intros nr args Hden. unfold state_denies in *.
  destruct (get_mode s) eqn:Em; [done| |].
  - rewrite bool_decide_false by done.
    assert (get_mode (set_filters _ s) = Strict) as -> by exact Em. done.
  - rewrite bool_decide_false by done.
    assert (get_mode (set_filters _ s) = Filter) as -> by exact Em.
    cbn [filters set_filters]. destruct (filters s) as [|f fs]; [done|].
    rewrite run_filters_head in Hden by done. rewrite run_filters_head by done.
    unfold check in *. cbn [rules default_action].
    destruct Hf as [Hd _]. inversion Hd as [|?? Hdf _]; subst. rewrite Hdf in *.
    by rewrite check_rules_app by (intros Heq; by rewrite Heq in Hden).
Qed.

Lemma set_proc_ok w pid s s' :
  world_ok w -> procs w !! pid = Some s -> stricter s s' ->
  world_ok (set_proc pid s' w) /\
  forall p nr args, denied w p nr args -> denied (set_proc pid s' w) p nr args.
Proof.
  intros Hw Hs [Hok Hd]. split; [by apply map_Forall_insert_2|].
  intros p nr args. rewrite !denied_iff. intros (s0 & Hs0 & Hden). simpl.
  destruct (decide (p = pid)) as [->|].
  - rewrite lookup_insert_eq. exists s'. split; [done|]. apply Hd. by simplify_eq.
  - rewrite lookup_insert_ne by done. by exists s0.
Qed.

Lemma sys_seccomp_grows pid o w :
  world_ok w -> world_ok (sys_seccomp pid o w).2 /\
  forall p nr args, denied w p nr args -> denied (sys_seccomp pid o w).2 p nr args.
Proof.
  intros Hw. unfold sys_seccomp.
  destruct (procs w !! pid) as [s|] eqn:E; [|by repeat case_match].
  assert (Hf : filters_ok (filters s)) by exact (Hw _ _ E).
  destruct (o =? 0).
  - case_bool_decide as Hm; [|done]. eapply set_proc_ok; [done|done|]. by apply strict_call.
  - destruct (o =? 1); [|done]. destruct (_ && _); [done|].
    case_bool_decide as Hm; [done|]. case_match; [done|].
    eapply set_proc_ok; [done|done|]. by apply filter_call.
Qed.

(** Filtering only tightens: starting from the state of freshly created
    processes, whatever sequence of seccomp and prctl calls, policy rules and
    checks runs, a system call with given arguments that is denied to a
    process stays denied to it. *)
Theorem denied_stays_denied w w' pid nr args :
  world_ok w -> rtc call w w' -> denied w pid nr args -> denied w' pid nr args.
Proof.
  intros Hw Hr. revert Hw. induction Hr as [|w w1 w' Hcall _ IH]; [done|]. intros Hw Hden.
  assert (Hgrow : world_ok w1 /\ forall p nr args, denied w p nr args -> denied w1 p nr args).
  { destruct Hcall as [p o w|p o a w|p r w w1 Hadd|p n ar w].
    - by apply sys_seccomp_grows.
    - unfold sys_prctl_prctl.
      destruct (_ =? PR_SET_SECCOMP); [repeat case_match; try done; by apply sys_seccomp_grows|].
      destruct (_ =? PR_GET_SECCOMP); [done|].
      destruct (_ =? PR_SET_NO_NEW_PRIVS); [|by case_match].
      case_match; [done|]. simpl. destruct (procs w !! p) as [s|] eqn:E; [|done].
      eapply set_proc_ok; [done|done|]. split; [by apply (Hw _ _ E)|done].
    - unfold add_rule in Hadd. destruct (procs w !! wrap_u32 p) as [s|] eqn:E; [|done].
      injection Hadd as <-.
      assert (Hfs : filters (if bool_decide (get_mode s = Disabled) then set_mode Filter s else s)
                    = filters s) by (by case_bool_decide).
      rewrite Hfs. eapply set_proc_ok; [done|done|]. apply rule_call. by apply (Hw _ _ E).
    - assert (Hp : procs (seccomp_check p n ar w).2 = procs w)
        by (unfold seccomp_check; repeat case_match; done).
      unfold world_ok. rewrite Hp. split; [done|]. intros p' n' ar'. by rewrite !denied_iff, Hp. }
  destruct Hgrow as [Hw1 Hd1]. apply IH; [done|]. by apply Hd1.
Qed.

Definition one_process : world := {| procs := {[ 7 := state_new ]}; signals := [] |}.

Lemma denied_stays_denied_witness :
  exists w w', add_rule 7 (mkRule 600 [] KillProcess) one_process = inr w /\
    add_rule 7 (mkRule 600 [] Log) w = inr w' /\
    (seccomp_check 7 600 [] w').1 = Some (-1) /\ denied w' 7 600 [].
Proof.
  eexists _, _. split; [reflexivity|]. split; [reflexivity|]. split; [reflexivity|].
  eapply (denied_stays_denied
    match add_rule 7 (mkRule 600 [] KillProcess) one_process with inr w => w | inl _ => one_process end).
  - apply (map_Forall_insert_2 (fun _ s => filters_ok (filters s)));
      [split; repeat constructor|].
    apply (map_Forall_insert_2 (fun _ s => filters_ok (filters s)));
      [split; constructor|apply map_Forall_empty].
  - apply rtc_once, (call_add_rule 7 (mkRule 600 [] Log)). reflexivity.
  - by eexists.
Defined.

(** Installing a filter restricts nothing: a successful
    [sys_seccomp(SET_MODE_FILTER)], whatever filter program its argument points
    to, leaves a process without policy rules free to make every call. *)
Theorem filter_mode_restricts_nothing w pid w' s :
  procs w !! pid = Some s -> filters s = [] ->
  sys_seccomp pid 1 w = (0, w') ->
  (exists s', procs w' !! pid = Some s' /\ get_mode s' = Filter) /\
  forall nr args, (seccomp_check pid nr args w').1 = None.
Proof.
  intros Hs Hf. unfold sys_seccomp. simpl. rewrite Hs. destruct (_ && _); [done|].
  case_bool_decide; [done|]. rewrite Hf. simpl. intros [= <-].
  split; [eexists; simpl; by rewrite lookup_insert_eq|].
  intros nr args. unfold seccomp_check. simpl. by rewrite lookup_insert_eq.
Qed.

Lemma filter_mode_restricts_nothing_witness :
  exists w', sys_seccomp 1 1 {| procs := {[ 1 := state_new ]}; signals := [] |} = (0, w') /\
             (seccomp_check 1 999 [] w').1 = None.
Proof.
  eexists. split; [reflexivity|].
  eapply (filter_mode_restricts_nothing {| procs := {[ 1 := state_new ]}; signals := [] |} 1 _ state_new);
    reflexivity.
Defined.

End SeccompFacts.
