(* ===== verification/Rlimit.v ===== *)
(** * Resource limits (services/proc/rlimit.rs, framework/proc/rlimit.rs)

    [RlimitTable] is the table of a process, [procs] the process table with the
    limits of each process.  The two system calls read and write the sixteen
    bytes of a [struct rlimit] in the caller's memory; [fork_rlimits] is the
    inheritance step of [sys_fork].  An [Errno] is its number.

    The facts: soft limits stay below hard limits, processes other than init
    cannot raise a hard limit by any sequence of [setrlimit] and [fork], and
    what [setrlimit] stored is what [getrlimit] delivers. *)
From S2P Require Import Prelude Bytes.

Module Rlimit.

Definition EPERM : Z := 1.
Definition ESRCH : Z := 3.
Definition EFAULT : Z := 14.
Definition EINVAL : Z := 22.

(** [Errno::as_ret] and [Errno::from_ret]: a number without a variant becomes
    [EINVAL]. *)
Definition as_ret (e : Z) : Z := - e.
Definition known_errno (e : Z) : bool :=
  (1 <=? e) && (e <=? 43) || (60 <=? e) && (e <=? 64) || (e =? 71) || (e =? 74) || (e =? 75)
  || (88 <=? e) && (e <=? 108) || (110 <=? e) && (e <=? 115).
Definition from_ret (ret : Z) : Z :=
  let errno := wrap_u64 (- ret) in if known_errno errno then errno else EINVAL.

Definition RLIMIT_STACK : nat := 3.
Definition RLIMIT_CORE : nat := 4.
Definition RLIMIT_NPROC : nat := 6.
Definition RLIMIT_NOFILE : nat := 7.
Definition RLIMIT_MEMLOCK : nat := 8.
Definition RLIMIT_AS : nat := 9.
Definition RLIMIT_NLIMITS : nat := 16.
Definition RLIM_INFINITY : Z := U64_MAX.
Definition MAX_PROCESSES : Z := 256.
Definition MAX_OPEN_FILES : Z := 32.

Record Rlimit : Type := mkRlimit { cur : Z; max : Z }.
Definition infinity : Rlimit := mkRlimit RLIM_INFINITY RLIM_INFINITY.

Abbreviation RlimitTable := (list Rlimit).

Definition table_new : RlimitTable :=
  [ infinity; infinity; infinity;
    mkRlimit (8 * 1024 * 1024) RLIM_INFINITY;
    infinity; infinity;
    mkRlimit MAX_PROCESSES RLIM_INFINITY;
    mkRlimit MAX_OPEN_FILES RLIM_INFINITY;
    infinity; infinity; infinity; infinity; infinity; infinity; infinity; infinity ].

Definition get (t : RlimitTable) (resource : nat) : option Rlimit :=
  if (resource <? RLIMIT_NLIMITS)%nat then t !! resource else None.

Definition set (t : RlimitTable) (resource : nat) (cur' max' : Z) (is_privileged : bool)
  : RlimitTable + Z :=
  if (RLIMIT_NLIMITS <=? resource)%nat then inr EINVAL
  else if max' <? cur' then inr EINVAL
  else
    let old := default infinity (t !! resource) in
    if (max old <? max') && negb is_privileged then inr EPERM
    else inl (<[resource := mkRlimit cur' max']> t).

(** The process table, reduced to the limits. *)
Abbreviation procs := (gmap Z RlimitTable).

Definition with_process (ps : procs) (pid : Z) : option RlimitTable :=
  if MAX_PROCESSES <=? pid then None else ps !! pid.

Definition USER_ADDR_MAX : Z := 0x7FFFFFFFF000.
Definition validate_user_ptr (ptr : Z) : bool := (0 <? ptr) && (ptr <? USER_ADDR_MAX).
Definition validate_user_buf (ptr len : Z) : bool :=
  if len =? 0 then negb (ptr =? 0)
  else validate_user_ptr ptr && (wrap_u64 (ptr + len) <=? USER_ADDR_MAX).

Definition valid_resource (resource : Z) : bool :=
  (0 <=? resource) && (resource <? Z.of_nat RLIMIT_NLIMITS).

Definition sys_getrlimit (pid resource rlim_ptr : Z) (ps : procs) (m : memory) : Z * memory :=
  if rlim_ptr =? 0 then (as_ret EINVAL, m)
  else if negb (valid_resource resource) then (as_ret EINVAL, m)
  else
    match with_process ps pid with
    | None => (as_ret ESRCH, m)
    | Some t =>
        match get t (Z.to_nat resource) with
        | None => (as_ret EINVAL, m)
        | Some rlim =>
            if negb (validate_user_buf rlim_ptr 16) then (as_ret EFAULT, m)
            else
              let m := store_bytes m rlim_ptr (to_le_bytes 8 (cur rlim)) in
              (0, store_bytes m (rlim_ptr + 8) (to_le_bytes 8 (max rlim)))
        end
    end.

Definition sys_setrlimit (pid resource rlim_ptr : Z) (m : memory) (ps : procs) : Z * procs :=
  if rlim_ptr =? 0 then (as_ret EINVAL, ps)
  else if negb (valid_resource resource) then (as_ret EINVAL, ps)
  else if negb (validate_user_buf rlim_ptr 16) then (as_ret EFAULT, ps)
  else
    let b := load_bytes m rlim_ptr 16 in
    let cur' := from_le_bytes (sub_slice b 0 8) in
    let max' := from_le_bytes (sub_slice b 8 16) in
    let is_privileged := pid =? 1 in
    match with_process ps pid with
    | None => (as_ret ESRCH, ps)
    | Some t =>
        match set t (Z.to_nat resource) cur' max' is_privileged with
        | inl t' => (0, <[pid := t']> ps)
        | inr e => (as_ret e, ps)
        end
    end.

Definition getrlimit_syscall (pid resource rlim_ptr : Z) (ps : procs) (m : memory)
  : (Z + Z) * memory :=
  let '(ret, m') := sys_getrlimit pid resource rlim_ptr ps m in
  (if 0 <=? ret then inl 0 else inr (from_ret ret), m').

Definition setrlimit_syscall (pid resource rlim_ptr : Z) (m : memory) (ps : procs)
  : (Z + Z) * procs :=
  let '(ret, ps') := sys_setrlimit pid resource rlim_ptr m ps in
  (if 0 <=? ret then inl 0 else inr (from_ret ret), ps').

(** The checks the other subsystems call. *)
Definition soft (ps : procs) (pid : Z) (resource : nat) : option Z :=
  match with_process ps pid with
  | None => None
  | Some t => cur <$> get t resource
  end.

Definition check_nofile_exceeded (ps : procs) (pid fd_count : Z) : bool :=
  match soft ps pid RLIMIT_NOFILE with Some c => c <=? fd_count | None => false end.
Definition check_nproc_exceeded (ps : procs) (pid child_count : Z) : bool :=
  match soft ps pid RLIMIT_NPROC with Some c => c <=? child_count | None => false end.
Definition check_as_exceeded (ps : procs) (pid current_usage additional_bytes : Z) : bool :=
  match soft ps pid RLIMIT_AS with
  | Some c => if c =? RLIM_INFINITY then false else c <? sat_add_u64 current_usage additional_bytes
  | None => false
  end.
Definition get_stack_limit (ps : procs) (pid : Z) : Z :=
  default (8 * 1024 * 1024) (soft ps pid RLIMIT_STACK).
Definition get_nofile_limit (ps : procs) (pid : Z) : Z :=
  default MAX_OPEN_FILES (soft ps pid RLIMIT_NOFILE).
Definition get_memlock_limit (ps : procs) (pid : Z) : Z :=
  default (64 * 1024) (soft ps pid RLIMIT_MEMLOCK).
Definition check_memlock_exceeded (ps : procs) (pid current_locked additional_bytes : Z) : bool :=
  let limit := get_memlock_limit ps pid in
  if limit =? RLIM_INFINITY then false else limit <? sat_add_u64 current_locked additional_bytes.

(** Core dumps. *)
Definition coredump_allowed (ps : procs) (pid : Z) : bool :=
  if pid =? 0 then false
  else match soft ps pid RLIMIT_CORE with Some c => 0 <? c | None => false end.
Definition coredump_limit (ps : procs) (pid : Z) : Z :=
  if pid =? 0 then 0 else default 0 (soft ps pid RLIMIT_CORE).

(** [sys_fork]: the child's table is a clone of the parent's, and the child is
    entered in the process table. *)
Definition fork_rlimits (parent child : Z) (ps : procs) : procs :=
  match with_process ps parent with
  | None => ps
  | Some t => if MAX_PROCESSES <=? child then ps else <[child := t]> ps
  end.

(** A call by a process; the memory is the caller's at the time of the call. *)
Inductive call : Type :=
  | SetRlimit (pid resource rlim_ptr : Z) (m : memory)
  | Fork (parent child : Z).

Definition caller (c : call) : Z := match c with SetRlimit pid _ _ _ => pid | Fork p _ => p end.
Definition perform (ps : procs) (c : call) : procs :=
  match c with
  | SetRlimit pid resource ptr m => snd (sys_setrlimit pid resource ptr m ps)
  | Fork parent child => fork_rlimits parent child ps
  end.

End Rlimit.

Module RlimitFacts.
Import Rlimit.

Definition rlimit_ok (r : Rlimit) : Prop := 0 <= cur r <= max r /\ max r <= RLIM_INFINITY.
Definition table_ok (t : RlimitTable) : Prop := length t = RLIMIT_NLIMITS /\ Forall rlimit_ok t.
Definition procs_ok (ps : procs) : Prop := map_Forall (fun _ => table_ok) ps.

(** No process has a hard limit of [resource] above [bound]. *)
Definition hard_below (resource : nat) (bound : Z) (ps : procs) : Prop :=
  forall pid t r, ps !! pid = Some t -> t !! resource = Some r -> max r <= bound.

Lemma table_new_ok : table_ok table_new.
Proof. split; [done|]. repeat constructor; unfold rlimit_ok; cbn; done. Qed.

Lemma with_process_lookup ps pid t : with_process ps pid = Some t -> ps !! pid = Some t.
Proof. unfold with_process. by case_match. Qed.

Lemma from_le_8 l : Forall u8 l -> length l = 8%nat -> u64 (from_le_bytes l).
Proof. intros HF Hl. pose proof (from_le_bytes_bound l HF) as H. rewrite Hl in H. unfold u64, U64_MAX. lia. Qed.

Lemma sub_slice_8 (b : bytes) k :
  Forall u8 b -> (k + 8 <= length b)%nat ->
  Forall u8 (sub_slice b k (k + 8)) /\ length (sub_slice b k (k + 8)) = 8%nat.
Proof.
  intros HF Hl. unfold sub_slice. split; [by apply Forall_take, Forall_drop|].
  rewrite length_take, length_drop. lia.
Qed.

(** Every outcome of a successful [set]. *)
Lemma set_inl t resource c m p t' :
  set t resource c m p = inl t' ->
  (resource < RLIMIT_NLIMITS)%nat /\ c <= m /\ t' = <[resource := mkRlimit c m]> t /\
  (p = false -> m <= max (default infinity (t !! resource))).
Proof.
  unfold set. destruct (Nat.leb_spec RLIMIT_NLIMITS resource); [done|].
  destruct (Z.ltb_spec m c); [done|]. destruct (Z.ltb_spec (max (default infinity (t !! resource))) m);
    destruct p; cbn [andb negb]; intros Heq; simplify_eq; split_and!; try done; lia.
Qed.

(** What a successful [setrlimit] did. *)
Lemma sys_setrlimit_cases pid resource ptr m ps ret ps' :
  sys_setrlimit pid resource ptr m ps = (ret, ps') ->
  (ret < 0 /\ ps' = ps) \/
  ret = 0 /\ validate_user_buf ptr 16 = true /\ valid_resource resource = true /\
  exists t t', with_process ps pid = Some t /\
    set t (Z.to_nat resource) (from_le_bytes (sub_slice (load_bytes m ptr 16) 0 8))
      (from_le_bytes (sub_slice (load_bytes m ptr 16) 8 16)) (pid =? 1) = inl t' /\
    ps' = <[pid := t']> ps.
Proof.
  unfold sys_setrlimit, as_ret, EINVAL, EFAULT, ESRCH.
  destruct (ptr =? 0); [intros [= <- <-]; by left|].
  destruct (valid_resource resource); cbn [negb]; [|intros [= <- <-]; by left].
  destruct (validate_user_buf ptr 16); cbn [negb]; [|intros [= <- <-]; by left].
  destruct (with_process ps pid) as [t|] eqn:Ht; [|intros [= <- <-]; by left].
  destruct (set _ _ _ _ _) as [t'|e] eqn:Hs; intros [= <- <-].
  - right. split_and!; eauto.
  - left. split; [|done]. revert Hs. unfold set, EINVAL, EPERM. repeat case_match; intros [= <-]; lia.
Qed.

Lemma setrlimit_ok pid resource ptr m ps :
  store_ok m -> procs_ok ps -> procs_ok (snd (sys_setrlimit pid resource ptr m ps)).
Proof.
  intros Hm Hps. destruct (sys_setrlimit _ _ _ _ _) as [ret ps'] eqn:E.
  apply sys_setrlimit_cases in E as [[_ ->]|(_ & _ & _ & t & t' & Ht & Hs & ->)]; [done|].
  apply map_Forall_insert_2; [|done]. apply set_inl in Hs as (Hr & Hle & -> & _).
  destruct (Hps _ _ (with_process_lookup _ _ _ Ht)) as [Hl HF].
  pose proof (load_bytes_u8 m ptr 16 Hm) as Hb. pose proof (length_load_bytes m ptr 16) as Hlb.
  destruct (sub_slice_8 _ 0 Hb) as [Hb0 Hl0]; [lia|].
  destruct (sub_slice_8 _ 8 Hb) as [Hb8 Hl8]; [lia|].
  pose proof (from_le_8 _ Hb0 Hl0) as [Hc _]. pose proof (from_le_8 _ Hb8 Hl8) as [_ Hx].
  split; [by rewrite length_insert|]. apply Forall_insert; [done|]. done.
Qed.

Lemma setrlimit_hard r B pid resource ptr m ps :
  procs_ok ps -> pid <> 1 -> hard_below r B ps ->
  hard_below r B (snd (sys_setrlimit pid resource ptr m ps)).
Proof.
  intros Hps Hpid HB. destruct (sys_setrlimit _ _ _ _ _) as [ret ps'] eqn:E.
  apply sys_setrlimit_cases in E as [[_ ->]|(_ & _ & _ & t & t' & Ht & Hs & ->)]; [done|].
  apply set_inl in Hs as (Hr & _ & -> & Hle). apply with_process_lookup in Ht.
  destruct (Hps _ _ Ht) as [Hl _]. specialize (Hle (proj2 (Z.eqb_neq _ _) Hpid)).
  intros pid' u e. simpl. rewrite lookup_insert_Some. intros [[<- <-]|[_ Hu]] He; [|by eapply HB].
  apply list_lookup_insert_Some in He as [(<- & <- & Hlt)|[_ He]]; [|by eapply HB].
  apply lookup_lt_is_Some in Hlt as [old Hold]. rewrite Hold in Hle. cbn [max default] in *.
  pose proof (HB _ _ _ Ht Hold). cbn in Hle. lia.
Qed.

Lemma fork_rlimits_lookup parent child ps pid t :
  fork_rlimits parent child ps !! pid = Some t -> exists pid', ps !! pid' = Some t.
Proof.
  unfold fork_rlimits. destruct (with_process ps parent) as [u|] eqn:Hu; [|eauto].
  case_match; [eauto|]. rewrite lookup_insert_Some. apply with_process_lookup in Hu. naive_solver.
Qed.

Lemma perform_ok ps c :
  (forall pid r p m, c = SetRlimit pid r p m -> store_ok m) -> procs_ok ps -> procs_ok (perform ps c).
Proof.
  intros Hc Hps. destruct c as [pid r p m|parent child]; [by eapply setrlimit_ok; eauto|].
  intros pid t (pid' & Ht)%fork_rlimits_lookup. by eapply Hps.
Qed.

(** C36: limits are enforced across system calls and [fork]: whatever sequence of
    [setrlimit] and [fork] calls the processes make, every soft limit stays at
    most its hard limit, and if init makes none of the calls, no hard limit of
    any process, forked ones included, exceeds the highest one at the start. *)
Theorem unprivileged_hard_limits_never_rise calls ps :
  procs_ok ps ->
  (forall pid r p m, SetRlimit pid r p m ∈ calls -> store_ok m) ->
  procs_ok (fold_left perform calls ps) /\
  forall resource bound,
    (forall c, c ∈ calls -> caller c <> 1) -> hard_below resource bound ps ->
    hard_below resource bound (fold_left perform calls ps).
Proof.
  revert ps. induction calls as [|c calls IH]; intros ps Hps Hm; [done|]. cbn [fold_left].
  destruct (IH (perform ps c)) as [H1 H2].
  { apply perform_ok; [|done]. intros pid r p m ->. eapply Hm. by left. }
  { intros pid r p m Hin. eapply Hm. by right. }
  split; [done|]. intros resource bound Hcs HB. apply H2.
  { intros d Hd. apply Hcs. by right. }
  assert (Hc : caller c <> 1) by (apply Hcs; by left).
  destruct c as [pid r p m|parent child]; [by apply setrlimit_hard|].
  intros pid t e (pid' & Ht)%fork_rlimits_lookup. by eapply HB.
Qed.

Lemma unprivileged_hard_limits_never_rise_witness :
  let m := store_bytes (store_bytes ∅ 4096 (to_le_bytes 8 10)) 4104 (to_le_bytes 8 20) in
  let calls := [SetRlimit 5 7 4096 m; Fork 5 6; SetRlimit 6 7 8192 m] in
  hard_below 7 RLIM_INFINITY (fold_left perform calls {[ 5 := table_new ]}) /\
  fold_left perform calls {[ 5 := table_new ]} !! 6 ≫= (.!! 7%nat) = Some (mkRlimit 0 0).
Proof.
  intros m calls. split; [|reflexivity].
  apply (unprivileged_hard_limits_never_rise calls {[ 5 := table_new ]}).
  - intros pid t [_ <-]%lookup_singleton_Some. apply table_new_ok.
  - intros pid r p m' Hin. assert (m' = m) as -> by (clearbody m; unfold calls in Hin; set_solver).
    apply store_bytes_ok; [apply store_bytes_ok; [apply map_Forall_empty|]|]; apply to_le_bytes_u8.
  - intros c Hc. unfold calls in Hc. repeat (apply elem_of_cons in Hc as [->|Hc]; [done|]).
    by apply elem_of_nil in Hc.
  - intros pid t r [_ <-]%lookup_singleton_Some Hr.
    destruct table_new_ok as [_ HF]. by destruct (proj1 (Forall_lookup _ _) HF _ _ Hr).
Defined.

Lemma length_16_split (b : bytes) :
  length b = 16%nat -> b = sub_slice b 0 8 ++ sub_slice b 8 16.
Proof.
  intros Hl. unfold sub_slice. cbn [Nat.sub drop].
  rewrite (take_ge (drop 8 b)) by (rewrite length_drop; lia). by rewrite take_drop.
Qed.

(** Two adjacent writes are one. *)
Lemma store_bytes_app m a l1 l2 :
  store_bytes m a (l1 ++ l2) = store_bytes (store_bytes m a l1) (a + Z.of_nat (length l1)) l2.
Proof.
  revert m a. induction l1 as [|b l1 IH]; intros m a; [by rewrite Z.add_0_r|].
  cbn [app store_bytes length]. rewrite IH. f_equal. lia.
Qed.

(** What [setrlimit] accepts is what [getrlimit] reports: after a successful
    [setrlimit] a [getrlimit] of the same resource by the same process, into any
    buffer inside user space, succeeds and delivers the sixteen bytes set. *)
Theorem setrlimit_getrlimit_roundtrip pid resource ptr q m m' ps ps' :
  store_ok m -> procs_ok ps -> sys_setrlimit pid resource ptr m ps = (0, ps') ->
  validate_user_buf q 16 = true ->
  exists m'', sys_getrlimit pid resource q ps' m' = (0, m'') /\
    load_bytes m'' q 16 = load_bytes m ptr 16 /\
    forall a, 0 <= a < 2 ^ 64 -> a < q \/ q + 16 <= a -> load_byte m'' a = load_byte m' a.
Proof.
  intros Hm Hps E Hq. apply sys_setrlimit_cases in E
    as [[? _]|(_ & _ & Hvr & t & t' & Ht & Hs & ->)]; [lia|].
  apply set_inl in Hs as (Hr & _ & -> & _). destruct (Hps _ _ (with_process_lookup _ _ _ Ht)) as [Hl _].
  assert (Hwp : forall u, with_process (<[pid := u]> ps) pid = Some u).
  { intros u. revert Ht. unfold with_process. case_match; [done|]. by rewrite lookup_insert_eq. }
  assert (Hq' : 0 < q /\ q + 16 <= USER_ADDR_MAX).
  { revert Hq. unfold validate_user_buf, validate_user_ptr. intros [[Hp1 Hp2]%andb_true_iff Hp3]%andb_true_iff.
    rewrite wrap_u64_small in Hp3; unfold u64, U64_MAX, USER_ADDR_MAX in *; lia. }
  unfold USER_ADDR_MAX in Hq'. unfold sys_getrlimit.
  rewrite (proj2 (Z.eqb_neq q 0)), Hvr, Hwp, Hq by lia. cbn [negb].
  unfold get. rewrite (proj2 (Nat.ltb_lt _ _)), list_lookup_insert_eq by lia. cbn [cur max].
  pose proof (load_bytes_u8 m ptr 16 Hm) as Hb. pose proof (length_load_bytes m ptr 16) as Hlb.
  destruct (sub_slice_8 _ 0 Hb) as [Hb0 Hl0]; [lia|].
  destruct (sub_slice_8 _ 8 Hb) as [Hb8 Hl8]; [lia|].
  rewrite !to_from_le_bytes by done.
  cbn [Nat.add] in *.
  replace (q + 8) with (q + Z.of_nat (length (sub_slice (load_bytes m ptr 16) 0 8))) by lia.
  rewrite <- store_bytes_app, <- (length_16_split _ Hlb).
  eexists. split; [done|]. split.
  - rewrite <- Hlb at 1. apply load_store_bytes; rewrite ?Hlb; lia.
  - intros a Ha Hd. apply load_byte_store_bytes_ne; rewrite ?Hlb; lia.
Qed.

Lemma setrlimit_getrlimit_roundtrip_witness :
  let m := store_bytes (store_bytes ∅ 4096 (to_le_bytes 8 10)) 4104 (to_le_bytes 8 20) in
  exists ps' m'', sys_setrlimit 5 7 4096 m {[ 5 := table_new ]} = (0, ps') /\
    sys_getrlimit 5 7 8192 ps' ∅ = (0, m'') /\ load_bytes m'' 8192 16 = load_bytes m 4096 16.
Proof.
  intros m. eexists. destruct (setrlimit_getrlimit_roundtrip 5 7 4096 8192 m ∅ {[ 5 := table_new ]}
    (snd (sys_setrlimit 5 7 4096 m {[ 5 := table_new ]}))) as (m'' & H1 & H2 & _).
  - apply store_bytes_ok; [apply store_bytes_ok; [apply map_Forall_empty|]|]; apply to_le_bytes_u8.
  - intros pid t [_ <-]%lookup_singleton_Some. apply table_new_ok.
  - reflexivity.
  - reflexivity.
  - exists m''. split; [reflexivity|]. split; [exact H1|exact H2].
Defined.

End RlimitFacts.
