(* ===== verification/FdAlloc.v ===== *)
(** * Global file descriptor numbers (services/proc/fd_alloc.rs)

    Each subsystem has a fixed range of descriptor numbers and a bitmap of the
    taken ones.  [FD_BITMAPS] is the list of its bytes.  [alloc_fd] and
    [free_fd] are the operations run alone; [alloc_step] takes [alloc_fd] apart
    into its atomic accesses, so that two calls can be interleaved.

    The facts: the plan's ranges are disjoint and the numbering invertible, the
    bitmaps refine a set of live descriptors when calls do not overlap, and a
    schedule of two overlapping calls that hands out one number twice. *)
From S2P Require Import Prelude.

Module FdAlloc.

Inductive FdSubsystem : Type :=
  | Smoltcp | Uds | EventFd | SignalFd | Inotify | TimerFd | PidFd.

#[export] Instance FdSubsystem_eq_dec : EqDecision FdSubsystem.
Proof. solve_decision. Defined.

Definition COUNT : nat := 7.

(** [sub as usize]. *)
Definition sub_index (s : FdSubsystem) : nat :=
  match s with
  | Smoltcp => 0 | Uds => 1 | EventFd => 2 | SignalFd => 3 | Inotify => 4 | TimerFd => 5 | PidFd => 6
  end.

Definition from_index (i : nat) : option FdSubsystem :=
  match i with
  | 0 => Some Smoltcp | 1 => Some Uds | 2 => Some EventFd | 3 => Some SignalFd
  | 4 => Some Inotify | 5 => Some TimerFd | 6 => Some PidFd | _ => None
  end%nat.

Record FdRange : Type := mkRange { base : Z; capacity : nat }.

Definition end_exclusive (r : FdRange) : Z := base r + Z.of_nat (capacity r).
Definition contains (r : FdRange) (fd : Z) : bool := (base r <=? fd) && (fd <? end_exclusive r).
Definition overlaps (r o : FdRange) : bool :=
  (base r <? end_exclusive o) && (base o <? end_exclusive r).

(** [FdPlan]. *)
Definition SMOLTCP : FdRange := mkRange 0 256.
Definition UDS : FdRange := mkRange 1000 16.
Definition EVENT_FD : FdRange := mkRange 1100 16.
Definition SIGNAL_FD : FdRange := mkRange 1120 16.
Definition INOTIFY : FdRange := mkRange 1140 16.
Definition TIMER_FD : FdRange := mkRange 1160 16.
Definition PID_FD : FdRange := mkRange 1180 16.

Definition range_for (s : FdSubsystem) : FdRange :=
  match s with
  | Smoltcp => SMOLTCP | Uds => UDS | EventFd => EVENT_FD | SignalFd => SIGNAL_FD
  | Inotify => INOTIFY | TimerFd => TIMER_FD | PidFd => PID_FD
  end.

Definition ALL : list FdRange := [SMOLTCP; UDS; EVENT_FD; SIGNAL_FD; INOTIFY; TIMER_FD; PID_FD].

(** The two nested loops over [ALL]. *)
Fixpoint ranges_disjoint (l : list FdRange) : bool :=
  match l with
  | [] => true
  | r :: l => negb (existsb (overlaps r) l) && ranges_disjoint l
  end.
Definition ranges_non_overlapping : bool := ranges_disjoint ALL.

Definition verify_plan : outcome unit := if ranges_non_overlapping then Done () else Panic.

Definition BITMAP_SIZE : nat := 32.
Definition FD_BITMAPS : list Z := replicate (COUNT * BITMAP_SIZE) 0.

Definition byte_idx (s : FdSubsystem) (slot : nat) : nat := (sub_index s * BITMAP_SIZE + slot / 8)%nat.
Definition bit_idx (slot : nat) : Z := Z.of_nat (slot mod 8).

Definition load (bm : list Z) (i : nat) : Z := nth i bm 0.
Definition store (bm : list Z) (i : nat) (v : Z) : list Z := <[i := v]> bm.

Fixpoint alloc_scan (s : FdSubsystem) (slots : list nat) (bm : list Z) : option Z * list Z :=
  match slots with
  | [] => (None, bm)
  | i :: slots =>
      let byte := load bm (byte_idx s i) in
      if Z.land byte (Z.shiftl 1 (bit_idx i)) =? 0 then
        (Some (base (range_for s) + Z.of_nat i),
         store bm (byte_idx s i) (Z.lor byte (Z.shiftl 1 (bit_idx i))))
      else alloc_scan s slots bm
  end.

Definition alloc_fd (s : FdSubsystem) (bm : list Z) : option Z * list Z :=
  alloc_scan s (seq 0 (capacity (range_for s))) bm.

(** [byte & !(1 << bit_idx)] on a [u8]. *)
Definition clear_bit (byte bit : Z) : Z := Z.land byte (255 - Z.shiftl 1 bit).

Definition free_fd (s : FdSubsystem) (fd : Z) (bm : list Z) : bool * list Z :=
  let r := range_for s in
  if negb (contains r fd) then (false, bm)
  else
    let slot := Z.to_nat (fd - base r) in
    let byte := load bm (byte_idx s slot) in
    (true, store bm (byte_idx s slot) (clear_bit byte (bit_idx slot))).

Fixpoint subsystem_from (fuel i : nat) (fd : Z) : option FdSubsystem :=
  match fuel with
  | O => None
  | S fuel =>
      match from_index i with
      | None => None
      | Some s => if contains (range_for s) fd then Some s else subsystem_from fuel (S i) fd
      end
  end.
Definition subsystem_of (fd : Z) : option FdSubsystem := subsystem_from COUNT 0 fd.

Definition fd_at (s : FdSubsystem) (slot : nat) : Z := base (range_for s) + Z.of_nat slot.
Definition max_slots (s : FdSubsystem) : nat := capacity (range_for s).

Definition idx_of (fd : Z) : option (FdSubsystem * nat) :=
  match subsystem_of fd with
  | None => None
  | Some s => Some (s, Z.to_nat (fd - base (range_for s)))
  end.

(** ** [alloc_fd] as the accesses it makes: a load per slot, a store at the end *)
Inductive alloc_call : Type :=
  | Scanning (s : FdSubsystem) (i : nat)
  | Loaded (s : FdSubsystem) (i : nat) (byte : Z)
  | Returned (r : option Z).

Definition alloc_step (c : alloc_call) (bm : list Z) : alloc_call * list Z :=
  match c with
  | Scanning s i =>
      if (i <? capacity (range_for s))%nat
      then (Loaded s i (load bm (byte_idx s i)), bm)
      else (Returned None, bm)
  | Loaded s i byte =>
      if Z.land byte (Z.shiftl 1 (bit_idx i)) =? 0 then
        (Returned (Some (base (range_for s) + Z.of_nat i)),
         store bm (byte_idx s i) (Z.lor byte (Z.shiftl 1 (bit_idx i))))
      else (Scanning s (S i), bm)
  | Returned r => (Returned r, bm)
  end.

(** Two processors; [true] lets the first one take a step. *)
Fixpoint interleave (schedule : list bool) (c1 c2 : alloc_call) (bm : list Z)
  : alloc_call * alloc_call * list Z :=
  match schedule with
  | [] => (c1, c2, bm)
  | b :: schedule =>
      if b then let '(c1, bm) := alloc_step c1 bm in interleave schedule c1 c2 bm
      else let '(c2, bm) := alloc_step c2 bm in interleave schedule c1 c2 bm
  end.

End FdAlloc.

(** ** Facts *)
Module FdAllocFacts.
Import FdAlloc.

Lemma plan_verified : verify_plan = Done ().
Proof. reflexivity. Qed.

Lemma contains_iff s fd :
  contains (range_for s) fd = true <-> exists i, (i < max_slots s)%nat /\ fd = fd_at s i.
Proof.
  unfold contains, end_exclusive, fd_at, max_slots. rewrite andb_true_iff, Z.leb_le, Z.ltb_lt. split.
  - intros [H1 H2]. exists (Z.to_nat (fd - base (range_for s))). lia.
  - intros (i & Hi & ->). lia.
Qed.

Lemma contains_unique s s' fd :
  contains (range_for s) fd = true -> contains (range_for s') fd = true -> s = s'.
Proof.
  unfold contains, end_exclusive. destruct s, s'; try done; simpl; split_bool; lia.
Qed.

Lemma subsystem_of_contains s fd : contains (range_for s) fd = true -> subsystem_of fd = Some s.
Proof.
  intros H. unfold subsystem_of, COUNT. cbn [subsystem_from from_index].
  repeat match goal with
  | |- context [contains (range_for ?r) fd] =>
      destruct (contains (range_for r) fd) eqn:?;
      [f_equal; by apply (contains_unique r s fd)|]
  end. by destruct s; congruence.
Qed.

(** The numbering is one to one: every slot of every subsystem has a
    number of its own, and [idx_of] gives back the subsystem and the slot. *)
Theorem fd_numbering_roundtrip s slot :
  (slot < max_slots s)%nat ->
  idx_of (fd_at s slot) = Some (s, slot) /\
  forall s' slot', (slot' < max_slots s')%nat -> fd_at s' slot' = fd_at s slot -> s' = s /\ slot' = slot.
Proof.
  intros Hs.
  assert (Hid : forall s slot, (slot < max_slots s)%nat -> idx_of (fd_at s slot) = Some (s, slot)).
  { intros s0 i Hi. unfold idx_of. rewrite (subsystem_of_contains s0) by (apply contains_iff; by exists i).
    unfold fd_at. do 2 f_equal. lia. }
  split; [by apply Hid|]. intros s' slot' Hs' Heq.
  pose proof (Hid s' slot' Hs') as H'. rewrite Heq, Hid in H' by done. by injection H'.
Qed.

Lemma fd_numbering_roundtrip_witness : idx_of (fd_at TimerFd 3) = Some (TimerFd, 3%nat).
Proof. apply (fd_numbering_roundtrip TimerFd 3). vm_compute. lia. Defined.

(** *** The bitmaps as a set *)
Definition bitmaps_ok (bm : list Z) : Prop := length bm = (COUNT * BITMAP_SIZE)%nat /\ Forall u8 bm.

Definition used (bm : list Z) (s : FdSubsystem) (i : nat) : bool :=
  Z.testbit (load bm (byte_idx s i)) (bit_idx i).

Lemma bit_idx_range i : 0 <= bit_idx i < 8.
Proof. unfold bit_idx. pose proof (Nat.mod_upper_bound i 8). lia. Qed.

Lemma test_bit byte i : (Z.land byte (Z.shiftl 1 (bit_idx i)) =? 0) = negb (Z.testbit byte (bit_idx i)).
Proof.
  pose proof (bit_idx_range i) as Hi. rewrite Z.shiftl_1_l.
  destruct (Z.testbit byte (bit_idx i)) eqn:E; cbn [negb].
  - apply Z.eqb_neq. intros H. apply (f_equal (fun z => Z.testbit z (bit_idx i))) in H.
    rewrite Z.land_spec, Z.pow2_bits_true, E, Z.bits_0 in H by lia. done.
  - apply Z.eqb_eq, Z.bits_inj'. intros n Hn. rewrite Z.land_spec, Z.bits_0, Z.pow2_bits_eqb by lia.
    destruct (Z.eqb_spec (bit_idx i) n) as [<-|]; [by rewrite E|apply andb_false_r].
Qed.

Lemma slots_bound s : (max_slots s <= 256)%nat.
Proof. destruct s; vm_compute; lia. Qed.

Lemma byte_idx_lt s i : (i < 256)%nat -> (byte_idx s i < COUNT * BITMAP_SIZE)%nat.
Proof.
  intros Hi. unfold byte_idx, COUNT, BITMAP_SIZE.
  assert (i / 8 < 32)%nat by (apply Nat.Div0.div_lt_upper_bound; lia).
  destruct s; simpl sub_index; lia.
Qed.

Lemma same_bit s i s' j :
  (i < 256)%nat -> (j < 256)%nat -> byte_idx s i = byte_idx s' j -> bit_idx i = bit_idx j ->
  s = s' /\ i = j.
Proof.
  intros Hi Hj Hb Hbit. unfold byte_idx, bit_idx, BITMAP_SIZE in *.
  assert (i / 8 < 32)%nat by (apply Nat.Div0.div_lt_upper_bound; lia).
  assert (j / 8 < 32)%nat by (apply Nat.Div0.div_lt_upper_bound; lia).
  pose proof (Nat.div_mod_eq i 8). pose proof (Nat.div_mod_eq j 8).
  assert (Hs : sub_index s = sub_index s') by lia. split; [destruct s, s'; done || simpl in Hs; lia|lia].
Qed.

(** Overwriting one byte so that only one of its bits changes. *)
Lemma used_store bm s i v b :
  bitmaps_ok bm -> (i < 256)%nat ->
  (forall n, 0 <= n < 8 -> Z.testbit v n =
     if n =? bit_idx i then b else Z.testbit (load bm (byte_idx s i)) n) ->
  forall s' j, (j < 256)%nat ->
    used (store bm (byte_idx s i) v) s' j = if decide (s' = s /\ j = i) then b else used bm s' j.
Proof.
  intros [Hl _] Hi Hv s' j Hj. unfold used, load, store.
  destruct (decide (byte_idx s' j = byte_idx s i)) as [He|Hne].
  - rewrite He, nth_insert_eq by (rewrite Hl; by apply byte_idx_lt).
    rewrite Hv by apply bit_idx_range. unfold load.
    destruct (Z.eqb_spec (bit_idx j) (bit_idx i)) as [Hb|Hb].
    + destruct (same_bit s' j s i) as [-> ->]; [done..|]. by rewrite decide_True.
    + rewrite decide_False; [done|]. intros [-> ->]. done.
  - rewrite nth_insert_ne by done. rewrite decide_False; [done|]. by intros [-> ->].
Qed.

Lemma fd_set_bit_spec byte i n :
  0 <= n < 8 -> Z.testbit (Z.lor byte (Z.shiftl 1 (bit_idx i))) n =
  if n =? bit_idx i then true else Z.testbit byte n.
Proof.
  intros Hn. pose proof (bit_idx_range i). rewrite Z.shiftl_1_l, Z.lor_spec, Z.pow2_bits_eqb by lia.
  rewrite (Z.eqb_sym n). destruct (bit_idx i =? n); [apply orb_true_r|apply orb_false_r].
Qed.

Lemma fd_clear_bit_spec byte i n :
  0 <= n < 8 -> Z.testbit (clear_bit byte (bit_idx i)) n =
  if n =? bit_idx i then false else Z.testbit byte n.
Proof.
  intros Hn. pose proof (bit_idx_range i). unfold clear_bit. rewrite Z.land_spec, Z.shiftl_1_l.
  assert (H255 : Z.testbit (255 - 2 ^ bit_idx i) n = negb (n =? bit_idx i)).
  { set (k := bit_idx i) in *. clearbody k.
    assert (k = 0 \/ k = 1 \/ k = 2 \/ k = 3 \/ k = 4 \/ k = 5 \/ k = 6 \/ k = 7) as Hk by lia.
    assert (n = 0 \/ n = 1 \/ n = 2 \/ n = 3 \/ n = 4 \/ n = 5 \/ n = 6 \/ n = 7) as Hn' by lia.
    destruct Hk as [->|[->|[->|[->|[->|[->|[->| ->]]]]]]];
      destruct Hn' as [->|[->|[->|[->|[->|[->|[->| ->]]]]]]]; reflexivity. }
  rewrite H255. destruct (n =? bit_idx i); [apply andb_false_r|apply andb_true_r].
Qed.

Lemma u8_lor_bit byte i : u8 byte -> u8 (Z.lor byte (Z.shiftl 1 (bit_idx i))).
Proof.
  intros Hb. pose proof (bit_idx_range i). unfold u8 in *. split; [apply Z.lor_nonneg; split; [lia|]|].
  { apply Z.shiftl_nonneg. lia. }
  assert (Hlt : Z.log2 (Z.lor byte (Z.shiftl 1 (bit_idx i))) < 8).
  { rewrite Z.log2_lor by (try apply Z.shiftl_nonneg; lia). rewrite Z.shiftl_1_l.
    rewrite Z.log2_pow2 by lia. pose proof (Z.log2_le_mono byte 255). simpl in *. lia. }
  destruct (Z.eq_dec (Z.lor byte (Z.shiftl 1 (bit_idx i))) 0) as [->|Hne]; [lia|].
  apply Z.log2_lt_pow2 in Hlt; [lia|].
  assert (0 <= Z.lor byte (Z.shiftl 1 (bit_idx i)))
    by (apply Z.lor_nonneg; split; [lia|apply Z.shiftl_nonneg; lia]). lia.
Qed.

Lemma u8_clear_bit byte b : u8 byte -> u8 (clear_bit byte b).
Proof.
  unfold u8, clear_bit. intros Hb. split; [apply Z.land_nonneg; lia|].
  destruct (Z.eq_dec byte 0) as [->|]; [rewrite Z.land_0_l; lia|].
  set (m := 255 - Z.shiftl 1 b).
  assert (Z.land byte m <= byte); [|lia].
  assert (H : Z.ldiff byte (Z.lnot m) <= byte) by (apply ldiff_le_l; lia).
  by rewrite Z.ldiff_land, Z.lnot_involutive in H.
Qed.

Lemma store_ok bm i v : bitmaps_ok bm -> u8 v -> bitmaps_ok (store bm i v).
Proof. intros [Hl HF] Hv. split; [by unfold store; rewrite length_insert|by apply Forall_insert]. Qed.

Lemma load_u8 bm i : bitmaps_ok bm -> u8 (load bm i).
Proof.
  intros [_ HF]. unfold load. rewrite nth_lookup. destruct (bm !! i) eqn:E; simpl;
    [by eapply Forall_lookup_1|unfold u8; lia].
Qed.

(** The scan takes the first free slot of the list it is given. *)
Lemma alloc_scan_spec s slots bm :
  bitmaps_ok bm -> Forall (fun i => (i < 256)%nat) slots ->
  match alloc_scan s slots bm with
  | (None, bm') => bm' = bm /\ forall i, i ∈ slots -> used bm s i = true
  | (Some fd, bm') => bitmaps_ok bm' /\ exists i, i ∈ slots /\ fd = fd_at s i /\ used bm s i = false /\
      forall s' j, (j < 256)%nat ->
        used bm' s' j = if decide (s' = s /\ j = i) then true else used bm s' j
  end.
Proof.
  intros Hok HF. induction HF as [|i slots Hi HF IH]; simpl.
  { split; [done|]. intros i Hi. by apply elem_of_nil in Hi. }
  rewrite test_bit. fold (used bm s i). destruct (used bm s i) eqn:E; cbn [negb].
  - destruct (alloc_scan s slots bm) as [[fd|] bm'].
    + destruct IH as (Hok' & j & Hj & Hrest). split; [done|]. exists j. split; [by right|done].
    + destruct IH as (-> & Hall). split; [done|]. intros j [->|Hj]%elem_of_cons; [done|by apply Hall].
  - split; [apply store_ok; [done|by apply u8_lor_bit, load_u8]|].
    exists i. split_and!; [by left|done|done|].
    apply used_store; [done|done|]. intros n Hn. by apply fd_set_bit_spec.
Qed.

(** *** Histories of calls that do not overlap *)
Inductive op : Type := Alloc (s : FdSubsystem) | Free (s : FdSubsystem) (fd : Z).

(** The specification: the set of descriptors handed out and not freed. *)
Definition bits_are (bm : list Z) (live : gset Z) : Prop :=
  bitmaps_ok bm /\
  (forall s i, (i < max_slots s)%nat -> used bm s i = true <-> fd_at s i ∈ live) /\
  (forall fd, fd ∈ live -> exists s i, (i < max_slots s)%nat /\ fd = fd_at s i).

Lemma bits_are_empty : bits_are FD_BITMAPS ∅.
Proof.
  split_and!.
  - split; [done|]. apply Forall_replicate. unfold u8. lia.
  - intros s i Hi. split; [|set_solver]. unfold used, load, FD_BITMAPS. rewrite nth_lookup.
    destruct (replicate _ 0 !! _) eqn:E; [apply lookup_replicate in E as [-> _]|];
      simpl; by rewrite Z.bits_0.
  - set_solver.
Qed.

Lemma fd_at_inj s i s' j :
  (i < max_slots s)%nat -> (j < max_slots s')%nat -> fd_at s' j = fd_at s i -> s' = s /\ j = i.
Proof.
  intros Hi Hj Heq. assert (s = s') as <-.
  { apply (contains_unique s s' (fd_at s i)); apply contains_iff; eauto. }
  unfold fd_at in Heq. split; [done|lia].
Qed.

(** C37: without overlapping calls the bitmaps implement a set of live
    descriptors: [alloc_fd] returns a descriptor of the subsystem's range that
    is not live and adds it, or [None] exactly when the whole range is live;
    [free_fd] removes a descriptor of the range and refuses any other. *)
Theorem bitmaps_refine_live_set bm live :
  bits_are bm live ->
  (forall s, match alloc_fd s bm with
     | (Some fd, bm') => contains (range_for s) fd = true /\ (fd ∉ live) /\ bits_are bm' ({[fd]} ∪ live)
     | (None, bm') => bm' = bm /\ forall fd, contains (range_for s) fd = true -> fd ∈ live
     end) /\
  (forall s fd, match free_fd s fd bm with
     | (true, bm') => contains (range_for s) fd = true /\ bits_are bm' (live ∖ {[fd]})
     | (false, bm') => bm' = bm /\ contains (range_for s) fd = false
     end).
Proof.
  intros (Hok & Hbits & Hlive). split.
  - intros s. pose proof (slots_bound s) as Hsb.
    assert (HF : Forall (fun i => (i < 256)%nat) (seq 0 (capacity (range_for s)))).
    { apply Forall_forall. intros i Hi%elem_of_seq. unfold max_slots in Hsb. lia. }
    pose proof (alloc_scan_spec s _ bm Hok HF) as H. unfold alloc_fd.
    destruct (alloc_scan s _ bm) as [[fd|] bm'].
    + destruct H as (Hok' & i & Hi%elem_of_seq & -> & Hu & Hused).
      assert (Hi' : (i < max_slots s)%nat) by (unfold max_slots; lia).
      split_and!; [apply contains_iff; by exists i| |split_and!; [done| |]].
      * intros Hin. apply Hbits in Hin; [congruence|done].
      * intros s' j Hj. pose proof (slots_bound s'). rewrite Hused by lia.
        rewrite elem_of_union, elem_of_singleton. case_decide as Hd.
        -- destruct Hd as [-> ->]. naive_solver.
        -- rewrite Hbits by done. split; [by right|]. intros [Heq|?]; [|done].
           destruct Hd. by apply fd_at_inj.
      * intros fd. rewrite elem_of_union, elem_of_singleton. intros [->|Hin]; [by exists s, i|by apply Hlive].
    + destruct H as (-> & Hall). split; [done|]. intros fd (i & Hi & ->)%contains_iff.
      apply Hbits; [done|]. apply Hall, elem_of_seq. unfold max_slots in Hi. lia.
  - intros s fd. unfold free_fd. destruct (contains (range_for s) fd) eqn:Ec; cbn [negb]; [|done].
    split; [done|]. apply contains_iff in Ec as (i & Hi & ->). pose proof (slots_bound s).
    replace (Z.to_nat (fd_at s i - base (range_for s))) with i by (unfold fd_at; lia).
    pose proof (used_store bm s i (clear_bit (load bm (byte_idx s i)) (bit_idx i)) false Hok ltac:(lia)
      (fun n Hn => fd_clear_bit_spec (load bm (byte_idx s i)) i n Hn)) as Hused.
    split_and!; [apply store_ok; [done|by apply u8_clear_bit, load_u8]| |].
    + intros s' j Hj. pose proof (slots_bound s'). rewrite Hused by lia.
      rewrite elem_of_difference, elem_of_singleton. case_decide as Hd.
      * destruct Hd as [-> ->]. naive_solver.
      * rewrite Hbits by done. split; [|naive_solver]. intros Hin. split; [done|].
        intros Heq. apply Hd. by apply fd_at_inj.
    + intros fd'. rewrite elem_of_difference. intros [Hin _]. by apply Hlive.
Qed.

Lemma bitmaps_refine_live_set_witness :
  exists bm, alloc_fd EventFd FD_BITMAPS = (Some 1100, bm) /\ bits_are bm {[ 1100 ]}.
Proof.
  eexists. split; [reflexivity|].
  destruct (bitmaps_refine_live_set FD_BITMAPS ∅ bits_are_empty) as [H _].
  specialize (H EventFd). destruct H as (_ & _ & H).
  by rewrite union_empty_r_L in H.
Defined.

(** *** Calls that overlap *)

(** Alone, the access-by-access version is [alloc_fd]. *)
Lemma alloc_alone s bm :
  exists n, Nat.iter n (fun '(c, bm) => alloc_step c bm) (Scanning s 0, bm)
            = (Returned (alloc_fd s bm).1, (alloc_fd s bm).2).
Proof.
  unfold alloc_fd.
  assert (H : forall k i bm, (i + k = capacity (range_for s))%nat ->
    exists n, Nat.iter n (fun '(c, bm) => alloc_step c bm) (Scanning s i, bm)
            = (Returned (alloc_scan s (seq i k) bm).1, (alloc_scan s (seq i k) bm).2)).
  { induction k as [|k IH]; intros i bm0 Hk.
    - exists 1%nat. simpl. by rewrite (proj2 (Nat.ltb_ge _ _)) by lia.
    - cbn [seq alloc_scan]. destruct (Z.eqb_spec (Z.land (load bm0 (byte_idx s i))
        (Z.shiftl 1 (bit_idx i))) 0) as [He|Hne].
      + exists 2%nat. simpl. rewrite (proj2 (Nat.ltb_lt _ _)) by lia. simpl. by rewrite He.
      + destruct (IH (S i) bm0 ltac:(lia)) as [n Hn]. exists (n + 2)%nat. rewrite Nat.iter_add.
        rewrite <- Hn. f_equal. simpl. rewrite (proj2 (Nat.ltb_lt _ _)) by lia. simpl.
        by rewrite (proj2 (Z.eqb_neq _ _)). }
  apply H. lia.
Qed.

(** Two overlapping calls can return the same descriptor: for every
    subsystem, when both processors load the bitmap byte before either stores
    it, both allocations return the subsystem's first number. *)
Theorem overlapping_allocs_collide s :
  exists bm, interleave [true; false; true; false] (Scanning s 0) (Scanning s 0) FD_BITMAPS
    = (Returned (Some (fd_at s 0)), Returned (Some (fd_at s 0)), bm).
Proof. destruct s; eexists; reflexivity. Qed.

End FdAllocFacts.
