(* ===== verification/Netfilter.v ===== *)
(** * Packet filter (services/net/netfilter.rs)

    Per hook point a chain of rules kept sorted by priority and a chain of
    callbacks.  An address is a list of four bytes, a callback a function with
    the address the code compares, [sort_by_key] the stable insertion sort (a
    stable sort has one result).

    The facts: the mask arithmetic is prefix comparison, the chains stay sorted
    and bounded, and which rule decides a packet. *)
From stdpp Require Import strings pretty.
From S2P Require Import Prelude Bytes.

Module Netfilter.

Definition MAX_RULES : nat := 64.
Definition MAX_HOOKS_PER_POINT : nat := 8.

Inductive NfHook : Type := Prerouting | Input | Forward | Output | Postrouting.

Definition hook_from_u8 (v : Z) : option NfHook :=
  if v =? 0 then Some Prerouting else if v =? 1 then Some Input
  else if v =? 2 then Some Forward else if v =? 3 then Some Output
  else if v =? 4 then Some Postrouting else None.

(** [hook as usize]. *)
Definition hook_index (h : NfHook) : nat :=
  match h with
  | Prerouting => 0 | Input => 1 | Forward => 2 | Output => 3 | Postrouting => 4
  end.

Definition COUNT : nat := 5.

Inductive NfVerdict : Type := Accept | Drop | Stolen | Queue.

#[export] Instance NfVerdict_eq_dec : EqDecision NfVerdict.
Proof. solve_decision. Defined.

Definition verdict_from_i32 (v : Z) : option NfVerdict :=
  if v =? 0 then Some Accept else if v =? 1 then Some Drop
  else if v =? 2 then Some Stolen else if v =? 3 then Some Queue else None.

Record NfPacketInfo : Type := mkPacket {
  src_ip : list Z;
  dst_ip : list Z;
  src_port : Z;
  dst_port : Z;
  pkt_protocol : Z;
  in_ifindex : option Z;
  out_ifindex : option Z;
}.

Record NfRule : Type := mkRule {
  name : string;
  src_cidr : option (list Z * Z);
  dst_cidr : option (list Z * Z);
  src_port_range : option (Z * Z);
  dst_port_range : option (Z * Z);
  protocol : option Z;
  verdict : NfVerdict;
  priority : Z;
}.

(** [!((1u32 << (32 - prefix_len)) - 1)], all ones from 32 on. *)
Definition prefix_mask (prefix_len : Z) : Z :=
  if 32 <=? prefix_len then U32_MAX else U32_MAX - (Z.shiftl 1 (32 - prefix_len) - 1).

Definition cidr_match (net : list Z) (prefix_len : Z) (addr : list Z) : bool :=
  if prefix_len =? 0 then true
  else Z.land (from_be_bytes net) (prefix_mask prefix_len)
       =? Z.land (from_be_bytes addr) (prefix_mask prefix_len).

(** [if let Some(..) = field { if !test { return false } }]. *)
Definition when {A} (o : option A) (test : A -> bool) : bool :=
  match o with Some a => test a | None => true end.

Definition matches (r : NfRule) (pkt : NfPacketInfo) : bool :=
  when (src_cidr r) (fun '(net, len) => cidr_match net len (src_ip pkt))
  && when (dst_cidr r) (fun '(net, len) => cidr_match net len (dst_ip pkt))
  && when (src_port_range r) (fun '(lo, hi) => negb ((src_port pkt <? lo) || (hi <? src_port pkt)))
  && when (dst_port_range r) (fun '(lo, hi) => negb ((dst_port pkt <? lo) || (hi <? dst_port pkt)))
  && when (protocol r) (fun p => pkt_protocol pkt =? p).

Record NfHookEntry : Type := mkEntry {
  hook_priority : Z;
  callback_addr : Z;
  callback : NfHook -> NfPacketInfo -> NfVerdict;
}.

Record NfChain : Type := mkChain {
  rules : list NfRule;
  hooks : list NfHookEntry;
}.

Record NfState : Type := mkState {
  chains : list NfChain;
  hook_counts : list Z;
}.

Definition empty_chain : NfChain := {| rules := []; hooks := [] |}.
Definition NF_STATE : NfState :=
  {| chains := replicate COUNT empty_chain; hook_counts := replicate COUNT 0 |}.

(** [sort_by_key]: stable. *)
Fixpoint insert_by_key {A} (key : A -> Z) (x : A) (l : list A) : list A :=
  match l with
  | [] => [x]
  | y :: l => if key x <=? key y then x :: y :: l else y :: insert_by_key key x l
  end.

Definition sort_by_key {A} (key : A -> Z) (l : list A) : list A :=
  fold_right (insert_by_key key) [] l.

Definition chain (s : NfState) (h : NfHook) : NfChain := nth (hook_index h) (chains s) empty_chain.

Definition set_chain (s : NfState) (h : NfHook) (c : NfChain) : NfState :=
  {| chains := <[hook_index h := c]> (chains s); hook_counts := hook_counts s |}.

(** Results: [inl] the error code. *)
Abbreviation result := (Z + NfState)%type.

Definition nf_add_rule (h : NfHook) (r : NfRule) (s : NfState) : result :=
  let c := chain s h in
  if (MAX_RULES <=? length (rules c))%nat then inl (-22)
  else inr (set_chain s h {| rules := sort_by_key priority (rules c ++ [r]); hooks := hooks c |}).

(** [Vec::remove]. *)
Definition remove_at {A} (i : nat) (l : list A) : list A := take i l ++ drop (S i) l.

Definition nf_del_rule (h : NfHook) (n : string) (s : NfState) : result :=
  let c := chain s h in
  match position (fun r => bool_decide (name r = n)) (rules c) with
  | Some i => inr (set_chain s h {| rules := remove_at i (rules c); hooks := hooks c |})
  | None => inl (-2)
  end.

Definition nf_register_hook (h : NfHook) (e : NfHookEntry) (s : NfState) : result :=
  let c := chain s h in
  if (MAX_HOOKS_PER_POINT <=? length (hooks c))%nat then inl (-12)
  else inr (set_chain s h
         {| rules := rules c; hooks := sort_by_key hook_priority (hooks c ++ [e]) |}).

Definition nf_unregister_hook (h : NfHook) (addr : Z) (s : NfState) : result :=
  let c := chain s h in
  match position (fun e => callback_addr e =? addr) (hooks c) with
  | Some i => inr (set_chain s h {| rules := rules c; hooks := remove_at i (hooks c) |})
  | None => inl (-2)
  end.

(** The loop over the callbacks: the first verdict other than [Accept]. *)
Fixpoint run_hooks (h : NfHook) (pkt : NfPacketInfo) (l : list NfHookEntry) : option NfVerdict :=
  match l with
  | [] => None
  | e :: l =>
      let v := callback e h pkt in
      if bool_decide (v = Accept) then run_hooks h pkt l else Some v
  end.

Fixpoint run_rules (pkt : NfPacketInfo) (l : list NfRule) : option NfVerdict :=
  match l with
  | [] => None
  | r :: l => if matches r pkt then Some (verdict r) else run_rules pkt l
  end.

Definition nf_hook (h : NfHook) (pkt : NfPacketInfo) (s : NfState) : NfVerdict * NfState :=
  let s := {| chains := chains s;
              hook_counts := alter (fun n => wrap_u64 (n + 1)) (hook_index h) (hook_counts s) |} in
  let c := chain s h in
  let v := match run_hooks h pkt (hooks c) with
           | Some v => v
           | None => match run_rules pkt (rules c) with Some v => v | None => Accept end
           end in
  (v, s).

Definition nf_hook_count (h : NfHook) (s : NfState) : Z := nth (hook_index h) (hook_counts s) 0.
Definition nf_list_rules (h : NfHook) (s : NfState) : list NfRule := rules (chain s h).

(** [alloc::format!("rule_{}", n)]. *)
Definition rule_name (n : Z) : string := "rule_" +:+ pretty (Z.to_N n).

Definition sys_nf_add_rule (hook src_ip' src_prefix dst_ip' dst_prefix verdict' : Z) (s : NfState)
  : Z * NfState :=
  match hook_from_u8 (wrap 8 hook) with
  | None => (-22, s)
  | Some h =>
      match verdict_from_i32 (as_i32 verdict') with
      | None => (-22, s)
      | Some v =>
          let r :=
            {| name := rule_name (nf_hook_count h s);
               src_cidr := if 0 <? src_prefix
                           then Some (to_be_bytes 4 (wrap_u32 src_ip'), wrap 8 src_prefix) else None;
               dst_cidr := if 0 <? dst_prefix
                           then Some (to_be_bytes 4 (wrap_u32 dst_ip'), wrap 8 dst_prefix) else None;
               src_port_range := None; dst_port_range := None; protocol := None;
               verdict := v; priority := 100 |} in
          match nf_add_rule h r s with
          | inr s => (0, s)
          | inl e => (e, s)
          end
      end
  end.

Definition sys_nf_del_rule (hook rule_index : Z) (s : NfState) : Z * NfState :=
  match hook_from_u8 (wrap 8 hook) with
  | None => (-22, s)
  | Some h =>
      match nf_del_rule h (rule_name rule_index) s with
      | inr s => (0, s)
      | inl e => (e, s)
      end
  end.

End Netfilter.

(** ** Facts *)
Module NetfilterFacts.
Import Netfilter.

(** *** Prefixes *)
Lemma land_high_mask w x k :
  0 <= k <= w -> 0 <= x < 2 ^ w -> Z.land x (2 ^ w - 2 ^ k) = x / 2 ^ k * 2 ^ k.
Proof.
  intros Hk Hx. replace (2 ^ w - 2 ^ k) with (Z.shiftl (Z.ones (w - k)) k).
  - rewrite <- Z.shiftr_div_pow2, <- Z.shiftl_mul_pow2 by lia. apply Z.bits_inj'. intros n Hn.
    rewrite Z.land_spec, !Z.shiftl_spec by done.
    destruct (Z.ltb_spec n k);
      [rewrite (Z.testbit_neg_r (Z.ones _)), (Z.testbit_neg_r (Z.shiftr _ _)) by lia;
       apply andb_false_r|].
    rewrite Z.shiftr_spec, Z.testbit_ones_nonneg by lia. replace (n - k + k) with n by lia.
    destruct (Z.ltb_spec (n - k) (w - k)); [apply andb_true_r|].
    rewrite andb_false_r. destruct (Z.eq_dec x 0) as [->|]; [by rewrite Z.bits_0|].
    symmetry. apply Z.bits_above_log2; [lia|]. apply Z.log2_lt_pow2; [lia|].
    apply Z.lt_le_trans with (2 ^ w); [lia|]. apply Z.pow_le_mono_r; lia.
  - rewrite Z.ones_equiv, Z.shiftl_mul_pow2 by lia.
    replace (Z.pred (2 ^ (w - k)) * 2 ^ k) with (2 ^ (w - k) * 2 ^ k - 2 ^ k)
      by (unfold Z.pred; ring).
    rewrite <- Z.pow_add_r by lia. by replace (w - k + k) with w by lia.
Qed.

(** Masking off the same low bits leaves equal values exactly when the rest agrees. *)
Lemma high_masks_agree w x y k :
  0 <= k <= w -> 0 <= x < 2 ^ w -> 0 <= y < 2 ^ w ->
  Z.land x (2 ^ w - 2 ^ k) = Z.land y (2 ^ w - 2 ^ k) <-> x / 2 ^ k = y / 2 ^ k.
Proof.
  intros Hk Hx Hy. rewrite !land_high_mask by done.
  assert (0 < 2 ^ k) by (apply Z.pow_pos_nonneg; lia). nia.
Qed.

Lemma masks_agree x y p :
  0 <= x <= U32_MAX -> 0 <= y <= U32_MAX -> 0 < p ->
  (Z.land x (prefix_mask p) =? Z.land y (prefix_mask p)) = true <->
  x / 2 ^ Z.max 0 (32 - p) = y / 2 ^ Z.max 0 (32 - p).
Proof.
  intros Hx Hy Hp. unfold U32_MAX in *.
  rewrite Z.eqb_eq, <- (high_masks_agree 32) by lia. unfold prefix_mask, U32_MAX.
  destruct (Z.leb_spec 32 p).
  - by rewrite Z.max_l by lia.
  - rewrite Z.max_r, Z.shiftl_mul_pow2 by lia.
    by replace (4294967295 - (1 * 2 ^ (32 - p) - 1)) with (2 ^ 32 - 2 ^ (32 - p)) by lia.
Qed.

Definition octets (l : list Z) : Prop := length l = 4%nat /\ Forall u8 l.

Lemma from_be_bytes_u32 l : octets l -> 0 <= from_be_bytes l <= U32_MAX.
Proof.
  intros [Hl HF]. destruct l as [|a [|b [|c [|d [|]]]]]; try done.
  repeat match goal with H : Forall _ (_ :: _) |- _ => inversion H; clear H; subst end.
  unfold u8, U32_MAX, from_be_bytes in *. simpl. lia.
Qed.

(** [cidr_match] is prefix comparison: two addresses match a network of
    prefix length [p] exactly when their first [p] bits are the same (all of
    them from 32 on, none for 0). *)
Theorem cidr_match_is_prefix net p addr :
  octets net -> octets addr -> 0 <= p ->
  cidr_match net p addr = true <->
  from_be_bytes net / 2 ^ Z.max 0 (32 - p) = from_be_bytes addr / 2 ^ Z.max 0 (32 - p).
Proof.
  intros Hn%from_be_bytes_u32 Ha%from_be_bytes_u32 Hp. unfold cidr_match.
  destruct (Z.eqb_spec p 0) as [->|]; [|by apply masks_agree; lia].
  split; [|done]. intros _. unfold U32_MAX in *.
  change (2 ^ Z.max 0 (32 - 0)) with 4294967296. rewrite !Z.div_small by lia. done.
Qed.

Lemma cidr_match_is_prefix_witness :
  cidr_match [10; 1; 0; 0] 16 [10; 1; 2; 3] = true <->
  from_be_bytes [10; 1; 0; 0] / 2 ^ Z.max 0 (32 - 16) = from_be_bytes [10; 1; 2; 3] / 2 ^ Z.max 0 (32 - 16).
Proof.
  apply cidr_match_is_prefix; [split; [done|repeat constructor; unfold u8; lia]..|lia].
Defined.

(** *** Sorted chains *)
Definition sorted_by {A} (key : A -> Z) (l : list A) : Prop :=
  StronglySorted (fun x y => key x <= key y) l.

Section Sorting.
Context {A : Type} (key : A -> Z).
Implicit Types l : list A.

Lemma insert_by_key_perm x l : insert_by_key key x l ≡ₚ x :: l.
Proof.
  induction l as [|y l IH]; [done|]. simpl. case_match; [done|]. rewrite IH. constructor.
Qed.

Lemma sort_by_key_perm l : sort_by_key key l ≡ₚ l.
Proof.
  induction l as [|x l IH]; [done|]. simpl. rewrite insert_by_key_perm. by rewrite IH.
Qed.

Lemma insert_by_key_sorted x l : sorted_by key l -> sorted_by key (insert_by_key key x l).
Proof.
  induction 1 as [|y l Hl IH Hy]; simpl; [repeat constructor|].
  destruct (Z.leb_spec (key x) (key y)).
  - constructor; [by constructor|]. constructor; [done|].
    eapply Forall_impl; [done|]. intros z Hz. simpl in *. lia.
  - constructor; [done|]. rewrite insert_by_key_perm. constructor; [lia|done].
Qed.

Lemma sort_by_key_sorted l : sorted_by key (sort_by_key key l).
Proof. induction l as [|x l IH]; [constructor|]. by apply insert_by_key_sorted. Qed.

(** Inserting at the end of a sorted list: after everything that is not larger,
    so elements of equal key keep their order. *)
Fixpoint append_by_key (x : A) (l : list A) : list A :=
  match l with
  | [] => [x]
  | y :: l => if key x <? key y then x :: y :: l else y :: append_by_key x l
  end.

Lemma insert_below y l : Forall (fun z => key y <= key z) l -> insert_by_key key y l = y :: l.
Proof.
  destruct l as [|z l]; [done|]. intros H. inversion H; subst. simpl.
  by rewrite (proj2 (Z.leb_le _ _)).
Qed.

Lemma sort_by_key_append x l :
  sorted_by key l -> sort_by_key key (l ++ [x]) = append_by_key x l.
Proof.
  induction 1 as [|y l Hl IH Hy]; [done|]. simpl. rewrite IH.
  destruct (Z.ltb_spec (key x) (key y)) as [Hlt|Hge].
  - assert (append_by_key x l = x :: l) as ->.
    { destruct l as [|z l]; [done|]. simpl. inversion Hy; subst.
      by rewrite (proj2 (Z.ltb_lt _ _)) by lia. }
    simpl. rewrite (proj2 (Z.leb_gt _ _)) by lia. by rewrite insert_below.
  - apply insert_below. assert (Hp : append_by_key x l ≡ₚ x :: l).
    { clear. induction l as [|z l IH]; [done|]. simpl. case_match; [done|]. rewrite IH. constructor. }
    rewrite Hp. by constructor.
Qed.

Lemma remove_at_sorted i l : sorted_by key l -> sorted_by key (remove_at i l).
Proof.
  intros H. revert i. induction H as [|y l Hl IH Hy]; intros i; [destruct i; constructor|].
  destruct i as [|i]; [done|]. unfold remove_at in *. simpl. constructor; [apply IH|].
  apply Forall_app. split; [by apply Forall_take|].
  destruct l as [|z l]; [by rewrite drop_nil|]. by apply Forall_drop with (n := S i) in Hy.
Qed.

Lemma length_remove_at i l : (length (remove_at i l) <= length l)%nat.
Proof. unfold remove_at. rewrite length_app, length_take, length_drop. lia. Qed.

End Sorting.

(** *** Reachable states *)
Definition chain_ok (c : NfChain) : Prop :=
  sorted_by priority (rules c) /\ sorted_by hook_priority (hooks c) /\
  (length (rules c) <= MAX_RULES)%nat /\ (length (hooks c) <= MAX_HOOKS_PER_POINT)%nat.

Definition nf_ok (s : NfState) : Prop := length (chains s) = COUNT /\ Forall chain_ok (chains s).

Inductive nf_reachable : NfState -> Prop :=
  | nf_start : nf_reachable NF_STATE
  | nf_add h r s s' : nf_reachable s -> nf_add_rule h r s = inr s' -> nf_reachable s'
  | nf_del h n s s' : nf_reachable s -> nf_del_rule h n s = inr s' -> nf_reachable s'
  | nf_register h e s s' : nf_reachable s -> nf_register_hook h e s = inr s' -> nf_reachable s'
  | nf_unregister h a s s' : nf_reachable s -> nf_unregister_hook h a s = inr s' -> nf_reachable s'
  | nf_packet h pkt s : nf_reachable s -> nf_reachable (nf_hook h pkt s).2.

Lemma chain_of_ok s h : nf_ok s -> chain_ok (chain s h).
Proof.
  intros [Hl HF]. unfold chain. rewrite nth_lookup.
  destruct (lookup_lt_is_Some_2 (chains s) (hook_index h)) as [c Hc];
    [rewrite Hl; destruct h; unfold COUNT; simpl; lia|].
  rewrite Hc. by eapply Forall_lookup_1.
Qed.

Lemma set_chain_ok s h c : nf_ok s -> chain_ok c -> nf_ok (set_chain s h c).
Proof.
  intros [Hl HF] Hc. split; simpl; [by rewrite length_insert|by apply Forall_insert].
Qed.

Lemma nf_reachable_ok s : nf_reachable s -> nf_ok s.
Proof.
  induction 1 as [|h r s s' _ IH Hop|h n s s' _ IH Hop|h e s s' _ IH Hop|h a s s' _ IH Hop|h pkt s _ IH].
  - split; [done|]. apply Forall_replicate. split_and!; [constructor..|simpl; lia|simpl; lia].
  - unfold nf_add_rule in Hop. destruct (Nat.leb_spec MAX_RULES (length (rules (chain s h)))); [done|].
    injection Hop as <-. destruct (chain_of_ok s h IH) as (? & ? & ? & ?).
    apply set_chain_ok; [done|]. split_and!; simpl; [apply sort_by_key_sorted|done| |done].
    rewrite (Permutation_length (sort_by_key_perm priority _)), length_app. simpl. lia.
  - unfold nf_del_rule in Hop. case_match; [|done]. injection Hop as <-.
    destruct (chain_of_ok s h IH) as (? & ? & ? & ?). apply set_chain_ok; [done|].
    split_and!; simpl; [by apply remove_at_sorted|done| |done].
    pose proof (length_remove_at n0 (rules (chain s h))). lia.
  - unfold nf_register_hook in Hop.
    destruct (Nat.leb_spec MAX_HOOKS_PER_POINT (length (hooks (chain s h)))); [done|].
    injection Hop as <-. destruct (chain_of_ok s h IH) as (? & ? & ? & ?).
    apply set_chain_ok; [done|]. split_and!; simpl; [done|apply sort_by_key_sorted|done|].
    rewrite (Permutation_length (sort_by_key_perm hook_priority _)), length_app. simpl. lia.
  - unfold nf_unregister_hook in Hop. case_match; [|done]. injection Hop as <-.
    destruct (chain_of_ok s h IH) as (? & ? & ? & ?). apply set_chain_ok; [done|].
    split_and!; simpl; [done|by apply remove_at_sorted|done|].
    pose proof (length_remove_at n (hooks (chain s h))). lia.
  - done.
Qed.

Lemma run_rules_spec pkt l :
  match run_rules pkt l with
  | None => forall r, r ∈ l -> matches r pkt = false
  | Some v => exists l1 r l2, l = l1 ++ r :: l2 /\ matches r pkt = true /\ verdict r = v /\
                forall r', r' ∈ l1 -> matches r' pkt = false
  end.
Proof.
  induction l as [|r l IH]; simpl; [intros r Hr; by apply elem_of_nil in Hr|].
  destruct (matches r pkt) eqn:E.
  - exists [], r, l. split_and!; [done..|]. intros r' Hr'. by apply elem_of_nil in Hr'.
  - destruct (run_rules pkt l) as [v|].
    + destruct IH as (l1 & r0 & l2 & -> & ? & ? & Hno). exists (r :: l1), r0, l2.
      split_and!; [done..|]. intros r' [->|Hr']%elem_of_cons; [done|by apply Hno].
    + intros r' [->|Hr']%elem_of_cons; [done|by apply IH].
Qed.

Lemma sorted_split {A} (key : A -> Z) l1 x l2 y :
  sorted_by key (l1 ++ x :: l2) -> y ∈ l2 -> key x <= key y.
Proof.
  induction l1 as [|z l1 IH]; simpl; intros H Hy.
  - inversion H as [|?? _ HF]; subst. rewrite Forall_forall in HF. by apply HF.
  - inversion H; subst. by apply IH.
Qed.

(** C39: in every reachable state, with every callback accepting, a packet gets
    the verdict of the matching rule of lowest priority value, the earliest in
    the chain among equals, and is accepted when no rule matches; the chains
    stay sorted with at most 64 rules and 8 callbacks; a rule is added behind
    the rules of the same priority. *)
Theorem nf_hook_decides s h pkt r0 :
  nf_reachable s -> run_hooks h pkt (hooks (chain s h)) = None ->
  chain_ok (chain s h) /\
  ((forall r, r ∈ rules (chain s h) -> matches r pkt = false) /\ (nf_hook h pkt s).1 = Accept \/
   exists l1 r l2, rules (chain s h) = l1 ++ r :: l2 /\ matches r pkt = true /\
     (nf_hook h pkt s).1 = verdict r /\
     (forall r', r' ∈ rules (chain s h) -> matches r' pkt = true -> priority r <= priority r') /\
     (forall r', r' ∈ l1 -> matches r' pkt = false)) /\
  (forall s', nf_add_rule h r0 s = inr s' ->
     rules (chain s' h) = append_by_key priority r0 (rules (chain s h))).
Proof.
  intros Hr Hh. pose proof (nf_reachable_ok s Hr) as Hok.
  pose proof (chain_of_ok s h Hok) as Hc. split_and!; [done| |].
  - change (chain {| chains := _; hook_counts := _ |} h) with (chain s h).
    assert (Hv : (nf_hook h pkt s).1
                 = match run_rules pkt (rules (chain s h)) with Some v => v | None => Accept end).
    { unfold nf_hook. simpl. change (chain {| chains := _; hook_counts := _ |} h) with (chain s h).
      by rewrite Hh. }
    rewrite Hv. pose proof (run_rules_spec pkt (rules (chain s h))) as Hs.
    destruct (run_rules pkt (rules (chain s h))) as [v|]; [right|by left].
    destruct Hs as (l1 & r & l2 & Hl & Hm & <- & Hno). exists l1, r, l2. split_and!; try done.
    intros r' Hin Hm'. rewrite Hl in Hin. apply elem_of_app in Hin as [Hin|Hin].
    + by rewrite Hno in Hm'.
    + apply elem_of_cons in Hin as [->|Hin]; [lia|]. destruct Hc as (Hsort & _).
      rewrite Hl in Hsort. by eapply sorted_split.
  - unfold nf_add_rule. case_match; [done|]. intros s' [= <-]. unfold chain at 1. simpl.
    rewrite nth_insert_eq; [simpl; by apply sort_by_key_append; destruct Hc|].
    destruct Hok as [-> _]. destruct h; unfold COUNT; simpl; lia.
Qed.

(** Two rules for one packet, the later one more urgent. *)
Definition drop_ten : NfRule :=
  {| name := "d"; src_cidr := Some ([10; 0; 0; 0], 8); dst_cidr := None; src_port_range := None;
     dst_port_range := None; protocol := None; verdict := Drop; priority := 5 |}.

Lemma nf_hook_decides_witness :
  exists s, nf_add_rule Input drop_ten NF_STATE = inr s /\
            chain_ok (chain s Input).
Proof.
  eexists. split; [reflexivity|].
  eapply (nf_hook_decides _ Input (mkPacket [10; 1; 1; 1] [0; 0; 0; 0] 0 0 6 None None) drop_ten);
    [eapply (nf_add Input drop_ten NF_STATE); [constructor|reflexivity]|reflexivity].
Defined.

(** Rule numbers of the system calls count packets, not rules: after two
    [sys_nf_add_rule] calls on a hook that has seen no packet, both rules bear
    number 0 and [sys_nf_del_rule] of number 1 fails with ENOENT. *)
Theorem sys_rule_numbers_collide h src p1 p2 :
  exists s1 s2, sys_nf_add_rule (Z.of_nat (hook_index h)) src p1 0 0 1 NF_STATE = (0, s1) /\
    sys_nf_add_rule (Z.of_nat (hook_index h)) src p2 0 0 1 s1 = (0, s2) /\
    name <$> rules (chain s2 h) = [rule_name 0; rule_name 0] /\
    sys_nf_del_rule (Z.of_nat (hook_index h)) 1 s2 = (-2, s2).
Proof. destruct h; eexists _, _; (split_and!; [reflexivity..|]); reflexivity. Qed.

End NetfilterFacts.
