(* ===== verification/Route.v ===== *)
(** * Kernel routing table (services/net/route.rs, framework/net/route.rs)

    The kernel's table of routes for both address families and its copy in the
    network stack.  An address is the list of its octets; the smoltcp routing
    table, which the stack consults, is the list of its routes with the
    capacity the stack is configured with ([cap], a parameter: a push into a
    full table is dropped).

    The facts: queries are longest-prefix matches, the prefix tests are bit
    prefixes for both families, and what of the table reaches the stack. *)
From S2P Require Import Prelude Bytes Netfilter.

Module Route.
Import Netfilter.

Inductive IpAddr : Type :=
  | V4 (octets : list Z)
  | V6 (octets : list Z).

#[export] Instance IpAddr_eq_dec : EqDecision IpAddr.
Proof. solve_decision. Defined.

Definition MAX_ROUTES : nat := 16.

Record RouteEntry : Type := mkEntry {
  dest : IpAddr;
  prefix_len : Z;
  gateway : IpAddr;
  iface : option (list Z);
}.

Definition unspecified (a : IpAddr) : IpAddr :=
  match a with V4 _ => V4 (replicate 4 0) | V6 _ => V6 (replicate 16 0) end.

Definition default_route (gw : IpAddr) : RouteEntry :=
  {| dest := unspecified gw; prefix_len := 0; gateway := gw; iface := None |}.

Definition is_default (e : RouteEntry) : bool :=
  (prefix_len e =? 0) && bool_decide (dest e = unspecified (dest e)).

Record RouteQueryResult : Type := mkResult {
  res_gateway : IpAddr;
  res_prefix_len : Z;
}.

Definition ENOMEM : Z := 12.
Definition EEXIST : Z := 17.
Definition ENOENT : Z := 2.
Definition EINVAL : Z := 22.
Definition ENETUNREACH : Z := 101.

(** A route of the stack: network, prefix and router of one family. *)
Record SmolRoute : Type := mkSmol {
  smol_dest : list Z;
  smol_prefix : Z;
  smol_via : list Z;
  smol_v6 : bool;
}.

Record RouteState : Type := mkState {
  table : list RouteEntry;
  smoltcp : list SmolRoute;
  net_configured : bool;
}.

Section Stack.
Variable cap : nat.

(** The [match (entry.gateway, entry.dest)]; mixed families are skipped. *)
Definition to_smol (e : RouteEntry) : option SmolRoute :=
  match gateway e, dest e with
  | V4 gw, V4 d => Some (mkSmol d (prefix_len e) gw false)
  | V6 gw, V6 d => Some (mkSmol d (prefix_len e) gw true)
  | _, _ => None
  end.

(** [let _ = routes.push(route)]. *)
Definition push (l : list SmolRoute) (r : SmolRoute) : list SmolRoute :=
  if (length l <? cap)%nat then l ++ [r] else l.

Definition sync_route_to_smoltcp (e : RouteEntry) (s : RouteState) : RouteState :=
  if negb (net_configured s) then s
  else match to_smol e with
       | None => s
       | Some r => {| table := table s; smoltcp := push (smoltcp s) r;
                      net_configured := net_configured s |}
       end.

Definition rebuild_smoltcp_routes (s : RouteState) : RouteState :=
  if negb (net_configured s) then s
  else {| table := table s;
          smoltcp := fold_left (fun l e => match to_smol e with
                                           | Some r => push l r
                                           | None => l
                                           end) (table s) [];
          net_configured := net_configured s |}.

Definition same_route (d : IpAddr) (p : Z) (gw : IpAddr) (r : RouteEntry) : bool :=
  bool_decide (dest r = d) && (prefix_len r =? p) && bool_decide (gateway r = gw).

Definition set_table (l : list RouteEntry) (s : RouteState) : RouteState :=
  {| table := l; smoltcp := smoltcp s; net_configured := net_configured s |}.

(** [inl] is the error code. *)
Definition route_add (e : RouteEntry) (s : RouteState) : Z + RouteState :=
  if (MAX_ROUTES <=? length (table s))%nat then inl ENOMEM
  else if existsb (same_route (dest e) (prefix_len e) (gateway e)) (table s) then inl EEXIST
  else
    let s := sync_route_to_smoltcp e s in
    inr (set_table (table s ++ [e]) s).

Definition route_del (d : IpAddr) (p : Z) (gw : IpAddr) (s : RouteState) : Z + RouteState :=
  match position (same_route d p gw) (table s) with
  | None => inl ENOENT
  | Some i => inr (rebuild_smoltcp_routes (set_table (remove_at i (table s)) s))
  end.
End Stack.

(** [0xFFu8 << (8 - rem_bits)]. *)
Definition byte_mask (rem_bits : nat) : Z := wrap 8 (Z.shiftl 255 (8 - Z.of_nat rem_bits)).

Definition ipv6_cidr_contains (net d : list Z) (p : Z) : bool :=
  let n := Z.to_nat p in
  if (128 <=? n)%nat then bool_decide (net = d)
  else
    let full_bytes := (n / 8)%nat in
    let rem_bits := (n mod 8)%nat in
    if negb (bool_decide (take full_bytes net = take full_bytes d)) then false
    else if (rem_bits =? 0)%nat then true
    else Z.land (nth full_bytes net 0) (byte_mask rem_bits)
         =? Z.land (nth full_bytes d 0) (byte_mask rem_bits).

Definition cidr_contains (e : RouteEntry) (d : IpAddr) : bool :=
  if prefix_len e =? 0 then true
  else match dest e, d with
       | V4 net, V4 d =>
           Z.land (from_be_bytes d) (prefix_mask (prefix_len e))
           =? Z.land (from_be_bytes net) (prefix_mask (prefix_len e))
       | V6 net, V6 d => ipv6_cidr_contains net d (prefix_len e)
       | _, _ => false
       end.

(** [Iterator::max_by_key]: the last of the maximal elements. *)
Definition max_by_key {A} (key : A -> Z) (l : list A) : option A :=
  fold_left (fun best x =>
    match best with
    | None => Some x
    | Some b => if key b <=? key x then Some x else Some b
    end) l None.

Definition route_query (d : IpAddr) (s : RouteState) : option RouteQueryResult :=
  match max_by_key prefix_len (List.filter (fun r => cidr_contains r d) (table s)) with
  | None => None
  | Some r => Some {| res_gateway := gateway r; res_prefix_len := prefix_len r |}
  end.

Definition route_list (s : RouteState) : list RouteEntry := table s.

(** [Ipv4Addr::from_octets((x as u32).to_be_bytes())]. *)
Definition v4_of (x : Z) : IpAddr := V4 (to_be_bytes 4 (wrap_u32 x)).

Definition sys_route_add (cap : nat) (d p gw : Z) (s : RouteState) : Z * RouteState :=
  if 32 <? p then (- EINVAL, s)
  else match route_add cap {| dest := v4_of d; prefix_len := p; gateway := v4_of gw; iface := None |} s with
       | inr s => (0, s)
       | inl e => (- e, s)
       end.

Definition sys_route_del (cap : nat) (d p gw : Z) (s : RouteState) : Z * RouteState :=
  if 32 <? p then (- EINVAL, s)
  else match route_del cap (v4_of d) p (v4_of gw) s with
       | inr s => (0, s)
       | inl e => (- e, s)
       end.

Definition sys_route_query (d : Z) (s : RouteState) : Z :=
  match route_query (v4_of d) s with
  | None => - ENETUNREACH
  | Some r => match res_gateway r with V4 o => from_be_bytes o | V6 _ => - ENETUNREACH end
  end.

End Route.

(** ** Facts *)
Module RouteFacts.
Import Netfilter NetfilterFacts Route.

(** *** Prefixes *)
Definition octets6 (l : list Z) : Prop := length l = 16%nat /\ Forall u8 l.

Lemma byte_mask_value r : (0 < r < 8)%nat -> byte_mask r = 2 ^ 8 - 2 ^ (8 - Z.of_nat r).
Proof. intros Hr. do 8 (destruct r as [|r]; [reflexivity || lia|]). lia. Qed.

(** The first [n] bits of a 128-bit address, by whole bytes and a masked one. *)
Lemma ipv6_prefix_split l n :
  octets6 l -> (n < 128)%nat ->
  from_be_bytes l / 2 ^ (128 - Z.of_nat n)
  = (from_be_bytes (take (n / 8) l) * 256 + nth (n / 8) l 0) / 2 ^ (8 - Z.of_nat (n mod 8)).
Proof.
  intros [Hl HF] Hn. pose proof (Nat.div_mod_eq n 8). pose proof (Nat.mod_upper_bound n 8).
  assert (Hf : (n / 8 < 16)%nat) by (apply Nat.Div0.div_lt_upper_bound; lia).
  set (f := (n / 8)%nat) in *. set (r := (n mod 8)%nat) in *.
  destruct (lookup_lt_is_Some_2 l f) as [b Hb]; [lia|].
  rewrite nth_lookup, Hb. simpl. rewrite <- from_be_bytes_snoc, <- take_S_r by done.
  rewrite <- (take_drop (S f) l) at 1. rewrite from_be_bytes_app, length_drop, Hl.
  set (hi := from_be_bytes (take (S f) l)).
  assert (Hlo : 0 <= from_be_bytes (drop (S f) l) < 2 ^ (8 * Z.of_nat (16 - S f))).
  { rewrite Z.pow_mul_r by lia. change (2 ^ 8) with 256.
    replace (16 - S f)%nat with (length (drop (S f) l)) by (rewrite length_drop; lia).
    apply from_be_bytes_bound. by apply Forall_drop. }
  replace 256 with (2 ^ 8) by reflexivity. rewrite <- Z.pow_mul_r by lia.
  replace (128 - Z.of_nat n) with (8 * Z.of_nat (16 - S f) + (8 - Z.of_nat r)) by lia.
  rewrite Z.pow_add_r by lia.
  assert (0 < 2 ^ (8 * Z.of_nat (16 - S f))) by (apply Z.pow_pos_nonneg; lia).
  assert (0 < 2 ^ (8 - Z.of_nat r)) by (apply Z.pow_pos_nonneg; lia).
  rewrite <- Z.div_div by lia. f_equal. rewrite Z.div_add_l by lia. rewrite Z.div_small by lia. lia.
Qed.

(** Appending a byte to two numbers and comparing all but the last [k] bits. *)
Lemma append_byte_agree x y a b k :
  0 <= k <= 8 -> u8 a -> u8 b ->
  (x * 256 + a) / 2 ^ k = (y * 256 + b) / 2 ^ k <-> x = y /\ a / 2 ^ k = b / 2 ^ k.
Proof.
  unfold u8. intros Hk Ha Hb. assert (Hp : 0 < 2 ^ k) by (apply Z.pow_pos_nonneg; lia).
  assert (H256 : 256 = 2 ^ (8 - k) * 2 ^ k).
  { rewrite <- Z.pow_add_r by lia. by replace (8 - k + k) with 8 by lia. }
  assert (0 < 2 ^ (8 - k)) by (apply Z.pow_pos_nonneg; lia).
  assert (Hm : forall z, z * 256 = z * 2 ^ (8 - k) * 2 ^ k)
    by (intros z; rewrite <- Z.mul_assoc; by rewrite <- H256).
  rewrite !Hm.
  rewrite !Z.div_add_l by lia.
  assert (0 <= a / 2 ^ k < 2 ^ (8 - k))
    by (split; [apply Z.div_pos; lia|apply Z.div_lt_upper_bound; lia]).
  assert (0 <= b / 2 ^ k < 2 ^ (8 - k))
    by (split; [apply Z.div_pos; lia|apply Z.div_lt_upper_bound; lia]).
  split; [|by intros [-> ->]]. intros Heq. assert (x = y) as -> by nia. split; [done|lia].
Qed.

Lemma ipv6_cidr_is_prefix net d p :
  octets6 net -> octets6 d -> 0 <= p ->
  ipv6_cidr_contains net d p = true <->
  from_be_bytes net / 2 ^ Z.max 0 (128 - p) = from_be_bytes d / 2 ^ Z.max 0 (128 - p).
Proof.
  intros Hn Hd Hp. unfold ipv6_cidr_contains.
  destruct (Nat.leb_spec 128 (Z.to_nat p)) as [Hge|Hlt].
  { rewrite Z.max_l by lia. rewrite !Z.div_1_r, bool_decide_eq_true. split; [by intros ->|].
    destruct Hn, Hd. apply from_be_bytes_inj; [done|done|lia]. }
  rewrite Z.max_r by lia. replace (128 - p) with (128 - Z.of_nat (Z.to_nat p)) by lia.
  rewrite !ipv6_prefix_split by done. set (n := Z.to_nat p) in *.
  pose proof (Nat.mod_upper_bound n 8). pose proof (Nat.div_mod_eq n 8).
  assert (Hf : (n / 8 < 16)%nat) by (apply Nat.Div0.div_lt_upper_bound; lia).
  assert (Hu : forall l, octets6 l -> u8 (nth (n / 8) l 0)).
  { intros l [Hl HF]. rewrite nth_lookup.
    destruct (lookup_lt_is_Some_2 l (n / 8)) as [b Hb]; [lia|]. rewrite Hb.
    by eapply Forall_lookup_1. }
  rewrite append_byte_agree by (auto; lia).
  assert (Htake : take (n / 8) net = take (n / 8) d <->
                  from_be_bytes (take (n / 8) net) = from_be_bytes (take (n / 8) d)).
  { split; [by intros ->|]. destruct Hn, Hd. apply from_be_bytes_inj;
      [by apply Forall_take|by apply Forall_take|rewrite !length_take; lia]. }
  rewrite <- Htake. case_bool_decide as Ht; cbn [negb]; [|naive_solver].
  destruct (Nat.eqb_spec (n mod 8) 0) as [->|Hr].
  { split; [|done]. intros _. split; [done|]. unfold u8 in Hu.
    change (2 ^ (8 - Z.of_nat 0)) with 256. rewrite !Z.div_small by auto. done. }
  rewrite Z.eqb_eq, byte_mask_value by lia.
  rewrite (high_masks_agree 8); [|lia|by apply Hu..]. naive_solver.
Qed.

(** The width, the number and the validity of an address. *)
Definition width (a : IpAddr) : Z := match a with V4 _ => 32 | V6 _ => 128 end.
Definition value (a : IpAddr) : Z := match a with V4 o | V6 o => from_be_bytes o end.
Definition addr_ok (a : IpAddr) : Prop := match a with V4 o => octets o | V6 o => octets6 o end.
Definition same_family (a b : IpAddr) : Prop := width a = width b.

(** [d] is in the network of [e]: same family, same first [prefix_len] bits. *)
Definition in_network (e : RouteEntry) (d : IpAddr) : Prop :=
  same_family (dest e) d /\
  let k := Z.max 0 (width d - prefix_len e) in value (dest e) / 2 ^ k = value d / 2 ^ k.

Lemma cidr_contains_spec e d :
  addr_ok (dest e) -> addr_ok d -> 0 <= prefix_len e ->
  cidr_contains e d = true <-> in_network e d \/ prefix_len e = 0.
Proof.
  intros He Hd Hp. unfold cidr_contains, in_network, same_family.
  destruct (Z.eqb_spec (prefix_len e) 0) as [->|Hne]; [naive_solver|].
  destruct (dest e) as [net|net], d as [dd|dd]; cbn [width value] in *.
  - rewrite masks_agree; [|by apply from_be_bytes_u32..|lia]. naive_solver.
  - split; [done|]. intros [[? _]|?]; lia.
  - split; [done|]. intros [[? _]|?]; lia.
  - rewrite ipv6_cidr_is_prefix by done. naive_solver.
Qed.

(** *** Longest prefix *)
Lemma max_by_key_from {A} (key : A -> Z) l b :
  exists x, fold_left (fun best x =>
      match best with
      | None => Some x
      | Some b => if key b <=? key x then Some x else Some b
      end) l (Some b) = Some x /\
    (x = b \/ x ∈ l) /\ key b <= key x /\ forall y, y ∈ l -> key y <= key x.
Proof.
  revert b. induction l as [|z l IH]; intros b; simpl.
  - exists b. split_and!; [done|by left|lia|]. intros y Hy. by apply elem_of_nil in Hy.
  - destruct (Z.leb_spec (key b) (key z)).
    + destruct (IH z) as (x & -> & Hx & Hle & Hall). exists x.
      split_and!; [done|destruct Hx as [->|Hx]; [right; by left|right; by right]|lia|].
      intros y [->|Hy]%elem_of_cons; [done|by apply Hall].
    + destruct (IH b) as (x & -> & Hx & Hle & Hall). exists x.
      split_and!; [done|destruct Hx as [->|Hx]; [by left|right; by right]|lia|].
      intros y [->|Hy]%elem_of_cons; [lia|by apply Hall].
Qed.

Lemma max_by_key_spec {A} (key : A -> Z) (l : list A) :
  match max_by_key key l with
  | None => l = []
  | Some x => x ∈ l /\ forall y, y ∈ l -> key y <= key x
  end.
Proof.
  destruct l as [|z l]; [done|]. unfold max_by_key. simpl.
  destruct (max_by_key_from key l z) as (x & -> & Hx & Hle & Hall).
  split; [destruct Hx as [->|Hx]; [by left|by right]|].
  intros y [->|Hy]%elem_of_cons; [done|by apply Hall].
Qed.

Definition table_ok (s : RouteState) : Prop :=
  Forall (fun e => addr_ok (dest e) /\ 0 <= prefix_len e) (table s).

(** C34: a query is a longest-prefix match: it finds a route exactly when some
    route's network contains the address (or has prefix length 0), and the
    route found contains it and has the longest prefix of those that do. *)
Theorem route_query_longest_prefix s d :
  table_ok s -> addr_ok d ->
  let candidate e := e ∈ table s /\ (in_network e d \/ prefix_len e = 0) in
  match route_query d s with
  | None => forall e, ~ candidate e
  | Some r => exists e, candidate e /\ res_gateway r = gateway e /\ res_prefix_len r = prefix_len e /\
                forall e', candidate e' -> prefix_len e' <= prefix_len e
  end.
Proof.
  intros Ht Hd candidate. unfold route_query.
  assert (Hin : forall e, e ∈ List.filter (fun r => cidr_contains r d) (table s) <-> candidate e).
  { intros e. rewrite list_elem_of_In, filter_In, <- list_elem_of_In. unfold candidate.
    split; intros [He Hc]; (split; [done|]);
      (destruct (proj1 (Forall_forall _ _) Ht e He); by apply (cidr_contains_spec e d)). }
  pose proof (max_by_key_spec prefix_len (List.filter (fun r => cidr_contains r d) (table s))) as Hm.
  destruct (max_by_key _ _) as [e|].
  - destruct Hm as [He Hmax]. exists e. split_and!; [by apply Hin|done|done|].
    intros e' He'. apply Hmax. by apply Hin.
  - intros e He. apply Hin in He. rewrite Hm in He. by apply elem_of_nil in He.
Qed.

Definition sample_table : RouteState :=
  {| table := [default_route (V4 [192; 168; 0; 1]);
               mkEntry (V4 [10; 1; 0; 0]) 16 (V4 [10; 0; 0; 9]) None;
               mkEntry (V4 [10; 0; 0; 0]) 8 (V4 [10; 0; 0; 8]) None];
     smoltcp := []; net_configured := false |}.

Lemma route_query_longest_prefix_witness :
  exists e, e ∈ table sample_table /\ gateway e = V4 [10; 0; 0; 9] /\
    forall e', e' ∈ table sample_table -> in_network e' (V4 [10; 1; 2; 3]) ->
      prefix_len e' <= prefix_len e.
Proof.
  pose proof (route_query_longest_prefix sample_table (V4 [10; 1; 2; 3])) as H.
  destruct H as (e & [He _] & Hg & _ & Hmax).
  - repeat constructor; simpl; unfold u8; try lia.
  - split; [done|]. repeat constructor; unfold u8; lia.
  - exists e. split; [exact He|]. split; [symmetry; exact Hg|].
    intros e' He' Hn. apply Hmax. split; [exact He'|by left].
Defined.

(** A default route answers for the other family: with an IPv4 default
    route and, added after it, an IPv6 default route, a query for any IPv4
    address returns the IPv6 gateway, of a route that cannot contain it; the
    system call reports the network unreachable. *)
Theorem default_route_ignores_family gw6 gw4 d s :
  table s = [default_route (V4 gw4); default_route (V6 gw6)] ->
  route_query (V4 d) s = Some {| res_gateway := V6 gw6; res_prefix_len := 0 |} /\
  ~ same_family (dest (default_route (V6 gw6))) (V4 d).
Proof.
  intros Ht. split; [unfold route_query; by rewrite Ht|]. done.
Qed.

Lemma default_route_ignores_family_witness :
  sys_route_query 134744072
    {| table := [default_route (V4 [10; 0; 0; 1]); default_route (V6 (replicate 16 1))];
       smoltcp := []; net_configured := true |} = - ENETUNREACH /\
  ~ same_family (dest (default_route (V6 (replicate 16 1)))) (V4 [8; 8; 8; 8]).
Proof.
  split; [reflexivity|].
  eapply (default_route_ignores_family (replicate 16 1) [10; 0; 0; 1] [8; 8; 8; 8]
    {| table := [default_route (V4 [10; 0; 0; 1]); default_route (V6 (replicate 16 1))];
       smoltcp := []; net_configured := true |}). reflexivity.
Defined.

(** *** The copy in the stack *)
Section Mirror.
Context (cap : nat).

(** The routes the table holds for the stack. *)
Definition mirrored (l : list RouteEntry) : list SmolRoute := omap to_smol l.

Lemma rebuild_fold l acc :
  (length acc <= cap)%nat ->
  fold_left (fun l e => match to_smol e with Some r => push cap l r | None => l end) l acc
  = take cap (acc ++ mirrored l).
Proof.
  revert acc. induction l as [|e l IH]; intros acc Hacc; simpl.
  { rewrite app_nil_r. by rewrite take_ge. }
  unfold mirrored in *. simpl. destruct (to_smol e) as [r|]; simpl; [|by apply IH].
  unfold push. destruct (Nat.ltb_spec (length acc) cap) as [Hlt|Hge].
  - rewrite IH by (rewrite length_app; simpl; lia). by rewrite <- app_assoc.
  - rewrite IH by done. rewrite !take_app_le by lia. done.
Qed.

Inductive routes_reachable : RouteState -> Prop :=
  | routes_start : routes_reachable {| table := []; smoltcp := []; net_configured := true |}
  | routes_add e s s' : routes_reachable s -> route_add cap e s = inr s' -> routes_reachable s'
  | routes_del d p gw s s' :
      routes_reachable s -> route_del cap d p gw s = inr s' -> routes_reachable s'.

Lemma take_app_push (l : list SmolRoute) r : push cap (take cap l) r = take cap (l ++ [r]).
Proof.
  unfold push. rewrite length_take. destruct (Nat.ltb_spec (cap `min` length l) cap).
  - rewrite !take_ge; [done|rewrite length_app; simpl; lia|lia].
  - by rewrite take_app_le by lia.
Qed.

Lemma routes_reachable_inv s :
  routes_reachable s ->
  net_configured s = true /\ smoltcp s = take cap (mirrored (table s)) /\
  (length (table s) <= MAX_ROUTES)%nat /\
  NoDup ((fun e => (dest e, prefix_len e, gateway e)) <$> table s).
Proof.
  induction 1 as [|e s s' _ (Hup & Hm & Hl & Hnd) Hop|d p gw s s' _ (Hup & Hm & Hl & Hnd) Hop].
  - split_and!; [done|by destruct cap|simpl; lia|constructor].
  - unfold route_add in Hop. destruct (Nat.leb_spec MAX_ROUTES (length (table s))); [done|].
    destruct (existsb _ _) eqn:Ex; [done|]. injection Hop as <-.
    unfold sync_route_to_smoltcp. rewrite Hup. cbn [negb].
    assert (Hnd' : NoDup ((fun e => (dest e, prefix_len e, gateway e)) <$> table s ++ [e])).
    { rewrite fmap_app. apply NoDup_app. split_and!; [done| |repeat constructor; by intros ?%elem_of_nil].
      intros x Hx Hin. apply list_elem_of_singleton in Hin as ->.
      apply list_elem_of_fmap in Hx as (e' & Heq & He').
      apply not_true_iff_false in Ex. apply Ex, existsb_exists. exists e'.
      split; [by apply list_elem_of_In|]. injection Heq as -> -> ->. unfold same_route.
      by rewrite !bool_decide_true, Z.eqb_refl. }
    unfold mirrored in *.
    destruct (to_smol e) as [r|] eqn:Er; simpl; (split_and!; [done| |rewrite length_app; simpl; lia|done]);
      rewrite omap_app, Hm; simpl; rewrite Er; [apply take_app_push|by rewrite app_nil_r].
  - unfold route_del in Hop. destruct (position _ _) as [i|]; [|done]. injection Hop as <-.
    unfold rebuild_smoltcp_routes. simpl. rewrite Hup. cbn [negb]. simpl. split_and!.
    + done.
    + by rewrite rebuild_fold by (simpl; lia).
    + pose proof (length_remove_at i (table s)). lia.
    + unfold remove_at. eapply sublist_NoDup; [exact Hnd|]. apply fmap_sublist.
      rewrite <- (take_drop i (table s)) at 3. apply sublist_app; [done|].
      destruct (drop i (table s)) as [|x l] eqn:E; [|].
      * replace (drop (S i) (table s)) with (@nil RouteEntry); [done|].
        symmetry. apply drop_ge. apply (f_equal length) in E. rewrite length_drop in E. simpl in E. lia.
      * replace (drop (S i) (table s)) with l; [by constructor|].
        replace (S i) with (i + 1)%nat by lia. rewrite <- drop_drop, E. done.
Qed.

(** With the network up from the start, the stack's routing table is, after
    any additions and deletions, the first [cap] routes of the kernel's table
    (those whose gateway and destination are of one family); the kernel's table
    has at most 16 routes and no duplicates. *)
Theorem stack_mirrors_table s :
  routes_reachable s ->
  smoltcp s = take cap (mirrored (table s)) /\ (length (table s) <= MAX_ROUTES)%nat /\
  forall i j e e', table s !! i = Some e -> table s !! j = Some e' ->
    same_route (dest e) (prefix_len e) (gateway e) e' = true -> i = j.
Proof.
  intros (_ & Hm & Hl & Hnd)%routes_reachable_inv. split_and!; [done|done|].
  intros i j e e' Hi Hj Hs. unfold same_route in Hs.
  apply andb_true_iff in Hs as [Hs Hg%bool_decide_eq_true]. apply andb_true_iff in Hs as [Hd%bool_decide_eq_true Hp%Z.eqb_eq].
  eapply (NoDup_lookup _ i j _ Hnd); rewrite list_lookup_fmap, ?Hi, ?Hj; simpl; [done|].
  by rewrite Hd, Hp, Hg.
Qed.
End Mirror.

Lemma stack_mirrors_table_witness :
  exists s, route_add 2 (default_route (V4 [10; 0; 0; 1]))
              {| table := []; smoltcp := []; net_configured := true |} = inr s /\
            smoltcp s = take 2 (mirrored (table s)).
Proof.
  eexists. split; [reflexivity|].
  eapply (stack_mirrors_table 2). eapply routes_add; [apply routes_start|reflexivity].
Defined.

End RouteFacts.
