(* ===== verification/EbpfMap.v ===== *)
(** * eBPF maps (framework/debug/ebpf.rs, [BpfMap])

    Hash and array maps with byte-string keys and values.  The
    [BTreeMap<Vec<u8>, Vec<u8>>] of a hash map is a [gmap] on byte lists, the
    [Vec<Option<Vec<u8>>>] of an array map a list of options; the per-CPU map
    types use the same two stores.  [lookup] writes into the caller's buffer,
    so it returns the buffer.

    The facts are the contract of a map: bounded size, fixed key and value
    lengths, and that it refines a finite map. *)
From S2P Require Import Prelude Bytes.

Module EbpfMap.

Inductive BpfMapType : Type := Hash | Array | PerCpuHash | PerCpuArray.

Definition map_type_from_u32 (v : Z) : option BpfMapType :=
  if v =? 1 then Some Hash else if v =? 2 then Some Array
  else if v =? 3 then Some PerCpuHash else if v =? 4 then Some PerCpuArray else None.

Record BpfMapDef : Type := mkDef {
  map_type : BpfMapType;
  key_size : Z;
  value_size : Z;
  max_entries : Z;
}.

Inductive BpfMap : Type :=
  | HashMap (def : BpfMapDef) (data : gmap bytes bytes)
  | ArrayMap (def : BpfMapDef) (data : list (option bytes)).

Definition create (mt : BpfMapType) (ks vs me : Z) : option BpfMap :=
  if (ks =? 0) || (vs =? 0) || (me =? 0) then None
  else
    let def := {| map_type := mt; key_size := ks; value_size := vs; max_entries := me |} in
    match mt with
    | Hash | PerCpuHash => Some (HashMap def ∅)
    | Array | PerCpuArray => Some (ArrayMap def (replicate (Z.to_nat me) None))
    end.

Definition def (m : BpfMap) : BpfMapDef :=
  match m with HashMap def _ => def | ArrayMap def _ => def end.

(** The key bytes as an index; [key[i]] past the end of the key panics. *)
Definition key_to_index (key : bytes) (ks : Z) : outcome (option nat) :=
  if (ks =? 1) || (ks =? 2) || (ks =? 4) || (ks =? 8) then
    if (length key <? Z.to_nat ks)%nat then Panic
    else Done (Some (Z.to_nat (from_le_bytes (take (Z.to_nat ks) key))))
  else Done None.

(** [value_out[..n].copy_from_slice(&v[..n])] with [n] the shorter length. *)
Definition copy_out (v value_out : bytes) : bytes :=
  let n := Nat.min (length v) (length value_out) in take n v ++ drop n value_out.

Definition lookup (m : BpfMap) (key value_out : bytes) : outcome (bool * bytes) :=
  match m with
  | HashMap def data =>
      if negb (Z.of_nat (length key) =? key_size def) then Done (false, value_out)
      else match data !! key with
           | Some v => Done (true, copy_out v value_out)
           | None => Done (false, value_out)
           end
  | ArrayMap def data =>
      if negb (Z.of_nat (length key) =? key_size def) then Done (false, value_out)
      else
        idx ← key_to_index key (key_size def);
        match idx with
        | None => Done (false, value_out)
        | Some idx =>
            match data !! idx with
            | Some (Some v) => Done (true, copy_out v value_out)
            | _ => Done (false, value_out)
            end
        end
  end.

Definition update (m : BpfMap) (key value : bytes) : outcome (bool * BpfMap) :=
  match m with
  | HashMap def data =>
      if negb (Z.of_nat (length key) =? key_size def)
         || negb (Z.of_nat (length value) =? value_size def) then Done (false, m)
      else if (max_entries def <=? Z.of_nat (size data)) && negb (bool_decide (is_Some (data !! key)))
           then Done (false, m)
           else Done (true, HashMap def (<[key := value]> data))
  | ArrayMap def data =>
      if negb (Z.of_nat (length key) =? key_size def)
         || negb (Z.of_nat (length value) =? value_size def) then Done (false, m)
      else
        idx ← key_to_index key (key_size def);
        match idx with
        | None => Done (false, m)
        | Some idx =>
            if (idx <? length data)%nat
            then Done (true, ArrayMap def (<[idx := Some value]> data))
            else Done (false, m)
        end
  end.

Definition delete (m : BpfMap) (key : bytes) : outcome (bool * BpfMap) :=
  match m with
  | HashMap def data =>
      if negb (Z.of_nat (length key) =? key_size def) then Done (false, m)
      else match data !! key with
           | Some _ => Done (true, HashMap def (base.delete key data))
           | None => Done (false, m)
           end
  | ArrayMap def data =>
      idx ← key_to_index key (key_size def);
      match idx with
      | None => Done (false, m)
      | Some idx =>
          if (idx <? length data)%nat
          then Done (true, ArrayMap def (<[idx := None]> data))
          else Done (false, m)
      end
  end.

End EbpfMap.

(** ** Facts *)
Module EbpfMapFacts.
Import EbpfMap.

(** A byte string of the length a field prescribes. *)
Definition sized (n : Z) (b : bytes) : Prop := Z.of_nat (length b) = n.

#[export] Instance sized_dec n b : Decision (sized n b).
Proof. unfold sized. apply _. Defined.

(** A stored value: bytes of the declared length. *)
Definition value_ok (n : Z) (v : bytes) : Prop := sized n v /\ Forall u8 v.

(** The contract of a map: no more entries than allowed, every key and value
    of the declared size. *)
Definition map_ok (m : BpfMap) : Prop :=
  match m with
  | HashMap def data =>
      Z.of_nat (size data) <= max_entries def /\
      map_Forall (fun k v => sized (key_size def) k /\ value_ok (value_size def) v) data
  | ArrayMap def data =>
      Z.of_nat (length data) = max_entries def /\
      Forall (fun e => match e with Some v => value_ok (value_size def) v | None => True end) data
  end.

(** What a key selects: the finite map a map object stands for.  Keys of the
    wrong length and array keys that are no index select nothing. *)
Definition contents (m : BpfMap) (key : bytes) : option bytes :=
  if decide (sized (key_size (def m)) key) then
    match m with
    | HashMap _ data => data !! key
    | ArrayMap def data =>
        match key_to_index key (key_size def) with
        | Done (Some idx) => mjoin (data !! idx)
        | _ => None
        end
    end
  else None.

Lemma bpf_map_create_ok mt ks vs me m :
  0 <= me -> create mt ks vs me = Some m -> map_ok m /\ forall key, contents m key = None.
Proof.
  intros Hme. unfold create. case_match; [done|].
  assert (Hhash : forall d, me = max_entries d -> map_ok (HashMap d ∅) /\
                   forall key, contents (HashMap d ∅) key = None).
  { intros d ->. split; [split; [rewrite map_size_empty; lia|apply map_Forall_empty]|].
    intros key. unfold contents. case_decide; [apply lookup_empty|done]. }
  assert (Harr : forall d, me = max_entries d ->
      map_ok (ArrayMap d (replicate (Z.to_nat me) None)) /\
      forall key, contents (ArrayMap d (replicate (Z.to_nat me) None)) key = None).
  { intros d ->. split; [split; [rewrite length_replicate; lia|by apply Forall_replicate]|].
    intros key. unfold contents. case_decide; [|done].
    destruct (key_to_index _ _) as [[idx|]| |]; try done.
    destruct (replicate _ _ !! idx) eqn:E; [|done]. by apply lookup_replicate in E as [-> _]. }
  destruct mt; intros [= <-]; by (apply Hhash || apply Harr).
Qed.

(** Keys of the declared length never make the index computation panic. *)
Lemma key_to_index_sized key ks :
  sized ks key -> exists i, key_to_index key ks = Done i.
Proof.
  intros Hk. unfold key_to_index. case_match; [|eauto].
  rewrite (proj2 (Nat.ltb_ge _ _)) by (unfold sized in Hk; lia). eauto.
Qed.

(** An array key is determined by its index. *)
Lemma key_to_index_inj key key' ks i :
  sized ks key -> sized ks key' -> Forall u8 key -> Forall u8 key' ->
  key_to_index key ks = Done (Some i) -> key_to_index key' ks = Done (Some i) -> key = key'.
Proof.
  unfold key_to_index, sized. intros Hk Hk' Hu Hu'. case_match; [|done].
  rewrite !(proj2 (Nat.ltb_ge _ _)) by lia. rewrite !take_ge by lia.
  intros [= <-] [= Heq]. pose proof (from_le_bytes_bound key Hu).
  pose proof (from_le_bytes_bound key' Hu').
  apply from_le_bytes_inj; [done|done|lia|lia].
Qed.

Lemma update_ok m key value :
  map_ok m -> Forall u8 value ->
  exists b m', update m key value = Done (b, m') /\ map_ok m' /\ def m' = def m.
Proof.
  intros Hok Hval. unfold update. destruct m as [d data|d data]; destruct Hok as [Hsz HF].
  - case_match eqn:E1; [by eexists _, _|]. case_match eqn:E2; [by eexists _, _|].
    eexists _, _. split_and!; [done| |done].
    apply orb_false_iff in E1 as [E1 E1']. rewrite negb_false_iff, Z.eqb_eq in E1, E1'.
    split; [|by apply map_Forall_insert_2].
    destruct (data !! key) as [v|] eqn:Ek.
    + rewrite map_size_insert_Some by by exists v. done.
    + rewrite map_size_insert_None by done. rewrite bool_decide_false in E2 by (by intros [??]).
      rewrite andb_true_r, Z.leb_gt in E2. lia.
  - case_match eqn:E1; [by eexists _, _|].
    apply orb_false_iff in E1 as [E1 E1']. rewrite negb_false_iff, Z.eqb_eq in E1, E1'.
    destruct (key_to_index_sized key (key_size d) E1) as [[i|] ->]; [|by eexists _, _].
    cbn [mbind outcome_bind]. case_match; [|by eexists _, _].
    eexists _, _. split_and!; [done| |done]. split; [by rewrite length_insert|].
    by apply Forall_insert.
Qed.

Lemma delete_ok m key :
  map_ok m -> sized (key_size (def m)) key ->
  exists b m', delete m key = Done (b, m') /\ map_ok m' /\ def m' = def m.
Proof.
  intros Hok Hk. unfold delete. destruct m as [d data|d data]; destruct Hok as [Hsz HF]; simpl in Hk.
  - case_match; [by eexists _, _|]. destruct (data !! key) as [v|] eqn:Ek; [|by eexists _, _].
    eexists _, _. split_and!; [done| |done]. split; [|by apply map_Forall_delete].
    rewrite map_size_delete_Some by by exists v. lia.
  - destruct (key_to_index_sized key (key_size d) Hk) as [[i|] ->]; [|by eexists _, _].
    cbn [mbind outcome_bind]. case_match; [|by eexists _, _].
    eexists _, _. split_and!; [done| |done]. split; [by rewrite length_insert|].
    by apply Forall_insert.
Qed.

Lemma contents_update m key value m' key' :
  Forall u8 key -> Forall u8 key' -> update m key value = Done (true, m') ->
  contents m' key' = if decide (key' = key) then Some value else contents m key'.
Proof.
  intros Hu Hu' H. unfold update in H. destruct m as [d data|d data].
  - case_match eqn:E1; [done|]. case_match; [done|]. injection H as <-.
    apply orb_false_iff in E1 as [E1 _]. rewrite negb_false_iff, Z.eqb_eq in E1.
    unfold contents; simpl. case_decide as Hs.
    + case_decide as Hd; [subst; by rewrite lookup_insert_eq|by rewrite lookup_insert_ne].
    + rewrite decide_False; [done|]. by intros ->.
  - case_match eqn:E1; [done|].
    apply orb_false_iff in E1 as [E1 _]. rewrite negb_false_iff, Z.eqb_eq in E1.
    destruct (key_to_index key (key_size d)) as [[i|]| |] eqn:Ei; try done.
    cbn [mbind outcome_bind] in H. destruct (Nat.ltb_spec i (length data)) as [Hlt|]; [|done].
    injection H as <-. unfold contents; simpl. case_decide as Hs.
    + case_decide as Hd.
      * subst. rewrite Ei. by rewrite list_lookup_insert_eq.
      * destruct (key_to_index key' (key_size d)) as [[j|]| |] eqn:Ej; try done.
        rewrite list_lookup_insert_ne; [done|]. intros ->. apply Hd.
        by apply (key_to_index_inj key' key (key_size d) j).
    + rewrite decide_False; [done|]. by intros ->.
Qed.

Lemma contents_delete m key m' b key' :
  Forall u8 key -> Forall u8 key' -> sized (key_size (def m)) key ->
  delete m key = Done (b, m') ->
  contents m' key' = if decide (key' = key) then None else contents m key'.
Proof.
  intros Hu Hu' Hk H. unfold delete in H. destruct m as [d data|d data]; simpl in Hk.
  - case_match eqn:E1; [rewrite negb_true_iff, Z.eqb_neq in E1; done|].
    destruct (data !! key) as [v|] eqn:Ek; injection H as <- <-; unfold contents; simpl.
    + case_decide as Hs; [|by case_decide].
      case_decide as Hd; [subst; by rewrite lookup_delete_eq|by rewrite lookup_delete_ne].
    + case_decide as Hs; [|by case_decide]. case_decide as Hd; [by subst|done].
  - destruct (key_to_index key (key_size d)) as [[i|]| |] eqn:Ei; try done;
      cbn [mbind outcome_bind] in H.
    + destruct (Nat.ltb_spec i (length data)) as [Hlt|Hge]; injection H as <- <-;
        unfold contents; simpl; (case_decide as Hs; [|by case_decide]).
      * case_decide as Hd; [subst; rewrite Ei; by rewrite list_lookup_insert_eq|].
        destruct (key_to_index key' (key_size d)) as [[j|]| |] eqn:Ej; try done.
        rewrite list_lookup_insert_ne; [done|]. intros ->. apply Hd.
        by apply (key_to_index_inj key' key (key_size d) j).
      * case_decide as Hd; [subst; rewrite Ei; by rewrite lookup_ge_None_2 by lia|done].
    + injection H as <- <-. unfold contents; simpl. case_decide as Hs; [|by case_decide].
      case_decide as Hd; [subst; by rewrite Ei|done].
Qed.

Lemma copy_out_full v out : length out = length v -> copy_out v out = v.
Proof.
  intros H. unfold copy_out. rewrite H, Nat.min_id, take_ge, drop_ge by lia. apply app_nil_r.
Qed.

Lemma lookup_contents m key out :
  map_ok m -> sized (key_size (def m)) key -> sized (value_size (def m)) out ->
  lookup m key out =
  match contents m key with Some v => Done (true, v) | None => Done (false, out) end.
Proof.
  intros Hok Hk Ho. unfold contents. rewrite decide_True by done. unfold lookup.
  destruct m as [d data|d data]; destruct Hok as [_ HF]; simpl in Hk, Ho.
  - rewrite (proj2 (Z.eqb_eq _ _)) by done. cbn [negb].
    destruct (data !! key) as [v|] eqn:E; [|done]. rewrite copy_out_full; [done|].
    destruct (HF _ _ E) as [_ [Hv _]]. unfold sized in *. lia.
  - rewrite (proj2 (Z.eqb_eq _ _)) by done. cbn [negb].
    destruct (key_to_index_sized key (key_size d) Hk) as [[i|] ->]; [|done].
    cbn [mbind outcome_bind]. destruct (data !! i) as [[v|]|] eqn:E; simpl; try done.
    rewrite copy_out_full; [done|]. rewrite Forall_lookup in HF. specialize (HF _ _ E).
    destruct HF as [HF _]. unfold sized in *. lia.
Qed.

Lemma contents_bytes m key v : map_ok m -> contents m key = Some v -> Forall u8 v.
Proof.
  unfold contents. intros Hok. case_decide; [|done].
  destruct m as [d data|d data]; destruct Hok as [_ HF].
  - intros E. by destruct (HF _ _ E) as [_ [_ ?]].
  - destruct (key_to_index _ _) as [[i|]| |]; try done.
    destruct (data !! i) as [[w|]|] eqn:E; simpl; try done. intros [= <-].
    rewrite Forall_lookup in HF. by destruct (HF _ _ E).
Qed.

(** The number an array key stands for, when it is that of an entry. *)
Definition entry_of (m : BpfMap) (key : bytes) : option nat :=
  match key_to_index key (key_size (def m)) with
  | Done (Some i) => if bool_decide (Z.of_nat i < max_entries (def m)) then Some i else None
  | _ => None
  end.

(** Keys a map has room for: a hash map every key as long as it is not full, and then
    those it holds; an array the numbers of its entries. *)
Definition has_room (m : BpfMap) (key : bytes) : Prop :=
  match m with
  | HashMap def data => Z.of_nat (size data) < max_entries def \/ is_Some (data !! key)
  | ArrayMap def data => is_Some (entry_of m key)
  end.

(** Keys a removal answers [true] for: those held by a hash map, the entries of an array
    whether they are set or not. *)
Definition removable (m : BpfMap) (key : bytes) : Prop :=
  match m with
  | HashMap _ _ => is_Some (contents m key)
  | ArrayMap _ _ => is_Some (entry_of m key)
  end.

Lemma array_update_result d data key value :
  map_ok (ArrayMap d data) -> sized (key_size d) key -> sized (value_size d) value ->
  exists m', update (ArrayMap d data) key value
    = Done (bool_decide (is_Some (entry_of (ArrayMap d data) key)), m').
Proof.
  intros [Hlen _] Hk Hv. unfold update, entry_of, sized in *. cbn [def]. rewrite Hk, Hv, !Z.eqb_refl. cbn [negb orb].
  destruct (key_to_index_sized key (key_size d) Hk) as [[i|] ->]; cbn [mbind outcome_bind]; [|by eexists].
  rewrite <- Hlen. destruct (Nat.ltb_spec i (length data)).
  - rewrite (bool_decide_true (Z.of_nat i < _)) by lia. by eexists.
  - rewrite (bool_decide_false (Z.of_nat i < _)) by lia. by eexists.
Qed.

Lemma array_delete_result d data key :
  map_ok (ArrayMap d data) -> sized (key_size d) key ->
  exists m', delete (ArrayMap d data) key
    = Done (bool_decide (is_Some (entry_of (ArrayMap d data) key)), m').
Proof.
  intros [Hlen _] Hk. unfold delete, entry_of. cbn [def].
  destruct (key_to_index_sized key (key_size d) Hk) as [[i|] ->]; cbn [mbind outcome_bind]; [|by eexists].
  rewrite <- Hlen. destruct (Nat.ltb_spec i (length data)).
  - rewrite (bool_decide_true (Z.of_nat i < _)) by lia. by eexists.
  - rewrite (bool_decide_false (Z.of_nat i < _)) by lia. by eexists.
Qed.

Lemma update_result m key value b m' :
  map_ok m -> sized (key_size (def m)) key -> sized (value_size (def m)) value ->
  update m key value = Done (b, m') -> (b = true <-> has_room m key).
Proof.
  intros Hok Hk Hv Hup. destruct m as [d data|d data]; cbn [def has_room] in *.
  - destruct Hok as [Hs _]. unfold update, sized in *. rewrite Hk, Hv, !Z.eqb_refl in Hup. cbn [negb orb] in Hup.
    destruct (Z.leb_spec (max_entries d) (Z.of_nat (size data))); cbn [andb] in Hup.
    + destruct (bool_decide (is_Some (data !! key))) eqn:E; cbn in Hup; injection Hup as <- _.
      * apply bool_decide_eq_true in E. split; [by right|done].
      * apply bool_decide_eq_false in E. split; [done|]. intros [?|?]; [lia|done].
    + injection Hup as <- _. split; [by left|done].
  - destruct (array_update_result d data key value Hok Hk Hv) as [m1 H1]. rewrite H1 in Hup. injection Hup as <- _.
    apply bool_decide_eq_true.
Qed.

Lemma delete_result m key b m' :
  map_ok m -> sized (key_size (def m)) key -> delete m key = Done (b, m') -> (b = true <-> removable m key).
Proof.
  intros Hok Hk Hup. destruct m as [d data|d data]; cbn [def removable] in *.
  - unfold contents. cbn [def]. rewrite decide_True by done. unfold delete, sized in *. rewrite Hk, Z.eqb_refl in Hup. cbn [negb] in Hup.
    destruct (data !! key) eqn:E; injection Hup as <- _; by split.
  - destruct (array_delete_result d data key Hok Hk) as [m1 H1]. rewrite H1 in Hup. injection Hup as <- _.
    apply bool_decide_eq_true.
Qed.

(** C15: A map refines a finite map from keys to values: on a well-formed map,
    with a key and value of the declared sizes, [lookup] copies out exactly
    the value of the key; [update] succeeds exactly when there is room for the key (a hash
    map that is not full, or holds the key already; an entry number of an array), and
    then changes that key only and otherwise nothing; [delete] removes that key
    only, and answers whether a hash map held it or the array has such an entry; all of
    them keep the map within [max_entries] and its sizes. *)
Theorem bpf_map_refines_finite_map m key value out :
  map_ok m -> sized (key_size (def m)) key -> sized (value_size (def m)) value ->
  sized (value_size (def m)) out -> Forall u8 key -> Forall u8 value ->
  lookup m key out =
    match contents m key with Some v => Done (true, v) | None => Done (false, out) end /\
  (exists b m', update m key value = Done (b, m') /\ map_ok m' /\
     (b = true <-> has_room m key) /\ (b = false -> m' = m) /\
     (b = true -> forall k, Forall u8 k ->
        contents m' k = if decide (k = key) then Some value else contents m k)) /\
  (exists b m', delete m key = Done (b, m') /\ map_ok m' /\ (b = true <-> removable m key) /\
     forall k, Forall u8 k -> contents m' k = if decide (k = key) then None else contents m k).
Proof.
  intros Hok Hk Hv Ho Hu Huv. split_and!; [by apply lookup_contents| |].
  - destruct (update_ok m key value Hok Huv) as (b & m' & Hup & Hok' & _). exists b, m'.
    split; [done|]. split; [done|]. split; [exact (update_result m key value b m' Hok Hk Hv Hup)|]. split.
    + intros ->. unfold update in Hup.
      destruct m; repeat case_match; unfold mbind, outcome_bind in *; repeat case_match;
        by simplify_eq.
    + intros -> k Hk'. by apply contents_update.
  - destruct (delete_ok m key Hok Hk) as (b & m' & Hdel & Hok' & _). exists b, m'.
    split; [done|]. split; [done|]. split; [exact (delete_result m key b m' Hok Hk Hdel)|]. intros k Hk'. by eapply contents_delete.
Qed.

Lemma bpf_map_refines_finite_map_witness :
  exists m, create Array 4 2 3 = Some m /\
  lookup m [1; 0; 0; 0] [9; 9] = Done (false, [9; 9]) /\
  exists m', update m [1; 0; 0; 0] [7; 8] = Done (true, m') /\
             contents m' [1; 0; 0; 0] = Some [7; 8] /\ contents m' [2; 0; 0; 0] = None.
Proof.
  eexists. split; [reflexivity|].
  set (m := ArrayMap _ _).
  destruct (bpf_map_refines_finite_map m [1; 0; 0; 0] [7; 8] [9; 9]) as (Hl & (b & m' & Hu & _ & _ & _ & Hc) & _).
  - by apply (bpf_map_create_ok Array 4 2 3).
  - reflexivity.
  - reflexivity.
  - reflexivity.
  - repeat constructor; unfold u8; lia.
  - repeat constructor; unfold u8; lia.
  - split; [exact Hl|]. exists m'. assert (b = true) as -> by (vm_compute in Hu; congruence).
    split; [exact Hu|]. split; (rewrite Hc; [reflexivity|done|repeat constructor; unfold u8; lia]).
Defined.

End EbpfMapFacts.
