(* ===== verification/Ebpf.v ===== *)
(** * The eBPF interpreter and subsystem (framework/debug/ebpf.rs)

    Instructions, the interpreter loop, the helper functions, the table of maps
    and programs and the [sys_bpf] system call.  A register is a [u64] kept as
    a [Z]; memory is the kernel's address space, a byte per 64-bit address,
    through which the program's raw pointers read and write.  The time stamp
    counter and the processor number are parameters of the model ([rdtsc],
    [cpu_id]); a call to the trace helper is recorded in [traced].  An array
    index out of range is a [Panic].

    [step] is one turn of the [while] loop and [run] the loop with fuel. *)
From S2P Require Import Prelude Bytes EbpfMap.

Module Ebpf.
Import EbpfMap.

Definition BPF_MAX_INSNS : Z := 4096.
Definition BPF_MAX_MAPS : nat := Z.to_nat 1024.
Definition BPF_MAX_PROGS : nat := Z.to_nat 1024.
Definition BPF_STACK_SIZE : Z := 512.
Definition BPF_REG_NUM : nat := 11.

(** [opcode]: classes, sizes, modes, operations. *)
Definition LD : Z := 0.
Definition LDX : Z := 1.
Definition ST : Z := 2.
Definition STX : Z := 3.
Definition ALU : Z := 4.
Definition JMP : Z := 5.
Definition JMP32 : Z := 6.
Definition ALU64 : Z := 7.
Definition W : Z := 0.
Definition H : Z := 8.
Definition B : Z := 16.
Definition DW : Z := 24.
Definition IMM : Z := 0.
Definition ABS : Z := 32.
Definition IND : Z := 64.
Definition MEM : Z := 96.
Definition ADD : Z := 0.
Definition SUB : Z := 16.
Definition MUL : Z := 32.
Definition DIV : Z := 48.
Definition OR : Z := 64.
Definition AND : Z := 80.
Definition LSH : Z := 96.
Definition RSH : Z := 112.
Definition NEG : Z := 128.
Definition MOD : Z := 144.
Definition XOR : Z := 160.
Definition MOV : Z := 176.
Definition ARSH : Z := 192.
Definition END_ : Z := 208.
Definition JA : Z := 0.
Definition JEQ : Z := 16.
Definition JGT : Z := 32.
Definition JGE : Z := 48.
Definition JSET : Z := 64.
Definition JNE : Z := 80.
Definition JSGT : Z := 96.
Definition JSGE : Z := 112.
Definition CALL : Z := 128.
Definition EXIT : Z := 144.
Definition JLT : Z := 160.
Definition JLE : Z := 176.
Definition JSLT : Z := 192.
Definition JSLE : Z := 208.
Definition X : Z := 8.

Record BpfInsn : Type := mkInsn {
  op : Z;
  dst_reg : Z;
  off : Z;
  imm : Z;
}.

Definition insn_new (o dst src off' imm' : Z) : BpfInsn :=
  {| op := o; dst_reg := Z.lor (Z.land dst 15) (Z.shiftl (Z.land src 15) 4);
     off := off'; imm := imm' |}.

Definition dst (i : BpfInsn) : nat := Z.to_nat (Z.land (dst_reg i) 15).
Definition src (i : BpfInsn) : nat := Z.to_nat (Z.land (Z.shiftr (dst_reg i) 4) 15).
Definition class (i : BpfInsn) : Z := Z.land (op i) 7.
(** [insn.op & 0xf0]. *)
Definition op_low (i : BpfInsn) : Z := Z.land (op i) 240.
(** [(insn.op & opcode::X) != 0]. *)
Definition use_src (i : BpfInsn) : bool := negb (Z.land (op i) X =? 0).

Inductive BpfProgType : Type := SocketFilter | Kprobe | Tracepoint.

Definition prog_type_from_u32 (v : Z) : option BpfProgType :=
  if v =? 1 then Some SocketFilter else if v =? 2 then Some Kprobe
  else if v =? 3 then Some Tracepoint else None.

Record BpfProg : Type := mkProg {
  prog_type : BpfProgType;
  insns : list BpfInsn;
  insn_cnt : Z;
  prog_name : list Z;
  verified : bool;
  refcnt : Z;
}.

Definition prog_new (pt : BpfProgType) (l : list BpfInsn) : BpfProg :=
  {| prog_type := pt; insns := l; insn_cnt := wrap_u32 (Z.of_nat (length l));
     prog_name := replicate 16 0; verified := false; refcnt := 1 |}.

(** ** Memory *)
(** [ptr::read_unaligned] of an [n]-byte integer. *)
Definition load (m : memory) (a : Z) (n : nat) : Z := from_le_bytes (load_bytes m a n).

(** [ptr::write_unaligned] of the low [n] bytes of [v]. *)
Definition store (m : memory) (a : Z) (n : nat) (v : Z) : memory :=
  store_bytes m a (to_le_bytes n v).

Record machine : Type := mkMachine {
  regs : list Z;
  mem : memory;
  maps : gmap Z BpfMap;
  ticks : nat;
  traced : list Z;
}.

Definition eta_machine (s : machine) : machine :=
  mkMachine (regs s) (mem s) (maps s) (ticks s) (traced s).
Definition set_regs (v : list Z) (s : machine) : machine := ltac:(setter eta_machine regs v s).
Definition set_mem (v : memory) (s : machine) : machine := ltac:(setter eta_machine mem v s).
Definition set_maps (v : gmap Z BpfMap) (s : machine) : machine := ltac:(setter eta_machine maps v s).
Definition set_ticks (v : nat) (s : machine) : machine := ltac:(setter eta_machine ticks v s).
Definition set_traced (v : list Z) (s : machine) : machine := ltac:(setter eta_machine traced v s).

Definition get_reg (s : machine) (r : nat) : outcome Z :=
  match regs s !! r with Some v => Done v | None => Panic end.

Definition set_reg (s : machine) (r : nat) (v : Z) : outcome machine :=
  if (r <? length (regs s))%nat then Done (set_regs (<[r := v]> (regs s)) s) else Panic.

(** ** Arithmetic *)
Definition as_i64 (z : Z) : Z := if z <? 2 ^ 63 then z else z - 2 ^ 64.

(** [wrapping_shl] / [wrapping_shr] of a [u64] mask the shift to six bits. *)
Definition wrapping_shl (a n : Z) : Z := wrap_u64 (Z.shiftl a (Z.land n 63)).
Definition wrapping_shr (a n : Z) : Z := Z.shiftr a (Z.land n 63).

Definition alu_result (i : BpfInsn) (is_64 : bool) (d s : Z) : Z :=
  let o := op_low i in
  if o =? ADD then wrap_u64 (d + s)
  else if o =? SUB then wrap_u64 (d - s)
  else if o =? MUL then wrap_u64 (d * s)
  else if o =? DIV then (if s =? 0 then 0 else d / s)
  else if o =? OR then Z.lor d s
  else if o =? AND then Z.land d s
  else if o =? LSH then wrapping_shl d s
  else if o =? RSH then wrapping_shr d s
  else if o =? NEG then wrap_u64 (not_u64 d + 1)
  else if o =? MOD then (if s =? 0 then 0 else d mod s)
  else if o =? XOR then Z.lxor d s
  else if o =? MOV then s
  else if o =? ARSH then
    (if is_64 then wrap_u64 (Z.shiftr (as_i64 d) (Z.land s 63))
     else wrap_u64 (Z.shiftr (as_i32 d) (Z.land s 31)))
  else if o =? END_ then
    (if imm i =? 16 then wrap 16 d else if imm i =? 32 then wrap_u32 d else d)
  else d.

Definition exec_alu (i : BpfInsn) (s : machine) : outcome machine :=
  let is_64 := class i =? ALU64 in
  src_val ← (if use_src i then get_reg s (src i) else Done (wrap_u64 (imm i)));
  d ← get_reg s (dst i);
  let result := alu_result i is_64 d src_val in
  set_reg s (dst i) (if is_64 then result else wrap_u32 result).

(** [regs[src].wrapping_add(i64::from(insn.off) as u64)]. *)
Definition effective (base off' : Z) : Z := wrap_u64 (base + off').

Definition exec_ldx (i : BpfInsn) (s : machine) (n : nat) : outcome machine :=
  base ← get_reg s (src i);
  let addr := effective base (off i) in
  if addr =? 0 then Done s else set_reg s (dst i) (load (mem s) addr n).

Definition exec_ld (i : BpfInsn) (s : machine) : outcome machine :=
  let o := op i in
  if o =? Z.lor (Z.lor LD IMM) DW then
    set_reg s (dst i) (Z.lor (wrap_u32 (imm i)) (Z.shiftl (wrap_u32 (off i)) 32))
  else if o =? Z.lor (Z.lor LD ABS) W then set_reg s (dst i) 0
  else if o =? Z.lor (Z.lor LD IND) W then set_reg s (dst i) 0
  else if o =? Z.lor (Z.lor LDX MEM) W then exec_ldx i s 4
  else if o =? Z.lor (Z.lor LDX MEM) H then exec_ldx i s 2
  else if o =? Z.lor (Z.lor LDX MEM) B then exec_ldx i s 1
  else if o =? Z.lor (Z.lor LDX MEM) DW then exec_ldx i s 8
  else Done s.

(** [insn.op & 0x18] selects the size of a store. *)
Definition store_size (i : BpfInsn) : nat :=
  let z := Z.land (op i) 24 in
  if z =? W then 4 else if z =? H then 2 else if z =? B then 1 else 8.

Definition exec_st (i : BpfInsn) (s : machine) : outcome machine :=
  base ← get_reg s (dst i);
  let addr := effective base (off i) in
  if class i =? ST then
    if addr =? 0 then Done s
    else Done (set_mem (store (mem s) addr (store_size i) (wrap_u64 (imm i))) s)
  else if addr =? 0 then Done s
  else
    v ← get_reg s (src i);
    Done (set_mem (store (mem s) addr (store_size i) v) s).

Definition eval_cond64 (o d s : Z) : bool :=
  if o =? JEQ then d =? s else if o =? JGT then s <? d else if o =? JGE then s <=? d
  else if o =? JSET then negb (Z.land d s =? 0) else if o =? JNE then negb (d =? s)
  else if o =? JSGT then as_i64 s <? as_i64 d else if o =? JSGE then as_i64 s <=? as_i64 d
  else if o =? JLT then d <? s else if o =? JLE then d <=? s
  else if o =? JSLT then as_i64 d <? as_i64 s else if o =? JSLE then as_i64 d <=? as_i64 s
  else false.

Definition eval_cond32 (o d s : Z) : bool :=
  if o =? JEQ then d =? s else if o =? JGT then s <? d else if o =? JGE then s <=? d
  else if o =? JSET then negb (Z.land d s =? 0) else if o =? JNE then negb (d =? s)
  else if o =? JSGT then as_i32 s <? as_i32 d else if o =? JSGE then as_i32 s <=? as_i32 d
  else if o =? JLT then d <? s else if o =? JLE then d <=? s
  else if o =? JSLT then as_i32 d <? as_i32 s else if o =? JSLE then as_i32 d <=? as_i32 s
  else false.

(** ** Helper functions *)
Definition TRACE_PRINTK : Z := 6.
Definition KTIME_GET_NS : Z := 5.
Definition GET_SMP_PROCESSOR : Z := 8.
Definition MAP_LOOKUP_ELEM : Z := 1.
Definition MAP_UPDATE_ELEM : Z := 2.
Definition MAP_DELETE_ELEM : Z := 3.

Definition is_valid_helper (id : Z) : bool :=
  (id =? TRACE_PRINTK) || (id =? KTIME_GET_NS) || (id =? GET_SMP_PROCESSOR)
  || (id =? MAP_LOOKUP_ELEM) || (id =? MAP_UPDATE_ELEM) || (id =? MAP_DELETE_ELEM).

Section Machine.
Variable rdtsc : nat -> Z.
Variable cpu_id : nat -> Z.

Definition helper_execute (id r1 r2 r3 : Z) (s : machine) : outcome (Z * machine) :=
  let s := set_ticks (S (ticks s)) s in
  if id =? KTIME_GET_NS then Done (rdtsc (ticks s), s)
  else if id =? GET_SMP_PROCESSOR then Done (cpu_id (ticks s), s)
  else if id =? TRACE_PRINTK then Done (r2, set_traced (traced s ++ [r3]) s)
  else if id =? MAP_LOOKUP_ELEM then
    match maps s !! wrap_u32 r1 with
    | None => Done (0, s)
    | Some m =>
        let key := load_bytes (mem s) r2 (Z.to_nat (key_size (def m))) in
        '(found, _) ← lookup m key (replicate (Z.to_nat (value_size (def m))) 0);
        Done (if found : bool then 1 else 0, s)
    end
  else if id =? MAP_UPDATE_ELEM then
    match maps s !! wrap_u32 r1 with
    | None => Done (U64_MAX, s)
    | Some m =>
        let key := load_bytes (mem s) r2 (Z.to_nat (key_size (def m))) in
        let value := load_bytes (mem s) r3 (Z.to_nat (value_size (def m))) in
        '(ok, m') ← update m key value;
        Done (if ok : bool then 0 else U64_MAX, set_maps (<[wrap_u32 r1 := m']> (maps s)) s)
    end
  else if id =? MAP_DELETE_ELEM then
    match maps s !! wrap_u32 r1 with
    | None => Done (U64_MAX, s)
    | Some m =>
        let key := load_bytes (mem s) r2 (Z.to_nat (key_size (def m))) in
        '(ok, m') ← delete m key;
        Done (if ok : bool then 0 else U64_MAX, set_maps (<[wrap_u32 r1 := m']> (maps s)) s)
    end
  else Done (0, s).

(** [(pc as i64 + 1 + i64::from(insn.off)) as usize]. *)
Definition jump_target (pc : nat) (i : BpfInsn) : Z := wrap_u64 (Z.of_nat pc + 1 + off i).

(** [None] is EXIT. *)
Definition exec_jmp (i : BpfInsn) (s : machine) (pc : nat) : outcome (option Z * machine) :=
  let o := op_low i in
  if o =? JA then Done (Some (jump_target pc i), s)
  else if o =? EXIT then Done (None, s)
  else if o =? CALL then
    r1 ← get_reg s 1; r2 ← get_reg s 2; r3 ← get_reg s 3;
    r4 ← get_reg s 4; r5 ← get_reg s 5;
    '(r0, s) ← helper_execute (wrap_u32 (imm i)) r1 r2 r3 s;
    s ← set_reg s 0 r0;
    Done (Some (Z.of_nat pc + 1), s)
  else
    d ← get_reg s (dst i);
    v ← (if use_src i then get_reg s (src i) else Done (wrap_u64 (imm i)));
    let taken := if class i =? JMP32 then eval_cond32 o (wrap_u32 d) (wrap_u32 v)
                 else eval_cond64 o d v in
    if taken then Done (Some (jump_target pc i), s)
    else Done (Some (Z.of_nat pc + 1), s).

(** ** The loop *)
Inductive status : Type :=
  | Running (pc : Z) (s : machine)
  | Finished (s : machine).

(** One turn of [while pc < max_pc]. *)
Definition step (prog : BpfProg) (pc : Z) (s : machine) : outcome status :=
  if negb (pc <? insn_cnt prog) then Done (Finished s)
  else
    match insns prog !! Z.to_nat pc with
    | None => Panic
    | Some i =>
        let c := class i in
        if (c =? ALU) || (c =? ALU64) then
          s ← exec_alu i s; Done (Running (pc + 1) s)
        else if (c =? LD) || (c =? LDX) then
          s ← exec_ld i s; Done (Running (pc + 1) s)
        else if (c =? ST) || (c =? STX) then
          s ← exec_st i s; Done (Running (pc + 1) s)
        else if (c =? JMP) || (c =? JMP32) then
          '(next, s) ← exec_jmp i s (Z.to_nat pc);
          match next with
          | Some pc => Done (Running pc s)
          | None => Done (Finished s)
          end
        else Done (Finished s)
    end.

(** [None] when the fuel is used up before the program ends. *)
Fixpoint run_loop (fuel : nat) (prog : BpfProg) (pc : Z) (s : machine)
  : outcome (option (Z * machine)) :=
  match fuel with
  | O => Done None
  | S fuel =>
      st ← step prog pc s;
      match st with
      | Running pc s => run_loop fuel prog pc s
      | Finished s => r0 ← get_reg s 0; Done (Some (r0, s))
      end
  end.

(** The registers at entry; [ctx] and [stack] are the addresses of the context
    data and of the 512-byte stack array. *)
Definition initial (ctx stack : Z) (s : machine) : machine :=
  set_mem (store_bytes (mem s) stack (replicate (Z.to_nat BPF_STACK_SIZE) 0))
    (set_regs (<[10%nat := wrap_u64 (stack + BPF_STACK_SIZE)]>
                 (<[1%nat := ctx]> (replicate BPF_REG_NUM 0))) s).

Definition run (fuel : nat) (prog : BpfProg) (ctx stack : Z) (s : machine)
  : outcome (option (Z * machine)) :=
  run_loop fuel prog 0 (initial ctx stack s).

End Machine.
End Ebpf.
