(* ===== verification/EbpfVerifier.v ===== *)
(** * The eBPF verifier (services/debug/ebpf_verifier.rs)

    [StandardBpfVerifier::verify]: one pass over the instructions in program
    order, tracking a type and, for constants, a value per register.  The
    reason of a rejection is a constructor instead of the message bytes.

    The facts relate it to the interpreter of [Ebpf]: what an accepted program
    can never do, and what the pass, which does not follow the jumps, lets
    through. *)
From S2P Require Import Prelude Bytes EbpfMap Ebpf.

Module EbpfVerifier.
Import Ebpf.

Inductive RegType : Type := NotInit | Scalar | StackPtr | CtxPtr.

#[export] Instance RegType_eq_dec : EqDecision RegType.
Proof. solve_decision. Defined.

Record RegState : Type := mkReg {
  rtype : RegType;
  range : option (Z * Z);
}.

Definition reg_new : RegState := {| rtype := NotInit; range := None |}.
Definition reg_scalar : RegState := {| rtype := Scalar; range := None |}.
Definition reg_const_value (v : Z) : RegState := {| rtype := Scalar; range := Some (v, v) |}.
Definition reg_with_range (r : option (Z * Z)) : RegState := {| rtype := Scalar; range := r |}.

Inductive VerifyError : Type :=
  | EmptyProgram | TooLarge | NoExit | InvalidRegister | WriteToR10 | JumpOutOfBounds
  | TooManyBackwardJumps | UnknownHelper | HelperArg (r : nat) | Uninitialized (r : nat)
  | AluOverflow | LdOffset | StackLoadOffset | LdxNonPointer | StoreUninitialized
  | StoreInvalidPointer.

Inductive VerifyResult : Type :=
  | VOk
  | VErr (e : VerifyError).

Definition BPF_MAX_PATH_DEPTH : Z := 8.

Definition helper_min_args (id : Z) : nat :=
  if id =? MAP_UPDATE_ELEM then 3
  else if (id =? MAP_LOOKUP_ELEM) || (id =? MAP_DELETE_ELEM) then 2
  else if id =? TRACE_PRINTK then 1 else 0.

(** [checked_add] and the like: [None] on overflow of a [u64]. *)
Definition checked (z : Z) : option Z := if (0 <=? z) && (z <=? U64_MAX) then Some z else None.

(** [inl] is the [Err(())] of the source. *)
Definition alu_checked_range (o : Z) (dst_range src_range : option (Z * Z))
    (src_is_reg : bool) (immediate : Z) : unit + option (Z * Z) :=
  match dst_range with
  | None => inr None
  | Some (a0, a1) =>
      if negb (a0 =? a1) then inr None
      else
        let b :=
          if src_is_reg then
            match src_range with
            | None => None
            | Some (b0, b1) => if negb (b0 =? b1) then None else Some b0
            end
          else Some (wrap_u64 immediate) in
        match b with
        | None => inr None
        | Some b =>
            let v := if o =? ADD then Some (checked (a0 + b))
                     else if o =? SUB then Some (checked (a0 - b))
                     else if o =? MUL then Some (checked (a0 * b))
                     else None in
            match v with
            | None => inr None
            | Some None => inl ()
            | Some (Some v) => inr (Some (v, v))
            end
        end
  end.

(** The state the pass carries along. *)
Record vstate : Type := mkV {
  vregs : list RegState;
  path_depth : Z;
}.

Definition vget (st : vstate) (r : nat) : RegState := nth r (vregs st) reg_new.
Definition vset (st : vstate) (r : nat) (x : RegState) : vstate :=
  {| vregs := <[r := x]> (vregs st); path_depth := path_depth st |}.

Definition is_init (st : vstate) (r : nat) : bool :=
  negb (bool_decide (rtype (vget st r) = NotInit)).

(** The sum is [inl error] or [inr] of the next state. *)
Abbreviation check := (VerifyError + vstate)%type.

(** A target in range, and the count of the targets before [pc]. *)
Definition check_target (cnt : Z) (pc : nat) (i : BpfInsn) (st : vstate) : check :=
  let target := Z.of_nat pc + 1 + off i in
  if (target <? 0) || (cnt <=? wrap_u64 target) then inl JumpOutOfBounds
  else if target <? Z.of_nat pc then
    let d := path_depth st + 1 in
    if BPF_MAX_PATH_DEPTH <? d then inl TooManyBackwardJumps
    else inr {| vregs := vregs st; path_depth := d |}
  else inr st.

(** [for arg_reg in 1..=min_args]. *)
Fixpoint check_args (st : vstate) (rs : list nat) : option VerifyError :=
  match rs with
  | [] => None
  | r :: rs => if is_init st r then check_args st rs else Some (HelperArg r)
  end.

Definition check_call (i : BpfInsn) (st : vstate) : check :=
  let id := wrap_u32 (imm i) in
  if negb (is_valid_helper id) then inl UnknownHelper
  else if negb (is_init st 1) then inl (HelperArg 1)
  else match check_args st (seq 1 (helper_min_args id)) with
       | Some e => inl e
       | None => inr (vset st 1 reg_scalar)
       end.

Definition check_jmp (cnt : Z) (pc : nat) (i : BpfInsn) (st : vstate) : check :=
  let o := op_low i in
  if o =? JA then check_target cnt pc i st
  else if o =? CALL then check_call i st
  else if o =? EXIT then inr st
  else match check_target cnt pc i st with
       | inl e => inl e
       | inr st =>
           if use_src i && negb (is_init st (src i)) then inl (Uninitialized (src i))
           else if negb (is_init st (dst i)) then inl (Uninitialized (dst i))
           else inr st
       end.

Definition check_alu (i : BpfInsn) (st : vstate) : check :=
  if negb (is_init st (dst i)) then inl (Uninitialized (dst i))
  else if op_low i =? MOV then
    if use_src i then
      if negb (is_init st (src i)) then inl (Uninitialized (src i))
      else inr (vset st (dst i) (vget st (src i)))
    else inr (vset st (dst i) (reg_const_value (wrap_u64 (imm i))))
  else if class i =? ALU64 then
    if use_src i && negb (is_init st (src i)) then inl (Uninitialized (src i))
    else match alu_checked_range (op_low i) (range (vget st (dst i))) (range (vget st (src i)))
                 (use_src i) (imm i) with
         | inr r => inr (vset st (dst i) (reg_with_range r))
         | inl _ => inl AluOverflow
         end
  else inr (vset st (dst i) reg_scalar).

Definition check_ld (i : BpfInsn) (st : vstate) : check :=
  if (off i <? -4096) || (4096 <? off i) then inl LdOffset
  else inr (vset st (dst i) reg_scalar).

Definition check_ldx (i : BpfInsn) (st : vstate) : check :=
  if negb (is_init st (src i)) then inl (Uninitialized (src i))
  else match rtype (vget st (src i)) with
       | StackPtr =>
           if (off i <? - BPF_STACK_SIZE) || (0 <? off i) then inl StackLoadOffset
           else inr (vset st (dst i) reg_scalar)
       | CtxPtr => inr (vset st (dst i) reg_scalar)
       | _ => inl LdxNonPointer
       end.

Definition check_st (i : BpfInsn) (st : vstate) : check :=
  if negb (is_init st (dst i)) then inl StoreUninitialized
  else match rtype (vget st (dst i)) with
       | StackPtr | CtxPtr =>
           if (class i =? STX) && negb (is_init st (src i)) then inl (Uninitialized (src i))
           else inr st
       | _ => inl StoreInvalidPointer
       end.

(** The body of the loop for one instruction. *)
Definition check_insn (cnt : Z) (pc : nat) (i : BpfInsn) (st : vstate) : check :=
  if (BPF_REG_NUM <=? dst i)%nat || (BPF_REG_NUM <=? src i)%nat then inl InvalidRegister
  else if (dst i =? 10)%nat && ((class i =? ST) || (class i =? STX)) then inl WriteToR10
  else
    let c := class i in
    if (c =? JMP) || (c =? JMP32) then check_jmp cnt pc i st
    else if (c =? ALU) || (c =? ALU64) then check_alu i st
    else if c =? LD then check_ld i st
    else if c =? LDX then check_ldx i st
    else check_st i st.

(** The loop over the instructions, left at instruction 4096. *)
Fixpoint check_insns (cnt : Z) (pc : nat) (l : list BpfInsn) (st : vstate) : VerifyResult :=
  match l with
  | [] => VOk
  | i :: l =>
      if BPF_MAX_INSNS <=? Z.of_nat pc then VOk
      else match check_insn cnt pc i st with
           | inl e => VErr e
           | inr st => check_insns cnt (S pc) l st
           end
  end.

Definition initial_regs : list RegState :=
  <[10%nat := {| rtype := StackPtr; range := None |}]>
    (<[1%nat := {| rtype := CtxPtr; range := None |}]> (replicate BPF_REG_NUM reg_new)).

Definition verify (prog : BpfProg) : VerifyResult :=
  if insn_cnt prog =? 0 then VErr EmptyProgram
  else if BPF_MAX_INSNS <? insn_cnt prog then VErr TooLarge
  else
    let ends := match last (insns prog) with
                | Some i => op i =? Z.lor JMP EXIT
                | None => true
                end in
    if negb ends then VErr NoExit
    else check_insns (insn_cnt prog) 0 (insns prog) {| vregs := initial_regs; path_depth := 0 |}.

End EbpfVerifier.

(** ** Facts *)
Module EbpfVerifierFacts.
Import EbpfMap Ebpf EbpfVerifier EbpfMapFacts.

(** *** What acceptance says about each instruction *)

(** The static part of the checks of one instruction: registers that exist and
    a jump that stays inside the program. *)
Definition insn_ok (cnt : Z) (pc : nat) (i : BpfInsn) : Prop :=
  (dst i < BPF_REG_NUM)%nat /\ (src i < BPF_REG_NUM)%nat /\
  ((class i = JMP \/ class i = JMP32) -> op_low i <> CALL -> op_low i <> EXIT ->
   0 <= Z.of_nat pc + 1 + off i < cnt).

Lemma check_target_ok cnt pc i st st' :
  0 <= cnt <= U32_MAX -> -32768 <= off i <= 32767 -> Z.of_nat pc <= U32_MAX ->
  check_target cnt pc i st = inr st' -> 0 <= Z.of_nat pc + 1 + off i < cnt.
Proof.
  intros Hcnt Hoff Hpc. unfold check_target, U32_MAX in *.
  destruct (Z.ltb_spec (Z.of_nat pc + 1 + off i) 0); [done|]. cbn [orb].
  rewrite wrap_u64_small by (unfold u64, U64_MAX; lia).
  destruct (Z.leb_spec cnt (Z.of_nat pc + 1 + off i)); [done|]. lia.
Qed.

Lemma check_insn_ok cnt pc i st st' :
  0 <= cnt <= U32_MAX -> -32768 <= off i <= 32767 -> Z.of_nat pc <= U32_MAX ->
  check_insn cnt pc i st = inr st' -> insn_ok cnt pc i.
Proof.
  intros Hcnt Hoff Hpc. unfold check_insn.
  destruct (Nat.leb_spec BPF_REG_NUM (dst i)); [done|].
  destruct (Nat.leb_spec BPF_REG_NUM (src i)); [done|]. cbn [orb].
  destruct (_ && _); [done|]. intros Hc. split_and!; [done|done|].
  intros Hcls Hcall Hexit.
  assert (Hj : (class i =? JMP) || (class i =? JMP32) = true)
    by (destruct Hcls as [->| ->]; reflexivity).
  rewrite Hj in Hc. unfold check_jmp in Hc.
  destruct (Z.eqb_spec (op_low i) JA); [by eapply check_target_ok|].
  rewrite !(proj2 (Z.eqb_neq _ _)) in Hc by done.
  destruct (check_target cnt pc i st) eqn:E; [done|]. by eapply check_target_ok.
Qed.

(** Instructions as the decoder delivers them: [i16] offsets. *)
Definition insn_i16 (i : BpfInsn) : Prop := -32768 <= off i <= 32767.

Lemma check_insns_ok cnt pc l st k i :
  0 <= cnt <= U32_MAX -> Forall insn_i16 l -> Z.of_nat (pc + length l) <= BPF_MAX_INSNS ->
  check_insns cnt pc l st = VOk -> l !! k = Some i -> insn_ok cnt (pc + k) i.
Proof.
  intros Hcnt HF. revert pc st k. induction HF as [|j l Hj _ IH]; intros pc st k Hlen Hv Hk; [done|].
  cbn [check_insns length] in *. unfold BPF_MAX_INSNS in *.
  rewrite (proj2 (Z.leb_gt _ _)) in Hv by lia.
  destruct (check_insn cnt pc j st) as [e|st'] eqn:E; [done|].
  destruct k as [|k].
  - injection Hk as <-. rewrite Nat.add_0_r. eapply check_insn_ok; [done|done| |done].
    unfold U32_MAX. lia.
  - replace (pc + S k)%nat with (S pc + k)%nat by lia. eapply IH; [lia|done|done].
Qed.

(** A program as [prog_load] builds it. *)
Definition prog_ok (prog : BpfProg) : Prop :=
  insn_cnt prog = Z.of_nat (length (insns prog)) /\ Forall insn_i16 (insns prog).

Lemma verify_insn prog k i :
  prog_ok prog -> verify prog = VOk -> insns prog !! k = Some i ->
  insn_ok (insn_cnt prog) k i.
Proof.
  intros [Hcnt HF] Hv Hk. unfold verify in Hv.
  destruct (insn_cnt prog =? 0); [done|].
  destruct (Z.ltb_spec BPF_MAX_INSNS (insn_cnt prog)) as [|Hle]; [done|].
  destruct (negb _); [done|]. unfold BPF_MAX_INSNS, U32_MAX in *.
  eapply (check_insns_ok _ 0 _ _ k); [|done| |done|done]; unfold BPF_MAX_INSNS, U32_MAX; lia.
Qed.

Lemma verify_last prog :
  prog_ok prog -> verify prog = VOk ->
  exists i, insns prog !! (length (insns prog) - 1)%nat = Some i /\ op i = Z.lor JMP EXIT.
Proof.
  intros [Hcnt _] Hv. unfold verify in Hv.
  destruct (Z.eqb_spec (insn_cnt prog) 0) as [|Hne]; [done|].
  destruct (BPF_MAX_INSNS <? insn_cnt prog); [done|].
  rewrite last_lookup in Hv.
  destruct (lookup_lt_is_Some_2 (insns prog) (pred (length (insns prog)))) as [i Hi]; [lia|].
  rewrite Hi in Hv. destruct (Z.eqb_spec (op i) (Z.lor JMP EXIT)) as [Heq|]; [|done].
  exists i. split; [|done]. by replace (length (insns prog) - 1)%nat with
    (pred (length (insns prog))) by lia.
Qed.

(** *** Well-typed machines *)
Section Safety.
Context (rdtsc cpu_id : nat -> Z).
Hypothesis rdtsc_u64 : forall n, u64 (rdtsc n).
Hypothesis cpu_id_u64 : forall n, u64 (cpu_id n).


Definition maps_ok (ms : gmap Z BpfMap) : Prop :=
  map_Forall (fun _ m => map_ok m /\ 0 <= key_size (def m) /\ 0 <= value_size (def m)) ms.

Definition machine_ok (s : machine) : Prop :=
  length (regs s) = BPF_REG_NUM /\ Forall u64 (regs s) /\ store_ok (mem s) /\ maps_ok (maps s).

Lemma u32_u64 z : u32 z -> u64 z.
Proof. unfold u32, u64, U32_MAX, U64_MAX. lia. Qed.

Lemma u64_div d v : u64 d -> u64 v -> v <> 0 -> u64 (d / v).
Proof.
  unfold u64. intros Hd Hv Hne. split; [apply Z.div_pos; lia|].
  apply Z.le_trans with d; [apply Z.div_le_upper_bound; nia|lia].
Qed.

Lemma u64_mod d v : u64 v -> v <> 0 -> u64 (d mod v).
Proof. unfold u64. intros Hv Hne. pose proof (Z.mod_pos_bound d v). lia. Qed.

Lemma u64_shr d n : u64 d -> u64 (wrapping_shr d n).
Proof.
  unfold wrapping_shr, u64. intros Hd.
  assert (0 <= Z.land n 63) by (apply Z.land_nonneg; right; lia).
  rewrite Z.shiftr_div_pow2 by done.
  assert (0 < 2 ^ Z.land n 63) by (apply Z.pow_pos_nonneg; lia).
  split; [apply Z.div_pos; lia|]. apply Z.le_trans with d; [apply Z.div_le_upper_bound; nia|lia].
Qed.

Lemma u64_wrap16 d : u64 (wrap 16 d).
Proof. unfold wrap, u64, U64_MAX. pose proof (Z.mod_pos_bound d (2 ^ 16)). lia. Qed.

Lemma u64_zero : u64 0.
Proof. unfold u64, U64_MAX. lia. Qed.

Lemma u64_max : u64 U64_MAX.
Proof. unfold u64, U64_MAX. lia. Qed.

Hint Resolve u64_div u64_mod u64_shr u64_wrap16 u64_zero u64_max u32_u64 : kernel.

Lemma alu_result_u64 i b d v : u64 d -> u64 v -> u64 (alu_result i b d v).
Proof.
  intros Hd Hv. unfold alu_result, wrapping_shl.
  repeat match goal with |- u64 (if ?c then _ else _) => destruct c eqn:? end;
    auto with kernel; apply u64_div || apply u64_mod; try done; by apply Z.eqb_neq.
Qed.

Lemma get_reg_ok s r : machine_ok s -> (r < BPF_REG_NUM)%nat -> exists v, get_reg s r = Done v /\ u64 v.
Proof.
  intros (Hl & HF & _) Hr. unfold get_reg.
  destruct (lookup_lt_is_Some_2 (regs s) r) as [v Hv]; [lia|]. rewrite Hv.
  exists v. split; [done|]. by eapply Forall_lookup_1.
Qed.

Lemma set_reg_ok s r v :
  machine_ok s -> (r < BPF_REG_NUM)%nat -> u64 v ->
  exists s', set_reg s r v = Done s' /\ machine_ok s'.
Proof.
  intros (Hl & HF & Hm & Hms) Hr Hv. unfold set_reg.
  rewrite (proj2 (Nat.ltb_lt _ _)) by lia. eexists. split; [done|].
  split_and!; simpl; [by rewrite length_insert|by apply Forall_insert|done|done].
Qed.

Lemma load_u64 m a n : store_ok m -> (n <= 8)%nat -> u64 (load m a n).
Proof.
  intros Hm Hn. unfold load. pose proof (from_le_bytes_bound _ (load_bytes_u8 m a n Hm)) as H.
  rewrite length_load_bytes in H. unfold u64, U64_MAX.
  assert (2 ^ (8 * Z.of_nat n) <= 2 ^ 64) by (apply Z.pow_le_mono_r; lia). lia.
Qed.

Lemma exec_alu_ok i s :
  machine_ok s -> (dst i < BPF_REG_NUM)%nat -> (src i < BPF_REG_NUM)%nat ->
  exists s', exec_alu i s = Done s' /\ machine_ok s'.
Proof.
  intros Hs Hd Hsr. unfold exec_alu.
  assert (exists v, (if use_src i then get_reg s (src i) else Done (wrap_u64 (imm i))) = Done v
                    /\ u64 v) as (v & -> & Hv).
  { destruct (use_src i); [by apply get_reg_ok|]. eexists. split; [done|]. auto with kernel. }
  cbn [mbind outcome_bind]. destruct (get_reg_ok s (dst i) Hs Hd) as (d & -> & Hdu).
  cbn [mbind outcome_bind]. apply set_reg_ok; [done|done|].
  pose proof (alu_result_u64 i (class i =? ALU64) d v Hdu Hv).
  destruct (class i =? ALU64); auto with kernel.
Qed.

Lemma exec_ld_ok i s :
  machine_ok s -> (dst i < BPF_REG_NUM)%nat -> (src i < BPF_REG_NUM)%nat ->
  exists s', exec_ld i s = Done s' /\ machine_ok s'.
Proof.
  intros Hs Hd Hsr.
  assert (Hldx : forall n, (n <= 8)%nat -> exists s', exec_ldx i s n = Done s' /\ machine_ok s').
  { intros n Hn. unfold exec_ldx. destruct (get_reg_ok s (src i) Hs Hsr) as (b & -> & _).
    cbn [mbind outcome_bind]. case_match; [by exists s|]. apply set_reg_ok; [done|done|].
    apply load_u64; [by destruct Hs as (_ & _ & ? & _)|done]. }
  unfold exec_ld. repeat match goal with |- context [if ?c then _ else _] => destruct c end;
    try (apply Hldx; lia); try (apply set_reg_ok; [done|done|apply u64_zero]); [|by exists s].
  apply set_reg_ok; [done|done|]. pose proof (wrap_u32_range (imm i)).
  pose proof (wrap_u32_range (off i)) as Ho. unfold u32, U32_MAX in *.
  apply u64_lor; [auto with kernel|]. rewrite Z.shiftl_mul_pow2 by lia. unfold u64, U64_MAX. lia.
Qed.

Lemma exec_st_ok i s :
  machine_ok s -> (dst i < BPF_REG_NUM)%nat -> (src i < BPF_REG_NUM)%nat ->
  exists s', exec_st i s = Done s' /\ machine_ok s'.
Proof.
  intros Hs Hd Hsr. unfold exec_st. destruct (get_reg_ok s (dst i) Hs Hd) as (b & -> & _).
  cbn [mbind outcome_bind].
  assert (Hst : forall v, machine_ok (set_mem (store (mem s) (effective b (off i)) (store_size i) v) s)).
  { intros v. destruct Hs as (? & ? & ? & ?). split_and!; simpl; try done.
    apply store_bytes_ok; [done|apply to_le_bytes_u8]. }
  destruct (class i =? ST); case_match; try (by exists s); [by eexists|].
  destruct (get_reg_ok s (src i) Hs Hsr) as (v & -> & _). by eexists.
Qed.

Lemma set_maps_ok s k m :
  machine_ok s -> map_ok m -> 0 <= key_size (def m) -> 0 <= value_size (def m) ->
  machine_ok (set_maps (<[k := m]> (maps s)) s).
Proof.
  intros (? & ? & ? & ?) Hm Hk Hv. split_and!; simpl; try done. by apply map_Forall_insert_2.
Qed.

Lemma helper_ok id r1 r2 r3 s :
  machine_ok s -> u64 r2 ->
  exists r s', helper_execute rdtsc cpu_id id r1 r2 r3 s = Done (r, s') /\ u64 r /\ machine_ok s'.
Proof.
  intros Hs Hr2. unfold helper_execute. set (s1 := set_ticks (S (ticks s)) s).
  assert (Hs1 : machine_ok s1) by done. clearbody s1.
  destruct (id =? KTIME_GET_NS); [by eexists _, _|].
  destruct (id =? GET_SMP_PROCESSOR); [by eexists _, _|].
  destruct (id =? TRACE_PRINTK); [by eexists _, _|].
  assert (Hmaps : forall m, maps s1 !! wrap_u32 r1 = Some m ->
            map_ok m /\ 0 <= key_size (def m) /\ 0 <= value_size (def m)).
  { intros m Hm. destruct Hs1 as (_ & _ & _ & HM). by apply (HM _ _ Hm). }
  assert (Hu1 : u64 1) by (unfold u64, U64_MAX; lia).
  destruct (maps s1 !! wrap_u32 r1) as [m|] eqn:Em;
    [|repeat case_match; eexists _, _; auto with kernel].
  destruct (Hmaps m eq_refl) as (Hm & Hk & Hv).
  assert (Hkey : sized (key_size (def m)) (load_bytes (mem s1) r2 (Z.to_nat (key_size (def m)))))
    by (unfold sized; rewrite length_load_bytes; lia).
  destruct (id =? MAP_LOOKUP_ELEM).
  { rewrite lookup_contents by (done || (unfold sized; rewrite length_replicate; lia)).
    destruct (contents _ _); eexists _, _; auto with kernel. }
  destruct (id =? MAP_UPDATE_ELEM).
  { destruct (update_ok m (load_bytes (mem s1) r2 (Z.to_nat (key_size (def m))))
      (load_bytes (mem s1) r3 (Z.to_nat (value_size (def m)))) Hm) as (b & m' & -> & Hm' & Hdef);
      [apply load_bytes_u8; by destruct Hs1 as (_ & _ & ? & _)|].
    eexists _, _. split; [done|]. rewrite <- Hdef in Hk, Hv.
    split; [destruct b; auto with kernel|by apply set_maps_ok]. }
  destruct (id =? MAP_DELETE_ELEM); [|eexists _, _; auto with kernel].
  destruct (delete_ok m _ Hm Hkey) as (b & m' & -> & Hm' & Hdef).
  eexists _, _. split; [done|]. rewrite <- Hdef in Hk, Hv.
  split; [destruct b; auto with kernel|by apply set_maps_ok].
Qed.

Lemma exec_jmp_ok cnt i s pc :
  machine_ok s -> insn_ok cnt pc i -> class i = JMP \/ class i = JMP32 -> cnt <= BPF_MAX_INSNS ->
  exists next s', exec_jmp rdtsc cpu_id i s pc = Done (next, s') /\ machine_ok s' /\
    match next with
    | None => op_low i = EXIT
    | Some n => n = Z.of_nat pc + 1 /\ op_low i <> EXIT \/ 0 <= n < cnt
    end.
Proof.
  intros Hs (Hd & Hsr & Hj) Hc Hcnt. unfold exec_jmp.
  assert (Ht : op_low i <> CALL -> op_low i <> EXIT -> 0 <= jump_target pc i < cnt).
  { intros H1 H2. specialize (Hj Hc H1 H2). unfold jump_target.
    rewrite wrap_u64_small; [done|]. unfold u64, U64_MAX, BPF_MAX_INSNS in *. lia. }
  destruct (Z.eqb_spec (op_low i) JA) as [Hja|Hja].
  { eexists _, _. split; [done|]. split; [done|]. right. apply Ht; rewrite Hja; done. }
  destruct (Z.eqb_spec (op_low i) EXIT) as [He|He]; [by eexists _, _|].
  destruct (Z.eqb_spec (op_low i) CALL) as [Hcall|Hcall].
  - destruct (get_reg_ok s 1 Hs ltac:(unfold BPF_REG_NUM; lia)) as (r1 & -> & _).
    destruct (get_reg_ok s 2 Hs ltac:(unfold BPF_REG_NUM; lia)) as (r2 & -> & Hr2).
    destruct (get_reg_ok s 3 Hs ltac:(unfold BPF_REG_NUM; lia)) as (r3 & -> & _).
    destruct (get_reg_ok s 4 Hs ltac:(unfold BPF_REG_NUM; lia)) as (r4 & -> & _).
    destruct (get_reg_ok s 5 Hs ltac:(unfold BPF_REG_NUM; lia)) as (r5 & -> & _).
    cbn [mbind outcome_bind].
    destruct (helper_ok (wrap_u32 (imm i)) r1 r2 r3 s Hs Hr2) as (r0 & s1 & -> & Hr0 & Hs1).
    cbn [mbind outcome_bind].
    destruct (set_reg_ok s1 0 r0 Hs1 ltac:(unfold BPF_REG_NUM; lia) Hr0) as (s2 & -> & Hs2).
    eexists _, _. split; [done|]. split; [done|]. by left.
  - destruct (get_reg_ok s (dst i) Hs Hd) as (d & -> & _). cbn [mbind outcome_bind].
    assert (exists v, (if use_src i then get_reg s (src i) else Done (wrap_u64 (imm i))) = Done v)
      as [v ->].
    { destruct (use_src i); [|by eexists]. destruct (get_reg_ok s (src i) Hs Hsr) as (v & -> & _).
      by eexists. }
    cbn [mbind outcome_bind].
    match goal with |- context [if ?c then _ else _] => destruct c end;
      eexists _, _; (split; [done|]); (split; [done|]); [right; by apply Ht|by left].
Qed.

(** The states a program can reach from its entry. *)
Inductive reaches (prog : BpfProg) (s0 : machine) : Z -> machine -> Prop :=
  | reaches_start : reaches prog s0 0 s0
  | reaches_step pc s pc' s' :
      reaches prog s0 pc s -> step rdtsc cpu_id prog pc s = Done (Running pc' s') ->
      reaches prog s0 pc' s'.

(** Whether an instruction ends the program. *)
Definition is_exit (i : BpfInsn) : Prop :=
  (class i = JMP \/ class i = JMP32) /\ op_low i = EXIT.

Lemma class_cases i :
  0 <= class i < 8.
Proof.
  unfold class. change 7 with (Z.ones 3). rewrite Z.land_ones by lia.
  apply Z.mod_pos_bound. lia.
Qed.

Lemma exit_op_is_exit i : op i = Z.lor JMP EXIT -> is_exit i.
Proof. intros H. unfold is_exit, class, op_low. rewrite H. split; [by left|done]. Qed.

(** Progress and preservation for one step of an accepted program. *)
Lemma step_ok prog pc s :
  prog_ok prog -> verify prog = VOk -> machine_ok s -> 0 <= pc < insn_cnt prog ->
  exists st, step rdtsc cpu_id prog pc s = Done st /\
    match st with
    | Running pc' s' => machine_ok s' /\ 0 <= pc' < insn_cnt prog
    | Finished s' => machine_ok s' /\
        exists i, insns prog !! Z.to_nat pc = Some i /\ is_exit i
    end.
Proof.
  intros Hp Hv Hs Hpc. unfold step. rewrite (proj2 (Z.ltb_lt _ _)) by lia. cbn [negb].
  pose proof Hp as [Hcnt _].
  destruct (lookup_lt_is_Some_2 (insns prog) (Z.to_nat pc)) as [i Hi]; [lia|]. rewrite Hi.
  pose proof (verify_insn prog _ i Hp Hv Hi) as Hok. pose proof Hok as (Hd & Hsr & _).
  assert (Hle : insn_cnt prog <= BPF_MAX_INSNS).
  { unfold verify in Hv. destruct (insn_cnt prog =? 0); [done|].
    destruct (Z.ltb_spec BPF_MAX_INSNS (insn_cnt prog)); [done|lia]. }
  assert (Hnext : ~ is_exit i -> 0 <= pc + 1 < insn_cnt prog).
  { intros Hne. destruct (verify_last prog Hp Hv) as (j & Hj & Hop).
    destruct (decide (pc = insn_cnt prog - 1)) as [->|]; [|lia].
    rewrite Hcnt in Hi. replace (Z.to_nat (Z.of_nat (length (insns prog)) - 1))
      with (length (insns prog) - 1)%nat in Hi by lia.
    rewrite Hj in Hi. injection Hi as ->. by destruct Hne; apply exit_op_is_exit. }
  pose proof (class_cases i) as Hc. unfold is_exit in *.
  unfold ALU, ALU64, LD, LDX, ST, STX, JMP, JMP32 in *.
  destruct (Z.eqb_spec (class i) 4); [|destruct (Z.eqb_spec (class i) 7)]; cbn [orb].
  1-2: destruct (exec_alu_ok i s Hs Hd Hsr) as (s' & -> & Hs'); eexists; split; [done|];
       split; [done|]; apply Hnext; lia.
  destruct (Z.eqb_spec (class i) 0); [|destruct (Z.eqb_spec (class i) 1)]; cbn [orb].
  1-2: destruct (exec_ld_ok i s Hs Hd Hsr) as (s' & -> & Hs'); eexists; split; [done|];
       split; [done|]; apply Hnext; lia.
  destruct (Z.eqb_spec (class i) 2); [|destruct (Z.eqb_spec (class i) 3)]; cbn [orb].
  1-2: destruct (exec_st_ok i s Hs Hd Hsr) as (s' & -> & Hs'); eexists; split; [done|];
       split; [done|]; apply Hnext; lia.
  assert (Hj : class i = 5 \/ class i = 6) by lia.
  assert (Hjb : (class i =? 5) || (class i =? 6) = true)
    by (destruct Hj as [->| ->]; reflexivity).
  rewrite Hjb.
  destruct (exec_jmp_ok (insn_cnt prog) i s (Z.to_nat pc) Hs Hok Hj Hle)
    as ([nx|] & s' & -> & Hs' & Hn); cbn [mbind outcome_bind]; eexists; (split; [done|]).
  - split; [done|]. destruct Hn as [[-> He]|]; [|done].
    rewrite Z2Nat.id by lia. apply Hnext. naive_solver.
  - split; [done|]. by exists i.
Qed.

Lemma initial_ok ctx stack s : machine_ok s -> u64 ctx -> machine_ok (initial ctx stack s).
Proof.
  intros (_ & _ & Hm & Hms) Hc. unfold initial, set_mem, set_regs.
  split_and!; cbn [regs mem maps].
  - by rewrite !length_insert, length_replicate.
  - apply Forall_insert; [|auto with kernel]. apply Forall_insert; [|done].
    apply Forall_replicate, u64_zero.
  - apply store_bytes_ok; [done|]. apply Forall_replicate. unfold u8. lia.
  - done.
Qed.

(** C1: type safety of accepted programs: in every state a program accepted by
    the verifier reaches, the program counter points at one of its own
    instructions, all registers hold 64-bit values and the maps are intact;
    the next step never panics, and execution ends only at an EXIT. *)
Theorem verified_programs_are_safe prog ctx stack s0 pc s :
  prog_ok prog -> verify prog = VOk -> machine_ok s0 -> u64 ctx ->
  reaches prog (initial ctx stack s0) pc s ->
  0 <= pc < insn_cnt prog /\ machine_ok s /\
  exists st, step rdtsc cpu_id prog pc s = Done st /\
    match st with
    | Running pc' s' => 0 <= pc' < insn_cnt prog
    | Finished s' => exists i, insns prog !! Z.to_nat pc = Some i /\ is_exit i
    end.
Proof.
  intros Hp Hv Hs0 Hc Hr.
  assert (H : 0 <= pc < insn_cnt prog /\ machine_ok s).
  { induction Hr as [|pc s pc' s' _ IH Hstep].
    - split; [|by apply initial_ok]. destruct (verify_last prog) as (i & Hi & _); [done..|].
      apply lookup_lt_Some in Hi. destruct Hp as [-> _]. lia.
    - destruct IH as [Hpc Hs]. destruct (step_ok prog pc s Hp Hv Hs Hpc) as (st & Hst & H).
      rewrite Hstep in Hst. injection Hst as <-. naive_solver. }
  destruct H as [Hpc Hs]. split_and!; [lia..|done|].
  destruct (step_ok prog pc s Hp Hv Hs Hpc) as (st & Hst & H). exists st. split; [done|].
  destruct st; naive_solver.
Qed.

End Safety.

(** A program that reads the clock, branches and reads its stack. *)
Definition sample : BpfProg :=
  prog_new Kprobe
    [insn_new (Z.lor JMP CALL) 0 0 0 5; insn_new (Z.lor JMP JEQ) 1 0 1 0;
     insn_new (Z.lor (Z.lor LDX MEM) W) 2 10 (-4) 0; insn_new (Z.lor JMP EXIT) 0 0 0 0].

Definition empty_machine : machine := mkMachine (replicate BPF_REG_NUM 0) ∅ ∅ 0 [].

Lemma empty_machine_ok : machine_ok empty_machine.
Proof.
  split_and!; [done| |apply map_Forall_empty|apply map_Forall_empty].
  apply Forall_replicate, u64_zero.
Qed.

Lemma verified_programs_are_safe_witness :
  verify sample = VOk /\
  exists st, step (fun _ => 7) (fun _ => 0) sample 0 (initial 4096 8192 empty_machine) = Done st.
Proof.
  split; [vm_compute; reflexivity|].
  destruct (verified_programs_are_safe (fun _ => 7) (fun _ => 0)
    ltac:(intros; unfold u64, U64_MAX; lia) ltac:(intros; unfold u64, U64_MAX; lia)
    sample 4096 8192 empty_machine 0 (initial 4096 8192 empty_machine)) as (_ & _ & st & Hst & _).
  - split; [reflexivity|]. repeat constructor; unfold insn_i16; simpl; lia.
  - vm_compute. reflexivity.
  - apply empty_machine_ok.
  - unfold u64, U64_MAX. lia.
  - constructor.
  - exists st. exact Hst.
Defined.

(** *** What the linear pass lets through *)
Section Holes.
Context (rdtsc cpu_id : nat -> Z).

(** A jump to itself, which is not a jump to before itself. *)
Definition spin : BpfProg :=
  prog_new Kprobe [insn_new (Z.lor JMP JA) 0 0 (-1) 0; insn_new (Z.lor JMP EXIT) 0 0 0 0].

Lemma spin_step s : step rdtsc cpu_id spin 0 s = Done (Running 0 s).
Proof. reflexivity. Qed.

(** Acceptance does not mean termination: the verifier accepts a program
    whose first instruction jumps to itself, and the interpreter, which has no
    instruction budget, never finishes it whatever the fuel. *)
Theorem accepted_program_never_ends fuel ctx stack s :
  verify spin = VOk /\ run rdtsc cpu_id fuel spin ctx stack s = Done None.
Proof.
  split; [vm_compute; reflexivity|]. unfold run. generalize (initial ctx stack s).
  induction fuel as [|fuel IH]; intros s'; [done|].
  cbn [run_loop]. rewrite spin_step. cbn [mbind outcome_bind]. apply IH.
Qed.

(** R1 is loaded with an address, the copy of R10 into R1 is jumped over. *)
Definition poke (lo hi value : Z) : BpfProg :=
  prog_new Kprobe
    [insn_new (Z.lor (Z.lor LD IMM) DW) 1 0 hi lo;
     insn_new (Z.lor JMP JA) 0 0 1 0;
     insn_new (Z.lor (Z.lor ALU64 MOV) X) 1 10 0 0;
     insn_new (Z.lor (Z.lor ST MEM) W) 1 0 0 value;
     insn_new (Z.lor JMP EXIT) 0 0 0 0].

Lemma poke_accepted lo hi value : -4096 <= hi <= 4096 -> verify (poke lo hi value) = VOk.
Proof.
  intros Hhi. unfold verify.
  change (insn_cnt (poke lo hi value)) with 5. cbn [Z.eqb Z.ltb].
  change (BPF_MAX_INSNS <? 5) with false. cbn [negb].
  unfold poke, prog_new. cbn [insns]. cbn [last].
  change (op _ =? _) with true. cbn [negb check_insns].
  change (BPF_MAX_INSNS <=? Z.of_nat 0) with false. cbn [negb].
  unfold check_insn at 1.
  change (BPF_REG_NUM <=? dst (insn_new _ 1 0 hi lo))%nat with false.
  change (BPF_REG_NUM <=? src (insn_new _ 1 0 hi lo))%nat with false.
  cbn [orb]. change (dst (insn_new _ 1 0 hi lo) =? 10)%nat with false. cbn [andb].
  change (class (insn_new (Z.lor (Z.lor LD IMM) DW) 1 0 hi lo)) with LD.
  cbn -[check_ld check_insn Z.leb Z.of_nat]. unfold check_ld. cbn [off insn_new].
  rewrite (proj2 (Z.ltb_ge hi (-4096))), (proj2 (Z.ltb_ge 4096 hi)) by lia. cbn [orb].
  vm_compute. reflexivity.
Qed.

(** The address the two halves of the load make. *)
Definition poke_addr (lo hi : Z) : Z := wrap_u32 lo + wrap_u32 hi * 2 ^ 32.

Lemma poke_addr_u64 lo hi : u64 (poke_addr lo hi).
Proof.
  unfold poke_addr. pose proof (wrap_u32_range lo). pose proof (wrap_u32_range hi).
  unfold u32, u64, U32_MAX, U64_MAX in *. lia.
Qed.

Lemma poke_load lo hi value s :
  length (regs s) = BPF_REG_NUM ->
  step rdtsc cpu_id (poke lo hi value) 0 s
  = Done (Running 1 (set_regs (<[1%nat := poke_addr lo hi]> (regs s)) s)).
Proof.
  intros Hl. pose proof (wrap_u32_range lo). unfold u32, U32_MAX in *.
  unfold poke_addr. rewrite <- lor_shiftl_add by lia.
  transitivity (s' ← set_reg s 1 (Z.lor (wrap_u32 lo) (Z.shiftl (wrap_u32 hi) 32));
                Done (Running 1 s')); [reflexivity|].
  unfold set_reg. by rewrite Hl.
Qed.

Lemma poke_store lo hi value s :
  regs s !! 1%nat = Some (poke_addr lo hi) -> poke_addr lo hi <> 0 ->
  step rdtsc cpu_id (poke lo hi value) 3 s
  = Done (Running 4 (set_mem (store (mem s) (poke_addr lo hi) 4 (wrap_u64 value)) s)).
Proof.
  intros Hr Hne.
  transitivity (s' ← exec_st (insn_new (Z.lor (Z.lor ST MEM) W) 1 0 0 value) s;
                Done (Running 4 s')); [reflexivity|].
  unfold exec_st, get_reg. change (dst (insn_new _ 1 0 0 value)) with 1%nat. rewrite Hr.
  cbn [mbind outcome_bind]. change (off (insn_new _ 1 0 0 value)) with 0.
  unfold effective. rewrite Z.add_0_r, (wrap_u64_small _ (poke_addr_u64 lo hi)).
  change (class (insn_new _ 1 0 0 value) =? ST) with true.
  by rewrite (proj2 (Z.eqb_neq _ _)).
Qed.

(** Acceptance does not mean memory safety: for every address whose upper
    half is within 4096 of zero or of the top and every word, there is an
    accepted program that stores the word at the address, because the types
    are tracked along instructions that a jump skips. *)
Theorem accepted_program_writes_anywhere lo hi value ctx stack s :
  -4096 <= hi <= 4096 -> poke_addr lo hi <> 0 ->
  verify (poke lo hi value) = VOk /\
  exists s', run rdtsc cpu_id 4 (poke lo hi value) ctx stack s = Done (Some (0, s')) /\
    mem s' = store (mem (initial ctx stack s)) (poke_addr lo hi) 4 (wrap_u64 value).
Proof.
  intros Hhi Hne. split; [by apply poke_accepted|]. unfold run.
  assert (Hlen : length (regs (initial ctx stack s)) = BPF_REG_NUM) by reflexivity.
  assert (H0 : regs (initial ctx stack s) !! 0%nat = Some 0) by reflexivity.
  generalize dependent (initial ctx stack s). intros s0 Hlen H0. cbn [run_loop].
  rewrite poke_load by done. cbn [mbind outcome_bind].
  set (s1 := set_regs _ s0).
  assert (step rdtsc cpu_id (poke lo hi value) 1 s1 = Done (Running 3 s1)) as -> by reflexivity.
  cbn [mbind outcome_bind]. rewrite poke_store; [|simpl; by rewrite list_lookup_insert_eq by
    (rewrite Hlen; unfold BPF_REG_NUM; lia)|done].
  cbn [mbind outcome_bind]. set (s2 := set_mem _ s1).
  assert (step rdtsc cpu_id (poke lo hi value) 4 s2 = Done (Finished s2)) as -> by reflexivity.
  cbn [mbind outcome_bind]. unfold get_reg.
  assert (regs s2 !! 0%nat = Some 0) as -> by (simpl; by rewrite list_lookup_insert_ne).
  by eexists.
Qed.

(** A read at the address just above the stack. *)
Definition peek_above : BpfProg :=
  prog_new Kprobe [insn_new (Z.lor (Z.lor LDX MEM) DW) 0 10 0 0;
                   insn_new (Z.lor JMP EXIT) 0 0 0 0].

(** The stack bound ignores the access size: a program that loads eight
    bytes at offset 0 from the frame pointer is accepted and returns the eight
    bytes that follow the 512-byte stack in kernel memory. *)
Theorem accepted_program_reads_above_stack ctx stack s :
  0 < stack -> stack + BPF_STACK_SIZE <= U64_MAX ->
  verify peek_above = VOk /\
  exists s', run rdtsc cpu_id 2 peek_above ctx stack s =
    Done (Some (load (mem (initial ctx stack s)) (stack + BPF_STACK_SIZE) 8, s')).
Proof.
  intros Hst Htop. split; [vm_compute; reflexivity|]. unfold run.
  assert (H10 : regs (initial ctx stack s) !! 10%nat = Some (wrap_u64 (stack + BPF_STACK_SIZE)))
    by reflexivity.
  assert (Hlen : length (regs (initial ctx stack s)) = BPF_REG_NUM) by reflexivity.
  rewrite wrap_u64_small in H10 by (unfold u64, BPF_STACK_SIZE in *; lia).
  generalize dependent (initial ctx stack s). intros s0 H10 Hlen. cbn [run_loop].
  assert (step rdtsc cpu_id peek_above 0 s0 =
    Done (Running 1 (set_regs (<[0%nat := load (mem s0) (stack + BPF_STACK_SIZE) 8]> (regs s0)) s0)))
    as ->.
  { transitivity (s' ← exec_ldx (insn_new (Z.lor (Z.lor LDX MEM) DW) 0 10 0 0) s0 8;
                  Done (Running 1 s')); [reflexivity|].
    unfold exec_ldx, get_reg. change (src _) with 10%nat. rewrite H10. cbn [mbind outcome_bind].
    change (off _) with 0. unfold effective.
    rewrite Z.add_0_r, wrap_u64_small by (unfold u64, BPF_STACK_SIZE in *; lia).
    rewrite (proj2 (Z.eqb_neq _ _)) by (unfold BPF_STACK_SIZE; lia).
    unfold set_reg. by rewrite Hlen. }
  cbn [mbind outcome_bind]. set (s1 := set_regs _ s0).
  assert (step rdtsc cpu_id peek_above 1 s1 = Done (Finished s1)) as -> by reflexivity.
  cbn [mbind outcome_bind]. unfold get_reg.
  assert (regs s1 !! 0%nat = Some (load (mem s0) (stack + BPF_STACK_SIZE) 8)) as ->.
  { simpl. by rewrite list_lookup_insert_eq by (rewrite Hlen; unfold BPF_REG_NUM; lia). }
  by eexists.
Qed.

End Holes.

Lemma accepted_program_writes_anywhere_witness :
  verify (poke 2148532224 (-1) 195) = VOk /\
  exists s', run (fun _ => 0) (fun _ => 0) 4 (poke 2148532224 (-1) 195) 4096 8192 empty_machine
    = Done (Some (0, s')).
Proof.
  destruct (accepted_program_writes_anywhere (fun _ => 0) (fun _ => 0) 2148532224 (-1) 195
    4096 8192 empty_machine) as (H & s' & Hr & _); [lia|vm_compute; discriminate|].
  split; [exact H|]. exists s'. exact Hr.
Defined.

Lemma accepted_program_reads_above_stack_witness :
  exists s', run (fun _ => 0) (fun _ => 0) 2 peek_above 4096 8192 empty_machine =
    Done (Some (load (mem (initial 4096 8192 empty_machine)) 8704 8, s')).
Proof.
  apply (accepted_program_reads_above_stack (fun _ => 0) (fun _ => 0) 4096 8192 empty_machine);
    unfold BPF_STACK_SIZE, U64_MAX; lia.
Defined.

(** A program cannot initialise a register with a move: [check_alu] asks
    for an initialised destination before it looks at the operation, so every
    program that starts with [MOV] into a register other than R1 and R10, such
    as [R0 = 0; EXIT], is rejected. *)
Theorem initialising_move_rejected pt i l :
  class i = ALU \/ class i = ALU64 -> op_low i = MOV ->
  (dst i < BPF_REG_NUM)%nat -> (src i < BPF_REG_NUM)%nat -> dst i <> 1%nat -> dst i <> 10%nat ->
  Z.of_nat (length (i :: l)) <= BPF_MAX_INSNS ->
  (exists j, last (i :: l) = Some j /\ op j = Z.lor JMP EXIT) ->
  verify (prog_new pt (i :: l)) = VErr (Uninitialized (dst i)).
Proof.
  intros Hc Ho Hd Hs H1 H10 Hlen (j & Hj & Hop). unfold verify, prog_new.
  cbn [insn_cnt insns]. rewrite Hj, Hop, Z.eqb_refl.
  unfold BPF_MAX_INSNS in *.
  rewrite wrap_u32_small by (unfold u32, U32_MAX; lia).
  rewrite (proj2 (Z.eqb_neq _ _)) by (simpl; lia). rewrite (proj2 (Z.ltb_ge _ _)) by lia.
  cbn [negb check_insns]. change (BPF_MAX_INSNS <=? Z.of_nat 0) with false. cbv iota.
  unfold check_insn. rewrite !(proj2 (Nat.leb_gt _ _)) by done. cbn [orb].
  rewrite (proj2 (Nat.eqb_neq _ _)) by done. cbn [andb].
  assert ((class i =? JMP) || (class i =? JMP32) = false) as ->
    by (destruct Hc as [->| ->]; reflexivity).
  assert ((class i =? ALU) || (class i =? ALU64) = true) as ->
    by (destruct Hc as [->| ->]; reflexivity).
  unfold check_alu, is_init, vget. cbn [vregs]. unfold initial_regs.
  rewrite !nth_insert_ne by done. rewrite nth_lookup.
  destruct (replicate BPF_REG_NUM reg_new !! dst i) as [r|] eqn:E;
    [apply lookup_replicate in E as [-> _]|]; done.
Qed.

Lemma initialising_move_rejected_witness :
  verify (prog_new Kprobe [insn_new (Z.lor ALU64 MOV) 0 0 0 0; insn_new (Z.lor JMP EXIT) 0 0 0 0])
  = VErr (Uninitialized 0).
Proof.
  apply (initialising_move_rejected Kprobe (insn_new (Z.lor ALU64 MOV) 0 0 0 0)).
  - by right.
  - reflexivity.
  - vm_compute. lia.
  - vm_compute. lia.
  - vm_compute. lia.
  - vm_compute. lia.
  - vm_compute. discriminate.
  - eexists. split; reflexivity.
Defined.

End EbpfVerifierFacts.
