(* ===== verification/EbpfSubsys.v ===== *)
(** * The eBPF subsystem and its system call (framework/debug/ebpf.rs)

    [BpfSubsystem]: the tables of maps and programs by descriptor, the
    registered verifier, and [sys_bpf], which decodes the attribute block from
    memory.  A verifier is a trait object, here a record with its [verify]
    method.  A map is shared ([Arc]) between the table and the program that
    runs, so what the program does to it is what the table holds afterwards.

    User memory is total: every address can be read and written (the source
    dereferences the pointers it is given without a check), and the allocations of a
    new map succeed.

    The facts compose the pieces: only verified programs get a descriptor, so
    a program that runs is safe. *)
From S2P Require Import Prelude Bytes EbpfMap Ebpf EbpfVerifier.

Module EbpfSubsys.
Import EbpfMap Ebpf EbpfVerifier.

(** The trait [BpfVerifier]. *)
Record BpfVerifier : Type := mkVerifier { trait_verify : BpfProg -> VerifyResult }.

Definition STANDARD_VERIFIER : BpfVerifier := {| trait_verify := verify |}.

Record BpfSubsystem : Type := mkSubsys {
  sys_maps : gmap Z BpfMap;
  sys_progs : gmap Z BpfProg;
  next_map_fd : Z;
  next_prog_fd : Z;
  initialized : bool;
  sys_verifier : option BpfVerifier;
}.

Definition new : BpfSubsystem :=
  {| sys_maps := ∅; sys_progs := ∅; next_map_fd := 1; next_prog_fd := 1;
     initialized := false; sys_verifier := None |}.

Definition eta_subsys (s : BpfSubsystem) : BpfSubsystem :=
  mkSubsys (sys_maps s) (sys_progs s) (next_map_fd s) (next_prog_fd s) (initialized s)
    (sys_verifier s).
Definition set_sys_maps (v : gmap Z BpfMap) (s : BpfSubsystem) : BpfSubsystem :=
  ltac:(setter eta_subsys sys_maps v s).
Definition set_sys_progs (v : gmap Z BpfProg) (s : BpfSubsystem) : BpfSubsystem :=
  ltac:(setter eta_subsys sys_progs v s).
Definition set_next_map_fd (v : Z) (s : BpfSubsystem) : BpfSubsystem :=
  ltac:(setter eta_subsys next_map_fd v s).
Definition set_next_prog_fd (v : Z) (s : BpfSubsystem) : BpfSubsystem :=
  ltac:(setter eta_subsys next_prog_fd v s).
Definition set_initialized (v : bool) (s : BpfSubsystem) : BpfSubsystem :=
  ltac:(setter eta_subsys initialized v s).
Definition set_sys_verifier (v : option BpfVerifier) (s : BpfSubsystem) : BpfSubsystem :=
  ltac:(setter eta_subsys sys_verifier v s).

(** [debug_assert!(self.verifier().is_some())] takes the lock that [slot] still
    holds; it is compiled in when debug assertions are on. *)
Definition set_verifier (debug_assertions : bool) (v : BpfVerifier) (s : BpfSubsystem)
  : outcome BpfSubsystem :=
  if debug_assertions then Deadlock else Done (set_sys_verifier (Some v) s).

Definition init (s : BpfSubsystem) : BpfSubsystem :=
  if initialized s then s else set_initialized true s.

Definition EINVAL : Z := -22.
Definition EPERM : Z := -1.
Definition EBADF : Z := -9.
Definition ENOENT : Z := -2.
Definition EAGAIN : Z := -11.
Definition ENOSYS : Z := -38.

(** The descriptor is drawn before the table is seen to be full. *)
Definition map_create (mt : BpfMapType) (ks vs me : Z) (s : BpfSubsystem) : Z * BpfSubsystem :=
  match create mt ks vs me with
  | None => (EINVAL, s)
  | Some m =>
      let fd := next_map_fd s in
      let s := set_next_map_fd (wrap_u32 (fd + 1)) s in
      if (BPF_MAX_MAPS <=? size (sys_maps s))%nat then (EINVAL, s)
      else (fd, set_sys_maps (<[fd := m]> (sys_maps s)) s)
  end.

(** [prog.verified.store(true)]. *)
Definition mark_verified (p : BpfProg) : BpfProg :=
  {| prog_type := prog_type p; insns := insns p; insn_cnt := insn_cnt p;
     prog_name := prog_name p; verified := true; refcnt := refcnt p |}.

Definition prog_load (pt : BpfProgType) (l : list BpfInsn) (s : BpfSubsystem) : Z * BpfSubsystem :=
  let prog := prog_new pt l in
  match sys_verifier s with
  | None => (EPERM, s)
  | Some v =>
      match trait_verify v prog with
      | VErr _ => (EINVAL, s)
      | VOk =>
          let prog := mark_verified prog in
          let fd := next_prog_fd s in
          let s := set_next_prog_fd (wrap_u32 (fd + 1)) s in
          if (BPF_MAX_PROGS <=? size (sys_progs s))%nat then (EINVAL, s)
          else (fd, set_sys_progs (<[fd := prog]> (sys_progs s)) s)
      end
  end.

Definition map_lookup_elem (fd : Z) (key value_out : bytes) (s : BpfSubsystem)
  : outcome (Z * bytes) :=
  match sys_maps s !! fd with
  | None => Done (EBADF, value_out)
  | Some m => '(ok, out) ← lookup m key value_out; Done (if ok : bool then 0 else ENOENT, out)
  end.

Definition map_update_elem (fd : Z) (key value : bytes) (s : BpfSubsystem)
  : outcome (Z * BpfSubsystem) :=
  match sys_maps s !! fd with
  | None => Done (EBADF, s)
  | Some m =>
      '(ok, m') ← update m key value;
      Done (if ok : bool then 0 else EINVAL, set_sys_maps (<[fd := m']> (sys_maps s)) s)
  end.

Definition map_delete_elem (fd : Z) (key : bytes) (s : BpfSubsystem) : outcome (Z * BpfSubsystem) :=
  match sys_maps s !! fd with
  | None => Done (EBADF, s)
  | Some m =>
      '(ok, m') ← delete m key;
      Done (if ok : bool then 0 else ENOENT, set_sys_maps (<[fd := m']> (sys_maps s)) s)
  end.

Section Run.
Variable rdtsc : nat -> Z.
Variable cpu_id : nat -> Z.

(** Runs with fuel; [None] when the fuel is used up. *)
Definition prog_run (fuel : nat) (fd ctx stack : Z) (m : memory) (s : BpfSubsystem)
  : outcome (option (Z * memory * BpfSubsystem)) :=
  match sys_progs s !! fd with
  | None => Done (Some (EBADF, m, s))
  | Some p =>
      if negb (verified p) then Done (Some (EINVAL, m, s))
      else
        r ← run rdtsc cpu_id fuel p ctx stack (mkMachine [] m (sys_maps s) 0 []);
        match r with
        | None => Done None
        | Some (r0, ma) => Done (Some (as_i64 r0, mem ma, set_sys_maps (maps ma) s))
        end
  end.
End Run.

Definition get_map (fd : Z) (s : BpfSubsystem) : option BpfMap := sys_maps s !! fd.
Definition get_prog (fd : Z) (s : BpfSubsystem) : option BpfProg := sys_progs s !! fd.

(** ** [sys_bpf] *)
Definition as_i16 (z : Z) : Z := let u := z mod 65536 in if u <? 32768 then u else u - 65536.

(** A [BpfInsn] as it lies in memory ([repr(C)], eight bytes). *)
Definition insn_at (m : memory) (a : Z) : BpfInsn :=
  {| op := load m a 1; dst_reg := load m (a + 1) 1;
     off := as_i16 (load m (a + 2) 2); imm := as_i32 (load m (a + 4) 4) |}.

Definition insns_at (m : memory) (a : Z) (n : nat) : list BpfInsn :=
  (fun k => insn_at m (a + 8 * Z.of_nat k)) <$> seq 0 n.

Definition sys_map_create (attr sz : Z) (m : memory) (s : BpfSubsystem) : Z * BpfSubsystem :=
  if (sz <? 16) || (attr =? 0) then (EINVAL, s)
  else match map_type_from_u32 (load m attr 4) with
       | None => (EINVAL, s)
       | Some mt => map_create mt (load m (attr + 4) 4) (load m (attr + 8) 4)
                      (load m (attr + 12) 4) s
       end.

Definition sys_map_lookup (attr sz : Z) (m : memory) (s : BpfSubsystem) : outcome (Z * memory) :=
  if (sz <? 20) || (attr =? 0) then Done (EINVAL, m)
  else
    let map_fd := wrap_u32 (load m attr 8) in
    let key_ptr := load m (attr + 8) 8 in
    let val_ptr := load m (attr + 16) 8 in
    match sys_maps s !! map_fd with
    | None => Done (EBADF, m)
    | Some mp =>
        let key := load_bytes m key_ptr (Z.to_nat (key_size (def mp))) in
        '(result, value) ← map_lookup_elem map_fd key
                             (replicate (Z.to_nat (value_size (def mp))) 0) s;
        Done (result, if result =? 0 then store_bytes m val_ptr value else m)
    end.

Definition sys_map_update (attr sz : Z) (m : memory) (s : BpfSubsystem)
  : outcome (Z * BpfSubsystem) :=
  if (sz <? 28) || (attr =? 0) then Done (EINVAL, s)
  else
    let map_fd := wrap_u32 (load m attr 8) in
    let key_ptr := load m (attr + 8) 8 in
    let val_ptr := load m (attr + 16) 8 in
    match sys_maps s !! map_fd with
    | None => Done (EBADF, s)
    | Some mp =>
        map_update_elem map_fd (load_bytes m key_ptr (Z.to_nat (key_size (def mp))))
          (load_bytes m val_ptr (Z.to_nat (value_size (def mp)))) s
    end.

Definition sys_map_delete (attr sz : Z) (m : memory) (s : BpfSubsystem)
  : outcome (Z * BpfSubsystem) :=
  if (sz <? 12) || (attr =? 0) then Done (EINVAL, s)
  else
    let map_fd := wrap_u32 (load m attr 8) in
    let key_ptr := load m (attr + 8) 8 in
    match sys_maps s !! map_fd with
    | None => Done (EBADF, s)
    | Some mp => map_delete_elem map_fd (load_bytes m key_ptr (Z.to_nat (key_size (def mp)))) s
    end.

Definition sys_prog_load (attr sz : Z) (m : memory) (s : BpfSubsystem) : Z * BpfSubsystem :=
  if (sz <? 24) || (attr =? 0) then (EINVAL, s)
  else
    let pt := wrap_u32 (load m attr 8) in
    let cnt := wrap_u32 (Z.shiftr (load m attr 8) 32) in
    let insns_ptr := load m (attr + 8) 8 in
    match prog_type_from_u32 pt with
    | None => (EINVAL, s)
    | Some pt =>
        if (cnt =? 0) || (BPF_MAX_INSNS <? cnt) then (EINVAL, s)
        else prog_load pt (insns_at m insns_ptr (Z.to_nat cnt)) s
    end.

Definition sys_bpf (cmd attr sz : Z) (m : memory) (s : BpfSubsystem)
  : outcome (Z * memory * BpfSubsystem) :=
  if negb (initialized s) then Done (EAGAIN, m, s)
  else if cmd =? 0 then let '(r, s) := sys_map_create attr sz m s in Done (r, m, s)
  else if cmd =? 1 then '(r, m) ← sys_map_lookup attr sz m s; Done (r, m, s)
  else if cmd =? 2 then '(r, s) ← sys_map_update attr sz m s; Done (r, m, s)
  else if cmd =? 3 then '(r, s) ← sys_map_delete attr sz m s; Done (r, m, s)
  else if cmd =? 5 then let '(r, s) := sys_prog_load attr sz m s in Done (r, m, s)
  else Done (ENOSYS, m, s).

End EbpfSubsys.

(** ** Facts *)
Module EbpfSubsysFacts.
Import EbpfMap Ebpf EbpfVerifier EbpfSubsys EbpfMapFacts EbpfVerifierFacts.

(** The subsystem as the kernel starts it: the standard verifier, every loaded
    program verified, every map intact. *)
Definition subsys_ok (s : BpfSubsystem) : Prop :=
  sys_verifier s = Some STANDARD_VERIFIER /\ maps_ok (sys_maps s) /\
  map_Forall (fun _ p => prog_ok p /\ verified p = true /\ verify p = VOk) (sys_progs s).

Lemma verify_mark p : verify (mark_verified p) = verify p.
Proof. reflexivity. Qed.

Lemma as_i16_range z : -32768 <= as_i16 z <= 32767.
Proof.
  unfold as_i16. pose proof (Z.mod_pos_bound z 65536). cbv zeta. split_bool; lia.
Qed.

Lemma map_create_subsys mt ks vs me s r s' :
  subsys_ok s -> 0 <= ks -> 0 <= vs -> 0 <= me ->
  map_create mt ks vs me s = (r, s') -> subsys_ok s'.
Proof.
  intros (Hv & Hm & Hp) Hks Hvs Hme. unfold map_create.
  destruct (create mt ks vs me) as [m|] eqn:E; [|by intros [= <- <-]].
  case_match; intros [= <- <-]; [done|]. split_and!; [done| |done].
  apply map_Forall_insert_2; [|done].
  split; [by eapply bpf_map_create_ok|]. unfold create in E. case_match; [done|].
  destruct mt; injection E as <-; simpl; lia.
Qed.

Lemma prog_load_subsys pt l s r s' :
  subsys_ok s -> Forall insn_i16 l -> Z.of_nat (length l) <= BPF_MAX_INSNS ->
  prog_load pt l s = (r, s') -> subsys_ok s'.
Proof.
  intros (Hv & Hm & Hp) Hl Hlen. unfold prog_load. rewrite Hv. cbn [trait_verify STANDARD_VERIFIER].
  destruct (verify (prog_new pt l)) eqn:E; [|by intros [= <- <-]].
  case_match; intros [= <- <-]; [done|]. split_and!; [done|done|].
  apply map_Forall_insert_2; [|done]. split_and!; [|done|done].
  split; [|done]. cbn [mark_verified insn_cnt insns prog_new].
  rewrite wrap_u32_small; [done|]. unfold u32, U32_MAX, BPF_MAX_INSNS in *. lia.
Qed.

Lemma maps_ok_lookup ms fd m :
  maps_ok ms -> ms !! fd = Some m ->
  map_ok m /\ 0 <= key_size (def m) /\ 0 <= value_size (def m).
Proof. intros H Hm. by apply (H _ _ Hm). Qed.

Lemma maps_ok_insert ms fd m m' :
  maps_ok ms -> ms !! fd = Some m -> map_ok m' -> def m' = def m -> maps_ok (<[fd := m']> ms).
Proof.
  intros H Hm Hok Hdef. destruct (maps_ok_lookup _ _ _ H Hm) as (_ & ? & ?).
  apply map_Forall_insert_2; [|done]. by rewrite Hdef.
Qed.

Lemma sys_bpf_subsys cmd attr sz m s :
  subsys_ok s -> store_ok m ->
  exists r m' s', sys_bpf cmd attr sz m s = Done (r, m', s') /\ subsys_ok s' /\ store_ok m'.
Proof.
  intros Hs Hm. unfold sys_bpf. destruct (negb _); [by eexists _, _, _|].
  pose proof Hs as (Hv & Hms & Hp).
  assert (Hload : forall a n, (n <= 8)%nat -> 0 <= load m a n)
    by (intros a n Hn; by apply (load_u64 m a n Hm Hn)).
  destruct (cmd =? 0).
  { destruct (sys_map_create attr sz m s) as [r s'] eqn:E. eexists _, _, _.
    split_and!; [done| |done]. unfold sys_map_create in E. case_match; [by injection E as <- <-|].
    case_match; [|by injection E as <- <-].
    eapply map_create_subsys; [done| | | |exact E]; apply Hload; lia. }
  destruct (cmd =? 1).
  { unfold sys_map_lookup. case_match; [by eexists _, _, _|]. cbv zeta.
    destruct (sys_maps s !! _) as [mp|] eqn:Emp; [|by eexists _, _, _].
    destruct (maps_ok_lookup _ _ _ Hms Emp) as (Hmp & Hk & Hvs).
    unfold map_lookup_elem. rewrite Emp. rewrite lookup_contents;
      [|done|unfold sized; rewrite length_load_bytes; lia
       |unfold sized; rewrite length_replicate; lia].
    destruct (contents mp _) as [v|] eqn:Ec; cbn [mbind outcome_bind];
      eexists _, _, _; (split_and!; [done|done|]); [|done].
    cbn [Z.eqb]. apply store_bytes_ok; [done|]. by eapply contents_bytes. }
  destruct (cmd =? 2).
  { unfold sys_map_update. case_match; [by eexists _, _, _|]. cbv zeta.
    destruct (sys_maps s !! _) as [mp|] eqn:Emp; [|by eexists _, _, _].
    destruct (maps_ok_lookup _ _ _ Hms Emp) as (Hmp & Hk & Hvs).
    unfold map_update_elem. rewrite Emp.
    destruct (update_ok mp (load_bytes m (load m (attr + 8) 8) (Z.to_nat (key_size (def mp))))
      (load_bytes m (load m (attr + 16) 8) (Z.to_nat (value_size (def mp)))) Hmp)
      as (b & m' & -> & Hm' & Hdef); [by apply load_bytes_u8|].
    eexists _, _, _. split_and!; [done| |done]. split_and!; [done| |done].
    by eapply maps_ok_insert. }
  destruct (cmd =? 3).
  { unfold sys_map_delete. case_match; [by eexists _, _, _|]. cbv zeta.
    destruct (sys_maps s !! _) as [mp|] eqn:Emp; [|by eexists _, _, _].
    destruct (maps_ok_lookup _ _ _ Hms Emp) as (Hmp & Hk & Hvs).
    unfold map_delete_elem. rewrite Emp.
    destruct (delete_ok mp (load_bytes m (load m (attr + 8) 8) (Z.to_nat (key_size (def mp)))) Hmp)
      as (b & m' & -> & Hm' & Hdef); [unfold sized; rewrite length_load_bytes; lia|].
    eexists _, _, _. split_and!; [done| |done]. split_and!; [done| |done].
    by eapply maps_ok_insert. }
  destruct (cmd =? 5); [|by eexists _, _, _].
  destruct (sys_prog_load attr sz m s) as [r s'] eqn:E. eexists _, _, _.
  split_and!; [done| |done]. unfold sys_prog_load in E. case_match; [by injection E as <- <-|].
  destruct (prog_type_from_u32 _); [|by injection E as <- <-].
  destruct ((wrap_u32 _ =? 0) || _) eqn:Ec; [by injection E as <- <-|].
  apply orb_false_iff in Ec as [_ Ec%Z.ltb_ge].
  eapply prog_load_subsys; [done| | |exact E].
  - unfold insns_at. apply Forall_fmap, Forall_true. intros k. apply as_i16_range.
  - unfold insns_at. rewrite length_fmap, length_seq.
    pose proof (wrap_u32_range (Z.shiftr (load m attr 8) 32)) as Hr. unfold u32 in Hr. lia.
Qed.

Section Reach.
Context (rdtsc cpu_id : nat -> Z).
Hypothesis rdtsc_u64 : forall n, u64 (rdtsc n).
Hypothesis cpu_id_u64 : forall n, u64 (cpu_id n).

(** The fuelled run of an accepted program returns or runs on, never panics. *)
Lemma run_loop_safe fuel prog pc s :
  prog_ok prog -> verify prog = VOk -> machine_ok s -> 0 <= pc < insn_cnt prog ->
  exists r, run_loop rdtsc cpu_id fuel prog pc s = Done r /\
    match r with Some (r0, s') => u64 r0 /\ machine_ok s' | None => True end.
Proof.
  intros Hp Hv. revert pc s. induction fuel as [|fuel IH]; intros pc s Hs Hpc; [by exists None|].
  cbn [run_loop].
  destruct (step_ok rdtsc cpu_id rdtsc_u64 cpu_id_u64 prog pc s Hp Hv Hs Hpc)
    as ([pc' s'|s'] & -> & H); cbn [mbind outcome_bind].
  - apply IH; naive_solver.
  - destruct H as [Hs' _].
    destruct (get_reg_ok s' 0 Hs' ltac:(unfold BPF_REG_NUM; lia)) as (r0 & -> & Hr0).
    by eexists.
Qed.

Lemma verify_nonempty prog : prog_ok prog -> verify prog = VOk -> 0 < insn_cnt prog.
Proof.
  intros Hp Hv. destruct (verify_last prog Hp Hv) as (i & Hi & _).
  apply lookup_lt_Some in Hi. destruct Hp as [-> _]. lia.
Qed.

Lemma prog_run_safe fuel fd ctx stack m s :
  subsys_ok s -> store_ok m -> u64 ctx ->
  exists r, prog_run rdtsc cpu_id fuel fd ctx stack m s = Done r /\
    match r with Some (_, m', s') => store_ok m' /\ subsys_ok s' | None => True end.
Proof.
  intros Hs Hm Hc. pose proof Hs as (Hv & Hms & Hp). unfold prog_run.
  destruct (sys_progs s !! fd) as [p|] eqn:E; [|by eexists].
  destruct (Hp _ _ E) as (Hpok & Hver & Hvok). rewrite Hver. cbn [negb]. unfold run.
  pose proof (verify_nonempty p Hpok Hvok).
  destruct (run_loop_safe fuel p 0 (initial ctx stack (mkMachine [] m (sys_maps s) 0 [])))
    as ([[r0 ma]|] & -> & Hr); [done|done| |lia| |]; cbn [mbind outcome_bind].
  - unfold initial, set_mem, set_regs. split_and!; cbn [regs mem maps].
    + by rewrite !length_insert, length_replicate.
    + apply Forall_insert; [|auto with kernel]. apply Forall_insert; [|done].
      apply Forall_replicate, u64_zero.
    + apply store_bytes_ok; [done|]. apply Forall_replicate. unfold u8. lia.
    + done.
  - destruct Hr as (_ & _ & _ & Hm' & Hmaps). eexists. split; [done|]. split; [done|].
    by split_and!.
  - by eexists.
Qed.

(** What user space can do to the subsystem, one call after the other. *)
Inductive bpf_reachable : memory -> BpfSubsystem -> Prop :=
  | bpf_boot m s : store_ok m -> set_verifier false STANDARD_VERIFIER (init new) = Done s ->
      bpf_reachable m s
  | bpf_write m m' s : bpf_reachable m s -> store_ok m' -> bpf_reachable m' s
  | bpf_call cmd attr sz m s r m' s' :
      bpf_reachable m s -> sys_bpf cmd attr sz m s = Done (r, m', s') -> bpf_reachable m' s'
  | bpf_run fuel fd ctx stack m s r m' s' :
      bpf_reachable m s -> u64 ctx ->
      prog_run rdtsc cpu_id fuel fd ctx stack m s = Done (Some (r, m', s')) ->
      bpf_reachable m' s'.

Lemma bpf_reachable_ok m s : bpf_reachable m s -> subsys_ok s /\ store_ok m.
Proof.
  induction 1 as [m s Hm Hs|m m' s _ [IH _] Hm'|cmd attr sz m s r m' s' _ [IHs IHm] Hc
                 |fuel fd ctx stack m s r m' s' _ [IHs IHm] Hc Hr].
  - injection Hs as <-. split; [|done]. split_and!; [done|apply map_Forall_empty..].
  - done.
  - destruct (sys_bpf_subsys cmd attr sz m s IHs IHm) as (r1 & m1 & s1 & H & ? & ?).
    rewrite H in Hc. by injection Hc as <- <- <-.
  - destruct (prog_run_safe fuel fd ctx stack m s IHs IHm Hc) as (r1 & H & Hok).
    rewrite Hr in H. injection H as <-. naive_solver.
Qed.

(** The subsystem keeps its promise over any sequence of system calls,
    program runs and changes of user memory: neither [sys_bpf] nor a program
    run with any fuel ever panics, and every loaded program is one the
    verifier accepted. *)
Theorem bpf_subsystem_safe m s :
  bpf_reachable m s ->
  (forall cmd attr sz, exists r, sys_bpf cmd attr sz m s = Done r) /\
  (forall fuel fd ctx stack, u64 ctx ->
     exists r, prog_run rdtsc cpu_id fuel fd ctx stack m s = Done r) /\
  map_Forall (fun _ p => verified p = true /\ verify p = VOk) (sys_progs s).
Proof.
  intros [Hs Hm]%bpf_reachable_ok. split_and!.
  - intros cmd attr sz. destruct (sys_bpf_subsys cmd attr sz m s Hs Hm) as (? & ? & ? & -> & _).
    by eexists.
  - intros fuel fd ctx stack Hc.
    destruct (prog_run_safe fuel fd ctx stack m s Hs Hm Hc) as (? & -> & _). by eexists.
  - destruct Hs as (_ & _ & Hp). intros fd p E. by destruct (Hp _ _ E) as (_ & ? & ?).
Qed.

End Reach.

Lemma bpf_subsystem_safe_witness :
  exists s, set_verifier false STANDARD_VERIFIER (init new) = Done s /\
  exists r, sys_bpf 5 4096 24 ∅ s = Done r.
Proof.
  eexists. split; [reflexivity|].
  eapply (bpf_subsystem_safe (fun _ => 0) (fun _ => 0)).
  - intros _. unfold u64, U64_MAX. lia.
  - intros _. unfold u64, U64_MAX. lia.
  - apply bpf_boot; [apply map_Forall_empty|reflexivity].
Defined.

(** Registering a verifier in a build with debug assertions never returns. *)
Lemma set_verifier_debug_deadlocks v s : set_verifier true v s = Deadlock.
Proof. reflexivity. Qed.

End EbpfSubsysFacts.
