(* ===== verification/BlockDev.v ===== *)
(** * Block devices (framework/chitin/mod.rs and composite.rs, framework/driver/block.rs)

    [ChitinDevices] is the registry behind one spin lock.  A registered block
    device is a driver, behind the trait [BlockDevice] (here a class with the
    laws of a fault-free disk), or a [CompositeBlockDevice] that stripes or
    mirrors over other drives by calling the registry again.  An access of the
    registry while its lock is held is a [Deadlock].

    [SectorStore] is what the file system relies on: numbered drives of 512-byte
    sectors.  The registry implements it for drivers ([registry_store]).

    The facts: the striping is a bijection, mirrored writes are read back from
    whichever mirror answers, every access of a registered composite device
    deadlocks, and striping never looks at the list of its drives. *)
From S2P Require Import Prelude Bytes.

(** ** The drive interface *)
Class SectorStore (S : Type) : Type := {
  hdd_read : S -> nat -> Z -> Z * bytes * S;
  hdd_write : S -> nat -> Z -> bytes -> Z * S;
  (** what a sector holds, where the drive has it *)
  sector_at : S -> nat -> Z -> option bytes;
  hdd_read_ok s d n b : sector_at s d n = Some b ->
    exists s', hdd_read s d n = (0, b, s') /\ forall d' n', sector_at s' d' n' = sector_at s d' n';
  hdd_read_err s d n : sector_at s d n = None ->
    exists e b s', hdd_read s d n = (e, b, s') /\ e < 0 /\ forall d' n', sector_at s' d' n' = sector_at s d' n';
  hdd_write_ok s d n b0 b : sector_at s d n = Some b0 -> (512 <= length b)%nat ->
    exists s', hdd_write s d n b = (0, s') /\
      forall d' n', sector_at s' d' n' = if decide (d' = d /\ n' = n) then Some (take 512 b) else sector_at s d' n';
  hdd_write_err s d n b : sector_at s d n = None ->
    exists e s', hdd_write s d n b = (e, s') /\ e < 0 /\ forall d' n', sector_at s' d' n' = sector_at s d' n';
  sector_length s d n b : sector_at s d n = Some b -> length b = 512%nat;
}.

(** ** Drivers *)
Class BlockDevice (D : Type) : Type := {
  blk_read : D -> Z -> Z * bytes * D;
  blk_write : D -> Z -> bytes -> Z * D;
  blk_is_present : D -> bool;
  blk_total_sectors : D -> Z;
  blk_content : D -> Z -> option bytes;
  blk_read_ok d n b : blk_content d n = Some b ->
    exists d', blk_read d n = (0, b, d') /\ forall n', blk_content d' n' = blk_content d n';
  blk_read_err d n : blk_content d n = None ->
    exists e b d', blk_read d n = (e, b, d') /\ e < 0 /\ forall n', blk_content d' n' = blk_content d n';
  blk_write_ok d n b0 b : blk_content d n = Some b0 -> (512 <= length b)%nat ->
    exists d', blk_write d n b = (0, d') /\
      forall n', blk_content d' n' = if decide (n' = n) then Some (take 512 b) else blk_content d n';
  blk_write_err d n b : blk_content d n = None ->
    exists e d', blk_write d n b = (e, d') /\ e < 0 /\ forall n', blk_content d' n' = blk_content d n';
  blk_length d n b : blk_content d n = Some b -> length b = 512%nat;
}.

Module BlockDev.

(** [KernelError::as_i32]. *)
Definition EIO : Z := -5.
Definition EBUSY : Z := -16.
Definition EINVAL : Z := -22.
Definition ENOSYS : Z := -38.

Inductive ChitinProto : Type := PBlock | PChar | PNet | PInput | PBus | POther.
Inductive DeviceState : Type := Uninit | Probing | Ready | Failed | Removed.
Inductive CompositeType : Type := Raid0 | Raid1.

#[export] Instance ChitinProto_eq_dec : EqDecision ChitinProto.
Proof. solve_decision. Defined.
#[export] Instance DeviceState_eq_dec : EqDecision DeviceState.
Proof. solve_decision. Defined.

Definition MAX_COMPOSITE_CHILDREN : nat := 8.
Definition MIN_STRIPE_SIZE : Z := 512.

Record CompositeBlockDevice : Type := mkComposite {
  device_type : CompositeType;
  child_drives : list nat;
  child_count : Z;
  stripe_sectors : Z;
  total_sectors : Z;
  read_round_robin : Z;
}.

Definition set_round_robin (v : Z) (c : CompositeBlockDevice) : CompositeBlockDevice :=
  mkComposite (device_type c) (child_drives c) (child_count c) (stripe_sectors c) (total_sectors c) v.
Definition set_child_drives (v : list nat) (c : CompositeBlockDevice) : CompositeBlockDevice :=
  mkComposite (device_type c) v (child_count c) (stripe_sectors c) (total_sectors c) (read_round_robin c).

Definition map_raid0_sector (c : CompositeBlockDevice) (logical : Z) : Z * Z :=
  let stripe := logical / stripe_sectors c in
  let child_idx := wrap 8 (stripe mod child_count c) in
  let stripe_row := stripe / child_count c in
  let off := logical mod stripe_sectors c in
  (child_idx, wrap_u64 (stripe_row * stripe_sectors c + off)).

(** [CompositeBlockDevice::new], with the drives' sizes. *)
Fixpoint raid0_min (sectors : list Z) (stripe min_sectors : Z) : option Z :=
  match sectors with
  | [] => Some min_sectors
  | s :: sectors =>
      if s <? stripe then None
      else raid0_min sectors stripe (Z.min min_sectors (s / stripe * stripe))
  end.
Fixpoint raid1_min (sectors : list Z) (min_sectors : Z) : option Z :=
  match sectors with
  | [] => Some min_sectors
  | s :: sectors => if s =? 0 then None else raid1_min sectors (Z.min min_sectors s)
  end.

Definition composite_new (t : CompositeType) (drives : list nat) (sectors : nat -> Z) (stripe_size : Z)
  : option CompositeBlockDevice :=
  let n := length drives in
  if (n =? 0)%nat || (MAX_COMPOSITE_CHILDREN <? n)%nat then None
  else
    let stripe := (Z.max stripe_size MIN_STRIPE_SIZE + 511) / 512 in
    let mk total := mkComposite t (drives ++ replicate (MAX_COMPOSITE_CHILDREN - n) 0%nat) (Z.of_nat n)
                      stripe total 0 in
    match t with
    | Raid0 =>
        match raid0_min (sectors <$> drives) stripe U64_MAX with
        | None => None
        | Some m => if m * Z.of_nat n <=? U64_MAX then Some (mk (m * Z.of_nat n)) else None
        end
    | Raid1 => mk <$> raid1_min (sectors <$> drives) U64_MAX
    end.

(** ** Composite I/O over any way to reach the drives *)
Section Composite.
Context {R : Type}.
Context (rd : R -> nat -> Z -> outcome (Z * bytes * R)) (wr : R -> nat -> Z -> bytes -> outcome (Z * R)).

Fixpoint raid0_read (c : CompositeBlockDevice) (n : nat) (sector : Z) (r : R) (acc : bytes)
  : outcome (Z * bytes * R) :=
  match n with
  | O => Done (0, acc, r)
  | S n =>
      let '(drive_idx, phys) := map_raid0_sector c sector in
      x ← rd r (Z.to_nat drive_idx) phys;
      let '(ret, b, r) := x in
      if negb (ret =? 0) then Done (ret, acc, r) else raid0_read c n (sector + 1) r (acc ++ b)
  end.

(** The mirrors in the order tried, [k] of them left. *)
Fixpoint try_mirrors (c : CompositeBlockDevice) (k : nat) (start off sector : Z) (r : R)
  : outcome (option bytes * R) :=
  match k with
  | O => Done (None, r)
  | S k =>
      let idx := (start + off) mod child_count c in
      x ← rd r (nth (Z.to_nat idx) (child_drives c) 0%nat) sector;
      let '(ret, b, r) := x in
      if ret =? 0 then Done (Some b, r) else try_mirrors c k start (off + 1) sector r
  end.

Fixpoint raid1_read (c : CompositeBlockDevice) (n : nat) (sector : Z) (r : R) (acc : bytes)
  : outcome (Z * bytes * CompositeBlockDevice * R) :=
  match n with
  | O => Done (0, acc, c, r)
  | S n =>
      let start := read_round_robin c mod child_count c in
      let c := set_round_robin (wrap_u32 (read_round_robin c + 1)) c in
      x ← try_mirrors c (Z.to_nat (child_count c)) start 0 sector r;
      let '(found, r) := x in
      match found with
      | None => Done (EIO, acc, c, r)
      | Some b => raid1_read c n (sector + 1) r (acc ++ b)
      end
  end.

Definition composite_read (c : CompositeBlockDevice) (sector : Z) (len : nat) (r : R)
  : outcome (Z * bytes * CompositeBlockDevice * R) :=
  let num_sectors := (len / 512)%nat in
  if (num_sectors =? 0)%nat then Done (EINVAL, [], c, r)
  else if total_sectors c <? wrap_u64 (sector + Z.of_nat num_sectors) then Done (EINVAL, [], c, r)
  else match device_type c with
       | Raid0 =>
           x ← raid0_read c num_sectors sector r [];
           let '(ret, b, r) := x in Done (ret, b, c, r)
       | Raid1 => raid1_read c num_sectors sector r []
       end.

Fixpoint raid0_write (c : CompositeBlockDevice) (n : nat) (sector : Z) (buf : bytes) (r : R)
  : outcome (Z * R) :=
  match n with
  | O => Done (0, r)
  | S n =>
      let '(drive_idx, phys) := map_raid0_sector c sector in
      x ← wr r (Z.to_nat drive_idx) phys (take 512 buf);
      let '(ret, r) := x in
      if negb (ret =? 0) then Done (ret, r) else raid0_write c n (sector + 1) (drop 512 buf) r
  end.

Fixpoint write_mirrors (drives : list nat) (sector : Z) (chunk : bytes) (r : R) : outcome (Z * R) :=
  match drives with
  | [] => Done (0, r)
  | d :: drives =>
      x ← wr r d sector chunk;
      let '(ret, r) := x in
      if negb (ret =? 0) then Done (ret, r) else write_mirrors drives sector chunk r
  end.

Fixpoint raid1_write (c : CompositeBlockDevice) (n : nat) (sector : Z) (buf : bytes) (r : R)
  : outcome (Z * R) :=
  match n with
  | O => Done (0, r)
  | S n =>
      x ← write_mirrors (take (Z.to_nat (child_count c)) (child_drives c)) sector (take 512 buf) r;
      let '(ret, r) := x in
      if negb (ret =? 0) then Done (ret, r) else raid1_write c n (sector + 1) (drop 512 buf) r
  end.

Definition composite_write (c : CompositeBlockDevice) (sector : Z) (buf : bytes) (r : R)
  : outcome (Z * R) :=
  let num_sectors := (length buf / 512)%nat in
  if (num_sectors =? 0)%nat then Done (EINVAL, r)
  else if total_sectors c <? wrap_u64 (sector + Z.of_nat num_sectors) then Done (EINVAL, r)
  else match device_type c with
       | Raid0 => raid0_write c num_sectors sector buf r
       | Raid1 => raid1_write c num_sectors sector buf r
       end.
End Composite.

(** ** The registry *)

(** A registry in which every block device is a driver. *)
Abbreviation drivers D := (list (ChitinProto * DeviceState * option D)).

Section Registry.
Context {D : Type} `{BlockDevice D}.

(** [&'static mut dyn BlockDevice]. *)
Inductive BlockObject : Type := Driver (d : D) | Composite (c : CompositeBlockDevice).

Record ChitinDevice : Type := mkDevice {
  proto : ChitinProto;
  state : DeviceState;
  block_dev : option BlockObject;
}.

(** The vector and whether its lock is held. *)
Record ChitinDevices : Type := mkDevices { devices : list ChitinDevice; locked : bool }.

Definition set_block_dev (b : BlockObject) (d : ChitinDevice) : ChitinDevice :=
  mkDevice (proto d) (state d) (Some b).

(** [CHITIN_DEVICES.lock()]. *)
Definition lock (r : ChitinDevices) : outcome ChitinDevices :=
  if locked r then Deadlock else Done (mkDevices (devices r) true).
Definition unlock (r : ChitinDevices) : ChitinDevices := mkDevices (devices r) false.
Definition put (r : ChitinDevices) (i : nat) (dev : ChitinDevice) (b : BlockObject) : ChitinDevices :=
  mkDevices (<[i := set_block_dev b dev]> (devices r)) (locked r).

(** [depth] bounds how deep composite devices are nested: a composite device
    reads its drives through the registry again. *)
Fixpoint chitin_blk_read (depth drive : nat) (sector : Z) (len : nat) (r : ChitinDevices)
  : outcome (Z * bytes * ChitinDevices) :=
  if (len <? 512)%nat then Done (EINVAL, [], r)
  else
    r ← lock r;
    match devices r !! drive with
    | None => Done (EIO, [], unlock r)
    | Some dev =>
        if negb (bool_decide (proto dev = PBlock)) then Done (EIO, [], unlock r)
        else if negb (bool_decide (state dev = Ready)) then Done (EBUSY, [], unlock r)
        else match block_dev dev with
             | None => Done (ENOSYS, [], unlock r)
             | Some (Driver d) =>
                 let '(ret, b, d) := blk_read d sector in
                 Done (ret, b, unlock (put r drive dev (Driver d)))
             | Some (Composite c) =>
                 match depth with
                 | O => Panic
                 | S depth =>
                     x ← composite_read (fun r drive sector => chitin_blk_read depth drive sector 512 r)
                           c sector len r;
                     let '(ret, b, c, r) := x in
                     Done (ret, b, unlock (put r drive dev (Composite c)))
                 end
             end
    end.

Fixpoint chitin_blk_write (depth drive : nat) (sector : Z) (buf : bytes) (r : ChitinDevices)
  : outcome (Z * ChitinDevices) :=
  if (length buf <? 512)%nat then Done (EINVAL, r)
  else
    r ← lock r;
    match devices r !! drive with
    | None => Done (EIO, unlock r)
    | Some dev =>
        if negb (bool_decide (proto dev = PBlock)) then Done (EIO, unlock r)
        else if negb (bool_decide (state dev = Ready)) then Done (EBUSY, unlock r)
        else match block_dev dev with
             | None => Done (ENOSYS, unlock r)
             | Some (Driver d) =>
                 let '(ret, d) := blk_write d sector buf in
                 Done (ret, unlock (put r drive dev (Driver d)))
             | Some (Composite c) =>
                 match depth with
                 | O => Panic
                 | S depth =>
                     x ← composite_write (fun r drive sector chunk => chitin_blk_write depth drive sector chunk r)
                           c sector buf r;
                     let '(ret, r) := x in
                     Done (ret, unlock (put r drive dev (Composite c)))
                 end
             end
    end.

Definition chitin_blk_total_sectors (drive : nat) (r : ChitinDevices) : Z :=
  match devices r !! drive with
  | None => 0
  | Some dev =>
      if negb (bool_decide (proto dev = PBlock)) then 0
      else match block_dev dev with
           | None => 0
           | Some (Driver d) => blk_total_sectors d
           | Some (Composite c) => total_sectors c
           end
  end.

Definition registry (l : drivers D) : ChitinDevices :=
  mkDevices ((fun x => mkDevice x.1.1 x.1.2 (Driver <$> x.2)) <$> l) false.
Definition driver_of (dev : ChitinDevice) : ChitinProto * DeviceState * option D :=
  (proto dev, state dev, match block_dev dev with Some (Driver d) => Some d | _ => None end).

(** [block::hdd_read_sector] and [block::hdd_write_sector]. *)
Definition hdd_read_sector (l : drivers D) (drive : nat) (sector : Z) : Z * bytes * drivers D :=
  match chitin_blk_read 0 drive sector 512 (registry l) with
  | Done (ret, b, r) => (ret, b, driver_of <$> devices r)
  | _ => (EIO, [], l)
  end.
Definition hdd_write_sector (l : drivers D) (drive : nat) (sector : Z) (buf : bytes) : Z * drivers D :=
  match chitin_blk_write 0 drive sector buf (registry l) with
  | Done (ret, r) => (ret, driver_of <$> devices r)
  | _ => (EIO, l)
  end.
End Registry.

Arguments BlockObject : clear implicits.
Arguments ChitinDevice : clear implicits.
Arguments ChitinDevices : clear implicits.

End BlockDev.

Module BlockDevFacts.
Import BlockDev.

(** *** The registry implements the drive interface *)
Section Store.
Context {D : Type} `{BlockDevice D}.

Definition content_at (l : drivers D) (d : nat) (n : Z) : option bytes :=
  match l !! d with
  | Some (PBlock, Ready, Some dv) => blk_content dv n
  | _ => None
  end.

Lemma drivers_registry (l : drivers D) : driver_of <$> devices (registry l) = l.
Proof.
  unfold registry. simpl. rewrite <- list_fmap_compose. rewrite <- (list_fmap_id l) at 2.
  apply list_fmap_ext. intros _ [[p s] [d|]] _; done.
Qed.

Lemma registry_put (l : drivers D) i p s d :
  driver_of <$> (<[i := mkDevice p s (Some (Driver d))]> (devices (registry l))) = <[i := (p, s, Some d)]> l.
Proof. by rewrite list_fmap_insert, drivers_registry. Qed.

Lemma lock_registry (l : drivers D) : lock (registry l) = Done (mkDevices (devices (registry l)) true).
Proof. done. Qed.

Lemma registry_lookup (l : drivers D) d :
  devices (registry l) !! d = (fun x => mkDevice x.1.1 x.1.2 (Driver <$> x.2)) <$> l !! d.
Proof. unfold registry. cbn [devices]. by rewrite list_lookup_fmap. Qed.

(** What the two calls do on a registry of drivers. *)
Lemma hdd_read_eq (l : drivers D) d n :
  hdd_read_sector l d n
  = match l !! d with
    | None => (EIO, [], l)
    | Some (p, s, o) =>
        if decide (p = PBlock) then
          if decide (s = Ready) then
            match o with
            | None => (ENOSYS, [], l)
            | Some dv => let '(ret, b, dv') := blk_read dv n in (ret, b, <[d := (p, s, Some dv')]> l)
            end
          else (EBUSY, [], l)
        else (EIO, [], l)
    end.
Proof.
  unfold hdd_read_sector. cbn [chitin_blk_read]. change (512 <? 512)%nat with false. cbn match.
  rewrite lock_registry. cbn [mbind outcome_bind].
  change (devices (mkDevices (devices (registry l)) true)) with (devices (registry l)).
  rewrite registry_lookup. pose proof (drivers_registry l) as Hreg. pose proof (registry_put l) as Hput.
  revert Hreg Hput. generalize (devices (registry l)). intros R Hreg Hput.
  destruct (l !! d) as [[[p s] o]|]; cbn; [|by rewrite Hreg].
  destruct (decide (p = PBlock)) as [Hp|Hp];
    [rewrite bool_decide_true by done|rewrite bool_decide_false by done; cbn; by rewrite Hreg].
  destruct (decide (s = Ready)) as [Hs|Hs];
    [rewrite bool_decide_true by done|rewrite bool_decide_false by done; cbn; by rewrite Hreg].
  destruct o as [dv|]; cbn match; cbn [fmap option_fmap option_map]; [|cbn; by rewrite Hreg].
  destruct (blk_read dv n) as [[ret b] dv']. cbn [negb unlock put devices set_block_dev proto state].
  by rewrite <- (Hput d p s dv').
Qed.

Lemma hdd_write_eq (l : drivers D) d n buf :
  hdd_write_sector l d n buf
  = if decide (512 <= length buf)%nat then
      match l !! d with
      | None => (EIO, l)
      | Some (p, s, o) =>
          if decide (p = PBlock) then
            if decide (s = Ready) then
              match o with
              | None => (ENOSYS, l)
              | Some dv => let '(ret, dv') := blk_write dv n buf in (ret, <[d := (p, s, Some dv')]> l)
              end
            else (EBUSY, l)
          else (EIO, l)
      end
    else (EINVAL, l).
Proof.
  unfold hdd_write_sector. cbn [chitin_blk_write]. destruct (decide (512 <= length buf)%nat) as [Hb|Hb].
  2:{ rewrite (proj2 (Nat.ltb_lt _ _)) by lia. by rewrite drivers_registry. }
  rewrite (proj2 (Nat.ltb_ge _ _)) by done. cbn match.
  rewrite lock_registry. cbn [mbind outcome_bind].
  change (devices (mkDevices (devices (registry l)) true)) with (devices (registry l)).
  rewrite registry_lookup. pose proof (drivers_registry l) as Hreg. pose proof (registry_put l) as Hput.
  revert Hreg Hput. generalize (devices (registry l)). intros R Hreg Hput.
  destruct (l !! d) as [[[p s] o]|]; cbn; [|by rewrite Hreg].
  destruct (decide (p = PBlock)) as [Hp|Hp];
    [rewrite bool_decide_true by done|rewrite bool_decide_false by done; cbn; by rewrite Hreg].
  destruct (decide (s = Ready)) as [Hs|Hs];
    [rewrite bool_decide_true by done|rewrite bool_decide_false by done; cbn; by rewrite Hreg].
  destruct o as [dv|]; cbn match; cbn [fmap option_fmap option_map]; [|cbn; by rewrite Hreg].
  destruct (blk_write dv n buf) as [ret dv']. cbn [negb unlock put devices set_block_dev proto state].
  by rewrite <- (Hput d p s dv').
Qed.

Lemma content_insert (l : drivers D) i x dv d n :
  l !! i = Some x -> content_at (<[i := (PBlock, Ready, Some dv)]> l) d n
                     = if decide (d = i) then blk_content dv n else content_at l d n.
Proof.
  intros Hi. unfold content_at. case_decide as Hd.
  - subst. by rewrite list_lookup_insert_eq by by eapply lookup_lt_Some.
  - by rewrite list_lookup_insert_ne.
Qed.

Lemma content_Some (l : drivers D) d n b :
  content_at l d n = Some b -> exists dv, l !! d = Some (PBlock, Ready, Some dv) /\ blk_content dv n = Some b.
Proof. unfold content_at. destruct (l !! d) as [[[[] []] [dv|]]|]; try done. eauto. Qed.

Lemma content_at_eq (l : drivers D) d n dv :
  l !! d = Some (PBlock, Ready, Some dv) -> content_at l d n = blk_content dv n.
Proof. unfold content_at. by intros ->. Qed.

#[export] Program Instance registry_store : SectorStore (drivers D) := {|
  hdd_read := hdd_read_sector;
  hdd_write := hdd_write_sector;
  sector_at := content_at;
|}.
Next Obligation.
  intros l d n b (dv & Hd & Hc)%content_Some. rewrite hdd_read_eq, Hd. cbn.
  destruct (blk_read_ok dv n b Hc) as (dv' & -> & Hc'). eexists. split; [done|].
  intros d' n'. rewrite (content_insert l d _ dv') by done. case_decide; [|done]. subst.
  by rewrite Hc', (content_at_eq _ _ _ _ Hd).
Qed.
Next Obligation.
  intros l d n Hc. rewrite hdd_read_eq. destruct (l !! d) as [[[p s] o]|] eqn:Hd; [|by eexists _, _, _].
  destruct (decide (p = PBlock)) as [->|]; [|by eexists _, _, _].
  destruct (decide (s = Ready)) as [->|]; [|by eexists _, _, _]. destruct o as [dv|]; [|by eexists _, _, _].
  rewrite (content_at_eq _ _ _ _ Hd) in Hc.
  destruct (blk_read_err dv n Hc) as (e & b & dv' & -> & He & Hc'). eexists _, _, _. split; [done|].
  split; [done|]. intros d' n'. rewrite (content_insert l d _ dv') by done. case_decide; [|done]. subst.
  by rewrite Hc', (content_at_eq _ _ _ _ Hd).
Qed.
Next Obligation.
  intros l d n b0 b (dv & Hd & Hc)%content_Some Hb. rewrite hdd_write_eq, Hd, decide_True by done. cbn.
  destruct (blk_write_ok dv n b0 b Hc Hb) as (dv' & -> & Hc'). eexists. split; [done|].
  intros d' n'. rewrite (content_insert l d _ dv') by done. destruct (decide (d' = d)) as [->|Hne].
  - rewrite Hc', (content_at_eq _ _ _ _ Hd). repeat case_decide; naive_solver.
  - rewrite decide_False by naive_solver. done.
Qed.
Next Obligation.
  intros l d n b Hc. rewrite hdd_write_eq. case_decide; [|by eexists _, _].
  destruct (l !! d) as [[[p s] o]|] eqn:Hd; [|by eexists _, _].
  destruct (decide (p = PBlock)) as [->|]; [|by eexists _, _].
  destruct (decide (s = Ready)) as [->|]; [|by eexists _, _]. destruct o as [dv|]; [|by eexists _, _].
  rewrite (content_at_eq _ _ _ _ Hd) in Hc.
  destruct (blk_write_err dv n b Hc) as (e & dv' & -> & He & Hc'). eexists _, _. split; [done|].
  split; [done|]. intros d' n'. rewrite (content_insert l d _ dv') by done. case_decide; [|done]. subst.
  by rewrite Hc', (content_at_eq _ _ _ _ Hd).
Qed.
Next Obligation. intros l d n b (dv & Hd & Hc)%content_Some. by eapply blk_length. Qed.
End Store.

(** A drive in memory: sectors [0 .. n) of 512 bytes. *)
Definition ram_content (d : list bytes) (n : Z) : option bytes :=
  if 0 <=? n then d !! Z.to_nat n ≫= (fun b => if (length b =? 512)%nat then Some b else None) else None.

#[export] Program Instance ram_disk : BlockDevice (list bytes) := {|
  blk_read d n := match ram_content d n with Some b => (0, b, d) | None => (EIO, [], d) end;
  blk_write d n b := match ram_content d n with
                     | Some _ => if (512 <=? length b)%nat then (0, <[Z.to_nat n := take 512 b]> d) else (EINVAL, d)
                     | None => (EIO, d) end;
  blk_is_present _ := true;
  blk_total_sectors d := Z.of_nat (length d);
  blk_content := ram_content;
|}.
Next Obligation. intros d n b Hc. cbn. rewrite Hc. eauto. Qed.
Next Obligation. intros d n Hc. cbn. rewrite Hc. by eexists _, _, _. Qed.
Next Obligation.
  intros d n b0 b Hc Hb. cbv beta. rewrite Hc, (proj2 (Nat.leb_le _ _)) by done. eexists. split; [done|].
  intros n'. revert Hc. unfold ram_content. destruct (Z.leb_spec 0 n); [|done].
  destruct (d !! Z.to_nat n) eqn:Hd; [|done]. intros _. apply lookup_lt_Some in Hd.
  destruct (Z.leb_spec 0 n'); [|by rewrite decide_False by lia]. case_decide as Hn.
  - subst. rewrite list_lookup_insert_eq by done. cbn. rewrite length_take, Nat.min_l by done. done.
  - rewrite list_lookup_insert_ne by lia. done.
Qed.
Next Obligation. intros d n b Hc. cbn. rewrite Hc. by eexists _, _. Qed.
Next Obligation.
  intros d n b. cbn. unfold ram_content. case_match; [|done]. destruct (d !! _) as [b'|]; [|done].
  cbn. destruct (Nat.eqb_spec (length b') 512); [|done]. by intros [= <-].
Qed.

(** *** Striping *)
Lemma raid0_min_spec sectors stripe m0 m :
  0 < stripe -> raid0_min sectors stripe m0 = Some m ->
  m <= m0 /\ (forall s, s ∈ sectors -> m <= s) /\ ((exists k, m0 = k * stripe) -> exists k, m = k * stripe).
Proof.
  intros Hs. revert m0. induction sectors as [|s sectors IH]; intros m0; simpl.
  { intros [= ->]. split_and!; [done|set_solver|done]. }
  destruct (Z.ltb_spec s stripe); [done|]. intros Hm. apply IH in Hm as (H1 & H2 & H3).
  pose proof (Z.mul_div_le s stripe Hs). split_and!; [lia| |].
  - intros x [->|Hx]%elem_of_cons; [lia|by apply H2].
  - intros H4. apply H3. destruct (Z.min_spec m0 (s / stripe * stripe)) as [[_ ->]|[_ ->]]; eauto.
Qed.

(** The common size is a whole number of stripes. *)
Lemma raid0_min_multiple sectors stripe m :
  0 < stripe -> sectors <> [] -> (forall s, s ∈ sectors -> s <= U64_MAX) ->
  raid0_min sectors stripe U64_MAX = Some m -> exists k, m = k * stripe.
Proof.
  intros Hs Hne Hle. destruct sectors as [|s sectors]; [done|]. simpl.
  destruct (Z.ltb_spec s stripe); [done|]. pose proof (Hle s ltac:(by left)).
  pose proof (Z.mul_div_le s stripe Hs). rewrite Z.min_r by lia.
  intros (_ & _ & Hk)%raid0_min_spec; [|done]. eauto.
Qed.

(** Striping is a bijection onto the drives: a RAID-0 device made by
    [composite_new] sends every logical sector to a sector that each of its
    drives has, and every (drive index, sector) pair below the common size is
    the image of exactly one logical sector. *)
Theorem raid0_map_bijective drives sectors stripe_size c :
  0 <= stripe_size <= U64_MAX -> (forall d, u64 (sectors d)) ->
  composite_new Raid0 drives sectors stripe_size = Some c ->
  exists m, total_sectors c = m * child_count c /\
  (forall d, d ∈ drives -> m <= sectors d) /\
  (forall x, 0 <= x < total_sectors c ->
     0 <= (map_raid0_sector c x).1 < child_count c /\ 0 <= (map_raid0_sector c x).2 < m) /\
  (forall i p, 0 <= i < child_count c -> 0 <= p < m ->
     exists x, 0 <= x < total_sectors c /\ map_raid0_sector c x = (i, p) /\
       forall y, 0 <= y -> map_raid0_sector c y = (i, p) -> y < total_sectors c -> y = x).
Proof.
  intros Hsz Hsec. unfold composite_new. destruct (Nat.eqb_spec (length drives) 0) as [|Hne]; [done|].
  destruct (Nat.ltb_spec MAX_COMPOSITE_CHILDREN (length drives)) as [|Hmax]; [done|]. cbn [orb].
  set (st := (Z.max stripe_size MIN_STRIPE_SIZE + 511) / 512).
  assert (Hst : 0 < st) by (unfold st, MIN_STRIPE_SIZE; Z.div_mod_to_equations; lia).
  destruct (raid0_min _ st U64_MAX) as [m|] eqn:Hm; [|done].
  destruct (Z.leb_spec (m * Z.of_nat (length drives)) U64_MAX) as [Hle|]; [|done].
  intros Heq%(inj Some). subst c. cbn [total_sectors child_count]. set (n := Z.of_nat (length drives)) in *.
  unfold MAX_COMPOSITE_CHILDREN in Hmax. assert (Hn : 0 < n <= 8) by lia.
  assert (Hmk : exists k, m = k * st).
  { eapply raid0_min_multiple, Hm; [done|by destruct drives|].
    intros s (d & -> & _)%list_elem_of_fmap. apply Hsec. }
  apply raid0_min_spec in Hm as (_ & Hmin & _); [|done].
  assert (Hsecs : forall d, d ∈ drives -> m <= sectors d).
  { intros d Hd. apply Hmin. apply list_elem_of_fmap. eauto. }
  destruct Hmk as [k ->]. exists (k * st). split; [done|]. split; [done|]. unfold U64_MAX in *.
  unfold map_raid0_sector. cbn [stripe_sectors child_count fst snd].
  assert (Hx : forall x, 0 <= x < k * st * n ->
    0 <= (x / st) mod n < n /\ 0 <= x / st / n * st + x mod st < k * st).
  { intros x Hx. split; [by apply Z.mod_pos_bound; lia|]. pose proof (Z.mod_pos_bound x st Hst).
    assert (0 <= x / st / n) by (apply Z.div_pos; [apply Z.div_pos|]; lia).
    assert (x / st / n < k).
    { apply Z.div_lt_upper_bound; [lia|]. apply Z.div_lt_upper_bound; lia. }
    nia. }
  assert (Hwrap : forall x, 0 <= x < k * st * n ->
    wrap 8 ((x / st) mod n) = (x / st) mod n /\
    wrap_u64 (x / st / n * st + x mod st) = x / st / n * st + x mod st).
  { intros x Hxr. destruct (Hx x Hxr). split; [apply wrap_small; lia|apply wrap_u64_small; unfold u64, U64_MAX; nia]. }
  split.
  - intros x Hxr. destruct (Hwrap x Hxr) as [-> ->]. by apply Hx.
  - intros i p Hi Hp. set (x := (p / st * n + i) * st + p mod st).
    pose proof (Z.mod_pos_bound p st Hst). pose proof (Z.div_mod p st ltac:(lia)).
    assert (0 <= p / st) by (apply Z.div_pos; lia).
    assert (p / st < k) by (apply Z.div_lt_upper_bound; lia).
    assert (Hxr : 0 <= x < k * st * n) by (unfold x; nia).
    assert (Hd1 : x / st = p / st * n + i) by (symmetry; apply (Z.div_unique_pos _ _ _ (p mod st)); [lia|unfold x; lia]).
    assert (Hm1 : x mod st = p mod st) by (symmetry; apply (Z.mod_unique_pos _ _ (p / st * n + i)); [lia|unfold x; lia]).
    assert (Hd2 : (p / st * n + i) / n = p / st) by (symmetry; apply (Z.div_unique_pos _ _ _ i); lia).
    assert (Hm2 : (p / st * n + i) mod n = i) by (symmetry; apply (Z.mod_unique_pos _ _ (p / st)); lia).
    exists x. split; [done|]. split.
    + destruct (Hwrap x Hxr) as [-> ->]. rewrite Hd1, Hm1, Hd2, Hm2. f_equal. lia.
    + intros y Hy Heq Hyt. destruct (Hwrap y ltac:(lia)) as [E1 E2]. rewrite E1, E2 in Heq.
      injection Heq as Hi' Hp'. pose proof (Z.mod_pos_bound y st Hst).
      assert (Hrow : y / st / n = p / st).
      { apply (Z.div_unique_pos _ _ _ (y mod st)); lia. }
      assert (Hoff : y mod st = p mod st) by (rewrite Hrow in Hp'; lia).
      pose proof (Z.div_mod y st ltac:(lia)). pose proof (Z.div_mod (y / st) n ltac:(lia)).
      unfold x. nia.
Qed.

Lemma raid0_map_bijective_witness :
  exists c x, composite_new Raid0 [1; 2]%nat (fun _ => 100) 4096 = Some c /\
    0 <= x < total_sectors c /\ map_raid0_sector c x = (1, 95).
Proof.
  exists (mkComposite Raid0 ([1; 2]%nat ++ replicate 6 0%nat) 2 8 192 0).
  destruct (raid0_map_bijective [1; 2]%nat (fun _ => 100) 4096
    (mkComposite Raid0 ([1; 2]%nat ++ replicate 6 0%nat) 2 8 192 0)) as (m & H1 & _ & _ & H4).
  - unfold U64_MAX. lia.
  - intros _. unfold u64, U64_MAX. lia.
  - reflexivity.
  - cbn [total_sectors child_count] in *.
    destruct (H4 1 95) as (x & Hx & Hm & _); [lia|lia|]. exists x. split; [reflexivity|]. by split.
Defined.

(** A registered composite device cannot be used: [chitin_blk_read] and
    [chitin_blk_write] hold the lock of the registry while they call the device,
    whose methods call them again for its drives, so that every transfer of at
    least one sector inside the device waits for its own lock. *)
Theorem composite_access_deadlocks {D} `{BlockDevice D} (r : ChitinDevices D) depth drive dev c sector len buf :
  locked r = false -> devices r !! drive = Some dev ->
  proto dev = PBlock -> state dev = Ready -> block_dev dev = Some (Composite c) -> 0 < child_count c ->
  length (child_drives c) = MAX_COMPOSITE_CHILDREN -> 0 <= sector ->
  ((512 <= len)%nat -> sector + Z.of_nat (len / 512) <= total_sectors c <= U64_MAX ->
   chitin_blk_read (S depth) drive sector len r = Deadlock) /\
  ((512 <= length buf)%nat -> sector + Z.of_nat (length buf / 512) <= total_sectors c <= U64_MAX ->
   chitin_blk_write (S depth) drive sector buf r = Deadlock).
Proof.
  intros Hl Hd Hp Hs Hb Hc Hcd Hsec.
  assert (Hdiv : forall n, (512 <= n)%nat -> exists k, (n / 512 = S k)%nat).
  { intros n Hn. pose proof (Nat.div_le_lower_bound n 512 1 ltac:(lia) ltac:(lia)).
    exists (n / 512 - 1)%nat. lia. }
  assert (Hrd : forall d n, chitin_blk_read depth d n 512 (mkDevices (devices r) true) = Deadlock) by by destruct depth.
  assert (Hwr : forall d n b, length b = 512%nat -> chitin_blk_write depth d n b (mkDevices (devices r) true) = Deadlock).
  { intros d n b Hlen. destruct depth; cbn [chitin_blk_write]; by rewrite (proj2 (Nat.ltb_ge _ _)) by lia. }
  destruct (Z.to_nat (child_count c)) as [|cc] eqn:Hcc; [lia|].
  split; intros Hlen Htot; destruct (Hdiv _ Hlen) as [k Hk].
  - cbn [chitin_blk_read]. rewrite (proj2 (Nat.ltb_ge _ _)) by done. unfold lock. rewrite Hl. cbn [mbind outcome_bind devices].
    rewrite Hd, Hp, Hs, Hb. cbn [bool_decide negb]. rewrite !bool_decide_true by done. cbn [negb].
    unfold composite_read. rewrite Hk in *. cbn [Nat.eqb].
    rewrite wrap_u64_small, (proj2 (Z.ltb_ge _ _)) by (unfold u64; lia).
    destruct (device_type c); cbn [raid0_read raid1_read].
    + destruct (map_raid0_sector c sector). by rewrite Hrd.
    + cbn [child_count set_round_robin]. rewrite Hcc. cbn [try_mirrors]. by rewrite Hrd.
  - cbn [chitin_blk_write]. rewrite (proj2 (Nat.ltb_ge _ _)) by done. unfold lock. rewrite Hl. cbn [mbind outcome_bind devices].
    rewrite Hd, Hp, Hs, Hb. rewrite !bool_decide_true by done. cbn [negb].
    unfold composite_write. rewrite Hk in *. cbn [Nat.eqb].
    rewrite wrap_u64_small, (proj2 (Z.ltb_ge _ _)) by (unfold u64; lia).
    destruct (device_type c); cbn [raid0_write raid1_write].
    + destruct (map_raid0_sector c sector). rewrite Hwr by (rewrite length_take; lia). done.
    + rewrite Hcc. destruct (child_drives c) as [|d0 ds]; [done|]. cbn [take write_mirrors].
      rewrite Hwr by (rewrite length_take; lia). done.
Qed.
Lemma composite_access_deadlocks_witness :
  chitin_blk_read 1 0 0 512
    (mkDevices [mkDevice (D := list bytes) PBlock Ready
      (Some (Composite (mkComposite Raid1 ([1; 2]%nat ++ replicate 6 0%nat) 2 8 100 0)))] false)
  = Deadlock.
Proof.
  apply (composite_access_deadlocks _ 0 0
    (mkDevice PBlock Ready (Some (Composite (mkComposite Raid1 ([1; 2]%nat ++ replicate 6 0%nat) 2 8 100 0))))
    (mkComposite Raid1 ([1; 2]%nat ++ replicate 6 0%nat) 2 8 100 0) 0 512 []); try reflexivity; cbn [child_count total_sectors].
  unfold U64_MAX. change (Z.of_nat (512 / 512)) with 1. lia.
Defined.

(** A RAID-0 device never uses its list of drives: the transfer of logical
    sector [x] goes to the drive whose number in the registry is the index of the
    stripe, whatever drives the device was made of. *)
Theorem raid0_ignores_its_drives {R} (rd : R -> nat -> Z -> outcome (Z * bytes * R)) c drives n sector r acc :
  raid0_read rd (set_child_drives drives c) n sector r acc = raid0_read rd c n sector r acc /\
  raid0_read rd c 1 sector r acc
  = (x ← rd r (Z.to_nat (map_raid0_sector c sector).1) (map_raid0_sector c sector).2;
     let '(ret, b, r) := x in Done (ret, if ret =? 0 then acc ++ b else acc, r)).
Proof.
  split.
  - revert sector r acc. induction n as [|n IH]; intros sector r acc; [done|]. cbn [raid0_read].
    change (map_raid0_sector (set_child_drives drives c) sector) with (map_raid0_sector c sector).
    destruct (map_raid0_sector c sector) as [i p].
    destruct (rd r (Z.to_nat i) p) as [[[ret b] r']| |]; [|done|done]. cbn.
    destruct (ret =? 0); [apply IH|done].
  - cbn [raid0_read]. destruct (map_raid0_sector c sector) as [i p]. cbn [fst snd].
    destruct (rd r (Z.to_nat i) p) as [[[ret b] r']| |]; [|done|done]. cbn.
    destruct (Z.eqb_spec ret 0) as [->|]; done.
Qed.

(** *** Mirroring over any drives

    The composite operations by themselves, with the drives reached directly: through
    the registry they never return ([composite_access_deadlocks]). *)
Section Mirror.
Context {St : Type} `{SectorStore St}.

Definition direct_read (s : St) (d : nat) (n : Z) : outcome (Z * bytes * St) := Done (hdd_read s d n).
Definition direct_write (s : St) (d : nat) (n : Z) (b : bytes) : outcome (Z * St) := Done (hdd_write s d n b).

(** Drives [ds] have the [k] sectors from [n] on. *)
Definition have (s : St) (ds : list nat) (n : Z) (k : nat) : Prop :=
  forall d i, d ∈ ds -> n <= i < n + Z.of_nat k -> is_Some (sector_at s d i).

Lemma write_mirrors_ok ds n chunk s :
  length chunk = 512%nat -> have s ds n 1 ->
  exists s', write_mirrors direct_write ds n chunk s = Done (0, s') /\
    forall d' n', sector_at s' d' n' = if decide (d' ∈ ds /\ n' = n) then Some chunk else sector_at s d' n'.
Proof.
  intros Hl. revert s. induction ds as [|d ds IH]; intros s Hh.
  { exists s. split; [done|]. intros d' n'. rewrite decide_False; [done|]. set_solver. }
  destruct (Hh d n) as [b0 Hb0]; [by left|lia|].
  destruct (hdd_write_ok s d n b0 chunk Hb0) as (s1 & Hw & Hs1); [lia|].
  rewrite take_ge in Hs1 by lia.
  destruct (IH s1) as (s2 & Hw2 & Hs2).
  { intros d' i Hd' Hi. rewrite Hs1. case_decide; [by eexists|]. apply Hh; [by right|done]. }
  exists s2. split.
  - cbn [write_mirrors]. change (direct_write s d n chunk) with (Done (hdd_write s d n chunk)).
    rewrite Hw. exact Hw2.
  - intros d' n'. rewrite Hs2, Hs1. repeat case_decide; set_solver.
Qed.

Lemma raid1_write_ok c k sector buf s :
  let ds := take (Z.to_nat (child_count c)) (child_drives c) in
  (512 * k <= length buf)%nat -> have s ds sector k ->
  exists s', raid1_write direct_write c k sector buf s = Done (0, s') /\
    forall d i, sector_at s' d i
      = if decide (d ∈ ds /\ sector <= i < sector + Z.of_nat k)
        then Some (take 512 (drop (512 * Z.to_nat (i - sector)) buf)) else sector_at s d i.
Proof.
  intros ds. revert sector buf s. induction k as [|k IH]; intros sector buf s Hl Hh.
  { exists s. split; [done|]. intros d i. rewrite decide_False; [done|]. lia. }
  destruct (write_mirrors_ok ds sector (take 512 buf) s) as (s1 & Hw & Hs1).
  { rewrite length_take. lia. }
  { intros d i Hd Hi. apply Hh; [done|lia]. }
  destruct (IH (sector + 1) (drop 512 buf) s1) as (s2 & Hw2 & Hs2).
  { rewrite length_drop. lia. }
  { intros d i Hd Hi. rewrite Hs1. case_decide; [by eexists|]. apply Hh; [done|lia]. }
  exists s2. split.
  - cbn [raid1_write]. fold ds. rewrite Hw. exact Hw2.
  - intros d i. rewrite Hs2, Hs1. destruct (decide (d ∈ ds)) as [Hd|Hd];
      [|by rewrite !decide_False by tauto].
    destruct (decide (i = sector)) as [->|Hi].
    + rewrite decide_False by lia. rewrite !decide_True by (split; [done|lia]).
      rewrite Z.sub_diag. cbn. by rewrite drop_0.
    + destruct (decide (sector <= i < sector + Z.of_nat (S k))) as [Hr|Hr].
      * rewrite !decide_True by (split; [done|lia]). rewrite drop_drop. do 3 f_equal. lia.
      * by rewrite !decide_False by lia.
Qed.

(** The first mirror that answers has the data. *)
Lemma try_mirrors_ok c k start off sector s b :
  let ds := take (Z.to_nat (child_count c)) (child_drives c) in
  0 < child_count c -> length ds = Z.to_nat (child_count c) -> 0 <= start -> 0 <= off ->
  (forall d, d ∈ ds -> sector_at s d sector = None \/ sector_at s d sector = Some b) ->
  (exists j, off <= j < off + Z.of_nat k /\
     sector_at s (nth (Z.to_nat ((start + j) mod child_count c)) (child_drives c) 0%nat) sector = Some b) ->
  exists s', try_mirrors direct_read c k start off sector s = Done (Some b, s') /\
    forall d i, sector_at s' d i = sector_at s d i.
Proof.
  intros ds Hc Hl Hst. revert off s. induction k as [|k IH]; intros off s Hoff Hds (j & Hj & Hgood); [lia|].
  cbn [try_mirrors]. set (idx := (start + off) mod child_count c).
  pose proof (Z.mod_pos_bound (start + off) (child_count c) Hc) as Hidx. fold idx in Hidx.
  set (d := nth (Z.to_nat idx) (child_drives c) 0%nat).
  assert (Hd : d ∈ ds).
  { unfold d. destruct (lookup_lt_is_Some_2 ds (Z.to_nat idx)) as [x Hx]; [lia|].
    pose proof (list_elem_of_lookup_2 ds _ _ Hx) as Hin.
    unfold ds in Hx. apply lookup_take_Some in Hx as [Hx _].
    rewrite nth_lookup, Hx. exact Hin. }
  change (direct_read s d sector) with (Done (hdd_read s d sector)).
  destruct (Hds d Hd) as [Hn|Hs].
  - destruct (hdd_read_err s d sector Hn) as (e & b' & s1 & Hr & He & Hs1). rewrite Hr.
    cbn [mbind outcome_bind].
    rewrite (proj2 (Z.eqb_neq e 0)) by lia.
    destruct (IH (off + 1) s1) as (s2 & Ht & Hs2); [lia| | |].
    + intros d' Hd'. rewrite Hs1. by apply Hds.
    + exists j. rewrite Hs1. split; [|done]. destruct (decide (j = off)) as [->|]; [|lia].
      fold idx in Hgood. fold d in Hgood. congruence.
    + exists s2. split; [done|]. intros. by rewrite Hs2, Hs1.
  - destruct (hdd_read_ok s d sector b Hs) as (s1 & Hr & Hs1). rewrite Hr.
    cbn [mbind outcome_bind]. exists s1. split; [done|]. done.
Qed.
(** Every mirror that still has a sector has the written data, and one has all. *)
Definition survives (ds : list nat) (sector : Z) (k : nat) (s s' : St) : Prop :=
  (forall d i, d ∈ ds -> sector_at s' d i = None \/ sector_at s' d i = sector_at s d i) /\
  exists d, d ∈ ds /\ forall i, sector <= i < sector + Z.of_nat k -> sector_at s' d i = sector_at s d i.

Lemma survives_eq ds sector k s s1 s2 :
  survives ds sector k s s1 -> (forall d i, sector_at s2 d i = sector_at s1 d i) -> survives ds sector k s s2.
Proof.
  intros [H1 (d & Hd & H2)] Heq. split.
  - intros d' i Hd'. rewrite Heq. by apply H1.
  - exists d. split; [done|]. intros i Hi. rewrite Heq. by apply H2.
Qed.

(** Reading [k] sectors whose mirrors hold the pieces of [buf]. *)
Lemma raid1_read_ok k : forall c sector buf acc s0 s,
  let ds := take (Z.to_nat (child_count c)) (child_drives c) in
  0 < child_count c -> length ds = Z.to_nat (child_count c) -> u32 (read_round_robin c) ->
  length buf = (512 * k)%nat ->
  (forall d i, d ∈ ds -> sector <= i < sector + Z.of_nat k ->
     sector_at s0 d i = Some (take 512 (drop (512 * Z.to_nat (i - sector)) buf))) ->
  survives ds sector k s0 s ->
  exists c' s', raid1_read direct_read c k sector s acc = Done (0, acc ++ buf, c', s').
Proof.
  induction k as [|k IH]; intros c sector buf acc s0 s ds Hc Hl Hrr Hbuf Hdata Hsurv.
  { exists c, s. destruct buf; [|done]. by rewrite app_nil_r. }
  cbn [raid1_read]. set (start := read_round_robin c mod child_count c).
  set (c1 := set_round_robin _ c). change (child_count c1) with (child_count c).
  pose proof (Z.mod_pos_bound (read_round_robin c) (child_count c) Hc) as Hst. fold start in Hst.
  destruct Hsurv as [Hall (d & Hd & Hgood)].
  destruct (try_mirrors_ok c1 (Z.to_nat (child_count c)) start 0 sector s (take 512 buf)) as (s1 & Ht & Hs1).
  - done.
  - done.
  - lia.
  - lia.
  - intros d' Hd'. destruct (Hall d' sector Hd') as [?|Heq]; [by left|right].
    rewrite Heq, Hdata by (done || lia). by rewrite Z.sub_diag.
  - apply list_elem_of_lookup in Hd as [i Hi]. pose proof (lookup_lt_Some _ _ _ Hi) as Hlt.
    exists ((Z.of_nat i - start) mod child_count c).
    pose proof (Z.mod_pos_bound (Z.of_nat i - start) (child_count c) Hc). split; [lia|].
    change (child_count c1) with (child_count c). change (child_drives c1) with (child_drives c).
    rewrite Zplus_mod_idemp_r. replace (start + (Z.of_nat i - start)) with (Z.of_nat i) by lia.
    rewrite Z.mod_small, Nat2Z.id by lia. unfold ds in Hi. apply lookup_take_Some in Hi as [Hi _].
    rewrite nth_lookup, Hi. cbn [default]. rewrite Hgood by lia. rewrite Hdata.
    + by rewrite Z.sub_diag.
    + apply list_elem_of_lookup. exists i. unfold ds. rewrite lookup_take_lt by lia. done.
    + lia.
  - rewrite Ht. cbn [mbind outcome_bind].
    destruct (IH c1 (sector + 1) (drop 512 buf) (acc ++ take 512 buf) s0 s1) as (c' & s' & Hrd).
    + done.
    + done.
    + apply wrap_u32_range.
    + rewrite length_drop. lia.
    + intros d' i Hd' Hi. rewrite Hdata by (done || lia). rewrite drop_drop. do 3 f_equal. lia.
    + apply (survives_eq _ _ _ _ s); [|done]. split; [done|]. exists d. split; [done|].
      intros i Hi. apply Hgood. lia.
    + exists c', s'. rewrite Hrd, <- app_assoc. by rewrite take_drop.
Qed.

(** Mirroring tolerates the loss of drives: after a successful write of whole
    sectors to a RAID-1 device, a read of the same range returns the data from
    any later state of the drives in which each mirror either still holds what
    was written or fails, and at least one still holds all of it, whatever the
    round-robin counter says. *)
Theorem mirror_survives_drive_loss c sector buf k s rr :
  let ds := take (Z.to_nat (child_count c)) (child_drives c) in
  device_type c = Raid1 -> 0 < child_count c <= 8 -> length (child_drives c) = MAX_COMPOSITE_CHILDREN ->
  length buf = (512 * S k)%nat -> 0 <= sector -> sector + Z.of_nat (S k) <= total_sectors c <= U64_MAX ->
  u32 rr -> have s ds sector (S k) ->
  exists s', composite_write direct_write c sector buf s = Done (0, s') /\
    forall s2, survives ds sector (S k) s' s2 ->
      exists c' s3, composite_read direct_read (set_round_robin rr c) sector (length buf) s2 = Done (0, buf, c', s3).
Proof.
  intros ds Ht Hc Hcd Hlen Hsec Htot Hrr Hh.
  assert (Hk : (length buf / 512 = S k)%nat) by (rewrite Hlen, Nat.mul_comm; by apply Nat.div_mul).
  assert (Hlds : length ds = Z.to_nat (child_count c)).
  { unfold ds, MAX_COMPOSITE_CHILDREN in *. rewrite length_take. lia. }
  destruct (raid1_write_ok c (S k) sector buf s) as (s' & Hw & Hs'); [lia|done|].
  exists s'. split.
  - unfold composite_write. rewrite Hk, Ht. cbn [Nat.eqb].
    rewrite wrap_u64_small, (proj2 (Z.ltb_ge _ _)) by (unfold u64; lia). exact Hw.
  - intros s2 Hsurv. unfold composite_read. rewrite Hk. cbn [Nat.eqb].
    change (total_sectors (set_round_robin rr c)) with (total_sectors c).
    change (device_type (set_round_robin rr c)) with (device_type c).
    rewrite wrap_u64_small, (proj2 (Z.ltb_ge _ _)), Ht by (unfold u64; lia).
    apply (raid1_read_ok (S k) (set_round_robin rr c) sector buf [] s' s2); [|done|done|done| |done].
    { cbn [child_count set_round_robin]. lia. }
    intros d i Hd Hi. rewrite Hs', decide_True by done. done.
Qed.
End Mirror.

(** Two drives in memory. *)
Definition two_drives : drivers (list bytes) :=
  [ (PBlock, Ready, Some (replicate 4 (replicate 512 0))); (PBlock, Ready, Some (replicate 4 (replicate 512 0))) ].

Lemma two_drives_have : have two_drives [0; 1]%nat 1 1.
Proof.
  intros d i Hd Hi. assert (i = 1) as -> by lia.
  apply elem_of_cons in Hd as [->|Hd]; [by eexists|]. apply list_elem_of_singleton in Hd as ->. by eexists.
Qed.

Lemma mirror_survives_drive_loss_witness :
  let c := mkComposite Raid1 ([0; 1]%nat ++ replicate 6 0%nat) 2 8 4 0 in
  exists s', composite_write direct_write c 1 (replicate 512 7) two_drives = Done (0, s') /\
    exists c' s3, composite_read direct_read (set_round_robin 5 c) 1 512 s' = Done (0, replicate 512 7, c', s3).
Proof.
  intros c.
  destruct (mirror_survives_drive_loss c 1 (replicate 512 7) 0 two_drives 5) as (s' & Hw & Hr).
  - reflexivity.
  - cbn [child_count c]. lia.
  - reflexivity.
  - apply length_replicate.
  - lia.
  - cbn [total_sectors c]. unfold U64_MAX. lia.
  - unfold u32, U32_MAX. lia.
  - exact two_drives_have.
  - exists s'. split; [exact Hw|]. rewrite length_replicate in Hr. apply Hr.
    split; [by right|]. exists 0%nat. split; [by left|done].
Defined.

End BlockDevFacts.
