(* ===== verification/Compress.v ===== *)
(** * HVFS block compression (services/fs/hvfs/compress.rs)

    The three codecs of the HVFS volume: an LZ4-like one with back references,
    run-length encoding (also used for the ZSTD and gzip settings) and
    zero-length encoding.  A byte is a [Z]; a position in a buffer that a loop
    only moves forward ([i] or [ip]) is represented by the unread rest of the
    buffer, a position that is compared and subtracted stays a [nat].
    [output] is the [Vec] the source pushes to.

    The facts show that decompression inverts compression for every codec,
    and the block length from which the 16-bit offset of the LZ4 codec can
    no longer name a match. *)
From S2P Require Import Prelude.

Module Compress.

(** [HvCompType] (bp.rs). *)
Inductive HvCompType : Type :=
  | Off | LZ4 | ZSTD | Gzip1 | Gzip9 | ZLE.

Definition from_u8 (v : Z) : HvCompType :=
  if v =? 1 then LZ4 else if v =? 2 then ZSTD else if v =? 3 then Gzip1
  else if v =? 4 then Gzip9 else if v =? 5 then ZLE else Off.

Definition HV_COMP_MIN_SIZE : nat := 64.

(** ** The four length bytes every codec writes first *)
Definition length_header (src_len : nat) : list Z :=
  let n := Z.of_nat src_len in
  [Z.land n 255; Z.land (Z.shiftr n 8) 255;
   Z.land (Z.shiftr n 16) 255; Z.land (Z.shiftr n 24) 255].

Definition read_length (b0 b1 b2 b3 : Z) : Z :=
  Z.lor (Z.lor (Z.lor b0 (Z.shiftl b1 8)) (Z.shiftl b2 16)) (Z.shiftl b3 24).

(** ** LZ4 *)

(** The bytes that continue a length of 15 or more: 255 while at least 255
    remain, then the rest. *)
Fixpoint extension (fuel remaining : nat) : list Z :=
  match fuel with
  | O => [Z.of_nat remaining]
  | S fuel =>
      if (255 <=? remaining)%nat then 255 :: extension fuel (remaining - 255)
      else [Z.of_nat remaining]
  end.

(** [if len >= 15 { push the extension }]. *)
Definition push_length (len : nat) : list Z :=
  if (15 <=? len)%nat then extension (len - 15) (len - 15) else [].

Definition nibble (len : nat) : Z :=
  if (15 <=? len)%nat then 15 else Z.of_nat len.

(** [while ip + len < src_len && ref_pos + len < ip
      && data[ref_pos + len] == data[ip + len] { len += 1 }], on the bytes from
    [ref_pos + len], the bytes from [ip + len] and the room before [ip]. *)
Fixpoint extend_match (at_ref at_ip : list Z) (room len : nat) : nat :=
  match at_ip, at_ref, room with
  | y :: at_ip, x :: at_ref, S room =>
      if x =? y then extend_match at_ref at_ip room (S len) else len
  | _, _, _ => len
  end.

(** [for s in (search_start..ip).step_by(4)]: the first [s] whose four bytes
    equal those at [ip], with the length of the match. *)
Fixpoint search (fuel : nat) (data : list Z) (ip s : nat) : option (nat * nat) :=
  match fuel with
  | O => None
  | S fuel =>
      if (s <? ip)%nat then
        if (s + 4 <=? length data)%nat &&
           bool_decide (take 4 (drop s data) = take 4 (drop ip data))
        then Some (s, extend_match (drop (s + 4) data) (drop (ip + 4) data)
                        (ip - (s + 4)) 4)
        else search fuel data ip (s + 4)
      else None
  end.

Definition find_match (data : list Z) (ip : nat) : option (nat * nat) :=
  if (ip + 4 <=? length data)%nat then
    let search_start := (ip - Z.to_nat 65536)%nat in
    search ip data ip search_start
  else None.

(** One sequence: token, literals, offset, match length. *)
Definition emit_match (literals : list Z) (offset : Z) (match_len : nat) : list Z :=
  let literal_len := length literals in
  let ml := (match_len - 4)%nat in
  let tok := Z.lor (nibble literal_len) (Z.shiftl (nibble ml) 4) in
  let offset := wrap 16 offset in
  [tok] ++ push_length literal_len ++ literals
    ++ [Z.land offset 255; Z.land (Z.shiftr offset 8) 255] ++ push_length ml.

Definition emit_tail (literals : list Z) : list Z :=
  let literal_len := length literals in
  [nibble literal_len] ++ push_length literal_len ++ literals.

(** [&data[a..b]]. *)
Definition slice (data : list Z) (a b : nat) : list Z := take (b - a) (drop a data).

(** The loop [while ip < src_len] with the literals after it. *)
Fixpoint lz4_loop (fuel : nat) (data : list Z) (ip anchor : nat) (output : list Z) : list Z :=
  match fuel with
  | O => output
  | S fuel =>
      if (ip <? length data)%nat then
        match find_match data ip with
        | Some (ref_pos, match_len) =>
            let output := output ++ emit_match (slice data anchor ip)
                                      (Z.of_nat (ip - ref_pos)) match_len in
            lz4_loop fuel data (ip + match_len) (ip + match_len) output
        | None => lz4_loop fuel data (ip + 1) anchor output
        end
      else if (anchor <? length data)%nat
           then output ++ emit_tail (slice data anchor (length data))
           else output
  end.

Definition compress_lz4 (data : list Z) : option (list Z) :=
  let src_len := length data in
  let output := lz4_loop (S src_len) data 0 0 (length_header src_len) in
  if (src_len <=? length output)%nat then None else Some output.

(** [while ip < compressed.len() { len += byte; if byte != 255 { break } }]. *)
Fixpoint read_extension (rest : list Z) (len : nat) : nat * list Z :=
  match rest with
  | [] => (len, [])
  | byte :: rest =>
      let len := (len + Z.to_nat byte)%nat in
      if negb (byte =? 255) then (len, rest) else read_extension rest len
  end.

(** [for i in 0..match_len { if start + i < output.len() { push(output[start + i]) } }]. *)
Fixpoint copy_match (n start : nat) (output : list Z) : list Z :=
  match n with
  | O => output
  | S n =>
      match output !! start with
      | Some b => copy_match n (S start) (output ++ [b])
      | None => copy_match n (S start) output
      end
  end.

Fixpoint unlz4_loop (fuel : nat) (rest : list Z) (src_len : Z) (output : list Z) : list Z :=
  match fuel, rest with
  | S fuel, tok :: rest =>
      if Z.of_nat (length output) <? src_len then
        let '(literal_len, rest) :=
          let l := Z.to_nat (Z.land tok 15) in
          if (l =? 15)%nat then read_extension rest l else (l, rest) in
        if (length rest <? literal_len)%nat then output
        else
          let output := output ++ take literal_len rest in
          match drop literal_len rest with
          | o0 :: o1 :: rest =>
              let offset := Z.to_nat (Z.lor o0 (Z.shiftl o1 8)) in
              if (offset =? 0)%nat then output
              else
                let hi := Z.land (Z.shiftr tok 4) 15 in
                let '(match_len, rest) :=
                  let m := (Z.to_nat hi + 4)%nat in
                  if hi =? 15 then read_extension rest m else (m, rest) in
                let start := (length output - offset)%nat in
                unlz4_loop fuel rest src_len (copy_match match_len start output)
          | _ => output
          end
      else output
  | _, _ => output
  end.

Definition decompress_lz4 (compressed : list Z) : option (list Z) :=
  match compressed with
  | b0 :: b1 :: b2 :: b3 :: rest =>
      Some (unlz4_loop (length rest) rest (read_length b0 b1 b2 b3) [])
  | _ => None
  end.

(** ** Run-length encoding *)

(** [while i + count < len && data[i + count] == byte && count < 255]. *)
Fixpoint run_length (byte : Z) (rest : list Z) (count : nat) : nat :=
  match rest with
  | x :: rest =>
      if (x =? byte) && (count <? 255)%nat then run_length byte rest (S count) else count
  | [] => count
  end.

Fixpoint rle_loop (fuel : nat) (rest output : list Z) : list Z :=
  match fuel, rest with
  | S fuel, byte :: rest' =>
      let count := run_length byte rest' 1 in
      rle_loop fuel (drop count rest) (output ++ [byte; Z.of_nat count])
  | _, _ => output
  end.

Definition compress_rle (data : list Z) : option (list Z) :=
  match data with
  | [] => None
  | _ :: _ =>
      let output := rle_loop (length data) data (length_header (length data)) in
      if (length data <=? length output)%nat then None else Some output
  end.

Fixpoint unrle_loop (fuel : nat) (rest : list Z) (src_len : Z) (output : list Z) : list Z :=
  match fuel, rest with
  | S fuel, byte :: count :: rest =>
      if Z.of_nat (length output) <? src_len then
        unrle_loop fuel rest src_len (output ++ replicate (Z.to_nat count) byte)
      else output
  | _, _ => output
  end.

Definition decompress_rle (compressed : list Z) : option (list Z) :=
  match compressed with
  | b0 :: b1 :: b2 :: b3 :: rest =>
      Some (unrle_loop (length rest) rest (read_length b0 b1 b2 b3) [])
  | _ => None
  end.

(** ** Zero-length encoding *)
Fixpoint zle_loop (fuel : nat) (rest output : list Z) : list Z :=
  match fuel, rest with
  | S fuel, byte :: rest' =>
      if byte =? 0 then
        let count := run_length 0 rest 0 in
        zle_loop fuel (drop count rest) (output ++ [0; Z.of_nat count])
      else zle_loop fuel rest' (output ++ [byte])
  | _, _ => output
  end.

Definition compress_zle (data : list Z) : option (list Z) :=
  let output := zle_loop (length data) data (length_header (length data)) in
  if (length data <=? length output)%nat then None else Some output.

Fixpoint unzle_loop (fuel : nat) (rest : list Z) (src_len : Z) (output : list Z) : list Z :=
  match fuel, rest with
  | S fuel, byte :: rest' =>
      if Z.of_nat (length output) <? src_len then
        match rest' with
        | count :: rest'' =>
            if byte =? 0
            then unzle_loop fuel rest'' src_len (output ++ replicate (Z.to_nat count) 0)
            else unzle_loop fuel rest' src_len (output ++ [byte])
        | [] => unzle_loop fuel rest' src_len (output ++ [byte])
        end
      else output
  | _, _ => output
  end.

Definition decompress_zle (compressed : list Z) : option (list Z) :=
  match compressed with
  | b0 :: b1 :: b2 :: b3 :: rest =>
      Some (unzle_loop (length rest) rest (read_length b0 b1 b2 b3) [])
  | _ => None
  end.

(** ** Dispatch *)
Definition compress_zstd_fallback (data : list Z) : option (list Z) := compress_rle data.
Definition decompress_zstd_fallback (c : list Z) : option (list Z) := decompress_rle c.

Definition compress (data : list Z) (comp_type : HvCompType) : option (list Z) :=
  if (length data <? HV_COMP_MIN_SIZE)%nat then None
  else match comp_type with
       | Off => None
       | LZ4 => compress_lz4 data
       | ZSTD => compress_zstd_fallback data
       | Gzip1 => compress_rle data
       | Gzip9 => compress_rle data
       | ZLE => compress_zle data
       end.

(** [_expected_size] is not used by any codec. *)
Definition decompress (compressed : list Z) (comp_type : HvCompType) : option (list Z) :=
  match comp_type with
  | Off => None
  | LZ4 => decompress_lz4 compressed
  | ZSTD => decompress_zstd_fallback compressed
  | Gzip1 | Gzip9 => decompress_rle compressed
  | ZLE => decompress_zle compressed
  end.

End Compress.

(** ** Facts *)
Module CompressFacts.
Import Compress.

Lemma read_length_header n :
  Z.of_nat n < 2 ^ 32 ->
  match length_header n with
  | [b0; b1; b2; b3] => read_length b0 b1 b2 b3 = Z.of_nat n
  | _ => False
  end.
Proof.
  intros Hn. unfold length_header, read_length. set (z := Z.of_nat n) in *.
  assert (0 <= z) by lia. apply Z.bits_inj'. intros i Hi.
  change 255 with (Z.ones 8).
  rewrite !Z.lor_spec, !Z.shiftl_spec, !Z.land_spec by done.
  assert (Hbit : forall k, 0 <= k -> 
    (Z.testbit (Z.shiftr z k) (i - k) && Z.testbit (Z.ones 8) (i - k))%bool
    = (Z.testbit z i && (k <=? i) && (i <? k + 8))%bool).
  { intros k Hk. destruct (Z.leb_spec k i) as [Hki|Hki].
    - rewrite Z.shiftr_spec, Z.testbit_ones_nonneg by lia.
      replace (i - k + k) with i by lia. rewrite andb_true_r. f_equal.
      split_bool; lia.
    - rewrite Z.testbit_neg_r by lia. by rewrite andb_false_r. }
  rewrite !Hbit by lia. specialize (Hbit 0). rewrite Z.shiftr_0_r, Z.sub_0_r in Hbit.
  rewrite Hbit by lia. destruct (Z.testbit z i) eqn:Ht; [|done].
  destruct (Z.ltb_spec i 32) as [Hlt|Hge]; [split_bool; simpl; lia|].
  rewrite Z.bits_above_log2 in Ht; [done|done|].
  destruct (Z.eq_dec z 0) as [->|]; [simpl; lia|].
  apply Z.log2_lt_pow2; [lia|]. apply Z.lt_le_trans with (2 ^ 32); [done|].
  apply Z.pow_le_mono_r; lia.
Qed.

(** *** Run lengths *)
Lemma run_length_spec byte rest c :
  exists n, run_length byte rest c = (c + n)%nat /\ (n <= length rest)%nat /\
            take n rest = replicate n byte /\ (c <= 255 -> c + n <= 255)%nat.
Proof.
  revert c. induction rest as [|x rest IH]; intros c; simpl.
  - exists 0%nat. split_and!; [lia|lia|done|lia].
  - destruct (Z.eqb_spec x byte) as [->|]; simpl; [|exists 0%nat; split_and!; [lia|lia|done|lia]].
    destruct (Nat.ltb_spec c 255); [|exists 0%nat; split_and!; [lia|lia|done|lia]].
    destruct (IH (S c)) as (n & -> & Hle & Htake & Hb). exists (S n).
    split_and!; [lia|lia| |lia]. simpl. by rewrite Htake.
Qed.

Lemma rle_loop_app fuel rest out :
  rle_loop fuel rest out = out ++ rle_loop fuel rest [].
Proof.
  revert rest out. induction fuel as [|fuel IH]; intros [|b rest] out; cbn;
    rewrite ?app_nil_r; [done..|].
  rewrite IH, (IH _ [_; _]). by rewrite app_assoc.
Qed.

Lemma zle_loop_app fuel rest out :
  zle_loop fuel rest out = out ++ zle_loop fuel rest [].
Proof.
  revert rest out. induction fuel as [|fuel IH]; intros [|b rest] out; cbn -[run_length];
    rewrite ?app_nil_r; [done..|].
  destruct (b =? 0).
  - rewrite IH, (IH _ [_; _]). by rewrite app_assoc.
  - rewrite IH, (IH _ [_]). by rewrite app_assoc.
Qed.

(** A decoder that has produced [done], reading the encoding of [rest], ends
    with [done ++ rest]. *)
Lemma rle_decodes fuel fuel' rest out n :
  (length rest <= fuel)%nat -> (length (rle_loop fuel rest []) <= fuel')%nat ->
  n = Z.of_nat (length out + length rest) ->
  unrle_loop fuel' (rle_loop fuel rest []) n out = out ++ rest.
Proof.
  revert fuel' rest out. induction fuel as [|fuel IH]; intros fuel' [|b rest] out Hf Hf' Hn.
  - destruct fuel'; by rewrite app_nil_r.
  - simpl in Hf. lia.
  - destruct fuel'; by rewrite app_nil_r.
  - cbn [rle_loop] in *. destruct (run_length_spec b rest 1) as (k & Hk & Hle & Htake & H255).
    rewrite Hk in *. rewrite rle_loop_app in *.
    rewrite length_app in Hf'. simpl in Hf, Hf'. destruct fuel' as [|fuel']; [lia|].
    cbn [app unrle_loop]. simpl length in Hn.
    rewrite (proj2 (Z.ltb_lt _ _)) by lia. rewrite Nat2Z.id.
    change (1 + k)%nat with (S k) in *. rewrite skipn_cons, replicate_S.
    rewrite IH.
    + rewrite <- app_assoc. f_equal. cbn [app]. f_equal. rewrite <- Htake. apply take_drop.
    + rewrite length_drop. lia.
    + lia.
    + rewrite Hn. simpl. rewrite length_app, length_drop. simpl. rewrite length_replicate. lia.
Qed.

Lemma zle_decodes fuel fuel' rest out n :
  (length rest <= fuel)%nat -> (length (zle_loop fuel rest []) <= fuel')%nat ->
  n = Z.of_nat (length out + length rest) ->
  unzle_loop fuel' (zle_loop fuel rest []) n out = out ++ rest.
Proof.
  revert fuel' rest out. induction fuel as [|fuel IH]; intros fuel' [|b rest] out Hf Hf' Hn.
  - destruct fuel'; by rewrite app_nil_r.
  - simpl in Hf. lia.
  - destruct fuel'; by rewrite app_nil_r.
  - cbn [zle_loop] in *. destruct (Z.eqb_spec b 0) as [->|Hb].
    + destruct (run_length_spec 0 (0 :: rest) 0) as (k & Hk & Hle & Htake & H255).
      rewrite Hk in *. rewrite zle_loop_app in *. simpl in Hk.
      destruct (run_length_spec 0 rest 1) as (k' & Hk' & _). rewrite Hk' in Hk.
      rewrite length_app in Hf'. simpl in Hf, Hf', Hle. destruct fuel' as [|fuel']; [lia|].
      cbn [app unzle_loop]. simpl length in Hn. rewrite Z.eqb_refl.
      rewrite (proj2 (Z.ltb_lt _ _)) by lia. rewrite Nat2Z.id.
      rewrite IH.
      * rewrite <- app_assoc, Nat.add_0_l. f_equal. rewrite <- Htake. apply take_drop.
      * rewrite length_drop. simpl. lia.
      * rewrite Nat.add_0_l. lia.
      * rewrite Hn. rewrite Nat.add_0_l, length_app, length_drop, length_replicate. simpl. lia.
    + rewrite zle_loop_app in *. rewrite length_app in Hf'. simpl in Hf, Hf'.
      destruct fuel' as [|fuel']; [lia|]. simpl length in Hn.
      cbn [app]. set (t := zle_loop fuel rest []) in *.
      assert (unzle_loop (S fuel') (b :: t) n out = unzle_loop fuel' t n (out ++ [b])) as ->.
      { cbn [unzle_loop]. rewrite (proj2 (Z.ltb_lt _ _)) by lia.
        rewrite (proj2 (Z.eqb_neq b 0)) by done. by destruct t. }
      unfold t. rewrite IH; [by rewrite <- app_assoc|lia|subst t; lia|].
      rewrite Hn, length_app. simpl. lia.
Qed.

(** *** LZ4: the compressor *)
Lemma lz4_loop_app fuel data ip anchor out :
  lz4_loop fuel data ip anchor out = out ++ lz4_loop fuel data ip anchor [].
Proof.
  revert ip anchor out. induction fuel as [|fuel IH]; intros ip anchor out;
    cbn [lz4_loop]; [by rewrite app_nil_r|].
  destruct (ip <? length data)%nat.
  - destruct (find_match data ip) as [[r m]|]; [|apply IH].
    rewrite IH, (IH _ _ ([] ++ _)). by rewrite app_assoc.
  - destruct (anchor <? length data)%nat; by rewrite ?app_nil_r.
Qed.

Lemma extend_match_spec at_ref at_ip room len :
  exists n, extend_match at_ref at_ip room len = (len + n)%nat /\
            (n <= length at_ip)%nat /\
            forall k, (k < n)%nat -> at_ref !! k = at_ip !! k.
Proof.
  revert at_ref room len. induction at_ip as [|y at_ip IH]; intros [|x at_ref] [|room] len;
    simpl; try (exists 0%nat; split_and!; [lia|lia|intros; lia]).
  destruct (Z.eqb_spec x y) as [->|]; [|exists 0%nat; split_and!; [lia|lia|intros; lia]].
  destruct (IH at_ref room (S len)) as (n & -> & Hn & Hk).
  exists (S n). split_and!; [lia|lia|]. intros [|k] ?; [done|]. apply Hk. lia.
Qed.

(** What the search returns is a match: [match_len >= 4] bytes from [ref_pos]
    are the bytes from [ip]. *)
Definition is_match (data : list Z) (ip ref_pos match_len : nat) : Prop :=
  (ref_pos < ip)%nat /\ (4 <= match_len)%nat /\ (ip + match_len <= length data)%nat /\
  forall k, (k < match_len)%nat -> data !! (ref_pos + k)%nat = data !! (ip + k)%nat.

Lemma search_spec fuel data ip s r m :
  (ip + 4 <= length data)%nat -> search fuel data ip s = Some (r, m) ->
  (s <= r)%nat /\ is_match data ip r m.
Proof.
  intros Hip. revert s. induction fuel as [|fuel IH]; intros s; cbn [search]; [done|].
  destruct (Nat.ltb_spec s ip) as [Hs|]; [|done].
  destruct (Nat.leb_spec (s + 4) (length data)); cbn [andb]; 
    [|intros H'; apply IH in H' as [??]; split; [lia|done]].
  case_bool_decide as Heq; [|intros H'; apply IH in H' as [??]; split; [lia|done]].
  destruct (extend_match_spec (drop (s + 4) data) (drop (ip + 4) data) (ip - (s + 4)) 4)
    as (n & -> & Hn & Hk).
  intros [= <- <-]. rewrite length_drop in Hn. split; [lia|].
  split_and!; [lia|lia|lia|]. intros k Hlt.
  destruct (decide (k < 4)%nat).
  - apply (f_equal (fun l => l !! k)) in Heq.
    by rewrite !lookup_take_lt, !lookup_drop in Heq by done.
  - specialize (Hk (k - 4)%nat). rewrite !lookup_drop in Hk.
    replace (s + k)%nat with (s + 4 + (k - 4))%nat by lia.
    replace (ip + k)%nat with (ip + 4 + (k - 4))%nat by lia. apply Hk. lia.
Qed.

Lemma find_match_spec data ip r m :
  find_match data ip = Some (r, m) ->
  is_match data ip r m /\ Z.of_nat (ip - r) <= 65536 /\ (ip + 4 <= length data)%nat.
Proof.
  unfold find_match. destruct (Nat.leb_spec (ip + 4) (length data)); [|done].
  intros [Hs Hm]%search_spec; [|done]. split_and!; [done| |done]. lia.
Qed.

(** *** LZ4: the decompressor *)
Lemma read_extension_of fuel r len rest :
  (r <= fuel)%nat ->
  read_extension (extension fuel r ++ rest) len = ((len + r)%nat, rest).
Proof.
  revert r len. induction fuel as [|fuel IH]; intros r len Hr; cbn [extension].
  - replace r with 0%nat by lia. reflexivity.
  - destruct (Nat.leb_spec 255 r) as [H|H]; cbn [app read_extension].
    + rewrite Z.eqb_refl. cbn [negb]. rewrite IH by lia. f_equal. lia.
    + rewrite (proj2 (Z.eqb_neq _ _)) by lia. cbn [negb]. f_equal. lia.
Qed.

Lemma nibble_range len : 0 <= nibble len < 16.
Proof. unfold nibble. destruct (Nat.leb_spec 15 len); lia. Qed.

(** Reading back a length from its nibble and its extension bytes. *)
Lemma read_pushed_length len base rest :
  (if nibble len =? 15
   then read_extension (push_length len ++ rest) (Z.to_nat (nibble len) + base)%nat
   else ((Z.to_nat (nibble len) + base)%nat, push_length len ++ rest))
  = ((len + base)%nat, rest).
Proof.
  unfold nibble, push_length. destruct (Nat.leb_spec 15 len).
  - rewrite Z.eqb_refl, read_extension_of by done. f_equal. lia.
  - rewrite (proj2 (Z.eqb_neq _ _)) by lia. cbn. f_equal. lia.
Qed.

Lemma read_literal_length len rest :
  (if (Z.to_nat (nibble len) =? 15)%nat
   then read_extension (push_length len ++ rest) (Z.to_nat (nibble len))
   else (Z.to_nat (nibble len), push_length len ++ rest)) = (len, rest).
Proof.
  pose proof (read_pushed_length len 0 rest) as H. rewrite !Nat.add_0_r in H.
  rewrite <- H. pose proof (nibble_range len).
  destruct (Z.eqb_spec (nibble len) 15) as [->|]; [done|].
  by rewrite (proj2 (Nat.eqb_neq _ _)) by lia.
Qed.

Lemma token_low a b : 0 <= a < 16 -> 0 <= b < 16 -> Z.land (Z.lor a (Z.shiftl b 4)) 15 = a.
Proof.
  intros Ha Hb. rewrite lor_shiftl_add by lia. change 15 with (Z.ones 4).
  rewrite Z.land_ones by lia. change (2 ^ 4) with 16. Z.div_mod_to_equations. lia.
Qed.

Lemma token_high a b :
  0 <= a < 16 -> 0 <= b < 16 -> Z.land (Z.shiftr (Z.lor a (Z.shiftl b 4)) 4) 15 = b.
Proof.
  intros Ha Hb. rewrite lor_shiftl_add by lia. change 15 with (Z.ones 4).
  rewrite Z.land_ones, Z.shiftr_div_pow2 by lia. change (2 ^ 4) with 16.
  Z.div_mod_to_equations. lia.
Qed.

Lemma offset_bytes off :
  Z.lor (Z.land (wrap 16 off) 255) (Z.shiftl (Z.land (Z.shiftr (wrap 16 off) 8) 255) 8)
  = wrap 16 off.
Proof.
  pose proof (Z.mod_pos_bound off (2 ^ 16) ltac:(lia)) as Hr. fold (wrap 16 off) in Hr.
  set (o := wrap 16 off) in *. change 255 with (Z.ones 8).
  rewrite !Z.land_ones, Z.shiftr_div_pow2 by lia. change (2 ^ 8) with 256.
  rewrite lor_shiftl_add by (Z.div_mod_to_equations; lia).
  change (2 ^ 8) with 256. Z.div_mod_to_equations. lia.
Qed.

(** The decoder on one sequence of the encoder. *)
Lemma unlz4_match fuel lits off m rest n out :
  (4 <= m)%nat -> Z.of_nat (length out) < n -> 0 <= off <= 65536 ->
  unlz4_loop (S fuel) (emit_match lits off m ++ rest) n out =
  if off mod 65536 =? 0 then out ++ lits
  else unlz4_loop fuel rest n
         (copy_match m (length (out ++ lits) - Z.to_nat off) (out ++ lits)).
Proof.
  intros Hm Hn Hoff. unfold emit_match. rewrite <- !app_assoc. cbn [app unlz4_loop].
  pose proof (nibble_range (length lits)). pose proof (nibble_range (m - 4)).
  rewrite (proj2 (Z.ltb_lt _ _)) by done.
  rewrite token_low, token_high, read_literal_length by done.
  rewrite length_app. rewrite (proj2 (Nat.ltb_ge _ _)) by lia.
  rewrite take_app_length, drop_app_length. cbn [app].
  rewrite offset_bytes. unfold wrap. change (2 ^ 16) with 65536.
  destruct (Z.eqb_spec (off mod 65536) 0) as [->|Hne]; [done|].
  pose proof (Z.mod_pos_bound off 65536 ltac:(lia)).
  rewrite (proj2 (Nat.eqb_neq _ _)) by lia.
  rewrite read_pushed_length.
  replace (m - 4 + 4)%nat with m by lia.
  by replace (off mod 65536) with off by (Z.div_mod_to_equations; lia).
Qed.

Lemma unlz4_tail fuel lits n out :
  Z.of_nat (length out) < n ->
  unlz4_loop (S fuel) (emit_tail lits) n out = out ++ lits.
Proof.
  intros Hn. unfold emit_tail. cbn [app unlz4_loop].
  rewrite (proj2 (Z.ltb_lt _ _)) by done. pose proof (nibble_range (length lits)) as Hr.
  pose proof (token_low _ 0 Hr ltac:(lia)) as Ht. rewrite Z.shiftl_0_l, Z.lor_0_r in Ht.
  rewrite Ht, read_literal_length. rewrite Nat.ltb_irrefl. rewrite take_ge, drop_ge by lia. done.
Qed.

Lemma copy_match_spec data ip m k :
  (forall j, (j < m)%nat -> data !! (k + j)%nat = data !! (ip + j)%nat) ->
  (k < ip)%nat -> (ip + m <= length data)%nat ->
  copy_match m k (take ip data) = take (ip + m) data.
Proof.
  revert ip k. induction m as [|m IH]; intros ip k Heq Hk Hlen; cbn [copy_match].
  { by rewrite Nat.add_0_r. }
  destruct (lookup_lt_is_Some_2 data ip) as [b Hb]; [lia|].
  pose proof (Heq 0%nat ltac:(lia)) as H0. rewrite !Nat.add_0_r in H0.
  rewrite lookup_take_lt, H0, Hb by lia. rewrite <- take_S_r by done.
  rewrite IH; [f_equal; lia| |lia|lia].
  intros j Hj. specialize (Heq (S j) ltac:(lia)).
  by replace (S k + j)%nat with (k + S j)%nat by lia;
     replace (S ip + j)%nat with (ip + S j)%nat by lia.
Qed.

(** The position up to which the output of the compressor can be decoded: the
    first match the 16-bit offset cannot express, or the end of the data. *)
Fixpoint decodable (fuel : nat) (data : list Z) (ip : nat) : nat :=
  match fuel with
  | O => ip
  | S fuel =>
      if (ip <? length data)%nat then
        match find_match data ip with
        | Some (r, m) =>
            if Z.of_nat (ip - r) =? 65536 then ip else decodable fuel data (ip + m)
        | None => decodable fuel data (ip + 1)
        end
      else length data
  end.

Lemma slice_app data a b : (a <= b)%nat -> take a data ++ slice data a b = take b data.
Proof.
  intros H. unfold slice. rewrite take_drop_commute.
  replace (a + (b - a))%nat with b by lia.
  replace (take a data) with (take a (take b data)) by (rewrite take_take; f_equal; lia).
  apply take_drop.
Qed.

Lemma length_emit_match lits off m : (1 <= length (emit_match lits off m))%nat.
Proof. unfold emit_match. rewrite length_app. simpl. lia. Qed.

Lemma lz4_decodes fuel fuel' data ip anchor :
  (anchor <= ip <= length data)%nat -> (length data - ip < fuel)%nat ->
  (length (lz4_loop fuel data ip anchor []) <= fuel')%nat ->
  unlz4_loop fuel' (lz4_loop fuel data ip anchor []) (Z.of_nat (length data)) (take anchor data)
  = take (decodable fuel data ip) data.
Proof.
  revert fuel' ip anchor. induction fuel as [|fuel IH]; intros fuel' ip anchor Hip Hf Hf'; [lia|].
  cbn [lz4_loop decodable] in *. destruct (Nat.ltb_spec ip (length data)) as [Hlt|Hge].
  - destruct (find_match data ip) as [[r m]|] eqn:Hm.
    + apply find_match_spec in Hm as ((Hr & H4 & Hlen & Heq) & Hd & _).
      rewrite lz4_loop_app in *. rewrite length_app in Hf'. cbn [app] in *.
      pose proof (length_emit_match (slice data anchor ip) (Z.of_nat (ip - r)) m).
      destruct fuel' as [|fuel']; [lia|].
      rewrite unlz4_match; [|done|rewrite length_take; lia|lia].
      rewrite slice_app by lia.
      destruct (Z.eqb_spec (Z.of_nat (ip - r)) 65536) as [->|]; [done|].
      rewrite Z.mod_small, (proj2 (Z.eqb_neq _ _)) by lia.
      rewrite length_take, Nat2Z.id. replace (ip `min` length data - (ip - r))%nat with r by lia.
      rewrite copy_match_spec by (done || lia).
      apply IH; [lia|lia|lia].
    + apply IH; [lia|lia|done].
  - destruct (Nat.ltb_spec anchor (length data)).
    + cbn [app] in *. destruct fuel' as [|fuel']; [unfold emit_tail in Hf'; simpl in Hf'; lia|].
      rewrite unlz4_tail by (rewrite length_take; lia). rewrite slice_app by lia. done.
    + replace anchor with (length data) by lia. by destruct fuel'.
Qed.

Lemma decodable_small fuel data ip :
  Z.of_nat (length data) <= 65539 -> (length data - ip < fuel)%nat ->
  (ip <= length data)%nat -> decodable fuel data ip = length data.
Proof.
  intros Hl. revert ip. induction fuel as [|fuel IH]; intros ip Hf Hip; [lia|].
  cbn [decodable]. destruct (Nat.ltb_spec ip (length data)); [|done].
  destruct (find_match data ip) as [[r m]|] eqn:Hm; [|apply IH; lia].
  apply find_match_spec in Hm as ((? & ? & ? & _) & ? & ?).
  rewrite (proj2 (Z.eqb_neq _ _)) by lia. apply IH; lia.
Qed.

Lemma decompress_lz4_compress data c :
  Z.of_nat (length data) < 2 ^ 32 -> compress_lz4 data = Some c ->
  decompress_lz4 c = Some (take (decodable (S (length data)) data 0) data).
Proof.
  intros Hn. unfold compress_lz4. case_match; [done|]. intros <-%(inj Some).
  pose proof (read_length_header _ Hn) as Hh. unfold length_header in *. cbv zeta in *.
  rewrite lz4_loop_app. cbn [app decompress_lz4]. rewrite Hh. f_equal.
  rewrite <- (lz4_decodes _ (length (lz4_loop (S (length data)) data 0 0 [])) data 0 0);
    [done|lia|lia|done].
Qed.

Lemma decompress_rle_compress data c :
  Z.of_nat (length data) < 2 ^ 32 -> compress_rle data = Some c -> decompress_rle c = Some data.
Proof.
  intros Hn. unfold compress_rle. destruct data as [|x data]; [done|].
  case_match; [done|]. intros <-%(inj Some).
  pose proof (read_length_header _ Hn) as Hh. unfold length_header in *. cbv zeta in *.
  rewrite rle_loop_app. cbn [app decompress_rle]. rewrite Hh. f_equal.
  by rewrite rle_decodes.
Qed.

Lemma decompress_zle_compress data c :
  Z.of_nat (length data) < 2 ^ 32 -> compress_zle data = Some c -> decompress_zle c = Some data.
Proof.
  intros Hn. unfold compress_zle. case_match; [done|]. intros <-%(inj Some).
  pose proof (read_length_header _ Hn) as Hh. unfold length_header in *. cbv zeta in *.
  rewrite zle_loop_app. cbn [app decompress_zle]. rewrite Hh. f_equal.
  by rewrite zle_decodes.
Qed.

Lemma compress_shorter data t c : compress data t = Some c -> (length c < length data)%nat.
Proof.
  unfold compress, compress_zstd_fallback. case_match; [done|].
  assert (Hrle : compress_rle data = Some c -> (length c < length data)%nat).
  { unfold compress_rle. destruct data; [done|]. case_match eqn:E; [done|]. intros [= <-].
    by apply Nat.leb_gt in E. }
  destruct t; try done; [unfold compress_lz4|unfold compress_zle]; case_match eqn:E; try done;
    intros [= <-]; by apply Nat.leb_gt in E.
Qed.

(** The length up to which a codec is lossless. *)
Definition codec_limit (t : HvCompType) : Z :=
  match t with LZ4 => 65539 | _ => 2 ^ 32 - 1 end.

(** C23: compression is lossless: what [compress] accepts for a codec, for any
    block up to 65539 bytes with LZ4 and below 4 GiB with the others, is
    strictly shorter than the block and [decompress] with the same setting
    gives the block back. *)
Theorem compress_roundtrip data t c :
  Z.of_nat (length data) <= codec_limit t -> compress data t = Some c ->
  decompress c t = Some data /\ (length c < length data)%nat.
Proof.
  intros Hl Hc. split; [|by eapply compress_shorter].
  unfold compress in Hc. case_match; [done|].
  unfold compress_zstd_fallback, decompress, decompress_zstd_fallback in *.
  destruct t; cbn [codec_limit] in Hl; try done;
    try (apply decompress_rle_compress; [lia|done]);
    try (apply decompress_zle_compress; [lia|done]).
  rewrite (decompress_lz4_compress data c) by (done || lia).
  by rewrite decodable_small, firstn_all by lia.
Qed.

Lemma compress_roundtrip_witness :
  exists c, compress (replicate 70 7 ++ replicate 30 0) LZ4 = Some c /\
            decompress c LZ4 = Some (replicate 70 7 ++ replicate 30 0).
Proof.
  eexists. split; [vm_compute; reflexivity|].
  eapply (compress_roundtrip (replicate 70 7 ++ replicate 30 0) LZ4);
    [vm_compute; discriminate|vm_compute; reflexivity].
Defined.

(** Where decoding stops short, the decoder returns the prefix. *)
Lemma truncated_decode data n :
  (Z.of_nat (length data) <? 2 ^ 32) = true ->
  (Z.of_nat (decodable (S (length data)) data 0) =? Z.of_nat n) = true ->
  (n <? length data)%nat = true ->
  (match compress data LZ4 with Some _ => true | None => false end) = true ->
  exists c, compress data LZ4 = Some c /\ decompress c LZ4 = Some (take n data) /\
            take n data <> data.
Proof.
  intros Hl%Z.ltb_lt Hd%Z.eqb_eq Hn%Nat.ltb_lt Hc.
  destruct (compress data LZ4) as [c|] eqn:E; [|done].
  exists c. split_and!; [done| |].
  - cbn [decompress]. replace n with (decodable (S (length data)) data 0) by lia.
    apply decompress_lz4_compress; [done|]. unfold compress in E. by case_match.
  - intros H. apply (f_equal length) in H. rewrite length_take in H. lia.
Qed.

(** A 65540-byte block whose last four bytes repeat its first four. *)
Definition far_block : list Z :=
  [1; 2; 3; 4] ++ replicate (Z.to_nat 65532) 0 ++ [1; 2; 3; 4].

(** One block length further the LZ4 codec loses data: the block of 65540
    bytes is accepted, its last match has distance 65536, whose 16-bit offset
    is 0, and the decoder stops there and returns the first 65536 bytes as if
    they were the whole block. *)
Theorem lz4_far_match_truncates :
  exists c, compress far_block LZ4 = Some c /\
            decompress c LZ4 = Some (take (Z.to_nat 65536) far_block) /\
            take (Z.to_nat 65536) far_block <> far_block.
Proof. apply truncated_decode; vm_compute; reflexivity. Qed.

End CompressFacts.
