(* ===== verification/Raidz.v ===== *)
(** * RAID-Z parity (services/fs/hvfs/raidz.rs)

    Arithmetic in GF(2^8) by logarithm tables, the parity columns of a stripe,
    their verification and the reconstruction of failed columns.  A column is
    a list of bytes ([Z]), a stripe the list of its columns, parity first.  The
    functions of a stripe take the stripe unit as an argument; the code uses
    [HV_POOL_BLOCK_SIZE] (4096), and the facts hold for every unit.  Indexing
    that can leave its array is a [Panic]. *)
From S2P Require Import Prelude.

Module Raidz.

Definition HV_POOL_BLOCK_SIZE : nat := Z.to_nat 4096.
Definition HV_RAIDZ_MIN_COLS : nat := 2.
Definition HV_RAIDZ_MAX_COLS : nat := 16.

Inductive HvRaidzLevel : Type :=
  | Single | RaidZ1 | RaidZ2 | RaidZ3 | Mirror.

#[export] Instance HvRaidzLevel_eq_dec : EqDecision HvRaidzLevel.
Proof. solve_decision. Defined.

Definition parity_cols (l : HvRaidzLevel) : nat :=
  match l with Single => 0 | RaidZ1 => 1 | RaidZ2 => 2 | RaidZ3 => 3 | Mirror => 0 end.

Definition max_failures (l : HvRaidzLevel) : nat :=
  match l with Single => 0 | RaidZ1 => 1 | RaidZ2 => 2 | RaidZ3 => 3 | Mirror => 1 end.

Record HvRaidzCol : Type := mkCol {
  col_id : nat;
  devidx : nat;
  col_offset : Z;
  col_size : nat;
  col_data : list Z;
  is_parity : bool;
}.

Record HvRaidzMap : Type := mkMap {
  level : HvRaidzLevel;
  ncols : nat;
  nparity : nat;
  ashift : Z;
  cols : list HvRaidzCol;
}.

(** ** The field tables *)
Definition GF_EXP : list Z :=
  [1; 2; 4; 8; 16; 32; 64; 128; 29; 58; 116; 232; 205; 135; 19; 38;
   76; 152; 45; 90; 180; 117; 234; 201; 143; 3; 6; 12; 24; 48; 96; 192;
   157; 39; 78; 156; 37; 74; 148; 53; 106; 212; 181; 119; 238; 193; 159; 35;
   70; 140; 5; 10; 20; 40; 80; 160; 93; 186; 105; 210; 185; 111; 222; 161;
   95; 190; 97; 194; 153; 47; 94; 188; 101; 202; 137; 15; 30; 60; 120; 240;
   253; 231; 211; 187; 107; 214; 177; 127; 254; 225; 223; 163; 91; 182; 113; 226;
   217; 175; 67; 134; 17; 34; 68; 136; 13; 26; 52; 104; 208; 189; 103; 206;
   129; 31; 62; 124; 248; 237; 199; 147; 59; 118; 236; 197; 151; 51; 102; 204;
   133; 23; 46; 92; 184; 109; 218; 169; 79; 158; 33; 66; 132; 21; 42; 84;
   168; 77; 154; 41; 82; 164; 85; 170; 73; 146; 57; 114; 228; 213; 183; 115;
   230; 209; 191; 99; 198; 145; 63; 126; 252; 229; 215; 179; 123; 246; 241; 255;
   227; 219; 171; 75; 150; 49; 98; 196; 149; 55; 110; 220; 165; 87; 174; 65;
   130; 25; 50; 100; 200; 141; 7; 14; 28; 56; 112; 224; 221; 167; 83; 166;
   81; 162; 89; 178; 121; 242; 249; 239; 195; 155; 43; 86; 172; 69; 138; 9;
   18; 36; 72; 144; 61; 122; 244; 245; 247; 243; 251; 235; 203; 139; 11; 22;
   44; 88; 176; 125; 250; 233; 207; 131; 27; 54; 108; 216; 173; 71; 142; 1;
   2; 4; 8; 16; 32; 64; 128; 29; 58; 116; 232; 205; 135; 19; 38; 76;
   152; 45; 90; 180; 117; 234; 201; 143; 3; 6; 12; 24; 48; 96; 192; 157;
   39; 78; 156; 37; 74; 148; 53; 106; 212; 181; 119; 238; 193; 159; 35; 70;
   140; 5; 10; 20; 40; 80; 160; 93; 186; 105; 210; 185; 111; 222; 161; 95;
   190; 97; 194; 153; 47; 94; 188; 101; 202; 137; 15; 30; 60; 120; 240; 253;
   231; 211; 187; 107; 214; 177; 127; 254; 225; 223; 163; 91; 182; 113; 226; 217;
   175; 67; 134; 17; 34; 68; 136; 13; 26; 52; 104; 208; 189; 103; 206; 129;
   31; 62; 124; 248; 237; 199; 147; 59; 118; 236; 197; 151; 51; 102; 204; 133;
   23; 46; 92; 184; 109; 218; 169; 79; 158; 33; 66; 132; 21; 42; 84; 168;
   77; 154; 41; 82; 164; 85; 170; 73; 146; 57; 114; 228; 213; 183; 115; 230;
   209; 191; 99; 198; 145; 63; 126; 252; 229; 215; 179; 123; 246; 241; 255; 227;
   219; 171; 75; 150; 49; 98; 196; 149; 55; 110; 220; 165; 87; 174; 65; 130;
   25; 50; 100; 200; 141; 7; 14; 28; 56; 112; 224; 221; 167; 83; 166; 81;
   162; 89; 178; 121; 242; 249; 239; 195; 155; 43; 86; 172; 69; 138; 9; 18;
   36; 72; 144; 61; 122; 244; 245; 247; 243; 251; 235; 203; 139; 11; 22; 44;
   88; 176; 125; 250; 233; 207; 131; 27; 54; 108; 216; 173; 71; 142; 1; 2].

Definition GF_LOG : list Z :=
  [0; 0; 1; 25; 2; 50; 26; 198; 3; 223; 51; 238; 27; 104; 199; 75;
   4; 100; 224; 14; 52; 141; 239; 129; 28; 193; 105; 248; 200; 8; 76; 113;
   5; 138; 101; 47; 225; 36; 15; 33; 53; 147; 142; 218; 240; 18; 130; 69;
   29; 181; 194; 125; 106; 39; 249; 185; 201; 154; 9; 120; 77; 228; 114; 166;
   6; 191; 139; 98; 102; 221; 48; 253; 226; 152; 37; 179; 16; 145; 34; 136;
   54; 208; 148; 206; 143; 150; 219; 189; 241; 210; 19; 92; 131; 56; 70; 64;
   30; 66; 182; 163; 195; 72; 126; 110; 107; 58; 40; 84; 250; 133; 186; 61;
   202; 94; 155; 159; 10; 21; 121; 43; 78; 212; 229; 172; 115; 243; 167; 87;
   7; 112; 192; 247; 140; 128; 99; 13; 103; 74; 222; 237; 49; 197; 254; 24;
   227; 165; 153; 119; 38; 184; 180; 124; 17; 68; 146; 217; 35; 32; 137; 46;
   55; 63; 209; 91; 149; 188; 207; 205; 144; 135; 151; 178; 220; 252; 190; 97;
   242; 86; 211; 171; 20; 42; 93; 158; 132; 60; 57; 83; 71; 109; 65; 162;
   31; 45; 67; 216; 183; 123; 164; 118; 196; 23; 73; 236; 127; 12; 111; 246;
   108; 161; 59; 82; 41; 157; 85; 170; 251; 96; 134; 177; 187; 204; 62; 90;
   203; 89; 95; 176; 156; 169; 160; 81; 11; 245; 22; 235; 122; 117; 44; 215;
   79; 174; 213; 233; 230; 231; 173; 232; 116; 214; 244; 234; 168; 80; 88; 175].

(** [GF_EXP[i]] and [GF_LOG[i]]; every index below is in range. *)
Definition gf_exp (i : nat) : Z := nth i GF_EXP 0.
Definition gf_log (a : Z) : Z := nth (Z.to_nat a) GF_LOG 0.

Definition gf_mul (a b : Z) : Z :=
  if (a =? 0) || (b =? 0) then 0
  else gf_exp (Z.to_nat ((gf_log a + gf_log b) mod 255)).

Definition gf_inv (a : Z) : Z :=
  if a =? 0 then 0 else gf_exp (Z.to_nat (255 - gf_log a)).

(** [p] and [col] select the coefficient of a data column in a parity column. *)
Definition coefficient (data_cols p col : nat) : Z := gf_exp ((p * data_cols + col) mod 255).

(** ** Gauss-Jordan elimination on an [n] by [2n] matrix *)
Definition mat_get (mat : list (list Z)) (i j : nat) : outcome Z :=
  match mat !! i with
  | Some row => match row !! j with Some x => Done x | None => Panic end
  | None => Panic
  end.

Definition mat_set (mat : list (list Z)) (i j : nat) (x : Z) : outcome (list (list Z)) :=
  match mat !! i with
  | Some row => if (j <? length row)%nat then Done (<[i := <[j := x]> row]> mat) else Panic
  | None => Panic
  end.

(** [while row < n && mat[row][col] == 0 { row += 1 }]. *)
Fixpoint find_pivot (fuel n : nat) (mat : list (list Z)) (row col : nat) : outcome nat :=
  match fuel with
  | O => Done row
  | S fuel =>
      if (row <? n)%nat then
        x ← mat_get mat row col;
        if x =? 0 then find_pivot fuel n mat (S row) col else Done row
      else Done row
  end.

(** [mat.swap(row, col)]. *)
Definition swap_rows (mat : list (list Z)) (i j : nat) : outcome (list (list Z)) :=
  match mat !! i, mat !! j with
  | Some ri, Some rj => Done (<[j := ri]> (<[i := rj]> mat))
  | _, _ => Panic
  end.

Definition scale_row (n : nat) (mat : list (list Z)) (row : nat) (k : Z) : outcome (list (list Z)) :=
  ofold (seq 0 (2 * n)) mat (fun mat j =>
    x ← mat_get mat row j; mat_set mat row j (gf_mul x k)).

Definition eliminate_row (n : nat) (mat : list (list Z)) (col i : nat) : outcome (list (list Z)) :=
  if (i =? col)%nat then Done mat
  else
    factor ← mat_get mat i col;
    if factor =? 0 then Done mat
    else ofold (seq 0 (2 * n)) mat (fun mat j =>
           x ← mat_get mat i j; y ← mat_get mat col j;
           mat_set mat i j (Z.lxor x (gf_mul factor y))).

(** The columns in turn; [None] is the early [return false].  [pivot] is
    written (its index is out of range from column 16 on) and never read. *)
Definition invert_column (n : nat) (st : option (list (list Z))) (col : nat)
  : outcome (option (list (list Z))) :=
  match st with
  | None => Done None
  | Some mat =>
      row ← find_pivot n n mat col col;
      if (n <=? row)%nat then Done None
      else
        mat ← (if (row =? col)%nat then Done mat else swap_rows mat row col);
        if (col <? HV_RAIDZ_MAX_COLS)%nat then
          d ← mat_get mat col col;
          mat ← scale_row n mat col (gf_inv d);
          mat ← ofold (seq 0 n) mat (fun mat i => eliminate_row n mat col i);
          Done (Some mat)
        else Panic
  end.

Definition gf_invert_matrix (mat : list (list Z)) (n : nat) : outcome (option (list (list Z))) :=
  ofold (seq 0 n) (Some mat) (invert_column n).

(** ** Stripes *)
Definition new (l : HvRaidzLevel) (n : nat) (shift : Z) : HvRaidzMap :=
  {| level := l; ncols := Nat.min (Nat.max n HV_RAIDZ_MIN_COLS) HV_RAIDZ_MAX_COLS;
     nparity := parity_cols l; ashift := shift; cols := [] |}.

Definition data_cols (m : HvRaidzMap) : nat := ncols m - nparity m.

Section Stripe.
Variable unit_size : nat.

(** [result[col][off..off + len].copy_from_slice(src)]. *)
Definition write_slice (column : list Z) (off : nat) (src : list Z) : list Z :=
  take off column ++ src ++ drop (off + length src) column.

Definition byte_at (stripe : list (list Z)) (col off : nat) : Z :=
  match stripe !! col with Some c => nth off c 0 | None => 0 end.

Definition set_byte (stripe : list (list Z)) (col off : nat) (x : Z) : list (list Z) :=
  alter (fun c => <[off := x]> c) col stripe.

(** The data columns of one unit row. *)
Definition fill_unit (m : HvRaidzMap) (data : list Z) (unit_idx : nat)
    (result : list (list Z)) : list (list Z) :=
  fold_left (fun result col =>
    let src_off := (unit_idx * unit_size * data_cols m + col * unit_size)%nat in
    let src_end := Nat.min (src_off + unit_size) (length data) in
    let src_len := (src_end - src_off)%nat in
    let dst_off := (unit_idx * unit_size)%nat in
    if (0 <? src_len)%nat
    then alter (fun c => write_slice c dst_off (take src_len (drop src_off data)))
           (nparity m + col)%nat result
    else result) (seq 0 (data_cols m)) result.

(** [val] of parity column [p] at one offset. *)
Definition parity_byte (m : HvRaidzMap) (stripe : list (list Z)) (p off : nat) : Z :=
  fold_left (fun val col =>
    Z.lxor val (gf_mul (coefficient (data_cols m) p col)
                  (byte_at stripe (nparity m + col) off))) (seq 0 (data_cols m)) 0.

Definition parity_unit (m : HvRaidzMap) (unit_idx : nat) (result : list (list Z)) : list (list Z) :=
  fold_left (fun result byte_idx =>
    let off := (unit_idx * unit_size + byte_idx)%nat in
    fold_left (fun result p => set_byte result p off (parity_byte m result p off))
      (seq 0 (nparity m)) result) (seq 0 unit_size) result.

Definition div_ceil (a b : nat) : nat := (a / b + (if a mod b =? 0 then 0 else 1))%nat.

Definition generate_parity (m : HvRaidzMap) (data : list Z) : list (list Z) :=
  if (data_cols m =? 0)%nat then []
  else
    let total_units := div_ceil (length data) (unit_size * data_cols m) in
    fold_left (fun result unit_idx => parity_unit m unit_idx (fill_unit m data unit_idx result))
      (seq 0 total_units) (replicate (ncols m) (replicate (total_units * unit_size) 0)).

Definition total_units_of (m : HvRaidzMap) (stripe : list (list Z)) : nat :=
  match stripe !! nparity m with Some d => length d / unit_size | None => 0 end.

(** The loops of [verify_parity] with their early [return false]. *)
Definition verify_parity (m : HvRaidzMap) (stripe : list (list Z)) : bool :=
  if (length stripe <? ncols m)%nat then false
  else
    forallb (fun unit_idx =>
      forallb (fun byte_idx =>
        let off := (unit_idx * unit_size + byte_idx)%nat in
        forallb (fun p => parity_byte m stripe p off =? byte_at stripe p off)
          (seq 0 (nparity m))) (seq 0 unit_size)) (seq 0 (total_units_of m stripe)).

(** [row[i] = 1] and the coefficients of the failed columns; the second pass
    overwrites the coefficients.  [fc - self.nparity] wraps in a [usize]. *)
Definition initial_row (m : HvRaidzMap) (failed : list nat) (i : nat) : list Z :=
  let nfailed := length failed in
  <[i := 1]> (replicate nfailed 0)
    ++ ((fun col =>
           if (col <? nparity m)%nat then coefficient (data_cols m) col i
           else gf_exp ((col - nparity m) mod 255)) <$> failed).

Definition usize_sub (a b : nat) : Z := wrap_u64 (Z.of_nat a - Z.of_nat b).

Definition matrix_row (m : HvRaidzMap) (failed : list nat) (row : list Z) (col : nat) : list Z :=
  let nfailed := length failed in
  take nfailed row ++
  (if (col <? nparity m)%nat then
     (fun fc => gf_exp (Z.to_nat
        (wrap_u64 (Z.of_nat (col * data_cols m) + usize_sub fc (nparity m)) mod 255))) <$> failed
   else
     let d_col := (col - nparity m)%nat in
     (fun fc => if (fc <? nparity m)%nat then coefficient (data_cols m) fc d_col
                else if (fc - nparity m =? d_col)%nat then 1 else 0) <$> failed).

Definition coefficient_matrix (m : HvRaidzMap) (failed : list nat) : list (list Z) :=
  imap (fun i col => matrix_row m failed (initial_row m failed i) col) failed.

Definition col_in (col : nat) (failed : list nat) : bool := existsb (Nat.eqb col) failed.

(** [val] of a failed column at one position. *)
Definition reconstruct_byte (m : HvRaidzMap) (mat : list (list Z)) (failed : list nat)
    (stripe : list (list Z)) (row_idx pos : nat) : outcome Z :=
  let nfailed := length failed in
  ofold (seq 0 (ncols m)) 0 (fun val col =>
    if col_in col failed then Done val
    else match stripe !! col with
         | None => Panic
         | Some c =>
             let d := nth pos c 0 in
             coeff ← mat_get mat row_idx (nfailed + Nat.min col (nfailed - 1 + nparity m));
             Done (Z.lxor val (gf_mul coeff d))
         end).

Definition clone_columns (m : HvRaidzMap) (failed : list nat) (stripe : list (list Z))
  : outcome (list (list Z)) :=
  ofold (seq 0 (ncols m)) [] (fun result i =>
    if col_in i failed then Done (result ++ [[]])
    else match stripe !! i with Some c => Done (result ++ [c]) | None => Panic end).

(** [result[fc] = vec![0u8; ..]]. *)
Definition clear_failed (failed : list nat) (len : nat) (result : list (list Z))
  : outcome (list (list Z)) :=
  ofold failed result (fun result fc =>
    if (fc <? length result)%nat then Done (<[fc := replicate len 0]> result) else Panic).

(** [for col in self.nparity..self.ncols { extend_from_slice(&columns[col]) }]. *)
Definition concat_data (m : HvRaidzMap) (columns : list (list Z)) : outcome (list Z) :=
  ofold (seq (nparity m) (data_cols m)) [] (fun out col =>
    match columns !! col with Some c => Done (out ++ c) | None => Panic end).

Definition reconstruct_data (m : HvRaidzMap) (stripe : list (list Z)) (failed : list nat)
  : outcome (option (list Z)) :=
  if (max_failures (level m) <? length failed)%nat then Done None
  else if (length failed =? 0)%nat then
    out ← concat_data m stripe; Done (Some out)
  else
    let total_units := total_units_of m stripe in
    inverted ← gf_invert_matrix (coefficient_matrix m failed) (length failed);
    match inverted with
    | None => Done None
    | Some mat =>
        result ← clone_columns m failed stripe;
        result ← clear_failed failed (total_units * unit_size) result;
        result ← ofold (seq 0 total_units) result (fun result unit_idx =>
          ofold (seq 0 unit_size) result (fun result byte_idx =>
            let pos := (unit_idx * unit_size + byte_idx)%nat in
            ofold (imap (fun i fc => (i, fc)) failed) result (fun result '(row_idx, fc) =>
              val ← reconstruct_byte m mat failed stripe row_idx pos;
              Done (set_byte result fc pos val))));
        out ← concat_data m result;
        Done (Some out)
    end.

(** [HvRaidzEngine::scrub_block]. *)
Inductive HvScrubResult : Type :=
  | Clean
  | Corrupted (failed_cols : list nat)
  | Repaired (repaired_cols : list nat)
  | Unrepairable.

Definition scrub_block (m : HvRaidzMap) (stripe : list (list Z)) : HvScrubResult :=
  if verify_parity m stripe then Clean else Corrupted [0%nat].

End Stripe.

(** [HvRaidzEngine::create_stripe]. *)
Definition create_stripe (l : HvRaidzLevel) (n : nat) (shift : Z) : HvRaidzMap := new l n shift.

End Raidz.

(** ** Facts *)
Module RaidzFacts.
Import Raidz.

(** *** The field *)

(** Multiplication by [x] modulo [x^8 + x^4 + x^3 + x^2 + 1]. *)
Definition xtime (a : Z) : Z :=
  let s := 2 * a in if 256 <=? s then Z.lxor s 285 else s.

(** Carry-less multiplication modulo that polynomial, bit by bit. *)
Fixpoint clmul (n : nat) (a b : Z) : Z :=
  match n with
  | O => 0
  | S n => Z.lxor (if Z.odd b then a else 0) (clmul n (xtime a) (Z.div2 b))
  end.

Definition bytes : list Z := Z.of_nat <$> seq 0 256.

Lemma forall_bytes (f : Z -> bool) a : forallb f bytes = true -> u8 a -> f a = true.
Proof.
  intros H Ha. rewrite forallb_forall in H. apply H. unfold bytes.
  apply list_elem_of_In, list_elem_of_fmap. unfold u8 in Ha.
  exists (Z.to_nat a). split; [lia|]. apply elem_of_seq. lia.
Qed.

Lemma forall_bytes2 (f : Z -> Z -> bool) a b :
  forallb (fun a => forallb (f a) bytes) bytes = true -> u8 a -> u8 b -> f a b = true.
Proof.
  intros H Ha Hb. apply (forall_bytes (f a)); [|done].
  by apply (forall_bytes (fun a => forallb (f a) bytes)).
Qed.

(** The table-driven [gf_mul] is multiplication in GF(2^8): for all bytes
    it equals carry-less multiplication modulo 0x11d. *)
Theorem gf_mul_is_field_product a b : u8 a -> u8 b -> gf_mul a b = clmul 8 a b.
Proof.
  intros Ha Hb. apply Z.eqb_eq.
  apply (forall_bytes2 (fun a b => gf_mul a b =? clmul 8 a b)); [|done..].
  vm_compute. reflexivity.
Qed.

Lemma gf_mul_is_field_product_witness : gf_mul 19 202 = clmul 8 19 202.
Proof. apply gf_mul_is_field_product; unfold u8; lia. Defined.

Lemma gf_mul_cancel c d : u8 c -> u8 d -> c <> 0 -> gf_mul (gf_inv c) (gf_mul c d) = d.
Proof.
  intros Hc Hd Hne. assert (H : (c =? 0) || (gf_mul (gf_inv c) (gf_mul c d) =? d) = true).
  { apply (forall_bytes2 (fun c d => (c =? 0) || (gf_mul (gf_inv c) (gf_mul c d) =? d)));
      [|done..]. vm_compute. reflexivity. }
  rewrite (proj2 (Z.eqb_neq c 0)) in H by done. by apply Z.eqb_eq.
Qed.

Lemma gf_mul_inj c d d' :
  u8 c -> u8 d -> u8 d' -> c <> 0 -> gf_mul c d = gf_mul c d' -> d = d'.
Proof. intros. rewrite <- (gf_mul_cancel c d), <- (gf_mul_cancel c d') by done. congruence. Qed.

Lemma gf_mul_1 a : u8 a -> gf_mul a 1 = a.
Proof.
  intros Ha. apply Z.eqb_eq. apply (forall_bytes (fun a => gf_mul a 1 =? a)); [|done].
  vm_compute. reflexivity.
Qed.

Lemma gf_exp_u8 i : u8 (gf_exp i).
Proof.
  unfold gf_exp. rewrite nth_lookup. destruct (GF_EXP !! i) as [x|] eqn:E; simpl; [|unfold u8; lia].
  assert (H : forallb (fun x => (0 <=? x) && (x <? 256)) GF_EXP = true) by (vm_compute; reflexivity).
  rewrite forallb_forall in H. apply list_elem_of_lookup_2, list_elem_of_In, H in E.
  unfold u8. lia.
Qed.

Lemma coefficient_nonzero dc p col : coefficient dc p col <> 0.
Proof.
  unfold coefficient. assert (Hlt : ((p * dc + col) mod 255 < 255)%nat)
    by (apply Nat.mod_upper_bound; lia).
  set (i := ((p * dc + col) mod 255)%nat) in *. clearbody i.
  assert (H : forallb (fun i => negb (gf_exp i =? 0)) (seq 0 255) = true)
    by (vm_compute; reflexivity).
  rewrite forallb_forall in H. specialize (H i ltac:(apply in_seq; lia)).
  by destruct (Z.eqb_spec (gf_exp i) 0).
Qed.

Lemma coefficient_u8 dc p col : u8 (coefficient dc p col).
Proof. apply gf_exp_u8. Qed.

(** *** Stripes *)
Definition shape (n L : nat) (s : list (list Z)) : Prop :=
  length s = n /\ Forall (fun c => length c = L) s.

Lemma byte_at_set_byte s n L c o x c' o' :
  shape n L s -> (c < n)%nat -> (o < L)%nat ->
  byte_at (set_byte s c o x) c' o' =
  if decide (c' = c /\ o' = o) then x else byte_at s c' o'.
Proof.
  intros [Hl HL] Hc Ho. unfold byte_at, set_byte.
  destruct (decide (c' = c)) as [->|Hne].
  - rewrite list_lookup_alter_eq. destruct (s !! c) as [col|] eqn:E;
      [|apply lookup_ge_None in E; lia]. simpl.
    rewrite Forall_lookup in HL. specialize (HL _ _ E).
    case_decide as H; [destruct H as [_ ->]; rewrite nth_insert_eq; [done|lia]|].
    apply nth_insert_ne. naive_solver.
  - rewrite list_lookup_alter_ne by done. by rewrite decide_False by naive_solver.
Qed.

Lemma shape_alter n L s c (f : list Z -> list Z) :
  shape n L s -> (forall col, length col = L -> length (f col) = L) ->
  shape n L (alter f c s).
Proof.
  intros [Hl HL] Hf. split; [by rewrite length_alter|].
  apply Forall_lookup. intros i col. rewrite Forall_lookup in HL.
  destruct (decide (c = i)) as [->|].
  - rewrite list_lookup_alter_eq. destruct (s !! i) eqn:E; [|done]. simpl.
    intros [= <-]. eauto.
  - rewrite list_lookup_alter_ne by done. eauto.
Qed.

Lemma shape_set_byte n L s c o x : shape n L s -> shape n L (set_byte s c o x).
Proof. intros H. apply shape_alter; [done|]. intros. by rewrite length_insert. Qed.

(** The parity equation of one offset. *)
Definition parity_ok (m : HvRaidzMap) (s : list (list Z)) (off : nat) : Prop :=
  forall p, (p < nparity m)%nat -> parity_byte m s p off = byte_at s p off.

(** The parity byte depends on the data bytes at that offset only. *)
Lemma parity_byte_ext m s s' p off :
  (forall c, (nparity m <= c)%nat -> byte_at s c off = byte_at s' c off) ->
  parity_byte m s p off = parity_byte m s' p off.
Proof.
  intros H. unfold parity_byte. generalize 0. induction (seq 0 (data_cols m)) as [|c l IH];
    intros v; [done|]. simpl. rewrite (H (nparity m + c)%nat) by lia. apply IH.
Qed.

Lemma parity_ok_ext m s s' off :
  (forall c, byte_at s c off = byte_at s' c off) -> parity_ok m s off -> parity_ok m s' off.
Proof.
  intros H Hp p Hlt. rewrite <- H, <- Hp by done. symmetry. by apply parity_byte_ext.
Qed.

Section Generate.
Context (unit_size : nat) (m : HvRaidzMap) (L : nat).
Hypothesis parity_lt : (nparity m < ncols m)%nat.

(** Writing the parity bytes of one offset. *)
Lemma parity_offset s off n :
  shape (ncols m) L s -> (off < L)%nat -> (n <= nparity m)%nat ->
  let s' := fold_left (fun r p => set_byte r p off (parity_byte m r p off)) (seq 0 n) s in
  shape (ncols m) L s' /\
  (forall c o, o <> off -> byte_at s' c o = byte_at s c o) /\
  (forall c, (n <= c)%nat -> byte_at s' c off = byte_at s c off) /\
  (forall p, (p < n)%nat -> byte_at s' p off = parity_byte m s p off).
Proof.
  intros Hs Ho. induction n as [|n IH]; intros Hn s'.
  { subst s'. simpl. split_and!; [done|done|done|]. intros p Hp. lia. }
  unfold s'. rewrite seq_S, fold_left_app. cbn [fold_left]. rewrite Nat.add_0_l.
  destruct IH as (Hsh & Hoff & Hc & Hp); [lia|].
  set (s0 := fold_left _ (seq 0 n) s) in *.
  split_and!.
  - by apply shape_set_byte.
  - intros c o Hne. erewrite byte_at_set_byte by (done || lia).
    rewrite decide_False by naive_solver. by apply Hoff.
  - intros c Hle. erewrite byte_at_set_byte by (done || lia).
    rewrite decide_False by lia. apply Hc. lia.
  - intros p Hlt. erewrite byte_at_set_byte by (done || lia). case_decide as Hd.
    + destruct Hd as [-> _]. apply parity_byte_ext. intros c Hle. apply Hc. lia.
    + apply Hp. lia.
Qed.

Lemma parity_unit_spec u s n :
  shape (ncols m) L s -> (u * unit_size + n <= L)%nat -> (n <= unit_size)%nat ->
  let s' := fold_left (fun r b =>
      fold_left (fun r p => set_byte r p (u * unit_size + b) (parity_byte m r p (u * unit_size + b)))
        (seq 0 (nparity m)) r) (seq 0 n) s in
  shape (ncols m) L s' /\
  (forall c o, (o < u * unit_size \/ u * unit_size + n <= o)%nat -> byte_at s' c o = byte_at s c o) /\
  (forall c o, (nparity m <= c)%nat -> byte_at s' c o = byte_at s c o) /\
  (forall b, (b < n)%nat -> parity_ok m s' (u * unit_size + b)).
Proof.
  intros Hs. induction n as [|n IH]; intros HL Hn s'.
  { subst s'. simpl. split_and!; [done|done|done|]. intros b Hb. lia. }
  unfold s'. rewrite seq_S, fold_left_app. cbn [fold_left]. rewrite Nat.add_0_l.
  destruct IH as (Hsh & Hout & Hdata & Hok); [lia|lia|].
  set (s0 := fold_left _ (seq 0 n) s) in *.
  destruct (parity_offset s0 (u * unit_size + n) (nparity m)) as (Hsh' & Hne & Hge & Hp);
    [done|lia|done|].
  split_and!.
  - done.
  - intros c o Ho. rewrite Hne by lia. apply Hout. lia.
  - intros c o Hc. destruct (decide (o = u * unit_size + n)%nat) as [->|].
    + rewrite Hge by done. by apply Hdata.
    + rewrite Hne by done. by apply Hdata.
  - intros b Hb. destruct (decide (b = n)) as [->|].
    + intros p Hlt. rewrite Hp by done. apply parity_byte_ext.
      intros c Hc. by rewrite Hge.
    + eapply parity_ok_ext; [|apply Hok; lia]. intros c. symmetry. apply Hne. lia.
Qed.

Lemma byte_at_alter s c (f : list Z -> list Z) c' o :
  byte_at (alter f c s) c' o =
  if decide (c = c') then match s !! c with Some col => nth o (f col) 0 | None => 0 end
  else byte_at s c' o.
Proof.
  unfold byte_at. case_decide as H.
  - subst. rewrite list_lookup_alter_eq. by destruct (s !! c').
  - by rewrite list_lookup_alter_ne.
Qed.

Lemma nth_write_slice c off src o :
  (off + length src <= length c)%nat ->
  nth o (write_slice c off src) 0 =
  if decide (off <= o < off + length src)%nat then nth (o - off) src 0 else nth o c 0.
Proof.
  intros Hl. unfold write_slice. rewrite !nth_lookup.
  destruct (decide (o < off)%nat).
  - rewrite lookup_app_l by (rewrite length_take; lia).
    rewrite lookup_take_lt by done. by rewrite decide_False by lia.
  - rewrite lookup_app_r, length_take by (rewrite length_take; lia).
    replace (o - off `min` length c)%nat with (o - off)%nat by lia.
    case_decide.
    + by rewrite lookup_app_l by lia.
    + rewrite lookup_app_r by lia. rewrite lookup_drop. do 2 f_equal. lia.
Qed.

Lemma length_write_slice c off src :
  (off + length src <= length c)%nat -> length (write_slice c off src) = length c.
Proof. intros. unfold write_slice. rewrite !length_app, length_take, length_drop. lia. Qed.

(** The data byte that belongs at column [c] of unit row [u], offset [b]. *)
Definition data_byte (data : list Z) (u c b : nat) : Z :=
  nth (u * unit_size * data_cols m + c * unit_size + b) data 0.

Lemma fill_unit_spec data u s n :
  shape (ncols m) L s -> ((u + 1) * unit_size <= L)%nat -> (n <= data_cols m)%nat ->
  let s' := fold_left (fun result col =>
      let src_off := (u * unit_size * data_cols m + col * unit_size)%nat in
      let src_end := Nat.min (src_off + unit_size) (length data) in
      let src_len := (src_end - src_off)%nat in
      let dst_off := (u * unit_size)%nat in
      if (0 <? src_len)%nat
      then alter (fun c => write_slice c dst_off (take src_len (drop src_off data)))
             (nparity m + col)%nat result
      else result) (seq 0 n) s in
  shape (ncols m) L s' /\
  (forall c o, (o < u * unit_size \/ (u + 1) * unit_size <= o)%nat ->
               byte_at s' c o = byte_at s c o) /\
  (forall c b, (n <= c)%nat -> byte_at s' (nparity m + c) b = byte_at s (nparity m + c) b) /\
  ((forall c b, (c < data_cols m)%nat -> (b < unit_size)%nat ->
      byte_at s (nparity m + c) (u * unit_size + b) = 0) ->
   forall c b, (c < n)%nat -> (b < unit_size)%nat ->
     byte_at s' (nparity m + c) (u * unit_size + b) = data_byte data u c b).
Proof.
  intros Hs HL. induction n as [|n IH]; intros Hn s'.
  { subst s'. simpl. split_and!; [done|done|done|]. intros _ c b Hc. lia. }
  unfold s'. rewrite seq_S, fold_left_app. cbn [fold_left]. rewrite Nat.add_0_l.
  destruct IH as (Hsh & Hout & Hge & Hdata); [lia|].
  set (s0 := fold_left _ (seq 0 n) s) in *. cbv zeta.
  set (src_off := (u * unit_size * data_cols m + n * unit_size)%nat).
  set (src_len := ((src_off + unit_size) `min` length data - src_off)%nat).
  assert (Hslen : length (take src_len (drop src_off data)) = src_len)
    by (rewrite length_take, length_drop; lia).
  assert (Hcol : forall col : list Z, length col = L ->
            (u * unit_size + length (take src_len (drop src_off data)) <= length col)%nat)
    by (intros col ->; rewrite Hslen; lia).
  assert (Hlk : exists col, s0 !! (nparity m + n)%nat = Some col /\ length col = L).
  { destruct Hsh as [Hl HF]. destruct (lookup_lt_is_Some_2 s0 (nparity m + n)) as [col Hc].
    { unfold data_cols in Hn. lia. }
    exists col. split; [done|]. rewrite Forall_lookup in HF. eauto. }
  destruct Hlk as (col0 & Hcol0 & HcolL).
  destruct (Nat.ltb_spec 0 src_len) as [Hpos|Hzero].
  - split_and!.
    + apply shape_alter; [done|]. intros col Hc. rewrite length_write_slice; [done|].
      rewrite Hc. rewrite <- HcolL. by apply Hcol.
    + intros c o Ho. rewrite byte_at_alter. case_decide as Hd; [|by apply Hout].
      subst c. rewrite Hcol0, nth_write_slice by by apply Hcol.
      rewrite decide_False by (rewrite Hslen; lia). rewrite <- Hout by done.
      unfold byte_at. by rewrite Hcol0.
    + intros c b Hc. rewrite byte_at_alter, decide_False by lia. apply Hge. lia.
    + intros H0 c b Hc Hb. rewrite byte_at_alter. case_decide as Hd.
      * assert (c = n) as -> by lia. rewrite Hcol0, nth_write_slice by by apply Hcol.
        rewrite Hslen. unfold data_byte. fold src_off. case_decide.
        -- replace (u * unit_size + b - u * unit_size)%nat with b by lia.
           by rewrite !nth_lookup, lookup_take_lt, lookup_drop by lia.
        -- rewrite (nth_overflow data) by lia. specialize (Hge n (u * unit_size + b)%nat).
           unfold byte_at at 1 in Hge. rewrite Hcol0 in Hge. rewrite Hge by lia.
           apply H0; lia.
      * apply Hdata; [done|lia|done].
  - split_and!; [done|done| |].
    + intros c b Hc. apply Hge. lia.
    + intros H0 c b Hc Hb. destruct (decide (c = n)) as [->|]; [|apply Hdata; [done|lia|done]].
      rewrite Hge by lia. rewrite H0 by lia. unfold data_byte. fold src_off.
      rewrite nth_overflow; [done|lia].
Qed.

End Generate.

(** *** Generated stripes *)
Section Generated.
Context (unit_size : nat) (m : HvRaidzMap) (data : list Z).
Hypothesis unit_pos : (0 < unit_size)%nat.
Hypothesis parity_lt : (nparity m < ncols m)%nat.

Let total := div_ceil (length data) (unit_size * data_cols m).

(** After [n] unit rows: the rows done satisfy the parity equation and hold the
    data, the rows to come are zero. *)
Definition rows_done (n : nat) (s : list (list Z)) : Prop :=
  shape (ncols m) (total * unit_size) s /\
  (forall off, (off < n * unit_size)%nat -> parity_ok m s off) /\
  (forall u c b, (u < n)%nat -> (c < data_cols m)%nat -> (b < unit_size)%nat ->
     byte_at s (nparity m + c) (u * unit_size + b) = data_byte unit_size m data u c b) /\
  (forall c o, (n * unit_size <= o)%nat -> byte_at s c o = 0).

Lemma rows_done_step n s :
  (n < total)%nat -> rows_done n s ->
  rows_done (S n) (parity_unit unit_size m n (fill_unit unit_size m data n s)).
Proof.
  intros Hn (Hsh & Hok & Hdata & Hz).
  assert (HL : ((n + 1) * unit_size <= total * unit_size)%nat)
    by (apply Nat.mul_le_mono_r; lia).
  destruct (fill_unit_spec unit_size m (total * unit_size) parity_lt data n s (data_cols m))
    as (Hsh1 & Hout1 & _ & Hdata1); [done|done|done|].
  change (fold_left _ _ s) with (fill_unit unit_size m data n s) in Hsh1, Hout1, Hdata1.
  set (s1 := fill_unit unit_size m data n s) in *.
  destruct (parity_unit_spec unit_size m (total * unit_size) parity_lt n s1 unit_size)
    as (Hsh2 & Hout2 & Hdata2 & Hok2); [done|lia|done|].
  change (fold_left _ _ s1) with (parity_unit unit_size m n s1) in Hsh2, Hout2, Hdata2, Hok2.
  set (s2 := parity_unit unit_size m n s1) in *.
  assert (Hsame : forall c o, (o < n * unit_size \/ (n + 1) * unit_size <= o)%nat ->
                              byte_at s2 c o = byte_at s c o)
    by (intros c o Ho; rewrite Hout2, Hout1 by lia; done).
  split_and!; [done| | |].
  - intros off Hoff. destruct (decide (off < n * unit_size)%nat).
    + eapply parity_ok_ext; [|by apply Hok]. intros c. symmetry. apply Hsame. lia.
    + replace off with (n * unit_size + (off - n * unit_size))%nat by lia. apply Hok2. lia.
  - intros u c b Hu Hc Hb. rewrite Hdata2 by lia. destruct (decide (u = n)) as [->|Hne].
    + apply Hdata1; [|done|done]. intros c' b' _ Hb'. apply Hz. lia.
    + assert ((u + 1) * unit_size <= n * unit_size)%nat by (apply Nat.mul_le_mono_r; lia).
      rewrite Hout1 by lia. apply Hdata; lia.
  - intros c o Ho. rewrite Hsame by lia. apply Hz. lia.
Qed.

Lemma generate_spec : rows_done total (generate_parity unit_size m data).
Proof.
  unfold generate_parity. rewrite (proj2 (Nat.eqb_neq _ _)) by (unfold data_cols; lia).
  fold total. assert (H : forall n, (n <= total)%nat ->
    rows_done n (fold_left (fun result u => parity_unit unit_size m u
      (fill_unit unit_size m data u result)) (seq 0 n)
      (replicate (ncols m) (replicate (total * unit_size) 0)))); [|by apply H].
  induction n as [|n IH]; intros Hn.
  - cbn [seq fold_left]. split_and!.
    + split; [by rewrite length_replicate|]. apply Forall_replicate. by rewrite length_replicate.
    + intros. lia.
    + intros. lia.
    + intros c o _. unfold byte_at.
      destruct (replicate (ncols m) _ !! c) as [col|] eqn:E; [|done].
      apply lookup_replicate in E as [-> _]. rewrite nth_lookup.
      destruct (replicate _ 0 !! o) eqn:E; [|done]. by apply lookup_replicate in E as [-> _].
  - rewrite seq_S, fold_left_app. apply rows_done_step; [lia|]. apply IH. lia.
Qed.

Lemma generate_units : total_units_of unit_size m (generate_parity unit_size m data) = total.
Proof.
  destruct generate_spec as ([Hl HF] & _). unfold total_units_of.
  destruct (lookup_lt_is_Some_2 (generate_parity unit_size m data) (nparity m)) as [c Hc]; [lia|].
  rewrite Hc. rewrite Forall_lookup in HF. rewrite (HF _ _ Hc).
  by apply Nat.div_mul; lia.
Qed.
End Generated.

(** *** Verification *)
Lemma verify_iff unit_size m s :
  (0 < unit_size)%nat ->
  verify_parity unit_size m s = true <->
  (ncols m <= length s)%nat /\
  forall off, (off < total_units_of unit_size m s * unit_size)%nat -> parity_ok m s off.
Proof.
  intros Hu. unfold verify_parity. destruct (Nat.ltb_spec (length s) (ncols m)) as [Hlt|Hge].
  { split; [done|]. intros [? _]. lia. }
  rewrite forallb_forall. setoid_rewrite forallb_forall. setoid_rewrite forallb_forall.
  split.
  - intros H. split; [done|]. intros off Hoff p Hp.
    specialize (H (off / unit_size)%nat). setoid_rewrite in_seq in H.
    pose proof (Nat.div_mod_eq off unit_size). pose proof (Nat.mod_upper_bound off unit_size).
    assert (off / unit_size < total_units_of unit_size m s)%nat
      by (apply Nat.Div0.div_lt_upper_bound; lia).
    specialize (H ltac:(lia) (off mod unit_size)%nat ltac:(lia) p ltac:(lia)).
    apply Z.eqb_eq in H. by replace (off / unit_size * unit_size + off mod unit_size)%nat
      with off in H by lia.
  - intros [_ H] u Hin b Hb p Hp. setoid_rewrite in_seq in Hin.
    rewrite in_seq in Hb, Hp. apply Z.eqb_eq, H; [|lia].
    assert ((u + 1) * unit_size <= total_units_of unit_size m s * unit_size)%nat
      by (apply Nat.mul_le_mono_r; lia). lia.
Qed.

Lemma div_ceil_bounds a b : (0 < b)%nat -> (a <= div_ceil a b * b < a + b)%nat.
Proof.
  intros Hb. unfold div_ceil. pose proof (Nat.div_mod_eq a b). pose proof (Nat.mod_upper_bound a b ltac:(lia)).
  destruct (Nat.eqb_spec (a mod b) 0); nia.
Qed.

(** C25: for a level with fewer parity columns than columns, the stripe written by
    [generate_parity] has all [ncols] columns (parity first), each of
    [ceil (length data / (unit * data_cols))] whole units; it verifies; and it
    holds the data: byte [b] of unit row [u] in data column [c] is byte
    [u * unit * data_cols + c * unit + b] of the block (zero past its end), so
    every byte [i] of the block is in the stripe, at the row and column given. *)
Theorem generate_parity_correct unit_size m data :
  (0 < unit_size)%nat -> (nparity m < ncols m)%nat ->
  let s := generate_parity unit_size m data in
  let row := (unit_size * data_cols m)%nat in
  let total := div_ceil (length data) row in
  (length s = ncols m /\ Forall (fun c => length c = total * unit_size)%nat s /\
   total_units_of unit_size m s = total /\ (length data <= total * row < length data + row)%nat) /\
  verify_parity unit_size m s = true /\
  (forall u c b, (u < total)%nat -> (c < data_cols m)%nat -> (b < unit_size)%nat ->
    byte_at s (nparity m + c) (u * unit_size + b)
    = nth (u * unit_size * data_cols m + c * unit_size + b) data 0) /\
  (forall i, (i < length data)%nat ->
    byte_at s (nparity m + i / unit_size mod data_cols m) (i / row * unit_size + i mod unit_size)
    = nth i data 0).
Proof.
  intros Hu Hp s row total. assert (Hdc : (0 < data_cols m)%nat) by (unfold data_cols; lia).
  assert (Hrow : (0 < row)%nat) by (unfold row; nia).
  pose proof (div_ceil_bounds (length data) row Hrow) as Hbd.
  destruct (generate_spec unit_size m data Hu Hp) as ([Hl HF] & Hok & Hdata & _).
  pose proof (generate_units unit_size m data Hu Hp) as Htot.
  split_and!; [done|done|done|apply Hbd|apply Hbd| |by apply Hdata|].
  - apply verify_iff; [done|]. unfold s. rewrite Htot. split; [lia|done].
  - intros i Hi. pose proof (Nat.div_mod_eq i unit_size) as H1. pose proof (Nat.div_mod_eq (i / unit_size) (data_cols m)) as H2.
    pose proof (Nat.Div0.div_div i unit_size (data_cols m)) as H3. fold row in H3.
    pose proof (Nat.Div0.div_lt_upper_bound i row total ltac:(unfold total in *; lia)) as H4.
    pose proof (Nat.mod_upper_bound i unit_size ltac:(lia)). pose proof (Nat.mod_upper_bound (i / unit_size) (data_cols m) ltac:(lia)).
    transitivity (nth (i / row * unit_size * data_cols m + i / unit_size mod data_cols m * unit_size + i mod unit_size)%nat data 0);
      [by apply Hdata|]. f_equal. rewrite H3 in H2. revert H1 H2. clear.
    generalize (i / row)%nat, (i / unit_size mod data_cols m)%nat, (i mod unit_size)%nat. generalize (i / unit_size)%nat.
    intros q u c b -> ->. lia.
Qed.

Lemma generate_parity_correct_witness :
  verify_parity 4 (create_stripe RaidZ2 5 9)
    (generate_parity 4 (create_stripe RaidZ2 5 9) [3; 1; 4; 1; 5; 9; 2; 6; 5; 3; 5; 8; 9; 7]) = true.
Proof.
  refine (proj1 (proj2 (generate_parity_correct 4 (create_stripe RaidZ2 5 9)
    [3; 1; 4; 1; 5; 9; 2; 6; 5; 3; 5; 8; 9; 7] _ _))); vm_compute; lia.
Defined.

(** All the columns come back, not only the parity columns. *)
Lemma generate_parity_returns_all_columns :
  length (generate_parity 4096 (create_stripe RaidZ1 3 9) (replicate 64 170)) = 3%nat.
Proof. by vm_compute. Qed.

(** *** A sum of products moves when one term does *)
Lemma lxor_fold_inj (f : nat -> Z) l v w :
  fold_left (fun v c => Z.lxor v (f c)) l v = fold_left (fun v c => Z.lxor v (f c)) l w -> v = w.
Proof.
  revert v w. induction l as [|c l IH]; intros v w H; [done|]. simpl in H. apply IH in H.
  apply (f_equal (fun z => Z.lxor z (f c))) in H.
  by rewrite !Z.lxor_assoc, Z.lxor_nilpotent, !Z.lxor_0_r in H.
Qed.

Lemma lxor_fold_update (f g : nat -> Z) n k v :
  (k < n)%nat -> (forall c, c <> k -> f c = g c) ->
  fold_left (fun v c => Z.lxor v (f c)) (seq 0 n) v
  = fold_left (fun v c => Z.lxor v (g c)) (seq 0 n) v -> f k = g k.
Proof.
  intros Hk Hfg. replace n with (k + S (n - k - 1))%nat by lia.
  rewrite seq_app, !fold_left_app. cbn [seq fold_left]. rewrite Nat.add_0_l.
  assert (Hext : forall l v, (k ∉ l) -> fold_left (fun v c => Z.lxor v (f c)) l v
                                        = fold_left (fun v c => Z.lxor v (g c)) l v).
  { induction l as [|c l IH]; intros w Hn; [done|]. simpl. apply not_elem_of_cons in Hn as [??].
    rewrite (Hfg c) by done. by apply IH. }
  rewrite (Hext (seq 0 k)) by (rewrite elem_of_seq; lia).
  rewrite (Hext (seq (S k) _)) by (rewrite elem_of_seq; lia).
  intros H%lxor_fold_inj. set (w := fold_left _ (seq 0 k) v) in H.
  apply (f_equal (Z.lxor w)) in H. by rewrite <- !Z.lxor_assoc, Z.lxor_nilpotent, !Z.lxor_0_l in H.
Qed.

(** C26: a scrub detects every single corrupted byte in the whole units of a
    stripe: if a stripe with at least one parity column and columns of equal
    length verifies, and one byte of any of its columns, data or parity, at an
    offset within the whole units of a column, is replaced by a different one, the
    scrub reports corruption (always of column 0).  Bytes behind the last whole unit
    are not checked, and a stripe without data columns, such as RaidZ2 with two,
    has no unit to check. *)
Theorem scrub_detects_corruption unit_size m s L col off x :
  (0 < unit_size)%nat -> (0 < nparity m)%nat -> shape (ncols m) L s ->
  (forall c o, u8 (byte_at s c o)) -> u8 x ->
  scrub_block unit_size m s = Clean ->
  (col < ncols m)%nat -> (off < total_units_of unit_size m s * unit_size)%nat ->
  x <> byte_at s col off ->
  scrub_block unit_size m (set_byte s col off x) = Corrupted [0%nat].
Proof.
  intros Hu Hnp Hsh Hb Hx Hclean Hcol Hoff Hne. unfold scrub_block in *.
  destruct (verify_parity unit_size m s) eqn:Hv; [|done]. clear Hclean.
  destruct (verify_parity unit_size m (set_byte s col off x)) eqn:Hv'; [exfalso|done].
  apply verify_iff in Hv as [Hlen Hok]; [|done]. apply verify_iff in Hv' as [_ Hok']; [|done].
  specialize (Hok off Hoff).
  assert (Ht : total_units_of unit_size m (set_byte s col off x) = total_units_of unit_size m s).
  { unfold total_units_of, set_byte. destruct (decide (col = nparity m)) as [->|].
    - rewrite list_lookup_alter_eq. destruct (s !! nparity m); simpl; by rewrite ?length_insert.
    - by rewrite list_lookup_alter_ne. }
  specialize (Hok' off ltac:(rewrite Ht; done)).
  assert (HoL : (off < L)%nat).
  { unfold total_units_of in Hoff. destruct (s !! nparity m) as [c|] eqn:E; [|lia].
    destruct Hsh as [_ HF]. rewrite Forall_lookup in HF. specialize (HF _ _ E).
    pose proof (Nat.Div0.mul_div_le (length c) unit_size). lia. }
  pose proof (fun c => byte_at_set_byte s (ncols m) L col off x c off Hsh Hcol HoL) as Hset.
  destruct (decide (col < nparity m)%nat) as [Hlt|Hge].
  - specialize (Hok col Hlt). specialize (Hok' col Hlt).
    rewrite (Hset col), decide_True in Hok' by done.
    rewrite <- (parity_byte_ext m s) in Hok'; [congruence|].
    intros c Hc. rewrite Hset, decide_False; [done|lia].
  - specialize (Hok 0%nat Hnp). specialize (Hok' 0%nat Hnp).
    rewrite (Hset 0%nat), decide_False in Hok' by lia. rewrite <- Hok in Hok'.
    unfold parity_byte in Hok'.
    apply (lxor_fold_update _ _ _ (col - nparity m)) in Hok'; [|unfold data_cols; lia|].
    + cbv beta in Hok'. rewrite Hset, decide_True in Hok' by lia.
      apply gf_mul_inj in Hok'; [|apply coefficient_u8|done|apply Hb|apply coefficient_nonzero].
      by replace (nparity m + (col - nparity m))%nat with col in Hok' by lia.
    + intros c Hc. rewrite Hset, decide_False; [done|lia].
Qed.


Definition byte_stripe (s : list (list Z)) : bool :=
  forallb (forallb (fun x => (0 <=? x) && (x <? 256))) s.

Lemma byte_stripe_u8 s c o : byte_stripe s = true -> u8 (byte_at s c o).
Proof.
  unfold byte_stripe, byte_at. rewrite forallb_forall. intros H.
  destruct (s !! c) as [col|] eqn:E; [|unfold u8; lia].
  apply list_elem_of_lookup_2, list_elem_of_In, H in E. rewrite forallb_forall in E.
  rewrite nth_lookup. destruct (col !! o) as [x|] eqn:Eo; simpl; [|unfold u8; lia].
  apply list_elem_of_lookup_2, list_elem_of_In, E in Eo. unfold u8. lia.
Qed.

Lemma scrub_detects_corruption_witness :
  let m := create_stripe RaidZ1 3 9 in
  let s := generate_parity 2 m [1; 2; 3; 4; 5] in
  scrub_block 2 m s = Clean /\ scrub_block 2 m (set_byte s 2 1 200) = Corrupted [0%nat].
Proof.
  intros m s. split; [reflexivity|].
  apply (scrub_detects_corruption 2 m s 4 2 1 200).
  - lia.
  - vm_compute. lia.
  - split; [reflexivity|]. repeat constructor.
  - intros c o. apply byte_stripe_u8. reflexivity.
  - unfold u8. lia.
  - reflexivity.
  - vm_compute. lia.
  - vm_compute. lia.
  - vm_compute. discriminate.
Defined.

(** *** Reconstruction *)

(** Matrices whose left half is the identity. *)
Definition left_identity (n : nat) (mat : list (list Z)) : Prop :=
  length mat = n /\
  forall i row, mat !! i = Some row ->
    length row = (2 * n)%nat /\ Forall u8 row /\
    forall j, (j < n)%nat -> row !! j = Some (if decide (i = j) then 1 else 0).

Lemma mat_get_in mat i row j x :
  mat !! i = Some row -> row !! j = Some x -> mat_get mat i j = Done x.
Proof. intros H1 H2. unfold mat_get. by rewrite H1, H2. Qed.

Lemma ofold_id {A B} (l : list B) (a : A) f :
  (forall x, x ∈ l -> f a x = Done a) -> ofold l a f = Done a.
Proof.
  induction l as [|x l IH]; intros H; [done|]. simpl. rewrite H by by left. simpl.
  apply IH. intros y Hy. apply H. by right.
Qed.

(** Elimination finds its pivots in the identity half and changes nothing: the
    coefficients are used as they are, not inverted. *)
Lemma invert_column_identity n mat col :
  (n <= HV_RAIDZ_MAX_COLS)%nat -> left_identity n mat -> (col < n)%nat ->
  invert_column n (Some mat) col = Done (Some mat).
Proof.
  intros Hn [Hl Hid] Hcol. unfold invert_column.
  destruct (lookup_lt_is_Some_2 mat col) as [row Hrow]; [lia|].
  destruct (Hid _ _ Hrow) as (Hlr & Hu8 & Hrid).
  assert (Hdiag : mat_get mat col col = Done 1).
  { eapply mat_get_in; [done|]. rewrite Hrid, decide_True by done. done. }
  assert (Hpivot : find_pivot n n mat col col = Done col).
  { destruct n as [|n]; [lia|]. cbn [find_pivot].
    rewrite (proj2 (Nat.ltb_lt _ _)) by lia. by rewrite Hdiag. }
  rewrite Hpivot. cbn [mbind outcome_bind].
  rewrite (proj2 (Nat.leb_gt _ _)) by lia. rewrite Nat.eqb_refl. cbn [mbind outcome_bind].
  rewrite (proj2 (Nat.ltb_lt _ _)) by lia. rewrite Hdiag. cbn [mbind outcome_bind].
  assert (Hscale : scale_row n mat col (gf_inv 1) = Done mat).
  { apply ofold_id. intros j Hj%elem_of_seq.
    destruct (lookup_lt_is_Some_2 row j) as [x Hx]; [lia|].
    rewrite (mat_get_in _ _ _ _ _ Hrow Hx). cbn [mbind outcome_bind]. unfold mat_set.
    rewrite Hrow, (proj2 (Nat.ltb_lt _ _)) by lia.
    change (gf_inv 1) with 1. rewrite gf_mul_1 by by eapply Forall_lookup_1.
    by rewrite (list_insert_id row j x Hx), list_insert_id. }
  rewrite Hscale. cbn [mbind outcome_bind]. rewrite ofold_id; [done|].
  intros i Hi%elem_of_seq. unfold eliminate_row. destruct (Nat.eqb_spec i col) as [|Hne]; [done|].
  destruct (lookup_lt_is_Some_2 mat i) as [ri Hri]; [lia|].
  destruct (Hid _ _ Hri) as (_ & _ & Hiid).
  rewrite (mat_get_in _ _ _ col 0 Hri); [done|]. by rewrite Hiid, decide_False by done.
Qed.

Lemma gf_invert_identity n mat :
  (n <= HV_RAIDZ_MAX_COLS)%nat -> left_identity n mat ->
  gf_invert_matrix mat n = Done (Some mat).
Proof.
  intros Hn Hid. apply ofold_id. intros col Hc%elem_of_seq.
  apply invert_column_identity; [done|done|lia].
Qed.

Lemma coefficient_matrix_identity m failed :
  left_identity (length failed) (coefficient_matrix m failed).
Proof.
  unfold coefficient_matrix. split; [by rewrite length_imap|].
  intros i row. rewrite list_lookup_imap. destruct (failed !! i) as [col|] eqn:E; [|done]. simpl.
  intros [= <-]. pose proof (lookup_lt_Some _ _ _ E) as Hi.
  assert (Hlow : take (length failed) (initial_row m failed i)
                 = <[i := 1]> (replicate (length failed) 0)).
  { unfold initial_row. rewrite take_app_length'; [done|].
    by rewrite length_insert, length_replicate. }
  unfold matrix_row. rewrite Hlow. split_and!.
  - rewrite length_app, length_insert, length_replicate.
    destruct (col <? nparity m)%nat; rewrite length_fmap; lia.
  - apply Forall_app. split.
    + apply Forall_insert; [|unfold u8; lia]. apply Forall_replicate. unfold u8. lia.
    + destruct (col <? nparity m)%nat; apply Forall_fmap, Forall_true; intros fc; simpl;
        [apply gf_exp_u8|].
      destruct (fc <? nparity m)%nat; [apply coefficient_u8|].
      destruct (fc - nparity m =? col - nparity m)%nat; unfold u8; lia.
  - intros j Hj. rewrite lookup_app_l by (rewrite length_insert, length_replicate; lia).
    case_decide as Hd.
    + subst j. apply list_lookup_insert_eq. rewrite length_replicate. lia.
    + rewrite list_lookup_insert_ne by done. apply lookup_replicate. split; [done|lia].
Qed.

(** Some column at or after the [nfailed]-th survives. *)
Lemma late_survivor n (failed : list nat) :
  (2 * length failed < n)%nat ->
  exists col, (length failed <= col < n)%nat /\ (col ∉ failed).
Proof.
  intros Hn.
  destruct (decide (Forall (fun c => c ∈ failed) (seq (length failed) (n - length failed))))
    as [HF|HF].
  - assert (Hsub : seq (length failed) (n - length failed) ⊆+ failed).
    { apply NoDup_submseteq; [apply NoDup_seq|]. by apply Forall_forall. }
    apply submseteq_length in Hsub. rewrite length_seq in Hsub. lia.
  - apply not_Forall_Exists in HF; [|apply _]. apply Exists_exists in HF as (c & Hc & Hnot).
    apply elem_of_seq in Hc. exists c. split; [lia|done].
Qed.

Lemma col_in_spec col failed : col_in col failed = true <-> col ∈ failed.
Proof.
  unfold col_in. rewrite existsb_exists. split.
  - intros (x & Hx & ->%Nat.eqb_eq). by apply list_elem_of_In.
  - intros H. exists col. split; [by apply list_elem_of_In|apply Nat.eqb_refl].
Qed.

Lemma reconstruct_byte_panics m failed stripe row_idx pos :
  (0 < nparity m)%nat -> (ncols m <= length stripe)%nat -> failed <> [] ->
  (2 * length failed < ncols m)%nat ->
  reconstruct_byte m (coefficient_matrix m failed) failed stripe row_idx pos = Panic.
Proof.
  intros Hp Hlen Hne Hfew. destruct (late_survivor _ _ Hfew) as (col & Hcol & Hnot).
  assert (Hnf : (0 < length failed)%nat) by (destruct failed; simpl; [done|lia]).
  destruct (coefficient_matrix_identity m failed) as [Hml Hmat].
  assert (Hget : forall i j, mat_get (coefficient_matrix m failed) i j = Panic \/
                             exists x, mat_get (coefficient_matrix m failed) i j = Done x).
  { intros i j. unfold mat_get. repeat case_match; naive_solver. }
  apply (ofold_panics (fun _ => True) _ _ _ col); [done|apply elem_of_seq; lia| |].
  - intros v _. destruct (col_in col failed) eqn:E; [by apply col_in_spec in E|].
    destruct (lookup_lt_is_Some_2 stripe col) as [c Hc]; [lia|]. rewrite Hc.
    unfold mat_get. destruct (coefficient_matrix m failed !! row_idx) as [row|] eqn:Er; [|done].
    destruct (Hmat _ _ Er) as (Hlr & _).
    by rewrite lookup_ge_None_2 by lia.
  - intros v c Hc%elem_of_seq _. destruct (col_in c failed); [right; eauto|].
    destruct (lookup_lt_is_Some_2 stripe c) as [cc Hcc]; [lia|]. rewrite Hcc.
    destruct (Hget row_idx (length failed + c `min` (length failed - 1 + nparity m))%nat)
      as [->|[x ->]]; [by left|right; eauto].
Qed.

Lemma clone_columns_ok m failed stripe :
  (ncols m <= length stripe)%nat ->
  exists r, clone_columns m failed stripe = Done r /\ length r = ncols m.
Proof.
  intros Hl. unfold clone_columns.
  assert (H : forall n r, (n <= ncols m)%nat -> length r = (ncols m - n)%nat ->
    exists r', ofold (seq (ncols m - n) n) r (fun result i =>
      if col_in i failed then Done (result ++ [[]])
      else match stripe !! i with Some c => Done (result ++ [c]) | None => Panic end) = Done r'
    /\ length r' = ncols m).
  { induction n as [|n IH]; intros r Hn Hr; cbn [seq ofold].
    - exists r. split; [done|lia].
    - destruct (lookup_lt_is_Some_2 stripe (ncols m - S n)) as [c Hc]; [lia|]. rewrite Hc.
      replace (S (ncols m - S n)) with (ncols m - n)%nat by lia.
      destruct (col_in _ failed); cbn [mbind outcome_bind]; apply IH;
        rewrite ?length_app; simpl; lia. }
  specialize (H (ncols m) []). rewrite Nat.sub_diag in H. by apply H.
Qed.

Lemma clear_failed_ok failed len r n :
  length r = n -> Forall (fun fc => (fc < n)%nat) failed ->
  exists r', clear_failed failed len r = Done r'.
Proof.
  intros Hr HF. destruct (ofold_inv (fun r => length r = n) failed r
    (fun result fc => if (fc <? length result)%nat
       then Done (<[fc := replicate len 0]> result) else Panic)) as (r' & Hr' & _); [done| |by exists r'].
  intros a fc Hfc Ha. rewrite Forall_forall in HF. specialize (HF _ Hfc).
  rewrite Ha, (proj2 (Nat.ltb_lt _ _)) by done. eexists. split; [done|]. by rewrite length_insert.
Qed.

Lemma div_ceil_pos a b : (0 < a)%nat -> (0 < b)%nat -> (0 < div_ceil a b)%nat.
Proof.
  intros Ha Hb. unfold div_ceil. pose proof (Nat.div_mod_eq a b).
  destruct (Nat.eqb_spec (a mod b) 0); nia.
Qed.

(** Reconstruction does not work: with any parity level, when at most the
    tolerated number of columns has failed and they are fewer than half of the
    columns, [reconstruct_data] of a stripe that [generate_parity] wrote for a
    non-empty block indexes past the coefficient row and panics. *)
Theorem reconstruct_panics unit_size m data failed :
  (0 < unit_size)%nat -> (0 < nparity m < ncols m)%nat -> (ncols m <= HV_RAIDZ_MAX_COLS)%nat ->
  data <> [] -> failed <> [] ->
  (length failed <= max_failures (level m))%nat -> (2 * length failed < ncols m)%nat ->
  Forall (fun fc => (fc < ncols m)%nat) failed ->
  reconstruct_data unit_size m (generate_parity unit_size m data) failed = Panic.
Proof.
  intros Hu Hp Hmax Hdata Hne Htol Hfew HF.
  destruct (generate_spec unit_size m data Hu ltac:(lia)) as ([Hl _] & _).
  pose proof (generate_units unit_size m data Hu ltac:(lia)) as Ht.
  set (s := generate_parity unit_size m data) in *.
  assert (Hnf : (0 < length failed)%nat) by (destruct failed; simpl; [done|lia]).
  unfold reconstruct_data. rewrite (proj2 (Nat.ltb_ge _ _)) by done.
  rewrite (proj2 (Nat.eqb_neq _ _)) by lia.
  rewrite gf_invert_identity; [|lia|apply coefficient_matrix_identity]. cbn [mbind outcome_bind].
  destruct (clone_columns_ok m failed s) as (r & -> & Hr); [lia|]. cbn [mbind outcome_bind].
  destruct (clear_failed_ok failed (total_units_of unit_size m s * unit_size) r _ Hr HF)
    as (r' & ->). cbn [mbind outcome_bind].
  assert (Htp : (0 < total_units_of unit_size m s)%nat).
  { rewrite Ht. apply div_ceil_pos; [destruct data; simpl; [done|lia]|]. unfold data_cols. nia. }
  assert (Hinner : forall u b result,
    ofold (imap (fun i fc => (i, fc)) failed) result (fun result '(row_idx, fc) =>
      val ← reconstruct_byte m (coefficient_matrix m failed) failed s row_idx (u * unit_size + b);
      Done (set_byte result fc (u * unit_size + b) val)) = Panic).
  { intros u b result. destruct failed as [|fc failed]; [done|]. cbn [imap ofold].
    by rewrite reconstruct_byte_panics by (done || lia). }
  destruct (total_units_of unit_size m s) as [|t]; [lia|]. cbn [seq ofold].
  destruct unit_size as [|k]; [lia|]. cbn [seq ofold]. by rewrite Hinner.
Qed.

Lemma reconstruct_panics_witness :
  reconstruct_data 4 (create_stripe RaidZ1 3 9)
    (generate_parity 4 (create_stripe RaidZ1 3 9) [1; 2; 3; 4; 5]) [1%nat] = Panic.
Proof.
  apply reconstruct_panics; try (vm_compute; lia); try done. repeat constructor.
Defined.


Lemma div_ceil_two a b : (0 < b)%nat -> (b < a)%nat -> (2 <= div_ceil a b)%nat.
Proof.
  intros Hb Ha. unfold div_ceil. pose proof (Nat.div_mod_eq a b).
  pose proof (Nat.mod_upper_bound a b). destruct (Nat.eqb_spec (a mod b) 0); nia.
Qed.

Lemma concat_data_starts m s c0 :
  s !! nparity m = Some c0 -> (nparity m < ncols m)%nat -> (ncols m <= length s)%nat ->
  exists rest, concat_data m s = Done (c0 ++ rest).
Proof.
  intros Hc Hp Hl. unfold concat_data, data_cols.
  replace (ncols m - nparity m)%nat with (S (ncols m - nparity m - 1)) by lia.
  cbn [seq ofold]. rewrite Hc. cbn [mbind outcome_bind].
  destruct (ofold_inv (fun out => exists rest, out = c0 ++ rest)
    (seq (S (nparity m)) (ncols m - nparity m - 1)) ([] ++ c0)
    (fun out col => match s !! col with Some c => Done (out ++ c) | None => Panic end))
    as (out & -> & rest & ->); [by exists []; rewrite app_nil_r| |by exists rest].
  intros out col Hcol%elem_of_seq (rest & ->).
  destruct (lookup_lt_is_Some_2 s col) as [c Hcc]; [lia|]. rewrite Hcc.
  eexists. split; [done|]. exists (rest ++ c). by rewrite app_assoc.
Qed.

(** Even with no failed column the block does not come back: a block that
    spans more than one unit row over two or more data columns is returned
    column after column, so its second unit is replaced by the first unit of
    the second row. *)
Theorem reconstruct_reorders unit_size m data :
  (0 < unit_size)%nat -> (nparity m < ncols m)%nat -> (2 <= data_cols m)%nat ->
  (unit_size * data_cols m < length data)%nat ->
  nth unit_size data 0 <> nth (unit_size * data_cols m) data 0 ->
  exists out,
    reconstruct_data unit_size m (generate_parity unit_size m data) [] = Done (Some out) /\
    nth unit_size out 0 = nth (unit_size * data_cols m) data 0 /\
    take (length data) out <> data.
Proof.
  intros Hu Hp Hdc Hlen Hne.
  destruct (generate_spec unit_size m data Hu Hp) as ([Hl HF] & _ & Hdata & _).
  set (s := generate_parity unit_size m data) in *.
  destruct (lookup_lt_is_Some_2 s (nparity m)) as [c0 Hc0]; [lia|].
  destruct (concat_data_starts m s c0 Hc0) as [rest Hout]; [done|lia|].
  exists (c0 ++ rest).
  pose proof (div_ceil_two (length data) (unit_size * data_cols m) ltac:(nia) Hlen) as Ht.
  assert (Hc0l : length c0 = (div_ceil (length data) (unit_size * data_cols m) * unit_size)%nat)
    by (rewrite Forall_lookup in HF; eauto).
  assert (Hnth : nth unit_size (c0 ++ rest) 0 = nth (unit_size * data_cols m) data 0).
  { rewrite app_nth1 by nia. specialize (Hdata 1%nat 0%nat 0%nat).
    unfold byte_at, data_byte in Hdata.
    rewrite !Nat.add_0_r, Nat.mul_1_l, Hc0 in Hdata. apply Hdata; lia. }
  split_and!; [|done|].
  - unfold reconstruct_data. by rewrite Hout.
  - intros Heq. apply Hne. rewrite <- Hnth, <- Heq at 1.
    rewrite !nth_lookup, lookup_take_lt; [done|]. nia.
Qed.

Lemma reconstruct_reorders_witness :
  exists out, reconstruct_data 2 (create_stripe RaidZ1 3 9)
    (generate_parity 2 (create_stripe RaidZ1 3 9) [1; 2; 3; 4; 5; 6]) [] = Done (Some out) /\
    take 6 out <> [1; 2; 3; 4; 5; 6].
Proof.
  destruct (reconstruct_reorders 2 (create_stripe RaidZ1 3 9) [1; 2; 3; 4; 5; 6])
    as (out & H & _ & Hne); [vm_compute; lia..|vm_compute; discriminate|].
  exists out. split; [exact H|exact Hne].
Defined.

End RaidzFacts.
