(* ===== verification/Metaslab.v ===== *)
(** * Metaslabs (services/fs/hvfs/metaslab.rs)

    A metaslab is a region of a device divided into blocks of 4096 bytes, with
    one bit per block in 64-bit words: a set bit is a free block.  [alloc] takes
    the first run of free blocks that is long enough, [free] gives a range back.

    The facts: the metaslab implements a set of used blocks by first fit; after
    any history the live extents are disjoint and the free space is accounted
    exactly; and what a double free does to that accounting. *)
From S2P Require Import Prelude.

Module Metaslab.

Definition HV_POOL_BLOCK_SIZE : Z := 4096.
Definition HV_MS_BLOCK_SIZE : Z := HV_POOL_BLOCK_SIZE.

Inductive HvMsState : Type := Uninit | Active | Full.

#[export] Instance HvMsState_eq_dec : EqDecision HvMsState.
Proof. solve_decision. Defined.

Record HvMetaslab : Type := mkMetaslab {
  id : Z;
  vdev_id : Z;
  start : Z;
  size : Z;
  state : HvMsState;
  allocated : Z;
  freed : Z;
  space : Z;
  free_space : Z;
  bitmap : list Z;
  max_block : Z;
  weight : Z;
  loaded : bool;
  condensing : bool;
}.

Definition eta_ms (m : HvMetaslab) : HvMetaslab :=
  mkMetaslab (id m) (vdev_id m) (start m) (size m) (state m) (allocated m) (freed m) (space m)
    (free_space m) (bitmap m) (max_block m) (weight m) (loaded m) (condensing m).
Definition set_state (v : HvMsState) (m : HvMetaslab) : HvMetaslab := ltac:(setter eta_ms state v m).
Definition set_allocated (v : Z) (m : HvMetaslab) : HvMetaslab := ltac:(setter eta_ms allocated v m).
Definition set_freed (v : Z) (m : HvMetaslab) : HvMetaslab := ltac:(setter eta_ms freed v m).
Definition set_free_space (v : Z) (m : HvMetaslab) : HvMetaslab := ltac:(setter eta_ms free_space v m).
Definition set_bitmap (v : list Z) (m : HvMetaslab) : HvMetaslab := ltac:(setter eta_ms bitmap v m).
Definition set_weight (v : Z) (m : HvMetaslab) : HvMetaslab := ltac:(setter eta_ms weight v m).

Definition div_ceil (a b : Z) : Z := (a + b - 1) / b.

Definition new (id' vdev_id' start' size' : Z) : HvMetaslab :=
  let nblocks := wrap_u32 (size' / HV_MS_BLOCK_SIZE) in
  {| id := id'; vdev_id := vdev_id'; start := start'; size := size'; state := Active;
     allocated := 0; freed := 0; space := size'; free_space := size';
     bitmap := replicate (Z.to_nat (div_ceil nblocks 64)) U64_MAX;
     max_block := nblocks; weight := size'; loaded := true; condensing := false |}.

Definition get_bit (bm : list Z) (block : nat) : bool :=
  match bm !! (block / 64)%nat with
  | None => false
  | Some w => Z.land (Z.shiftr w (Z.of_nat (block mod 64))) 1 =? 1
  end.

Definition set_bit (bm : list Z) (block : nat) : list Z :=
  match bm !! (block / 64)%nat with
  | None => bm
  | Some w => <[(block / 64)%nat := Z.lor w (Z.shiftl 1 (Z.of_nat (block mod 64)))]> bm
  end.

Definition clear_bit (bm : list Z) (block : nat) : list Z :=
  match bm !! (block / 64)%nat with
  | None => bm
  | Some w => <[(block / 64)%nat := Z.land w (not_u64 (Z.shiftl 1 (Z.of_nat (block mod 64))))]> bm
  end.

(** The loop of [find_contiguous] from block [i] on, [k] blocks to go. *)
Fixpoint find_from (bm : list Z) (nblocks : Z) (k i : nat) (found start' : Z) : option Z :=
  match k with
  | O => None
  | S k =>
      if get_bit bm i then
        let start' := if found =? 0 then Z.of_nat i else start' in
        let found := found + 1 in
        if nblocks <=? found then Some start' else find_from bm nblocks k (S i) found start'
      else find_from bm nblocks k (S i) 0 start'
  end.

Definition find_contiguous (m : HvMetaslab) (nblocks : Z) : option Z :=
  find_from (bitmap m) nblocks (Z.to_nat (max_block m)) 0 0 0.

Definition update_weight (m : HvMetaslab) : HvMetaslab :=
  set_weight (if size m / 2 <? free_space m then free_space m else wrap_u64 (free_space m * 2)) m.

(** [a..b] of [u32]s. *)
Definition blocks (a n : Z) : list nat :=
  seq (Z.to_nat a) (Z.to_nat (sat_sub (wrap_u32 (a + n)) a)).

Definition alloc (m : HvMetaslab) (size' : Z) : option Z * HvMetaslab :=
  if (size' =? 0) || (size m <? size') then (None, m)
  else
    let nblocks := wrap_u32 (div_ceil size' HV_MS_BLOCK_SIZE) in
    if max_block m <? nblocks then (None, m)
    else
      match find_contiguous m nblocks with
      | None => (None, m)
      | Some s =>
          let m := set_bitmap (fold_left clear_bit (blocks s nblocks) (bitmap m)) m in
          let offset := start m + s * HV_MS_BLOCK_SIZE in
          let m := set_allocated (wrap_u64 (allocated m + nblocks * HV_MS_BLOCK_SIZE)) m in
          let m := set_free_space (wrap_u64 (free_space m - nblocks * HV_MS_BLOCK_SIZE)) m in
          (Some offset, update_weight m)
      end.

Definition free (m : HvMetaslab) (offset size' : Z) : HvMetaslab :=
  let rel := sat_sub offset (start m) in
  let start_block := wrap_u32 (rel / HV_MS_BLOCK_SIZE) in
  let nblocks := wrap_u32 (div_ceil size' HV_MS_BLOCK_SIZE) in
  let m := set_bitmap
    (fold_left (fun bm b => if Z.of_nat b <? max_block m then set_bit bm b else bm)
       (blocks start_block nblocks) (bitmap m)) m in
  let m := set_freed (wrap_u64 (freed m + nblocks * HV_MS_BLOCK_SIZE)) m in
  let m := set_free_space (wrap_u64 (free_space m + nblocks * HV_MS_BLOCK_SIZE)) m in
  update_weight m.

Definition is_available (m : HvMetaslab) : bool :=
  bool_decide (state m = Active) && (0 <? free_space m).

Definition fragmentation (m : HvMetaslab) : Z :=
  if size m =? 0 then 0 else wrap 8 (wrap_u64 (free_space m * 100) / size m).

Definition sync (m : HvMetaslab) : HvMetaslab :=
  if free_space m =? 0 then set_state Full m else set_state Active m.

End Metaslab.

Module MetaslabFacts.
Import Metaslab.

(** *** Bits *)
Lemma land_shiftr_1 w n : 0 <= n -> (Z.land (Z.shiftr w n) 1 =? 1) = Z.testbit w n.
Proof.
  intros Hn. replace (Z.testbit w n) with (Z.testbit (Z.shiftr w n) 0)
    by (rewrite Z.shiftr_spec by done; f_equal).
  change 1 with (Z.ones 1) at 1. rewrite Z.land_ones, Z.bit0_odd by done.
  change (2 ^ 1) with 2. rewrite Zmod_odd. by destruct (Z.odd _).
Qed.

Lemma testbit_shiftl_1 n k : 0 <= n -> 0 <= k -> Z.testbit (Z.shiftl 1 n) k = bool_decide (k = n).
Proof.
  intros Hn Hk. rewrite Z.shiftl_spec by done. destruct (decide (k = n)) as [->|Hne].
  - rewrite Z.sub_diag. by rewrite bool_decide_true.
  - rewrite bool_decide_false by done. destruct (decide (k < n)); [by apply Z.testbit_neg_r; lia|].
    apply Z.bits_above_log2; [lia|]. simpl. lia.
Qed.

Lemma shiftl_1_u64 n : 0 <= n < 64 -> u64 (Z.shiftl 1 n).
Proof.
  intros Hn. rewrite Z.shiftl_mul_pow2 by lia. unfold u64, U64_MAX.
  assert (2 ^ n <= 2 ^ 63) by (apply Z.pow_le_mono_r; lia).
  pose proof (Z.pow_nonneg 2 n). change (2 ^ 63) with 9223372036854775808 in *. lia.
Qed.

Definition words_ok (bm : list Z) (n : nat) : Prop :=
  Forall u64 bm /\ (n <= 64 * length bm)%nat.

Lemma get_bit_testbit bm w b :
  bm !! (b / 64)%nat = Some w -> get_bit bm b = Z.testbit w (Z.of_nat (b mod 64)).
Proof. intros Hw. unfold get_bit. rewrite Hw. apply land_shiftr_1. lia. Qed.

Lemma same_block b b' : (b / 64 = b' / 64 -> b mod 64 = b' mod 64 -> b = b')%nat.
Proof. pose proof (Nat.div_mod_eq b 64). pose proof (Nat.div_mod_eq b' 64). lia. Qed.

(** Writing one word changes exactly the bit of one block. *)
Lemma get_bit_insert bm w w' b b' v :
  bm !! (b / 64)%nat = Some w ->
  (forall k, 0 <= k < 64 -> Z.testbit w' k = if decide (k = Z.of_nat (b mod 64)) then v else Z.testbit w k) ->
  get_bit (<[(b / 64)%nat := w']> bm) b' = if decide (b' = b) then v else get_bit bm b'.
Proof.
  intros Hw Hbit. pose proof (Nat.mod_upper_bound b' 64) as Hmod.
  destruct (decide (b' / 64 = b / 64)%nat) as [Hd|Hd].
  - rewrite (get_bit_testbit _ w') by (rewrite Hd; apply list_lookup_insert_eq; by eapply lookup_lt_Some).
    rewrite Hbit by lia. rewrite (get_bit_testbit bm w b') by by rewrite Hd.
    repeat case_decide; try done; subst; [|done].
    destruct (decide (b' = b)) as [->|Hne]; [done|]. exfalso. apply Hne, same_block; lia.
  - rewrite decide_False by (by intros ->). unfold get_bit. by rewrite list_lookup_insert_ne.
Qed.

Lemma decide_cons_or (b b' : nat) l (v w : bool) :
  (if decide (b' ∈ l) then v else if decide (b' = b) then v else w)
  = if decide (b' ∈ b :: l) then v else w.
Proof.
  destruct (decide (b' ∈ b :: l)) as [[->|H]%elem_of_cons|H]; [|by rewrite decide_True|].
  - rewrite (decide_True (P := b = b)) by done. by case_decide.
  - apply not_elem_of_cons in H as [H1 H2]. by rewrite !decide_False.
Qed.

Section words.
Context (n : nat).

Lemma word_lookup bm b : words_ok bm n -> (b < n)%nat -> exists w, bm !! (b / 64)%nat = Some w /\ u64 w.
Proof.
  intros [HF Hl] Hb. destruct (lookup_lt_is_Some_2 bm (b / 64)) as [w Hw].
  { apply Nat.Div0.div_lt_upper_bound. lia. }
  exists w. split; [done|]. by eapply (proj1 (Forall_lookup _ _) HF).
Qed.

Lemma set_bit_spec bm b :
  words_ok bm n -> (b < n)%nat ->
  words_ok (set_bit bm b) n /\ forall b', get_bit (set_bit bm b) b' = if decide (b' = b) then true else get_bit bm b'.
Proof.
  intros Hbm Hb. destruct (word_lookup bm b Hbm Hb) as (w & Hw & Hu). destruct Hbm as [HF Hl].
  pose proof (Nat.mod_upper_bound b 64). unfold set_bit. rewrite Hw. split.
  - split; [|by rewrite length_insert]. apply Forall_insert; [done|].
    apply u64_lor; [done|]. apply shiftl_1_u64. lia.
  - intros b'. apply (get_bit_insert bm w); [done|]. intros k Hk.
    rewrite Z.lor_spec, testbit_shiftl_1 by lia. case_decide as Hd.
    + by rewrite bool_decide_true, orb_true_r.
    + by rewrite bool_decide_false, orb_false_r.
Qed.

Lemma clear_bit_spec bm b :
  words_ok bm n -> (b < n)%nat ->
  words_ok (clear_bit bm b) n /\
  forall b', get_bit (clear_bit bm b) b' = if decide (b' = b) then false else get_bit bm b'.
Proof.
  intros Hbm Hb. destruct (word_lookup bm b Hbm Hb) as (w & Hw & Hu). destruct Hbm as [HF Hl].
  pose proof (Nat.mod_upper_bound b 64). unfold clear_bit. rewrite Hw, land_not_u64; [|done|apply shiftl_1_u64; lia].
  split.
  - split; [|by rewrite length_insert]. apply Forall_insert; [done|]. by apply ldiff_u64.
  - intros b'. apply (get_bit_insert bm w); [done|]. intros k Hk.
    rewrite Z.ldiff_spec, testbit_shiftl_1 by lia. case_decide as Hd.
    + by rewrite bool_decide_true, andb_false_r.
    + by rewrite bool_decide_false, andb_true_r.
Qed.

Lemma fold_clear bm l :
  words_ok bm n -> Forall (fun b => (b < n)%nat) l ->
  words_ok (fold_left clear_bit l bm) n /\
  forall b', get_bit (fold_left clear_bit l bm) b' = if decide (b' ∈ l) then false else get_bit bm b'.
Proof.
  intros Hbm HF. revert bm Hbm. induction HF as [|b l Hb _ IH]; intros bm Hbm; [done|].
  destruct (clear_bit_spec bm b Hbm Hb) as [Hbm' Hbit]. destruct (IH _ Hbm') as [H1 H2].
  split; [done|]. intros b'. cbn [fold_left]. rewrite H2, Hbit.
  apply decide_cons_or.
Qed.

Lemma fold_set bm l mb :
  words_ok bm n -> mb = Z.of_nat n -> Forall (fun b => (b < n)%nat) l ->
  let bm' := fold_left (fun bm b => if Z.of_nat b <? mb then set_bit bm b else bm) l bm in
  words_ok bm' n /\ forall b', get_bit bm' b' = if decide (b' ∈ l) then true else get_bit bm b'.
Proof.
  intros Hbm -> HF. revert bm Hbm. induction HF as [|b l Hb _ IH]; intros bm Hbm; [done|].
  cbn [fold_left]. rewrite (proj2 (Z.ltb_lt _ _)) by lia.
  destruct (set_bit_spec bm b Hbm Hb) as [Hbm' Hbit]. destruct (IH _ Hbm') as [H1 H2].
  split; [done|]. intros b'. rewrite H2, Hbit. apply decide_cons_or.
Qed.
End words.

(** *** First fit *)
Definition run_free (bm : list Z) (k n : nat) : Prop := forall b, (k <= b < k + n)%nat -> get_bit bm b = true.

(** The scan has seen [i] blocks: the last [found] are free, the one before is
    not, and no run of [n] free blocks ends below [i]. *)
Lemma find_from_spec bm n k i found s :
  (0 < n)%nat -> 0 <= found -> found < Z.of_nat n -> found <= Z.of_nat i ->
  (found <> 0 -> s = Z.of_nat i - found) ->
  (forall b, Z.of_nat i - found <= Z.of_nat b < Z.of_nat i -> get_bit bm b = true) ->
  (found = Z.of_nat i \/ exists b, Z.of_nat b = Z.of_nat i - found - 1 /\ get_bit bm b = false) ->
  (forall j, (j + n <= i)%nat -> ~ run_free bm j n) ->
  match find_from bm (Z.of_nat n) k i found s with
  | Some r => exists j, r = Z.of_nat j /\ (j + n <= i + k)%nat /\ run_free bm j n /\
                        forall j', (j' < j)%nat -> ~ run_free bm j' n
  | None => forall j, (j + n <= i + k)%nat -> ~ run_free bm j n
  end.
Proof.
  intros Hn. revert i found s. induction k as [|k IH]; intros i found s H0 Hlt Hi Hs Hrun Hbefore Hnone.
  { intros j Hj. apply Hnone. lia. }
  cbn [find_from]. replace (i + S k)%nat with (S i + k)%nat by lia. destruct (get_bit bm i) eqn:Hg.
  - set (s' := if found =? 0 then Z.of_nat i else s).
    assert (Hs' : s' = Z.of_nat i - found).
    { unfold s'. destruct (Z.eqb_spec found 0); [lia|by apply Hs]. }
    assert (Hrun' : forall b, Z.of_nat i - found <= Z.of_nat b < Z.of_nat (S i) -> get_bit bm b = true).
    { intros b Hb. destruct (decide (b = i)) as [->|]; [done|]. apply Hrun. lia. }
    destruct (Z.leb_spec (Z.of_nat n) (found + 1)) as [Hle|Hgt].
    + exists (i + 1 - n)%nat. split_and!; [lia|lia| |].
      * intros b Hb. apply Hrun'. lia.
      * intros j' Hj'. apply Hnone. lia.
    + apply IH; [lia|lia|lia|lia| | |].
      * intros b Hb. apply Hrun'. lia.
      * destruct Hbefore as [->|(b & Hb & Hgb)]; [left; lia|]. right. exists b. split; [lia|done].
      * intros j Hj Hfree. destruct (decide (j + n <= i)%nat); [by eapply Hnone|].
        destruct Hbefore as [->|(b & Hb & Hgb)]; [lia|]. rewrite Hfree in Hgb; [done|lia].
  - apply IH; [lia|lia|lia|lia|lia| |].
    + right. exists i. split; [lia|done].
    + intros j Hj Hfree. destruct (decide (j + n <= i)%nat); [by eapply Hnone|].
      rewrite Hfree in Hg; [done|lia].
Qed.

(** *** The set of used blocks *)
Definition run (k n : nat) : gset nat := list_to_set (seq k n).

Lemma elem_of_run k n b : b ∈ run k n <-> (k <= b < k + n)%nat.
Proof. unfold run. rewrite elem_of_list_to_set. apply elem_of_seq. Qed.

Lemma size_run k n : base.size (run k n) = n.
Proof. unfold run. rewrite size_list_to_set by apply NoDup_seq. apply length_seq. Qed.

(** [m] describes the used blocks [U]. *)
Record ms_ok (m : HvMetaslab) (U : gset nat) : Prop := {
  ok_start : 0 <= start m /\ start m + size m <= U64_MAX;
  ok_size : 0 <= size m < 2 ^ 43;
  ok_max : max_block m = size m / 4096;
  ok_words : words_ok (bitmap m) (Z.to_nat (max_block m));
  ok_used : forall b, b ∈ U -> (b < Z.to_nat (max_block m))%nat;
  ok_bits : forall b, (b < Z.to_nat (max_block m))%nat -> get_bit (bitmap m) b = bool_decide (b ∉ U);
  ok_free : free_space m = size m - 4096 * Z.of_nat (base.size U);
}.

Lemma used_le m U : ms_ok m U -> Z.of_nat (base.size U) <= max_block m.
Proof.
  intros H. assert (HU : U ⊆ run 0 (Z.to_nat (max_block m))).
  { intros b Hb. apply elem_of_run. pose proof (ok_used _ _ H b Hb). lia. }
  apply subseteq_size in HU. rewrite size_run in HU.
  pose proof (ok_max _ _ H). pose proof (ok_size _ _ H). Z.div_mod_to_equations. lia.
Qed.

Lemma run_free_disjoint m U k n :
  ms_ok m U -> (k + n <= Z.to_nat (max_block m))%nat ->
  run_free (bitmap m) k n <-> run k n ## U.
Proof.
  intros H Hk. split.
  - intros Hf b Hb Hu. apply elem_of_run in Hb. specialize (Hf b Hb).
    rewrite (ok_bits _ _ H) in Hf by lia. by rewrite bool_decide_eq_true in Hf.
  - intros Hd b Hb. rewrite (ok_bits _ _ H) by lia. apply bool_decide_true.
    intros Hu. apply (Hd b); [by apply elem_of_run|done].
Qed.

Lemma blocks_run s n :
  0 <= s -> 0 <= n -> s + n <= U32_MAX -> blocks s n = seq (Z.to_nat s) (Z.to_nat n).
Proof.
  intros Hs Hn Hsn. unfold blocks, sat_sub. rewrite wrap_u32_small by (unfold u32; lia).
  f_equal. lia.
Qed.

Lemma new_ok i v s sz :
  0 <= s -> 0 <= sz < 2 ^ 43 -> s + sz <= U64_MAX -> ms_ok (new i v s sz) ∅.
Proof.
  intros Hs Hsz Hend. assert (Hn : 0 <= sz / 4096 < 2 ^ 31) by (split; Z.div_mod_to_equations; lia).
  assert (Hmb : max_block (new i v s sz) = sz / 4096)
    by (unfold new; cbn [max_block]; apply wrap_u32_small; unfold u32, U32_MAX, HV_MS_BLOCK_SIZE, HV_POOL_BLOCK_SIZE; lia).
  assert (Hbm : bitmap (new i v s sz) = replicate (Z.to_nat ((sz / 4096 + 63) / 64)) U64_MAX).
  { unfold new. cbn [bitmap]. change (wrap_u32 _) with (max_block (new i v s sz)). rewrite Hmb.
    unfold div_ceil. do 3 f_equal. lia. }
  split; rewrite ?Hmb; [done|done|done| |intros b []%not_elem_of_empty| |].
  - rewrite Hbm. split; [apply Forall_replicate; unfold u64, U64_MAX; lia|].
    rewrite length_replicate. Z.div_mod_to_equations. lia.
  - intros b Hb. rewrite bool_decide_true by set_solver. rewrite Hbm.
    rewrite (get_bit_testbit _ U64_MAX).
    + change U64_MAX with (Z.ones 64). rewrite Z.testbit_ones_nonneg by lia.
      pose proof (Nat.mod_upper_bound b 64). lia.
    + apply lookup_replicate_2, Nat.Div0.div_lt_upper_bound. Z.div_mod_to_equations. lia.
  - rewrite size_empty. cbn [free_space new]. unfold new. cbn [free_space size]. lia.
Qed.

Lemma ms_div_ceil_pos sz : 0 < sz -> 0 < div_ceil sz 4096.
Proof. unfold div_ceil. intros. Z.div_mod_to_equations. lia. Qed.

(** Number of blocks a request of [sz] bytes takes. *)
Definition nblocks_of (sz : Z) : nat := Z.to_nat (div_ceil sz 4096).

Lemma nblocks_of_Z sz : 0 <= sz -> div_ceil sz 4096 = Z.of_nat (nblocks_of sz).
Proof. unfold nblocks_of, div_ceil. intros. Z.div_mod_to_equations. lia. Qed.

Lemma max_block_bound m U : ms_ok m U -> 0 <= max_block m < 2 ^ 31.
Proof.
  intros H. pose proof (ok_size _ _ H). rewrite (ok_max _ _ H). split; Z.div_mod_to_equations; lia.
Qed.

(** [free] finds the block an offset of the metaslab points at. *)
Lemma start_block_of st k :
  Z.of_nat k <= U32_MAX -> wrap_u32 (sat_sub (st + 4096 * Z.of_nat k) st / 4096) = Z.of_nat k.
Proof.
  intros Hk. unfold sat_sub. rewrite Z.max_r by lia.
  replace (st + 4096 * Z.of_nat k - st) with (Z.of_nat k * 4096) by lia.
  rewrite Z.div_mul by lia. apply wrap_u32_small. unfold u32. lia.
Qed.

Lemma ms_ok_alloc m U k n m' :
  ms_ok m U -> (k + n <= Z.to_nat (max_block m))%nat -> run k n ## U ->
  start m' = start m -> size m' = size m -> max_block m' = max_block m ->
  bitmap m' = fold_left clear_bit (seq k n) (bitmap m) ->
  free_space m' = free_space m - 4096 * Z.of_nat n -> ms_ok m' (run k n ∪ U).
Proof.
  intros H Hk Hd Es Ez Em Eb Ef. destruct (fold_clear (Z.to_nat (max_block m)) (bitmap m) (seq k n)) as [Hw Hbits].
  { apply H. }
  { apply Forall_seq. intros. lia. }
  split; rewrite ?Es, ?Ez, ?Em, ?Eb; try apply H.
  - done.
  - intros b. rewrite elem_of_union, elem_of_run. intros [?|?]; [lia|by apply H].
  - intros b Hb. rewrite Hbits, (ok_bits _ _ H) by done.
    destruct (decide (b ∈ seq k n)) as [Hin%elem_of_seq|Hin].
    + rewrite bool_decide_false; [done|]. rewrite elem_of_union, elem_of_run. naive_solver lia.
    + apply bool_decide_ext. rewrite elem_of_union, elem_of_run. rewrite elem_of_seq in Hin. naive_solver.
  - rewrite size_union, size_run by done. rewrite Ef, (ok_free _ _ H). lia.
Qed.

Lemma ms_ok_free m U k n m' :
  ms_ok m U -> run k n ⊆ U ->
  start m' = start m -> size m' = size m -> max_block m' = max_block m ->
  bitmap m' = fold_left (fun bm b => if Z.of_nat b <? max_block m then set_bit bm b else bm) (seq k n) (bitmap m) ->
  free_space m' = free_space m + 4096 * Z.of_nat n -> ms_ok m' (U ∖ run k n).
Proof.
  intros H Hsub Es Ez Em Eb Ef.
  assert (Hlt : forall b, b ∈ seq k n -> (b < Z.to_nat (max_block m))%nat).
  { intros b Hb%elem_of_seq. apply (ok_used _ _ H), Hsub, elem_of_run. lia. }
  destruct (fold_set (Z.to_nat (max_block m)) (bitmap m) (seq k n) (max_block m)) as [Hw Hbits].
  { apply H. }
  { pose proof (ok_max _ _ H). pose proof (ok_size _ _ H). Z.div_mod_to_equations. lia. }
  { by apply Forall_forall. }
  split; rewrite ?Es, ?Ez, ?Em, ?Eb; try apply H.
  - done.
  - intros b. rewrite elem_of_difference. intros [? _]. by apply H.
  - intros b Hb. rewrite Hbits, (ok_bits _ _ H) by done.
    destruct (decide (b ∈ seq k n)) as [Hin%elem_of_seq|Hin].
    + rewrite bool_decide_true; [done|]. rewrite elem_of_difference, elem_of_run. naive_solver lia.
    + apply bool_decide_ext. rewrite elem_of_difference, elem_of_run. rewrite elem_of_seq in Hin. naive_solver.
  - rewrite size_difference, size_run by done. apply subseteq_size in Hsub. rewrite size_run in Hsub.
    rewrite Ef, (ok_free _ _ H). lia.
Qed.

(** A metaslab is a first-fit allocator: [alloc] returns the lowest run of unused
    blocks that is long enough and marks exactly those blocks, and fails,
    changing nothing, only when the request is empty, larger than the metaslab,
    or no such run exists; [free] of blocks in use releases exactly those. *)
Lemma metaslab_spec m U :
  ms_ok m U ->
  (forall sz, 0 <= sz ->
     match alloc m sz with
     | (Some off, m') => exists k, off = start m + 4096 * Z.of_nat k /\
         (k + nblocks_of sz <= Z.to_nat (max_block m))%nat /\ run k (nblocks_of sz) ## U /\
         (forall j, (j < k)%nat -> ~ run j (nblocks_of sz) ## U) /\
         ms_ok m' (run k (nblocks_of sz) ∪ U)
     | (None, m') => m' = m /\ (sz = 0 \/ size m < sz \/
         forall j, (j + nblocks_of sz <= Z.to_nat (max_block m))%nat -> ~ run j (nblocks_of sz) ## U)
     end) /\
  (forall k sz, 0 <= sz -> run k (nblocks_of sz) ⊆ U -> (0 < nblocks_of sz)%nat ->
     ms_ok (free m (start m + 4096 * Z.of_nat k) sz) (U ∖ run k (nblocks_of sz))).
Proof.
  intros H. pose proof (used_le m U H) as HU. pose proof (ok_size _ _ H) as Hsize.
  pose proof (ok_max _ _ H) as Hmax. pose proof (ok_start _ _ H) as Hstart.
  pose proof (max_block_bound m _ H) as Hmb.
  unfold U64_MAX in Hstart. split.
  - intros sz Hsz. unfold alloc. change HV_MS_BLOCK_SIZE with 4096.
    destruct (Z.eqb_spec sz 0) as [->|Hne]; [by split; [|left]|].
    destruct (Z.ltb_spec (size m) sz) as [Hgt|Hle]; [by split; [|right; left]|]. cbn [orb].
    pose proof (ms_div_ceil_pos sz ltac:(lia)) as Hpos.
    assert (Hdc : div_ceil sz 4096 <= max_block m + 1) by (unfold div_ceil; Z.div_mod_to_equations; lia).
    rewrite wrap_u32_small by (unfold u32, U32_MAX; lia).
    pose proof (nblocks_of_Z sz ltac:(lia)) as Hnb.
    rewrite Hnb. destruct (Z.ltb_spec (max_block m) (Z.of_nat (nblocks_of sz))) as [Hgt|Hfit].
    { split; [done|]. right; right. intros j Hj. lia. }
    pose proof (find_from_spec (bitmap m) (nblocks_of sz) (Z.to_nat (max_block m)) 0 0 0) as Hfind.
    fold (find_contiguous m (Z.of_nat (nblocks_of sz))) in Hfind.
    destruct (find_contiguous m (Z.of_nat (nblocks_of sz))) as [s|].
    + destruct Hfind as (k & -> & Hk & Hfree & Hfirst); [lia..| | | |].
      { intros b Hb. lia. } { by left. } { intros j Hj. lia. }
      apply (run_free_disjoint m U) in Hfree; [|done|lia]. cbn [Nat.add] in Hk.
      exists k. split_and!; [cbn; lia|lia|done| |].
      * intros j Hj. rewrite <- (run_free_disjoint m U) by (done || lia). by apply Hfirst.
      * assert (Hsub : run k (nblocks_of sz) ∪ U ⊆ run 0 (Z.to_nat (max_block m))).
        { intros b. rewrite elem_of_union, !elem_of_run. intros [?|Hb]; [lia|].
          pose proof (ok_used _ _ H b Hb). lia. }
        apply subseteq_size in Hsub. rewrite size_union, !size_run in Hsub by done.
        apply (ms_ok_alloc m U k (nblocks_of sz)); try done.
        -- cbn [bitmap update_weight set_weight set_free_space set_allocated set_bitmap].
           rewrite blocks_run by (unfold U32_MAX; lia). by rewrite !Nat2Z.id.
        -- cbn [free_space update_weight set_weight set_free_space set_allocated set_bitmap].
           rewrite (ok_free _ _ H), wrap_u64_small; [lia|].
           unfold u64, U64_MAX. Z.div_mod_to_equations. lia.
    + split; [done|]. right; right. intros j Hj.
      rewrite <- (run_free_disjoint m U) by done. apply Hfind; try lia; try (by left).
  - intros k sz Hsz Hsub Hn. assert (Hin : forall b, (k <= b < k + nblocks_of sz)%nat -> (b < Z.to_nat (max_block m))%nat).
    { intros b Hb. apply (ok_used _ _ H), Hsub, elem_of_run. lia. }
    pose proof (Hin (k + nblocks_of sz - 1)%nat ltac:(lia)) as Hlast.
    pose proof (nblocks_of_Z sz ltac:(lia)) as Hnb.
    unfold free. change HV_MS_BLOCK_SIZE with 4096. rewrite Hnb.
    rewrite (wrap_u32_small (Z.of_nat _)) by (unfold u32, U32_MAX; lia).
    rewrite start_block_of by (unfold U32_MAX; lia). apply subseteq_size in Hsub as Hsz'. rewrite size_run in Hsz'.
    apply (ms_ok_free m U k (nblocks_of sz)); try done.
    + cbn [bitmap update_weight set_weight set_free_space set_freed set_bitmap].
      rewrite blocks_run by (unfold U32_MAX; lia). by rewrite !Nat2Z.id.
    + cbn [free_space update_weight set_weight set_free_space set_freed set_bitmap].
      rewrite (ok_free _ _ H), wrap_u64_small; [lia|]. unfold u64, U64_MAX. Z.div_mod_to_equations. lia.
Qed.

(** *** Histories *)

(** The metaslab after a history of calls and the extents [(offset, size)] that
    were handed out and not given back. *)
Inductive history (i v st sz : Z) : HvMetaslab -> list (Z * Z) -> Prop :=
  | h_new : history i v st sz (new i v st sz) []
  | h_alloc m L n off m' :
      history i v st sz m L -> 0 <= n -> alloc m n = (Some off, m') -> history i v st sz m' ((off, n) :: L)
  | h_fail m L n m' :
      history i v st sz m L -> 0 <= n -> alloc m n = (None, m') -> history i v st sz m' L
  | h_free m L j off n :
      history i v st sz m L -> L !! j = Some (off, n) -> history i v st sz (free m off n) (delete j L).

(** The blocks of an extent. *)
Definition extent_run (st : Z) (e : Z * Z) : gset nat :=
  run (Z.to_nat ((e.1 - st) / 4096)) (nblocks_of e.2).

Definition pairwise_disjoint (st : Z) (L : list (Z * Z)) : Prop :=
  forall i j a b, L !! i = Some a -> L !! j = Some b -> i <> j -> extent_run st a ## extent_run st b.

(** [U] is the union of the extents, which are disjoint and aligned. *)
Definition extents_ok (m : HvMetaslab) (L : list (Z * Z)) (U : gset nat) : Prop :=
  ms_ok m U /\ (forall b, b ∈ U <-> exists e, e ∈ L /\ b ∈ extent_run (start m) e) /\
  pairwise_disjoint (start m) L /\
  (forall e, e ∈ L -> 0 < e.2 /\ exists k, e.1 = start m + 4096 * Z.of_nat k /\
     (k + nblocks_of e.2 <= Z.to_nat (max_block m))%nat).

Lemma extent_run_at st k n : extent_run st (st + 4096 * Z.of_nat k, n) = run k (nblocks_of n).
Proof.
  unfold extent_run. cbn [fst snd]. replace (st + 4096 * Z.of_nat k - st) with (Z.of_nat k * 4096) by lia.
  rewrite Z.div_mul by lia. by rewrite Nat2Z.id.
Qed.

Lemma alloc_fields m n o m' :
  alloc m n = (o, m') -> start m' = start m /\ size m' = size m /\ max_block m' = max_block m.
Proof. unfold alloc. repeat case_match; intros [= <- <-]; done. Qed.

Lemma alloc_zero m o m' : alloc m 0 = (o, m') -> o = None.
Proof. by intros [= <- <-]. Qed.

Lemma nblocks_of_pos n : 0 < n -> (0 < nblocks_of n)%nat.
Proof. intros Hn. pose proof (ms_div_ceil_pos n Hn). unfold nblocks_of. lia. Qed.

Lemma extents_alloc m L U n off m' :
  extents_ok m L U -> 0 <= n -> alloc m n = (Some off, m') -> exists U', extents_ok m' ((off, n) :: L) U'.
Proof.
  intros (Hok & HU & Hd & Hk) Hn Ha. destruct (metaslab_spec m U Hok) as [Hs _].
  specialize (Hs n Hn). rewrite Ha in Hs. destruct Hs as (k & -> & Hfit & Hdis & _ & Hok').
  destruct (alloc_fields _ _ _ _ Ha) as (Es & _ & Em).
  assert (Hpos : 0 < n) by (destruct (decide (n = 0)) as [->|]; [by apply alloc_zero in Ha|lia]).
  exists (run k (nblocks_of n) ∪ U). split; [done|]. rewrite Es, Em. split_and!.
  - intros b. rewrite elem_of_union, HU. setoid_rewrite elem_of_cons. split.
    + intros [Hb|(e & He & Hb)]; [exists (start m + 4096 * Z.of_nat k, n)|exists e; auto].
      rewrite extent_run_at. auto.
    + intros (e & [->|He] & Hb); [left; by rewrite extent_run_at in Hb|right; eauto].
  - intros i j a b Ha' Hb' Hij.
    assert (Hnew : forall c, c ∈ L -> extent_run (start m) (start m + 4096 * Z.of_nat k, n) ## extent_run (start m) c).
    { intros c Hc b' Hb1 Hb2. rewrite extent_run_at in Hb1. apply (Hdis b'); [done|]. apply HU. eauto. }
    destruct i as [|i], j as [|j]; cbn in Ha', Hb'; simplify_eq.
    + apply Hnew. by eapply list_elem_of_lookup_2.
    + symmetry. apply Hnew. by eapply list_elem_of_lookup_2.
    + apply (Hd i j); [done|done|lia].
  - intros e [->|He]%elem_of_cons; [|by apply Hk]. split; [done|]. exists k. split; [done|]. exact Hfit.
Qed.

Lemma extents_free m L U j off n :
  extents_ok m L U -> L !! j = Some (off, n) -> exists U', extents_ok (free m off n) (delete j L) U'.
Proof.
  intros (Hok & HU & Hd & Hk) Hj. pose proof (list_elem_of_lookup_2 _ _ _ Hj) as Hin.
  destruct (Hk _ Hin) as (Hpos & k & Hoff & Hfit). cbn [fst snd] in *. subst off.
  destruct (metaslab_spec m U Hok) as [_ Hf].
  exists (U ∖ run k (nblocks_of n)). split.
  { apply Hf; [lia| |by apply nblocks_of_pos].
    intros b Hb. apply HU. exists (start m + 4096 * Z.of_nat k, n). by rewrite extent_run_at. }
  assert (Hdel : forall i e, delete j L !! i = Some e -> exists i', i' <> j /\ L !! i' = Some e).
  { intros i e He. destruct (decide (i < j)%nat) as [Hlt|Hge].
    - rewrite list_lookup_delete_lt in He by done. exists i. split; [lia|done].
    - rewrite list_lookup_delete_ge in He by lia. exists (S i). split; [lia|done]. }
  change (start (free m _ n)) with (start m). change (max_block (free m _ n)) with (max_block m). split_and!.
  - intros b. rewrite elem_of_difference, HU. split.
    + intros [(e & He & Hb) Hnot]. exists e. split; [|done].
      apply list_elem_of_lookup in He as [i Hi]. destruct (decide (i = j)) as [->|Hne].
      { rewrite Hj in Hi. injection Hi as <-. by rewrite extent_run_at in Hb. }
      apply list_elem_of_lookup. destruct (decide (i < j)%nat).
      * exists i. by rewrite list_lookup_delete_lt.
      * exists (i - 1)%nat. rewrite list_lookup_delete_ge by lia. by replace (S (i - 1)) with i by lia.
    + intros (e & He & Hb). apply list_elem_of_lookup in He as [i Hi].
      destruct (Hdel i e Hi) as (i' & Hne & Hi'). split; [exists e; split; [by eapply list_elem_of_lookup_2|done]|].
      intros Hr. apply (Hd i' j _ _ Hi' Hj Hne b); [done|]. by rewrite extent_run_at.
  - intros i i2 a b Ha Hb Hij. destruct (decide (i < j)%nat) as [H1|H1], (decide (i2 < j)%nat) as [H2|H2].
    all: rewrite ?list_lookup_delete_lt in Ha by done; rewrite ?list_lookup_delete_lt in Hb by done.
    all: rewrite ?list_lookup_delete_ge in Ha by lia; rewrite ?list_lookup_delete_ge in Hb by lia.
    all: eapply Hd; [exact Ha|exact Hb|lia].
  - intros e He. apply list_elem_of_lookup in He as [i Hi]. destruct (Hdel i e Hi) as (i' & _ & Hi').
    apply Hk. by eapply list_elem_of_lookup_2.
Qed.

Lemma history_ok i v st sz m L :
  0 <= st -> 0 <= sz < 2 ^ 43 -> st + sz <= U64_MAX -> history i v st sz m L -> exists U, extents_ok m L U.
Proof.
  intros H1 H2 H3 Hh. induction Hh as [|m L n off m' Hh [U IH] Hn Ha|m L n m' Hh [U IH] Hn Ha|m L j off n Hh [U IH] Hj].
  - exists ∅. split; [by apply new_ok|]. split_and!; [set_solver|done|set_solver].
  - by eapply extents_alloc.
  - exists U. assert (m' = m) as ->; [|done]. destruct IH as (Hok & _).
    destruct (metaslab_spec m U Hok) as [Hs _]. specialize (Hs n Hn). rewrite Ha in Hs. by destruct Hs.
  - by eapply extents_free.
Qed.

(** C33: after any history of allocations and frees of live extents the live extents of a
    metaslab are disjoint and lie inside it, [free_space] is its size less the
    blocks they occupy, and an allocation fails only when the request is empty,
    larger than the metaslab, or every run of that many blocks meets a live
    extent.  The metaslab is smaller than 2^43 bytes. *)
Theorem metaslab_extents_disjoint i v st sz m L :
  0 <= st -> 0 <= sz < 2 ^ 43 -> st + sz <= U64_MAX -> history i v st sz m L ->
  pairwise_disjoint (start m) L /\
  (forall e, e ∈ L -> start m <= e.1 /\ e.1 + 4096 * Z.of_nat (nblocks_of e.2) <= start m + size m) /\
  (exists U : gset nat, (forall b, b ∈ U <-> exists e, e ∈ L /\ b ∈ extent_run (start m) e) /\
             free_space m = size m - 4096 * Z.of_nat (base.size U)) /\
  (forall n m', 0 <= n -> alloc m n = (None, m') -> n = 0 \/ size m < n \/
     forall k, (k + nblocks_of n <= Z.to_nat (max_block m))%nat ->
       exists e b, e ∈ L /\ b ∈ extent_run (start m) e /\ b ∈ run k (nblocks_of n)).
Proof.
  intros H1 H2 H3 Hh. destruct (history_ok i v st sz m L H1 H2 H3 Hh) as (U & Hok & HU & Hd & Hk).
  split; [done|]. split; [|split].
  - intros e He. destruct (Hk e He) as (_ & k & -> & Hfit). pose proof (ok_max _ _ Hok).
    pose proof (ok_size _ _ Hok). pose proof (max_block_bound _ _ Hok).
    assert (4096 * max_block m <= size m) by (Z.div_mod_to_equations; lia). lia.
  - exists U. split; [done|apply Hok].
  - intros n m' Hn Ha. destruct (metaslab_spec m U Hok) as [Hs _]. specialize (Hs n Hn). rewrite Ha in Hs.
    destruct Hs as [_ [?|[?|Hno]]]; [by left|by right; left|]. right; right. intros k Hfit.
    destruct (decide (run k (nblocks_of n) ∩ U = ∅)) as [E|E].
    { exfalso. apply (Hno k Hfit). set_solver. }
    apply set_choose_L in E as [b [Hb1 Hb2]%elem_of_intersection].
    apply HU in Hb2 as (e & He & Hb). eauto.
Qed.

Lemma metaslab_extents_disjoint_witness :
  exists m a b, history 0 0 262144 65536 m [(b, 4096); (a, 5000)] /\
    extent_run (start m) (b, 4096) ## extent_run (start m) (a, 5000).
Proof.
  assert (Hh : exists m a b, history 0 0 262144 65536 m [(b, 4096); (a, 5000)]).
  { do 3 eexists. eapply h_alloc; [eapply h_alloc; [apply h_new|lia|vm_compute; reflexivity]|lia|vm_compute; reflexivity]. }
  destruct Hh as (m & a & b & Hh). exists m, a, b. split; [exact Hh|].
  destruct (metaslab_extents_disjoint 0 0 262144 65536 m [(b, 4096); (a, 5000)]) as [Hd _]; [lia|lia|unfold U64_MAX; lia|exact Hh|].
  apply (Hd 0%nat 1%nat); done.
Defined.

(** [free] does not look whether the blocks are in use: freeing a block that
    is already free changes no bit and still adds its size to [free_space], which
    then exceeds the metaslab's size. *)
Theorem double_free_inflates_free_space m k sz :
  ms_ok m ∅ -> 0 < sz -> (k + nblocks_of sz <= Z.to_nat (max_block m))%nat ->
  (forall b, get_bit (bitmap (free m (start m + 4096 * Z.of_nat k) sz)) b = true <->
             get_bit (bitmap m) b = true) /\
  free_space (free m (start m + 4096 * Z.of_nat k) sz) = size m + 4096 * Z.of_nat (nblocks_of sz).
Proof.
  intros H Hsz Hk. pose proof (ok_size _ _ H) as Hsize. pose proof (ok_max _ _ H) as Hmax.
  pose proof (max_block_bound m _ H) as Hmb.
  pose proof (ms_div_ceil_pos sz Hsz) as Hpos. pose proof (ok_start _ _ H) as Hstart.
  pose proof (nblocks_of_Z sz ltac:(lia)) as Hnb.
  unfold free. change HV_MS_BLOCK_SIZE with 4096. rewrite Hnb.
  rewrite (wrap_u32_small (Z.of_nat _)) by (unfold u32, U32_MAX; lia).
  rewrite start_block_of, blocks_run, !Nat2Z.id by (unfold U32_MAX; lia).
  cbn [bitmap free_space update_weight set_weight set_free_space set_freed set_bitmap].
  destruct (fold_set (Z.to_nat (max_block m)) (bitmap m) (seq k (nblocks_of sz)) (max_block m)) as [_ Hbits].
  { apply H. } { lia. } { apply Forall_seq. intros. lia. }
  split.
  - intros b. rewrite Hbits. case_decide as Hin; [|done]. split; [|done]. intros _.
    apply elem_of_seq in Hin. rewrite (ok_bits _ _ H) by lia. by apply bool_decide_true, not_elem_of_empty.
  - rewrite (ok_free _ _ H), size_empty, wrap_u64_small; [lia|].
    unfold u64, U64_MAX. rewrite Hmax in *. Z.div_mod_to_equations. lia.
Qed.

Lemma double_free_inflates_free_space_witness :
  free_space (free (new 0 0 262144 65536) (262144 + 4096 * Z.of_nat 3) 4096) = 65536 + 4096.
Proof.
  apply (double_free_inflates_free_space (new 0 0 262144 65536) 3 4096).
  - apply new_ok; unfold U64_MAX; lia.
  - lia.
  - apply (Nat.leb_le (3 + nblocks_of 4096)). vm_compute. reflexivity.
Defined.

End MetaslabFacts.
