(* ===== verification/Block.v ===== *)
(** * Block pointers and checksums (services/fs/hvfs/bp.rs, checksum.rs; the
    uberblock of spa.rs)

    The on-disk structures are [repr(C)] without padding: [as_bytes] is the
    concatenation of the fields, little endian, [from_bytes] reads them back
    field by field.  [compute] is the Fletcher or SHA-256 checksum over the
    data's 64-bit words.

    The facts: an uberblock that was sealed with [compute_checksum] survives
    the way to a sector and back and verifies; Fletcher-4 detects every change
    of a single word. *)
From S2P Require Import Prelude Bytes Compress Sha256.

Module Block.
Import Compress.

Definition HV_DVA_MAX : nat := 2.

Record HvDva : Type := mkDva {
  offset : Z;
  asize : Z;
  dva_vdev_id : Z;
  gang : Z;
  dva_pad : Z;
}.

Definition dva_null : HvDva := mkDva 0 0 0 0 0.
Definition dva_is_null (d : HvDva) : bool :=
  (dva_vdev_id d =? 0) && (offset d =? 0) && (asize d =? 0).
Definition dva_new (vdev_id off asz : Z) : HvDva := mkDva off asz vdev_id 0 0.
Definition with_gang (d : HvDva) : HvDva := mkDva (offset d) (asize d) (dva_vdev_id d) 1 (dva_pad d).
Definition is_gang (d : HvDva) : bool := negb (gang d =? 0).

(** [u64::from_le_bytes(bytes[a..b].try_into().ok()?)]: the slice is in range. *)
Definition le (l : bytes) (a b : nat) : Z := from_le_bytes (sub_slice l a b).
Definition byte (l : bytes) (i : nat) : Z := nth i l 0.

Definition dva_as_bytes (d : HvDva) : bytes :=
  to_le_bytes 8 (offset d) ++ to_le_bytes 4 (asize d) ++ to_le_bytes 2 (dva_vdev_id d)
  ++ to_le_bytes 1 (gang d) ++ to_le_bytes 1 (dva_pad d).

Definition dva_from_bytes (l : bytes) : option HvDva :=
  if (length l <? 16)%nat then None
  else Some {| offset := le l 0 8; asize := le l 8 12; dva_vdev_id := le l 12 14;
               gang := byte l 14; dva_pad := byte l 15 |}.

Inductive HvCksumType : Type := CkOff | Fletcher2 | Fletcher4 | SHA256 | EdonR.

Definition cksum_from_u8 (v : Z) : HvCksumType :=
  if v =? 1 then Fletcher2 else if v =? 2 then Fletcher4 else if v =? 3 then SHA256
  else if v =? 4 then EdonR else CkOff.
Definition cksum_as_u8 (t : HvCksumType) : Z :=
  match t with CkOff => 0 | Fletcher2 => 1 | Fletcher4 => 2 | SHA256 => 3 | EdonR => 4 end.

(** [HvCompType as u8]. *)
Definition comp_as_u8 (t : HvCompType) : Z :=
  match t with Off => 0 | LZ4 => 1 | ZSTD => 2 | Gzip1 => 3 | Gzip9 => 4 | ZLE => 5 end.

Record HvBpProp : Type := mkProp {
  logical_size : Z;
  physical_size : Z;
  level : Z;
  comp_type : Z;
  cksum_type : Z;
  encrypted : Z;
  byteorder : Z;
  prop_pad : bytes;
}.

Definition prop_default : HvBpProp := mkProp 0 0 0 0 (cksum_as_u8 Fletcher4) 0 0 [0; 0; 0].
Definition prop_comp_type (p : HvBpProp) : HvCompType := from_u8 (comp_type p).
Definition prop_cksum_type (p : HvBpProp) : HvCksumType := cksum_from_u8 (cksum_type p).

Definition eta_prop (p : HvBpProp) : HvBpProp :=
  mkProp (logical_size p) (physical_size p) (level p) (comp_type p) (cksum_type p) (encrypted p)
    (byteorder p) (prop_pad p).
Definition set_logical_size (v : Z) (p : HvBpProp) : HvBpProp := ltac:(setter eta_prop logical_size v p).
Definition set_physical_size (v : Z) (p : HvBpProp) : HvBpProp := ltac:(setter eta_prop physical_size v p).
Definition set_comp (v : Z) (p : HvBpProp) : HvBpProp := ltac:(setter eta_prop comp_type v p).
Definition set_cksum (v : Z) (p : HvBpProp) : HvBpProp := ltac:(setter eta_prop cksum_type v p).
Definition set_enc (v : Z) (p : HvBpProp) : HvBpProp := ltac:(setter eta_prop encrypted v p).

Definition set_comp_type (t : HvCompType) (p : HvBpProp) : HvBpProp := set_comp (comp_as_u8 t) p.
Definition set_cksum_type (t : HvCksumType) (p : HvBpProp) : HvBpProp := set_cksum (cksum_as_u8 t) p.
Definition set_encrypted (v : bool) (p : HvBpProp) : HvBpProp := set_enc (if v then 1 else 0) p.
Definition is_encrypted (p : HvBpProp) : bool := negb (encrypted p =? 0).

Definition prop_as_bytes (p : HvBpProp) : bytes :=
  to_le_bytes 4 (logical_size p) ++ to_le_bytes 4 (physical_size p) ++ to_le_bytes 1 (level p)
  ++ to_le_bytes 1 (comp_type p) ++ to_le_bytes 1 (cksum_type p) ++ to_le_bytes 1 (encrypted p)
  ++ to_le_bytes 1 (byteorder p) ++ prop_pad p.

Definition prop_from_bytes (l : bytes) : option HvBpProp :=
  if (length l <? 16)%nat then None
  else Some {| logical_size := le l 0 4; physical_size := le l 4 8; level := byte l 8;
               comp_type := byte l 9; cksum_type := byte l 10; encrypted := byte l 11;
               byteorder := byte l 12; prop_pad := [byte l 13; byte l 14; byte l 15] |}.

Record HvBlockPointer : Type := mkBp {
  dva : list HvDva;
  prop : HvBpProp;
  bp_checksum : list Z;
  birth_txg : Z;
  fill : Z;
  bp_pad : list Z;
}.

Definition bp_null : HvBlockPointer := mkBp [dva_null; dva_null] prop_default [0; 0; 0; 0] 0 0 [0; 0].

Definition dva_at (bp : HvBlockPointer) (i : nat) : HvDva := nth i (dva bp) dva_null.
Definition bp_is_null (bp : HvBlockPointer) : bool := dva_is_null (dva_at bp 0) && dva_is_null (dva_at bp 1).
Definition is_hole (bp : HvBlockPointer) : bool := bp_is_null bp && (birth_txg bp =? 0).
Definition get_dva (bp : HvBlockPointer) (i : nat) : option HvDva :=
  if (i <? HV_DVA_MAX)%nat && negb (dva_is_null (dva_at bp i)) then Some (dva_at bp i) else None.

Definition eta_bp (b : HvBlockPointer) : HvBlockPointer :=
  mkBp (dva b) (prop b) (bp_checksum b) (birth_txg b) (fill b) (bp_pad b).
Definition set_dvas (v : list HvDva) (b : HvBlockPointer) : HvBlockPointer := ltac:(setter eta_bp dva v b).
Definition set_prop (v : HvBpProp) (b : HvBlockPointer) : HvBlockPointer := ltac:(setter eta_bp prop v b).
Definition set_birth (v : Z) (b : HvBlockPointer) : HvBlockPointer := ltac:(setter eta_bp birth_txg v b).

Definition set_dva (i : nat) (d : HvDva) (bp : HvBlockPointer) : HvBlockPointer :=
  if (i <? HV_DVA_MAX)%nat then set_dvas (<[i := d]> (dva bp)) bp else bp.
Definition is_data (bp : HvBlockPointer) : bool := (level (prop bp) =? 0) && negb (is_hole bp).
Definition is_metadata (bp : HvBlockPointer) : bool := (0 <? level (prop bp)) && negb (is_hole bp).

Definition u64s (l : list Z) : bytes := concat (map (to_le_bytes 8) l).

Definition bp_as_bytes (bp : HvBlockPointer) : bytes :=
  concat (map dva_as_bytes (dva bp)) ++ prop_as_bytes (prop bp) ++ u64s (bp_checksum bp)
  ++ to_le_bytes 8 (birth_txg bp) ++ to_le_bytes 8 (fill bp) ++ u64s (bp_pad bp).

(** [HvBlockPointer::BYTES]. *)
Definition BP_BYTES : nat := 112.

Definition bp_from_bytes (l : bytes) : option HvBlockPointer :=
  if (length l <? BP_BYTES)%nat then None
  else
    match dva_from_bytes (sub_slice l 0 16), dva_from_bytes (sub_slice l 16 32),
          prop_from_bytes (sub_slice l 32 48) with
    | Some d0, Some d1, Some p =>
        Some {| dva := [d0; d1]; prop := p;
                bp_checksum := [le l 48 56; le l 56 64; le l 64 72; le l 72 80];
                birth_txg := le l 80 88; fill := le l 88 96; bp_pad := [0; 0] |}
    | _, _, _ => None
    end.

(** ** Checksums *)

(** [data.chunks_exact(8)] as words, the remainder padded with zeros. *)
Fixpoint full_words (l : bytes) : list Z :=
  match l with
  | b0 :: b1 :: b2 :: b3 :: b4 :: b5 :: b6 :: b7 :: l =>
      from_le_bytes [b0; b1; b2; b3; b4; b5; b6; b7] :: full_words l
  | _ => []
  end.

Definition last_word (l : bytes) : list Z :=
  let rem := (length l mod 8)%nat in
  if (0 <? rem)%nat
  then [from_le_bytes (sub_slice l (length l - rem) (length l) ++ replicate (8 - rem) 0)]
  else [].

Definition data_words (l : bytes) : list Z := full_words l ++ last_word l.

Definition f2_step (s : Z * Z) (w : Z) : Z * Z :=
  let '(a, b) := s in
  let a := wrap_u64 (a + w) in (a, wrap_u64 (b + a)).
Definition fletcher2 (data : bytes) : list Z :=
  let '(a, b) := fold_left f2_step (data_words data) (0, 0) in [a; b; 0; 0].

Definition f4_step (s : Z * Z * Z * Z) (w : Z) : Z * Z * Z * Z :=
  let '(a, b, c, d) := s in
  let a := wrap_u64 (a + w) in
  let b := wrap_u64 (b + a) in
  let c := wrap_u64 (c + b) in (a, b, c, wrap_u64 (d + c)).
Definition fletcher4 (data : bytes) : list Z :=
  let '(a, b, c, d) := fold_left f4_step (data_words data) (0, 0, 0, 0) in [a; b; c; d].

Definition ck_sha256 (data : bytes) : list Z :=
  let h := Sha256.sha256 data in
  [ from_be_bytes (sub_slice h 0 8); from_be_bytes (sub_slice h 8 16);
    from_be_bytes (sub_slice h 16 24); from_be_bytes (sub_slice h 24 32) ].

Record HvChecksum : Type := mkCk { kind : HvCksumType; value : list Z }.

Definition compute (k : HvCksumType) (data : bytes) : HvChecksum :=
  mkCk k match k with
         | CkOff => [0; 0; 0; 0]
         | Fletcher2 => fletcher2 data
         | Fletcher4 => fletcher4 data
         | SHA256 => ck_sha256 data
         | EdonR => fletcher4 data
         end.

Definition verify (c : HvChecksum) (data : bytes) : bool :=
  bool_decide (value c = value (compute (kind c) data)).

(** ** The uberblock *)
Definition HV_SPA_MAGIC : Z := 0x48564653.

Record HvUberblock : Type := mkUb {
  ub_txg : Z;
  root_bp : HvBlockPointer;
  timestamp : Z;
  root_dataset_obj : Z;
  pool_guid : Z;
  checkpoint_txg : Z;
  ub_checksum : list Z;
  magic : Z;
  pwm_domain_id : Z;
  ub_pad : bytes;
}.

Definition ub_null : HvUberblock := mkUb 0 bp_null 0 0 0 0 [0; 0; 0; 0] 0 0 [0; 0].

Definition eta_ub (u : HvUberblock) : HvUberblock :=
  mkUb (ub_txg u) (root_bp u) (timestamp u) (root_dataset_obj u) (pool_guid u) (checkpoint_txg u)
    (ub_checksum u) (magic u) (pwm_domain_id u) (ub_pad u).
Definition set_ub_checksum (v : list Z) (u : HvUberblock) : HvUberblock := ltac:(setter eta_ub ub_checksum v u).
Definition set_ub_txg (v : Z) (u : HvUberblock) : HvUberblock := ltac:(setter eta_ub ub_txg v u).
Definition set_root_bp (v : HvBlockPointer) (u : HvUberblock) : HvUberblock := ltac:(setter eta_ub root_bp v u).
Definition set_timestamp (v : Z) (u : HvUberblock) : HvUberblock := ltac:(setter eta_ub timestamp v u).
Definition set_magic (v : Z) (u : HvUberblock) : HvUberblock := ltac:(setter eta_ub magic v u).
Definition set_pool_guid (v : Z) (u : HvUberblock) : HvUberblock := ltac:(setter eta_ub pool_guid v u).
Definition set_root_dataset_obj (v : Z) (u : HvUberblock) : HvUberblock :=
  ltac:(setter eta_ub root_dataset_obj v u).

Definition is_valid (u : HvUberblock) : bool := magic u =? HV_SPA_MAGIC.

Definition ub_as_bytes (u : HvUberblock) : bytes :=
  to_le_bytes 8 (ub_txg u) ++ bp_as_bytes (root_bp u) ++ to_le_bytes 8 (timestamp u)
  ++ to_le_bytes 8 (root_dataset_obj u) ++ to_le_bytes 8 (pool_guid u)
  ++ to_le_bytes 8 (checkpoint_txg u) ++ u64s (ub_checksum u) ++ to_le_bytes 4 (magic u)
  ++ to_le_bytes 2 (pwm_domain_id u) ++ ub_pad u.

(** [size_of::<HvUberblock>()]. *)
Definition UB_BYTES : nat := 192.

Definition from_bytes_unaligned (l : bytes) : option HvUberblock :=
  if (length l <? UB_BYTES)%nat then None
  else
    match bp_from_bytes (sub_slice l 8 120) with
    | None => None
    | Some bp =>
        Some {| ub_txg := le l 0 8; root_bp := bp; timestamp := le l 120 128;
                root_dataset_obj := le l 128 136; pool_guid := le l 136 144;
                checkpoint_txg := le l 144 152;
                ub_checksum := [le l 152 160; le l 160 168; le l 168 176; le l 176 184];
                magic := le l 184 188; pwm_domain_id := le l 188 190; ub_pad := [0; 0] |}
    end.

Definition compute_checksum (u : HvUberblock) : HvUberblock :=
  let u := set_ub_checksum [0; 0; 0; 0] u in
  set_ub_checksum (value (compute Fletcher4 (ub_as_bytes u))) u.

Definition verify_checksum (u : HvUberblock) : bool :=
  let copy := set_ub_checksum [0; 0; 0; 0] u in
  bool_decide (value (compute Fletcher4 (ub_as_bytes copy)) = ub_checksum u).

End Block.

Module BlockFacts.
Import Compress Block.

(** *** Serialisation *)
Definition u16 (z : Z) : Prop := 0 <= z < 2 ^ 16.

Definition dva_ok (d : HvDva) : Prop :=
  u64 (offset d) /\ u32 (asize d) /\ u16 (dva_vdev_id d) /\ u8 (gang d) /\ u8 (dva_pad d).

Definition prop_ok (p : HvBpProp) : Prop :=
  u32 (logical_size p) /\ u32 (physical_size p) /\ u8 (level p) /\ u8 (comp_type p) /\
  u8 (cksum_type p) /\ u8 (encrypted p) /\ u8 (byteorder p) /\
  length (prop_pad p) = 3%nat /\ Forall u8 (prop_pad p).

Definition bp_ok (b : HvBlockPointer) : Prop :=
  length (dva b) = HV_DVA_MAX /\ Forall dva_ok (dva b) /\ prop_ok (prop b) /\
  length (bp_checksum b) = 4%nat /\ Forall u64 (bp_checksum b) /\ u64 (birth_txg b) /\ u64 (fill b) /\
  bp_pad b = [0; 0].

Definition ub_ok (u : HvUberblock) : Prop :=
  u64 (ub_txg u) /\ bp_ok (root_bp u) /\ u64 (timestamp u) /\ u64 (root_dataset_obj u) /\
  u64 (pool_guid u) /\ u64 (checkpoint_txg u) /\ length (ub_checksum u) = 4%nat /\
  Forall u64 (ub_checksum u) /\ u32 (magic u) /\ u16 (pwm_domain_id u) /\ ub_pad u = [0; 0].

Lemma le_u64 v : u64 v -> from_le_bytes (to_le_bytes 8 v) = v.
Proof. unfold u64, U64_MAX. intros. apply from_to_le_bytes. change (8 * Z.of_nat 8) with 64. lia. Qed.
Lemma le_u32 v : u32 v -> from_le_bytes (to_le_bytes 4 v) = v.
Proof. unfold u32, U32_MAX. intros. apply from_to_le_bytes. change (8 * Z.of_nat 4) with 32. lia. Qed.
Lemma le_u16 v : u16 v -> from_le_bytes (to_le_bytes 2 v) = v.
Proof. intros. by apply from_to_le_bytes. Qed.
Lemma le_byte v : u8 v -> v mod 256 = v.
Proof. unfold u8. intros. by apply Z.mod_small. Qed.

Lemma dva_roundtrip d : dva_ok d -> dva_from_bytes (dva_as_bytes d) = Some d.
Proof.
  intros (H1 & H2 & H3 & H4 & H5). destruct d as [o a v g p]; simpl in *.
  transitivity (Some (mkDva (from_le_bytes (to_le_bytes 8 o)) (from_le_bytes (to_le_bytes 4 a))
    (from_le_bytes (to_le_bytes 2 v)) (g mod 256) (p mod 256))); [reflexivity|].
  by rewrite le_u64, le_u32, le_u16, !le_byte.
Qed.

Lemma prop_roundtrip p : prop_ok p -> prop_from_bytes (prop_as_bytes p) = Some p.
Proof.
  intros (H1 & H2 & H3 & H4 & H5 & H6 & H7 & Hl & HF). destruct p as [a b c d e f g pad]; simpl in *.
  destruct pad as [|p0 [|p1 [|p2 [|]]]]; try done.
  transitivity (Some (mkProp (from_le_bytes (to_le_bytes 4 a)) (from_le_bytes (to_le_bytes 4 b))
    (c mod 256) (d mod 256) (e mod 256) (f mod 256) (g mod 256) [p0; p1; p2])); [reflexivity|].
  by rewrite !le_u32, !le_byte.
Qed.

Lemma bp_roundtrip b : bp_ok b -> bp_from_bytes (bp_as_bytes b) = Some b.
Proof.
  intros (Hd & HdF & Hp & Hc & HcF & Hb & Hf & Hpad). destruct b as [ds p cs bt fl pd]; simpl in *. subst pd.
  destruct ds as [|d0 [|d1 [|]]]; try done. destruct cs as [|c0 [|c1 [|c2 [|c3 [|]]]]]; try done.
  destruct p as [a b c d e f g pad]. destruct (Hp) as (_ & _ & _ & _ & _ & _ & _ & Hpl & _).
  destruct pad as [|p0 [|p1 [|p2 [|]]]]; try done.
  transitivity (match dva_from_bytes (dva_as_bytes d0), dva_from_bytes (dva_as_bytes d1),
                      prop_from_bytes (prop_as_bytes (mkProp a b c d e f g [p0; p1; p2])) with
    | Some d0, Some d1, Some p => Some (mkBp [d0; d1] p
        [from_le_bytes (to_le_bytes 8 c0); from_le_bytes (to_le_bytes 8 c1);
         from_le_bytes (to_le_bytes 8 c2); from_le_bytes (to_le_bytes 8 c3)]
        (from_le_bytes (to_le_bytes 8 bt)) (from_le_bytes (to_le_bytes 8 fl)) [0; 0])
    | _, _, _ => None end); [reflexivity|].
  repeat match goal with H : Forall _ (_ :: _) |- _ => inversion H; clear H; subst end.
  by rewrite !dva_roundtrip, prop_roundtrip, !le_u64.
Qed.

Lemma length_bp_as_bytes b : bp_ok b -> length (bp_as_bytes b) = BP_BYTES.
Proof.
  intros (Hd & _ & (_ & _ & _ & _ & _ & _ & _ & Hpl & _) & Hc & _ & _ & _ & Hpad).
  destruct b as [ds p cs bt fl pd]; simpl in *. subst pd.
  destruct ds as [|d0 [|d1 [|]]]; try done. destruct cs as [|c0 [|c1 [|c2 [|c3 [|]]]]]; try done.
  destruct p as [a b c d e f g pad]. by destruct pad as [|p0 [|p1 [|p2 [|]]]].
Qed.

(** Reading back the bytes of an uberblock at the start of a sector. *)
Lemma ub_roundtrip u rest : ub_ok u -> from_bytes_unaligned (ub_as_bytes u ++ rest) = Some u.
Proof.
  intros (H1 & Hbp & H3 & H4 & H5 & H6 & Hc & HcF & Hm & Hpd & Hpad).
  pose proof (bp_roundtrip _ Hbp) as Hrt.
  destruct Hbp as (Hd & _ & (_ & _ & _ & _ & _ & _ & _ & Hpl & _) & Hbc & _ & _ & _ & Hbpad).
  destruct u as [tx bp ts rd pg cp cs mg pd pad]; simpl in *. subst pad.
  destruct cs as [|c0 [|c1 [|c2 [|c3 [|]]]]]; try done.
  destruct bp as [ds p bcs bt fl bpd]; simpl in *. subst bpd.
  destruct ds as [|d0 [|d1 [|]]]; try done. destruct bcs as [|b0 [|b1 [|b2 [|b3 [|]]]]]; try done.
  destruct p as [a b c d e f g ppad]. simpl in Hpl. destruct ppad as [|p0 [|p1 [|p2 [|]]]]; try done.
  set (bp := mkBp _ _ _ _ _ _) in *.
  transitivity (match bp_from_bytes (bp_as_bytes bp) with None => None | Some bp => Some (mkUb
      (from_le_bytes (to_le_bytes 8 tx)) bp (from_le_bytes (to_le_bytes 8 ts))
      (from_le_bytes (to_le_bytes 8 rd)) (from_le_bytes (to_le_bytes 8 pg))
      (from_le_bytes (to_le_bytes 8 cp))
      [from_le_bytes (to_le_bytes 8 c0); from_le_bytes (to_le_bytes 8 c1);
       from_le_bytes (to_le_bytes 8 c2); from_le_bytes (to_le_bytes 8 c3)]
      (from_le_bytes (to_le_bytes 4 mg)) (from_le_bytes (to_le_bytes 2 pd)) [0; 0]) end);
    [reflexivity|].
  rewrite Hrt. repeat match goal with H : Forall _ (_ :: _) |- _ => inversion H; clear H; subst end.
  by rewrite !le_u64, le_u32, le_u16.
Qed.

Lemma fletcher4_ok data : length (fletcher4 data) = 4%nat /\ Forall u64 (fletcher4 data).
Proof.
  unfold fletcher4.
  assert (H : forall ws s, (let '(a, b, c, d) := s in Forall u64 [a; b; c; d]) ->
    let '(a, b, c, d) := fold_left f4_step ws s in Forall u64 [a; b; c; d]).
  { induction ws as [|w ws IH]; intros s Hs; [done|]. cbn [fold_left]. apply IH.
    destruct s as [[[a b] c] d]. unfold f4_step. repeat constructor; apply wrap_u64_range. }
  specialize (H (data_words data) (0, 0, 0, 0)).
  destruct (fold_left f4_step _ _) as [[[a b] c] d]. split; [done|].
  apply H. do 4 (constructor; [unfold u64, U64_MAX; lia|]). constructor.
Qed.

Lemma compute_checksum_ok u : ub_ok u -> ub_ok (compute_checksum u).
Proof.
  intros (H1 & Hbp & H3 & H4 & H5 & H6 & Hc & HcF & Hm & Hpd & Hpad). unfold compute_checksum.
  set (data := ub_as_bytes _). destruct (fletcher4_ok data) as [Hl HF].
  unfold set_ub_checksum, compute. by split_and!.
Qed.

Lemma verify_computed u : verify_checksum (compute_checksum u) = true.
Proof. by apply bool_decide_true. Qed.

(** A sealed uberblock survives the disk: after [compute_checksum] its bytes,
    at the start of a sector with anything behind them, decode to the same
    uberblock, and that one passes [verify_checksum]. *)
Theorem sealed_uberblock_survives u rest :
  ub_ok u ->
  from_bytes_unaligned (ub_as_bytes (compute_checksum u) ++ rest) = Some (compute_checksum u) /\
  verify_checksum (compute_checksum u) = true.
Proof.
  intros Hu. split; [by apply ub_roundtrip, compute_checksum_ok|apply verify_computed].
Qed.

Lemma ub_null_ok : ub_ok ub_null.
Proof. split_and!; repeat constructor; cbn; unfold u8, u64; try done; lia. Qed.

Lemma sealed_uberblock_survives_witness :
  from_bytes_unaligned (ub_as_bytes (compute_checksum ub_null) ++ replicate 320 0)
  = Some (compute_checksum ub_null).
Proof. apply (sealed_uberblock_survives ub_null (replicate 320 0) ub_null_ok). Defined.

(** *** Fletcher checksums *)
Lemma full_words_app k pre l :
  length pre = (8 * k)%nat -> full_words (pre ++ l) = full_words pre ++ full_words l.
Proof.
  revert pre. induction k as [|k IH]; intros pre Hl; [by destruct pre|].
  do 8 (destruct pre as [|? pre]; [simpl in Hl; lia|]). cbn [app full_words]. f_equal.
  apply IH. simpl in Hl. lia.
Qed.

Lemma last_word_app k pre l :
  length pre = (8 * k)%nat -> last_word (pre ++ l) = last_word l.
Proof.
  intros Hl. unfold last_word. rewrite length_app, Hl.
  replace ((8 * k + length l) mod 8)%nat with (length l mod 8)%nat
    by (rewrite Nat.add_comm, Nat.mul_comm, Nat.Div0.mod_add; done).
  case_match; [|done]. do 3 f_equal.
  pose proof (Nat.Div0.mod_le (length l) 8). unfold sub_slice.
  rewrite drop_app, (drop_ge pre) by lia. cbn [app].
  replace (8 * k + length l - length l mod 8 - length pre)%nat
    with (length l - length l mod 8)%nat by lia. f_equal. lia.
Qed.

Definition sum_words (l : list Z) : Z := foldr Z.add 0 l.

(** The first component of both sums is the plain sum of the words. *)
Lemma f4_first ws a b c d :
  (fold_left f4_step ws (a, b, c, d)).1.1.1 mod 2 ^ 64 = (a + sum_words ws) mod 2 ^ 64.
Proof.
  revert a b c d. induction ws as [|w ws IH]; intros a b c d; cbn [fold_left sum_words foldr].
  { by rewrite Z.add_0_r. }
  cbn [f4_step]. rewrite IH. unfold wrap_u64, wrap. rewrite Zplus_mod_idemp_l. f_equal.
  unfold sum_words. lia.
Qed.

Lemma sum_words_app l1 l2 : sum_words (l1 ++ l2) = sum_words l1 + sum_words l2.
Proof. unfold sum_words. induction l1 as [|x l1 IH]; [done|]. simpl. lia. Qed.

Lemma data_words_split k pre w post :
  length pre = (8 * k)%nat -> length w = 8%nat ->
  data_words (pre ++ w ++ post) = full_words pre ++ from_le_bytes w :: data_words post.
Proof.
  intros Hp Hw. unfold data_words. rewrite (full_words_app k), (last_word_app k) by done.
  rewrite (full_words_app 1), (last_word_app 1) by done. do 8 (destruct w as [|? w]; [done|]).
  destruct w; [|done]. by rewrite <- !app_assoc.
Qed.

(** Fletcher-4 detects any corruption confined to one aligned 64-bit word:
    replacing the word by any other changes the checksum, whatever surrounds it
    and whatever the length of the data. *)
Theorem fletcher4_detects_word_change k pre w w' post :
  length pre = (8 * k)%nat -> length w = 8%nat -> length w' = 8%nat ->
  Forall u8 w -> Forall u8 w' -> w <> w' ->
  verify (compute Fletcher4 (pre ++ w ++ post)) (pre ++ w' ++ post) = false.
Proof.
  intros Hp Hw Hw' HF HF' Hne. apply bool_decide_false. unfold compute, value, fletcher4. cbn [kind].
  rewrite !(data_words_split k) by done.
  pose proof (f4_first (full_words pre ++ from_le_bytes w :: data_words post) 0 0 0 0) as H1.
  pose proof (f4_first (full_words pre ++ from_le_bytes w' :: data_words post) 0 0 0 0) as H2.
  destruct (fold_left _ _ _) as [[[a b] c] d]. destruct (fold_left _ _ _) as [[[a' b'] c'] d'].
  simpl in H1, H2. intros [= -> _ _ _]. rewrite H1 in H2. rewrite !sum_words_app in H2.
  cbn [sum_words foldr] in H2. fold (sum_words (data_words post)) in H2.
  pose proof (from_le_bytes_bound w HF) as B1. pose proof (from_le_bytes_bound w' HF') as B2.
  rewrite Hw in B1. rewrite Hw' in B2. change (8 * Z.of_nat 8) with 64 in *.
  apply Hne, from_le_bytes_inj; [done|done|lia|]. Z.div_mod_to_equations. lia.
Qed.

Lemma fletcher4_detects_word_change_witness :
  verify (compute Fletcher4 ([] ++ replicate 8 1 ++ [7; 7])) ([] ++ replicate 8 2 ++ [7; 7]) = false.
Proof.
  apply (fletcher4_detects_word_change 0); [done|done|done| | |done];
    apply Forall_replicate; unfold u8; lia.
Defined.

End BlockFacts.
