(* ===== verification/Spa.v ===== *)
(** * Storage pool (services/fs/hvfs/spa.rs, vdev.rs)

    The pool owns the devices ([HvVdev]), their metaslabs and the uberblock.
    [St] is the state of the drives, reached through the interface
    [SectorStore].  [allocate] picks the metaslab of greatest weight, [free]
    finds the metaslab of an address again, [read_bp] and [write_bp] transfer
    the sectors of a block, [write_uberblock_to_disk] and
    [read_uberblock_from_disk] save and find the root of the pool.

    The facts: allocation hands out disjoint blocks and freeing returns exactly
    them; a block written is read back; a saved uberblock is found again, unless
    a higher slot holds another; the metaslabs reach past the end of the device;
    a buffer that does not fill whole blocks is never written. *)
From S2P Require Import Prelude Bytes Compress Metaslab Block BlockDev.

Module Spa.
Import Compress Block.
Export Metaslab(HvMetaslab).

Definition HV_UBERBLOCK_COUNT : Z := 128.
Definition HV_UBERBLOCK_SECTOR : Z := 0.
Definition HV_VDEV_LABEL_SIZE : Z := 262144.
Definition HV_POOL_METASLAB_SIZE : Z := Z.shiftl 1 24.
Definition HV_POOL_BLOCK_SIZE : Z := Metaslab.HV_POOL_BLOCK_SIZE.
Definition HV_VDEV_ASIZE_DEFAULT : Z := 32 * 1024 * 1024.

(** ** Devices *)
Inductive HvVdevState : Type :=
  | Unknown | Closed | Offline | VRemoved | CantOpen | Faulted | Degraded | Healthy.

Record HvVdevConfig : Type := mkConfig {
  vdev_id : Z;
  vdev_type : Z;
  asize : Z;
  sector_count : Z;
  partition_start : Z;
}.

Definition new_disk (id : Z) : HvVdevConfig := mkConfig id 0 HV_VDEV_ASIZE_DEFAULT 0 0.

Record HvVdev : Type := mkVdev {
  config : HvVdevConfig;
  vstate : HvVdevState;
  total_reads : Z;
  total_writes : Z;
}.

Definition vdev_new (c : HvVdevConfig) : HvVdev := mkVdev c Closed 0 0.

(** [vdev_id as u8], the number of the drive. *)
Definition drive_of (c : HvVdevConfig) : nat := Z.to_nat (wrap 8 (vdev_id c)).

(** [buf[off..off + l.len()].copy_from_slice(l)]. *)
Definition copy_to (buf : bytes) (off : nat) (l : bytes) : bytes :=
  take off buf ++ l ++ drop (off + length l) buf.

(** ** The pool *)
Record HvSpa : Type := mkSpa {
  max_vdevs : nat;
  uberblock : HvUberblock;
  vdevs : list HvVdev;
  metaslabs : list HvMetaslab;
  txg_current : Z;
  alloc_count : Z;
  free_count : Z;
  read_count : Z;
  write_count : Z;
  initialized : bool;
  pool_partition : Z;
}.

Definition eta_spa (s : HvSpa) : HvSpa :=
  mkSpa (max_vdevs s) (uberblock s) (vdevs s) (metaslabs s) (txg_current s) (alloc_count s)
    (free_count s) (read_count s) (write_count s) (initialized s) (pool_partition s).
Definition set_max_vdevs (v : nat) (s : HvSpa) : HvSpa := ltac:(setter eta_spa max_vdevs v s).
Definition set_uberblock (v : HvUberblock) (s : HvSpa) : HvSpa := ltac:(setter eta_spa uberblock v s).
Definition set_vdevs (v : list HvVdev) (s : HvSpa) : HvSpa := ltac:(setter eta_spa vdevs v s).
Definition set_metaslabs (v : list HvMetaslab) (s : HvSpa) : HvSpa := ltac:(setter eta_spa metaslabs v s).
Definition set_txg_current (v : Z) (s : HvSpa) : HvSpa := ltac:(setter eta_spa txg_current v s).
Definition set_alloc_count (v : Z) (s : HvSpa) : HvSpa := ltac:(setter eta_spa alloc_count v s).
Definition set_free_count (v : Z) (s : HvSpa) : HvSpa := ltac:(setter eta_spa free_count v s).
Definition set_read_count (v : Z) (s : HvSpa) : HvSpa := ltac:(setter eta_spa read_count v s).
Definition set_write_count (v : Z) (s : HvSpa) : HvSpa := ltac:(setter eta_spa write_count v s).
Definition set_initialized (v : bool) (s : HvSpa) : HvSpa := ltac:(setter eta_spa initialized v s).
Definition set_pool_partition (v : Z) (s : HvSpa) : HvSpa := ltac:(setter eta_spa pool_partition v s).

Definition spa_new : HvSpa := mkSpa 8 ub_null [] [] 0 0 0 0 0 false 0.

(** [generate_guid] from the timestamp [t]. *)
Definition rotate_left_u64 (x n : Z) : Z := Z.lor (wrap_u64 (Z.shiftl x n)) (Z.shiftr x (64 - n)).
Definition generate_guid (t : Z) : Z :=
  let h := 14695981039346656037 in
  let h := wrap_u64 (Z.lxor h t * 1099511628211) in
  let h := wrap_u64 (Z.lxor h (rotate_left_u64 t 17) * 1099511628211) in
  Z.lor h 1.

Definition init (t : Z) (s : HvSpa) : HvSpa :=
  let s := set_max_vdevs 8 s in
  let s := set_initialized true (set_txg_current 1 s) in
  set_uberblock (set_root_dataset_obj 0 (set_pool_guid (generate_guid t)
    (set_ub_txg 1 (set_magic HV_SPA_MAGIC (uberblock s))))) s.

(** The loop over [0..n_ms], [k] metaslabs to go. *)
Fixpoint add_metaslabs (k : nat) (i n_ms vid asz : Z) (l : list HvMetaslab) : list HvMetaslab :=
  match k with
  | O => l
  | S k =>
      let ms_start := i * HV_POOL_METASLAB_SIZE + HV_VDEV_LABEL_SIZE in
      let ms_size := if i <? n_ms - 1 then HV_POOL_METASLAB_SIZE
                     else wrap_u64 (wrap_u64 (asz - ms_start) + HV_VDEV_LABEL_SIZE) in
      add_metaslabs k (i + 1) n_ms vid asz
        (l ++ [Metaslab.new (wrap_u32 (Z.of_nat (length l))) vid ms_start ms_size])
  end.

Definition add_vdev (c : HvVdevConfig) (s : HvSpa) : bool * HvSpa :=
  if (max_vdevs s <=? length (vdevs s))%nat then (false, s)
  else
    let s := set_vdevs (vdevs s ++ [mkVdev c Healthy 0 0]) s in
    if 0 <? asize c then
      let n_ms := wrap_u32 (Metaslab.div_ceil (asize c) HV_POOL_METASLAB_SIZE) in
      (true, set_metaslabs (add_metaslabs (Z.to_nat n_ms) 0 n_ms (vdev_id c) (asize c) (metaslabs s)) s)
    else (true, s).

(** The loop that keeps the index and device of the greatest weight. *)
Fixpoint find_best (l : list HvMetaslab) (i : nat) (rounded : Z) (best : Z * option (nat * Z))
  : Z * option (nat * Z) :=
  match l with
  | [] => best
  | m :: l =>
      let best :=
        if negb (Metaslab.is_available m) then best
        else if Metaslab.free_space m <? rounded then best
        else if fst best <? Metaslab.weight m then (Metaslab.weight m, Some (i, Metaslab.vdev_id m))
        else best in
      find_best l (S i) rounded best
  end.

Definition allocate (size : Z) (kind : HvCksumType) (comp : HvCompType) (txg : Z) (s : HvSpa)
  : option HvBlockPointer * HvSpa :=
  let rounded := wrap_u64 (Metaslab.div_ceil size HV_POOL_BLOCK_SIZE * HV_POOL_BLOCK_SIZE) in
  match snd (find_best (metaslabs s) 0 rounded (0, None)) with
  | None => (None, s)
  | Some (ms_idx, best_vdev_id) =>
      match metaslabs s !! ms_idx with
      | None => (None, s)
      | Some m =>
          match Metaslab.alloc m rounded with
          | (None, _) => (None, s)
          | (Some off, m') =>
              let s := set_metaslabs (<[ms_idx := m']> (metaslabs s)) s in
              let bp := set_dva 0 (dva_new best_vdev_id off (wrap_u32 rounded)) bp_null in
              let p := set_physical_size (wrap_u32 rounded) (set_logical_size (wrap_u32 size)
                         (set_comp_type comp (set_cksum_type kind (prop bp)))) in
              (Some (set_birth txg (set_prop p bp)),
               set_alloc_count (wrap_u64 (alloc_count s + 1)) s)
          end
      end
  end.

(** The inner loop of [free]: the first metaslab of the device whose size
    exceeds the relative offset. *)
Fixpoint free_in (l : list HvMetaslab) (d : HvDva) : list HvMetaslab :=
  match l with
  | [] => []
  | m :: l =>
      if (Metaslab.vdev_id m =? dva_vdev_id d)
         && (sat_sub (offset d) (Metaslab.start m) <? Metaslab.size m)
      then Metaslab.free m (offset d) (Block.asize d) :: l
      else m :: free_in l d
  end.

Definition free_dva (bp : HvBlockPointer) (l : list HvMetaslab) (i : nat) : list HvMetaslab :=
  match get_dva bp i with Some d => free_in l d | None => l end.

Definition free (bp : HvBlockPointer) (s : HvSpa) : HvSpa :=
  let s := set_metaslabs (fold_left (free_dva bp) (seq 0 HV_DVA_MAX) (metaslabs s)) s in
  set_free_count (wrap_u64 (free_count s + 1)) s.

Definition advance_txg (s : HvSpa) : Z * HvSpa :=
  let t := wrap_u64 (txg_current s + 1) in (t, set_txg_current t s).

(** [vdevs.iter_mut().find(|v| v.config.vdev_id == id)]. *)
Definition find_vdev (id : Z) (l : list HvVdev) : option nat :=
  position (fun v => vdev_id (config v) =? id) l.

Section Disk.
Context {St : Type} `{SectorStore St}.

Fixpoint read_loop (count : nat) (c : HvVdevConfig) (sec : Z) (off : nat) (buf : bytes) (st : St)
  : Z * bytes * St :=
  match count with
  | O => (0, buf, st)
  | S count =>
      if (length buf <? off + 512)%nat then (0, buf, st)
      else
        let '(ret, b, st) := hdd_read st (drive_of c) (wrap_u64 (partition_start c + sec)) in
        if ret <? 0 then (ret, buf, st)
        else read_loop count c (sec + 1) (off + 512) (copy_to buf off b) st
  end.

Definition read_sectors (v : HvVdev) (sector : Z) (count : nat) (buf : bytes) (st : St)
  : Z * bytes * HvVdev * St :=
  if (length buf <? count * 512)%nat then (BlockDev.EINVAL, buf, v, st)
  else
    let '(ret, buf, st) := read_loop count (config v) sector 0 buf st in
    if ret <? 0 then (ret, buf, v, st)
    else (0, buf, mkVdev (config v) (vstate v) (total_reads v + 1) (total_writes v), st).

Fixpoint write_loop (count : nat) (c : HvVdevConfig) (sec : Z) (off : nat) (buf : bytes) (st : St)
  : Z * St :=
  match count with
  | O => (0, st)
  | S count =>
      if (length buf <? off + 512)%nat then (0, st)
      else
        let '(ret, st) := hdd_write st (drive_of c) (wrap_u64 (partition_start c + sec)) (drop off buf) in
        if ret <? 0 then (ret, st) else write_loop count c (sec + 1) (off + 512) buf st
  end.

Definition write_sectors (v : HvVdev) (sector : Z) (count : nat) (buf : bytes) (st : St)
  : Z * HvVdev * St :=
  if (length buf <? count * 512)%nat then (BlockDev.EINVAL, v, st)
  else
    let '(ret, st) := write_loop count (config v) sector 0 buf st in
    if ret <? 0 then (ret, v, st)
    else (0, mkVdev (config v) (vstate v) (total_reads v) (total_writes v + 1), st).

Definition sector_of (d : HvDva) : Z := offset d / 512.
Definition count_of (d : HvDva) : nat := Z.to_nat (Metaslab.div_ceil (Block.asize d) 512).

(** [read_bp] from address [i] on, [k] addresses to go. *)
Fixpoint read_dvas (k i : nat) (bp : HvBlockPointer) (buf : bytes) (s : HvSpa) (st : St)
  : Z * bytes * HvSpa * St :=
  match k with
  | O => (-1, buf, s, st)
  | S k =>
      match get_dva bp i with
      | None => read_dvas k (S i) bp buf s st
      | Some d =>
          match find_vdev (dva_vdev_id d) (vdevs s) with
          | None => read_dvas k (S i) bp buf s st
          | Some j =>
              match vdevs s !! j with
              | None => read_dvas k (S i) bp buf s st
              | Some v =>
                  let '(result, buf, v, st) := read_sectors v (sector_of d) (count_of d) buf st in
                  let s := set_vdevs (<[j := v]> (vdevs s)) s in
                  if result =? 0
                  then (0, buf, set_read_count (wrap_u64 (read_count s + 1)) s, st)
                  else read_dvas k (S i) bp buf s st
              end
          end
      end
  end.
Definition read_bp (bp : HvBlockPointer) (buf : bytes) (s : HvSpa) (st : St) : Z * bytes * HvSpa * St :=
  read_dvas HV_DVA_MAX 0 bp buf s st.

Fixpoint write_dvas (k i : nat) (bp : HvBlockPointer) (buf : bytes) (s : HvSpa) (st : St)
  : Z * HvSpa * St :=
  match k with
  | O => (0, set_write_count (wrap_u64 (write_count s + 1)) s, st)
  | S k =>
      match get_dva bp i with
      | None => write_dvas k (S i) bp buf s st
      | Some d =>
          match find_vdev (dva_vdev_id d) (vdevs s) with
          | None => write_dvas k (S i) bp buf s st
          | Some j =>
              match vdevs s !! j with
              | None => write_dvas k (S i) bp buf s st
              | Some v =>
                  let '(result, v, st) := write_sectors v (sector_of d) (count_of d) buf st in
                  let s := set_vdevs (<[j := v]> (vdevs s)) s in
                  if negb (result =? 0) then (result, s, st) else write_dvas k (S i) bp buf s st
              end
          end
      end
  end.
Definition write_bp (bp : HvBlockPointer) (buf : bytes) (s : HvSpa) (st : St) : Z * HvSpa * St :=
  write_dvas HV_DVA_MAX 0 bp buf s st.

(** ** The uberblock on disk *)
Definition vdev_0_drive_id (s : HvSpa) : nat :=
  match vdevs s with [] => 0%nat | v :: _ => drive_of (config v) end.

Definition read_sector (s : HvSpa) (sector : Z) (st : St) : Z * bytes * St :=
  hdd_read st (vdev_0_drive_id s) (wrap_u32 (sector + pool_partition s)).
Definition write_sector (s : HvSpa) (sector : Z) (buf : bytes) (st : St) : Z * St :=
  if (length buf <? 512)%nat then (BlockDev.EINVAL, st)
  else hdd_write st (vdev_0_drive_id s) (wrap_u32 (sector + pool_partition s)) buf.

Definition ub_slot (s : HvSpa) : Z := wrap_u32 (txg_current s) mod HV_UBERBLOCK_COUNT.

Definition write_uberblock_to_disk (s : HvSpa) (st : St) : St :=
  if negb (is_valid (uberblock s)) then st
  else
    let ub_bytes := ub_as_bytes (compute_checksum (uberblock s)) in
    let copy_len := Nat.min (length ub_bytes) 512 in
    let sector_buf := copy_to (replicate 512 0) 0 (take copy_len ub_bytes) in
    snd (write_sector s (HV_UBERBLOCK_SECTOR + ub_slot s) sector_buf st).

(** [for i in (0..HV_UBERBLOCK_COUNT).rev()], from slot [k - 1] down. *)
Fixpoint read_slots (k : nat) (s : HvSpa) (st : St) : option HvUberblock * St :=
  match k with
  | O => (None, st)
  | S k =>
      let '(ret, b, st) := read_sector s (HV_UBERBLOCK_SECTOR + Z.of_nat k) st in
      if negb (ret =? 0) then read_slots k s st
      else
        match from_bytes_unaligned b with
        | None => read_slots k s st
        | Some ub =>
            if is_valid ub && verify_checksum ub then (Some ub, st) else read_slots k s st
        end
  end.
Definition read_uberblock_from_disk (s : HvSpa) (st : St) : option HvUberblock * St :=
  read_slots (Z.to_nat HV_UBERBLOCK_COUNT) s st.

End Disk.
End Spa.

Module SpaFacts.
Import BlockDevFacts Compress Block Metaslab MetaslabFacts BlockFacts Spa.

(** *** Allocation *)

(** The metaslabs describe the used blocks [Us]; those of one device are in
    ascending order and do not overlap. *)
Record pool_ok (ms : list HvMetaslab) (Us : list (gset nat)) : Prop := {
  po_each : Forall2 ms_ok ms Us;
  po_small : Forall (fun m => Metaslab.size m <= HV_POOL_METASLAB_SIZE) ms;
  po_order : forall i j mi mj, (i < j)%nat -> ms !! i = Some mi -> ms !! j = Some mj ->
    Metaslab.vdev_id mi = Metaslab.vdev_id mj -> start mi + Metaslab.size mi <= start mj;
}.

Lemma find_best_spec l i rounded best v r :
  snd (find_best l i rounded best) = Some (r, v) ->
  snd best = Some (r, v) \/
  exists j m, l !! j = Some m /\ r = (i + j)%nat /\ Metaslab.vdev_id m = v /\ rounded <= free_space m.
Proof.
  revert i best. induction l as [|m l IH]; intros i best; [by left|]. cbn [find_best].
  intros Hb. apply IH in Hb as [Hb|(j & m' & Hm & -> & Hv & Hr)].
  - destruct (negb (is_available m)); [by left|].
    destruct (Z.ltb_spec (free_space m) rounded); [by left|].
    destruct (fst best <? weight m); [|by left]. injection Hb as <- <-.
    right. exists 0%nat, m. split_and!; [done|lia|done|done].
  - right. exists (S j), m'. split_and!; [done|lia|done|done].
Qed.

(** What [alloc] keeps of a metaslab. *)
Lemma alloc_same m sz o m' :
  alloc m sz = (o, m') ->
  start m' = start m /\ Metaslab.size m' = Metaslab.size m /\ Metaslab.vdev_id m' = Metaslab.vdev_id m.
Proof. unfold alloc. repeat case_match; intros [= <- <-]; done. Qed.

Lemma pool_ok_insert ms Us i m m' U :
  pool_ok ms Us -> ms !! i = Some m -> ms_ok m' U ->
  start m' = start m -> Metaslab.size m' = Metaslab.size m -> Metaslab.vdev_id m' = Metaslab.vdev_id m ->
  pool_ok (<[i := m']> ms) (<[i := U]> Us).
Proof.
  intros [He Hsm Ho] Hi Hok Es Ez Ev. split.
  - by apply Forall2_insert.
  - apply Forall_insert; [done|]. rewrite Ez. by apply (proj1 (Forall_lookup _ _) Hsm _ _ Hi).
  - intros a b ma mb Hab Ha Hb Hv.
    apply list_lookup_insert_Some in Ha as [(<- & <- & _)|[_ Ha]];
      apply list_lookup_insert_Some in Hb as [(<- & <- & _)|[_ Hb]]; rewrite ?Es, ?Ez in *.
    + lia.
    + apply (Ho i b m mb); [done|done|done|congruence].
    + apply (Ho a i ma m); [done|done|done|congruence].
    + by apply (Ho a b ma mb).
Qed.

(** [free] finds the metaslab an address was taken from. *)
Lemma free_in_at l idx m d :
  (forall j mj, (j < idx)%nat -> l !! j = Some mj -> Metaslab.vdev_id mj = Metaslab.vdev_id m ->
     start mj + Metaslab.size mj <= start m) ->
  l !! idx = Some m -> dva_vdev_id d = Metaslab.vdev_id m ->
  start m <= offset d < start m + Metaslab.size m ->
  free_in l d = <[idx := Metaslab.free m (offset d) (Block.asize d)]> l.
Proof.
  revert idx. induction l as [|m0 l IH]; intros idx Ho Hidx Hv Hoff; [done|]. cbn [free_in].
  destruct idx as [|idx].
  - injection Hidx as ->. rewrite Hv, Z.eqb_refl. unfold sat_sub.
    rewrite (proj2 (Z.ltb_lt _ _)) by lia. done.
  - assert (Hskip : (Metaslab.vdev_id m0 =? dva_vdev_id d)
         && (sat_sub (offset d) (start m0) <? Metaslab.size m0) = false).
    { destruct (Z.eqb_spec (Metaslab.vdev_id m0) (dva_vdev_id d)); [|done]. cbn [andb].
      pose proof (Ho 0%nat m0 ltac:(lia) eq_refl ltac:(congruence)). unfold sat_sub. apply Z.ltb_ge. lia. }
    rewrite Hskip. cbn. f_equal. apply IH; [|done|done|done].
    intros j mj Hj Hmj. apply (Ho (S j)); [lia|done].
Qed.

Lemma difference_run (U : gset nat) k n : run k n ## U -> (run k n ∪ U) ∖ run k n = U.
Proof. intros Hd. set_solver. Qed.

Lemma run_subset_union (U : gset nat) k n : run k n ⊆ run k n ∪ U.
Proof. set_solver. Qed.

(** C10: the pool hands out disjoint blocks and takes them back: [allocate]
    returns an address inside one metaslab, on that metaslab's device, large
    enough, made of blocks no live allocation uses, and marks exactly those;
    when it fails the pool is unchanged; and [free] of what was allocated finds
    the same metaslab among all of the device and restores the used blocks. *)
Theorem pool_allocates_disjoint_blocks size kind comp txg s Us :
  pool_ok (metaslabs s) Us -> 0 <= size < 2 ^ 62 ->
  match allocate size kind comp txg s with
  | (None, s') => s' = s
  | (Some bp, s') => exists idx m U k n d,
      metaslabs s !! idx = Some m /\ Us !! idx = Some U /\
      get_dva bp 0 = Some d /\ get_dva bp 1 = None /\
      dva_vdev_id d = Metaslab.vdev_id m /\ offset d = start m + 4096 * Z.of_nat k /\
      Block.asize d = 4096 * Z.of_nat n /\ size <= Block.asize d /\
      offset d + Block.asize d <= start m + Metaslab.size m /\ run k n ## U /\
      pool_ok (metaslabs s') (<[idx := run k n ∪ U]> Us) /\ pool_ok (metaslabs (free bp s')) Us
  end.
Proof.
  intros Hpool Hsize. unfold allocate. change HV_POOL_BLOCK_SIZE with 4096.
  set (rounded := wrap_u64 _).
  assert (Hr : rounded = div_ceil size 4096 * 4096).
  { unfold rounded. apply wrap_u64_small. unfold u64, U64_MAX, div_ceil. Z.div_mod_to_equations. lia. }
  assert (Hr0 : 0 <= rounded /\ size <= rounded) by (rewrite Hr; unfold div_ceil; Z.div_mod_to_equations; lia).
  destruct (snd (find_best (metaslabs s) 0 rounded (0, None))) as [[idx v]|] eqn:Hbest; [|done].
  apply find_best_spec in Hbest as [|(j & m & Hm & -> & Hv & _)]; [done|]. cbn [Nat.add]. rewrite Hm.
  destruct (Forall2_lookup_l _ _ _ _ _ (po_each _ _ Hpool) Hm) as (U & HU & Hok).
  pose proof (proj1 (Forall_lookup _ _) (po_small _ _ Hpool) _ _ Hm) as Hsmall. cbv beta in Hsmall.
  destruct (metaslab_spec m U Hok) as [Halloc Hfree]. specialize (Halloc rounded ltac:(lia)).
  destruct (alloc m rounded) as [[off|] m'] eqn:Ha; [|done].
  destruct Halloc as (k & -> & Hk & Hd & _ & Hok'). pose proof (alloc_same _ _ _ _ Ha) as (Es & Ez & Ev).
  set (n := nblocks_of rounded) in *.
  assert (Hn : Z.of_nat n * 4096 = rounded).
  { unfold n, nblocks_of, div_ceil in *. rewrite Hr. Z.div_mod_to_equations. lia. }
  assert (Hrpos : 0 < rounded).
  { destruct (decide (rounded = 0)) as [E0|]; [|lia]. rewrite E0 in Ha. done. }
  pose proof (max_block_bound m U Hok) as Hmb. pose proof (ok_size _ _ Hok) as Hms.
  pose proof (ok_max _ _ Hok) as Hmax. change HV_POOL_METASLAB_SIZE with 16777216 in Hsmall.
  assert (Hend : 4096 * Z.of_nat k + rounded <= Metaslab.size m) by (rewrite Hmax in Hk; Z.div_mod_to_equations; lia).
  assert (Hw32 : wrap_u32 rounded = rounded) by (apply wrap_u32_small; unfold u32, U32_MAX; lia).
  exists j, m, U, k, n, (dva_new v (start m + 4096 * Z.of_nat k) (wrap_u32 rounded)). rewrite Hw32.
  assert (Hnn : dva_is_null (dva_new v (start m + 4096 * Z.of_nat k) rounded) = false).
  { unfold dva_is_null. cbn [dva_vdev_id offset Block.asize dva_new].
    rewrite (proj2 (Z.eqb_neq rounded 0)) by lia. by rewrite andb_false_r. }
  assert (Hget0 : get_dva (set_birth txg (set_prop
     (set_physical_size rounded (set_logical_size (wrap_u32 size)
        (set_comp_type comp (set_cksum_type kind (prop (set_dva 0
          (dva_new v (start m + 4096 * Z.of_nat k) rounded) bp_null))))))
     (set_dva 0 (dva_new v (start m + 4096 * Z.of_nat k) rounded) bp_null))) 0
     = Some (dva_new v (start m + 4096 * Z.of_nat k) rounded)).
  { unfold get_dva, dva_at. cbn. rewrite Hnn. done. }
  split_and!; [done|done|exact Hget0|reflexivity|done|done|cbn; lia|cbn; lia|cbn; lia|done| |].
  - cbn [metaslabs set_alloc_count set_metaslabs]. by apply (pool_ok_insert _ _ _ m).
  - unfold free. cbn [metaslabs set_free_count set_metaslabs set_alloc_count HV_DVA_MAX seq fold_left].
    unfold free_dva at 2. rewrite Hget0. unfold free_dva.
    match goal with |- context [get_dva ?b 1] => change (get_dva b 1) with (@None HvDva) end. cbv iota.
    pose proof (lookup_lt_Some _ _ _ Hm) as Hlt.
    rewrite (free_in_at _ j m').
    + rewrite list_insert_insert_eq. rewrite <- (list_insert_id Us j U HU).
      apply (pool_ok_insert _ _ _ m); [done|done| | | |].
      * rewrite <- (difference_run U k n Hd). cbn [offset Block.asize dva_new]. rewrite <- Es.
        destruct (metaslab_spec m' _ Hok') as [_ Hf].
        apply Hf; [lia|apply run_subset_union|fold n; lia].
      * exact Es.
      * exact Ez.
      * exact Ev.
    + intros i mi Hi Hmi Hvi. rewrite list_lookup_insert_ne in Hmi by lia. rewrite Es.
      apply (po_order _ _ Hpool i j mi m); [done|done|done|congruence].
    + by apply list_lookup_insert_eq.
    + cbn. congruence.
    + cbn [offset dva_new]. rewrite Es, Ez. lia.
Qed.

(** *** Adding a device *)

(** Metaslab [i] of a device of [asz] bytes divided into [n]. *)
Definition ms_start_of (i : Z) : Z := i * HV_POOL_METASLAB_SIZE + HV_VDEV_LABEL_SIZE.
Definition ms_size_of (i n asz : Z) : Z :=
  if i <? n - 1 then HV_POOL_METASLAB_SIZE else asz - i * HV_POOL_METASLAB_SIZE.

Lemma add_metaslabs_spec k i n vid asz l :
  0 <= i -> (i + Z.of_nat k) * HV_POOL_METASLAB_SIZE <= asz + HV_POOL_METASLAB_SIZE -> asz < 2 ^ 55 ->
  i + Z.of_nat k = n -> (n - 1) * HV_POOL_METASLAB_SIZE < asz ->
  exists l', add_metaslabs k i n vid asz l = l ++ l' /\ length l' = k /\
    forall j m, l' !! j = Some m -> exists id, m = new id vid (ms_start_of (i + Z.of_nat j)) (ms_size_of (i + Z.of_nat j) n asz).
Proof.
  change HV_POOL_METASLAB_SIZE with 16777216.
  revert i l. induction k as [|k IH]; intros i l Hi Hend Hasz Hn Hlast.
  { exists []. cbn. by rewrite app_nil_r. }
  cbn [add_metaslabs]. change HV_POOL_METASLAB_SIZE with 16777216.
  set (m0 := new _ vid _ _). destruct (IH (i + 1) (l ++ [m0])) as (l' & -> & Hl' & Hm); [lia|lia|lia|lia|lia|].
  exists (m0 :: l'). rewrite <- app_assoc. split; [done|]. split; [cbn; lia|].
  intros [|j] m; cbn.
  - intros [= <-]. eexists. unfold m0, ms_start_of, ms_size_of. change HV_POOL_METASLAB_SIZE with 16777216.
    rewrite Z.add_0_r. f_equal. destruct (Z.ltb_spec i (n - 1)); [done|].
    unfold wrap_u64, wrap. rewrite Zplus_mod_idemp_l. rewrite Z.mod_small; change HV_VDEV_LABEL_SIZE with 262144; lia.
  - intros Hj. destruct (Hm j m Hj) as [id ->]. exists id. f_equal; f_equal; lia.
Qed.

(** The metaslabs of a device added to a pool without metaslabs. *)
Lemma add_vdev_metaslabs c s :
  metaslabs s = [] -> (length (vdevs s) < max_vdevs s)%nat -> 0 < Spa.asize c < 2 ^ 55 ->
  exists n s', add_vdev c s = (true, s') /\ 0 < n /\ (n - 1) * HV_POOL_METASLAB_SIZE < Spa.asize c <= n * HV_POOL_METASLAB_SIZE /\
    length (metaslabs s') = Z.to_nat n /\
    forall j m, metaslabs s' !! j = Some m ->
      exists id, m = new id (Spa.vdev_id c) (ms_start_of (Z.of_nat j)) (ms_size_of (Z.of_nat j) n (Spa.asize c)).
Proof.
  intros Hms Hv Hasz. unfold add_vdev. rewrite (proj2 (Nat.leb_gt _ _)) by done.
  rewrite (proj2 (Z.ltb_lt _ _)) by lia. cbn [metaslabs set_vdevs]. rewrite Hms.
  change HV_POOL_METASLAB_SIZE with 16777216.
  set (n := div_ceil (Spa.asize c) 16777216).
  assert (Hn : 0 < n /\ (n - 1) * 16777216 < Spa.asize c <= n * 16777216 /\ n < 2 ^ 32)
    by (unfold n, div_ceil; Z.div_mod_to_equations; lia).
  rewrite wrap_u32_small by (unfold u32, U32_MAX; lia).
  destruct (add_metaslabs_spec (Z.to_nat n) 0 n (Spa.vdev_id c) (Spa.asize c) []) as (l' & -> & Hl & Hm);
    change HV_POOL_METASLAB_SIZE with 16777216; [lia|lia|lia|lia|lia|].
  exists n. eexists. split; [done|]. split; [lia|]. split; [lia|]. cbn [metaslabs set_metaslabs app]. done.
Qed.

Lemma add_vdev_pool_ok c s :
  metaslabs s = [] -> (length (vdevs s) < max_vdevs s)%nat -> 0 < Spa.asize c < 2 ^ 55 ->
  exists s' Us, add_vdev c s = (true, s') /\ pool_ok (metaslabs s') Us /\ Forall (eq ∅) Us.
Proof.
  intros Hms Hv Hasz. destruct (add_vdev_metaslabs c s Hms Hv Hasz) as (n & s' & E & Hn & Hb & Hl & Hm).
  change HV_POOL_METASLAB_SIZE with 16777216 in *.
  assert (Hsz : forall j, (j < Z.to_nat n)%nat -> 0 <= ms_size_of (Z.of_nat j) n (Spa.asize c) <= 16777216).
  { intros j Hj. unfold ms_size_of. change HV_POOL_METASLAB_SIZE with 16777216.
    destruct (Z.ltb_spec (Z.of_nat j) (n - 1)); lia. }
  exists s', (replicate (Z.to_nat n) ∅). split; [done|]. split; [|by apply Forall_replicate]. split.
  - apply Forall2_same_length_lookup_2; [by rewrite length_replicate|].
    intros j m U Hj [-> Hlt]%lookup_replicate. destruct (Hm j m Hj) as [id ->]. specialize (Hsz j Hlt).
    apply new_ok; unfold ms_start_of, U64_MAX; change HV_POOL_METASLAB_SIZE with 16777216;
      change HV_VDEV_LABEL_SIZE with 262144; nia.
  - apply Forall_lookup. intros j m Hj. destruct (Hm j m Hj) as [id ->]. cbn. apply Hsz.
    rewrite <- Hl. by eapply lookup_lt_Some.
  - intros i j mi mj Hij Hi Hj _. pose proof (lookup_lt_Some _ _ _ Hj).
    destruct (Hm i mi Hi) as [id1 ->]. destruct (Hm j mj Hj) as [id2 ->]. cbn.
    unfold ms_start_of, ms_size_of. change HV_POOL_METASLAB_SIZE with 16777216.
    rewrite (proj2 (Z.ltb_lt _ _)) by lia. lia.
Qed.

Lemma pool_allocates_disjoint_blocks_witness :
  exists s' bp s2, add_vdev (new_disk 0) spa_new = (true, s') /\
    allocate 5000 Fletcher4 Off 7 s' = (Some bp, s2) /\
    exists d, get_dva bp 0 = Some d /\ 5000 <= Block.asize d.
Proof.
  destruct (add_vdev_pool_ok (new_disk 0) spa_new) as (s' & Us & E & Hok & _);
    [reflexivity|cbn; lia|cbn; unfold HV_VDEV_ASIZE_DEFAULT; lia|].
  pose proof (pool_allocates_disjoint_blocks 5000 Fletcher4 Off 7 s' Us Hok ltac:(lia)) as H.
  destruct (allocate 5000 Fletcher4 Off 7 s') as [[bp|] s2] eqn:Ha.
  - exists s', bp, s2. split; [exact E|]. split; [exact Ha|].
    destruct H as (idx & m & U & k & n & d & _ & _ & Hd & _ & _ & _ & _ & Hs & _). by exists d.
  - exfalso. assert (Hn : exists o, fst (allocate 5000 Fletcher4 Off 7 (snd (add_vdev (new_disk 0) spa_new))) = Some o)
      by (eexists; vm_compute; reflexivity).
    destruct Hn as [o Ho]. rewrite E in Ho. cbn [snd] in Ho. rewrite Ha in Ho. discriminate.
Defined.

(** The metaslabs of a device start after its 256 KiB label but add up to
    its full size: the last one ends 256 KiB past the end of the device, so that
    [allocate] can return addresses the device does not have. *)
Theorem metaslabs_overrun_device c s :
  metaslabs s = [] -> (length (vdevs s) < max_vdevs s)%nat -> 0 < Spa.asize c < 2 ^ 55 ->
  exists s' m, add_vdev c s = (true, s') /\ last (metaslabs s') = Some m /\
    start m + Metaslab.size m = Spa.asize c + HV_VDEV_LABEL_SIZE.
Proof.
  intros Hms Hv Hasz. destruct (add_vdev_metaslabs c s Hms Hv Hasz) as (n & s' & E & Hn & Hb & Hl & Hm).
  change HV_POOL_METASLAB_SIZE with 16777216 in *.
  destruct (lookup_lt_is_Some_2 (metaslabs s') (Z.to_nat (n - 1))) as [m Hj]; [lia|].
  destruct (Hm _ _ Hj) as [id Hid]. exists s', m. split; [done|]. split.
  - rewrite last_lookup, Hl. rewrite <- Hj. f_equal. lia.
  - subst m. cbn. unfold ms_start_of, ms_size_of. change HV_POOL_METASLAB_SIZE with 16777216.
    rewrite (proj2 (Z.ltb_ge _ _)) by lia. lia.
Qed.

Lemma metaslabs_overrun_device_witness :
  exists s' m, add_vdev (new_disk 0) spa_new = (true, s') /\ last (metaslabs s') = Some m /\
    start m + Metaslab.size m = 33554432 + 262144.
Proof.
  apply (metaslabs_overrun_device (new_disk 0) spa_new); [reflexivity|cbn; lia|cbn; unfold HV_VDEV_ASIZE_DEFAULT; lia].
Defined.

(** *** Blocks on the drives *)
Section Transfer.
Context {St : Type} `{SectorStore St}.
Implicit Types st : St.

(** [count] sectors of the device from [sec] on. *)
Definition phys (c : HvVdevConfig) (sec : Z) (i : nat) : Z := partition_start c + sec + Z.of_nat i.
Definition in_range (c : HvVdevConfig) (sec : Z) (count : nat) : Prop :=
  0 <= partition_start c /\ 0 <= sec /\ partition_start c + sec + Z.of_nat count <= U64_MAX.
Definition readable st (c : HvVdevConfig) (sec : Z) (count : nat) : Prop :=
  forall i, (i < count)%nat -> is_Some (sector_at st (drive_of c) (phys c sec i)).

Lemma phys_wrap c sec count :
  in_range c sec (S count) -> wrap_u64 (partition_start c + sec) = phys c sec 0.
Proof.
  intros (H1 & H2 & H3). unfold phys. rewrite wrap_u64_small; [lia|]. unfold u64. lia.
Qed.

Lemma write_loop_ok count c sec off buf st :
  in_range c sec count -> length buf = (off + 512 * count)%nat -> readable st c sec count ->
  exists st', write_loop count c sec off buf st = (0, st') /\
    forall d n, sector_at st' d n
      = if decide (d = drive_of c /\ phys c sec 0 <= n < phys c sec 0 + Z.of_nat count)
        then Some (take 512 (drop (off + 512 * Z.to_nat (n - phys c sec 0)) buf)) else sector_at st d n.
Proof.
  revert sec off st. induction count as [|count IH]; intros sec off st Hr Hl Hrd.
  { exists st. split; [done|]. intros d n. rewrite decide_False by lia. done. }
  cbn [write_loop]. rewrite (proj2 (Nat.ltb_ge _ _)) by lia. rewrite (phys_wrap c sec count Hr).
  destruct (Hrd 0%nat ltac:(lia)) as [b0 Hb0].
  destruct (hdd_write_ok st (drive_of c) (phys c sec 0) b0 (drop off buf) Hb0) as (st1 & -> & Hs1).
  { rewrite length_drop. lia. }
  cbn [Z.ltb Z.compare]. destruct (IH (sec + 1) (off + 512)%nat st1) as (st2 & -> & Hs2).
  - destruct Hr as (? & ? & ?). unfold in_range. lia.
  - lia.
  - intros i Hi. rewrite Hs1. case_decide; [by eexists|].
    replace (phys c (sec + 1) i) with (phys c sec (S i)) by (unfold phys; lia). apply Hrd. lia.
  - exists st2. split; [done|]. intros d n. rewrite Hs2, Hs1.
    replace (phys c (sec + 1) 0) with (phys c sec 0 + 1) by (unfold phys; lia).
    destruct (decide (d = drive_of c)) as [->|Hd]; [|by rewrite !decide_False by tauto].
    destruct (decide (n = phys c sec 0)) as [->|Hn].
    + rewrite decide_False by lia. rewrite !decide_True by (split; [done|lia]).
      rewrite Z.sub_diag. by rewrite Nat.add_0_r.
    + destruct (decide (phys c sec 0 <= n < phys c sec 0 + Z.of_nat (S count))) as [Hin|Hout].
      * rewrite !decide_True by (split; [done|lia]). do 3 f_equal. lia.
      * by rewrite !decide_False by lia.
Qed.

Lemma copy_to_app (pre post b : bytes) off :
  length pre = off -> (length b <= length post)%nat ->
  copy_to (pre ++ post) off b = (pre ++ b) ++ drop (length b) post.
Proof.
  intros <- Hb. unfold copy_to. rewrite take_app_length, drop_app, (drop_ge pre) by lia.
  replace (length pre + length b - length pre)%nat with (length b) by lia. by rewrite <- app_assoc.
Qed.

Lemma read_loop_ok count : forall c sec pre post data st,
  in_range c sec count -> length post = (512 * count)%nat -> length data = (512 * count)%nat ->
  (forall i, (i < count)%nat ->
     sector_at st (drive_of c) (phys c sec i) = Some (take 512 (drop (512 * i) data))) ->
  exists st', read_loop count c sec (length pre) (pre ++ post) st = (0, pre ++ data, st') /\
    forall d n, sector_at st' d n = sector_at st d n.
Proof.
  induction count as [|count IH]; intros c sec pre post data st Hr Hp Hd Hs.
  { exists st. destruct post, data; done. }
  cbn [read_loop]. rewrite (proj2 (Nat.ltb_ge _ _)) by (rewrite length_app; lia).
  rewrite (phys_wrap c sec count Hr).
  pose proof (Hs 0%nat ltac:(lia)) as H0. rewrite Nat.mul_0_r, drop_0 in H0.
  destruct (hdd_read_ok st _ _ _ H0) as (st1 & -> & Hs1). cbn [Z.ltb Z.compare].
  rewrite copy_to_app by (done || (rewrite length_take; lia)).
  assert (Hlt : length (take 512 data) = 512%nat) by (rewrite length_take; lia). rewrite Hlt.
  replace (length pre + 512)%nat with (length (pre ++ take 512 data)) by (rewrite length_app; lia).
  destruct (IH c (sec + 1) (pre ++ take 512 data) (drop 512 post) (drop 512 data) st1) as (st2 & -> & Hs2).
  - destruct Hr as (? & ? & ?). unfold in_range. lia.
  - rewrite length_drop. lia.
  - rewrite length_drop. lia.
  - intros i Hi. rewrite Hs1, drop_drop. replace (phys c (sec + 1) i) with (phys c sec (S i)) by (unfold phys; lia).
    rewrite Hs by lia. do 3 f_equal. lia.
  - exists st2. split; [|intros; by rewrite Hs2, Hs1]. by rewrite <- app_assoc, take_drop.
Qed.

(** [bp] has one address, on device [j] of the pool. *)
Definition single (bp : HvBlockPointer) (s : HvSpa) (d : HvDva) (j : nat) (v : HvVdev) : Prop :=
  get_dva bp 0 = Some d /\ get_dva bp 1 = None /\
  find_vdev (dva_vdev_id d) (vdevs s) = Some j /\ vdevs s !! j = Some v.

Lemma count_of_whole d n : Block.asize d = 512 * Z.of_nat n -> count_of d = n.
Proof. intros E. unfold count_of, div_ceil. rewrite E. Z.div_mod_to_equations. lia. Qed.

(** C19: a block is read back as it was written: for a block pointer with one
    address, when the buffer fills the block
    exactly and the device has the sectors, [write_bp] succeeds, and a later
    [read_bp] of the same block pointer, with the same devices in the pool,
    returns the data. *)
Theorem block_write_read bp s d j v n buf buf0 st :
  single bp s d j v -> Block.asize d = 512 * Z.of_nat n -> length buf = (512 * n)%nat ->
  length buf0 = (512 * n)%nat -> in_range (config v) (sector_of d) n -> readable st (config v) (sector_of d) n ->
  exists s1 st1, write_bp bp buf s st = (0, s1, st1) /\
  forall s2, single bp s2 d j v -> exists s3 st2, read_bp bp buf0 s2 st1 = (0, buf, s3, st2).
Proof.
  intros (H0 & H1 & Hf & Hv) Hasz Hb Hb0 Hr Hrd. unfold write_bp, HV_DVA_MAX. cbn [write_dvas].
  rewrite H0, H1, Hf, Hv, (count_of_whole d n Hasz). unfold write_sectors.
  rewrite (proj2 (Nat.ltb_ge _ _)) by lia.
  destruct (write_loop_ok n (config v) (sector_of d) 0 buf st Hr Hb Hrd) as (st1 & -> & Hs1).
  cbn [Z.ltb Z.eqb Z.compare negb]. eexists _, _. split; [done|].
  intros s2 (_ & _ & Hf2 & Hv2). unfold read_bp, HV_DVA_MAX. cbn [read_dvas].
  rewrite H0, Hf2, Hv2, (count_of_whole d n Hasz). unfold read_sectors. rewrite (proj2 (Nat.ltb_ge _ _)) by lia.
  destruct (read_loop_ok n (config v) (sector_of d) [] buf0 buf st1) as (st2 & Hrl & _); [done|done|done| |].
  { intros i Hi. rewrite Hs1. unfold phys in *. rewrite decide_True by (split; [done|lia]).
    cbn [Nat.add]. do 4 f_equal. lia. }
  cbn [length app] in Hrl. rewrite Hrl. cbn [Z.ltb Z.eqb Z.compare]. eauto.
Qed.

(** A block that is not filled is not written: [allocate] rounds every block
    up to whole 4 KiB blocks, and [write_bp] of a buffer shorter than the block
    fails with [EINVAL] before it touches a sector. *)
Theorem partial_block_is_rejected size kind comp txg s bp s1 buf st j v d :
  0 < size < 2 ^ 31 -> allocate size kind comp txg s = (Some bp, s1) -> single bp s1 d j v ->
  Z.of_nat (length buf) = size -> size mod 4096 <> 0 ->
  write_bp bp buf s1 st = (BlockDev.EINVAL, s1, st).
Proof.
  intros Hsz Ha (H0 & H1 & Hf & Hv) Hl Hmod.
  assert (Hasz : Block.asize d = 4096 * div_ceil size 4096).
  { revert Ha. unfold allocate. change HV_POOL_BLOCK_SIZE with 4096. repeat case_match; try done.
    intros [= <- _]. unfold get_dva in H0. cbn -[div_ceil wrap_u32 wrap_u64 dva_is_null] in H0.
    case_match; [|done]. injection H0 as <-. cbn [Block.asize dva_new].
    unfold div_ceil. rewrite wrap_u64_small, wrap_u32_small; [lia| |];
      unfold u32, U32_MAX, u64, U64_MAX; Z.div_mod_to_equations; lia. }
  unfold write_bp, HV_DVA_MAX. cbn [write_dvas]. rewrite H0, Hf, Hv. unfold write_sectors, count_of.
  assert (Hq : size < 4096 * div_ceil size 4096) by (unfold div_ceil; Z.div_mod_to_equations; lia).
  assert (H8 : div_ceil (Block.asize d) 512 = 8 * div_ceil size 4096).
  { rewrite Hasz. unfold div_ceil. generalize ((size + 4096 - 1) / 4096). intros q. Z.div_mod_to_equations. lia. }
  rewrite H8, (proj2 (Nat.ltb_lt _ _)) by lia.
  cbn [Z.eqb negb BlockDev.EINVAL]. rewrite list_insert_id by done. by destruct s1.
Qed.
End Transfer.

Definition small_pool : HvSpa := set_vdevs [mkVdev (new_disk 0) Healthy 0 0] spa_new.
Definition small_bp : HvBlockPointer := set_dva 0 (dva_new 0 512 512) bp_null.

Lemma block_write_read_witness :
  exists s1 st1 s3 st2, write_bp small_bp (replicate 512 9) small_pool BlockDevFacts.two_drives = (0, s1, st1) /\
    read_bp small_bp (replicate 512 0) small_pool st1 = (0, replicate 512 9, s3, st2).
Proof.
  assert (Hs : single small_bp small_pool (dva_new 0 512 512) 0 (mkVdev (new_disk 0) Healthy 0 0)) by (repeat split).
  destruct (block_write_read (St := BlockDev.drivers (list bytes)) small_bp small_pool (dva_new 0 512 512) 0
    (mkVdev (new_disk 0) Healthy 0 0) 1 (replicate 512 9) (replicate 512 0) BlockDevFacts.two_drives)
    as (s1 & st1 & Hw & Hr).
  - exact Hs.
  - reflexivity.
  - apply length_replicate.
  - apply length_replicate.
  - split_and!; by vm_compute.
  - intros k Hk. assert (k = 0%nat) as -> by lia. eexists. reflexivity.
  - destruct (Hr small_pool Hs) as (s3 & st2 & Hrd). exists s1, st1, s3, st2. split; [exact Hw|exact Hrd].
Defined.

Lemma partial_block_is_rejected_witness :
  exists bp s1, allocate 100 Fletcher4 Off 1 (snd (add_vdev (new_disk 0) spa_new)) = (Some bp, s1) /\
    write_bp bp (replicate 100 1) s1 BlockDevFacts.two_drives = (BlockDev.EINVAL, s1, BlockDevFacts.two_drives).
Proof.
  destruct (allocate 100 Fletcher4 Off 1 (snd (add_vdev (new_disk 0) spa_new))) as [o s1] eqn:E.
  assert (Ho : o = fst (allocate 100 Fletcher4 Off 1 (snd (add_vdev (new_disk 0) spa_new)))) by by rewrite E.
  assert (Hv : vdevs s1 = [mkVdev (new_disk 0) Healthy 0 0]).
  { replace s1 with (snd (allocate 100 Fletcher4 Off 1 (snd (add_vdev (new_disk 0) spa_new)))) by by rewrite E.
    vm_compute. reflexivity. }
  assert (Hbp : o = Some (set_birth 1 (set_prop (mkProp 100 4096 0 0 2 0 0 [0; 0; 0]) (set_dva 0 (dva_new 0 262144 4096) bp_null)))).
  { rewrite Ho. vm_compute. reflexivity. }
  rewrite Hbp in *. eexists _, s1. split; [reflexivity|].
  apply (partial_block_is_rejected 100 Fletcher4 Off 1 (snd (add_vdev (new_disk 0) spa_new)) _ s1
    (replicate 100 1) BlockDevFacts.two_drives 0 (mkVdev (new_disk 0) Healthy 0 0) (dva_new 0 262144 4096)).
  - lia.
  - exact E.
  - split_and!; [reflexivity|reflexivity|by rewrite Hv|by rewrite Hv].
  - by rewrite length_replicate.
  - by vm_compute.
Defined.

(** *** The uberblock ring *)
Section Ring.
Context {St : Type} `{SectorStore St}.
Implicit Types st : St.

(** The uberblock slot [i] of the pool's partition holds, if it is a good one. *)
Definition slot_ub (s : HvSpa) st (i : nat) : option HvUberblock :=
  match sector_at st (vdev_0_drive_id s) (Z.of_nat i + pool_partition s) with
  | None => None
  | Some b =>
      match from_bytes_unaligned b with
      | Some u => if is_valid u && verify_checksum u then Some u else None
      | None => None
      end
  end.

Definition partition_ok (s : HvSpa) : Prop := 0 <= pool_partition s <= U32_MAX - 128.

Lemma read_slots_spec k s st :
  (k <= 128)%nat -> partition_ok s ->
  exists r st', read_slots k s st = (r, st') /\
    match r with
    | Some u => exists i, (i < k)%nat /\ slot_ub s st i = Some u /\ forall j, (i < j < k)%nat -> slot_ub s st j = None
    | None => forall i, (i < k)%nat -> slot_ub s st i = None
    end.
Proof.
  intros Hk Hp. unfold partition_ok, U32_MAX in Hp.
  revert st. induction k as [|k IH]; intros st. { eexists _, _. split; [done|]. intros i Hi. lia. }
  assert (Hcont : forall st1, (forall d n, sector_at st1 d n = sector_at st d n) -> slot_ub s st k = None ->
    exists r st', read_slots k s st1 = (r, st') /\
    match r with
    | Some u => exists i, (i < S k)%nat /\ slot_ub s st i = Some u /\ forall j, (i < j < S k)%nat -> slot_ub s st j = None
    | None => forall i, (i < S k)%nat -> slot_ub s st i = None
    end).
  { intros st1 Hst1 Hnone. destruct (IH ltac:(lia) st1) as (r & st' & E & Hspec). exists r, st'. split; [done|].
    assert (Heq : forall i, slot_ub s st1 i = slot_ub s st i) by (intros i; unfold slot_ub; by rewrite Hst1).
    destruct r as [u|].
    - destruct Hspec as (i & Hi & Hu & Hj). rewrite Heq in Hu. exists i. split; [lia|]. split; [done|].
      intros j Hjr. destruct (decide (j = k)) as [->|]; [done|]. rewrite <- Heq. apply Hj. lia.
    - intros i Hi. destruct (decide (i = k)) as [->|]; [done|]. rewrite <- Heq. apply Hspec. lia. }
  cbn [read_slots]. unfold read_sector, HV_UBERBLOCK_SECTOR.
  rewrite Z.add_0_l, wrap_u32_small by (unfold u32, U32_MAX; lia).
  destruct (sector_at st (vdev_0_drive_id s) (Z.of_nat k + pool_partition s)) as [b|] eqn:Hs.
  - destruct (hdd_read_ok _ _ _ _ Hs) as (st1 & -> & Hst1). cbn [Z.eqb negb].
    destruct (from_bytes_unaligned b) as [u|] eqn:Hu.
    + destruct (is_valid u && verify_checksum u) eqn:Hv.
      * exists (Some u), st1. split; [done|]. exists k. split; [lia|]. split; [|lia].
        unfold slot_ub. by rewrite Hs, Hu, Hv.
      * apply Hcont; [done|]. unfold slot_ub. by rewrite Hs, Hu, Hv.
    + apply Hcont; [done|]. unfold slot_ub. by rewrite Hs, Hu.
  - destruct (hdd_read_err _ _ _ Hs) as (e & b & st1 & -> & He & Hst1).
    rewrite (proj2 (Z.eqb_neq e 0)) by lia. cbn [negb]. apply Hcont; [done|]. unfold slot_ub. by rewrite Hs.
Qed.

Lemma length_ub_as_bytes u : ub_ok u -> length (ub_as_bytes u) = UB_BYTES.
Proof.
  intros (_ & Hbp & _ & _ & _ & _ & Hc & _ & _ & _ & Hpad). unfold ub_as_bytes.
  rewrite !length_app, !length_to_le_bytes, (length_bp_as_bytes _ Hbp), Hpad.
  destruct (ub_checksum u) as [|c0 [|c1 [|c2 [|c3 [|]]]]]; try done.
Qed.

(** The slot of the current transaction group now holds the sealed uberblock. *)
Lemma write_uberblock_slot s st :
  is_valid (uberblock s) = true -> ub_ok (uberblock s) -> partition_ok s ->
  is_Some (sector_at st (vdev_0_drive_id s) (ub_slot s + pool_partition s)) ->
  forall s' i, vdevs s' = vdevs s -> pool_partition s' = pool_partition s ->
  slot_ub s' (write_uberblock_to_disk s st) i
  = if decide (Z.of_nat i = ub_slot s) then Some (compute_checksum (uberblock s)) else slot_ub s' st i.
Proof.
  intros Hv Hok Hp [b0 Hb0] s' i Ev Ep. unfold write_uberblock_to_disk. rewrite Hv. cbn [negb].
  pose proof (compute_checksum_ok _ Hok) as Hok'. pose proof (length_ub_as_bytes _ Hok') as Hlen.
  set (ub := compute_checksum (uberblock s)) in *. rewrite Hlen. cbn [Nat.min UB_BYTES].
  rewrite take_ge by (rewrite Hlen; unfold UB_BYTES; lia).
  set (sb := copy_to (replicate 512 0) 0 (ub_as_bytes ub)).
  assert (Hsb : sb = ub_as_bytes ub ++ replicate 320 0).
  { unfold sb, copy_to. cbn [take app]. rewrite Hlen. by rewrite drop_replicate. }
  assert (Hlsb : length sb = 512%nat) by (rewrite Hsb, length_app, Hlen, length_replicate; done).
  unfold write_sector. rewrite (proj2 (Nat.ltb_ge _ _)) by lia.
  assert (Hslot : 0 <= ub_slot s < 128) by (apply Z.mod_pos_bound; done).
  unfold partition_ok, U32_MAX, HV_UBERBLOCK_SECTOR in *.
  rewrite Z.add_0_l, wrap_u32_small by (unfold u32, U32_MAX; lia).
  destruct (hdd_write_ok _ _ _ b0 sb Hb0) as (st1 & -> & Hs1); [lia|]. cbn [snd].
  unfold slot_ub, vdev_0_drive_id in *. rewrite Ev, Ep, Hs1. rewrite (take_ge sb) by lia.
  destruct (decide (Z.of_nat i = ub_slot s)) as [E|E].
  - rewrite decide_True by (split; [done|lia]). rewrite Hsb, ub_roundtrip by done.
    unfold ub. rewrite verify_computed. by replace (is_valid _) with (is_valid (uberblock s)) by done; rewrite Hv.
  - rewrite decide_False by lia. done.
Qed.

(** No sector is lost. *)
Lemma write_uberblock_keeps s st d n :
  is_Some (sector_at st d n) -> is_Some (sector_at (write_uberblock_to_disk s st) d n).
Proof.
  intros Hs. unfold write_uberblock_to_disk, write_sector. destruct (negb _); [done|].
  destruct (Nat.ltb_spec (length (copy_to (replicate 512 0) 0
    (take (Nat.min (length (ub_as_bytes (compute_checksum (uberblock s)))) 512)
       (ub_as_bytes (compute_checksum (uberblock s)))))) 512) as [|Hl]; [done|].
  match goal with |- context [hdd_write st ?d' ?n' ?b] =>
    destruct (sector_at st d' n') as [b0|] eqn:E;
    [destruct (hdd_write_ok st d' n' b0 b E Hl) as (st' & -> & Hst')
    |destruct (hdd_write_err st d' n' b E) as (e & st' & -> & _ & Hst')] end; cbn [snd]; rewrite Hst'; [|done].
  case_decide; [by eexists|done].
Qed.

(** A saved uberblock is found again: after [write_uberblock_to_disk] the
    search of the slots returns the sealed uberblock if no higher slot holds a
    valid one, and otherwise the one of a higher slot; it never returns nothing. *)
Theorem saved_uberblock_is_found s st :
  is_valid (uberblock s) = true -> ub_ok (uberblock s) -> partition_ok s ->
  is_Some (sector_at st (vdev_0_drive_id s) (ub_slot s + pool_partition s)) ->
  exists u st', read_uberblock_from_disk s (write_uberblock_to_disk s st) = (Some u, st') /\
    ((forall i, ub_slot s < Z.of_nat i < 128 -> slot_ub s st i = None) -> u = compute_checksum (uberblock s)) /\
    (u = compute_checksum (uberblock s) \/ exists i, ub_slot s < Z.of_nat i /\ slot_ub s st i = Some u).
Proof.
  intros Hv Hok Hp Hs. pose proof (write_uberblock_slot s st Hv Hok Hp Hs s) as Hslots.
  assert (Hslot : 0 <= ub_slot s < 128) by (apply Z.mod_pos_bound; done).
  unfold read_uberblock_from_disk. change (Z.to_nat HV_UBERBLOCK_COUNT) with 128%nat.
  destruct (read_slots_spec 128 s (write_uberblock_to_disk s st) ltac:(lia) Hp) as (r & st' & -> & Hr).
  assert (Hmine : slot_ub s (write_uberblock_to_disk s st) (Z.to_nat (ub_slot s)) = Some (compute_checksum (uberblock s))).
  { rewrite Hslots, decide_True by (done || lia). done. }
  destruct r as [u|]; [|rewrite Hr in Hmine by lia; done].
  exists u, st'. split; [done|]. destruct Hr as (i & Hi & Hu & Hhigh).
  destruct (decide (Z.of_nat i < ub_slot s)) as [Hlow|Hge].
  { rewrite Hhigh in Hmine by lia. done. }
  rewrite Hslots in Hu by done. destruct (decide (Z.of_nat i = ub_slot s)) as [E|E].
  - injection Hu as <-. split; [done|by left].
  - split; [|right; exists i; split; [lia|done]]. intros Hnone. rewrite Hnone in Hu by lia. done.
Qed.

(** The ring is searched by slot, not by age: when transaction group 127 was
    saved and then group 128 wrapped to slot 0, the search returns the older
    uberblock, so that a mount goes back to the state before the last sync. *)
Theorem stale_uberblock_after_wrap s1 s2 st :
  is_valid (uberblock s1) = true -> ub_ok (uberblock s1) -> is_valid (uberblock s2) = true ->
  ub_ok (uberblock s2) -> partition_ok s1 -> vdevs s2 = vdevs s1 -> pool_partition s2 = pool_partition s1 ->
  txg_current s1 = 127 -> txg_current s2 = 128 ->
  (forall i, (i < 128)%nat -> is_Some (sector_at st (vdev_0_drive_id s1) (Z.of_nat i + pool_partition s1))) ->
  exists st', read_uberblock_from_disk s2 (write_uberblock_to_disk s2 (write_uberblock_to_disk s1 st))
              = (Some (compute_checksum (uberblock s1)), st').
Proof.
  intros Hv1 Hok1 Hv2 Hok2 Hp Ev Ep T1 T2 Hs.
  assert (S1 : ub_slot s1 = 127) by (unfold ub_slot; by rewrite T1).
  assert (S2 : ub_slot s2 = 0) by (unfold ub_slot; by rewrite T2).
  assert (Hp2 : partition_ok s2) by (unfold partition_ok; by rewrite Ep).
  assert (W1 := write_uberblock_slot s1 st Hv1 Hok1 Hp).
  rewrite S1 in W1. specialize (W1 (Hs 127%nat ltac:(lia))).
  set (st1 := write_uberblock_to_disk s1 st) in *.
  assert (Hs1 : is_Some (sector_at st1 (vdev_0_drive_id s2) (ub_slot s2 + pool_partition s2))).
  { apply write_uberblock_keeps. rewrite S2, Ep. replace (vdev_0_drive_id s2) with (vdev_0_drive_id s1)
      by (unfold vdev_0_drive_id; by rewrite Ev). exact (Hs 0%nat ltac:(lia)). }
  pose proof (write_uberblock_slot s2 st1 Hv2 Hok2 Hp2 Hs1 s2) as W2. rewrite S2 in W2.
  unfold read_uberblock_from_disk. change (Z.to_nat HV_UBERBLOCK_COUNT) with 128%nat.
  destruct (read_slots_spec 128 s2 (write_uberblock_to_disk s2 st1) ltac:(lia) Hp2) as (r & st' & -> & Hr).
  assert (H127 : slot_ub s2 (write_uberblock_to_disk s2 st1) 127 = Some (compute_checksum (uberblock s1))).
  { rewrite W2, decide_False by (done || lia). rewrite W1 by done. by rewrite decide_True. }
  exists st'. f_equal. destruct r as [u|]; [|rewrite Hr in H127 by lia; done].
  destruct Hr as (i & Hi & Hu & Hhigh). destruct (decide (i = 127)%nat) as [->|]; [congruence|].
  rewrite Hhigh in H127 by lia. done.
Qed.
End Ring.

(** A drive of 128 sectors, and the pool at transaction group [t]. *)
Definition ring_drive : BlockDev.drivers (list bytes) :=
  [ (BlockDev.PBlock, BlockDev.Ready, Some (replicate 128 (replicate 512 0))) ].
Definition pool_at (t : Z) : HvSpa :=
  set_txg_current t (set_uberblock (set_ub_txg t (set_magic HV_SPA_MAGIC ub_null)) small_pool).

Lemma ring_drive_sectors i : (i < 128)%nat -> is_Some (sector_at ring_drive 0 (Z.of_nat i + 0)).
Proof.
  intros Hi. exists (replicate 512 0). rewrite Z.add_0_r.
  change (ram_content (replicate 128 (replicate 512 0)) (Z.of_nat i) = Some (replicate 512 0)).
  unfold ram_content. rewrite (proj2 (Z.leb_le _ _)), Nat2Z.id, lookup_replicate_2 by lia.
  cbn [mbind option_bind]. by rewrite length_replicate.
Qed.

Lemma pool_at_ok t : u64 t -> ub_ok (uberblock (pool_at t)).
Proof.
  intros Ht. destruct ub_null_ok as (_ & H2 & H3 & H4 & H5 & H6 & H7 & H8 & _ & H10 & H11).
  by split_and!.
Qed.

Lemma pool_at_partition t : partition_ok (pool_at t).
Proof. split; by vm_compute. Qed.

Lemma saved_uberblock_is_found_witness :
  exists u st', read_uberblock_from_disk (pool_at 5) (write_uberblock_to_disk (pool_at 5) ring_drive) = (Some u, st').
Proof.
  destruct (saved_uberblock_is_found (pool_at 5) ring_drive) as (u & st' & H & _).
  - reflexivity.
  - apply pool_at_ok. unfold u64, U64_MAX. lia.
  - apply pool_at_partition.
  - exact (ring_drive_sectors 5 ltac:(lia)).
  - exists u, st'. exact H.
Defined.

Lemma stale_uberblock_after_wrap_witness :
  exists st', read_uberblock_from_disk (pool_at 128)
    (write_uberblock_to_disk (pool_at 128) (write_uberblock_to_disk (pool_at 127) ring_drive))
    = (Some (compute_checksum (uberblock (pool_at 127))), st').
Proof.
  apply (stale_uberblock_after_wrap (pool_at 127) (pool_at 128) ring_drive); try reflexivity.
  - apply pool_at_ok. unfold u64, U64_MAX. lia.
  - apply pool_at_ok. unfold u64, U64_MAX. lia.
  - apply pool_at_partition.
  - exact ring_drive_sectors.
Defined.

End SpaFacts.
