(* ===== verification/Zap.v ===== *)
(** * Attribute tables (services/fs/hvfs/zap.rs)

    A [HvZap] is a vector of entries with the name and value in fixed arrays of
    64 and 128 bytes.  A [&str] is its list of bytes; [utf8_ok] is the check of
    [core::str::from_utf8].

    The facts: for names that fit the array the table is a finite map with a
    limit on its size; a longer name can be inserted and never found again. *)
From S2P Require Import Prelude Bytes.

Module Zap.

Definition HV_ZAP_MAX_NAME : nat := 64.
Definition HV_ZAP_MAX_VALUE : nat := 128.
Definition HV_ZAP_MAX_ENTRIES : nat := 256.

(** [core::str::from_utf8] accepts the bytes. *)
Definition cont (b : Z) : bool := (128 <=? b) && (b <=? 191).
Definition within (lo hi b : Z) : bool := (lo <=? b) && (b <=? hi).
Fixpoint utf8_ok (l : bytes) : bool :=
  match l with
  | [] => true
  | b0 :: l =>
      if b0 <? 128 then utf8_ok l
      else if within 194 223 b0 then
        match l with b1 :: l => cont b1 && utf8_ok l | _ => false end
      else if within 224 239 b0 then
        match l with
        | b1 :: b2 :: l =>
            (if b0 =? 224 then within 160 191 b1 else if b0 =? 237 then within 128 159 b1 else cont b1)
            && cont b2 && utf8_ok l
        | _ => false
        end
      else if within 240 244 b0 then
        match l with
        | b1 :: b2 :: b3 :: l =>
            (if b0 =? 240 then within 144 191 b1 else if b0 =? 244 then within 128 143 b1 else cont b1)
            && cont b2 && cont b3 && utf8_ok l
        | _ => false
        end
      else false
  end.

Record HvZapEntry : Type := mkEntry {
  name : bytes;
  value : bytes;
  value_len : nat;
  hash : Z;
  used : bool;
}.

(** An array of [n] zeros with [l] copied to its start, cut to [n]. *)
Definition fixed (n : nat) (l : bytes) : bytes :=
  let len := Nat.min (length l) n in take len l ++ replicate (n - len) 0.

(** FNV-1a. *)
Definition hash_name (nm : bytes) : Z :=
  fold_left (fun h b => wrap_u64 (Z.lxor h b * 1099511628211)) nm 14695981039346656037.

Definition entry_new (nm v : bytes) : HvZapEntry :=
  {| name := fixed HV_ZAP_MAX_NAME nm; value := fixed HV_ZAP_MAX_VALUE v;
     value_len := Nat.min (length v) HV_ZAP_MAX_VALUE; hash := hash_name nm; used := true |}.

Definition get_name (e : HvZapEntry) : bytes :=
  let end_ := default HV_ZAP_MAX_NAME (position (Z.eqb 0) (name e)) in
  let s := take end_ (name e) in
  if utf8_ok s then s else [].

Definition get_value (e : HvZapEntry) : bytes := take (value_len e) (value e).
Definition get_value_u64 (e : HvZapEntry) : Z :=
  if (8 <=? value_len e)%nat then from_le_bytes (take 8 (value e)) else 0.

Inductive HvZapType : Type := Micro | Normal | Leaf.

Record HvZap : Type := mkZap {
  entries : list HvZapEntry;
  capacity : nat;
  zap_type : HvZapType;
}.

Definition zap_new : HvZap := mkZap [] HV_ZAP_MAX_ENTRIES Micro.
Definition with_capacity (n : nat) : HvZap := mkZap [] n (if (n <=? 64)%nat then Micro else Normal).
Definition set_entries (l : list HvZapEntry) (z : HvZap) : HvZap := mkZap l (capacity z) (zap_type z).

(** [e.used && e.hash == hash && e.get_name() == name]. *)
Definition matches (nm : bytes) (e : HvZapEntry) : bool :=
  used e && (hash e =? hash_name nm) && bool_decide (get_name e = nm).

Definition overwrite (v : bytes) (e : HvZapEntry) : HvZapEntry :=
  let vlen := Nat.min (length v) HV_ZAP_MAX_VALUE in
  {| name := name e; value := take vlen v ++ drop vlen (value e); value_len := vlen;
     hash := hash e; used := used e |}.

Definition insert (nm v : bytes) (z : HvZap) : bool * HvZap :=
  if (capacity z <=? length (entries z))%nat then (false, z)
  else
    match position (matches nm) (entries z) with
    | Some i => (true, set_entries (alter (overwrite v) i (entries z)) z)
    | None => (true, set_entries (entries z ++ [entry_new nm v]) z)
    end.

Definition insert_u64 (nm : bytes) (v : Z) (z : HvZap) : bool * HvZap := insert nm (to_le_bytes 8 v) z.

Definition lookup (nm : bytes) (z : HvZap) : option bytes :=
  get_value <$> find_first (matches nm) (entries z).
Definition lookup_u64 (nm : bytes) (z : HvZap) : option Z :=
  get_value_u64 <$> find_first (matches nm) (entries z).

Definition remove (nm : bytes) (z : HvZap) : bool * HvZap :=
  match position (matches nm) (entries z) with
  | Some i => (true, set_entries (delete i (entries z)) z)
  | None => (false, z)
  end.

Definition contains (nm : bytes) (z : HvZap) : bool := existsb (matches nm) (entries z).
Definition len (z : HvZap) : nat := count_if used (entries z).
Definition is_empty (z : HvZap) : bool := (len z =? 0)%nat.
Definition keys (z : HvZap) : list bytes := get_name <$> filter (fun e => used e = true) (entries z).
Definition all_entries (z : HvZap) : list (bytes * bytes) :=
  (fun e => (get_name e, get_value e)) <$> filter (fun e => used e = true) (entries z).
Definition clear (z : HvZap) : HvZap := set_entries [] z.

End Zap.

Module ZapFacts.
Import Zap.

(** Names that fit the array. *)
Definition fits (nm : bytes) : Prop :=
  (length nm <= HV_ZAP_MAX_NAME)%nat /\ (0 ∉ nm) /\ utf8_ok nm = true.

Lemma position_app_zero (l : bytes) n :
  (0 ∉ l) -> default (length l + n)%nat (position (Z.eqb 0) (l ++ replicate n 0)) = length l.
Proof.
  induction l as [|b l IH]; intros Hl.
  - destruct n; reflexivity.
  - apply not_elem_of_cons in Hl as [Hb Hl]. specialize (IH Hl). cbn [app position].
    rewrite (proj2 (Z.eqb_neq 0 b)) by done.
    destruct (position (Z.eqb 0) (l ++ replicate n 0)); cbn in *; lia.
Qed.

Lemma get_name_new nm v : fits nm -> get_name (entry_new nm v) = nm.
Proof.
  intros (Hl & H0 & Hu). unfold get_name, entry_new, fixed. cbn [name].
  rewrite Nat.min_l, (take_ge nm) by lia.
  pose proof (position_app_zero nm (HV_ZAP_MAX_NAME - length nm) H0) as Hp.
  replace (length nm + (HV_ZAP_MAX_NAME - length nm))%nat with HV_ZAP_MAX_NAME in Hp by lia.
  rewrite Hp, take_app_length. by rewrite Hu.
Qed.

(** An entry of the table: found by its own name. *)
Definition entry_ok (e : HvZapEntry) : Prop :=
  used e = true /\ fits (get_name e) /\ hash e = hash_name (get_name e) /\
  length (value e) = HV_ZAP_MAX_VALUE /\ (value_len e <= HV_ZAP_MAX_VALUE)%nat.

Definition zap_ok (z : HvZap) : Prop :=
  Forall entry_ok (entries z) /\ NoDup (get_name <$> entries z) /\ (length (entries z) <= capacity z)%nat.

(** The map the table stands for. *)
Definition contents (z : HvZap) : gmap bytes bytes :=
  list_to_map ((fun e => (get_name e, get_value e)) <$> entries z).

Lemma matches_iff nm e : entry_ok e -> matches nm e = bool_decide (get_name e = nm).
Proof.
  intros (Hu & _ & Hh & _). unfold matches. rewrite Hu, Hh. case_bool_decide as H; [|by rewrite andb_false_r].
  rewrite H, Z.eqb_refl. done.
Qed.

Lemma contents_lookup z nm :
  zap_ok z -> contents z !! nm = get_value <$> find_first (matches nm) (entries z).
Proof.
  intros (HF & _ & _). unfold contents. induction HF as [|e l He _ IH]; [done|].
  rewrite find_first_cons, (matches_iff nm e He). cbn. case_bool_decide as H.
  - rewrite H. by rewrite lookup_insert_eq.
  - by rewrite lookup_insert_ne.
Qed.

Lemma find_first_position {A} (f : A -> bool) l i x :
  position f l = Some i -> l !! i = Some x -> find_first f l = Some x.
Proof. intros Hp Hx. unfold find_first. by rewrite Hp. Qed.

Lemma position_matches_None z nm :
  zap_ok z -> position (matches nm) (entries z) = None -> nm ∉ (get_name <$> entries z).
Proof.
  intros (HF & _) Hp (e & Hn & He)%list_elem_of_fmap. pose proof (proj1 (position_None _ _) Hp e He) as Hm.
  rewrite matches_iff in Hm by (eapply (proj1 (Forall_forall _ _) HF); done).
  by rewrite bool_decide_true in Hm.
Qed.

Lemma get_name_overwrite v e : get_name (overwrite v e) = get_name e.
Proof. done. Qed.

Lemma entry_ok_overwrite v e : entry_ok e -> entry_ok (overwrite v e).
Proof.
  intros (Hu & Hn & Hh & Hv & Hl). split_and!; [done|done|done| |].
  - unfold overwrite. cbn [value]. rewrite length_app, length_take, length_drop, Hv. lia.
  - unfold overwrite. cbn [value_len]. lia.
Qed.

Lemma get_value_overwrite v e :
  (length (value e) = HV_ZAP_MAX_VALUE)%nat -> get_value (overwrite v e) = take HV_ZAP_MAX_VALUE v.
Proof.
  intros Hv. unfold get_value, overwrite. cbn [value value_len].
  rewrite take_app, take_take, length_take.
  replace (Nat.min (length v) HV_ZAP_MAX_VALUE - Nat.min (Nat.min (length v) HV_ZAP_MAX_VALUE) (length v))%nat
    with 0%nat by lia. cbn [take]. rewrite app_nil_r.
  destruct (decide (length v <= HV_ZAP_MAX_VALUE)%nat).
  - rewrite !take_ge by lia. done.
  - f_equal. lia.
Qed.

Lemma entry_new_ok nm v : fits nm -> entry_ok (entry_new nm v).
Proof.
  intros Hn. pose proof (get_name_new nm v Hn) as Hg. split_and!.
  - done.
  - by rewrite Hg.
  - by rewrite Hg.
  - unfold entry_new, fixed. cbn [value]. rewrite length_app, length_take, length_replicate. lia.
  - unfold entry_new. cbn [value_len]. lia.
Qed.

Lemma get_value_new nm v : get_value (entry_new nm v) = take HV_ZAP_MAX_VALUE v.
Proof.
  unfold get_value, entry_new, fixed. cbn [value value_len]. rewrite take_app, take_take, length_take.
  replace (Nat.min (length v) HV_ZAP_MAX_VALUE - Nat.min (Nat.min (length v) HV_ZAP_MAX_VALUE) (length v))%nat
    with 0%nat by lia. cbn [take]. rewrite app_nil_r.
  destruct (decide (length v <= HV_ZAP_MAX_VALUE)%nat).
  - rewrite !take_ge by lia. done.
  - f_equal. lia.
Qed.

Lemma names_alter v (l : list HvZapEntry) (i : nat) : get_name <$> alter (overwrite v) i l = get_name <$> l.
Proof.
  apply list_eq. intros j. rewrite !list_lookup_fmap. destruct (decide (i = j)) as [->|].
  - rewrite list_lookup_alter_eq. by destruct (l !! j).
  - by rewrite list_lookup_alter_ne.
Qed.

Lemma list_to_map_alter_ne v k (l : list HvZapEntry) (i : nat) e :
  l !! i = Some e -> get_name e <> k ->
  (list_to_map ((fun e => (get_name e, get_value e)) <$> alter (overwrite v) i l) : gmap bytes bytes) !! k =
  (list_to_map ((fun e => (get_name e, get_value e)) <$> l) : gmap bytes bytes) !! k.
Proof.
  revert i. induction l as [|x l IH]; intros i Hi Hk; [done|]. destruct i as [|i]; cbn in Hi; cbn.
  - injection Hi as ->. change (get_name (overwrite v e)) with (get_name e).
    by rewrite !lookup_insert_ne.
  - destruct (decide (get_name x = k)) as [<-|]; [by rewrite !lookup_insert_eq|].
    rewrite !lookup_insert_ne by done. by apply IH.
Qed.

Lemma zap_insert_ok nm v z : zap_ok z -> fits nm -> zap_ok (snd (insert nm v z)).
Proof.
  intros Hz Hn. pose proof Hz as (HF & Hnd & Hc). unfold insert.
  destruct (Nat.leb_spec (capacity z) (length (entries z))); [done|].
  destruct (position _ _) as [i|] eqn:Hp; cbn [snd]; unfold set_entries.
  - split_and!; cbn [entries capacity].
    + apply Forall_alter; [done|]. intros x Hx Hok. by apply entry_ok_overwrite.
    + by rewrite names_alter.
    + by rewrite length_alter.
  - split_and!; cbn [entries capacity].
    + apply Forall_app. split; [done|]. constructor; [by apply entry_new_ok|done].
    + rewrite fmap_app. cbn. rewrite get_name_new by done. apply NoDup_app. split; [done|].
      split; [|apply NoDup_singleton]. intros x Hx ->%list_elem_of_singleton.
      by apply (position_matches_None z nm Hz Hp).
    + rewrite length_app. cbn. lia.
Qed.

Lemma find_first_ext {A} (f g : A -> bool) l : (forall x, x ∈ l -> f x = g x) -> find_first f l = find_first g l.
Proof.
  induction l as [|x l IH]; intros H; [done|]. rewrite !find_first_cons, H by by left.
  destruct (g x); [done|]. apply IH. intros y Hy. apply H. by right.
Qed.

Lemma lookup_insert_same nm v z :
  zap_ok z -> fits nm -> (length (entries z) < capacity z)%nat ->
  insert nm v z = (true, snd (insert nm v z)) /\
  contents (snd (insert nm v z)) = <[nm := take HV_ZAP_MAX_VALUE v]> (contents z).
Proof.
  intros Hz Hn Hroom. pose proof (zap_insert_ok nm v z Hz Hn) as Hz'. pose proof Hz as (HF & Hnd & _).
  revert Hz'. unfold insert. rewrite (proj2 (Nat.leb_gt _ _)) by done.
  destruct (position (matches nm) (entries z)) as [i|] eqn:Hp; intros Hz'; split; [done| |done|].
  - apply position_Some in Hp as (e & He & Hm & _).
    pose proof (proj1 (Forall_lookup _ _) HF _ _ He) as Hok.
    rewrite matches_iff in Hm by done. apply bool_decide_eq_true in Hm.
    apply map_eq. intros k. cbn [snd]. unfold contents, set_entries. cbn [entries].
    destruct (decide (k = nm)) as [->|Hne].
    + rewrite lookup_insert_eq. apply elem_of_list_to_map_1.
      { rewrite <- list_fmap_compose. change (fst ∘ _) with get_name. by rewrite names_alter. }
      apply list_elem_of_fmap. exists (overwrite v e). split.
      * rewrite get_value_overwrite by apply Hok. by rewrite get_name_overwrite, Hm.
      * apply list_elem_of_lookup. exists i. by rewrite list_lookup_alter_eq, He.
    + rewrite lookup_insert_ne by done. eapply list_to_map_alter_ne; [done|by rewrite Hm].
  - cbn [snd]. unfold contents, set_entries. cbn [entries]. rewrite fmap_app, list_to_map_app.
    change (_ <$> [entry_new nm v]) with [(get_name (entry_new nm v), get_value (entry_new nm v))].
    rewrite get_name_new, get_value_new by done.
    rewrite list_to_map_cons, list_to_map_nil, insert_empty, <- insert_union_singleton_r; [done|].
    apply not_elem_of_list_to_map_1. rewrite <- list_fmap_compose. by apply position_matches_None.
Qed.

Lemma list_to_map_delete (l : list HvZapEntry) i e :
  NoDup (get_name <$> l) -> l !! i = Some e ->
  (list_to_map ((fun e => (get_name e, get_value e)) <$> delete i l) : gmap bytes bytes) =
  delete (get_name e) (list_to_map ((fun e => (get_name e, get_value e)) <$> l)).
Proof.
  revert i. induction l as [|x l IH]; intros i Hnd Hi; [done|]. apply NoDup_cons in Hnd as [Hx Hnd].
  destruct i as [|i]; cbn in Hi.
  - cbn. injection Hi as ->. rewrite delete_insert_eq. symmetry. apply delete_id, not_elem_of_list_to_map_1.
    by rewrite <- list_fmap_compose.
  - change (delete (S i) (x :: l)) with (x :: delete i l). rewrite !fmap_cons, !list_to_map_cons.
    rewrite (IH i Hnd Hi), delete_insert_ne; [done|]. intros Heq. apply Hx. rewrite <- Heq.
    apply list_elem_of_fmap. exists e. split; [done|]. by eapply list_elem_of_lookup_2.
Qed.

Lemma remove_spec nm z :
  zap_ok z ->
  zap_ok (snd (remove nm z)) /\ contents (snd (remove nm z)) = delete nm (contents z) /\
  fst (remove nm z) = bool_decide (is_Some (contents z !! nm)).
Proof.
  intros Hz. pose proof Hz as (HF & Hnd & Hc). rewrite (contents_lookup z nm Hz). unfold remove, find_first.
  destruct (position (matches nm) (entries z)) as [i|] eqn:Hp; cbn [fst snd].
  - apply position_Some in Hp as (e & He & Hm & _). rewrite He.
    rewrite matches_iff in Hm by by apply (proj1 (Forall_lookup _ _) HF _ _ He).
    apply bool_decide_eq_true in Hm. split_and!; [split_and!|..].
    + cbn [entries set_entries]. by apply Forall_delete.
    + cbn [entries set_entries]. eapply sublist_NoDup; [done|]. apply fmap_sublist, sublist_delete.
    + cbn [entries capacity set_entries]. rewrite length_delete by eauto. lia.
    + unfold contents, set_entries. cbn [entries]. by rewrite (list_to_map_delete _ _ _ Hnd He), Hm.
    + by rewrite bool_decide_true by eauto.
  - split_and!; [done..| |].
    + symmetry. apply delete_id, not_elem_of_list_to_map_1. rewrite <- list_fmap_compose.
      by apply position_matches_None.
    + by rewrite bool_decide_false by (intros []; done).
Qed.

Lemma zap_contains_spec nm z : zap_ok z -> contains nm z = bool_decide (is_Some (contents z !! nm)).
Proof.
  intros Hz. rewrite (contents_lookup z nm Hz). unfold contains. clear Hz.
  induction (entries z) as [|e l IH]; [done|]. rewrite find_first_cons. cbn [existsb].
  destruct (matches nm e); [by rewrite bool_decide_true by (cbn; eauto)|apply IH].
Qed.

(** C38: for names of at most 64 bytes, valid UTF-8 without a zero byte, the table is a
    finite map from names to values cut to 128 bytes: insert, lookup, remove and
    contains act on the map, and insert refuses exactly when the table is full,
    even if the name is already there. *)
Theorem zap_refines_map (z : HvZap) (nm v : bytes) :
  zap_ok z -> fits nm ->
  lookup nm z = contents z !! nm /\
  contains nm z = bool_decide (is_Some (contents z !! nm)) /\
  (if decide (size (contents z) < capacity z)%nat
   then fst (insert nm v z) = true /\
        contents (snd (insert nm v z)) = <[nm := take HV_ZAP_MAX_VALUE v]> (contents z)
   else insert nm v z = (false, z)) /\
  fst (remove nm z) = bool_decide (is_Some (contents z !! nm)) /\
  contents (snd (remove nm z)) = delete nm (contents z) /\
  zap_ok (snd (insert nm v z)) /\ zap_ok (snd (remove nm z)).
Proof.
  intros Hz Hn. destruct (remove_spec nm z Hz) as (Hr1 & Hr2 & Hr3).
  assert (size (contents z) = length (entries z)) as ->.
  { unfold contents. rewrite <- length_map_to_list, map_to_list_to_map, length_fmap; [done|].
    rewrite <- list_fmap_compose. apply Hz. }
  split_and!; [by rewrite contents_lookup|by apply zap_contains_spec| |done..| |done].
  - case_decide as Hroom.
    + destruct (lookup_insert_same nm v z Hz Hn Hroom) as [He ?]. by rewrite He.
    + unfold insert. by rewrite (proj2 (Nat.leb_le _ _)) by lia.
  - by apply zap_insert_ok.
Qed.

Definition ex_name : bytes := [102; 105; 108; 101].

Lemma zap_refines_map_witness :
  lookup ex_name (snd (insert ex_name [1; 2] zap_new)) = Some [1; 2] /\
  contents (snd (remove ex_name (snd (insert ex_name [1; 2] zap_new)))) = ∅.
Proof.
  assert (fits ex_name) as Hf.
  { split_and!; [cbv; lia| |reflexivity]. intros H. apply list_elem_of_In in H. cbn in H. lia. }
  assert (zap_ok zap_new) as Hz by (split_and!; [constructor..|cbn [zap_new entries length]; lia]).
  destruct (zap_refines_map zap_new ex_name [1; 2] Hz Hf) as (_ & _ & Hi & _ & _ & Hz1 & _).
  destruct (zap_refines_map (snd (insert ex_name [1; 2] zap_new)) ex_name [] Hz1 Hf)
    as (Hl & _ & _ & _ & Hd & _ & _).
  split; [rewrite Hl|rewrite Hd]; vm_compute; reflexivity.
Defined.

(** A name longer than its array. *)
Lemma fixed_full (nm : bytes) : (HV_ZAP_MAX_NAME < length nm)%nat -> length (name (entry_new nm [])) = HV_ZAP_MAX_NAME.
Proof. intros. unfold entry_new, fixed. cbn [name]. rewrite length_app, length_take, length_replicate. lia. Qed.

Lemma length_get_name e : (length (name e) <= HV_ZAP_MAX_NAME)%nat -> (length (get_name e) <= HV_ZAP_MAX_NAME)%nat.
Proof.
  intros H. unfold get_name. destruct (utf8_ok _); [|cbn; lia]. rewrite length_take. lia.
Qed.

(** Every entry holds its name in the array. *)
Definition arrays_ok (z : HvZap) : Prop := Forall (fun e => (length (name e) <= HV_ZAP_MAX_NAME)%nat) (entries z).

Lemma long_name_matches nm (l : list HvZapEntry) :
  (HV_ZAP_MAX_NAME < length nm)%nat -> Forall (fun e => (length (name e) <= HV_ZAP_MAX_NAME)%nat) l ->
  position (matches nm) l = None.
Proof.
  intros Hn HF. apply position_None. intros e He. unfold matches.
  rewrite (bool_decide_false (get_name e = nm)); [by rewrite andb_false_r|]. intros Heq.
  pose proof (length_get_name e (proj1 (Forall_forall _ _) HF e He)). rewrite Heq in *. lia.
Qed.

(** The name of an entry is cut to 64 bytes but the lookup compares with the
    whole name: inserting a longer name reports success, and the name is not
    found afterwards; each further insert of it takes another entry. *)
Theorem long_name_is_lost (z : HvZap) (nm v : bytes) :
  arrays_ok z -> (HV_ZAP_MAX_NAME < length nm)%nat -> (length (entries z) < capacity z)%nat ->
  let '(r, z') := insert nm v z in
  r = true /\ length (entries z') = S (length (entries z)) /\ arrays_ok z' /\
  lookup nm z' = None /\ contains nm z' = false /\ remove nm z' = (false, z').
Proof.
  intros HF Hn Hroom. unfold insert. rewrite (proj2 (Nat.leb_gt _ _)) by done.
  rewrite (long_name_matches nm _ Hn HF).
  assert (arrays_ok (set_entries (entries z ++ [entry_new nm v]) z)) as HF'.
  { apply Forall_app. split; [done|]. constructor; [|done].
    change (name (entry_new nm v)) with (name (entry_new nm [])). by rewrite fixed_full. }
  pose proof (long_name_matches nm _ Hn HF') as Hp. split_and!; [done| |done|..].
  - cbn [entries set_entries]. rewrite length_app. cbn. lia.
  - unfold lookup, find_first. by rewrite Hp.
  - unfold contains. apply not_true_iff_false. rewrite existsb_exists. intros (e & He & Hm).
    rewrite (proj1 (position_None _ _) Hp e) in Hm; [done|]. by apply list_elem_of_In.
  - unfold remove. by rewrite Hp.
Qed.

Lemma long_name_is_lost_witness :
  let '(r, z') := insert (replicate 65 97) [1] zap_new in r = true /\ lookup (replicate 65 97) z' = None.
Proof.
  assert (arrays_ok zap_new) as Hz by constructor.
  assert (HV_ZAP_MAX_NAME < length (replicate 65 97))%nat as Hl by (cbv; lia).
  assert (length (entries zap_new) < capacity zap_new)%nat as Hr by (cbv; lia).
  pose proof (long_name_is_lost zap_new (replicate 65 97) [1] Hz Hl Hr) as H.
  destruct (insert _ _ _) as [r z']. destruct H as (H1 & _ & _ & H2 & _). by split.
Defined.

End ZapFacts.
