(* ===== verification/Pmm.v ===== *)
(** * Physical memory (framework/mm/pmm.rs, pmm_trait.rs, alloc_trait.rs)

    The buddy allocator.  A page is its number; a pointer to a free-list node is
    the number of the page that holds it (the source adds and subtracts
    [KERNEL_BASE]), and [nodes] is the first sixteen bytes of the pages, where
    free pages keep their links.  [buddy_meta] has a byte per page: the order of
    the free block that starts there, or 255.  The bitmap has a bit per page, set
    when the page is not free.  Page numbers are below 2^52, so that their sums do
    not wrap.  [RAM_BASE] is that of x86_64. *)
From S2P Require Import Prelude.

Module Pmm.

Definition PAGE_SIZE : Z := 4096.
Definition MAX_BUDDY_ORDER : Z := 9.
Definition BUDDY_ALLOCATED : Z := 255.
Definition MAX_EARLY_ALLOCS : nat := 256.
Definition RAM_BASE : Z := 0.

Definition phys_to_page (phys : Z) : Z := wrap_u64 (phys - RAM_BASE) / PAGE_SIZE.
Definition page_to_phys (page : Z) : Z := RAM_BASE + page * PAGE_SIZE.

(** [PmmPolicy::count_to_order] of the default policy: [usize::BITS] minus the
    leading zeros is the bit length. *)
Definition count_to_order (count : Z) : Z :=
  if count <=? 1 then 0
  else let order := Z.log2 (count - 1) + 1 in
       if MAX_BUDDY_ORDER <? order then MAX_BUDDY_ORDER else order.

(** [reclaim_threshold_pages] and [watermarks] of the default policy. *)
Definition reclaim_threshold_pages (total_pages : Z) : Z := Z.max (total_pages * 10 / 100) 64.

Record Watermarks : Type := mkWatermarks { high : Z; low : Z; min : Z }.

Definition watermarks (total_pages : Z) : Watermarks :=
  let min := Z.max (total_pages * 125 / 10000) 16 in mkWatermarks (min * 2) (min * 3 / 2) min.

Record FreeNode : Type := mkNode { prev : option Z; next : option Z }.

Record PhysicalMemoryManager : Type := mkPmm {
  bitmap : list Z;
  buddy_meta : option (list Z);
  buddy_heads : list (option Z);
  nodes : gmap Z FreeNode;
  mem_size : Z;
  kernel_end : Z;
  total_pages : Z;
  free_pages : Z;
  used_pages : Z;
  initialized : bool;
  buddy_ready : bool;
  early_allocs : list (Z * Z);
  early_count : nat;
  early_current : Z;
  total_allocs : Z;
  total_frees : Z;
  failed_allocs : Z;
}.

Definition new : PhysicalMemoryManager :=
  mkPmm [] None (replicate 10 None) ∅ 0 0 0 0 0 false false (replicate MAX_EARLY_ALLOCS (0, 0)) 0 0 0 0 0.

(** Field updates. *)
Definition set_bitmap v (s : PhysicalMemoryManager) : PhysicalMemoryManager :=
  let 'mkPmm _ b c d e f g h i j k l m n o p q := s in mkPmm v b c d e f g h i j k l m n o p q.
Definition set_buddy_meta v (s : PhysicalMemoryManager) : PhysicalMemoryManager :=
  let 'mkPmm a _ c d e f g h i j k l m n o p q := s in mkPmm a v c d e f g h i j k l m n o p q.
Definition set_buddy_heads v (s : PhysicalMemoryManager) : PhysicalMemoryManager :=
  let 'mkPmm a b _ d e f g h i j k l m n o p q := s in mkPmm a b v d e f g h i j k l m n o p q.
Definition set_nodes v (s : PhysicalMemoryManager) : PhysicalMemoryManager :=
  let 'mkPmm a b c _ e f g h i j k l m n o p q := s in mkPmm a b c v e f g h i j k l m n o p q.
Definition set_size (sz ke tp : Z) (s : PhysicalMemoryManager) : PhysicalMemoryManager :=
  let 'mkPmm a b c d _ _ _ h i j k l m n o p q := s in mkPmm a b c d sz ke tp h i j k l m n o p q.
Definition set_usage (fp up : Z) (s : PhysicalMemoryManager) : PhysicalMemoryManager :=
  let 'mkPmm a b c d e f g _ _ j k l m n o p q := s in mkPmm a b c d e f g fp up j k l m n o p q.
Definition set_ready (s : PhysicalMemoryManager) : PhysicalMemoryManager :=
  let 'mkPmm a b c d e f g h i _ _ l m n o p q := s in mkPmm a b c d e f g h i true true l m n o p q.
Definition set_early (ea : list (Z * Z)) (ec : nat) (cur : Z) (s : PhysicalMemoryManager)
  : PhysicalMemoryManager :=
  let 'mkPmm a b c d e f g h i j k _ _ _ o p q := s in mkPmm a b c d e f g h i j k ea ec cur o p q.
Definition set_counters (ta tf fa : Z) (s : PhysicalMemoryManager) : PhysicalMemoryManager :=
  let 'mkPmm a b c d e f g h i j k l m n _ _ _ := s in mkPmm a b c d e f g h i j k l m n ta tf fa.

Definition count_alloc (n : Z) (s : PhysicalMemoryManager) : PhysicalMemoryManager :=
  set_counters (wrap_u64 (total_allocs s + n)) (total_frees s) (failed_allocs s) s.
Definition count_free (n : Z) (s : PhysicalMemoryManager) : PhysicalMemoryManager :=
  set_counters (total_allocs s) (wrap_u64 (total_frees s + n)) (failed_allocs s) s.
Definition count_failed (s : PhysicalMemoryManager) : PhysicalMemoryManager :=
  set_counters (total_allocs s) (total_frees s) (wrap_u64 (failed_allocs s + 1)) s.

(** ** The bitmap *)
Definition bitmap_word (s : PhysicalMemoryManager) (bit : Z) : nat := Z.to_nat (bit / 32).

Definition set_bit (bit : Z) (s : PhysicalMemoryManager) : PhysicalMemoryManager :=
  let w := bitmap_word s bit in
  if (w <? length (bitmap s))%nat
  then set_bitmap (<[w := Z.lor (nth w (bitmap s) 0) (2 ^ (bit mod 32))]> (bitmap s)) s
  else s.

Definition clear_bit (bit : Z) (s : PhysicalMemoryManager) : PhysicalMemoryManager :=
  let w := bitmap_word s bit in
  if (w <? length (bitmap s))%nat
  then set_bitmap (<[w := Z.ldiff (nth w (bitmap s) 0) (2 ^ (bit mod 32))]> (bitmap s)) s
  else s.

Definition test_bit (s : PhysicalMemoryManager) (bit : Z) : bool :=
  let w := bitmap_word s bit in
  if (w <? length (bitmap s))%nat
  then negb (Z.land (nth w (bitmap s) 0) (2 ^ (bit mod 32)) =? 0)
  else false.

(** [for i in 0..n { op(start + i) }]. *)
Definition for_pages (op : Z -> PhysicalMemoryManager -> PhysicalMemoryManager) (start n : Z)
    (s : PhysicalMemoryManager) : PhysicalMemoryManager :=
  fold_left (fun s p => op p s) (seqZ start n) s.

(** [(!word).count_ones()]. *)
Definition zeros (word : Z) : Z := Z.of_nat (count_if (fun i => negb (Z.testbit word i)) (seqZ 0 32)).

Definition count_free_pages (s : PhysicalMemoryManager) : Z :=
  let free := fold_left (fun acc w => acc + zeros w) (bitmap s) 0 in
  let extra := wrap_u32 (sat_sub (Z.of_nat (length (bitmap s)) * 32) (total_pages s)) in
  if 0 <? extra then sat_sub free extra else free.

Definition update_stats (s : PhysicalMemoryManager) : PhysicalMemoryManager :=
  let free := count_free_pages s in set_usage free (wrap_u64 (total_pages s - free)) s.
Definition stats_alloc (n : Z) (s : PhysicalMemoryManager) : PhysicalMemoryManager :=
  set_usage (sat_sub (free_pages s) n) (sat_add_u64 (used_pages s) n) s.
Definition stats_free (n : Z) (s : PhysicalMemoryManager) : PhysicalMemoryManager :=
  set_usage (sat_add_u64 (free_pages s) n) (sat_sub (used_pages s) n) s.

(** ** Metadata and free lists *)
Definition meta_read (s : PhysicalMemoryManager) (i : Z) : Z :=
  match buddy_meta s with Some m => nth (Z.to_nat i) m BUDDY_ALLOCATED | None => BUDDY_ALLOCATED end.
Definition meta_write (i v : Z) (s : PhysicalMemoryManager) : PhysicalMemoryManager :=
  set_buddy_meta (<[Z.to_nat i := v]> <$> buddy_meta s) s.

Definition head (s : PhysicalMemoryManager) (order : Z) : option Z :=
  nth (Z.to_nat order) (buddy_heads s) None.
Definition set_head (order : Z) (h : option Z) (s : PhysicalMemoryManager) : PhysicalMemoryManager :=
  set_buddy_heads (<[Z.to_nat order := h]> (buddy_heads s)) s.

(** The node in page [p]; a page in no list holds whatever its owner wrote. *)
Definition node_at (s : PhysicalMemoryManager) (p : Z) : FreeNode :=
  default (mkNode None None) (nodes s !! p).
Definition put_node (p : Z) (n : FreeNode) (s : PhysicalMemoryManager) : PhysicalMemoryManager :=
  set_nodes (<[p := n]> (nodes s)) s.
Definition set_prev (p : Z) (v : option Z) (s : PhysicalMemoryManager) : PhysicalMemoryManager :=
  put_node p (mkNode v (next (node_at s p))) s.
Definition set_next (p : Z) (v : option Z) (s : PhysicalMemoryManager) : PhysicalMemoryManager :=
  put_node p (mkNode (prev (node_at s p)) v) s.

Definition in_ram (s : PhysicalMemoryManager) (p : Z) : bool := page_to_phys p <? RAM_BASE + mem_size s.

Definition buddy_list_remove (pfn order : Z) (s : PhysicalMemoryManager) : PhysicalMemoryManager :=
  if negb (in_ram s pfn) then s
  else
    let pv := prev (node_at s pfn) in
    let nx := next (node_at s pfn) in
    let s := match pv with None => set_head order nx s | Some q => set_next q nx s end in
    match nx with None => s | Some r => set_prev r pv s end.

Definition buddy_list_push (pfn order : Z) (s : PhysicalMemoryManager) : PhysicalMemoryManager :=
  let s := for_pages clear_bit pfn (2 ^ order) s in
  let old_head := head s order in
  let s := put_node pfn (mkNode None old_head) s in
  let s := match old_head with None => s | Some h => set_prev h (Some pfn) s end in
  set_head order (Some pfn) s.

Definition buddy_list_pop (order : Z) (s : PhysicalMemoryManager) : option Z * PhysicalMemoryManager :=
  match head s order with
  | None => (None, s)
  | Some pfn =>
      if negb (in_ram s pfn) then (None, s)
      else
        let nx := next (node_at s pfn) in
        let s := set_head order nx s in
        (Some pfn, match nx with None => s | Some r => set_prev r None s end)
  end.

(** ** Merging *)
Fixpoint merge_loop (fuel : nat) (pfn order limit : Z) (s : PhysicalMemoryManager)
  : Z * Z * PhysicalMemoryManager :=
  match fuel with
  | O => (pfn, order, s)
  | S fuel =>
      if order <? MAX_BUDDY_ORDER then
        let buddy := Z.lxor pfn (2 ^ order) in
        if Z.min (total_pages s) limit <=? buddy then (pfn, order, s)
        else if limit <? pfn + 2 ^ (order + 1) then (pfn, order, s)
        else
          let state := meta_read s buddy in
          if MAX_BUDDY_ORDER <? state then (pfn, order, s)
          else if negb (state =? order) then (pfn, order, s)
          else
            let s := buddy_list_remove buddy order s in
            let s := meta_write buddy BUDDY_ALLOCATED s in
            merge_loop fuel (Z.min pfn buddy) (order + 1) limit s
      else (pfn, order, s)
  end.

Definition buddy_try_merge (pfn order limit : Z) (s : PhysicalMemoryManager)
  : Z * Z * PhysicalMemoryManager :=
  match buddy_meta s with
  | None => (pfn, order, s)
  | Some _ =>
      let '(pfn, order, s) := merge_loop (Z.to_nat (MAX_BUDDY_ORDER - order)) pfn order limit s in
      (pfn, order, meta_write pfn order s)
  end.

(** [while order > 0 { if cur.is_multiple_of(size) && size <= remaining { break } order -= 1 }]. *)
Fixpoint fit_order (order : nat) (cur remaining : Z) : nat :=
  match order with
  | O => O
  | S o => if (cur mod 2 ^ Z.of_nat order =? 0) && (2 ^ Z.of_nat order <=? remaining) then order
           else fit_order o cur remaining
  end.

Fixpoint insert_range_loop (fuel : nat) (cur end_pfn : Z) (s : PhysicalMemoryManager)
  : PhysicalMemoryManager :=
  match fuel with
  | O => s
  | S fuel =>
      if cur <? end_pfn then
        let remaining := end_pfn - cur in
        let order := fit_order (Z.to_nat (Z.min (Z.log2 remaining) MAX_BUDDY_ORDER)) cur remaining in
        let '(mp, mo, s) := buddy_try_merge cur (Z.of_nat order) end_pfn s in
        let s := buddy_list_push mp mo s in
        insert_range_loop fuel (mp + 2 ^ mo) end_pfn s
      else s
  end.

Definition buddy_free_insert_range (start npages : Z) (s : PhysicalMemoryManager) : PhysicalMemoryManager :=
  match buddy_meta s with
  | None => s
  | Some _ => insert_range_loop (Z.to_nat npages) start (start + npages) s
  end.

(** ** Reservation *)

(** A block taken out of the lists: its first page and size. *)
Fixpoint reserve_walk (fuel : nat) (node : option Z) (order start end_pfn : Z)
    (s : PhysicalMemoryManager) (deferred : list (Z * Z)) : PhysicalMemoryManager * list (Z * Z) :=
  match fuel, node with
  | S fuel, Some p =>
      if negb (in_ram s p) then (s, deferred)
      else
        let nx := next (node_at s p) in
        let '(s, deferred) :=
          if (p <? end_pfn) && (start <? p + 2 ^ order) then
            let s := buddy_list_remove p order s in
            let s := for_pages (fun i s => meta_write i BUDDY_ALLOCATED s) p (2 ^ order) s in
            (s, (p, 2 ^ order) :: deferred)
          else (s, deferred) in
        reserve_walk fuel nx order start end_pfn s deferred
  | _, _ => (s, deferred)
  end.

(** [while let Some(..) = deferred.pop()]: the last one pushed first. *)
Definition put_back (start end_pfn : Z) (s : PhysicalMemoryManager) (block : Z * Z)
  : PhysicalMemoryManager :=
  let '(block_pfn, size) := block in
  let s := if block_pfn <? start then buddy_free_insert_range block_pfn (start - block_pfn) s else s in
  let block_end := block_pfn + size in
  if end_pfn <? block_end then
    let right_start := Z.max block_pfn end_pfn in
    buddy_free_insert_range right_start (block_end - right_start) s
  else s.

Definition buddy_reserve_pfn_range (start npages : Z) (s : PhysicalMemoryManager) : PhysicalMemoryManager :=
  let end_pfn := start + npages in
  let '(s, deferred) :=
    fold_left (fun '(s, d) order =>
      reserve_walk (Z.to_nat (total_pages s)) (head s order) order start end_pfn s d)
      (seqZ 0 (MAX_BUDDY_ORDER + 1)) (s, []) in
  let s := for_pages set_bit start npages s in
  let s := stats_alloc npages s in
  fold_left (put_back start end_pfn) deferred s.

(** ** Allocation *)
Fixpoint split_loop (n : nat) (pfn order : Z) (s : PhysicalMemoryManager) : PhysicalMemoryManager :=
  match n with
  | O => s
  | S n =>
      let order := order - 1 in
      let buddy := pfn + 2 ^ order in
      let s := buddy_list_push buddy order s in
      let s := meta_write buddy order s in
      split_loop n pfn order s
  end.

Definition buddy_alloc (order : Z) (s : PhysicalMemoryManager) : option (Z * Z) * PhysicalMemoryManager :=
  if MAX_BUDDY_ORDER <? order then (None, s)
  else
    match find_first (fun o => match head s o with Some _ => true | None => false end)
            (seqZ order (MAX_BUDDY_ORDER + 1 - order)) with
    | None => (None, s)
    | Some alloc_order =>
        match buddy_list_pop alloc_order s with
        | (None, s) => (None, s)
        | (Some pfn, s) =>
            match buddy_meta s with
            | None => (None, s)
            | Some _ =>
                let s := meta_write pfn BUDDY_ALLOCATED s in
                let s := split_loop (Z.to_nat (alloc_order - order)) pfn alloc_order s in
                (Some (pfn, order), meta_write pfn BUDDY_ALLOCATED s)
            end
        end
    end.

Definition align_up (a : Z) : Z := Z.land (wrap_u64 (a + PAGE_SIZE - 1)) (not_u64 (PAGE_SIZE - 1)).

(** [early_alloc_single] and [early_alloc_multiple]; they differ in how they
    compare with the end of memory. *)
Definition early_record (sz : Z) (s : PhysicalMemoryManager) : Z * PhysicalMemoryManager :=
  let aligned := align_up (early_current s) in
  let s := set_early
    (if (early_count s <? MAX_EARLY_ALLOCS)%nat then <[early_count s := (aligned, sz)]> (early_allocs s)
     else early_allocs s)
    (S (early_count s)) (wrap_u64 (aligned + sz)) s in
  (aligned, s).
Definition early_alloc_single (s : PhysicalMemoryManager) : option Z * PhysicalMemoryManager :=
  let '(aligned, s) := early_record PAGE_SIZE s in
  if RAM_BASE + mem_size s <=? aligned then (None, s) else (Some aligned, s).
Definition early_alloc_multiple (count : Z) (s : PhysicalMemoryManager) : option Z * PhysicalMemoryManager :=
  let sz := count * PAGE_SIZE in
  let '(aligned, s) := early_record sz s in
  if RAM_BASE + mem_size s <? wrap_u64 (aligned + sz) then (None, s) else (Some aligned, s).

(** The scan of [alloc_from_bitmap_fallback] from page [i]. *)
Fixpoint fallback_scan (fuel : nat) (i count : Z) (s : PhysicalMemoryManager)
  : option Z * PhysicalMemoryManager :=
  match fuel with
  | O => (None, s)
  | S fuel =>
      if test_bit s i then fallback_scan fuel (i + 1) count s
      else if total_pages s <? i + count then (None, s)
      else if forallb (fun j => negb (test_bit s (i + j))) (seqZ 1 (count - 1))
      then (Some (page_to_phys i), stats_alloc count (for_pages set_bit i count s))
      else fallback_scan fuel (i + 1) count s
  end.
Definition alloc_from_bitmap_fallback (count : Z) (s : PhysicalMemoryManager)
  : option Z * PhysicalMemoryManager :=
  fallback_scan (Z.to_nat (total_pages s)) 0 count s.

Definition do_alloc (order : Z) (s : PhysicalMemoryManager) : option Z * PhysicalMemoryManager :=
  if negb (initialized s) then
    if order =? 0 then early_alloc_single s else early_alloc_multiple (2 ^ order) s
  else if negb (buddy_ready s) then alloc_from_bitmap_fallback (2 ^ order) s
  else
    match buddy_alloc order s with
    | (None, s) => (None, s)
    | (Some (pfn, _), s) =>
        let s := for_pages set_bit pfn (2 ^ order) s in
        (Some (page_to_phys pfn), stats_alloc (2 ^ order) s)
    end.

Definition do_free (addr order : Z) (s : PhysicalMemoryManager) : PhysicalMemoryManager :=
  if negb (initialized s) then s
  else
    let pfn := phys_to_page addr in
    if total_pages s <=? pfn then s
    else if negb (test_bit s pfn) then s
    else
      let npages := 2 ^ order in
      let s := for_pages clear_bit pfn npages s in
      if negb (buddy_ready s) then stats_free npages s
      else
        let '(mp, mo, s) := buddy_try_merge pfn order (total_pages s) s in
        stats_free npages (buddy_list_push mp mo s).

(** ** The interface *)
Definition alloc_page (s : PhysicalMemoryManager) : option Z * PhysicalMemoryManager :=
  match do_alloc 0 s with
  | (Some a, s) => (Some a, count_alloc 1 s)
  | (None, s) => (None, count_failed s)
  end.

Definition free_page (addr : Z) (s : PhysicalMemoryManager) : PhysicalMemoryManager :=
  if addr =? 0 then s else count_free 1 (do_free addr 0 s).

Inductive AllocDecision : Type := Allow | Deny | RetryAfterReclaim.

Record AllocContext : Type := mkContext {
  requested_pages : Z;
  ctx_free_pages : Z;
  ctx_total_pages : Z;
  pressure_level : Z;
}.

(** [FallbackAllocPolicy::decide_alloc]. *)
Definition fallback_decide (c : AllocContext) : AllocDecision := Allow.

Definition alloc_pages (decide_alloc : AllocContext -> AllocDecision) (count : Z)
    (s : PhysicalMemoryManager) : option Z * PhysicalMemoryManager :=
  if count =? 0 then (None, s)
  else
    let order := count_to_order count in
    let npages := 2 ^ order in
    let free := if buddy_ready s then free_pages s else count_free_pages s in
    match decide_alloc (mkContext npages free (total_pages s) 0) with
    | Deny | RetryAfterReclaim => (None, count_failed s)
    | Allow =>
        match do_alloc order s with
        | (Some a, s) => (Some a, count_alloc npages s)
        | (None, s) => (None, count_failed s)
        end
    end.

Definition free_pages_at (addr count : Z) (s : PhysicalMemoryManager) : PhysicalMemoryManager :=
  if (addr =? 0) || (count =? 0) then s
  else
    let order := count_to_order count in
    count_free (2 ^ order) (do_free addr order s).

(** Why [reserve_range] and [unreserve_range] refuse. *)
Inductive RangeError : Type :=
  | ZeroSize | BaseUnaligned | SizeUnaligned | Overflow | OutOfRange | Overlaps | NotReserved.

(** The checks the two share: the first page and the number of pages. *)
Definition range_pages (base size : Z) (s : PhysicalMemoryManager) : RangeError + (Z * Z) :=
  if size =? 0 then inl ZeroSize
  else if negb (base mod PAGE_SIZE =? 0) then inl BaseUnaligned
  else if negb (size mod PAGE_SIZE =? 0) then inl SizeUnaligned
  else
    let start := phys_to_page base in
    let npages := size / PAGE_SIZE in
    if U64_MAX <? start + npages then inl Overflow
    else if total_pages s <? start + npages then inl OutOfRange
    else inr (start, npages).

Definition reserve_range (base size : Z) (s : PhysicalMemoryManager)
  : option RangeError * PhysicalMemoryManager :=
  match range_pages base size s with
  | inl e => (Some e, s)
  | inr (start, npages) =>
      if existsb (test_bit s) (seqZ start npages) then (Some Overlaps, s)
      else (None, buddy_reserve_pfn_range start npages s)
  end.

Definition unreserve_range (base size : Z) (s : PhysicalMemoryManager)
  : option RangeError * PhysicalMemoryManager :=
  match range_pages base size s with
  | inl e => (Some e, s)
  | inr (start, npages) =>
      if existsb (fun i => negb (test_bit s i)) (seqZ start npages) then (Some NotReserved, s)
      else
        let s := for_pages clear_bit start npages s in
        let s := buddy_free_insert_range start npages s in
        (None, stats_free npages s)
  end.

(** [while pfn < total && !test_bit(pfn) && run_len < npages]. *)
Fixpoint free_run (fuel : nat) (pfn run_len npages : Z) (s : PhysicalMemoryManager) : Z * Z :=
  match fuel with
  | O => (pfn, run_len)
  | S fuel =>
      if (pfn <? total_pages s) && negb (test_bit s pfn) && (run_len <? npages)
      then free_run fuel (pfn + 1) (run_len + 1) npages s
      else (pfn, run_len)
  end.

Fixpoint contig_loop (fuel : nat) (pfn npages : Z) (s : PhysicalMemoryManager) : option Z :=
  match fuel with
  | O => None
  | S fuel =>
      if pfn + npages <=? total_pages s then
        if test_bit s pfn then contig_loop fuel (pfn + 1) npages s
        else
          let '(pfn', run_len) := free_run (Z.to_nat (total_pages s)) pfn 0 npages s in
          if npages <=? run_len then Some (page_to_phys pfn) else contig_loop fuel pfn' npages s
      else None
  end.

Definition find_contig_range (size : Z) (s : PhysicalMemoryManager) : option Z :=
  if (size =? 0) || negb (size mod PAGE_SIZE =? 0) then None
  else contig_loop (S (Z.to_nat (total_pages s))) 0 (size / PAGE_SIZE) s.

Inductive PageSize : Type := Size4K | Size2M | Size1G.
Definition page_bytes (t : PageSize) : Z :=
  match t with Size4K => PAGE_SIZE | Size2M => 2097152 | Size1G => 1073741824 end.

Fixpoint aligned_loop (fuel : nat) (i align_pages count : Z) (s : PhysicalMemoryManager)
  : option Z * PhysicalMemoryManager :=
  match fuel with
  | O => (None, s)
  | S fuel =>
      if i + count <=? total_pages s then
        if (i mod align_pages =? 0) && forallb (fun j => negb (test_bit s (i + j))) (seqZ 0 count)
        then (Some (page_to_phys i), buddy_reserve_pfn_range i count s)
        else aligned_loop fuel (i + align_pages) align_pages count s
      else (None, s)
  end.

Definition buddy_direct_alloc_aligned (count alignment : Z) (s : PhysicalMemoryManager)
  : option Z * PhysicalMemoryManager :=
  let align_pages := alignment / PAGE_SIZE in
  aligned_loop (Z.to_nat (total_pages s)) align_pages align_pages count s.

Definition alloc_huge_page (decide_alloc : AllocContext -> AllocDecision) (t : PageSize)
    (s : PhysicalMemoryManager) : option Z * PhysicalMemoryManager :=
  match t with
  | Size4K => alloc_page s
  | Size2M => alloc_pages decide_alloc 512 s
  | Size1G =>
      let np := page_bytes t / PAGE_SIZE in
      match buddy_direct_alloc_aligned np (page_bytes t) s with
      | (Some a, s) => (Some a, count_alloc np s)
      | (None, s) => (None, count_failed s)
      end
  end.

Definition free_huge_page (addr : Z) (t : PageSize) (s : PhysicalMemoryManager) : PhysicalMemoryManager :=
  match t with
  | Size4K => free_page addr s
  | Size2M => free_pages_at addr 512 s
  | Size1G =>
      let np := page_bytes t / PAGE_SIZE in
      let start := phys_to_page addr in
      let s := for_pages clear_bit start np s in
      let s := buddy_free_insert_range start np s in
      count_free np s
  end.

(** ** Initialisation *)

(** [while pfn < total_pages && !test_bit(pfn) { pfn += 1 }]. *)
Fixpoint run_end (fuel : nat) (pfn : Z) (s : PhysicalMemoryManager) : Z :=
  match fuel with
  | O => pfn
  | S fuel => if (pfn <? total_pages s) && negb (test_bit s pfn) then run_end fuel (pfn + 1) s else pfn
  end.

(** [usize::BITS - 1 - (remaining - 1).leading_zeros()], which wraps to a large
    value when [remaining] is 1, then [min]. *)
Definition init_max_order (remaining : Z) : Z :=
  if remaining =? 1 then MAX_BUDDY_ORDER else Z.min (Z.log2 (remaining - 1)) MAX_BUDDY_ORDER.

Fixpoint init_blocks (fuel : nat) (cur remaining : Z) (s : PhysicalMemoryManager) : PhysicalMemoryManager :=
  match fuel with
  | O => s
  | S fuel =>
      if 0 <? remaining then
        let order := Z.of_nat (fit_order (Z.to_nat (init_max_order remaining)) cur remaining) in
        let s := meta_write cur order s in
        let s := buddy_list_push cur order s in
        init_blocks fuel (cur + 2 ^ order) (remaining - 2 ^ order) s
      else s
  end.

Fixpoint init_lists_loop (fuel : nat) (pfn : Z) (s : PhysicalMemoryManager) : PhysicalMemoryManager :=
  match fuel with
  | O => s
  | S fuel =>
      if pfn <? total_pages s then
        if test_bit s pfn then init_lists_loop fuel (pfn + 1) s
        else
          let e := run_end (Z.to_nat (total_pages s)) pfn s in
          let s := init_blocks (Z.to_nat (e - pfn)) pfn (e - pfn) s in
          init_lists_loop fuel e s
      else s
  end.

Definition buddy_init_free_lists (s : PhysicalMemoryManager) : PhysicalMemoryManager :=
  match buddy_meta s with
  | None => s
  | Some _ => init_lists_loop (Z.to_nat (total_pages s)) 0 s
  end.

Definition init (size ke : Z) (s : PhysicalMemoryManager) : PhysicalMemoryManager :=
  let s := set_size size ke (size / PAGE_SIZE) s in
  set_early (early_allocs s) (early_count s) (align_up ke) s.

(** [for i in a..min(b, total_pages) { set_bit(i) }]. *)
Definition mark_pages (a b : Z) (s : PhysicalMemoryManager) : PhysicalMemoryManager :=
  for_pages set_bit a (Z.min b (total_pages s) - a) s.

Definition div_ceil (a b : Z) : Z := a / b + (if a mod b =? 0 then 0 else 1).

(** The bitmap and the metadata are placed behind the kernel; their addresses
    only matter for the pages they occupy. *)
Definition init_bitmap (reserved_after_kernel : Z) (s : PhysicalMemoryManager) : PhysicalMemoryManager :=
  if initialized s then s
  else
    let reserved := align_up reserved_after_kernel in
    let total := total_pages s in
    let bitmap_words := div_ceil total 32 in
    let bitmap_bytes := bitmap_words * 4 in
    let bitmap_phys := wrap_u64 (early_current s + reserved) in
    let bitmap_at := align_up bitmap_phys in
    let s := set_bitmap (replicate (Z.to_nat bitmap_words) 0) s in
    let meta_phys := align_up (bitmap_at + bitmap_bytes) in
    let meta_pages := div_ceil total PAGE_SIZE in
    let s := set_early (early_allocs s) (early_count s) (meta_phys + meta_pages * PAGE_SIZE + PAGE_SIZE) s in
    let s := set_buddy_meta (Some (replicate (Z.to_nat total) BUDDY_ALLOCATED)) s in
    let kernel_pages := phys_to_page (kernel_end s + PAGE_SIZE - 1) in
    let s := mark_pages 0 (kernel_pages + reserved / PAGE_SIZE) s in
    let s := if 0 <? total then set_bit 0 s else s in
    let bmp_start := phys_to_page bitmap_at in
    let s := mark_pages bmp_start (bmp_start + div_ceil bitmap_bytes PAGE_SIZE) s in
    let bm_start := phys_to_page meta_phys in
    let s := mark_pages bm_start (bm_start + meta_pages) s in
    let s := buddy_init_free_lists s in
    update_stats (set_ready s).

(** ** Barriers *)
Record PmmSnapshot : Type := mkSnapshot {
  snap_total_allocs : Z;
  snap_total_frees : Z;
  snap_failed_allocs : Z;
  snap_info : Z * Z * Z * Z;
}.

Definition pmm_barrier_capture (s : PhysicalMemoryManager) : PmmSnapshot :=
  mkSnapshot (total_allocs s) (total_frees s) (failed_allocs s)
    (total_pages s, free_pages s, used_pages s, kernel_end s).

Definition pmm_barrier_rollback (snap : option PmmSnapshot) (s : PhysicalMemoryManager)
  : PhysicalMemoryManager :=
  match snap with
  | None => s
  | Some p =>
      let s := set_counters (snap_total_allocs p) (snap_total_frees p) (snap_failed_allocs p) s in
      let '(tp, fp, up, ke) := snap_info p in
      set_usage fp up (set_size (mem_size s) ke tp s)
  end.

End Pmm.
