(* ===== verification/PmmPool.v ===== *)
(** * The pool of free blocks (facts on framework/mm/pmm.rs)

    The free lists are doubly linked lists in the pages themselves; [pool s B]
    says that the lists and the metadata describe the same blocks [B], aligned,
    disjoint and inside memory.  Removing a block, merging, linking, splitting,
    inserting a range and allocating each change [B] and what it covers in the
    way stated here ([given], [taken]), and touch nothing else ([kept]). *)
From S2P Require Import Prelude Pmm.

Module PmmPool.
Import Pmm.

(** *** Doubly linked lists

    [dseg N pv h L lst nx]: the nodes [L] from the pointer [h], whose first has
    the predecessor [pv]; [lst] is the last node and [nx] what it points to. *)
Fixpoint dseg (N : gmap Z FreeNode) (pv h : option Z) (L : list Z) (lst nx : option Z) : Prop :=
  match L with
  | [] => h = nx /\ pv = lst
  | p :: L => h = Some p /\ exists n, N !! p = Some (mkNode pv n) /\ dseg N (Some p) n L lst nx
  end.

Definition dll (N : gmap Z FreeNode) (h : option Z) (L : list Z) : Prop := exists lst, dseg N None h L lst None.

Lemma dseg_app N pv h L1 L2 lst nx :
  dseg N pv h (L1 ++ L2) lst nx <-> exists m1 m2, dseg N pv h L1 m1 m2 /\ dseg N m1 m2 L2 lst nx.
Proof.
  revert pv h. induction L1 as [|p L1 IH]; intros pv h; cbn.
  - split; [by exists pv, h|]. by intros (m1 & m2 & [-> ->] & H).
  - split.
    + intros (-> & n & Hp & (m1 & m2 & H1 & H2)%IH). exists m1, m2. split; [|done]. split; [done|]. by exists n.
    + intros (m1 & m2 & (-> & n & Hp & H1) & H2). split; [done|]. exists n. split; [done|]. apply IH. by exists m1, m2.
Qed.

Lemma dseg_frame N N' pv h L lst nx :
  (forall p, p ∈ L -> N' !! p = N !! p) -> dseg N pv h L lst nx -> dseg N' pv h L lst nx.
Proof.
  revert pv h. induction L as [|p L IH]; intros pv h HN; [done|]. cbn. intros (-> & n & Hp & H).
  split; [done|]. exists n. split; [by rewrite HN by by left|]. apply IH; [|done]. intros q Hq. apply HN. by right.
Qed.

Lemma dseg_snoc_last N pv h L q lst nx : dseg N pv h (L ++ [q]) lst nx -> lst = Some q /\ exists n, N !! q = Some n /\ next n = nx.
Proof. intros (m1 & m2 & _ & (-> & n & Hq & (-> & <-)))%dseg_app. split; [done|]. by eexists. Qed.

Lemma dseg_set_next N pv h L q lst nx nx' n :
  dseg N pv h (L ++ [q]) lst nx -> q ∉ L -> N !! q = Some n ->
  dseg (<[q := mkNode (prev n) nx']> N) pv h (L ++ [q]) lst nx'.
Proof.
  intros (m1 & m2 & H1 & (-> & n' & Hq & (-> & <-)))%dseg_app Hnq Hn. rewrite Hn in Hq. injection Hq as ->.
  apply dseg_app. exists m1, (Some q). split.
  - eapply dseg_frame; [|done]. intros p Hp. rewrite lookup_insert_ne; [done|]. by intros ->.
  - split; [done|]. exists nx'. split; [by rewrite lookup_insert_eq|done].
Qed.

Lemma dseg_set_prev N pv pv' h r L lst nx n :
  dseg N pv h (r :: L) lst nx -> r ∉ L -> N !! r = Some n ->
  dseg (<[r := mkNode pv' (next n)]> N) pv' h (r :: L) lst nx.
Proof.
  intros (-> & n' & Hr & H) Hnr Hn. rewrite Hn in Hr. injection Hr as ->.
  split; [done|]. exists n'. split; [by rewrite lookup_insert_eq|].
  eapply dseg_frame; [|done]. intros p Hp. rewrite lookup_insert_ne; [done|]. by intros ->.
Qed.

(** *** The lists, one per order *)
Definition lists_ok (s : PhysicalMemoryManager) (Ls : Z -> list Z) : Prop :=
  length (buddy_heads s) = 10%nat /\
  (forall o, 0 <= o <= 9 -> dll (nodes s) (head s o) (Ls o) /\ NoDup (Ls o)) /\
  (forall o o' p, 0 <= o <= 9 -> 0 <= o' <= 9 -> p ∈ Ls o -> p ∈ Ls o' -> o = o').

Definition upd (Ls : Z -> list Z) (o : Z) (L : list Z) : Z -> list Z := fun o' => if decide (o' = o) then L else Ls o'.

Lemma upd_eq Ls o L : upd Ls o L o = L.
Proof. unfold upd. by rewrite decide_True. Qed.
Lemma upd_ne Ls o o' L : o' <> o -> upd Ls o L o' = Ls o'.
Proof. intros. unfold upd. by rewrite decide_False. Qed.

(** What the list operations leave alone. *)
Definition same_rest (s s' : PhysicalMemoryManager) : Prop :=
  s' = set_nodes (nodes s') (set_buddy_heads (buddy_heads s') (set_buddy_meta (buddy_meta s')
         (set_bitmap (bitmap s') s))).

Lemma same_rest_refl s : same_rest s s.
Proof. by destruct s. Qed.
Lemma same_rest_trans s1 s2 s3 : same_rest s1 s2 -> same_rest s2 s3 -> same_rest s1 s3.
Proof. unfold same_rest. intros H1 H2. rewrite H2, H1. by destruct s1, s2, s3. Qed.

Lemma same_rest_fields s s' :
  same_rest s s' ->
  mem_size s' = mem_size s /\ total_pages s' = total_pages s /\ free_pages s' = free_pages s /\
  used_pages s' = used_pages s /\ initialized s' = initialized s /\ buddy_ready s' = buddy_ready s.
Proof. unfold same_rest. intros ->. by destruct s. Qed.

Lemma node_at_eq s p n : nodes s !! p = Some n -> node_at s p = n.
Proof. unfold node_at. by intros ->. Qed.

Lemma head_set_head s o o' h :
  length (buddy_heads s) = 10%nat -> 0 <= o <= 9 -> 0 <= o' <= 9 ->
  head (set_head o h s) o' = if decide (o' = o) then h else head s o'.
Proof.
  intros Hl Ho Ho'. unfold head, set_head. destruct s. cbn in *.
  destruct (decide (o' = o)) as [->|].
  - apply nth_insert_eq. lia.
  - apply nth_insert_ne. lia.
Qed.

(** Linking and unlinking as functions of the two fields. *)
Definition link_next (m : option Z) (v : option Z) (N : gmap Z FreeNode) : gmap Z FreeNode :=
  match m with None => N | Some q => <[q := mkNode (prev (default (mkNode None None) (N !! q))) v]> N end.
Definition link_prev (m : option Z) (v : option Z) (N : gmap Z FreeNode) : gmap Z FreeNode :=
  match m with None => N | Some q => <[q := mkNode v (next (default (mkNode None None) (N !! q)))]> N end.

Lemma unlink_dll N h L1 p L2 :
  dll N h (L1 ++ p :: L2) -> NoDup (L1 ++ p :: L2) ->
  exists m1 m2, N !! p = Some (mkNode m1 m2) /\
    dll (link_prev m2 m1 (link_next m1 m2 N)) (if decide (m1 = None) then m2 else h) (L1 ++ L2) /\
    (forall x, x ∉ L1 ++ L2 -> link_prev m2 m1 (link_next m1 m2 N) !! x = N !! x) /\
    m2 = hd_error L2.
Proof.
  intros (lst & (m1 & m2 & H1 & (-> & n & Hp & H2))%dseg_app) Hnd. exists m1, n. split; [done|].
  apply NoDup_app in Hnd as (Hnd1 & Hd & [Hp2 Hnd2]%NoDup_cons).
  assert (HA : dseg (link_next m1 n N) None (if decide (m1 = None) then n else h) L1 m1 n /\
               (forall x, x ∉ L1 -> link_next m1 n N !! x = N !! x)).
  { destruct (decide (L1 = [])) as [->|Hne].
    - cbn in H1. destruct H1 as [-> <-]. by split; [split|].
    - destruct (exists_last Hne) as (L1' & q & ->). pose proof (dseg_snoc_last _ _ _ _ _ _ _ H1) as (-> & nq & Hq & Hnq).
      cbn [link_next]. rewrite Hq. cbn [default]. split.
      + apply NoDup_app in Hnd1 as (_ & Hq1 & _). eapply dseg_set_next; [done| |done].
        intros Hin. apply (Hq1 q Hin). by left.
      + intros x Hx. rewrite lookup_insert_ne; [done|]. intros ->. apply Hx, elem_of_app. right. by left. }
  destruct HA as [HA1 HA2].
  assert (HB : exists lst', dseg (link_prev n m1 (link_next m1 n N)) m1 n L2 lst' None).
  { destruct L2 as [|r L2]; [exists m1; destruct H2 as [-> _]; by split|].
    pose proof H2 as (-> & nr & Hr & _). cbn [link_prev]. apply NoDup_cons in Hnd2 as [Hr2 _].
    assert (Hr1 : link_next m1 (Some r) N !! r = Some (mkNode (Some p) nr)).
    { rewrite HA2; [done|]. intros Hin. apply (Hd r Hin). right. by left. }
    exists lst. rewrite Hr1. cbn [default]. eapply dseg_set_prev; [|done|exact Hr1].
    eapply dseg_frame; [|exact H2]. intros x Hx. apply HA2. intros Hin. apply (Hd x Hin). by right. }
  destruct HB as [lst' HB]. split_and!.
  - exists lst'. apply dseg_app. exists m1, n. split; [|done]. eapply dseg_frame; [|exact HA1].
    intros x Hx. destruct n as [r|]; [|done]. cbn [link_prev]. rewrite lookup_insert_ne; [done|].
    intros ->. destruct L2 as [|r' L2]; [by destruct H2|]. destruct H2 as [[= <-] _]. apply (Hd x Hx). right. by left.
  - intros x Hx. rewrite <- HA2 by (intros Hin; apply Hx, elem_of_app; by left).
    destruct n as [r|]; [|done]. cbn [link_prev]. rewrite lookup_insert_ne; [done|]. intros ->.
    destruct L2 as [|r' L2]; [by destruct H2|]. destruct H2 as [[= <-] _]. apply Hx, elem_of_app. right. by left.
  - destruct L2; [by destruct H2|]. by destruct H2 as [-> _].
Qed.

Lemma remove_fields s p o m1 m2 :
  in_ram s p = true -> nodes s !! p = Some (mkNode m1 m2) ->
  buddy_list_remove p o s =
    set_nodes (link_prev m2 m1 (link_next m1 m2 (nodes s)))
      (match m1 with None => set_head o m2 s | Some _ => s end).
Proof.
  intros Hr Hp. unfold buddy_list_remove. rewrite Hr, (node_at_eq _ _ _ Hp). cbn [negb prev next].
  destruct m1, m2; unfold set_next, set_prev, put_node, node_at, link_next, link_prev, set_head; by destruct s.
Qed.

Lemma lists_remove s Ls o L1 p L2 :
  lists_ok s Ls -> 0 <= o <= 9 -> Ls o = L1 ++ p :: L2 -> in_ram s p = true ->
  lists_ok (buddy_list_remove p o s) (upd Ls o (L1 ++ L2)) /\
  same_rest s (buddy_list_remove p o s) /\
  bitmap (buddy_list_remove p o s) = bitmap s /\ buddy_meta (buddy_list_remove p o s) = buddy_meta s /\
  (forall x, (forall o', 0 <= o' <= 9 -> x ∉ Ls o') -> nodes (buddy_list_remove p o s) !! x = nodes s !! x) /\
  next (node_at s p) = hd_error L2.
Proof.
  intros (Hl & Hd & Hu) Ho HL Hr. destruct (Hd o Ho) as [Hdo Hndo]. rewrite HL in Hdo, Hndo.
  destruct (unlink_dll _ _ _ _ _ Hdo Hndo) as (m1 & m2 & Hp & Hdll & Hfr & Hhd).
  rewrite (remove_fields s p o m1 m2 Hr Hp).
  set (N' := link_prev m2 m1 (link_next m1 m2 (nodes s))) in *.
  set (s1 := match m1 with None => set_head o m2 s | Some _ => s end).
  assert (Hs1 : length (buddy_heads s1) = 10%nat /\ nodes (set_nodes N' s1) = N' /\
                buddy_heads (set_nodes N' s1) = buddy_heads s1).
  { unfold s1. destruct m1, s; cbn in *; rewrite ?length_insert; done. }
  destruct Hs1 as (Hl1 & HN & HH).
  assert (Hh : forall o', 0 <= o' <= 9 -> head (set_nodes N' s1) o' =
                 if decide (o' = o) then (if decide (m1 = None) then m2 else head s o) else head s o').
  { intros o' Ho'. unfold head at 1. rewrite HH. fold (head s1 o'). unfold s1.
    destruct m1 as [q|]; [by destruct (decide (o' = o)) as [->|]|]. by rewrite head_set_head. }
  split; [|split_and!].
  - split_and!; [by rewrite HH|..].
    + intros o' Ho'. rewrite HN, Hh by done. destruct (decide (o' = o)) as [->|Hne].
      * rewrite upd_eq. split; [done|]. apply NoDup_app in Hndo as (? & Hx & [? ?]%NoDup_cons).
        apply NoDup_app. split_and!; [done| |done]. intros x Hx1 Hx2. apply (Hx x Hx1). by right.
      * rewrite upd_ne by done. destruct (Hd o' Ho') as [[lst Hlst] ?]. split; [|done].
        exists lst. eapply dseg_frame; [|exact Hlst]. intros x Hx. apply Hfr. intros Hin.
        apply Hne. symmetry. apply (Hu o o' x Ho Ho'); [|done]. rewrite HL.
        apply elem_of_app in Hin as [?|?]; apply elem_of_app; [by left|right; by right].
    + intros o1 o2 x H1 H2 Hx1 Hx2.
      assert (Hsub : forall o', x ∈ upd Ls o (L1 ++ L2) o' -> x ∈ Ls o').
      { intros o'. unfold upd. destruct (decide (o' = o)) as [->|]; [|done]. rewrite HL.
        intros [?|?]%elem_of_app; apply elem_of_app; [by left|right; by right]. }
      apply (Hu o1 o2 x H1 H2); by apply Hsub.
  - unfold same_rest, s1, set_head. by destruct s, m1.
  - unfold s1, set_head. by destruct s, m1.
  - unfold s1, set_head. by destruct s, m1.
  - intros x Hx. rewrite HN. apply Hfr. intros Hin. apply (Hx o Ho). rewrite HL.
    apply elem_of_app in Hin as [?|?]; apply elem_of_app; [by left|right; by right].
  - by rewrite (node_at_eq _ _ _ Hp).
Qed.

(** *** The bitmap and the metadata *)
Lemma land_pow2 w k : 0 <= k -> (Z.land w (2 ^ k) =? 0) = negb (Z.testbit w k).
Proof.
  intros Hk. destruct (Z.testbit w k) eqn:E; cbn.
  - apply Z.eqb_neq. intros H0. apply (f_equal (fun z => Z.testbit z k)) in H0.
    rewrite Z.land_spec, E, Z.pow2_bits_true, Z.bits_0 in H0 by done. done.
  - apply Z.eqb_eq. apply Z.bits_inj'. intros n Hn. rewrite Z.land_spec, Z.bits_0, Z.pow2_bits_eqb by done.
    destruct (Z.eqb_spec k n) as [<-|]; [by rewrite E|by rewrite andb_false_r].
Qed.

Lemma test_bit_spec s b :
  test_bit s b = (bitmap_word s b <? length (bitmap s))%nat && Z.testbit (nth (bitmap_word s b) (bitmap s) 0) (b mod 32).
Proof.
  unfold test_bit. destruct (_ <? _)%nat; [|done]. rewrite land_pow2 by (apply Z.mod_pos_bound; lia).
  by rewrite negb_involutive.
Qed.

Lemma bitmap_same (b x : Z) : 0 <= b -> 0 <= x -> b <> x -> Z.to_nat (b / 32) = Z.to_nat (x / 32) -> b mod 32 <> x mod 32.
Proof.
  intros Hb Hx Hne Hw Hm. apply Hne. rewrite (Z.div_mod b 32), (Z.div_mod x 32), Hm by lia.
  pose proof (Z.div_pos b 32). pose proof (Z.div_pos x 32). lia.
Qed.

Lemma test_clear_bit s b x : 0 <= b -> 0 <= x -> test_bit (clear_bit b s) x = test_bit s x && negb (x =? b).
Proof.
  intros Hb Hx. rewrite !test_bit_spec. unfold clear_bit, bitmap_word.
  destruct (Nat.ltb_spec (Z.to_nat (b / 32)) (length (bitmap s))) as [Hlt|Hge].
  2:{ destruct (Z.eqb_spec x b) as [->|]; [|by rewrite andb_true_r].
      by rewrite (proj2 (Nat.ltb_ge _ _)). }
  assert (bitmap (set_bitmap (<[Z.to_nat (b / 32) := Z.ldiff (nth (Z.to_nat (b / 32)) (bitmap s) 0) (2 ^ (b mod 32))]>
            (bitmap s)) s) = <[Z.to_nat (b / 32) := Z.ldiff (nth (Z.to_nat (b / 32)) (bitmap s) 0) (2 ^ (b mod 32))]>
            (bitmap s)) as -> by by destruct s.
  rewrite length_insert. rewrite <- andb_assoc. f_equal.
  destruct (decide (Z.to_nat (x / 32) = Z.to_nat (b / 32))) as [Hw|Hw].
  - rewrite Hw, nth_insert_eq by done. rewrite Z.ldiff_spec, Z.pow2_bits_eqb by (apply Z.mod_pos_bound; lia). f_equal.
    f_equal. destruct (Z.eqb_spec x b) as [->|Hne]; [apply Z.eqb_refl|].
    apply Z.eqb_neq. apply bitmap_same; [done|done|congruence|done].
  - rewrite nth_insert_ne by congruence. destruct (Z.eqb_spec x b) as [->|]; [congruence|by rewrite andb_true_r].
Qed.

Lemma test_set_bit s b x :
  0 <= b -> 0 <= x -> (bitmap_word s b < length (bitmap s))%nat ->
  test_bit (set_bit b s) x = test_bit s x || (x =? b).
Proof.
  intros Hb Hx Hlt. rewrite !test_bit_spec. unfold set_bit, bitmap_word in *. rewrite (proj2 (Nat.ltb_lt _ _) Hlt).
  assert (bitmap (set_bitmap (<[Z.to_nat (b / 32) := Z.lor (nth (Z.to_nat (b / 32)) (bitmap s) 0) (2 ^ (b mod 32))]>
            (bitmap s)) s) = <[Z.to_nat (b / 32) := Z.lor (nth (Z.to_nat (b / 32)) (bitmap s) 0) (2 ^ (b mod 32))]>
            (bitmap s)) as -> by by destruct s.
  rewrite length_insert.
  destruct (decide (Z.to_nat (x / 32) = Z.to_nat (b / 32))) as [Hw|Hw].
  - rewrite Hw, nth_insert_eq, (proj2 (Nat.ltb_lt _ _) Hlt) by done. cbn [andb].
    rewrite Z.lor_spec, Z.pow2_bits_eqb by (apply Z.mod_pos_bound; lia). f_equal.
    destruct (Z.eqb_spec x b) as [->|Hne]; [apply Z.eqb_refl|].
    apply Z.eqb_neq. apply bitmap_same; [done|done|congruence|done].
  - rewrite nth_insert_ne by congruence. destruct (Z.eqb_spec x b) as [->|]; [congruence|by rewrite orb_false_r].
Qed.

Lemma clear_bit_rest b s : exists bm, clear_bit b s = set_bitmap bm s /\ length bm = length (bitmap s).
Proof.
  unfold clear_bit. destruct (_ <? _)%nat; [|by exists (bitmap s); destruct s].
  eexists. split; [done|]. apply length_insert.
Qed.
Lemma set_bit_rest b s : exists bm, set_bit b s = set_bitmap bm s /\ length bm = length (bitmap s).
Proof.
  unfold set_bit. destruct (_ <? _)%nat; [|by exists (bitmap s); destruct s].
  eexists. split; [done|]. apply length_insert.
Qed.

Lemma for_pages_rest op start n s :
  (forall b s, exists bm, op b s = set_bitmap bm s /\ length bm = length (bitmap s)) ->
  exists bm, for_pages op start n s = set_bitmap bm s /\ length bm = length (bitmap s).
Proof.
  intros Hop. unfold for_pages. apply (fold_left_inv (fun s' => exists bm, s' = set_bitmap bm s /\ length bm = length (bitmap s))).
  2: by exists (bitmap s); destruct s.
  - intros s' b _ (bm & -> & Hl). destruct (Hop b (set_bitmap bm s)) as (bm' & -> & Hl').
    exists bm'. split; [by destruct s|]. rewrite Hl'. by destruct s.
Qed.

Definition in_block (p o x : Z) : Prop := p <= x < p + 2 ^ o.

Lemma test_clear_pages s start n x :
  0 <= start -> 0 <= x ->
  test_bit (for_pages clear_bit start n s) x = test_bit s x && negb (bool_decide (start <= x < start + n)).
Proof.
  intros Hs Hx. unfold for_pages.
  assert (H : forall l s, (forall b, b ∈ l -> 0 <= b) ->
    test_bit (fold_left (fun s p => clear_bit p s) l s) x = test_bit s x && negb (bool_decide (x ∈ l))).
  { intros l. induction l as [|b l IH]; intros t Hl; cbn [fold_left].
    - rewrite bool_decide_false by apply not_elem_of_nil. by rewrite andb_true_r.
    - rewrite IH by (intros; apply Hl; by right). rewrite test_clear_bit by (done || apply Hl; by left).
      rewrite <- andb_assoc. f_equal. rewrite <- negb_orb. f_equal.
      destruct (Z.eqb_spec x b) as [->|]; cbn; [symmetry; apply bool_decide_eq_true; by left|].
      apply bool_decide_ext. rewrite elem_of_cons. naive_solver. }
  rewrite H by (intros b ?%elem_of_seqZ; lia). do 2 f_equal. apply bool_decide_ext, elem_of_seqZ.
Qed.

Lemma test_set_pages s start n x :
  0 <= start -> 0 <= x -> start + n <= 32 * Z.of_nat (length (bitmap s)) ->
  test_bit (for_pages set_bit start n s) x = test_bit s x || bool_decide (start <= x < start + n).
Proof.
  intros Hs Hx Hn. unfold for_pages.
  assert (H : forall l s, (forall b, b ∈ l -> 0 <= b < 32 * Z.of_nat (length (bitmap s))) ->
    test_bit (fold_left (fun s p => set_bit p s) l s) x = test_bit s x || bool_decide (x ∈ l)).
  { intros l. induction l as [|b l IH]; intros t Hl; cbn [fold_left].
    - rewrite bool_decide_false by apply not_elem_of_nil. by rewrite orb_false_r.
    - destruct (set_bit_rest b t) as (bm & He & Hbm).
      rewrite IH by (intros c Hc; rewrite He; destruct t; cbn in *; rewrite Hbm; apply Hl; by right).
      assert (0 <= b < 32 * Z.of_nat (length (bitmap t))) as Hb by (apply Hl; by left).
      rewrite test_set_bit; [|lia|done|unfold bitmap_word; pose proof (Z.div_lt_upper_bound b 32 (Z.of_nat (length (bitmap t)))); pose proof (Z.div_pos b 32); lia].
      rewrite <- orb_assoc. f_equal.
      destruct (Z.eqb_spec x b) as [->|]; cbn; [symmetry; apply bool_decide_eq_true; by left|].
      apply bool_decide_ext. rewrite elem_of_cons. naive_solver. }
  rewrite H by (intros b ?%elem_of_seqZ; lia). f_equal. apply bool_decide_ext, elem_of_seqZ.
Qed.

(** *** Free blocks

    [B] maps the first page of a free block to its order. *)
Definition tiling (total : Z) (B : gmap Z Z) : Prop :=
  (forall p o, B !! p = Some o -> 0 <= o <= 9 /\ 0 <= p /\ p mod 2 ^ o = 0 /\ p + 2 ^ o <= total) /\
  (forall p q o o' x, B !! p = Some o -> B !! q = Some o' -> in_block p o x -> in_block q o' x -> p = q).

Definition lists_of (s : PhysicalMemoryManager) (B : gmap Z Z) (Ls : Z -> list Z) : Prop :=
  lists_ok s Ls /\ forall o p, 0 <= o <= 9 -> (p ∈ Ls o <-> B !! p = Some o).

Definition links (s : PhysicalMemoryManager) (B : gmap Z Z) : Prop := exists Ls, lists_of s B Ls.

Definition metas (s : PhysicalMemoryManager) (B : gmap Z Z) : Prop :=
  exists m, buddy_meta s = Some m /\ Z.of_nat (length m) = total_pages s /\
    forall p, 0 <= p < total_pages s -> nth (Z.to_nat p) m 255 = default 255 (B !! p).

Definition sizes (s : PhysicalMemoryManager) : Prop :=
  0 <= total_pages s < 2 ^ 52 /\ total_pages s * 4096 <= mem_size s /\
  total_pages s <= 32 * Z.of_nat (length (bitmap s)).

Definition pool (s : PhysicalMemoryManager) (B : gmap Z Z) : Prop :=
  sizes s /\ links s B /\ metas s B /\ tiling (total_pages s) B.

Definition covers (B : gmap Z Z) (x : Z) : Prop := exists p o, B !! p = Some o /\ in_block p o x.

Lemma covers_insert B p o x :
  B !! p = None -> covers (<[p := o]> B) x <-> in_block p o x \/ covers B x.
Proof.
  intros Hp. split.
  - intros (q & o' & Hq & Hx). destruct (decide (q = p)) as [->|].
    + rewrite lookup_insert_eq in Hq. injection Hq as ->. by left.
    + rewrite lookup_insert_ne in Hq by done. right. by exists q, o'.
  - intros [Hx|(q & o' & Hq & Hx)]; [by exists p, o; rewrite lookup_insert_eq|].
    exists q, o'. rewrite lookup_insert_ne; [done|]. intros ->. by rewrite Hp in Hq.
Qed.

Lemma covers_delete total B p o x :
  tiling total B -> B !! p = Some o -> covers (delete p B) x <-> covers B x /\ ~ in_block p o x.
Proof.
  intros [_ Ht] Hp. split.
  - intros (q & o' & [Hne Hq]%lookup_delete_Some & Hx). split; [by exists q, o'|].
    intros Hx'. apply Hne. by apply (Ht p q o o' x).
  - intros [(q & o' & Hq & Hx) Hn]. exists q, o'. split; [|done]. apply lookup_delete_Some. split; [|done].
    intros ->. rewrite Hp in Hq. injection Hq as ->. done.
Qed.

Lemma pow2_pos o : 0 <= o -> 0 < 2 ^ o.
Proof. intros. by apply Z.pow_pos_nonneg. Qed.

Lemma in_block_first p o : 0 <= o -> in_block p o p.
Proof. intros. pose proof (pow2_pos o). unfold in_block. lia. Qed.

Lemma in_ram_page s p : sizes s -> 0 <= p < total_pages s -> in_ram s p = true.
Proof. intros (_ & Hm & _) Hp. unfold in_ram, page_to_phys, RAM_BASE, PAGE_SIZE. apply Z.ltb_lt. lia. Qed.

Lemma meta_write_read s m i v x :
  buddy_meta s = Some m -> 0 <= i < Z.of_nat (length m) -> 0 <= x ->
  meta_read (meta_write i v s) x = if decide (x = i) then v else meta_read s x.
Proof.
  intros Hm Hi Hx. unfold meta_read, meta_write. rewrite Hm.
  assert (buddy_meta (set_buddy_meta (<[Z.to_nat i := v]> <$> Some m) s) = Some (<[Z.to_nat i := v]> m)) as ->
    by by destruct s.
  destruct (decide (x = i)) as [->|]; [apply nth_insert_eq; lia|apply nth_insert_ne; lia].
Qed.

Lemma metas_read s B x : metas s B -> 0 <= x < total_pages s -> meta_read s x = default 255 (B !! x).
Proof. intros (m & Hm & Hl & H) Hx. unfold meta_read. rewrite Hm. by apply H. Qed.

Lemma metas_write s B i v B' :
  metas s B -> 0 <= i < total_pages s -> default 255 (B' !! i) = v -> (forall x, x <> i -> B' !! x = B !! x) ->
  metas (meta_write i v s) B'.
Proof.
  intros (m & Hm & Hl & H) Hi Hv Ho. unfold metas, meta_write. exists (<[Z.to_nat i := v]> m). rewrite Hm.
  assert (total_pages (set_buddy_meta (<[Z.to_nat i := v]> <$> Some m) s) = total_pages s) as -> by by destruct s.
  split; [by destruct s|]. split; [by rewrite length_insert|].
  intros p Hp. destruct (decide (p = i)) as [->|Hne].
  - rewrite nth_insert_eq by lia. done.
  - rewrite nth_insert_ne, Ho by (done || lia). by apply H.
Qed.

(** What is kept by operations on the lists. *)
Lemma links_meta_write s B i v : links s B -> links (meta_write i v s) B.
Proof. intros (Ls & H & ?). exists Ls. split; [|done]. by destruct s. Qed.
Lemma links_set_bitmap s B bm : links s B -> links (set_bitmap bm s) B.
Proof. intros (Ls & H & ?). exists Ls. split; [|done]. by destruct s. Qed.

Lemma metas_same s s' B : buddy_meta s' = buddy_meta s -> total_pages s' = total_pages s -> metas s B -> metas s' B.
Proof. unfold metas. by intros -> ->. Qed.

Lemma tiling_delete total B p : tiling total B -> tiling total (delete p B).
Proof.
  intros [H1 H2]. split.
  - intros q o [_ Hq]%lookup_delete_Some. by apply H1.
  - intros q q' o o' x [_ Hq]%lookup_delete_Some [_ Hq']%lookup_delete_Some. by apply H2.
Qed.

(** A block that lies outside the lists. *)
Definition loose (total : Z) (B : gmap Z Z) (p o : Z) : Prop :=
  0 <= o <= 9 /\ 0 <= p /\ p mod 2 ^ o = 0 /\ p + 2 ^ o <= total /\ (forall x, in_block p o x -> ~ covers B x).

Lemma loose_None total B p o : tiling total B -> loose total B p o -> B !! p = None.
Proof.
  intros [H1 _] (Ho & _ & _ & _ & Hd). destruct (B !! p) as [o'|] eqn:E; [|done].
  destruct (Hd p); [apply in_block_first; lia|]. exists p, o'. split; [done|].
  apply in_block_first. apply H1 in E. lia.
Qed.

Lemma tiling_insert total B p o : tiling total B -> loose total B p o -> tiling total (<[p := o]> B).
Proof.
  intros [H1 H2] (Ho & Hp & Hm & Ht & Hd). split.
  - intros q o' [[<- <-]|[_ Hq]]%lookup_insert_Some; [split_and!; lia|by apply H1].
  - intros q q' o1 o2 x [[<- <-]|[Hne Hq]]%lookup_insert_Some [[<- <-]|[Hne' Hq']]%lookup_insert_Some Hx Hx';
      [done|exfalso; apply (Hd x Hx); by exists q', o2|exfalso; apply (Hd x Hx'); by exists q, o1|].
    by apply (H2 q q' o1 o2 x).
Qed.

(** *** Unlinking and linking a block *)
Definition nodes_kept (s s' : PhysicalMemoryManager) (B : gmap Z Z) : Prop :=
  forall x, B !! x = None -> nodes s' !! x = nodes s !! x.

(** Unlinking a member of a list, with the lists named. *)
Lemma lists_of_remove s B Ls o L1 p L2 :
  sizes s -> lists_of s B Ls -> tiling (total_pages s) B -> 0 <= o <= 9 -> Ls o = L1 ++ p :: L2 ->
  B !! p = Some o /\ next (node_at s p) = hd_error L2 /\ in_ram s p = true /\
  lists_of (buddy_list_remove p o s) (delete p B) (upd Ls o (L1 ++ L2)).
Proof.
  intros Hsz [Hok HB] Ht Ho HL.
  assert (Hp : B !! p = Some o) by (apply HB; [done|]; rewrite HL; apply elem_of_app; right; by left).
  pose proof Ht as [Hti _]. destruct (Hti p o Hp) as (_ & ? & _ & ?). pose proof (pow2_pos o ltac:(lia)).
  assert (Hr : in_ram s p = true) by (apply in_ram_page; [done|lia]).
  destruct (lists_remove s Ls o L1 p L2 Hok Ho HL Hr) as (Hok' & _ & _ & _ & _ & Hnx).
  split_and!; [done|done|done|]. split; [done|]. intros o' q Ho'. rewrite lookup_delete_Some.
  destruct Hok as (_ & Hd & _). destruct (Hd o Ho) as [_ Hnd]. rewrite HL in Hnd.
  apply NoDup_app in Hnd as (_ & Hx & [Hp2 _]%NoDup_cons).
  destruct (decide (o' = o)) as [->|Hne].
  - rewrite upd_eq, <- HB, HL, !elem_of_app, elem_of_cons by done. split.
    + intros [Hq|Hq]; (split; [intros <-|naive_solver]); [|done]. apply (Hx p Hq). by left.
    + intros [Hne [?|[?|?]]]; naive_solver.
  - rewrite upd_ne, HB by done. split; [|by intros [_ ?]]. intros Hq. split; [|done].
    intros <-. rewrite Hp in Hq. by injection Hq as ->.
Qed.

Lemma links_remove s B p o :
  sizes s -> links s B -> tiling (total_pages s) B -> B !! p = Some o ->
  let s' := buddy_list_remove p o s in
  links s' (delete p B) /\ same_rest s s' /\ bitmap s' = bitmap s /\ buddy_meta s' = buddy_meta s /\
  nodes_kept s s' B.
Proof.
  intros Hsz (Ls & Hok & HB) Ht Hp s'. pose proof Ht as [Hti _]. destruct (Hti p o Hp) as (Ho & _).
  pose proof (proj2 (HB o p Ho) Hp) as Hin. apply list_elem_of_split in Hin as (L1 & L2 & HL).
  destruct (lists_of_remove s B Ls o L1 p L2) as (_ & _ & Hr & Hls); [done|by split|done|done|done|].
  destruct (lists_remove s Ls o L1 p L2 Hok Ho HL Hr) as (_ & Hs & Hbm & Hm & Hn & _).
  split_and!; [by eexists|done|done|done|].
  intros x Hx. apply Hn. intros o' Ho' Hin. apply HB in Hin; [|done]. by rewrite Hx in Hin.
Qed.

Lemma push_fields p o s :
  length (buddy_heads s) = 10%nat -> 0 <= o <= 9 -> head s o <> Some p ->
  exists bm, for_pages clear_bit p (2 ^ o) s = set_bitmap bm s /\
    length bm = length (bitmap s) /\
    buddy_list_push p o s = set_bitmap bm (set_nodes
      (link_prev (head s o) (Some p) (<[p := mkNode None (head s o)]> (nodes s)))
      (set_head o (Some p) s)).
Proof.
  intros Hl Ho Hne. destruct (for_pages_rest clear_bit p (2 ^ o) s clear_bit_rest) as (bm & He & Hbm).
  exists bm. split; [done|]. split; [done|]. unfold buddy_list_push. rewrite He.
  assert (head (set_bitmap bm s) o = head s o) as -> by by destruct s.
  destruct (head s o) as [h|] eqn:E; [|by destruct s].
  unfold set_prev, put_node, node_at, link_prev. by destruct s.
Qed.

Lemma links_push s B p o :
  links s B -> 0 <= o <= 9 -> B !! p = None ->
  let s' := buddy_list_push p o s in
  links s' (<[p := o]> B) /\ same_rest s s' /\ length (bitmap s') = length (bitmap s) /\
  (forall x, test_bit s' x = test_bit (for_pages clear_bit p (2 ^ o) s) x) /\
  buddy_meta s' = buddy_meta s /\ nodes_kept s s' (<[p := o]> B).
Proof.
  intros (Ls & (Hl & Hd & Hu) & HB) Ho Hp s'. pose proof (Hd o Ho) as [[lst Hdll] Hnd].
  assert (HpL : forall o', 0 <= o' <= 9 -> p ∉ Ls o') by (intros o' Ho' Hin; apply HB in Hin; [|done]; by rewrite Hp in Hin).
  assert (Hhead : forall h, head s o = Some h -> h ∈ Ls o).
  { intros h Hh. rewrite Hh in Hdll. destruct (Ls o) as [|q L]; [by destruct Hdll|]. destruct Hdll as [[= ->] _]. by left. }
  assert (Hne : head s o <> Some p) by (intros Hh; by apply (HpL o Ho), Hhead).
  destruct (push_fields p o s Hl Ho Hne) as (bm & He & Hbm & Hpush). subst s'. rewrite Hpush.
  set (N' := link_prev (head s o) (Some p) (<[p := mkNode None (head s o)]> (nodes s))).
  assert (HN : forall x, x <> p -> x ∉ Ls o -> N' !! x = nodes s !! x).
  { intros x Hx HxL. unfold N'. destruct (head s o) as [h|] eqn:E; cbn [link_prev].
    - rewrite lookup_insert_ne by (intros <-; by apply HxL, Hhead). by rewrite lookup_insert_ne.
    - by rewrite lookup_insert_ne. }
  assert (Hdll' : dll N' (Some p) (p :: Ls o)).
  { unfold N'. destruct (Ls o) as [|h L] eqn:EL.
    - destruct Hdll as [-> _]. exists (Some p). split; [done|]. exists None. cbn. by rewrite lookup_insert_eq.
    - pose proof Hdll as (Hh & n & Hn & HLs). rewrite Hh. cbn [link_prev].
      assert (h <> p) as Hhp by (intros ->; apply (HpL o Ho); rewrite EL; by left).
      exists lst. split; [done|]. exists (Some h). split; [by rewrite lookup_insert_ne, lookup_insert_eq|].
      rewrite (lookup_insert_ne _ p h) by done. rewrite Hn. cbn [default].
      apply NoDup_cons in Hnd as [Hh2 _].
      apply (dseg_set_prev _ None _ (Some h) h L lst None (mkNode None n)); [|done|by rewrite lookup_insert_ne].
      rewrite <- Hh. eapply dseg_frame; [|exact Hdll]. intros x Hx. rewrite lookup_insert_ne; [done|].
      intros <-. apply (HpL o Ho). by rewrite EL. }
  assert (Hh : forall o', 0 <= o' <= 9 -> head (set_bitmap bm (set_nodes N' (set_head o (Some p) s))) o' =
                 if decide (o' = o) then Some p else head s o').
  { intros o' Ho'. rewrite <- (head_set_head s o o' (Some p)) by done. by destruct s. }
  split; [|split_and!].
  - exists (upd Ls o (p :: Ls o)). split; [split_and!|].
    + destruct s. cbn in *. by rewrite length_insert.
    + intros o' Ho'. rewrite Hh by done.
      assert (nodes (set_bitmap bm (set_nodes N' (set_head o (Some p) s))) = N') as -> by by destruct s.
      destruct (decide (o' = o)) as [->|Hneo].
      * rewrite upd_eq. split; [done|]. apply NoDup_cons. split; [by apply HpL|done].
      * rewrite upd_ne by done. destruct (Hd o' Ho') as [[l' Hl'] ?]. split; [|done]. exists l'.
        eapply dseg_frame; [|exact Hl']. intros x Hx. apply HN; [intros ->; by apply (HpL o' Ho')|].
        intros Hin. apply Hneo. by apply (Hu o' o x).
    + intros o1 o2 x H1 H2. unfold upd.
      destruct (decide (o1 = o)) as [->|], (decide (o2 = o)) as [->|]; [done| | |by apply Hu].
      * intros [->|Hx]%elem_of_cons Hx2; [by destruct (HpL o2 H2)|by apply (Hu o o2 x)].
      * intros Hx1 [->|Hx]%elem_of_cons; [by destruct (HpL o1 H1)|by apply (Hu o1 o x)].
    + intros o' q Ho'. unfold upd. destruct (decide (o' = o)) as [->|Hneo].
      * rewrite elem_of_cons, HB by done. rewrite lookup_insert_Some. naive_solver.
      * rewrite HB by done. rewrite lookup_insert_Some. naive_solver.
  - unfold same_rest, set_head. by destruct s.
  - by destruct s.
  - intros x. rewrite He. by destruct s.
  - by destruct s.
  - intros x Hx. apply lookup_insert_None in Hx as [Hx Hxp].
    assert (nodes (set_bitmap bm (set_nodes N' (set_head o (Some p) s))) = N') as -> by by destruct s.
    apply HN; [done|]. intros Hin. apply HB in Hin; [|done]. by rewrite Hx in Hin.
Qed.

#[global] Instance in_block_dec p o x : Decision (in_block p o x).
Proof. unfold in_block. apply _. Defined.

(** What an operation on the pool leaves alone: the fields that are not the
    pool's, and the contents of the pages that are free neither before nor
    after. *)
Definition kept (s s' : PhysicalMemoryManager) (B B' : gmap Z Z) : Prop :=
  same_rest s s' /\ length (bitmap s') = length (bitmap s) /\
  forall x, ~ covers B x -> ~ covers B' x -> nodes s' !! x = nodes s !! x.

Lemma kept_total s s' B B' : kept s s' B B' -> total_pages s' = total_pages s.
Proof. intros [H _]. apply (same_rest_fields _ _ H). Qed.

Lemma kept_sizes s s' B B' : kept s s' B B' -> sizes s -> sizes s'.
Proof.
  intros (H & Hb & _) Hs. destruct (same_rest_fields _ _ H) as (Hm & Ht & _). unfold sizes in *. by rewrite Hm, Ht, Hb.
Qed.

Lemma kept_trans s1 s2 s3 B1 B2 B3 :
  kept s1 s2 B1 B2 -> kept s2 s3 B2 B3 -> (forall x, covers B2 x -> covers B1 x \/ covers B3 x) -> kept s1 s3 B1 B3.
Proof.
  intros (H1 & Hb1 & Hn1) (H2 & Hb2 & Hn2) Hc. split_and!; [by eapply same_rest_trans|congruence|].
  intros x Hx1 Hx3. assert (~ covers B2 x) by (intros [?|?]%Hc; done). by rewrite Hn2, Hn1.
Qed.

Lemma kept_refl s B : kept s s B B.
Proof. split_and!; [apply same_rest_refl|done|done]. Qed.

Lemma covers_first B p o total : tiling total B -> B !! p = Some o -> covers B p.
Proof. intros [H _] Hp. exists p, o. split; [done|]. apply in_block_first. apply H in Hp. lia. Qed.

Lemma meta_write_rest i v s : same_rest s (meta_write i v s) /\ bitmap (meta_write i v s) = bitmap s /\
  nodes (meta_write i v s) = nodes s /\ total_pages (meta_write i v s) = total_pages s.
Proof. unfold same_rest, meta_write. by destruct s. Qed.

Lemma test_bit_bitmap s s' x : bitmap s' = bitmap s -> test_bit s' x = test_bit s x.
Proof. unfold test_bit, bitmap_word. by intros ->. Qed.

Lemma pool_take s B p o :
  pool s B -> B !! p = Some o ->
  let s' := meta_write p BUDDY_ALLOCATED (buddy_list_remove p o s) in
  pool s' (delete p B) /\ kept s s' B (delete p B) /\ bitmap s' = bitmap s.
Proof.
  intros (Hsz & Hl & Hm & Ht) Hp s'.
  destruct (links_remove s B p o Hsz Hl Ht Hp) as (Hl' & Hs & Hbm & Hme & Hn).
  set (s1 := buddy_list_remove p o s) in *. destruct (meta_write_rest p BUDDY_ALLOCATED s1) as (Hs2 & Hb2 & Hn2 & Ht2).
  fold s' in Hs2, Hb2, Hn2, Ht2.
  pose proof (same_rest_fields _ _ Hs) as (_ & Ht1 & _). pose proof Ht as [Hti _].
  pose proof (Hti p o Hp) as (? & ? & _ & ?). pose proof (pow2_pos o ltac:(lia)).
  assert (Hk : kept s s' B (delete p B)).
  { split_and!; [by eapply same_rest_trans|congruence|]. intros x Hx _. rewrite Hn2. apply Hn.
    destruct (B !! x) as [o'|] eqn:E; [|done]. destruct Hx. by eapply covers_first. }
  split; [|split; [done|congruence]]. split_and!.
  - by eapply kept_sizes.
  - by apply links_meta_write.
  - apply (metas_write s1 B).
    + by apply (metas_same s).
    + rewrite Ht1. lia.
    + by rewrite lookup_delete_eq.
    + intros x Hx. by rewrite lookup_delete_ne.
  - rewrite Ht2, Ht1. by apply tiling_delete.
Qed.

Lemma pool_give_push s s1 B p o :
  sizes s -> links s1 B -> metas s1 (<[p := o]> B) -> tiling (total_pages s) B -> kept s s1 B B ->
  loose (total_pages s) B p o ->
  let s' := buddy_list_push p o s1 in
  pool s' (<[p := o]> B) /\ kept s s' B (<[p := o]> B) /\
  (forall x, 0 <= x -> test_bit s' x = test_bit s1 x && negb (bool_decide (in_block p o x))).
Proof.
  intros Hsz Hl Hm Ht Hk Hlo s'. pose proof Hlo as (Ho & Hp & _ & Hpt & _).
  pose proof (loose_None _ _ _ _ Ht Hlo) as HB. pose proof (pow2_pos o ltac:(lia)).
  destruct (links_push s1 B p o Hl Ho HB) as (Hl' & Hs & Hbm & Hte & Hme & Hn). fold s' in Hl', Hs, Hbm, Hte, Hme, Hn.
  assert (Hk' : kept s1 s' B (<[p := o]> B)).
  { split_and!; [done|done|]. intros x _ Hx. apply Hn.
    destruct (<[p := o]> B !! x) as [o'|] eqn:E; [|done]. destruct Hx.
    eapply covers_first; [|exact E]. by apply tiling_insert. }
  assert (Hk2 : kept s s' B (<[p := o]> B)) by (eapply kept_trans; [exact Hk|exact Hk'|]; by left).
  split; [|split; [done|]].
  - split_and!; [by eapply kept_sizes|done| |].
    + apply (metas_same s1); [done|apply (same_rest_fields _ _ Hs)|done].
    + rewrite (kept_total _ _ _ _ Hk2). by apply tiling_insert.
  - intros x Hx. rewrite Hte, test_clear_pages by done. by do 2 f_equal.
Qed.

Lemma pool_give s B p o :
  pool s B -> loose (total_pages s) B p o ->
  let s' := buddy_list_push p o (meta_write p o s) in
  pool s' (<[p := o]> B) /\ kept s s' B (<[p := o]> B) /\
  (forall x, 0 <= x -> test_bit s' x = test_bit s x && negb (bool_decide (in_block p o x))).
Proof.
  intros (Hsz & Hl & Hm & Ht) Hlo s'. pose proof Hlo as (Ho & Hp & _ & Hpt & _). pose proof (pow2_pos o ltac:(lia)).
  destruct (meta_write_rest p o s) as (Hs & Hb & Hn & Htt).
  destruct (pool_give_push s (meta_write p o s) B p o) as (? & ? & Hte); [done|by apply links_meta_write| |done| |done|].
  - apply (metas_write s B); [done|lia|by rewrite lookup_insert_eq|]. intros x Hx. by rewrite lookup_insert_ne.
  - split_and!; [done|congruence|]. intros x _ _. by rewrite Hn.
  - split; [done|]. split; [done|]. intros x Hx. rewrite Hte by done. f_equal. by apply test_bit_bitmap.
Qed.

(** The split writes the metadata after linking. *)
Lemma push_meta_commute s p o i v :
  buddy_list_push p o (meta_write i v s) = meta_write i v (buddy_list_push p o s).
Proof.
  unfold buddy_list_push. destruct (for_pages_rest clear_bit p (2 ^ o) s clear_bit_rest) as (bm & He & _).
  assert (for_pages clear_bit p (2 ^ o) (meta_write i v s) = meta_write i v (for_pages clear_bit p (2 ^ o) s)) as ->.
  { unfold for_pages. generalize (seqZ p (2 ^ o)). intros l. clear. revert s.
    induction l as [|b l IH]; intros s; [done|]. cbn [fold_left]. rewrite <- IH. f_equal.
    unfold clear_bit, meta_write, bitmap_word. destruct s. cbn. by case_match. }
  rewrite He. unfold meta_write, head, put_node, set_prev, put_node, node_at, set_head. destruct s. cbn.
  by case_match.
Qed.

(** *** Merging *)
Lemma buddy_cases p o :
  0 <= o -> 0 <= p -> p mod 2 ^ o = 0 ->
  (Z.lxor p (2 ^ o) = p + 2 ^ o /\ p mod 2 ^ (o + 1) = 0) \/
  (Z.lxor p (2 ^ o) = p - 2 ^ o /\ 0 <= p - 2 ^ o /\ (p - 2 ^ o) mod 2 ^ (o + 1) = 0).
Proof.
  intros Ho Hp Hm. pose proof (pow2_pos o Ho). apply Z.mod_divide in Hm as [k ->]; [|lia].
  assert (0 <= k) by nia.
  assert (E : Z.lxor (k * 2 ^ o) (2 ^ o) = Z.lxor k 1 * 2 ^ o).
  { rewrite <- (Z.mul_1_l (2 ^ o)) at 2. rewrite <- !Z.shiftl_mul_pow2 by done. by rewrite Z.shiftl_lxor. }
  rewrite E, Z.pow_add_r, Z.pow_1_r by lia.
  destruct (Z.Even_or_Odd k) as [[j ->]|[j ->]].
  - left. assert (Z.lxor (2 * j) 1 = 2 * j + 1) as ->.
    { rewrite Z.lxor_comm. destruct j as [|j|j]; [done|done|lia]. }
    split; [lia|]. replace (2 * j * 2 ^ o) with (j * (2 ^ o * 2)) by lia. apply Z.mod_mul. lia.
  - right. assert (Z.lxor (2 * j + 1) 1 = 2 * j) as ->.
    { rewrite Z.lxor_comm. destruct j as [|j|j]; [done|done|lia]. }
    split; [lia|]. replace ((2 * j + 1) * 2 ^ o - 2 ^ o) with (j * (2 ^ o * 2)) by lia.
    split; [nia|]. apply Z.mod_mul. lia.
Qed.

(** The two halves of a block. *)
Lemma in_block_halves p o x : 0 <= o -> in_block p (o + 1) x <-> in_block p o x \/ in_block (p + 2 ^ o) o x.
Proof. intros Ho. unfold in_block. rewrite Z.pow_add_r, Z.pow_1_r by lia. pose proof (pow2_pos o Ho). lia. Qed.

Lemma merge_step total B p o :
  tiling total B -> loose total B p o -> o < 9 -> B !! Z.lxor p (2 ^ o) = Some o ->
  let b := Z.lxor p (2 ^ o) in
  loose total (delete b B) (Z.min p b) (o + 1) /\
  (forall x, in_block (Z.min p b) (o + 1) x <-> in_block p o x \/ in_block b o x).
Proof.
  intros Ht (Ho & Hp & Hm & Hpt & Hd) Ho9 Hb b. pose proof (pow2_pos o ltac:(lia)). pose proof Ht as [Ht1 _].
  destruct (Ht1 _ _ Hb) as (_ & Hb0 & _ & Hbt).
  assert (Hin : forall x, in_block (Z.min p b) (o + 1) x <-> in_block p o x \/ in_block b o x).
  { intros x. rewrite in_block_halves by lia. subst b.
    destruct (buddy_cases p o ltac:(lia) Hp Hm) as [[-> _]|[-> _]]; unfold in_block; lia. }
  split; [|done]. split_and!; try lia.
  - subst b. destruct (buddy_cases p o ltac:(lia) Hp Hm) as [[-> ?]|(-> & _ & ?)].
    + by rewrite Z.min_l by lia.
    + by rewrite Z.min_r by lia.
  - rewrite Z.pow_add_r, Z.pow_1_r by lia. subst b.
    destruct (buddy_cases p o ltac:(lia) Hp Hm) as [[E _]|(E & _ & _)]; rewrite E in *; lia.
  - intros x Hx Hc. eapply covers_delete in Hc; [|done|exact Hb]. destruct Hc as [Hc Hnb].
    apply Hin in Hx as [Hx|Hx]; [by apply (Hd x)|done].
Qed.

Lemma merge_loop_spec fuel limit p o s B :
  pool s B -> loose (total_pages s) B p o -> p + 2 ^ o <= limit ->
  exists p' o' s' B', merge_loop fuel p o limit s = (p', o', s') /\
    pool s' B' /\ loose (total_pages s) B' p' o' /\ p' + 2 ^ o' <= limit /\ kept s s' B B' /\ bitmap s' = bitmap s /\ B' ⊆ B /\
    p' <= p /\ p + 2 ^ o <= p' + 2 ^ o' /\
    (forall x, covers B' x \/ in_block p' o' x <-> covers B x \/ in_block p o x).
Proof.
  revert p o s B. induction fuel as [|fuel IH]; intros p o s B Hpool Hlo Hlim; cbn [merge_loop].
  { exists p, o, s, B. split_and!; try done; try apply kept_refl; lia. }
  assert (Hstop : exists p' o' s' B', (p, o, s) = (p', o', s') /\
    pool s' B' /\ loose (total_pages s) B' p' o' /\ p' + 2 ^ o' <= limit /\ kept s s' B B' /\ bitmap s' = bitmap s /\ B' ⊆ B /\
    p' <= p /\ p + 2 ^ o <= p' + 2 ^ o' /\
    (forall x, covers B' x \/ in_block p' o' x <-> covers B x \/ in_block p o x)).
  { exists p, o, s, B. split_and!; try done; try apply kept_refl; lia. }
  destruct (Z.ltb_spec o MAX_BUDDY_ORDER) as [Ho9|]; [|done].
  destruct (Z.leb_spec (Z.min (total_pages s) limit) (Z.lxor p (2 ^ o))) as [|Hb]; [done|].
  destruct (Z.ltb_spec limit (p + 2 ^ (o + 1))) as [|Hl]; [done|].
  destruct (MAX_BUDDY_ORDER <? _) eqn:E1; [done|]. destruct (_ =? o) eqn:E2; [|done]. cbn [negb].
  clear Hstop. apply Z.eqb_eq in E2. pose proof Hpool as (_ & _ & Hm & Ht). pose proof Hlo as (Ho & Hp & Hmod & _).
  pose proof (pow2_pos o ltac:(lia)).
  assert (Hb0 : 0 <= Z.lxor p (2 ^ o)) by (apply Z.lxor_nonneg; lia).
  rewrite (metas_read s B) in E2 by (done || lia).
  assert (HB : B !! Z.lxor p (2 ^ o) = Some o).
  { destruct (B !! Z.lxor p (2 ^ o)) as [o'|]; cbn in E2; [by f_equal|]. unfold MAX_BUDDY_ORDER in *. lia. }
  destruct (merge_step _ _ _ _ Ht Hlo Ho9 HB) as [Hlo' Hin].
  destruct (pool_take s B _ o Hpool HB) as (Hpool1 & Hk1 & Hbm1).
  set (b := Z.lxor p (2 ^ o)) in *. set (s1 := meta_write b BUDDY_ALLOCATED (buddy_list_remove b o s)) in *.
  pose proof (kept_total _ _ _ _ Hk1) as Ht1.
  destruct (IH (Z.min p b) (o + 1) s1 (delete b B) Hpool1) as
    (p' & o' & s' & B' & -> & Hpool' & Hlo2 & Hlim' & Hk2 & Hbm2 & Hsub & Hle1 & Hle2 & Hcov); [by rewrite Ht1|lia|].
  rewrite Ht1 in Hlo2.
  assert (Hsub' : B' ⊆ B) by (etransitivity; [done|apply delete_subseteq]).
  assert (2 ^ (o + 1) = 2 * 2 ^ o) by (rewrite Z.pow_add_r, Z.pow_1_r by lia; lia).
  exists p', o', s', B'. split_and!; try done; try lia.
  - eapply kept_trans; [done..|]. intros x Hx. left. by eapply covers_delete in Hx as [? _].
  - congruence.
  - assert (p + 2 ^ o <= Z.min p b + 2 ^ (o + 1)); [|lia].
    subst b. destruct (buddy_cases p o ltac:(lia) Hp Hmod) as [[-> _]|(-> & _ & _)]; lia.
  - intros x. rewrite Hcov, Hin. rewrite (covers_delete _ B b o x Ht HB).
    assert (in_block b o x -> covers B x) by (intros; by exists b, o).
    destruct (decide (in_block b o x)); naive_solver.
Qed.

(** What an operation that gives the pages of [P] to the pool does to the
    bitmap: it clears [P] and touches no page outside the new pool [B']. *)
Definition bits_given (s s' : PhysicalMemoryManager) (P : Z -> Prop) (B' : gmap Z Z) : Prop :=
  forall x, 0 <= x -> (P x -> test_bit s' x = false) /\ (test_bit s x = false -> test_bit s' x = false) /\
    (~ covers B' x -> test_bit s' x = test_bit s x).

(** An operation that gives [P] to the pool. *)
Definition given (s s' : PhysicalMemoryManager) (B B' : gmap Z Z) (P : Z -> Prop) : Prop :=
  pool s' B' /\ kept s s' B B' /\ bits_given s s' P B' /\ (forall x, covers B' x <-> covers B x \/ P x).

Lemma given_nothing s B (P : Z -> Prop) : pool s B -> (forall x, ~ P x) -> given s s B B P.
Proof. intros Hp HP. split_and!; [done|apply kept_refl|intros x _; naive_solver|naive_solver]. Qed.

Lemma given_trans s1 s2 s3 B1 B2 B3 P Q :
  given s1 s2 B1 B2 P -> given s2 s3 B2 B3 Q -> given s1 s3 B1 B3 (fun x => P x \/ Q x).
Proof.
  intros (Hp1 & Hk1 & Hb1 & Hc1) (Hp2 & Hk2 & Hb2 & Hc2). split_and!; [done| | |].
  - eapply kept_trans; [done..|]. intros x Hx. right. apply Hc2. by left.
  - intros x Hx. destruct (Hb1 x Hx) as (? & ? & H1), (Hb2 x Hx) as (? & ? & H2).
    split_and!; [naive_solver|naive_solver|]. intros Hn. rewrite H2 by done. apply H1. intros ?. apply Hn, Hc2. by left.
  - intros x. rewrite Hc2, Hc1. tauto.
Qed.

Lemma given_ext s s' B B' (P Q : Z -> Prop) : (forall x, P x <-> Q x) -> given s s' B B' P -> given s s' B B' Q.
Proof.
  intros HPQ (? & ? & Hb & Hc). split_and!; [done|done| |].
  - intros x Hx. rewrite <- HPQ. by apply Hb.
  - intros x. by rewrite <- HPQ.
Qed.

Lemma given_total s s' B B' P : given s s' B B' P -> total_pages s' = total_pages s.
Proof. intros (_ & Hk & _). by eapply kept_total. Qed.

Lemma loose_intro total B p o :
  0 <= o <= 9 -> 0 <= p -> p mod 2 ^ o = 0 -> p + 2 ^ o <= total -> (forall x, p <= x < p + 2 ^ o -> ~ covers B x) ->
  loose total B p o.
Proof. intros. split_and!; try lia. done. Qed.

Lemma pool_give_given s B p o :
  pool s B -> loose (total_pages s) B p o ->
  given s (buddy_list_push p o (meta_write p o s)) B (<[p := o]> B) (in_block p o).
Proof.
  intros Hpool Hlo. destruct (pool_give s B p o Hpool Hlo) as (Hp & Hk & Ht).
  pose proof Hpool as (_ & _ & _ & Hti). pose proof (loose_None _ _ _ _ Hti Hlo) as HB.
  assert (Hc : forall x, covers (<[p := o]> B) x <-> covers B x \/ in_block p o x).
  { intros x. rewrite covers_insert by done. tauto. }
  split_and!; [done|done| |done]. intros x Hx. rewrite Ht by done. split_and!.
  - intros Hin. by rewrite bool_decide_true, andb_false_r.
  - by intros ->.
  - intros Hn. rewrite bool_decide_false; [by rewrite andb_true_r|]. intros ?. apply Hn, Hc. by right.
Qed.

(** Merging, then linking the result. *)
Lemma buddy_put_spec p o limit s B :
  pool s B -> loose (total_pages s) B p o -> p + 2 ^ o <= limit ->
  exists p' o' s1 B', buddy_try_merge p o limit s = (p', o', s1) /\
    p' <= p /\ p + 2 ^ o <= p' + 2 ^ o' <= limit /\ 0 <= o' /\ (forall x, in_block p' o' x -> covers B' x) /\
    given s (buddy_list_push p' o' s1) B B' (in_block p o).
Proof.
  intros Hpool Hlo Hlim. pose proof Hpool as (_ & _ & (m & Hm & _) & _). unfold buddy_try_merge. rewrite Hm.
  destruct (merge_loop_spec (Z.to_nat (MAX_BUDDY_ORDER - o)) limit p o s B Hpool Hlo Hlim) as
    (p' & o' & s1 & B1 & -> & Hpool1 & Hlo1 & Hlim1 & Hk1 & Hb1 & Hsub & Hle1 & Hle2 & Hcov).
  rewrite <- (kept_total _ _ _ _ Hk1) in Hlo1.
  destruct (pool_give_given s1 B1 p' o' Hpool1 Hlo1) as (Hpool2 & Hk2 & Hb2 & Hc2).
  exists p', o', (meta_write p' o' s1), (<[p' := o']> B1). split; [done|]. split; [done|]. split; [lia|].
  split; [apply Hlo1|]. split; [intros x Hx; apply Hc2; by right|].
  assert (Hc : forall x, covers (<[p' := o']> B1) x <-> covers B x \/ in_block p o x).
  { intros x. by rewrite Hc2, Hcov. }
  split_and!; [done| | |done].
  - eapply kept_trans; [done..|]. intros x Hx. right. apply Hc2. by left.
  - intros x Hx. destruct (Hb2 x Hx) as (H1 & H2 & H3). split_and!.
    + intros Hin. apply H1. unfold in_block in *. lia.
    + intros Hf. apply H2. by rewrite <- Hf; apply test_bit_bitmap.
    + intros Hn. rewrite H3 by done. by apply test_bit_bitmap.
Qed.

Lemma fit_order_spec n cur remaining :
  1 <= remaining -> let o := Z.of_nat (fit_order n cur remaining) in
  0 <= o <= Z.of_nat n /\ cur mod 2 ^ o = 0 /\ 2 ^ o <= remaining.
Proof.
  intros Hr. induction n as [|n IH]; cbn [fit_order].
  - cbn. rewrite Z.mod_1_r. lia.
  - destruct (_ && _) eqn:E; [|cbn zeta in *; lia].
    apply andb_true_iff in E as [E1 E2]. apply Z.eqb_eq in E1. apply Z.leb_le in E2. lia.
Qed.

Lemma insert_range_loop_spec fuel cur end_pfn s B :
  pool s B -> 0 <= cur <= end_pfn -> end_pfn <= total_pages s -> (Z.to_nat (end_pfn - cur) <= fuel)%nat ->
  (forall x, cur <= x < end_pfn -> ~ covers B x) ->
  exists B', given s (insert_range_loop fuel cur end_pfn s) B B' (fun x => cur <= x < end_pfn).
Proof.
  revert cur s B. induction fuel as [|fuel IH]; intros cur s B Hpool Hcur Hend Hf Hfree; cbn [insert_range_loop].
  { exists B. apply given_nothing; [done|lia]. }
  destruct (Z.ltb_spec cur end_pfn) as [Hlt|]; [|exists B; apply given_nothing; [done|lia]].
  set (n := Z.to_nat (Z.min (Z.log2 (end_pfn - cur)) MAX_BUDDY_ORDER)).
  destruct (fit_order_spec n cur (end_pfn - cur)) as (Ho & Hmod & Hle); [lia|]. cbn zeta in *.
  set (o := Z.of_nat (fit_order n cur (end_pfn - cur))) in *.
  assert (Z.of_nat n <= 9) by (unfold n, MAX_BUDDY_ORDER; pose proof (Z.log2_nonneg (end_pfn - cur)); lia).
  pose proof (pow2_pos o ltac:(lia)).
  destruct (buddy_put_spec cur o end_pfn s B Hpool) as (p' & o' & s1 & B1 & -> & Hle1 & [Hle2 Hle3] & Ho' & Hin & Hg);
    [apply loose_intro; try lia; intros; apply Hfree; lia|lia|].
  pose proof Hg as (Hpool1 & _ & _ & Hc1). pose proof (given_total _ _ _ _ _ Hg) as Ht1.
  set (s2 := buddy_list_push p' o' s1) in *.
  (* the block cannot have grown upwards: those pages are not in the pool *)
  destruct (IH (p' + 2 ^ o') s2 B1 Hpool1) as [B2 Hg2]; [lia|lia|lia| |].
  { intros x Hx [Hc|Hc]%Hc1; [apply (Hfree x); [lia|done]|]. unfold in_block in Hc. lia. }
  exists B2. destruct (decide (p' + 2 ^ o' = cur + 2 ^ o)) as [He|Hne].
  - eapply given_ext; [|eapply given_trans; [exact Hg|exact Hg2]]. intros x. unfold in_block. cbn. lia.
  - exfalso. pose proof (pow2_pos o' Ho'). destruct (Hc1 (p' + 2 ^ o' - 1)) as [[Hc|Hc] _].
    + apply Hin. unfold in_block. lia.
    + by apply (Hfree (p' + 2 ^ o' - 1)); [lia|].
    + unfold in_block in Hc. lia.
Qed.

(** *** Allocation *)
Lemma head_in s B o p :
  links s B -> 0 <= o <= 9 -> head s o = Some p -> B !! p = Some o /\ prev (node_at s p) = None.
Proof.
  intros (Ls & (_ & Hd & _) & HB) Ho Hh. destruct (Hd o Ho) as [[lst Hl] _]. rewrite Hh in Hl.
  destruct (Ls o) as [|q L] eqn:E; [by destruct Hl|]. destruct Hl as ([= <-] & n & Hn & _).
  split; [apply HB; [done|]; rewrite E; by left|]. by rewrite (node_at_eq _ _ _ Hn).
Qed.

Lemma head_none s B o : links s B -> 0 <= o <= 9 -> head s o = None -> forall p, B !! p <> Some o.
Proof.
  intros (Ls & (_ & Hd & _) & HB) Ho Hh p Hp. apply HB in Hp; [|done]. destruct (Hd o Ho) as [[lst Hl] _].
  rewrite Hh in Hl. destruct (Ls o) as [|q L]; [by apply not_elem_of_nil in Hp|by destruct Hl].
Qed.

(** Taking the head is unlinking it. *)
Lemma pop_is_remove s B o p :
  pool s B -> 0 <= o <= 9 -> head s o = Some p ->
  B !! p = Some o /\ buddy_list_pop o s = (Some p, buddy_list_remove p o s).
Proof.
  intros (Hsz & Hl & _ & [Ht _]) Ho Hh. destruct (head_in s B o p Hl Ho Hh) as [HB Hpv]. split; [done|].
  pose proof (Ht p o HB) as (_ & ? & _ & ?). pose proof (pow2_pos o ltac:(lia)).
  unfold buddy_list_pop, buddy_list_remove. rewrite Hh, (in_ram_page s p) by (done || lia). cbn [negb]. by rewrite Hpv.
Qed.

(** An operation that takes [P] from the pool. *)
Definition taken (s s' : PhysicalMemoryManager) (B B' : gmap Z Z) (P : Z -> Prop) : Prop :=
  pool s' B' /\ kept s s' B B' /\
  (forall x, 0 <= x -> (test_bit s x = false -> test_bit s' x = false) /\
                       (~ covers B' x -> test_bit s' x = test_bit s x)) /\
  (forall x, covers B x <-> covers B' x \/ P x) /\ (forall x, P x -> ~ covers B' x).

Lemma taken_then_given s1 s2 s3 B1 B2 B3 P Q R :
  taken s1 s2 B1 B2 P -> given s2 s3 B2 B3 Q -> (forall x, P x <-> Q x \/ R x) -> (forall x, Q x -> ~ R x) ->
  taken s1 s3 B1 B3 R.
Proof.
  intros (Hp1 & Hk1 & Hb1 & Hc1 & Hd1) (Hp2 & Hk2 & Hb2 & Hc2) HP HQ. split_and!; [done| | | |].
  - eapply kept_trans; [done..|]. intros x Hx. right. apply Hc2. by left.
  - intros x Hx. destruct (Hb1 x Hx) as [? H1], (Hb2 x Hx) as (_ & ? & H2). split; [naive_solver|].
    intros Hn. rewrite H2 by done. apply H1. intros ?. apply Hn, Hc2. by left.
  - intros x. rewrite Hc1, Hc2, HP. tauto.
  - intros x HR [Hc|Hq]%Hc2; [apply (Hd1 x); [apply HP; by right|done]|by apply (HQ x)].
Qed.

Lemma pool_take_taken s B p o :
  pool s B -> B !! p = Some o ->
  let s' := meta_write p BUDDY_ALLOCATED (buddy_list_remove p o s) in
  taken s s' B (delete p B) (in_block p o).
Proof.
  intros Hpool HB s'. destruct (pool_take s B p o Hpool HB) as (Hp & Hk & Hb). fold s' in Hp, Hk, Hb.
  destruct Hpool as (_ & _ & _ & Ht). pose proof (fun x => covers_delete _ B p o x Ht HB) as Hc. split_and!; [done|done| | |].
  - intros x _. by rewrite (test_bit_bitmap s s' x Hb).
  - intros x. rewrite (Hc x). assert (in_block p o x -> covers B x) by (intros; by exists p, o).
    destruct (decide (in_block p o x)); naive_solver.
  - intros x Hx. rewrite (Hc x). tauto.
Qed.

(** The upper halves go back to the lists. *)
Lemma split_loop_spec n p a s B :
  pool s B -> loose (total_pages s) B p a -> Z.of_nat n <= a ->
  exists B', given s (split_loop n p a s) B B' (fun x => in_block p a x /\ ~ in_block p (a - Z.of_nat n) x).
Proof.
  revert a s B. induction n as [|n IH]; intros a s B Hpool Hlo Hn; cbn [split_loop].
  { exists B. apply given_nothing; [done|]. intros x. replace (a - Z.of_nat 0) with a by lia. tauto. }
  cbv zeta. set (b := p + 2 ^ (a - 1)).
  pose proof Hlo as (Ha & Hp & Hmod & Hpt & Hd). pose proof (pow2_pos (a - 1) ltac:(lia)).
  assert (Ea : 2 ^ a = 2 * 2 ^ (a - 1)) by (rewrite <- Z.pow_succ_r by lia; f_equal; lia).
  assert (Hmod' : p mod 2 ^ (a - 1) = 0).
  { apply Z.mod_divide; [lia|]. apply Z.mod_divide in Hmod; [|lia]. destruct Hmod as [k ->].
    exists (2 * k). rewrite Ea. lia. }
  assert (Hlob : loose (total_pages s) B b (a - 1)).
  { apply loose_intro; subst b; try lia.
    - rewrite <- Zplus_mod_idemp_r, Z_mod_same_full, Z.add_0_r. done.
    - intros x Hx. apply Hd. unfold in_block. lia. }
  rewrite <- push_meta_commute. pose proof (pool_give_given s B b (a - 1) Hpool Hlob) as Hg.
  pose proof Hg as (Hpool1 & _ & _ & Hc1). pose proof (given_total _ _ _ _ _ Hg) as Ht1.
  set (s1 := buddy_list_push _ _ _) in *.
  destruct (IH (a - 1) s1 (<[b := a - 1]> B) Hpool1) as [B2 Hg2]; [|lia|].
  { apply loose_intro; try lia. intros x Hx [Hc|Hc]%Hc1; [by apply (Hd x); [unfold in_block; lia|]|].
    unfold in_block, b in Hc. lia. }
  exists B2. eapply given_ext; [|eapply given_trans; [exact Hg|exact Hg2]]. intros x. cbn.
  replace (a - Z.of_nat (S n)) with (a - 1 - Z.of_nat n) by lia.
  pose proof (Z.pow_le_mono_r 2 (a - 1 - Z.of_nat n) (a - 1) ltac:(lia) ltac:(lia)).
  pose proof (pow2_pos (a - 1 - Z.of_nat n) ltac:(lia)).
  unfold in_block, b. lia.
Qed.

Lemma pool_meta_allocated s B p :
  pool s B -> 0 <= p < total_pages s -> B !! p = None ->
  let s' := meta_write p BUDDY_ALLOCATED s in pool s' B /\ same_rest s s' /\ bitmap s' = bitmap s /\ nodes s' = nodes s.
Proof.
  intros (Hsz & Hl & Hm & Ht) Hp HB s'. destruct (meta_write_rest p BUDDY_ALLOCATED s) as (Hs & Hb & Hn & Htt).
  fold s' in Hs, Hb, Hn, Htt. split; [|done]. assert (Hk : kept s s' B B).
  { split_and!; [done|congruence|]. intros x _ _. by rewrite Hn. }
  split_and!; [by eapply kept_sizes|by apply links_meta_write| |by rewrite Htt].
  apply (metas_write s B); [done|done|by rewrite HB|done].
Qed.

Lemma buddy_alloc_spec o s B :
  pool s B -> 0 <= o <= 9 ->
  match buddy_alloc o s with
  | (None, s') => s' = s /\ forall p a, B !! p = Some a -> a < o
  | (Some (p, o'), s') => o' = o /\ exists B', loose (total_pages s) B' p o /\ taken s s' B B' (in_block p o)
  end.
Proof.
  intros Hpool Ho. pose proof Hpool as (_ & Hl & (m & Hm & _) & Ht).
  unfold buddy_alloc, MAX_BUDDY_ORDER. rewrite (proj2 (Z.ltb_ge 9 o)) by lia.
  pose proof (find_first_spec (fun o => match head s o with Some _ => true | None => false end) (seqZ o (9 + 1 - o))) as Hf.
  destruct (find_first _ _) as [a|].
  - destruct Hf as [Ha%elem_of_seqZ Hf]. destruct (head s a) as [p|] eqn:Eh; [|done].
    destruct (pop_is_remove s B a p Hpool ltac:(lia) Eh) as [HB ->].
    assert (buddy_meta (buddy_list_remove p a s) = buddy_meta s) as Hme.
    { destruct Hpool as (Hsz & _ & _ & _). by apply (links_remove s B p a). }
    rewrite Hme, Hm. pose proof (pool_take_taken s B p a Hpool HB) as Htk. cbv zeta in Htk.
    set (s1 := meta_write p BUDDY_ALLOCATED (buddy_list_remove p a s)) in *.
    pose proof Htk as (Hpool1 & Hk1 & _ & Hc1 & Hd1). pose proof (kept_total _ _ _ _ Hk1) as Ht1.
    pose proof Ht as [Hti _]. destruct (Hti p a HB) as (Ha2 & Hp & Hmod & Hpt).
    destruct (split_loop_spec (Z.to_nat (a - o)) p a s1 (delete p B) Hpool1) as [B2 Hg].
    { rewrite Ht1. apply loose_intro; try lia. intros x Hx. by apply Hd1. }
    { lia. }
    rewrite Z2Nat.id in Hg by lia. replace (a - (a - o)) with o in Hg by lia.
    set (s2 := split_loop _ _ _ _) in *.
    pose proof (Z.pow_le_mono_r 2 o a ltac:(lia) ltac:(lia)). pose proof (pow2_pos o ltac:(lia)).
    assert (Htk2 : taken s s2 B B2 (in_block p o)).
    { eapply taken_then_given; [exact Htk|exact Hg| |]; cbn; unfold in_block; lia. }
    pose proof Htk2 as (Hpool2 & Hk2 & Hb2 & Hc2 & Hd2). pose proof (kept_total _ _ _ _ Hk2) as Ht2.
    assert (Hlo : loose (total_pages s) B2 p o).
    { apply loose_intro; try lia; [|intros x Hx; by apply Hd2].
      apply Z.mod_divide; [lia|]. apply Z.mod_divide in Hmod as [k ->]; [|lia].
      exists (k * 2 ^ (a - o)). rewrite <- Z.mul_assoc, <- Z.pow_add_r by lia. do 2 f_equal. lia. }
    split; [done|]. exists B2. split; [done|].
    destruct (pool_meta_allocated s2 B2 p Hpool2) as (Hpool3 & Hs3 & Hbm3 & Hn3).
    { rewrite Ht2. lia. }
    { eapply loose_None; [|exact Hlo]. rewrite <- Ht2. apply Hpool2. }
    split_and!; [done| | |done|done].
    + destruct Hk2 as (H1 & H2 & H3). split_and!; [by eapply same_rest_trans|congruence|].
      intros x. rewrite Hn3. apply H3.
    + intros x Hx. rewrite !(test_bit_bitmap s2 _ x Hbm3). by apply Hb2.
  - split; [done|]. intros p a HB. destruct (decide (a < o)); [done|]. exfalso.
    destruct Ht as [Hti _]. destruct (Hti p a HB) as (Ha & _).
    specialize (Hf a). rewrite elem_of_seqZ in Hf. specialize (Hf ltac:(lia)).
    destruct (head s a) eqn:Eh; [done|]. by apply (head_none s B a Hl Ha Eh p).
Qed.

End PmmPool.
