(* ===== verification/PmmSpec.v ===== *)
(** * What the page allocator promises (facts on framework/mm/pmm.rs)

    [ready s F]: lists, metadata, bitmap and counters all describe the set [F] of
    free pages.  Allocation, release, reservation of ranges and initialisation
    are stated on [F]; [pmm_step] is a history of calls by holders who write to
    their pages.  At the end, the properties and where orders are computed too
    small. *)
From S2P Require Import Prelude Pmm PmmPool.

Module PmmSpec.
Import Pmm PmmPool.

(** *** The set of free pages *)
Definition pages (p n : Z) : gset Z := list_to_set (seqZ p n).

Lemma elem_of_pages p n x : x ∈ pages p n <-> p <= x < p + n.
Proof. unfold pages. by rewrite elem_of_list_to_set, elem_of_seqZ. Qed.

Lemma size_pages p n : 0 <= n -> Z.of_nat (size (pages p n)) = n.
Proof. intros Hn. unfold pages. rewrite size_list_to_set by apply NoDup_seqZ. rewrite length_seqZ. lia. Qed.

(** The bitmap, the counters, the lists and the metadata describe the set [F]
    of free pages, which the free blocks [B] tile. *)
Definition describes (s : PhysicalMemoryManager) (B : gmap Z Z) (F : gset Z) : Prop :=
  pool s B /\ (forall x, x ∈ F <-> covers B x) /\
  (forall x, 0 <= x < total_pages s -> test_bit s x = negb (bool_decide (x ∈ F))) /\
  free_pages s = Z.of_nat (size F) /\ used_pages s = total_pages s - Z.of_nat (size F).

Definition ready (s : PhysicalMemoryManager) (F : gset Z) : Prop :=
  initialized s = true /\ buddy_ready s = true /\ exists B, describes s B F.

Lemma covers_range total B x : tiling total B -> covers B x -> 0 <= x < total.
Proof. intros [Ht _] (p & o & Hp & Hx). destruct (Ht p o Hp) as (? & ? & _ & ?). unfold in_block in Hx. lia. Qed.

Lemma describes_range s B F x : describes s B F -> x ∈ F -> 0 <= x < total_pages s.
Proof. intros ((_ & _ & _ & Ht) & HF & _) Hx%HF. by eapply covers_range. Qed.

Lemma describes_size s B F : describes s B F -> 0 <= Z.of_nat (size F) <= total_pages s.
Proof.
  intros H. split; [lia|]. pose proof H as ((((? & _) & _) & _) & _).
  rewrite <- (size_pages 0 (total_pages s)) by done. apply inj_le, subseteq_size.
  intros x Hx%(describes_range _ _ _ _ H). apply elem_of_pages. lia.
Qed.

Lemma pool_set_usage s B f u : pool s B -> pool (set_usage f u s) B.
Proof.
  intros (H1 & (Ls & HL & HB) & H3 & H4). destruct s. split_and!; try done.
  exists Ls. split; [exact HL|done].
Qed.

Lemma pool_set_counters s B a b c : pool s B -> pool (set_counters a b c s) B.
Proof.
  intros (H1 & (Ls & HL & HB) & H3 & H4). destruct s. split_and!; try done.
  exists Ls. split; [exact HL|done].
Qed.

Lemma ready_set_counters s F a b c : ready s F -> ready (set_counters a b c s) F.
Proof.
  intros (H1 & H2 & B & Hp & H3 & H4 & H5 & H6). split_and!; [by destruct s..|]. exists B.
  split_and!; [by apply pool_set_counters|done|by destruct s..].
Qed.

Lemma pool_set_bitmap s B bm :
  length bm = length (bitmap s) -> pool s B -> pool (set_bitmap bm s) B /\ kept s (set_bitmap bm s) B B.
Proof.
  intros Hl (H1 & H2 & H3 & H4).
  assert (Hk : kept s (set_bitmap bm s) B B).
  { split_and!; [by destruct s|by destruct s|]. intros x _ _. by destruct s. }
  split; [|done]. split_and!; [by eapply kept_sizes|by apply links_set_bitmap|by destruct s|by destruct s].
Qed.

(** Changing the free set by an operation on the pool, then the counters. *)
Lemma describes_intro s s' B B' F F' :
  describes s B F -> pool s' B' -> kept s s' B B' -> (forall x, x ∈ F' <-> covers B' x) ->
  (forall x, 0 <= x < total_pages s -> test_bit s' x = negb (bool_decide (x ∈ F'))) ->
  describes (set_usage (Z.of_nat (size F')) (total_pages s - Z.of_nat (size F')) s') B' F'.
Proof.
  intros H Hp Hk HF Hb. pose proof (kept_total _ _ _ _ Hk) as Ht. split_and!.
  - by apply pool_set_usage.
  - done.
  - intros x Hx. assert (total_pages (set_usage (Z.of_nat (size F')) (total_pages s - Z.of_nat (size F')) s') = total_pages s')
      as Heq by by destruct s'. rewrite Heq in Hx. rewrite <- Hb by lia. by apply test_bit_bitmap; destruct s'.
  - by destruct s'.
  - destruct s'. cbn in *. by rewrite Ht.
Qed.

Lemma stats_free_eq s s' B F n :
  describes s B F -> same_rest s s' -> 0 <= n -> Z.of_nat (size F) + n <= total_pages s ->
  stats_free n s' = set_usage (Z.of_nat (size F) + n) (total_pages s - (Z.of_nat (size F) + n)) s'.
Proof.
  intros H Hs Hn Hle. destruct (same_rest_fields _ _ Hs) as (_ & Ht & Hf & Hu & _).
  pose proof H as (((? & _) & _) & _ & _ & Hf0 & Hu0).
  unfold stats_free, sat_add_u64, sat_sub, U64_MAX. f_equal; lia.
Qed.

Lemma stats_alloc_eq s s' B F n :
  describes s B F -> same_rest s s' -> 0 <= n <= Z.of_nat (size F) ->
  stats_alloc n s' = set_usage (Z.of_nat (size F) - n) (total_pages s - (Z.of_nat (size F) - n)) s'.
Proof.
  intros H Hs Hn. destruct (same_rest_fields _ _ Hs) as (_ & Ht & Hf & Hu & _).
  pose proof (describes_size _ _ _ H).
  pose proof H as (((? & _) & _) & _ & _ & Hf0 & Hu0).
  unfold stats_alloc, sat_add_u64, sat_sub, U64_MAX. f_equal; lia.
Qed.

Lemma phys_to_page_to_phys s p : sizes s -> 0 <= p <= total_pages s -> phys_to_page (page_to_phys p) = p.
Proof.
  intros (Ht & _) Hp. unfold phys_to_page, page_to_phys, RAM_BASE, PAGE_SIZE.
  rewrite wrap_u64_small by (unfold u64, U64_MAX; lia). replace (0 + p * 4096 - 0) with (p * 4096) by lia. apply Z.div_mul. lia.
Qed.

Lemma for_pages_set_fields op start n s :
  (forall b s, exists bm, op b s = set_bitmap bm s /\ length bm = length (bitmap s)) ->
  same_rest s (for_pages op start n s) /\ initialized (for_pages op start n s) = initialized s /\
  buddy_ready (for_pages op start n s) = buddy_ready s.
Proof. intros Hop. destruct (for_pages_rest op start n s Hop) as (bm & -> & _). by destruct s. Qed.

(** Every branch of [do_alloc] once the allocator is ready. *)
Lemma do_alloc_spec o s F :
  ready s F -> 0 <= o <= 9 ->
  match do_alloc o s with
  | (Some a, s') => exists p, a = page_to_phys p /\ p mod 2 ^ o = 0 /\ pages p (2 ^ o) ⊆ F /\
      ready s' (F ∖ pages p (2 ^ o)) /\ total_pages s' = total_pages s /\
      (forall x, x ∉ F -> nodes s' !! x = nodes s !! x)
  | (None, s') => s' = s /\ (o = 0 -> F = ∅)
  end.
Proof.
  intros (Hi & Hr & B & Hd) Ho. pose proof Hd as (Hpool & HF & Hbits & Hfp & Hup).
  unfold do_alloc. rewrite Hi, Hr. cbn [negb].
  pose proof (buddy_alloc_spec o s B Hpool Ho) as Ha. destruct (buddy_alloc o s) as [[[p o']|] s1].
  2:{ destruct Ha as [-> Hno]. split; [done|]. intros ->. apply elem_of_equiv_empty_L. intros x (q & a & HB & _)%HF.
      apply Hno in HB as Ha. destruct Hpool as (_ & _ & _ & Ht & _). apply Ht in HB. lia. }
  destruct Ha as (-> & B1 & Hlo & Hpool1 & Hk1 & Hb1 & Hc1 & Hdj).
  pose proof Hlo as (_ & Hp & Hmod & Hpt & _). pose proof (pow2_pos o ltac:(lia)).
  pose proof (kept_total _ _ _ _ Hk1) as Ht1. pose proof (kept_sizes _ _ _ _ Hk1 (proj1 Hpool)) as Hsz1.
  destruct (for_pages_rest set_bit p (2 ^ o) s1 set_bit_rest) as (bm & Hs2 & Hbm).
  destruct (pool_set_bitmap s1 B1 bm Hbm Hpool1) as [Hpool2 Hk2]. rewrite <- Hs2 in Hpool2, Hk2.
  set (s2 := for_pages set_bit p (2 ^ o) s1) in *.
  assert (Hk : kept s s2 B B1) by (eapply kept_trans; [done..|]; by right).
  assert (Hsub : pages p (2 ^ o) ⊆ F).
  { intros x Hx%elem_of_pages. apply HF, Hc1. by right. }
  assert (HF' : forall x, x ∈ F ∖ pages p (2 ^ o) <-> covers B1 x).
  { intros x. rewrite elem_of_difference, elem_of_pages, HF, Hc1. specialize (Hdj x). unfold in_block in *. tauto. }
  assert (Hsz : Z.of_nat (size (F ∖ pages p (2 ^ o))) = Z.of_nat (size F) - 2 ^ o).
  { rewrite size_difference by done. pose proof (subseteq_size _ _ Hsub). pose proof (size_pages p (2 ^ o)). lia. }
  assert (Hle : 2 ^ o <= Z.of_nat (size F)) by (pose proof (subseteq_size _ _ Hsub); pose proof (size_pages p (2 ^ o)); lia).
  destruct (same_rest_fields _ _ (proj1 Hk)) as (_ & _ & _ & _ & Hi2 & Hr2).
  rewrite (stats_alloc_eq s s2 B F _ Hd (proj1 Hk)), <- Hsz by lia.
  exists p. split_and!; [done|done|done| | |].
  - split_and!; [destruct s2; cbn in *; congruence..|]. exists B1. eapply describes_intro; [done..|].
    intros x Hx. destruct Hsz1 as (_ & _ & Hcap). unfold s2. rewrite test_set_pages by lia.
    destruct (Hb1 x ltac:(lia)) as [Hb2 Hb3].
    destruct (decide (x ∈ F)) as [HxF|HxF].
    + rewrite Hb2 by (rewrite Hbits, bool_decide_true by done; done). cbn [orb]. rewrite <- bool_decide_not.
      apply bool_decide_ext. rewrite elem_of_difference, elem_of_pages. destruct (decide (p <= x < p + 2 ^ o)); tauto.
    + rewrite Hb3 by (rewrite <- HF'; set_solver). rewrite Hbits, (bool_decide_false (x ∈ F)) by done. cbn.
      rewrite bool_decide_false; [done|set_solver].
  - rewrite <- (kept_total _ _ _ _ Hk). by destruct s2.
  - intros x Hx. destruct Hk as (_ & _ & Hn). rewrite <- Hn; [by destruct s2|by rewrite <- HF|].
    rewrite <- HF'. set_solver.
Qed.

(** Giving pages back: their bits are cleared, an operation links them into the
    lists, and the counters follow. *)
Lemma ready_given s F B p n :
  initialized s = true -> buddy_ready s = true -> describes s B F ->
  0 < n -> 0 <= p -> p + n <= total_pages s -> pages p n ## F ->
  let s1 := for_pages clear_bit p n s in
  pool s1 B /\ total_pages s1 = total_pages s /\ buddy_ready s1 = true /\
  (forall x, p <= x < p + n -> ~ covers B x) /\
  forall s3 B', given s1 s3 B B' (fun x => p <= x < p + n) ->
    let s' := stats_free n s3 in
    ready s' (F ∪ pages p n) /\ total_pages s' = total_pages s /\
    (forall x, x ∉ F ∪ pages p n -> nodes s' !! x = nodes s !! x).
Proof.
  intros Hi Hr Hd Hn Hp Hpt Hdj. pose proof Hd as (Hpool & HF & Hbits & Hfp & Hup). cbv zeta.
  destruct (for_pages_rest clear_bit p n s clear_bit_rest) as (bm & Hs1 & Hbm).
  destruct (pool_set_bitmap s B bm Hbm Hpool) as [Hpool1 Hk1]. rewrite <- Hs1 in Hpool1, Hk1.
  assert (Htest : forall x, 0 <= x -> test_bit (for_pages clear_bit p n s) x =
             test_bit s x && negb (bool_decide (p <= x < p + n))) by (intros; by apply test_clear_pages).
  set (s1 := for_pages clear_bit p n s) in *.
  destruct (same_rest_fields _ _ (proj1 Hk1)) as (_ & Ht1 & _ & _ & _ & Hr1).
  split_and!; [done|done|congruence| |].
  { intros x Hx Hc%HF. apply (Hdj x); [by apply elem_of_pages|done]. }
  intros s3 B' (Hpool3 & Hk3 & Hb3 & Hc3).
  assert (Hk : kept s s3 B B') by (eapply kept_trans; [done..|]; by left).
  assert (HF' : forall x, x ∈ F ∪ pages p n <-> covers B' x).
  { intros x. rewrite elem_of_union, elem_of_pages, HF, Hc3. done. }
  assert (Hsz : Z.of_nat (size (F ∪ pages p n)) = Z.of_nat (size F) + n).
  { rewrite size_union by set_solver. pose proof (size_pages p n). lia. }
  assert (Hle : Z.of_nat (size F) + n <= total_pages s).
  { rewrite <- Hsz, <- (size_pages 0 (total_pages s)) by lia. apply inj_le, subseteq_size.
    intros x. rewrite elem_of_union, !elem_of_pages. intros [Hx|]; [|lia].
    apply (describes_range _ _ _ _ Hd) in Hx. lia. }
  destruct (same_rest_fields _ _ (proj1 Hk)) as (_ & Ht3 & _ & _ & Hi3 & Hr3).
  rewrite (stats_free_eq s s3 B F _ Hd (proj1 Hk)), <- Hsz by lia. split_and!.
  - split_and!; [destruct s3; cbn in *; congruence..|]. exists B'. eapply describes_intro; [done..|].
    intros x Hx. destruct (Hb3 x ltac:(lia)) as (H1 & H2 & H3).
    destruct (decide (x ∈ F ∪ pages p n)) as [HxF|HxF].
    + rewrite bool_decide_true by done. cbn. apply elem_of_union in HxF as [HxF|HxF%elem_of_pages]; [|by apply H1].
      apply H2. rewrite Htest, Hbits, bool_decide_true by (done || lia). done.
    + rewrite H3 by by rewrite <- HF'. rewrite Htest, Hbits by lia.
      rewrite !bool_decide_false; [done|set_solver|rewrite <- elem_of_pages; set_solver|set_solver].
  - rewrite <- Ht3. by destruct s3.
  - intros x Hx. destruct Hk as (_ & _ & Hn'). rewrite <- Hn'; [by destruct s3|rewrite <- HF; set_solver|by rewrite <- HF'].
Qed.

Lemma do_free_spec o p s F :
  ready s F -> 0 <= o <= 9 -> 0 <= p -> p mod 2 ^ o = 0 -> p + 2 ^ o <= total_pages s -> pages p (2 ^ o) ## F ->
  let s' := do_free (page_to_phys p) o s in
  ready s' (F ∪ pages p (2 ^ o)) /\ total_pages s' = total_pages s /\
  (forall x, x ∉ F ∪ pages p (2 ^ o) -> nodes s' !! x = nodes s !! x).
Proof.
  intros (Hi & Hr & B & Hd) Ho Hp Hmod Hpt Hdj. pose proof Hd as ((Hsizes & _) & HF & Hbits & _).
  pose proof (pow2_pos o ltac:(lia)).
  destruct (ready_given s F B p (2 ^ o)) as (Hpool1 & Ht1 & Hr1 & Hfree & Hgiven); [done|done|done|lia..|done|].
  unfold do_free. rewrite Hi, (phys_to_page_to_phys s) by (done || lia). cbn [negb].
  rewrite (proj2 (Z.leb_gt _ _)) by lia.
  assert (Hpn : p ∉ F) by (intros Hin; apply (Hdj p); [apply elem_of_pages; lia|done]).
  rewrite Hbits, (bool_decide_false (p ∈ F)) by (done || lia). cbn [negb].
  set (s1 := for_pages clear_bit p (2 ^ o) s) in *. rewrite Hr1, <- Ht1. cbn [negb].
  destruct (buddy_put_spec p o (total_pages s1) s1 B Hpool1) as (p' & o' & s2 & B' & -> & _ & _ & _ & _ & Hg).
  { rewrite Ht1. by apply loose_intro. }
  { lia. }
  rewrite Ht1. by apply (Hgiven _ B').
Qed.

(** *** Reservation *)
Definition overlaps (start end_pfn p n : Z) : Prop := p < end_pfn /\ start < p + n.

Definition dcovers (D : list (Z * Z)) (x : Z) : Prop := exists q n, (q, n) ∈ D /\ q <= x < q + n.

Fixpoint ddisjoint (D : list (Z * Z)) : Prop :=
  match D with
  | [] => True
  | (q, n) :: D => (forall x, q <= x < q + n -> ~ dcovers D x) /\ ddisjoint D
  end.

Lemma dcovers_cons q n D x : dcovers ((q, n) :: D) x <-> q <= x < q + n \/ dcovers D x.
Proof.
  unfold dcovers. split.
  - intros (q' & n' & [[= -> ->]|Hin]%elem_of_cons & Hx); [by left|right; by exists q', n'].
  - intros [Hx|(q' & n' & Hin & Hx)]; [exists q, n|exists q', n']; (split; [|done]); [by left|by right].
Qed.

Section reserve.
Context (start end_pfn : Z).

(** The state of the walk: the deferred blocks have left the pool. *)
Definition walked (s0 : PhysicalMemoryManager) (B0 : gmap Z Z) (s : PhysicalMemoryManager) (B : gmap Z Z)
    (D : list (Z * Z)) : Prop :=
  pool s B /\ kept s0 s B0 B /\ bitmap s = bitmap s0 /\ B ⊆ B0 /\
  (forall x, covers B0 x <-> covers B x \/ dcovers D x) /\ (forall x, dcovers D x -> ~ covers B x) /\ ddisjoint D /\
  (forall q n, (q, n) ∈ D -> overlaps start end_pfn q n /\ 0 < n).

Lemma metas_write_pages s B p n :
  metas s B -> 0 <= p -> p + n <= total_pages s -> (forall x, p <= x < p + n -> B !! x = None) ->
  exists m', for_pages (fun i s => meta_write i BUDDY_ALLOCATED s) p n s = set_buddy_meta m' s /\
    metas (set_buddy_meta m' s) B.
Proof.
  intros Hm Hp Hn HB. unfold for_pages.
  assert (Hin : forall b, b ∈ seqZ p n -> 0 <= b < total_pages s /\ B !! b = None).
  { intros b ?%elem_of_seqZ. split; [lia|]. by apply HB. }
  revert Hin Hm. clear. generalize (seqZ p n). intros l. revert s.
  induction l as [|b l IH]; intros s Hin Hm; cbn [fold_left].
  - exists (buddy_meta s). by destruct s.
  - destruct (IH (meta_write b BUDDY_ALLOCATED s)) as (m' & -> & Hm').
    + intros c Hc. destruct (meta_write_rest b BUDDY_ALLOCATED s) as (_ & _ & _ & ->). apply Hin. by right.
    + destruct (Hin b) as [? Hb]; [by left|]. by apply (metas_write s B); [..|rewrite Hb|].
    + exists m'. by destruct s.
Qed.

Lemma covers_interior total B p o x :
  tiling total B -> B !! p = Some o -> p + 1 <= x < p + 2 ^ o -> B !! x = None.
Proof.
  intros [H1 H2] Hp Hx. destruct (B !! x) as [o'|] eqn:E; [|done]. exfalso.
  assert (p = x); [|lia]. apply (H2 p x o o' x Hp E); [unfold in_block; lia|].
  apply in_block_first. apply H1 in E. lia.
Qed.

(** A block leaves its list, and its metadata is cleared. *)
Lemma walk_take s B Ls o L1 p L2 :
  pool s B -> lists_of s B Ls -> 0 <= o <= 9 -> Ls o = L1 ++ p :: L2 ->
  let s' := for_pages (fun i s => meta_write i BUDDY_ALLOCATED s) p (2 ^ o) (buddy_list_remove p o s) in
  B !! p = Some o /\ pool s' (delete p B) /\ lists_of s' (delete p B) (upd Ls o (L1 ++ L2)) /\
  kept s s' B (delete p B) /\ bitmap s' = bitmap s.
Proof.
  intros (Hsz & Hl & Hm & Ht) HLs Ho HL s'.
  destruct (lists_of_remove s B Ls o L1 p L2 Hsz HLs Ht Ho HL) as (Hp & _ & _ & HLs').
  destruct (links_remove s B p o Hsz Hl Ht Hp) as (_ & Hs & Hbm & Hme & Hn).
  set (s1 := buddy_list_remove p o s) in *. destruct (same_rest_fields _ _ Hs) as (_ & Ht1 & _).
  pose proof Ht as [Hti _]. destruct (Hti p o Hp) as (_ & Hp0 & _ & Hpt). pose proof (pow2_pos o ltac:(lia)).
  assert (Hm1 : metas (meta_write p BUDDY_ALLOCATED s1) (delete p B)).
  { apply (metas_write s1 B); [by apply (metas_same s)|rewrite Ht1; lia|by rewrite lookup_delete_eq|].
    intros x Hx. by rewrite lookup_delete_ne. }
  destruct (meta_write_rest p BUDDY_ALLOCATED s1) as (_ & _ & _ & Ht2).
  destruct (metas_write_pages _ _ (p + 1) (2 ^ o - 1) Hm1) as (m' & He & Hm2); [lia|lia| |].
  { intros x Hx. rewrite lookup_delete_ne by lia. eapply covers_interior; [done..|lia]. }
  assert (E : s' = set_buddy_meta m' s1).
  { unfold s', for_pages. rewrite seqZ_cons by lia. cbn [fold_left].
    unfold for_pages in He. rewrite <- Z.add_1_r, <- Z.sub_1_r, He. unfold meta_write. by destruct s1. }
  assert (Hk : kept s s' B (delete p B)).
  { rewrite E. split_and!; [|rewrite <- Hbm; by destruct s1|].
    - eapply same_rest_trans; [exact Hs|]. by destruct s1.
    - intros x Hx _. rewrite <- Hn; [by destruct s1|].
      destruct (B !! x) as [o'|] eqn:E'; [|done]. destruct Hx. by eapply covers_first. }
  assert (HLs2 : lists_of s' (delete p B) (upd Ls o (L1 ++ L2))).
  { rewrite E. destruct HLs' as [HLs' HB']. split; [|done]. by destruct s1. }
  split_and!; [done| |done|done|rewrite E, <- Hbm; by destruct s1]. split_and!.
  - by eapply kept_sizes.
  - by eexists.
  - rewrite E. revert Hm2. unfold meta_write. by destruct s1.
  - rewrite (kept_total _ _ _ _ Hk). by apply tiling_delete.
Qed.

Lemma reserve_walk_spec s0 B0 fuel o s B D Ls L1 L2 :
  walked s0 B0 s B D -> lists_of s B Ls -> 0 <= o <= 9 -> Ls o = L1 ++ L2 -> (length L2 <= fuel)%nat ->
  (forall p, p ∈ L1 -> ~ overlaps start end_pfn p (2 ^ o)) ->
  exists s' D' B', reserve_walk fuel (hd_error L2) o start end_pfn s D = (s', D') /\
    walked s0 B0 s' B' D' /\ B' ⊆ B /\ (forall p, B' !! p = Some o -> ~ overlaps start end_pfn p (2 ^ o)).
Proof.
  revert s B D Ls L1 L2. induction fuel as [|fuel IH]; intros s B D Ls L1 L2 Hw HLs Ho HL Hf HL1.
  { destruct L2; [|cbn in Hf; lia]. cbn. exists s, D, B. split_and!; [done|done|done|].
    intros p Hp. apply HL1. apply HLs in Hp; [|done]. by rewrite HL, app_nil_r in Hp. }
  destruct L2 as [|p L2]; cbn [reserve_walk hd_error].
  { exists s, D, B. split_and!; [done|done|done|].
    intros p Hp. apply HL1. apply HLs in Hp; [|done]. by rewrite HL, app_nil_r in Hp. }
  pose proof Hw as (Hpool & Hk & Hbm & Hsub & Hc & Hdj & Hdd & Hov). pose proof Hpool as (Hsz & Hl & Hm & Ht).
  destruct (lists_of_remove s B Ls o L1 p L2 Hsz HLs Ht Ho HL) as (Hp & Hnx & Hr & _). rewrite Hr, Hnx. cbn [negb].
  destruct ((p <? end_pfn) && (start <? p + 2 ^ o)) eqn:E.
  - destruct (walk_take s B Ls o L1 p L2 Hpool HLs Ho HL) as (_ & Hpool1 & HLs1 & Hk1 & Hbm1).
    set (s1 := for_pages _ _ _ _) in *.
    apply andb_true_iff in E as [E1%Z.ltb_lt E2%Z.ltb_lt].
    assert (Hcd : forall x, covers (delete p B) x <-> covers B x /\ ~ in_block p o x).
    { intros x. by eapply covers_delete. }
    assert (Hpc : forall x, in_block p o x -> covers B x) by (intros; by exists p, o).
    destruct (IH s1 (delete p B) ((p, 2 ^ o) :: D) (upd Ls o (L1 ++ L2)) L1 L2) as (s' & D' & B' & -> & Hw' & Hs' & Hno).
    + split_and!; [done| |congruence| | | | |].
      * eapply kept_trans; [done..|]. intros x Hx. left. apply Hc. by left.
      * etransitivity; [apply delete_subseteq|done].
      * intros x. rewrite Hc, Hcd, dcovers_cons. fold (in_block p o x). specialize (Hpc x).
        destruct (decide (in_block p o x)); tauto.
      * intros x [Hx|Hx]%dcovers_cons; rewrite Hcd; [by intros [_ []]|intros [Hx' _]; by apply (Hdj x)].
      * split; [|done]. intros x Hx Hd. by apply (Hdj x Hd), Hpc.
      * intros q n [[= -> ->]|Hin]%elem_of_cons; [|by apply Hov]. split; [done|]. apply pow2_pos. lia.
    + done.
    + done.
    + by rewrite upd_eq.
    + cbn in Hf. lia.
    + done.
    + exists s', D', B'. split_and!; [done|done| |done]. etransitivity; [done|apply delete_subseteq].
  - apply (IH s B D Ls (L1 ++ [p]) L2); [done|done|done|by rewrite <- app_assoc|cbn in Hf; lia|].
    intros q [Hq| ->%list_elem_of_singleton]%elem_of_app; [by apply HL1|].
    unfold overlaps. intros [?%Z.ltb_lt ?%Z.ltb_lt]. by rewrite H, H0 in E.
Qed.

Lemma list_fits s B Ls o : pool s B -> lists_of s B Ls -> 0 <= o <= 9 -> (length (Ls o) <= Z.to_nat (total_pages s))%nat.
Proof.
  intros (_ & _ & _ & [Ht _]) [(_ & Hd & _) HB] Ho. destruct (Hd o Ho) as [_ Hnd].
  rewrite <- (length_seqZ 0). apply NoDup_incl_length; [by apply NoDup_ListNoDup|].
  intros p Hp%list_elem_of_In%HB%Ht; [|done]. apply list_elem_of_In, elem_of_seqZ.
  pose proof (pow2_pos o ltac:(lia)). lia.
Qed.

Lemma head_hd s B Ls o : lists_of s B Ls -> 0 <= o <= 9 -> head s o = hd_error (Ls o).
Proof.
  intros [(_ & Hd & _) _] Ho. destruct (Hd o Ho) as [[lst Hl] _]. destruct (Ls o) as [|p L]; [by destruct Hl|].
  by destruct Hl.
Qed.

Lemma reserve_walks_spec s0 B0 os s B D :
  walked s0 B0 s B D -> (forall o, o ∈ os -> 0 <= o <= 9) ->
  exists s' D' B', fold_left (fun '(s, d) order =>
      reserve_walk (Z.to_nat (total_pages s)) (head s order) order start end_pfn s d) os (s, D) = (s', D') /\
    walked s0 B0 s' B' D' /\ B' ⊆ B /\ (forall p o, o ∈ os -> B' !! p = Some o -> ~ overlaps start end_pfn p (2 ^ o)).
Proof.
  revert s B D. induction os as [|o os IH]; intros s B D Hw Hos; cbn [fold_left].
  { exists s, D, B. split_and!; [done|done|done|]. by intros p o ?%not_elem_of_nil. }
  pose proof Hw as (Hpool & _). pose proof Hpool as (_ & (Ls & HLs) & _).
  assert (Ho : 0 <= o <= 9) by (apply Hos; by left). rewrite (head_hd s B Ls o HLs Ho).
  destruct (reserve_walk_spec s0 B0 (Z.to_nat (total_pages s)) o s B D Ls [] (Ls o)) as
    (s1 & D1 & B1 & -> & Hw1 & Hs1 & Hn1); [done|done|done|done|by eapply list_fits|by intros p ?%not_elem_of_nil|].
  destruct (IH s1 B1 D1 Hw1) as (s2 & D2 & B2 & -> & Hw2 & Hs2 & Hn2); [intros; apply Hos; by right|].
  exists s2, D2, B2. split_and!; [done|done|by etransitivity|].
  intros p a [->|Ha]%elem_of_cons Hp; [|by apply Hn2]. apply Hn1. by eapply lookup_weaken.
Qed.

End reserve.

Lemma buddy_free_insert_range_spec start n s B :
  pool s B -> 0 <= start -> 0 <= n -> start + n <= total_pages s ->
  (forall x, start <= x < start + n -> ~ covers B x) ->
  exists B', given s (buddy_free_insert_range start n s) B B' (fun x => start <= x < start + n).
Proof.
  intros Hpool Hs Hn Ht Hfree. pose proof Hpool as (_ & _ & (m & Hm & _) & _).
  unfold buddy_free_insert_range. rewrite Hm. apply insert_range_loop_spec; [done|lia|lia|lia|done].
Qed.

Lemma put_back_spec start end_pfn q n s B :
  pool s B -> 0 <= q -> q + n <= total_pages s -> overlaps start end_pfn q n -> start <= end_pfn ->
  (forall x, q <= x < q + n -> ~ covers B x) ->
  exists B', given s (put_back start end_pfn s (q, n)) B B' (fun x => q <= x < q + n /\ ~ (start <= x < end_pfn)).
Proof.
  intros Hpool Hq Hn [Ho1 Ho2] Hse Hfree. unfold put_back.
  assert (H1 : exists B1, given s (if q <? start then buddy_free_insert_range q (start - q) s else s) B B1
                            (fun x => q <= x < start)).
  { destruct (Z.ltb_spec q start); [|exists B; apply given_nothing; [done|lia]].
    destruct (buddy_free_insert_range_spec q (start - q) s B) as [B1 Hg]; [done|lia..|intros; apply Hfree; lia|].
    exists B1. eapply given_ext; [|exact Hg]. cbn. lia. }
  destruct H1 as [B1 Hg1]. set (s1 := if q <? start then _ else _) in *.
  pose proof Hg1 as (Hpool1 & _ & _ & Hc1). pose proof (given_total _ _ _ _ _ Hg1) as Ht1.
  destruct (Z.ltb_spec end_pfn (q + n)).
  2:{ exists B1. eapply given_ext; [|exact Hg1]. cbn. lia. }
  rewrite Z.max_r by lia.
  destruct (buddy_free_insert_range_spec end_pfn (q + n - end_pfn) s1 B1) as [B2 Hg2]; [done|lia..| |].
  { intros x Hx [Hc|Hc]%Hc1; [by apply (Hfree x); [lia|]|lia]. }
  exists B2. eapply given_ext; [|eapply given_trans; [exact Hg1|exact Hg2]]. cbn. lia.
Qed.

Lemma put_backs_spec start end_pfn D s B :
  pool s B -> start <= end_pfn -> ddisjoint D -> (forall x, dcovers D x -> ~ covers B x) ->
  (forall q n, (q, n) ∈ D -> overlaps start end_pfn q n /\ 0 <= q /\ q + n <= total_pages s) ->
  exists B', given s (fold_left (put_back start end_pfn) D s) B B' (fun x => dcovers D x /\ ~ (start <= x < end_pfn)).
Proof.
  intros Hpool Hse. revert s B Hpool. induction D as [|[q n] D IH]; intros s B Hpool Hdd Hdj Hin; cbn [fold_left].
  { exists B. apply given_nothing; [done|]. intros x [(? & ? & ?%not_elem_of_nil & _) _]. done. }
  destruct Hdd as [Hq Hdd]. destruct (Hin q n) as (Hov & Hq0 & Hqn); [by left|].
  destruct (put_back_spec start end_pfn q n s B Hpool Hq0 Hqn Hov Hse) as [B1 Hg1].
  { intros x Hx. apply Hdj, dcovers_cons. by left. }
  pose proof Hg1 as (Hpool1 & _ & _ & Hc1). pose proof (given_total _ _ _ _ _ Hg1) as Ht1.
  destruct (IH _ B1 Hpool1 Hdd) as [B2 Hg2].
  - intros x Hx [Hc|[Hc _]]%Hc1; [by apply (Hdj x); [apply dcovers_cons; right|]|by apply (Hq x)].
  - intros q' n' Hin'. rewrite Ht1. apply Hin. by right.
  - exists B2. eapply given_ext; [|eapply given_trans; [exact Hg1|exact Hg2]].
    intros x. cbn. rewrite dcovers_cons. tauto.
Qed.

(** Taking a range of free pages out of the pool, whatever blocks it cuts. *)
Lemma buddy_reserve_spec p n s F :
  ready s F -> 0 < n -> pages p n ⊆ F ->
  let s' := buddy_reserve_pfn_range p n s in
  ready s' (F ∖ pages p n) /\ total_pages s' = total_pages s /\ (forall x, x ∉ F -> nodes s' !! x = nodes s !! x).
Proof.
  intros (Hi & Hr & B & Hd) Hn Hsub. pose proof Hd as (Hpool & HF & Hbits & Hfp & Hup).
  unfold buddy_reserve_pfn_range.
  assert (Hw0 : walked p (p + n) s B s B []).
  { split_and!; [done|apply kept_refl|done|done| | |done|]; unfold dcovers.
    - intros x. split; [by left|]. intros [?|(? & ? & ?%not_elem_of_nil & _)]; done.
    - by intros x (? & ? & ?%not_elem_of_nil & _).
    - by intros q m ?%not_elem_of_nil. }
  destruct (reserve_walks_spec p (p + n) s B (seqZ 0 (MAX_BUDDY_ORDER + 1)) s B [] Hw0) as (s1 & D & B1 & -> & Hw & Hs & Hno).
  { intros o ?%elem_of_seqZ. unfold MAX_BUDDY_ORDER in *. lia. }
  destruct Hw as (Hpool1 & Hk1 & Hbm1 & _ & Hc1 & Hdj1 & Hdd1 & Hov1).
  destruct (for_pages_rest set_bit p n s1 set_bit_rest) as (bm & Hs2 & Hbm).
  destruct (pool_set_bitmap s1 B1 bm Hbm Hpool1) as [Hpool2 Hk2]. rewrite <- Hs2 in Hpool2, Hk2.
  set (s2 := for_pages set_bit p n s1) in *.
  assert (Hk12 : kept s s2 B B1) by (eapply kept_trans; [done..|]; by right).
  assert (Hsz : Z.of_nat (size (F ∖ pages p n)) = Z.of_nat (size F) - n).
  { rewrite size_difference by done. pose proof (subseteq_size _ _ Hsub). pose proof (size_pages p n). lia. }
  assert (Hle : n <= Z.of_nat (size F)) by (pose proof (subseteq_size _ _ Hsub); pose proof (size_pages p n); lia).
  rewrite (stats_alloc_eq s s2 B F _ Hd (proj1 Hk12)), <- Hsz by lia.
  set (u := total_pages s - Z.of_nat (size (F ∖ pages p n))). set (f := Z.of_nat (size (F ∖ pages p n))) in *.
  assert (HDin : forall q m, (q, m) ∈ D -> 0 <= q /\ q + m <= total_pages s).
  { intros q m Hin. destruct Hpool as (_ & _ & _ & Ht). destruct (Hov1 q m Hin) as [_ Hm].
    assert (Hcv : forall x, q <= x < q + m -> 0 <= x < total_pages s).
    { intros x Hx. apply (covers_range _ _ _ Ht), Hc1. right. by exists q, m. }
    pose proof (Hcv q). pose proof (Hcv (q + m - 1)). lia. }
  set (s3 := set_usage f u s2).
  assert (Ht3 : total_pages s3 = total_pages s) by (rewrite <- (kept_total _ _ _ _ Hk12); by destruct s2).
  destruct (put_backs_spec p (p + n) D s3 B1) as [B4 Hg]; [by apply pool_set_usage|lia|done|done| |].
  { intros q m Hin. rewrite Ht3. split; [by apply Hov1|by apply HDin]. }
  destruct Hg as (Hpool4 & Hk4 & Hb4 & Hc4). set (s4 := fold_left _ D s3) in *.
  assert (Hrange : forall x, p <= x < p + n -> ~ covers B1 x).
  { intros x Hx (q & a & Hq & Hin). destruct Hpool1 as (_ & _ & _ & Ht1 & _). pose proof (Ht1 q a Hq) as (Ha & _).
    apply (Hno q a); [apply elem_of_seqZ; unfold MAX_BUDDY_ORDER; lia|done|]. unfold overlaps, in_block in *. lia. }
  assert (HF' : forall x, x ∈ F ∖ pages p n <-> covers B4 x).
  { intros x. rewrite elem_of_difference, elem_of_pages, HF, Hc1, Hc4. specialize (Hrange x). tauto. }
  destruct (same_rest_fields _ _ (proj1 Hk4)) as (_ & Ht4 & Hf4 & Hu4 & Hi4 & Hr4).
  destruct (same_rest_fields _ _ (proj1 Hk12)) as (_ & Ht2 & _ & _ & Hi2 & Hr2).
  assert (Hn4 : forall x, x ∉ F -> nodes s4 !! x = nodes s !! x).
  { intros x Hx. destruct Hk12 as (_ & _ & H12), Hk4 as (_ & _ & H4).
    assert (~ covers B1 x) by (intros ?; apply Hx, HF, Hc1; by left).
    rewrite H4, <- H12; [by destruct s2|by rewrite <- HF|done|done|]. rewrite <- HF'. set_solver. }
  cbv zeta. split_and!; [|by rewrite Ht4|done]. split_and!; [rewrite Hi4; destruct s2; cbn in *; congruence|
    rewrite Hr4; destruct s2; cbn in *; congruence|]. exists B4. split_and!; [done|done| | |].
  - intros x Hx. rewrite Ht4, Ht3 in Hx. destruct (Hb4 x ltac:(lia)) as (H1 & H2 & H3).
    assert (Hts : test_bit s3 x = test_bit s x || bool_decide (p <= x < p + n)).
    { rewrite (test_bit_bitmap s2 s3) by by destruct s2. unfold s2. destruct Hpool1 as ((? & _ & Hcap) & _).
      assert (Hpn : forall y, p <= y < p + n -> 0 <= y < total_pages s).
      { intros y Hy. apply (describes_range _ _ _ _ Hd), Hsub, elem_of_pages. lia. }
      pose proof (Hpn p). pose proof (Hpn (p + n - 1)). pose proof (kept_total _ _ _ _ Hk1).
      rewrite test_set_pages by lia. by rewrite (test_bit_bitmap s s1). }
    destruct (decide (x ∈ F)) as [HxF|HxF]; [destruct (decide (p <= x < p + n)) as [Hr'|Hr']|].
    + rewrite H3, Hts, (bool_decide_true (_ <= _ < _)), orb_true_r, bool_decide_false; [done| |done|].
      * rewrite elem_of_difference, elem_of_pages. tauto.
      * rewrite <- HF', elem_of_difference, elem_of_pages. tauto.
    + rewrite bool_decide_true by (rewrite elem_of_difference, elem_of_pages; tauto). apply H2.
      by rewrite Hts, Hbits, (bool_decide_true (x ∈ F)), bool_decide_false by (done || lia).
    + rewrite H3 by (rewrite <- HF'; set_solver). rewrite Hts, Hbits, !(bool_decide_false (x ∈ _)) by (lia || set_solver).
      done.
  - rewrite Hf4. by destruct s2.
  - rewrite Hu4, Ht4, Ht3. by destruct s2.
Qed.

(** Giving back a range, whoever took it. *)
Lemma buddy_return_spec p n s F :
  ready s F -> 0 < n -> 0 <= p -> p + n <= total_pages s -> pages p n ## F ->
  let s1 := for_pages clear_bit p n s in
  let s' := stats_free n (buddy_free_insert_range p n s1) in
  ready s' (F ∪ pages p n) /\ total_pages s' = total_pages s /\
  (forall x, x ∉ F ∪ pages p n -> nodes s' !! x = nodes s !! x).
Proof.
  intros (Hi & Hr & B & Hd) Hn Hp Hpt Hdj.
  destruct (ready_given s F B p n) as (Hpool1 & Ht1 & _ & Hfree & Hgiven); [done..|].
  destruct (buddy_free_insert_range_spec p n _ B Hpool1 Hp) as [B' Hg]; [lia|by rewrite Ht1|done|]. by apply (Hgiven _ B').
Qed.

Definition good_range (s : PhysicalMemoryManager) (base sz : Z) : Prop :=
  0 < sz /\ base mod PAGE_SIZE = 0 /\ sz mod PAGE_SIZE = 0 /\ base / PAGE_SIZE + sz / PAGE_SIZE <= total_pages s.

Lemma range_pages_spec base sz s :
  sizes s -> u64 base -> u64 sz ->
  match range_pages base sz s with
  | inl _ => ~ good_range s base sz
  | inr (p, n) => good_range s base sz /\ p = base / PAGE_SIZE /\ n = sz / PAGE_SIZE /\ 0 <= p /\ 0 < n /\ p + n <= total_pages s
  end.
Proof.
  intros (Ht & _) Hb Hs. unfold range_pages, good_range, phys_to_page, RAM_BASE. unfold u64, U64_MAX in *.
  rewrite wrap_u64_small by (unfold u64, U64_MAX; lia). rewrite Z.sub_0_r.
  destruct (Z.eqb_spec sz 0); [lia|]. destruct (Z.eqb_spec (base mod PAGE_SIZE) 0); [|cbn; lia].
  destruct (Z.eqb_spec (sz mod PAGE_SIZE) 0) as [E|]; [|cbn; lia]. cbn [negb].
  unfold PAGE_SIZE in *. pose proof (Z.div_pos base 4096 ltac:(lia) ltac:(lia)).
  assert (0 < sz / 4096) by (apply Z.div_str_pos; pose proof (Z.div_mod sz 4096); lia).
  destruct (Z.ltb_spec 18446744073709551615 (base / 4096 + sz / 4096)); [lia|].
  destruct (Z.ltb_spec (total_pages s) (base / 4096 + sz / 4096)); [lia|]. split_and!; (done || lia).
Qed.

Lemma ready_sizes s F : ready s F -> sizes s.
Proof. by intros (_ & _ & B & (H & _) & _). Qed.

Lemma ready_bit s F x : ready s F -> 0 <= x < total_pages s -> test_bit s x = negb (bool_decide (x ∈ F)).
Proof. intros (_ & _ & B & _ & _ & H & _). by apply H. Qed.

(** Some page of a range is taken; some page of it is free. *)
Lemma taken_in_range s F p n :
  ready s F -> 0 <= p -> p + n <= total_pages s -> existsb (test_bit s) (seqZ p n) = false <-> pages p n ⊆ F.
Proof.
  intros HF Hp Hn. rewrite existsb_false_iff. split.
  - intros H x Hx%elem_of_pages. specialize (H x). rewrite elem_of_seqZ, (ready_bit s F) in H by (done || lia).
    specialize (H ltac:(lia)). by apply negb_false_iff, bool_decide_eq_true in H.
  - intros H x Hx%elem_of_seqZ. rewrite (ready_bit s F) by (done || lia).
    apply negb_false_iff, bool_decide_eq_true, H, elem_of_pages. lia.
Qed.

Lemma free_in_range s F p n :
  ready s F -> 0 <= p -> p + n <= total_pages s ->
  existsb (fun i => negb (test_bit s i)) (seqZ p n) = false <-> pages p n ## F.
Proof.
  intros HF Hp Hn. rewrite existsb_false_iff. split.
  - intros H x Hx%elem_of_pages HxF. specialize (H x). rewrite elem_of_seqZ, (ready_bit s F) in H by (done || lia).
    specialize (H ltac:(lia)). by rewrite bool_decide_true in H.
  - intros H x Hx%elem_of_seqZ. rewrite (ready_bit s F) by (done || lia). rewrite negb_involutive.
    apply bool_decide_eq_false. intros HxF. apply (H x); [apply elem_of_pages; lia|done].
Qed.

Definition same_elsewhere (s s' : PhysicalMemoryManager) (P : gset Z) : Prop :=
  total_pages s' = total_pages s /\ forall x, x ∉ P -> nodes s' !! x = nodes s !! x.

Lemma reserve_range_spec base sz s F :
  ready s F -> u64 base -> u64 sz ->
  let P := pages (base / PAGE_SIZE) (sz / PAGE_SIZE) in
  let '(e, s') := reserve_range base sz s in
  (e = None <-> good_range s base sz /\ P ⊆ F) /\ (e <> None -> s' = s) /\
  (e = None -> ready s' (F ∖ P) /\ same_elsewhere s s' F).
Proof.
  intros HF Hb Hs P. unfold reserve_range. pose proof (range_pages_spec base sz s (ready_sizes s F HF) Hb Hs) as Hr.
  destruct (range_pages base sz s) as [e|[p n]]; [naive_solver|].
  destruct Hr as (Hg & -> & -> & Hp & Hn & Ht). fold P.
  pose proof (taken_in_range s F _ _ HF Hp Ht) as Hx. destruct (existsb _ _).
  - split_and!; [|done|done]. split; [done|]. intros [_ ?%Hx]. done.
  - destruct (buddy_reserve_spec (base / PAGE_SIZE) _ s F HF Hn) as (H1 & H2 & H3); [by apply Hx|].
    split_and!; [|done|by intros _; split; [|split]]. split; [|done]. intros _. split; [done|by apply Hx].
Qed.

Lemma unreserve_range_spec base sz s F :
  ready s F -> u64 base -> u64 sz ->
  let P := pages (base / PAGE_SIZE) (sz / PAGE_SIZE) in
  let '(e, s') := unreserve_range base sz s in
  (e = None <-> good_range s base sz /\ P ## F) /\ (e <> None -> s' = s) /\
  (e = None -> ready s' (F ∪ P) /\ same_elsewhere s s' (F ∪ P)).
Proof.
  intros HF Hb Hs P. unfold unreserve_range. pose proof (range_pages_spec base sz s (ready_sizes s F HF) Hb Hs) as Hr.
  destruct (range_pages base sz s) as [e|[p n]]; [naive_solver|].
  destruct Hr as (Hg & -> & -> & Hp & Hn & Ht). fold P.
  pose proof (free_in_range s F _ _ HF Hp Ht) as Hx. destruct (existsb _ _).
  - split_and!; [|done|done]. split; [done|]. intros [_ ?%Hx]. done.
  - destruct (buddy_return_spec _ _ s F HF Hn Hp Ht) as (H1 & H2 & H3); [by apply Hx|].
    split_and!; [|done|by intros _; split; [|split]]. split; [|done]. intros _. split; [done|by apply Hx].
Qed.

(** *** Histories

    Who holds what: blocks that were allocated and ranges that were reserved. *)
Inductive holding : Type := Block (o : Z) | Range (n : Z).
Definition extent (h : holding) : Z := match h with Block o => 2 ^ o | Range n => n end.

Definition held (H : gmap Z holding) (x : Z) : Prop := exists p h, H !! p = Some h /\ p <= x < p + extent h.

(** Every entry point, and holders who write to what they hold. *)
Inductive pmm_step : PhysicalMemoryManager * gmap Z holding -> PhysicalMemoryManager * gmap Z holding -> Prop :=
  | step_alloc_page s s' H a : alloc_page s = (Some a, s') -> pmm_step (s, H) (s', <[phys_to_page a := Block 0]> H)
  | step_alloc_page_fails s s' H : alloc_page s = (None, s') -> pmm_step (s, H) (s', H)
  | step_alloc_pages decide_alloc count s s' H a : alloc_pages decide_alloc count s = (Some a, s') ->
      pmm_step (s, H) (s', <[phys_to_page a := Block (count_to_order count)]> H)
  | step_alloc_pages_fails decide_alloc count s s' H : alloc_pages decide_alloc count s = (None, s') ->
      pmm_step (s, H) (s', H)
  | step_free_page s H p : H !! p = Some (Block 0) -> pmm_step (s, H) (free_page (page_to_phys p) s, delete p H)
  | step_free_pages s H p count : count <> 0 -> H !! p = Some (Block (count_to_order count)) ->
      pmm_step (s, H) (free_pages_at (page_to_phys p) count s, delete p H)
  | step_free_again s H p count : 0 <= p < total_pages s -> test_bit s p = false ->
      pmm_step (s, H) (free_pages_at (page_to_phys p) count s, H)
  | step_reserve s s' H base sz : u64 base -> u64 sz -> reserve_range base sz s = (None, s') ->
      pmm_step (s, H) (s', <[base / PAGE_SIZE := Range (sz / PAGE_SIZE)]> H)
  | step_reserve_fails s s' H base sz e : u64 base -> u64 sz -> reserve_range base sz s = (Some e, s') ->
      pmm_step (s, H) (s', H)
  | step_unreserve s H p n : H !! p = Some (Range n) ->
      pmm_step (s, H) ((unreserve_range (page_to_phys p) (n * PAGE_SIZE) s).2, delete p H)
  | step_write s H p h x v : H !! p = Some h -> p <= x < p + extent h -> pmm_step (s, H) (put_node x v s, H).

Definition sound (total : Z) (p : Z) (h : holding) : Prop :=
  0 <= p /\ 0 < extent h /\ p + extent h <= total /\
  match h with Block o => 0 <= o <= 9 /\ p mod 2 ^ o = 0 | Range _ => True end.

(** The blocks held lie in memory and do not overlap. *)
Definition holdings (total : Z) (H : gmap Z holding) : Prop :=
  (forall p h, H !! p = Some h -> sound total p h) /\
  (forall p q h h' x, H !! p = Some h -> H !! q = Some h' -> p <= x < p + extent h -> q <= x < q + extent h' -> p = q).

(** The free pages [F] and the pages held are disjoint and make up [F0]. *)
Definition splits (F0 F : gset Z) (H : gmap Z holding) : Prop :=
  (forall x, held H x -> x ∉ F) /\ (forall x, x ∈ F0 <-> x ∈ F \/ held H x).

Definition accounted (F0 : gset Z) (s : PhysicalMemoryManager) (H : gmap Z holding) : Prop :=
  exists F, ready s F /\ holdings (total_pages s) H /\ splits F0 F H.

Lemma count_to_order_range count : 0 <= count_to_order count <= 9.
Proof.
  unfold count_to_order, MAX_BUDDY_ORDER. destruct (Z.leb_spec count 1); [lia|].
  pose proof (Z.log2_nonneg (count - 1)). destruct (Z.ltb_spec 9 (Z.log2 (count - 1) + 1)); lia.
Qed.

Lemma holding_insert H p h x : H !! p = None -> held (<[p := h]> H) x <-> p <= x < p + extent h \/ held H x.
Proof.
  intros Hp. split.
  - intros (q & k & [[<- <-]|[_ Hq]]%lookup_insert_Some & Hx); [by left|right; by exists q, k].
  - intros [Hx|(q & k & Hq & Hx)]; [exists p, h; by rewrite lookup_insert_eq|].
    exists q, k. split; [|done]. rewrite lookup_insert_ne; [done|]. intros ->. by rewrite Hp in Hq.
Qed.

Lemma accounted_take F0 s F s' H p h :
  holdings (total_pages s) H -> splits F0 F H ->
  sound (total_pages s) p h -> pages p (extent h) ⊆ F -> ready s' (F ∖ pages p (extent h)) -> total_pages s' = total_pages s ->
  accounted F0 s' (<[p := h]> H).
Proof.
  intros [Hso Hu] [Hdj Hpart] Hs Hsub HF' Ht.
  assert (Hnew : forall x, p <= x < p + extent h -> ~ held H x).
  { intros x Hx Hh. apply (Hdj x Hh), Hsub, elem_of_pages. lia. }
  assert (Hp : H !! p = None).
  { destruct (H !! p) as [k|] eqn:E; [|done]. destruct Hs as (_ & He & _). destruct (Hso p k E) as (_ & ? & _).
    exfalso. apply (Hnew p); [lia|]. exists p, k. split; [done|lia]. }
  exists (F ∖ pages p (extent h)). split; [done|]. split; split.
  - rewrite Ht. intros q k [[<- <-]|[_ Hq]]%lookup_insert_Some; [done|by apply Hso].
  - intros q q' k k' x [[<- <-]|[Hne Hq]]%lookup_insert_Some [[<- <-]|[Hne' Hq']]%lookup_insert_Some Hx Hx'; [done| | |].
    + exfalso. apply (Hnew x Hx). by exists q', k'.
    + exfalso. apply (Hnew x Hx'). by exists q, k.
    + by apply (Hu q q' k k' x).
  - intros x. rewrite holding_insert, elem_of_difference, elem_of_pages by done. specialize (Hdj x). tauto.
  - intros x. rewrite holding_insert, Hpart, elem_of_difference, elem_of_pages by done.
    pose proof (fun Hx => Hsub x (proj2 (elem_of_pages p _ x) Hx)).
    destruct (decide (p <= x < p + extent h)); tauto.
Qed.

Lemma accounted_give F0 s F s' H p h :
  holdings (total_pages s) H -> splits F0 F H -> H !! p = Some h -> ready s' (F ∪ pages p (extent h)) -> total_pages s' = total_pages s ->
  accounted F0 s' (delete p H).
Proof.
  intros [Hso Hu] [Hdj Hpart] Hp HF' Ht.
  assert (Hd : forall x, held (delete p H) x <-> held H x /\ ~ (p <= x < p + extent h)).
  { intros x. split.
    - intros (q & k & [Hne Hq]%lookup_delete_Some & Hx). split; [by exists q, k|].
      intros Hx'. apply Hne. by apply (Hu p q h k x).
    - intros [(q & k & Hq & Hx) Hn]. exists q, k. split; [|done]. apply lookup_delete_Some. split; [|done].
      intros ->. rewrite Hp in Hq. injection Hq as ->. done. }
  exists (F ∪ pages p (extent h)). split; [done|]. split; split.
  - rewrite Ht. intros q k [_ Hq]%lookup_delete_Some. by apply Hso.
  - intros q q' k k' x [_ Hq]%lookup_delete_Some [_ Hq']%lookup_delete_Some. by apply Hu.
  - intros x [Hh Hn]%Hd. rewrite elem_of_union, elem_of_pages. specialize (Hdj x Hh). tauto.
  - intros x. rewrite Hd, Hpart, elem_of_union, elem_of_pages.
    assert (p <= x < p + extent h -> held H x) by (intros; by exists p, h).
    destruct (decide (p <= x < p + extent h)); tauto.
Qed.

(** The counters of the interface do not touch the pool. *)
Lemma ready_count s F :
  ready s F -> (forall n, ready (count_alloc n s) F) /\ (forall n, ready (count_free n s) F) /\ ready (count_failed s) F.
Proof. intros H. split_and!; intros; by apply ready_set_counters. Qed.

Lemma total_count s n : total_pages (count_alloc n s) = total_pages s /\ total_pages (count_free n s) = total_pages s /\
  total_pages (count_failed s) = total_pages s.
Proof. by destruct s. Qed.

Lemma alloc_outcome s F o r s1 :
  ready s F -> 0 <= o <= 9 -> do_alloc o s = (r, s1) ->
  match r with
  | Some a => let p := phys_to_page a in a = page_to_phys p /\ sound (total_pages s) p (Block o) /\
      pages p (2 ^ o) ⊆ F /\ ready s1 (F ∖ pages p (2 ^ o)) /\ same_elsewhere s s1 F
  | None => s1 = s
  end.
Proof.
  intros HF Ho E. pose proof (do_alloc_spec o s F HF Ho) as Hs. rewrite E in Hs. destruct r as [a|]; [|by destruct Hs].
  destruct Hs as (p & -> & Hm & Hsub & HF' & Ht & Hn). pose proof (pow2_pos o ltac:(lia)).
  pose proof HF as (_ & _ & B & Hd).
  assert (Hr : forall x, p <= x < p + 2 ^ o -> 0 <= x < total_pages s).
  { intros x Hx. apply (describes_range _ _ _ _ Hd), Hsub, elem_of_pages. lia. }
  pose proof (Hr p). pose proof (Hr (p + 2 ^ o - 1)).
  cbv zeta. rewrite (phys_to_page_to_phys s) by (by eapply ready_sizes || lia).
  split_and!; [done| |done|done|by split]. unfold sound. cbn. split_and!; (done || lia).
Qed.

Lemma ready_write s F x v : ready s F -> x ∉ F -> ready (put_node x v s) F.
Proof.
  intros (Hi & Hr & B & ((Hsz & (Ls & (Hl & Hd & Hu) & HB) & Hm & Ht) & HF & Hb & Hc)) Hx.
  split; [by destruct s|]. split; [by destruct s|]. exists B. split; [|split; [done|by destruct s]].
  split; [by destruct s|]. split; [|by destruct s].
  exists Ls. split; [|done]. split_and!; [by destruct s| |done]. intros o Ho. destruct (Hd o Ho) as [[lst Hlst] Hnd].
  split; [|done]. exists lst. assert (head (put_node x v s) o = head s o) as -> by by destruct s.
  eapply dseg_frame; [|exact Hlst]. intros p Hp.
  assert (nodes (put_node x v s) = <[x := v]> (nodes s)) as -> by by destruct s.
  rewrite lookup_insert_ne; [done|]. intros ->. apply Hx, HF. apply HB in Hp; [|done]. by eapply covers_first.
Qed.

Lemma alloc_pages_cases decide_alloc count s :
  (exists s', alloc_pages decide_alloc count s = (None, s') /\ (s' = s \/ s' = count_failed s \/
      exists s1, do_alloc (count_to_order count) s = (None, s1) /\ s' = count_failed s1)) \/
  (exists a s1, do_alloc (count_to_order count) s = (Some a, s1) /\
      alloc_pages decide_alloc count s = (Some a, count_alloc (2 ^ count_to_order count) s1)).
Proof.
  unfold alloc_pages. destruct (count =? 0); [left; naive_solver|]. cbv zeta.
  destruct (decide_alloc _); [|left; naive_solver..].
  destruct (do_alloc (count_to_order count) s) as [[a|] s1]; [right|left]; naive_solver.
Qed.

Lemma splits_total F H p h (F0 : gset Z) : splits F0 F H -> H !! p = Some h -> pages p (extent h) ## F.
Proof. intros [Hdj _] Hp x Hx%elem_of_pages. apply Hdj. by exists p, h. Qed.

(** Releasing a held block, through either entry point. *)
Lemma accounted_free F0 s H p o n :
  0 ∉ F0 -> accounted F0 s H -> H !! p = Some (Block o) ->
  accounted F0 (count_free n (do_free (page_to_phys p) o s)) (delete p H) /\ page_to_phys p <> 0.
Proof.
  intros H0 (F & HF & Hh & Hsp) Hp. pose proof Hh as [Hso _]. destruct (Hso p _ Hp) as (Hp0 & He & Ht & Ho & Hm).
  cbn [extent] in *. destruct (do_free_spec o p s F HF Ho Hp0 Hm Ht (splits_total F H p _ F0 Hsp Hp)) as (HF' & Ht' & _).
  split.
  - eapply (accounted_give F0 s F _ H p (Block o)); [done|done|done|by apply ready_count|].
    destruct (total_count (do_free (page_to_phys p) o s) n) as (_ & -> & _). done.
  - unfold page_to_phys, RAM_BASE, PAGE_SIZE. intros Hz. apply H0, Hsp. right. exists p, (Block o). split; [done|].
    cbn. lia.
Qed.

Lemma accounted_same F0 s s' H :
  accounted F0 s H -> (forall F, ready s F -> ready s' F) -> total_pages s' = total_pages s -> accounted F0 s' H.
Proof. intros (F & HF & Hh & Hsp) Hr Ht. exists F. rewrite Ht. auto. Qed.

Lemma accounted_count F0 s H :
  accounted F0 s H -> (forall n, accounted F0 (count_free n s) H) /\ accounted F0 (count_failed s) H.
Proof.
  intros Ha. split; intros; (eapply accounted_same; [exact Ha| |by destruct s]); intros F HF; by apply ready_count.
Qed.

Lemma accounted_alloc F0 s H o a s1 n :
  accounted F0 s H -> 0 <= o <= 9 -> do_alloc o s = (Some a, s1) ->
  accounted F0 (count_alloc n s1) (<[phys_to_page a := Block o]> H).
Proof.
  intros (F & HF & Hh & Hsp) Ho E. pose proof (alloc_outcome s F o _ _ HF Ho E) as (_ & Hs & Hsub & HF' & Ht & _).
  eapply accounted_take; [exact Hh|exact Hsp|exact Hs|done|by apply ready_count|].
  by destruct (total_count s1 n) as (-> & _).
Qed.

Lemma accounted_alloc_fails F0 s H o s1 :
  accounted F0 s H -> 0 <= o <= 9 -> do_alloc o s = (None, s1) -> s1 = s.
Proof. intros (F & HF & _) Ho E. exact (alloc_outcome s F o _ _ HF Ho E). Qed.

Lemma free_again F s p o :
  ready s F -> 0 <= p < total_pages s -> test_bit s p = false -> do_free (page_to_phys p) o s = s.
Proof.
  intros HF Hp Hb. unfold do_free. destruct HF as (Hi & Hr & B & Hd). rewrite Hi. cbn [negb].
  rewrite (phys_to_page_to_phys s) by (apply Hd || lia). rewrite Hb.
  by destruct (total_pages s <=? p).
Qed.

Lemma accounted_reserve F0 s s' H base sz :
  accounted F0 s H -> u64 base -> u64 sz -> reserve_range base sz s = (None, s') ->
  accounted F0 s' (<[base / PAGE_SIZE := Range (sz / PAGE_SIZE)]> H).
Proof.
  intros (F & HF & Hh & Hsp) Hb Hsz E. pose proof (reserve_range_spec base sz s F HF Hb Hsz) as Hr.
  rewrite E in Hr. destruct Hr as ([Hg _] & _ & Hok). destruct (Hg eq_refl) as [(Hz & _ & Hzm & Ht) Hsub].
  destruct (Hok eq_refl) as [HF' [Ht' _]]. eapply accounted_take; [exact Hh|exact Hsp| |done|done|done].
  unfold sound, u64, PAGE_SIZE in *. cbn [extent]. pose proof (Z.div_pos base 4096).
  assert (0 < sz / 4096) by (apply Z.div_str_pos; pose proof (Z.div_mod sz 4096); lia). split_and!; (done || lia).
Qed.

Lemma accounted_unreserve F0 s H p n :
  accounted F0 s H -> H !! p = Some (Range n) ->
  accounted F0 (unreserve_range (page_to_phys p) (n * PAGE_SIZE) s).2 (delete p H).
Proof.
  intros (F & HF & Hh & Hsp) Hp. pose proof Hh as [Hso _]. destruct (Hso p _ Hp) as (Hp0 & He & Ht & _).
  cbn [extent] in *. pose proof (ready_sizes s F HF) as (Hsz & _).
  assert (page_to_phys p / PAGE_SIZE = p /\ page_to_phys p mod PAGE_SIZE = 0) as [E1 E2].
  { unfold page_to_phys, RAM_BASE, PAGE_SIZE. rewrite Z.add_0_l, Z.div_mul, Z.mod_mul by lia. done. }
  assert (n * PAGE_SIZE / PAGE_SIZE = n /\ n * PAGE_SIZE mod PAGE_SIZE = 0) as [E3 E4].
  { unfold PAGE_SIZE. rewrite Z.div_mul, Z.mod_mul by lia. done. }
  pose proof (unreserve_range_spec (page_to_phys p) (n * PAGE_SIZE) s F HF) as Hr. rewrite E1, E3 in Hr.
  destruct (unreserve_range _ _ s) as [e s']. destruct Hr as (He' & _ & Hok).
  { unfold u64, U64_MAX, page_to_phys, RAM_BASE, PAGE_SIZE. lia. }
  { unfold u64, U64_MAX, PAGE_SIZE. lia. }
  assert (e = None) as ->.
  { apply He'. split; [|by apply (splits_total F H p (Range n) F0)].
    unfold good_range. rewrite E1, E2, E3, E4. unfold PAGE_SIZE. split_and!; (done || lia). }
  destruct (Hok eq_refl) as [HF' [Ht' _]]. by eapply (accounted_give F0 s F _ H p (Range n)).
Qed.

Lemma pmm_step_accounted F0 x y :
  0 ∉ F0 -> pmm_step x y -> accounted F0 x.1 x.2 -> accounted F0 y.1 y.2.
Proof.
  intros H0 Hstep Ha. destruct Hstep as [s s' H a E|s s' H E|pol count s s' H a E|pol count s s' H E|s H p Hp|s H p count Hc Hp
    |s H p count Hp Hb|s s' H base sz Hb Hs E|s s' H base sz e Hb Hs E|s H p n Hp|s H p h x v Hp Hx]; cbn [fst snd] in *.
  - unfold alloc_page in E. destruct (do_alloc 0 s) as [[b|] s1] eqn:E1; simplify_eq. by apply (accounted_alloc F0 s).
  - unfold alloc_page in E. destruct (do_alloc 0 s) as [[b|] s1] eqn:E1; simplify_eq.
    apply (accounted_alloc_fails F0 s H) in E1 as ->; [|done|lia]. by apply accounted_count.
  - destruct (alloc_pages_cases pol count s) as [(? & E' & _)|(b & s1 & E1 & E')]; rewrite E in E'; simplify_eq.
    apply (accounted_alloc F0 s); [done|apply count_to_order_range|done].
  - destruct (alloc_pages_cases pol count s) as [(s1 & E' & Hc)|(b & s1 & E1 & E')]; rewrite E in E'; simplify_eq.
    destruct Hc as [->|[->|(s1' & E1 & ->)]]; [done|by apply accounted_count|].
    apply (accounted_alloc_fails F0 s H) in E1 as ->; [|done|apply count_to_order_range]. by apply accounted_count.
  - destruct (accounted_free F0 s H p 0 1 H0 Ha Hp) as [Hf Hz]. unfold free_page.
    by rewrite (proj2 (Z.eqb_neq _ _) Hz).
  - destruct (accounted_free F0 s H p _ (2 ^ count_to_order count) H0 Ha Hp) as [Hf Hz]. unfold free_pages_at.
    by rewrite (proj2 (Z.eqb_neq _ _) Hz), (proj2 (Z.eqb_neq count 0) Hc).
  - unfold free_pages_at. destruct (_ || _); [done|]. pose proof Ha as (F & HF & _).
    rewrite (free_again F) by done. by apply accounted_count.
  - by eapply accounted_reserve.
  - destruct Ha as (F & HF & Hh & Hsp). pose proof (reserve_range_spec base sz s F HF Hb Hs) as Hr.
    rewrite E in Hr. destruct Hr as (_ & Hsame & _). rewrite (Hsame ltac:(done)). by exists F.
  - by apply accounted_unreserve.
  - destruct Ha as (F & HF & Hh & Hsp). exists F.
    assert (total_pages (put_node x v s) = total_pages s) as -> by by destruct s.
    split; [|done]. apply ready_write; [done|]. apply Hsp. by exists p, h.
Qed.

(** *** Initialisation *)
Lemma init_blocks_spec fuel cur remaining s B :
  pool s B -> 0 <= cur -> cur + remaining <= total_pages s -> (Z.to_nat remaining <= fuel)%nat ->
  (forall x, cur <= x < cur + remaining -> ~ covers B x) ->
  exists B', given s (init_blocks fuel cur remaining s) B B' (fun x => cur <= x < cur + remaining).
Proof.
  revert cur remaining s B. induction fuel as [|fuel IH]; intros cur remaining s B Hpool Hcur Ht Hf Hfree; cbn [init_blocks].
  { exists B. apply given_nothing; [done|lia]. }
  destruct (Z.ltb_spec 0 remaining); [|exists B; apply given_nothing; [done|lia]]. cbv zeta.
  destruct (fit_order_spec (Z.to_nat (init_max_order remaining)) cur remaining) as (Ho & Hmod & Hle); [lia|]. cbn zeta in *.
  set (o := Z.of_nat (fit_order _ cur remaining)) in *.
  assert (o <= 9) by (unfold init_max_order, MAX_BUDDY_ORDER in *; destruct (remaining =? 1); lia).
  pose proof (pow2_pos o ltac:(lia)).
  pose proof (pool_give_given s B cur o Hpool) as Hg. pose proof (Hg ltac:(apply loose_intro; try lia; intros; apply Hfree; lia)) as Hg1.
  clear Hg. pose proof Hg1 as (Hpool1 & _ & _ & Hc1). pose proof (given_total _ _ _ _ _ Hg1) as Ht1.
  set (s1 := buddy_list_push _ _ _) in *.
  destruct (IH (cur + 2 ^ o) (remaining - 2 ^ o) s1 _ Hpool1) as [B2 Hg2]; [lia|lia|lia| |].
  { intros x Hx [Hc|Hc]%Hc1; [by apply (Hfree x); [lia|]|]. unfold in_block in Hc. lia. }
  exists B2. eapply given_ext; [|eapply given_trans; [exact Hg1|exact Hg2]]. intros x. unfold in_block. cbn. lia.
Qed.

Lemma run_end_spec fuel pfn s :
  pfn <= total_pages s -> let e := run_end fuel pfn s in
  pfn <= e <= total_pages s /\ (forall x, pfn <= x < e -> test_bit s x = false) /\
  ((0 < fuel)%nat -> pfn < total_pages s -> test_bit s pfn = false -> pfn < e).
Proof.
  revert pfn. induction fuel as [|fuel IH]; intros pfn Hp; cbn [run_end]; [split_and!; lia|].
  destruct (Z.ltb_spec pfn (total_pages s)) as [Hlt|]; [|cbn; split_and!; try lia].
  destruct (test_bit s pfn) eqn:E; cbn; [split_and!; try lia; done|].
  destruct (IH (pfn + 1)) as (H1 & H2 & H3); [lia|]. cbn zeta in *. split_and!; [lia|lia| |lia].
  intros x Hx. destruct (decide (x = pfn)) as [->|]; [done|]. apply H2. lia.
Qed.

Lemma init_lists_loop_spec fuel pfn s B :
  pool s B -> 0 <= pfn <= total_pages s -> (Z.to_nat (total_pages s - pfn) <= fuel)%nat ->
  (forall x, pfn <= x -> ~ covers B x) ->
  exists B', given s (init_lists_loop fuel pfn s) B B' (fun x => pfn <= x < total_pages s /\ test_bit s x = false).
Proof.
  revert pfn s B. induction fuel as [|fuel IH]; intros pfn s B Hpool Hp Hf Hfree; cbn [init_lists_loop].
  { exists B. apply given_nothing; [done|lia]. }
  destruct (Z.ltb_spec pfn (total_pages s)) as [Hlt|]; [|exists B; apply given_nothing; [done|lia]].
  destruct (test_bit s pfn) eqn:E.
  { destruct (IH (pfn + 1) s B Hpool) as [B' Hg]; [lia|lia|intros; apply Hfree; lia|]. exists B'.
    eapply given_ext; [|exact Hg]. intros x. cbn. destruct (decide (x = pfn)) as [->|]; [rewrite E; lia|].
    split; intros [? ?]; (split; [lia|done]). }
  cbv zeta. destruct (run_end_spec (Z.to_nat (total_pages s)) pfn s) as (He & Hclear & Hprog); [lia|]. cbn zeta in *.
  set (e := run_end _ pfn s) in *. specialize (Hprog ltac:(lia) Hlt E).
  destruct (init_blocks_spec (Z.to_nat (e - pfn)) pfn (e - pfn) s B Hpool) as [B1 Hg1]; [lia|lia|lia|intros; apply Hfree; lia|].
  pose proof Hg1 as (Hpool1 & _ & Hb1 & Hc1). pose proof (given_total _ _ _ _ _ Hg1) as Ht1. set (s1 := init_blocks _ _ _ s) in *.
  destruct (IH e s1 B1 Hpool1) as [B2 Hg2]; [lia|lia|intros x Hx [Hc|Hc]%Hc1; [by apply (Hfree x); [lia|]|lia]|].
  exists B2. eapply given_ext; [|eapply given_trans; [exact Hg1|exact Hg2]]. intros x. cbn. rewrite Ht1. split.
  - intros [Hx|[Hx Ht]]; [split; [lia|apply Hclear; lia]|]. split; [lia|].
    destruct (Hb1 x ltac:(lia)) as (_ & _ & H3). rewrite <- H3; [done|].
    intros [Hc|Hc]%Hc1; [by apply (Hfree x); [lia|]|lia].
  - intros [Hx Ht]. destruct (decide (x < e)); [left; lia|right]. split; [lia|].
    destruct (Hb1 x ltac:(lia)) as (_ & H2 & _). by apply H2.
Qed.

(** Counting the clear bits of a list of words. *)
Definition clear_at (bm : list Z) (x : Z) : bool := negb (Z.testbit (nth (Z.to_nat (x / 32)) bm 0) (x mod 32)).

Lemma count_clear bm :
  fold_left (fun acc w => acc + zeros w) bm 0 = Z.of_nat (count_if (clear_at bm) (seqZ 0 (32 * Z.of_nat (length bm)))).
Proof.
  induction bm as [|w bm IH] using rev_ind; [done|]. rewrite fold_left_app. cbn [fold_left]. rewrite IH. clear IH.
  rewrite length_app. cbn [length]. rewrite Nat2Z.inj_add, Z.mul_add_distr_l, seqZ_app by lia.
  rewrite count_if_app, Nat2Z.inj_add. f_equal; [|unfold zeros]; f_equal.
  - apply count_if_ext. intros x Hx%elem_of_seqZ. unfold clear_at.
    rewrite app_nth1; [done|]. pose proof (Z.div_lt_upper_bound x 32 (Z.of_nat (length bm))). pose proof (Z.div_pos x 32). lia.
  - rewrite (count_if_shift _ (0 + 32 * _)). apply count_if_ext. intros x Hx%elem_of_seqZ. unfold clear_at.
    replace (0 + 32 * Z.of_nat (length bm) + x) with (x + Z.of_nat (length bm) * 32) by lia.
    rewrite Z.div_add, Z.mod_add, Z.div_small, Z.mod_small by lia. rewrite app_nth2 by lia.
    by replace (Z.to_nat (0 + Z.of_nat (length bm)) - length bm)%nat with 0%nat by lia.
Qed.

Lemma clear_at_test s x : 0 <= x < 32 * Z.of_nat (length (bitmap s)) -> clear_at (bitmap s) x = negb (test_bit s x).
Proof.
  intros Hx. rewrite test_bit_spec. unfold clear_at, bitmap_word.
  pose proof (Z.div_lt_upper_bound x 32 (Z.of_nat (length (bitmap s)))). pose proof (Z.div_pos x 32).
  rewrite (proj2 (Nat.ltb_lt _ _)) by lia. done.
Qed.

Definition clear_pages (s : PhysicalMemoryManager) : gset Z :=
  list_to_set (List.filter (fun x => negb (test_bit s x)) (seqZ 0 (total_pages s))).

Lemma elem_of_clear_pages s x : x ∈ clear_pages s <-> 0 <= x < total_pages s /\ test_bit s x = false.
Proof.
  unfold clear_pages. rewrite elem_of_list_to_set, list_elem_of_In, List.filter_In, <- list_elem_of_In, elem_of_seqZ.
  rewrite negb_true_iff. done.
Qed.

(** The count of [count_free_pages] when the bitmap has no bit set beyond the
    last page and less than a word to spare. *)
Lemma count_free_pages_spec s :
  0 <= total_pages s <= 32 * Z.of_nat (length (bitmap s)) -> 32 * Z.of_nat (length (bitmap s)) < total_pages s + 32 ->
  (forall x, total_pages s <= x -> test_bit s x = false) ->
  count_free_pages s = Z.of_nat (size (clear_pages s)).
Proof.
  intros Ht Hl Htop. unfold count_free_pages. rewrite count_clear.
  set (n := Z.of_nat (length (bitmap s))) in *.
  assert (Hsz : Z.of_nat (size (clear_pages s)) = Z.of_nat (count_if (fun x => negb (test_bit s x)) (seqZ 0 (total_pages s)))).
  { unfold clear_pages. rewrite size_list_to_set; [done|]. apply NoDup_ListNoDup, List.NoDup_filter, NoDup_ListNoDup, NoDup_seqZ. }
  assert (Hc : Z.of_nat (count_if (clear_at (bitmap s)) (seqZ 0 (32 * n))) = Z.of_nat (size (clear_pages s)) + (32 * n - total_pages s)).
  { rewrite Hsz. replace (32 * n) with (total_pages s + (32 * n - total_pages s)) at 1 by lia.
    rewrite seqZ_app, count_if_app, Nat2Z.inj_add by lia. f_equal.
    - f_equal. apply count_if_ext. intros x Hx%elem_of_seqZ. apply clear_at_test. lia.
    - rewrite (count_if_ext _ (fun _ => true)).
      + unfold count_if. assert (forall l : list Z, List.filter (fun _ => true) l = l) as ->.
        { induction l; cbn; [done|by f_equal]. } rewrite length_seqZ. lia.
      + intros x Hx%elem_of_seqZ. rewrite clear_at_test by lia. by rewrite Htop by lia. }
  rewrite Hc. replace (n * 32) with (32 * n) by lia.
  assert (Hw : wrap_u32 (sat_sub (32 * n) (total_pages s)) = 32 * n - total_pages s).
  { unfold sat_sub. rewrite Z.max_r by lia. apply wrap_small. lia. }
  rewrite Hw. destruct (Z.ltb_spec 0 (32 * n - total_pages s)); unfold sat_sub; lia.
Qed.

Lemma test_mark_pages a b s x :
  0 <= a -> 0 <= x -> total_pages s <= 32 * Z.of_nat (length (bitmap s)) ->
  test_bit (mark_pages a b s) x = test_bit s x || bool_decide (a <= x < Z.min b (total_pages s)).
Proof.
  intros Ha Hx Hl. unfold mark_pages. rewrite test_set_pages by lia. f_equal. apply bool_decide_ext. lia.
Qed.

(** [s2] is [s1] with the bits of the pages [P] set. *)
Definition marks (s1 s2 : PhysicalMemoryManager) (P : Z -> Prop) : Prop :=
  (exists bm, s2 = set_bitmap bm s1 /\ length bm = length (bitmap s1)) /\
  forall x, 0 <= x -> test_bit s2 x = true <-> test_bit s1 x = true \/ (x < total_pages s1 /\ P x).

Lemma marks_trans s1 s2 s3 P Q : marks s1 s2 P -> marks s2 s3 Q -> marks s1 s3 (fun x => P x \/ Q x).
Proof.
  intros [(bm1 & -> & L1) H1] [(bm2 & -> & L2) H2]. split.
  - exists bm2. split; [by destruct s1|]. rewrite L2, <- L1. by destruct s1.
  - intros x Hx. rewrite H2, H1 by done.
    assert (total_pages (set_bitmap bm1 s1) = total_pages s1) as -> by by destruct s1. tauto.
Qed.

Lemma marks_mark_pages a b s :
  0 <= a -> total_pages s <= 32 * Z.of_nat (length (bitmap s)) -> marks s (mark_pages a b s) (fun x => a <= x < b).
Proof.
  intros Ha Hl. split; [apply for_pages_rest, set_bit_rest|]. intros x Hx. rewrite test_mark_pages by done.
  rewrite orb_true_iff, bool_decide_eq_true. split; (intros [?|?]; [by left|right; lia]).
Qed.

Lemma marks_fields s1 s2 P : marks s1 s2 P ->
  total_pages s2 = total_pages s1 /\ mem_size s2 = mem_size s1 /\ length (bitmap s2) = length (bitmap s1) /\
  buddy_heads s2 = buddy_heads s1 /\ buddy_meta s2 = buddy_meta s1.
Proof. intros [(bm & -> & L) _]. by destruct s1. Qed.

(** The pages [init_bitmap] keeps: page 0, the kernel with what follows it, the
    bitmap and the metadata. *)
Section init.
Context (s : PhysicalMemoryManager) (reserved_after_kernel : Z).

Definition bitmap_addr : Z := align_up (wrap_u64 (early_current s + align_up reserved_after_kernel)).
Definition bitmap_size : Z := div_ceil (total_pages s) 32 * 4.
Definition meta_addr : Z := align_up (bitmap_addr + bitmap_size).

Definition kept_page (x : Z) : Prop :=
  x = 0 \/ x < phys_to_page (kernel_end s + PAGE_SIZE - 1) + align_up reserved_after_kernel / PAGE_SIZE \/
  phys_to_page bitmap_addr <= x < phys_to_page bitmap_addr + div_ceil bitmap_size PAGE_SIZE \/
  phys_to_page meta_addr <= x < phys_to_page meta_addr + div_ceil (total_pages s) PAGE_SIZE.

Lemma div_ceil_spec a : 0 <= a -> a <= 32 * div_ceil a 32 < a + 32.
Proof. intros Ha. unfold div_ceil. pose proof (Z.div_mod a 32). pose proof (Z.mod_pos_bound a 32). destruct (Z.eqb_spec (a mod 32) 0); lia. Qed.

Lemma phys_to_page_nonneg a : 0 <= phys_to_page a.
Proof.
  unfold phys_to_page, wrap_u64, wrap. apply Z.div_pos; [|done]. apply Z.mod_pos_bound. lia.
Qed.

Lemma test_bit_zeros t n x : bitmap t = replicate n 0 -> test_bit t x = false.
Proof.
  intros H. rewrite test_bit_spec, H. destruct (_ <? _)%nat; [|done]. cbn.
  assert (nth (bitmap_word t x) (replicate n 0) 0 = 0) as ->; [|apply Z.bits_0].
  generalize (bitmap_word t x). clear. induction n as [|n IH]; intros [|k]; try done. apply IH.
Qed.

(** No free block: an empty pool. *)
Lemma pool_empty t :
  sizes t -> buddy_heads t = replicate 10 None ->
  buddy_meta t = Some (replicate (Z.to_nat (total_pages t)) BUDDY_ALLOCATED) -> pool t ∅.
Proof.
  intros Hsz Hh Hm. pose proof Hsz as (Ht & _). split_and!; [done| | |].
  - exists (fun _ => []). split; [split_and!|].
    + by rewrite Hh.
    + intros o Ho. split; [|apply NoDup_nil_2]. exists None. split; [|done]. unfold head. rewrite Hh.
      generalize (Z.to_nat o). clear. intros n. do 10 (destruct n as [|n]; [done|]). by destruct n.
    + by intros o o' p _ _ ?%not_elem_of_nil.
    + intros o p _. rewrite lookup_empty. split; [by intros ?%not_elem_of_nil|done].
  - exists (replicate (Z.to_nat (total_pages t)) BUDDY_ALLOCATED). split; [done|].
    split; [rewrite length_replicate; lia|]. intros p Hp. rewrite lookup_empty. cbn.
    generalize (Z.to_nat (total_pages t)) (Z.to_nat p). clear. induction n as [|n IH]; intros [|k]; try done. apply IH.
  - split; [by intros p o ?%lookup_empty_Some|]. by intros p q o o' x ?%lookup_empty_Some.
Qed.

(** The state when the lists are built: the marked bitmap, no free block. *)
Lemma marked_state :
  initialized s = false -> buddy_heads s = replicate 10 None ->
  0 <= total_pages s < 2 ^ 52 -> total_pages s * 4096 <= mem_size s ->
  exists t, init_bitmap reserved_after_kernel s = update_stats (set_ready (buddy_init_free_lists t)) /\
    pool t ∅ /\ total_pages t = total_pages s /\ 32 * Z.of_nat (length (bitmap t)) < total_pages t + 32 /\
    (forall x, 0 <= x -> test_bit t x = true <-> x < total_pages s /\ kept_page x).
Proof.
  intros Hi Hh Ht Hm. unfold init_bitmap. rewrite Hi. cbv zeta.
  pose proof (div_ceil_spec (total_pages s) ltac:(lia)) as Hw.
  set (words := div_ceil (total_pages s) 32) in *. set (s1 := set_buddy_meta _ _).
  assert (H1 : total_pages s1 = total_pages s /\ bitmap s1 = replicate (Z.to_nat words) 0 /\
    buddy_meta s1 = Some (replicate (Z.to_nat (total_pages s)) BUDDY_ALLOCATED) /\ buddy_heads s1 = replicate 10 None /\
    mem_size s1 = mem_size s /\ kernel_end s1 = kernel_end s) by by destruct s.
  destruct H1 as (Ht1 & Hb1 & Hm1 & Hh1 & Hs1 & Hk1). clearbody s1. rewrite Hk1.
  fold bitmap_addr. change (words * 4) with bitmap_size. fold meta_addr.
  assert (Hl1 : length (bitmap s1) = Z.to_nat words) by by rewrite Hb1, length_replicate.
  set (kp := phys_to_page (kernel_end s + PAGE_SIZE - 1) + _).
  pose proof (marks_mark_pages 0 kp s1 ltac:(lia) ltac:(lia)) as M2. set (s2 := mark_pages 0 kp s1) in *.
  destruct (marks_fields _ _ _ M2) as (Ht2 & _ & Hl2 & _).
  assert (M3 : marks s2 (if 0 <? total_pages s then set_bit 0 s2 else s2) (fun x => x = 0)).
  { destruct (Z.ltb_spec 0 (total_pages s)).
    - split; [apply set_bit_rest|]. intros x Hx. rewrite test_set_bit, orb_true_iff, Z.eqb_eq; [|done|done|].
      + split; (intros [?|?]; [by left|right; lia]).
      + unfold bitmap_word. rewrite Z.div_0_l by lia. lia.
    - split; [exists (bitmap s2); by destruct s2|]. intros x Hx. split; [by left|]. intros [?|[? ->]]; [done|lia]. }
  set (s3 := if 0 <? total_pages s then _ else _) in *. destruct (marks_fields _ _ _ M3) as (Ht3 & _ & Hl3 & _).
  pose proof (marks_mark_pages (phys_to_page bitmap_addr) (phys_to_page bitmap_addr + div_ceil bitmap_size PAGE_SIZE) s3
    (phys_to_page_nonneg _) ltac:(lia)) as M4. set (s4 := mark_pages (phys_to_page bitmap_addr) _ s3) in *.
  destruct (marks_fields _ _ _ M4) as (Ht4 & _ & Hl4 & _).
  pose proof (marks_mark_pages (phys_to_page meta_addr) (phys_to_page meta_addr + div_ceil (total_pages s) PAGE_SIZE) s4
    (phys_to_page_nonneg _) ltac:(lia)) as M5. set (s5 := mark_pages (phys_to_page meta_addr) _ s4) in *.
  pose proof (marks_trans _ _ _ _ _ (marks_trans _ _ _ _ _ (marks_trans _ _ _ _ _ M2 M3) M4) M5) as M.
  destruct (marks_fields _ _ _ M) as (Ht5 & Hs5 & Hl5 & Hh5 & Hm5). destruct M as [_ Hbits].
  exists s5. split; [done|]. split; [|split; [congruence|split; [lia|]]].
  - apply pool_empty; [unfold sizes; rewrite Ht5, Hs5, Hl5; lia|congruence|congruence].
  - intros x Hx. rewrite Hbits, (test_bit_zeros s1 (Z.to_nat words) x Hb1), Ht1 by done. unfold kept_page. fold kp.
    assert (0 <= x < kp <-> x < kp) by lia. intuition done.
Qed.

(** The free pages are those that were not kept, and the counters agree. *)
Lemma init_bitmap_ready :
  initialized s = false -> buddy_heads s = replicate 10 None ->
  0 <= total_pages s < 2 ^ 52 -> total_pages s * 4096 <= mem_size s ->
  exists F, ready (init_bitmap reserved_after_kernel s) F /\ forall x, x ∈ F <-> 0 <= x < total_pages s /\ ~ kept_page x.
Proof.
  intros Hi Hh Ht Hm. destruct (marked_state Hi Hh Ht Hm) as (t & -> & Hpool & Htt & Hl & Hbits).
  pose proof Hpool as ((_ & _ & Hcap) & _ & (m & Hme & _) & _).
  assert (Hnc : forall x, ~ covers ∅ x) by (intros x (p & o & ?%lookup_empty_Some & _); done).
  unfold buddy_init_free_lists. rewrite Hme.
  destruct (init_lists_loop_spec (Z.to_nat (total_pages t)) 0 t ∅ Hpool) as [B (Hpool1 & Hk1 & Hb1 & Hc1)]; [lia|lia|done|].
  set (u := init_lists_loop _ 0 t) in *. pose proof (kept_total _ _ _ _ Hk1) as Htu. destruct Hk1 as (_ & Hlu & _).
  assert (Hbu : forall x, 0 <= x -> test_bit u x = test_bit t x).
  { intros x Hx. destruct (Hb1 x Hx) as (H1 & H2 & H3). destruct (test_bit t x) eqn:E; [|by apply H2].
    apply H3. intros [Hc|[_ Hc]]%Hc1; [by apply (Hnc x)|congruence]. }
  exists (clear_pages t). split.
  - assert (Hcount : count_free_pages (set_ready u) = Z.of_nat (size (clear_pages t))).
    { rewrite count_free_pages_spec.
      - do 2 f_equal. apply set_eq. intros x. rewrite !elem_of_clear_pages.
        assert (total_pages (set_ready u) = total_pages t) as -> by (rewrite <- Htu; by destruct u).
        rewrite (test_bit_bitmap u (set_ready u)) by by destruct u.
        split; intros [? Hx]; (split; [done|]); [by rewrite <- Hbu by lia|by rewrite Hbu by lia].
      - destruct u; cbn in *. lia.
      - destruct u; cbn in *. lia.
      - intros x Hx. rewrite (test_bit_bitmap u (set_ready u)) by by destruct u.
        assert (total_pages t <= x) by (destruct u; cbn in *; lia).
        rewrite Hbu by lia. apply not_true_iff_false. rewrite Hbits by lia. lia. }
    unfold update_stats. rewrite Hcount. cbv zeta.
    assert (Hle : Z.of_nat (size (clear_pages t)) <= total_pages t).
    { rewrite <- (size_pages 0 (total_pages t)) by lia. apply inj_le, subseteq_size.
      intros x [Hx _]%elem_of_clear_pages. apply elem_of_pages. lia. }
    split_and!; [by destruct u|by destruct u|]. exists B. split_and!.
    + apply pool_set_usage. destruct Hpool1 as (H1 & (Ls & H2) & H3 & H4). destruct u. split_and!; try done. by exists Ls.
    + intros x. rewrite elem_of_clear_pages, Hc1. split; [by right|]. by intros [?%Hnc|?].
    + intros x Hx. assert (0 <= x < total_pages t) as Hx' by (destruct u; cbn in *; lia).
      rewrite (test_bit_bitmap u) by by destruct u. rewrite Hbu by lia.
      destruct (test_bit t x) eqn:E; [rewrite bool_decide_false|rewrite bool_decide_true]; try done;
        rewrite elem_of_clear_pages; [by intros [_ ?]; congruence|by split].
    + by destruct u.
    + assert (total_pages (set_ready u) = total_pages t) as -> by (rewrite <- Htu; by destruct u).
      rewrite wrap_u64_small by (unfold u64, U64_MAX; lia). destruct u. cbn in *. lia.
  - intros x. rewrite elem_of_clear_pages, Htt. split; intros [Hx Hy]; (split; [done|]).
    + intros Hkx. assert (test_bit t x = true) by (apply Hbits; [lia|split; [lia|done]]). congruence.
    + apply not_true_iff_false. rewrite Hbits by lia. tauto.
Qed.
End init.

(** The state [pmm_init] leaves, then [pmm_init_bitmap]. *)
Definition boot (mem_size kernel_end reserved_after_kernel : Z) : PhysicalMemoryManager :=
  init_bitmap reserved_after_kernel (init mem_size kernel_end new).

(** C2: after any sequence of allocations, releases, repeated releases, range
    reservations and of writes by the holders to their pages, starting from the
    boot state, the free lists, the metadata, the bitmap and the counters all
    describe one set [F] of free pages; the blocks handed out are aligned to
    their size, disjoint from each other and from [F]; and the pages held
    together with [F] are exactly the pages that were free at boot: none is
    lost, and none of the kernel's, the bitmap's and the metadata's pages is
    ever handed out. *)
Theorem pages_are_handed_out_once mem_size kernel_end r s H
  (Hsize : u64 mem_size)
  (Hsteps : rtc pmm_step (boot mem_size kernel_end r, ∅) (s, H)) :
  exists F, ready s F /\ holdings (total_pages s) H /\ (forall x, held H x -> x ∉ F) /\
    forall x, (x ∈ F \/ held H x) <-> 0 <= x < mem_size / PAGE_SIZE /\ ~ kept_page (init mem_size kernel_end new) r x.
Proof.
  set (s0 := init mem_size kernel_end new) in *.
  assert (total_pages s0 = mem_size / PAGE_SIZE /\ Pmm.mem_size s0 = mem_size) as [Ht Hm] by done.
  pose proof (Z.div_mod mem_size 4096 ltac:(lia)). pose proof (Z.mod_pos_bound mem_size 4096 ltac:(lia)).
  unfold u64, U64_MAX, PAGE_SIZE in *.
  destruct (init_bitmap_ready s0 r) as (F0 & HF0 & Hin); [done|done|rewrite Ht; lia|rewrite Ht, Hm; lia|].
  assert (Hz : 0 ∉ F0) by (intros [_ Hk]%Hin; apply Hk; by left).
  assert (Ha : accounted F0 s H).
  { refine (rtc_ind_r (fun y => accounted F0 y.1 y.2) (boot mem_size kernel_end r, ∅) _ _ (s, H) Hsteps).
    - cbn [fst snd]. exists F0. split; [exact HF0|]. split; split; [by intros p h ?%lookup_empty_Some|by intros p q h h' x ?%lookup_empty_Some| |].
      + by intros x (p & h & ?%lookup_empty_Some & _).
      + intros x. split; [by left|]. intros [?|(p & h & ?%lookup_empty_Some & _)]; done.
    - intros y z _ Hyz Hy. by eapply pmm_step_accounted. }
  destruct Ha as (F & HF & Hh & Hdj & Hpart). exists F. split_and!; [done|done|done|].
  intros x. by rewrite <- Hpart, Hin, Ht.
Qed.

Lemma pages_are_handed_out_once_witness :
  u64 262144 /\ exists s F, alloc_page (boot 262144 8192 0) = (Some 258048, s) /\ ready s F /\ 63 ∉ F.
Proof.
  assert (Hu : u64 262144) by by vm_compute. split; [done|].
  assert (E : alloc_page (boot 262144 8192 0) = (Some 258048, (alloc_page (boot 262144 8192 0)).2)) by (vm_compute; reflexivity).
  exists (alloc_page (boot 262144 8192 0)).2.
  destruct (pages_are_handed_out_once 262144 8192 0 _ _ Hu
    (rtc_once _ _ (step_alloc_page _ _ ∅ 258048 E))) as (F & HF & _ & Hd & _).
  exists F. split; [exact E|]. split; [exact HF|]. apply Hd. exists 63, (Block 0). split; [by vm_compute|]. cbn. lia.
Defined.

(** C13: the allocator refines the set of free pages.  A request succeeds with an
    aligned block of free pages, exactly these leave the set and no page outside
    the set is written to; a request for one page fails only when the set is
    empty; releasing the block restores the set. *)
Theorem buddy_refines_free_set o s F
  (Hready : ready s F) (Ho : 0 <= o <= MAX_BUDDY_ORDER) :
  match do_alloc o s with
  | (Some a, s') =>
      exists p, a = page_to_phys p /\ p mod 2 ^ o = 0 /\ pages p (2 ^ o) ⊆ F /\
        ready s' (F ∖ pages p (2 ^ o)) /\ same_elsewhere s s' F /\ ready (do_free a o s') F
  | (None, s') => s' = s /\ (o = 0 -> F = ∅)
  end.
Proof.
  pose proof (do_alloc_spec o s F Hready Ho) as Hs. destruct (do_alloc o s) as [[a|] s'] eqn:E; [|done].
  pose proof (alloc_outcome s F o _ _ Hready Ho E) as (Ha & (Hp & _ & Ht & _ & Hm) & Hsub & HF' & Hel). cbn [extent] in *.
  set (p := phys_to_page a) in *. exists p. split_and!; [done|done|done|done|done|].
  destruct (do_free_spec o p s' _ HF' Ho Hp Hm) as [HF'' _]; [by destruct Hel as [-> _]|set_solver|].
  rewrite Ha. replace F with (F ∖ pages p (2 ^ o) ∪ pages p (2 ^ o)) by (symmetry; rewrite difference_union_L; set_solver).
  done.
Qed.

Lemma boot_ready : exists F, ready (boot 262144 8192 0) F /\ 63 ∈ F.
Proof.
  destruct (init_bitmap_ready (init 262144 8192 new) 0) as (F & HF & Hin); [done|done|by vm_compute|by vm_compute|].
  exists F. split; [done|]. apply Hin. split; [vm_compute; done|].
  unfold kept_page. intros [?|[Hx|[[_ Hx]|[_ Hx]]]]; [lia|by vm_compute in Hx..].
Qed.

Lemma buddy_refines_free_set_witness :
  0 <= 3 <= MAX_BUDDY_ORDER /\ exists F s, ready (boot 262144 8192 0) F /\
    do_alloc 3 (boot 262144 8192 0) = (Some (page_to_phys 48), s) /\ ready (do_free (page_to_phys 48) 3 s) F.
Proof.
  assert (Ho : 0 <= 3 <= MAX_BUDDY_ORDER) by by vm_compute. split; [done|].
  destruct boot_ready as (F & HF & _).
  assert (E : do_alloc 3 (boot 262144 8192 0) = (Some (page_to_phys 48), (do_alloc 3 (boot 262144 8192 0)).2))
    by (vm_compute; reflexivity).
  exists F, (do_alloc 3 (boot 262144 8192 0)).2. split; [done|]. split; [exact E|].
  pose proof (buddy_refines_free_set 3 (boot 262144 8192 0) F HF Ho) as Hs. rewrite E in Hs.
  destruct Hs as (p & _ & _ & _ & _ & _ & Hf). exact Hf.
Defined.

(** *** Where the orders are computed too small *)

(** A request for more than 512 pages is served with 512. *)
Lemma large_requests_are_cut count : 512 < count -> 2 ^ count_to_order count = 512.
Proof.
  intros Hc. unfold count_to_order, MAX_BUDDY_ORDER. rewrite (proj2 (Z.leb_gt count 1)) by lia.
  assert (9 <= Z.log2 (count - 1)) by (apply Z.log2_le_pow2; lia).
  by rewrite (proj2 (Z.ltb_lt 9 (Z.log2 (count - 1) + 1))) by lia.
Qed.

(** A request is not cut below. *)
Lemma requests_fit count : count <= 512 -> count <= 2 ^ count_to_order count.
Proof.
  intros Hc. unfold count_to_order, MAX_BUDDY_ORDER. destruct (Z.leb_spec count 1); [cbn; lia|].
  pose proof (Z.log2_spec (count - 1) ltac:(lia)). rewrite Z.add_1_r.
  destruct (Z.ltb_spec 9 (Z.succ (Z.log2 (count - 1)))); [cbn; lia|lia].
Qed.

(** A free run of exactly [2 ^ k] aligned pages is split when the lists are built. *)
Lemma init_splits_a_run k : 1 <= k <= 9 -> init_max_order (2 ^ k) = k - 1.
Proof.
  intros Hk. unfold init_max_order, MAX_BUDDY_ORDER. pose proof (Z.pow_le_mono_r 2 1 k ltac:(lia) ltac:(lia)).
  rewrite (proj2 (Z.eqb_neq _ 1)) by lia.
  assert (Z.log2 (2 ^ k - 1) = k - 1) as ->; [|lia]. rewrite Z.sub_1_r. apply Z.log2_pred_pow2. lia.
Qed.

(** The last 32 pages are free and aligned, and no block of 32 pages is found. *)
Example boot_run_is_unusable :
  forallb (fun p => negb (test_bit (boot 262144 8192 0) p)) (seqZ 32 32) = true /\
  fst (do_alloc 5 (boot 262144 8192 0)) = None.
Proof. by vm_compute. Qed.

(** Releasing a 1 GiB page does not give its pages back to the counter. *)
Lemma free_pages_push s p o : free_pages (buddy_list_push p o s) = free_pages s.
Proof.
  unfold buddy_list_push. destruct (for_pages_rest clear_bit p (2 ^ o) s clear_bit_rest) as (bm & -> & _).
  unfold head, put_node, set_prev, put_node, node_at, set_head. destruct s. cbn. by case_match.
Qed.

Lemma free_pages_remove s p o : free_pages (buddy_list_remove p o s) = free_pages s.
Proof.
  unfold buddy_list_remove. destruct (negb _); [done|]. cbv zeta.
  unfold set_head, set_next, set_prev, put_node. destruct (prev _), (next _); by destruct s.
Qed.

Lemma free_pages_merge fuel p o limit s : free_pages (merge_loop fuel p o limit s).2 = free_pages s.
Proof.
  revert p o s. induction fuel as [|fuel IH]; intros p o s; [done|]. cbn [merge_loop]. repeat case_match; try done.
  rewrite IH, <- (free_pages_remove s (Z.lxor p (2 ^ o)) o). unfold meta_write. by destruct (buddy_list_remove _ o s).
Qed.

Lemma free_pages_insert fuel cur e s : free_pages (insert_range_loop fuel cur e s) = free_pages s.
Proof.
  revert cur s. induction fuel as [|fuel IH]; intros cur s; [done|]. cbn [insert_range_loop].
  destruct (cur <? e); [|done]. cbv zeta. unfold buddy_try_merge. destruct (buddy_meta s).
  - pose proof (free_pages_merge (Z.to_nat (MAX_BUDDY_ORDER - Z.of_nat (fit_order (Z.to_nat (Z.min (Z.log2 (e - cur))
      MAX_BUDDY_ORDER)) cur (e - cur)))) cur (Z.of_nat (fit_order (Z.to_nat (Z.min (Z.log2 (e - cur)) MAX_BUDDY_ORDER))
      cur (e - cur))) e s) as Hm.
    destruct (merge_loop _ _ _ _ _) as [[p o] s1]. cbn in Hm. rewrite IH, free_pages_push, <- Hm. unfold meta_write. by destruct s1.
  - by rewrite IH, free_pages_push.
Qed.

Lemma huge_free_keeps_counter s addr : free_pages (free_huge_page addr Size1G s) = free_pages s.
Proof.
  unfold free_huge_page. cbv zeta. set (np := page_bytes Size1G / PAGE_SIZE).
  destruct (for_pages_rest clear_bit (phys_to_page addr) np s clear_bit_rest) as (bm & -> & _).
  assert (free_pages (buddy_free_insert_range (phys_to_page addr) np (set_bitmap bm s)) = free_pages s) as <-.
  { unfold buddy_free_insert_range. destruct (buddy_meta _); [rewrite free_pages_insert|]; by destruct s. }
  unfold count_free. by destruct (buddy_free_insert_range _ _ _).
Qed.

(** A page handed out before the bitmap exists is free for it. *)
Example early_page_handed_out_again :
  let '(a, s) := early_alloc_single (init 262144 8192 new) in
  a = Some (page_to_phys 2) /\ test_bit (init_bitmap 0 s) 2 = false.
Proof. by vm_compute. Qed.

(** A rollback restores the counters and leaves the pages allocated. *)
Example rollback_restores_only_counters :
  let s := boot 262144 8192 0 in
  let s' := pmm_barrier_rollback (Some (pmm_barrier_capture s)) (alloc_page s).2 in
  (free_pages s', count_free_pages s') = (60, 59).
Proof. by vm_compute. Qed.

(** The marks are in order. *)
Lemma watermarks_ordered total : let w := watermarks total in Pmm.min w <= low w <= high w.
Proof. unfold watermarks. cbn. pose proof (Z.div_mod (Z.max (total * 125 / 10000) 16 * 3) 2 ltac:(lia)).
  pose proof (Z.mod_pos_bound (Z.max (total * 125 / 10000) 16 * 3) 2 ltac:(lia)). lia. Qed.

End PmmSpec.
