(* ===== verification/Process.v ===== *)
(** * Processes and their table (framework/proc/process.rs, services/proc/types.rs)

    [Process] keeps the fields the scheduler and the table use; a [Process] is
    a box at an address, the table holds addresses, [boxes] is the heap (a new
    box gets an address that was never used).  Reading through an address that
    was freed is undefined in the source; here it finds nothing, and [dangling]
    says where it can happen. *)
From S2P Require Import Prelude.

Module Process.

Definition MAX_PROCESSES : Z := 256.
Definition NICE0_WEIGHT : Z := 1024.

Inductive ProcessState : Type := Created | Ready | Running | Blocked | Zombie | Terminated | Frozen.

#[export] Instance ProcessState_eq_dec : EqDecision ProcessState.
Proof. solve_decision. Defined.

Definition from_u8 (value : Z) : ProcessState :=
  match value with
  | 0 => Created | 1 => Ready | 2 => Running | 3 => Blocked | 4 => Zombie | 5 => Terminated | 6 => Frozen
  | _ => Created
  end.
Definition as_u8 (s : ProcessState) : Z :=
  match s with Created => 0 | Ready => 1 | Running => 2 | Blocked => 3 | Zombie => 4 | Terminated => 5 | Frozen => 6 end.

Definition is_runnable (s : ProcessState) : bool := match s with Ready | Running => true | _ => false end.
Definition is_alive (s : ProcessState) : bool := match s with Zombie | Terminated => false | _ => true end.
Definition can_freeze (s : ProcessState) : bool := match s with Running | Ready | Blocked => true | _ => false end.
Definition thaw_target_state (s : ProcessState) : option ProcessState :=
  match s with Frozen => Some Ready | _ => None end.

Inductive BlockReason : Type := WaitingForIo | WaitingForChild | WaitingForSignal | Sleeping | FutexWait | Unknown.

#[export] Instance BlockReason_eq_dec : EqDecision BlockReason.
Proof. solve_decision. Defined.

Inductive ProcessPriority : Type := Idle | Low | Normal | High | RealTime.

Inductive SchedPolicy : Type := SchedNormal | Fifo | Rr | SchedIdle | Deadline.

#[export] Instance SchedPolicy_eq_dec : EqDecision SchedPolicy.
Proof. solve_decision. Defined.

Definition SchedPolicy_from_u32 (value : Z) : SchedPolicy :=
  match value with 0 => SchedNormal | 1 => Fifo | 2 => Rr | 3 => SchedIdle | 4 => Deadline | _ => SchedNormal end.

Record Process : Type := mkProcess {
  pid : Z;
  pwm : Z;
  state : ProcessState;
  priority : ProcessPriority;
  parent : option Z;
  children : list Z;
  exit_code : Z;
  block_reason : BlockReason;
  sched_policy : SchedPolicy;
  rt_priority : Z;
  nice : Z;
  cfs_vruntime : Z;
  cfs_weight : Z;
  cfs_sum_exec_runtime : Z;
  cfs_on_rq : bool;
  dl_runtime : Z;
  dl_deadline : Z;
  dl_period : Z;
  dl_abs : Z;
  dl_remaining : Z;
  cpuset_allowed : Z;
  sleep_until : Z;
  ref_count : Z;
  pending_free : bool;
  pending_signals : Z;
}.

Definition new (p : Z) (par : option Z) : Process :=
  mkProcess p 0 Created Normal par [] 0 Unknown SchedNormal 0 0 0 NICE0_WEIGHT 0 false 0 0 0 0 0 U64_MAX 0 1 false 0.

(** Field updates. *)
Definition set_pwm v (p : Process) : Process :=
  let 'mkProcess a _ c d e f g h i j k l m n o p q r s t u w x y z := p in
  mkProcess a v c d e f g h i j k l m n o p q r s t u w x y z.
Definition store_state v (p : Process) : Process :=
  let 'mkProcess a b _ d e f g h i j k l m n o p q r s t u w x y z := p in
  mkProcess a b v d e f g h i j k l m n o p q r s t u w x y z.
Definition set_priority v (p : Process) : Process :=
  let 'mkProcess a b c _ e f g h i j k l m n o p q r s t u w x y z := p in
  mkProcess a b c v e f g h i j k l m n o p q r s t u w x y z.
Definition set_parent v (p : Process) : Process :=
  let 'mkProcess a b c d _ f g h i j k l m n o p q r s t u w x y z := p in
  mkProcess a b c d v f g h i j k l m n o p q r s t u w x y z.
Definition set_children v (p : Process) : Process :=
  let 'mkProcess a b c d e _ g h i j k l m n o p q r s t u w x y z := p in
  mkProcess a b c d e v g h i j k l m n o p q r s t u w x y z.
Definition set_exit_code v (p : Process) : Process :=
  let 'mkProcess a b c d e f _ h i j k l m n o p q r s t u w x y z := p in
  mkProcess a b c d e f v h i j k l m n o p q r s t u w x y z.
Definition set_block_reason v (p : Process) : Process :=
  let 'mkProcess a b c d e f g _ i j k l m n o p q r s t u w x y z := p in
  mkProcess a b c d e f g v i j k l m n o p q r s t u w x y z.
Definition set_sched_policy v (p : Process) : Process :=
  let 'mkProcess a b c d e f g h _ j k l m n o p q r s t u w x y z := p in
  mkProcess a b c d e f g h v j k l m n o p q r s t u w x y z.
Definition set_rt_priority v (p : Process) : Process :=
  let 'mkProcess a b c d e f g h i _ k l m n o p q r s t u w x y z := p in
  mkProcess a b c d e f g h i v k l m n o p q r s t u w x y z.
Definition store_nice ni we (p : Process) : Process :=
  let 'mkProcess a b c d e f g h i j _ l _ n o p q r s t u w x y z := p in
  mkProcess a b c d e f g h i j ni l we n o p q r s t u w x y z.
Definition store_cfs vr sum (p : Process) : Process :=
  let 'mkProcess a b c d e f g h i j k _ m _ o p q r s t u w x y z := p in
  mkProcess a b c d e f g h i j k vr m sum o p q r s t u w x y z.
Definition set_on_rq v (p : Process) : Process :=
  let 'mkProcess a b c d e f g h i j k l m n _ p q r s t u w x y z := p in
  mkProcess a b c d e f g h i j k l m n v p q r s t u w x y z.
Definition store_dl runtime deadline period (p : Process) : Process :=
  let 'mkProcess a b c d e f g h i j k l m n o _ _ _ s t u w x y z := p in
  mkProcess a b c d e f g h i j k l m n o runtime deadline period s t u w x y z.
Definition store_dl_now abs remaining (p : Process) : Process :=
  let 'mkProcess a b c d e f g h i j k l m n o p q r _ _ u w x y z := p in
  mkProcess a b c d e f g h i j k l m n o p q r abs remaining u w x y z.
Definition set_affinity v (p : Process) : Process :=
  let 'mkProcess a b c d e f g h i j k l m n o p q r s t _ w x y z := p in
  mkProcess a b c d e f g h i j k l m n o p q r s t v w x y z.
Definition set_sleep_until v (p : Process) : Process :=
  let 'mkProcess a b c d e f g h i j k l m n o p q r s t u _ x y z := p in
  mkProcess a b c d e f g h i j k l m n o p q r s t u v x y z.
Definition store_refs rc pf (p : Process) : Process :=
  let 'mkProcess a b c d e f g h i j k l m n o p q r s t u w _ _ z := p in
  mkProcess a b c d e f g h i j k l m n o p q r s t u w rc pf z.
Definition store_signals v (p : Process) : Process :=
  let 'mkProcess a b c d e f g h i j k l m n o p q r s t u w x y _ := p in
  mkProcess a b c d e f g h i j k l m n o p q r s t u w x y v.

(** The transitions [set_state_safe] admits. *)
Definition legal (current new_state : ProcessState) : bool :=
  match current, new_state with
  | Created, Ready | Ready, Running
  | Running, Ready | Running, Blocked | Running, Zombie | Running, Frozen
  | Ready, Frozen | Blocked, Frozen | Blocked, Ready | Blocked, Zombie
  | Zombie, Terminated | Frozen, Ready | Frozen, Blocked => true
  | _, _ => false
  end.

Definition set_state_safe (new_state : ProcessState) (p : Process) : bool * Process :=
  if legal (state p) new_state then (true, store_state new_state p) else (false, p).

(** [let _ = p.set_state_safe(s)]. *)
Definition try_state (new_state : ProcessState) (p : Process) : Process := (set_state_safe new_state p).2.

Definition signal_pending_set (sig : Z) (p : Process) : Process :=
  store_signals (Z.lor (pending_signals p) (2 ^ (sig mod 64))) p.
Definition signal_pending_clear (mask : Z) (p : Process) : Process :=
  store_signals (Z.land (pending_signals p) (not_u64 mask)) p.

(** ** The table *)
Record ProcessTable : Type := mkTable {
  processes : list (option nat);
  pid_bitmap : list bool;
  next_search : Z;
  boxes : gmap nat Process;
  next_box : nat;
}.

Definition empty_table : ProcessTable :=
  mkTable (replicate (Z.to_nat MAX_PROCESSES) None) (replicate (Z.to_nat MAX_PROCESSES) false) 2 ∅ 0.

Definition set_processes v (t : ProcessTable) : ProcessTable :=
  mkTable v (pid_bitmap t) (next_search t) (boxes t) (next_box t).
Definition set_pids v n (t : ProcessTable) : ProcessTable :=
  mkTable (processes t) v n (boxes t) (next_box t).
Definition set_boxes v (t : ProcessTable) : ProcessTable :=
  mkTable (processes t) (pid_bitmap t) (next_search t) v (next_box t).

(** [Box::into_raw(Box::new(p))]. *)
Definition box (p : Process) (t : ProcessTable) : nat * ProcessTable :=
  (next_box t, mkTable (processes t) (pid_bitmap t) (next_search t) (<[next_box t := p]> (boxes t)) (S (next_box t))).

Fixpoint scan_pids (fuel : nat) (idx : Z) (t : ProcessTable) : option Z * ProcessTable :=
  match fuel with
  | O => (None, t)
  | S fuel =>
      let idx := idx mod MAX_PROCESSES in
      if negb (nth (Z.to_nat idx) (pid_bitmap t) true)
      then (Some idx, set_pids (<[Z.to_nat idx := true]> (pid_bitmap t)) ((idx + 1) mod MAX_PROCESSES) t)
      else scan_pids fuel (idx + 1) t
  end.
Definition allocate_pid (t : ProcessTable) : option Z * ProcessTable :=
  scan_pids (Z.to_nat MAX_PROCESSES) (next_search t) t.

Definition free_pid (p : Z) (t : ProcessTable) : ProcessTable :=
  if (p <? MAX_PROCESSES) && nth (Z.to_nat p) (pid_bitmap t) false
  then set_pids (<[Z.to_nat p := false]> (pid_bitmap t)) (next_search t) t else t.

Definition insert (a : nat) (t : ProcessTable) : bool * ProcessTable :=
  match boxes t !! a with
  | None => (false, t)
  | Some p =>
      if MAX_PROCESSES <=? pid p then (false, t)
      else (true, set_processes (<[Z.to_nat (pid p) := Some a]> (processes t)) t)
  end.

Definition get (p : Z) (t : ProcessTable) : option nat :=
  if MAX_PROCESSES <=? p then None else nth (Z.to_nat p) (processes t) None.

Definition lookup (p : Z) (t : ProcessTable) : option Process :=
  match get p t with Some a => boxes t !! a | None => None end.

(** A slot whose box was freed. *)
Definition dangling (p : Z) (t : ProcessTable) : Prop := exists a, get p t = Some a /\ boxes t !! a = None.

(** [with_process(pid, |p| ..)] for an update of the process. *)
Definition with_process (p : Z) (f : Process -> Process) (t : ProcessTable) : ProcessTable :=
  match get p t with
  | Some a => match boxes t !! a with Some q => set_boxes (<[a := f q]> (boxes t)) t | None => t end
  | None => t
  end.

Definition remove (p : Z) (t : ProcessTable) : option nat * ProcessTable :=
  match get p t with
  | Some a => (Some a, set_processes (<[Z.to_nat p := None]> (processes t)) t)
  | None => (None, t)
  end.

(** The slot is cleared, the box dropped, the number returned. *)
Definition release (p : Z) (a : nat) (t : ProcessTable) : ProcessTable :=
  let t := set_processes (<[Z.to_nat p := None]> (processes t)) t in
  let t := set_boxes (delete a (boxes t)) t in
  free_pid p t.

Definition dec_ref (p : Process) : Z * Process :=
  let v := wrap_u32 (ref_count p - 1) in (v, store_refs v (pending_free p) p).

Definition remove_and_free (p : Z) (t : ProcessTable) : ProcessTable :=
  match get p t with
  | None => t
  | Some a =>
      match boxes t !! a with
      | None => t
      | Some q =>
          let '(prev, q) := dec_ref (store_refs (ref_count q) true q) in
          let t := set_boxes (<[a := q]> (boxes t)) t in
          if prev =? 0 then release p a t else t
      end
  end.

Definition try_inc_ref (p : Z) (t : ProcessTable) : bool * ProcessTable :=
  match get p t with
  | None => (false, t)
  | Some a =>
      match boxes t !! a with
      | None => (false, t)
      | Some q =>
          if 0 <? ref_count q
          then (true, set_boxes (<[a := store_refs (wrap_u32 (ref_count q + 1)) (pending_free q) q]> (boxes t)) t)
          else (false, t)
      end
  end.

Definition dec_ref_and_maybe_free (p : Z) (t : ProcessTable) : ProcessTable :=
  match get p t with
  | None => t
  | Some a =>
      match boxes t !! a with
      | None => t
      | Some q =>
          let '(prev, q) := dec_ref q in
          let t := set_boxes (<[a := q]> (boxes t)) t in
          if (prev =? 0) && pending_free q then release p a t else t
      end
  end.

(** ** Barriers *)
Record ProcSnapshot : Type := mkSnapshot {
  snap_bitmap : list bool;
  snap_next : Z;
  slots : list (option nat);
}.

Definition proc_barrier_capture (t : ProcessTable) : ProcSnapshot :=
  mkSnapshot (pid_bitmap t) (next_search t) (processes t).
Definition proc_barrier_rollback (snap : option ProcSnapshot) (t : ProcessTable) : ProcessTable :=
  match snap with
  | None => t
  | Some s => mkTable (slots s) (snap_bitmap s) (snap_next s) (boxes t) (next_box t)
  end.

End Process.

Module ProcessFacts.
Import Process.

(** Who holds a process: whether it still is in the care of the table, and how
    many references were taken on it. *)
Abbreviation holders := (gmap Z (bool * nat)).

(** One call, by someone who is entitled to it: a reference is dropped by a
    holder, a process is removed once, an update keeps the number and the
    reference count. *)
Inductive table_step : ProcessTable * holders -> ProcessTable * holders -> Prop :=
  | step_create t t1 G p par : allocate_pid t = (Some p, t1) ->
      table_step (t, G) ((insert (box (new p par) t1).1 (box (new p par) t1).2).2, <[p := (true, O)]> G)
  | step_inc_ref t t' G p own n : try_inc_ref p t = (true, t') -> G !! p = Some (own, n) -> u32 (Z.of_nat n + 2) ->
      table_step (t, G) (t', <[p := (own, S n)]> G)
  | step_inc_ref_fails t t' G p : try_inc_ref p t = (false, t') -> table_step (t, G) (t', G)
  | step_dec_ref t G p own n : G !! p = Some (own, S n) ->
      table_step (t, G) (dec_ref_and_maybe_free p t, if own || (0 <? n)%nat then <[p := (own, n)]> G else delete p G)
  | step_remove t G p n : G !! p = Some (true, n) ->
      table_step (t, G) (remove_and_free p t, if (0 <? n)%nat then <[p := (false, n)]> G else delete p G)
  | step_update t G p f : 0 <= p ->
      (forall q, pid (f q) = pid q /\ ref_count (f q) = ref_count q /\ pending_free (f q) = pending_free q) ->
      table_step (t, G) (with_process p f t, G).

(** A slot, its box and its holders. *)
Definition slot_ok (t : ProcessTable) (p : Z) (g : option (bool * nat)) : Prop :=
  match g with
  | Some (own, n) => exists a q, get p t = Some a /\ boxes t !! a = Some q /\ pid q = p /\
      ref_count q = Z.b2z own + Z.of_nat n /\ pending_free q = negb own /\ 0 < ref_count q /\ u32 (ref_count q)
  | None => get p t = None
  end.

Definition table_ok (t : ProcessTable) (G : holders) : Prop :=
  length (processes t) = Z.to_nat MAX_PROCESSES /\ length (pid_bitmap t) = Z.to_nat MAX_PROCESSES /\ 0 <= next_search t /\
  (forall p g, G !! p = Some g -> 0 <= p < MAX_PROCESSES) /\
  (forall p, 0 <= p < MAX_PROCESSES -> slot_ok t p (G !! p) /\
     nth (Z.to_nat p) (pid_bitmap t) true = bool_decide (is_Some (G !! p))) /\
  (forall a q, boxes t !! a = Some q -> (a < next_box t)%nat /\ get (pid q) t = Some a /\ 0 <= pid q).

Lemma get_in_range p a t : get p t = Some a -> p < MAX_PROCESSES.
Proof. unfold get. destruct (Z.leb_spec MAX_PROCESSES p); [done|lia]. Qed.

Lemma get_set_slot p q v t :
  length (processes t) = Z.to_nat MAX_PROCESSES -> 0 <= p < MAX_PROCESSES -> 0 <= q < MAX_PROCESSES ->
  get q (set_processes (<[Z.to_nat p := v]> (processes t)) t) = if decide (q = p) then v else get q t.
Proof.
  intros Hl Hp Hq. unfold get. rewrite (proj2 (Z.leb_gt _ _)) by lia. cbn.
  destruct (decide (q = p)) as [->|]; [apply nth_insert_eq; lia|apply nth_insert_ne; lia].
Qed.

Lemma nth_bitmap p q v (l : list bool) d :
  length l = Z.to_nat MAX_PROCESSES -> 0 <= p < MAX_PROCESSES -> 0 <= q < MAX_PROCESSES ->
  nth (Z.to_nat q) (<[Z.to_nat p := v]> l) d = if decide (q = p) then v else nth (Z.to_nat q) l d.
Proof.
  intros Hl Hp Hq. destruct (decide (q = p)) as [->|]; [apply nth_insert_eq; lia|apply nth_insert_ne; lia].
Qed.

(** Updating the box of a slot. *)
Lemma table_ok_update t G p a q q' own n :
  table_ok t G -> get p t = Some a -> 0 <= p -> boxes t !! a = Some q -> pid q' = pid q -> pid q = p ->
  ref_count q' = Z.b2z own + Z.of_nat n -> pending_free q' = negb own -> 0 < ref_count q' -> u32 (ref_count q') ->
  is_Some (G !! p) ->
  table_ok (set_boxes (<[a := q']> (boxes t)) t) (<[p := (own, n)]> G).
Proof.
  intros (Hl1 & Hl2 & Hns & Hdom & Hs & Hb) Hget Hp0 Hq Hpid Hpq Hr Hf H0 Hu HG. pose proof (get_in_range _ _ _ Hget) as Hp.
  split_and!; [done|done|done| | |].
  - intros r v [[<- _]|[_ Hv]]%lookup_insert_Some; [lia|by eapply Hdom].
  - intros r Hr'. destruct (Hs r Hr') as [Hsl Hbm]. destruct (decide (r = p)) as [->|Hne].
    + rewrite lookup_insert_eq. split; [|cbn; rewrite Hbm, !bool_decide_true by done; done].
      exists a, q'. cbn [boxes set_boxes]. rewrite lookup_insert_eq. split_and!; try done; congruence.
    + rewrite lookup_insert_ne by done. split; [|done]. destruct (G !! r) as [[ow m]|]; [|done].
      destruct Hsl as (a' & r' & Hg & Hb' & Hpr & ?). exists a', r'. cbn [boxes set_boxes].
      rewrite lookup_insert_ne; [done|]. intros ->. rewrite Hq in Hb'. congruence.
  - intros b r. cbn [boxes set_boxes next_box]. intros [[<- <-]|[Hne Hr']]%lookup_insert_Some.
    + rewrite Hpid. by apply Hb.
    + by apply Hb.
Qed.

(** Releasing the slot of a process without holders. *)
Lemma table_ok_release t G p a :
  table_ok t G -> get p t = Some a -> 0 <= p -> is_Some (boxes t !! a) -> is_Some (G !! p) ->
  table_ok (release p a t) (delete p G).
Proof.
  intros (Hl1 & Hl2 & Hns & Hdom & Hs & Hb) Hget Hp0 [q0 Hq0] HG. pose proof (get_in_range _ _ _ Hget) as Hp.
  destruct (Hs p ltac:(lia)) as [Hsl Hbm]. rewrite bool_decide_true in Hbm by done.
  assert (Hpq : pid q0 = p).
  { destruct HG as [[ow m] HG]. rewrite HG in Hsl. destruct Hsl as (? & ? & ? & ? & ? & _). congruence. }
  assert (Hn : nth (Z.to_nat p) (pid_bitmap t) false = true).
  { rewrite <- Hbm. apply nth_indep. lia. }
  unfold release, free_pid. cbn [pid_bitmap set_boxes set_processes next_search].
  rewrite (proj2 (Z.ltb_lt _ _) Hp), Hn. cbn [andb].
  set (t' := set_pids _ _ _).
  assert (Hget' : forall r, 0 <= r < MAX_PROCESSES -> get r t' = if decide (r = p) then None else get r t).
  { intros r Hr. exact (get_set_slot p r None t Hl1 ltac:(lia) Hr). }
  assert (Hpid0 : forall b r, boxes t !! b = Some r -> b <> a -> pid r <> p).
  { intros b r Hr Hne Hpr. apply Hb in Hr as (_ & Hg & _). rewrite Hpr in Hg. congruence. }
  split_and!.
  - cbn. by rewrite length_insert.
  - cbn. by rewrite length_insert.
  - done.
  - intros r v [_ Hv]%lookup_delete_Some. by eapply Hdom.
  - intros r Hr. destruct (Hs r Hr) as [Hsl' Hbm']. cbn [pid_bitmap t' set_pids].
    rewrite nth_bitmap by done. specialize (Hget' r Hr). destruct (decide (r = p)) as [->|Hne].
    + rewrite lookup_delete_eq. split; [exact Hget'|]. rewrite bool_decide_false; [done|]. by intros [? ?].
    + rewrite lookup_delete_ne by done. split; [|done]. destruct (G !! r) as [[ow m]|]; unfold slot_ok in *; [|congruence].
      destruct Hsl' as (a' & r' & Hg & Hb' & Hpr & ?). exists a', r'. rewrite Hget'.
      cbn [boxes t' set_pids set_boxes]. rewrite lookup_delete_ne; [done|]. intros ->. congruence.
  - intros b r Hr. cbn in Hr. apply lookup_delete_Some in Hr as [Hne Hr]. pose proof (Hpid0 b r Hr ltac:(done)).
    apply Hb in Hr as (Hlt & Hg & H0). split; [done|]. pose proof (get_in_range _ _ _ Hg).
    rewrite Hget', decide_False by (done || lia). done.
Qed.

Lemma scan_pids_Some fuel : forall idx t p t', scan_pids fuel idx t = (Some p, t') ->
  0 <= p < MAX_PROCESSES /\ nth (Z.to_nat p) (pid_bitmap t) true = false /\
  t' = set_pids (<[Z.to_nat p := true]> (pid_bitmap t)) ((p + 1) mod MAX_PROCESSES) t.
Proof.
  induction fuel as [|fuel IH]; intros idx t p t'; [done|]. cbn [scan_pids].
  destruct (nth _ _ _) eqn:E; cbn [negb]; [apply IH|]. intros [= <- <-].
  split; [apply Z.mod_pos_bound; done|]. done.
Qed.

Lemma scan_pids_None fuel : forall idx t t', scan_pids fuel idx t = (None, t') -> 0 <= idx ->
  t' = t /\ forall k, 0 <= k < Z.of_nat fuel -> nth (Z.to_nat ((idx + k) mod MAX_PROCESSES)) (pid_bitmap t) true = true.
Proof.
  induction fuel as [|fuel IH]; intros idx t t'; cbn [scan_pids]; [intros [= <-] _; split; [done|lia]|].
  destruct (nth _ _ _) eqn:E; cbn [negb]; [|done]. intros [-> H]%IH Hi; [|pose proof (Z.mod_pos_bound idx MAX_PROCESSES eq_refl); lia].
  split; [done|]. intros k Hk. destruct (decide (k = 0)) as [->|]; [by rewrite Z.add_0_r|].
  specialize (H (k - 1) ltac:(lia)). replace (idx mod MAX_PROCESSES + 1 + (k - 1)) with (idx mod MAX_PROCESSES + k) in H by lia.
  by rewrite Z.add_mod_idemp_l in H.
Qed.

Lemma scan_pids_full fuel idx t t' p : scan_pids fuel idx t = (None, t') -> 0 <= idx -> fuel = Z.to_nat MAX_PROCESSES ->
  0 <= p < MAX_PROCESSES -> nth (Z.to_nat p) (pid_bitmap t) true = true.
Proof.
  intros H Hi -> Hp. apply scan_pids_None in H as [_ H]; [|done].
  specialize (H ((p - idx) mod MAX_PROCESSES)). rewrite Z.add_mod_idemp_r in H by done.
  replace (idx + (p - idx)) with p in H by lia. rewrite (Z.mod_small p) in H by done. apply H.
  rewrite Z2Nat.id by done. by apply Z.mod_pos_bound.
Qed.

(** A new process in a free slot. *)
Lemma table_ok_create t t1 G p par : table_ok t G -> allocate_pid t = (Some p, t1) ->
  G !! p = None /\ table_ok (insert (box (new p par) t1).1 (box (new p par) t1).2).2 (<[p := (true, O)]> G).
Proof.
  intros (Hl1 & Hl2 & Hns & Hdom & Hs & Hb) (Hp & Hbit & ->)%scan_pids_Some.
  destruct (Hs p Hp) as [Hsl Hbm]. rewrite Hbit in Hbm. symmetry in Hbm. apply bool_decide_eq_false in Hbm.
  apply eq_None_not_Some in Hbm. rewrite Hbm in Hsl. split; [done|].
  unfold insert. cbn [box fst snd boxes set_pids next_box pid new processes pid_bitmap next_search].
  rewrite lookup_insert_eq. cbn [pid new]. rewrite (proj2 (Z.leb_gt _ _)) by lia. cbn [snd].
  set (t' := set_processes _ _).
  assert (Hget' : forall r, 0 <= r < MAX_PROCESSES -> get r t' = if decide (r = p) then Some (next_box t) else get r t).
  { intros r Hr. exact (get_set_slot p r (Some (next_box t)) t Hl1 Hp Hr). }
  assert (Hfresh : forall b r, boxes t !! b = Some r -> next_box t <> b /\ pid r <> p).
  { intros b r Hr. apply Hb in Hr as (Hlt & Hg & _). split; [lia|]. intros Hpr. rewrite Hpr in Hg. unfold slot_ok in Hsl. congruence. }
  split_and!.
  - cbn. by rewrite length_insert.
  - cbn. by rewrite length_insert.
  - cbn. by apply Z.mod_pos_bound.
  - intros r v [[<- _]|[_ Hv]]%lookup_insert_Some; [done|by eapply Hdom].
  - intros r Hr. destruct (Hs r Hr) as [Hsl' Hbm']. cbn [pid_bitmap t' set_pids set_processes].
    rewrite nth_bitmap by done. specialize (Hget' r Hr). destruct (decide (r = p)) as [->|Hne].
    + rewrite lookup_insert_eq. split; [|by rewrite bool_decide_true by done].
      exists (next_box t), (new p par). cbn [boxes t' set_processes]. rewrite lookup_insert_eq. split_and!; done.
    + rewrite lookup_insert_ne by done. split; [|done]. destruct (G !! r) as [[ow m]|]; unfold slot_ok in *; [|congruence].
      destruct Hsl' as (a' & r' & Hg & Hb' & ?). exists a', r'. rewrite Hget'. split; [done|].
      cbn [boxes t' set_processes]. rewrite lookup_insert_ne; [done|]. by destruct (Hfresh a' r' Hb').
  - intros b r Hr. cbn in Hr. cbn [next_box t' set_processes]. apply lookup_insert_Some in Hr as [[<- <-]|[Hne Hr]].
    + split; [lia|]. cbn [pid new]. rewrite Hget' by done. rewrite decide_True by done. split; [done|lia].
    + destruct (Hfresh b r Hr) as [_ Hpr]. apply Hb in Hr as (Hlt & Hg & H0). split; [lia|].
      pose proof (get_in_range _ _ _ Hg). rewrite Hget', decide_False by (done || lia). done.
Qed.

(** What the table knows of a number with holders. *)
Lemma table_ok_slot t G p own n : table_ok t G -> G !! p = Some (own, n) ->
  0 <= p < MAX_PROCESSES /\ exists a q, get p t = Some a /\ boxes t !! a = Some q /\ pid q = p /\
    ref_count q = Z.b2z own + Z.of_nat n /\ pending_free q = negb own /\ 0 < ref_count q /\ u32 (ref_count q).
Proof.
  intros (_ & _ & _ & Hdom & Hs & _) HG. pose proof (Hdom _ _ HG) as Hp. split; [done|].
  destruct (Hs p Hp) as [Hsl _]. by rewrite HG in Hsl.
Qed.

(** A slot that is taken has holders. *)
Lemma table_ok_get t G p a : table_ok t G -> 0 <= p -> get p t = Some a -> exists own n, G !! p = Some (own, n).
Proof.
  intros (_ & _ & _ & Hdom & Hs & _) Hp Hg. destruct (Hs p) as [Hsl _]; [pose proof (get_in_range _ _ _ Hg); lia|].
  destruct (G !! p) as [[own n]|]; [by exists own, n|]. unfold slot_ok in Hsl. congruence.
Qed.

(** The count written just before the release is of no consequence. *)
Lemma release_stored p a q t : release p a (set_boxes (<[a := q]> (boxes t)) t) = release p a t.
Proof.
  unfold release. cbn [boxes set_boxes set_processes processes]. by rewrite delete_insert_eq.
Qed.

Lemma wrap_u32_pred v : 0 < v -> u32 v -> wrap_u32 (v - 1) = v - 1.
Proof. intros. apply wrap_u32_small. unfold u32, U32_MAX in *. lia. Qed.

(** One holder less: the count is written while others remain, else the process goes. *)
Lemma table_ok_drop t G p a q own own' n n' :
  table_ok t G -> G !! p = Some (own, n) -> get p t = Some a -> boxes t !! a = Some q -> pid q = p ->
  Z.b2z own' + Z.of_nat n' = ref_count q - 1 -> 0 < ref_count q -> u32 (ref_count q) ->
  table_ok (if Z.b2z own' + Z.of_nat n' =? 0 then release p a t
            else set_boxes (<[a := store_refs (Z.b2z own' + Z.of_nat n') (negb own') q]> (boxes t)) t)
           (if own' || (0 <? n')%nat then <[p := (own', n')]> G else delete p G).
Proof.
  intros Hok HG Hget Hq Hpid Hr H0 Hu. destruct (table_ok_slot _ _ _ _ _ Hok HG) as [Hp _].
  destruct (Z.eqb_spec (Z.b2z own' + Z.of_nat n') 0) as [Hz|Hz].
  - replace (own' || (0 <? n')%nat) with false by (destruct own', n'; cbn in *; lia).
    apply table_ok_release; [done..|lia|by eexists|by eexists].
  - replace (own' || (0 <? n')%nat) with true by (destruct own', n'; cbn in *; lia || done).
    apply (table_ok_update t G p a q); try done; destruct q; cbn in *; try done; try lia; unfold u32, U32_MAX in *; try lia; by eexists.
Qed.

Lemma table_step_ok t G t' G' : table_ok t G -> table_step (t, G) (t', G') -> table_ok t' G'.
Proof.
  intros Hok Hst. inversion Hst as [? ? ? ? ? Ha|? ? ? p own n Hi HG Hu|? ? ? ? Hi|? ? p own n HG|? ? p n HG|? ? p f Hp0 Hf]; subst.
  - by eapply table_ok_create.
  - destruct (table_ok_slot _ _ _ _ _ Hok HG) as (Hp & a & q & Hget & Hq & Hpid & Hr & Hpf & H0 & _).
    unfold try_inc_ref in Hi. rewrite Hget, Hq, (proj2 (Z.ltb_lt _ _) H0) in Hi. injection Hi as <-.
    rewrite wrap_u32_small by (unfold u32, U32_MAX in *; destruct own; cbn in *; lia).
    apply (table_ok_update t G p a q); try done; destruct q; cbn in *; try done; unfold u32, U32_MAX in *; destruct own; cbn in *; try lia; by eexists.
  - unfold try_inc_ref in Hi. repeat case_match; simplify_eq; done.
  - destruct (table_ok_slot _ _ _ _ _ Hok HG) as (Hp & a & q & Hget & Hq & Hpid & Hr & Hpf & H0 & Hu).
    unfold dec_ref_and_maybe_free, dec_ref. rewrite Hget, Hq, wrap_u32_pred by done.
    pose proof (table_ok_drop t G p a q own own (S n) n Hok HG Hget Hq Hpid ltac:(lia) H0 Hu) as Hd.
    replace (ref_count q - 1) with (Z.b2z own + Z.of_nat n) by lia.
    replace ((Z.b2z own + Z.of_nat n =? 0) && _) with (Z.b2z own + Z.of_nat n =? 0).
    + rewrite Hpf. destruct (_ =? 0); [by rewrite release_stored|done].
    + replace (pending_free _) with (negb own) by (by destruct q; cbn in *).
      destruct own; [|by rewrite andb_true_r]. rewrite andb_false_r. apply Z.eqb_neq. cbn. lia.
  - destruct (table_ok_slot _ _ _ _ _ Hok HG) as (Hp & a & q & Hget & Hq & Hpid & Hr & Hpf & H0 & Hu).
    unfold remove_and_free, dec_ref. rewrite Hget, Hq.
    pose proof (table_ok_drop t G p a q true false n n Hok HG Hget Hq Hpid ltac:(cbn in *; lia) H0 Hu) as Hd.
    cbn [negb orb] in Hd.
    replace (ref_count (store_refs (ref_count q) true q)) with (ref_count q) by (by destruct q).
    rewrite wrap_u32_pred by done. replace (ref_count q - 1) with (Z.b2z false + Z.of_nat n) by (cbn in *; lia).
    replace (store_refs _ _ (store_refs _ true q)) with (store_refs (Z.b2z false + Z.of_nat n) true q) by (by destruct q).
    destruct (_ =? 0); [by rewrite release_stored|done].
  - unfold with_process. destruct (get p t) as [a|] eqn:Hget; [|done]. destruct (boxes t !! a) as [q|] eqn:Hq; [|done].
    destruct (table_ok_get _ _ _ _ Hok Hp0 Hget) as (own & n & HG).
    destruct (table_ok_slot _ _ _ _ _ Hok HG) as (Hp & a' & q' & Hget' & Hq' & Hpid & Hr & Hpf & H0 & Hu). simplify_eq.
    destruct (Hf q) as (Hf1 & Hf2 & Hf3). rewrite <- (insert_id _ _ _ HG).
    apply (table_ok_update t _ (pid q) a' q); try done; try congruence.
Qed.

Lemma nth_replicate {A} (x : A) n i : nth i (replicate n x) x = x.
Proof. revert i. induction n as [|n IH]; intros [|i]; cbn; auto. Qed.

Lemma table_ok_empty : table_ok empty_table ∅.
Proof.
  split_and!; [done|done|done|done| |done].
  intros p Hp. rewrite lookup_empty. split.
  - unfold slot_ok, get. rewrite (proj2 (Z.leb_gt _ _)) by lia. apply nth_replicate.
  - rewrite bool_decide_false by (by intros [? ?]). cbn [pid_bitmap empty_table].
    rewrite (nth_indep _ true false) by (rewrite length_replicate; lia). apply nth_replicate.
Qed.

Lemma table_steps_ok s s' : rtc table_step s s' -> table_ok s.1 s.2 -> table_ok s'.1 s'.2.
Proof.
  induction 1 as [|s1 s2 s3 Hst _ IH]; [done|]. intros H. apply IH. destruct s1, s2. by eapply table_step_ok.
Qed.

(** C4: Whatever processes are created, referenced, updated, dropped and removed, in
    any order, by callers that are entitled to it: a process that somebody
    holds is found under its number, with exactly as many references as it has
    holders; a number nobody holds has no process, so the last holder to let
    go frees it; no slot points to a freed process and no process is left
    without a slot; a number is refused only when all of them are held. *)
Theorem processes_live_while_held t G : rtc table_step (empty_table, ∅) (t, G) ->
  (forall p own n, G !! p = Some (own, n) ->
     exists q, lookup p t = Some q /\ pid q = p /\ ref_count q = Z.b2z own + Z.of_nat n) /\
  (forall p, 0 <= p -> G !! p = None -> get p t = None) /\
  (forall p, 0 <= p -> ~ dangling p t) /\
  (forall a q, boxes t !! a = Some q -> get (pid q) t = Some a) /\
  ((allocate_pid t).1 = None <-> forall p, 0 <= p < MAX_PROCESSES -> is_Some (G !! p)).
Proof.
  intros Hrt. pose proof (table_steps_ok _ _ Hrt table_ok_empty) as Hok. cbn [fst snd] in Hok.
  split_and!.
  - intros p own n HG. destruct (table_ok_slot _ _ _ _ _ Hok HG) as (_ & a & q & Hg & Hq & Hpid & Hr & _).
    exists q. unfold lookup. by rewrite Hg.
  - intros p Hp HG. destruct (get p t) as [a|] eqn:Hg; [|done]. destruct (table_ok_get _ _ _ _ Hok Hp Hg) as (? & ? & ?). congruence.
  - intros p Hp (a & Hg & Hb). destruct (table_ok_get _ _ _ _ Hok Hp Hg) as (own & n & HG).
    destruct (table_ok_slot _ _ _ _ _ Hok HG) as (_ & a' & q & Hg' & Hq & _). congruence.
  - intros a q Hq. by apply Hok.
  - destruct Hok as (Hl1 & Hl2 & Hns & _ & Hs & _). unfold allocate_pid. destruct (scan_pids _ _ _) as [[p|] t'] eqn:E; cbn [fst].
    + split; [done|]. intros H. apply scan_pids_Some in E as (Hp & Hbit & _). destruct (Hs p Hp) as [_ Hbm].
      rewrite Hbit, bool_decide_true in Hbm by auto. done.
    + split; [|done]. intros _ p Hp. destruct (Hs p Hp) as [_ Hbm]. rewrite (scan_pids_full _ _ _ _ _ E Hns eq_refl Hp) in Hbm.
      symmetry in Hbm. by apply bool_decide_eq_true in Hbm.
Qed.

(** A process is created, referenced and removed; the reference keeps it. *)
Lemma processes_live_while_held_witness :
  let t1 := (insert (box (new 2 None) (allocate_pid empty_table).2).1 (box (new 2 None) (allocate_pid empty_table).2).2).2 in
  let t2 := (try_inc_ref 2 t1).2 in
  let t3 := remove_and_free 2 t2 in
  exists q, lookup 2 t3 = Some q /\ pid q = 2 /\ ref_count q = 1.
Proof.
  intros t1 t2 t3.
  assert (H : rtc table_step (empty_table, ∅) (t3, <[2 := (false, 1%nat)]> (<[2 := (true, 1%nat)]> (<[2 := (true, O)]> ∅)))).
  { eapply rtc_l; [apply (step_create empty_table (allocate_pid empty_table).2 ∅ 2 None); vm_compute; reflexivity|].
    eapply rtc_l; [apply (step_inc_ref t1 t2 _ 2 true 0); [vm_compute; reflexivity|vm_compute; reflexivity|unfold u32, U32_MAX; lia]|].
    apply rtc_once. apply (step_remove t2 _ 2 1). vm_compute. reflexivity. }
  destruct (processes_live_while_held _ _ H) as (H1 & _). exact (H1 2 false 1%nat ltac:(vm_compute; reflexivity)).
Defined.

(** A second removal takes the reference of a holder: the process is freed while held. *)
Example second_removal_frees :
  let t1 := (insert (box (new 2 None) (allocate_pid empty_table).2).1 (box (new 2 None) (allocate_pid empty_table).2).2).2 in
  let t2 := (try_inc_ref 2 t1).2 in
  get 2 (remove_and_free 2 (remove_and_free 2 t2)) = None.
Proof. vm_compute. reflexivity. Qed.

(** The numbers of the idle process and of init are handed out like all others. *)
Example reserved_numbers_handed_out :
  (allocate_pid (Nat.iter 254 (fun t => (allocate_pid t).2) empty_table)).1 = Some 0.
Proof. vm_compute. reflexivity. Qed.

(** A rollback brings back the slot of a process that was freed since. *)
Example rollback_dangles :
  let t1 := (insert (box (new 2 None) (allocate_pid empty_table).2).1 (box (new 2 None) (allocate_pid empty_table).2).2).2 in
  dangling 2 (proc_barrier_rollback (Some (proc_barrier_capture t1)) (remove_and_free 2 t1)).
Proof. exists 0%nat. vm_compute. split; reflexivity. Qed.

End ProcessFacts.
