(* ===== verification/RunQueue.v ===== *)
(** * Run queues of the scheduler (services/proc/sched_policy.rs, framework/proc/sched_trait.rs, services/config/sched.rs)

    The weights of the nice levels, the fair (CFS) and deadline (EDF) run
    queues, and the fallback and default decisions.  A [BTreeMap<(u64, Pid), ()>]
    is the strictly increasing list of its keys. *)
From S2P Require Import Prelude.

Module RunQueue.

Definition CFS_TARGET_LATENCY : Z := 60.
Definition CFS_MIN_GRANULARITY : Z := 8.
Definition CFS_BOOST_INTERVAL : Z := 1000.
Definition CFS_NICE0_WEIGHT : Z := 1024.
Definition CFS_DL_MIN_RUNTIME : Z := 1.
Definition CFS_DL_MIN_PERIOD : Z := 10.
Definition CFS_DL_MAX_UTILIZATION_PCT : Z := 95.
Definition SCHED_LEVEL_0_QUANTUM : Z := 80.
Definition SCHED_LEVEL_1_QUANTUM : Z := 60.
Definition SCHED_LEVEL_2_QUANTUM : Z := 40.
Definition SCHED_LEVEL_3_QUANTUM : Z := 20.

Definition NICE_TO_WEIGHT : list Z :=
  [88761; 71755; 56483; 46273; 36291; 29154; 23254; 18705; 14949; 11916; 9548; 7620; 6100; 4904;
   3906; 3121; 2501; 1991; 1586; 1277; 1024; 820; 655; 526; 423; 335; 272; 215; 172; 137; 110; 87;
   70; 56; 45; 36; 29; 23; 18; 15].

Definition nice_to_weight (nice : Z) : Z :=
  nth (Z.to_nat (Z.max (-20) (Z.min nice 19) + 20)) NICE_TO_WEIGHT 0.

(** The loop over the table: the index [i], the best level so far and its distance. *)
Fixpoint nearest (ws : list Z) (weight i best best_diff : Z) : Z :=
  match ws with
  | [] => best
  | w :: ws =>
      let diff := Z.abs (w - weight) in
      if diff <? best_diff then nearest ws weight (i + 1) (i - 20) diff else nearest ws weight (i + 1) best best_diff
  end.

Definition weight_to_nice (weight : Z) : Z :=
  if nth 0 NICE_TO_WEIGHT 0 <=? weight then -20
  else if weight <=? nth 39 NICE_TO_WEIGHT 0 then 19
  else nearest NICE_TO_WEIGHT weight 0 0 U64_MAX.

Record DeadlineParams : Type := mkParams { runtime : Z; deadline : Z; period : Z }.

Definition is_valid (p : DeadlineParams) : bool :=
  (CFS_DL_MIN_RUNTIME <=? runtime p) && (runtime p <=? deadline p) &&
  (deadline p <=? period p) && (CFS_DL_MIN_PERIOD <=? period p).

Definition utilization_pct (p : DeadlineParams) : Z :=
  if period p =? 0 then 0 else wrap_u64 (runtime p * 100) / period p.

(** ** Ordered maps with unit values *)
Abbreviation key := (Z * Z)%type.

Definition key_ltb (x y : key) : bool := (x.1 <? y.1) || ((x.1 =? y.1) && (x.2 <? y.2)).
Definition key_eqb (x y : key) : bool := (x.1 =? y.1) && (x.2 =? y.2).

Fixpoint bt_insert (k : key) (l : list key) : list key :=
  match l with
  | [] => [k]
  | x :: l' => if key_ltb k x then k :: l else if key_eqb k x then l else x :: bt_insert k l'
  end.

Fixpoint bt_remove (k : key) (l : list key) : bool * list key :=
  match l with
  | [] => (false, [])
  | x :: l' => if key_eqb k x then (true, l') else let '(b, r) := bt_remove k l' in (b, x :: r)
  end.

(** ** The fair queue *)
Record CfsRunQueue : Type := mkCfs {
  tree : list key;
  min_vruntime : Z;
  total_weight : Z;
  nr_running : Z;
}.

Definition cfs_new : CfsRunQueue := mkCfs [] 0 0 0.

Definition sync_min_vruntime (q : CfsRunQueue) : CfsRunQueue :=
  match tree q with
  | (min_vr, _) :: _ => mkCfs (tree q) min_vr (total_weight q) (nr_running q)
  | [] => q
  end.

Definition rq_enqueue (pid vruntime weight : Z) (q : CfsRunQueue) : CfsRunQueue :=
  let start_vr := Z.max vruntime (min_vruntime q) in
  mkCfs (bt_insert (start_vr, pid) (tree q)) (min_vruntime q) (wrap_u64 (total_weight q + weight))
        (wrap_u32 (nr_running q + 1)).

Definition rq_dequeue (pid vruntime weight : Z) (q : CfsRunQueue) : bool * CfsRunQueue :=
  let '(found, t) := bt_remove (vruntime, pid) (tree q) in
  let q := mkCfs t (min_vruntime q) (sat_sub (total_weight q) weight) (sat_sub (nr_running q) 1) in
  if found then (true, sync_min_vruntime q) else (false, q).

Definition rq_pick_next (q : CfsRunQueue) : option (Z * Z) * CfsRunQueue :=
  match tree q with
  | [] => (None, q)
  | (vruntime, pid) :: t =>
      (Some (pid, vruntime), sync_min_vruntime (mkCfs t (min_vruntime q) (total_weight q) (nr_running q)))
  end.

Definition update_curr (pid new_vruntime : Z) (q : CfsRunQueue) : CfsRunQueue :=
  mkCfs (bt_insert (Z.max new_vruntime (min_vruntime q), pid) (tree q)) (min_vruntime q) (total_weight q) (nr_running q).

Definition calc_time_slice (weight : Z) (q : CfsRunQueue) : Z :=
  if (total_weight q =? 0) || (weight =? 0) then CFS_MIN_GRANULARITY
  else Z.max (Z.min U64_MAX (CFS_TARGET_LATENCY * weight) / total_weight q) CFS_MIN_GRANULARITY.

Definition get_weighted_load (q : CfsRunQueue) : Z := total_weight q.
Definition rq_is_empty (q : CfsRunQueue) : bool := nr_running q =? 0.

Definition boost_all_vruntime (q : CfsRunQueue) : CfsRunQueue :=
  match tree q with
  | [] => q
  | (min_vr, _) :: _ =>
      mkCfs (foldl (fun t k => bt_insert (min_vr, k.2) t) [] (tree q)) min_vr (total_weight q) (nr_running q)
  end.

Definition steal_highest_vruntime (q : CfsRunQueue) : option (Z * Z) * CfsRunQueue :=
  match last (tree q) with
  | None => (None, q)
  | Some (vruntime, pid) =>
      (Some (pid, vruntime),
       sync_min_vruntime (mkCfs (bt_remove (vruntime, pid) (tree q)).2 (min_vruntime q) (total_weight q) (nr_running q)))
  end.

(** ** The deadline queue *)
Record DlRunQueue : Type := mkDl {
  dl_tree : list key;
  dl_nr_running : Z;
  total_utilization : Z;
}.

Definition dl_new : DlRunQueue := mkDl [] 0 0.

Definition dl_enqueue (pid deadline_abs util_pct : Z) (q : DlRunQueue) : bool * DlRunQueue :=
  if CFS_DL_MAX_UTILIZATION_PCT <? sat_add_u64 (total_utilization q) util_pct then (false, q)
  else (true, mkDl (bt_insert (deadline_abs, pid) (dl_tree q)) (wrap_u32 (dl_nr_running q + 1))
                   (wrap_u64 (total_utilization q + util_pct))).

Definition dl_dequeue (pid deadline_abs util_pct : Z) (q : DlRunQueue) : DlRunQueue :=
  let '(found, t) := bt_remove (deadline_abs, pid) (dl_tree q) in
  if found then mkDl t (sat_sub (dl_nr_running q) 1) (sat_sub (total_utilization q) util_pct) else q.

Definition dl_pick_next (q : DlRunQueue) : option (Z * Z) * DlRunQueue :=
  match dl_tree q with
  | [] => (None, q)
  | (dl_abs, pid) :: t => (Some (pid, dl_abs), mkDl t (dl_nr_running q) (total_utilization q))
  end.

Definition reinsert (pid dl_abs : Z) (q : DlRunQueue) : DlRunQueue :=
  mkDl (bt_insert (dl_abs, pid) (dl_tree q)) (dl_nr_running q) (total_utilization q).

Definition dl_is_empty (q : DlRunQueue) : bool := dl_nr_running q =? 0.
Definition get_load (q : DlRunQueue) : Z := dl_nr_running q.

(** ** Ticks *)
Definition calc_vruntime_delta (weight : Z) : Z :=
  if weight =? 0 then CFS_NICE0_WEIGHT else Z.max (CFS_NICE0_WEIGHT / weight) 1.

Definition cfs_should_preempt (curr_vruntime min_vr weight : Z) : bool :=
  let threshold := if weight =? 0 then CFS_MIN_GRANULARITY * CFS_NICE0_WEIGHT
                   else CFS_MIN_GRANULARITY * CFS_NICE0_WEIGHT / weight in
  threshold <? sat_sub curr_vruntime min_vr.

(** ** Decisions (the fallback and the default policy agree) *)
Inductive ThreadPriority : Type := PrioIdle | PrioLow | PrioNormal | PrioHigh | PrioRealtime.

Definition pick_next_priority (queue_lengths : list Z) : option Z :=
  find_first (fun prio => 0 <? nth (Z.to_nat prio) queue_lengths 0) [4; 3; 2; 1; 0].
Definition should_boost (tick_count last_boost : Z) : bool := CFS_BOOST_INTERVAL <=? sat_sub tick_count last_boost.
Definition boost_target : ThreadPriority := PrioHigh.
Definition time_slice_for (priority : ThreadPriority) : Z :=
  match priority with
  | PrioRealtime => SCHED_LEVEL_0_QUANTUM
  | PrioHigh => SCHED_LEVEL_1_QUANTUM
  | PrioNormal => SCHED_LEVEL_2_QUANTUM
  | PrioLow => SCHED_LEVEL_3_QUANTUM
  | PrioIdle => U32_MAX
  end.
Definition should_reschedule (time_slice_remaining : Z) : bool := time_slice_remaining <=? 1.

End RunQueue.

Module RunQueueFacts.
Import RunQueue.

Definition key_lt (x y : key) : Prop := x.1 < y.1 \/ (x.1 = y.1 /\ x.2 < y.2).

Lemma key_ltb_spec x y : key_ltb x y = true <-> key_lt x y.
Proof. unfold key_ltb, key_lt. rewrite orb_true_iff, andb_true_iff, !Z.ltb_lt, Z.eqb_eq. done. Qed.

Lemma key_eqb_spec x y : key_eqb x y = true <-> x = y.
Proof.
  unfold key_eqb. rewrite andb_true_iff, !Z.eqb_eq. destruct x, y; cbn. split; [intros [-> ->]; done|]. by intros [= -> ->].
Qed.

Lemma key_trichotomy x y : key_lt x y \/ x = y \/ key_lt y x.
Proof.
  unfold key_lt. destruct x as [a b], y as [c d]; cbn.
  destruct (Z.lt_trichotomy a c) as [?|[->|?]]; [by left; left| |by right; right; left].
  destruct (Z.lt_trichotomy b d) as [?|[->|?]]; [by left; right|by right; left|by right; right; right].
Qed.

#[export] Instance key_lt_trans : Transitive key_lt.
Proof. unfold key_lt. intros [] [] []; cbn. lia. Qed.

Lemma key_lt_irrefl x : ~ key_lt x x.
Proof. unfold key_lt. lia. Qed.

(** The three ways two keys compare, with what the tests answer. *)
Lemma key_cases (P : bool -> bool -> Prop) k x :
  (key_lt k x -> P true false) -> (k = x -> P false true) -> (key_lt x k -> P false false) ->
  P (key_ltb k x) (key_eqb k x).
Proof.
  intros H1 H2 H3. assert (Hf : forall b, (b = true <-> False) -> b = false) by (intros []; tauto).
  destruct (key_trichotomy k x) as [H|[H|H]].
  - rewrite (proj2 (key_ltb_spec _ _) H), (Hf (key_eqb k x)); [auto|].
    rewrite key_eqb_spec. split; [intros ->; by apply key_lt_irrefl in H|done].
  - subst. rewrite (proj2 (key_eqb_spec x x) eq_refl), (Hf (key_ltb x x)); [auto|]. rewrite key_ltb_spec.
    split; [apply key_lt_irrefl|done].
  - rewrite (Hf (key_eqb k x)), (Hf (key_ltb k x)); [auto| |].
    + rewrite key_ltb_spec. split; [intros H'; exact (key_lt_irrefl _ (transitivity H H'))|done].
    + rewrite key_eqb_spec. split; [intros ->; by apply key_lt_irrefl in H|done].
Qed.

Definition ordered (l : list key) : Prop := StronglySorted key_lt l.

Lemma bt_insert_elem k l x : x ∈ bt_insert k l <-> x = k \/ x ∈ l.
Proof.
  induction l as [|y l IH]; cbn [bt_insert]; [set_solver|].
  apply (key_cases (fun a b => x ∈ (if a then k :: y :: l else if b then y :: l else y :: bt_insert k l) <-> x = k \/ x ∈ y :: l)).
  - intros _. set_solver.
  - intros ->. set_solver.
  - intros _. rewrite !elem_of_cons, IH. tauto.
Qed.

Lemma Forall_lt_trans k y l : key_lt k y -> Forall (key_lt y) l -> Forall (key_lt k) l.
Proof. intros H Hl. eapply Forall_impl; [exact Hl|]. intros z Hz. by etransitivity. Qed.

Lemma bt_insert_ordered k l : ordered l -> ordered (bt_insert k l).
Proof.
  unfold ordered. induction l as [|y l IH]; intros Hs; [by repeat constructor|].
  cbn [bt_insert]. apply StronglySorted_inv in Hs as [Hs Hy].
  apply (key_cases (fun a b => StronglySorted key_lt (if a then k :: y :: l else if b then y :: l else y :: bt_insert k l))).
  - intros H. constructor; [by constructor|]. constructor; [done|]. by eapply Forall_lt_trans.
  - intros _. by constructor.
  - intros H. constructor; [by apply IH|]. apply Forall_forall. intros z [->|Hz]%bt_insert_elem; [done|].
    by eapply Forall_forall in Hy.
Qed.

Lemma bt_insert_perm k l : ordered l -> k ∉ l -> bt_insert k l ≡ₚ k :: l.
Proof.
  induction l as [|y l IH]; intros Hs Hk; [done|]. cbn [bt_insert]. apply StronglySorted_inv in Hs as [Hs _].
  apply not_elem_of_cons in Hk as [Hky Hk].
  apply (key_cases (fun a b => (if a then k :: y :: l else if b then y :: l else y :: bt_insert k l) ≡ₚ k :: y :: l)).
  - done.
  - done.
  - intros _. rewrite IH by done. constructor.
Qed.

Lemma bt_remove_spec k l : ordered l ->
  ordered (bt_remove k l).2 /\ ((bt_remove k l).1 = true <-> k ∈ l) /\
  (forall x, x ∈ (bt_remove k l).2 <-> x ∈ l /\ x <> k).
Proof.
  induction l as [|y l IH]; intros Hs; [cbn; split_and!; [done|split; [done|by intros ?%elem_of_nil]|set_solver]|].
  apply StronglySorted_inv in Hs as [Hs Hy]. destruct (IH Hs) as (H1 & H2 & H3). cbn [bt_remove].
  assert (Hyl : y ∉ l) by (intros Hin; rewrite Forall_forall in Hy; by apply Hy, key_lt_irrefl in Hin).
  destruct (key_eqb k y) eqn:E.
  - apply key_eqb_spec in E as ->. cbn [fst snd]. split_and!; [done|set_solver|].
    intros x. rewrite elem_of_cons. split; [intros Hx; split; [by right|intros ->; done]|]. intros [[->|] ?]; done.
  - assert (k <> y) by (intros ->; by rewrite (proj2 (key_eqb_spec y y) eq_refl) in E).
    destruct (bt_remove k l) as [b r]. cbn [fst snd] in *. split_and!.
    + constructor; [done|]. apply Forall_forall. intros z [Hz _]%H3. by eapply Forall_forall in Hy.
    + rewrite elem_of_cons, H2. split; [by right|]. by intros [->|].
    + intros x. rewrite !elem_of_cons, H3. split; [intros [->|[]]; auto|]. intros [[->|] ?]; auto.
Qed.

(** ** Nice levels *)
Lemma nearest_spec ws weight : forall i best diff, diff <= U64_MAX ->
  let n := nearest ws weight i best diff in
  (n = best /\ (forall k w, ws !! k = Some w -> diff <= Z.abs (w - weight))) \/
  exists k w, ws !! k = Some w /\ n = i + Z.of_nat k - 20 /\ Z.abs (w - weight) < diff /\
    (forall k' w', ws !! k' = Some w' -> Z.abs (w - weight) <= Z.abs (w' - weight)).
Proof.
  induction ws as [|w ws IH]; intros i best diff Hd n; [by left|]. subst n. cbn [nearest].
  destruct (Z.ltb_spec (Z.abs (w - weight)) diff) as [Hlt|Hge].
  - right. destruct (IH (i + 1) (i - 20) (Z.abs (w - weight)) ltac:(lia)) as [[-> Hall]|(k & w' & Hk & -> & Hd' & Hall)].
    + exists 0%nat, w. split_and!; [done|lia|lia|]. intros [|k'] w'; cbn; [intros [= ->]; lia|apply Hall].
    + exists (S k), w'. split_and!; [done|lia|lia|]. intros [|k'] v; cbn; [intros [= ->]; lia|apply Hall].
  - destruct (IH (i + 1) best diff Hd) as [[-> Hall]|(k & w' & Hk & -> & Hd' & Hall)].
    + left. split; [done|]. intros [|k] w'; cbn; [intros [= <-]; lia|apply Hall].
    + right. exists (S k), w'. split_and!; [done|lia|lia|]. intros [|k'] v; cbn; [intros [= ->]; lia|apply Hall].
Qed.

Definition levels : list Z := seqZ (-20) 40.

Lemma nice_to_weight_level k w : NICE_TO_WEIGHT !! k = Some w -> nice_to_weight (Z.of_nat k - 20) = w.
Proof.
  intros H. pose proof (lookup_lt_Some _ _ _ H) as Hk. cbn in Hk. unfold nice_to_weight.
  replace (Z.to_nat _) with k by lia. by apply nth_lookup_Some.
Qed.

Lemma nice_levels n : -20 <= n <= 19 -> NICE_TO_WEIGHT !! Z.to_nat (n + 20) = Some (nice_to_weight n).
Proof.
  intros H. destruct (lookup_lt_is_Some_2 NICE_TO_WEIGHT (Z.to_nat (n + 20))) as [w Hw]; [cbn; lia|].
  rewrite Hw. apply nice_to_weight_level in Hw as <-. do 2 f_equal. lia.
Qed.

Lemma weights_strictly_fall : StronglySorted Z.gt NICE_TO_WEIGHT.
Proof. apply Sorted_StronglySorted; [intros ???; lia|]. unfold NICE_TO_WEIGHT. repeat constructor; lia. Qed.

Lemma weight_mono n m : -20 <= n -> n < m -> m <= 19 -> nice_to_weight m < nice_to_weight n.
Proof.
  intros Hn Hnm Hm. pose proof (nice_levels n ltac:(lia)) as H1. pose proof (nice_levels m ltac:(lia)) as H2.
  assert (H : forall (l : list Z), StronglySorted Z.gt l -> forall i j x y, (i < j)%nat -> l !! i = Some x -> l !! j = Some y -> x > y).
  { induction 1 as [|z l Hs IH Hf]; intros i j x y Hij Hx Hy; [done|]. destruct i as [|i], j as [|j]; try lia; cbn in Hx, Hy.
    - simplify_eq. rewrite Forall_forall in Hf. apply Hf. by eapply list_elem_of_lookup_2.
    - apply (IH i j); [lia|done..]. }
  pose proof (H _ weights_strictly_fall (Z.to_nat (n + 20)) (Z.to_nat (m + 20)) _ _ ltac:(lia) H1 H2). lia.
Qed.

Lemma weight_ends n : -20 <= n <= 19 -> 15 <= nice_to_weight n <= 88761.
Proof.
  intros H. change 15 with (nice_to_weight 19). change 88761 with (nice_to_weight (-20)). split.
  - destruct (decide (n = 19)) as [->|]; [lia|]. pose proof (weight_mono n 19 ltac:(lia) ltac:(lia) ltac:(lia)). lia.
  - destruct (decide (n = -20)) as [->|]; [lia|]. pose proof (weight_mono (-20) n ltac:(lia) ltac:(lia) ltac:(lia)). lia.
Qed.

(** The weight of a nice level leads back to the level, heavier means nicer
    less, and for any weight [weight_to_nice] answers a level whose weight is
    nearest to it. *)
Theorem nice_weight_roundtrip :
  (forall n, -20 <= n <= 19 -> weight_to_nice (nice_to_weight n) = n) /\
  (forall n m, -20 <= n -> n < m -> m <= 19 -> nice_to_weight m < nice_to_weight n) /\
  (forall w, 0 <= w <= U64_MAX -> -20 <= weight_to_nice w <= 19 /\
     forall n, -20 <= n <= 19 -> Z.abs (nice_to_weight (weight_to_nice w) - w) <= Z.abs (nice_to_weight n - w)).
Proof.
  assert (Hnear : forall w, 0 <= w <= U64_MAX -> -20 <= weight_to_nice w <= 19 /\
     forall n, -20 <= n <= 19 -> Z.abs (nice_to_weight (weight_to_nice w) - w) <= Z.abs (nice_to_weight n - w)).
  { intros w Hw. unfold weight_to_nice. cbn [nth NICE_TO_WEIGHT].
    destruct (Z.leb_spec 88761 w).
    { split; [lia|]. intros n Hn. pose proof (weight_ends n Hn). change (nice_to_weight (-20)) with 88761. lia. }
    destruct (Z.leb_spec w 15).
    { split; [lia|]. intros n Hn. pose proof (weight_ends n Hn). change (nice_to_weight 19) with 15. lia. }
    destruct (nearest_spec NICE_TO_WEIGHT w 0 0 U64_MAX ltac:(lia)) as [[_ Hall]|(k & v & Hk & -> & Hd & Hall)].
    - specialize (Hall 0%nat 88761 eq_refl). unfold U64_MAX in *. lia.
    - pose proof (lookup_lt_Some _ _ _ Hk) as Hlt. cbn in Hlt. split; [lia|]. intros n Hn.
      replace (0 + Z.of_nat k - 20) with (Z.of_nat k - 20) by lia. rewrite (nice_to_weight_level _ _ Hk).
      apply (Hall (Z.to_nat (n + 20))), nice_levels. lia. }
  split_and!; [|apply weight_mono|exact Hnear].
  intros n Hn. pose proof (weight_ends n Hn) as He. destruct (Hnear (nice_to_weight n)) as [Hr H]; [unfold U64_MAX; lia|].
  specialize (H n Hn). destruct (Z.lt_trichotomy (weight_to_nice (nice_to_weight n)) n) as [Hlt|[?|Hlt]]; [|done|];
    apply weight_mono in Hlt; lia.
Qed.

(** All levels from -20 to 3 run up the same virtual time: below weight 513 the
    quotient differs from 1. *)
Example levels_without_effect : forallb (fun n => calc_vruntime_delta (nice_to_weight n) =? 1) (seqZ (-20) 24) = true.
Proof. vm_compute. reflexivity. Qed.

(** ** The fair queue *)
Inductive rq_step : CfsRunQueue -> CfsRunQueue -> Prop :=
  | rq_step_enqueue p v w q : rq_step q (rq_enqueue p v w q)
  | rq_step_dequeue p v w q : rq_step q (rq_dequeue p v w q).2
  | rq_step_pick q : rq_step q (rq_pick_next q).2
  | rq_step_update p v q : rq_step q (update_curr p v q)
  | rq_step_boost q : rq_step q (boost_all_vruntime q)
  | rq_step_steal q : rq_step q (steal_highest_vruntime q).2.

Definition rq_ok (q : CfsRunQueue) : Prop :=
  ordered (tree q) /\ forall k, k ∈ tree q -> min_vruntime q <= k.1.

Lemma sync_ok t m tw nr : ordered t -> (forall k, k ∈ t -> m <= k.1) ->
  let q := sync_min_vruntime (mkCfs t m tw nr) in
  rq_ok q /\ m <= min_vruntime q /\ tree q = t /\ total_weight q = tw /\ nr_running q = nr.
Proof.
  intros Ho Hm q. subst q. unfold sync_min_vruntime. cbn [tree]. destruct t as [|[v p] t]; [done|].
  split_and!; [split; [done|]|apply (Hm (v, p)); left|done..]. cbn [tree min_vruntime].
  intros k [->|Hk]%elem_of_cons; [done|]. apply StronglySorted_inv in Ho as [_ Hf]. rewrite Forall_forall in Hf.
  specialize (Hf k Hk). unfold key_lt in Hf. cbn in Hf. lia.
Qed.

Lemma bt_insert_ok k q : rq_ok q -> min_vruntime q <= k.1 ->
  ordered (bt_insert k (tree q)) /\ forall k', k' ∈ bt_insert k (tree q) -> min_vruntime q <= k'.1.
Proof.
  intros [Ho Hm] Hk. split; [by apply bt_insert_ordered|]. intros k' [->|H]%bt_insert_elem; auto.
Qed.

(** Boosting: all tasks of the queue at its lowest virtual time. *)
Definition boosted (m : Z) (l acc : list key) : list key := foldl (fun t (k : key) => bt_insert (m, k.2) t) acc l.

Lemma boosted_spec m l : forall acc, ordered acc -> ordered (boosted m l acc) /\
  forall k, k ∈ boosted m l acc <-> k ∈ acc \/ (k.1 = m /\ k.2 ∈ map snd l).
Proof.
  induction l as [|[v p] l IH]; intros acc Ho; cbn [boosted foldl map].
  { split; [done|]. intros k. split; [by left|]. intros [?|[_ ?%elem_of_nil]]; done. }
  destruct (IH (bt_insert (m, p) acc) (bt_insert_ordered _ _ Ho)) as [H1 H2]. split; [done|].
  intros k. unfold boosted in H2. rewrite H2, bt_insert_elem, elem_of_cons. destruct k as [kv kp]; cbn.
  split; [intros [[[= -> ->]|?]|[? ?]]; auto|]. intros [?|[-> [->|?]]]; auto.
Qed.

Lemma rq_step_ok q q' : rq_step q q' -> rq_ok q -> rq_ok q' /\ min_vruntime q <= min_vruntime q'.
Proof.
  intros Hst Hok. pose proof Hok as [Ho Hm]. destruct Hst as [p v w q|p v w q|q|p v q|q|q].
  - split; [|cbn; lia]. apply (bt_insert_ok (Z.max v (min_vruntime q), p) q Hok). cbn. lia.
  - unfold rq_dequeue. pose proof (bt_remove_spec (v, p) _ Ho) as (H1 & _ & H3). destruct (bt_remove _ _) as [b t].
    cbn [fst snd] in *. assert (Hm' : forall k, k ∈ t -> min_vruntime q <= k.1) by (intros k [Hk _]%H3; auto).
    destruct b; [|done]. cbn [snd]. by destruct (sync_ok t (min_vruntime q) (sat_sub (total_weight q) w) (sat_sub (nr_running q) 1) H1 Hm') as (? & ? & _).
  - unfold rq_pick_next. destruct (tree q) as [|[v p] t] eqn:E; [done|]. cbn [snd].
    apply StronglySorted_inv in Ho as [Ho _].
    assert (Hm' : forall k, k ∈ t -> min_vruntime q <= k.1) by (intros k Hk; apply Hm; by right).
    by destruct (sync_ok t (min_vruntime q) (total_weight q) (nr_running q) Ho Hm') as (? & ? & _).
  - split; [|cbn; lia]. apply (bt_insert_ok (Z.max v (min_vruntime q), p) q Hok). cbn. lia.
  - unfold boost_all_vruntime. destruct (tree q) as [|[v p] t] eqn:E; [done|].
    destruct (boosted_spec v ((v, p) :: t) [] ltac:(constructor)) as [H1 H2]. split; [split; [done|]|].
    + intros k Hk. apply H2 in Hk as [?%elem_of_nil|[-> _]]; done.
    + apply (Hm (v, p)). by left.
  - unfold steal_highest_vruntime. destruct (last (tree q)) as [[v p]|]; [|done]. cbn [snd].
    destruct (bt_remove_spec (v, p) _ Ho) as (H1 & _ & H3).
    destruct (sync_ok (bt_remove (v, p) (tree q)).2 (min_vruntime q) (total_weight q) (nr_running q) H1) as (? & ? & _); [|done].
    intros k [Hk _]%H3. auto.
Qed.

(** What a pick does to the tree: the least key leaves. *)
Lemma rq_pick_spec q : rq_ok q ->
  match rq_pick_next q with
  | (None, q') => tree q = [] /\ q' = q
  | (Some (p, v), q') => tree q = (v, p) :: tree q' /\ rq_ok q' /\ (forall k, k ∈ tree q' -> key_lt (v, p) k) /\
      min_vruntime q <= v /\ min_vruntime q <= min_vruntime q' /\ total_weight q' = total_weight q /\
      nr_running q' = nr_running q
  end.
Proof.
  intros [Ho Hm]. unfold rq_pick_next. destruct (tree q) as [|[v p] t] eqn:E; [done|].
  pose proof Ho as [Ho' Hf]%StronglySorted_inv.
  assert (Hm' : forall k, k ∈ t -> min_vruntime q <= k.1) by (intros k Hk; apply Hm; by right).
  destruct (sync_ok t (min_vruntime q) (total_weight q) (nr_running q) Ho' Hm') as (? & ? & Ht & ? & ?).
  rewrite Ht. split_and!; [done|done| |apply (Hm (v, p)); by left|done..]. by apply Forall_forall.
Qed.

Lemma rq_new_ok : rq_ok cfs_new.
Proof. split; [constructor|]. by intros k ?%elem_of_nil. Qed.

(** C30: Whatever is queued, taken, boosted or stolen: the virtual time of a run queue
    never goes back, nobody waits in its past, and a pick takes the task with
    the least virtual runtime (the lower number among equals). *)
Theorem virtual_time_never_goes_back q q' : rtc rq_step cfs_new q -> rtc rq_step q q' ->
  min_vruntime q <= min_vruntime q' /\ (forall k, k ∈ tree q' -> min_vruntime q' <= k.1) /\
  forall p v q'', rq_pick_next q' = (Some (p, v), q'') -> forall k, k ∈ tree q'' -> key_lt (v, p) k.
Proof.
  assert (Hrt : forall q q', rtc rq_step q q' -> rq_ok q -> rq_ok q' /\ min_vruntime q <= min_vruntime q').
  { induction 1 as [|a b c Hst _ IH]; [done|]. intros Hok. destruct (rq_step_ok _ _ Hst Hok) as [Hok' Hle].
    destruct (IH Hok') as [Hc Hle']. split; [done|lia]. }
  intros H1 H2. destruct (Hrt _ _ H1 rq_new_ok) as [Hok _]. destruct (Hrt _ _ H2 Hok) as [Hok' Hle].
  split_and!; [done|apply Hok'|]. intros p v q'' Hp. pose proof (rq_pick_spec _ Hok') as Hs. rewrite Hp in Hs. apply Hs.
Qed.

Lemma virtual_time_never_goes_back_witness :
  let q := rq_enqueue 2 5 1024 (rq_enqueue 1 9 1024 cfs_new) in
  let q' := update_curr 2 7 (rq_pick_next q).2 in
  0 <= min_vruntime q' /\ forall k, k ∈ tree (rq_pick_next q').2 -> key_lt (9, 1) k.
Proof.
  intros q q'.
  destruct (virtual_time_never_goes_back q q') as (H1 & H2 & H3).
  - eapply rtc_l; [apply (rq_step_enqueue 1 9 1024)|]. apply rtc_once, (rq_step_enqueue 2 5 1024).
  - eapply rtc_l; [apply rq_step_pick|]. apply rtc_once, (rq_step_update 2 7).
  - split; [exact H1|]. apply (H3 1 9 (rq_pick_next q').2). vm_compute. reflexivity.
Defined.

(** ** The deadline queue *)

(** What was admitted: number, absolute deadline, share. *)
Definition reservations : Type := list (Z * Z * Z).

Fixpoint reserved (R : reservations) : Z :=
  match R with [] => 0 | r :: R => r.2 + reserved R end.

Inductive dl_step : DlRunQueue * reservations -> DlRunQueue * reservations -> Prop :=
  | dl_step_admit p d u q q' R : 0 <= u -> dl_enqueue p d u q = (true, q') -> dl_step (q, R) (q', (p, d, u) :: R)
  | dl_step_refuse p d u q q' R : dl_enqueue p d u q = (false, q') -> dl_step (q, R) (q', R)
  | dl_step_dequeue p d u q R1 R2 : (d, p) ∈ dl_tree q ->
      dl_step (q, R1 ++ (p, d, u) :: R2) (dl_dequeue p d u q, R1 ++ R2)
  | dl_step_pick q R : dl_step (q, R) ((dl_pick_next q).2, R)
  | dl_step_reinsert p d q R : dl_step (q, R) (reinsert p d q, R).

Lemma reserved_app R1 R2 : reserved (R1 ++ R2) = reserved R1 + reserved R2.
Proof. induction R1 as [|r R1 IH]; cbn [app reserved]; lia. Qed.

Definition dl_ok (q : DlRunQueue) (R : reservations) : Prop :=
  ordered (dl_tree q) /\ total_utilization q = reserved R /\ reserved R <= CFS_DL_MAX_UTILIZATION_PCT /\
  Forall (fun r => 0 <= r.2) R.

Lemma reserved_nonneg (R : reservations) : Forall (fun r => 0 <= r.2) R -> 0 <= reserved R.
Proof. induction 1 as [|r R Hr _ IH]; cbn [reserved]; lia. Qed.

Lemma dl_enqueue_spec p d u q :
  dl_enqueue p d u q =
    if U64_MAX <? total_utilization q + u then (false, q)
    else if CFS_DL_MAX_UTILIZATION_PCT <? total_utilization q + u then (false, q)
    else (true, mkDl (bt_insert (d, p) (dl_tree q)) (wrap_u32 (dl_nr_running q + 1)) (wrap_u64 (total_utilization q + u))).
Proof.
  unfold dl_enqueue, CFS_DL_MAX_UTILIZATION_PCT, sat_add_u64, U64_MAX.
  destruct (Z.ltb_spec 18446744073709551615 (total_utilization q + u)).
  - rewrite Z.min_l by lia. done.
  - by rewrite Z.min_r by lia.
Qed.

Lemma dl_step_ok q R q' R' : dl_step (q, R) (q', R') -> dl_ok q R -> dl_ok q' R'.
Proof.
  intros Hst (Ho & Hu & Hle & Hpos). pose proof (reserved_nonneg _ Hpos) as H0.
  inversion Hst as [p d u ? ? ? Hu0 He|p d u ? ? ? He|p d u ? R1 R2 Hin|? ? E1 E2|p d ? ? E1 E2]; subst.
  - rewrite dl_enqueue_spec in He. destruct (Z.ltb_spec U64_MAX (total_utilization q + u)); [done|].
    destruct (Z.ltb_spec CFS_DL_MAX_UTILIZATION_PCT (total_utilization q + u)); [done|]. injection He as <-.
    unfold dl_ok. cbn [dl_tree total_utilization reserved snd].
    rewrite wrap_u64_small by (unfold u64; lia). split_and!; [by apply bt_insert_ordered|lia|lia|by constructor].
  - unfold dl_enqueue in He. destruct (_ <? _); [|done]. by injection He as <-.
  - unfold dl_dequeue. destruct (bt_remove_spec (d, p) _ Ho) as (H1 & H2 & _). destruct (bt_remove _ _) as [b t].
    cbn [fst snd] in *. rewrite (proj2 H2 Hin). rewrite reserved_app in *. cbn [reserved snd] in *.
    apply Forall_app in Hpos as [Hp1 Hp2]. apply Forall_cons in Hp2 as [Hp Hp2]. cbn [snd] in Hp.
    pose proof (reserved_nonneg _ Hp1). pose proof (reserved_nonneg _ Hp2).
    unfold dl_ok. cbn [dl_tree total_utilization]. rewrite reserved_app. unfold sat_sub.
    split_and!; [done|lia|lia|]. by apply Forall_app.
  - unfold dl_pick_next. destruct (dl_tree q) as [|[d p] t] eqn:E; cbn [snd].
    { unfold dl_ok. by rewrite E. }
    apply StronglySorted_inv in Ho as [Ho _]. by split_and!.
  - split_and!; [by apply bt_insert_ordered|done..].
Qed.

(** C31: Whatever is admitted, refused, taken, put back or taken out: the shares of the
    admitted deadline tasks never exceed 95 percent, they are what the queue
    accounts for, and a pick takes the task with the earliest deadline; a task
    is refused exactly when its share does not fit. *)
Theorem edf_admission q R : rtc dl_step (dl_new, []) (q, R) ->
  total_utilization q = reserved R /\ reserved R <= 95 /\
  (forall p d q', dl_pick_next q = (Some (p, d), q') -> forall k, k ∈ dl_tree q' -> key_lt (d, p) k) /\
  (forall p d u, 0 <= u -> (dl_enqueue p d u q).1 = true <-> reserved R + u <= 95).
Proof.
  intros Hrt. assert (H : forall s s', rtc dl_step s s' -> dl_ok s.1 s.2 -> dl_ok s'.1 s'.2).
  { induction 1 as [|[q1 R1] [q2 R2] s3 Hst _ IH]; [done|]. intros Hok. by apply IH, (dl_step_ok q1 R1). }
  apply H in Hrt as (Ho & Hu & Hle & Hpos); [cbn [fst snd] in *|split_and!; [constructor|done|done|constructor]].
  split_and!; [done|done| |].
  - intros p d q' Hp. unfold dl_pick_next in Hp. destruct (dl_tree q) as [|[d0 p0] t]; [done|]. injection Hp as <- <- <-.
    apply StronglySorted_inv in Ho as [_ Hf]. by apply Forall_forall.
  - intros p d u Hu0. rewrite dl_enqueue_spec, Hu. unfold CFS_DL_MAX_UTILIZATION_PCT, U64_MAX.
    destruct (Z.ltb_spec 18446744073709551615 (reserved R + u)); [cbn; split; [done|lia]|].
    destruct (Z.ltb_spec 95 (reserved R + u)); cbn; (split; [done || lia|lia || done]).
Qed.

Lemma edf_admission_witness :
  let q1 := (dl_enqueue 1 50 60 dl_new).2 in
  let q2 := (dl_enqueue 2 30 30 q1).2 in
  total_utilization q2 = 90 /\ forall k, k ∈ dl_tree (dl_pick_next q2).2 -> key_lt (30, 2) k.
Proof.
  intros q1 q2. destruct (edf_admission q2 [(2, 30, 30); (1, 50, 60)]) as (H1 & _ & H3 & _).
  - eapply rtc_l; [apply (dl_step_admit 1 50 60 dl_new q1); [lia|reflexivity]|].
    apply rtc_once. apply (dl_step_admit 2 30 30 q1 q2); [lia|reflexivity].
  - split; [exact H1|]. apply (H3 2 30 (dl_pick_next q2).2). vm_compute. reflexivity.
Defined.

(** The share is rounded down: a task that needs 9 ticks of every 1000 counts for
    nothing, so any number of them is admitted. *)
Lemma small_shares_are_free n : forall q, 0 <= total_utilization q <= CFS_DL_MAX_UTILIZATION_PCT ->
  let u := utilization_pct (mkParams 9 1000 1000) in
  is_valid (mkParams 9 1000 1000) = true /\
  (foldl (fun s p => (s.1 && (dl_enqueue p 1000 u s.2).1, (dl_enqueue p 1000 u s.2).2)) (true, q) (seqZ 1 n)).1 = true.
Proof.
  intros q Hq u. split; [reflexivity|]. change u with 0. clear u. revert q Hq.
  induction (seqZ 1 n) as [|p l IH]; intros q Hq; [done|]. cbn [foldl fst snd].
  rewrite dl_enqueue_spec, Z.add_0_r. unfold CFS_DL_MAX_UTILIZATION_PCT, U64_MAX in *.
  rewrite !(proj2 (Z.ltb_ge _ (total_utilization q))) by lia.
  cbn [fst snd andb]. apply IH. cbn [total_utilization]. rewrite wrap_u64_small by (unfold u64, U64_MAX; lia). lia.
Qed.

End RunQueueFacts.
