(* ===== verification/Scheduler.v ===== *)
(** * The scheduler (framework/proc/scheduler.rs, framework/proc/cpu_queue.rs)

    [Sched] is the state the scheduler reads and writes: the process table, the
    run queues of the CPUs, the tick counter, the quotas and limits of the
    credo identities, and what the interrupt controller code answers
    ([get_current_cpu], [get_cpu_count], [is_enabled]).  A CPU's queues are
    created on first use.

    The table lock is not reentrant: a closure run by [with_process] that looks
    up another process never returns ([Deadlock]).  The context switch and the
    pointers to the current process that assembly code reads are left out, and
    so are the calls [tick] begins with (scheduler.rs:971-995: recovery manager,
    soft reset, OOM killer, accounting, kswapd): [tick] is the scheduler's own part
    of the timer interrupt.  Of the accounting the model keeps the address it works
    on, [ex_current], which [schedule] sets.  The calls of [exit] into sessions and
    cgroups are the parameter [exit_hooks]. *)
From S2P Require Import Prelude.
From S2P Require Import Process.
From S2P Require Import RunQueue.

Module Scheduler.
Import Process RunQueue.

Definition RT_PRIORITY_MAX : Z := 99.
Definition RT_TIME_SLICE : Z := 5.
Definition RT_FIFO_WATCHDOG : Z := 500.
Definition LOAD_BALANCE_THRESHOLD : Z := 1024.
Definition MAX_CPUS : Z := 1024.
Definition MAX_QUOTAS : nat := 32.
Definition MAX_LIMITS : nat := 32.

Record RtTaskInfo : Type := mkRt {
  rt_pid : Z;
  rt_prio : Z;
  rt_policy : SchedPolicy;
  time_slice_remaining : Z;
}.

Record PwidQuota : Type := mkQuota {
  q_pwm : Z;
  q_used : bool;
  max_runtime : Z;
  q_period : Z;
  consumed : Z;
  next_reset : Z;
}.
Definition quota_zero : PwidQuota := mkQuota 0 false 0 0 0 0.

Record PwidLimit : Type := mkLimit {
  l_pwm : Z;
  l_used : bool;
  max_procs : Z;
  l_current : Z;
}.
Definition limit_zero : PwidLimit := mkLimit 0 false 0 0.

Record PerCpuSched : Type := mkCpu {
  rt_queue : list RtTaskInfo;
  cfs_rq : CfsRunQueue;
  dl_rq : DlRunQueue;
  current_pid : Z;
  need_reschedule : bool;
  rt_running : bool;
  dl_running : bool;
  fifo_watchdog : Z;
}.
Definition cpu_new : PerCpuSched := mkCpu [] cfs_new dl_new 0 false false false 0.

Definition set_rt_queue v c := mkCpu v (cfs_rq c) (dl_rq c) (current_pid c) (need_reschedule c) (rt_running c) (dl_running c) (fifo_watchdog c).
Definition set_cfs_rq v c := mkCpu (rt_queue c) v (dl_rq c) (current_pid c) (need_reschedule c) (rt_running c) (dl_running c) (fifo_watchdog c).
Definition set_dl_rq v c := mkCpu (rt_queue c) (cfs_rq c) v (current_pid c) (need_reschedule c) (rt_running c) (dl_running c) (fifo_watchdog c).
Definition set_current_pid v c := mkCpu (rt_queue c) (cfs_rq c) (dl_rq c) v (need_reschedule c) (rt_running c) (dl_running c) (fifo_watchdog c).
Definition set_need_resched v c := mkCpu (rt_queue c) (cfs_rq c) (dl_rq c) (current_pid c) v (rt_running c) (dl_running c) (fifo_watchdog c).
Definition set_rt_running v c := mkCpu (rt_queue c) (cfs_rq c) (dl_rq c) (current_pid c) (need_reschedule c) v (dl_running c) (fifo_watchdog c).
Definition set_dl_running v c := mkCpu (rt_queue c) (cfs_rq c) (dl_rq c) (current_pid c) (need_reschedule c) (rt_running c) v (fifo_watchdog c).
Definition set_watchdog v c := mkCpu (rt_queue c) (cfs_rq c) (dl_rq c) (current_pid c) (need_reschedule c) (rt_running c) (dl_running c) v.

Record Sched : Type := mkSched {
  table : ProcessTable;
  cpus : gmap Z PerCpuSched;
  TICK_COUNT : Z;
  quotas : list PwidQuota;
  limits : list PwidLimit;
  initialized : bool;
  this_cpu : Z;
  cpu_count : Z;
  smp_enabled : bool;
  (** [SCHEDULER_EX.current], the address the accounting takes a [Thread] to be at *)
  ex_current : Z;
}.

Definition set_table v s := mkSched v (cpus s) (TICK_COUNT s) (quotas s) (limits s) (initialized s) (this_cpu s) (cpu_count s) (smp_enabled s) (ex_current s).
Definition set_cpus v s := mkSched (table s) v (TICK_COUNT s) (quotas s) (limits s) (initialized s) (this_cpu s) (cpu_count s) (smp_enabled s) (ex_current s).
Definition set_tick_count v s := mkSched (table s) (cpus s) v (quotas s) (limits s) (initialized s) (this_cpu s) (cpu_count s) (smp_enabled s) (ex_current s).
Definition set_quotas v s := mkSched (table s) (cpus s) (TICK_COUNT s) v (limits s) (initialized s) (this_cpu s) (cpu_count s) (smp_enabled s) (ex_current s).
Definition set_limits v s := mkSched (table s) (cpus s) (TICK_COUNT s) (quotas s) v (initialized s) (this_cpu s) (cpu_count s) (smp_enabled s) (ex_current s).
Definition set_initialized s := mkSched (table s) (cpus s) (TICK_COUNT s) (quotas s) (limits s) true (this_cpu s) (cpu_count s) (smp_enabled s) (ex_current s).
Definition set_ex_current v s := mkSched (table s) (cpus s) (TICK_COUNT s) (quotas s) (limits s) (initialized s) (this_cpu s) (cpu_count s) (smp_enabled s) v.

(** At boot, on CPU [this] of [count]. *)
Definition scheduler_new (this count : Z) (smp : bool) : Sched :=
  mkSched empty_table ∅ 0 (replicate MAX_QUOTAS quota_zero) (replicate MAX_LIMITS limit_zero) false this count smp 0.

Definition per_cpu_for (cpu : Z) (s : Sched) : PerCpuSched := default cpu_new (cpus s !! (cpu mod MAX_CPUS)).
Definition per_cpu (s : Sched) : PerCpuSched := per_cpu_for (this_cpu s) s.
Definition update_cpu (cpu : Z) (f : PerCpuSched -> PerCpuSched) (s : Sched) : Sched :=
  set_cpus (<[cpu mod MAX_CPUS := f (per_cpu_for cpu s)]> (cpus s)) s.
Definition update_this (f : PerCpuSched -> PerCpuSched) (s : Sched) : Sched := update_cpu (this_cpu s) f s.
Definition with_proc (p : Z) (f : Process -> Process) (s : Sched) : Sched := set_table (with_process p f (table s)) s.
Definition proc (p : Z) (s : Sched) : option Process := lookup p (table s).

(** ** Creation *)

(** The limit of an identity, at the first slot that has it: [None] when it is reached. *)
Fixpoint count_limit (pwm : Z) (ls : list PwidLimit) : option (list PwidLimit) :=
  match ls with
  | [] => Some []
  | l :: ls =>
      if l_used l && (l_pwm l =? pwm) then
        if (0 <? max_procs l) && (max_procs l <=? l_current l) then None
        else Some (mkLimit (l_pwm l) true (max_procs l) (wrap_u32 (l_current l + 1)) :: ls)
      else cons l <$> count_limit pwm ls
  end.

Definition create_process (par : option Z) (pw : Z) (s : Sched) : option Z * Sched :=
  let '(r, t) := allocate_pid (table s) in
  let s := set_table t s in
  match r with
  | None => (None, s)
  | Some p =>
      match (if pw =? 0 then Some (limits s) else count_limit pw (limits s)) with
      | None => (None, s)
      | Some ls =>
          let s := set_limits ls s in
          let '(a, t) := box (set_pwm pw (new p par)) (table s) in
          let '(ok, t) := insert a t in
          if ok then (Some p, set_table t s) else (None, set_table (set_boxes (delete a (boxes t)) t) s)
      end
  end.

(** ** Queueing *)
Definition set_nice (p nice : Z) (s : Sched) : Sched :=
  let clamped := Z.max (-20) (Z.min nice 19) in
  with_proc p (store_nice clamped (nice_to_weight clamped)) s.

Definition cfs_enqueue (p : Z) (s : Sched) : Sched :=
  match proc p s with
  | None => s
  | Some q =>
      let s := with_proc p (fun q => set_on_rq true (try_state Ready q)) s in
      update_this (fun c => set_cfs_rq (rq_enqueue p (cfs_vruntime q) (cfs_weight q) (cfs_rq c)) c) s
  end.
Definition add : Z -> Sched -> Sched := cfs_enqueue.
Definition add_to_run_queue : Z -> Sched -> Sched := cfs_enqueue.

Definition set_deadline_params (p : Z) (params : DeadlineParams) (s : Sched) : bool * Sched :=
  if negb (is_valid params) then (false, s)
  else if CFS_DL_MAX_UTILIZATION_PCT <? utilization_pct params then (false, s)
  else (true, with_proc p (fun q =>
         store_dl_now (wrap_u64 (TICK_COUNT s + deadline params)) (runtime params)
           (store_dl (runtime params) (deadline params) (period params) (set_sched_policy Deadline q))) s).

(** Before the first task of a lower priority. *)
Fixpoint rt_insert (i : RtTaskInfo) (q : list RtTaskInfo) : list RtTaskInfo :=
  match q with
  | [] => [i]
  | x :: q' => if rt_prio x <? rt_prio i then i :: q else x :: rt_insert i q'
  end.
Definition rt_enqueue (p prio : Z) (policy : SchedPolicy) (s : Sched) : Sched :=
  update_this (fun c => set_rt_queue (rt_insert (mkRt p prio policy RT_TIME_SLICE) (rt_queue c)) c) s.
Definition add_rt_task (p rt_priority : Z) (policy : SchedPolicy) (s : Sched) : Sched :=
  rt_enqueue p (Z.min rt_priority RT_PRIORITY_MAX) policy s.

Definition set_sched_policy_of (p : Z) (policy : SchedPolicy) (rt_priority : Z) (s : Sched) : bool * Sched :=
  match proc p s with
  | None => (false, s)
  | Some _ => (true, with_proc p (fun q => set_rt_priority (Z.min rt_priority RT_PRIORITY_MAX) (set_sched_policy policy q)) s)
  end.

(** ** Picking *)
Definition is_state (st : ProcessState) (q : Process) : bool := bool_decide (state q = st).
Definition has_policy (pol : SchedPolicy) (q : Process) : bool := bool_decide (sched_policy q = pol).

Definition pick_deadline_task (s : Sched) : option Z * Sched :=
  if dl_is_empty (dl_rq (per_cpu s)) then (None, update_this (set_dl_running false) s)
  else
    match dl_pick_next (dl_rq (per_cpu s)) with
    | (Some (p, dl_abs), q') =>
        let alive := match proc p s with Some q => negb (is_state Zombie q) && has_policy Deadline q | None => false end in
        if alive then (Some p, update_this (fun c => set_dl_running true (set_dl_rq q' c)) s)
        else (None, update_this (fun c => set_dl_running false (set_dl_rq (reinsert p dl_abs q') c)) s)
    | (None, q') => (None, update_this (set_dl_running false) s)
    end.

Definition cfs_schedulable (q : Process) : bool :=
  negb (is_state Blocked q) && negb (is_state Zombie q) && has_policy SchedNormal q.

Definition pick_cfs_task (s : Sched) : option Z * Sched :=
  if rq_is_empty (cfs_rq (per_cpu s)) then (None, s)
  else
    match rq_pick_next (cfs_rq (per_cpu s)) with
    | (Some (p, vr), q') =>
        let schedulable := match proc p s with Some q => cfs_schedulable q | None => false end in
        if schedulable then (Some p, with_proc p (set_on_rq false) (update_this (set_cfs_rq q') s))
        else (None, update_this (set_cfs_rq (update_curr p vr q')) s)
    | (None, q') => (None, s)
    end.

(** The loop over the real-time queue; the tasks left stay queued. *)
Fixpoint rt_scan (q : list RtTaskInfo) (s : Sched) : option Z * Sched :=
  match q with
  | [] => (None, update_this (set_rt_queue []) s)
  | t :: q =>
      let alive := match proc (rt_pid t) s with Some p => negb (is_state Zombie p) | None => false end in
      if negb alive then rt_scan q s
      else
        match rt_policy t with
        | Fifo => (Some (rt_pid t), update_this (fun c => set_watchdog RT_FIFO_WATCHDOG (set_rt_running true (set_rt_queue q c))) s)
        | Rr => (Some (rt_pid t), update_this (fun c => set_rt_running true
                   (set_rt_queue (q ++ [mkRt (rt_pid t) (rt_prio t) Rr RT_TIME_SLICE]) c)) s)
        | _ => (None, update_this (set_rt_running false) (cfs_enqueue (rt_pid t) (update_this (set_rt_queue q) s)))
        end
  end.

Definition pick_rt_task (s : Sched) : option Z * Sched :=
  let s := update_this (set_dl_running false) s in
  match rt_scan (rt_queue (per_cpu s)) s with
  | (Some p, s) => (Some p, s)
  | (None, s) => (None, update_this (set_rt_running false) s)
  end.

(** ** Several CPUs *)
Definition is_cpu_allowed (p cpu : Z) (s : Sched) : bool :=
  if p =? 0 then true
  else if (cpu_count s <=? 1) || (cpu_count s <=? cpu) then true
  else if 64 <=? cpu then true
  else Z.testbit (match proc p s with Some q => cpuset_allowed q | None => U64_MAX end) cpu.

Definition cpu_weight (cpu : Z) (s : Sched) : Z := total_weight (cfs_rq (per_cpu_for cpu s)).

Definition select_cpu_for (p hint : Z) (s : Sched) : Z :=
  if cpu_count s <=? 1 then Z.min hint (sat_sub (cpu_count s) 1)
  else if is_cpu_allowed p hint s then hint
  else (foldl (fun best cpu =>
          if negb (is_cpu_allowed p cpu s) then best
          else if cpu_weight cpu s <? best.2 then (cpu, cpu_weight cpu s) else best)
        (hint, U64_MAX) (seqZ 0 (cpu_count s))).1.

Definition total_runnable_for (cpu : Z) (s : Sched) : Z :=
  let c := per_cpu_for cpu s in
  nr_running (cfs_rq c) + dl_nr_running (dl_rq c) + Z.of_nat (length (rt_queue c)) +
  (if current_pid c =? 0 then 0 else 1).

Definition busiest (s : Sched) : Z * Z :=
  foldl (fun best cpu =>
    if cpu =? this_cpu s then best
    else if best.2 <? cpu_weight cpu s then (cpu, cpu_weight cpu s) else best)
  (this_cpu s, 0) (seqZ 0 (cpu_count s)).

(** At most [n] tasks leave the head of a run queue. *)
Fixpoint steal_tasks (n : nat) (t : ProcessTable) (q : CfsRunQueue) : list Z * CfsRunQueue :=
  match n with
  | O => ([], q)
  | S n =>
      match rq_pick_next q with
      | (Some (p, vr), q) =>
          let weight := match lookup p t with Some r => cfs_weight r | None => NICE0_WEIGHT end in
          let '(ps, q) := steal_tasks n t (rq_dequeue p vr weight q).2 in (p :: ps, q)
      | (None, q) => ([], q)
      end
  end.

Definition migrate (src : Z) (s : Sched) (p : Z) : Sched :=
  let '(vr, weight) := match proc p s with Some q => (cfs_vruntime q, cfs_weight q) | None => (0, NICE0_WEIGHT) end in
  let dst := if is_cpu_allowed p (this_cpu s) s then this_cpu s else src in
  update_cpu dst (fun c => set_cfs_rq (rq_enqueue p vr weight (cfs_rq c)) c) s.

Definition load_balance (s : Sched) : Sched :=
  if cpu_count s <=? 1 then s
  else
    let '(busiest_cpu, max_weight) := busiest s in
    if max_weight <? sat_add_u64 (cpu_weight (this_cpu s) s) LOAD_BALANCE_THRESHOLD then s
    else
      let '(ps, q) := steal_tasks 4 (table s) (cfs_rq (per_cpu_for busiest_cpu s)) in
      foldl (migrate busiest_cpu) (update_cpu busiest_cpu (set_cfs_rq q) s) ps.

(** ** Switching *)

(** The task that stops running is queued again, by the class flags of the CPU. *)
Definition requeue (p : Z) (s : Sched) : Sched :=
  let c := per_cpu s in
  let s :=
    if dl_running c then
      match proc p s with
      | Some q => update_this (fun c => set_dl_rq (reinsert p (dl_abs q) (dl_rq c)) c) s
      | None => s
      end
    else if rt_running c then
      match proc p s with
      | Some q => if bool_decide (sched_policy q = Fifo) then s else rt_enqueue p (rt_priority q) (sched_policy q) s
      | None => s
      end
    else
      let vr := match proc p s with Some q => cfs_vruntime q | None => 0 end in
      with_proc p (set_on_rq true) (update_this (fun c => set_cfs_rq (update_curr p vr (cfs_rq c)) c) s) in
  with_proc p (try_state Ready) s.

Definition pick_task (s : Sched) : option Z * Sched :=
  match pick_deadline_task s with
  | (Some p, s) => (Some p, s)
  | (None, s) =>
      match pick_rt_task s with
      | (Some p, s) => (Some p, s)
      | (None, s) =>
          match pick_cfs_task s with
          | (Some p, s) => (Some p, s)
          | (None, s) => if smp_enabled s then pick_cfs_task (load_balance s) else (None, s)
          end
      end
  end.

Definition schedule (s : Sched) : option Z * Sched :=
  let prev := current_pid (per_cpu s) in
  match pick_task s with
  | (None, s) => (None, s)
  | (Some next, s) =>
      if next =? prev then (Some next, s)
      else
        let prev_ptr := if prev =? 0 then None else get prev (table s) in
        match get next (table s) with
        | None => (None, s)
        | Some _ =>
            let s := with_proc next (try_state Running) s in
            let s := update_this (set_current_pid next) s in
            let s := set_ex_current next s in
            (Some next, match prev_ptr with Some _ => requeue prev s | None => s end)
        end
  end.

Definition current (s : Sched) : option Z :=
  let p := current_pid (per_cpu s) in if p =? 0 then None else Some p.
Definition set_current (p : Z) (s : Sched) : Sched := update_this (set_current_pid p) s.

Definition yield_current (s : Sched) : Sched := (schedule (update_this (set_need_resched true) s)).2.
Definition sched_should_reschedule (s : Sched) : bool * Sched :=
  (need_reschedule (per_cpu s), update_this (set_need_resched false) s).

Definition block (reason : BlockReason) (s : Sched) : Sched :=
  match current s with
  | None => s
  | Some p => update_this (set_need_resched true)
                (with_proc p (fun q => set_block_reason reason (try_state Blocked q)) s)
  end.

Definition unblock (p : Z) (s : Sched) : Sched :=
  match proc p s with
  | None => s
  | Some q =>
      if negb (is_state Blocked q) && negb (is_state Frozen q) then s
      else
        let s := with_proc p (try_state Ready) s in
        match sched_policy q with
        | SchedNormal =>
            let s := with_proc p (set_on_rq true) s in
            update_this (fun c => set_cfs_rq (rq_enqueue p (cfs_vruntime q) (cfs_weight q) (cfs_rq c)) c) s
        | Fifo | Rr => rt_enqueue p (rt_priority q) (sched_policy q) s
        | Deadline =>
            let util := if 0 <? dl_period q then wrap_u64 (dl_runtime q * 100) / dl_period q else 0 in
            update_this (fun c => set_dl_rq (dl_enqueue p (dl_abs q) util (dl_rq c)).2 c) s
        | SchedIdle => s
        end
  end.

Definition has_runnable (s : Sched) : bool :=
  let c := per_cpu s in
  negb (dl_is_empty (dl_rq c)) || negb (match rt_queue c with [] => true | _ => false end) || negb (rq_is_empty (cfs_rq c)).

(** ** Limits and quotas *)
Fixpoint uncount_limit (pw : Z) (ls : list PwidLimit) : list PwidLimit :=
  match ls with
  | [] => []
  | l :: ls =>
      if l_used l && (l_pwm l =? pw) && (0 <? l_current l)
      then mkLimit (l_pwm l) true (max_procs l) (l_current l - 1) :: ls else l :: uncount_limit pw ls
  end.
Definition dec_limit (pw : Z) (s : Sched) : Sched :=
  if pw =? 0 then s else set_limits (uncount_limit pw (limits s)) s.

Definition set_limit (pw max : Z) (s : Sched) : Sched :=
  match position (fun l => l_used l && (l_pwm l =? pw)) (limits s) with
  | Some i => set_limits (alter (fun l => mkLimit (l_pwm l) true max (l_current l)) i (limits s)) s
  | None =>
      match position (fun l => negb (l_used l)) (limits s) with
      | Some i => set_limits (<[i := mkLimit pw true max 0]> (limits s)) s
      | None => s
      end
  end.

Definition set_quota (pw max per : Z) (s : Sched) : Sched :=
  let q := mkQuota pw true max per 0 (wrap_u64 (TICK_COUNT s + per)) in
  match position (fun q => q_used q && (q_pwm q =? pw)) (quotas s) with
  | Some i => set_quotas (<[i := q]> (quotas s)) s
  | None =>
      match position (fun q => negb (q_used q)) (quotas s) with
      | Some i => set_quotas (<[i := q]> (quotas s)) s
      | None => s
      end
  end.

Definition remove_quota (pw : Z) (s : Sched) : Sched :=
  match position (fun q => q_used q && (q_pwm q =? pw)) (quotas s) with
  | Some i => set_quotas (alter (fun q => mkQuota 0 false (max_runtime q) (q_period q) (consumed q) (next_reset q)) i (quotas s)) s
  | None => s
  end.

(** ** Exit *)

(** [PROCESS_TABLE.with_process_mut] inside a closure of [with_process]. *)
Definition nested_lookup {A : Type} : outcome A := Deadlock.

Section Exit.
(** [session_leader_exit] and [detach_proc]. *)
Variable exit_hooks : Z -> Sched -> Sched.

(** The children are looked up while the table is locked for the parent. *)
Definition orphan_children (p : Z) (s : Sched) : outcome Sched :=
  match proc p s with
  | None => Done s
  | Some q =>
      s ← ofold (children q) s (fun _ _ => nested_lookup);
      Done (with_proc p (set_children []) s)
  end.

(** [None]: nothing is left to run and the CPU halts. *)
Definition exit (code : Z) (s : Sched) : outcome (option Z * Sched) :=
  s ← match current s with
      | None => Done s
      | Some p =>
          let s := exit_hooks p s in
          let s := match proc p s with
                   | None => s
                   | Some q =>
                       let s := with_proc p (fun q => try_state Zombie (set_exit_code code q)) s in
                       let s := dec_limit (pwm q) s in
                       match parent q with Some pp => unblock pp s | None => s end
                   end in
          orphan_children p s
      end;
  Done (schedule (update_this (set_need_resched true) s)).
End Exit.

(** ** The timer interrupt *)
Definition watchdog_tick (cpu : Z) (s : Sched) : Sched :=
  let c := per_cpu_for cpu s in
  if rt_running c && (0 <? fifo_watchdog c) then
    let s := update_cpu cpu (set_watchdog (fifo_watchdog c - 1)) s in
    if fifo_watchdog c <=? 1 then update_cpu cpu (fun c => set_rt_running false (set_need_resched true c)) s else s
  else s.

(** A deadline task: one tick less of its budget, and a new period when it is due. *)
Definition dl_tick (cpu cur : Z) (s : Sched) : Sched :=
  match proc cur s with
  | None => update_cpu cpu (set_need_resched true) s
  | Some q =>
      let rem := wrap_u64 (dl_remaining q - 1) in
      let expired := rem =? 0 in
      let s := with_proc cur (store_dl_now (dl_abs q) rem) s in
      let now := TICK_COUNT s in
      let replenish := (dl_abs q <=? now) || (expired && (dl_abs q <? wrap_u64 (now + dl_deadline q))) in
      let s := if replenish then with_proc cur (store_dl_now (wrap_u64 (now + dl_deadline q)) (dl_runtime q)) s else s in
      if expired || replenish then update_cpu cpu (set_need_resched true) s else s
  end.

Definition rt_tick (cpu cur : Z) (s : Sched) : Sched :=
  let policy := match proc cur s with Some q => sched_policy q | None => SchedNormal end in
  if bool_decide (policy = Fifo) then
    let old := fifo_watchdog (per_cpu_for cpu s) in
    let s := update_cpu cpu (set_watchdog (wrap_u64 (old - 1))) s in
    if wrap_u64 (old - 1) =? 0 then update_cpu cpu (set_need_resched true) s else s
  else s.

Definition charge (q : Process) : Process :=
  store_cfs (sat_add_u64 (cfs_vruntime q) (calc_vruntime_delta (cfs_weight q))) (sat_add_u64 (cfs_sum_exec_runtime q) 1) q.

Definition cfs_tick (cpu cur : Z) (s : Sched) : Sched :=
  let q := cfs_rq (per_cpu_for cpu s) in
  let s := with_proc cur charge s in
  let vr := match proc cur s with Some p => cfs_vruntime p | None => 0 end in
  let weight := match proc cur s with Some p => cfs_weight p | None => NICE0_WEIGHT end in
  let should_preempt := (0 <? nr_running q) && cfs_should_preempt vr (min_vruntime q) weight in
  let should_yield := wrap_u64 (min_vruntime q + CFS_TARGET_LATENCY) <? vr in
  if should_preempt || should_yield then update_cpu cpu (set_need_resched true) s else s.

Definition charge_current (cpu : Z) (s : Sched) : Sched :=
  let c := per_cpu_for cpu s in
  let cur := current_pid c in
  if cur =? 0 then s
  else
    let is_rt := rt_running c in
    let s := watchdog_tick cpu s in
    if dl_running (per_cpu_for cpu s) then dl_tick cpu cur s
    else if is_rt then rt_tick cpu cur s
    else cfs_tick cpu cur s.

(** Sleepers whose time has come, eight at most. *)
Definition sleeper_due (now : Z) (s : Sched) (p : Z) : bool :=
  negb (p =? default 0 (current s)) &&
  match proc p s with
  | Some q => is_state Blocked q && bool_decide (block_reason q = Sleeping) &&
              ((0 <? sleep_until q) && (sleep_until q <=? now))
  | None => false
  end.
Definition wake_sleepers (now : Z) (s : Sched) : Sched :=
  foldl (fun s p => unblock p s) s (take 8 (List.filter (sleeper_due now s) (seqZ 1 255))).

(** The parent of a zombie is looked up while the table is locked for the zombie. *)
Definition should_reap (s : Sched) (p : Z) : outcome bool :=
  match proc p s with
  | None => Done false
  | Some q =>
      if is_state Zombie q then
        alive ← match parent q with None => Done true | Some _ => nested_lookup end;
        Done (negb alive || bool_decide (parent q = Some 1))
      else Done false
  end.

Definition reap_candidates (s : Sched) : outcome (list Z) :=
  ofold (seqZ 1 255) [] (fun acc p =>
    if (16 <=? Z.of_nat (length acc)) then Done acc
    else b ← should_reap s p; Done (if (b : bool) then acc ++ [p] else acc)).

Definition reap (s : Sched) : outcome Sched :=
  ps ← reap_candidates s;
  Done (foldl (fun s p => set_table (remove_and_free p (table s)) (with_proc p (try_state Terminated) s)) s ps).

(** [SCHEDULER_EX.tick_accounting] takes the time slice, the times and the state of
    the [Thread] at this address; nothing is accounted when there is none. *)
Definition accounting_target (s : Sched) : option Z :=
  if ex_current s =? 0 then None else Some (ex_current s).

(** What the interrupt does for the scheduler itself. *)
Definition tick_scheduling (cpu new_tick : Z) (s : Sched) : outcome Sched :=
  let s := if new_tick mod CFS_BOOST_INTERVAL =? 0
           then update_cpu cpu (fun c => set_cfs_rq (boost_all_vruntime (cfs_rq c)) c) s else s in
  let s := charge_current cpu s in
  let s := wake_sleepers new_tick s in
  s ← if new_tick mod 1000 =? 0 then reap s else Done s;
  let s := if new_tick mod 64 =? 0 then
             if total_runnable_for (this_cpu s) s <? 2 then load_balance s else s
           else s in
  let resched := need_reschedule (per_cpu_for cpu s) in
  let s := update_cpu cpu (set_need_resched false) s in
  Done (if resched then (schedule s).2 else s).

(** The interrupt without the calls it begins with (recovery manager, soft reset,
    OOM killer, accounting, kswapd). *)
Definition tick (cpu : Z) (s : Sched) : outcome Sched :=
  let new_tick := wrap_u64 (TICK_COUNT s + 1) in
  tick_scheduling cpu new_tick (set_tick_count new_tick s).

Fixpoint ticks (n : nat) (cpu : Z) (s : Sched) : outcome Sched :=
  match n with
  | O => Done s
  | S n => s ← tick cpu s; ticks n cpu s
  end.

(** [Scheduler::init]: the first process becomes the current one. *)
Definition init (s : Sched) : Sched :=
  let s := set_initialized (update_cpu 0 id s) in
  let '(r, s) := create_process None 0 s in
  let s := match r with
           | None => s
           | Some p => set_current p (with_proc p (fun q => set_priority Normal (try_state Running q)) s)
           end in
  let resched := need_reschedule (per_cpu s) in
  let s := update_this (set_need_resched false) s in
  if resched then (schedule s).2 else s.

End Scheduler.
