(* ===== verification/SchedulerSpec.v ===== *)
(** * What the scheduler guarantees (framework/proc/scheduler.rs)

    Lemmas about the state of [Scheduler], the liveness of the fair class on one
    CPU, the migration of tasks, and where the code departs from its purpose. *)
From S2P Require Import Prelude.
From S2P Require Import Process.
From S2P Require Import RunQueue.
From S2P Require Import Scheduler.

Module SchedulerSpec.
Import Process ProcessFacts RunQueue RunQueueFacts Scheduler.

(** ** Reading after writing *)
Definition slots_distinct (t : ProcessTable) : Prop :=
  forall p q a, 0 <= p -> 0 <= q -> get p t = Some a -> get q t = Some a -> p = q.

Lemma table_ok_distinct t G : table_ok t G -> slots_distinct t.
Proof.
  intros Hok p q a Hp Hq Hgp Hgq. destruct (table_ok_get _ _ _ _ Hok Hp Hgp) as (? & ? & HG1).
  destruct (table_ok_get _ _ _ _ Hok Hq Hgq) as (? & ? & HG2).
  destruct (table_ok_slot _ _ _ _ _ Hok HG1) as (_ & a1 & q1 & ? & ? & ? & _).
  destruct (table_ok_slot _ _ _ _ _ Hok HG2) as (_ & a2 & q2 & ? & ? & ? & _). congruence.
Qed.

Lemma get_with_process p q f t : get p (with_process q f t) = get p t.
Proof. unfold with_process. repeat case_match; done. Qed.

Lemma slots_distinct_with_process q f t : slots_distinct t -> slots_distinct (with_process q f t).
Proof. intros H p r a. rewrite !get_with_process. apply H. Qed.

Lemma lookup_with_process_eq p f t : lookup p (with_process p f t) = f <$> lookup p t.
Proof.
  unfold lookup. rewrite get_with_process. unfold with_process. destruct (get p t) as [a|]; [|done].
  destruct (boxes t !! a) as [q|] eqn:E; [|by rewrite E]. cbn [boxes set_boxes]. by rewrite lookup_insert_eq.
Qed.

Lemma lookup_with_process_ne p q f t : slots_distinct t -> 0 <= p -> 0 <= q -> p <> q ->
  lookup p (with_process q f t) = lookup p t.
Proof.
  intros Hd Hp Hq Hne. unfold lookup. rewrite get_with_process. unfold with_process.
  destruct (get q t) as [b|] eqn:Eq; [|done]. destruct (boxes t !! b) as [r|] eqn:Er; [|done].
  destruct (get p t) as [a|] eqn:Ep; [|done]. cbn [boxes set_boxes]. rewrite lookup_insert_ne; [done|].
  intros ->. apply Hne. by apply (Hd p q a).
Qed.

Lemma lookup_get p t q : lookup p t = Some q -> exists a, get p t = Some a.
Proof. unfold lookup. destruct (get p t) as [a|]; [by exists a|done]. Qed.

(** What no queue operation touches. *)
Definition frame (s s' : Sched) : Prop :=
  this_cpu s' = this_cpu s /\ cpu_count s' = cpu_count s /\ smp_enabled s' = smp_enabled s /\
  TICK_COUNT s' = TICK_COUNT s.

#[export] Instance frame_refl : Reflexive frame.
Proof. by intros s. Qed.
#[export] Instance frame_trans : Transitive frame.
Proof. intros s1 s2 s3 (? & ? & ? & ?) (? & ? & ? & ?). repeat split; congruence. Qed.

Lemma per_cpu_update f s : per_cpu (update_this f s) = f (per_cpu s).
Proof. unfold per_cpu, per_cpu_for, update_this, update_cpu. cbn [this_cpu set_cpus cpus]. by rewrite lookup_insert_eq. Qed.

Lemma per_cpu_with_proc p f s : per_cpu (with_proc p f s) = per_cpu s.
Proof. done. Qed.

Lemma frame_update f s : frame s (update_this f s).
Proof. done. Qed.

Lemma frame_with_proc p f s : frame s (with_proc p f s).
Proof. done. Qed.

Lemma proc_update p f s : proc p (update_this f s) = proc p s.
Proof. done. Qed.

Lemma proc_with_proc_eq p f s : proc p (with_proc p f s) = f <$> proc p s.
Proof. apply lookup_with_process_eq. Qed.

Lemma proc_with_proc_ne p q f s : slots_distinct (table s) -> 0 <= p -> 0 <= q -> p <> q ->
  proc p (with_proc q f s) = proc p s.
Proof. apply lookup_with_process_ne. Qed.

(** ** One CPU, fair tasks only *)

(** The current task and the queued ones. *)
Definition pids (s : Sched) : list Z := current_pid (per_cpu s) :: map snd (tree (cfs_rq (per_cpu s))).

(** Only normal tasks, none asleep or dead, and nothing else to do. *)
Record calm (s : Sched) : Prop := mkCalm {
  calm_slots : slots_distinct (table s);
  calm_cpus : cpu_count s <= 1;
  calm_smp : smp_enabled s = false;
  calm_rt : rt_queue (per_cpu s) = [];
  calm_rt_running : rt_running (per_cpu s) = false;
  calm_dl : dl_nr_running (dl_rq (per_cpu s)) = 0;
  calm_dl_running : dl_running (per_cpu s) = false;
  calm_rq : rq_ok (cfs_rq (per_cpu s));
  calm_nr : 0 < nr_running (cfs_rq (per_cpu s));
  calm_nodup : NoDup (pids s);
  calm_tasks : forall p, p ∈ pids s -> 0 < p < MAX_PROCESSES /\
     exists q, proc p s = Some q /\ sched_policy q = SchedNormal /\ is_runnable (state q) = true;
  calm_awake : forall p q, 0 <= p -> proc p s = Some q -> state q <> Zombie /\ (state q = Blocked -> block_reason q <> Sleeping);
}.

(** The virtual runtime a process has itself. *)
Definition own (s : Sched) (p : Z) : Z := match proc p s with Some q => cfs_vruntime q | None => 0 end.

Lemma set_dl_running_id c : dl_running c = false -> set_dl_running false c = c.
Proof. destruct c; cbn. by intros ->. Qed.
Lemma set_rt_running_id c : rt_running c = false -> set_rt_running false c = c.
Proof. destruct c; cbn. by intros ->. Qed.
Lemma set_rt_queue_id c : rt_queue c = [] -> set_rt_queue [] c = c.
Proof. destruct c; cbn. by intros ->. Qed.

(** Without deadline and real-time tasks the choice is left to the fair queue. *)
Lemma pick_task_fair s :
  smp_enabled s = false -> rt_queue (per_cpu s) = [] -> rt_running (per_cpu s) = false ->
  dl_nr_running (dl_rq (per_cpu s)) = 0 -> dl_running (per_cpu s) = false ->
  exists s', frame s s' /\ table s' = table s /\ per_cpu s' = per_cpu s /\ pick_task s = pick_cfs_task s'.
Proof.
  intros Hsmp Hrt Hrr Hdl Hdr. unfold pick_task, pick_deadline_task, dl_is_empty. rewrite Hdl. cbn [Z.eqb].
  unfold pick_rt_task. set (s1 := update_this (set_dl_running false) (update_this (set_dl_running false) s)).
  assert (H1 : per_cpu s1 = per_cpu s) by (subst s1; by rewrite !per_cpu_update, !set_dl_running_id).
  rewrite H1, Hrt. cbn [rt_scan].
  set (s2 := update_this (set_rt_running false) (update_this (set_rt_queue []) s1)). exists s2.
  assert (H2 : per_cpu s2 = per_cpu s).
  { subst s2. rewrite !per_cpu_update, H1, set_rt_queue_id, set_rt_running_id by done. done. }
  split_and!; [done|done|done|]. destruct (pick_cfs_task s2) as [[p|] s3] eqn:E; [done|].
  assert (smp_enabled s3 = smp_enabled s) as ->; [|by rewrite Hsmp].
  revert E. unfold pick_cfs_task. destruct (rq_is_empty _); [by intros [= <-]|].
  destruct (rq_pick_next _) as [[[p v]|] q']; [|by intros [= <-]].
  destruct (match proc p s2 with Some q => cfs_schedulable q | None => false end); [done|]. by intros [= <-].
Qed.

(** The table after a switch from [cur] to [p]. *)
Definition switched (cur p : Z) (t : ProcessTable) : ProcessTable :=
  with_process cur (try_state Ready) (with_process cur (set_on_rq true)
    (with_process p (try_state Running) (with_process p (set_on_rq false) t))).

Lemma own_Some p s q : proc p s = Some q -> own s p = cfs_vruntime q.
Proof. unfold own. by intros ->. Qed.

Lemma get_of_proc p s q : proc p s = Some q -> exists a, get p (table s) = Some a.
Proof. apply lookup_get. Qed.

Lemma schedule_calm s : calm s ->
  let c := per_cpu s in
  let s' := (schedule s).2 in
  frame s s' /\
  match rq_pick_next (cfs_rq c) with
  | (None, _) => table s' = table s /\ per_cpu s' = c
  | (Some (p, v), q') =>
      table s' = switched (current_pid c) p (table s) /\
      per_cpu s' = set_cfs_rq (update_curr (current_pid c) (own s (current_pid c)) q') (set_current_pid p c)
  end.
Proof.
  intros Hc c s'. subst s'. unfold schedule.
  destruct (pick_task_fair s) as (s1 & Hf & Ht & Hp & ->); try apply Hc.
  unfold pick_cfs_task, rq_is_empty. rewrite Hp. fold c.
  destruct (Z.eqb_spec (nr_running (cfs_rq c)) 0) as [Hz|_]; [pose proof (calm_nr s Hc) as Hnr; fold c in Hnr; lia|].
  pose proof (rq_pick_spec _ (calm_rq s Hc)) as Hpick. fold c in Hpick.
  destruct (rq_pick_next (cfs_rq c)) as [[[p v]|] q'] eqn:E; [|exact (conj Hf (conj Ht Hp))].
  destruct Hpick as (Htree & _).
  assert (Hin : p ∈ map snd (tree (cfs_rq c))) by (rewrite Htree; left).
  destruct (calm_tasks s Hc p ltac:(by right)) as (Hpr & q & Hq & Hpol & Hst).
  destruct (calm_tasks s Hc (current_pid c) ltac:(left)) as (Hcr & qc & Hqc & _ & _).
  assert (Hne : p <> current_pid c).
  { intros ->. pose proof (calm_nodup s Hc) as Hnd. unfold pids in Hnd. fold c in Hnd. by apply NoDup_cons in Hnd as [? _]. }
  assert (Hq1 : proc p s1 = Some q) by (unfold proc; by rewrite Ht). rewrite Hq1.
  assert (cfs_schedulable q = true) as ->.
  { unfold cfs_schedulable, is_state, has_policy. rewrite Hpol. by destruct (state q). }
  cbn [snd]. rewrite (proj2 (Z.eqb_neq p (current_pid c))) by done.
  rewrite (proj2 (Z.eqb_neq (current_pid c) 0)) by lia.
  destruct (get_of_proc _ _ _ Hq) as [a Ha]. destruct (get_of_proc _ _ _ Hqc) as [b Hb].
  cbn [table set_table with_proc update_this update_cpu set_cpus]. rewrite !get_with_process, Ht, Ha, Hb. cbn [snd].
  set (s2 := with_proc p (set_on_rq false) _). set (s3' := update_this (set_current_pid p) _).
  set (s3 := set_ex_current p s3').
  assert (H3 : per_cpu s3 = set_current_pid p (set_cfs_rq q' c)).
  { change (per_cpu s3) with (per_cpu s3'). subst s3'.
    rewrite per_cpu_update, per_cpu_with_proc. subst s2. rewrite per_cpu_with_proc, per_cpu_update, Hp. done. }
  assert (Ht3 : table s3 = with_process p (try_state Running) (with_process p (set_on_rq false) (table s))).
  { subst s3 s3' s2. cbn [table set_table with_proc update_this update_cpu set_cpus set_ex_current]. by rewrite Ht. }
  assert (Hown : proc (current_pid c) s3 = Some qc).
  { unfold proc. rewrite Ht3, !lookup_with_process_ne; try done; try lia; try apply slots_distinct_with_process; apply Hc. }
  unfold requeue. rewrite H3. cbn [dl_running rt_running set_current_pid set_cfs_rq].
  pose proof (calm_dl_running s Hc) as Hdr. pose proof (calm_rt_running s Hc) as Hrr. fold c in Hdr, Hrr.
  rewrite Hdr, Hrr, Hown, (own_Some _ _ _ Hqc). split; [exact Hf|]. split.
  - cbn [table set_table with_proc update_this update_cpu set_cpus]. rewrite Ht3. done.
  - rewrite !per_cpu_with_proc, per_cpu_update, H3. done.
Qed.

(** Two versions of a task between which only the accounts differ, or which of
    the runnable states it is in. *)
Definition same_task (q q' : Process) : Prop :=
  sched_policy q' = sched_policy q /\ block_reason q' = block_reason q /\
  (state q' = state q \/ (is_runnable (state q) = true /\ is_runnable (state q') = true)).

Definition tables_alike (t t' : ProcessTable) : Prop :=
  slots_distinct t' /\
  forall p, 0 <= p -> match lookup p t, lookup p t' with
                      | Some q, Some q' => same_task q q'
                      | None, None => True
                      | _, _ => False
                      end.

Lemma same_task_trans q1 q2 q3 : same_task q1 q2 -> same_task q2 q3 -> same_task q1 q3.
Proof.
  intros (? & ? & H1) (? & ? & H2). split_and!; [congruence..|].
  destruct H1 as [H1|[? ?]], H2 as [H2|[? ?]]; rewrite ?H1, ?H2 in *; auto.
Qed.

Lemma tables_alike_refl t : slots_distinct t -> tables_alike t t.
Proof. intros H. split; [done|]. intros p _. destruct (lookup p t); [|done]. unfold same_task. auto. Qed.

Lemma tables_alike_trans t1 t2 t3 : tables_alike t1 t2 -> tables_alike t2 t3 -> tables_alike t1 t3.
Proof.
  intros [_ H1] [Hd H2]. split; [done|]. intros p Hp. specialize (H1 p Hp). specialize (H2 p Hp).
  destruct (lookup p t1), (lookup p t2), (lookup p t3); try done. by eapply same_task_trans.
Qed.

Lemma alike_with_process p f t t0 : tables_alike t0 t -> 0 <= p ->
  (forall q, lookup p t = Some q -> same_task q (f q)) -> tables_alike t0 (with_process p f t).
Proof.
  intros H Hp Hf. eapply tables_alike_trans; [exact H|]. destruct H as [Hd _]. split; [by apply slots_distinct_with_process|].
  intros r Hr. destruct (decide (r = p)) as [->|Hne].
  - rewrite lookup_with_process_eq. destruct (lookup p t) as [q|] eqn:E; [|done]. by apply Hf.
  - rewrite lookup_with_process_ne by done. destruct (lookup r t); [|done]. unfold same_task. auto.
Qed.

Lemma same_task_on_rq b q : same_task q (set_on_rq b q).
Proof. destruct q. unfold same_task. cbn. auto. Qed.
Lemma same_task_charge q : same_task q (charge q).
Proof. destruct q. unfold same_task. cbn. auto. Qed.
Lemma same_task_run q : same_task q (try_state Running q).
Proof. destruct q as [? ? st]. destruct st; unfold same_task; cbn; auto. Qed.
Lemma same_task_ready q : is_runnable (state q) = true -> same_task q (try_state Ready q).
Proof. destruct q as [? ? st]. destruct st; unfold same_task; cbn; auto; done. Qed.

(** What a step may change without disturbing the calm. *)
Lemma calm_step s s' q p b : calm s -> cpu_count s' = cpu_count s -> smp_enabled s' = smp_enabled s -> tables_alike (table s) (table s') ->
  per_cpu s' = set_need_resched b (set_cfs_rq q (set_current_pid p (per_cpu s))) ->
  rq_ok q -> nr_running q = nr_running (cfs_rq (per_cpu s)) -> p :: map snd (tree q) ≡ₚ pids s -> calm s'.
Proof.
  intros Hc Hf2 Hf3 [Hd Halike] Hp Hok Hnr Hperm.
  assert (Hpids : pids s' ≡ₚ pids s) by (unfold pids at 1; by rewrite Hp).
  split; rewrite ?Hp, ?Hf2, ?Hf3; cbn [rt_queue rt_running dl_rq dl_running cfs_rq set_need_resched set_cfs_rq set_current_pid];
    try exact Hd; try exact Hok; try (destruct Hc; assumption).
  - rewrite Hnr. by destruct Hc.
  - rewrite Hpids. apply Hc.
  - intros r Hr. rewrite Hpids in Hr. destruct (calm_tasks s Hc r Hr) as (Hrange & x & Hx & Hpol & Hst). split; [done|].
    specialize (Halike r ltac:(lia)). unfold proc in *. rewrite Hx in Halike.
    destruct (lookup r (table s')) as [x'|]; [|done]. destruct Halike as (H1 & _ & H2). exists x'. split_and!; [done|congruence|].
    destruct H2 as [->|[_ ?]]; done.
  - intros r x' Hr Hx'. specialize (Halike r Hr). unfold proc in *. rewrite Hx' in Halike.
    destruct (lookup r (table s)) as [x|] eqn:Hx; [|done]. destruct Halike as (_ & Hb & H2).
    pose proof (calm_awake s Hc r x Hr Hx) as [Hz Hbl]. rewrite Hb.
    destruct H2 as [->|[_ Hrun]]; [done|]. by destruct (state x').
Qed.

Lemma calm_current s : calm s -> 0 < current_pid (per_cpu s) < MAX_PROCESSES /\
  exists q, proc (current_pid (per_cpu s)) s = Some q /\ is_runnable (state q) = true.
Proof.
  intros Hc. destruct (calm_tasks s Hc (current_pid (per_cpu s)) ltac:(left)) as (? & q & ? & _ & ?). eauto.
Qed.

Lemma own_alike p t t' s s' : table s = t -> table s' = t' -> cfs_vruntime <$> lookup p t' = cfs_vruntime <$> lookup p t ->
  own s' p = own s p.
Proof. unfold own, proc. intros -> ->. destruct (lookup p t), (lookup p t'); cbn; intros [=]; done. Qed.

(** Updates that leave the virtual runtime alone. *)
Lemma vruntime_with_process p r f t : slots_distinct t -> 0 <= p -> 0 <= r ->
  (forall q, cfs_vruntime (f q) = cfs_vruntime q) ->
  cfs_vruntime <$> lookup p (with_process r f t) = cfs_vruntime <$> lookup p t.
Proof.
  intros Hd Hp Hr Hf. destruct (decide (p = r)) as [->|].
  - rewrite lookup_with_process_eq. destruct (lookup r t); cbn; [by rewrite Hf|done].
  - by rewrite lookup_with_process_ne.
Qed.

Lemma vruntime_on_rq b q : cfs_vruntime (set_on_rq b q) = cfs_vruntime q.
Proof. by destruct q. Qed.
Lemma vruntime_try_state st q : cfs_vruntime (try_state st q) = cfs_vruntime q.
Proof. unfold try_state, set_state_safe. destruct (legal _ _); [by destruct q|done]. Qed.

Lemma switched_alike s p : calm s -> 0 <= p ->
  tables_alike (table s) (switched (current_pid (per_cpu s)) p (table s)) /\
  forall r, 0 <= r -> cfs_vruntime <$> lookup r (switched (current_pid (per_cpu s)) p (table s)) = cfs_vruntime <$> lookup r (table s).
Proof.
  intros Hc Hp. destruct (calm_current s Hc) as (Hcr & q & Hq & Hrun). pose proof (calm_slots s Hc) as Hd. unfold switched. split.
  - set (t2 := with_process p (try_state Running) (with_process p (set_on_rq false) (table s))).
    assert (H2 : tables_alike (table s) t2).
    { repeat apply alike_with_process; auto using tables_alike_refl, same_task_on_rq, same_task_run. }
    assert (H3 : tables_alike (table s) (with_process (current_pid (per_cpu s)) (set_on_rq true) t2)).
    { apply alike_with_process; [done|lia|]. auto using same_task_on_rq. }
    apply alike_with_process; [done|lia|]. intros x Hx. apply same_task_ready.
    destruct H3 as [_ H3]. specialize (H3 (current_pid (per_cpu s)) ltac:(lia)). unfold proc in Hq. rewrite Hq, Hx in H3.
    destruct H3 as (_ & _ & [->|[_ ?]]); done.
  - intros r Hr. rewrite !vruntime_with_process; try done; try lia; repeat apply slots_distinct_with_process;
      auto using vruntime_on_rq, vruntime_try_state.
Qed.

Lemma need_resched_id c : set_need_resched (need_reschedule c) c = c.
Proof. by destruct c. Qed.

Lemma calm_same s s' b : calm s -> frame s s' -> tables_alike (table s) (table s') ->
  per_cpu s' = set_need_resched b (per_cpu s) -> calm s'.
Proof.
  intros Hc Hf Ht Hp. apply (calm_step s s' (cfs_rq (per_cpu s)) (current_pid (per_cpu s)) b); try done; try apply Hf; try apply Hc.
Qed.

(** The queued task with the least virtual runtime becomes the current one, which is queued. *)
Lemma calm_schedule s : calm s ->
  let s' := (schedule s).2 in
  calm s' /\ frame s s' /\ need_reschedule (per_cpu s') = need_reschedule (per_cpu s) /\
  (forall r, 0 <= r -> own s' r = own s r) /\
  match rq_pick_next (cfs_rq (per_cpu s)) with
  | (None, _) => per_cpu s' = per_cpu s
  | (Some (p, v), q') => current_pid (per_cpu s') = p /\
      cfs_rq (per_cpu s') = update_curr (current_pid (per_cpu s)) (own s (current_pid (per_cpu s))) q'
  end.
Proof.
  intros Hc s'. pose proof (schedule_calm s Hc) as [Hf H]. fold s' in Hf, H.
  pose proof (rq_pick_spec _ (calm_rq s Hc)) as Hpick.
  destruct (rq_pick_next (cfs_rq (per_cpu s))) as [[[p v]|] q'].
  2:{ destruct H as [Ht Hp]. rewrite Hp. split_and!; try done.
    - apply (calm_same s s' (need_reschedule (per_cpu s))); try done.
      + rewrite Ht. apply tables_alike_refl, Hc.
      + rewrite Hp. by destruct (per_cpu s).
    - intros r _. unfold own, proc. by rewrite Ht. }
  destruct H as [Ht Hp], Hpick as (Htree & Hok & Hleast & Hv & Hm & _ & Hnr).
  destruct (calm_tasks s Hc p) as (Hpr & _); [right; rewrite Htree; left|].
  destruct (calm_current s Hc) as (Hcr & _).
  destruct (switched_alike s p Hc ltac:(lia)) as [Halike Hvr]. rewrite <- Ht in Halike, Hvr.
  set (k := (Z.max (own s (current_pid (per_cpu s))) (min_vruntime q'), current_pid (per_cpu s))).
  assert (Hk : k ∉ tree q').
  { intros Hin. pose proof (calm_nodup s Hc) as Hnd. unfold pids in Hnd. rewrite Htree in Hnd. apply NoDup_cons in Hnd as [Hn _].
    apply Hn. cbn [map]. right. apply (list_elem_of_fmap_2 snd) in Hin. exact Hin. }
  rewrite Hp. split_and!; try done.
  - apply (calm_step s s' (update_curr (current_pid (per_cpu s)) (own s (current_pid (per_cpu s))) q') p
             (need_reschedule (per_cpu s))); try done; try apply Hf.
    + split; [by apply bt_insert_ordered, Hok|]. cbn [tree min_vruntime update_curr].
      intros k' [->|Hk']%bt_insert_elem; [cbn; lia|by apply Hok].
    + unfold pids. rewrite Htree. cbn [tree update_curr map snd]. fold k.
      rewrite (Permutation_map snd (bt_insert_perm k (tree q') (proj1 Hok) Hk)). cbn [map snd k]. constructor.
  - intros r Hr. eapply own_alike; [reflexivity|reflexivity|]. by apply Hvr.
Qed.

(** What one tick of the current task costs. *)
Definition charged (q : Process) : Z := sat_add_u64 (cfs_vruntime q) (calc_vruntime_delta (cfs_weight q)).

Lemma charged_grows q L : cfs_vruntime q < L -> L <= U64_MAX -> cfs_vruntime q + 1 <= charged q.
Proof.
  intros H1 H2. unfold charged, sat_add_u64, calc_vruntime_delta, CFS_NICE0_WEIGHT. destruct (_ =? _); lia.
Qed.

Lemma charged_mono q L : L <= cfs_vruntime q -> L <= U64_MAX -> L <= charged q.
Proof.
  intros H1 H2. unfold charged, sat_add_u64, calc_vruntime_delta, CFS_NICE0_WEIGHT. destruct (_ =? _); lia.
Qed.

Lemma charge_vruntime q : cfs_vruntime (charge q) = charged q.
Proof. by destruct q. Qed.

Lemma update_cpu_this f s : update_cpu (this_cpu s) f s = update_this f s.
Proof. done. Qed.

Lemma calm_charge s : calm s ->
  let c := per_cpu s in
  let s' := charge_current (this_cpu s) s in
  exists q b, proc (current_pid c) s = Some q /\ calm s' /\ frame s s' /\ per_cpu s' = set_need_resched b c /\
    own s' (current_pid c) = charged q /\ (forall r, 0 <= r -> r <> current_pid c -> own s' r = own s r) /\
    (need_reschedule c = true -> b = true) /\ (wrap_u64 (min_vruntime (cfs_rq c) + CFS_TARGET_LATENCY) < charged q -> b = true).
Proof.
  intros Hc c s'. destruct (calm_current s Hc) as (Hcr & q & Hq & Hrun). fold c in Hcr, Hq.
  pose proof (calm_rt_running s Hc) as Hrr. pose proof (calm_dl_running s Hc) as Hdr.
  subst s'. unfold charge_current, watchdog_tick. change (per_cpu_for (this_cpu s) s) with c. fold c in Hrr, Hdr.
  rewrite (proj2 (Z.eqb_neq (current_pid c) 0)), Hrr by lia. cbn [andb]. change (per_cpu_for (this_cpu s) s) with c. rewrite Hdr.
  unfold cfs_tick. change (per_cpu_for (this_cpu s) s) with c. rewrite proc_with_proc_eq, Hq. cbn [fmap option_fmap option_map].
  rewrite charge_vruntime. set (s1 := with_proc (current_pid c) charge s).
  set (resched := _ || _).
  set (s2 := if resched then _ else _). exists q, (need_reschedule c || resched).
  assert (Hp : per_cpu s2 = set_need_resched (need_reschedule c || resched) c).
  { subst s2. change (this_cpu s) with (this_cpu s1). destruct resched.
    - rewrite update_cpu_this, per_cpu_update, orb_true_r. done.
    - rewrite orb_false_r, need_resched_id. done. }
  assert (Ht : table s2 = with_process (current_pid c) charge (table s)) by (subst s2; by destruct resched).
  assert (Hf : frame s s2) by (subst s2; by destruct resched).
  split_and!; try done.
  - apply (calm_same s s2 (need_reschedule c || resched)); try done.
    rewrite Ht. apply alike_with_process; [apply tables_alike_refl, Hc|lia|]. auto using same_task_charge.
  - unfold own, proc. rewrite Ht, lookup_with_process_eq. unfold proc in Hq. rewrite Hq. cbn. apply charge_vruntime.
  - intros r Hr Hne. unfold own, proc. rewrite Ht, lookup_with_process_ne; [done|apply Hc|done|lia|done].
  - by intros ->.
  - intros H. subst resched. rewrite (proj2 (Z.ltb_lt _ _) H), !orb_true_r. done.
Qed.

Lemma boosted_pids m l : forall acc, ordered acc -> NoDup (map snd l ++ map snd acc) ->
  map snd (boosted m l acc) ≡ₚ map snd l ++ map snd acc.
Proof.
  induction l as [|[v p] l IH]; intros acc Ho Hnd; [done|]. cbn [map app] in Hnd. apply NoDup_cons in Hnd as [Hp Hnd].
  assert (Hacc : (m, p) ∉ acc).
  { intros Hin. apply Hp, elem_of_app. right. apply (list_elem_of_fmap_2 snd) in Hin. exact Hin. }
  assert (Hperm : map snd (bt_insert (m, p) acc) ≡ₚ p :: map snd acc) by (by rewrite (bt_insert_perm _ _ Ho Hacc)).
  cbn [boosted foldl map app snd]. fold (boosted m l (bt_insert (m, p) acc)). rewrite IH.
  - rewrite Hperm. symmetry. apply Permutation_middle.
  - by apply bt_insert_ordered.
  - rewrite Hperm, <- Permutation_middle. by constructor.
Qed.

(** The state at the start of a tick: one tick later, boosted when it is time. *)
Definition tick_start (n : Z) (s : Sched) : Sched :=
  let s := set_tick_count n s in
  if n mod CFS_BOOST_INTERVAL =? 0
  then update_cpu (this_cpu s) (fun c => set_cfs_rq (boost_all_vruntime (cfs_rq c)) c) s else s.

Definition tick_rq (n : Z) (q : CfsRunQueue) : CfsRunQueue :=
  if n mod CFS_BOOST_INTERVAL =? 0 then boost_all_vruntime q else q.

Lemma calm_tick_start n s : calm s ->
  calm (tick_start n s) /\ per_cpu (tick_start n s) = set_cfs_rq (tick_rq n (cfs_rq (per_cpu s))) (per_cpu s) /\
  table (tick_start n s) = table s /\ TICK_COUNT (tick_start n s) = n /\ this_cpu (tick_start n s) = this_cpu s.
Proof.
  intros Hc. set (q := tick_rq n (cfs_rq (per_cpu s))).
  assert (Hp : per_cpu (tick_start n s) = set_cfs_rq q (per_cpu s)).
  { subst q. unfold tick_start, tick_rq. destruct (_ =? 0).
    - rewrite update_cpu_this, per_cpu_update. done.
    - change (per_cpu (set_tick_count n s)) with (per_cpu s). by destruct (per_cpu s). }
  assert (Ht : table (tick_start n s) = table s) by (unfold tick_start; by destruct (_ =? 0)).
  split_and!; [|done|done|unfold tick_start; by destruct (_ =? 0)..].
  assert (Hq : rq_ok q /\ nr_running q = nr_running (cfs_rq (per_cpu s)) /\ map snd (tree q) ≡ₚ map snd (tree (cfs_rq (per_cpu s)))).
  { subst q. unfold tick_rq. destruct (_ =? 0); [|split_and!; [apply Hc|done|done]].
    split; [by apply (rq_step_ok _ _ (rq_step_boost _)), Hc|]. unfold boost_all_vruntime.
    destruct (tree (cfs_rq (per_cpu s))) as [|[v p] t] eqn:E; [by rewrite E|]. split; [done|]. cbn [tree].
    pose proof (calm_nodup s Hc) as Hnd. unfold pids in Hnd. rewrite E in Hnd. apply NoDup_cons in Hnd as [_ Hnd].
    pose proof (boosted_pids v ((v, p) :: t) [] ltac:(constructor)) as Hperm. cbn [map] in Hperm. rewrite !app_nil_r in Hperm.
    by apply Hperm. }
  destruct Hq as (Hok & Hnr & Hperm).
  apply (calm_step s _ q (current_pid (per_cpu s)) (need_reschedule (per_cpu s))); try done; try (unfold tick_start; by destruct (_ =? 0)).
  - rewrite Ht. apply tables_alike_refl, Hc.
  - unfold pids. by rewrite Hperm.
Qed.

Lemma filter_none {A} (f : A -> bool) l : (forall x, x ∈ l -> f x = false) -> List.filter f l = [].
Proof.
  induction l as [|x l IH]; intros H; [done|]. cbn [List.filter]. rewrite (H x) by (by left). apply IH. intros y Hy. apply H. by right.
Qed.

Lemma calm_no_sleepers n s : calm s -> wake_sleepers n s = s.
Proof.
  intros Hc. unfold wake_sleepers. rewrite filter_none; [done|]. intros p Hp. apply elem_of_seqZ in Hp. unfold sleeper_due.
  destruct (proc p s) as [q|] eqn:E; [|by rewrite andb_false_r]. destruct (calm_awake s Hc p q ltac:(lia) E) as [_ H].
  unfold is_state. destruct (decide (state q = Blocked)) as [Hs|Hs].
  - rewrite (bool_decide_false (block_reason q = Sleeping)) by auto. rewrite andb_false_r. apply andb_false_r.
  - rewrite (bool_decide_false (state q = Blocked)) by done. apply andb_false_r.
Qed.

(** The scan of the cleanup while it has found nothing. *)
Lemma ofold_stays_nil s l : (forall p, p ∈ l -> should_reap s p = Done false) ->
  ofold l [] (fun acc p =>
    if (16 <=? Z.of_nat (length acc)) then Done acc
    else b ← should_reap s p; Done (if (b : bool) then acc ++ [p] else acc)) = Done [].
Proof.
  induction l as [|p l IH]; intros H; [done|]. cbn [ofold length Z.of_nat Z.leb Z.compare]. rewrite (H p ltac:(left)).
  cbn [mbind outcome_bind]. apply IH. intros r Hr. apply H. by right.
Qed.

Lemma ofold_deadlocks s l p : p ∈ l -> should_reap s p = Deadlock ->
  (forall p, should_reap s p = Done false \/ should_reap s p = Deadlock) ->
  ofold l [] (fun acc p =>
    if (16 <=? Z.of_nat (length acc)) then Done acc
    else b ← should_reap s p; Done (if (b : bool) then acc ++ [p] else acc)) = Deadlock.
Proof.
  intros Hp Hd Hdec. induction l as [|r l IH]; [by apply elem_of_nil in Hp|].
  cbn [ofold length Z.of_nat Z.leb Z.compare]. destruct (Hdec r) as [Hr|Hr]; rewrite Hr; [|done]. cbn [mbind outcome_bind].
  apply IH. apply elem_of_cons in Hp as [->|?]; [congruence|done].
Qed.

Lemma calm_no_zombies s : calm s -> reap s = Done s.
Proof.
  intros Hc. unfold reap, reap_candidates.
  rewrite ofold_stays_nil; [done|]. intros p Hp%elem_of_seqZ. unfold should_reap.
  destruct (proc p s) as [q|] eqn:E; [|done]. destruct (calm_awake s Hc p q ltac:(lia) E) as [H _].
  unfold is_state. by rewrite bool_decide_false.
Qed.

Section OneCpu.

(** One tick: the current task pays; when its time is over, or one was asked for,
    the queue is consulted. *)
Lemma calm_tick s : calm s ->
  let n := wrap_u64 (TICK_COUNT s + 1) in
  let c := per_cpu s in
  let q1 := tick_rq n (cfs_rq c) in
  exists s' p0, tick (this_cpu s) s = Done s' /\ calm s' /\ TICK_COUNT s' = n /\ this_cpu s' = this_cpu s /\
    proc (current_pid c) s = Some p0 /\ own s' (current_pid c) = charged p0 /\
    (forall r, 0 <= r -> r <> current_pid c -> own s' r = own s r) /\
    ((current_pid (per_cpu s') = current_pid c /\ cfs_rq (per_cpu s') = q1 /\
        (tree q1 = [] \/ charged p0 <= wrap_u64 (min_vruntime q1 + CFS_TARGET_LATENCY))) \/
     exists p v q2, rq_pick_next q1 = (Some (p, v), q2) /\ current_pid (per_cpu s') = p /\
        cfs_rq (per_cpu s') = update_curr (current_pid c) (charged p0) q2).
Proof.
  intros Hc n c q1. destruct (calm_tick_start n s Hc) as (Hc1 & Hp1 & Ht1 & Hn1 & Hcpu1).
  destruct (calm_charge _ Hc1) as (p0 & b & Hp0 & Hc2 & Hf2 & Hp2 & Hown2 & Hoth2 & _ & Hb2).
  set (s1 := tick_start n s) in *. set (s2 := charge_current (this_cpu s1) s1) in *.
  rewrite Hp1 in Hp0, Hp2, Hown2, Hoth2, Hb2. cbn [current_pid cfs_rq set_cfs_rq] in Hp0, Hown2, Hoth2, Hb2.
  fold c in Hp0, Hown2, Hoth2, Hb2, Hp2. fold q1 in Hb2, Hp2.
  assert (Hrun : tick (this_cpu s) s = Done (if b then (schedule (update_this (set_need_resched false) s2)).2
                                                        else update_this (set_need_resched false) s2)).
  { unfold tick, tick_scheduling. fold n.
    change (if n mod CFS_BOOST_INTERVAL =? 0 then _ else _) with s1.
    replace (charge_current (this_cpu s) s1) with s2 by (subst s2; by rewrite Hcpu1).
    rewrite calm_no_sleepers, calm_no_zombies by done.
    replace (if n mod 1000 =? 0 then Done s2 else Done s2) with (Done s2) by (by destruct (_ =? 0)). cbn [mbind outcome_bind].
    assert (load_balance s2 = s2) as ->.
    { unfold load_balance. by rewrite (proj2 (Z.leb_le _ _) (calm_cpus s2 Hc2)). }
    replace (if n mod 64 =? 0 then if total_runnable_for (this_cpu s2) s2 <? 2 then s2 else s2 else s2) with s2
      by (destruct (_ =? 0); [by destruct (_ <? _)|done]).
    assert (this_cpu s = this_cpu s2) as -> by (destruct Hf2 as (-> & _); done).
    change (per_cpu_for (this_cpu s2) s2) with (per_cpu s2). rewrite Hp2. cbn [need_reschedule set_need_resched]. done. }
  set (s3 := update_this (set_need_resched false) s2) in *.
  assert (Hc3 : calm s3).
  { apply (calm_same s2 s3 false); [done|done| |apply per_cpu_update]. apply tables_alike_refl, Hc2. }
  assert (Hp3 : per_cpu s3 = set_need_resched false (set_cfs_rq q1 c)).
  { subst s3. rewrite per_cpu_update, Hp2. done. }
  assert (Hn2 : TICK_COUNT s2 = n /\ this_cpu s2 = this_cpu s).
  { destruct Hf2 as (H1 & _ & _ & H2). by rewrite H1, H2. }
  assert (Hp0' : proc (current_pid c) s = Some p0) by (unfold proc in *; by rewrite Ht1 in Hp0).
  assert (Hoth : forall r, 0 <= r -> r <> current_pid c -> own s2 r = own s r).
  { intros r Hr Hne. rewrite Hoth2 by done. unfold own, proc. by rewrite Ht1. }
  destruct b.
  - destruct (calm_schedule s3 Hc3) as (Hc4 & Hf4 & _ & Hown4 & Hpick). set (s4 := (schedule s3).2) in *.
    rewrite Hp3 in Hpick. cbn [cfs_rq current_pid set_need_resched set_cfs_rq] in Hpick.
    exists s4, p0. destruct Hf4 as (Hf41 & _ & _ & Hf44). rewrite Hf41, Hf44.
    destruct (calm_current s Hc) as [Hcr _]. fold c in Hcr.
    split_and!; [done|done|apply Hn2|apply Hn2|done|rewrite Hown4 by lia; exact Hown2|intros r Hr Hne; rewrite Hown4 by done; by apply Hoth|].
    destruct (rq_pick_next q1) as [[[p v]|] q2] eqn:E.
    + right. exists p, v, q2. destruct Hpick as [H1 H2]. split_and!; [done|done|]. rewrite H2. f_equal. exact Hown2.
    + left. rewrite Hpick. split_and!; [done|done|]. left. unfold rq_pick_next in E. by destruct (tree q1) as [|[v p] t].
  - exists s3, p0. split_and!; try done; try apply Hn2.
    left. rewrite Hp3. split_and!; [done|done|]. right. destruct (Z.le_gt_cases (charged p0) (wrap_u64 (min_vruntime q1 + CFS_TARGET_LATENCY))) as [?|H]; [done|].
    by specialize (Hb2 H).
Qed.

(** *** How long a queued task waits *)

Fixpoint zsum (f : Z -> Z) (l : list Z) : Z :=
  match l with [] => 0 | x :: l => f x + zsum f l end.

(** What the tasks still have to run until their virtual runtime reaches [L]. *)
Definition low (L : Z) (s : Sched) : Z := zsum (fun r => Z.max 0 (L - own s r)) (seqZ 0 MAX_PROCESSES).

(** The tasks at or beyond [L] that run or come before the key [k]. *)
Definition beyond (L : Z) (s : Sched) (k : key) : bool := L <=? own s k.2.
Definition ahead (L : Z) (s : Sched) (k : key) : Z :=
  Z.of_nat (count_if (fun x => key_ltb x k && beyond L s x) (tree (cfs_rq (per_cpu s)))) +
  Z.b2z (L <=? own s (current_pid (per_cpu s))).

(** The potential that every tick lowers. *)
Definition potential (L : Z) (s : Sched) (k : key) : Z :=
  2 * low L s + 2 * ahead L s k + TICK_COUNT s mod CFS_BOOST_INTERVAL.

Lemma zsum_drop f g c d l : NoDup l -> (forall r, r ∈ l -> r <> c -> g r = f r) -> (c ∈ l -> g c <= f c - d) -> 0 <= d ->
  zsum g l <= zsum f l - (if decide (c ∈ l) then d else 0).
Proof.
  induction 1 as [|x l Hx Hnd IH]; intros Ho Hc Hd; [by rewrite decide_False by (by intros ?%elem_of_nil)|]. cbn [zsum].
  specialize (IH (fun r Hr => Ho r (list_elem_of_further _ _ _ Hr)) (fun Hr => Hc (list_elem_of_further _ _ _ Hr)) Hd).
  destruct (decide (x = c)) as [->|Hne].
  - rewrite decide_True by (by left). rewrite (decide_False (P := c ∈ l)) in IH by done. specialize (Hc ltac:(left)). lia.
  - rewrite (Ho x) by (done || left). destruct (decide (c ∈ l)).
    + rewrite decide_True by (by right). lia.
    + rewrite decide_False by (intros [?|?]%elem_of_cons; congruence). lia.
Qed.

Lemma NoDup_pids_length l : NoDup l -> (forall p, p ∈ l -> 0 < p < MAX_PROCESSES) -> Z.of_nat (length l) <= 255.
Proof.
  intros Hnd Hr. assert (Hs : l ⊆+ seqZ 1 255).
  { apply NoDup_submseteq; [done|]. intros p Hp. apply elem_of_seqZ. specialize (Hr p Hp). unfold MAX_PROCESSES in Hr. lia. }
  apply submseteq_length in Hs. rewrite length_seqZ in Hs. lia.
Qed.

Lemma ahead_bound L s k : calm s -> 0 <= ahead L s k <= 256.
Proof.
  intros Hc. unfold ahead. pose proof (count_if_le (fun x => key_ltb x k && beyond L s x) (tree (cfs_rq (per_cpu s)))) as Hle.
  assert (Hl : Z.of_nat (length (pids s)) <= 255).
  { apply NoDup_pids_length; [apply Hc|]. intros p Hp. by destruct (calm_tasks s Hc p Hp). }
  unfold pids in Hl. cbn [length] in Hl. rewrite length_map in Hl.
  destruct (L <=? own s (current_pid (per_cpu s))); cbn [Z.b2z]; lia.
Qed.

(** The current task pays: what is still to run until [L] shrinks, unless it is beyond. *)
Lemma low_charged L s s' p0 : calm s -> proc (current_pid (per_cpu s)) s = Some p0 -> L <= U64_MAX ->
  own s' (current_pid (per_cpu s)) = charged p0 -> (forall r, 0 <= r -> r <> current_pid (per_cpu s) -> own s' r = own s r) ->
  low L s' <= low L s - (if L <=? own s (current_pid (per_cpu s)) then 0 else 1).
Proof.
  intros Hc Hp0 HL Hown Hoth. destruct (calm_current s Hc) as [Hcr _]. pose proof (own_Some _ _ _ Hp0) as Ho.
  unfold low. set (d := if L <=? _ then 0 else 1).
  pose proof (zsum_drop (fun r => Z.max 0 (L - own s r)) (fun r => Z.max 0 (L - own s' r)) (current_pid (per_cpu s)) d
    (seqZ 0 MAX_PROCESSES) (NoDup_seqZ _ _)) as H.
  rewrite decide_True in H by (apply elem_of_seqZ; lia). apply H.
  - intros r Hr%elem_of_seqZ Hne. cbn beta. by rewrite Hoth by (done || lia).
  - intros _. rewrite Hown. subst d. rewrite Ho. destruct (Z.leb_spec L (cfs_vruntime p0)) as [Hle|Hlt].
    + pose proof (charged_mono p0 L Hle HL). lia.
    + pose proof (charged_grows p0 L Hlt HL). lia.
  - subst d. destruct (_ <=? _); lia.
Qed.

Lemma count_ahead_cons L s k x t : key_lt x k ->
  Z.of_nat (count_if (fun y => key_ltb y k && beyond L s y) (x :: t)) =
  Z.b2z (beyond L s x) + Z.of_nat (count_if (fun y => key_ltb y k && beyond L s y) t).
Proof.
  intros Hx. unfold count_if. cbn [List.filter]. rewrite (proj2 (key_ltb_spec x k) Hx). cbn [andb].
  destruct (beyond L s x); cbn [length Z.b2z]; lia.
Qed.

Lemma not_key_ltb x k : ~ key_lt x k -> key_ltb x k = false.
Proof. intros H. destruct (key_ltb x k) eqn:E; [|done]. apply key_ltb_spec in E. done. Qed.

(** Inserting a task that is not both before [k] and beyond [L]. *)
Lemma count_ahead_insert L s k x t : ordered t -> x ∉ t -> key_ltb x k && beyond L s x = false ->
  count_if (fun y => key_ltb y k && beyond L s y) (bt_insert x t) = count_if (fun y => key_ltb y k && beyond L s y) t.
Proof.
  intros Ho Hx Hb. rewrite (count_if_permutation _ _ _ (bt_insert_perm x t Ho Hx)). unfold count_if. cbn [List.filter].
  by rewrite Hb.
Qed.

(** One tick without a boost while [p] waits at [v]. *)
Lemma waiting_tick_plain s s' p v L p0 :
  let c := per_cpu s in
  calm s -> calm s' -> v + CFS_TARGET_LATENCY < L -> L <= U64_MAX -> 0 <= min_vruntime (cfs_rq c) ->
  (v, p) ∈ tree (cfs_rq c) -> proc (current_pid c) s = Some p0 -> own s' (current_pid c) = charged p0 ->
  (forall r, 0 <= r -> r <> current_pid c -> own s' r = own s r) ->
  ((current_pid (per_cpu s') = current_pid c /\ cfs_rq (per_cpu s') = cfs_rq c /\
      (tree (cfs_rq c) = [] \/ charged p0 <= wrap_u64 (min_vruntime (cfs_rq c) + CFS_TARGET_LATENCY))) \/
   exists p1 v1 q2, rq_pick_next (cfs_rq c) = (Some (p1, v1), q2) /\ current_pid (per_cpu s') = p1 /\
      cfs_rq (per_cpu s') = update_curr (current_pid c) (charged p0) q2) ->
  current_pid (per_cpu s') = p \/
  ((v, p) ∈ tree (cfs_rq (per_cpu s')) /\ 2 * low L s' + 2 * ahead L s' (v, p) <= 2 * low L s + 2 * ahead L s (v, p) - 2).
Proof.
  intros c Hc Hc' HL HLmax Hmin0 Hin Hp0 Hown Hoth Hcase.
  pose proof (low_charged L s s' p0 Hc Hp0 HLmax Hown Hoth) as Hlow. fold c in Hlow.
  destruct (calm_current s Hc) as [Hcr _]. fold c in Hcr. pose proof (calm_rq s Hc) as Hok. fold c in Hok.
  pose proof (calm_nodup s Hc) as Hnd. unfold pids in Hnd. fold c in Hnd. apply NoDup_cons in Hnd as [Hcur _].
  assert (Hm : min_vruntime (cfs_rq c) <= v) by (by apply (proj2 Hok (v, p))).
  assert (Hsame : forall t, t ⊆ tree (cfs_rq c) -> count_if (fun y => key_ltb y (v, p) && beyond L s' y) t =
            count_if (fun y => key_ltb y (v, p) && beyond L s y) t).
  { intros t Ht. apply count_if_ext. intros x Hx. f_equal. unfold beyond. apply Ht in Hx.
    assert (Hx2 : x.2 ∈ map snd (tree (cfs_rq c))) by (by apply list_elem_of_fmap_2).
    rewrite Hoth; [done| |intros He; by rewrite He in Hx2].
    destruct (calm_tasks s Hc x.2) as [? _]; [by right|]. lia. }
  pose proof (own_Some _ _ _ Hp0) as Hown0. fold c in Hown0.
  destruct Hcase as [(Hcur' & Hrq' & [Hnil|Hle])|(p1 & v1 & q2 & Hpick & Hcur' & Hrq')].
  - rewrite Hnil in Hin. by apply elem_of_nil in Hin.
  - right. rewrite Hrq'. split; [done|]. unfold ahead. rewrite Hcur', Hrq', Hown, Hsame by done. fold c.
    rewrite wrap_u64_small in Hle by (unfold u64, CFS_TARGET_LATENCY, U64_MAX in *; lia).
    assert (Hlt : charged p0 < L) by lia.
    assert (Hlt0 : own s (current_pid c) < L).
    { rewrite Hown0. destruct (Z.le_gt_cases L (cfs_vruntime p0)) as [H|H]; [|done]. pose proof (charged_mono p0 L H HLmax). lia. }
    rewrite (proj2 (Z.leb_gt L _) Hlt0) in Hlow |- *. rewrite (proj2 (Z.leb_gt L _) Hlt). lia.
  - destruct (decide (p1 = p)) as [->|Hne]; [by left|]. right.
    pose proof (rq_pick_spec _ Hok) as Hs. rewrite Hpick in Hs. destruct Hs as (Htree & Hok2 & Hleast & Hv1 & Hm2 & _ & _).
    assert (Hin2 : (v, p) ∈ tree q2) by (rewrite Htree in Hin; apply elem_of_cons in Hin as [[= -> ->]|?]; done).
    set (k := (Z.max (charged p0) (min_vruntime q2), current_pid c)).
    assert (Hk : k ∉ tree q2).
    { intros Hk. apply Hcur. rewrite Htree. cbn [map]. right. apply (list_elem_of_fmap_2 snd) in Hk. exact Hk. }
    rewrite Hrq'. cbn [tree update_curr]. fold k. split; [apply bt_insert_elem; by right|].
    unfold ahead. rewrite Hcur', Hrq'. cbn [tree update_curr]. fold k c.
    assert (Hkb : key_ltb k (v, p) && beyond L s' k = false).
    { unfold beyond. subst k. cbn [snd]. rewrite Hown. destruct (Z.leb_spec L (charged p0)); [|apply andb_false_r].
      rewrite not_key_ltb; [done|]. unfold key_lt. cbn. unfold CFS_TARGET_LATENCY in HL. lia. }
    rewrite count_ahead_insert; [|apply Hok2|done|done]. rewrite Htree, count_ahead_cons by (by apply Hleast).
    rewrite Hsame by (rewrite Htree; by apply list_subseteq_cons_r || set_solver).
    assert (Hp1 : own s' p1 = own s p1).
    { destruct (calm_tasks s Hc p1) as [? _]; [right; fold c; rewrite Htree; left|]. apply Hoth; [lia|].
      intros ->. apply Hcur. rewrite Htree. left. }
    change (beyond L s (v1, p1)) with (L <=? own s p1). rewrite Hp1.
    destruct (L <=? own s (current_pid c)), (L <=? own s p1); cbn [Z.b2z]; lia.
Qed.

Lemma low_mono L s s' p0 : calm s -> proc (current_pid (per_cpu s)) s = Some p0 -> L <= U64_MAX ->
  own s' (current_pid (per_cpu s)) = charged p0 -> (forall r, 0 <= r -> r <> current_pid (per_cpu s) -> own s' r = own s r) ->
  low L s' <= low L s.
Proof. intros H1 H2 H3 H4 H5. pose proof (low_charged L s s' p0 H1 H2 H3 H4 H5). destruct (_ <=? _); lia. Qed.

(** A boost keeps the waiting task in the queue, at the head's virtual runtime. *)
Lemma boost_keeps v p q : rq_ok q -> (v, p) ∈ tree q ->
  exists v', v' <= v /\ (v', p) ∈ tree (boost_all_vruntime q) /\ min_vruntime (boost_all_vruntime q) = v'.
Proof.
  intros [Ho Hm] Hin. unfold boost_all_vruntime. destruct (tree q) as [|[m p0] t] eqn:E; [by apply elem_of_nil in Hin|].
  exists m. split_and!; [| |done].
  - apply elem_of_cons in Hin as [[= -> ->]|Hin]; [done|]. apply StronglySorted_inv in Ho as [_ Hf].
    rewrite Forall_forall in Hf. specialize (Hf _ Hin). unfold key_lt in Hf. cbn in Hf. lia.
  - apply (boosted_spec m ((m, p0) :: t) [] ltac:(constructor)). right. split; [done|]. apply (list_elem_of_fmap_2 snd) in Hin. exact Hin.
Qed.

Lemma pick_keeps q p v p1 v1 q2 cur vr : rq_ok q -> rq_pick_next q = (Some (p1, v1), q2) -> (v, p) ∈ tree q -> p1 <> p ->
  (v, p) ∈ tree (update_curr cur vr q2).
Proof.
  intros Hok Hpick Hin Hne. pose proof (rq_pick_spec _ Hok) as Hs. rewrite Hpick in Hs. destruct Hs as (Htree & _).
  rewrite Htree in Hin. apply elem_of_cons in Hin as [[= -> ->]|Hin]; [done|]. apply bt_insert_elem. by right.
Qed.

(** The waiting task runs, or the potential falls. *)
Lemma waiting_tick s p v L : calm s -> v + CFS_TARGET_LATENCY < L -> L <= U64_MAX -> 0 <= min_vruntime (cfs_rq (per_cpu s)) ->
  (v, p) ∈ tree (cfs_rq (per_cpu s)) -> 0 <= TICK_COUNT s < U64_MAX ->
  exists s', tick (this_cpu s) s = Done s' /\ calm s' /\ this_cpu s' = this_cpu s /\
    TICK_COUNT s' = TICK_COUNT s + 1 /\ 0 <= min_vruntime (cfs_rq (per_cpu s')) /\
    (current_pid (per_cpu s') = p \/
     exists v', v' <= v /\ (v', p) ∈ tree (cfs_rq (per_cpu s')) /\ potential L s' (v', p) < potential L s (v, p)).
Proof.
  intros Hc HL HLmax Hmin0 Hin Htick.
  destruct (calm_tick s Hc) as (s' & p0 & Hrun & Hc' & Hn & Hcpu & Hp0 & Hown & Hoth & Hcase).
  rewrite wrap_u64_small in Hn, Hcase by (unfold u64; lia). pose proof (calm_rq s Hc) as Hok.
  exists s'. split_and!; [done|done|done|done| |].
  - assert (Hq1 : rq_ok (tick_rq (TICK_COUNT s + 1) (cfs_rq (per_cpu s))) /\ 0 <= min_vruntime (tick_rq (TICK_COUNT s + 1) (cfs_rq (per_cpu s)))).
    { unfold tick_rq. destruct (_ =? 0); [|done]. destruct (rq_step_ok _ _ (rq_step_boost (cfs_rq (per_cpu s))) Hok). split; [done|lia]. }
    destruct Hq1 as [Hok1 H0]. destruct Hcase as [(_ & -> & _)|(p1 & v1 & q2 & Hpick & _ & ->)]; [done|].
    pose proof (rq_pick_spec _ Hok1) as Hs. rewrite Hpick in Hs. cbn [min_vruntime update_curr]. destruct Hs as (_ & _ & _ & _ & ? & _). lia.
  - unfold tick_rq in Hcase. unfold potential. rewrite Hn. unfold CFS_BOOST_INTERVAL in *.
    pose proof (Z.div_mod (TICK_COUNT s) 1000 ltac:(lia)). pose proof (Z.div_mod (TICK_COUNT s + 1) 1000 ltac:(lia)).
    pose proof (Z.mod_pos_bound (TICK_COUNT s) 1000 ltac:(lia)). pose proof (Z.mod_pos_bound (TICK_COUNT s + 1) 1000 ltac:(lia)).
    destruct (Z.eqb_spec ((TICK_COUNT s + 1) mod 1000) 0) as [Hb|Hb].
    + destruct (boost_keeps v p _ Hok Hin) as (v' & Hv' & Hin' & Hm').
      pose proof (low_mono L s s' p0 Hc Hp0 HLmax Hown Hoth).
      assert (Hpot : forall k, 2 * low L s' + 2 * ahead L s' k + (TICK_COUNT s + 1) mod 1000 <
                2 * low L s + 2 * ahead L s (v, p) + TICK_COUNT s mod 1000).
      { intros k. pose proof (ahead_bound L s' k Hc'). pose proof (ahead_bound L s (v, p) Hc). lia. }
      destruct Hcase as [(_ & Hrq & _)|(p1 & v1 & q2 & Hpick & Hcur & Hrq)].
      * right. exists v'. rewrite Hrq. by split_and!.
      * destruct (decide (p1 = p)) as [->|Hne]; [by left|]. right. exists v'. rewrite Hrq.
        split_and!; [done| |done]. eapply pick_keeps; [|exact Hpick|done|done].
        by destruct (rq_step_ok _ _ (rq_step_boost (cfs_rq (per_cpu s))) Hok).
    + destruct (waiting_tick_plain s s' p v L p0 Hc Hc' HL HLmax Hmin0 Hin Hp0 Hown Hoth Hcase) as [?|[Hin' Hpot]]; [by left|].
      right. exists v. split_and!; [lia|done|]. lia.
Qed.

Lemma zsum_bounds f l b : (forall r, r ∈ l -> 0 <= f r <= b) -> 0 <= zsum f l <= b * Z.of_nat (length l).
Proof.
  induction l as [|x l IH]; intros H; cbn [zsum length]; [lia|].
  pose proof (H x ltac:(left)). specialize (IH (fun r Hr => H r (list_elem_of_further _ _ _ Hr))). lia.
Qed.

Lemma low_bounds L s : 0 <= L -> (forall r, 0 <= r < MAX_PROCESSES -> 0 <= own s r) -> 0 <= low L s <= L * MAX_PROCESSES.
Proof.
  intros HL Hown. unfold low. pose proof (zsum_bounds (fun r => Z.max 0 (L - own s r)) (seqZ 0 MAX_PROCESSES) L) as H.
  rewrite length_seqZ in H. apply H. intros r Hr%elem_of_seqZ. specialize (Hown r ltac:(lia)). lia.
Qed.

Lemma potential_nonneg L s k : calm s -> 0 <= potential L s k.
Proof.
  intros Hc. unfold potential. pose proof (ahead_bound L s k Hc).
  pose proof (Z.mod_pos_bound (TICK_COUNT s) CFS_BOOST_INTERVAL eq_refl).
  assert (0 <= low L s); [|lia]. unfold low. generalize (seqZ 0 MAX_PROCESSES) as l.
  induction l as [|r l IH]; cbn [zsum]; lia.
Qed.

Lemma waiting_runs p L N : forall s v, potential L s (v, p) < Z.of_nat N -> calm s -> v + CFS_TARGET_LATENCY < L ->
  L <= U64_MAX -> 0 <= min_vruntime (cfs_rq (per_cpu s)) -> (v, p) ∈ tree (cfs_rq (per_cpu s)) ->
  0 <= TICK_COUNT s -> TICK_COUNT s + Z.of_nat N <= U64_MAX ->
  exists n s', (n <= N)%nat /\ ticks n (this_cpu s) s = Done s' /\ current_pid (per_cpu s') = p.
Proof.
  induction N as [|N IH]; intros s v Hpot Hc HL HLmax Hmin Hin Ht0 Ht; [pose proof (potential_nonneg L s (v, p) Hc); lia|].
  destruct (waiting_tick s p v L Hc HL HLmax Hmin Hin ltac:(lia)) as (s1 & Hrun & Hc1 & Hcpu & Htick & Hmin1 & [Hp|(v' & Hv' & Hin' & Hpot')]).
  - exists 1%nat, s1. split_and!; [lia| |done]. cbn [ticks]. by rewrite Hrun.
  - destruct (IH s1 v') as (n & s2 & Hn & Hrun2 & Hp2); try done; try lia.
    exists (S n), s2. split_and!; [lia| |done]. cbn [ticks]. rewrite Hrun. cbn [mbind outcome_bind]. by rewrite <- Hcpu.
Qed.

End OneCpu.

(** C3: On one CPU with fair tasks that neither sleep nor exit, nobody starves: a
    queued task becomes the current one within [512 * (v + 61) + 1512] ticks,
    [v] being the virtual runtime it is queued at, and no tick fails.  [calm]
    says what the run queues must be like: no deadline or real-time task, every
    queued task alive, of the fair class and queued once, at least one of them;
    the virtual runtimes are not negative and the tick counter does not wrap.
    A tick is the scheduler's own part of the timer interrupt: the recovery
    manager, the soft reset, the OOM killer, the accounting and kswapd, which
    run before it, are not part of it ([accounting_dereferences_pid] says what is
    wrong with the accounting). *)
Theorem queued_task_runs s p v :
  calm s -> (forall r, 0 <= r < MAX_PROCESSES -> 0 <= own s r) ->
  0 <= min_vruntime (cfs_rq (per_cpu s)) -> (v, p) ∈ tree (cfs_rq (per_cpu s)) ->
  0 <= TICK_COUNT s -> TICK_COUNT s + (512 * (v + 61) + 1512) <= U64_MAX ->
  exists n s', Z.of_nat n <= 512 * (v + 61) + 1512 /\
    ticks n (this_cpu s) s = Done s' /\ current s' = Some p.
Proof.
  intros Hc Hown Hmin Hin Ht0 Ht. pose proof (calm_rq s Hc) as [_ Hm]. specialize (Hm (v, p) Hin). cbn in Hm.
  pose proof (low_bounds (v + 61) s ltac:(lia) Hown) as Hlow. pose proof (ahead_bound (v + 61) s (v, p) Hc) as Hah.
  pose proof (Z.mod_pos_bound (TICK_COUNT s) CFS_BOOST_INTERVAL eq_refl) as Hb. unfold CFS_BOOST_INTERVAL, MAX_PROCESSES in *.
  destruct (waiting_runs p (v + 61) (Z.to_nat (512 * (v + 61) + 1512)) s v) as (n & s' & Hn & Hrun & Hp);
    try done; try (unfold CFS_TARGET_LATENCY, U64_MAX in *; lia).
  { unfold potential, CFS_BOOST_INTERVAL. lia. }
  exists n, s'. split_and!; [lia|done|]. unfold current. rewrite Hp.
  destruct (calm_tasks s Hc p) as [Hpr _]; [right; apply (list_elem_of_fmap_2 snd) in Hin; exact Hin|].
  by rewrite (proj2 (Z.eqb_neq p 0)) by lia.
Qed.

(** *** Checking calm by evaluation *)
Definition all_processes (f : Z -> Process -> bool) (t : ProcessTable) : bool :=
  forallb (fun p => match get p t with
                    | Some a => match boxes t !! a with Some q => f p q | None => false end
                    | None => true
                    end) (seqZ 0 MAX_PROCESSES).

Fixpoint sortedb (l : list key) : bool :=
  match l with [] => true | x :: l => forallb (key_ltb x) l && sortedb l end.

Definition rq_okb (q : CfsRunQueue) : bool :=
  sortedb (tree q) && forallb (fun k : key => min_vruntime q <=? k.1) (tree q).

Definition calmb (s : Sched) : bool :=
  let c := per_cpu s in let q := cfs_rq c in
  all_processes (fun p q => (pid q =? p) && negb (is_state Zombie q) && negb (is_state Blocked q)) (table s) &&
  (cpu_count s <=? 1) && negb (smp_enabled s) && bool_decide (length (rt_queue c) = 0%nat) && negb (rt_running c) &&
  (dl_nr_running (dl_rq c) =? 0) && negb (dl_running c) && rq_okb q && (0 <? nr_running q) && bool_decide (NoDup (pids s)) &&
  forallb (fun p => (0 <? p) && (p <? MAX_PROCESSES) &&
             match proc p s with Some q => has_policy SchedNormal q && is_runnable (state q) | None => false end) (pids s).

Lemma all_processes_spec f t p q : all_processes f t = true -> 0 <= p -> lookup p t = Some q -> f p q = true.
Proof.
  intros H Hp Hq. unfold lookup in Hq. destruct (get p t) as [a|] eqn:E; [|done]. pose proof (get_in_range _ _ _ E).
  unfold all_processes in H. rewrite forallb_forall in H. specialize (H p). rewrite E, Hq in H. apply H.
  apply list_elem_of_In, elem_of_seqZ. lia.
Qed.

Lemma sortedb_ordered l : sortedb l = true -> ordered l.
Proof.
  induction l as [|x l IH]; intros H; [constructor|]. cbn [sortedb] in H. apply andb_true_iff in H as [H1 H2].
  constructor; [by apply IH|]. apply Forall_forall. intros y Hy. apply key_ltb_spec. rewrite forallb_forall in H1.
  by apply H1, list_elem_of_In.
Qed.

Lemma rq_okb_ok q : rq_okb q = true -> rq_ok q.
Proof.
  unfold rq_okb. rewrite andb_true_iff. intros [Hs Hm]. split; [by apply sortedb_ordered|]. intros k Hk.
  rewrite forallb_forall in Hm. apply Z.leb_le, Hm. by apply list_elem_of_In.
Qed.

Lemma calmb_calm s : calmb s = true -> calm s.
Proof.
  unfold calmb. rewrite !andb_true_iff, !negb_true_iff.
  intros ((((((((((Hall & Hcpu) & Hsmp) & Hrt) & Hrr) & Hdl) & Hdr) & Hrq) & Hnr) & Hnd) & Htasks).
  split; try done; try (apply Z.eqb_eq, Hdl); try (by apply Z.leb_le); try (by apply Z.ltb_lt); try (by apply rq_okb_ok).
  - intros p q a Hp Hq Hgp Hgq.
    assert (H : forall r, 0 <= r -> get r (table s) = Some a -> exists x, boxes (table s) !! a = Some x /\ pid x = r).
    { intros r Hr Hg. unfold all_processes in Hall. rewrite forallb_forall in Hall. specialize (Hall r). rewrite Hg in Hall.
      destruct (boxes (table s) !! a) as [x|].
      - exists x. split; [done|]. assert (Hx : (pid x =? r) && negb (is_state Zombie x) && negb (is_state Blocked x) = true).
        { apply Hall, list_elem_of_In, elem_of_seqZ. pose proof (get_in_range _ _ _ Hg). lia. }
        apply andb_true_iff in Hx as [[Hx _]%andb_true_iff _]. by apply Z.eqb_eq.
      - discriminate Hall. apply list_elem_of_In, elem_of_seqZ. pose proof (get_in_range _ _ _ Hg). lia. }
    destruct (H p Hp Hgp) as (x & Hx & <-). destruct (H q Hq Hgq) as (y & Hy & <-). congruence.
  - apply bool_decide_eq_true in Hrt. by destruct (rt_queue (per_cpu s)).
  - by apply bool_decide_eq_true in Hnd.
  - intros p Hp. rewrite forallb_forall in Htasks. specialize (Htasks p (proj1 (list_elem_of_In _ _) Hp)).
    rewrite !andb_true_iff, !Z.ltb_lt in Htasks. destruct Htasks as [Hr Hq]. split; [done|].
    destruct (proc p s) as [q|]; [|done]. exists q. apply andb_true_iff in Hq as [Hpol Hrun]. by apply bool_decide_eq_true in Hpol.
  - intros p q Hp Hq. pose proof (all_processes_spec _ _ _ _ Hall Hp Hq) as H.
    rewrite !andb_true_iff, !negb_true_iff in H. destruct H as [[_ Hz] Hb]. unfold is_state in *.
    apply bool_decide_eq_false in Hz, Hb. split; [done|]. by intros ?.
Qed.

(** Three processes on one CPU, the first running. *)
Definition three_tasks : Sched :=
  let s := (create_process None 0 (create_process None 0 (create_process None 0 (scheduler_new 0 1 false)).2).2).2 in
  (schedule (add 4 (add 3 (add 2 s)))).2.

Lemma queued_task_runs_witness :
  exists n s', Z.of_nat n <= 32744 /\ ticks n 0 three_tasks = Done s' /\ current s' = Some 4.
Proof.
  apply (queued_task_runs three_tasks 4 0).
  - apply calmb_calm. vm_compute. reflexivity.
  - intros r Hr. unfold own. destruct (proc r three_tasks) as [q|] eqn:E; [|done].
    assert (H : all_processes (fun _ q => 0 <=? cfs_vruntime q) (table three_tasks) = true) by (vm_compute; reflexivity).
    apply Z.leb_le. exact (all_processes_spec _ _ r q H (proj1 Hr) E).
  - vm_compute. discriminate.
  - vm_compute. right. left.
  - vm_compute. discriminate.
  - vm_compute. discriminate.
Defined.

(** ** Moving tasks between CPUs *)
Definition queued (cpu : Z) (s : Sched) : list Z := map snd (tree (cfs_rq (per_cpu_for cpu s))).
Definition all_queued (s : Sched) : list Z := mjoin (map (fun cpu => queued cpu s) (seqZ 0 (cpu_count s))).

Lemma bt_remove_absent k l : k ∉ l -> bt_remove k l = (false, l).
Proof.
  induction l as [|x l IH]; intros H; [done|]. apply not_elem_of_cons in H as [Hx Hl]. cbn [bt_remove].
  destruct (key_eqb k x) eqn:E; [by apply key_eqb_spec in E|]. by rewrite IH.
Qed.

Lemma steal_tasks_spec n t : forall q ps q', rq_ok q -> steal_tasks n t q = (ps, q') ->
  rq_ok q' /\ (length ps <= n)%nat /\ map snd (tree q) = ps ++ map snd (tree q').
Proof.
  induction n as [|n IH]; intros q ps q' Hok H; cbn [steal_tasks] in H; [by injection H as <- <-|].
  pose proof (rq_pick_spec q Hok) as Hs. destruct (rq_pick_next q) as [[[p v]|] q1].
  - destruct Hs as (Htree & Hok1 & Hleast & _). set (w := match lookup p t with Some r => cfs_weight r | None => NICE0_WEIGHT end) in H.
    assert (Hd : (rq_dequeue p v w q1).2 = mkCfs (tree q1) (min_vruntime q1) (sat_sub (total_weight q1) w) (sat_sub (nr_running q1) 1)).
    { unfold rq_dequeue. rewrite bt_remove_absent; [done|]. intros Hin. by apply Hleast, key_lt_irrefl in Hin. }
    rewrite Hd in H. destruct (steal_tasks n t _) as [ps1 q2] eqn:E. injection H as <- <-.
    apply IH in E as (H1 & H2 & H3); [|done]. cbn [tree] in H3. rewrite Htree. cbn [map snd length app]. rewrite H3.
    split_and!; [done|lia|done].
  - destruct Hs as [Htree ->]. injection H as <- <-. split_and!; [done|cbn; lia|done].
Qed.

Lemma per_cpu_for_update_eq cpu f s : per_cpu_for cpu (update_cpu cpu f s) = f (per_cpu_for cpu s).
Proof. unfold per_cpu_for, update_cpu. cbn [cpus set_cpus]. by rewrite lookup_insert_eq. Qed.

Lemma per_cpu_for_update_ne cpu cpu' f s : 0 <= cpu < MAX_CPUS -> 0 <= cpu' < MAX_CPUS -> cpu <> cpu' ->
  per_cpu_for cpu (update_cpu cpu' f s) = per_cpu_for cpu s.
Proof.
  intros H1 H2 Hne. unfold per_cpu_for, update_cpu. cbn [cpus set_cpus]. rewrite lookup_insert_ne; [done|].
  rewrite !Z.mod_small by done. done.
Qed.

Lemma elem_snd v p (l : list key) : p ∉ map snd l -> (v, p) ∉ l.
Proof. intros H Hin. apply H. apply (list_elem_of_fmap_2 snd) in Hin. exact Hin. Qed.

Lemma rq_enqueue_pids p v w q : rq_ok q -> p ∉ map snd (tree q) ->
  rq_ok (rq_enqueue p v w q) /\ map snd (tree (rq_enqueue p v w q)) ≡ₚ p :: map snd (tree q).
Proof.
  intros Hok Hp. split; [by apply (rq_step_ok q _ (rq_step_enqueue p v w q))|]. cbn [tree rq_enqueue].
  by rewrite (bt_insert_perm _ _ (proj1 Hok) (elem_snd _ _ _ Hp)).
Qed.

(** The tasks in hand are dealt out to the two queues. *)
Lemma migrate_all src ps : forall s, 0 <= this_cpu s < MAX_CPUS -> 0 <= src < MAX_CPUS -> src <> this_cpu s ->
  rq_ok (cfs_rq (per_cpu_for src s)) -> rq_ok (cfs_rq (per_cpu s)) ->
  NoDup (ps ++ queued (this_cpu s) s ++ queued src s) ->
  let s' := foldl (migrate src) s ps in
  this_cpu s' = this_cpu s /\ cpu_count s' = cpu_count s /\
  queued (this_cpu s) s' ++ queued src s' ≡ₚ ps ++ queued (this_cpu s) s ++ queued src s /\
  (forall p, p ∈ queued (this_cpu s) s' -> p ∈ queued (this_cpu s) s \/ is_cpu_allowed p (this_cpu s) s = true) /\
  (length (queued (this_cpu s) s') <= length (queued (this_cpu s) s) + length ps)%nat /\
  (forall cpu, 0 <= cpu < MAX_CPUS -> cpu <> this_cpu s -> cpu <> src -> queued cpu s' = queued cpu s).
Proof.
  induction ps as [|p ps IH]; intros s Hthis Hsrc Hne Hok1 Hok2 Hnd s'.
  { subst s'. cbn [foldl]. split_and!; [done|done|done|by left|lia|done]. }
  cbn [app] in Hnd. apply NoDup_cons in Hnd as [Hp Hnd].
  rewrite !elem_of_app in Hp. apply Decidable.not_or in Hp as [Hps Hp]. apply Decidable.not_or in Hp as [Hp1 Hp2].
  subst s'. cbn [foldl]. set (s1 := migrate src s p).
  assert (Hm : exists vr w, s1 = update_cpu (if is_cpu_allowed p (this_cpu s) s then this_cpu s else src)
                                  (fun c => set_cfs_rq (rq_enqueue p vr w (cfs_rq c)) c) s).
  { subst s1. unfold migrate. destruct (proc p s) as [q|]; eauto. }
  destruct Hm as (vr & w & Hm).
  assert (Hal : forall r, is_cpu_allowed r (this_cpu s) s1 = is_cpu_allowed r (this_cpu s) s) by (rewrite Hm; done).
  assert (Ht1 : this_cpu s1 = this_cpu s /\ cpu_count s1 = cpu_count s) by (by rewrite Hm). destruct Ht1 as [Ht1 Hn1].
  destruct (rq_enqueue_pids p vr w _ Hok1 Hp2) as [He1 He2]. destruct (rq_enqueue_pids p vr w _ Hok2 Hp1) as [He3 He4].
  change (map snd (tree (cfs_rq (per_cpu s)))) with (queued (this_cpu s) s) in He4.
  change (map snd (tree (cfs_rq (per_cpu_for src s)))) with (queued src s) in He2.
  assert (Hstep : rq_ok (cfs_rq (per_cpu_for src s1)) /\ rq_ok (cfs_rq (per_cpu s1)) /\
      ((is_cpu_allowed p (this_cpu s) s = true /\ queued (this_cpu s) s1 ≡ₚ p :: queued (this_cpu s) s /\ queued src s1 = queued src s) \/
       (queued (this_cpu s) s1 = queued (this_cpu s) s /\ queued src s1 ≡ₚ p :: queued src s))).
  { unfold per_cpu. rewrite Ht1. unfold queued. rewrite Hm. destruct (is_cpu_allowed p (this_cpu s) s).
    - rewrite (per_cpu_for_update_ne src) by done. rewrite per_cpu_for_update_eq. cbn [cfs_rq set_cfs_rq].
      split_and!; [done|done|]. left. done.
    - rewrite (per_cpu_for_update_ne (this_cpu s)) by (done || lia). rewrite per_cpu_for_update_eq. cbn [cfs_rq set_cfs_rq].
      split_and!; [done|done|]. right. done. }
  destruct Hstep as (Hs1 & Hs2 & Hs3).
  assert (Hperm : queued (this_cpu s) s1 ++ queued src s1 ≡ₚ p :: queued (this_cpu s) s ++ queued src s).
  { destruct Hs3 as [(_ & -> & ->)|(-> & ->)]; [done|]. symmetry. apply Permutation_middle. }
  destruct (IH s1) as (H1 & H2 & H3 & H4 & H5 & H6); rewrite ?Ht1; try done.
  { rewrite Hperm. rewrite <- Permutation_middle. constructor; [|done]. rewrite !elem_of_app. tauto. }
  rewrite Ht1 in H1, H3, H4, H5, H6. rewrite Hn1 in H2. split_and!; [done|done| | | |].
  - rewrite H3, Hperm. symmetry. apply Permutation_middle.
  - intros r Hr. destruct (H4 r Hr) as [Hr'|Hr']; [|rewrite Hal in Hr'; by right].
    destruct Hs3 as [(Hallow & Hq & _)|(Hq & _)]; rewrite Hq in Hr'; [|by left]. apply elem_of_cons in Hr' as [->|?]; [by right|by left].
  - cbn [length]. assert (length (queued (this_cpu s) s1) <= S (length (queued (this_cpu s) s)))%nat; [|lia].
    destruct Hs3 as [(_ & Hq & _)|(Hq & _)]; rewrite Hq; cbn [length]; lia.
  - intros cpu Hcpu Hc1 Hc2. rewrite H6 by done. unfold queued. rewrite Hm.
    destruct (is_cpu_allowed p (this_cpu s) s); by rewrite per_cpu_for_update_ne.
Qed.

Lemma foldl_inv {A B} (P : A -> Prop) (f : A -> B -> A) l a :
  P a -> (forall a x, x ∈ l -> P a -> P (f a x)) -> P (foldl f a l).
Proof.
  revert a. induction l as [|x l IH]; intros a Ha Hf; [done|]. cbn [foldl]. apply IH.
  - apply Hf; [by left|done].
  - intros b y Hy. apply Hf. by right.
Qed.

Lemma busiest_spec s : let '(c, w) := busiest s in
  (c = this_cpu s /\ w = 0) \/ (0 <= c < cpu_count s /\ c <> this_cpu s /\ w = cpu_weight c s).
Proof.
  unfold busiest. apply (foldl_inv (fun b : Z * Z => let '(c, w) := b in
    (c = this_cpu s /\ w = 0) \/ (0 <= c < cpu_count s /\ c <> this_cpu s /\ w = cpu_weight c s))); [by left|].
  intros [c w] cpu Hcpu%elem_of_seqZ Hb. destruct (Z.eqb_spec cpu (this_cpu s)); [done|]. cbn [snd].
  destruct (w <? cpu_weight cpu s); [|done]. right. split_and!; [lia|lia|done|done].
Qed.

(** Two CPUs among all. *)
Lemma all_queued_two s a b : 0 <= a < cpu_count s -> 0 <= b < cpu_count s -> a <> b ->
  exists rest, (forall c, c ∈ rest -> 0 <= c < cpu_count s /\ c <> a /\ c <> b) /\ seqZ 0 (cpu_count s) ≡ₚ a :: b :: rest.
Proof.
  intros Ha Hb Hne. pose proof (NoDup_seqZ 0 (cpu_count s)) as Hnd.
  assert (Hina : a ∈ seqZ 0 (cpu_count s)) by (apply elem_of_seqZ; lia).
  apply elem_of_Permutation in Hina as [l1 Hl1]. rewrite Hl1 in Hnd. apply NoDup_cons in Hnd as [Ha1 Hnd].
  assert (Hinb : b ∈ l1).
  { assert (H : b ∈ seqZ 0 (cpu_count s)) by (apply elem_of_seqZ; lia). rewrite Hl1 in H. by apply elem_of_cons in H as [->|?]. }
  apply elem_of_Permutation in Hinb as [l2 Hl2]. rewrite Hl2 in Hnd. apply NoDup_cons in Hnd as [Hb2 _].
  exists l2. split; [|by rewrite Hl1, Hl2]. intros c Hc.
  assert (H : c ∈ seqZ 0 (cpu_count s)) by (rewrite Hl1, Hl2; by do 2 right). apply elem_of_seqZ in H.
  split_and!; [lia|lia| |by intros ->]. intros ->. apply Ha1. rewrite Hl2. by right.
Qed.

(** C16: Load balancing loses and duplicates no task: the tasks queued on all CPUs are
    the same before and after, at most four come to this CPU, and only tasks
    that are allowed on it. *)
Theorem load_balance_keeps_tasks s :
  0 <= this_cpu s < cpu_count s -> cpu_count s <= MAX_CPUS ->
  (forall cpu, 0 <= cpu < cpu_count s -> rq_ok (cfs_rq (per_cpu_for cpu s)) /\ 0 <= cpu_weight cpu s) ->
  NoDup (all_queued s) ->
  all_queued (load_balance s) ≡ₚ all_queued s /\
  (forall p, p ∈ queued (this_cpu s) (load_balance s) -> p ∈ queued (this_cpu s) s \/ is_cpu_allowed p (this_cpu s) s = true) /\
  (length (queued (this_cpu s) (load_balance s)) <= length (queued (this_cpu s) s) + 4)%nat.
Proof.
  intros Hthis Hmax Hcpus Hnd. unfold load_balance.
  destruct (Z.leb_spec (cpu_count s) 1); [split_and!; [done|by left|lia]|].
  pose proof (busiest_spec s) as Hb. destruct (busiest s) as [src w].
  destruct (Z.ltb_spec w (sat_add_u64 (cpu_weight (this_cpu s) s) LOAD_BALANCE_THRESHOLD)) as [?|Hw]; [split_and!; [done|by left|lia]|].
  destruct Hb as [[_ ->]|(Hsrc & Hne & _)].
  { destruct (Hcpus (this_cpu s) Hthis) as [_ H0]. unfold sat_add_u64, LOAD_BALANCE_THRESHOLD, U64_MAX in Hw. lia. }
  destruct (all_queued_two s (this_cpu s) src Hthis Hsrc ltac:(done)) as (rest & Hrest & Hseq).
  destruct (steal_tasks 4 (table s) (cfs_rq (per_cpu_for src s))) as [ps q] eqn:Esteal.
  destruct (Hcpus src Hsrc) as [Hoksrc _]. destruct (Hcpus (this_cpu s) Hthis) as [Hokthis _].
  destruct (steal_tasks_spec _ _ _ _ _ Hoksrc Esteal) as (Hq & Hlen & Hmap).
  set (s1 := update_cpu src (set_cfs_rq q) s).
  assert (Hsrc1 : queued src s1 = map snd (tree q)) by (unfold queued, s1; by rewrite per_cpu_for_update_eq).
  assert (Hoth1 : forall cpu, 0 <= cpu < cpu_count s -> cpu <> src -> per_cpu_for cpu s1 = per_cpu_for cpu s).
  { intros cpu Hc Hcs. apply per_cpu_for_update_ne; lia || done. }
  assert (Hthis1 : queued (this_cpu s) s1 = queued (this_cpu s) s) by (unfold queued; by rewrite Hoth1 by (done || lia)).
  assert (Hall : forall s', cpu_count s' = cpu_count s ->
     all_queued s' ≡ₚ (queued (this_cpu s) s' ++ queued src s') ++ mjoin (map (fun cpu => queued cpu s') rest)).
  { intros s' Hc. unfold all_queued. rewrite Hc, (Permutation_map _ Hseq). cbn [map mjoin list_join].
    by rewrite app_assoc. }
  assert (Hhand : ps ++ queued (this_cpu s) s1 ++ queued src s1 ≡ₚ queued (this_cpu s) s ++ queued src s).
  { rewrite Hthis1, Hsrc1. unfold queued at 2 3. rewrite Hmap, !app_assoc. apply Permutation_app_tail, Permutation_app_comm. }
  destruct (migrate_all src ps s1) as (H1 & H2 & H3 & H4 & H5 & H6); try (cbn; lia).
  - unfold s1. by rewrite per_cpu_for_update_eq.
  - change (per_cpu s1) with (per_cpu_for (this_cpu s) s1). by rewrite Hoth1 by (done || lia).
  - change (this_cpu s1) with (this_cpu s). rewrite Hhand. rewrite (Hall s eq_refl) in Hnd. by apply NoDup_app in Hnd as [? _].
  - change (this_cpu s1) with (this_cpu s) in *. split_and!.
    + rewrite (Hall _ H2), (Hall s eq_refl), H3, Hhand. apply Permutation_app_head.
      assert (Heq : map (fun cpu => queued cpu (foldl (migrate src) s1 ps)) rest = map (fun cpu => queued cpu s) rest).
      { apply map_ext_in. intros cpu Hc%list_elem_of_In. destruct (Hrest cpu Hc) as (? & ? & ?).
        rewrite H6 by (done || lia). unfold queued. by rewrite Hoth1. }
      by rewrite Heq.
    + intros p Hp. destruct (H4 p Hp) as [?|?]; [left; by rewrite <- Hthis1|by right].
    + rewrite Hthis1 in H5. lia.
Qed.

(** Two CPUs; the tasks 2, 3 and 4 wait on CPU 1, task 3 may run nowhere else. *)
Definition two_cpus : Sched :=
  let s := (create_process None 0 (create_process None 0 (create_process None 0 (scheduler_new 1 2 true)).2).2).2 in
  let s := with_proc 3 (set_affinity 2) (add 4 (add 3 (add 2 s))) in
  mkSched (table s) (cpus s) 0 (quotas s) (limits s) true 0 2 true 0.

Lemma load_balance_keeps_tasks_witness :
  queued 0 (load_balance two_cpus) = [2; 4] /\ queued 1 (load_balance two_cpus) = [3] /\
  all_queued (load_balance two_cpus) ≡ₚ [2; 3; 4].
Proof.
  split; [vm_compute; reflexivity|]. split; [vm_compute; reflexivity|].
  destruct (load_balance_keeps_tasks two_cpus) as [H _].
  - vm_compute. split; [discriminate|reflexivity].
  - vm_compute. discriminate.
  - intros cpu Hcpu. assert (cpu = 0 \/ cpu = 1) as [->| ->] by (cbn in Hcpu; lia).
    + split; [exact rq_new_ok|vm_compute; discriminate].
    + split; [apply rq_okb_ok; vm_compute; reflexivity|vm_compute; discriminate].
  - apply (bool_decide_unpack (NoDup (all_queued two_cpus))). vm_compute. exact I.
  - exact H.
Defined.

(** ** The order of the classes *)
Definition rt_alive (s : Sched) (t : RtTaskInfo) : bool :=
  match proc (rt_pid t) s with Some p => negb (is_state Zombie p) | None => false end.

Lemma schedule_fst s p s' : pick_task s = (Some p, s') -> is_Some (get p (table s')) -> (schedule s).1 = Some p.
Proof.
  intros H [a Ha]. unfold schedule. rewrite H. destruct (p =? _); [done|]. by rewrite Ha.
Qed.

Lemma rt_scan_skips dead t rest s : (forall x, x ∈ dead -> rt_alive s x = false) ->
  rt_scan (dead ++ t :: rest) s = rt_scan (t :: rest) s.
Proof.
  induction dead as [|x dead IH]; intros H; [done|]. cbn [app rt_scan]. fold (rt_alive s x).
  rewrite (H x ltac:(left)). cbn [negb]. apply IH. intros y Hy. apply H. by right.
Qed.

Lemma dead_rt_tasks_skipped s : dl_nr_running (dl_rq (per_cpu s)) = 0 ->
  (forall x, x ∈ rt_queue (per_cpu s) -> rt_alive s x = false) ->
  exists s1, table s1 = table s /\ cfs_rq (per_cpu s1) = cfs_rq (per_cpu s) /\
    pick_task s = match pick_cfs_task s1 with
                  | (Some p, s) => (Some p, s)
                  | (None, s) => if smp_enabled s then pick_cfs_task (load_balance s) else (None, s)
                  end.
Proof.
  intros Hnr Hdead. unfold pick_task, pick_deadline_task, dl_is_empty. rewrite Hnr. cbn [Z.eqb]. unfold pick_rt_task.
  set (s0 := update_this (set_dl_running false) (update_this (set_dl_running false) s)).
  assert (H0 : per_cpu s0 = set_dl_running false (set_dl_running false (per_cpu s))) by (unfold s0; by rewrite !per_cpu_update).
  assert (Hscan : forall q s', (forall x, x ∈ q -> rt_alive s' x = false) -> rt_scan q s' = (None, update_this (set_rt_queue []) s')).
  { induction q as [|x q IH]; intros s' H; [done|]. cbn [rt_scan]. fold (rt_alive s' x). rewrite (H x ltac:(left)).
    apply IH. intros y Hy. apply H. by right. }
  exists (update_this (set_rt_running false) (update_this (set_rt_queue []) s0)). split; [done|].
  rewrite !per_cpu_update, H0. split; [done|]. rewrite Hscan; [done|]. intros x Hx. by apply Hdead.
Qed.

Lemma rt_insert_spec i q : exists l1 l2, q = l1 ++ l2 /\ rt_insert i q = l1 ++ i :: l2 /\
  (forall x, x ∈ l1 -> rt_prio i <= rt_prio x) /\ match l2 with [] => True | x :: _ => rt_prio x < rt_prio i end.
Proof.
  induction q as [|x q IH]; [exists [], []; split_and!; try done; by intros x ?%elem_of_nil|]. cbn [rt_insert].
  destruct (Z.ltb_spec (rt_prio x) (rt_prio i)).
  - exists [], (x :: q). split_and!; try done. by intros y ?%elem_of_nil.
  - destruct IH as (l1 & l2 & -> & -> & H1 & H2). exists (x :: l1), l2. split_and!; try done.
    intros y [->|Hy]%elem_of_cons; [done|by apply H1].
Qed.

(** C17: [schedule] takes the deadline task with the earliest deadline, when it is
    alive and still of that class; without deadline tasks, the first living
    task of the real-time queue, when it is of class FIFO or RR; [add_rt_task]
    keeps that queue in order of priority, behind its equals; without deadline tasks
    and with no task of the real-time queue alive, the fair task with the least
    virtual runtime, when it is not blocked, not a zombie and of the fair class (a head that is not
    can stop its queue, see [dead_head_stops_queue]). *)
Theorem schedule_by_class s :
  (forall d p t q, dl_nr_running (dl_rq (per_cpu s)) <> 0 -> dl_tree (dl_rq (per_cpu s)) = (d, p) :: t ->
     proc p s = Some q -> state q <> Zombie -> sched_policy q = Deadline -> (schedule s).1 = Some p) /\
  (forall dead t rest, dl_nr_running (dl_rq (per_cpu s)) = 0 -> rt_queue (per_cpu s) = dead ++ t :: rest ->
     (forall x, x ∈ dead -> rt_alive s x = false) -> rt_alive s t = true -> rt_policy t = Fifo \/ rt_policy t = Rr ->
     (schedule s).1 = Some (rt_pid t)) /\
  (forall p v t q, dl_nr_running (dl_rq (per_cpu s)) = 0 ->
     (forall x, x ∈ rt_queue (per_cpu s) -> rt_alive s x = false) ->
     nr_running (cfs_rq (per_cpu s)) <> 0 -> tree (cfs_rq (per_cpu s)) = (v, p) :: t ->
     proc p s = Some q -> cfs_schedulable q = true -> (schedule s).1 = Some p) /\
  (forall p prio pol, exists l1 l2, rt_queue (per_cpu s) = l1 ++ l2 /\
     rt_queue (per_cpu (add_rt_task p prio pol s)) = l1 ++ mkRt p (Z.min prio RT_PRIORITY_MAX) pol RT_TIME_SLICE :: l2 /\
     (forall x, x ∈ l1 -> Z.min prio RT_PRIORITY_MAX <= rt_prio x) /\
     match l2 with [] => True | x :: _ => rt_prio x < Z.min prio RT_PRIORITY_MAX end).
Proof.
  split_and!.
  - intros d p t q Hnr Ht Hq Hz Hpol. destruct (get_of_proc _ _ _ Hq) as [a Ha].
    assert (H : exists s', pick_task s = (Some p, s') /\ table s' = table s).
    { unfold pick_task, pick_deadline_task, dl_is_empty, dl_pick_next. rewrite (proj2 (Z.eqb_neq _ _) Hnr), Ht, Hq.
      unfold is_state, has_policy. rewrite Hpol, (bool_decide_false (state q = Zombie)), bool_decide_true by done. cbn [negb andb]. eauto. }
    destruct H as (s' & Hpick & Htab). apply (schedule_fst s p s' Hpick). rewrite Htab. by eexists.
  - intros dead t rest Hnr Hq Hdead Hal Hpol.
    assert (Hget : is_Some (get (rt_pid t) (table s))).
    { unfold rt_alive in Hal. destruct (proc (rt_pid t) s) as [q|] eqn:E; [|done]. by apply get_of_proc in E as [a ->]. }
    set (s1 := update_this (set_dl_running false) (update_this (set_dl_running false) s)).
    assert (H1 : rt_queue (per_cpu s1) = dead ++ t :: rest) by (unfold s1; by rewrite !per_cpu_update).
    assert (Hscan : exists s2, rt_scan (rt_queue (per_cpu s1)) s1 = (Some (rt_pid t), s2) /\ table s2 = table s).
    { rewrite H1, rt_scan_skips by done. cbn [rt_scan]. change (proc (rt_pid t) s1) with (proc (rt_pid t) s). fold (rt_alive s t).
      rewrite Hal. destruct Hpol as [-> | ->]; eauto. }
    destruct Hscan as (s2 & Hscan & Ht2). eapply (schedule_fst s _ s2); [|by rewrite Ht2].
    unfold pick_task, pick_deadline_task, dl_is_empty. rewrite Hnr. cbn [Z.eqb]. unfold pick_rt_task. fold s1. by rewrite Hscan.
  - intros p v t q Hnr Hdead Hn Htree Hq Hs. destruct (get_of_proc _ _ _ Hq) as [a Ha].
    destruct (dead_rt_tasks_skipped s Hnr Hdead) as (s1 & Ht & Hcfs & Hpick).
    assert (H : exists s2, pick_cfs_task s1 = (Some p, s2) /\ is_Some (get p (table s2))).
    { unfold pick_cfs_task, rq_is_empty, rq_pick_next. rewrite Hcfs, Htree, (proj2 (Z.eqb_neq _ 0)) by done.
      unfold proc in Hq |- *. rewrite Ht, Hq, Hs.
      eexists. split; [reflexivity|]. cbn [table set_table with_proc update_this update_cpu set_cpus].
      rewrite get_with_process, Ht. by eexists. }
    destruct H as (s2 & H2 & Hg). apply (schedule_fst s p s2); [|done]. by rewrite Hpick, H2.
  - intros p prio pol. unfold add_rt_task, rt_enqueue. rewrite per_cpu_update. cbn [rt_queue set_rt_queue].
    apply (rt_insert_spec (mkRt p (Z.min prio RT_PRIORITY_MAX) pol RT_TIME_SLICE)).
Qed.

Lemma schedule_by_class_witness :
  let s := add_rt_task 4 20 Fifo (add_rt_task 3 10 Rr three_tasks) in
  (schedule s).1 = Some 4 /\ (schedule three_tasks).1 = Some 3.
Proof.
  intros s. destruct (schedule_by_class s) as (_ & Hrt & _). destruct (schedule_by_class three_tasks) as (_ & _ & Hcfs & _).
  split.
  - apply (Hrt [] (mkRt 4 20 Fifo RT_TIME_SLICE) [mkRt 3 10 Rr RT_TIME_SLICE]).
    + vm_compute. reflexivity.
    + vm_compute. reflexivity.
    + by intros x ?%elem_of_nil.
    + vm_compute. reflexivity.
    + by left.
  - destruct (proc 3 three_tasks) as [q|] eqn:E; [|vm_compute in E; discriminate E].
    assert (Hs : (cfs_schedulable <$> proc 3 three_tasks) = Some true) by (vm_compute; reflexivity).
    apply (Hcfs 3 0 [(0, 4)] q); [vm_compute; reflexivity| |vm_compute; discriminate|vm_compute; reflexivity|exact E|].
    + assert (Hrq : rt_queue (per_cpu three_tasks) = []) by (vm_compute; reflexivity).
      rewrite Hrq. intros x Hx. exfalso. exact (not_elem_of_nil x Hx).
    + rewrite E in Hs. by injection Hs.
Defined.

(** ** Where the code departs from its purpose *)

(** An unschedulable task at the head, with a lower number than the next one at
    the same virtual runtime, stays there: nothing is picked, and the queue is
    as before. *)
Lemma dead_head_stops_queue s m z r t :
  smp_enabled s = false -> rt_queue (per_cpu s) = [] -> rt_running (per_cpu s) = false ->
  dl_nr_running (dl_rq (per_cpu s)) = 0 -> dl_running (per_cpu s) = false ->
  tree (cfs_rq (per_cpu s)) = (m, z) :: (m, r) :: t -> min_vruntime (cfs_rq (per_cpu s)) = m -> z < r ->
  match proc z s with Some q => cfs_schedulable q | None => false end = false ->
  (schedule s).1 = None /\ cfs_rq (per_cpu (schedule s).2) = cfs_rq (per_cpu s) /\
  current_pid (per_cpu (schedule s).2) = current_pid (per_cpu s) /\ table (schedule s).2 = table s.
Proof.
  intros Hsmp Hrt Hrr Hdl Hdr Htree Hmin Hzr Hz.
  destruct (pick_task_fair s) as (s1 & Hf & Ht & Hp & Hpick); try done. unfold schedule. rewrite Hpick.
  unfold pick_cfs_task, rq_is_empty, rq_pick_next. rewrite Hp, Htree.
  destruct (nr_running (cfs_rq (per_cpu s)) =? 0); cbn [fst snd]; [by rewrite Hp|].
  unfold proc in *. rewrite Ht, Hz. cbn [fst snd]. rewrite per_cpu_update, Hp. cbn [cfs_rq set_cfs_rq current_pid].
  split_and!; [done| |done|done]. unfold update_curr, sync_min_vruntime. cbn [tree min_vruntime total_weight nr_running].
  rewrite Z.max_id. cbn [bt_insert]. rewrite (proj2 (key_ltb_spec (m, z) (m, r))) by (right; done).
  rewrite <- Htree, <- Hmin. by destruct (cfs_rq (per_cpu s)).
Qed.

(** A switch hands the accounting a process number: the next timer interrupt
    takes the memory at that address, below 256, for a [Thread]. *)
Theorem accounting_dereferences_pid s p :
  (schedule s).1 = Some p -> current_pid (per_cpu s) <> p -> p <> 0 ->
  p < MAX_PROCESSES /\ accounting_target (schedule s).2 = Some p.
Proof.
  unfold schedule. destruct (pick_task s) as [[n|] s1]; [|done]. destruct (Z.eqb_spec n (current_pid (per_cpu s))) as [->|Hne].
  { by intros [= ->]. }
  destruct (get n (table s1)) as [a|] eqn:E; [|done]. cbn [fst snd]. intros [= ->] _ Hp0.
  split; [by eapply get_in_range|].
  assert (H : forall s', ex_current (requeue (current_pid (per_cpu s)) s') = ex_current s').
  { intros s'. unfold requeue. destruct (dl_running _); [by destruct (proc _ _)|].
    destruct (rt_running _); [|done]. destruct (proc _ _); [|done]. by destruct (bool_decide _). }
  unfold accounting_target.
  destruct (if current_pid (per_cpu s) =? 0 then None else _); rewrite ?H; cbn [ex_current set_ex_current];
    by rewrite (proj2 (Z.eqb_neq p 0)).
Qed.

Example accounting_dereferences_pid_witness : accounting_target (schedule three_tasks).2 = Some 3.
Proof.
  refine (proj2 (accounting_dereferences_pid three_tasks 3 _ _ _)); [vm_compute; reflexivity|vm_compute; discriminate|discriminate].
Defined.

(** A task that blocks is made ready and queued again by the switch it asks for. *)
Example block_is_undone :
  let s := (schedule (block WaitingForIo three_tasks)).2 in
  current s = Some 3 /\ state <$> proc 2 s = Some Ready /\ tree (cfs_rq (per_cpu s)) = [(0, 2); (0, 4)].
Proof. vm_compute. split_and!; reflexivity. Qed.

(** A task that exits is queued again, as a zombie at the head. *)
Example exited_task_is_queued :
  exists s, exit (fun _ s => s) 0 three_tasks = Done (Some 3, s) /\ state <$> proc 2 s = Some Zombie /\
    tree (cfs_rq (per_cpu s)) = [(0, 2); (0, 4)] /\ (schedule s).1 = None.
Proof. eexists. split; [vm_compute; reflexivity|]. vm_compute. split_and!; reflexivity. Qed.

(** An exclusive FIFO task that a stronger one replaces is in no queue any more. *)
Example preempted_fifo_task_is_lost :
  let s := (schedule (add_rt_task 3 10 Fifo (set_sched_policy_of 3 Fifo 10 three_tasks).2)).2 in
  let s := (schedule (add_rt_task 4 20 Fifo (set_sched_policy_of 4 Fifo 20 s).2)).2 in
  current s = Some 4 /\ map rt_pid (rt_queue (per_cpu s)) = [2].
Proof. vm_compute. split; reflexivity. Qed.

(** An RR task is queued when it is picked and again when it is replaced. *)
Example rr_task_is_queued_twice :
  let s := (schedule (add_rt_task 3 10 Rr (set_sched_policy_of 3 Rr 10 three_tasks).2)).2 in
  let s := (schedule (add_rt_task 4 20 Rr (set_sched_policy_of 4 Rr 20 s).2)).2 in
  current s = Some 4 /\ map rt_pid (rt_queue (per_cpu s)) = [3; 3; 2; 4].
Proof. vm_compute. split; reflexivity. Qed.

(** A normal task replaced by a real-time one goes to the real-time queue. *)
Example normal_task_joins_rt_queue :
  let s := (schedule (add_rt_task 3 10 Fifo (set_sched_policy_of 3 Fifo 10 three_tasks).2)).2 in
  sched_policy <$> proc 2 s = Some SchedNormal /\ map rt_pid (rt_queue (per_cpu s)) = [2].
Proof. vm_compute. split; reflexivity. Qed.

(** A task that becomes a deadline task is not queued as one, and stops the fair queue. *)
Example new_deadline_task_never_runs :
  let s := (set_deadline_params 3 (mkParams 60 100 100) three_tasks).2 in
  dl_tree (dl_rq (per_cpu s)) = [] /\ (schedule s).1 = None.
Proof. vm_compute. split; reflexivity. Qed.

(** The share of a deadline task is taken at every wake-up and never given back. *)
Example second_wakeup_is_refused :
  let q := (dl_pick_next (dl_enqueue 3 100 60 dl_new).2).2 in
  dl_tree q = [] /\ (dl_enqueue 3 200 60 q).1 = false.
Proof. vm_compute. split; reflexivity. Qed.

(** The first process stays in the state it was created in. *)
Example init_is_not_running :
  let s := init (scheduler_new 0 1 false) in current s = Some 2 /\ state <$> proc 2 s = Some Created.
Proof. vm_compute. split; reflexivity. Qed.

(** A creation refused for its limit keeps the number. *)
Example refused_creation_keeps_number :
  let s := (create_process None 7 (set_limit 7 1 (scheduler_new 0 1 false))).2 in
  let '(r, s') := create_process None 7 s in
  r = None /\ nth 3 (pid_bitmap (table s')) false = true /\ get 3 (table s') = None.
Proof. vm_compute. split_and!; reflexivity. Qed.

(** A new task has no virtual runtime: it is not replaced while it catches up. *)
Example newcomer_is_not_replaced :
  let s := update_this (set_cfs_rq (mkCfs [(5000, 3); (5000, 4)] 5000 3072 3)) three_tasks in
  exists s', ticks 60 0 s = Done s' /\ current s' = Some 2 /\ own s' 2 = 60.
Proof. eexists. split; [vm_compute; reflexivity|]. vm_compute. split; reflexivity. Qed.

(** The watchdog of a FIFO task loses two at every tick. *)
Lemma fifo_watchdog_counts_twice s p q :
  current_pid (per_cpu s) = p -> p <> 0 -> rt_running (per_cpu s) = true -> dl_running (per_cpu s) = false ->
  proc p s = Some q -> sched_policy q = Fifo -> 2 <= fifo_watchdog (per_cpu s) <= RT_FIFO_WATCHDOG ->
  fifo_watchdog (per_cpu (charge_current (this_cpu s) s)) = fifo_watchdog (per_cpu s) - 2.
Proof.
  intros Hcur Hp0 Hrr Hdr Hq Hpol Hw. unfold charge_current, watchdog_tick. change (per_cpu_for (this_cpu s) s) with (per_cpu s).
  rewrite Hcur, (proj2 (Z.eqb_neq _ _) Hp0), Hrr, (proj2 (Z.ltb_lt 0 _)), (proj2 (Z.leb_gt _ 1)) by lia. cbn [andb].
  set (s1 := update_cpu _ _ s). assert (H1 : per_cpu s1 = set_watchdog (fifo_watchdog (per_cpu s) - 1) (per_cpu s)) by apply per_cpu_update.
  change (per_cpu_for (this_cpu s) s1) with (per_cpu s1). rewrite H1. cbn [dl_running set_watchdog]. rewrite Hdr.
  unfold rt_tick. change (proc p s1) with (proc p s). rewrite Hq, Hpol, bool_decide_true by done.
  change (per_cpu_for (this_cpu s) s1) with (per_cpu s1). rewrite H1. cbn [fifo_watchdog set_watchdog].
  rewrite wrap_u64_small by (unfold u64, U64_MAX, RT_FIFO_WATCHDOG in *; lia).
  change (this_cpu s) with (this_cpu s1). rewrite update_cpu_this.
  destruct (_ =? 0); [|rewrite per_cpu_update; cbn; lia].
  change (this_cpu s1) with (this_cpu (update_this (set_watchdog (fifo_watchdog (per_cpu s) - 1 - 1)) s1)).
  rewrite update_cpu_this, !per_cpu_update. cbn. lia.
Qed.

(** The cleanup reaps nothing: a zombie without a parent is passed over, one with a
    parent makes the timer interrupt take the table lock twice. *)
Lemma cleanup_never_reaps s :
  ((forall p q, 1 <= p <= 255 -> proc p s = Some q -> state q = Zombie -> parent q = None) -> reap s = Done s) /\
  (forall p q, 1 <= p <= 255 -> proc p s = Some q -> state q = Zombie -> parent q <> None -> reap s = Deadlock).
Proof.
  assert (Hlive : forall p, (forall q, proc p s = Some q -> state q = Zombie -> parent q = None) -> should_reap s p = Done false).
  { intros p H. unfold should_reap, is_state. destruct (proc p s) as [q|]; [|done]. destruct (decide (state q = Zombie)) as [Hz|Hz].
    - rewrite bool_decide_true, (H q eq_refl Hz) by done. done.
    - by rewrite bool_decide_false. }
  assert (Hdead : forall p, ~ (forall q, proc p s = Some q -> state q = Zombie -> parent q = None) -> should_reap s p = Deadlock).
  { intros p H. unfold should_reap, is_state. destruct (proc p s) as [q|]; [|by destruct H].
    destruct (decide (state q = Zombie)) as [Hz|Hz]; [|by destruct H; intros ? [= <-]].
    rewrite bool_decide_true by done. destruct (parent q) eqn:E; [done|]. destruct H. by intros ? [= <-]. }
  assert (Hdec : forall p, should_reap s p = Done false \/ should_reap s p = Deadlock).
  { intros p. unfold should_reap. destruct (proc p s) as [q|]; [|by left]. destruct (is_state Zombie q); [|by left].
    destruct (parent q); [by right|by left]. }
  split.
  - intros H. unfold reap, reap_candidates. rewrite ofold_stays_nil; [done|]. intros p Hp%elem_of_seqZ.
    apply Hlive. intros q. apply H. lia.
  - intros p q Hp Hq Hz Hpar. unfold reap, reap_candidates. rewrite (ofold_deadlocks _ _ p); [done| | |exact Hdec].
    + apply elem_of_seqZ. lia.
    + apply Hdead. intros H. by apply Hpar, (H q).
Qed.

(** Updates that leave a field alone leave it alone under every number. *)
Lemma field_with_process {B} (g : Process -> B) p r f t : (forall q, g (f q) = g q) ->
  g <$> lookup p (with_process r f t) = g <$> lookup p t.
Proof.
  intros Hf. unfold lookup. rewrite get_with_process. unfold with_process. destruct (get r t) as [b|]; [|done].
  destruct (boxes t !! b) as [x|] eqn:Ex; [|done]. destruct (get p t) as [a|]; [|done]. cbn [boxes set_boxes].
  destruct (decide (a = b)) as [->|Hne]; [|by rewrite lookup_insert_ne]. rewrite lookup_insert_eq, Ex. cbn. by rewrite Hf.
Qed.

Lemma children_try_state st q : children (try_state st q) = children q.
Proof. unfold try_state, set_state_safe. destruct (legal _ _); [by destruct q|done]. Qed.

Lemma children_unblock p r s : children <$> proc p (unblock r s) = children <$> proc p s.
Proof.
  unfold unblock. destruct (proc r s) as [q|]; [|done]. destruct (_ && _); [done|].
  destruct (sched_policy q); unfold proc; cbn [table set_table with_proc update_this update_cpu set_cpus rt_enqueue];
    rewrite ?field_with_process; auto using children_try_state; intros; by destruct q0.
Qed.

(** A process that still has children never gets past its exit. *)
Lemma exit_with_children_deadlocks s p q code : current s = Some p -> proc p s = Some q -> children q <> [] ->
  exit (fun _ s => s) code s = Deadlock.
Proof.
  intros Hcur Hq Hch. unfold exit. rewrite Hcur, Hq.
  set (s1 := dec_limit _ _). set (s2 := match parent q with Some pp => unblock pp s1 | None => s1 end).
  assert (H2 : children <$> proc p s2 = Some (children q)).
  { assert (H1 : children <$> proc p s1 = Some (children q)).
    { assert (Hd : forall pw x, proc p (dec_limit pw x) = proc p x) by (intros pw x; unfold dec_limit; by destruct (pw =? 0)).
      unfold s1. rewrite Hd. unfold proc. cbn [table set_table with_proc]. rewrite field_with_process.
      - unfold proc in Hq. by rewrite Hq.
      - intros x. rewrite children_try_state. by destruct x. }
    unfold s2. destruct (parent q); [|done]. by rewrite children_unblock. }
  unfold orphan_children. destruct (proc p s2) as [q2|]; [|done]. cbn in H2. injection H2 as ->.
  by destruct (children q).
Qed.

End SchedulerSpec.
