(* ===== verification/WasmTypes.v ===== *)
(** * WebAssembly types ([services/wasm/types.rs])

    The value types, operation codes, module structure and errors shared by
    the binary parser ([WasmModule]) and the interpreter ([WasmInterp]), and the
    monad their readers are written in: a reader looks at an immutable byte
    slice, moves a position, and returns a value or a [WasmError]; indexing the
    slice outside its length panics. *)
From S2P Require Import Prelude Bytes.

Definition WASM_MAGIC : Z := 0x6D736100.
Definition WASM_VERSION : Z := 1.
Definition WASM_PAGE_SIZE : Z := 65536.

Definition SECTION_TYPE : Z := 1.
Definition SECTION_IMPORT : Z := 2.
Definition SECTION_FUNCTION : Z := 3.
Definition SECTION_TABLE : Z := 4.
Definition SECTION_MEMORY : Z := 5.
Definition SECTION_GLOBAL : Z := 6.
Definition SECTION_EXPORT : Z := 7.
Definition SECTION_START : Z := 8.
Definition SECTION_ELEMENT : Z := 9.
Definition SECTION_CODE : Z := 10.
Definition SECTION_DATA : Z := 11.

(** ** Values *)
Inductive ValueType := TI32 | TI64 | TF32 | TF64.

Definition value_type_byte (t : ValueType) : Z :=
  match t with TI32 => 0x7F | TI64 => 0x7E | TF32 => 0x7D | TF64 => 0x7C end.

Definition value_type_from_byte (b : Z) : option ValueType :=
  match b with
  | 0x7F => Some TI32
  | 0x7E => Some TI64
  | 0x7D => Some TF32
  | 0x7C => Some TF64
  | _ => None
  end.

(** Integers are signed, floats are kept as their bit patterns. *)
Inductive Value := VI32 (v : Z) | VI64 (v : Z) | VF32 (v : Z) | VF64 (v : Z).

Definition value_as_i32 (v : Value) : option Z := match v with VI32 v => Some v | _ => None end.
Definition value_as_u32 (v : Value) : option Z :=
  match v with VI32 v => Some (wrap_u32 v) | _ => None end.
Definition value_as_i64 (v : Value) : option Z := match v with VI64 v => Some v | _ => None end.

Definition default_for (t : ValueType) : Value :=
  match t with TI32 => VI32 0 | TI64 => VI64 0 | TF32 => VF32 0 | TF64 => VF64 0 end.

(** ** Module structure *)
Record FuncType := mkFuncType { ft_params : list ValueType; ft_results : list ValueType }.

Record Limits := mkLimits { lim_min : Z; lim_max : option Z }.

Record TableType := mkTableType { element_type : ValueType; tt_limits : Limits }.

Record MemoryType := mkMemoryType { mt_limits : Limits }.

Record GlobalType := mkGlobalType { content_type : ValueType; mutable : bool }.

Inductive ImportKind :=
  | IFunction (type_idx : Z)
  | ITable (t : TableType)
  | IMemory (m : MemoryType)
  | IGlobal (g : GlobalType).

Record ImportDesc := mkImport { imp_module : bytes; imp_name : bytes; imp_desc : ImportKind }.

Inductive ExportKind := EFunction | ETable | EMemory | EGlobal.

Record ExportDesc := mkExport { exp_name : bytes; exp_kind : ExportKind; exp_index : Z }.

Record FunctionBody := mkBody { fb_locals : list (Z * ValueType); fb_code : bytes }.

Record DataSegment := mkData { ds_memory : Z; ds_offset : bytes; ds_data : bytes }.

Record ElementSegment := mkElement { es_table : Z; es_offset : bytes; es_funcs : list Z }.

Record WasmModule := mkModule {
  m_types : list FuncType;
  m_imports : list ImportDesc;
  m_functions : list Z;
  m_tables : list TableType;
  m_memories : list MemoryType;
  m_globals : list (GlobalType * bytes);
  m_exports : list ExportDesc;
  m_start : option Z;
  m_elements : list ElementSegment;
  m_code : list FunctionBody;
  m_data : list DataSegment;
}.

#[export] Instance value_type_eq_dec : EqDecision ValueType.
Proof. solve_decision. Defined.
#[export] Instance export_kind_eq_dec : EqDecision ExportKind.
Proof. solve_decision. Defined.
#[export] Instance value_eq_dec : EqDecision Value.
Proof. solve_decision. Defined.

(** ** Operation codes *)
Inductive Opcode :=
  | Unreachable | Nop | Block | Loop | If | Else | End | Br | BrIf | BrTable | Return | Call
  | CallIndirect | Drop | Select
  | LocalGet | LocalSet | LocalTee | GlobalGet | GlobalSet
  | I32Load | I64Load | I32Load8S | I32Load8U | I32Load16S | I32Load16U
  | I64Load8S | I64Load8U | I64Load16S | I64Load16U | I64Load32S | I64Load32U
  | I32Store | I64Store | I32Store8 | I32Store16 | I64Store8 | I64Store16 | I64Store32
  | MemorySize | MemoryGrow | I32Const | I64Const
  | I32Eqz | I32Eq | I32Ne | I32LtS | I32LtU | I32GtS | I32GtU | I32LeS | I32LeU | I32GeS | I32GeU
  | I64Eqz | I64Eq | I64Ne | I64LtS | I64LtU | I64GtS | I64GtU | I64LeS | I64LeU | I64GeS | I64GeU
  | I32Add | I32Sub | I32Mul | I32DivS | I32DivU | I32RemS | I32RemU | I32And | I32Or | I32Xor
  | I32Shl | I32ShrS | I32ShrU | I32Rotl | I32Rotr
  | I64Add | I64Sub | I64Mul | I64DivS | I64DivU | I64RemS | I64RemU | I64And | I64Or | I64Xor
  | I64Shl | I64ShrS | I64ShrU | I64Rotl | I64Rotr
  | I32WrapI64 | I64ExtendI32S | I64ExtendI32U.

(** The discriminants of the [repr(u8)] enumeration. *)
Definition opcode_byte (o : Opcode) : Z :=
  match o with
  | Unreachable => 0x00 | Nop => 0x01 | Block => 0x02 | Loop => 0x03 | If => 0x04 | Else => 0x05
  | End => 0x0B | Br => 0x0C | BrIf => 0x0D | BrTable => 0x0E | Return => 0x0F | Call => 0x10
  | CallIndirect => 0x11 | Drop => 0x1A | Select => 0x1B
  | LocalGet => 0x20 | LocalSet => 0x21 | LocalTee => 0x22 | GlobalGet => 0x23 | GlobalSet => 0x24
  | I32Load => 0x28 | I64Load => 0x29 | I32Load8S => 0x2C | I32Load8U => 0x2D
  | I32Load16S => 0x2E | I32Load16U => 0x2F | I64Load8S => 0x30 | I64Load8U => 0x31
  | I64Load16S => 0x32 | I64Load16U => 0x33 | I64Load32S => 0x34 | I64Load32U => 0x35
  | I32Store => 0x36 | I64Store => 0x37 | I32Store8 => 0x3A | I32Store16 => 0x3B
  | I64Store8 => 0x3C | I64Store16 => 0x3D | I64Store32 => 0x3E
  | MemorySize => 0x3F | MemoryGrow => 0x40 | I32Const => 0x41 | I64Const => 0x42
  | I32Eqz => 0x45 | I32Eq => 0x46 | I32Ne => 0x47 | I32LtS => 0x48 | I32LtU => 0x49
  | I32GtS => 0x4A | I32GtU => 0x4B | I32LeS => 0x4C | I32LeU => 0x4D | I32GeS => 0x4E | I32GeU => 0x4F
  | I64Eqz => 0x50 | I64Eq => 0x51 | I64Ne => 0x52 | I64LtS => 0x53 | I64LtU => 0x54
  | I64GtS => 0x55 | I64GtU => 0x56 | I64LeS => 0x57 | I64LeU => 0x58 | I64GeS => 0x59 | I64GeU => 0x5A
  | I32Add => 0x6A | I32Sub => 0x6B | I32Mul => 0x6C | I32DivS => 0x6D | I32DivU => 0x6E
  | I32RemS => 0x6F | I32RemU => 0x70 | I32And => 0x71 | I32Or => 0x72 | I32Xor => 0x73
  | I32Shl => 0x74 | I32ShrS => 0x75 | I32ShrU => 0x76 | I32Rotl => 0x77 | I32Rotr => 0x78
  | I64Add => 0x7C | I64Sub => 0x7D | I64Mul => 0x7E | I64DivS => 0x7F | I64DivU => 0x80
  | I64RemS => 0x81 | I64RemU => 0x82 | I64And => 0x83 | I64Or => 0x84 | I64Xor => 0x85
  | I64Shl => 0x86 | I64ShrS => 0x87 | I64ShrU => 0x88 | I64Rotl => 0x89 | I64Rotr => 0x8A
  | I32WrapI64 => 0xA7 | I64ExtendI32S => 0xAC | I64ExtendI32U => 0xAD
  end.

Definition opcode_from_byte (b : Z) : option Opcode :=
  match b with
  | 0x00 => Some Unreachable | 0x01 => Some Nop | 0x02 => Some Block | 0x03 => Some Loop
  | 0x04 => Some If | 0x05 => Some Else | 0x0B => Some End | 0x0C => Some Br | 0x0D => Some BrIf
  | 0x0E => Some BrTable | 0x0F => Some Return | 0x10 => Some Call | 0x11 => Some CallIndirect
  | 0x1A => Some Drop | 0x1B => Some Select
  | 0x20 => Some LocalGet | 0x21 => Some LocalSet | 0x22 => Some LocalTee
  | 0x23 => Some GlobalGet | 0x24 => Some GlobalSet
  | 0x28 => Some I32Load | 0x29 => Some I64Load | 0x2C => Some I32Load8S | 0x2D => Some I32Load8U
  | 0x2E => Some I32Load16S | 0x2F => Some I32Load16U | 0x30 => Some I64Load8S
  | 0x31 => Some I64Load8U | 0x32 => Some I64Load16S | 0x33 => Some I64Load16U
  | 0x34 => Some I64Load32S | 0x35 => Some I64Load32U
  | 0x36 => Some I32Store | 0x37 => Some I64Store | 0x3A => Some I32Store8
  | 0x3B => Some I32Store16 | 0x3C => Some I64Store8 | 0x3D => Some I64Store16
  | 0x3E => Some I64Store32 | 0x3F => Some MemorySize | 0x40 => Some MemoryGrow
  | 0x41 => Some I32Const | 0x42 => Some I64Const
  | 0x45 => Some I32Eqz | 0x46 => Some I32Eq | 0x47 => Some I32Ne | 0x48 => Some I32LtS
  | 0x49 => Some I32LtU | 0x4A => Some I32GtS | 0x4B => Some I32GtU | 0x4C => Some I32LeS
  | 0x4D => Some I32LeU | 0x4E => Some I32GeS | 0x4F => Some I32GeU
  | 0x50 => Some I64Eqz | 0x51 => Some I64Eq | 0x52 => Some I64Ne | 0x53 => Some I64LtS
  | 0x54 => Some I64LtU | 0x55 => Some I64GtS | 0x56 => Some I64GtU | 0x57 => Some I64LeS
  | 0x58 => Some I64LeU | 0x59 => Some I64GeS | 0x5A => Some I64GeU
  | 0x6A => Some I32Add | 0x6B => Some I32Sub | 0x6C => Some I32Mul | 0x6D => Some I32DivS
  | 0x6E => Some I32DivU | 0x6F => Some I32RemS | 0x70 => Some I32RemU | 0x71 => Some I32And
  | 0x72 => Some I32Or | 0x73 => Some I32Xor | 0x74 => Some I32Shl | 0x75 => Some I32ShrS
  | 0x76 => Some I32ShrU | 0x77 => Some I32Rotl | 0x78 => Some I32Rotr
  | 0x7C => Some I64Add | 0x7D => Some I64Sub | 0x7E => Some I64Mul | 0x7F => Some I64DivS
  | 0x80 => Some I64DivU | 0x81 => Some I64RemS | 0x82 => Some I64RemU | 0x83 => Some I64And
  | 0x84 => Some I64Or | 0x85 => Some I64Xor | 0x86 => Some I64Shl | 0x87 => Some I64ShrS
  | 0x88 => Some I64ShrU | 0x89 => Some I64Rotl | 0x8A => Some I64Rotr
  | 0xA7 => Some I32WrapI64 | 0xAC => Some I64ExtendI32S | 0xAD => Some I64ExtendI32U
  | _ => None
  end.

(** ** Errors *)
Inductive WasmError :=
  | InvalidMagic
  | InvalidVersion
  | Truncated
  | Leb128Overflow
  | UnknownSection (b : Z)
  | UnknownOpcode (b : Z)
  | TypeMismatch
  | StackUnderflow
  | StackOverflow
  | DivisionByZero
  | IntegerOverflow
  | MemoryOutOfBounds
  | MemoryGrowFailed
  | CallDepthExceeded
  | GasExhausted
  | UnreachableTrap
  | BadExport
  | BadImport
  | FunctionNotFound
  | BadTypeIndex (i : Z)
  | BadFuncIndex (i : Z)
  | InternalError
  | Terminated.

Inductive result (A : Type) : Type := Ok (a : A) | Err (e : WasmError).
Arguments Ok {A} a.
Arguments Err {A} e.

(** ** Readers

    [&[u8], pos: &mut usize -> Result<A, WasmError>]. The position is kept on
    errors: the interpreter's program counter is read this way. *)
Definition parser (A : Type) : Type := bytes -> nat -> outcome (result A * nat).

#[export] Instance parser_ret : MRet parser := fun A a bs pos => Done (Ok a, pos).
#[export] Instance parser_bind : MBind parser := fun A B k p bs pos =>
  match p bs pos with
  | Done (Ok a, pos) => k a bs pos
  | Done (Err e, pos) => Done (Err e, pos)
  | Panic => Panic
  | Deadlock => Deadlock
  end.

(** [return Err(e)] *)
Definition fail {A} (e : WasmError) : parser A := fun _ pos => Done (Err e, pos).

(** [bytes[*pos]; *pos += 1] *)
Definition next_byte : parser Z := fun bs pos =>
  match bs !! pos with Some b => Done (Ok b, S pos) | None => Panic end.

(** [if *pos >= bytes.len() { return Err(Truncated) }] and then the byte. *)
Definition next_byte_checked : parser Z := fun bs pos =>
  match bs !! pos with Some b => Done (Ok b, S pos) | None => Done (Err Truncated, pos) end.

(** [bytes[*pos]] alone, and [*pos += n] alone. *)
Definition peek_byte : parser Z := fun bs pos =>
  match bs !! pos with Some b => Done (Ok b, pos) | None => Panic end.
Definition advance (n : nat) : parser unit := fun _ pos => Done (Ok tt, (pos + n)%nat).

(** The position itself. *)
Definition here : parser nat := fun _ pos => Done (Ok pos, pos).

(** [bytes.len()] *)
Definition input_len : parser nat := fun bs pos => Done (Ok (length bs), pos).

(** [bytes[*pos..e].to_vec(); *pos = e]: a slice end before its start or beyond
    the input panics. *)
Definition take_to (e : nat) : parser bytes := fun bs pos =>
  if (pos <=? e)%nat && (e <=? length bs)%nat then Done (Ok (sub_slice bs pos e), e) else Panic.

(** [option.ok_or(e)] *)
Definition ok_or {A} (e : WasmError) (o : option A) : parser A :=
  match o with Some a => mret a | None => fail e end.

(** [for _ in 0..n { v.push(p) }] *)
Fixpoint pvec {A} (n : nat) (p : parser A) : parser (list A) :=
  match n with
  | O => mret []
  | S n => a ← p; l ← pvec n p; mret (a :: l)
  end.

(** ** Laws of readers *)

(** A reader never moves backwards and always returns or panics. *)
Class Advances {A} (p : parser A) : Prop :=
  advances : forall bs pos,
    match p bs pos with Done (_, pos') => (pos <= pos')%nat | Panic => True | Deadlock => False end.

#[export] Instance advances_ret {A} (a : A) : Advances (mret a).
Proof. intros bs pos. simpl. lia. Qed.
#[export] Instance advances_fail {A} e : Advances (@fail A e).
Proof. intros bs pos. simpl. lia. Qed.
#[export] Instance advances_bind {A B} (p : parser A) (k : A -> parser B) :
  Advances p -> (forall a, Advances (k a)) -> Advances (p ≫= k).
Proof.
  intros Hp Hk bs pos. specialize (Hp bs pos). unfold mbind, parser_bind.
  destruct (p bs pos) as [[[a|e] pos']| |]; [|done..].
  specialize (Hk a bs pos'). destruct (k a bs pos') as [[r pos'']| |]; [lia|done..].
Qed.
#[export] Instance advances_next_byte : Advances next_byte.
Proof. intros bs pos. unfold next_byte. destruct (bs !! pos); simpl; lia. Qed.
#[export] Instance advances_next_byte_checked : Advances next_byte_checked.
Proof. intros bs pos. unfold next_byte_checked. destruct (bs !! pos); simpl; lia. Qed.
#[export] Instance advances_peek_byte : Advances peek_byte.
Proof. intros bs pos. unfold peek_byte. destruct (bs !! pos); simpl; lia. Qed.
#[export] Instance advances_advance n : Advances (advance n).
Proof. intros bs pos. simpl. lia. Qed.
#[export] Instance advances_here : Advances here.
Proof. intros bs pos. simpl. lia. Qed.
#[export] Instance advances_input_len : Advances input_len.
Proof. intros bs pos. simpl. lia. Qed.
#[export] Instance advances_take_to e : Advances (take_to e).
Proof. intros bs pos. unfold take_to. split_bool; simpl; lia. Qed.
#[export] Instance advances_ok_or {A} e (o : option A) : Advances (ok_or e o).
Proof. destruct o; apply _. Qed.
#[export] Instance advances_pvec {A} n (p : parser A) : Advances p -> Advances (pvec n p).
Proof. intros. induction n; simpl; apply _. Qed.
#[export] Instance advances_if {A} (b : bool) (p q : parser A) :
  Advances p -> Advances q -> Advances (if b then p else q).
Proof. by destruct b. Qed.

(** [p] reads the byte string [e] as [a], wherever it stands in an input whose
    current section ends at [lim] or later. *)
Definition decodes {A} (lim : nat) (p : parser A) (e : bytes) (a : A) : Prop :=
  Forall u8 e /\ forall pre post, Forall u8 (pre ++ e ++ post) -> (length pre + length e <= lim)%nat ->
  p (pre ++ e ++ post) (length pre) = Done (Ok a, (length pre + length e)%nat).

Lemma decodes_ret {A} lim (a : A) : decodes lim (mret a) [] a.
Proof. split; [done|]. intros pre post _ _. simpl. unfold mret, parser_ret. by rewrite Nat.add_0_r. Qed.

Lemma decodes_bind {A B} lim (p : parser A) (k : A -> parser B) e1 e2 a b :
  decodes lim p e1 a -> decodes lim (k a) e2 b -> decodes lim (p ≫= k) (e1 ++ e2) b.
Proof.
  intros [He1 Hp] [He2 Hk]. split; [by apply Forall_app|]. intros pre post HF Hlim.
  rewrite length_app in Hlim. unfold mbind, parser_bind.
  rewrite <- !app_assoc in *. rewrite Hp by (done || lia).
  specialize (Hk (pre ++ e1) post). rewrite <- !app_assoc, length_app in Hk.
  rewrite Hk by (done || lia). rewrite length_app. by rewrite Nat.add_assoc.
Qed.

(** The last reader of a sequence that consumes input. *)
Lemma decodes_last {A B} lim (p : parser A) (k : A -> parser B) e a b :
  decodes lim p e a -> decodes lim (k a) [] b -> decodes lim (p ≫= k) e b.
Proof. intros. rewrite <- (app_nil_r e). by eapply decodes_bind. Qed.

Lemma decodes_next_byte lim b : u8 b -> decodes lim next_byte [b] b.
Proof.
  intros Hb. split; [by constructor|]. intros pre post _ _. unfold next_byte. cbn [app]. rewrite list_lookup_middle by done. simpl.
  by rewrite Nat.add_1_r.
Qed.

Lemma decodes_next_byte_checked lim b : u8 b -> decodes lim next_byte_checked [b] b.
Proof.
  intros Hb. split; [by constructor|]. intros pre post _ _. unfold next_byte_checked. cbn [app]. rewrite list_lookup_middle by done. simpl.
  by rewrite Nat.add_1_r.
Qed.

Lemma decodes_pvec {A} lim (p : parser A) (enc : A -> bytes) l :
  (forall a, a ∈ l -> decodes lim p (enc a) a) ->
  decodes lim (pvec (length l) p) (flat_map enc l) l.
Proof.
  induction l as [|a l IH]; intros H; simpl; [apply decodes_ret|].
  eapply decodes_bind; [apply H; by left|]. eapply decodes_last; [|apply decodes_ret].
  apply IH. intros b Hb. apply H. by right.
Qed.

Lemma decodes_ok_or {A} lim e (o : option A) a : o = Some a -> decodes lim (ok_or e o) [] a.
Proof. intros ->. apply decodes_ret. Qed.

Lemma u8_intro z : (0 <=? z) && (z <? 256) = true -> u8 z.
Proof. unfold u8. lia. Qed.

(** Walks a reader and an encoding together; what is left are the encodings
    of the parts. *)
Create HintDb decodes discriminated.
#[export] Hint Resolve decodes_ret decodes_next_byte decodes_next_byte_checked : decodes.
#[export] Hint Extern 1 (u8 _) => apply u8_intro; reflexivity : decodes.

Ltac decode_step :=
  match goal with
  | |- decodes _ (_ ≫= _) (_ ++ _) _ => eapply decodes_bind
  | |- decodes _ (_ ≫= _) _ _ => eapply decodes_last
  | |- decodes _ _ _ _ => solve [eauto with decodes]
  end; cbn [negb Z.eqb Pos.eqb].
Ltac decode := repeat decode_step.

(** ** Bytes of types and operations *)
Lemma opcode_byte_inverse o b : opcode_from_byte b = Some o <-> b = opcode_byte o.
Proof.
  split; [|by intros ->; destruct o]. unfold opcode_from_byte. intros H.
  repeat case_match; simplify_eq; done.
Qed.

Lemma value_type_byte_inverse t b : value_type_from_byte b = Some t <-> b = value_type_byte t.
Proof.
  split; [|by intros ->; destruct t]. unfold value_type_from_byte. intros H.
  repeat case_match; simplify_eq; done.
Qed.
