(* ===== verification/Leb128.v ===== *)
(** * LEB128 integers ([services/wasm/leb128.rs])

    The variable-length integers of the WebAssembly binary format: the four
    readers of the kernel, the encoding of the WebAssembly specification
    ([uleb], [sleb]), and what the readers return on every group of bytes -
    the value of its low bits, [Truncated] or [Leb128Overflow], never a panic. *)
From S2P Require Import Prelude Bytes WasmTypes.

(** ** The readers *)

(** The loop of [read_leb128_u32]; [shift] grows by 7 and the loop leaves at
    32, so five rounds are enough. *)
Fixpoint u32_loop (fuel : nat) (result shift : Z) : parser Z :=
  match fuel with
  | O => fun _ _ => Deadlock
  | S fuel =>
    byte ← next_byte_checked;
    let result := Z.lor result (wrap_u32 (Z.shiftl (Z.land byte 0x7F) shift)) in
    if Z.land byte 0x80 =? 0 then mret result else
    let shift := shift + 7 in
    if 32 <=? shift then fail Leb128Overflow else u32_loop fuel result shift
  end.

Definition read_leb128_u32 : parser Z := u32_loop 5 0 0.

(** The loop of the signed readers, with the sign extension that follows it;
    [w] is the width of the result. *)
Fixpoint signed_loop (w : Z) (fuel : nat) (result shift : Z) : parser Z :=
  match fuel with
  | O => fun _ _ => Deadlock
  | S fuel =>
    byte ← next_byte_checked;
    let result := Z.lor result (as_signed w (Z.shiftl (Z.land byte 0x7F) shift)) in
    let shift := shift + 7 in
    if Z.land byte 0x80 =? 0 then
      mret (if (shift <? w) && negb (Z.land byte 0x40 =? 0)
            then Z.lor result (as_signed w (Z.shiftl (-1) shift)) else result)
    else if w <=? shift then fail Leb128Overflow else signed_loop w fuel result shift
  end.

Definition read_leb128_i32 : parser Z := signed_loop 32 5 0 0.

Definition read_leb128_i64 : parser Z := signed_loop 64 10 0 0.

Definition read_name : parser bytes :=
  len ← read_leb128_u32;
  pos ← here;
  blen ← input_len;
  if (blen <? pos + Z.to_nat len)%nat then fail Truncated
  else take_to (pos + Z.to_nat len).

(** ** The encoding of the specification *)

Fixpoint uleb (fuel : nat) (z : Z) : bytes :=
  match fuel with
  | O => []
  | S fuel => if z <? 128 then [z] else (z mod 128 + 128) :: uleb fuel (z / 128)
  end.

Fixpoint sleb (fuel : nat) (z : Z) : bytes :=
  match fuel with
  | O => []
  | S fuel =>
    if (-64 <=? z) && (z <? 64) then [z mod 128] else (z mod 128 + 128) :: sleb fuel (z / 128)
  end.

Definition enc_u32 (z : Z) : bytes := uleb 5 z.
Definition enc_i32 (z : Z) : bytes := sleb 5 z.
Definition enc_i64 (z : Z) : bytes := sleb 10 z.

(** The unsigned and the signed value of a group of bytes, of any length. *)
Fixpoint group_value (g : bytes) : Z :=
  match g with
  | [] => 0
  | b :: g => b mod 128 + 128 * group_value g
  end.

Fixpoint group_signed (g : bytes) : Z :=
  match g with
  | [] => 0
  | [b] => if b mod 128 <? 64 then b mod 128 else b mod 128 - 128
  | b :: g => b mod 128 + 128 * group_signed g
  end.

(** How many bytes a group continues for: the leading bytes with the high bit. *)
Fixpoint cont_run (l : bytes) : nat :=
  match l with
  | [] => O
  | b :: l => if b <? 128 then O else S (cont_run l)
  end.

(** What a reader limited to [m] bytes returns at [pos]: the value of the group
    that starts there, if it ends within [m] bytes and within the input. *)
Definition leb_result (m : nat) (value : bytes -> Z) (bs : bytes) (pos : nat) : result Z * nat :=
  let l := drop pos bs in
  let n := cont_run l in
  if (m <=? n)%nat then (Err Leb128Overflow, (pos + m)%nat)
  else match l !! n with
       | Some _ => (Ok (value (take (S n) l)), (pos + S n)%nat)
       | None => (Err Truncated, (pos + n)%nat)
       end.

(** ** Bits of one byte *)
Lemma byte_low b : Z.land b 0x7F = b mod 128.
Proof. change 0x7F with (Z.ones 7). by rewrite Z.land_ones. Qed.

Lemma byte_high b : 0 <= b < 256 -> (Z.land b 0x80 =? 0) = (b <? 128).
Proof.
  intros Hb. assert (Hall : forallb (fun n => eqb (Z.land (Z.of_nat n) 0x80 =? 0) (Z.of_nat n <? 128))
    (seq 0 256) = true) by reflexivity.
  rewrite forallb_forall in Hall. specialize (Hall (Z.to_nat b)).
  rewrite Z2Nat.id in Hall by lia. apply eqb_prop, Hall, in_seq. lia.
Qed.

Lemma byte_sign b : 0 <= b < 128 -> (Z.land b 0x40 =? 0) = (b <? 64).
Proof.
  intros Hb. assert (Hall : forallb (fun n => eqb (Z.land (Z.of_nat n) 0x40 =? 0) (Z.of_nat n <? 64))
    (seq 0 128) = true) by reflexivity.
  rewrite forallb_forall in Hall. specialize (Hall (Z.to_nat b)).
  rewrite Z2Nat.id in Hall by lia. apply eqb_prop, Hall, in_seq. lia.
Qed.

Lemma leb_result_S m value bs pos :
  leb_result (S m) value bs pos =
  match bs !! pos with
  | None => (Err Truncated, pos)
  | Some b =>
    if b <? 128 then (Ok (value [b]), S pos)
    else if (m =? 0)%nat then (Err Leb128Overflow, S pos)
    else leb_result m (fun g => value (b :: g)) bs (S pos)
  end.
Proof.
  unfold leb_result. destruct (bs !! pos) as [b|] eqn:Hb.
  - rewrite (drop_S bs b pos Hb). cbn [cont_run]. destruct (b <? 128).
    + cbn. rewrite Nat.add_1_r. done.
    + destruct (Nat.eqb_spec m 0) as [->|Hm]; [cbn; by rewrite Nat.add_1_r|].
      set (n := cont_run (drop (S pos) bs)). change (S m <=? S n)%nat with (m <=? n)%nat.
      rewrite <- !Nat.add_succ_comm. destruct (m <=? n)%nat; [done|]. cbn [lookup list_lookup].
      by destruct (drop (S pos) bs !! n).
  - apply lookup_ge_None_1 in Hb. rewrite drop_ge by done. cbn. by rewrite Nat.add_0_r.
Qed.

Lemma leb_result_ext m v v' bs pos :
  (forall g, g <> [] -> v g = v' g) -> leb_result m v bs pos = leb_result m v' bs pos.
Proof.
  intros H. unfold leb_result. repeat case_match; try done. rewrite H; [done|].
  by destruct (drop pos bs).
Qed.

(** What was read below [shift] and a shifted group: truncated to [w] bits,
    the next byte's bits are added. *)
Lemma wrap_lor_step w a b s :
  0 <= s < w -> 0 <= a < 2 ^ s ->
  Z.lor a (wrap w (Z.shiftl b s)) = wrap w (a + b * 2 ^ s) /\
  wrap w (a + b * 2 ^ s) = a + b mod 2 ^ (w - s) * 2 ^ s.
Proof.
  intros Hs Ha. unfold wrap.
  assert (Hw : 2 ^ w = 2 ^ (w - s) * 2 ^ s) by (rewrite <- Z.pow_add_r by lia; f_equal; lia).
  assert (0 < 2 ^ s) by (apply Z.pow_pos_nonneg; lia).
  assert (0 < 2 ^ (w - s)) by (apply Z.pow_pos_nonneg; lia).
  assert (Heq : (a + b * 2 ^ s) mod 2 ^ w = a + b mod 2 ^ (w - s) * 2 ^ s).
  { rewrite Hw. pose proof (Z.div_mod b (2 ^ (w - s))) as Hb.
    pose proof (Z.mod_pos_bound b (2 ^ (w - s))).
    symmetry. apply Z.mod_unique with (b / 2 ^ (w - s)); [left; nia|]. rewrite Hb at 1 by lia. ring. }
  split; [|done]. rewrite Heq, Z.shiftl_mul_pow2, Hw, Z.mul_mod_distr_r by lia.
  rewrite <- (lor_shiftl_add a _ s) by lia. by rewrite Z.shiftl_mul_pow2 by lia.
Qed.

Lemma u32_loop_spec fuel r shift bs pos :
  Forall u8 bs -> (0 < fuel)%nat -> 0 <= r < 2 ^ shift -> 0 <= shift < 32 ->
  32 <= shift + 7 * Z.of_nat fuel < 39 ->
  u32_loop fuel r shift bs pos =
  Done (leb_result fuel (fun g => wrap_u32 (r + group_value g * 2 ^ shift)) bs pos).
Proof.
  intros HF. revert r shift pos. induction fuel as [|fuel IH]; intros r shift pos Hfuel Hr Hs Hsum; [lia|].
  rewrite leb_result_S. cbn [u32_loop]. unfold mbind, parser_bind, next_byte_checked.
  destruct (bs !! pos) as [b|] eqn:Hb; [|done].
  assert (Hu : u8 b) by (eapply Forall_lookup_1; eauto). unfold u8 in Hu.
  rewrite byte_low, byte_high by lia. destruct (wrap_lor_step 32 r (b mod 128) shift) as [H1 H2]; [lia..|].
  unfold wrap_u32. rewrite H1. destruct (b <? 128).
  { unfold mret, parser_ret. cbn [group_value]. do 4 f_equal. lia. }
  destruct (Z.leb_spec 32 (shift + 7)).
  { destruct (Nat.eqb_spec fuel 0); [done|lia]. }
  destruct (Nat.eqb_spec fuel 0) as [->|]; [lia|].
  assert (Hp : 2 ^ (shift + 7) = 128 * 2 ^ shift) by (rewrite Z.pow_add_r by lia; lia).
  assert (Hw : wrap 32 (r + b mod 128 * 2 ^ shift) = r + b mod 128 * 2 ^ shift).
  { apply wrap_small. assert (2 ^ (shift + 7) <= 2 ^ 32) by (apply Z.pow_le_mono_r; lia).
    pose proof (Z.mod_pos_bound b 128). nia. }
  rewrite Hw, IH; [|lia| |lia|lia].
  - f_equal. apply leb_result_ext. intros g _. unfold wrap_u32. cbn [group_value]. f_equal. rewrite Hp. ring.
  - rewrite Hp. pose proof (Z.mod_pos_bound b 128). nia.
Qed.

(** The signed step: below the sign bit nothing is lost; at the last byte the
    bits beyond the width fall off. *)
Lemma signed_lor_step w a b s :
  0 < s + 1 <= w -> 0 <= a < 2 ^ s ->
  Z.lor a (as_signed w (Z.shiftl b s)) = as_signed w (a + b * 2 ^ s).
Proof.
  intros Hs Ha.
  assert (Hw : 2 ^ w = 2 ^ (w - s) * 2 ^ s) by (rewrite <- Z.pow_add_r by lia; f_equal; lia).
  assert (Hh : 2 ^ (w - 1) = 2 ^ (w - s - 1) * 2 ^ s) by (rewrite <- Z.pow_add_r by lia; f_equal; lia).
  assert (0 < 2 ^ s) by (apply Z.pow_pos_nonneg; lia).
  set (c := as_signed (w - s) b).
  assert (Hc : signed (w - s) c) by (apply as_signed_range; lia). unfold signed in Hc.
  assert (Hm : exists k, c = b + k * 2 ^ (w - s)).
  { exists ((c - b) / 2 ^ (w - s)). assert (Hd : (c - b) mod 2 ^ (w - s) = 0).
    { rewrite Zminus_mod. unfold c. rewrite as_signed_mod by lia. rewrite Z.sub_diag. done. }
    pose proof (Z.div_mod (c - b) (2 ^ (w - s))). lia. }
  destruct Hm as [k Hk].
  assert (H1 : as_signed w (Z.shiftl b s) = c * 2 ^ s).
  { apply as_signed_unique; [lia|unfold signed; nia|]. rewrite Z.shiftl_mul_pow2 by lia.
    rewrite Hk, Z.mul_add_distr_r, <- Z.mul_assoc, <- Hw. apply Z_mod_plus_full. }
  rewrite H1, <- (Z.shiftl_mul_pow2 c s), lor_shiftl_add by lia. symmetry.
  apply as_signed_unique; [lia|unfold signed; nia|].
  rewrite Hk, Z.mul_add_distr_r, <- Z.mul_assoc, <- Hw, Z.add_assoc. apply Z_mod_plus_full.
Qed.

(** The last byte with the sign extension. *)
Lemma signed_last w r b shift :
  0 <= r < 2 ^ shift -> 0 <= shift < w -> 0 <= b < 128 ->
  (if (shift + 7 <? w) && negb (b <? 64)
   then Z.lor (as_signed w (r + b * 2 ^ shift)) (as_signed w (Z.shiftl (-1) (shift + 7)))
   else as_signed w (r + b * 2 ^ shift)) =
  as_signed w (r + (if b <? 64 then b else b - 128) * 2 ^ shift).
Proof.
  intros Hr Hs Hb.
  assert (Hp : 2 ^ (shift + 7) = 128 * 2 ^ shift) by (rewrite Z.pow_add_r by lia; lia).
  destruct (Z.ltb_spec b 64) as [?|?]; [by rewrite andb_false_r|]. rewrite andb_true_r.
  destruct (Z.ltb_spec (shift + 7) w).
  - assert (2 ^ (shift + 7) <= 2 ^ (w - 1)) by (apply Z.pow_le_mono_r; lia).
    rewrite (as_signed_small w (r + b * 2 ^ shift)) by (unfold signed; nia).
    rewrite signed_lor_step by nia. f_equal. rewrite Hp. ring.
  - symmetry. apply as_signed_unique; [lia|apply as_signed_range; lia|].
    rewrite as_signed_mod by lia.
    replace (r + b * 2 ^ shift) with (r + (b - 128) * 2 ^ shift + 2 ^ (shift + 7 - w) * 2 ^ w).
    + by rewrite Z_mod_plus_full.
    + rewrite <- Z.pow_add_r by lia. replace (shift + 7 - w + w) with (shift + 7) by lia. rewrite Hp. ring.
Qed.

Lemma signed_loop_spec w fuel r shift bs pos :
  Forall u8 bs -> (0 < fuel)%nat -> 0 <= r < 2 ^ shift -> 0 <= shift < w ->
  w <= shift + 7 * Z.of_nat fuel < w + 7 ->
  signed_loop w fuel r shift bs pos =
  Done (leb_result fuel (fun g => as_signed w (r + group_signed g * 2 ^ shift)) bs pos).
Proof.
  intros HF. revert r shift pos. induction fuel as [|fuel IH]; intros r shift pos Hfuel Hr Hs Hsum; [lia|].
  rewrite leb_result_S. cbn [signed_loop]. unfold mbind, parser_bind, next_byte_checked.
  destruct (bs !! pos) as [b|] eqn:Hb; [|done].
  assert (Hu : u8 b) by (eapply Forall_lookup_1; eauto). unfold u8 in Hu.
  rewrite byte_low, byte_high, (signed_lor_step w r) by lia.
  pose proof (Z.mod_pos_bound b 128) as Hm.
  assert (Hp : 2 ^ (shift + 7) = 128 * 2 ^ shift) by (rewrite Z.pow_add_r by lia; lia).
  assert (Hsmall : shift + 7 < w -> as_signed w (r + b mod 128 * 2 ^ shift) = r + b mod 128 * 2 ^ shift).
  { intros. assert (2 ^ (shift + 7) <= 2 ^ (w - 1)) by (apply Z.pow_le_mono_r; lia).
    apply as_signed_small; [lia|]. unfold signed. nia. }
  destruct (Z.ltb_spec b 128) as [Hlt|Hge].
  { rewrite byte_sign by lia. rewrite (Z.mod_small b) in * by lia. unfold mret, parser_ret.
    do 3 f_equal. cbn [group_signed]. rewrite (Z.mod_small b) by lia.
    apply signed_last; lia. }
  destruct (Z.leb_spec w (shift + 7)).
  { destruct (Nat.eqb_spec fuel 0); [done|lia]. }
  destruct (Nat.eqb_spec fuel 0) as [->|]; [lia|].
  rewrite Hsmall, IH; [|lia|nia|lia|lia|lia].
  f_equal. apply leb_result_ext. intros [|c g] Hg; [done|]. f_equal.
  change (group_signed (b :: c :: g)) with (b mod 128 + 128 * group_signed (c :: g)). rewrite Hp. ring.
Qed.

(** The three readers, on every input. *)
Lemma read_leb128_u32_spec bs pos :
  Forall u8 bs -> read_leb128_u32 bs pos = Done (leb_result 5 (fun g => wrap_u32 (group_value g)) bs pos).
Proof.
  intros HF. unfold read_leb128_u32. rewrite u32_loop_spec by (done || (simpl; lia)). f_equal.
  apply leb_result_ext. intros g _. f_equal. simpl. lia.
Qed.

Lemma read_leb128_i32_spec bs pos :
  Forall u8 bs -> read_leb128_i32 bs pos = Done (leb_result 5 (fun g => as_signed 32 (group_signed g)) bs pos).
Proof.
  intros HF. unfold read_leb128_i32. rewrite signed_loop_spec by (done || (simpl; lia)). f_equal.
  apply leb_result_ext. intros g _. f_equal. simpl. lia.
Qed.

Lemma read_leb128_i64_spec bs pos :
  Forall u8 bs -> read_leb128_i64 bs pos = Done (leb_result 10 (fun g => as_signed 64 (group_signed g)) bs pos).
Proof.
  intros HF. unfold read_leb128_i64. rewrite signed_loop_spec by (done || (simpl; lia)). f_equal.
  apply leb_result_ext. intros g _. f_equal. simpl. lia.
Qed.

(** ** Round trips *)

(** A complete group: every byte but the last has its high bit. *)
Definition group_ok (g : bytes) : Prop := S (cont_run g) = length g.

Lemma group_ok_nil : ~ group_ok [].
Proof. done. Qed.

Lemma leb_result_group m value pre g post :
  group_ok g -> (length g <= m)%nat ->
  leb_result m value (pre ++ g ++ post) (length pre) = (Ok (value g), (length pre + length g)%nat).
Proof.
  intros Hg Hm. unfold leb_result. rewrite drop_app_length. unfold group_ok in Hg.
  assert (Hrun : cont_run (g ++ post) = cont_run g).
  { clear Hm. induction g as [|b g IH]; [done|]. simpl in *. destruct (b <? 128); [done|]. f_equal. apply IH. lia. }
  rewrite Hrun. destruct (Nat.leb_spec m (cont_run g)); [lia|].
  rewrite lookup_app_l by lia. destruct (lookup_lt_is_Some_2 g (cont_run g)) as [x ->]; [lia|].
  by rewrite Hg, take_app_length.
Qed.

Lemma uleb_group fuel z :
  (0 < fuel)%nat -> 0 <= z < 128 ^ Z.of_nat fuel ->
  group_ok (uleb fuel z) /\ Forall u8 (uleb fuel z) /\ (length (uleb fuel z) <= fuel)%nat /\
  group_value (uleb fuel z) = z.
Proof.
  revert z. induction fuel as [|fuel IH]; intros z Hf Hz; [lia|]. cbn [uleb].
  replace (Z.of_nat (S fuel)) with (Z.of_nat fuel + 1) in Hz by lia. rewrite Z.pow_add_r in Hz by lia.
  pose proof (Z.mod_pos_bound z 128). pose proof (Z.div_mod z 128). unfold group_ok.
  destruct (Z.ltb_spec z 128).
  - cbn. rewrite (proj2 (Z.ltb_lt z 128)), Z.mod_small by lia.
    split_and!; [done|repeat constructor; unfold u8; lia|lia|lia].
  - destruct fuel as [|fuel]; [simpl in Hz; lia|].
    destruct (IH (z / 128)) as (G1 & G2 & G3 & G4).
    { lia. }
    { split; [apply Z.div_pos; lia|]. apply Z.div_lt_upper_bound; lia. }
    cbn [cont_run length group_value]. rewrite (proj2 (Z.ltb_ge _ _)) by lia. split_and!.
    + by rewrite G1.
    + constructor; [unfold u8; lia|done].
    + lia.
    + rewrite G4. replace (z mod 128 + 128) with (z mod 128 + 1 * 128) by lia.
      rewrite Z_mod_plus_full, Z.mod_mod by lia. lia.
Qed.

Lemma sleb_S fuel z :
  sleb (S fuel) z =
  if (-64 <=? z) && (z <? 64) then [z mod 128] else (z mod 128 + 128) :: sleb fuel (z / 128).
Proof. done. Qed.

Lemma sleb_group fuel z :
  - (64 * 128 ^ Z.of_nat fuel) <= z < 64 * 128 ^ Z.of_nat fuel ->
  group_ok (sleb (S fuel) z) /\ Forall u8 (sleb (S fuel) z) /\
  (length (sleb (S fuel) z) <= S fuel)%nat /\ group_signed (sleb (S fuel) z) = z.
Proof.
  revert z. induction fuel as [|fuel IH]; intros z Hz; rewrite sleb_S;
    pose proof (Z.mod_pos_bound z 128) as Hm; pose proof (Z.div_mod z 128) as Hd;
    destruct ((-64 <=? z) && (z <? 64)) eqn:Hs; try lia.
  1,2: unfold group_ok; cbn; rewrite (proj2 (Z.ltb_lt (z mod 128) 128)), Z.mod_mod by lia;
    split_and!; [done|repeat constructor; unfold u8; lia|lia|].
  1,2: apply andb_true_iff in Hs as [??]; destruct (Z.ltb_spec (z mod 128) 64); lia.
  replace (Z.of_nat (S fuel)) with (Z.of_nat fuel + 1) in Hz by lia. rewrite Z.pow_add_r in Hz by lia.
  destruct (IH (z / 128)) as (G1 & G2 & G3 & G4); [lia|].
  unfold group_ok in *. cbn [cont_run length]. rewrite (proj2 (Z.ltb_ge _ _)) by lia.
  split_and!; [by rewrite G1|constructor; [unfold u8; lia|done]|lia|].
  destruct (sleb (S fuel) (z / 128)) as [|c g]; [done|].
  change (group_signed _) with ((z mod 128 + 128) mod 128 + 128 * group_signed (c :: g)).
  rewrite G4. replace (z mod 128 + 128) with (z mod 128 + 1 * 128) by lia.
  rewrite Z_mod_plus_full, Z.mod_mod by lia. lia.
Qed.

Lemma enc_u32_u8 z : u32 z -> Forall u8 (enc_u32 z).
Proof. intros Hz. unfold u32, U32_MAX in Hz. apply (uleb_group 5 z); simpl; lia. Qed.
Lemma enc_i32_u8 z : signed 32 z -> Forall u8 (enc_i32 z).
Proof. intros Hz. apply (sleb_group 4 z). unfold signed in Hz. simpl in *. lia. Qed.
Lemma enc_i64_u8 z : signed 64 z -> Forall u8 (enc_i64 z).
Proof. intros Hz. apply (sleb_group 9 z). unfold signed in Hz. simpl in *. lia. Qed.

(** *** What the readers make of the encodings *)
Lemma decodes_u32 lim z : u32 z -> decodes lim read_leb128_u32 (enc_u32 z) z.
Proof.
  intros Hz. split; [by apply enc_u32_u8|]. intros pre post HF _. rewrite read_leb128_u32_spec by done. unfold u32, U32_MAX, enc_u32 in *.
  destruct (uleb_group 5 z) as (G1 & _ & G3 & G4); [lia|simpl; lia|].
  rewrite leb_result_group by done. by rewrite G4, wrap_u32_small.
Qed.

Lemma decodes_i32 lim z : signed 32 z -> decodes lim read_leb128_i32 (enc_i32 z) z.
Proof.
  intros Hz. split; [by apply enc_i32_u8|]. intros pre post HF _. rewrite read_leb128_i32_spec by done. unfold enc_i32.
  destruct (sleb_group 4 z) as (G1 & _ & G3 & G4); [unfold signed in Hz; simpl in *; lia|].
  rewrite leb_result_group by done. by rewrite G4, as_signed_small.
Qed.

Lemma decodes_i64 lim z : signed 64 z -> decodes lim read_leb128_i64 (enc_i64 z) z.
Proof.
  intros Hz. split; [by apply enc_i64_u8|]. intros pre post HF _. rewrite read_leb128_i64_spec by done. unfold enc_i64.
  destruct (sleb_group 9 z) as (G1 & _ & G3 & G4); [unfold signed in Hz; simpl in *; lia|].
  rewrite leb_result_group by done. by rewrite G4, as_signed_small.
Qed.

(** A length-prefixed string. *)
Definition enc_name (n : bytes) : bytes := enc_u32 (Z.of_nat (length n)) ++ n.

Lemma decodes_take_to lim (e : bytes) :
  forall pre post, (length pre + length e <= lim)%nat ->
  take_to (length pre + length e) (pre ++ e ++ post) (length pre) =
  Done (Ok e, (length pre + length e)%nat).
Proof.
  intros pre post _. unfold take_to, sub_slice. rewrite !length_app.
  rewrite (proj2 (Nat.leb_le _ _)), (proj2 (Nat.leb_le _ _)) by lia. cbn [andb].
  by rewrite drop_app_length, Nat.add_comm, Nat.add_sub, take_app_length.
Qed.

Lemma decodes_name lim n :
  Forall u8 n -> u32 (Z.of_nat (length n)) -> decodes lim read_name (enc_name n) n.
Proof.
  intros Hu Hn. eapply decodes_bind; [by apply decodes_u32|]. split; [done|].
  intros pre post HF Hlim. unfold mbind, parser_bind, here, input_len.
  rewrite Nat2Z.id, (proj2 (Nat.ltb_ge _ _)) by (rewrite !length_app; lia).
  by apply (decodes_take_to lim).
Qed.

#[export] Hint Resolve decodes_u32 decodes_i32 decodes_i64 decodes_name : decodes.

(** *** The readers always return *)
Lemma u32_loop_advances fuel r shift :
  (0 < fuel)%nat -> 32 <= shift + 7 * Z.of_nat fuel -> Advances (u32_loop fuel r shift).
Proof.
  revert r shift. induction fuel as [|fuel IH]; intros r shift Hf Hs; [lia|]. cbn [u32_loop].
  apply advances_bind; [apply _|]. intros b. destruct (Z.land b 0x80 =? 0); [apply _|].
  destruct (Z.leb_spec 32 (shift + 7)); [apply _|]. apply IH; lia.
Qed.

Lemma signed_loop_advances w fuel r shift :
  (0 < fuel)%nat -> w <= shift + 7 * Z.of_nat fuel -> Advances (signed_loop w fuel r shift).
Proof.
  revert r shift. induction fuel as [|fuel IH]; intros r shift Hf Hs; [lia|]. cbn [signed_loop].
  apply advances_bind; [apply _|]. intros b. destruct (Z.land b 0x80 =? 0); [apply _|].
  destruct (Z.leb_spec w (shift + 7)); [apply _|]. apply IH; lia.
Qed.

#[export] Instance advances_u32 : Advances read_leb128_u32.
Proof. apply u32_loop_advances; simpl; lia. Qed.
#[export] Instance advances_i32 : Advances read_leb128_i32.
Proof. apply signed_loop_advances; simpl; lia. Qed.
#[export] Instance advances_i64 : Advances read_leb128_i64.
Proof. apply signed_loop_advances; simpl; lia. Qed.
#[export] Instance advances_name : Advances read_name.
Proof. unfold read_name. apply _. Qed.

(** ** Theorems *)

(** The LEB128 readers of the WebAssembly parser and interpreter return on
    every byte string and position, without a panic: a group that ends within
    5 (5, 10) bytes and within the input gives its value - the unsigned value
    modulo [2^32], the sign-extended value in the two's complement of the
    width - with the position after its last byte; a longer group gives
    [Leb128Overflow] after the last byte read, an input that ends first
    [Truncated] at its end. In particular the specification's encoding of
    every [u32], [i32] and [i64] is read back wherever it stands. *)
Theorem leb128_readers_correct (bs : bytes) (pos : nat) (Hbs : Forall u8 bs) :
  read_leb128_u32 bs pos = Done (leb_result 5 (fun g => wrap_u32 (group_value g)) bs pos) /\
  read_leb128_i32 bs pos = Done (leb_result 5 (fun g => as_signed 32 (group_signed g)) bs pos) /\
  read_leb128_i64 bs pos = Done (leb_result 10 (fun g => as_signed 64 (group_signed g)) bs pos) /\
  (forall z lim, u32 z -> decodes lim read_leb128_u32 (enc_u32 z) z) /\
  (forall z lim, signed 32 z -> decodes lim read_leb128_i32 (enc_i32 z) z) /\
  (forall z lim, signed 64 z -> decodes lim read_leb128_i64 (enc_i64 z) z).
Proof.
  split_and!; [by apply read_leb128_u32_spec|by apply read_leb128_i32_spec|by apply read_leb128_i64_spec|..].
  - intros. by apply decodes_u32.
  - intros. by apply decodes_i32.
  - intros. by apply decodes_i64.
Qed.

Lemma leb128_readers_correct_witness :
  Forall u8 [0xE5; 0x8E; 0x26; 0x7F] /\
  read_leb128_u32 [0xE5; 0x8E; 0x26; 0x7F] 0%nat = Done (Ok 624485, 3%nat).
Proof.
  assert (H : Forall u8 [0xE5; 0x8E; 0x26; 0x7F]) by (repeat constructor; unfold u8; lia).
  split; [exact H|].
  rewrite (proj1 (leb128_readers_correct [0xE5; 0x8E; 0x26; 0x7F] 0%nat H)). reflexivity.
Defined.

(** A fifth byte may carry more than the four bits that are left of a [u32]:
    they are dropped, although the reader documents [Leb128Overflow] for a
    value beyond 32 bits. *)
Theorem fifth_byte_overflows_silently :
  read_leb128_u32 [0x80; 0x80; 0x80; 0x80; 0x7F] 0%nat = Done (Ok 0xF0000000, 5%nat) /\
  group_value [0x80; 0x80; 0x80; 0x80; 0x7F] = 34091302912.
Proof. done. Qed.
