(* ===== verification/WasmModule.v ===== *)
(** * The WebAssembly binary parser ([services/wasm/module.rs])

    The readers of the eleven standard sections and the loop over the sections
    of a file, against an encoder of the dialect the parser reads ([encode_module]):
    a well-formed module is read back exactly, and the parser returns (or panics on
    an index) for every input.  The dialect is that of the WebAssembly
    specification but for the element type of a table, which is read as a number type
    (the specification's funcref is refused, [funcref_is_no_value_type]), and for
    constants of floating-point type.  Reserving the memory of a vector
    ([Vec::with_capacity] of the count in the file) is taken to succeed. *)
From S2P Require Import Prelude Bytes WasmTypes Leb128.

(** ** The section readers *)

(** [ValueType::from_byte(bytes[*pos]).ok_or(e)?; *pos += 1] *)
Definition read_value_type (e : WasmError) : parser ValueType :=
  b ← peek_byte; t ← ok_or e (value_type_from_byte b); _ ← advance 1; mret t.

Definition parse_limits : parser Limits :=
  b ← next_byte;
  min ← read_leb128_u32;
  if negb (b =? 0) then max ← read_leb128_u32; mret (mkLimits min (Some max))
  else mret (mkLimits min None).

(** [let count = read_leb128_u32(bytes, pos)?; for _ in 0..count { ... }]; the
    [Vec::with_capacity(count)] in between is taken to succeed. *)
Definition counted {A} (p : parser A) : parser (list A) :=
  count ← read_leb128_u32; pvec (Z.to_nat count) p.

Definition parse_type_section (sec_end : nat) : parser (list FuncType) :=
  counted (
    pos ← here;
    if (sec_end <=? pos)%nat then fail InternalError else
    b ← peek_byte;
    if negb (b =? 0x60) then fail InternalError else
    _ ← advance 1;
    params ← counted (read_value_type InvalidVersion);
    results ← counted (read_value_type InvalidVersion);
    mret (mkFuncType params results)).

Definition parse_import_desc (import_kind : Z) : parser ImportKind :=
  match import_kind with
  | 0x00 => type_idx ← read_leb128_u32; mret (IFunction type_idx)
  | 0x01 =>
    t ← read_value_type BadImport; limits ← parse_limits; mret (ITable (mkTableType t limits))
  | 0x02 => limits ← parse_limits; mret (IMemory (mkMemoryType limits))
  | 0x03 =>
    t ← read_value_type BadImport; b ← next_byte; mret (IGlobal (mkGlobalType t (negb (b =? 0))))
  | _ => fail BadImport
  end.

Definition parse_import_section : parser (list ImportDesc) :=
  counted (
    module ← read_name;
    name ← read_name;
    import_kind ← next_byte;
    desc ← parse_import_desc import_kind;
    mret (mkImport module name desc)).

Definition parse_function_section : parser (list Z) := counted read_leb128_u32.

Definition parse_table_section : parser (list TableType) :=
  counted (t ← read_value_type InvalidVersion; limits ← parse_limits; mret (mkTableType t limits)).

Definition parse_memory_section : parser (list MemoryType) :=
  counted (limits ← parse_limits; mret (mkMemoryType limits)).

(** The loop of [read_init_expr] and [read_init_expr_bytes]: one instruction
    per round, up to the [end] byte. *)
Fixpoint init_expr_loop (fuel : nat) : parser unit :=
  match fuel with
  | O => fun _ _ => Deadlock
  | S fuel =>
    byte ← next_byte_checked;
    match byte with
    | 0x0B => mret tt
    | 0x41 => _ ← read_leb128_i32; init_expr_loop fuel
    | 0x42 => _ ← read_leb128_i64; init_expr_loop fuel
    | 0x23 => _ ← read_leb128_u32; init_expr_loop fuel
    | _ => fail (UnknownOpcode byte)
    end
  end.

(** Every round reads a byte, so the rest of the input bounds the rounds. *)
Definition init_expr_rounds : parser unit := fun bs pos =>
  init_expr_loop (S (length bs - pos)) bs pos.

Definition read_init_expr : parser nat := _ ← init_expr_rounds; here.

(** [bytes[a..b].to_vec()] *)
Definition slice (a b : nat) : parser bytes := fun bs pos =>
  if (a <=? b)%nat && (b <=? length bs)%nat then Done (Ok (sub_slice bs a b), pos) else Panic.

(** [*pos = p] *)
Definition set_pos (p : nat) : parser unit := fun _ _ => Done (Ok tt, p).

Definition read_init_expr_bytes : parser bytes :=
  start ← here; _ ← init_expr_rounds; pos ← here; slice start pos.

Definition parse_global_section : parser (list (GlobalType * bytes)) :=
  counted (
    t ← read_value_type InvalidVersion;
    b ← next_byte;
    expr_start ← here;
    expr_end ← read_init_expr;
    init_expr ← slice expr_start expr_end;
    _ ← set_pos expr_end;
    mret (mkGlobalType t (negb (b =? 0)), init_expr)).

Definition export_kind_from_byte (b : Z) : option ExportKind :=
  match b with
  | 0 => Some EFunction | 1 => Some ETable | 2 => Some EMemory | 3 => Some EGlobal | _ => None
  end.

Definition parse_export_section : parser (list ExportDesc) :=
  counted (
    name ← read_name;
    kind_byte ← next_byte;
    kind ← ok_or BadExport (export_kind_from_byte kind_byte);
    index ← read_leb128_u32;
    mret (mkExport name kind index)).

Definition parse_code_section : parser (list FunctionBody) :=
  counted (
    body_size ← read_leb128_u32;
    pos ← here;
    let body_end := (pos + Z.to_nat body_size)%nat in
    locals ← counted (n ← read_leb128_u32; t ← read_value_type InvalidVersion; mret (n, t));
    code ← take_to body_end;
    mret (mkBody locals code)).

Definition parse_data_section : parser (list DataSegment) :=
  counted (
    memory_index ← read_leb128_u32;
    offset ← read_init_expr_bytes;
    data_len ← read_leb128_u32;
    pos ← here;
    blen ← input_len;
    if (blen <? pos + Z.to_nat data_len)%nat then fail Truncated else
    segment_data ← take_to (pos + Z.to_nat data_len);
    mret (mkData memory_index offset segment_data)).

Definition parse_element_section : parser (list ElementSegment) :=
  counted (
    table_index ← read_leb128_u32;
    offset ← read_init_expr_bytes;
    func_indices ← counted read_leb128_u32;
    mret (mkElement table_index offset func_indices)).

(** ** The module *)

Definition empty_module : WasmModule := mkModule [] [] [] [] [] [] [] None [] [] [].

(** The [match section_id] of the loop; a section of another number is skipped. *)
Definition parse_section (id : Z) (sec_end : nat) (m : WasmModule) : parser WasmModule :=
  let '(mkModule ty im fu ta me gl ex st el co da) := m in
  match id with
  | 1 => ty ← parse_type_section sec_end; mret (mkModule ty im fu ta me gl ex st el co da)
  | 2 => im ← parse_import_section; mret (mkModule ty im fu ta me gl ex st el co da)
  | 3 => fu ← parse_function_section; mret (mkModule ty im fu ta me gl ex st el co da)
  | 4 => ta ← parse_table_section; mret (mkModule ty im fu ta me gl ex st el co da)
  | 5 => me ← parse_memory_section; mret (mkModule ty im fu ta me gl ex st el co da)
  | 6 => gl ← parse_global_section; mret (mkModule ty im fu ta me gl ex st el co da)
  | 7 => ex ← parse_export_section; mret (mkModule ty im fu ta me gl ex st el co da)
  | 8 => i ← read_leb128_u32; mret (mkModule ty im fu ta me gl ex (Some i) el co da)
  | 9 => el ← parse_element_section; mret (mkModule ty im fu ta me gl ex st el co da)
  | 10 => co ← parse_code_section; mret (mkModule ty im fu ta me gl ex st el co da)
  | 11 => da ← parse_data_section; mret (mkModule ty im fu ta me gl ex st el co da)
  | _ => _ ← set_pos sec_end; mret m
  end.

(** One round of the loop: number, size, content. *)
Definition read_section (m : WasmModule) : parser WasmModule :=
  section_id ← next_byte;
  section_size ← read_leb128_u32;
  pos ← here;
  blen ← input_len;
  let section_end := (pos + Z.to_nat section_size)%nat in
  if (blen <? section_end)%nat then fail Truncated else
  parse_section section_id section_end m.

(** [while pos < bytes.len()]; every round reads at least the section's number. *)
Fixpoint section_loop (fuel : nat) (m : WasmModule) : parser WasmModule :=
  match fuel with
  | O => fun _ _ => Deadlock
  | S fuel =>
    pos ← here;
    blen ← input_len;
    if (blen <=? pos)%nat then mret m else
    m ← read_section m;
    section_loop fuel m
  end.

Definition parse_wasm (bs : bytes) : outcome (result WasmModule) :=
  if (length bs <? 8)%nat then Done (Err Truncated) else
  if negb (from_le_bytes (take 4 bs) =? WASM_MAGIC) then Done (Err InvalidMagic) else
  if negb (from_le_bytes (take 4 (drop 4 bs)) =? WASM_VERSION) then Done (Err InvalidVersion) else
  fst <$> section_loop (S (length bs)) empty_module bs 8%nat.

(** ** The encoding of the specification *)

Definition enc_vec {A} (enc : A -> bytes) (l : list A) : bytes :=
  enc_u32 (Z.of_nat (length l)) ++ flat_map enc l.

Definition enc_value_type (t : ValueType) : bytes := [value_type_byte t].

Definition enc_limits (l : Limits) : bytes :=
  match lim_max l with
  | None => [0] ++ enc_u32 (lim_min l)
  | Some m => [1] ++ enc_u32 (lim_min l) ++ enc_u32 m
  end.

Definition enc_func_type (f : FuncType) : bytes :=
  [0x60] ++ enc_vec enc_value_type (ft_params f) ++ enc_vec enc_value_type (ft_results f).

Definition enc_table (t : TableType) : bytes := enc_value_type (element_type t) ++ enc_limits (tt_limits t).

Definition enc_global_type (g : GlobalType) : bytes :=
  enc_value_type (content_type g) ++ [if mutable g then 1 else 0].

Definition enc_import_kind (k : ImportKind) : bytes :=
  match k with
  | IFunction i => [0] ++ enc_u32 i
  | ITable t => [1] ++ enc_table t
  | IMemory m => [2] ++ enc_limits (mt_limits m)
  | IGlobal g => [3] ++ enc_global_type g
  end.

Definition enc_import (i : ImportDesc) : bytes :=
  enc_name (imp_module i) ++ enc_name (imp_name i) ++ enc_import_kind (imp_desc i).

Definition enc_export (e : ExportDesc) : bytes :=
  enc_name (exp_name e) ++
  [match exp_kind e with EFunction => 0 | ETable => 1 | EMemory => 2 | EGlobal => 3 end] ++
  enc_u32 (exp_index e).

(** Constant expressions: a sequence of constants and global reads. *)
Inductive init_instr := CI32 (z : Z) | CI64 (z : Z) | CGlobal (i : Z).

Definition enc_init_instr (c : init_instr) : bytes :=
  match c with
  | CI32 z => [0x41] ++ enc_i32 z
  | CI64 z => [0x42] ++ enc_i64 z
  | CGlobal i => [0x23] ++ enc_u32 i
  end.

Definition enc_expr (l : list init_instr) : bytes := flat_map enc_init_instr l ++ [0x0B].

(** Globals, segments and bodies keep their expressions and code encoded. *)
Definition enc_global (g : GlobalType * bytes) : bytes := enc_global_type g.1 ++ g.2.

Definition enc_element (e : ElementSegment) : bytes :=
  enc_u32 (es_table e) ++ es_offset e ++ enc_vec enc_u32 (es_funcs e).

Definition enc_data (d : DataSegment) : bytes :=
  enc_u32 (ds_memory d) ++ ds_offset d ++ enc_name (ds_data d).

Definition enc_locals (l : list (Z * ValueType)) : bytes :=
  enc_vec (fun p => enc_u32 p.1 ++ enc_value_type p.2) l.

Definition enc_body (b : FunctionBody) : bytes :=
  let content := enc_locals (fb_locals b) ++ fb_code b in
  enc_u32 (Z.of_nat (length content)) ++ content.

Definition enc_section (id : Z) (content : bytes) : bytes :=
  [id] ++ enc_u32 (Z.of_nat (length content)) ++ content.

Definition encode_sections (m : WasmModule) : list (Z * bytes) :=
  [(1, enc_vec enc_func_type (m_types m));
   (2, enc_vec enc_import (m_imports m));
   (3, enc_vec enc_u32 (m_functions m));
   (4, enc_vec enc_table (m_tables m));
   (5, enc_vec (fun t => enc_limits (mt_limits t)) (m_memories m));
   (6, enc_vec enc_global (m_globals m));
   (7, enc_vec enc_export (m_exports m))] ++
  match m_start m with Some i => [(8, enc_u32 i)] | None => [] end ++
  [(9, enc_vec enc_element (m_elements m));
   (10, enc_vec enc_body (m_code m));
   (11, enc_vec enc_data (m_data m))].

Definition encode_module (m : WasmModule) : bytes :=
  to_le_bytes 4 WASM_MAGIC ++ to_le_bytes 4 WASM_VERSION ++
  flat_map (fun s => enc_section s.1 s.2) (encode_sections m).

(** ** Well-formed modules

    Every number fits its width, every name and code is a byte string, and no
    list or section is longer than a [u32] can say. *)
Definition count_ok {A} (l : list A) : Prop := u32 (Z.of_nat (length l)).
Definition name_ok (n : bytes) : Prop := Forall u8 n /\ count_ok n.
Definition limits_ok (l : Limits) : Prop := u32 (lim_min l) /\ from_option u32 True (lim_max l).
Definition func_type_ok (f : FuncType) : Prop := count_ok (ft_params f) /\ count_ok (ft_results f).
Definition import_kind_ok (k : ImportKind) : Prop :=
  match k with
  | IFunction i => u32 i
  | ITable t => limits_ok (tt_limits t)
  | IMemory m => limits_ok (mt_limits m)
  | IGlobal _ => True
  end.
Definition import_ok (i : ImportDesc) : Prop :=
  name_ok (imp_module i) /\ name_ok (imp_name i) /\ import_kind_ok (imp_desc i).
Definition export_ok (e : ExportDesc) : Prop := name_ok (exp_name e) /\ u32 (exp_index e).
Definition init_instr_ok (c : init_instr) : Prop :=
  match c with CI32 z => signed 32 z | CI64 z => signed 64 z | CGlobal i => u32 i end.
Definition expr_ok (e : bytes) : Prop := exists l, Forall init_instr_ok l /\ e = enc_expr l.
Definition element_ok (e : ElementSegment) : Prop :=
  u32 (es_table e) /\ expr_ok (es_offset e) /\ Forall u32 (es_funcs e) /\ count_ok (es_funcs e).
Definition data_ok (d : DataSegment) : Prop :=
  u32 (ds_memory d) /\ expr_ok (ds_offset d) /\ name_ok (ds_data d).
Definition body_ok (b : FunctionBody) : Prop :=
  Forall (fun p => u32 p.1) (fb_locals b) /\ count_ok (fb_locals b) /\ Forall u8 (fb_code b) /\
  count_ok (enc_locals (fb_locals b) ++ fb_code b).
Definition list_ok {A} (P : A -> Prop) (l : list A) : Prop := Forall P l /\ count_ok l.

Definition module_ok (m : WasmModule) : Prop :=
  list_ok func_type_ok (m_types m) /\ list_ok import_ok (m_imports m) /\
  list_ok u32 (m_functions m) /\ list_ok (fun t => limits_ok (tt_limits t)) (m_tables m) /\
  list_ok (fun t => limits_ok (mt_limits t)) (m_memories m) /\
  list_ok (fun g => expr_ok g.2) (m_globals m) /\ list_ok export_ok (m_exports m) /\
  from_option u32 True (m_start m) /\ list_ok element_ok (m_elements m) /\
  list_ok body_ok (m_code m) /\ list_ok data_ok (m_data m) /\
  Forall (fun s => count_ok s.2) (encode_sections m).

(** ** Every reader reads its encoding *)
Lemma decodes_counted {A} lim (p : parser A) (enc : A -> bytes) l :
  count_ok l -> (forall a, a ∈ l -> decodes lim p (enc a) a) ->
  decodes lim (counted p) (enc_vec enc l) l.
Proof.
  intros Hc Hp. eapply decodes_bind; [by apply decodes_u32|]. rewrite Nat2Z.id.
  by apply decodes_pvec.
Qed.

Lemma decodes_list {A} lim (p : parser A) (enc : A -> bytes) (P : A -> Prop) l :
  list_ok P l -> (forall a, P a -> decodes lim p (enc a) a) ->
  decodes lim (counted p) (enc_vec enc l) l.
Proof.
  intros [HF Hc] Hp. apply decodes_counted; [done|]. rewrite Forall_forall in HF. auto.
Qed.

Lemma decodes_value_type lim e t : decodes lim (read_value_type e) (enc_value_type t) t.
Proof.
  split; [repeat constructor; unfold u8; destruct t; simpl; lia|]. intros pre post _ _.
  unfold read_value_type, mbind, parser_bind, peek_byte, enc_value_type. cbn [app].
  rewrite list_lookup_middle by done. destruct t; done.
Qed.

#[export] Hint Resolve decodes_value_type : decodes.

Lemma decodes_limits lim l : limits_ok l -> decodes lim parse_limits (enc_limits l) l.
Proof.
  intros [Hmin Hmax]. unfold parse_limits. destruct l as [mn [mx|]]; simpl in *; unfold enc_limits; cbn [lim_min lim_max];
    eapply decodes_bind; try (apply decodes_next_byte; by apply u8_intro); decode.
Qed.
#[export] Hint Resolve decodes_limits : decodes.

Lemma decodes_func_type lim f :
  func_type_ok f ->
  decodes lim
    (pos ← here;
     if (lim <=? pos)%nat then fail InternalError else
     b ← peek_byte;
     if negb (b =? 0x60) then fail InternalError else
     _ ← advance 1;
     params ← counted (read_value_type InvalidVersion);
     results ← counted (read_value_type InvalidVersion);
     mret (mkFuncType params results)) (enc_func_type f) f.
Proof.
  intros [Hp Hr]. 
  assert (Hrest : decodes lim
    (params ← counted (read_value_type InvalidVersion);
     results ← counted (read_value_type InvalidVersion);
     mret (mkFuncType params results))
    (enc_vec enc_value_type (ft_params f) ++ enc_vec enc_value_type (ft_results f)) f).
  { eapply decodes_bind; [|eapply decodes_last].
    - apply decodes_counted; [done|]. auto using decodes_value_type.
    - apply decodes_counted; [done|]. auto using decodes_value_type.
    - destruct f. apply decodes_ret. }
  unfold enc_func_type. destruct Hrest as [Hu Hrest]. revert Hu Hrest.
  generalize (enc_vec enc_value_type (ft_params f) ++ enc_vec enc_value_type (ft_results f)) as e.
  intros e Hu Hrest. split; [by constructor; [apply u8_intro|]|].
  intros pre post HF Hlim. cbn [app] in *. cbn [length] in *.
  specialize (Hrest (pre ++ [0x60]) post). rewrite <- app_assoc, length_app in Hrest.
  unfold mbind at 1, parser_bind at 1, here. rewrite (proj2 (Nat.leb_gt _ _)) by lia.
  unfold mbind at 1, parser_bind at 1, peek_byte. rewrite list_lookup_middle by done.
  cbn [Z.eqb Pos.eqb negb]. unfold mbind at 1, parser_bind at 1, advance.
  cbn [length app] in Hrest. rewrite Hrest by (done || lia). do 2 f_equal. lia.
Qed.
#[export] Hint Resolve decodes_func_type : decodes.

Lemma decodes_table lim e t :
  limits_ok (tt_limits t) ->
  decodes lim (ty ← read_value_type e; l ← parse_limits; mret (mkTableType ty l)) (enc_table t) t.
Proof.
  intros Hl. destruct t as [ty l]. unfold enc_table. cbn [element_type tt_limits] in *. decode.
Qed.

Lemma decodes_global_type {B} lim e g (k : GlobalType -> parser B) post b :
  decodes lim (k g) post b ->
  decodes lim (t ← read_value_type e; m ← next_byte; k (mkGlobalType t (negb (m =? 0))))
    (enc_global_type g ++ post) b.
Proof.
  intros Hk. unfold enc_global_type. rewrite <- app_assoc. eapply decodes_bind; [apply decodes_value_type|].
  destruct g as [t m]. cbn [mutable content_type] in *.
  eapply decodes_bind; [apply decodes_next_byte; by destruct m; apply u8_intro|]. by destruct m.
Qed.

Lemma decodes_import_kind {B} lim k (c : ImportKind -> parser B) b :
  import_kind_ok k -> decodes lim (c k) [] b ->
  decodes lim (b ← next_byte; k ← parse_import_desc b; c k) (enc_import_kind k) b.
Proof.
  destruct k as [i|t|[l]|g]; simpl; intros Hk Hc; eapply (decodes_bind _ _ _ [_]);
    try (apply decodes_next_byte; by apply u8_intro); cbn [parse_import_desc];
    (eapply decodes_last; [|exact Hc]).
  - decode.
  - eapply decodes_bind; [apply decodes_value_type|].
    eapply decodes_last; [by apply decodes_limits|]. destruct t. apply decodes_ret.
  - decode.
  - rewrite <- (app_nil_r (enc_global_type g)).
    apply (decodes_global_type _ _ _ (fun g => mret (IGlobal g))). apply decodes_ret.
Qed.

Lemma decodes_import lim i :
  import_ok i ->
  decodes lim (module ← read_name; name ← read_name; k ← next_byte; desc ← parse_import_desc k;
               mret (mkImport module name desc)) (enc_import i) i.
Proof.
  destruct i as [m n k]. intros ([Hm1 Hm2] & [Hn1 Hn2] & Hk).
  eapply decodes_bind; [by apply decodes_name|]. eapply decodes_bind; [by apply decodes_name|].
  apply decodes_import_kind; [done|]. apply decodes_ret.
Qed.

Lemma decodes_export lim e :
  export_ok e ->
  decodes lim (name ← read_name; b ← next_byte; kind ← ok_or BadExport (export_kind_from_byte b);
               index ← read_leb128_u32; mret (mkExport name kind index)) (enc_export e) e.
Proof.
  destruct e as [n k i]. intros ([Hn1 Hn2] & Hi). cbn [exp_name exp_kind exp_index] in *.
  eapply decodes_bind; [by apply decodes_name|]. cbn [exp_kind exp_index].
  eapply (decodes_bind _ _ _ [_]); [apply decodes_next_byte; by destruct k; apply u8_intro|].
  eapply (decodes_bind _ _ _ []); [by apply decodes_ok_or; destruct k|]. decode.
Qed.

(** *** Constant expressions *)
Lemma enc_init_instr_nonempty c : (1 <= length (enc_init_instr c))%nat.
Proof. destruct c; simpl; lia. Qed.

Lemma decodes_init_expr_loop lim l fuel :
  Forall init_instr_ok l -> (length l < fuel)%nat -> decodes lim (init_expr_loop fuel) (enc_expr l) tt.
Proof.
  intros HF. revert fuel. induction HF as [|c l Hc _ IH]; intros fuel Hf; (destruct fuel as [|fuel]; [simpl in Hf; lia|]);
    cbn [init_expr_loop].
  - eapply decodes_last; [by apply decodes_next_byte_checked, u8_intro|]. apply decodes_ret.
  - unfold enc_expr. cbn [flat_map]. rewrite <- app_assoc. fold (enc_expr l).
    assert (IH' : decodes lim (init_expr_loop fuel) (enc_expr l) tt) by (apply IH; simpl in Hf; lia).
    destruct c as [z|z|i]; simpl in Hc; unfold enc_init_instr; rewrite <- app_assoc;
      (eapply decodes_bind; [by apply decodes_next_byte_checked, u8_intro|]); cbn iota;
      (eapply decodes_bind; [eauto with decodes|done]).
Qed.

Lemma decodes_init_expr_rounds lim e : expr_ok e -> decodes lim init_expr_rounds e tt.
Proof.
  intros (l & HF & ->). split.
  { by apply (decodes_init_expr_loop lim l (S (length l))); [|lia]. }
  intros pre post Hu Hlim. unfold init_expr_rounds. apply (decodes_init_expr_loop lim l); [done| |done|done].
  rewrite !length_app. unfold enc_expr. rewrite length_app.
  assert (length l <= length (flat_map enc_init_instr l))%nat; [|simpl; lia].
  clear. induction l as [|c l IH]; [done|]. simpl. rewrite length_app.
  pose proof (enc_init_instr_nonempty c). lia.
Qed.
#[export] Hint Resolve decodes_init_expr_rounds : decodes.

(** The expression is kept as the bytes it was read from. *)
Lemma decodes_init_expr_bytes lim e : expr_ok e -> decodes lim read_init_expr_bytes e e.
Proof.
  intros He. destruct (decodes_init_expr_rounds lim e He) as [Hu Hr]. split; [done|].
  intros pre post HF Hlim. unfold read_init_expr_bytes.
  unfold mbind, parser_bind, here. rewrite Hr by done. unfold slice, sub_slice. rewrite !length_app.
  rewrite (proj2 (Nat.leb_le _ _)), (proj2 (Nat.leb_le _ _)) by lia. cbn [andb].
  by rewrite drop_app_length, Nat.add_comm, Nat.add_sub, take_app_length.
Qed.
#[export] Hint Resolve decodes_init_expr_bytes : decodes.

(** *** Globals, segments, bodies *)
Lemma decodes_global lim g :
  expr_ok g.2 ->
  decodes lim
    (t ← read_value_type InvalidVersion; b ← next_byte;
     expr_start ← here; expr_end ← read_init_expr; init_expr ← slice expr_start expr_end;
     _ ← set_pos expr_end; mret (mkGlobalType t (negb (b =? 0)), init_expr)) (enc_global g) g.
Proof.
  destruct g as [g e]. simpl. intros He. unfold enc_global. cbn [fst snd].
  apply (decodes_global_type _ _ _ (fun g =>
    expr_start ← here; expr_end ← read_init_expr; init_expr ← slice expr_start expr_end;
    _ ← set_pos expr_end; mret (g, init_expr))).
  destruct (decodes_init_expr_rounds lim e He) as [Hu Hr]. split; [done|].
  intros pre post HF Hlim. unfold read_init_expr.
  unfold mbind, parser_bind, here. rewrite Hr by done. unfold slice, sub_slice. rewrite !length_app.
  rewrite (proj2 (Nat.leb_le _ _)), (proj2 (Nat.leb_le _ _)) by lia. cbn [andb].
  by rewrite drop_app_length, Nat.add_comm, Nat.add_sub, take_app_length.
Qed.

Lemma decodes_element lim e :
  element_ok e ->
  decodes lim
    (table_index ← read_leb128_u32; offset ← read_init_expr_bytes;
     func_indices ← counted read_leb128_u32;
     mret (mkElement table_index offset func_indices)) (enc_element e) e.
Proof.
  destruct e as [t o f]. intros (Ht & Ho & Hf & Hc). cbn [es_table es_offset es_funcs] in *.
  unfold enc_element. cbn [es_table es_offset es_funcs].
  eapply decodes_bind; [by apply decodes_u32|]. eapply decodes_bind; [by apply decodes_init_expr_bytes|].
  eapply decodes_last; [|apply decodes_ret].
  apply (decodes_list _ _ _ u32); [done|]. intros. by apply decodes_u32.
Qed.

Lemma decodes_data lim d :
  data_ok d ->
  decodes lim
    (memory_index ← read_leb128_u32; offset ← read_init_expr_bytes; data_len ← read_leb128_u32;
     pos ← here; blen ← input_len;
     if (blen <? pos + Z.to_nat data_len)%nat then fail Truncated else
     segment_data ← take_to (pos + Z.to_nat data_len);
     mret (mkData memory_index offset segment_data)) (enc_data d) d.
Proof.
  destruct d as [i o d]. intros (Hi & Ho & [Hd Hc]). cbn [ds_memory ds_offset ds_data] in *.
  unfold enc_data, enc_name. cbn [ds_memory ds_offset ds_data].
  eapply decodes_bind; [by apply decodes_u32|]. eapply decodes_bind; [by apply decodes_init_expr_bytes|].
  eapply decodes_bind; [by apply decodes_u32|]. split; [done|].
  intros pre post HF Hlim. unfold mbind, parser_bind, here, input_len.
  rewrite Nat2Z.id, (proj2 (Nat.ltb_ge _ _)) by (rewrite !length_app; lia).
  by rewrite (decodes_take_to lim).
Qed.

Lemma decodes_locals lim l :
  list_ok (fun p => u32 p.1) l ->
  decodes lim (counted (n ← read_leb128_u32; t ← read_value_type InvalidVersion; mret (n, t)))
    (enc_locals l) l.
Proof.
  intros Hl. apply (decodes_list _ _ _ (fun p => u32 p.1)); [done|]. intros [n t] Hn. simpl in *. decode.
Qed.

Lemma decodes_body lim b :
  body_ok b ->
  decodes lim
    (body_size ← read_leb128_u32;
     pos ← here;
     let body_end := (pos + Z.to_nat body_size)%nat in
     locals ← counted (n ← read_leb128_u32; t ← read_value_type InvalidVersion; mret (n, t));
     code ← take_to body_end;
     mret (mkBody locals code)) (enc_body b) b.
Proof.
  destruct b as [l c]. intros (Hl & Hlc & Hc & Hcc). cbn [fb_locals fb_code] in *.
  unfold enc_body. cbn [fb_locals fb_code]. eapply decodes_bind; [by apply decodes_u32|].
  destruct (decodes_locals lim l) as [Hu Hr]; [done|]. split; [by apply Forall_app|].
  intros pre post HF Hlim. cbn zeta. unfold mbind, parser_bind, here. rewrite Nat2Z.id.
  rewrite <- app_assoc in *. rewrite length_app in Hlim. rewrite Hr by (done || lia).
  pose proof (decodes_take_to lim c (pre ++ enc_locals l) post) as Ht.
  rewrite <- app_assoc, !length_app in Ht. rewrite length_app, Nat.add_assoc, Ht by lia. done.
Qed.

(** *** Sections *)

(** The field a section fills in. *)
Definition with_field (m acc : WasmModule) (id : Z) : WasmModule :=
  let '(mkModule ty im fu ta me gl ex st el co da) := acc in
  match id with
  | 1 => mkModule (m_types m) im fu ta me gl ex st el co da
  | 2 => mkModule ty (m_imports m) fu ta me gl ex st el co da
  | 3 => mkModule ty im (m_functions m) ta me gl ex st el co da
  | 4 => mkModule ty im fu (m_tables m) me gl ex st el co da
  | 5 => mkModule ty im fu ta (m_memories m) gl ex st el co da
  | 6 => mkModule ty im fu ta me (m_globals m) ex st el co da
  | 7 => mkModule ty im fu ta me gl (m_exports m) st el co da
  | 8 => mkModule ty im fu ta me gl ex (m_start m) el co da
  | 9 => mkModule ty im fu ta me gl ex st (m_elements m) co da
  | 10 => mkModule ty im fu ta me gl ex st el (m_code m) da
  | 11 => mkModule ty im fu ta me gl ex st el co (m_data m)
  | _ => acc
  end.

Lemma with_fields_all m :
  fold_left (with_field m) (encode_sections m).*1 empty_module = m.
Proof. by destruct m as [???????[i|]???]. Qed.

Lemma parse_section_field m acc id content lim :
  module_ok m -> (id, content) ∈ encode_sections m ->
  decodes lim (parse_section id lim acc) content (with_field m acc id).
Proof.
  intros (Hty & Him & Hfu & Hta & Hme & Hgl & Hex & Hst & Hel & Hco & Hda & _) Hin.
  destruct acc as [ty im fu ta me gl ex st el co da]. unfold encode_sections in Hin.
  assert (Hcases : (id, content) ∈ [(1, enc_vec enc_func_type (m_types m)); (2, enc_vec enc_import (m_imports m));
      (3, enc_vec enc_u32 (m_functions m)); (4, enc_vec enc_table (m_tables m));
      (5, enc_vec (fun t => enc_limits (mt_limits t)) (m_memories m));
      (6, enc_vec enc_global (m_globals m)); (7, enc_vec enc_export (m_exports m));
      (9, enc_vec enc_element (m_elements m)); (10, enc_vec enc_body (m_code m));
      (11, enc_vec enc_data (m_data m))] \/ (exists i, m_start m = Some i /\ (id, content) = (8, enc_u32 i))).
  { revert Hin. rewrite !elem_of_app. destruct (m_start m) as [i|]; set_solver. }
  clear Hin. destruct Hcases as [Hin|(i & Hi & [= -> ->])].
  2:{ cbn [parse_section with_field]. rewrite Hi in *.
      eapply decodes_last; [by apply decodes_u32|apply decodes_ret]. }
  repeat (apply elem_of_cons in Hin as [[= -> ->]|Hin]); [..|by apply elem_of_nil in Hin];
    cbn [parse_section with_field]; (eapply decodes_last; [|apply decodes_ret]).
  - apply (decodes_list _ _ _ func_type_ok); [done|]. apply decodes_func_type.
  - apply (decodes_list _ _ _ import_ok); [done|]. apply decodes_import.
  - apply (decodes_list _ _ _ u32); [done|]. apply decodes_u32.
  - apply (decodes_list _ _ _ (fun t => limits_ok (tt_limits t))); [done|]. apply decodes_table.
  - apply (decodes_list _ _ _ (fun t => limits_ok (mt_limits t))); [done|]. intros [l] Hl. simpl in *. decode.
  - apply (decodes_list _ _ _ (fun g => expr_ok g.2)); [done|]. apply decodes_global.
  - apply (decodes_list _ _ _ export_ok); [done|]. apply decodes_export.
  - apply (decodes_list _ _ _ element_ok); [done|]. apply decodes_element.
  - apply (decodes_list _ _ _ body_ok); [done|]. apply decodes_body.
  - apply (decodes_list _ _ _ data_ok); [done|]. apply decodes_data.
Qed.

Definition enc_sections (l : list (Z * bytes)) : bytes := flat_map (fun s => enc_section s.1 s.2) l.

(** What a list of encoded sections must satisfy to be read back. *)
Definition section_reads (m : WasmModule) (s : Z * bytes) : Prop :=
  u8 s.1 /\ count_ok s.2 /\
  forall lim acc, decodes lim (parse_section s.1 lim acc) s.2 (with_field m acc s.1).

Lemma decodes_read_section lim m acc s :
  section_reads m s -> decodes lim (read_section acc) (enc_section s.1 s.2) (with_field m acc s.1).
Proof.
  destruct s as [id c]. intros (Hid & Hc & Hd). cbn [fst snd] in *. unfold enc_section, read_section.
  eapply decodes_bind; [by apply decodes_next_byte|]. eapply decodes_bind; [by apply decodes_u32|].
  split; [apply (Hd 0%nat acc)|]. intros pre post HF Hlim. unfold mbind, parser_bind, here, input_len.
  cbn zeta. rewrite Nat2Z.id, (proj2 (Nat.ltb_ge _ _)) by (rewrite !length_app; lia).
  by apply (Hd (length pre + length c)%nat acc).
Qed.

Lemma enc_sections_u8 m l : Forall (section_reads m) l -> Forall u8 (enc_sections l).
Proof.
  induction 1 as [|s l Hs _ IH]; [done|]. apply Forall_app. split; [|done].
  by apply (decodes_read_section 0%nat m empty_module s).
Qed.

Lemma section_loop_reads m l acc fuel pre :
  Forall (section_reads m) l -> Forall u8 pre -> (length l < fuel)%nat ->
  section_loop fuel acc (pre ++ enc_sections l) (length pre) =
  Done (Ok (fold_left (with_field m) l.*1 acc), length (pre ++ enc_sections l)).
Proof.
  intros Hl. revert acc fuel pre. induction Hl as [|s l Hs Hl IH]; intros acc fuel pre Hpre Hf;
    (destruct fuel as [|fuel]; [simpl in Hf; lia|]); cbn [section_loop];
    unfold mbind at 1, parser_bind at 1, here at 1; unfold mbind at 1, parser_bind at 1, input_len at 1.
  { simpl. rewrite app_nil_r, Nat.leb_refl. done. }
  destruct (decodes_read_section (length (pre ++ enc_section s.1 s.2)) m acc s Hs) as [Hu Hr].
  change (enc_sections (s :: l)) with (enc_section s.1 s.2 ++ enc_sections l).
  rewrite (proj2 (Nat.leb_gt _ _)) by (rewrite !length_app; simpl; lia).
  unfold mbind at 1, parser_bind at 1. pose proof (enc_sections_u8 m l Hl).
  rewrite Hr by (rewrite ?Forall_app, ?length_app; done || lia).
  rewrite <- length_app, app_assoc. apply IH; [by apply Forall_app|simpl in Hf; lia].
Qed.

Lemma encode_sections_read m : module_ok m -> Forall (section_reads m) (encode_sections m).
Proof.
  intros Hm. apply Forall_forall. intros [id c] Hin. split_and!.
  - cbn [fst]. revert Hin. unfold encode_sections. destruct (m_start m);
      intros Hin; repeat (apply elem_of_cons in Hin as [[= -> _]|Hin]);
      try (by apply u8_intro); by apply elem_of_nil in Hin.
  - destruct Hm as (_ & _ & _ & _ & _ & _ & _ & _ & _ & _ & _ & Hc).
    rewrite Forall_forall in Hc. by apply Hc.
  - intros. by apply parse_section_field.
Qed.

Lemma parse_encode m : module_ok m -> parse_wasm (encode_module m) = Done (Ok m).
Proof.
  intros Hm. unfold parse_wasm, encode_module. fold (enc_sections (encode_sections m)).
  set (hdr := to_le_bytes 4 WASM_MAGIC ++ to_le_bytes 4 WASM_VERSION).
  rewrite app_assoc. fold hdr.
  rewrite (proj2 (Nat.ltb_ge _ _)) by (rewrite length_app; simpl; lia).
  change (from_le_bytes (take 4 (hdr ++ _))) with WASM_MAGIC.
  change (from_le_bytes (take 4 (drop 4 (hdr ++ _)))) with WASM_VERSION.
  rewrite !Z.eqb_refl. cbn [negb].
  change 8%nat with (length hdr). rewrite (section_loop_reads m).
  - by rewrite with_fields_all.
  - by apply encode_sections_read.
  - repeat constructor; by apply u8_intro.
  - rewrite length_app. unfold enc_sections.
    assert (length (encode_sections m) <= length (flat_map (fun s => enc_section s.1 s.2) (encode_sections m)))%nat; [|lia].
    induction (encode_sections m) as [|s l IH]; [done|]. cbn [flat_map]. rewrite length_app. simpl. lia.
Qed.

(** ** Every input is answered *)
#[export] Instance advances_value_type e : Advances (read_value_type e).
Proof. unfold read_value_type. apply _. Qed.
#[export] Instance advances_limits : Advances parse_limits.
Proof. unfold parse_limits. apply _. Qed.
#[export] Instance advances_counted {A} (p : parser A) : Advances p -> Advances (counted p).
Proof. intros. unfold counted. apply _. Qed.
#[export] Instance advances_slice a b : Advances (slice a b).
Proof. intros bs pos. unfold slice. split_bool; simpl; lia. Qed.
#[export] Instance advances_import_desc k : Advances (parse_import_desc k).
Proof. unfold parse_import_desc. repeat case_match; apply _. Qed.

Lemma init_dispatch_other {A} (b : Z) (c i l g o : A) :
  b <> 0x0B -> b <> 0x41 -> b <> 0x42 -> b <> 0x23 ->
  match b with 0x0B => c | 0x41 => i | 0x42 => l | 0x23 => g | _ => o end = o.
Proof. intros. repeat case_match; congruence. Qed.

Lemma init_expr_loop_advances fuel bs pos :
  (length bs - pos < fuel)%nat ->
  match init_expr_loop fuel bs pos with
  | Done (_, pos') => (pos <= pos')%nat | Panic => True | Deadlock => False
  end.
Proof.
  revert pos. induction fuel as [|fuel IH]; intros pos Hf; [lia|]. cbn [init_expr_loop].
  unfold mbind at 1, parser_bind at 1, next_byte_checked.
  destruct (bs !! pos) as [b|] eqn:Hb; [|simpl; lia]. apply lookup_lt_Some in Hb.
  assert (Hnext : forall {A} (p : parser A), Advances p ->
    match (_ ← p; init_expr_loop fuel) bs (S pos) with
    | Done (_, pos') => (pos <= pos')%nat | Panic => True | Deadlock => False
    end).
  { intros A p Hp. specialize (Hp bs (S pos)). unfold mbind, parser_bind.
    destruct (p bs (S pos)) as [[[a|e] pos']| |]; [|lia|done..].
    specialize (IH pos'). destruct (init_expr_loop fuel bs pos') as [[r pos'']| |]; [lia|done|lia]. }
  destruct (decide (b = 0x0B)) as [->|]; [simpl; lia|].
  destruct (decide (b = 0x41)) as [->|]; [apply Hnext; apply _|].
  destruct (decide (b = 0x42)) as [->|]; [apply Hnext; apply _|].
  destruct (decide (b = 0x23)) as [->|]; [apply Hnext; apply _|].
  rewrite init_dispatch_other by done. simpl. lia.
Qed.

#[export] Instance advances_init_expr_rounds : Advances init_expr_rounds.
Proof. intros bs pos. apply init_expr_loop_advances. lia. Qed.
#[export] Instance advances_init_expr_bytes : Advances read_init_expr_bytes.
Proof. unfold read_init_expr_bytes. apply _. Qed.

(** The position set after an initialiser is the one it was read to. *)
Lemma global_entry_advances {B} (k : bytes -> parser B) :
  (forall e, Advances (k e)) ->
  Advances (
    expr_start ← here; expr_end ← read_init_expr; init_expr ← slice expr_start expr_end;
    _ ← set_pos expr_end; k init_expr).
Proof.
  intros Hk bs pos. unfold read_init_expr, mbind, parser_bind, here.
  pose proof (advances_init_expr_rounds bs pos) as Ha.
  destruct (init_expr_rounds bs pos) as [[[[]|e] pos']| |]; [|done..].
  unfold slice. destruct ((pos <=? pos')%nat && (pos' <=? length bs)%nat); [|done].
  unfold set_pos. specialize (Hk (sub_slice bs pos pos') bs pos').
  destruct (k (sub_slice bs pos pos') bs pos') as [[r pos'']| |]; [lia|done..].
Qed.

#[export] Instance advances_global_section : Advances parse_global_section.
Proof.
  unfold parse_global_section. apply advances_counted. apply advances_bind; [apply _|]. intros t.
  apply advances_bind; [apply _|]. intros b.
  apply (global_entry_advances (fun e => mret (mkGlobalType t (negb (b =? 0)), e))). intros. apply _.
Qed.

#[export] Instance advances_type_section e : Advances (parse_type_section e).
Proof. unfold parse_type_section. apply _. Qed.
#[export] Instance advances_import_section : Advances (parse_import_section).
Proof. unfold parse_import_section. apply _. Qed.
#[export] Instance advances_function_section : Advances (parse_function_section).
Proof. unfold parse_function_section. apply _. Qed.
#[export] Instance advances_table_section : Advances (parse_table_section).
Proof. unfold parse_table_section. apply _. Qed.
#[export] Instance advances_memory_section : Advances (parse_memory_section).
Proof. unfold parse_memory_section. apply _. Qed.
#[export] Instance advances_export_section : Advances (parse_export_section).
Proof. unfold parse_export_section. apply _. Qed.
#[export] Instance advances_code_section : Advances (parse_code_section).
Proof. unfold parse_code_section. apply _. Qed.
#[export] Instance advances_data_section : Advances (parse_data_section).
Proof. unfold parse_data_section. apply _. Qed.
#[export] Instance advances_element_section : Advances (parse_element_section).
Proof. unfold parse_element_section. apply _. Qed.

(** A section moves to its end or reads forward. *)
Lemma parse_section_advances id sec_end m bs pos :
  (pos <= sec_end)%nat ->
  match parse_section id sec_end m bs pos with
  | Done (_, pos') => (pos <= pos')%nat | Panic => True | Deadlock => False
  end.
Proof.
  intros Hp. unfold parse_section. destruct m.
  assert (Hskip : match (_ ← set_pos sec_end; mret empty_module) bs pos with
    | Done (_, pos') => (pos <= pos')%nat | Panic => True | Deadlock => False end) by done.
  repeat first [exact Hp | match goal with
  | |- context [match ?z with Z0 => _ | Zpos _ => _ | Zneg _ => _ end] => destruct z
  | |- context [match ?p with xI _ => _ | xO _ => _ | xH => _ end] => destruct p
  end].
  all: apply advances.
Qed.

Lemma section_loop_returns fuel m bs pos :
  (length bs - pos < fuel)%nat -> section_loop fuel m bs pos <> Deadlock.
Proof.
  revert m pos. induction fuel as [|fuel IH]; intros m pos Hf; [lia|]. cbn [section_loop].
  unfold mbind at 1, parser_bind at 1, here at 1; unfold mbind at 1, parser_bind at 1, input_len at 1.
  destruct (Nat.leb_spec (length bs) pos); [done|].
  unfold read_section. unfold mbind at 1 2, parser_bind at 1 2, next_byte.
  destruct (bs !! pos) as [id|]; [|done].
  unfold mbind at 1, parser_bind at 1. pose proof (advances_u32 bs (S pos)) as Hu.
  destruct (read_leb128_u32 bs (S pos)) as [[[n|e] pos']| |]; [|done..].
  unfold mbind at 1, parser_bind at 1, here at 1; unfold mbind at 1, parser_bind at 1, input_len at 1.
  cbn zeta. destruct (Nat.ltb_spec (length bs) (pos' + Z.to_nat n)); [done|].
  pose proof (parse_section_advances id (pos' + Z.to_nat n) m bs pos') as Hs.
  destruct (parse_section id (pos' + Z.to_nat n) m bs pos') as [[[m'|e] pos'']| |]; [|done|done|lia].
  apply IH. lia.
Qed.

Lemma parse_wasm_returns bs : parse_wasm bs <> Deadlock.
Proof.
  unfold parse_wasm. repeat (case_match; [done|]).
  assert (Hs : section_loop (S (length bs)) empty_module bs 8%nat <> Deadlock)
    by (apply section_loop_returns; lia).
  by destruct (section_loop _ _ _ _).
Qed.

(** ** Theorems *)

(** The WebAssembly parser reads every well-formed module back from an
    encoding in its own dialect: all eleven sections, imports and exports of
    every kind, limits with and without a maximum, constant expressions,
    locals and code, segments, with every number at its width; and on any byte
    string whatsoever its loops end - it returns a module, a [WasmError], or
    panics on an index. *)
Theorem module_roundtrip (m : WasmModule) (Hm : module_ok m) :
  parse_wasm (encode_module m) = Done (Ok m) /\ forall bs, parse_wasm bs <> Deadlock.
Proof. split; [by apply parse_encode|apply parse_wasm_returns]. Qed.

(** The element type of the tables of the specification. *)
Lemma funcref_is_no_value_type : value_type_from_byte 0x70 = None.
Proof. reflexivity. Qed.

(** A module with every kind of section. *)
Definition sample_module : WasmModule :=
  mkModule [mkFuncType [TI32; TI64] [TI32]] [mkImport [119; 97] [102] (IFunction 0)] [0]
    [mkTableType TI32 (mkLimits 1 (Some 300))] [mkMemoryType (mkLimits 1 None)]
    [(mkGlobalType TI32 true, enc_expr [CI32 (-5)])] [mkExport [109] EFunction 1] (Some 1)
    [mkElement 0 (enc_expr [CI32 0]) [1; 200]] [mkBody [(2, TI32)] [0x20; 0; 0x0B]]
    [mkData 0 (enc_expr [CGlobal 0]) [1; 2; 3]].

Lemma count_ok_compute {A} (l : list A) : (Z.of_nat (length l) <=? U32_MAX) = true -> count_ok l.
Proof. unfold count_ok, u32. lia. Qed.
Lemma u32_compute z : (0 <=? z) && (z <=? U32_MAX) = true -> u32 z.
Proof. unfold u32. lia. Qed.

Lemma expr_ok_intro l : Forall init_instr_ok l -> expr_ok (enc_expr l).
Proof. by exists l. Qed.

Ltac well_formed :=
  repeat match goal with
  | |- _ /\ _ => split
  | |- Forall _ [] => constructor
  | |- Forall _ (_ :: _) => constructor
  | |- count_ok _ => apply count_ok_compute; reflexivity
  | |- u32 _ => apply u32_compute; reflexivity
  | |- u8 _ => apply u8_intro; reflexivity
  | |- signed _ _ => unfold signed; cbn; lia
  | |- expr_ok _ => refine (expr_ok_intro _ _)
  | |- init_instr_ok _ => cbn [init_instr_ok]
  | |- import_kind_ok _ => cbn [import_kind_ok imp_desc]
  | |- True => exact I
  | |- from_option u32 True _ => first [exact I|apply u32_compute; reflexivity]
  | |- Forall _ ?l => let l' := eval hnf in l in progress change l with l'
  | |- _ => progress hnf
  end.

Lemma sample_module_ok : module_ok sample_module.
Proof. well_formed. Qed.

Lemma module_roundtrip_witness :
  module_ok sample_module /\ parse_wasm (encode_module sample_module) = Done (Ok sample_module).
Proof. split; [exact sample_module_ok|]. apply (module_roundtrip sample_module sample_module_ok). Defined.

(** A file whose last section stops inside an entry is not answered with
    [Truncated]: the index past the end of the slice panics. *)
Definition wasm_header : bytes := [0x00; 0x61; 0x73; 0x6D; 1; 0; 0; 0].

Theorem truncated_entries_panic :
  parse_wasm (wasm_header ++ [5; 1; 1]) = Panic /\
  parse_wasm (wasm_header ++ [1; 3; 1; 0x60; 1]) = Panic /\
  parse_wasm (wasm_header ++ [2; 4; 1; 0; 0]) = Done (Err Truncated) /\
  parse_wasm (wasm_header ++ [2; 3; 1; 0; 0]) = Panic /\
  parse_wasm (wasm_header ++ [10; 3; 1; 100; 0]) = Panic.
Proof. done. Qed.

(** The declared size of a known section is only compared with the file: the
    entries may run past it, and what is left of it is read as a section. *)
Theorem section_size_not_enforced :
  parse_wasm (wasm_header ++ [3; 1; 2; 5; 6]) =
    Done (Ok (mkModule [] [] [5; 6] [] [] [] [] None [] [] [])) /\
  parse_wasm (wasm_header ++ [3; 4; 0; 8; 1; 9]) =
    Done (Ok (mkModule [] [] [] [] [] [] [] (Some 9) [] [] [])).
Proof. done. Qed.
