(* ===== verification/WasmRuntime.v ===== *)
(** * WebAssembly runtime data ([services/wasm/runtime.rs])

    The bounded value stack and the linear memory of the interpreter. A [Vec]
    is a list in its own order: the top of the value stack is the last element.
    Every access of the linear memory is checked against its length; the
    theorem says what the accesses promise to the interpreter and to WASI. *)
From S2P Require Import Prelude Bytes WasmTypes.

(** ** The value stack *)
Definition STACK_LIMIT : nat := 4096.

Definition stack_push (v : Value) (s : list Value) : result (list Value) :=
  if (STACK_LIMIT <=? length s)%nat then Err StackOverflow else Ok (s ++ [v]).

Definition stack_pop (s : list Value) : result (Value * list Value) :=
  match last s with
  | Some v => Ok (v, take (length s - 1) s)
  | None => Err StackUnderflow
  end.

Definition stack_peek (s : list Value) : option Value := last s.

(** [Vec::truncate] *)
Definition drain_to (new_len : Z) (s : list Value) : list Value :=
  if new_len <? Z.of_nat (length s) then take (Z.to_nat new_len) s else s.

(** ** Call frames *)
Record CallFrame := mkFrame {
  func_idx : Z;
  locals : list Value;
  pc : nat;
  code : bytes;
  arity : nat;
  return_pc : nat;
  stack_base : nat;
}.

Definition frame_read_u8 (f : CallFrame) : option Z := code f !! pc f.

(** ** Linear memory *)
Record LinearMemory := mkMem { mem_data : bytes; max_pages : option Z }.

Definition mem_new (initial_pages : Z) (max : option Z) : LinearMemory :=
  mkMem (replicate (Z.to_nat (initial_pages * WASM_PAGE_SIZE)) 0) max.

Definition mem_pages (m : LinearMemory) : Z :=
  wrap_u32 (Z.of_nat (length (mem_data m)) / WASM_PAGE_SIZE).

(** The new memory and the value returned: the old number of pages, or
    [u32::MAX] when the request is refused. The byte count of fewer than [2^32]
    pages does not overflow a [usize]. *)
Definition mem_grow (additional_pages : Z) (m : LinearMemory) : Z * LinearMemory :=
  let current_pages := mem_pages m in
  let new_pages := current_pages + additional_pages in
  if U32_MAX <? new_pages then (U32_MAX, m) else
  if match max_pages m with Some max => max <? new_pages | None => false end then (U32_MAX, m) else
  (current_pages, mkMem (resize (Z.to_nat (new_pages * WASM_PAGE_SIZE)) 0 (mem_data m)) (max_pages m)).

Definition check_access (m : LinearMemory) (offset size : Z) : result nat :=
  if Z.of_nat (length (mem_data m)) <? offset + size then Err MemoryOutOfBounds
  else Ok (Z.to_nat offset).

(** [read_u8], [read_u16], [read_u32] and [read_u64] differ in the size. *)
Definition mem_read (size : nat) (m : LinearMemory) (offset : Z) : result Z :=
  match check_access m offset (Z.of_nat size) with
  | Ok addr => Ok (from_le_bytes (sub_slice (mem_data m) addr (addr + size)))
  | Err e => Err e
  end.

Definition mem_read_u8 := mem_read 1.
Definition mem_read_u16 := mem_read 2.
Definition mem_read_u32 := mem_read 4.
Definition mem_read_u64 := mem_read 8.

(** [data[a..a + l.len()].copy_from_slice(l)] *)
Definition splice (d : bytes) (a : nat) (l : bytes) : bytes :=
  take a d ++ l ++ drop (a + length l) d.

Definition mem_write (size : nat) (m : LinearMemory) (offset value : Z) : result LinearMemory :=
  match check_access m offset (Z.of_nat size) with
  | Ok addr => Ok (mkMem (splice (mem_data m) addr (to_le_bytes size value)) (max_pages m))
  | Err e => Err e
  end.

Definition mem_write_u8 := mem_write 1.
Definition mem_write_u16 := mem_write 2.
Definition mem_write_u32 := mem_write 4.
Definition mem_write_u64 := mem_write 8.

(** [get_slice]: the range of the borrowed bytes. *)
Definition mem_get_slice (m : LinearMemory) (offset len : Z) : result bytes :=
  match check_access m offset len with
  | Ok addr => Ok (sub_slice (mem_data m) addr (addr + Z.to_nat len))
  | Err e => Err e
  end.

(** [get_slice_mut] and what its caller copies into the slice. *)
Definition mem_set_slice (m : LinearMemory) (offset len : Z) (l : bytes) : result LinearMemory :=
  match check_access m offset len with
  | Ok addr => Ok (mkMem (splice (mem_data m) addr l) (max_pages m))
  | Err e => Err e
  end.

(** ** Configuration *)
Record InterpreterConfig := mkConfig { max_call_depth : Z; max_gas : Z; max_memory_pages : Z }.

Definition default_config : InterpreterConfig := mkConfig 256 10000000 256.

(** ** Lemmas *)
Lemma length_splice d a l : (a + length l <= length d)%nat -> length (splice d a l) = length d.
Proof. intros. unfold splice. rewrite !length_app, length_take, length_drop. lia. Qed.

Lemma splice_read_eq d a l :
  (a + length l <= length d)%nat -> sub_slice (splice d a l) a (a + length l) = l.
Proof.
  intros. unfold splice, sub_slice. replace (a + length l - a)%nat with (length l) by lia.
  rewrite drop_app_length' by (rewrite length_take; lia). apply take_app_length.
Qed.

Lemma splice_lookup_ne d a l i :
  (a + length l <= length d)%nat -> (i < a \/ a + length l <= i)%nat -> splice d a l !! i = d !! i.
Proof.
  intros Hlen Hi. unfold splice. destruct Hi.
  - rewrite lookup_app_l by (rewrite length_take; lia). by apply lookup_take_lt.
  - rewrite lookup_app_r by (rewrite length_take; lia). rewrite length_take.
    rewrite lookup_app_r by lia. rewrite lookup_drop. f_equal. lia.
Qed.

Lemma sub_slice_ext (d d' : bytes) a b :
  (forall i, (a <= i < b)%nat -> d !! i = d' !! i) -> sub_slice d a b = sub_slice d' a b.
Proof.
  intros H. unfold sub_slice. apply list_eq. intros i.
  destruct (decide (i < b - a)%nat).
  - rewrite !lookup_take_lt, !lookup_drop by lia. apply H. lia.
  - by rewrite !lookup_take_ge by lia.
Qed.

Lemma check_access_spec m offset size :
  check_access m offset size =
  if decide (offset + size <= Z.of_nat (length (mem_data m))) then Ok (Z.to_nat offset)
  else Err MemoryOutOfBounds.
Proof. unfold check_access. case_decide; decide_bool; done. Qed.

Lemma Forall_splice d a l : Forall u8 d -> Forall u8 l -> Forall u8 (splice d a l).
Proof. intros. unfold splice. rewrite !Forall_app. auto using Forall_take, Forall_drop. Qed.

(** Bytes, in whole pages whose number fits a [u32]. *)
Definition mem_ok (m : LinearMemory) : Prop :=
  Forall u8 (mem_data m) /\
  exists n, Z.of_nat (length (mem_data m)) = n * WASM_PAGE_SIZE /\ u32 n.

Lemma mem_pages_spec m :
  mem_ok m -> Z.of_nat (length (mem_data m)) = mem_pages m * WASM_PAGE_SIZE /\ u32 (mem_pages m).
Proof.
  intros (_ & n & Hn & Hu). unfold mem_pages. rewrite Hn, Z.div_mul by done.
  by rewrite wrap_u32_small.
Qed.

Lemma mem_new_ok n max : u32 n -> mem_ok (mem_new n max) /\ mem_pages (mem_new n max) = n.
Proof.
  intros Hn. unfold u32, U32_MAX, WASM_PAGE_SIZE in *.
  assert (Hok : mem_ok (mem_new n max)).
  { split; [apply Forall_replicate; by apply u8_intro|]. exists n. unfold mem_new. cbn [mem_data].
    rewrite length_replicate. unfold WASM_PAGE_SIZE, u32, U32_MAX. lia. }
  split; [done|]. destruct (mem_pages_spec _ Hok) as [H _]. unfold mem_new at 1 in H. cbn [mem_data] in H.
  rewrite length_replicate in H. unfold WASM_PAGE_SIZE in *. lia.
Qed.

(** ** Writes *)
Lemma mem_write_Ok n m off v :
  0 <= off -> off + Z.of_nat n <= Z.of_nat (length (mem_data m)) ->
  mem_write n m off v = Ok (mkMem (splice (mem_data m) (Z.to_nat off) (to_le_bytes n v)) (max_pages m)).
Proof. intros. unfold mem_write. rewrite check_access_spec. by rewrite decide_True by lia. Qed.

Lemma mem_write_ok n m off v m' :
  0 <= off -> mem_ok m -> mem_write n m off v = Ok m' -> mem_ok m' /\ length (mem_data m') = length (mem_data m).
Proof.
  intros Hoff (Hu & Hp). unfold mem_write. rewrite check_access_spec. case_decide as Hin; [|done].
  intros [= <-]. cbn [mem_data].
  assert (Hlen : length (splice (mem_data m) (Z.to_nat off) (to_le_bytes n v)) = length (mem_data m))
    by (apply length_splice; rewrite length_to_le_bytes; lia).
  split; [|done]. split; [apply Forall_splice; [done|apply to_le_bytes_u8]|]. cbn [mem_data]. by rewrite Hlen.
Qed.

Lemma to_le_bytes_mod n v : to_le_bytes n (v mod 2 ^ (8 * Z.of_nat n)) = to_le_bytes n v.
Proof.
  revert v. induction n as [|n IH]; intros v; [done|]. cbn [to_le_bytes].
  replace (8 * Z.of_nat (S n)) with (8 + 8 * Z.of_nat n) by lia. rewrite Z.pow_add_r by lia.
  change (2 ^ 8) with 256. assert (0 < 2 ^ (8 * Z.of_nat n)) by (apply Z.pow_pos_nonneg; lia).
  rewrite <- (IH (v / 256)). rewrite Z.rem_mul_r by lia. f_equal.
  - rewrite Z.mul_comm, Z_mod_plus_full. apply Z.mod_mod. lia.
  - f_equal. rewrite Z.mul_comm, Z.div_add by lia. rewrite (Z.div_small (v mod 256) 256); [lia|].
    apply Z.mod_pos_bound. lia.
Qed.

Lemma mem_read_write_eq n m off v m' :
  0 <= off -> mem_write n m off v = Ok m' -> mem_read n m' off = Ok (v mod 2 ^ (8 * Z.of_nat n)).
Proof.
  intros Hoff. unfold mem_write, mem_read. rewrite !check_access_spec. case_decide as Hin; [|done].
  intros [= <-]. cbn [mem_data].
  assert (Hlen : length (to_le_bytes n v) = n) by apply length_to_le_bytes.
  rewrite length_splice by lia. rewrite decide_True by done.
  rewrite <- Hlen at 2. rewrite splice_read_eq by lia. f_equal. rewrite <- to_le_bytes_mod.
  apply from_to_le_bytes. apply Z.mod_pos_bound, Z.pow_pos_nonneg; lia.
Qed.

Lemma mem_read_write_ne n k m off off' v m' :
  0 <= off -> 0 <= off' -> off' + Z.of_nat k <= off \/ off + Z.of_nat n <= off' ->
  mem_write n m off v = Ok m' -> mem_read k m' off' = mem_read k m off'.
Proof.
  intros Hoff Hoff' Hdis. unfold mem_write, mem_read. rewrite !check_access_spec. case_decide as Hin; [|done].
  intros [= <-]. cbn [mem_data].
  assert (Hlen : length (to_le_bytes n v) = n) by apply length_to_le_bytes.
  rewrite length_splice by lia. case_decide; [|done]. do 2 f_equal.
  apply sub_slice_ext. intros i Hi. apply splice_lookup_ne; lia.
Qed.

(** ** Growth *)
Lemma mem_grow_spec m add :
  mem_ok m -> u32 add ->
  let refused := match max_pages m with
                 | Some max => max < mem_pages m + add
                 | None => False
                 end \/ U32_MAX < mem_pages m + add in
  (refused /\ mem_grow add m = (U32_MAX, m)) \/
  (~ refused /\ exists m', mem_grow add m = (mem_pages m, m') /\ mem_ok m' /\
     mem_pages m' = mem_pages m + add /\ max_pages m' = max_pages m /\
     mem_data m' = mem_data m ++ replicate (Z.to_nat (add * WASM_PAGE_SIZE)) 0).
Proof.
  intros Hm Hadd. cbn zeta. destruct (mem_pages_spec m Hm) as [Hlen Hp]. unfold mem_grow.
  unfold u32, U32_MAX in *. destruct (Z.ltb_spec 4294967295 (mem_pages m + add)); [left; split; [by right|done]|].
  destruct (match max_pages m with Some max => max <? mem_pages m + add | None => false end) eqn:Hmax.
  { left. split; [|done]. left. destruct (max_pages m); [lia|done]. }
  right. split.
  { intros [Hr|Hr]; [destruct (max_pages m); [lia|done]|lia]. }
  eexists. split; [done|]. cbn [mem_data max_pages].
  assert (Hr : resize (Z.to_nat ((mem_pages m + add) * WASM_PAGE_SIZE)) 0 (mem_data m) =
    mem_data m ++ replicate (Z.to_nat (add * WASM_PAGE_SIZE)) 0).
  { unfold WASM_PAGE_SIZE in *. rewrite resize_ge by lia. do 2 f_equal. lia. }
  assert (Hok : mem_ok (mkMem (resize (Z.to_nat ((mem_pages m + add) * WASM_PAGE_SIZE)) 0 (mem_data m)) (max_pages m))).
  { split; cbn [mem_data].
    - rewrite Hr, Forall_app. split; [apply Hm|]. apply Forall_replicate. by apply u8_intro.
    - exists (mem_pages m + add). rewrite length_resize. unfold WASM_PAGE_SIZE, u32, U32_MAX in *. lia. }
  split; [done|]. split; [|split; [done|by rewrite Hr]].
  destruct (mem_pages_spec _ Hok) as [H1 _]. cbn [mem_data] in H1. rewrite length_resize in H1.
  unfold WASM_PAGE_SIZE in *. lia.
Qed.

(** ** Theorems *)

(** C22: The linear memory of the WebAssembly interpreter: an access of [n]
    bytes at an offset succeeds exactly when it ends within the memory,
    whatever the offset - otherwise it is [MemoryOutOfBounds] and nothing
    changes; a write is read back (modulo the width), changes no byte outside
    its range and not the size; [memory.grow] either returns [u32::MAX] and
    changes nothing - exactly when the maximum or [u32] would be exceeded - or
    returns the old number of pages and appends zeroed pages. Every operation
    keeps the memory in whole pages of bytes. *)
Theorem linear_memory_correct (m : LinearMemory) (Hm : mem_ok m) :
  (forall n off v, u32 off ->
    if decide (off + Z.of_nat n <= Z.of_nat (length (mem_data m)))
    then exists m', mem_write n m off v = Ok m' /\ mem_ok m' /\
         length (mem_data m') = length (mem_data m) /\
         mem_read n m' off = Ok (v mod 2 ^ (8 * Z.of_nat n)) /\
         forall k off', 0 <= off' -> off' + Z.of_nat k <= off \/ off + Z.of_nat n <= off' ->
           mem_read k m' off' = mem_read k m off'
    else mem_write n m off v = Err MemoryOutOfBounds /\ mem_read n m off = Err MemoryOutOfBounds) /\
  (forall add, u32 add ->
    let refused := match max_pages m with
                   | Some max => max < mem_pages m + add
                   | None => False
                   end \/ U32_MAX < mem_pages m + add in
    (refused /\ mem_grow add m = (U32_MAX, m)) \/
    (~ refused /\ exists m', mem_grow add m = (mem_pages m, m') /\ mem_ok m' /\
       mem_pages m' = mem_pages m + add /\ max_pages m' = max_pages m /\
       mem_data m' = mem_data m ++ replicate (Z.to_nat (add * WASM_PAGE_SIZE)) 0)).
Proof.
  split; [|intros; by apply mem_grow_spec].
  intros n off v Hoff. unfold u32 in Hoff. case_decide as Hin.
  - eexists. split; [apply mem_write_Ok; lia|]. set (m' := mkMem _ _).
    assert (Hw : mem_write n m off v = Ok m') by (apply mem_write_Ok; lia).
    destruct (mem_write_ok n m off v m') as [H1 H2]; [lia|done..|].
    split_and!; [done|done|by eapply mem_read_write_eq; [lia|]|].
    intros k off' Hoff' Hd. eapply mem_read_write_ne; [| | |exact Hw]; lia.
  - unfold mem_write, mem_read. rewrite check_access_spec, decide_False by done. done.
Qed.

Lemma linear_memory_correct_witness :
  mem_ok (mkMem [] (Some 2)) /\ u32 7 /\
  mem_write 4 (mkMem [] (Some 2)) 7 1 = Err MemoryOutOfBounds.
Proof.
  assert (H : mem_ok (mkMem [] (Some 2))) by (split; [constructor|exists 0; split; [done|unfold u32, U32_MAX; lia]]).
  assert (H7 : u32 7) by (unfold u32, U32_MAX; lia).
  split; [exact H|]. split; [exact H7|].
  exact (proj1 (proj1 (linear_memory_correct (mkMem [] (Some 2)) H) 4%nat 7 1 H7)).
Defined.
