(* ===== verification/WasmInterp.v ===== *)
(** * The WebAssembly interpreter ([services/wasm/interpreter.rs])

    The interpreter's state, its instantiation from a parsed module, host
    functions, and the execution of byte code one instruction per round of the
    main loop. A host function is a closure registered from outside: the slots
    of the table hold names, and what a named closure does to the interpreter
    is the parameter [host] of the section. Rust's [Vec] of call frames is kept
    with its last frame first. *)
From S2P Require Import Prelude Bytes WasmTypes Leb128 WasmModule WasmRuntime.

(** A slot of [host_functions]: the closure [|_| Ok(())], or a registered one. *)
Inductive HostFn := HNop | HFn (n : Z).

Record Interp := mkInterp {
  i_stack : list Value;
  i_memory : option LinearMemory;
  i_calls : list CallFrame;
  i_config : InterpreterConfig;
  i_gas : Z;
  i_exit : Z;
  i_module : WasmModule;
  i_hosts : list HostFn;
  i_import_funcs : Z;
  i_globals : list Value;
  i_tables : list (list Z);
  i_named : list (bytes * bytes * Z);
}.

Definition eta_i (i : Interp) : Interp :=
  mkInterp (i_stack i) (i_memory i) (i_calls i) (i_config i) (i_gas i) (i_exit i) (i_module i)
    (i_hosts i) (i_import_funcs i) (i_globals i) (i_tables i) (i_named i).
Definition set_stack (v : list Value) (i : Interp) : Interp := ltac:(setter eta_i i_stack v i).
Definition set_memory (v : option LinearMemory) (i : Interp) : Interp := ltac:(setter eta_i i_memory v i).
Definition set_calls (v : list CallFrame) (i : Interp) : Interp := ltac:(setter eta_i i_calls v i).
Definition set_gas (v : Z) (i : Interp) : Interp := ltac:(setter eta_i i_gas v i).
Definition set_hosts (v : list HostFn) (i : Interp) : Interp := ltac:(setter eta_i i_hosts v i).
Definition set_import_funcs (v : Z) (i : Interp) : Interp := ltac:(setter eta_i i_import_funcs v i).
Definition set_globals (v : list Value) (i : Interp) : Interp := ltac:(setter eta_i i_globals v i).
Definition set_tables (v : list (list Z)) (i : Interp) : Interp := ltac:(setter eta_i i_tables v i).
Definition set_named (v : list (bytes * bytes * Z)) (i : Interp) : Interp := ltac:(setter eta_i i_named v i).

Definition set_pc (p : nat) (f : CallFrame) : CallFrame :=
  mkFrame (func_idx f) (locals f) p (code f) (arity f) (return_pc f) (stack_base f).
Definition set_locals (l : list Value) (f : CallFrame) : CallFrame :=
  mkFrame (func_idx f) l (pc f) (code f) (arity f) (return_pc f) (stack_base f).
Definition set_stack_base (n : nat) (f : CallFrame) : CallFrame :=
  mkFrame (func_idx f) (locals f) (pc f) (code f) (arity f) (return_pc f) n.

(** ** Methods

    [&mut self -> Result<A, WasmError>], with the interpreter as the error
    leaves it. *)
Definition M (A : Type) : Type := Interp -> outcome (result A * Interp).

#[export] Instance M_ret : MRet M := fun A a i => Done (Ok a, i).
#[export] Instance M_bind : MBind M := fun A B k m i =>
  match m i with
  | Done (Ok a, i) => k a i
  | Done (Err e, i) => Done (Err e, i)
  | Panic => Panic
  | Deadlock => Deadlock
  end.

Definition throw {A} (e : WasmError) : M A := fun i => Done (Err e, i).
Definition get {A} (f : Interp -> A) : M A := fun i => Done (Ok (f i), i).
Definition modify (f : Interp -> Interp) : M unit := fun i => Done (Ok tt, f i).
Definition lift {A} (r : result A) : M A := fun i => Done (r, i).
Definition panic {A} : M A := fun _ => Panic.

(** *** The value stack *)
Definition push (v : Value) : M unit :=
  s ← get i_stack; s ← lift (stack_push v s); modify (set_stack s).
Definition pop : M Value :=
  s ← get i_stack; vs ← lift (stack_pop s); _ ← modify (set_stack vs.2); mret vs.1.
Definition pop_i32 : M Z :=
  v ← pop; match v with VI32 v => mret v | _ => throw TypeMismatch end.
Definition pop_i64 : M Z :=
  v ← pop; match v with VI64 v => mret v | _ => throw TypeMismatch end.

(** *** The current frame *)
Definition current_frame : M CallFrame :=
  c ← get i_calls; match c with f :: _ => mret f | [] => throw InternalError end.

Definition put_frame (f : CallFrame) : M unit :=
  modify (fun i => match i_calls i with _ :: c => set_calls (f :: c) i | [] => i end).

Definition advance_pc (amount : nat) : M unit :=
  modify (fun i => match i_calls i with f :: c => set_calls (set_pc (pc f + amount) f :: c) i | [] => i end).

(** Reading operands from [frame.code] at [frame.pc]. *)
Definition read_frame {A} (p : parser A) : M A :=
  f ← current_frame;
  match p (code f) (pc f) with
  | Done (r, pc') => _ ← put_frame (set_pc pc' f); lift r
  | Panic => panic
  | Deadlock => fun _ => Deadlock
  end.

(** [frame.pc += 1] and an operand. *)
Definition operand {A} (p : parser A) : M A := read_frame (_ ← advance 1; p).

(** ** Instantiation *)

(** The loop of [eval_init_expr]; [pos] is the parser's position in the expression. *)
Fixpoint eval_loop (fuel : nat) (globals : list Value) (mini_stack : list Value) : parser (list Value) :=
  match fuel with
  | O => fun _ _ => Deadlock
  | S fuel =>
    pos ← here;
    blen ← input_len;
    if (blen <=? pos)%nat then mret mini_stack else
    b ← peek_byte;
    match b with
    | 0x0B => mret mini_stack
    | 0x41 => _ ← advance 1; v ← read_leb128_i32; eval_loop fuel globals (mini_stack ++ [VI32 v])
    | 0x42 => _ ← advance 1; v ← read_leb128_i64; eval_loop fuel globals (mini_stack ++ [VI64 v])
    | 0x23 =>
      _ ← advance 1;
      idx ← read_leb128_u32;
      eval_loop fuel globals (mini_stack ++ [default (VI32 0) (globals !! Z.to_nat idx)])
    | _ => fail (UnknownOpcode b)
    end
  end.

Definition eval_init_expr (expr : bytes) (globals : list Value) : outcome (result Value) :=
  r ← eval_loop (S (length expr)) globals [] expr 0%nat;
  Done match r.1 with
       | Ok s => match last s with Some v => Ok v | None => Err InternalError end
       | Err e => Err e
       end.

Definition is_function (k : ImportKind) : bool := match k with IFunction _ => true | _ => false end.
Definition import_globals (m : WasmModule) : list GlobalType :=
  omap (fun i => match imp_desc i with IGlobal g => Some g | _ => None end) (m_imports m).
Definition import_tables (m : WasmModule) : list TableType :=
  omap (fun i => match imp_desc i with ITable t => Some t | _ => None end) (m_imports m).
Definition import_memories (m : WasmModule) : list MemoryType :=
  omap (fun i => match imp_desc i with IMemory t => Some t | _ => None end) (m_imports m).

(** The configured limit caps a declared maximum and stands in for a missing one. *)
Definition cap_max (c : InterpreterConfig) (declared : option Z) : option Z :=
  Some match declared with Some d => Z.min d (max_memory_pages c) | None => max_memory_pages c end.

Definition new_memory (m : WasmModule) (c : InterpreterConfig) : option LinearMemory :=
  match head (import_memories m ++ m_memories m) with
  | Some t => Some (mem_new (lim_min (mt_limits t)) (cap_max c (lim_max (mt_limits t))))
  | None => None
  end.

(** [for (gi, (_, init_expr)) in module_globals.iter().enumerate()] *)
Fixpoint init_globals (l : list (GlobalType * bytes)) (idx : nat) (globals : list Value) : outcome (list Value) :=
  match l with
  | [] => Done globals
  | (_, expr) :: l =>
    r ← eval_init_expr expr globals;
    init_globals l (S idx) (match r with Ok v => <[idx := v]> globals | Err _ => globals end)
  end.

(** An offset is an [i32] cast to [usize]: the sums wrap at 64 bits. A range
    whose end wrapped below its start panics when it is sliced, one of another
    length than the data when it is copied into. *)
Definition apply_data_segment (globals : list Value) (mem : option LinearMemory) (seg : DataSegment) :
    outcome (option LinearMemory) :=
  match ds_offset seg with
  | [] => Done mem
  | _ =>
    r ← eval_init_expr (ds_offset seg) globals;
    match r, mem with
    | Ok (VI32 offset), Some m =>
      let addr := wrap_u64 offset in
      let seg_end := wrap_u64 (addr + Z.of_nat (length (ds_data seg))) in
      if Z.of_nat (length (mem_data m)) <? seg_end then Done mem else
      if (seg_end <? addr) || negb (seg_end - addr =? Z.of_nat (length (ds_data seg))) then Panic else
      Done (Some (mkMem (splice (mem_data m) (Z.to_nat addr) (ds_data seg)) (max_pages m)))
    | _, _ => Done mem
    end
  end.

Definition write_elements (base : Z) (fs : list Z) (table : list Z) : list Z :=
  foldl (fun t p => let target := wrap_u64 (base + Z.of_nat p.1) in
                    if target <? Z.of_nat (length table) then <[Z.to_nat target := p.2]> t else t)
        table (zip (seq 0 (length fs)) fs).

Definition apply_element_segment (globals : list Value) (tables : list (list Z)) (seg : ElementSegment) :
    outcome (list (list Z)) :=
  match es_funcs seg, es_offset seg, tables !! Z.to_nat (es_table seg) with
  | _ :: _, _ :: _, Some table =>
    r ← eval_init_expr (es_offset seg) globals;
    match r with
    | Ok (VI32 offset) =>
      Done (<[Z.to_nat (es_table seg) := write_elements (wrap_u64 offset) (es_funcs seg) table]> tables)
    | _ => Done tables
    end
  | _, _, _ => Done tables
  end.

Definition new_interp (m : WasmModule) (c : InterpreterConfig) : outcome Interp :=
  let globals := (fun g => default_for (content_type g)) <$> import_globals m ++ (m_globals m).*1 in
  let tables := (fun t => replicate (Z.to_nat (lim_min (tt_limits t))) 0) <$> import_tables m ++ m_tables m in
  globals ← init_globals (m_globals m) (length (import_globals m)) globals;
  mem ← ofold (m_data m) (new_memory m c) (apply_data_segment globals);
  tables ← ofold (m_elements m) tables (apply_element_segment globals);
  Done (mkInterp [] mem [] c 0 0 m []
    (wrap_u32 (Z.of_nat (count_if (fun i => is_function (imp_desc i)) (m_imports m)))) globals tables []).

Definition instantiate (bs : bytes) (c : InterpreterConfig) : outcome (result Interp) :=
  r ← parse_wasm bs;
  match r with
  | Ok m => i ← new_interp m c; Done (Ok i)
  | Err e => Done (Err e)
  end.

(** ** Host functions *)
Definition register_host_function (f : HostFn) (i : Interp) : Interp := set_hosts (i_hosts i ++ [f]) i.

(** [BTreeMap::insert] and [get], as an association list. *)
Definition named_insert (m n : bytes) (idx : Z) (l : list (bytes * bytes * Z)) : list (bytes * bytes * Z) :=
  (m, n, idx) :: List.filter (fun e => negb (bool_decide (e.1 = (m, n)))) l.
Definition named_get (m n : bytes) (l : list (bytes * bytes * Z)) : option Z :=
  snd <$> find_first (fun e => bool_decide (e.1 = (m, n))) l.

Definition register_named_host_function (m n : bytes) (f : HostFn) (i : Interp) : Interp :=
  let idx := Z.of_nat (length (i_hosts i)) in
  set_named (named_insert m n idx (i_named i)) (register_host_function f i).

(** [Vec::swap]: an index outside the vector panics. *)
Definition vec_swap (a b : nat) (l : list HostFn) : outcome (list HostFn) :=
  match l !! a, l !! b with
  | Some x, Some y => Done (<[b := x]> (<[a := y]> l))
  | _, _ => Panic
  end.

(** "wasi_snapshot_preview1" *)
Definition wasi_module : bytes :=
  [119; 97; 115; 105; 95; 115; 110; 97; 112; 115; 104; 111; 116; 95; 112; 114; 101; 118; 105; 101; 119; 49].

(** [core::str::from_utf8]: well-formed UTF-8, by the table of the Unicode standard. *)
Definition utf8_tail (b : Z) : bool := (0x80 <=? b) && (b <=? 0xBF).
Fixpoint utf8_valid (fuel : nat) (l : bytes) : bool :=
  match fuel with
  | O => true
  | S fuel =>
    match l with
    | [] => true
    | b :: l =>
      if b <? 0x80 then utf8_valid fuel l
      else match l with
      | [] => false
      | c :: l =>
        if (0xC2 <=? b) && (b <=? 0xDF) then utf8_tail c && utf8_valid fuel l
        else match l with
        | [] => false
        | d :: l =>
          if (b =? 0xE0) && (0xA0 <=? c) && (c <=? 0xBF) ||
             (0xE1 <=? b) && (b <=? 0xEC) && utf8_tail c ||
             (b =? 0xED) && (0x80 <=? c) && (c <=? 0x9F) ||
             (0xEE <=? b) && (b <=? 0xEF) && utf8_tail c
          then utf8_tail d && utf8_valid fuel l
          else match l with
          | [] => false
          | e :: l =>
            ((b =? 0xF0) && (0x90 <=? c) && (c <=? 0xBF) ||
             (0xF1 <=? b) && (b <=? 0xF3) && utf8_tail c ||
             (b =? 0xF4) && (0x80 <=? c) && (c <=? 0x8F)) &&
            utf8_tail d && utf8_tail e && utf8_valid fuel l
          end
        end
      end
    end
  end.
Definition from_utf8_or_empty (l : bytes) : bytes := if utf8_valid (length l) l then l else [].

(** One import of the loop of [auto_register_wasi]; [func_idx] counts the
    function imports seen. *)
Definition auto_register_import (named : list (bytes * bytes * Z)) (st : list HostFn * nat) (imp : ImportDesc) :
    outcome (list HostFn * nat) :=
  let '(hosts, func_idx) := st in
  if negb (is_function (imp_desc imp)) then Done st else
  let module_name := from_utf8_or_empty (imp_module imp) in
  let func_name := from_utf8_or_empty (imp_name imp) in
  hosts ←
    (if bool_decide (module_name = wasi_module) then
       match named_get module_name func_name named with
       | Some idx =>
         let hosts := hosts ++ replicate (S func_idx - length hosts) HNop in
         vec_swap func_idx (Z.to_nat idx) hosts
       | None => Done hosts
       end
     else Done hosts);
  Done (hosts, S func_idx).

Definition auto_register_wasi (i : Interp) : outcome Interp :=
  st ← ofold (m_imports (i_module i)) (i_hosts i, O) (auto_register_import (i_named i));
  Done (set_import_funcs (wrap_u32 (Z.of_nat st.2)) (set_hosts st.1 i)).

(** ** Functions *)
Definition find_export (i : Interp) (name : bytes) : option Z :=
  exp_index <$> find_first (fun e => bool_decide (exp_name e = name) && bool_decide (exp_kind e = EFunction))
    (m_exports (i_module i)).

Definition import_type_indices (m : WasmModule) : list Z :=
  omap (fun i => match imp_desc i with IFunction t => Some t | _ => None end) (m_imports m).

Definition get_func_type (f : Z) (i : Interp) : result FuncType :=
  let type_at t := match m_types (i_module i) !! Z.to_nat t with
                   | Some ft => Ok ft
                   | None => Err (BadTypeIndex t)
                   end in
  if f <? i_import_funcs i then
    match import_type_indices (i_module i) !! Z.to_nat f with
    | Some t => type_at t
    | None => Err (BadFuncIndex f)
    end
  else
    match m_functions (i_module i) !! Z.to_nat (f - i_import_funcs i) with
    | Some t => type_at t
    | None => Err (BadFuncIndex f)
    end.

Definition get_func_body (f : Z) (i : Interp) : result FunctionBody :=
  if f <? i_import_funcs i then Err FunctionNotFound else
  match m_code (i_module i) !! Z.to_nat (f - i_import_funcs i) with
  | Some b => Ok b
  | None => Err (BadFuncIndex f)
  end.

(** [for (count, ty) in &body.locals { for _ in 0..*count { ... } }] *)
Definition default_locals (b : FunctionBody) : list Value :=
  flat_map (fun p => replicate (Z.to_nat p.1) (default_for p.2)) (fb_locals b).

(** ** Skipping over nested blocks *)

(** The loop of [skip_block] and [skip_to_end]; [to_else] makes it the one of
    [skip_to_else_or_end], which also stops at an [else] of its own block. *)
Fixpoint skip_loop (to_else : bool) (fuel : nat) (code : bytes) (pc : nat) (depth : Z) : nat :=
  match fuel with
  | O => pc
  | S fuel =>
    match code !! pc with
    | None => pc
    | Some b =>
      if depth <=? 0 then pc else
      let pc := S pc in
      match b with
      | 0x02 | 0x03 | 0x04 => skip_loop to_else fuel code pc (depth + 1)
      | 0x0B => skip_loop to_else fuel code pc (depth - 1)
      | 0x05 => if to_else && (depth =? 1) then pc else skip_loop to_else fuel code pc depth
      | 0x10 => skip_loop to_else fuel code (pc + 1) depth
      | 0x11 => skip_loop to_else fuel code (pc + 2) depth
      | _ => skip_loop to_else fuel code pc depth
      end
    end
  end.

(** Every round moves the position forward. *)
Definition skip_block (code : bytes) (pc : nat) : nat := skip_loop false (length code - pc) code pc 1.
Definition skip_to_end (code : bytes) (pc : nat) : nat := skip_loop false (length code - pc) code pc 1.
Definition skip_to_else_or_end (code : bytes) (pc : nat) : nat :=
  skip_loop true (length code - pc) code pc 1.

(** ** Arithmetic

    [iN] values are signed; the unsigned operations cast. *)
Definition b2i (b : bool) : Z := if b then 1 else 0.
Definition wrapping_add (w a b : Z) : Z := as_signed w (a + b).
Definition wrapping_sub (w a b : Z) : Z := as_signed w (a - b).
Definition wrapping_mul (w a b : Z) : Z := as_signed w (a * b).
Definition i32_shl (a b : Z) : Z := as_signed 32 (Z.shiftl a (b mod 32)).
Definition i32_shr_s (a b : Z) : Z := Z.shiftr a (b mod 32).
Definition i32_shr_u (a b : Z) : Z := as_signed 32 (Z.shiftr (wrap_u32 a) (b mod 32)).

Definition i32_unop (f : Z -> Z) : M unit := _ ← advance_pc 1; a ← pop_i32; push (VI32 (f a)).
Definition i32_binop (f : Z -> Z -> Z) : M unit :=
  _ ← advance_pc 1; b ← pop_i32; a ← pop_i32; push (VI32 (f a b)).
Definition i64_binop (f : Z -> Z -> Z) : M unit :=
  _ ← advance_pc 1; b ← pop_i64; a ← pop_i64; push (VI64 (f a b)).

Definition i32_div_s : M unit :=
  _ ← advance_pc 1; b ← pop_i32; a ← pop_i32;
  if b =? 0 then throw DivisionByZero
  else if (a =? - 2 ^ 31) && (b =? -1) then throw IntegerOverflow
  else push (VI32 (Z.quot a b)).
Definition i32_div_u : M unit :=
  _ ← advance_pc 1; b ← pop_i32; a ← pop_i32;
  if b =? 0 then throw DivisionByZero
  else push (VI32 (as_signed 32 (wrap_u32 a / wrap_u32 b))).
Definition i32_rem_s : M unit :=
  _ ← advance_pc 1; b ← pop_i32; a ← pop_i32;
  if b =? 0 then throw DivisionByZero
  else if (a =? - 2 ^ 31) && (b =? -1) then throw IntegerOverflow
  else push (VI32 (Z.rem a b)).
Definition i32_rem_u : M unit :=
  _ ← advance_pc 1; b ← pop_i32; a ← pop_i32;
  if b =? 0 then throw DivisionByZero
  else push (VI32 (as_signed 32 (wrap_u32 a mod wrap_u32 b))).
Definition i64_div_s : M unit :=
  _ ← advance_pc 1; b ← pop_i64; a ← pop_i64;
  if b =? 0 then throw DivisionByZero
  else if (a =? - 2 ^ 63) && (b =? -1) then throw IntegerOverflow
  else push (VI64 (Z.quot a b)).

(** ** Variables and constants *)
Definition local_get : M unit :=
  idx ← operand read_leb128_u32;
  f ← current_frame;
  push (default (VI32 0) (locals f !! Z.to_nat idx)).
Definition store_local (idx : Z) (v : Value) : M unit :=
  f ← current_frame; put_frame (set_locals (<[Z.to_nat idx := v]> (locals f)) f).
Definition local_set : M unit :=
  v ← pop; idx ← operand read_leb128_u32; store_local idx v.
Definition local_tee : M unit :=
  s ← get i_stack;
  v ← match stack_peek s with Some v => mret v | None => throw StackUnderflow end;
  idx ← operand read_leb128_u32;
  store_local idx v.
Definition global_get : M unit :=
  idx ← operand read_leb128_u32;
  g ← get i_globals;
  push (default (VI32 0) (g !! Z.to_nat idx)).
Definition global_set : M unit :=
  v ← pop;
  idx ← operand read_leb128_u32;
  modify (fun i => set_globals (<[Z.to_nat idx := v]> (i_globals i)) i).
Definition i32_const : M unit := v ← operand read_leb128_i32; push (VI32 v).
Definition i64_const : M unit := v ← operand read_leb128_i64; push (VI64 v).

(** ** Memory instructions *)

(** [base.checked_add(mem_offset)] *)
Definition address (base mem_offset : Z) : M Z :=
  let addr := wrap_u32 base + mem_offset in
  if U32_MAX <? addr then throw MemoryOutOfBounds else mret addr.

(** The alignment and offset operands. *)
Definition mem_operands : M Z :=
  _ ← operand read_leb128_u32; read_frame read_leb128_u32.

Definition the_memory : M LinearMemory :=
  m ← get i_memory; match m with Some m => mret m | None => throw MemoryOutOfBounds end.

Definition memory_load (size : Z) : M unit :=
  mem_offset ← mem_operands;
  base ← pop_i32;
  addr ← address base mem_offset;
  mem ← the_memory;
  match size with
  | 4 => v ← lift (mem_read_u32 mem addr); push (VI32 (as_signed 32 v))
  | _ => throw InternalError
  end.
Definition memory_load_64 : M unit :=
  mem_offset ← mem_operands;
  base ← pop_i32;
  addr ← address base mem_offset;
  mem ← the_memory;
  v ← lift (mem_read_u64 mem addr); push (VI64 (as_signed 64 v)).
Definition memory_load_ext (size : Z) (is_signed : bool) : M unit :=
  mem_offset ← mem_operands;
  base ← pop_i32;
  addr ← address base mem_offset;
  mem ← the_memory;
  match size with
  | 1 => v ← lift (mem_read_u8 mem addr); push (VI32 (if is_signed then as_signed 8 v else v))
  | 2 => v ← lift (mem_read_u16 mem addr); push (VI32 (if is_signed then as_signed 16 v else v))
  | _ => throw InternalError
  end.
Definition memory_store (size : Z) : M unit :=
  mem_offset ← mem_operands;
  value ← pop_i32;
  base ← pop_i32;
  addr ← address base mem_offset;
  mem ← the_memory;
  match size with
  | 4 => mem ← lift (mem_write_u32 mem addr (wrap_u32 value)); modify (set_memory (Some mem))
  | _ => throw InternalError
  end.
Definition memory_store_64 : M unit :=
  mem_offset ← mem_operands;
  value ← pop_i64;
  base ← pop_i32;
  addr ← address base mem_offset;
  mem ← the_memory;
  mem ← lift (mem_write_u64 mem addr (wrap_u64 value)); modify (set_memory (Some mem)).
Definition memory_store_n (size : Z) : M unit :=
  mem_offset ← mem_operands;
  value ← pop_i32;
  base ← pop_i32;
  addr ← address base mem_offset;
  mem ← the_memory;
  match size with
  | 1 => mem ← lift (mem_write_u8 mem addr (wrap 8 value)); modify (set_memory (Some mem))
  | 2 => mem ← lift (mem_write_u16 mem addr (wrap 16 value)); modify (set_memory (Some mem))
  | _ => throw InternalError
  end.
Definition memory_size : M unit :=
  _ ← advance_pc 1;
  m ← get i_memory;
  push (VI32 (as_signed 32 match m with Some m => mem_pages m | None => 0 end)).
Definition memory_grow : M unit :=
  _ ← advance_pc 1;
  pages ← pop_i32;
  m ← get i_memory;
  result ← match m with
           | Some m => let '(r, m) := mem_grow (wrap_u32 pages) m in
                       _ ← modify (set_memory (Some m)); mret r
           | None => mret U32_MAX
           end;
  push (VI32 (as_signed 32 result)).

(** ** Control flow *)
Definition execute_end : M unit :=
  c ← get i_calls;
  match c with
  | [] => throw InternalError
  | f :: c =>
    _ ← modify (set_calls c);
    if (arity f =? 1)%nat then
      s ← get i_stack; f2 ← current_frame; put_frame (set_stack_base (length s) f2)
    else mret tt
  end.

(** Frames are popped up to and including the first of arity 0. *)
Fixpoint pop_to_arity_0 (c : list CallFrame) : list CallFrame :=
  match c with
  | [] => []
  | f :: c => if (arity f =? 0)%nat then c else pop_to_arity_0 c
  end.
Definition execute_return : M unit := modify (fun i => set_calls (pop_to_arity_0 (i_calls i)) i).

(** [frame.code[frame.pc]; frame.pc += 1]: an index past the code panics. *)
Definition code_byte : M Z := read_frame next_byte.

Definition execute_if : M unit :=
  cond ← pop_i32;
  _ ← current_frame;
  _ ← advance_pc 1;
  byte ← code_byte;
  if cond =? 0 then
    f ← current_frame;
    if byte =? 0x40 then put_frame (set_pc (skip_block (code f) (pc f)) f)
    else put_frame (set_pc (skip_to_else_or_end (code f) (pc f - 1)) f)
  else mret tt.
Definition execute_else : M unit :=
  f ← current_frame; put_frame (set_pc (skip_to_end (code f) (pc f)) f).

(** [target] frames stay. *)
Definition unwind_to (depth : Z) : M unit :=
  modify (fun i =>
    let target := Z.to_nat (sat_sub (Z.of_nat (length (i_calls i))) (depth + 1)) in
    set_calls (drop (length (i_calls i) - target) (i_calls i)) i).
Definition execute_br : M unit := depth ← operand read_leb128_u32; unwind_to depth.
Definition execute_br_if : M unit :=
  cond ← pop_i32;
  depth ← operand read_leb128_u32;
  if cond =? 0 then mret tt else unwind_to depth.

(** The [n] targets and the default one. *)
Definition br_targets : parser (list Z * Z) :=
  _ ← advance 1;
  n ← read_leb128_u32;
  targets ← pvec (Z.to_nat n) read_leb128_u32;
  last ← read_leb128_u32;
  mret (targets, last).
Definition execute_br_table : M unit :=
  index ← pop_i32;
  t ← read_frame br_targets;
  unwind_to (if (0 <=? index) && (index <? Z.of_nat (length t.1))
             then nth (Z.to_nat index) t.1 t.2 else t.2).

(** ** Calls *)
Section host.
(** What a registered closure does when it is called on the interpreter. *)
Context (host : Z -> M unit).

Definition run_closure (h : HostFn) : M unit :=
  match h with HNop => mret tt | HFn n => host n end.

(** The closure is replaced by a no-op while it runs and put back before its
    result is looked at. *)
Definition call_host (host_idx : nat) : M unit := fun i =>
  match i_hosts i !! host_idx with
  | None => Done (Ok tt, i)
  | Some f =>
    match run_closure f (set_hosts (<[host_idx := HNop]> (i_hosts i)) i) with
    | Done (r, i) =>
      if (length (i_hosts i) <=? host_idx)%nat then Panic
      else Done (r, set_hosts (<[host_idx := f]> (i_hosts i)) i)
    | Panic => Panic
    | Deadlock => Deadlock
    end
  end.

Fixpoint push_all (l : list Value) : M unit :=
  match l with [] => mret tt | v :: l => _ ← push v; push_all l end.

(** The operands of a call, by index from [stack_len - param_count], which
    wraps when the stack is too short. *)
Definition call_args (s : list Value) (param_count : nat) : list Value :=
  (fun k => let idx := wrap_u64 (wrap_u64 (Z.of_nat (length s) - Z.of_nat param_count) + Z.of_nat k) in
            if idx <? Z.of_nat (length s) then nth (Z.to_nat idx) s (VI32 0) else VI32 0)
  <$> seq 0 param_count.

Definition execute_call : M unit :=
  f ← operand read_leb128_u32;
  r ← get (get_func_type f);
  func_type ← lift r;
  let param_count := length (ft_params func_type) in
  s ← get i_stack;
  let args := call_args s param_count in
  _ ← modify (set_stack (drain_to (wrap_u64 (Z.of_nat (length s) - Z.of_nat param_count)) s));
  n ← get i_import_funcs;
  let enter :=
    r ← get (get_func_body f);
    body ← lift r;
    modify (fun i => set_calls
      (mkFrame f (args ++ default_locals body) 0 (fb_code body) (length (ft_results func_type)) 0
         (length (i_stack i)) :: i_calls i) i) in
  if f <? n then
    _ ← push_all args;
    _ ← call_host (Z.to_nat f);
    if (length (ft_results func_type) <=? 1)%nat then mret tt else enter
  else enter.

(** ** One instruction *)
Definition exec_op (o : Opcode) : M unit :=
  match o with
  | Unreachable => throw UnreachableTrap
  | Nop | Block | Loop => advance_pc 1
  | End => execute_end
  | Return => execute_return
  | If => execute_if
  | Else => execute_else
  | Br => execute_br
  | BrIf => execute_br_if
  | BrTable => execute_br_table
  | Call => execute_call
  | CallIndirect => throw UnreachableTrap
  | Drop => _ ← advance_pc 1; _ ← pop; mret tt
  | Select =>
    _ ← advance_pc 1;
    cond ← pop_i32; val2 ← pop; val1 ← pop; push (if cond =? 0 then val2 else val1)
  | LocalGet => local_get
  | LocalSet => local_set
  | LocalTee => local_tee
  | GlobalGet => global_get
  | GlobalSet => global_set
  | I32Load => memory_load 4
  | I64Load => memory_load_64
  | I32Load8S => memory_load_ext 1 true
  | I32Load8U => memory_load_ext 1 false
  | I32Load16S => memory_load_ext 2 true
  | I32Load16U => memory_load_ext 2 false
  | I32Store => memory_store 4
  | I64Store => memory_store_64
  | I32Store8 => memory_store_n 1
  | I32Store16 => memory_store_n 2
  | MemorySize => memory_size
  | MemoryGrow => memory_grow
  | I32Const => i32_const
  | I64Const => i64_const
  | I32Eqz => i32_unop (fun a => b2i (a =? 0))
  | I32Eq => i32_binop (fun a b => b2i (a =? b))
  | I32Ne => i32_binop (fun a b => b2i (negb (a =? b)))
  | I32LtS => i32_binop (fun a b => b2i (a <? b))
  | I32LtU => i32_binop (fun a b => b2i (wrap_u32 a <? wrap_u32 b))
  | I32GtS => i32_binop (fun a b => b2i (b <? a))
  | I32GtU => i32_binop (fun a b => b2i (wrap_u32 b <? wrap_u32 a))
  | I32LeS => i32_binop (fun a b => b2i (a <=? b))
  | I32LeU => i32_binop (fun a b => b2i (wrap_u32 a <=? wrap_u32 b))
  | I32GeS => i32_binop (fun a b => b2i (b <=? a))
  | I32GeU => i32_binop (fun a b => b2i (wrap_u32 b <=? wrap_u32 a))
  | I32Add => i32_binop (wrapping_add 32)
  | I32Sub => i32_binop (wrapping_sub 32)
  | I32Mul => i32_binop (wrapping_mul 32)
  | I32DivS => i32_div_s
  | I32DivU => i32_div_u
  | I32RemS => i32_rem_s
  | I32RemU => i32_rem_u
  | I32And => i32_binop Z.land
  | I32Or => i32_binop Z.lor
  | I32Xor => i32_binop Z.lxor
  | I32Shl => i32_binop i32_shl
  | I32ShrS => i32_binop i32_shr_s
  | I32ShrU => i32_binop i32_shr_u
  | I64Add => i64_binop (wrapping_add 64)
  | I64Sub => i64_binop (wrapping_sub 64)
  | I64Mul => i64_binop (wrapping_mul 64)
  | I64DivS => i64_div_s
  | I64And => i64_binop Z.land
  | I64Or => i64_binop Z.lor
  | o => throw (UnknownOpcode (opcode_byte o))
  end.

(** ** The main loop

    [while self.call_stack.last().is_some()]: a frame at the end of its code is
    popped; otherwise one unit of gas pays for one instruction. *)
Fixpoint run_loop (fuel : nat) : M unit :=
  match fuel with
  | O => fun _ => Deadlock
  | S fuel => fun i =>
    match i_calls i with
    | [] => Done (Ok tt, i)
    | f :: c =>
      match code f !! pc f with
      | None => run_loop fuel (set_calls c i)
      | Some opcode =>
        let i := set_gas (wrap_u64 (i_gas i + 1)) i in
        if max_gas (i_config i) <? i_gas i then Done (Err GasExhausted, i) else
        match opcode_from_byte opcode with
        | None => Done (Err (UnknownOpcode opcode), i)
        | Some o => (_ ← exec_op o; run_loop fuel) i
        end
      end
    end
  end.

(** The loop in front of it only reads: it ends at once or never. *)
Definition execute_call_stack (fuel : nat) : M unit := fun i =>
  match i_calls i with
  | f :: _ => if (pc f <? length (code f))%nat then Deadlock else run_loop fuel i
  | [] => run_loop fuel i
  end.

Definition call_func (fuel : nat) (f : Z) (args : list Value) : M (option Value) :=
  n ← get i_import_funcs;
  r ← get (get_func_type f);
  func_type ← lift r;
  let param_count := length (ft_params func_type) in
  let result_count := length (ft_results func_type) in
  if f <? n then
    _ ← push_all (take param_count args);
    _ ← call_host (Z.to_nat f);
    if (result_count =? 1)%nat then v ← pop; mret (Some v) else mret None
  else
    r ← get (get_func_body f);
    body ← lift r;
    i ← get id;
    if max_call_depth (i_config i) <=? wrap_u32 (Z.of_nat (length (i_calls i))) then throw CallDepthExceeded else
    let args := take param_count args in
    let locals := args ++ replicate (param_count - length args) (VI32 0) ++ default_locals body in
    let stack_base := length (i_stack i) in
    _ ← modify (set_calls (mkFrame f locals 0 (fb_code body) result_count 0 stack_base :: i_calls i));
    _ ← execute_call_stack fuel;
    c ← get i_calls;
    match c with
    | [] => mret None
    | _ :: c =>
      _ ← modify (set_calls c);
      s ← get i_stack;
      let actual_results := wrap_u64 (Z.of_nat (length s) - Z.of_nat stack_base) in
      if (result_count =? 1)%nat && (1 <=? actual_results) then
        v ← pop;
        _ ← modify (fun i => set_stack (drain_to (Z.of_nat stack_base) (i_stack i)) i);
        mret (Some v)
      else
        _ ← modify (set_stack (drain_to (Z.of_nat stack_base) s));
        mret None
    end.

Definition call (fuel : nat) (name : bytes) (args : list Value) : M (option Value) :=
  i ← get id;
  match find_export i name with
  | Some f => call_func fuel f args
  | None => throw BadExport
  end.
End host.
