(* ===== verification/WasmSpec.v ===== *)
(** * What the WebAssembly interpreter keeps

    The invariant of the interpreter's state, kept by every instruction for
    every byte code; the gas bound of the main loop; and what calling a
    function from outside amounts to. *)
From S2P Require Import Prelude Bytes WasmTypes Leb128 WasmModule WasmRuntime WasmInterp.

(** ** Signed arithmetic *)
Lemma signed_shiftr w z : 0 < w -> signed w z <-> Z.shiftr z (w - 1) = 0 \/ Z.shiftr z (w - 1) = -1.
Proof.
  intros Hw. unfold signed. rewrite Z.shiftr_div_pow2 by lia.
  assert (Hp : 0 < 2 ^ (w - 1)) by (apply Z.pow_pos_nonneg; lia).
  pose proof (Z.div_mod z (2 ^ (w - 1))) as Hd. pose proof (Z.mod_pos_bound z (2 ^ (w - 1))) as Hm. split.
  - intros [H1 H2]. destruct (decide (0 <= z)); [left; apply Z.div_small; lia|right].
    symmetry. apply Z.div_unique with (z + 2 ^ (w - 1)); lia.
  - intros [E|E]; rewrite E in *; lia.
Qed.

Lemma signed_land w a b : 0 < w -> signed w a -> signed w b -> signed w (Z.land a b).
Proof. intros Hw. rewrite !signed_shiftr, Z.shiftr_land by done. by intros [->| ->] [->| ->]; simpl; auto. Qed.
Lemma signed_lor w a b : 0 < w -> signed w a -> signed w b -> signed w (Z.lor a b).
Proof. intros Hw. rewrite !signed_shiftr, Z.shiftr_lor by done. by intros [->| ->] [->| ->]; simpl; auto. Qed.
Lemma signed_lxor w a b : 0 < w -> signed w a -> signed w b -> signed w (Z.lxor a b).
Proof. intros Hw. rewrite !signed_shiftr, Z.shiftr_lxor by done. by intros [->| ->] [->| ->]; simpl; auto. Qed.

Lemma signed_div_pos w a k : 0 < w -> 0 <= k -> signed w a -> signed w (Z.shiftr a k).
Proof.
  intros Hw Hk. unfold signed. rewrite Z.shiftr_div_pow2 by lia.
  assert (Hk2 : 0 < 2 ^ k) by (apply Z.pow_pos_nonneg; lia). intros [H1 H2].
  split; [apply Z.div_le_lower_bound; nia|]. apply Z.div_lt_upper_bound; nia.
Qed.

Lemma signed_quot w a b :
  0 < w -> signed w a -> b <> 0 -> ~ (a = - 2 ^ (w - 1) /\ b = -1) -> signed w (Z.quot a b).
Proof.
  intros Hw [H1 H2] Hb Hne. unfold signed. pose proof (Z.quot_rem a b Hb). 
  assert (0 < 2 ^ (w - 1)) by (apply Z.pow_pos_nonneg; lia).
  destruct (decide (b = -1)) as [->|]; [replace (Z.quot a (-1)) with (- a) by (change (-1) with (- (1)); rewrite Z.quot_opp_r, Z.quot_1_r by done; done); lia|].
  destruct (decide (b = 1)) as [->|]; [rewrite Z.quot_1_r; lia|].
  assert (Ha : Z.abs (Z.quot a b) <= Z.abs a / 2).
  { rewrite <- Z.quot_abs by done. rewrite Z.quot_div_nonneg by lia. apply Z.div_le_compat_l; lia. }
  pose proof (Z.div_mod (Z.abs a) 2). pose proof (Z.mod_pos_bound (Z.abs a) 2). lia.
Qed.

Lemma signed_rem w a b : 0 < w -> signed w a -> b <> 0 -> signed w (Z.rem a b).
Proof.
  intros Hw [H1 H2] Hb. unfold signed.
  assert (Z.abs (Z.rem a b) <= Z.abs a /\ 0 <= Z.rem a b * a).
  { split; [|apply Z.rem_sign_mul; done]. rewrite <- Z.rem_abs by done. apply Z.rem_le; lia. }
  assert (0 < 2 ^ (w - 1)) by (apply Z.pow_pos_nonneg; lia). nia.
Qed.

Lemma signed_b2i b : signed 32 (b2i b).
Proof. unfold signed. destruct b; simpl; lia. Qed.

(** ** The invariant *)
Definition value_ok (v : Value) : Prop :=
  match v with VI32 v => signed 32 v | VI64 v => signed 64 v | VF32 v => u32 v | VF64 v => u64 v end.

Definition stack_ok (s : list Value) : Prop := (length s <= STACK_LIMIT)%nat /\ Forall value_ok s.
Definition frame_ok (f : CallFrame) : Prop := Forall value_ok (locals f) /\ Forall u8 (code f).
Definition memory_ok (m : option LinearMemory) : Prop := from_option mem_ok True m.

Definition interp_ok (i : Interp) : Prop :=
  stack_ok (i_stack i) /\ memory_ok (i_memory i) /\ Forall frame_ok (i_calls i) /\
  Forall value_ok (i_globals i) /\ Forall (fun b => Forall u8 (fb_code b)) (m_code (i_module i)).

(** Memory only grows, and never beyond its maximum. *)
Definition memory_grows (m m' : option LinearMemory) : Prop :=
  match m, m' with
  | None, None => True
  | Some m, Some m' =>
    max_pages m' = max_pages m /\ mem_pages m <= mem_pages m' /\
    match max_pages m with Some max => mem_pages m' <= Z.max (mem_pages m) max | None => True end
  | _, _ => False
  end.

(** What one instruction changes: [d] more frames at most. *)
Definition steps (d : nat) (i i' : Interp) : Prop :=
  i_config i' = i_config i /\ i_gas i' = i_gas i /\ i_module i' = i_module i /\
  (length (i_calls i') <= length (i_calls i) + d)%nat /\
  memory_grows (i_memory i) (i_memory i').

Lemma memory_grows_refl m : memory_grows m m.
Proof. destruct m as [m|]; [|done]. simpl. split_and!; [done|lia|]. destruct (max_pages m); [lia|done]. Qed.

Lemma memory_grows_trans m1 m2 m3 : memory_grows m1 m2 -> memory_grows m2 m3 -> memory_grows m1 m3.
Proof.
  destruct m1 as [m1|], m2 as [m2|], m3 as [m3|]; simpl; try done.
  intros (E1 & H1 & M1) (E2 & H2 & M2). rewrite E1 in *. split_and!; [done|lia|].
  destruct (max_pages m1); [lia|done].
Qed.

Lemma steps_refl_le d i : steps d i i.
Proof. unfold steps. split_and!; [done..|lia|apply memory_grows_refl]. Qed.

Lemma steps_le d d' i i' : (d <= d')%nat -> steps d i i' -> steps d' i i'.
Proof. intros Hd (C & G & Mo & L & H). unfold steps. split_and!; [done..|lia|done]. Qed.

Lemma steps_trans d d' i1 i2 i3 : steps d i1 i2 -> steps d' i2 i3 -> steps (d + d') i1 i3.
Proof.
  intros (C1 & G1 & M1 & L1 & H1) (C2 & G2 & M2 & L2 & H2). unfold steps.
  split_and!; [congruence..|lia|by eapply memory_grows_trans].
Qed.

(** [m] keeps the invariant and returns values that satisfy [Q]; it may panic,
    it does not loop. *)
Definition keeps {A} (d : nat) (Q : A -> Prop) (m : M A) : Prop :=
  forall i, interp_ok i ->
  match m i with
  | Done (r, i') => interp_ok i' /\ steps d i i' /\ match r with Ok a => Q a | Err _ => True end
  | Panic => True
  | Deadlock => False
  end.

Definition any {A} (_ : A) : Prop := True.

Lemma keeps_ret {A} d (Q : A -> Prop) a : Q a -> keeps d Q (mret a).
Proof.
  intros Ha i Hi. split_and!; [done| |done]. apply steps_refl_le.
Qed.

Lemma keeps_bind {A B} d (Q : A -> Prop) (Q' : B -> Prop) m (k : A -> M B) :
  keeps 0 Q m -> (forall a, Q a -> keeps d Q' (k a)) -> keeps d Q' (m ≫= k).
Proof.
  intros Hm Hk i Hi. specialize (Hm i Hi). unfold mbind, M_bind.
  destruct (m i) as [[[a|e] i1]| |]; [| |done..].
  2:{ destruct Hm as (Hi1 & Hs1 & _). split_and!; [done| |done]. apply (steps_le 0); [lia|done]. }
  destruct Hm as (Hi1 & Hs1 & Ha). specialize (Hk a Ha i1 Hi1).
  destruct (k a i1) as [[r i2]| |]; [|done..]. destruct Hk as (Hi2 & Hs2 & Hr).
  split_and!; [done| |done]. by apply (steps_trans 0 d _ i1).
Qed.

(** A method run after a change that keeps the invariant. *)
Lemma keeps_after {A} d (Q : A -> Prop) m i i1 :
  interp_ok i1 -> steps 0 i i1 -> keeps d Q m ->
  match m i1 with
  | Done (r, i') => interp_ok i' /\ steps d i i' /\ match r with Ok a => Q a | Err _ => True end
  | Panic => True
  | Deadlock => False
  end.
Proof.
  intros Hi1 Hs Hm. specialize (Hm i1 Hi1). destruct (m i1) as [[r i2]| |]; [|done..].
  destruct Hm as (? & ? & ?). split_and!; [done|by apply (steps_trans 0 d _ i1)|done].
Qed.

Lemma keeps_throw {A} d (Q : A -> Prop) e : keeps d Q (throw e).
Proof. intros i Hi. split_and!; [done| |done]. apply steps_refl_le. Qed.

Lemma keeps_weaken {A} (Q Q' : A -> Prop) d d' m :
  (d <= d')%nat -> (forall a, Q a -> Q' a) -> keeps d Q m -> keeps d' Q' m.
Proof.
  intros Hd HQ Hm i Hi. specialize (Hm i Hi). destruct (m i) as [[r i']| |]; [|done..].
  destruct Hm as (H1 & H2 & H3). split_and!; [done|by eapply steps_le|]. destruct r; auto.
Qed.

Lemma keeps_get {A} d (Q : A -> Prop) (f : Interp -> A) : (forall i, interp_ok i -> Q (f i)) -> keeps d Q (get f).
Proof.
  intros HQ i Hi. split_and!; [done| |by apply HQ]. apply steps_refl_le.
Qed.

Lemma keeps_modify d (f : Interp -> Interp) :
  (forall i, interp_ok i -> interp_ok (f i) /\ steps d i (f i)) -> keeps d any (modify f).
Proof. intros H i Hi. destruct (H i Hi). by split_and!. Qed.

Lemma keeps_lift {A} d (Q : A -> Prop) r : match r with Ok a => Q a | Err _ => True end -> keeps d Q (lift r).
Proof. intros Hr. destruct r; [by apply keeps_ret|by apply keeps_throw]. Qed.

Lemma keeps_if {A} d (Q : A -> Prop) (b : bool) m n : keeps d Q m -> keeps d Q n -> keeps d Q (if b then m else n).
Proof. by destruct b. Qed.

#[export] Hint Extern 1 (any _) => exact I : core.

(** ** The state's parts *)
Lemma keeps_set_stack d s : stack_ok s -> keeps d any (modify (set_stack s)).
Proof.
  intros Hs. apply keeps_modify. intros i (H1 & H2 & H3 & H4 & H5). split; [unfold interp_ok; by split_and!|].
  apply (steps_refl_le d i).
Qed.

Lemma keeps_set_calls d (f : list CallFrame -> list CallFrame) :
  (forall c, Forall frame_ok c -> Forall frame_ok (f c) /\ (length (f c) <= length c + d)%nat) ->
  keeps d any (modify (fun i => set_calls (f (i_calls i)) i)).
Proof.
  intros Hf. apply keeps_modify. intros i (H1 & H2 & H3 & H4 & H5). destruct (Hf _ H3) as [Hf1 Hf2].
  split; [unfold interp_ok; by split_and!|]. unfold steps. split_and!; [done..|done|apply memory_grows_refl].
Qed.

Lemma stack_ok_nil : stack_ok [].
Proof. split; [simpl; lia|done]. Qed.

Lemma stack_ok_take n s : stack_ok s -> stack_ok (take n s).
Proof. intros [H1 H2]. split; [rewrite length_take; lia|by apply Forall_take]. Qed.

Lemma keeps_push v : value_ok v -> keeps 0 any (push v).
Proof.
  intros Hv. unfold push. apply (keeps_bind _ stack_ok); [apply keeps_get; by intros i (?&_)|].
  intros s [Hlen Hs]. apply (keeps_bind _ stack_ok).
  - apply keeps_lift. unfold stack_push. destruct (Nat.leb_spec STACK_LIMIT (length s)); [done|].
    split; [rewrite length_app; simpl; lia|]. apply Forall_app. by repeat constructor.
  - intros s' Hs'. by apply keeps_set_stack.
Qed.

Lemma keeps_pop : keeps 0 value_ok pop.
Proof.
  unfold pop. apply (keeps_bind _ stack_ok); [apply keeps_get; by intros i (?&_)|]. intros s Hs.
  apply (keeps_bind _ (fun vs => value_ok vs.1 /\ stack_ok vs.2)).
  - apply keeps_lift. unfold stack_pop. destruct (last s) as [v|] eqn:Hl; [|done].
    split; [|by apply stack_ok_take]. destruct Hs as [_ Hs]. rewrite Forall_forall in Hs.
    apply Hs. rewrite last_lookup in Hl. by eapply list_elem_of_lookup_2.
  - intros [v s'] [Hv Hs']. apply (keeps_bind _ any); [by apply keeps_set_stack|]. intros _ _. by apply keeps_ret.
Qed.

Lemma keeps_pop_i32 : keeps 0 (signed 32) pop_i32.
Proof.
  unfold pop_i32. eapply keeps_bind; [apply keeps_pop|]. intros [v|v|v|v] Hv; try apply keeps_throw.
  by apply keeps_ret.
Qed.
Lemma keeps_pop_i64 : keeps 0 (signed 64) pop_i64.
Proof.
  unfold pop_i64. eapply keeps_bind; [apply keeps_pop|]. intros [v|v|v|v] Hv; try apply keeps_throw.
  by apply keeps_ret.
Qed.

Lemma keeps_current_frame : keeps 0 frame_ok current_frame.
Proof.
  unfold current_frame. apply (keeps_bind _ (Forall frame_ok)); [apply keeps_get; by intros i (_&_&?&_)|].
  intros [|f c] Hc; [apply keeps_throw|]. apply keeps_ret. by inversion Hc.
Qed.

Lemma keeps_frame_update d (g : CallFrame -> CallFrame) :
  (forall f, frame_ok f -> frame_ok (g f)) ->
  keeps d any (modify (fun i => match i_calls i with f :: c => set_calls (g f :: c) i | [] => i end)).
Proof.
  intros Hg. apply keeps_modify. intros i Hi. pose proof Hi as (H1 & H2 & H3 & H4 & H5).
  destruct (i_calls i) as [|f c] eqn:E; [split; [done|apply steps_refl_le]|].
  inversion H3; subst. split; [unfold interp_ok; split_and!; try done; simpl; constructor; [by apply Hg|done]|].
  unfold steps. rewrite E. split_and!; [done..|simpl; lia|apply memory_grows_refl].
Qed.

Lemma keeps_put_frame d f : frame_ok f -> keeps d any (put_frame f).
Proof. intros Hf. by apply (keeps_frame_update d (fun _ => f)). Qed.

Lemma keeps_advance_pc n : keeps 0 any (advance_pc n).
Proof. by apply (keeps_frame_update 0 (fun f => set_pc (pc f + n) f)). Qed.

(** ** Operands *)

(** A reader that returns, with values in [Q], on byte strings. *)
Definition reads_in {A} (Q : A -> Prop) (p : parser A) : Prop :=
  forall bs pos, Forall u8 bs ->
  match p bs pos with Done (Ok a, _) => Q a | Done (Err _, _) => True | Panic => True | Deadlock => False end.

Lemma keeps_read_frame {A} (Q : A -> Prop) p : reads_in Q p -> keeps 0 Q (read_frame p).
Proof.
  intros Hp. unfold read_frame. eapply keeps_bind; [apply keeps_current_frame|]. intros f [Hl Hc].
  specialize (Hp (code f) (pc f) Hc). destruct (p (code f) (pc f)) as [[r pc']| |]; [| |done].
  - eapply keeps_bind; [by apply keeps_put_frame|]. intros _ _. apply keeps_lift. by destruct r.
  - by intros i Hi.
Qed.

Lemma reads_in_bind {A B} (Q : A -> Prop) (Q' : B -> Prop) p k :
  reads_in Q p -> (forall a, Q a -> reads_in Q' (k a)) -> reads_in Q' (p ≫= k).
Proof.
  intros Hp Hk bs pos Hbs. specialize (Hp bs pos Hbs). unfold mbind, parser_bind.
  destruct (p bs pos) as [[[a|e] pos']| |]; [|done..]. by apply Hk.
Qed.

Lemma reads_in_ret {A} (Q : A -> Prop) a : Q a -> reads_in Q (mret a).
Proof. by intros Ha bs pos _. Qed.

Lemma leb_result_cases m v bs pos (Q : Z -> Prop) :
  (forall g, Q (v g)) -> match leb_result m v bs pos with (Ok a, _) => Q a | (Err _, _) => True end.
Proof. intros HQ. unfold leb_result. repeat case_match; simplify_eq; auto. Qed.

Lemma reads_in_u32 : reads_in u32 read_leb128_u32.
Proof.
  intros bs pos Hbs. rewrite read_leb128_u32_spec by done.
  pose proof (leb_result_cases 5 (fun g => wrap_u32 (group_value g)) bs pos u32) as H.
  destruct (leb_result _ _ _ _) as [[|] ?]; [|done]. apply H. intros. apply wrap_u32_range.
Qed.
Lemma reads_in_i32 : reads_in (signed 32) read_leb128_i32.
Proof.
  intros bs pos Hbs. rewrite read_leb128_i32_spec by done.
  pose proof (leb_result_cases 5 (fun g => as_signed 32 (group_signed g)) bs pos (signed 32)) as H.
  destruct (leb_result _ _ _ _) as [[|] ?]; [|done]. apply H. intros. by apply as_signed_range.
Qed.
Lemma reads_in_i64 : reads_in (signed 64) read_leb128_i64.
Proof.
  intros bs pos Hbs. rewrite read_leb128_i64_spec by done.
  pose proof (leb_result_cases 10 (fun g => as_signed 64 (group_signed g)) bs pos (signed 64)) as H.
  destruct (leb_result _ _ _ _) as [[|] ?]; [|done]. apply H. intros. by apply as_signed_range.
Qed.

Lemma reads_in_advance n : reads_in any (advance n).
Proof. by intros bs pos _. Qed.
Lemma reads_in_next_byte : reads_in u8 next_byte.
Proof.
  intros bs pos Hbs. unfold next_byte. destruct (bs !! pos) eqn:E; [|done]. by eapply Forall_lookup_1.
Qed.
Lemma reads_in_pvec {A} (Q : A -> Prop) n p : reads_in Q p -> reads_in (Forall Q) (pvec n p).
Proof.
  intros Hp. induction n as [|n IH]; simpl; [by apply reads_in_ret|].
  eapply reads_in_bind; [done|]. intros a Ha. eapply reads_in_bind; [done|]. intros l Hl.
  apply reads_in_ret. by constructor.
Qed.

Lemma keeps_operand {A} (Q : A -> Prop) p : reads_in Q p -> keeps 0 Q (operand p).
Proof.
  intros Hp. apply keeps_read_frame. eapply reads_in_bind; [apply reads_in_advance|]. by intros.
Qed.

(** ** Instructions *)
Create HintDb keeps discriminated.
#[export] Hint Resolve keeps_push keeps_pop keeps_pop_i32 keeps_pop_i64 keeps_current_frame keeps_put_frame
  keeps_advance_pc keeps_operand keeps_read_frame reads_in_u32 reads_in_i32 reads_in_i64 reads_in_next_byte
  keeps_set_stack : keeps.
#[export] Hint Resolve signed_b2i signed_land signed_lor signed_lxor signed_rem : keeps.
#[export] Hint Extern 1 (value_ok (VI32 _)) => red : keeps.
#[export] Hint Extern 1 (value_ok (VI64 _)) => red : keeps.
#[export] Hint Extern 1 (0 < _) => lia : keeps.

Ltac keep_step :=
  match goal with
  | |- keeps _ _ (_ ≫= _) => eapply keeps_bind; [solve [eauto with keeps]|cbn beta; intros ? ?]
  | |- keeps _ _ (if _ then _ else _) => apply keeps_if
  | |- keeps _ _ (throw _) => apply keeps_throw
  | |- keeps _ _ _ => solve [eauto with keeps]
  end.
Ltac keep := repeat keep_step.

Lemma keeps_i32_unop f : (forall a, signed 32 a -> signed 32 (f a)) -> keeps 0 any (i32_unop f).
Proof. intros Hf. unfold i32_unop. keep. Qed.
Lemma keeps_i32_binop f :
  (forall a b, signed 32 a -> signed 32 b -> signed 32 (f a b)) -> keeps 0 any (i32_binop f).
Proof. intros Hf. unfold i32_binop. keep. Qed.
Lemma keeps_i64_binop f :
  (forall a b, signed 64 a -> signed 64 b -> signed 64 (f a b)) -> keeps 0 any (i64_binop f).
Proof. intros Hf. unfold i64_binop. keep. Qed.

Lemma signed_wrap32 z : signed 32 (as_signed 32 z).
Proof. by apply as_signed_range. Qed.
Lemma signed_wrap64 z : signed 64 (as_signed 64 z).
Proof. by apply as_signed_range. Qed.
#[export] Hint Resolve signed_wrap32 signed_wrap64 : keeps.

(** Division: the guard of the code is what makes the quotient fit. *)
Lemma keeps_div w (push_v : Z -> M unit) a b :
  0 < w -> signed w a -> (forall z, signed w z -> keeps 0 any (push_v z)) ->
  keeps 0 any
    (if b =? 0 then throw DivisionByZero
     else if (a =? - 2 ^ (w - 1)) && (b =? -1) then throw IntegerOverflow else push_v (Z.quot a b)).
Proof.
  intros Hw Ha Hp. destruct (Z.eqb_spec b 0); [keep|].
  destruct ((a =? - 2 ^ (w - 1)) && (b =? -1)) eqn:E; [keep|]. apply Hp, signed_quot; [done..|].
  intros [-> ->]. by rewrite !Z.eqb_refl in E.
Qed.

Lemma keeps_i32_div_s : keeps 0 any i32_div_s.
Proof. unfold i32_div_s. do 3 keep_step. apply (keeps_div 32 (fun z => push (VI32 z))); [done..|]. intros. keep. Qed.
Lemma keeps_i64_div_s : keeps 0 any i64_div_s.
Proof. unfold i64_div_s. do 3 keep_step. apply (keeps_div 64 (fun z => push (VI64 z))); [done..|]. intros. keep. Qed.
Lemma keeps_i32_div_u : keeps 0 any i32_div_u.
Proof. unfold i32_div_u. keep. Qed.
Lemma keeps_i32_rem_u : keeps 0 any i32_rem_u.
Proof. unfold i32_rem_u. keep. Qed.
Lemma keeps_i32_rem_s : keeps 0 any i32_rem_s.
Proof.
  unfold i32_rem_s. do 3 keep_step. match goal with |- context [?b =? 0] => destruct (Z.eqb_spec b 0) end; keep.
Qed.

Lemma default_value_ok l n : Forall value_ok l -> value_ok (default (VI32 0) (l !! n)).
Proof.
  intros Hl. destruct (l !! n) eqn:E; simpl; [by eapply Forall_lookup_1|]. unfold signed. simpl. lia.
Qed.
#[export] Hint Resolve default_value_ok : keeps.

Lemma keeps_store_local z v : value_ok v -> keeps 0 any (store_local z v).
Proof.
  intros Hv. unfold store_local. keep_step. match goal with H : frame_ok _ |- _ => destruct H as [Hl Hc] end.
  apply keeps_put_frame. split; [by apply Forall_insert|done].
Qed.
#[export] Hint Resolve keeps_store_local : keeps.

Lemma keeps_local_get : keeps 0 any local_get.
Proof.
  unfold local_get. do 2 keep_step. match goal with H : frame_ok _ |- _ => destruct H as [Hl Hc] end. keep.
Qed.
Lemma keeps_local_set : keeps 0 any local_set.
Proof. unfold local_set. keep. Qed.
Lemma keeps_local_tee : keeps 0 any local_tee.
Proof.
  unfold local_tee. apply (keeps_bind _ stack_ok); [apply keeps_get; by intros i (?&_)|]. intros s [_ Hs].
  apply (keeps_bind _ value_ok); [|intros; keep].
  unfold stack_peek. destruct (last s) as [v|] eqn:Hl; [|keep]. apply keeps_ret.
  rewrite last_lookup in Hl. by eapply Forall_lookup_1.
Qed.
Lemma keeps_global_get : keeps 0 any global_get.
Proof.
  unfold global_get. keep_step. apply (keeps_bind _ (Forall value_ok)); [|intros; keep].
  apply keeps_get. by intros i (_&_&_&?&_).
Qed.
Lemma keeps_global_set : keeps 0 any global_set.
Proof.
  unfold global_set. do 2 keep_step. apply keeps_modify. intros i (H1 & H2 & H3 & H4 & H5).
  split; [|apply (steps_refl_le 0 i)]. unfold interp_ok. split_and!; try done. by apply Forall_insert.
Qed.
Lemma keeps_i32_const : keeps 0 any i32_const.
Proof. unfold i32_const. keep. Qed.
Lemma keeps_i64_const : keeps 0 any i64_const.
Proof. unfold i64_const. keep. Qed.

(** *** Memory *)
Lemma keeps_mem_operands : keeps 0 u32 mem_operands.
Proof. unfold mem_operands. keep. Qed.

Lemma keeps_address base off : u32 off -> keeps 0 u32 (address base off).
Proof.
  intros Ho. unfold address. pose proof (wrap_u32_range base) as Hb. unfold u32 in *.
  destruct (Z.ltb_spec U32_MAX (wrap_u32 base + off)); [apply keeps_throw|apply keeps_ret; lia].
Qed.

Lemma keeps_the_memory : keeps 0 mem_ok the_memory.
Proof.
  unfold the_memory. apply (keeps_bind _ memory_ok); [apply keeps_get; by intros i (_&?&_)|].
  intros [m|] Hm; [by apply keeps_ret|apply keeps_throw].
Qed.
#[export] Hint Resolve keeps_mem_operands keeps_address keeps_the_memory : keeps.

Lemma mem_read_range n m off : mem_ok m -> match mem_read n m off with Ok v => 0 <= v < 2 ^ (8 * Z.of_nat n) | Err _ => True end.
Proof.
  intros [Hu _]. unfold mem_read. destruct (check_access _ _ _) as [a|]; [|done].
  pose proof (from_le_bytes_bound (sub_slice (mem_data m) a (a + n)) (Forall_sub_slice _ _ _ _ Hu)) as Hb.
  split; [lia|]. eapply Z.lt_le_trans; [apply Hb|]. apply Z.pow_le_mono_r; [lia|].
  unfold sub_slice. rewrite length_take. lia.
Qed.

Lemma keeps_mem_read n m off : mem_ok m -> keeps 0 (fun v => 0 <= v < 2 ^ (8 * Z.of_nat n)) (lift (mem_read n m off)).
Proof. intros Hm. apply keeps_lift. by apply mem_read_range. Qed.

Lemma keeps_memory_load : keeps 0 any (memory_load 4).
Proof. unfold memory_load. do 4 keep_step. eapply keeps_bind; [by apply keeps_mem_read|]. intros. keep. Qed.
Lemma keeps_memory_load_64 : keeps 0 any memory_load_64.
Proof. unfold memory_load_64. do 4 keep_step. eapply keeps_bind; [by apply keeps_mem_read|]. intros. keep. Qed.

Lemma signed_extend w z : 0 < w <= 32 -> signed 32 (as_signed w z).
Proof.
  intros Hw. pose proof (as_signed_range w z). unfold signed in *.
  assert (2 ^ (w - 1) <= 2 ^ (32 - 1)) by (apply Z.pow_le_mono_r; lia). lia.
Qed.

Lemma keeps_memory_load_ext size b : keeps 0 any (memory_load_ext size b).
Proof.
  unfold memory_load_ext. do 4 keep_step.
  destruct size as [|[[]|[]|]|]; try apply keeps_throw; (eapply keeps_bind; [by apply keeps_mem_read|]);
    intros v Hv; apply keeps_push; simpl in *; (destruct b; [by apply signed_extend|unfold signed; simpl; lia]).
Qed.

(** Writing the current memory back. *)
Lemma keeps_store (g : LinearMemory -> result LinearMemory) (Q : LinearMemory -> Prop) :
  (forall m m', mem_ok m -> g m = Ok m' -> mem_ok m' /\ memory_grows (Some m) (Some m')) ->
  keeps 0 any (mem ← the_memory; mem ← lift (g mem); modify (set_memory (Some mem))).
Proof.
  intros Hg i Hi. unfold the_memory, mbind, M_bind, get. pose proof Hi as (H1 & H2 & H3 & H4 & H5).
  destruct (i_memory i) as [m|] eqn:E; [|split_and!; [done|apply steps_refl_le|done]].
  unfold mret, M_ret, lift. destruct (g m) as [m'|e] eqn:Em; [|split_and!; [done|apply steps_refl_le|done]].
  destruct (Hg m m' H2 Em) as [Hm' Hgr]. unfold modify. split_and!; [|..|done].
  - unfold interp_ok. by split_and!.
  - unfold steps. cbn. rewrite E. split_and!; [done..|lia|done].
Qed.

Lemma keeps_write n off v :
  u32 off -> keeps 0 any (mem ← the_memory; mem ← lift (mem_write n mem off v); modify (set_memory (Some mem))).
Proof.
  intros Ho. apply (keeps_store (fun m => mem_write n m off v) any). intros m m' Hm Hw.
  unfold u32 in Ho. destruct (mem_write_ok n m off v m') as [Hm' Hlen]; [lia|done..|]. split; [done|].
  assert (Hp : mem_pages m' = mem_pages m) by (unfold mem_pages; by rewrite Hlen).
  assert (Hmax : max_pages m' = max_pages m).
  { unfold mem_write in Hw. destruct (check_access _ _ _); [|done]. by injection Hw as <-. }
  simpl. rewrite Hp, Hmax. split_and!; [done|lia|]. destruct (max_pages m); [lia|done].
Qed.

Lemma keeps_memory_store : keeps 0 any (memory_store 4).
Proof. unfold memory_store. do 4 keep_step. by apply (keeps_write 4). Qed.
Lemma keeps_memory_store_64 : keeps 0 any memory_store_64.
Proof. unfold memory_store_64. do 4 keep_step. by apply (keeps_write 8). Qed.
Lemma keeps_memory_store_n : keeps 0 any (memory_store_n 1) /\ keeps 0 any (memory_store_n 2).
Proof.
  unfold memory_store_n. split; do 4 keep_step; [by apply (keeps_write 1)|by apply (keeps_write 2)].
Qed.

Lemma keeps_memory_size : keeps 0 any memory_size.
Proof.
  unfold memory_size. keep_step. apply (keeps_bind _ any); [by apply keeps_get|]. intros m _. keep.
Qed.

Lemma mem_grow_grows add m r m' :
  mem_ok m -> u32 add -> mem_grow add m = (r, m') -> mem_ok m' /\ memory_grows (Some m) (Some m').
Proof.
  intros Hm Ha E. destruct (mem_grow_spec m add Hm Ha) as [[_ E']|(Hr & m2 & E' & Hm2 & Hp & Hmax & _)];
    rewrite E in E'; injection E' as -> ->; (split; [done|]).
  - apply (memory_grows_refl (Some m)).
  - simpl. unfold u32 in Ha. rewrite Hp, Hmax. split_and!; [done|lia|].
    destruct (max_pages m); [|done]. lia.
Qed.

Lemma keeps_memory_grow : keeps 0 any memory_grow.
Proof.
  unfold memory_grow. do 2 keep_step. rename a0 into p.
  intros i Hi. pose proof Hi as (H1 & H2 & H3 & H4 & H5). unfold mbind, M_bind, get.
  destruct (i_memory i) as [m|] eqn:E; [|by apply keeps_push; [apply signed_wrap32|]].
  destruct (mem_grow (wrap_u32 p) m) as [r m'] eqn:Eg.
  destruct (mem_grow_grows _ _ _ _ H2 (wrap_u32_range p) Eg) as [Hm' Hgr].
  assert (Hi' : interp_ok (set_memory (Some m') i)) by (unfold interp_ok; by split_and!).
  assert (Hs : steps 0 i (set_memory (Some m') i)).
  { unfold steps. cbn. rewrite E. split_and!; [done..|lia|done]. }
  apply (keeps_after 0 any _ i _ Hi' Hs). by apply keeps_push, signed_wrap32.
Qed.

(** *** Control flow *)
Lemma keeps_execute_end : keeps 0 any execute_end.
Proof.
  intros i Hi. pose proof Hi as (H1 & H2 & H3 & H4 & H5). unfold execute_end, mbind at 1, M_bind at 1, get at 1.
  destruct (i_calls i) as [|f c] eqn:E; [by apply keeps_throw|]. unfold mbind at 1, M_bind at 1, modify at 1.
  inversion H3; subst.
  apply (keeps_after 0 any _ i).
  - unfold interp_ok. by split_and!.
  - unfold steps. cbn. rewrite E. split_and!; [done..|simpl; lia|apply memory_grows_refl].
  - destruct (arity f =? 1)%nat; [|by apply keeps_ret].
    apply (keeps_bind _ any); [by apply keeps_get|]. intros s _. keep.
Qed.

Lemma pop_to_arity_0_suffix c : exists n, pop_to_arity_0 c = drop n c.
Proof.
  induction c as [|f c [n IH]]; [by exists O|]. simpl. destruct (arity f =? 0)%nat; [by exists 1%nat|].
  by exists (S n).
Qed.

Lemma keeps_drop_calls (n : list CallFrame -> nat) :
  keeps 0 any (modify (fun i => set_calls (drop (n (i_calls i)) (i_calls i)) i)).
Proof.
  apply (keeps_set_calls 0 (fun c => drop (n c) c)). intros c Hc. split; [by apply Forall_drop|].
  rewrite length_drop. lia.
Qed.

Lemma keeps_execute_return : keeps 0 any execute_return.
Proof.
  unfold execute_return. apply (keeps_set_calls 0 pop_to_arity_0). intros c Hc.
  destruct (pop_to_arity_0_suffix c) as [n ->]. split; [by apply Forall_drop|]. rewrite length_drop. lia.
Qed.

Lemma keeps_unwind_to d : keeps 0 any (unwind_to d).
Proof. apply (keeps_drop_calls (fun c => length c - Z.to_nat (sat_sub (Z.of_nat (length c)) (d + 1)))%nat). Qed.
#[export] Hint Resolve keeps_unwind_to : keeps.

Lemma frame_ok_set_pc p f : frame_ok f -> frame_ok (set_pc p f).
Proof. done. Qed.
#[export] Hint Resolve frame_ok_set_pc : keeps.

Lemma keeps_execute_if : keeps 0 any execute_if.
Proof. unfold execute_if, code_byte. keep. by apply keeps_ret. Qed.
Lemma keeps_execute_else : keeps 0 any execute_else.
Proof. unfold execute_else. keep. Qed.
Lemma keeps_execute_br : keeps 0 any execute_br.
Proof. unfold execute_br. keep. Qed.
Lemma keeps_execute_br_if : keeps 0 any execute_br_if.
Proof. unfold execute_br_if. keep. by apply keeps_ret. Qed.

Lemma reads_in_br_targets : reads_in any br_targets.
Proof.
  unfold br_targets. eapply reads_in_bind; [apply reads_in_advance|]. intros _ _.
  eapply reads_in_bind; [apply reads_in_u32|]. intros n _.
  eapply reads_in_bind; [apply reads_in_pvec, reads_in_u32|]. intros l _.
  eapply reads_in_bind; [apply reads_in_u32|]. intros. by apply reads_in_ret.
Qed.
#[export] Hint Resolve reads_in_br_targets : keeps.
Lemma keeps_execute_br_table : keeps 0 any execute_br_table.
Proof. unfold execute_br_table. keep. Qed.

(** *** Calls *)
Section host.
Context (host : Z -> M unit).
(** A host function returns and keeps what the interpreter relies on: the
    invariant, the configuration, the gas count, the module, the memory's
    bounds, and no frame of its own left behind. *)
Hypothesis host_keeps : forall n, keeps 0 any (host n).

Lemma keeps_set_hosts i h : interp_ok i -> interp_ok (set_hosts h i) /\ steps 0 i (set_hosts h i).
Proof.
  intros (H1 & H2 & H3 & H4 & H5). split; [unfold interp_ok; by split_and!|]. apply (steps_refl_le 0 i).
Qed.

Lemma keeps_call_host n : keeps 0 any (call_host host n).
Proof.
  intros i Hi. unfold call_host. destruct (i_hosts i !! n) as [f|]; [|split_and!; [done|apply steps_refl_le|done]].
  destruct (keeps_set_hosts i (<[n := HNop]> (i_hosts i)) Hi) as [Hi1 Hs1].
  assert (Hf : keeps 0 any (run_closure host f)) by (destruct f; [by apply keeps_ret|apply host_keeps]).
  pose proof (keeps_after 0 any _ _ _ Hi1 Hs1 Hf) as Hk.
  destruct (run_closure host f _) as [[r i2]| |]; [|done..]. destruct Hk as (Hi2 & Hs2 & _).
  destruct (length (i_hosts i2) <=? n)%nat; [done|].
  destruct (keeps_set_hosts i2 (<[n := f]> (i_hosts i2)) Hi2) as [Hi3 Hs3].
  split_and!; [done|by apply (steps_trans 0 0 _ i2)|by destruct r].
Qed.

Lemma keeps_push_all l : Forall value_ok l -> keeps 0 any (push_all l).
Proof.
  induction 1 as [|v l Hv _ IH]; [by apply keeps_ret|]. simpl. eapply keeps_bind; [by apply keeps_push|]. by intros.
Qed.

Lemma default_locals_ok b : Forall value_ok (default_locals b).
Proof.
  unfold default_locals. induction (fb_locals b) as [|[n t] l IH]; [done|]. simpl. apply Forall_app. split; [|done].
  apply Forall_replicate. destruct t; simpl; unfold signed, u32, u64, U32_MAX, U64_MAX; simpl; lia.
Qed.

Lemma call_args_ok s n : stack_ok s -> Forall value_ok (call_args s n).
Proof.
  intros [_ Hs]. unfold call_args. apply Forall_fmap, Forall_true. intros k. simpl.
  assert (H0 : value_ok (VI32 0)) by (unfold value_ok, signed; simpl; lia).
  case_match; [|done]. rewrite nth_lookup. destruct (s !! _) eqn:E; [by eapply Forall_lookup_1|done].
Qed.

Lemma keeps_enter f args n :
  Forall value_ok args ->
  keeps 1 any
    (r ← get (get_func_body f);
     body ← lift r;
     modify (fun i => set_calls
       (mkFrame f (args ++ default_locals body) 0 (fb_code body) n 0 (length (i_stack i)) :: i_calls i) i)).
Proof.
  intros Ha. apply (keeps_bind _ (fun r => match r with Ok b => Forall u8 (fb_code b) | Err _ => True end)).
  { apply keeps_get. intros i (_&_&_&_&Hm). unfold get_func_body. destruct (f <? i_import_funcs i); [done|].
    destruct (m_code _ !! _) eqn:E; [|done]. by apply (Forall_lookup_1 _ _ _ _ Hm E). }
  intros r Hr. apply (keeps_bind _ (fun b => Forall u8 (fb_code b))); [by apply keeps_lift|]. intros body Hb.
  apply keeps_modify. intros i (H1 & H2 & H3 & H4 & H5). split.
  - unfold interp_ok. split_and!; try done. constructor; [|done]. split; [|done]. simpl.
    apply Forall_app. split; [done|apply default_locals_ok].
  - unfold steps. split_and!; [done..|simpl; lia|apply memory_grows_refl].
Qed.

Lemma keeps_execute_call : keeps 1 any (execute_call host).
Proof.
  unfold execute_call. eapply keeps_bind; [apply keeps_operand, reads_in_u32|]. intros f _.
  apply (keeps_bind _ any); [by apply keeps_get|]. intros r _.
  apply (keeps_bind _ any); [by apply keeps_lift; destruct r|]. intros ft _. cbn zeta.
  apply (keeps_bind _ stack_ok); [apply keeps_get; by intros i (?&_)|]. intros s Hs.
  eapply keeps_bind; [apply keeps_set_stack|].
  { unfold drain_to. case_match; [by apply stack_ok_take|done]. }
  intros _ _. apply (keeps_bind _ any); [by apply keeps_get|]. intros n _.
  pose proof (call_args_ok s (length (ft_params ft)) Hs) as Ha.
  apply keeps_if; [|by apply keeps_enter].
  eapply keeps_bind; [by apply keeps_push_all|]. intros _ _.
  eapply keeps_bind; [apply keeps_call_host|]. intros _ _.
  apply keeps_if; [by apply keeps_ret|by apply keeps_enter].
Qed.

Lemma keeps_le {A} (Q : A -> Prop) m : keeps 0 Q m -> keeps 1 Q m.
Proof. apply keeps_weaken; [lia|done]. Qed.

Hint Resolve keeps_i32_div_s keeps_i64_div_s keeps_i32_div_u keeps_i32_rem_u keeps_i32_rem_s keeps_local_get
  keeps_local_set keeps_local_tee keeps_global_get keeps_global_set keeps_i32_const keeps_i64_const
  keeps_memory_load keeps_memory_load_64 keeps_memory_load_ext keeps_memory_store keeps_memory_store_64
  keeps_memory_size keeps_memory_grow keeps_execute_end keeps_execute_return keeps_execute_if
  keeps_execute_else keeps_execute_br keeps_execute_br_if keeps_execute_br_table : keeps.

Lemma signed_shift a b : signed 32 a -> signed 32 (i32_shr_s a b).
Proof. intros Ha. apply signed_div_pos; [done| |done]. apply Z.mod_pos_bound. lia. Qed.

Lemma keeps_exec_op o : keeps 1 any (exec_op host o).
Proof.
  destruct o; cbn [exec_op]; try apply keeps_throw; try apply keeps_execute_call; apply keeps_le;
    try solve [eauto with keeps | apply keeps_memory_store_n | apply keeps_advance_pc];
    try solve [apply keeps_i32_binop; intros; apply signed_wrap32 | apply keeps_i64_binop; intros; apply signed_wrap64];
    try solve [apply keeps_i32_unop; auto with keeps | apply keeps_i32_binop; auto using signed_shift with keeps
              | apply keeps_i64_binop; auto with keeps].
  - keep. by apply keeps_ret.
  - do 4 keep_step. match goal with |- context [if ?b then _ else _] => destruct b end; keep.
Qed.

(** ** The main loop *)

(** The rounds left: every gas unit pays for one instruction, which leaves at
    most one frame more to pop. *)
Definition rounds (i : Interp) : nat :=
  (2 * Z.to_nat (max_gas (i_config i) + 1 - i_gas i) + length (i_calls i))%nat.

Definition gas_ok (i : Interp) : Prop := 0 <= i_gas i < U64_MAX /\ max_gas (i_config i) < U64_MAX.

Definition loop_result (i : Interp) (o : outcome (result unit * Interp)) : Prop :=
  match o with
  | Done (r, i') =>
    interp_ok i' /\ i_config i' = i_config i /\
    i_gas i <= i_gas i' <= Z.max (i_gas i) (max_gas (i_config i)) + 1 /\
    memory_grows (i_memory i) (i_memory i') /\ (r = Ok tt -> i_calls i' = [])
  | Panic => True
  | Deadlock => False
  end.

(** A round that kept the bounds, and then the rest. *)
Lemma loop_result_after i i1 o :
  i_config i1 = i_config i -> i_gas i <= i_gas i1 <= max_gas (i_config i) ->
  memory_grows (i_memory i) (i_memory i1) -> loop_result i1 o -> loop_result i o.
Proof.
  intros Hc Hg Hm. unfold loop_result. destruct o as [[r i']| |]; [|done..].
  intros (H1 & H2 & H3 & H4 & H5). rewrite Hc in *. split_and!; [done..|lia|lia|by eapply memory_grows_trans|done].
Qed.

Lemma run_loop_returns fuel i :
  interp_ok i -> gas_ok i -> (rounds i < fuel)%nat -> loop_result i (run_loop host fuel i).
Proof.
  revert i. induction fuel as [|fuel IH]; intros i Hi Hg Hf; [lia|]. cbn [run_loop].
  pose proof Hi as (H1 & H2 & H3 & H4 & H5). pose proof Hg as [Hg1 Hg2]. unfold rounds in Hf.
  destruct (i_calls i) as [|f c] eqn:Ec.
  { simpl. split_and!; [done..|lia|lia|apply memory_grows_refl|done]. }
  destruct (code f !! pc f) as [opcode|].
  2:{ inversion H3; subst. 
      assert (Hr : loop_result (set_calls c i) (run_loop host fuel (set_calls c i)))
        by (apply IH; [unfold interp_ok; by split_and!|done|unfold rounds; simpl in *; lia]).
      exact Hr. }
  cbn zeta. rewrite wrap_u64_small by (unfold u64, U64_MAX in *; lia).
  set (i1 := set_gas (i_gas i + 1) i).
  assert (Hi1 : interp_ok i1) by exact Hi.
  change (i_gas i1) with (i_gas i + 1). change (i_config i1) with (i_config i).
  destruct (Z.ltb_spec (max_gas (i_config i)) (i_gas i + 1)).
  { simpl. split_and!; [done|done|lia|lia|apply memory_grows_refl|done]. }
  destruct (opcode_from_byte opcode) as [o|].
  2:{ simpl. split_and!; [done|done|lia|lia|apply memory_grows_refl|done]. }
  unfold mbind, M_bind. pose proof (keeps_exec_op o i1 Hi1) as Hk.
  destruct (exec_op host o i1) as [[[[]|e] i2]| |]; [| |done|done].
  - destruct Hk as (Hi2 & (C & G & Mo & L & Hm) & _). simpl in C, G, L, Hm.
    apply (loop_result_after i i2); [done|lia|done|].
    apply IH; [done|unfold gas_ok; rewrite C, G; lia|].
    unfold rounds. rewrite C, G. rewrite Ec in L. simpl in *. lia.
  - destruct Hk as (Hi2 & (C & G & Mo & L & Hm) & _). simpl in C, G, L, Hm. simpl.
    split_and!; [done|done|lia|lia|done|done].
Qed.
End host.
