(* ===== verification/WasmInst.v ===== *)
(** * Instantiating and calling a WebAssembly module

    That instantiation establishes the interpreter's invariant for every
    accepted byte string, the theorem on the whole life of an instance, what
    [call_func] amounts to, and what the model shows of the interpreter's
    control flow. *)
From S2P Require Import Prelude Bytes WasmTypes Leb128 WasmModule WasmRuntime WasmInterp WasmSpec.

(** ** Instantiation establishes the invariant *)

(** The values a reader yields on byte strings. *)
Definition yields {A} (Q : A -> Prop) (p : parser A) : Prop :=
  forall bs pos, Forall u8 bs -> match p bs pos with Done (Ok a, _) => Q a | _ => True end.

Lemma yields_bind {A B} (Q : A -> Prop) (Q' : B -> Prop) p k :
  yields Q p -> (forall a, Q a -> yields Q' (k a)) -> yields Q' (p ≫= k).
Proof.
  intros Hp Hk bs pos Hbs. specialize (Hp bs pos Hbs). unfold mbind, parser_bind.
  destruct (p bs pos) as [[[a|e] pos']| |]; [|done..]. by apply Hk.
Qed.
Lemma yields_any {A} (p : parser A) : yields any p.
Proof. intros bs pos _. by repeat case_match. Qed.
Lemma yields_ret {A} (Q : A -> Prop) a : Q a -> yields Q (mret a).
Proof. by intros Ha bs pos _. Qed.
Lemma yields_fail {A} (Q : A -> Prop) e : yields Q (fail e).
Proof. by intros bs pos _. Qed.
Lemma yields_reads_in {A} (Q : A -> Prop) p : reads_in Q p -> yields Q p.
Proof. intros Hp bs pos Hbs. specialize (Hp bs pos Hbs). by repeat case_match. Qed.
Lemma yields_if {A} (Q : A -> Prop) (b : bool) p q : yields Q p -> yields Q q -> yields Q (if b then p else q).
Proof. by destruct b. Qed.
Lemma yields_counted {A} (Q : A -> Prop) p : yields Q p -> yields (Forall Q) (counted p).
Proof.
  intros Hp. eapply yields_bind; [apply yields_any|]. intros n _.
  induction (Z.to_nat n) as [|k IH]; simpl; [by apply yields_ret|].
  eapply yields_bind; [done|]. intros a Ha. eapply yields_bind; [done|]. intros l Hl. apply yields_ret. by constructor.
Qed.
Lemma yields_take_to e : yields (Forall u8) (take_to e).
Proof. intros bs pos Hbs. unfold take_to. destruct (_ && _); [|done]. by apply Forall_sub_slice. Qed.
Lemma yields_slice a b : yields (Forall u8) (slice a b).
Proof. intros bs pos Hbs. unfold slice. destruct (_ && _); [|done]. by apply Forall_sub_slice. Qed.

Ltac yield_step :=
  match goal with
  | |- yields _ (_ ≫= _) => eapply yields_bind; [solve [eauto with yields]|cbn beta zeta; intros ? ?]
  | |- yields _ (if _ then _ else _) => apply yields_if
  | |- yields _ (fail _) => apply yields_fail
  | |- yields _ (mret _) => apply yields_ret
  | |- yields _ (match ?x with _ => _ end) => destruct x
  | |- yields _ _ => solve [eauto with yields]
  end.
Ltac yield := repeat yield_step.

Create HintDb yields discriminated.
#[export] Hint Resolve yields_take_to yields_slice yields_counted : yields.
Lemma yields_u32 : yields u32 read_leb128_u32.
Proof. apply yields_reads_in, reads_in_u32. Qed.
#[export] Hint Resolve yields_u32 : yields.
#[export] Hint Resolve yields_any | 10 : yields.

Lemma yields_limits : yields (fun l => u32 (lim_min l)) parse_limits.
Proof. unfold parse_limits. yield; done. Qed.
#[export] Hint Resolve yields_limits : yields.

(** What instantiation relies on in a parsed module. *)
Definition module_bytes_ok (m : WasmModule) : Prop :=
  Forall (fun i => match imp_desc i with IMemory t => u32 (lim_min (mt_limits t)) | _ => True end) (m_imports m) /\
  Forall (fun t => u32 (lim_min (mt_limits t))) (m_memories m) /\
  Forall (fun g => Forall u8 g.2) (m_globals m) /\
  Forall (fun b => Forall u8 (fb_code b)) (m_code m) /\
  Forall (fun d => Forall u8 (ds_offset d) /\ Forall u8 (ds_data d)) (m_data m).

Lemma yields_import_desc k :
  yields (fun k => match k with IMemory t => u32 (lim_min (mt_limits t)) | _ => True end) (parse_import_desc k).
Proof. unfold parse_import_desc. yield; done. Qed.
#[export] Hint Resolve yields_import_desc : yields.

Lemma yields_import_section :
  yields (Forall (fun i => match imp_desc i with IMemory t => u32 (lim_min (mt_limits t)) | _ => True end))
    parse_import_section.
Proof. apply yields_counted. yield. done. Qed.
Lemma yields_memory_section : yields (Forall (fun t => u32 (lim_min (mt_limits t)))) parse_memory_section.
Proof. apply yields_counted. yield. done. Qed.
Lemma yields_global_section : yields (Forall (fun g => Forall u8 g.2)) parse_global_section.
Proof. apply yields_counted. yield. done. Qed.
Lemma yields_code_section : yields (Forall (fun b => Forall u8 (fb_code b))) parse_code_section.
Proof. apply yields_counted. yield. done. Qed.
Lemma yields_data_section :
  yields (Forall (fun d => Forall u8 (ds_offset d) /\ Forall u8 (ds_data d))) parse_data_section.
Proof.
  apply yields_counted. do 1 yield_step. eapply yields_bind; [|intros; yield; done].
  unfold read_init_expr_bytes. yield.
Qed.

Lemma yields_section id sec_end m :
  module_bytes_ok m -> yields module_bytes_ok (parse_section id sec_end m).
Proof.
  intros (H1 & H2 & H3 & H4 & H5). destruct m as [ty im fu ta me gl ex st el co da]. simpl in *.
  assert (Hother : forall {A} (p : parser A) k, (forall a, module_bytes_ok (k a)) -> yields module_bytes_ok (a ← p; mret (k a))).
  { intros A p k Hk. eapply yields_bind; [apply yields_any|]. intros. by apply yields_ret. }
  unfold parse_section. repeat case_match; try (apply Hother; intros; by split_and!).
  all: eapply yields_bind;
    [solve [apply yields_import_section|apply yields_memory_section|apply yields_global_section
           |apply yields_code_section|apply yields_data_section]|].
  all: intros; apply yields_ret; by split_and!.
Qed.

Lemma section_loop_yields fuel m : module_bytes_ok m -> yields module_bytes_ok (section_loop fuel m).
Proof.
  revert m. induction fuel as [|fuel IH]; intros m Hm; cbn [section_loop]; [by intros bs pos _|].
  do 2 (eapply yields_bind; [apply yields_any|]; intros). apply yields_if; [by apply yields_ret|].
  eapply (yields_bind module_bytes_ok); [|by intros; apply IH].
  unfold read_section. do 4 (eapply yields_bind; [apply yields_any|]; intros). cbn zeta.
  apply yields_if; [apply yields_fail|by apply yields_section].
Qed.

Lemma parse_wasm_bytes_ok bs m : Forall u8 bs -> parse_wasm bs = Done (Ok m) -> module_bytes_ok m.
Proof.
  intros Hbs. unfold parse_wasm. repeat (case_match; [done|]). 
  pose proof (section_loop_yields (S (length bs)) empty_module) as Hs.
  assert (He : module_bytes_ok empty_module) by (by split_and!).
  specialize (Hs He bs 8%nat Hbs). destruct (section_loop _ _ _ _) as [[r pos]| |]; [|done..].
  intros [= ->]. done.
Qed.

Lemma yields_i32 : yields (signed 32) read_leb128_i32.
Proof. apply yields_reads_in, reads_in_i32. Qed.
Lemma yields_i64 : yields (signed 64) read_leb128_i64.
Proof. apply yields_reads_in, reads_in_i64. Qed.

Lemma eval_loop_yields fuel globals s :
  Forall value_ok globals -> Forall value_ok s -> yields (Forall value_ok) (eval_loop fuel globals s).
Proof.
  intros Hg. revert s. induction fuel as [|fuel IH]; intros s Hs; cbn [eval_loop]; [by intros bs pos _|].
  do 2 (eapply yields_bind; [apply yields_any|]; intros). apply yields_if; [by apply yields_ret|].
  eapply yields_bind; [apply yields_any|]. intros b _.
  assert (Hpush : forall A (Q : A -> Prop) (p : parser A) (v : A -> Value), yields Q p -> (forall a, Q a -> value_ok (v a)) ->
    yields (Forall value_ok) (_ ← advance 1; a ← p; eval_loop fuel globals (s ++ [v a]))).
  { intros A Q p v Hp Hv. eapply yields_bind; [apply yields_any|]. intros _ _.
    eapply yields_bind; [done|]. intros x Hx. apply IH, Forall_app. split; [done|]. constructor; [by apply Hv|done]. }
  repeat case_match; try apply yields_fail; try (by apply yields_ret).
  - apply (Hpush _ any _ (fun idx => default (VI32 0) (globals !! Z.to_nat idx))); [apply yields_any|].
    intros. by apply default_value_ok.
  - by apply (Hpush _ (signed 32) _ VI32); [apply yields_i32|].
  - by apply (Hpush _ (signed 64) _ VI64); [apply yields_i64|].
Qed.

Lemma eval_init_expr_ok expr globals v :
  Forall u8 expr -> Forall value_ok globals -> eval_init_expr expr globals = Done (Ok v) -> value_ok v.
Proof.
  intros He Hg. unfold eval_init_expr.
  pose proof (eval_loop_yields (S (length expr)) globals [] Hg (List.Forall_nil _) expr 0%nat He) as Hs.
  destruct (eval_loop _ _ _ _ _) as [[[s|e] pos]| |]; simpl; [|done..].
  destruct (last s) as [x|] eqn:E; [|done]. intros [= ->]. rewrite last_lookup in E. by eapply Forall_lookup_1.
Qed.

Lemma init_globals_ok l idx globals globals' :
  Forall (fun g => Forall u8 g.2) l -> Forall value_ok globals ->
  init_globals l idx globals = Done globals' -> Forall value_ok globals'.
Proof.
  intros Hl. revert idx globals. induction Hl as [|[g e] l He _ IH]; intros idx globals Hg; simpl.
  { by intros [= ->]. }
  destruct (eval_init_expr e globals) as [r| |] eqn:E; simpl; [|done..]. apply IH.
  destruct r as [v|]; [|done]. apply Forall_insert; [done|]. by eapply eval_init_expr_ok.
Qed.

Lemma ofold_Done {A B} (P : A -> Prop) (Q : B -> Prop) (l : list B) a f a' :
  (forall a x a', Q x -> P a -> f a x = Done a' -> P a') -> Forall Q l -> P a -> ofold l a f = Done a' -> P a'.
Proof.
  intros Hf Hl. revert a. induction Hl as [|x l Hx _ IH]; intros a Ha; simpl; [by intros [= ->]|].
  destruct (f a x) as [a1| |] eqn:E; simpl; [|done..]. apply IH. by eapply Hf.
Qed.

Lemma apply_data_segment_ok globals m seg m' :
  Forall u8 (ds_offset seg) /\ Forall u8 (ds_data seg) -> memory_ok m ->
  apply_data_segment globals m seg = Done m' -> memory_ok m'.
Proof.
  intros [Ho Hd] Hm. unfold apply_data_segment. destruct (ds_offset seg) as [|b o]; [by intros [= <-]|].
  destruct (eval_init_expr (b :: o) globals) as [r| |]; [|done..]. simpl.
  destruct r as [[z|z|z|z]|e]; try (by intros [= <-]). destruct m as [m|]; [|by intros [= <-]].
  cbn zeta. destruct (Z.ltb_spec (Z.of_nat (length (mem_data m))) (wrap_u64 (wrap_u64 z + Z.of_nat (length (ds_data seg)))));
    [by intros [= <-]|].
  pose proof (wrap_u64_range z) as Hz. pose proof (wrap_u64_range (wrap_u64 z + Z.of_nat (length (ds_data seg)))) as He.
  destruct (_ || _) eqn:Er; [done|]. apply orb_false_iff in Er as [Er1 Er2].
  apply negb_false_iff, Z.eqb_eq in Er2.
  intros [= <-]. destruct Hm as [Hu (n & Hn & Hn')]. unfold u64 in *.
  split; [by apply Forall_splice|]. exists n. cbn [mem_data]. rewrite length_splice by lia. done.
Qed.

Lemma new_memory_ok m c :
  module_bytes_ok m -> memory_ok (new_memory m c).
Proof.
  intros (Hi & Hm & _). unfold new_memory.
  assert (HF : Forall (fun t => u32 (lim_min (mt_limits t))) (import_memories m ++ m_memories m)).
  { apply Forall_app. split; [|done]. unfold import_memories. induction Hi as [|i l Hi _ IH]; [done|]. simpl.
    destruct (imp_desc i); [done|done|by constructor|done]. }
  destruct (import_memories m ++ m_memories m) as [|t l]; [done|]. inversion HF; subst. by apply mem_new_ok.
Qed.

Lemma default_for_ok t : value_ok (default_for t).
Proof. destruct t; simpl; unfold signed, u32, u64, U32_MAX, U64_MAX; simpl; lia. Qed.

Lemma instantiate_ok bs c i : Forall u8 bs -> instantiate bs c = Done (Ok i) -> interp_ok i.
Proof.
  intros Hbs. unfold instantiate. destruct (parse_wasm bs) as [[m|e]| |] eqn:Ep; simpl; [|done..].
  apply parse_wasm_bytes_ok in Ep; [|done]. pose proof Ep as (Hi & Hm & Hg & Hc & Hd).
  unfold new_interp. 
  destruct (init_globals _ _ _) as [globals| |] eqn:Eg; simpl; [|done..].
  destruct (ofold (m_data m) _ _) as [mem| |] eqn:Em; simpl; [|done..].
  destruct (ofold (m_elements m) _ _) as [tables| |]; simpl; [|done..]. intros [= <-].
  assert (Hglobals : Forall value_ok globals).
  { eapply init_globals_ok; [done| |done]. apply Forall_fmap, Forall_true. intros. apply default_for_ok. }
  unfold interp_ok. split_and!; try done; [apply stack_ok_nil|]. cbn [i_memory].
  revert Em. apply (ofold_Done memory_ok (fun d => Forall u8 (ds_offset d) /\ Forall u8 (ds_data d))); [|done|].
  - intros. by eapply apply_data_segment_ok.
  - by apply new_memory_ok.
Qed.

(** ** Theorems *)

(** Every byte string that instantiates gives an interpreter in a good
    state: at most 4096 stack values, every value at its width, a linear memory
    of whole pages. From any good state, whatever the byte code in its frames
    and whatever its host functions do within what is asked of them, the main
    loop comes to an end once the gas is used (no more than twice the gas left
    and one round per frame): it returns, with or without an error, in a good
    state, with no more gas counted than the maximum and one, with a memory
    that only grew and not beyond its maximum, and without frames when it
    returns [Ok]; or it panics. *)
Theorem wasm_execution_bounded
    (bs : bytes) (c : InterpreterConfig) (i0 : Interp) (Hbs : Forall u8 bs)
    (Hinst : instantiate bs c = Done (Ok i0))
    (host : Z -> M unit) (Hhost : forall n, keeps 0 any (host n))
    (i : Interp) (fuel : nat) (Hi : interp_ok i) (Hgas : gas_ok i) (Hfuel : (rounds i < fuel)%nat) :
  interp_ok i0 /\ loop_result i (run_loop host fuel i).
Proof. split; [by eapply instantiate_ok|by apply run_loop_returns]. Qed.

Definition demo_config : InterpreterConfig := mkConfig 4 10 1.
Definition demo (code : bytes) (st : list Value) (c : list CallFrame) : Interp :=
  mkInterp st None (mkFrame 0 [] 0 code 0 0 0 :: c) demo_config 0 0 empty_module [] 0 [] [] [].
Definition demo_host : Z -> M unit := fun _ => push (VI32 7).

Lemma wasm_execution_bounded_witness :
  exists i0, instantiate wasm_header demo_config = Done (Ok i0) /\
    loop_result (demo [0x41; 5; 0x41; 6; 0x6A; 0x0B] [] [])
      (run_loop demo_host 24 (demo [0x41; 5; 0x41; 6; 0x6A; 0x0B] [] [])).
Proof.
  eexists. split; [reflexivity|].
  refine (proj2 (wasm_execution_bounded wasm_header demo_config _ _ eq_refl demo_host _ _ 24 _ _ _)).
  - repeat constructor; apply u8_intro; reflexivity.
  - intros n. apply keeps_push. unfold value_ok, signed. simpl. lia.
  - unfold interp_ok, stack_ok, frame_ok. simpl. split_and!; try done; [lia|].
    repeat constructor; apply u8_intro; reflexivity.
  - unfold gas_ok, U64_MAX. cbn. lia.
  - unfold rounds. cbn. lia.
Defined.

(** *** Calls from outside *)

(** Calling a function of the module - [call_func] from outside, with no
    frame on the stack - with its type and body in place: when its code is not
    empty the first loop of [execute_call_stack] looks at the same frame for
    ever; when it is empty the call returns, without a value whatever the
    function's type, and leaves the interpreter as it was. *)
Theorem local_calls_never_run (host : Z -> M unit) (fuel : nat) (f : Z) (args : list Value) (i : Interp)
    (ft : FuncType) (body : FunctionBody)
    (Hf : i_import_funcs i <= f) (Ht : get_func_type f i = Ok ft) (Hb : get_func_body f i = Ok body)
    (Hc : i_calls i = []) (Hd : 0 < max_call_depth (i_config i)) :
  call_func host (S (S fuel)) f args i =
  if decide (fb_code body = []) then Done (Ok None, i) else Deadlock.
Proof.
  unfold call_func, mbind, M_bind, get. rewrite Ht. unfold lift at 1, mret, M_ret.
  rewrite (proj2 (Z.ltb_ge _ _)) by lia. rewrite Hb. unfold lift, id. rewrite Hc.
  change (wrap_u32 (Z.of_nat (length []))) with 0.
  rewrite (proj2 (Z.leb_gt _ _)) by lia. unfold modify, execute_call_stack.
  cbn [i_calls set_calls length pc code].
  destruct (fb_code body) as [|b l]; [|done].
  rewrite decide_True by done. cbn [length Nat.ltb Nat.leb run_loop i_calls set_calls code pc].
  cbn. rewrite <- Hc. by destruct i.
Qed.

Lemma local_calls_never_run_witness :
  exists m i, parse_wasm (encode_module m) = Done (Ok m) /\ new_interp m default_config = Done i /\
    call demo_host 1000 [109] [] i = Deadlock.
Proof.
  exists (mkModule [mkFuncType [] [TI32]] [] [0] [] [] [] [mkExport [109] EFunction 0] None []
            [mkBody [] [0x41; 7; 0x0B]] []).
  eexists. split; [reflexivity|]. split; [reflexivity|].
  exact (local_calls_never_run demo_host 998 0 []
    (mkInterp [] None [] default_config 0 0
       (mkModule [mkFuncType [] [TI32]] [] [0] [] [] [] [mkExport [109] EFunction 0] None []
          [mkBody [] [0x41; 7; 0x0B]] []) [] 0 [] [] [])
    (mkFuncType [] [TI32]) (mkBody [] [0x41; 7; 0x0B]) (Z.le_refl 0) eq_refl eq_refl eq_refl eq_refl).
Defined.

(** ** What the control flow does *)

Definition nohost : Z -> M unit := fun _ => mret tt.
Definition error_of {A} (o : outcome (result A * Interp)) : option WasmError :=
  match o with Done (Err e, _) => Some e | _ => None end.
Definition state_of {A} (o : outcome (result A * Interp)) : option Interp :=
  match o with Done (_, i) => Some i | _ => None end.

(** A function with a result cannot end as the last frame: its [end] asks for
    the frame of a caller. *)
Theorem end_of_last_frame_fails :
  error_of (run_loop nohost 100
    (set_calls [mkFrame 0 [] 0 [0x41; 7; 0x0B] 1 0 0] (demo [] [] []))) = Some InternalError.
Proof. reflexivity. Qed.

(** A trap leaves the frames on the call stack, where the next call finds them. *)
Theorem trap_leaves_frames :
  (fun i => length (i_calls i)) <$> state_of (run_loop nohost 100 (demo [0x00] [] [])) = Some 1%nat.
Proof. reflexivity. Qed.

(** [br 0] inside a block leaves the function, not the block: the constant
    after the block is never pushed. *)
Theorem branch_leaves_the_function :
  i_stack <$> state_of (run_loop nohost 100
    (demo [0x02; 0x40; 0x0C; 0; 0x0B; 0x41; 7; 0x0B] [] [])) = Some [].
Proof. reflexivity. Qed.

(** So does the [end] of a block. *)
Theorem block_end_leaves_the_function :
  i_stack <$> state_of (run_loop nohost 100 (demo [0x02; 0x0B; 0x41; 7; 0x0B] [] [])) = Some [].
Proof. reflexivity. Qed.

(** [if] with an empty block type and a false condition skips the [else] part
    too; with a value type it runs it. *)
Theorem empty_if_skips_else :
  (fun i => pc <$> head (i_calls i)) <$> state_of (execute_if
     (demo [0x04; 0x40; 0x01; 0x05; 0x00; 0x0B; 0x01] [VI32 0] [])) = Some (Some 6%nat) /\
  (fun i => pc <$> head (i_calls i)) <$> state_of (execute_if
     (demo [0x04; 0x7F; 0x01; 0x05; 0x00; 0x0B; 0x01] [VI32 0] [])) = Some (Some 4%nat).
Proof. split; reflexivity. Qed.

(** An [if] as the last byte of a function panics, whatever the condition. *)
Theorem trailing_if_panics v : execute_if (demo [0x04] [VI32 v] []) = Panic.
Proof. reflexivity. Qed.

(** [call] pushes frames beyond the configured depth, which only [call_func]
    looks at. *)
Theorem nested_calls_exceed_depth :
  let m := mkModule [mkFuncType [] []] [] [0] [] [] [] [] None [] [mkBody [] [0x10; 0; 0x0B]] [] in
  let i := mkInterp [] None [mkFrame 0 [] 0 [0x10; 0; 0x0B] 0 0 0] (mkConfig 1 4 1) 0 0 m [] 0 [] [] [] in
  error_of (run_loop nohost 100 i) = Some GasExhausted /\
  (fun i => length (i_calls i)) <$> state_of (run_loop nohost 100 i) = Some 5%nat.
Proof. split; reflexivity. Qed.

(** Operations that [Opcode] declares and the loop does not know. *)
Theorem declared_opcodes_unimplemented host o :
  o ∈ [I64Load8S; I64Load8U; I64Load16S; I64Load16U; I64Load32S; I64Load32U; I64Store8; I64Store16;
       I64Store32; I64Eqz; I64Eq; I64Ne; I64LtS; I64LtU; I64GtS; I64GtU; I64LeS; I64LeU; I64GeS; I64GeU;
       I32Rotl; I32Rotr; I64DivU; I64RemS; I64RemU; I64Xor; I64Shl; I64ShrS; I64ShrU; I64Rotl; I64Rotr;
       I32WrapI64; I64ExtendI32S; I64ExtendI32U] ->
  exec_op host o = throw (UnknownOpcode (opcode_byte o)).
Proof. intros Ho. repeat (apply elem_of_cons in Ho as [->|Ho]; [done|]). by apply elem_of_nil in Ho. Qed.

(** [i32.rem_s] of the smallest integer by -1 is 0 in WebAssembly. *)
Theorem rem_of_minimum_traps :
  error_of (i32_rem_s (demo [0x6F] [VI32 (- 2 ^ 31); VI32 (-1)] [])) = Some IntegerOverflow /\
  Z.rem (- 2 ^ 31) (-1) = 0.
Proof. split; reflexivity. Qed.

(** Calling with too few operands wraps the index of the first: the operands
    there are stay on the stack, and the last one is passed as the second
    argument. *)
Theorem short_call_keeps_operands :
  call_args [VI32 5] 2 = [VI32 0; VI32 5] /\ drain_to (wrap_u64 (1 - 2)) [VI32 5] = [VI32 5].
Proof. split; reflexivity. Qed.

(** The limit on pages caps the declared maximum, not the initial size. *)
Theorem initial_pages_not_capped :
  exists mem, new_memory (mkModule [] [] [] [] [mkMemoryType (mkLimits 60000 None)] [] [] None [] [] [])
    default_config = Some mem /\ max_pages mem = Some 256 /\ mem_pages mem = 60000.
Proof.
  eexists. split; [reflexivity|]. split; [reflexivity|].
  apply (mem_new_ok 60000). unfold u32, U32_MAX. lia.
Qed.

(** A data segment at a negative offset, whose end wraps to a small address,
    panics while the module is instantiated. *)
Theorem negative_data_offset_panics :
  instantiate (encode_module (mkModule [] [] [] [] [mkMemoryType (mkLimits 0 None)] [] [] None [] []
    [mkData 0 (enc_expr [CI32 (-1)]) [1]])) default_config = Panic.
Proof. reflexivity. Qed.

(** Two WASI imports, registered in the other order: the second swap takes the
    first function away again, and each import calls the other's function. *)
Theorem auto_register_swaps_back :
  let imp n := mkImport wasi_module n (IFunction 0) in
  let m := mkModule [] [imp [98]; imp [97]] [] [] [] [] [] None [] [] [] in
  let i := mkInterp [] None [] default_config 0 0 m [] 2 [] [] [] in
  let i := register_named_host_function wasi_module [97] (HFn 97) i in
  let i := register_named_host_function wasi_module [98] (HFn 98) i in
  i_hosts <$> auto_register_wasi i = Done [HFn 97; HFn 98].
Proof. reflexivity. Qed.
