(* ===== verification/Vma.v ===== *)
(** * Virtual memory areas ([framework/mm/vma.rs])

    The list of areas of an address space and its operations: insertion with
    merging, removal with splitting, the search for a free range, protection,
    moving, the heap end, advice and locking. Addresses are [usize] values, so
    sums wrap at 64 bits where the source does not check them. The page tables,
    the page states and the reclaim thread belong to other components: the
    calls made on them are recorded, in order, in [page_calls]. *)
From S2P Require Import Prelude.

Module Vma.

Definition PAGE_SIZE : Z := 4096.
Definition USER_ADDR_MAX : Z := 0x00007FFFFFFFF000.

Inductive Errno := EBADF | EAGAIN | ENOMEM | EACCES | EFAULT | EINVAL.

(** [Errno::as_ret]. *)
Definition as_ret (e : Errno) : Z :=
  - match e with EBADF => 9 | EAGAIN => 11 | ENOMEM => 12 | EACCES => 13 | EFAULT => 14 | EINVAL => 22 end.

Inductive result (A : Type) : Type := Ok (a : A) | Err (e : Errno).
#[global] Arguments Ok {A} a.
#[global] Arguments Err {A} e.

(** [(x + PAGE_SIZE - 1) & !(PAGE_SIZE - 1)] and [x & !(PAGE_SIZE - 1)]. *)
Definition page_up (x : Z) : Z := Z.land (wrap_u64 (x + PAGE_SIZE - 1)) (not_u64 (PAGE_SIZE - 1)).
Definition page_down (x : Z) : Z := Z.land x (not_u64 (PAGE_SIZE - 1)).

(** ** Page flags and policy flags *)
Definition PF_PRESENT : Z := Z.shiftl 1 0.
Definition PF_WRITABLE : Z := Z.shiftl 1 1.
Definition PF_USER : Z := Z.shiftl 1 2.
Definition PF_NX : Z := Z.shiftl 1 63.

Definition MLOCKED : Z := Z.shiftl 1 0.
Definition LOCKED_FUTURE : Z := Z.shiftl 1 1.
Definition LOCKED_ONFAULT : Z := Z.shiftl 1 2.
Definition VF_DONTNEED : Z := Z.shiftl 1 4.
Definition VF_PAGEOUT : Z := Z.shiftl 1 5.
Definition VF_FREE : Z := Z.shiftl 1 6.
Definition VF_RANDOM : Z := Z.shiftl 1 7.
Definition VF_SEQUENTIAL : Z := Z.shiftl 1 8.
Definition VF_WILLNEED : Z := Z.shiftl 1 9.

Definition vf_contains (a b : Z) : bool := Z.land a b =? b.
Definition vf_insert (a b : Z) : Z := Z.lor a b.
(** [self.0 & !other.0] *)
Definition vf_remove (a b : Z) : Z := Z.ldiff a b.

(** ** Areas *)
Inductive VmaType := Anonymous | FileBacked | Stack | Heap | Vdso | Vsvar | Guard | Device.

Definition vma_type_from_u8 (v : Z) : VmaType :=
  match v with
  | 0 => Anonymous | 1 => FileBacked | 2 => Stack | 3 => Heap | 4 => Vdso | 5 => Vsvar
  | 6 => Guard | 7 => Device | _ => Guard
  end.

#[export] Instance vma_type_eq_dec : EqDecision VmaType.
Proof. solve_decision. Defined.

Record Vma := mkVma {
  v_start : Z;
  v_end : Z;
  v_flags : Z;
  v_type : VmaType;
  v_offset : Z;
  v_inode : Z;
  v_shared : bool;
  v_pwm : Z;
  v_mount : option Z;
  v_vm_flags : Z;
}.

#[export] Instance vma_eq_dec : EqDecision Vma.
Proof. solve_decision. Defined.

Definition vma_new (s e flags : Z) (ty : VmaType) : Vma := mkVma s e flags ty 0 0 false 0 None 0.

Definition vma_with_offset (s e flags offset : Z) : Vma :=
  mkVma s e flags FileBacked offset 0 false 0 None 0.

Definition vma_file_backed (s e flags offset inode pwm : Z) (shared : bool) (mount : option Z) : Vma :=
  mkVma s e flags FileBacked offset inode shared pwm mount 0.

Definition contains (v : Vma) (a : Z) : bool := (v_start v <=? a) && (a <? v_end v).

Definition is_guard (v : Vma) : bool := bool_decide (v_type v = Guard).
Definition is_mlocked (v : Vma) : bool := vf_contains (v_vm_flags v) MLOCKED.

Definition with_range (s e : Z) (v : Vma) : Vma :=
  mkVma s e (v_flags v) (v_type v) (v_offset v) (v_inode v) (v_shared v) (v_pwm v) (v_mount v) (v_vm_flags v).
Definition with_flags (f : Z) (v : Vma) : Vma :=
  mkVma (v_start v) (v_end v) f (v_type v) (v_offset v) (v_inode v) (v_shared v) (v_pwm v) (v_mount v) (v_vm_flags v).
Definition with_offset (o : Z) (v : Vma) : Vma :=
  mkVma (v_start v) (v_end v) (v_flags v) (v_type v) o (v_inode v) (v_shared v) (v_pwm v) (v_mount v) (v_vm_flags v).
Definition with_vm_flags (f : Z) (v : Vma) : Vma :=
  mkVma (v_start v) (v_end v) (v_flags v) (v_type v) (v_offset v) (v_inode v) (v_shared v) (v_pwm v) (v_mount v) f.

(** ** Calls of other components *)
Inductive PageCall :=
  | UnmapPage (a : Z)
  | ProtectPage (a flags : Z)
  | SetPageLocked (a : Z) (locked : bool)
  | WakeReclaim
  | PcachePut (inode page_index : Z).

(** [let mut addr = s; while addr < e { ...; addr += PAGE_SIZE }] *)
Definition pages_of (s e : Z) : list Z :=
  (fun k => s + k * PAGE_SIZE) <$> seqZ 0 ((e - s + PAGE_SIZE - 1) / PAGE_SIZE).

Record MmStruct := mkMm {
  vmas : list Vma;
  start_brk : Z;
  brk : Z;
  start_stack : Z;
  mmap_base : Z;
  locked_vm : Z;
  mlock_all_flags : Z;
  page_calls : list PageCall;
}.

Definition mm_new : MmStruct := mkMm [] 0 0 0 0 0 0 [].

Definition eta_mm (m : MmStruct) : MmStruct :=
  mkMm (vmas m) (start_brk m) (brk m) (start_stack m) (mmap_base m) (locked_vm m) (mlock_all_flags m)
    (page_calls m).
Definition set_vmas (v : list Vma) (m : MmStruct) : MmStruct := ltac:(setter eta_mm vmas v m).
Definition set_brk_end (v : Z) (m : MmStruct) : MmStruct := ltac:(setter eta_mm brk v m).
Definition set_locked_vm (v : Z) (m : MmStruct) : MmStruct := ltac:(setter eta_mm locked_vm v m).
Definition set_mlock_all (v : Z) (m : MmStruct) : MmStruct := ltac:(setter eta_mm mlock_all_flags v m).
Definition set_calls (v : list PageCall) (m : MmStruct) : MmStruct := ltac:(setter eta_mm page_calls v m).
Definition add_calls (c : list PageCall) (m : MmStruct) : MmStruct := set_calls (page_calls m ++ c) m.

(** ** Lookup and insertion *)
Definition find_vma (l : list Vma) (a : Z) : option Vma := find_first (fun v => contains v a) l.

Definition overlaps (v e : Vma) : bool := (v_start v <? v_end e) && (v_start e <? v_end v).
Definition same_kind (e v : Vma) : bool := bool_decide (v_type e = v_type v) && (v_flags e =? v_flags v).

(** [merged] takes over every area of its kind and credential that it touches. *)
Definition mergeable (merged e : Vma) : bool :=
  same_kind e merged && (v_pwm e =? v_pwm merged) &&
  ((v_start merged <=? v_end e) && (v_start e <=? v_end merged)).
Definition extend (merged e : Vma) : Vma :=
  with_range (Z.min (v_start merged) (v_start e)) (Z.max (v_end merged) (v_end e)) merged.

Fixpoint merge_loop (merged : Vma) (l : list Vma) : list Vma * Vma :=
  match l with
  | [] => ([], merged)
  | e :: l =>
    if mergeable merged e then merge_loop (extend merged e) l
    else let '(kept, m) := merge_loop merged l in (e :: kept, m)
  end.

(** [position(|v| v.start > merged.start)] and [insert]. *)
Fixpoint insert_sorted (v : Vma) (l : list Vma) : list Vma :=
  match l with
  | [] => [v]
  | e :: l => if v_start v <? v_start e then v :: e :: l else e :: insert_sorted v l
  end.

(** [None] is the error "VMA overlap with incompatible mapping". *)
Definition insert_vma (v : Vma) (l : list Vma) : option (list Vma) :=
  if existsb (fun e => overlaps v e && negb (same_kind e v)) l then None
  else let '(kept, m) := merge_loop v l in Some (insert_sorted m kept).

(** ** Removal *)

(** One pass over the list: the areas left and the ranges whose pages are unmapped. *)
Fixpoint remove_loop (s e : Z) (l : list Vma) : list Vma * list (Z * Z) :=
  match l with
  | [] => ([], [])
  | v :: rest =>
    if v_end v <=? s then let '(l', u) := remove_loop s e rest in (v :: l', u)
    else if e <=? v_start v then (v :: rest, [])
    else
      let '(l', u) := remove_loop s e rest in
      if (s <=? v_start v) && (v_end v <=? e) then (l', (v_start v, v_end v) :: u)
      else if s <=? v_start v then (with_range e (v_end v) v :: l', (s, e) :: u)
      else if v_end v <=? e then (with_range (v_start v) s v :: l', (s, v_end v) :: u)
      else (vma_new (v_start v) s (v_flags v) (v_type v) ::
            vma_new e (v_end v) (v_flags v) (v_type v) :: l', (s, e) :: u)
  end.

Definition unmap_range (r : Z * Z) : list PageCall := UnmapPage <$> pages_of r.1 r.2.

Definition remove_range (s e : Z) (m : MmStruct) : MmStruct :=
  let '(l, u) := remove_loop s e (vmas m) in add_calls (flat_map unmap_range u) (set_vmas l m).

(** ** A free range *)
Fixpoint free_loop (cursor size : Z) (l : list Vma) : Z + Z :=
  match l with
  | [] => inr cursor
  | v :: l => if wrap_u64 (cursor + size) <=? v_start v then inl cursor else free_loop (v_end v) size l
  end.

Definition find_free_range (size : Z) (m : MmStruct) : option Z :=
  match free_loop (mmap_base m) size (vmas m) with
  | inl found => Some found
  | inr cursor => if wrap_u64 (cursor + size) <=? USER_ADDR_MAX then Some cursor else None
  end.

(** ** Protection *)

(** The first loop: is there an overlap before the first area beyond the range? *)
Fixpoint touches (s e : Z) (l : list Vma) : bool :=
  match l with
  | [] => false
  | v :: l => if v_end v <=? s then touches s e l else if e <=? v_start v then false else true
  end.

(** The fragments of one area. *)
Definition protect_one (s e new_flags : Z) (v : Vma) : list Vma :=
  if (v_end v <=? s) || (e <=? v_start v) then [v] else
  (if v_start v <? s then [with_range (v_start v) s v] else []) ++
  [with_flags new_flags (with_range (Z.max (v_start v) s) (Z.min (v_end v) e) v)] ++
  (if e <? v_end v then [with_range e (v_end v) v] else []).

Definition mprotect (start len new_flags : Z) (m : MmStruct) : result unit * MmStruct :=
  if len =? 0 then (Err EINVAL, m) else
  if U64_MAX <? start + len then (Err ENOMEM, m) else
  let range_end := page_up (start + len) in
  if negb (touches start range_end (vmas m)) then (Err ENOMEM, m) else
  (Ok tt, add_calls ((fun a => ProtectPage a new_flags) <$> pages_of (page_down start) range_end)
            (set_vmas (flat_map (protect_one start range_end new_flags) (vmas m)) m)).

(** ** Moving *)
Definition MREMAP_MAYMOVE : Z := 1.

(** The start of the first area at or above [boundary]. *)
Definition next_start (boundary : Z) (l : list Vma) : Z :=
  fold_left (fun n v => if (boundary <=? v_start v) && (v_start v <? n) then v_start v else n) l U64_MAX.

(** [for v in vmas.iter_mut() { if v.start == old_addr { v.end = ...; return } }] *)
Fixpoint set_end_at (a e : Z) (l : list Vma) : option (list Vma) :=
  match l with
  | [] => None
  | v :: l => if v_start v =? a then Some (with_range a e v :: l) else cons v <$> set_end_at a e l
  end.

Definition mremap (old_addr old_size new_size flags : Z) (m : MmStruct) : result Z * MmStruct :=
  if old_size =? 0 then (Err EINVAL, m) else
  if negb (Z.ldiff flags MREMAP_MAYMOVE =? 0) then (Err EINVAL, m) else
  let old_len := page_up old_size in
  let old_end := wrap_u64 (old_addr + old_len) in
  match find_vma (vmas m) old_addr with
  | None => (Err EFAULT, m)
  | Some old =>
    if negb (v_start old =? old_addr) || negb (v_end old =? old_end) then (Err EFAULT, m) else
    if new_size =? 0 then (Ok 0, remove_range old_addr old_end m) else
    let new_len := page_up new_size in
    if new_len <=? old_len then
      (Ok old_addr, remove_range (wrap_u64 (old_addr + new_len)) old_end m)
    else if Z.land flags MREMAP_MAYMOVE =? 0 then
      let new_end := wrap_u64 (old_end + (new_len - old_len)) in
      if new_end <=? next_start old_end (vmas m) then
        match set_end_at old_addr new_end (vmas m) with
        | Some l => (Ok old_addr, set_vmas l m)
        | None => (Err EFAULT, m)
        end
      else (Err EFAULT, m)
    else
      match find_free_range new_len m with
      | None => (Err ENOMEM, m)
      | Some new_start =>
        let m := remove_range old_addr old_end m in
        match insert_vma (with_range new_start (wrap_u64 (new_start + new_len)) old) (vmas m) with
        | Some l => (Ok new_start, set_vmas l m)
        | None => (Err ENOMEM, m)
        end
      end
  end.

(** ** The heap end *)
Definition set_brk (new_brk : Z) (m : MmStruct) : option Z * MmStruct :=
  let page_aligned := page_up new_brk in
  if start_brk m <? page_aligned then
    let flags := Z.lor (Z.lor PF_PRESENT PF_WRITABLE) PF_USER in
    match insert_vma (vma_new (brk m) page_aligned flags Heap) (vmas m) with
    | Some l => let m := set_brk_end page_aligned (set_vmas l m) in (Some (brk m), m)
    | None => (None, m)
    end
  else if page_aligned <? brk m then
    let current := brk m in
    let m := remove_range page_aligned current (set_brk_end page_aligned m) in
    (Some (brk m), m)
  else (Some (brk m), m).

(** ** Advice *)
Definition advice_flag (advice : Z) : option Z :=
  match advice with
  | 4 => Some VF_DONTNEED
  | 5 => Some VF_PAGEOUT
  | 6 => Some VF_FREE
  | 1 => Some VF_RANDOM
  | 2 => Some VF_SEQUENTIAL
  | 3 => Some VF_WILLNEED
  | _ => None
  end.

Definition outside (s e : Z) (v : Vma) : bool := (v_end v <=? s) || (e <=? v_start v).

(** The first loop: areas within the range get the flag. *)
Definition advise_whole (s e flag : Z) (v : Vma) : Vma * list (Z * Z) :=
  if outside s e v then (v, []) else
  if (s <=? v_start v) && (v_end v <=? e) then
    (with_vm_flags (vf_insert (v_vm_flags v) flag) v, [(v_start v, v_end v)])
  else (v, []).

(** The second loop: areas that stick out are split, at the start of the range
    when they begin before it, otherwise at its end. *)
Definition advise_split (s e flag : Z) (v : Vma) : list Vma * list (Z * Z) :=
  if outside s e v then ([v], []) else
  if v_start v <? s then
    ([with_range (v_start v) s v;
      with_vm_flags (vf_insert (v_vm_flags v) flag)
        (with_offset (wrap_u64 (v_offset v + (s - v_start v))) (with_range s (v_end v) v))],
     [(s, v_end v)])
  else if e <? v_end v then
    ([with_vm_flags (vf_insert (v_vm_flags v) flag) (with_range (v_start v) e v);
      with_offset (wrap_u64 (v_offset v + (e - v_start v))) (with_range e (v_end v) v)],
     [(v_start v, e)])
  else ([v], []).

Definition sum_ranges (l : list (Z * Z)) : Z := fold_left (fun n r => wrap_u64 (n + (r.2 - r.1))) l 0.

(** [madvise_evict_range] of each range, up to the first that is locked. *)
Fixpoint evict_ranges (l : list (Z * Z)) (m : MmStruct) : result unit * MmStruct :=
  match l with
  | [] => (Ok tt, m)
  | (s, e) :: l =>
    if existsb (fun v => (v_start v <=? s) && (e <=? v_end v) && is_mlocked v) (vmas m)
    then (Err EAGAIN, m)
    else evict_ranges l (add_calls [WakeReclaim] m)
  end.

Definition madvise_range (start len advice : Z) (m : MmStruct) : result Z * MmStruct :=
  if len =? 0 then (Err EINVAL, m) else
  match advice_flag advice with
  | None => (Err EINVAL, m)
  | Some flag =>
    if U64_MAX <? start + len then (Err ENOMEM, m) else
    let range_end := page_up (start + len) in
    let whole := advise_whole start range_end flag <$> vmas m in
    let split := advise_split start range_end flag <$> (fst <$> whole) in
    let touched := concat (snd <$> whole) ++ concat (snd <$> split) in
    let m := set_vmas (concat (fst <$> split)) m in
    let locked := sum_ranges touched in
    if (flag =? VF_PAGEOUT) || (flag =? VF_DONTNEED) then
      match evict_ranges touched m with
      | (Ok _, m) => (Ok locked, m)
      | (Err e, m) => (Err e, m)
      end
    else (Ok locked, m)
  end.

(** ** Locking *)

(** The bytes of the areas inside the range. *)
Definition overlap_total (s e : Z) (l : list Vma) : Z :=
  fold_left (fun n v => if outside s e v then n
                        else wrap_u64 (n + (Z.min (v_end v) e - Z.max (v_start v) s))) l 0.

(** [rlimit_query::check_memlock_exceeded]; the limit is the caller's. *)
Definition memlock_exceeded (limit current additional : Z) : bool :=
  if limit =? U64_MAX then false else limit <? sat_add_u64 current additional.

Definition mlock_range (limit start len : Z) (m : MmStruct) : result Z * MmStruct :=
  if len =? 0 then (Err EINVAL, m) else
  if U64_MAX <? start + len then (Err ENOMEM, m) else
  let range_end := page_up (start + len) in
  let total := overlap_total start range_end (vmas m) in
  if total =? 0 then (Err ENOMEM, m) else
  if memlock_exceeded limit (locked_vm m) total then (Err ENOMEM, m) else
  let l := (fun v => if outside start range_end v then v
                     else with_vm_flags (vf_insert (v_vm_flags v) MLOCKED) v) <$> vmas m in
  (Ok total,
   add_calls ((fun a => SetPageLocked a true) <$> pages_of start range_end)
     (set_locked_vm (wrap_u64 (locked_vm m + total)) (set_vmas l m))).

Definition munlock_range (start len : Z) (m : MmStruct) : result Z * MmStruct :=
  if len =? 0 then (Err EINVAL, m) else
  if U64_MAX <? start + len then (Err ENOMEM, m) else
  let range_end := page_up (start + len) in
  let total := overlap_total start range_end (vmas m) in
  let l := (fun v => if outside start range_end v then v
                     else with_vm_flags (vf_remove (v_vm_flags v) MLOCKED) v) <$> vmas m in
  (Ok total,
   add_calls ((fun a => SetPageLocked a false) <$> pages_of start range_end)
     (set_locked_vm (sat_sub (locked_vm m) total) (set_vmas l m))).

Definition MCL_CURRENT : Z := 1.
Definition MCL_FUTURE : Z := 2.
Definition MCL_ONFAULT : Z := 4.

Definition mlock_all (flags : Z) (m : MmStruct) : result Z * MmStruct :=
  if negb (Z.ldiff flags (Z.lor (Z.lor MCL_CURRENT MCL_FUTURE) MCL_ONFAULT) =? 0) then (Err EINVAL, m) else
  let has f := negb (Z.land flags f =? 0) in
  let m := if has MCL_CURRENT then
             set_locked_vm (U64_MAX / 2)
               (set_vmas ((fun v => if bool_decide (v_type v = Guard) || bool_decide (v_type v = Device) then v
                                    else with_vm_flags (vf_insert (v_vm_flags v) MLOCKED) v) <$> vmas m) m)
           else m in
  let all f bit m := set_vmas ((fun v => with_vm_flags (vf_insert (v_vm_flags v) f) v) <$> vmas m)
                       (set_mlock_all (Z.lor (mlock_all_flags m) bit) m) in
  let m := if has MCL_FUTURE then all LOCKED_FUTURE MCL_FUTURE m else m in
  let m := if has MCL_ONFAULT then all LOCKED_ONFAULT MCL_ONFAULT m else m in
  (Ok (Z.lor (Z.lor (if has MCL_CURRENT then MCL_CURRENT else 0) (if has MCL_FUTURE then MCL_FUTURE else 0))
         (if has MCL_ONFAULT then MCL_ONFAULT else 0)), m).

Definition munlock_all (m : MmStruct) : MmStruct :=
  set_mlock_all 0 (set_locked_vm 0
    (set_vmas ((fun v => with_vm_flags (vf_remove (vf_remove (vf_remove (v_vm_flags v) MLOCKED)
                                                     LOCKED_FUTURE) LOCKED_ONFAULT) v) <$> vmas m) m)).

(** [mincore_range]: a byte per page; [pte a] is the page-table entry of [a],
    if there is one. The result is the buffer's new start and the count. *)
Definition mincore_range (pte : Z -> option Z) (start len out_len : Z) : result (list Z * Z) :=
  if len =? 0 then Err EINVAL else
  let n_pages := (wrap_u64 (len + PAGE_SIZE - 1)) / PAGE_SIZE in
  if out_len <? n_pages then Err ENOMEM else
  let present k := match pte (wrap_u64 (start + k * PAGE_SIZE)) with
                   | Some p => negb (Z.land p 1 =? 0)
                   | None => false
                   end in
  let out := (fun k => if present k then 1 else 0) <$> seqZ 0 n_pages in
  Ok (out, Z.of_nat (count_if (fun b => b =? 1) out)).

End Vma.
