(* ===== verification/Mmap.v ===== *)
(** * Memory system calls ([services/mm])

    [mmap], [munmap], [mprotect], [mremap], [brk], [madvise], [mlock] and
    [mincore] over the areas of the current process ([CURRENT_MM], an option).
    What the file descriptor table, the capability check, the raw page
    allocator and the user copy answer is passed in. *)
From S2P Require Import Prelude Vma.

Module Mmap.
Import Vma.

Definition MAP_SHARED : Z := 0x01.
Definition MAP_PRIVATE : Z := 0x02.
Definition MAP_FIXED : Z := 0x10.
Definition MAP_ANONYMOUS : Z := 0x20.

Definition has (flags bit : Z) : bool := negb (Z.land flags bit =? 0).

Definition prot_to_vma_flags (prot : Z) : Z :=
  let flags := PF_USER in
  let flags := if has prot 1 then Z.lor flags PF_PRESENT else flags in
  let flags := if has prot 2 then Z.lor flags PF_WRITABLE else flags in
  if has prot 4 then flags else Z.lor flags PF_NX.

(** ** mmap and munmap *)
Definition find_or_allocate_addr (addr_hint len : Z) (m : MmStruct) : option Z :=
  if negb (addr_hint =? 0) && (addr_hint <? USER_ADDR_MAX) then Some addr_hint else find_free_range len m.

(** [mm.insert_vma(vma)], the error being [ENOMEM]. *)
Definition map_area (v : Vma) (m : MmStruct) : result Z * MmStruct :=
  match insert_vma v (vmas m) with
  | Some l => (Ok (v_start v), set_vmas l m)
  | None => (Err ENOMEM, m)
  end.

Section Files.
(** [fd_to_inode_id] and [fd_to_mount_idx]: the descriptor's entry, if it is open. *)
Variable get_fd_info : Z -> option Z.
Variable get_fd_mount_idx : Z -> option Z.

Definition fd_to_inode_id (fd : Z) : Z :=
  if fd <? 0 then 0 else match get_fd_info fd with Some n => n | None => 0 end.
Definition fd_to_mount_idx (fd : Z) : option Z := if fd <? 0 then None else get_fd_mount_idx fd.

Definition mmap_syscall (addr_hint length prot flags fd offset pwm : Z) (m : MmStruct) : result Z * MmStruct :=
  if length =? 0 then (Err EINVAL, m) else
  let len := page_up length in
  let page_flags := prot_to_vma_flags prot in
  let map_private := has flags MAP_PRIVATE in
  let map_shared := has flags MAP_SHARED in
  if map_shared && map_private then (Err EINVAL, m) else
  if negb map_shared && negb map_private then (Err EINVAL, m) else
  if has flags MAP_ANONYMOUS then
    match find_or_allocate_addr addr_hint len m with
    | None => (Err ENOMEM, m)
    | Some addr =>
      let a := page_down addr in
      map_area (vma_new a (wrap_u64 (a + len)) (Z.lor page_flags PF_PRESENT) Anonymous) m
    end
  else if fd <? 0 then (Err EBADF, m)
  else if negb (offset mod PAGE_SIZE =? 0) then (Err EINVAL, m)
  else
    let inode_id := fd_to_inode_id fd in
    if inode_id =? 0 then (Err EBADF, m) else
    match find_or_allocate_addr addr_hint len m with
    | None => (Err ENOMEM, m)
    | Some addr =>
      let a := page_down addr in
      let flags := if map_shared then Z.lor page_flags PF_PRESENT
                   else Z.ldiff (Z.lor page_flags PF_PRESENT) PF_WRITABLE in
      map_area (vma_file_backed a (wrap_u64 (a + len)) flags offset inode_id pwm map_shared
                  (fd_to_mount_idx fd)) m
    end.

(** [release_file_pages]: the pages of file areas inside the range, page by page. *)
Definition release_of (s e : Z) (v : Vma) : list PageCall :=
  if negb (bool_decide (v_type v = FileBacked)) || (v_inode v =? 0) then [] else
  if (e <=? v_start v) || (v_end v <=? s) then [] else
  (fun a => PcachePut (v_inode v) (wrap_u64 (a - v_start v + v_offset v) / PAGE_SIZE))
    <$> pages_of (Z.max (v_start v) s) (Z.min (v_end v) e).
Definition release_file_pages (s e : Z) (m : MmStruct) : MmStruct :=
  add_calls (flat_map (release_of s e) (vmas m)) m.

Definition munmap_syscall (addr length : Z) (m : MmStruct) : result unit * MmStruct :=
  if (addr =? 0) || (length =? 0) then (Err EINVAL, m) else
  let e := wrap_u64 (addr + length) in
  (Ok tt, remove_range addr e (release_file_pages addr e m)).

(** [mmap::mprotect_syscall]: whole areas, without the page tables. *)
Definition mprotect_areas (addr length prot : Z) (m : MmStruct) : result unit * MmStruct :=
  if (addr =? 0) || (length =? 0) then (Err EINVAL, m) else
  let e := wrap_u64 (addr + length) in
  (Ok tt, set_vmas ((fun v => if (v_start v <? e) && (addr <? v_end v)
                              then with_flags (prot_to_vma_flags prot) v else v) <$> vmas m) m).

(** ** The entries *)

(** [size.div_ceil(PAGE_SIZE)]: the pages asked of, or given back to, the page allocator. *)
Definition raw_pages (size : Z) : Z := (size + PAGE_SIZE - 1) / PAGE_SIZE.

(** Without areas, [mmap] takes raw pages: [alloc] is the pointer, 0 for none. *)
Definition mmap_syscall_entry (allowed : bool) (alloc pwm addr size prot flags fd offset : Z)
    (cur : option MmStruct) : Z * option MmStruct :=
  if size =? 0 then (as_ret EINVAL, cur) else
  if negb allowed then (as_ret EACCES, cur) else
  match cur with
  | None => (if alloc =? 0 then as_ret ENOMEM else alloc, None)
  | Some m =>
    match mmap_syscall addr size prot flags fd offset pwm m with
    | (Ok a, m) => (a, Some m)
    | (Err e, m) => (as_ret e, Some m)
    end
  end.

(** The last component is the raw release [munmap_free_pages] makes. *)
Definition munmap_syscall_entry (addr size : Z) (cur : option MmStruct) :
    Z * option MmStruct * option (Z * Z) :=
  if (addr =? 0) || (size =? 0) then (as_ret EINVAL, cur, None) else
  match cur with
  | None => (0, None, Some (addr, raw_pages size))
  | Some m =>
    match munmap_syscall addr size m with
    | (Ok _, m) => (0, Some m, None)
    | (Err e, m) => (as_ret e, Some m, None)
    end
  end.
End Files.

(** ** mprotect *)
Definition PROT_NONE : Z := 0.
Definition PROT_READ : Z := 1.
Definition PROT_WRITE : Z := 2.
Definition PROT_EXEC : Z := 4.

Definition prot_to_page_flags (prot : Z) : Z :=
  let flags := 0 in
  let flags := if has prot PROT_READ || has prot PROT_WRITE || has prot PROT_EXEC
               then Z.lor flags PF_PRESENT else flags in
  let flags := if has prot PROT_WRITE then Z.lor flags PF_WRITABLE else flags in
  let flags := if negb (prot =? PROT_NONE) then Z.lor flags PF_USER else flags in
  if negb (has prot PROT_EXEC) && negb (prot =? PROT_NONE) then Z.lor flags PF_NX else flags.

Definition mprotect_syscall (addr len prot : Z) (cur : option MmStruct) : result Z * option MmStruct :=
  if has addr 0xFFF then (Err EINVAL, cur) else
  if len =? 0 then (Err EINVAL, cur) else
  if negb (Z.ldiff prot (Z.lor (Z.lor PROT_READ PROT_WRITE) PROT_EXEC) =? 0) then (Err EINVAL, cur) else
  match cur with
  | None => (Err ENOMEM, None)
  | Some m =>
    match mprotect addr len (prot_to_page_flags prot) m with
    | (Ok _, m) => (Ok 0, Some m)
    | (Err e, m) => (Err e, Some m)
    end
  end.

(** ** mremap *)
Definition MAX_REMAP : Z := Z.shiftl 1 30.

Definition mremap_syscall (old_addr old_size new_size flags : Z) (m : MmStruct) : result Z * MmStruct :=
  if (old_addr =? 0) || (old_size =? 0) || (new_size =? 0) then (Err EINVAL, m) else
  if has old_addr 0xFFF then (Err EINVAL, m) else
  if (MAX_REMAP <? old_size) || (MAX_REMAP <? new_size) then (Err ENOMEM, m) else
  if negb (Z.ldiff flags MREMAP_MAYMOVE =? 0) then (Err EINVAL, m) else
  mremap old_addr old_size new_size flags m.

(** ** brk *)
Definition BRK_ADDR_MAX : Z := 0x7FFFFFFFFFFF.
Definition BRK_INITIAL : Z := 0x400000 + 65536.

(** [alloc pages] is the pointer of the raw page allocator; [b] the static [BRK]. *)
Definition sys_brk (alloc : Z -> Z) (addr : Z) (cur : option MmStruct) (b : Z) :
    Z * option MmStruct * Z :=
  if addr =? 0 then (match cur with Some m => brk m | None => b end, cur, b) else
  if BRK_ADDR_MAX <? addr then (as_ret ENOMEM, cur, b) else
  match cur with
  | Some m =>
    match set_brk addr m with
    | (Some n, m) => (n, Some m, b)
    | (None, m) => (as_ret ENOMEM, Some m, b)
    end
  | None =>
    if (b <? addr) && (alloc (raw_pages (addr - b)) =? 0) then (as_ret ENOMEM, None, b)
    else (addr, None, addr)
  end.

Definition brk_syscall (alloc : Z -> Z) (addr : Z) (cur : option MmStruct) (b : Z) :
    result Z * option MmStruct * Z :=
  if addr =? 0 then let '(r, cur, b) := sys_brk alloc 0 cur b in (Ok r, cur, b) else
  if BRK_ADDR_MAX <? addr then (Err ENOMEM, cur, b) else
  let '(r, cur, b) := sys_brk alloc addr cur b in
  (if r <? 0 then Err ENOMEM else Ok r, cur, b).

(** ** madvise, mlock and mincore *)
Definition MADV_RANDOM : Z := 1.
Definition MADV_SEQUENTIAL : Z := 2.
Definition MADV_WILLNEED : Z := 3.
Definition MADV_DONTNEED : Z := 4.
Definition MADV_FREE : Z := 5.
Definition MADV_REMOVE : Z := 9.
Definition MADV_PAGEOUT : Z := 21.

(** [match mm.f(..) { Ok(_) => 0, Err(e) => e.as_ret() }] on the current areas. *)
Definition on_mm {A} (f : MmStruct -> result A * MmStruct) (cur : option MmStruct) : Z * option MmStruct :=
  match cur with
  | None => (as_ret EFAULT, None)
  | Some m => match f m with
              | (Ok _, m) => (0, Some m)
              | (Err e, m) => (as_ret e, Some m)
              end
  end.

Definition unaligned (addr : Z) : bool := has addr (PAGE_SIZE - 1).

Definition sys_madvise (addr len advice : Z) (cur : option MmStruct) : Z * option MmStruct :=
  let advice := wrap_u32 advice in
  if (addr =? 0) && (len =? 0) then (as_ret EINVAL, cur) else
  if unaligned addr then (as_ret EINVAL, cur) else
  if 21 <? advice then (as_ret EINVAL, cur) else
  if advice =? MADV_REMOVE then (0, cur) else
  on_mm (madvise_range addr len advice) cur.

Definition sys_mlock (limit addr len : Z) (cur : option MmStruct) : Z * option MmStruct :=
  if unaligned addr then (as_ret EINVAL, cur) else
  if len =? 0 then (0, cur) else on_mm (mlock_range limit addr len) cur.

Definition sys_munlock (addr len : Z) (cur : option MmStruct) : Z * option MmStruct :=
  if unaligned addr then (as_ret EINVAL, cur) else
  if len =? 0 then (0, cur) else on_mm (munlock_range addr len) cur.

Definition sys_mlockall (flags : Z) (cur : option MmStruct) : Z * option MmStruct :=
  on_mm (mlock_all (wrap_u32 flags)) cur.

Definition sys_munlockall (cur : option MmStruct) : Z * option MmStruct :=
  on_mm (fun m => (Ok tt, munlock_all m)) cur.

(** [userptr]: the sum wraps. *)
Definition validate_user_ptr (p : Z) : bool := (0 <? p) && (p <? USER_ADDR_MAX).
Definition validate_user_buf (p len : Z) : bool :=
  if len =? 0 then negb (p =? 0) else validate_user_ptr p && (wrap_u64 (p + len) <=? USER_ADDR_MAX).

Definition MAX_STACK_PAGES : Z := 1024.

(** The second component is the buffer copied to the user; [copy_ok] says whether
    the copy succeeds, [pte] reads the page table. *)
Definition sys_mincore (pte : Z -> option Z) (copy_ok : bool) (addr len vec_ptr : Z)
    (cur : option MmStruct) : Z * option (list Z) :=
  if unaligned addr then (as_ret EINVAL, None) else
  if len =? 0 then (0, None) else
  if vec_ptr =? 0 then (as_ret EFAULT, None) else
  let n_pages := wrap_u64 (len + PAGE_SIZE - 1) / PAGE_SIZE in
  if negb (validate_user_buf vec_ptr n_pages) then (as_ret EFAULT, None) else
  match cur with
  | None => (as_ret EFAULT, None)
  | Some _ =>
    if MAX_STACK_PAGES <? n_pages then (as_ret ENOMEM, None) else
    match mincore_range pte addr len n_pages with
    | Ok (out, _) => if copy_ok then (0, Some out) else (as_ret EFAULT, None)
    | Err e => (as_ret e, None)
    end
  end.

End Mmap.
