(* ===== verification/VmaSpec.v ===== *)
(** * What the areas of an address space promise (facts on framework/mm/vma.rs)

    [wf_from]: areas are non-empty, sorted and disjoint. [view] is the address
    space the list describes, a function from addresses to types and flags.
    Insertion, removal and protection are stated on the view; [Step] is a
    history of them. Then the search for a free range, [mmap], and where the
    file behind an address is lost. *)
From S2P Require Import Prelude Vma Mmap.

Module VmaSpec.
Import Vma Mmap.

(** ** Well-formed lists and the address space they describe *)
Fixpoint wf_from (lo : Z) (l : list Vma) : Prop :=
  match l with
  | [] => True
  | v :: l => lo <= v_start v < v_end v /\ wf_from (v_end v) l
  end.

Definition attr (v : Vma) : VmaType * Z := (v_type v, v_flags v).
Definition view (l : list Vma) (a : Z) : option (VmaType * Z) := attr <$> find_vma l a.

Lemma area_contains v a : contains v a = true <-> v_start v <= a < v_end v.
Proof. unfold contains. rewrite andb_true_iff. lia. Qed.

Lemma wf_weaken lo lo' l : lo' <= lo -> wf_from lo l -> wf_from lo' l.
Proof. destruct l; cbn; [done|]. intros ? [? ?]. split; [lia|done]. Qed.

Lemma wf_elem lo l v : wf_from lo l -> v ∈ l -> lo <= v_start v < v_end v.
Proof.
  revert lo. induction l as [|x l IH]; intros lo; [by intros ? ?%not_elem_of_nil|].
  intros [H Hl] [->|Hv]%elem_of_cons; [done|]. pose proof (IH _ Hl Hv). lia.
Qed.

Lemma view_nil a : view [] a = None.
Proof. done. Qed.

Lemma view_cons v l a : view (v :: l) a = if contains v a then Some (attr v) else view l a.
Proof. unfold view, find_vma. rewrite find_first_cons. by destruct (contains v a). Qed.

Lemma view_below lo l a : wf_from lo l -> a < lo -> view l a = None.
Proof.
  revert lo. induction l as [|v l IH]; intros lo; [done|]. intros [Hv Hl] Ha. rewrite view_cons.
  destruct (contains v a) eqn:E; [apply area_contains in E; lia|]. apply (IH _ Hl). lia.
Qed.

Lemma view_app l1 l2 a : view (l1 ++ l2) a = match view l1 a with Some t => Some t | None => view l2 a end.
Proof.
  induction l1 as [|v l1 IH]; cbn [app]; [by rewrite view_nil|]. rewrite !view_cons.
  by destruct (contains v a).
Qed.

(** In a well-formed list the view does not depend on the order of the areas. *)
Definition covered (l : list Vma) (a : Z) (t : VmaType * Z) : Prop :=
  exists v, v ∈ l /\ contains v a = true /\ attr v = t.

Lemma view_covered lo l a t : wf_from lo l -> view l a = Some t <-> covered l a t.
Proof.
  revert lo. induction l as [|v l IH]; intros lo; cbn [wf_from].
  { rewrite view_nil. split; [done|]. by intros (? & ?%not_elem_of_nil & _). }
  intros [Hv Hl]. rewrite view_cons. destruct (contains v a) eqn:E.
  - split; [intros [= <-]; exists v; by split; [left|]|]. intros (w & Hw & Ha & <-).
    apply elem_of_cons in Hw as [->|Hw]; [done|]. apply area_contains in E, Ha.
    pose proof (wf_elem _ _ _ Hl Hw). lia.
  - rewrite (IH _ Hl). unfold covered. split; intros (w & Hw & Ha & Ht); exists w; split_and!; try done; [by right|].
    apply elem_of_cons in Hw as [->|Hw]; [congruence|done].
Qed.

Lemma covered_cons v l a t : covered (v :: l) a t <-> (contains v a = true /\ attr v = t) \/ covered l a t.
Proof.
  unfold covered. setoid_rewrite elem_of_cons. split.
  - intros (w & [->|Hw] & H); [by left|right; by exists w].
  - intros [H|(w & Hw & H)]; [exists v; auto|exists w; auto].
Qed.

Lemma covered_same l l' : (forall v, v ∈ l <-> v ∈ l') -> forall a t, covered l a t <-> covered l' a t.
Proof. intros H a t. unfold covered. by setoid_rewrite H. Qed.

Lemma view_ext lo lo' l l' a :
  wf_from lo l -> wf_from lo' l' -> (forall t, covered l a t <-> covered l' a t) -> view l a = view l' a.
Proof. intros H H' HC. apply option_eq. intros t. by rewrite !view_covered by eauto. Qed.

(** ** Insertion *)
Definition disjoint_areas (v e : Vma) : Prop := v_end v <= v_start e \/ v_end e <= v_start v.
Definition same_class (e v : Vma) : Prop := attr e = attr v /\ v_pwm e = v_pwm v.

Lemma same_kind_attr e v : same_kind e v = true <-> attr e = attr v.
Proof.
  unfold same_kind, attr. rewrite andb_true_iff, bool_decide_eq_true, Z.eqb_eq. split; [by intros [-> ->]|].
  by intros [= -> ->].
Qed.

Lemma mergeable_spec m e :
  mergeable m e = true <-> same_class e m /\ v_start m <= v_end e /\ v_start e <= v_end m.
Proof.
  unfold mergeable, same_class. rewrite !andb_true_iff, same_kind_attr, Z.eqb_eq, !Z.leb_le. tauto.
Qed.

Lemma extend_class m e v : same_class v (extend m e) <-> same_class v m.
Proof. done. Qed.

(** [merged] meets only areas of its class. *)
Definition meets (m : Vma) (l : list Vma) : Prop := forall e, e ∈ l -> same_class e m \/ disjoint_areas m e.

Lemma meets_extend lo m e l :
  wf_from lo (e :: l) -> mergeable m e = true -> meets m (e :: l) -> meets (extend m e) l.
Proof.
  intros [He Hl] (_ & H1 & H2)%mergeable_spec Hm x Hx. rewrite extend_class.
  destruct (Hm x) as [?|Hd]; [by right|by left|]. right. pose proof (wf_elem _ _ _ Hl Hx).
  unfold disjoint_areas in *. cbn. lia.
Qed.

Lemma covered_extend m e l a t :
  v_start m < v_end m -> v_start e < v_end e -> mergeable m e = true ->
  covered (extend m e :: l) a t <-> covered (m :: e :: l) a t.
Proof.
  intros Hm He ([Ha _] & H1 & H2)%mergeable_spec. unfold covered. setoid_rewrite elem_of_cons. split.
  - intros (v & [->|Hv] & Hc & <-); [|by exists v; split; [do 2 right|]].
    apply area_contains in Hc. cbn in Hc. destruct (decide (v_start m <= a < v_end m)).
    + exists m. split_and!; [by left|by apply area_contains|done].
    + exists e. split_and!; [right; by left|apply area_contains; lia|done].
  - intros (v & [->|[->|Hv]%elem_of_cons] & Hc & <-); [| |by exists v; split; [right|]];
      exists (extend m e); split_and!; try (by left); try done; apply area_contains; apply area_contains in Hc; cbn; lia.
Qed.

Section MergeLoop.

(** What [merge_loop] keeps is what it does not take over. *)
Lemma merge_loop_wf lo merged l : wf_from lo l -> wf_from lo (merge_loop merged l).1.
Proof.
  revert lo merged. induction l as [|e l IH]; intros lo merged; [done|]. intros [He Hl]. cbn [merge_loop].
  destruct (mergeable merged e).
  - apply (wf_weaken (v_end e)); [lia|]. by apply IH.
  - specialize (IH _ merged Hl). destruct (merge_loop merged l). done.
Qed.

Lemma merge_loop_kept merged l v : v ∈ (merge_loop merged l).1 -> v ∈ l.
Proof.
  revert merged. induction l as [|e l IH]; intros merged; [done|]. cbn [merge_loop].
  destruct (mergeable merged e); [intros ?%IH; by right|]. specialize (IH merged).
  destruct (merge_loop merged l). cbn in *. rewrite !elem_of_cons. tauto.
Qed.

(** An area left of the rest of the list is not met by the extensions. *)
Lemma merge_loop_apart a b merged l :
  a < b -> wf_from b l -> (b <= v_start merged \/ v_end merged <= a) ->
  b <= v_start (merge_loop merged l).2 \/ v_end (merge_loop merged l).2 <= a.
Proof.
  intros Hab. revert b Hab merged. induction l as [|e l IH]; intros b Hab merged; [done|].
  intros [He Hl] Hm. cbn [merge_loop]. destruct (mergeable merged e) eqn:E.
  - apply mergeable_spec in E as (_ & H1 & H2). apply (IH b); [done|apply (wf_weaken (v_end e)); [lia|done]|].
    cbn. lia.
  - specialize (IH b Hab merged). destruct (merge_loop merged l). apply IH; [|done].
    apply (wf_weaken (v_end e)); [lia|done].
Qed.

Lemma merge_loop_merged lo merged l :
  wf_from lo l -> lo <= v_start merged < v_end merged ->
  let m := (merge_loop merged l).2 in
  lo <= v_start m < v_end m /\ attr m = attr merged /\ v_pwm m = v_pwm merged.
Proof.
  revert lo merged. induction l as [|e l IH]; intros lo merged; [done|]. intros [He Hl] Hm. cbn [merge_loop].
  assert (wf_from lo l) by (apply (wf_weaken (v_end e)); [lia|done]).
  destruct (mergeable merged e) eqn:E.
  - destruct (IH lo (extend merged e)) as (? & -> & ->); [done|cbn; lia|]. done.
  - specialize (IH lo merged). destruct (merge_loop merged l). apply IH; [done|lia].
Qed.

Lemma merge_loop_covered lo merged l a t :
  wf_from lo l -> v_start merged < v_end merged ->
  covered ((merge_loop merged l).2 :: (merge_loop merged l).1) a t <-> covered (merged :: l) a t.
Proof.
  revert lo merged. induction l as [|e l IH]; intros lo merged; [done|]. intros [He Hl] Hm. cbn [merge_loop].
  destruct (mergeable merged e) eqn:E.
  - rewrite (IH (v_end e)) by (done || (cbn; lia)). apply covered_extend; [done|lia|done].
  - specialize (IH _ merged Hl Hm). destruct (merge_loop merged l) as [kept m]. cbn [fst snd] in *.
    rewrite !covered_cons in *. tauto.
Qed.

Lemma merge_loop_disjoint lo merged l :
  wf_from lo l -> v_start merged < v_end merged -> meets merged l ->
  forall e, e ∈ (merge_loop merged l).1 -> disjoint_areas (merge_loop merged l).2 e.
Proof.
  revert lo merged. induction l as [|e l IH]; intros lo merged; [by intros _ _ _ ? ?%not_elem_of_nil|].
  intros Hwf Hm Hmt. pose proof Hwf as [He Hl]. cbn [merge_loop]. destruct (mergeable merged e) eqn:E.
  - apply (IH (v_end e)); [done|cbn; lia|by eapply meets_extend].
  - assert (Hd : disjoint_areas merged e).
    { destruct (Hmt e) as [Hc|?]; [by left| |done]. apply not_true_iff_false in E. rewrite mergeable_spec in E.
      unfold disjoint_areas. destruct (decide (v_start merged <= v_end e /\ v_start e <= v_end merged)); [|lia].
      by destruct E. }
    pose proof (merge_loop_apart (v_start e) (v_end e) merged l) as Ha.
    specialize (IH (v_end e) merged Hl Hm). destruct (merge_loop merged l) as [kept m]. cbn [fst snd] in *.
    intros x [->|Hx]%elem_of_cons.
    + unfold disjoint_areas in *. destruct Ha; [lia|done|lia|lia|lia].
    + apply IH; [|done]. intros y Hy. apply Hmt. by right.
Qed.
End MergeLoop.

Lemma insert_sorted_elem v l x : x ∈ insert_sorted v l <-> x ∈ v :: l.
Proof.
  induction l as [|e l IH]; [done|]. cbn [insert_sorted]. destruct (v_start v <? v_start e); [done|].
  rewrite elem_of_cons, IH, !elem_of_cons. tauto.
Qed.

Lemma insert_sorted_wf lo v l :
  lo <= v_start v < v_end v -> wf_from lo l -> (forall e, e ∈ l -> disjoint_areas v e) ->
  wf_from lo (insert_sorted v l).
Proof.
  revert lo. induction l as [|e l IH]; intros lo Hv; [done|]. intros [He Hl] Hd. cbn [insert_sorted].
  assert (Hve : disjoint_areas v e) by (apply Hd; by left). unfold disjoint_areas in Hve.
  destruct (Z.ltb_spec (v_start v) (v_start e)).
  - split; [lia|]. split; [lia|done].
  - split; [lia|]. apply IH; [lia|done|]. intros x Hx. apply Hd. by right.
Qed.

(** The areas of its kind that a new area overlaps have its credential. *)
Definition agrees (v : Vma) (l : list Vma) : Prop :=
  Forall (fun e => overlaps v e = true -> attr e = attr v -> v_pwm e = v_pwm v) l.

Lemma overlaps_disjoint v e :
  overlaps v e = false <-> disjoint_areas v e.
Proof. unfold overlaps, disjoint_areas. rewrite andb_false_iff, !Z.ltb_ge. lia. Qed.

Lemma insert_refused v l :
  insert_vma v l = None <-> exists e, e ∈ l /\ overlaps v e = true /\ attr e <> attr v.
Proof.
  unfold insert_vma. destruct (existsb _ l) eqn:E.
  - split; [|done]. intros _. apply existsb_exists in E as (e & He & Hc). exists e.
    apply andb_true_iff in Hc as [Ho Hk]. split_and!; [by apply list_elem_of_In|done|].
    intros Ha%same_kind_attr. by rewrite Ha in Hk.
  - split; [by destruct (merge_loop v l)|]. intros (e & He & Ho & Ha). exfalso.
    apply not_true_iff_false in E. apply E, existsb_exists. exists e. split; [by apply list_elem_of_In|].
    rewrite Ho. destruct (same_kind e v) eqn:K; [by apply same_kind_attr in K|done].
Qed.

Lemma insert_wf l v l' :
  wf_from 0 l -> 0 <= v_start v < v_end v -> agrees v l -> insert_vma v l = Some l' ->
  wf_from 0 l' /\ forall a t, covered l' a t <-> covered (v :: l) a t.
Proof.
  intros Hl Hv Hag Hi. assert (Hm : meets v l).
  { intros e He. destruct (overlaps v e) eqn:E; [|right; by apply overlaps_disjoint]. left.
    destruct (decide (attr e = attr v)) as [Ha|Ha]; [split; [done|by apply (proj1 (Forall_forall _ _) Hag e He)]|].
    assert (insert_vma v l = None) by (apply insert_refused; eauto). congruence. }
  unfold insert_vma in Hi. destruct (existsb _ l); [done|].
  pose proof (merge_loop_wf 0 v l Hl) as H1. pose proof (merge_loop_merged 0 v l Hl ltac:(lia)) as [H2 _].
  pose proof (merge_loop_disjoint 0 v l Hl ltac:(lia) Hm) as H3.
  pose proof (fun a t => merge_loop_covered 0 v l a t Hl ltac:(lia)) as H4.
  destruct (merge_loop v l) as [kept m]. cbn [fst snd] in *. injection Hi as <-. split.
  - by apply insert_sorted_wf.
  - intros a t. rewrite <- H4. apply covered_same. intros x. apply insert_sorted_elem.
Qed.

Lemma insert_view l v l' a :
  wf_from 0 l -> 0 <= v_start v < v_end v -> agrees v l -> insert_vma v l = Some l' ->
  view l' a = if contains v a then Some (attr v) else view l a.
Proof.
  intros Hl Hv Hag Hi. destruct (insert_wf _ _ _ Hl Hv Hag Hi) as [Hw Hc]. apply option_eq. intros t.
  rewrite (view_covered 0), Hc, covered_cons by done. destruct (contains v a) eqn:E.
  - split; [|intros [= <-]; by left]. intros [[_ <-]|(x & Hx & Hxa & <-)]; [done|].
    destruct (decide (attr x = attr v)) as [->|Hn]; [done|].
    assert (insert_vma v l = None); [|congruence]. apply insert_refused. exists x. split_and!; [done| |done].
    apply area_contains in E, Hxa. unfold overlaps. rewrite andb_true_iff. lia.
  - rewrite (view_covered 0) by done. split; [by intros [[? _]|?]|by right].
Qed.

(** ** Removal *)
Lemma contains_range s e v a : contains (with_range s e v) a = (s <=? a) && (a <? e).
Proof. done. Qed.

(** What [remove_loop] leaves of one area. *)
Lemma remove_loop_spec s e lo l :
  s <= e -> wf_from lo l ->
  wf_from lo (remove_loop s e l).1 /\
  forall a, view (remove_loop s e l).1 a = if (s <=? a) && (a <? e) then None else view l a.
Proof.
  intros Hse. revert lo. induction l as [|v l IH]; intros lo.
  { intros _. split; [done|]. intros a. cbn. by destruct (_ && _). }
  intros [Hv Hl]. destruct (IH _ Hl) as [IHw IHv]. cbn [remove_loop].
  destruct (Z.leb_spec (v_end v) s) as [H1|H1].
  { destruct (remove_loop s e l) as [l' u]. cbn [fst] in *. split; [done|]. intros a.
    rewrite !view_cons, IHv. unfold contains. split_bool; (lia || done). }
  destruct (Z.leb_spec e (v_start v)) as [H2|H2].
  { cbn [fst]. split; [done|]. intros a. destruct (_ && _) eqn:E; [|done].
    apply (view_below (v_start v)); [by split; [lia|]|lia]. }
  assert (Hw : forall x, x <= v_end v -> wf_from x (remove_loop s e l).1) by (intros x Hx; by eapply wf_weaken).
  assert (Hb : forall a, a < v_end v -> view l a = None) by (intros a; by apply view_below).
  destruct (remove_loop s e l) as [l' u]. cbn [fst] in *.
  split.
  - split_bool; cbn [fst wf_from with_range vma_new v_start v_end]; split_and?; (lia || (apply Hw; lia)).
  - intros a. specialize (Hb a). split_bool; cbn [fst]; rewrite ?view_cons, ?IHv; unfold contains;
      cbn [with_range vma_new v_start v_end]; split_bool; try done; try lia; rewrite Hb by lia; done.
Qed.

(** The ranges whose pages are unmapped are inside the range removed and hold
    every address that was mapped there. *)
Lemma remove_loop_unmaps s e lo l :
  s <= e -> wf_from lo l ->
  (forall r, r ∈ (remove_loop s e l).2 -> s <= r.1 /\ r.2 <= e) /\
  forall a, s <= a < e -> view l a <> None -> exists r, r ∈ (remove_loop s e l).2 /\ r.1 <= a < r.2.
Proof.
  intros Hse. revert lo. induction l as [|v l IH]; intros lo.
  { intros _. split; [by intros r ?%not_elem_of_nil|]. intros a _ []. apply view_nil. }
  intros [Hv Hl]. destruct (IH _ Hl) as [IHr IHu]. cbn [remove_loop].
  destruct (Z.leb_spec (v_end v) s) as [H1|H1].
  { destruct (remove_loop s e l) as [l' u]. split; [done|]. intros a Ha. rewrite view_cons.
    destruct (contains v a) eqn:E; [apply area_contains in E; lia|]. by apply IHu. }
  destruct (Z.leb_spec e (v_start v)) as [H2|H2].
  { split; [by intros r ?%not_elem_of_nil|]. intros a Ha [].
    apply (view_below (v_start v)); [by split; [lia|]|lia]. }
  destruct (remove_loop s e l) as [l' u]. cbn [snd] in *.
  set (r0 := (if (s <=? v_start v) && (v_end v <=? e) then (v_start v, v_end v)
              else if s <=? v_start v then (s, e) else if v_end v <=? e then (s, v_end v) else (s, e))).
  assert (Hr0 : s <= r0.1 /\ r0.2 <= e /\ forall a, s <= a < e -> v_start v <= a < v_end v -> r0.1 <= a < r0.2).
  { unfold r0. split_bool; cbn; split_and!; intros; lia. }
  match goal with |- context [ (?t).2 ] => assert (Ht : t.2 = r0 :: u) by (unfold r0; by split_bool) end.
  rewrite Ht. split.
  - intros r [->|Hr]%elem_of_cons; [tauto|by apply IHr].
  - intros a Ha. rewrite view_cons. destruct (contains v a) eqn:E.
    + intros _. exists r0. split; [by left|]. apply area_contains in E. by apply Hr0.
    + intros Hn. destruct (IHu a Ha Hn) as (r & Hr & ?). exists r. split; [by right|done].
Qed.

(** ** Protection *)
Definition in_range (s e a : Z) : bool := (s <=? a) && (a <? e).

Lemma protect_one_wf s e f lo v l :
  s < e -> lo <= v_start v < v_end v -> wf_from (v_end v) l -> wf_from lo (protect_one s e f v ++ l).
Proof.
  intros Hse Hv Hl. unfold protect_one. split_bool; cbn [app wf_from with_range with_flags v_start v_end];
    split_and?; try lia; by apply (wf_weaken (v_end v)); [lia|].
Qed.

Lemma view_protect_one s e f v a :
  s < e -> v_start v < v_end v ->
  view (protect_one s e f v) a = if contains v a then Some (v_type v, if in_range s e a then f else v_flags v) else None.
Proof.
  intros Hse Hv. unfold protect_one, in_range.
  destruct (Z.leb_spec (v_end v) s); [|destruct (Z.leb_spec e (v_start v))]; cbn [orb].
  1,2: rewrite view_cons, view_nil; unfold contains, attr; split_bool; (done || lia).
  rewrite !view_app, view_cons, view_nil. destruct (Z.ltb_spec (v_start v) s), (Z.ltb_spec e (v_end v));
    rewrite ?view_cons, ?view_nil; unfold contains, attr; cbn [with_range with_flags v_start v_end v_flags v_type];
    split_bool; try done; lia.
Qed.

Lemma protect_list s e f lo l :
  s < e -> wf_from lo l ->
  wf_from lo (flat_map (protect_one s e f) l) /\
  forall a, view (flat_map (protect_one s e f) l) a =
            (fun t => (t.1, if in_range s e a then f else t.2)) <$> view l a.
Proof.
  intros Hse. revert lo. induction l as [|v l IH]; intros lo; [by intros _; split|].
  intros [Hv Hl]. destruct (IH _ Hl) as [IHw IHv]. cbn [flat_map]. split; [by apply protect_one_wf|].
  intros a. rewrite view_app, view_protect_one, IHv, view_cons by lia. by destruct (contains v a).
Qed.

Lemma touches_spec s e lo l :
  s < e -> wf_from lo l -> touches s e l = true <-> exists a, s <= a < e /\ view l a <> None.
Proof.
  intros Hse. revert lo. induction l as [|v l IH]; intros lo.
  { intros _. split; [done|]. intros (a & _ & []). done. }
  intros [Hv Hl]. cbn [touches]. destruct (Z.leb_spec (v_end v) s) as [H1|H1].
  - rewrite (IH _ Hl). apply exist_proper. intros a. rewrite view_cons.
    destruct (contains v a) eqn:E; [apply area_contains in E; split; lia|done].
  - destruct (Z.leb_spec e (v_start v)) as [H2|H2].
    + split; [done|]. intros (a & Ha & []). apply (view_below (v_start v)); [by split; [lia|]|lia].
    + split; [|done]. intros _. exists (Z.max s (v_start v)). split; [lia|]. rewrite view_cons.
      replace (contains v _) with true; [done|]. symmetry. apply area_contains. lia.
Qed.

(** ** Page rounding *)
Lemma land_not_page x : u64 x -> Z.land x (not_u64 (PAGE_SIZE - 1)) = x / PAGE_SIZE * PAGE_SIZE.
Proof.
  intros Hx. rewrite land_not_u64 by (done || (unfold u64, U64_MAX; lia)).
  change (PAGE_SIZE - 1) with (Z.ones 12). rewrite Z.ldiff_ones_r, Z.shiftr_div_pow2, Z.shiftl_mul_pow2 by lia.
  done.
Qed.

Lemma page_down_spec x : u64 x -> page_down x = x / PAGE_SIZE * PAGE_SIZE.
Proof. apply land_not_page. Qed.

Lemma page_up_spec x : 0 <= x <= U64_MAX - (PAGE_SIZE - 1) -> page_up x = (x + PAGE_SIZE - 1) / PAGE_SIZE * PAGE_SIZE.
Proof.
  unfold U64_MAX, PAGE_SIZE. intros Hx. unfold page_up. assert (u64 (x + 4096 - 1)) by (unfold u64, U64_MAX; lia).
  rewrite wrap_u64_small by done. by apply land_not_page.
Qed.

Definition aligned (x : Z) : Prop := x mod PAGE_SIZE = 0.

Lemma page_up_bounds x : 0 <= x <= U64_MAX - (PAGE_SIZE - 1) -> x <= page_up x < x + PAGE_SIZE /\ aligned (page_up x).
Proof.
  intros Hx. rewrite page_up_spec by done. unfold aligned, PAGE_SIZE in *. rewrite Z.mod_mul by lia.
  pose proof (Z.div_mod (x + 4096 - 1) 4096). pose proof (Z.mod_pos_bound (x + 4096 - 1) 4096). lia.
Qed.

Lemma aligned_add x y : aligned x -> aligned y -> aligned (x + y).
Proof. unfold aligned, PAGE_SIZE. intros Hx Hy. rewrite Z.add_mod by lia. by rewrite Hx, Hy. Qed.

Lemma page_down_aligned x : u64 x -> aligned x -> page_down x = x.
Proof. intros Hx Ha. rewrite page_down_spec by done. unfold aligned, PAGE_SIZE in *. pose proof (Z.div_mod x 4096). lia. Qed.

(** ** Histories of operations *)
Inductive Op := OMap (v : Vma) | OUnmap (s e : Z) | OProtect (s len f : Z).

Definition run (o : Op) (m : MmStruct) : bool * MmStruct :=
  match o with
  | OMap v => match insert_vma v (vmas m) with Some l => (true, set_vmas l m) | None => (false, m) end
  | OUnmap s e => (true, remove_range s e m)
  | OProtect s len f => match mprotect s len f m with (Ok _, m) => (true, m) | (Err _, m) => (false, m) end
  end.

(** Ranges are in user space, and what a mapping overlaps of its own kind has its credential. *)
Definition allowed (o : Op) (m : MmStruct) : Prop :=
  match o with
  | OMap v => 0 <= v_start v < v_end v /\ agrees v (vmas m)
  | OUnmap s e => s <= e
  | OProtect s len f => 0 <= s /\ 0 <= len /\ s + len <= USER_ADDR_MAX
  end.

#[export] Instance allowed_dec o m : Decision (allowed o m).
Proof. destruct o; unfold allowed, agrees; apply _. Defined.

Fixpoint runs (ops : list Op) (m : MmStruct) : list bool * MmStruct :=
  match ops with
  | [] => ([], m)
  | o :: ops => let '(r, m) := run o m in let '(rs, m) := runs ops m in (r :: rs, m)
  end.

Fixpoint all_allowed (ops : list Op) (m : MmStruct) : Prop :=
  match ops with [] => True | o :: ops => allowed o m /\ all_allowed ops (run o m).2 end.

#[export] Instance all_allowed_dec ops m : Decision (all_allowed ops m).
Proof. revert m. induction ops; intros m; cbn [all_allowed]; apply _. Defined.

(** The address space as a function, and what an operation does to it. *)
Definition space := Z -> option (VmaType * Z).

Definition effect (o : Op) (σ : space) (ok : bool) (σ' : space) : Prop :=
  match o with
  | OMap v =>
    (ok = true <-> forall a, contains v a = true -> σ a = None \/ σ a = Some (attr v)) /\
    forall a, σ' a = if ok && contains v a then Some (attr v) else σ a
  | OUnmap s e => ok = true /\ forall a, σ' a = if in_range s e a then None else σ a
  | OProtect s len f =>
    let e := page_up (s + len) in
    (ok = true <-> 0 < len /\ exists a, s <= a < e /\ σ a <> None) /\
    forall a, σ' a = if ok && in_range s e a then (fun t => (t.1, f)) <$> σ a else σ a
  end.

Inductive effects : space -> list Op -> list bool -> space -> Prop :=
  | effects_nil σ : effects σ [] [] σ
  | effects_cons σ o ok σ' ops oks σ'' :
      effect o σ ok σ' -> effects σ' ops oks σ'' -> effects σ (o :: ops) (ok :: oks) σ''.

Lemma vmas_set l m : vmas (set_vmas l m) = l.
Proof. by destruct m. Qed.
Lemma vmas_add_calls c m : vmas (add_calls c m) = vmas m.
Proof. by destruct m. Qed.

Lemma vmas_remove_range s e m : vmas (remove_range s e m) = (remove_loop s e (vmas m)).1.
Proof. unfold remove_range. destruct (remove_loop s e (vmas m)). by rewrite vmas_add_calls, vmas_set. Qed.

Lemma map_effect v m :
  wf_from 0 (vmas m) -> allowed (OMap v) m ->
  wf_from 0 (vmas (run (OMap v) m).2) /\
  effect (OMap v) (view (vmas m)) (run (OMap v) m).1 (view (vmas (run (OMap v) m).2)).
Proof.
  intros Hw [Hv Ha]. cbn [run]. destruct (insert_vma v (vmas m)) as [l|] eqn:E; cbn [fst snd].
  - rewrite vmas_set. destruct (insert_wf _ _ _ Hw Hv Ha E) as [Hl _]. split; [done|]. split.
    + split; [|done]. intros _ a Hc. destruct (view (vmas m) a) as [t|] eqn:Ht; [|by left].
      apply (view_covered 0) in Ht as (e & He & Hea & <-); [|done]. right.
      destruct (decide (attr e = attr v)) as [->|Hn]; [done|].
      assert (insert_vma v (vmas m) = None); [|congruence]. apply insert_refused. exists e. split_and!; try done.
      apply area_contains in Hc, Hea. unfold overlaps. rewrite andb_true_iff. lia.
    + intros a. rewrite (insert_view _ _ _ _ Hw Hv Ha E). done.
  - split; [done|]. split; [|done]. split; [done|]. intros H.
    apply insert_refused in E as (e & He & Ho & Hn). pose proof (wf_elem _ _ _ Hw He).
    unfold overlaps in Ho. rewrite andb_true_iff in Ho. set (a := Z.max (v_start v) (v_start e)).
    assert (Hc : view (vmas m) a = Some (attr e)).
    { apply (view_covered 0); [done|]. exists e. split_and!; [done|apply area_contains; lia|done]. }
    destruct (H a) as [?|?]; [apply area_contains; lia|congruence|congruence].
Qed.

Lemma unmap_effect s e m :
  wf_from 0 (vmas m) -> s <= e ->
  wf_from 0 (vmas (remove_range s e m)) /\
  forall a, view (vmas (remove_range s e m)) a = if in_range s e a then None else view (vmas m) a.
Proof. intros Hw Hs. rewrite vmas_remove_range. by apply remove_loop_spec. Qed.

Lemma protect_effect s len f m :
  wf_from 0 (vmas m) -> allowed (OProtect s len f) m ->
  wf_from 0 (vmas (run (OProtect s len f) m).2) /\
  effect (OProtect s len f) (view (vmas m)) (run (OProtect s len f) m).1 (view (vmas (run (OProtect s len f) m).2)).
Proof.
  intros Hw (Hs & Hl & Hm). unfold USER_ADDR_MAX in Hm. cbn [run effect]. unfold mprotect.
  destruct (Z.eqb_spec len 0) as [->|Hl0]; [split; [done|]; split; [split; [done|lia]|done]|].
  destruct (Z.ltb_spec U64_MAX (s + len)); [unfold U64_MAX in *; lia|].
  destruct (page_up_bounds (s + len)) as [Hb _]; [unfold U64_MAX, PAGE_SIZE; lia|].
  pose proof (touches_spec s (page_up (s + len)) 0 (vmas m) ltac:(lia) Hw) as Ht.
  destruct (touches _ _ _); cbn [negb fst snd andb].
  - rewrite vmas_add_calls, vmas_set. destruct (protect_list s (page_up (s + len)) f 0 (vmas m)) as [H1 H2]; [lia|done|].
    split; [done|]. split; [split; [intros _; split; [lia|by apply Ht]|done]|]. intros a. rewrite H2.
    destruct (in_range _ _ a), (view (vmas m) a) as [[]|]; done.
  - split; [done|]. split; [|done]. split; [done|]. intros [_ He]. by apply Ht in He.
Qed.

(** C5: A history of mappings, removals and protection changes leaves the areas
    non-empty, sorted and disjoint, and its outcomes and the types and flags of
    every address are those of the address space as a function: a mapping is
    refused exactly when an address of it has other attributes, and then
    nothing changes; a removal clears its range and nothing else; a protection
    change sets the flags of its mapped addresses and nothing else, and is
    refused exactly when there are none.  [allowed] says of which calls: a mapping
    is of a non-empty range of non-negative addresses, and the areas it overlaps
    that have its type and flags also carry its credential (with another one the
    code lets areas overlap, [hole_then_overlap]); a removal has its end not
    before its start; a protection change stays below [USER_ADDR_MAX]. *)
Theorem address_space_refines ops m :
  wf_from 0 (vmas m) -> all_allowed ops m ->
  wf_from 0 (vmas (runs ops m).2) /\ effects (view (vmas m)) ops (runs ops m).1 (view (vmas (runs ops m).2)).
Proof.
  revert m. induction ops as [|o ops IH]; intros m Hw; [by split; [|constructor]|]. intros [Ho Hops]. cbn [runs].
  assert (H : wf_from 0 (vmas (run o m).2) /\ effect o (view (vmas m)) (run o m).1 (view (vmas (run o m).2))).
  { destruct o as [v|s e|s len f]; [by apply map_effect| |by apply protect_effect]. cbn [run fst snd effect].
    destruct (unmap_effect s e m Hw Ho). done. }
  destruct (run o m) as [r m1]. cbn [fst snd] in *. destruct H as [H1 H2]. destruct (IH m1 H1 Hops) as [H3 H4].
  destruct (runs ops m1) as [rs m2]. split; [done|]. by econstructor.
Qed.

Lemma address_space_refines_witness :
  let rw := Z.lor (Z.lor PF_USER PF_PRESENT) PF_WRITABLE in
  let ops := [OMap (vma_new 0x10000 0x14000 rw Anonymous); OMap (vma_new 0x14000 0x16000 rw Anonymous);
              OProtect 0x12000 0x1000 PF_USER; OMap (vma_new 0x12000 0x13000 rw Heap); OUnmap 0x11000 0x13800] in
  (runs ops mm_new).1 = [true; true; true; false; true] /\
  effects (view []) ops [true; true; true; false; true] (view (vmas (runs ops mm_new).2)).
Proof.
  intros rw ops. split; [by vm_compute|]. apply (address_space_refines ops mm_new); [done|].
  apply (bool_decide_unpack _). by vm_compute.
Defined.


(** ** A free range *)

(** No area of the list meets the range. *)
Definition free_in (l : list Vma) (a n : Z) : Prop := forall e, e ∈ l -> a + n <= v_start e \/ v_end e <= a.

Lemma free_loop_sound size c l :
  0 < size -> wf_from c l -> (forall e, e ∈ l -> v_end e + size <= U64_MAX) -> 0 <= c -> c + size <= U64_MAX ->
  match free_loop c size l with
  | inl a => c <= a /\ (free_in l a size /\ exists e, e ∈ l /\ a + size <= v_start e) /\
             (a = c \/ exists e, e ∈ l /\ a = v_end e)
  | inr a => c <= a /\ (forall e, e ∈ l -> v_end e <= a) /\ (a = c \/ exists e, e ∈ l /\ a = v_end e)
  end.
Proof.
  intros Hs. revert c. induction l as [|v l IH]; intros c; cbn [free_loop].
  { intros _ _ Hc Hm. split; [lia|]. split; [by intros e ?%not_elem_of_nil|by left]. }
  intros [Hv Hl] Hb Hc Hm. rewrite wrap_u64_small by (unfold u64, U64_MAX in *; lia).
  assert (Hve : v_end v + size <= U64_MAX) by (apply Hb; by left).
  destruct (Z.leb_spec (c + size) (v_start v)).
  { split; [lia|]. split; [|by left]. split; [|by exists v; split; [left|]].
    intros e [->|He]%elem_of_cons; [by left|]. pose proof (wf_elem _ _ _ Hl He). lia. }
  specialize (IH (v_end v) Hl). destruct (free_loop (v_end v) size l) as [a|a];
    (destruct IH as (H1 & H2 & H3); [intros e He; apply Hb; by right|lia|lia|]); (split; [lia|]); split.
  1: split; [|destruct H2 as [_ (e & He & ?)]; exists e; by split; [right|]].
  1,3: intros e [->|He]%elem_of_cons; [lia|by apply H2].
  1,2: right; destruct H3 as [->|(e & He & ->)]; [exists v; by split; [left|]|exists e; by split; [right|]].
Qed.

(** Every free range above the cursor is found, or one below it. *)
Lemma free_loop_complete size c l a0 :
  0 < size -> wf_from c l -> (forall e, e ∈ l -> v_end e + size <= U64_MAX) -> 0 <= c -> c + size <= U64_MAX ->
  c <= a0 -> free_in l a0 size ->
  match free_loop c size l with inl _ => True | inr a => a <= a0 end.
Proof.
  intros Hs. revert c. induction l as [|v l IH]; intros c; cbn [free_loop]; [done|].
  intros [Hv Hl] Hb Hc Hm Hca Hf. rewrite wrap_u64_small by (unfold u64, U64_MAX in *; lia).
  destruct (Z.leb_spec (c + size) (v_start v)); [done|]. destruct (Hf v) as [?|?]; [by left|lia|].
  apply IH; [done| |lia| |done|]; [intros e He; apply Hb; by right|pose proof (Hb v ltac:(by left)); lia|].
  intros e He. apply Hf. by right.
Qed.

(** The areas lie on page boundaries in user space. *)
Definition page_area (v : Vma) : Prop := aligned (v_start v) /\ aligned (v_end v) /\ v_end v <= USER_ADDR_MAX.
Definition user_space (m : MmStruct) : Prop :=
  wf_from 0 (vmas m) /\ Forall page_area (vmas m) /\ aligned (mmap_base m) /\ 0 <= mmap_base m <= USER_ADDR_MAX.

(** The end of the first area, above which [find_free_range] looks. *)
Definition search_start (m : MmStruct) : Z :=
  match vmas m with [] => mmap_base m | v :: _ => v_end v end.

Lemma find_free_range_spec size m :
  user_space m -> 0 < size <= USER_ADDR_MAX ->
  match find_free_range size m with
  | Some a => 0 <= a /\ a + size <= USER_ADDR_MAX /\ aligned a /\ free_in (vmas m) a size
  | None => forall a, search_start m <= a -> a + size <= USER_ADDR_MAX -> ~ free_in (vmas m) a size
  end.
Proof.
  intros (Hw & Hp & Hba & Hb) Hs. rewrite Forall_forall in Hp. unfold USER_ADDR_MAX in *.
  assert (Hend : forall e, e ∈ vmas m -> v_end e + size <= U64_MAX /\ aligned (v_end e) /\
                                         0 <= v_start e < v_end e /\ v_end e <= 0x7FFFFFFFF000).
  { intros e He. destruct (Hp e He) as (_ & ? & ?). pose proof (wf_elem _ _ _ Hw He). unfold USER_ADDR_MAX, U64_MAX in *.
    split_and!; (done || lia). }
  unfold find_free_range, search_start. clear Hp. destruct (vmas m) as [|v l] eqn:E.
  { cbn [free_loop]. rewrite wrap_u64_small by (unfold u64, U64_MAX; lia). unfold USER_ADDR_MAX.
    destruct (Z.leb_spec (mmap_base m + size) 0x7FFFFFFFF000); [|intros; lia].
    split_and!; [lia|lia|done|by intros e ?%not_elem_of_nil]. }
  destruct (Hend v) as (? & ? & ? & ?); [by left|]. pose proof Hw as [Hv Hl]. cbn [free_loop].
  rewrite wrap_u64_small by (unfold u64, U64_MAX; lia). destruct (Z.leb_spec (mmap_base m + size) (v_start v)).
  { split_and!; [lia|lia|done|]. intros e [->|He]%elem_of_cons; [by left|]. pose proof (wf_elem _ _ _ Hl He). lia. }
  assert (Hb' : forall e, e ∈ l -> v_end e + size <= U64_MAX) by (intros e He; apply Hend; by right).
  pose proof (free_loop_sound size (v_end v) l ltac:(lia) Hl Hb' ltac:(lia) ltac:(lia)) as Hso.
  pose proof (fun a => free_loop_complete size (v_end v) l a ltac:(lia) Hl Hb' ltac:(lia) ltac:(lia)) as Hco.
  assert (Hal : forall a, a = v_end v \/ (exists e, e ∈ l /\ a = v_end e) -> aligned a /\ 0 <= a <= 0x7FFFFFFFF000).
  { intros a [->|(e & He & ->)]; [split; [done|lia]|]. destruct (Hend e) as (? & ? & ? & ?); [by right|]. split; [done|lia]. }
  unfold USER_ADDR_MAX. destruct (free_loop (v_end v) size l) as [a|a]; destruct Hso as (Ha & Hfr & Hin%Hal).
  - destruct Hfr as [Hfr (e & He & ?)]. destruct (Hend e) as (? & ? & ? & ?); [by right|]. split_and!; [lia|lia|apply Hin|].
    intros x [->|Hx]%elem_of_cons; [by right|by apply Hfr].
  - rewrite wrap_u64_small by (unfold u64, U64_MAX; lia). destruct (Z.leb_spec (a + size) 0x7FFFFFFFF000).
    + split_and!; [lia|done|apply Hin|]. intros e [->|He]%elem_of_cons; [by right|right; by apply Hfr].
    + intros a0 Ha0 Hm Hf. specialize (Hco a0 Ha0). assert (a <= a0); [|lia]. apply Hco. intros e He. apply Hf. by right.
Qed.

(** ** Mapping anonymous memory *)
Lemma merge_loop_forall (P : Vma -> Prop) merged l :
  (forall m e, P m -> P e -> P (extend m e)) -> P merged -> Forall P l ->
  P (merge_loop merged l).2 /\ Forall P (merge_loop merged l).1.
Proof.
  intros HP. revert merged. induction l as [|e l IH]; intros merged Hm; [done|]. intros [He Hl]%Forall_cons.
  cbn [merge_loop]. destruct (mergeable merged e); [apply IH; [by apply HP|done]|].
  specialize (IH merged Hm Hl). destruct (merge_loop merged l). destruct IH. split; [done|by constructor].
Qed.

Lemma insert_forall (P : Vma -> Prop) v l l' :
  (forall m e, P m -> P e -> P (extend m e)) -> P v -> Forall P l -> insert_vma v l = Some l' -> Forall P l'.
Proof.
  intros HP Hv Hl. unfold insert_vma. destruct (existsb _ l); [done|].
  destruct (merge_loop_forall P v l HP Hv Hl) as [H1 H2]. destruct (merge_loop v l) as [kept m]. intros [= <-].
  apply Forall_forall. intros x [->|Hx]%insert_sorted_elem%elem_of_cons; [done|]. by eapply Forall_forall in H2.
Qed.

Lemma page_area_extend m e : page_area m -> page_area e -> page_area (extend m e).
Proof.
  unfold page_area. cbn. intros (? & ? & ?) (? & ? & ?). split_and!; [| |lia].
  - by destruct (Z.min_spec (v_start m) (v_start e)) as [[_ ->]|[_ ->]].
  - by destruct (Z.max_spec (v_end m) (v_end e)) as [[_ ->]|[_ ->]].
Qed.

(** An area in a free range is always taken, and nothing else changes. *)
Lemma map_free v m :
  user_space m -> page_area v -> 0 <= v_start v < v_end v -> free_in (vmas m) (v_start v) (v_end v - v_start v) ->
  exists m', map_area v m = (Ok (v_start v), m') /\ user_space m' /\
    forall a, view (vmas m') a = if contains v a then Some (attr v) else view (vmas m) a.
Proof.
  intros (Hw & Hp & Hb) Hv Hr Hf.
  assert (Hno : forall e, e ∈ vmas m -> overlaps v e = false).
  { intros e He%Hf. apply overlaps_disjoint. unfold disjoint_areas. lia. }
  assert (Hag : agrees v (vmas m)) by (apply Forall_forall; intros e He%Hno; congruence).
  unfold map_area. destruct (insert_vma v (vmas m)) as [l|] eqn:E.
  - exists (set_vmas l m). split; [done|]. destruct (insert_wf _ _ _ Hw Hr Hag E) as [Hl _]. split.
    + unfold user_space. rewrite vmas_set. split; [done|]. split; [|by destruct m].
      eapply insert_forall; [apply page_area_extend|done..].
    + intros a. rewrite vmas_set. by apply insert_view.
  - apply insert_refused in E as (e & He%Hno & ? & _). congruence.
Qed.

(** [prot] and the kind of mapping requested. *)
Definition one_kind (flags : Z) : bool := xorb (has flags MAP_SHARED) (has flags MAP_PRIVATE).

(** C14: An anonymous [mmap] without an address, of exactly one of the kinds
    [MAP_SHARED] and [MAP_PRIVATE] and a length that fits user space, returns a page-aligned range of user space that no area meets; its
    addresses get the protection asked for, every other address keeps its
    area, and the areas stay on page boundaries in user space. It fails only
    with [ENOMEM], changing nothing, and only when every range of that length
    above the first area meets an area. *)
Theorem mmap_returns_fresh_range fdi fdm length prot flags fd offset pwm m :
  user_space m -> 0 < length <= USER_ADDR_MAX -> one_kind flags = true -> has flags MAP_ANONYMOUS = true ->
  let len := page_up length in
  match mmap_syscall fdi fdm 0 length prot flags fd offset pwm m with
  | (Ok a, m') =>
    aligned a /\ 0 <= a /\ a + len <= USER_ADDR_MAX /\ user_space m' /\
    forall x, (a <= x < a + len -> view (vmas m) x = None) /\
      view (vmas m') x = if in_range a (a + len) x
                         then Some (Anonymous, Z.lor (prot_to_vma_flags prot) PF_PRESENT) else view (vmas m) x
  | (Err e, m') =>
    e = ENOMEM /\ m' = m /\
    forall a, search_start m <= a -> a + len <= USER_ADDR_MAX -> ~ free_in (vmas m) a len
  end.
Proof.
  intros Hu Hl Hk Ha len. destruct (page_up_bounds length) as [Hb Hal]; [unfold USER_ADDR_MAX, U64_MAX, PAGE_SIZE in *; lia|].
  assert (Hlen : 0 < len <= USER_ADDR_MAX).
  { subst len. revert Hb Hal. unfold USER_ADDR_MAX, aligned, PAGE_SIZE in *. intros.
    pose proof (Z.div_mod (page_up length) 4096). lia. }
  unfold mmap_syscall. destruct (Z.eqb_spec length 0); [lia|]. unfold one_kind in Hk. rewrite Ha.
  destruct (has flags MAP_SHARED), (has flags MAP_PRIVATE); try done; cbn [andb negb].
  all: unfold find_or_allocate_addr; change (negb (0 =? 0)) with false; cbn [andb]; fold len;
    pose proof (find_free_range_spec len m Hu Hlen) as Hf; destruct (find_free_range len m) as [a|]; [|done];
    destruct Hf as (Ha0 & Ham & Haa & Hfr);
    rewrite page_down_aligned, wrap_u64_small by (unfold u64, USER_ADDR_MAX, U64_MAX in *; done || lia);
    set (v := vma_new a (a + len) (Z.lor (prot_to_vma_flags prot) PF_PRESENT) Anonymous).
  all: destruct (map_free v m) as (m' & -> & Hu' & Hview); [done| |cbn; lia| |].
  1,4: split_and!; [done|by apply aligned_add|cbn; lia].
  1,3: cbn; by replace (a + len - a) with len by lia.
  all: split_and!; [done..|]; intros x; split; [|apply Hview]; intros Hx; destruct (view (vmas m) x) as [t|] eqn:Hv; [|done];
    destruct Hu as (Hw & _); apply (view_covered 0) in Hv as (e & He & Hc & _); [|done];
    apply area_contains in Hc; subst v; cbn in Hx; destruct (Hfr e He); lia.
Qed.

Lemma mmap_returns_fresh_range_witness :
  let rw := Z.lor (Z.lor PF_USER PF_PRESENT) PF_WRITABLE in
  let m := mkMm [vma_new 0x400000 0x402000 rw Anonymous] 0 0 0 0x400000 0 0 [] in
  exists m', mmap_syscall (fun _ => None) (fun _ => None) 0 5000 3 0x22 (-1) 0 7 m = (Ok 0x402000, m') /\
    view (vmas m') 0x403fff = Some (Anonymous, Z.lor (prot_to_vma_flags 3) PF_PRESENT).
Proof.
  intros rw m.
  assert (Hu : user_space m).
  { split; [cbn; lia|]. split; [|split; [done|cbn; unfold USER_ADDR_MAX; lia]]. by repeat constructor. }
  pose proof (mmap_returns_fresh_range (fun _ => None) (fun _ => None) 5000 3 0x22 (-1) 0 7 m Hu ltac:(unfold USER_ADDR_MAX; lia)
                eq_refl eq_refl) as H.
  destruct (mmap_syscall _ _ 0 5000 3 0x22 (-1) 0 7 m) as [[a|e] m'] eqn:E; [|exfalso; revert E; by vm_compute].
  assert (a = 0x402000) as -> by (revert E; vm_compute; by intros [= <-]).
  exists m'. split; [done|]. destruct H as (_ & _ & _ & _ & H). destruct (H 0x403fff) as [_ ->]. done.
Defined.

(** ** Removal and the page tables *)
Lemma elem_of_pages_of s e a : s <= a < e -> aligned s -> aligned a -> a ∈ pages_of s e.
Proof.
  unfold aligned, pages_of, PAGE_SIZE. intros Ha Hs Hx. apply list_elem_of_fmap.
  exists ((a - s) / 4096). pose proof (Z.div_mod a 4096). pose proof (Z.div_mod s 4096).
  assert (Hd : a - s = (a / 4096 - s / 4096) * 4096) by lia. rewrite Hd, Z.div_mul by lia. split; [lia|].
  apply elem_of_seqZ. split; [lia|]. pose proof (Z.div_mod (e - s + 4096 - 1) 4096).
  pose proof (Z.mod_pos_bound (e - s + 4096 - 1) 4096). lia.
Qed.

Lemma remove_loop_aligned s e l r :
  aligned s -> Forall page_area l -> r ∈ (remove_loop s e l).2 -> aligned r.1.
Proof.
  intros Hs. induction l as [|v l IH]; intros Hl; [by intros ?%not_elem_of_nil|].
  apply Forall_cons in Hl as [(Hv & _ & _) Hl]. specialize (IH Hl). cbn [remove_loop].
  destruct (v_end v <=? s); [by destruct (remove_loop s e l)|].
  destruct (e <=? v_start v); [by intros ?%not_elem_of_nil|]. destruct (remove_loop s e l) as [l' u].
  split_bool; intros [->|Hr]%elem_of_cons; done || by apply IH.
Qed.

(** [munmap] of a range of user space clears the areas in the range and no
    others, and unmaps every page of the range that an area covered. *)
Theorem munmap_unmaps addr length m :
  user_space m -> 0 < addr -> aligned addr -> 0 < length -> addr + length <= USER_ADDR_MAX ->
  exists m', munmap_syscall addr length m = (Ok tt, m') /\ wf_from 0 (vmas m') /\
    (forall a, view (vmas m') a = if in_range addr (addr + length) a then None else view (vmas m) a) /\
    forall a, in_range addr (addr + length) a = true -> aligned a -> view (vmas m) a <> None ->
      UnmapPage a ∈ page_calls m'.
Proof.
  intros (Hw & Hp & _) Ha0 Ha Hl Hm. unfold munmap_syscall. unfold USER_ADDR_MAX in Hm.
  destruct (Z.eqb_spec addr 0); [lia|]. destruct (Z.eqb_spec length 0); [lia|]. cbn [orb].
  rewrite wrap_u64_small by (unfold u64, U64_MAX; lia).
  set (m1 := release_file_pages addr (addr + length) m).
  assert (Hv : vmas m1 = vmas m) by (unfold m1, release_file_pages; by rewrite vmas_add_calls).
  eexists. split; [done|]. rewrite <- Hv in Hw, Hp |- *.
  destruct (unmap_effect addr (addr + length) m1 Hw ltac:(lia)) as [H1 H2]. split; [done|]. split; [done|].
  intros a Hr Hal Hn. unfold in_range in Hr. rewrite andb_true_iff in Hr.
  destruct (remove_loop_unmaps addr (addr + length) 0 (vmas m1) ltac:(lia) Hw) as [_ Hu].
  destruct (Hu a ltac:(lia) Hn) as (r & Hr1 & Hr2). unfold remove_range.
  pose proof (remove_loop_aligned addr (addr + length) (vmas m1) r Ha Hp Hr1) as Hra.
  destruct (remove_loop addr (addr + length) (vmas m1)) as [l' u].
  change (page_calls (add_calls ?c ?x)) with (page_calls x ++ c). apply elem_of_app. right.
  apply list_elem_of_In, in_flat_map. exists r. split; [by apply list_elem_of_In|].
  apply list_elem_of_In, list_elem_of_fmap. exists a. split; [done|]. by apply elem_of_pages_of.
Qed.

Lemma munmap_unmaps_witness :
  let m := mkMm [vma_new 0x400000 0x402000 7 Anonymous] 0 0 0 0 0 0 [] in
  exists m', munmap_syscall 0x401000 0x1000 m = (Ok tt, m') /\ UnmapPage 0x401000 ∈ page_calls m' /\
    view (vmas m') 0x400fff = Some (Anonymous, 7).
Proof.
  intros m.
  assert (Hu : user_space m).
  { split; [cbn; lia|]. split; [|split; [done|cbn; unfold USER_ADDR_MAX; lia]]. by repeat constructor. }
  destruct (munmap_unmaps 0x401000 0x1000 m Hu eq_refl eq_refl eq_refl ltac:(unfold USER_ADDR_MAX; lia))
    as (m' & H1 & _ & H2 & H3). exists m'. split; [done|]. split; [by apply H3|]. by rewrite H2.
Defined.

(** ** Where the code does otherwise *)

(** The byte of its file that an area maps at [a]. *)
Definition file_byte (l : list Vma) (a : Z) : option (Z * Z) :=
  match find_vma l a with
  | Some v => if bool_decide (v_type v = FileBacked) && negb (v_inode v =? 0)
              then Some (v_inode v, v_offset v + (a - v_start v)) else None
  | None => None
  end.

Definition file_area : Vma := vma_file_backed 0x10000 0x14000 5 0 42 7 true None.

(** Removing a hole in a file mapping leaves areas without the file. *)
Example hole_loses_file :
  let m := remove_range 0x11000 0x12000 (set_vmas [file_area] mm_new) in
  file_byte [file_area] 0x13000 = Some (42, 0x3000) /\ file_byte (vmas m) 0x13000 = None.
Proof. by vm_compute. Qed.

(** Removing the front of a file mapping moves the file under the rest. *)
Example front_shifts_file :
  let m := remove_range 0x10000 0x11000 (set_vmas [file_area] mm_new) in
  file_byte [file_area] 0x13000 = Some (42, 0x3000) /\ file_byte (vmas m) 0x13000 = Some (42, 0x2000).
Proof. by vm_compute. Qed.

(** So does a protection change in the middle. *)
Example protect_shifts_file :
  let m := (mprotect 0x11000 0x1000 1 (set_vmas [file_area] mm_new)).2 in
  file_byte [file_area] 0x13000 = Some (42, 0x3000) /\ file_byte (vmas m) 0x13000 = Some (42, 0x1000).
Proof. by vm_compute. Qed.

(** Two files mapped side by side become one. *)
Example files_merge :
  file_byte (default [] (insert_vma (vma_file_backed 0x14000 0x15000 5 0 43 7 true None) [file_area])) 0x14000
  = Some (43, 0x4000).
Proof. by vm_compute. Qed.

(** After a hole, a new mapping over the rest overlaps it. *)
Example hole_then_overlap :
  let l := vmas (remove_range 0x11000 0x12000 (set_vmas [file_area] mm_new)) in
  default [] (insert_vma (vma_file_backed 0x12000 0x13000 5 0 42 7 true None) l)
  = [vma_new 0x10000 0x11000 5 FileBacked; vma_new 0x12000 0x14000 5 FileBacked;
     vma_file_backed 0x12000 0x13000 5 0 42 7 true None].
Proof. by vm_compute. Qed.

(** No code sets [start_brk]: the heap end cannot be raised over a program. *)
Lemma brk_over_program new e m :
  start_brk m = 0 -> brk m = 0 -> e ∈ vmas m -> v_type e <> Heap -> 0 < v_end e ->
  v_start e < page_up new -> 0 < page_up new -> (set_brk new m).1 = None.
Proof.
  intros Hs Hb He Ht He0 He1 Hp. unfold set_brk. rewrite Hs, Hb. destruct (Z.ltb_spec 0 (page_up new)); [|lia].
  destruct (insert_vma _ (vmas m)) as [l|] eqn:E; [|done]. exfalso.
  enough (insert_vma (vma_new 0 (page_up new) (Z.lor (Z.lor PF_PRESENT PF_WRITABLE) PF_USER) Heap) (vmas m) = None) by congruence.
  apply insert_refused. exists e. split; [done|]. split.
  - unfold overlaps. cbn. rewrite andb_true_iff. lia.
  - unfold attr. cbn. by intros [= ].
Qed.

(** Lowering the heap end keeps the heap mapped. *)
Example brk_keeps_heap :
  let m := (set_brk 0x3000 mm_new).2 in
  (set_brk 0x1000 m).1 = Some 0x1000 /\ vmas (set_brk 0x1000 m).2 = vmas m /\ view (vmas m) 0x2000 <> None.
Proof. by vm_compute. Qed.

(** No code sets [mmap_base]: the first mapping of a program linked at 4 MiB is the null page. *)
Example null_page_mapped :
  let m := mkMm [vma_new 0x400000 0x402000 7 Anonymous] 0 0 0 0 0 0 [] in
  (mmap_syscall (fun _ => None) (fun _ => None) 0 4096 3 0x22 (-1) 0 7 m).1 = Ok 0.
Proof. by vm_compute. Qed.

(** A buffer that wraps around the address space is accepted. *)
Example buffer_wraps : validate_user_buf 0x1000 U64_MAX = true.
Proof. by vm_compute. Qed.

(** A length that rounds up to 2^64 maps nothing and succeeds. *)
Example length_wraps :
  (mmap_syscall (fun _ => None) (fun _ => None) 0x10000 U64_MAX 3 0x22 (-1) 0 7 mm_new).1 = Ok 0x10000.
Proof. by vm_compute. Qed.

(** Locking twice counts twice. *)
Example lock_counts_twice :
  let m := set_vmas [vma_new 0x1000 0x2000 7 Anonymous] mm_new in
  locked_vm (mlock_range U64_MAX 0x1000 0x1000 (mlock_range U64_MAX 0x1000 0x1000 m).2).2 = 0x2000.
Proof. by vm_compute. Qed.

End VmaSpec.
