(* ===== verification/PageTable.v ===== *)
(** * Page tables ([framework/mm/vmm_x86_64.rs])

    Physical memory is read as 64-bit words, [word p i] being the word of index
    [i] in the page at [p]; tables are pages of 512 entries.  The page allocator
    is the class [PageSource]; [PmmSource] in [PageTableSpec] shows that the
    buddy allocator is one.  TLB flushes are recorded in order.  The lock
    serialises the operations; as the code takes it, a second acquisition does
    not wait (see the findings), so the operations here are whole. *)
From S2P Require Import Prelude.

(** ** Pages *)
Class PageSource (A : Type) := {
  alloc_page : A -> option Z * A;
  free_page : Z -> A -> A;
}.

Module PageTable.

(** ** Entries *)
Definition PAGE_SIZE : Z := 4096.
Definition HUGE_PAGE_2M_SIZE : Z := 0x200000.
Definition HUGE_PAGE_1G_SIZE : Z := 0x40000000.
Definition FRAME_MASK : Z := 0x000FFFFFFFFFF000.

Definition PAGE_PRESENT : Z := Z.shiftl 1 0.
Definition PAGE_WRITABLE : Z := Z.shiftl 1 1.
Definition PAGE_USER : Z := Z.shiftl 1 2.
Definition PAGE_HUGE : Z := Z.shiftl 1 7.
Definition PAGE_NX : Z := Z.shiftl 1 63.

(** The bits that [PageFlags] declares. *)
Definition FLAGS_ALL : Z := Z.lor 0x1FF PAGE_NX.

Definition has_bits (e b : Z) : bool := negb (Z.land e b =? 0).
Definition is_present (e : Z) : bool := has_bits e PAGE_PRESENT.
Definition is_user (e : Z) : bool := has_bits e PAGE_USER.
Definition is_huge (e : Z) : bool := has_bits e PAGE_HUGE.
Definition frame (e : Z) : Z := Z.land e FRAME_MASK.
Definition flags (e : Z) : Z := Z.land e FLAGS_ALL.
Definition set_present (e : Z) : Z := Z.lor e PAGE_PRESENT.
Definition set_user (e : Z) : Z := Z.lor e PAGE_USER.
Definition set_frame (p e : Z) : Z := Z.lor (Z.ldiff e FRAME_MASK) (Z.land p FRAME_MASK).
Definition set_flags (f e : Z) : Z := Z.lor (Z.ldiff e FLAGS_ALL) f.

Definition pml4_idx (va : Z) : Z := Z.land (Z.shiftr va 39) 0x1FF.
Definition pdpt_idx (va : Z) : Z := Z.land (Z.shiftr va 30) 0x1FF.
Definition pd_idx (va : Z) : Z := Z.land (Z.shiftr va 21) 0x1FF.
Definition pt_idx (va : Z) : Z := Z.land (Z.shiftr va 12) 0x1FF.

Section Vmm.
Context {A : Type} `{PageSource A}.

Definition MAX_USER_PAGE_TABLES : nat := 256.

Record Vmm := mkVmm {
  word : Z -> Z -> Z;
  source : A;
  kernel_pml4 : Z;
  user_tables : list (Z * bool);
  user_table_count : Z;
  total_maps : Z;
  total_unmaps : Z;
  flushed : list Z;
  kpti_synced : list Z;
}.

Definition eta_vmm (v : Vmm) : Vmm :=
  mkVmm (word v) (source v) (kernel_pml4 v) (user_tables v) (user_table_count v) (total_maps v)
    (total_unmaps v) (flushed v) (kpti_synced v).
Definition set_words (w : Z -> Z -> Z) (v : Vmm) : Vmm := ltac:(setter eta_vmm word w v).
Definition set_source (s : A) (v : Vmm) : Vmm := ltac:(setter eta_vmm source s v).
Definition set_tables (t : list (Z * bool)) (v : Vmm) : Vmm := ltac:(setter eta_vmm user_tables t v).
Definition set_table_count (n : Z) (v : Vmm) : Vmm := ltac:(setter eta_vmm user_table_count n v).
Definition set_maps (n : Z) (v : Vmm) : Vmm := ltac:(setter eta_vmm total_maps n v).
Definition set_unmaps (n : Z) (v : Vmm) : Vmm := ltac:(setter eta_vmm total_unmaps n v).
Definition set_flushed (l : list Z) (v : Vmm) : Vmm := ltac:(setter eta_vmm flushed l v).
Definition set_synced (l : list Z) (v : Vmm) : Vmm := ltac:(setter eta_vmm kpti_synced l v).

(** A page, and a word of one. *)
Definition fill (p : Z) (f : Z -> Z) (v : Vmm) : Vmm :=
  set_words (fun q => if q =? p then f else word v q) v.
Definition put (p i e : Z) (v : Vmm) : Vmm :=
  set_words (fun q j => if (q =? p) && (j =? i) then e else word v q j) v.
Definition change (p i : Z) (f : Z -> Z) (v : Vmm) : Vmm := put p i (f (word v p i)) v.

Definition alloc (v : Vmm) : option Z * Vmm :=
  let '(r, s) := alloc_page (source v) in (r, set_source s v).
Definition free (p : Z) (v : Vmm) : Vmm := set_source (free_page p (source v)) v.
Definition flush_tlb (va : Z) (v : Vmm) : Vmm := set_flushed (flushed v ++ [va]) v.

Definition vmm_new (w : Z -> Z -> Z) (s : A) : Vmm :=
  mkVmm w s 0 (repeat (0, false) MAX_USER_PAGE_TABLES) 0 0 0 [] [].
(** [init]: the table CR3 points to is the kernel's. *)
Definition init (cr3 : Z) (v : Vmm) : Vmm :=
  mkVmm (word v) (source v) cr3 (user_tables v) (user_table_count v) (total_maps v) (total_unmaps v)
    (flushed v) (kpti_synced v).

(** ** The next level

    [get_or_create_table_entry]: the table an entry leads to; a missing one is
    allocated, the page of a huge entry is described by 512 smaller ones.
    [None] is the null pointer. *)
Definition split_entry (e step i : Z) : Z :=
  let f := Z.lor (Z.ldiff (flags e) PAGE_HUGE) PAGE_PRESENT in
  let f := if step =? HUGE_PAGE_2M_SIZE then Z.lor f PAGE_HUGE else f in
  set_flags f (set_frame (frame e + i * step) 0).

Definition get_or_create_table_entry (t i : Z) (create : bool) (huge_step : Z) (v : Vmm) : option Z * Vmm :=
  let e := word v t i in
  if is_present e && negb (is_huge e) then (Some (frame e), v)
  else if create then
    match alloc v with
    | (None, v) => (None, v)
    | (Some page, v) =>
      let v := fill page (fun _ => 0) v in
      let v := if is_huge e
               then fill page (split_entry e (if 0 <? huge_step then huge_step else PAGE_SIZE)) v else v in
      (Some page, put t i (Z.lor (Z.land page FRAME_MASK) (Z.lor PAGE_PRESENT PAGE_WRITABLE)) v)
    end
  else (None, v).

(** The three levels above the last table, created on the way. *)
Definition walk_create (root va : Z) (v : Vmm) : option (Z * Z * Z) * Vmm :=
  match get_or_create_table_entry root (pml4_idx va) true 0 v with
  | (None, v) => (None, v)
  | (Some pdpt, v) =>
    match get_or_create_table_entry pdpt (pdpt_idx va) true HUGE_PAGE_2M_SIZE v with
    | (None, v) => (None, v)
    | (Some pd, v) =>
      match get_or_create_table_entry pd (pd_idx va) true PAGE_SIZE v with
      | (None, v) => (None, v)
      | (Some pt, v) => (Some (pdpt, pd, pt), v)
      end
    end
  end.

(** The last entry, and the flush. *)
Definition set_leaf (pt va phys f : Z) (v : Vmm) : Vmm :=
  flush_tlb va (change pt (pt_idx va) (fun e => set_flags f (set_frame phys e)) v).

(** ** Mapping into the table of a process *)
Definition map_user (root va phys f : Z) (v : Vmm) : Vmm :=
  match walk_create root va v with
  | (None, v) => v
  | (Some (pdpt, pd, pt), v) =>
    let v := if has_bits f PAGE_USER
             then change pd (pd_idx va) set_user (change pdpt (pdpt_idx va) set_user
                    (change root (pml4_idx va) set_user v)) else v in
    set_leaf pt va phys f v
  end.

Definition map_page_in_table (root va phys f : Z) (v : Vmm) : Vmm :=
  if root =? 0 then v else if 256 <=? pml4_idx va then v else map_user root va phys f v.

Definition map_kernel_page_in_table (root va phys f : Z) (v : Vmm) : Vmm :=
  if root =? 0 then v else if pml4_idx va <? 256 then v else map_user root va phys f v.

(** ** Mapping into the kernel's table *)
Inductive MapError := NotInitialized | NoTable | AlreadySplit | Unaligned | KernelHalf | NotPresent.

Definition map_page_internal (va phys f : Z) (v : Vmm) : option MapError * Vmm :=
  if 256 <=? pml4_idx va then (None, v) else
  if kernel_pml4 v =? 0 then (Some NotInitialized, v) else
  match walk_create (kernel_pml4 v) va v with
  | (None, v) => (Some NoTable, v)
  | (Some (_, _, pt), v) => (None, set_leaf pt va phys f v)
  end.

Definition count_map (r : option MapError * Vmm) : option MapError * Vmm :=
  let '(e, v) := r in (e, match e with None => set_maps (wrap_u64 (total_maps v + 1)) v | Some _ => v end).

Definition map_page (va phys f : Z) (v : Vmm) : option MapError * Vmm := count_map (map_page_internal va phys f v).

(** A new entry of the upper half is copied to the table user code runs on. *)
Definition get_pdpt (root va : Z) (v : Vmm) : option Z * Vmm :=
  let i := pml4_idx va in
  let existed := is_present (word v root i) in
  match get_or_create_table_entry root i true 0 v with
  | (None, v) => (None, v)
  | (Some pdpt, v) =>
    (Some pdpt, if (256 <=? i) && negb existed then set_synced (kpti_synced v ++ [i]) v else v)
  end.

(** A huge entry is only written over an absent one. *)
Definition set_huge (t i va phys f : Z) (v : Vmm) : option MapError * Vmm :=
  let e := word v t i in
  if is_present e && negb (is_huge e) then (Some AlreadySplit, v)
  else if is_present e && is_huge e then (None, v)
  else (None, flush_tlb va (put t i (set_flags f (set_frame phys e)) v)).

Definition map_2mb_page (va phys f : Z) (v : Vmm) : option MapError * Vmm :=
  let root := kernel_pml4 v in
  if root =? 0 then (Some NotInitialized, v) else
  match get_pdpt root va v with
  | (None, v) => (Some NoTable, v)
  | (Some pdpt, v) =>
    let e := word v pdpt (pdpt_idx va) in
    if is_present e && is_huge e then (None, v) else
    match get_or_create_table_entry pdpt (pdpt_idx va) true HUGE_PAGE_2M_SIZE v with
    | (None, v) => (Some NoTable, v)
    | (Some pd, v) => set_huge pd (pd_idx va) va phys f v
    end
  end.

Definition map_1gb_page (va phys f : Z) (v : Vmm) : option MapError * Vmm :=
  let root := kernel_pml4 v in
  if root =? 0 then (Some NotInitialized, v) else
  match get_pdpt root va v with
  | (None, v) => (Some NoTable, v)
  | (Some pdpt, v) => set_huge pdpt (pdpt_idx va) va phys f v
  end.

Inductive HugeSize := Size4K | Size2M | Size1G.
Definition size_bytes (s : HugeSize) : Z :=
  match s with Size4K => PAGE_SIZE | Size2M => HUGE_PAGE_2M_SIZE | Size1G => HUGE_PAGE_1G_SIZE end.
Definition is_aligned (s : HugeSize) (a : Z) : bool := Z.land a (size_bytes s - 1) =? 0.

Definition map_huge_page (va phys f : Z) (s : HugeSize) (v : Vmm) : option MapError * Vmm :=
  if negb (is_aligned s va) || negb (is_aligned s phys) then (Some Unaligned, v) else
  let f := Z.lor f PAGE_HUGE in
  count_map (match s with
             | Size2M => map_2mb_page va phys f v
             | Size1G => map_1gb_page va phys f v
             | Size4K => map_page_internal va phys f v
             end).

(** ** Reading *)

(** What an entry says: absent, a page of its level, or the next table. *)
Inductive Step := Absent | Huge (p : Z) | Table (t : Z).
Definition step (e : Z) : Step :=
  if negb (is_present e) then Absent else if is_huge e then Huge (frame e) else Table (frame e).

(** The top entry has no huge form. *)
Definition top (e : Z) : option Z := if is_present e then Some (frame e) else None.

Definition get_physical_in_pml4 (root va : Z) (v : Vmm) : option Z :=
  if root =? 0 then None else
  match top (word v root (pml4_idx va)) with
  | None => None
  | Some pdpt =>
    match step (word v pdpt (pdpt_idx va)) with
    | Absent => None
    | Huge p => Some (p + Z.land va (HUGE_PAGE_1G_SIZE - 1))
    | Table pd =>
      match step (word v pd (pd_idx va)) with
      | Absent => None
      | Huge p => Some (p + Z.land va (HUGE_PAGE_2M_SIZE - 1))
      | Table pt =>
        let e := word v pt (pt_idx va) in
        if is_present e then Some (frame e + Z.land va (PAGE_SIZE - 1)) else None
      end
    end
  end.

Definition get_physical (va : Z) (v : Vmm) : option Z := get_physical_in_pml4 (kernel_pml4 v) va v.

(** The table of the last level on the path of [va], if it is there. *)
Definition find_pt (root va : Z) (v : Vmm) : option Z :=
  match top (word v root (pml4_idx va)) with
  | None => None
  | Some pdpt =>
    match step (word v pdpt (pdpt_idx va)) with
    | Table pd => match step (word v pd (pd_idx va)) with Table pt => Some pt | _ => None end
    | _ => None
    end
  end.

Definition get_pte_value (root va : Z) (v : Vmm) : option Z :=
  if root =? 0 then None else (fun pt => word v pt (pt_idx va)) <$> find_pt root va v.

Definition set_pte_value (root va raw : Z) (v : Vmm) : Vmm :=
  if root =? 0 then v else
  match find_pt root va v with
  | None => v
  | Some pt => flush_tlb va (put pt (pt_idx va) raw v)
  end.

(** ** Unmapping *)
Definition count_unmap (v : Vmm) : Vmm := set_unmaps (wrap_u64 (total_unmaps v + 1)) v.

(** [unmap_page] and [protect_page] work on the kernel's table. *)
Definition unmap_page (va : Z) (v : Vmm) : Vmm :=
  let root := kernel_pml4 v in
  if root =? 0 then v else
  if 256 <=? pml4_idx va then v else
  match top (word v root (pml4_idx va)) with
  | None => v
  | Some pdpt =>
    match step (word v pdpt (pdpt_idx va)) with
    | Absent => v
    | Huge _ => count_unmap (flush_tlb va (put pdpt (pdpt_idx va) 0 v))
    | Table pd =>
      match step (word v pd (pd_idx va)) with
      | Absent => v
      | Huge _ => count_unmap (flush_tlb va (put pd (pd_idx va) 0 v))
      | Table pt => count_unmap (flush_tlb va (put pt (pt_idx va) 0 v))
      end
    end
  end.

(** The permission bits replaced by those of the new flags. *)
Definition protect_bits (f e : Z) : Z :=
  let m := Z.lor (Z.lor (Z.lor PAGE_PRESENT PAGE_WRITABLE) PAGE_USER) PAGE_NX in
  Z.lor (Z.ldiff e m) (Z.land f m).

Definition protect_page (va f : Z) (v : Vmm) : Vmm :=
  let root := kernel_pml4 v in
  if root =? 0 then v else
  if 256 <=? pml4_idx va then v else
  match top (word v root (pml4_idx va)) with
  | None => v
  | Some pdpt =>
    match step (word v pdpt (pdpt_idx va)) with
    | Absent => v
    | Huge _ => flush_tlb va (change pdpt (pdpt_idx va) (protect_bits f) v)
    | Table pd =>
      match step (word v pd (pd_idx va)) with
      | Absent => v
      | Huge _ => flush_tlb va (change pd (pd_idx va) (protect_bits f) v)
      | Table pt => flush_tlb va (change pt (pt_idx va) (protect_bits f) v)
      end
    end
  end.

Definition is_table_empty (t : Z) (v : Vmm) : bool := forallb (fun i => negb (is_present (word v t i))) (seqZ 0 512).

(** Tables that lost their last entry are given back, from the last level up. *)
Definition free_empty (root pdpt pd pt va : Z) (v : Vmm) : Vmm :=
  if negb (is_table_empty pt v) then v else
  let v := free pt (put pd (pd_idx va) 0 v) in
  if negb (is_table_empty pd v) then v else
  let v := free pd (put pdpt (pdpt_idx va) 0 v) in
  if negb (is_table_empty pdpt v) then v else
  free pdpt (put root (pml4_idx va) 0 v).

Definition unmap_page_in_table (root va : Z) (v : Vmm) : Vmm :=
  if root =? 0 then v else
  if 256 <=? pml4_idx va then v else
  match top (word v root (pml4_idx va)) with
  | None => v
  | Some pdpt =>
    match step (word v pdpt (pdpt_idx va)) with
    | Absent => v
    | Huge _ => count_unmap (flush_tlb va (put pdpt (pdpt_idx va) 0 v))
    | Table pd =>
      match step (word v pd (pd_idx va)) with
      | Absent => v
      | Huge _ => count_unmap (flush_tlb va (put pd (pd_idx va) 0 v))
      | Table pt =>
        count_unmap (free_empty root pdpt pd pt va (flush_tlb va (put pt (pt_idx va) 0 v)))
      end
    end
  end.

(** ** Splitting and user bits in the kernel's table *)
Definition split_2mb_page (va : Z) (v : Vmm) : option MapError * Vmm :=
  let root := kernel_pml4 v in
  if root =? 0 then (Some NotInitialized, v) else
  if 256 <=? pml4_idx va then (Some KernelHalf, v) else
  match get_or_create_table_entry root (pml4_idx va) false 0 v with
  | (None, v) => (Some NoTable, v)
  | (Some pdpt, v) =>
    match get_or_create_table_entry pdpt (pdpt_idx va) false 0 v with
    | (None, v) => (Some NoTable, v)
    | (Some pd, v) =>
      let e := word v pd (pd_idx va) in
      if negb (is_present e) then (Some NotPresent, v) else
      if negb (is_huge e) then (None, v) else
      match alloc v with
      | (None, v) => (Some NoTable, v)
      | (Some pt, v) =>
        let f := Z.lor (Z.ldiff (flags e) PAGE_HUGE) PAGE_PRESENT in
        let v := fill pt (fun i => set_present (set_flags f (set_frame (frame e + i * PAGE_SIZE) 0))) v in
        (None, flush_tlb va (change pd (pd_idx va) (fun e => set_flags f (set_frame pt e)) v))
      end
    end
  end.

Definition ensure_pml4_user (va : Z) (v : Vmm) : Vmm :=
  let root := kernel_pml4 v in
  if root =? 0 then v else if 256 <=? pml4_idx va then v else
  let e := word v root (pml4_idx va) in
  if is_present e && negb (is_user e) then flush_tlb va (change root (pml4_idx va) set_user v) else v.

Definition ensure_path_user (va : Z) (v : Vmm) : Vmm :=
  let root := kernel_pml4 v in
  if root =? 0 then v else if 256 <=? pml4_idx va then v else
  match top (word v root (pml4_idx va)) with
  | None => v
  | Some pdpt =>
    let v := change root (pml4_idx va) set_user v in
    let e := word v pdpt (pdpt_idx va) in
    if negb (is_present e) then v else
    let v := change pdpt (pdpt_idx va) set_user v in
    if is_huge e then flush_tlb va v else
    let pd := frame e in
    if negb (is_present (word v pd (pd_idx va))) then v
    else flush_tlb va (change pd (pd_idx va) set_user v)
  end.

(** ** Tables of processes *)
Definition find_free_user_slot (v : Vmm) : option nat := position (fun t => negb t.2) (user_tables v).

(** Without the pages of descriptor tables and stacks that are then mapped with
    [map_page_in_table]. *)
Definition create_user_page_table (v : Vmm) : option Z * Vmm :=
  match alloc v with
  | (None, v) => (None, v)
  | (Some root, v) =>
    let v := fill root (fun _ => 0) v in
    let kernel := word v (kernel_pml4 v) in
    let v := fill root (fun i => if 256 <=? i then kernel i else 0) v in
    if negb (is_present (kernel 256)) then (None, free root v)
    else
      (Some root,
       match find_free_user_slot v with
       | Some k => set_table_count (wrap_u64 (user_table_count v + 1)) (set_tables (<[k := (root, true)]> (user_tables v)) v)
       | None => v
       end)
  end.

End Vmm.
#[global] Arguments Vmm A : clear implicits.
End PageTable.
