(* ===== verification/PageTableSpec.v ===== *)
(** * What page tables promise (facts on framework/mm/vmm_x86_64.rs)

    [owned]: which table belongs to which place of which address space.  On it,
    mapping and unmapping are stated on the translation of addresses; [calls]
    is a history of calls.  The buddy allocator is shown to be a source of
    pages as assumed here.  At the end, where the code does otherwise. *)
From S2P Require Import Prelude Pmm PmmPool PmmSpec PageTable.

Module PageTableSpec.
Import PageTable.

(** ** Bits of an entry *)
Lemma has_bit e k : 0 <= k -> has_bits e (Z.shiftl 1 k) = Z.testbit e k.
Proof.
  intros Hk. unfold has_bits. rewrite Z.shiftl_1_l. destruct (Z.testbit e k) eqn:E.
  - destruct (Z.eqb_spec (Z.land e (2 ^ k)) 0) as [H0|]; [|done]. exfalso.
    assert (Ht : Z.testbit (Z.land e (2 ^ k)) k = true) by (rewrite Z.land_spec, E, Z.pow2_bits_true; done).
    by rewrite H0, Z.bits_0 in Ht.
  - replace (Z.land e (2 ^ k)) with 0; [done|]. symmetry. apply Z.bits_inj'. intros n Hn.
    rewrite Z.land_spec, Z.bits_0. destruct (decide (n = k)) as [->|]; [by rewrite E|].
    rewrite Z.pow2_bits_false by done. apply andb_false_r.
Qed.

Lemma frame_mask_bits n : 0 <= n -> Z.testbit FRAME_MASK n = (12 <=? n) && (n <? 52).
Proof.
  intros Hn. change FRAME_MASK with (Z.shiftl (Z.ones 40) 12). rewrite Z.shiftl_spec by done.
  destruct (Z.leb_spec 12 n); cbn [andb]; [|by rewrite Z.testbit_neg_r by lia].
  rewrite Z.testbit_ones by lia. split_bool; (done || lia).
Qed.

Lemma flags_all_bits n : 0 <= n -> Z.testbit FLAGS_ALL n = (n <? 9) || (n =? 63).
Proof.
  intros Hn. change FLAGS_ALL with (Z.lor (Z.ones 9) (2 ^ 63)). rewrite Z.lor_spec, Z.testbit_ones by lia.
  rewrite Z.pow2_bits_eqb by lia. split_bool; (done || lia).
Qed.

Lemma frame_bits e n : 0 <= n -> Z.testbit (frame e) n = Z.testbit e n && ((12 <=? n) && (n <? 52)).
Proof. intros Hn. unfold frame. by rewrite Z.land_spec, frame_mask_bits. Qed.

Lemma frame_ext e e' : (forall n, 12 <= n < 52 -> Z.testbit e n = Z.testbit e' n) -> frame e = frame e'.
Proof.
  intros H. apply Z.bits_inj'. intros n Hn. rewrite !frame_bits by done. split_bool; rewrite ?andb_false_r, ?andb_true_r; auto.
Qed.

Lemma present_bit e : is_present e = Z.testbit e 0.
Proof. by apply has_bit. Qed.
Lemma huge_bit e : is_huge e = Z.testbit e 7.
Proof. by apply has_bit. Qed.

Definition page_addr (p : Z) : Prop := 0 <= p < 2 ^ 52 /\ p mod PAGE_SIZE = 0.

Lemma frame_page p : page_addr p -> Z.land p FRAME_MASK = p.
Proof.
  intros [Hp Hm]. unfold PAGE_SIZE in Hm. assert (Hs : p = Z.shiftl (p / 4096) 12).
  { rewrite Z.shiftl_mul_pow2 by lia. pose proof (Z.div_mod p 4096). lia. }
  rewrite Hs at 1. change FRAME_MASK with (Z.shiftl (Z.ones 40) 12). rewrite <- Z.shiftl_land, Z.land_ones by lia.
  rewrite Z.mod_small, <- Hs; [done|]. split; [apply Z.div_pos; lia|apply Z.div_lt_upper_bound; lia].
Qed.

Lemma frame_is_page e : page_addr (frame e).
Proof.
  assert (Hf : frame e = Z.shiftl (Z.land (Z.shiftr e 12) (Z.ones 40)) 12).
  { unfold frame. change FRAME_MASK with (Z.shiftl (Z.ones 40) 12). apply Z.bits_inj'. intros n Hn.
    rewrite Z.land_spec, !Z.shiftl_spec by done. destruct (decide (12 <= n)).
    - rewrite Z.land_spec, Z.shiftr_spec by lia. by replace (n - 12 + 12) with n by lia.
    - rewrite (Z.testbit_neg_r _ (n - 12)), (Z.testbit_neg_r _ (n - 12)) by lia. apply andb_false_r. }
  rewrite Hf, Z.land_ones, Z.shiftl_mul_pow2 by lia. split; [|by rewrite Z.mod_mul].
  pose proof (Z.mod_pos_bound (Z.shiftr e 12) (2 ^ 40)). lia.
Qed.

(** What the entries written by the code say. *)
Lemma table_entry p : page_addr p -> step (Z.lor (Z.land p FRAME_MASK) (Z.lor PAGE_PRESENT PAGE_WRITABLE)) = Table p.
Proof.
  intros Hp. rewrite frame_page by done. assert (Hb : forall n, 0 <= n < 12 -> Z.testbit p n = false).
  { intros n Hn. rewrite <- (frame_page p Hp), Z.land_spec, frame_mask_bits by lia. split_bool; [lia|apply andb_false_r..]. }
  change (Z.lor PAGE_PRESENT PAGE_WRITABLE) with 3. unfold step. rewrite present_bit, huge_bit, !Z.lor_spec, !Hb by lia.
  change (Z.testbit 3 0) with true. change (Z.testbit 3 7) with false. cbn. f_equal.
  transitivity (frame p); [|by apply frame_page]. apply frame_ext. intros n Hn.
  rewrite Z.lor_spec. change 3 with (Z.ones 2). rewrite Z.testbit_ones by lia.
  split_bool; [lia|by rewrite orb_false_r..].
Qed.

Lemma step_set_user e : step (set_user e) = step e.
Proof.
  unfold step, set_user. rewrite !present_bit, !huge_bit, !Z.lor_spec.
  change (Z.testbit PAGE_USER 0) with false. change (Z.testbit PAGE_USER 7) with false. rewrite !orb_false_r.
  assert (Hf : frame (Z.lor e PAGE_USER) = frame e); [|by rewrite Hf].
  apply frame_ext. intros n Hn. rewrite Z.lor_spec. change PAGE_USER with (2 ^ 2). rewrite Z.pow2_bits_eqb by lia.
  split_bool; [lia|by rewrite orb_false_r].
Qed.

(** Flags that [PageFlags] can hold. *)
Definition flag_bits (f : Z) : Prop := Z.land f FLAGS_ALL = f.

Lemma flag_bit_out f n : flag_bits f -> 9 <= n < 63 -> Z.testbit f n = false.
Proof.
  intros <- Hn. rewrite Z.land_spec, flags_all_bits by lia. split_bool; try lia; apply andb_false_r.
Qed.

(** What an entry allows: writing, access from user mode, execution. *)
Definition PERM : Z := Z.lor (Z.lor PAGE_WRITABLE PAGE_USER) PAGE_NX.
Definition perm (e : Z) : Z := Z.land e PERM.

Lemma perm_bits n : 0 <= n -> Z.testbit PERM n = (n =? 1) || (n =? 2) || (n =? 63).
Proof.
  intros Hn. change PERM with (Z.lor (Z.lor (2 ^ 1) (2 ^ 2)) (2 ^ 63)). rewrite !Z.lor_spec, !Z.pow2_bits_eqb by lia.
  rewrite (Z.eqb_sym 1), (Z.eqb_sym 2), (Z.eqb_sym 63). done.
Qed.

Lemma perm_ext e e' : (forall n, n = 1 \/ n = 2 \/ n = 63 -> Z.testbit e n = Z.testbit e' n) -> perm e = perm e'.
Proof.
  intros H. apply Z.bits_inj'. intros n Hn. unfold perm. rewrite !Z.land_spec, perm_bits by done.
  destruct (Z.eqb_spec n 1), (Z.eqb_spec n 2), (Z.eqb_spec n 63); cbn [orb]; rewrite ?andb_true_r, ?andb_false_r; auto.
Qed.

Lemma perm_set_flags f e : perm (set_flags f e) = perm f.
Proof.
  apply perm_ext. intros n Hn. unfold set_flags. rewrite Z.lor_spec, Z.ldiff_spec, flags_all_bits by lia.
  destruct Hn as [-> | [-> | ->]]; by rewrite andb_false_r.
Qed.

(** A page described anew allows what it allowed. *)
Lemma perm_of_flags e b : b = 0 \/ b = PAGE_HUGE ->
  perm (Z.lor (Z.lor (Z.ldiff (flags e) PAGE_HUGE) PAGE_PRESENT) b) = perm e.
Proof.
  intros Hb. apply perm_ext. intros n Hn. unfold flags. rewrite !Z.lor_spec, Z.ldiff_spec, Z.land_spec, flags_all_bits by lia.
  destruct Hb as [-> | ->], Hn as [-> | [-> | ->]]; rewrite ?andb_true_r, ?orb_false_r;
    (reflexivity || by rewrite ?andb_true_r, ?orb_false_r).
Qed.

Lemma leaf_entry f p e :
  flag_bits f -> page_addr p ->
  frame (set_flags f (set_frame p e)) = p /\ is_present (set_flags f (set_frame p e)) = is_present f /\
  is_huge (set_flags f (set_frame p e)) = is_huge f.
Proof.
  intros Hf Hp. unfold set_flags, set_frame. rewrite frame_page by done. rewrite !present_bit, !huge_bit. split_and!.
  - transitivity (frame p); [|by apply frame_page]. apply frame_ext. intros n Hn.
    rewrite Z.lor_spec, Z.ldiff_spec, Z.lor_spec, Z.ldiff_spec, frame_mask_bits, flags_all_bits by lia.
    rewrite (flag_bit_out f n) by (done || lia). split_bool; try lia. rewrite andb_false_r, orb_false_r, andb_true_r. done.
  - rewrite Z.lor_spec, Z.ldiff_spec, flags_all_bits by lia. cbn. by rewrite andb_false_r.
  - rewrite Z.lor_spec, Z.ldiff_spec, flags_all_bits by lia. cbn. by rewrite andb_false_r.
Qed.

Lemma flags_are_bits e : flag_bits (flags e).
Proof. unfold flag_bits, flags. by rewrite <- Z.land_assoc, Z.land_diag. Qed.

Lemma flag_bits_lor f g : flag_bits f -> flag_bits g -> flag_bits (Z.lor f g).
Proof. unfold flag_bits. intros Hf Hg. rewrite Z.land_lor_distr_l. congruence. Qed.

Lemma flag_bits_ldiff f g : flag_bits f -> flag_bits (Z.ldiff f g).
Proof.
  unfold flag_bits. intros Hf. apply Z.bits_inj'. intros n Hn. rewrite <- Hf at 2.
  rewrite Z.land_spec, !Z.ldiff_spec, Z.land_spec. destruct (Z.testbit f n), (Z.testbit g n), (Z.testbit FLAGS_ALL n); done.
Qed.


(** ** Translation, level by level

    Where an address leads, and what the last entry on its path allows. *)
Definition idx (k : nat) (va : Z) : Z := Z.land (Z.shiftr va (12 + 9 * Z.of_nat k)) 0x1FF.

Lemma idx_range k va : 0 <= idx k va < 512.
Proof.
  unfold idx. change 0x1FF with (Z.ones 9). rewrite Z.land_ones by lia.
  pose proof (Z.mod_pos_bound (Z.shiftr va (12 + 9 * Z.of_nat k)) (2 ^ 9)). lia.
Qed.

(** The bytes an entry of level [k] covers. *)
Definition span (k : nat) : Z := 2 ^ (12 + 9 * Z.of_nat k).

Fixpoint value (k : nat) (e va : Z) (w : Z -> Z -> Z) : option (Z * Z) :=
  match k with
  | O => if is_present e then Some (frame e + Z.land va (span 0 - 1), perm e) else None
  | S j =>
    match step e with
    | Absent => None
    | Huge p => Some (p + Z.land va (span k - 1), perm e)
    | Table t => value j (w t (idx j va)) va w
    end
  end.

Definition trans (k : nat) (t va : Z) (w : Z -> Z -> Z) : option (Z * Z) := value k (w t (idx k va)) va w.

(** The user half. *)
Definition user (va : Z) : Prop := idx 3 va < 256.

Definition path (va : Z) : list Z := [idx 3 va; idx 2 va; idx 1 va].

(** ** Which table belongs where

    [T] gives every table of the user halves its root and the indices that lead
    to it. *)
Definition place (π : list Z) (i : Z) : Prop := 0 <= i < 512 /\ (π = [] -> i < 256).
Definition level (π : list Z) : nat := 3 - length π.

Record owned (T : gmap Z (Z * list Z)) (w : Z -> Z -> Z) : Prop := {
  own_root : forall t r, T !! t = Some (r, []) -> t = r;
  own_inj : forall t t' x, T !! t = Some x -> T !! t' = Some x -> t = t';
  own_depth : forall t r π, T !! t = Some (r, π) -> (length π <= 3)%nat;
  own_link : forall t r π i c, T !! t = Some (r, π) -> (length π < 3)%nat -> place π i ->
    step (w t i) = Table c -> T !! c = Some (r, π ++ [i]);
  own_parent : forall c r π i, T !! c = Some (r, π ++ [i]) ->
    place π i /\ exists t, T !! t = Some (r, π) /\ step (w t i) = Table c;
  own_huge : forall t r π i p, T !! t = Some (r, π) -> (length π < 3)%nat -> place π i ->
    step (w t i) = Huge p -> π <> [] /\ p mod span (level π) = 0;
  own_absent : forall t r π i, T !! t = Some (r, π) -> (length π < 3)%nat -> place π i ->
    step (w t i) = Absent -> is_huge (w t i) = false;
}.

Lemma user_place va n : user va -> (n < 3)%nat -> place (take n (path va)) (idx (3 - n) va).
Proof.
  intros Hu Hn. split; [apply idx_range|]. destruct n as [|[|[|n]]]; [intros _; exact Hu|done..|lia].
Qed.

Lemma path_take_S n va : (n < 3)%nat -> take (S n) (path va) = take n (path va) ++ [idx (3 - n) va].
Proof. destruct n as [|[|[|n]]]; [done..|lia]. Qed.

Lemma length_path_take n va : (n <= 3)%nat -> length (take n (path va)) = n.
Proof. intros Hn. rewrite length_take. cbn. lia. Qed.

(** The walk of [va] goes through the tables of its path. *)
Lemma own_walk T w t r va n c :
  owned T w -> T !! t = Some (r, take n (path va)) -> (n < 3)%nat -> user va ->
  step (w t (idx (3 - n) va)) = Table c -> T !! c = Some (r, take (S n) (path va)).
Proof.
  intros Ho Ht Hn Hu Hs. rewrite path_take_S by done. eapply own_link; eauto.
  - by rewrite length_path_take by lia.
  - by apply user_place.
Qed.

(** A change of one entry is seen by the addresses that reach it only. *)
Lemma trans_same T w w' t r π i va :
  owned T w -> T !! t = Some (r, π) ->
  (forall q j, is_Some (T !! q) -> (q, j) <> (t, i) -> w' q j = w q j) ->
  user va ->
  forall n t0 r0, (n <= 3)%nat -> T !! t0 = Some (r0, take (3 - n) (path va)) ->
    (r0 = r -> π = take (length π) (path va) -> idx (level π) va = i ->
     value (level π) (w' t i) va w' = value (level π) (w t i) va w) ->
    trans n t0 va w' = trans n t0 va w.
Proof.
  intros Ho Ht Hw Hu. induction n as [|n IH]; intros t0 r0 Hn Ht0 Hv; unfold trans.
  - destruct (decide ((t0, idx 0 va) = (t, i))) as [[= -> Hi]|Hne].
    + rewrite Ht in Ht0. injection Ht0 as -> ->. rewrite Hi. by apply Hv.
    + by rewrite Hw by (done || eauto).
  - destruct (decide ((t0, idx (S n) va) = (t, i))) as [[= -> Hi]|Hne].
    + rewrite Ht in Ht0. injection Ht0 as -> ->. rewrite Hi.
      assert (Hl : level (take (2 - n) (path va)) = S n).
      { unfold level. rewrite length_path_take by lia. lia. }
      rewrite Hl in Hv. apply Hv; [done| |done]. by rewrite length_path_take by lia.
    + rewrite Hw by (done || eauto). cbn [value]. destruct (step (w t0 (idx (S n) va))) as [| |c] eqn:E; [done..|].
      change (value n (w' c (idx n va)) va w') with (trans n c va w').
      apply (IH c r0); [lia| |done]. replace (3 - n)%nat with (S (3 - S n)) by lia.
      eapply own_walk; [done|done|lia|done|]. by replace (3 - (3 - S n))%nat with (S n) by lia.
Qed.

(** The walk below a table depends on the tables below it. *)
Lemma trans_below T w w' r va :
  owned T w -> user va ->
  forall n t0, (n <= 3)%nat -> T !! t0 = Some (r, take (3 - n) (path va)) ->
  (forall q s π j, T !! q = Some (s, π) -> (3 - n <= length π)%nat -> w' q j = w q j) ->
  trans n t0 va w' = trans n t0 va w.
Proof.
  intros Ho Hu. induction n as [|n IH]; intros t0 Hn Ht0 Hw; unfold trans.
  { by rewrite (Hw t0 _ _ _ Ht0) by (rewrite length_path_take; lia). }
  rewrite (Hw t0 _ _ _ Ht0) by (rewrite length_path_take; lia). cbn [value]. destruct (step (w t0 (idx (S n) va))) as [| |c] eqn:E; [done..|].
  apply (IH c); [lia| |].
  - replace (3 - n)%nat with (S (3 - S n)) by lia. eapply own_walk; [done|done|lia|done|].
    by replace (3 - (3 - S n))%nat with (S n) by lia.
  - intros q s π j Hq Hl. eapply Hw; [done|lia].
Qed.

(** Above a table, the walk of its addresses is fixed. *)
Lemma trans_reach T w w' va r :
  owned T w -> forall n t, (n <= 3)%nat -> T !! t = Some (r, take n (path va)) ->
  (forall q j m, T !! q = Some (r, take m (path va)) -> (m < n)%nat -> j = idx (3 - m) va -> w' q j = w q j) ->
  exists r0, T !! r0 = Some (r, []) /\ trans 3 r0 va w' = trans (3 - n) t va w'.
Proof.
  intros Ho. induction n as [|n IH]; intros t Hn Ht Hw; [by exists t|].
  rewrite path_take_S in Ht by lia. destruct (own_parent _ _ Ho _ _ _ _ Ht) as (Hp & t' & Ht' & Hs).
  destruct (IH t' ltac:(lia) Ht') as (r0 & Hr0 & Htr); [intros; eapply Hw; eauto with lia|].
  exists r0. split; [done|]. rewrite Htr. unfold trans at 1. replace (3 - n)%nat with (S (3 - S n)) by lia.
  cbn [value]. replace (S (3 - S n)) with (3 - n)%nat by lia.
  rewrite (Hw t' (idx (3 - n) va) n) by (done || lia). by rewrite Hs.
Qed.


(** ** Arithmetic of offsets *)
Lemma span_pos k : 0 < span k.
Proof. unfold span. apply Z.pow_pos_nonneg; lia. Qed.

Lemma land_span k va : Z.land va (span k - 1) = va mod span k.
Proof.
  unfold span. replace (2 ^ (12 + 9 * Z.of_nat k) - 1) with (Z.ones (12 + 9 * Z.of_nat k)) by (rewrite Z.ones_equiv; lia).
  apply Z.land_ones. lia.
Qed.

Lemma span_S k : span (S k) = span k * 512.
Proof. unfold span. replace (12 + 9 * Z.of_nat (S k)) with (12 + 9 * Z.of_nat k + 9) by lia. rewrite Z.pow_add_r; lia. Qed.

Lemma idx_div k va : idx k va = va / span k mod 512.
Proof. unfold idx, span. change 0x1FF with (Z.ones 9). rewrite Z.land_ones, Z.shiftr_div_pow2 by lia. done. Qed.

Lemma offset_S k va : va mod span (S k) = idx k va * span k + va mod span k.
Proof.
  rewrite span_S, idx_div. pose proof (span_pos k). rewrite Z.rem_mul_r by lia. lia.
Qed.

(** A huge page described by smaller entries translates as before. *)
Definition part (j : nat) : Z := match j with O => PAGE_SIZE | _ => HUGE_PAGE_2M_SIZE end.

Lemma split_is_page e j i :
  (j < 2)%nat -> frame e mod span (S j) = 0 -> 0 <= i < 512 -> page_addr (frame e + i * part j).
Proof.
  intros Hj Hm Hi. destruct (frame_is_page e) as [Hf Hp]. assert (Hs : span (S j) = 512 * part j) by (destruct j as [|[|j]]; [done..|lia]).
  assert (Hpart : part j mod PAGE_SIZE = 0 /\ 0 < part j <= 2 ^ 21) by (destruct j as [|[|j]]; [done..|lia]).
  destruct Hpart as [Hpm Hpp]. split.
  - split; [lia|]. rewrite Hs in Hm. pose proof (Z.div_mod (frame e) (512 * part j)).
    assert (frame e / (512 * part j) < 2 ^ 52 / (512 * part j)).
    { apply Z.div_lt_upper_bound; [lia|]. replace (512 * part j * (2 ^ 52 / (512 * part j))) with (2 ^ 52); [lia|].
      destruct j as [|[|j]]; [done..|lia]. }
    assert (2 ^ 52 = 512 * part j * (2 ^ 52 / (512 * part j))) by (destruct j as [|[|j]]; [done..|lia]). nia.
  - unfold PAGE_SIZE in *. rewrite Z.add_mod, Hp, Z.mul_mod, Hpm, Z.mul_0_r by lia. done.
Qed.

Lemma split_flags e b : flag_bits b ->
  flag_bits (Z.lor (Z.lor (Z.ldiff (flags e) PAGE_HUGE) PAGE_PRESENT) b).
Proof. intros Hb. apply flag_bits_lor; [|done]. apply flag_bits_lor; [|done]. apply flag_bits_ldiff, flags_are_bits. Qed.

Lemma split_entry_step e j i :
  (j < 2)%nat -> frame e mod span (S j) = 0 -> 0 <= i < 512 ->
  frame (split_entry e (part j) i) = frame e + i * part j /\ is_present (split_entry e (part j) i) = true /\
  is_huge (split_entry e (part j) i) = (0 <? Z.of_nat j).
Proof.
  intros Hj Hm Hi. pose proof (split_is_page e j i Hj Hm Hi) as Hp. unfold split_entry.
  destruct j as [|[|j]]; [|change (part 1 =? HUGE_PAGE_2M_SIZE) with true; cbn [part] in *|lia].
  - change (part 0 =? HUGE_PAGE_2M_SIZE) with false. destruct (leaf_entry (Z.lor (Z.ldiff (flags e) PAGE_HUGE) PAGE_PRESENT) (frame e + i * part 0) 0) as (-> & -> & ->).
    + pose proof (split_flags e 0 ltac:(done)) as Hf. by rewrite Z.lor_0_r in Hf.
    + done.
    + split_and!; [done|by rewrite present_bit, Z.lor_spec, orb_true_r|].
      rewrite huge_bit, Z.lor_spec, Z.ldiff_spec. change (Z.testbit PAGE_HUGE 7) with true.
      change (Z.testbit PAGE_PRESENT 7) with false. by rewrite andb_false_r.
  - destruct (leaf_entry (Z.lor (Z.lor (Z.ldiff (flags e) PAGE_HUGE) PAGE_PRESENT) PAGE_HUGE) (frame e + i * HUGE_PAGE_2M_SIZE) 0) as (-> & -> & ->).
    + by apply split_flags.
    + done.
    + split_and!; [done|by rewrite present_bit, !Z.lor_spec, orb_true_r|]. by rewrite huge_bit, Z.lor_spec, orb_true_r.
Qed.

Lemma perm_split_entry e st i : perm (split_entry e st i) = perm e.
Proof.
  unfold split_entry. rewrite perm_set_flags. destruct (st =? HUGE_PAGE_2M_SIZE); [apply perm_of_flags; by right|].
  rewrite <- (perm_of_flags e 0) by by left. by rewrite Z.lor_0_r.
Qed.

Lemma value_split e j va w :
  (j < 2)%nat -> frame e mod span (S j) = 0 ->
  value j (split_entry e (part j) (idx j va)) va w = Some (frame e + Z.land va (span (S j) - 1), perm e).
Proof.
  intros Hj Hm. destruct (split_entry_step e j (idx j va) Hj Hm (idx_range j va)) as (Hf & Hp & Hh).
  rewrite land_span, offset_S. destruct j as [|[|j]]; [| |lia]; cbn [value part] in *; rewrite perm_split_entry.
  - rewrite Hp, Hf, land_span. do 2 f_equal. change (span 0) with PAGE_SIZE. lia.
  - unfold step. rewrite Hp, Hh, Hf. cbn [negb]. rewrite land_span. do 2 f_equal. change (span 1) with HUGE_PAGE_2M_SIZE. lia.
Qed.

Lemma value_absent j e va w : is_present e = false -> value j e va w = None.
Proof. intros He. destruct j; cbn [value]; [by rewrite He|]. unfold step. by rewrite He. Qed.


(** The words are all that counts. *)
Lemma value_ext w w' : (forall q j, w' q j = w q j) -> forall k e va, value k e va w' = value k e va w.
Proof.
  intros Hw. induction k as [|k IH]; intros e va; cbn [value]; [done|]. destruct (step e); [done..|]. by rewrite Hw, IH.
Qed.

Lemma trans_ext w w' k t va : (forall q j, w' q j = w q j) -> trans k t va w' = trans k t va w.
Proof. intros Hw. unfold trans. by rewrite Hw, (value_ext w). Qed.

(** A change that leaves what entries lead to keeps the tables' places. *)
Lemma owned_steps T w w' :
  (forall t r π i, T !! t = Some (r, π) -> (length π < 3)%nat -> place π i ->
     step (w' t i) = step (w t i) /\ is_huge (w' t i) = is_huge (w t i)) ->
  owned T w -> owned T w'.
Proof.
  intros Hw Ho. split.
  - apply (own_root _ _ Ho).
  - apply (own_inj _ _ Ho).
  - apply (own_depth _ _ Ho).
  - intros t r π i c Ht Hl Hp. destruct (Hw t r π i Ht Hl Hp) as [-> _]. by apply (own_link _ _ Ho t r π i c).
  - intros c r π i Hc. destruct (own_parent _ _ Ho _ _ _ _ Hc) as (Hp & t & Ht & Hs). split; [done|]. exists t.
    pose proof (own_depth _ _ Ho _ _ _ Hc) as Hl. rewrite length_app in Hl. cbn in Hl.
    destruct (Hw t r π i Ht ltac:(lia) Hp) as [-> _]. done.
  - intros t r π i p Ht Hl Hp. destruct (Hw t r π i Ht Hl Hp) as [-> _]. by apply (own_huge _ _ Ho t r π i p).
  - intros t r π i Ht Hl Hp. destruct (Hw t r π i Ht Hl Hp) as [-> ->]. by apply (own_absent _ _ Ho t r π i).
Qed.

Lemma owned_ext T w w' : (forall q j, w' q j = w q j) -> owned T w -> owned T w'.
Proof. intros Hw. apply owned_steps. intros. by rewrite Hw. Qed.

(** ** The page allocator *)
Class PageSourceLaws (A : Type) `{PageSource A} := {
  (** [available s U F]: of the pages [U] it manages, [s] has [F] left. *)
  available : A -> gset Z -> gset Z -> Prop;
  available_pages s U F : available s U F -> F ⊆ U /\ forall p, p ∈ U -> page_addr p /\ p <> 0;
  alloc_page_law s U F : available s U F ->
    match alloc_page s with
    | (Some p, s') => p ∈ F /\ available s' U (F ∖ {[p]})
    | (None, s') => F = ∅ /\ available s' U F
    end;
  free_page_law s U F p : available s U F -> p ∈ U -> p ∉ F -> available (free_page p s) U ({[p]} ∪ F);
}.

Section Laws.
Context {A : Type} `{PageSourceLaws A}.
Implicit Types v : Vmm A.

(** The tables [T], with the pages [F] left of [U]. *)
Definition tables v (T : gmap Z (Z * list Z)) (U F : gset Z) : Prop :=
  owned T (word v) /\ available (source v) U F /\ forall t, is_Some (T !! t) -> t ∈ U /\ t ∉ F.

(** Nothing is written outside the user halves of the tables and the free pages. *)
Definition only_tables (T : gmap Z (Z * list Z)) (F : gset Z) v v' : Prop :=
  (forall q j, T !! q = None -> q ∉ F -> word v' q j = word v q j) /\
  (forall r j, T !! r = Some (r, []) -> 256 <= j -> word v' r j = word v r j).

(** No entry of a table is a huge page. *)
Definition no_huge (T : gmap Z (Z * list Z)) (w : Z -> Z -> Z) : Prop :=
  forall t r π i p, T !! t = Some (r, π) -> (length π < 3)%nat -> place π i -> step (w t i) <> Huge p.

(** What a call does: [T'] and [F'] are the tables and the free pages after it,
    no page is lost, and [δ] changes the translation of addresses. *)
Definition view_change := Z -> Z -> option (Z * Z) -> option (Z * Z).
Definition unchanged : view_change := fun _ _ x => x.

Record moves (T T' : gmap Z (Z * list Z)) (U F F' : gset Z) v v' (δ : view_change) : Prop := {
  moves_tables : tables v' T' U F';
  moves_roots : forall r, T' !! r = Some (r, []) <-> T !! r = Some (r, []);
  moves_pages : forall p, (is_Some (T' !! p) \/ p ∈ F') <-> (is_Some (T !! p) \/ p ∈ F);
  moves_view : forall r va, T !! r = Some (r, []) -> user va ->
    trans 3 r va (word v') = δ r va (trans 3 r va (word v));
  moves_frame : only_tables T F v v';
  moves_kernel : kernel_pml4 v' = kernel_pml4 v;
  moves_small : no_huge T (word v) -> no_huge T' (word v');
}.

Lemma moves_refl T U F v : tables v T U F -> moves T T U F F v v unchanged.
Proof. intros Ht. by split; auto. Qed.

Lemma moves_trans T T1 T2 U F F1 F2 v v1 v2 δ1 δ2 :
  moves T T1 U F F1 v v1 δ1 -> moves T1 T2 U F1 F2 v1 v2 δ2 ->
  moves T T2 U F F2 v v2 (fun r va x => δ2 r va (δ1 r va x)).
Proof.
  intros [H1 R1 P1 V1 [W1 K1] C1 N1] [H2 R2 P2 V2 [W2 K2] C2 N2]. split.
  - done.
  - intros r. by rewrite R2, R1.
  - intros p. by rewrite P2, P1.
  - intros r va Hr Hu. by rewrite V2, V1 by (done || by apply R1).
  - split.
    + intros q j Hq Hf. assert (Hn : ~ (is_Some (T1 !! q) \/ q ∈ F1)).
      { intros [[x Hx]|?]%P1; [congruence|done]. }
      rewrite W2, W1; [done..| |tauto]. apply eq_None_not_Some. tauto.
    + intros r j Hr Hj. by rewrite K2, K1 by (done || by apply R1).
  - congruence.
  - auto.
Qed.

Lemma vmm_alloc v T U F :
  tables v T U F ->
  match alloc v with
  | (Some p, v') => p ∈ F /\ available (source v') U (F ∖ {[p]}) /\ word v' = word v /\ kernel_pml4 v' = kernel_pml4 v /\
      page_addr p /\ p <> 0 /\ T !! p = None /\ p ∈ U
  | (None, v') => F = ∅ /\ tables v' T U F /\ word v' = word v /\ kernel_pml4 v' = kernel_pml4 v
  end.
Proof.
  intros (Ho & Ha & Ht). unfold alloc. pose proof (alloc_page_law _ _ _ Ha) as Hl.
  destruct (alloc_page (source v)) as [[p|] s]; destruct Hl as [HF Hs]; destruct v; cbn in *.
  - destruct (available_pages _ _ _ Ha) as [Hsub Hall]. destruct (Hall p (Hsub p HF)) as [? ?].
    split_and!; try done; [|by apply Hsub]. apply eq_None_not_Some. intros Hp. by apply Ht in Hp as [_ ?].
  - by split_and!.
Qed.

(** The step that the splitting of a huge entry takes at each level. *)
Definition huge_step_of (π : list Z) : Z :=
  match length π with 1%nat => HUGE_PAGE_2M_SIZE | 2%nat => PAGE_SIZE | _ => 0 end.

(** What a new table holds: it translates as the entry did. *)
Definition table_content (π : list Z) (e : Z) (f : Z -> Z) : Prop :=
  exists j, level π = S j /\
    (forall va w, value j (f (idx j va)) va w = match step e with Huge p => Some (p + Z.land va (span (S j) - 1), perm e) | _ => None end) /\
    (j <> O -> forall i, 0 <= i < 512 ->
      match step (f i) with Absent => is_huge (f i) = false | Huge p => p mod span j = 0 | Table _ => False end).

Lemma zero_content π e : (length π < 3)%nat -> step e = Absent -> table_content π e (fun _ => 0).
Proof.
  intros Hl He. exists (2 - length π)%nat. split; [unfold level; lia|]. split; [intros va w; by rewrite value_absent, He|].
  by intros _ i Hi.
Qed.

Lemma split_content π e :
  (length π < 3)%nat -> π <> [] -> step e = Huge (frame e) -> frame e mod span (level π) = 0 ->
  table_content π e (split_entry e (if 0 <? huge_step_of π then huge_step_of π else PAGE_SIZE)).
Proof.
  intros Hl Hne He Hm. exists (2 - length π)%nat. assert (Hlv : level π = S (2 - length π)) by (unfold level; lia).
  assert (Hj : (2 - length π < 2)%nat) by (destruct π; [done|cbn; lia]).
  assert (Hs : (if 0 <? huge_step_of π then huge_step_of π else PAGE_SIZE) = part (2 - length π)).
  { unfold huge_step_of. destruct π as [|? [|? [|? ?]]]; [done..|]. cbn in Hl. lia. }
  rewrite Hs, He. rewrite Hlv in Hm. split; [done|]. split; [intros va w; by apply value_split|].
  intros Hj0 i Hi. destruct (split_entry_step e (2 - length π) i Hj Hm Hi) as (Hf & Hp & Hh). unfold step.
  rewrite Hp, Hh, Hf. cbn [negb]. destruct (2 - length π)%nat as [|[|n]] eqn:E; [done| |lia]. cbn.
  change (span 1) with HUGE_PAGE_2M_SIZE in *. change (span 2) with (512 * HUGE_PAGE_2M_SIZE) in Hm.
  change (0 <? Z.of_nat 1) with true. cbn. rewrite Z.mod_add by done. apply Z.mod_divide in Hm as [q ->]; [|done].
  by rewrite Z.mul_assoc, Z.mod_mul.
Qed.

(** A table for a missing or huge entry of [t]. *)
Lemma owned_new_table T w t r π i p f e :
  owned T w -> T !! t = Some (r, π) -> (length π < 3)%nat -> place π i -> T !! p = None -> page_addr p ->
  (forall c, step (w t i) <> Table c) -> table_content π (w t i) f -> step e = Table p ->
  let w' := fun q j => if (q =? t) && (j =? i) then e else if q =? p then f j else w q j in
  owned (<[p := (r, π ++ [i])]> T) w' /\
  (forall n t0 r0 va, user va -> (n <= 3)%nat -> T !! t0 = Some (r0, take (3 - n) (path va)) ->
     trans n t0 va w' = trans n t0 va w).
Proof.
  intros Ho Ht Hl Hpl Hp Hpa Hnt (k & Hk & Hval & Hcont) He w'.
  assert (Htp : t <> p) by congruence.
  assert (Hw : forall q j, is_Some (T !! q) -> (q, j) <> (t, i) -> w' q j = w q j).
  { intros q j [x Hq] Hne. unfold w'. destruct (Z.eqb_spec q t) as [->|], (Z.eqb_spec j i) as [->|]; cbn [andb]; try done;
      (destruct (Z.eqb_spec q p) || destruct (Z.eqb_spec t p)); done || congruence. }
  assert (Hwt : w' t i = e) by (unfold w'; by rewrite !Z.eqb_refl).
  assert (Hwp : forall j, w' p j = f j).
  { intros j. unfold w'. destruct (Z.eqb_spec p t); [congruence|]. by rewrite Z.eqb_refl. }
  assert (Hnone : forall c, T !! c <> Some (r, π ++ [i])).
  { intros c Hc. apply (own_parent _ _ Ho) in Hc as (_ & t' & Ht' & Hs). rewrite (own_inj _ _ Ho _ _ _ Ht' Ht) in Hs.
    by apply Hnt in Hs. }
  assert (Hlen : (length (π ++ [i]) <= 3)%nat) by (rewrite length_app; cbn; lia).
  split; [split|].
  - intros q s. destruct (decide (q = p)) as [->|]; [rewrite lookup_insert_eq; intros [= _ Hn]; by destruct π|].
    rewrite lookup_insert_ne by done. apply (own_root _ _ Ho).
  - intros q q' x. destruct (decide (q = p)) as [->|], (decide (q' = p)) as [->|]; rewrite ?lookup_insert_eq, ?lookup_insert_ne by done.
    + done.
    + intros [= <-] Hq. by apply Hnone in Hq.
    + intros Hq [= <-]. by apply Hnone in Hq.
    + apply (own_inj _ _ Ho).
  - intros q s π'. destruct (decide (q = p)) as [->|]; [rewrite lookup_insert_eq; by intros [= <- <-]|].
    rewrite lookup_insert_ne by done. apply (own_depth _ _ Ho).
  - intros q s π' j c. destruct (decide (q = p)) as [->|].
    + rewrite lookup_insert_eq, Hwp. intros [= <- <-] Hl' [Hj _] Hs. exfalso. rewrite length_app in Hl'. cbn in Hl'.
      specialize (Hcont ltac:(unfold level in Hk; lia) j Hj). by rewrite Hs in Hcont.
    + rewrite lookup_insert_ne by done. intros Hq Hl' Hj Hs. destruct (decide ((q, j) = (t, i))) as [[= -> ->]|Hne].
      * rewrite Hwt, He in Hs. injection Hs as <-. rewrite Ht in Hq. injection Hq as <- <-. by rewrite lookup_insert_eq.
      * rewrite Hw in Hs by (done || eauto). pose proof (own_link _ _ Ho _ _ _ _ _ Hq Hl' Hj Hs) as Hc.
        rewrite lookup_insert_ne by congruence. done.
  - intros c s π' j. destruct (decide (c = p)) as [->|].
    + rewrite lookup_insert_eq. intros [= <- Hπ]. apply app_inj_tail in Hπ as [<- <-]. split; [done|].
      exists t. rewrite lookup_insert_ne by done. by rewrite Hwt.
    + rewrite lookup_insert_ne by done. intros Hc. destruct (own_parent _ _ Ho _ _ _ _ Hc) as (Hj & t' & Ht' & Hs).
      split; [done|]. exists t'. rewrite lookup_insert_ne by congruence. split; [done|]. rewrite Hw; [done|eauto|].
      intros [= -> ->]. by apply Hnt in Hs.
  - intros q s π' j c. destruct (decide (q = p)) as [->|].
    + rewrite lookup_insert_eq, Hwp. intros [= <- <-] Hl' [Hj _] Hs. rewrite length_app in Hl'. cbn in Hl'.
      specialize (Hcont ltac:(unfold level in Hk; lia) j Hj). rewrite Hs in Hcont. split; [by destruct π|].
      unfold level in *. rewrite length_app. cbn. by replace (3 - (length π + 1))%nat with k by lia.
    + rewrite lookup_insert_ne by done. intros Hq Hl' Hj Hs. destruct (decide ((q, j) = (t, i))) as [[= -> ->]|Hne].
      * by rewrite Hwt, He in Hs.
      * rewrite Hw in Hs by (done || eauto). by apply (own_huge _ _ Ho q s π' j).
  - intros q s π' j. destruct (decide (q = p)) as [->|].
    + rewrite lookup_insert_eq, Hwp. intros [= <- <-] Hl' [Hj _] Hs. rewrite length_app in Hl'. cbn in Hl'.
      specialize (Hcont ltac:(unfold level in Hk; lia) j Hj). by rewrite Hs in Hcont.
    + rewrite lookup_insert_ne by done. intros Hq Hl' Hj Hs. destruct (decide ((q, j) = (t, i))) as [[= -> ->]|Hne].
      * by rewrite Hwt, He in Hs.
      * rewrite Hw in Hs |- * by (done || eauto). by apply (own_absent _ _ Ho q s π' j).
  - intros n t0 r0 va Hu Hn Ht0. eapply (trans_same T w w' t r π i va); [done..|].
    intros -> _ Hi. rewrite Hwt, Hk. cbn [value]. rewrite He, Hwp. rewrite Hval.
    destruct (step (w t i)) eqn:Es; [done|done|by destruct (Hnt t1)].
Qed.

(** *** Writes to tables *)
Lemma put_same p i e v : word (put p i e v) p i = e.
Proof. cbn. by rewrite !Z.eqb_refl. Qed.

Lemma put_other p i e v q j : (q, j) <> (p, i) -> word (put p i e v) q j = word v q j.
Proof. intros Hne. cbn. destruct (Z.eqb_spec q p) as [->|], (Z.eqb_spec j i) as [->|]; done. Qed.

Lemma idx_of j i : 0 <= i < 512 -> idx j (i * span j) = i.
Proof. intros Hi. pose proof (span_pos j). rewrite idx_div, Z.div_mul by lia. by apply Z.mod_small. Qed.

(** The table put in place of a missing or huge entry. *)
Lemma new_table_moves v v2 T U F t r π i p f e :
  tables v T U F -> T !! t = Some (r, π) -> (length π < 3)%nat -> place π i ->
  (forall c, step (word v t i) <> Table c) -> table_content π (word v t i) f -> step e = Table p ->
  p ∈ F -> available (source v2) U (F ∖ {[p]}) -> kernel_pml4 v2 = kernel_pml4 v ->
  (forall q j, word v2 q j = if (q =? t) && (j =? i) then e else if q =? p then f j else word v q j) ->
  moves T (<[p := (r, π ++ [i])]> T) U F (F ∖ {[p]}) v v2 unchanged.
Proof.
  intros (Ho & Ha & Hin) Ht Hl Hpl Hnt Hc He HpF Ha2 Hk Hw2.
  assert (HpT : T !! p = None) by (apply eq_None_not_Some; intros Hp; by apply Hin in Hp as [_ ?]).
  destruct (available_pages _ _ _ Ha) as [Hsub Hall]. assert (HpU : p ∈ U) by by apply Hsub.
  destruct (owned_new_table T (word v) t r π i p f e) as [Ho2 Htr2]; [done|done|done|done|done|by apply Hall|done|done|done|].
  set (w2 := fun q j => if (q =? t) && (j =? i) then e else if q =? p then f j else word v q j) in *.
  split.
  - split; [|split].
    + eapply owned_ext; [|exact Ho2]. intros q j. by rewrite Hw2.
    + done.
    + intros q. destruct (decide (q = p)) as [->|]; [rewrite lookup_insert_eq; split; [done|set_solver]|].
      rewrite lookup_insert_ne by done. intros Hq%Hin. set_solver.
  - intros s. destruct (decide (s = p)) as [->|]; [|by rewrite lookup_insert_ne].
    rewrite lookup_insert_eq, HpT. split; [intros [= _ Hn]; by destruct π|done].
  - intros q. destruct (decide (q = p)) as [->|]; [rewrite lookup_insert_eq|rewrite lookup_insert_ne by done]; set_solver.
  - intros s va Hs Hu. rewrite (trans_ext w2) by done. eapply Htr2; [done|lia|]. exact Hs.
  - split.
    + intros q j Hq HqF. rewrite Hw2. destruct (Z.eqb_spec q t) as [->|]; [congruence|]. cbn.
      destruct (Z.eqb_spec q p); [congruence|done].
    + intros s j Hs Hj. rewrite Hw2. destruct (Z.eqb_spec s p); [congruence|].
      destruct (Z.eqb_spec s t) as [->|]; [|done]. destruct (Z.eqb_spec j i) as [->|]; [|done].
      rewrite Hs in Ht. injection Ht as <- <-. destruct Hpl as [_ Hpl]. specialize (Hpl eq_refl). lia.
  - done.
  - intros Hn q s π' j d Hq Hl' Hj. rewrite Hw2. destruct ((q =? t) && (j =? i)); [by rewrite He|].
    destruct (Z.eqb_spec q p) as [->|Hqp].
    + rewrite lookup_insert_eq in Hq. injection Hq as <- <-. destruct Hc as (k & Hk' & Hval & _).
      specialize (Hval (j * span k) (word v)). rewrite idx_of in Hval by apply Hj. intros Hd.
      rewrite length_app in Hl'. cbn in Hl'. unfold level in Hk'. destruct k as [|k]; [lia|]. cbn [value] in Hval. rewrite Hd in Hval.
      destruct (step (word v t i)) eqn:Es; [done|by eapply Hn|by eapply Hnt].
    + rewrite lookup_insert_ne in Hq by done. by eapply Hn.
Qed.

Lemma get_or_create_spec v T U F t r π i :
  tables v T U F -> T !! t = Some (r, π) -> (length π < 3)%nat -> place π i ->
  match get_or_create_table_entry t i true (huge_step_of π) v with
  | (Some c, v') => exists T' F', moves T T' U F F' v v' unchanged /\ T ⊆ T' /\ T' !! c = Some (r, π ++ [i]) /\
      step (word v' t i) = Table c /\ (size F <= S (size F'))%nat
  | (None, v') => F = ∅ /\ moves T T U F F v v' unchanged
  end.
Proof.
  intros Htab Ht Hl Hpl. pose proof Htab as (Ho & Ha & Hin). unfold get_or_create_table_entry.
  assert (Hcase : is_present (word v t i) && negb (is_huge (word v t i)) = true /\ step (word v t i) = Table (frame (word v t i)) \/
    is_present (word v t i) && negb (is_huge (word v t i)) = false /\ (forall c, step (word v t i) <> Table c) /\
    table_content π (word v t i) (if is_huge (word v t i)
      then split_entry (word v t i) (if 0 <? huge_step_of π then huge_step_of π else PAGE_SIZE) else fun _ => 0)).
  { destruct (step (word v t i)) eqn:Es; pose proof Es as Es'; unfold step in Es';
      destruct (is_present (word v t i)) eqn:Ep, (is_huge (word v t i)) eqn:Eh; try done; cbn [negb andb] in Es' |- *.
    - pose proof (own_absent _ _ Ho _ _ _ _ Ht Hl Hpl Es). congruence.
    - right. split_and!; [done..|]. by apply zero_content.
    - right. split_and!; [done..|]. injection Es' as <-. destruct (own_huge _ _ Ho _ _ _ _ _ Ht Hl Hpl Es). by apply split_content.
    - left. by injection Es' as <-. }
  destruct Hcase as [[-> Hs]|(-> & Hnt & Hc)].
  { exists T, F. split; [by apply moves_refl|]. split_and!; [done| |done|lia]. by eapply own_link. }
  pose proof (vmm_alloc v T U F Htab) as Hal. destruct (alloc v) as [[p|] v1].
  2: { destruct Hal as (-> & Ht1 & Hw & Hk). split; [done|]. split; try done; [|split|]; rewrite ?Hw; intros; by rewrite ?Hw. }
  destruct Hal as (HpF & Ha1 & Hw1 & Hk1 & Hpa & Hp0 & HpT & HpU).
  set (f := if is_huge (word v t i) then _ else _) in Hc. set (v2 := put t i _ _).
  exists (<[p := (r, π ++ [i])]> T), (F ∖ {[p]}). rewrite lookup_insert_eq. split_and!; [|by apply insert_subseteq|done| |].
  - eapply (new_table_moves v v2 T U F t r π i p f); [done|done|done|done|done|done|by apply table_entry|done| | |].
    + unfold v2. by destruct (is_huge _).
    + unfold v2. by destruct (is_huge _).
    + intros q j. unfold v2, f. destruct (is_huge (word v t i)); cbn; rewrite Hw1; by destruct (q =? p).
  - unfold v2. rewrite put_same. by apply table_entry.
  - rewrite size_difference, size_singleton by set_solver. lia.
Qed.

Lemma moves_view_ext T T' U F F' v v' δ δ' :
  (forall r va x, δ r va x = δ' r va x) -> moves T T' U F F' v v' δ -> moves T T' U F F' v v' δ'.
Proof. intros Hd []. split; try done. intros r va Hr Hu. rewrite <- Hd. auto. Qed.

Lemma moves_unchanged_trans T T1 T2 U F F1 F2 v v1 v2 :
  moves T T1 U F F1 v v1 unchanged -> moves T1 T2 U F1 F2 v1 v2 unchanged -> moves T T2 U F F2 v v2 unchanged.
Proof. intros H1 H2. exact (moves_trans _ _ _ _ _ _ _ _ _ _ _ _ H1 H2). Qed.

Lemma walk_create_spec v T U F root va :
  tables v T U F -> T !! root = Some (root, []) -> user va ->
  match walk_create root va v with
  | (Some (pdpt, pd, pt), v') => exists T' F', moves T T' U F F' v v' unchanged /\
      T' !! pdpt = Some (root, take 1 (path va)) /\ T' !! pd = Some (root, take 2 (path va)) /\
      T' !! pt = Some (root, path va) /\ T' !! root = Some (root, []) /\
      (size F <= 3 + size F')%nat
  | (None, v') => (size F < 3)%nat /\ exists T', moves T T' U F ∅ v v' unchanged
  end.
Proof.
  intros Ht Hr Hu. unfold walk_create.
  pose proof (get_or_create_spec v T U F root root [] (idx 3 va) Ht Hr ltac:(cbn; lia) (user_place va 0 Hu ltac:(lia))) as H3.
  change (huge_step_of []) with 0 in H3. change (idx 3 va) with (pml4_idx va) in *.
  destruct (get_or_create_table_entry root _ _ _ v) as [[pdpt|] v1]; [|destruct H3 as [-> ?]; split; [rewrite size_empty; lia|by exists T]].
  destruct H3 as (T1 & F1 & M1 & S1 & Hpdpt & _ & N1).
  pose proof (get_or_create_spec v1 T1 U F1 pdpt root (take 1 (path va)) (idx 2 va) (moves_tables _ _ _ _ _ _ _ _ M1) Hpdpt ltac:(cbn; lia)
                (user_place va 1 Hu ltac:(lia))) as H2'.
  change (huge_step_of (take 1 (path va))) with HUGE_PAGE_2M_SIZE in H2'. change (idx 2 va) with (pdpt_idx va) in *.
  destruct (get_or_create_table_entry pdpt _ _ _ v1) as [[pd|] v2].
  2: { destruct H2' as [-> ?]. rewrite size_empty in N1. split; [lia|]. exists T1. by eapply moves_unchanged_trans. }
  destruct H2' as (T2 & F2 & M2 & S2 & Hpd & _ & N2).
  pose proof (get_or_create_spec v2 T2 U F2 pd root (take 2 (path va)) (idx 1 va) (moves_tables _ _ _ _ _ _ _ _ M2) Hpd ltac:(cbn; lia)
                (user_place va 2 Hu ltac:(lia))) as H1'.
  change (huge_step_of (take 2 (path va))) with PAGE_SIZE in H1'. change (idx 1 va) with (pd_idx va) in *.
  assert (M12 : moves T T2 U F F2 v v2 unchanged) by by eapply moves_unchanged_trans.
  destruct (get_or_create_table_entry pd _ _ _ v2) as [[pt|] v3].
  2: { destruct H1' as [-> ?]. rewrite size_empty in N2. split; [lia|]. exists T2. by eapply moves_unchanged_trans. }
  destruct H1' as (T3 & F3 & M3 & S3 & Hpt & _ & N3). exists T3, F3.
  split; [by eapply moves_unchanged_trans|]. split_and!; [|by eapply lookup_weaken|done| |lia].
  - eapply lookup_weaken; [|exact S3]. by eapply lookup_weaken.
  - by apply (moves_roots _ _ _ _ _ _ _ _ M3), (moves_roots _ _ _ _ _ _ _ _ M12).
Qed.

Lemma put_only T F t r π i e v : T !! t = Some (r, π) -> (π = [] -> i < 256) -> only_tables T F v (put t i e v).
Proof.
  intros Ht Hi. split.
  - intros q j Hq _. apply put_other. intros [= -> _]. congruence.
  - intros s j Hs Hj. apply put_other. intros [= -> ->]. rewrite Hs in Ht. injection Ht as <- <-. specialize (Hi eq_refl). lia.
Qed.

(** An entry that leads where it led. *)
Lemma table_not_huge e c : step e = Table c -> is_huge e = false.
Proof. unfold step. by destruct (is_present e), (is_huge e). Qed.

Lemma put_same_step T U F t r π i c e v :
  tables v T U F -> T !! t = Some (r, π) -> (length π < 3)%nat -> place π i ->
  step (word v t i) = Table c -> step e = Table c -> moves T T U F F v (put t i e v) unchanged.
Proof.
  intros (Ho & Ha & Hin) Ht Hl Hp Es Hs. split; try done.
  - split_and!; [|done..]. eapply owned_steps; [|done]. intros q s π' j _ _ _.
    destruct (decide ((q, j) = (t, i))) as [[= -> ->]|Hne]; [|by rewrite put_other].
    by rewrite put_same, Hs, Es, (table_not_huge _ _ Hs), (table_not_huge _ _ Es).
  - intros s va Hs0 Hu. unfold unchanged. eapply (trans_same T _ _ t r π i va); [done|done| |done|lia|exact Hs0|].
    + intros q j _ Hne. by apply put_other.
    + intros _ Hπ Hi. rewrite put_same. unfold level. destruct (3 - length π)%nat as [|k] eqn:Ek; [lia|].
      cbn [value]. rewrite Hs, Es.
      pose proof (own_link _ _ Ho _ _ _ _ _ Ht Hl Hp Es) as Hc.
      apply (trans_below T _ _ r va Ho Hu k c); [lia| |].
      * rewrite Hc. do 2 f_equal. replace (3 - k)%nat with (S (length π)) by lia. rewrite path_take_S, <- Hπ by lia.
        unfold level in Hi. by rewrite Hi.
      * intros q s' π' j Hq Hl'. apply put_other. intros [= -> ->]. rewrite Ht in Hq. injection Hq as <- <-. lia.
  - eapply put_only; [done|]. apply Hp.
  - intros Hn q s π' j d Hq Hl' Hj. destruct (decide ((q, j) = (t, i))) as [[= -> ->]|Hne];
      [by rewrite put_same, Hs|rewrite put_other by done]. by eapply Hn.
Qed.

Definition same_page (va va' : Z) : Prop := path va = path va' /\ idx 0 va = idx 0 va'.
#[export] Instance same_page_dec va va' : Decision (same_page va va').
Proof. unfold same_page. apply _. Defined.

(** The translation of a page replaced. *)
Definition at_page (root va : Z) (x : Z -> option (Z * Z)) : view_change :=
  fun r va' y => if decide (r = root /\ same_page va va') then x va' else y.

(** A write to an entry of the last level. *)
Lemma put_entry T U F root pt π i e v :
  tables v T U F -> T !! pt = Some (root, π) -> length π = 3%nat ->
  moves T T U F F v (put pt i e v)
    (fun r va' y => if decide (r = root /\ path va' = π /\ idx 0 va' = i) then value 0 e va' (word v) else y).
Proof.
  intros (Ho & Ha & Hin) Hpt Hl. split; try done.
  - split_and!; [|done..]. eapply owned_steps; [|done]. intros q s π' j Hq Hl' _.
    rewrite put_other; [done|]. intros [= -> ->]. rewrite Hpt in Hq. injection Hq as <- <-. lia.
  - intros s va' Hs Hu'. destruct (decide _) as [(-> & Hp & Hi)|Hne].
    + assert (Hpt' : T !! pt = Some (root, take 3 (path va'))) by by rewrite Hp, Hpt, firstn_all2 by lia.
      destruct (trans_reach T (word v) (word (put pt i e v)) va' root Ho 3 pt ltac:(lia) Hpt') as (r0 & Hr0 & Ht).
      * intros q j m Hq Hm _. apply put_other. intros [= -> ->]. rewrite Hpt' in Hq. injection Hq as Hq.
        apply (f_equal length) in Hq. rewrite length_path_take in Hq by lia. cbn in Hq. lia.
      * rewrite (own_root _ _ Ho _ _ Hr0) in Ht. rewrite Ht. unfold trans. cbn [Nat.sub]. rewrite Hi, put_same. done.
    + eapply (trans_same T _ _ pt root π i va'); [done|done| |done|lia|exact Hs|].
      * intros q j _ Hne'. by apply put_other.
      * intros -> Hp Hi. destruct Hne. unfold level in Hi. rewrite Hl in Hp, Hi. split_and!; [done|by rewrite Hp|done].
  - eapply put_only; [done|]. by intros ->.
  - intros Hn q s π' j d Hq Hl' Hj. rewrite put_other; [by eapply Hn|].
    intros [= -> ->]. rewrite Hpt in Hq. injection Hq as <- <-. lia.
Qed.

Lemma put_leaf T U F root pt va e v :
  tables v T U F -> T !! pt = Some (root, path va) ->
  moves T T U F F v (put pt (idx 0 va) e v) (at_page root va (fun va' => value 0 e va' (word v))).
Proof.
  intros Ht Hpt. eapply moves_view_ext; [|by apply (put_entry T U F root pt (path va))].
  intros r va' x. cbv beta. unfold at_page, same_page.
  destruct (decide _) as [(Hr & Hq1 & Hq2)|Hn].
  - destruct (decide _) as [_|Hn']; [done|]. by destruct Hn'.
  - destruct (decide _) as [(Hr & Hq1 & Hq2)|_]; [|done]. by destruct Hn.
Qed.

Lemma moves_flush T T' U F F' v v' δ va : moves T T' U F F' v v' δ -> moves T T' U F F' v (flush_tlb va v') δ.
Proof. by intros []; split. Qed.

Lemma moves_count T T' U F F' v v' δ : moves T T' U F F' v v' δ -> moves T T' U F F' v (count_unmap v') δ.
Proof. by intros []; split. Qed.

(** The entry that leads to a table. *)
Lemma own_entry T w t c r π i : owned T w -> T !! t = Some (r, π) -> T !! c = Some (r, π ++ [i]) ->
  place π i /\ (length π < 3)%nat /\ step (w t i) = Table c.
Proof.
  intros Ho Ht Hc. destruct (own_parent _ _ Ho _ _ _ _ Hc) as (Hp & t' & Ht' & Hs).
  rewrite (own_inj _ _ Ho _ _ _ Ht' Ht) in Hs. pose proof (own_depth _ _ Ho _ _ _ Hc) as Hl. rewrite length_app in Hl. cbn in Hl.
  split_and!; [done|lia|done].
Qed.

Lemma set_user_moves T U F t c r π i v :
  tables v T U F -> T !! t = Some (r, π) -> T !! c = Some (r, π ++ [i]) ->
  moves T T U F F v (change t i set_user v) unchanged.
Proof.
  intros Ht Hr Hc. destruct (own_entry T (word v) t c r π i (proj1 Ht) Hr Hc) as (Hp & Hl & Hs).
  eapply put_same_step; [done..|]. by rewrite step_set_user.
Qed.

(** *** Mapping *)
(** The writes of a mapping once the tables are there. *)
Lemma map_walked v v1 T U F root va phys f pdpt pd pt :
  walk_create root va v = (Some (pdpt, pd, pt), v1) -> tables v1 T U F -> T !! root = Some (root, []) ->
  T !! pdpt = Some (root, take 1 (path va)) -> T !! pd = Some (root, take 2 (path va)) -> T !! pt = Some (root, path va) ->
  flag_bits f -> page_addr phys ->
  moves T T U F F v1 (map_user root va phys f v)
    (at_page root va (fun va' => if is_present f then Some (phys + Z.land va' (span 0 - 1), perm f) else None)).
Proof.
  intros Hw Ht Hr1 Hpdpt Hpd Hpt Hf Hp. unfold map_user. rewrite Hw. set (v2 := if has_bits f PAGE_USER then _ else v1).
  assert (M2 : moves T T U F F v1 v2 unchanged).
  { unfold v2. destruct (has_bits f PAGE_USER); [|by apply moves_refl].
    pose proof (set_user_moves T U F root pdpt root [] (idx 3 va) v1 Ht Hr1 Hpdpt) as Ma.
    pose proof (set_user_moves T U F pdpt pd root _ (idx 2 va) _ (moves_tables _ _ _ _ _ _ _ _ Ma) Hpdpt Hpd) as Mb.
    pose proof (set_user_moves T U F pd pt root _ (idx 1 va) _ (moves_tables _ _ _ _ _ _ _ _ Mb) Hpd Hpt) as Mc.
    eapply moves_unchanged_trans; [exact Ma|]. eapply moves_unchanged_trans; [exact Mb|exact Mc]. }
  unfold set_leaf, PageTable.change. apply moves_flush. change (pt_idx va) with (idx 0 va).
  pose proof (put_leaf T U F root pt va (set_flags f (set_frame phys (word v2 pt (idx 0 va)))) v2
                (moves_tables _ _ _ _ _ _ _ _ M2) Hpt) as M3.
  destruct (leaf_entry f phys (word v2 pt (idx 0 va)) Hf Hp) as (Hfr & Hpr & _).
  eapply moves_view_ext; [|exact (moves_trans _ _ _ _ _ _ _ _ _ _ _ _ M2 M3)]. intros r va' x. unfold at_page, unchanged.
  destruct (decide _); [|done]. cbn [value]. by rewrite Hpr, Hfr, perm_set_flags.
Qed.

Lemma map_user_spec T U F root va phys f v :
  tables v T U F -> T !! root = Some (root, []) -> user va -> flag_bits f -> page_addr phys ->
  exists T' F', ((size F < 3)%nat /\ F' = ∅) /\ moves T T' U F F' v (map_user root va phys f v) unchanged \/
    (size F <= 3 + size F')%nat /\ moves T T' U F F' v (map_user root va phys f v)
      (at_page root va (fun va' => if is_present f then Some (phys + Z.land va' (span 0 - 1), perm f) else None)).
Proof.
  intros Ht Hr Hu Hf Hp. pose proof (walk_create_spec v T U F root va Ht Hr Hu) as Hw.
  destruct (walk_create root va v) as [[[[pdpt pd] pt]|] v1] eqn:E.
  2: { destruct Hw as (Hs & T' & M). exists T', ∅. left. split; [by split|]. unfold map_user. by rewrite E. }
  destruct Hw as (T1 & F1 & M1 & Hpdpt & Hpd & Hpt & Hr1 & Hs). exists T1, F1. right. split; [done|].
  pose proof (map_walked v v1 T1 U F1 root va phys f pdpt pd pt E (moves_tables _ _ _ _ _ _ _ _ M1) Hr1 Hpdpt Hpd Hpt Hf Hp) as M2.
  eapply moves_view_ext; [|exact (moves_trans _ _ _ _ _ _ _ _ _ _ _ _ M1 M2)]. by intros r va' x.
Qed.

(** *** Unmapping *)
Lemma untranslated T w root t n va va' :
  owned T w -> T !! t = Some (root, take n (path va)) -> (n < 3)%nat ->
  step (w t (idx (3 - n) va)) = Absent -> same_page va va' -> trans 3 root va' w = None.
Proof.
  intros Ho Ht Hn Hs [Hp Hi]. rewrite Hp in Ht.
  destruct (trans_reach T w w va' root Ho n t ltac:(lia) Ht) as (r0 & Hr0 & Htr); [done|].
  rewrite (own_root _ _ Ho _ _ Hr0) in Htr. rewrite Htr. unfold trans.
  assert (Hidx : idx (3 - n) va' = idx (3 - n) va).
  { unfold path in Hp. injection Hp as H3 H2' H1'. destruct n as [|[|[|n]]]; [done..|lia]. }
  rewrite Hidx. apply value_absent. unfold step in Hs. destruct (is_present _); [|done]. by destruct (is_huge _).
Qed.

Lemma table_empty t v i : is_table_empty t v = true -> 0 <= i < 512 -> is_present (word v t i) = false.
Proof.
  unfold is_table_empty. rewrite forallb_forall. intros H1 Hi. apply negb_true_iff, H1.
  apply list_elem_of_In, elem_of_seqZ. lia.
Qed.

Lemma absent_step e : is_present e = false -> step e = Absent.
Proof. unfold step. by intros ->. Qed.

(** An empty table given back. *)
Lemma free_table_spec v T U F t r π i c :
  tables v T U F -> T !! t = Some (r, π) -> T !! c = Some (r, π ++ [i]) -> step (word v t i) = Table c ->
  is_table_empty c v = true -> moves T (delete c T) U F ({[c]} ∪ F) v (free c (put t i 0 v)) unchanged.
Proof.
  intros (Ho & Ha & Hin) Ht Hc Hs He. destruct (own_parent _ _ Ho _ _ _ _ Hc) as (Hpl & _).
  pose proof (own_depth _ _ Ho _ _ _ Hc) as Hl. rewrite length_app in Hl. cbn in Hl.
  set (v' := free c (put t i 0 v)).
  assert (Hw : forall q j, (q, j) <> (t, i) -> word v' q j = word v q j) by (intros; by apply put_other).
  assert (Hwt : word v' t i = 0) by apply put_same.
  assert (Htc : t <> c) by (intros ->; rewrite Hc in Ht; injection Ht as Hπ; apply (f_equal length) in Hπ; rewrite length_app in Hπ; cbn in Hπ; lia).
  assert (Hdel : forall q x, delete c T !! q = Some x <-> q <> c /\ T !! q = Some x) by (intros; rewrite lookup_delete_Some; naive_solver).
  assert (Hempty : forall j, 0 <= j < 512 -> step (word v c j) = Absent) by (intros; by apply absent_step, table_empty).
  split.
  - split_and!.
    + split.
      * intros q s [_ Hq]%Hdel. by apply (own_root _ _ Ho).
      * intros q q' x [_ Hq]%Hdel [_ Hq']%Hdel. by apply (own_inj _ _ Ho q q' x).
      * intros q s π' [_ Hq]%Hdel. by apply (own_depth _ _ Ho q s).
      * intros q s π' j d [Hne Hq]%Hdel Hl' Hj Hd. apply Hdel. destruct (decide ((q, j) = (t, i))) as [[= -> ->]|Hn]; [by rewrite Hwt in Hd|].
        rewrite Hw in Hd by done. pose proof (own_link _ _ Ho _ _ _ _ _ Hq Hl' Hj Hd) as HTd. split; [|done]. intros ->.
        rewrite Hc in HTd. injection HTd as <- Hπ. apply app_inj_tail in Hπ as [<- <-]. by rewrite (own_inj _ _ Ho _ _ _ Hq Ht) in Hn.
      * intros d s π' j [Hne Hd]%Hdel. destruct (own_parent _ _ Ho _ _ _ _ Hd) as (Hj & q & Hq & Hsq). split; [done|].
        exists q. destruct (decide ((q, j) = (t, i))) as [[= -> ->]|Hn]; [congruence|]. rewrite Hw by done. split; [|done].
        apply Hdel. split; [|done]. intros ->. rewrite Hempty in Hsq; [done|apply Hj].
      * intros q s π' j p [Hne Hq]%Hdel Hl' Hj Hp. destruct (decide ((q, j) = (t, i))) as [[= -> ->]|Hn]; [by rewrite Hwt in Hp|].
        rewrite Hw in Hp by done. by apply (own_huge _ _ Ho q s π' j p).
      * intros q s π' j [Hne Hq]%Hdel Hl' Hj Hp. destruct (decide ((q, j) = (t, i))) as [[= -> ->]|Hn]; [by rewrite Hwt|].
        rewrite Hw in Hp |- * by done. by apply (own_absent _ _ Ho q s π' j).
    + destruct (Hin c) as [HcU HcF]; [eauto|]. by apply free_page_law.
    + intros q [x [Hne Hq]%Hdel]. destruct (Hin q) as [? ?]; [eauto|]. split; [done|]. set_solver.
  - intros s. rewrite Hdel. split; [by intros [_ ?]|]. intros Hs'. split; [|done]. intros ->. rewrite Hc in Hs'.
    injection Hs' as _ Hπ. by destruct π.
  - intros q. destruct (decide (q = c)) as [->|Hne].
    + rewrite lookup_delete_eq. split; [left; eauto|]. intros _. right. set_solver.
    + rewrite lookup_delete_ne by done. set_solver.
  - intros s va Hs' Hu. eapply (trans_same T _ _ t r π i va); [done|done| |done|lia|exact Hs'|].
    + intros q j _ Hn. by apply Hw.
    + intros _ _ Hi. rewrite Hwt, value_absent by done. unfold level. destruct (3 - length π)%nat as [|k] eqn:Ek; [lia|].
      cbn [value]. rewrite Hs. symmetry. apply value_absent, table_empty; [done|apply idx_range].
  - eapply (put_only T F t r π i 0 v); [done|apply Hpl].
  - done.
  - intros Hn q s π' j p [Hne Hq]%Hdel Hl' Hj. destruct (decide ((q, j) = (t, i))) as [[= -> ->]|Hn']; [by rewrite Hwt|].
    rewrite Hw by done. by eapply Hn.
Qed.

(** The tables on the path of [va]. *)
Definition on_path (T : gmap Z (Z * list Z)) (root va t : Z) (n : nat) : Prop := T !! t = Some (root, take n (path va)).

Lemma on_path_ne T root va t t' n m : on_path T root va t n -> on_path T root va t' m -> (n <= 3)%nat -> (m <= 3)%nat -> n <> m -> t <> t'.
Proof.
  intros Ht Ht' Hn Hm Hne ->. unfold on_path in *. rewrite Ht' in Ht. injection Ht as Ht.
  apply (f_equal length) in Ht. rewrite !length_path_take in Ht; lia.
Qed.

Lemma free_on_path v T U F root va t c n :
  tables v T U F -> on_path T root va t n -> on_path T root va c (S n) -> (n < 3)%nat ->
  step (word v t (idx (3 - n) va)) = Table c -> is_table_empty c v = true ->
  moves T (delete c T) U F ({[c]} ∪ F) v (free c (put t (idx (3 - n) va) 0 v)) unchanged.
Proof.
  intros Htab Ht Hc Hn Hs He. eapply free_table_spec; [done|exact Ht| |done|done].
  unfold on_path in Hc. by rewrite path_take_S in Hc.
Qed.

Lemma on_path_delete T root va t c n m :
  on_path T root va t n -> on_path T root va c m -> (n <= 3)%nat -> (m <= 3)%nat -> n <> m -> on_path (delete c T) root va t n.
Proof.
  intros Ht Hc Hn Hm Hne. unfold on_path. rewrite lookup_delete_ne; [done|]. by eapply not_eq_sym, on_path_ne.
Qed.

Lemma free_empty_spec v T U F root pdpt pd pt va :
  tables v T U F -> on_path T root va root 0 -> on_path T root va pdpt 1 -> on_path T root va pd 2 -> on_path T root va pt 3 ->
  step (word v root (pml4_idx va)) = Table pdpt -> step (word v pdpt (pdpt_idx va)) = Table pd ->
  step (word v pd (pd_idx va)) = Table pt ->
  exists T' F', F ⊆ F' /\ moves T T' U F F' v (free_empty root pdpt pd pt va v) unchanged.
Proof.
  intros Ht Hr0 Hpdpt Hpd Hpt S3 S2 S1. unfold free_empty.
  destruct (is_table_empty pt v) eqn:E1; cbn [negb]; [|by exists T, F; split; [|apply moves_refl]].
  pose proof (free_on_path v T U F root va pd pt 2 Ht Hpd Hpt ltac:(lia) S1 E1) as M1.
  change (idx (3 - 2) va) with (pd_idx va) in M1. set (v1 := free pt _) in *.
  destruct (is_table_empty pd v1) eqn:E2; cbn [negb]; [|by eexists _, _; split; [|exact M1]; clear; set_solver].
  assert (S2' : step (word v1 pdpt (pdpt_idx va)) = Table pd).
  { unfold v1. cbn. destruct (Z.eqb_spec pdpt pd) as [->|]; [|done]. by destruct (on_path_ne T root va pd pd 1 2); auto. }
  assert (Hd1 : on_path (delete pt T) root va root 0 /\ on_path (delete pt T) root va pdpt 1 /\ on_path (delete pt T) root va pd 2)
    by (split_and!; eapply on_path_delete; eauto with lia).
  destruct Hd1 as (Hr1 & Hpdpt1 & Hpd1).
  pose proof (free_on_path v1 (delete pt T) U _ root va pdpt pd 1 (moves_tables _ _ _ _ _ _ _ _ M1) Hpdpt1 Hpd1 ltac:(lia) S2' E2) as M2.
  change (idx (3 - 1) va) with (pdpt_idx va) in M2. set (v2 := free pd _) in *.
  pose proof (moves_unchanged_trans _ _ _ _ _ _ _ _ _ _ M1 M2) as M12.
  destruct (is_table_empty pdpt v2) eqn:E3; cbn [negb]; [|by eexists _, _; split; [|exact M12]; clear; set_solver].
  assert (S3' : step (word v2 root (pml4_idx va)) = Table pdpt).
  { unfold v2, v1. cbn. destruct (Z.eqb_spec root pdpt) as [->|]; [by destruct (on_path_ne T pdpt va pdpt pdpt 0 1); auto|].
    destruct (Z.eqb_spec root pd) as [->|]; [by destruct (on_path_ne T pd va pd pd 0 2); auto|]. done. }
  pose proof (free_on_path v2 (delete pd (delete pt T)) U _ root va root pdpt 0 (moves_tables _ _ _ _ _ _ _ _ M2)
    ltac:(eapply on_path_delete; eauto with lia) ltac:(eapply on_path_delete; eauto with lia) ltac:(lia) S3' E3) as M3.
  change (idx (3 - 0) va) with (pml4_idx va) in M3.
  eexists _, _. split; [|exact (moves_unchanged_trans _ _ _ _ _ _ _ _ _ _ M12 M3)]. clear. set_solver.
Qed.

(** The top level of a table in place has no huge entries. *)
Lemma top_step T w root i :
  owned T w -> T !! root = Some (root, []) -> 0 <= i < 256 ->
  top (w root i) = match step (w root i) with Table c => Some c | _ => None end.
Proof.
  intros Ho Hr Hi. assert (Hp : place [] i) by (split; [lia|]; intros; lia).
  destruct (step (w root i)) eqn:Es; pose proof Es as E; unfold step in E; unfold top;
    destruct (is_present (w root i)), (is_huge (w root i)) eqn:Eh; try done; cbn in E |- *.
  - by destruct (own_huge _ _ Ho root root [] i p Hr ltac:(cbn; lia) Hp Es).
  - congruence.
Qed.

(** The lookup is the translation. *)
Lemma get_physical_spec v T U F root va :
  tables v T U F -> T !! root = Some (root, []) -> user va -> get_physical_in_pml4 root va v = fst <$> trans 3 root va (word v).
Proof.
  intros (Ho & Ha & Hin) Hr Hu. unfold get_physical_in_pml4. destruct (available_pages _ _ _ Ha) as [_ Hall].
  destruct (Hin root) as [HrU _]; [eauto|]. destruct (Hall root HrU) as [_ Hr0].
  destruct (Z.eqb_spec root 0); [done|]. change (pml4_idx va) with (idx 3 va).
  rewrite (top_step T) by (first [done|split; [apply idx_range|exact Hu]]). unfold trans. cbn [value].
  destruct (step (word v root (idx 3 va))) as [| |pdpt] eqn:E; [done| |].
  - by destruct (own_huge _ _ Ho root root [] (idx 3 va) p Hr ltac:(cbn; lia) (user_place va 0 Hu ltac:(lia)) E).
  - change (pdpt_idx va) with (idx 2 va). destruct (step (word v pdpt (idx 2 va))) as [| |pd]; [done..|].
    change (pd_idx va) with (idx 1 va). destruct (step (word v pd (idx 1 va))) as [| |pt]; [done..|].
    change (pt_idx va) with (idx 0 va). by destruct (is_present (word v pt (idx 0 va))).
Qed.

Lemma moves_absent T U F root t n va v :
  tables v T U F -> on_path T root va t n -> (n < 3)%nat -> step (word v t (idx (3 - n) va)) = Absent ->
  moves T T U F F v v (at_page root va (fun _ => None)).
Proof.
  intros Ht Hp Hn Hs. destruct (moves_refl T U F v Ht) as [? ? ? V ? ? ?]. split; try done.
  intros s va' Hs' Hu. unfold at_page. destruct (decide _) as [[-> Hsame]|]; [|done].
  eapply untranslated; [apply Ht|exact Hp|done|done|done].
Qed.

Lemma unmap_spec v T U F root va :
  tables v T U F -> no_huge T (word v) -> T !! root = Some (root, []) -> user va ->
  exists T' F', F ⊆ F' /\ moves T T' U F F' v (unmap_page_in_table root va v) (at_page root va (fun _ => None)).
Proof.
  intros Ht Hn Hr Hu. pose proof Ht as (Ho & Ha & Hin). unfold unmap_page_in_table.
  destruct (available_pages _ _ _ Ha) as [_ Hall].
  destruct (Hin root) as [HrU _]; [eauto|]. destruct (Hall root HrU) as [_ Hne].
  destruct (Z.eqb_spec root 0); [done|]. clear Hall HrU Hne. change (pml4_idx va) with (idx 3 va) at 1.
  destruct (Z.leb_spec 256 (idx 3 va)); [unfold user in Hu; lia|]. change (pml4_idx va) with (idx 3 va).
  change (pdpt_idx va) with (idx 2 va). change (pd_idx va) with (idx 1 va). change (pt_idx va) with (idx 0 va).
  pose proof (top_step T (word v) root (idx 3 va) Ho Hr ltac:(split; [apply idx_range|exact Hu])) as ->.
  assert (Hr0 : on_path T root va root 0) by exact Hr.
  destruct (step (word v root (idx 3 va))) as [| |pdpt] eqn:S3;
    [exists T, F; split; [done|]; apply (moves_absent T U F root root 0); [done|done|lia|done]|by destruct (Hn root root [] (idx 3 va) p Hr ltac:(cbn; lia) (user_place va 0 Hu ltac:(lia)))|].
  assert (Hp1 : on_path T root va pdpt 1) by (apply (own_walk T (word v) root root va 0); [done|done|lia|done|done]).
  destruct (step (word v pdpt (idx 2 va))) as [| |pd] eqn:S2;
    [exists T, F; split; [done|]; apply (moves_absent T U F root pdpt 1); [done|done|lia|done]|by destruct (Hn pdpt root _ (idx 2 va) p Hp1 ltac:(cbn; lia) (user_place va 1 Hu ltac:(lia)))|].
  assert (Hp2 : on_path T root va pd 2) by (apply (own_walk T (word v) pdpt root va 1); [done|done|lia|done|done]).
  destruct (step (word v pd (idx 1 va))) as [| |pt] eqn:S1;
    [exists T, F; split; [done|]; apply (moves_absent T U F root pd 2); [done|done|lia|done]|by destruct (Hn pd root _ (idx 1 va) p Hp2 ltac:(cbn; lia) (user_place va 2 Hu ltac:(lia)))|].
  assert (Hp3 : on_path T root va pt 3) by (apply (own_walk T (word v) pd root va 2); [done|done|lia|done|done]).
  pose proof (moves_flush _ _ _ _ _ _ _ _ va (put_leaf T U F root pt va 0 v Ht Hp3)) as M1.
  assert (Hsame : forall q n, on_path T root va q n -> (n < 3)%nat -> forall j, word (flush_tlb va (put pt (idx 0 va) 0 v)) q j = word v q j).
  { intros q m Hq Hm j. apply put_other. intros [= -> _]. destruct (on_path_ne T root va pt pt m 3 Hq Hp3); (done || lia). }
  destruct (free_empty_spec (flush_tlb va (put pt (idx 0 va) 0 v)) T U F root pdpt pd pt va) as (T' & F' & Hsub & M2); auto.
  - apply M1.
  - rewrite (Hsame _ _ Hr0) by lia. exact S3.
  - rewrite (Hsame _ _ Hp1) by lia. exact S2.
  - rewrite (Hsame _ _ Hp2) by lia. exact S1.
  - exists T', F'. split; [done|]. apply moves_count. eapply moves_view_ext; [|exact (moves_trans _ _ _ _ _ _ _ _ _ _ _ _ M1 M2)].
    intros r va' x. by unfold at_page, unchanged.
Qed.

(** *** A page that is there *)
Lemma view_leaf v T U F root va x :
  tables v T U F -> no_huge T (word v) -> T !! root = Some (root, []) -> user va -> trans 3 root va (word v) = Some x ->
  exists pdpt pd pt, on_path T root va pdpt 1 /\ on_path T root va pd 2 /\ on_path T root va pt 3 /\
    is_present (word v pt (idx 0 va)) = true /\
    x = (frame (word v pt (idx 0 va)) + Z.land va (span 0 - 1), perm (word v pt (idx 0 va))).
Proof.
  intros (Ho & _) Hn Hr Hu. unfold trans. cbn [value]. assert (Hr0 : on_path T root va root 0) by exact Hr.
  destruct (step (word v root (idx 3 va))) as [|p|pdpt] eqn:S3; [done|by destruct (Hn root root [] (idx 3 va) p Hr ltac:(cbn; lia) (user_place va 0 Hu ltac:(lia)))|].
  assert (Hp1 : on_path T root va pdpt 1) by (apply (own_walk T (word v) root root va 0); [done|done|lia|done|done]).
  destruct (step (word v pdpt (idx 2 va))) as [|p|pd] eqn:S2; [done|by destruct (Hn pdpt root _ (idx 2 va) p Hp1 ltac:(cbn; lia) (user_place va 1 Hu ltac:(lia)))|].
  assert (Hp2 : on_path T root va pd 2) by (apply (own_walk T (word v) pdpt root va 1); [done|done|lia|done|done]).
  destruct (step (word v pd (idx 1 va))) as [|p|pt] eqn:S1; [done|by destruct (Hn pd root _ (idx 1 va) p Hp2 ltac:(cbn; lia) (user_place va 2 Hu ltac:(lia)))|].
  assert (Hp3 : on_path T root va pt 3) by (apply (own_walk T (word v) pd root va 2); [done|done|lia|done|done]).
  destruct (is_present (word v pt (idx 0 va))) eqn:Ep; [|done]. intros [= <-]. by exists pdpt, pd, pt.
Qed.

Lemma get_present t i s v c : step (word v t i) = Table c -> get_or_create_table_entry t i true s v = (Some c, v).
Proof.
  unfold get_or_create_table_entry, step. destruct (is_present _), (is_huge _); try done. by intros [= ->].
Qed.

Lemma walk_present v T root va pdpt pd pt :
  owned T (word v) -> on_path T root va root 0 -> on_path T root va pdpt 1 -> on_path T root va pd 2 -> on_path T root va pt 3 ->
  walk_create root va v = (Some (pdpt, pd, pt), v).
Proof.
  intros Ho H0' H1 H2' H3. unfold walk_create.
  destruct (own_entry T (word v) root pdpt root [] (idx 3 va) Ho H0' H1) as (_ & _ & S3).
  destruct (own_entry T (word v) pdpt pd root (take 1 (path va)) (idx 2 va) Ho H1 H2') as (_ & _ & S2).
  destruct (own_entry T (word v) pd pt root (take 2 (path va)) (idx 1 va) Ho H2' H3) as (_ & _ & S1).
  by rewrite (get_present _ _ _ _ _ S3), (get_present _ _ _ _ _ S2), (get_present _ _ _ _ _ S1).
Qed.

(** Mapping over a page that is there takes no new table. *)
Lemma map_present v T U F root va phys f x :
  tables v T U F -> no_huge T (word v) -> T !! root = Some (root, []) -> user va -> trans 3 root va (word v) = Some x ->
  flag_bits f -> page_addr phys ->
  moves T T U F F v (map_user root va phys f v)
    (at_page root va (fun va' => if is_present f then Some (phys + Z.land va' (span 0 - 1), perm f) else None)).
Proof.
  intros Ht Hn Hr Hu Hx Hf Hp. destruct (view_leaf v T U F root va x Ht Hn Hr Hu Hx) as (pdpt & pd & pt & Hp1 & Hp2 & Hp3 & _).
  eapply map_walked; [|done..]. eapply walk_present; [apply Ht|exact Hr|done..].
Qed.

(** *** A history of calls *)
Inductive Call := MapPage (root va phys f : Z) | UnmapPage (root va : Z).

Definition call (c : Call) v : Vmm A :=
  match c with
  | MapPage root va phys f => map_page_in_table root va phys f v
  | UnmapPage root va => unmap_page_in_table root va v
  end.

Definition calls (cs : list Call) v : Vmm A := foldl (fun v c => call c v) v cs.

(** What a call means for the translation. *)
Definition meaning (c : Call) : view_change :=
  match c with
  | MapPage root va phys f => at_page root va (fun va' => if is_present f then Some (phys + Z.land va' (PAGE_SIZE - 1), perm f) else None)
  | UnmapPage root va => at_page root va (fun _ => None)
  end.

Definition meanings (cs : list Call) : view_change := fun r va x => foldl (fun x c => meaning c r va x) x cs.

(** Where a process's address leads, with the permissions of its page. *)
Definition view (root va : Z) v : option (Z * Z) := trans 3 root va (word v).

(** The calls that were carried out. *)
Fixpoint carried (cs : list Call) (oks : list bool) : list Call :=
  match cs, oks with
  | c :: cs, ok :: oks => if ok : bool then c :: carried cs oks else carried cs oks
  | _, _ => []
  end.

Lemma carried_all cs oks : Forall (eq true) oks -> length oks = length cs -> carried cs oks = cs.
Proof.
  intros Ha. revert cs. induction Ha as [|ok oks <- _ IH]; intros [|c cs]; [done..|]. intros [= Hl]. cbn. by rewrite IH.
Qed.

Definition is_mapping (c : Call) : Prop := match c with MapPage _ _ _ _ => True | UnmapPage _ _ => False end.

Definition legal (T : gmap Z (Z * list Z)) (c : Call) : Prop :=
  match c with
  | MapPage root va phys f => T !! root = Some (root, []) /\ user va /\ flag_bits f /\ page_addr phys
  | UnmapPage root va => T !! root = Some (root, []) /\ user va
  end.

Lemma legal_roots T T' c : (forall r, T' !! r = Some (r, []) <-> T !! r = Some (r, [])) -> legal T c -> legal T' c.
Proof. destruct c; cbn; intros HT; rewrite HT; done. Qed.

Lemma root_nonzero v T U F root : tables v T U F -> T !! root = Some (root, []) -> root <> 0.
Proof. intros (_ & Ha & Hin) Hr. apply (available_pages _ _ _ Ha), Hin. eauto. Qed.

Lemma map_in_table_eq root va phys f v : root <> 0 -> user va -> map_page_in_table root va phys f v = map_user root va phys f v.
Proof.
  intros Hr Hu. unfold map_page_in_table. destruct (Z.eqb_spec root 0); [done|].
  change (pml4_idx va) with (idx 3 va). unfold user in Hu. destruct (Z.leb_spec 256 (idx 3 va)); [lia|done].
Qed.

Lemma call_spec v T U F c :
  tables v T U F -> no_huge T (word v) -> legal T c ->
  exists T' F' ok, moves T T' U F F' v (call c v) (if ok : bool then meaning c else unchanged) /\
    if ok then (size F <= 3 + size F')%nat else (size F < 3)%nat /\ F' = ∅ /\ is_mapping c.
Proof.
  intros Ht Hn Hc. destruct c as [root va phys f|root va]; cbn [call meaning legal] in *.
  - destruct Hc as (Hr & Hu & Hf & Hp). rewrite map_in_table_eq by (done || by eapply root_nonzero).
    destruct (map_user_spec T U F root va phys f v Ht Hr Hu Hf Hp) as (T' & F' & [[[? ?] M]|[? M]]).
    + by exists T', F', false.
    + by exists T', F', true.
  - destruct Hc as [Hr Hu]. destruct (unmap_spec v T U F root va Ht Hn Hr Hu) as (T' & F' & Hsub%subseteq_size & M).
    exists T', F', true. split; [done|lia].
Qed.

Lemma calls_spec cs : forall v T U F,
  tables v T U F -> no_huge T (word v) -> Forall (legal T) cs ->
  exists T' F' oks, moves T T' U F F' v (calls cs v) (meanings (carried cs oks)) /\ length oks = length cs /\
    (forall i, oks !! i = Some false ->
       exists c Ti, cs !! i = Some c /\ is_mapping c /\ tables (calls (take (S i) cs) v) Ti U ∅) /\
    ((3 * length cs <= size F)%nat -> Forall (eq true) oks).
Proof.
  induction cs as [|c cs IH]; intros v T U F Ht Hn Hl.
  { exists T, F, []. split; [by apply moves_refl|]. split_and!; [done| |constructor]. intros i Hi. by rewrite lookup_nil in Hi. }
  apply Forall_cons in Hl as [Hc Hl]. destruct (call_spec v T U F c Ht Hn Hc) as (T1 & F1 & ok & M1 & Hok).
  destruct (IH (call c v) T1 U F1) as (T2 & F2 & oks & M2 & Hlen & Hf & Ha).
  { apply M1. } { by apply M1. } { eapply Forall_impl; [exact Hl|]. intros d. apply legal_roots, M1. }
  exists T2, F2, (ok :: oks). split; [|split_and!].
  - pose proof (moves_trans _ _ _ _ _ _ _ _ _ _ _ _ M1 M2) as M. by destruct ok.
  - cbn. by rewrite Hlen.
  - intros [|i] Hi; [|exact (Hf i Hi)]. injection Hi as ->. destruct Hok as (_ & -> & Hm).
    exists c, T1. split_and!; [done..|]. apply M1.
  - cbn [length]. intros Hs. destruct ok; [|lia]. constructor; [done|]. apply Ha. lia.
Qed.

(** With three pages free for every call each of them is carried out. *)
Lemma calls_all_carried cs v T U F :
  tables v T U F -> no_huge T (word v) -> Forall (legal T) cs -> (3 * length cs <= size F)%nat ->
  exists T' F', moves T T' U F F' v (calls cs v) (meanings cs).
Proof.
  intros Ht Hn Hl Hs. destruct (calls_spec cs v T U F Ht Hn Hl) as (T' & F' & oks & M & Hlen & _ & Ha).
  exists T', F'. by rewrite (carried_all cs oks (Ha Hs) Hlen) in M.
Qed.


(** *** A new address space *)
Lemma owned_new_root T w w' p :
  owned T w -> T !! p = None -> (forall q j, is_Some (T !! q) -> w' q j = w q j) ->
  (forall i, 0 <= i < 256 -> w' p i = 0) -> owned (<[p := (p, [])]> T) w'.
Proof.
  intros Ho Hp Hw H0'. assert (Hz : forall i, place [] i -> step (w' p i) = Absent /\ is_huge (w' p i) = false).
  { intros i [Hi Hlt]. rewrite H0'; [done|]. specialize (Hlt eq_refl). lia. }
  assert (Hroot : forall c, T !! c <> Some (p, [])) by (intros c Hc; rewrite (own_root _ _ Ho _ _ Hc) in Hc; congruence).
  assert (Hin : forall q x, <[p := (p, [])]> T !! q = Some x -> q = p /\ x = (p, []) \/ q <> p /\ T !! q = Some x /\ forall j, w' q j = w q j).
  { intros q x Hq. destruct (decide (q = p)) as [->|]; [rewrite lookup_insert_eq in Hq; left; split; congruence|].
    rewrite lookup_insert_ne in Hq by done. right. split_and!; [done..|]. intros j. apply Hw. eauto. }
  split.
  - intros q s [[-> [= <-]]|(_ & Hq & _)]%Hin; [done|]. by apply (own_root _ _ Ho).
  - intros q q' x [[-> ->]|(Hne & Hq & _)]%Hin [[-> Hx]|(Hne' & Hq' & _)]%Hin; [done| | |by apply (own_inj _ _ Ho q q' x)].
    + by apply Hroot in Hq'.
    + rewrite Hx in Hq. by apply Hroot in Hq.
  - intros q s π [[-> [= _ ->]]|(_ & Hq & _)]%Hin; [cbn; lia|]. by apply (own_depth _ _ Ho q s).
  - intros q s π i c [[-> [= _ ->]]|(Hne & Hq & Heq)]%Hin Hl Hi Hs; [destruct (Hz i Hi); congruence|].
    rewrite Heq in Hs. pose proof (own_link _ _ Ho _ _ _ _ _ Hq Hl Hi Hs) as Hc. rewrite lookup_insert_ne by congruence. done.
  - intros c s π i [[-> [= _ Hn]]|(Hne & Hc & _)]%Hin; [by destruct π|].
    destruct (own_parent _ _ Ho _ _ _ _ Hc) as (Hi & t & Ht & Hs). split; [done|]. exists t.
    rewrite lookup_insert_ne by congruence. split; [done|]. by rewrite Hw by eauto.
  - intros q s π i c [[-> [= _ ->]]|(Hne & Hq & Heq)]%Hin Hl Hi Hs; [destruct (Hz i Hi); congruence|].
    rewrite Heq in Hs. by apply (own_huge _ _ Ho q s π i c).
  - intros q s π i [[-> [= _ ->]]|(Hne & Hq & Heq)]%Hin Hl Hi Hs; [by apply Hz|].
    rewrite Heq in *. by apply (own_absent _ _ Ho q s π i).
Qed.

Lemma trans_tables T w w' r va :
  owned T w -> (forall q j, is_Some (T !! q) -> w' q j = w q j) -> T !! r = Some (r, []) -> user va ->
  trans 3 r va w' = trans 3 r va w.
Proof. intros Ho Hw Hr Hu. eapply (trans_below T w w' r va Ho Hu 3 r); [lia|exact Hr|]. intros. apply Hw. eauto. Qed.

Lemma new_root_spec v v2 T U F p :
  tables v T U F -> p ∈ F -> available (source v2) U (F ∖ {[p]}) ->
  (forall q j, q <> p -> word v2 q j = word v q j) -> (forall i, 0 <= i < 256 -> word v2 p i = 0) ->
  T !! p = None /\ tables v2 (<[p := (p, [])]> T) U (F ∖ {[p]}) /\
  (no_huge T (word v) -> no_huge (<[p := (p, [])]> T) (word v2)) /\
  (forall r va, T !! r = Some (r, []) -> user va -> view r va v2 = view r va v) /\
  (forall va, user va -> view p va v2 = None).
Proof.
  intros (Ho & Ha & Hin) HpF Ha2 Hw Hz.
  assert (HpT : T !! p = None) by (apply eq_None_not_Some; intros Hp; by apply Hin in Hp as [_ ?]).
  assert (HwT : forall q j, is_Some (T !! q) -> word v2 q j = word v q j) by (intros q j [x Hx]; apply Hw; congruence).
  split_and!; [done|split_and!; [by apply (owned_new_root T (word v))|done|]| | |].
  - destruct (available_pages _ _ _ Ha) as [Hsub _]. intros q. destruct (decide (q = p)) as [->|].
    + rewrite lookup_insert_eq. split; [by apply Hsub|set_solver].
    + rewrite lookup_insert_ne by done. intros Hq%Hin. set_solver.
  - intros Hn q s π i d. destruct (decide (q = p)) as [->|].
    + rewrite lookup_insert_eq. intros [= <- <-] _ [Hi Hlt]. rewrite Hz; [done|]. specialize (Hlt eq_refl). lia.
    + rewrite lookup_insert_ne by done. intros Hq. rewrite HwT by eauto. by apply Hn with s.
  - intros r va Hr Hu. by apply (trans_tables T).
  - intros va Hu. unfold view, trans. rewrite Hz; [done|]. split; [apply idx_range|exact Hu].
Qed.

Lemma create_spec v T U F :
  tables v T U F -> kernel_pml4 v ∉ F ->
  match create_user_page_table v with
  | (Some root, v') => T !! root = None /\ root ∈ F /\ tables v' (<[root := (root, [])]> T) U (F ∖ {[root]}) /\
      (forall va, user va -> trans 3 root va (word v') = None) /\
      (forall i, 256 <= i -> word v' root i = word v (kernel_pml4 v) i) /\
      (forall q j, is_Some (T !! q) -> word v' q j = word v q j) /\
      (no_huge T (word v) -> no_huge (<[root := (root, [])]> T) (word v'))
  | (None, v') => (F = ∅ \/ is_present (word v (kernel_pml4 v) 256) = false) /\ tables v' T U F
  end.
Proof.
  intros Ht Hk. pose proof Ht as (Ho & Ha & Hin). unfold create_user_page_table.
  pose proof (vmm_alloc v T U F Ht) as Hal. destruct (alloc v) as [[p|] v1]; [|destruct Hal as (? & ? & _); auto].
  destruct Hal as (HpF & Ha1 & Hw1 & Hk1 & Hpa & Hp0 & HpT & HpU).
  assert (Hkp : kernel_pml4 v <> p) by congruence.
  assert (Hker : forall j, word (fill p (fun _ => 0) v1) (kernel_pml4 (fill p (fun _ => 0) v1)) j = word v (kernel_pml4 v) j).
  { intros j. cbn. rewrite Hk1, Hw1. by destruct (Z.eqb_spec (kernel_pml4 v) p). }
  rewrite Hker. set (v2 := fill p (fun i => if 256 <=? i then _ else 0) _).
  assert (Hw2 : forall q j, q <> p -> word v2 q j = word v q j).
  { intros q j Hq. unfold v2. cbn. rewrite Hw1. by destruct (Z.eqb_spec q p). }
  assert (HwT : forall q j, is_Some (T !! q) -> word v2 q j = word v q j) by (intros q j [x Hx]; apply Hw2; congruence).
  assert (Hp2 : forall j, word v2 p j = if 256 <=? j then word v (kernel_pml4 v) j else 0).
  { intros j. unfold v2. cbn -[kernel_pml4]. rewrite Z.eqb_refl. destruct (256 <=? j); [apply Hker|done]. }
  destruct (is_present (word v (kernel_pml4 v) 256)); cbn [negb].
  2: { split; [by right|]. split; [|split; [|done]].
    - eapply owned_steps; [|exact Ho]. intros t r π i Hti _ _. cbn -[v2]. by rewrite HwT by eauto.
    - assert (HF : F = {[p]} ∪ F ∖ {[p]}) by (rewrite <- union_difference_L; [done|set_solver]).
      rewrite HF at 1. apply free_page_law; [done|done|set_solver]. }
  set (v3 := match find_free_user_slot v2 with Some k => _ | None => v2 end).
  assert (Hv3 : word v3 = word v2 /\ source v3 = source v1) by (unfold v3; by destruct (find_free_user_slot v2)).
  destruct Hv3 as [Hw3 Hs3]. rewrite Hw3.
  assert (Hz : forall i, 0 <= i < 256 -> word v2 p i = 0) by (intros i Hi; rewrite Hp2; destruct (Z.leb_spec 256 i); [lia|done]).
  destruct (new_root_spec v v3 T U F p Ht HpF) as (_ & Ht3 & Hn3 & _ & Hv3); [by rewrite Hs3|by rewrite Hw3|by rewrite Hw3|].
  unfold view in Hv3. rewrite Hw3 in Hn3, Hv3. split_and!; try done.
  intros i Hi. rewrite Hp2. destruct (Z.leb_spec 256 i); [done|lia].
Qed.

(** *** Splitting a page of two megabytes *)
Lemma no_create t i s v :
  get_or_create_table_entry t i false s v = (match step (word v t i) with Table c => Some c | _ => None end, v).
Proof. unfold get_or_create_table_entry, step. destruct (is_present _), (is_huge _); done. Qed.

Lemma split_2mb_content π e :
  length π = 2%nat -> step e = Huge (frame e) -> frame e mod span 1 = 0 ->
  let f := Z.lor (Z.ldiff (flags e) PAGE_HUGE) PAGE_PRESENT in
  table_content π e (fun i => set_present (set_flags f (set_frame (frame e + i * PAGE_SIZE) 0))).
Proof.
  intros Hl He Hm f. exists O. split; [unfold level; lia|]. split; [|done]. intros va w. rewrite He. cbn [value].
  assert (Hf : flag_bits f) by (pose proof (split_flags e 0 ltac:(done)) as Hf; by rewrite Z.lor_0_r in Hf).
  pose proof (split_is_page e 0 (idx 0 va) ltac:(lia) Hm (idx_range 0 va)) as Hp. cbn [part] in Hp.
  destruct (leaf_entry f (frame e + idx 0 va * PAGE_SIZE) 0 Hf Hp) as (Hfr & Hpr & _).
  assert (Hfp : is_present f = true) by by rewrite present_bit; unfold f; rewrite Z.lor_spec, orb_true_r.
  assert (Hsp : forall x, is_present x = true -> set_present x = x).
  { intros x Hx. rewrite present_bit in Hx. unfold set_present. apply Z.bits_inj'. intros n Hn. rewrite Z.lor_spec.
    change PAGE_PRESENT with (2 ^ 0). rewrite Z.pow2_bits_eqb by done. destruct (Z.eqb_spec 0 n) as [<-|]; [by rewrite Hx|by rewrite orb_false_r]. }
  assert (Hpf : perm f = perm e) by (rewrite <- (perm_of_flags e 0) by (by left); by rewrite Z.lor_0_r).
  rewrite Hsp, Hpr, Hfp, Hfr, perm_set_flags, Hpf, !land_span, (offset_S 0) by congruence.
  do 2 f_equal. change (span 0) with PAGE_SIZE. lia.
Qed.

Lemma split_entry_table f p e : flag_bits f -> page_addr p -> is_present f = true -> is_huge f = false ->
  step (set_flags f (set_frame p e)) = Table p.
Proof. intros Hf Hp Hpr Hh. destruct (leaf_entry f p e Hf Hp) as (Hfr & Hpr' & Hh'). unfold step. by rewrite Hpr', Hh', Hpr, Hh, Hfr. Qed.

(** The table that takes the place of the page, and the entry that leads to it. *)
Definition split_table (pd p va : Z) (e : Z) v : Vmm A :=
  let f := Z.lor (Z.ldiff (flags e) PAGE_HUGE) PAGE_PRESENT in
  let v := fill p (fun i => set_present (set_flags f (set_frame (frame e + i * PAGE_SIZE) 0))) v in
  flush_tlb va (change pd (pd_idx va) (fun e => set_flags f (set_frame p e)) v).

Lemma split_table_spec v v1 T U F root pd va p :
  tables v T U F -> on_path T root va pd 2 -> user va -> let e := word v pd (idx 1 va) in step e = Huge (frame e) ->
  p ∈ F -> available (source v1) U (F ∖ {[p]}) -> word v1 = word v -> kernel_pml4 v1 = kernel_pml4 v ->
  let v2 := split_table pd p va e v1 in
  (exists T' F', moves T T' U F F' v v2 unchanged) /\ step (word v2 pd (idx 1 va)) = Table p /\
  (forall q n, on_path T root va q n -> (n < 2)%nat -> forall j, word v2 q j = word v q j).
Proof.
  intros Ht Hp2 Hu e Se HpF Ha1 Hw1 Hk1 v2. pose proof Ht as (Ho & Ha & Hin).
  destruct (own_huge _ _ Ho pd root _ (idx 1 va) (frame e) Hp2 ltac:(cbn; lia) (user_place va 2 Hu ltac:(lia)) Se) as [_ Hm].
  destruct (available_pages _ _ _ Ha) as [Hsub Hall]. destruct (Hall p (Hsub p HpF)) as [Hpa _].
  assert (Hne' : forall q n, on_path T root va q n -> q <> p) by (intros q n Hq ->; by destruct (Hin p) as [_ ?]; [eexists; exact Hq|]).
  assert (Hpdp : pd <> p) by by eapply Hne'.
  set (f := Z.lor (Z.ldiff (flags e) PAGE_HUGE) PAGE_PRESENT).
  assert (Hf : flag_bits f) by (pose proof (split_flags e 0 ltac:(done)) as Hf; by rewrite Z.lor_0_r in Hf).
  assert (Hstep : step (set_flags f (set_frame p e)) = Table p).
  { apply split_entry_table; [done|done|by rewrite present_bit; unfold f; rewrite Z.lor_spec, orb_true_r|].
    rewrite huge_bit. unfold f. rewrite Z.lor_spec, Z.ldiff_spec. change (Z.testbit PAGE_HUGE 7) with true.
    change (Z.testbit PAGE_PRESENT 7) with false. by rewrite andb_false_r. }
  set (g := fun i => set_present (set_flags f (set_frame (frame e + i * PAGE_SIZE) 0))).
  assert (Hw2 : forall q j, word v2 q j =
    if (q =? pd) && (j =? idx 1 va) then set_flags f (set_frame p e) else if q =? p then g j else word v q j).
  { intros q j. unfold v2, split_table, PageTable.change. cbn. rewrite Hw1. destruct (Z.eqb_spec pd p); [done|]. by destruct (q =? p). }
  split_and!.
  - eexists _, _. eapply (new_table_moves v v2 T U F pd root (take 2 (path va)) (idx 1 va) p g (set_flags f (set_frame p e)));
      [done|exact Hp2|cbn; lia|by apply (user_place va 2); [|lia]|fold e; congruence|by apply split_2mb_content|exact Hstep|done..].
  - rewrite Hw2, !Z.eqb_refl. exact Hstep.
  - intros q n Hq Hn j. assert (Hqd : q <> pd) by (eapply (on_path_ne T root va); [exact Hq|exact Hp2|lia..]).
    rewrite Hw2, (proj2 (Z.eqb_neq q pd)), (proj2 (Z.eqb_neq q p)) by (by eauto). done.
Qed.

Lemma split_2mb_spec v T U F va :
  tables v T U F -> T !! kernel_pml4 v = Some (kernel_pml4 v, []) -> user va ->
  match split_2mb_page va v with
  | (None, v') => (exists T' F', moves T T' U F F' v v' unchanged) /\ is_Some (find_pt (kernel_pml4 v) va v')
  | (Some e, v') => moves T T U F F v v' unchanged /\
      (e = NoTable /\ (F = ∅ \/ find_pt (kernel_pml4 v) va v = None) \/ e = NotPresent /\ trans 3 (kernel_pml4 v) va (word v) = None)
  end.
Proof.
  intros Ht Hr Hu. pose proof Ht as (Ho & Ha & Hin). unfold split_2mb_page. set (root := kernel_pml4 v) in *.
  destruct (Z.eqb_spec root 0) as [|Hne]; [by apply (root_nonzero v T U F) in Hr|].
  change (pml4_idx va) with (idx 3 va). pose proof Hu as Hu'. unfold user in Hu'.
  destruct (Z.leb_spec 256 (idx 3 va)) as [|_]; [lia|]. rewrite no_create. unfold find_pt.
  change (pml4_idx va) with (idx 3 va). change (pdpt_idx va) with (idx 2 va). change (pd_idx va) with (idx 1 va).
  pose proof (top_step T (word v) root (idx 3 va) Ho Hr ltac:(split; [apply idx_range|done])) as Htop.
  assert (Hr0 : on_path T root va root 0) by exact Hr.
  destruct (step (word v root (idx 3 va))) as [| |pdpt] eqn:S3;
    [split; [by apply moves_refl|left; split; [done|right; by rewrite Htop]]..|].
  assert (Hp1 : on_path T root va pdpt 1) by (apply (own_walk T (word v) root root va 0); [done|done|lia|done|done]).
  rewrite no_create.
  destruct (step (word v pdpt (idx 2 va))) as [| |pd] eqn:S2;
    [split; [by apply moves_refl|left; split; [done|right; by rewrite Htop, S2]]..|].
  assert (Hp2 : on_path T root va pd 2) by (apply (own_walk T (word v) pdpt root va 1); [done|done|lia|done|done]).
  set (e := word v pd (idx 1 va)). destruct (is_present e) eqn:Ep; cbn [negb].
  2: { split; [by apply moves_refl|]. right. split; [done|].
       eapply (untranslated T (word v) root pd 2); [done|exact Hp2|lia|by apply absent_step|done]. }
  destruct (is_huge e) eqn:Eh; cbn [negb].
  2: { split; [exists T, F; by apply moves_refl|]. rewrite Htop, S2. unfold step. fold e. by rewrite Ep, Eh. }
  assert (Se : step e = Huge (frame e)) by (unfold step; by rewrite Ep, Eh).
  pose proof (vmm_alloc v T U F Ht) as Hal. destruct (alloc v) as [[p|] v1].
  2: { destruct Hal as (-> & Ht1 & Hw & Hk). split; [split; try done; [|split|]; rewrite ?Hw; intros; by rewrite ?Hw|]. left. auto. }
  destruct Hal as (HpF & Ha1 & Hw1 & Hk1 & _).
  destruct (split_table_spec v v1 T U F root pd va p Ht Hp2 Hu Se HpF Ha1 Hw1 Hk1) as (HM & Hs & Hkeep).
  split; [exact HM|]. fold e in Hs, Hkeep. unfold split_table in Hs, Hkeep. change (pd_idx va) with (idx 1 va) in Hs, Hkeep.
  rewrite (Hkeep root 0%nat Hr0 ltac:(lia)), Htop, (Hkeep pdpt 1%nat Hp1 ltac:(lia)), S2, Hs. done.
Qed.

End Laws.

(** ** The buddy allocator is a source of pages *)
#[export] Instance PmmSource : PageSource Pmm.PhysicalMemoryManager := {
  alloc_page := Pmm.alloc_page;
  free_page := Pmm.free_page;
}.

Definition buddy_available (s : Pmm.PhysicalMemoryManager) (U F : gset Z) : Prop :=
  exists F0, PmmSpec.ready s F0 /\ Pmm.total_pages s <= 2 ^ 40 /\ F ⊆ U /\
    (forall a, a ∈ F <-> exists p, p ∈ F0 /\ a = Pmm.page_to_phys p) /\
    (forall a, a ∈ U -> exists p, a = Pmm.page_to_phys p /\ 0 < p < Pmm.total_pages s).

Lemma page_to_phys_inj p q : Pmm.page_to_phys p = Pmm.page_to_phys q -> p = q.
Proof. unfold Pmm.page_to_phys, Pmm.PAGE_SIZE. lia. Qed.

Lemma pages_one p : PmmSpec.pages p 1 = {[p]}.
Proof. apply set_eq. intros x. rewrite PmmSpec.elem_of_pages, elem_of_singleton. lia. Qed.

Lemma buddy_available_pages s U F : buddy_available s U F -> F ⊆ U /\ forall p, p ∈ U -> page_addr p /\ p <> 0.
Proof.
  intros (F0 & _ & Ht & Hsub & _ & HU). split; [done|]. intros a (p & -> & Hp)%HU.
  unfold page_addr, Pmm.page_to_phys, Pmm.RAM_BASE, Pmm.PAGE_SIZE, PAGE_SIZE. split; [|lia]. split; [lia|].
  rewrite Z.add_0_l. by apply Z.mod_mul.
Qed.

Lemma buddy_alloc_law s U F : buddy_available s U F ->
  match alloc_page s with
  | (Some p, s') => p ∈ F /\ buddy_available s' U (F ∖ {[p]})
  | (None, s') => F = ∅ /\ buddy_available s' U F
  end.
Proof.
  intros (F0 & Hr & Ht & Hsub & HF & HU). cbn [alloc_page PmmSource]. unfold Pmm.alloc_page.
  pose proof (PmmSpec.do_alloc_spec 0 s F0 Hr ltac:(lia)) as Hs. destruct (Pmm.do_alloc 0 s) as [[a|] s1].
  - destruct Hs as (p & -> & _ & Hp & Hr1 & Ht1 & _). change (2 ^ 0) with 1 in *. rewrite pages_one in *.
    split; [apply HF; exists p; split; [set_solver|done]|]. exists (F0 ∖ {[p]}).
    destruct (PmmSpec.total_count s1 1) as (-> & _). rewrite Ht1. split_and!; [by apply PmmSpec.ready_count|done|set_solver| |done].
    intros a. rewrite elem_of_difference, HF, elem_of_singleton. split.
    + intros [(q & Hq & ->) Hne]. exists q. split; [|done]. set_solver.
    + intros (q & Hq & ->). split; [exists q; set_solver|]. intros ->%page_to_phys_inj. set_solver.
  - destruct Hs as [-> He]. rewrite (He eq_refl) in *. split.
    + apply elem_of_equiv_empty_L. intros a (p & Hp & _)%HF. set_solver.
    + exists ∅. destruct (PmmSpec.total_count s 0) as (_ & _ & ->). split_and!; [by apply PmmSpec.ready_count|done..].
Qed.

Lemma buddy_free_law s U F a : buddy_available s U F -> a ∈ U -> a ∉ F -> buddy_available (free_page a s) U ({[a]} ∪ F).
Proof.
  intros (F0 & Hr & Ht & Hsub & HF & HU) Ha Hn. destruct (HU a Ha) as (p & -> & Hp). cbn [free_page PmmSource]. unfold Pmm.free_page.
  destruct (Z.eqb_spec (Pmm.page_to_phys p) 0); [unfold Pmm.page_to_phys, Pmm.RAM_BASE, Pmm.PAGE_SIZE in *; lia|].
  assert (HpF : p ∉ F0) by (intros HpF; apply Hn, HF; by exists p).
  destruct (PmmSpec.do_free_spec 0 p s F0 Hr) as (Hr1 & Ht1 & _); [lia|lia|apply Z.mod_1_r|change (2 ^ 0) with 1; lia|
    change (2 ^ 0) with 1; rewrite pages_one; set_solver|].
  change (2 ^ 0) with 1 in Hr1. rewrite pages_one in Hr1. exists (F0 ∪ {[p]}).
  destruct (PmmSpec.total_count (Pmm.do_free (Pmm.page_to_phys p) 0 s) 1) as (_ & -> & _). rewrite Ht1.
  split_and!; [by apply PmmSpec.ready_count|done|set_solver| |done].
  intros a. rewrite elem_of_union, elem_of_singleton, HF. split.
  - intros [->|(q & Hq & ->)]; [exists p|exists q]; set_solver.
  - intros (q & Hq & ->). apply elem_of_union in Hq as [Hq|Hq%elem_of_singleton]; [right; by exists q|left; congruence].
Qed.

#[export] Instance PmmSourceLaws : PageSourceLaws Pmm.PhysicalMemoryManager := {
  available := buddy_available;
  available_pages := buddy_available_pages;
  alloc_page_law := buddy_alloc_law;
  free_page_law := buddy_free_law;
}.
(** *** After boot *)
Definition physical (F0 : gset Z) : gset Z := set_map Pmm.page_to_phys F0.

Lemma elem_of_physical F0 a : a ∈ physical F0 <-> exists p, p ∈ F0 /\ a = Pmm.page_to_phys p.
Proof. unfold physical. rewrite elem_of_map. naive_solver. Qed.

Lemma size_physical F0 : size (physical F0) = size F0.
Proof.
  unfold physical, set_map. rewrite size_list_to_set, length_fmap; [done|].
  apply NoDup_fmap_2; [intros p q; apply page_to_phys_inj|apply NoDup_elements].
Qed.

Lemma boot_tables cr3 w s F0 :
  PmmSpec.ready s F0 -> 0 ∉ F0 -> Pmm.total_pages s <= 2 ^ 40 ->
  tables (init cr3 (vmm_new w s)) ∅ (physical F0) (physical F0).
Proof.
  intros Hr H0 Ht. split_and!.
  - split; intros *; rewrite ?lookup_empty; done.
  - exists F0. split_and!; [done..|apply elem_of_physical|].
    intros a (p & Hp & ->)%elem_of_physical. exists p. split; [done|]. change (source (init cr3 (vmm_new w s))) with s.
    destruct Hr as (_ & _ & B & Hd). pose proof (PmmSpec.describes_range _ _ _ _ Hd Hp). assert (p <> 0) by congruence. lia.
  - intros t [x Hx]. by rewrite lookup_empty in Hx.
Qed.

(** A kernel table with one entry, in its upper half. *)
Definition booted : Vmm Pmm.PhysicalMemoryManager :=
  init 4096 (vmm_new (fun p i => if (p =? 4096) && (i =? 256) then 3 else 0) (PmmSpec.boot 262144 8192 0)).

Lemma booted_space :
  exists U F v, create_user_page_table booted = (Some 258048, v) /\ tables v {[258048 := (258048, [])]} U F /\
    no_huge {[258048 := (258048, [])]} (word v) /\ size F = 59%nat /\ kernel_pml4 v ∉ F.
Proof.
  destruct PmmSpec.boot_ready as (F0 & Hr & _). pose proof Hr as (_ & _ & B & Hd).
  assert (Hbit : forall x, 0 <= x < 2 -> x ∉ F0).
  { intros x Hx Hin. assert (Hb : Pmm.test_bit (PmmSpec.boot 262144 8192 0) x = true) by
      (assert (x = 0 \/ x = 1) as [-> | ->] by lia; by vm_compute).
    rewrite (PmmSpec.ready_bit _ F0 x Hr), bool_decide_true in Hb; [done|done|].
    assert (Htp : Pmm.total_pages (PmmSpec.boot 262144 8192 0) = 64) by by vm_compute. lia. }
  assert (Hsz : Z.of_nat (size F0) = 60).
  { destruct Hd as (_ & _ & _ & Hf & _). rewrite <- Hf. by vm_compute. }
  assert (Ht : tables booted ∅ (physical F0) (physical F0)).
  { unfold booted. apply (boot_tables _ _ _ F0 Hr); [by apply Hbit|by vm_compute]. }
  assert (Hk : kernel_pml4 booted ∉ physical F0).
  { intros (p & Hp & He)%elem_of_physical. apply (Hbit 1); [done|]. by rewrite (page_to_phys_inj 1 p He). }
  pose proof (create_spec booted ∅ (physical F0) (physical F0) Ht Hk) as Hc.
  assert (E : create_user_page_table booted = (Some 258048, (create_user_page_table booted).2)) by (vm_compute; reflexivity).
  rewrite E in Hc. destruct Hc as (_ & HF & Htab & _ & _ & _ & Hn).
  exists (physical F0), (physical F0 ∖ {[258048]}), (create_user_page_table booted).2.
  split_and!; [done|exact Htab|apply Hn; intros t r π i p; by rewrite lookup_empty| |].
  - rewrite size_difference by by apply singleton_subseteq_l. rewrite size_singleton, size_physical. lia.
  - intros [Hin _]%elem_of_difference. apply Hk. exact Hin.
Qed.


(** ** Where the code does otherwise *)

(** Protecting a page that is not there makes it there, with frame 0. *)
Lemma protect_maps_frame_zero :
  let v := map_user 4096 0x400000 0x3000 7 booted in
  get_physical 0x401000 v = None /\ get_physical 0x401000 (protect_page 0x401000 7 v) = Some 0.
Proof. by vm_compute. Qed.

(** The entry of a page that was swapped out is lost when the last page present of
    its table is unmapped. *)
Lemma unmap_drops_swap_entries r v :
  create_user_page_table booted = (Some r, v) ->
  let v := set_pte_value r 0x401000 0x20 (map_page_in_table r 0x400000 0x3000 7 v) in
  get_pte_value r 0x401000 v = Some 0x20 /\ get_pte_value r 0x401000 (unmap_page_in_table r 0x400000 v) = None.
Proof. intros E. vm_compute in E. injection E as <- <-. by vm_compute. Qed.

(** What is done to the kernel's table is not done to the one of the process. *)
Lemma unmap_page_misses_process r v :
  create_user_page_table booted = (Some r, v) ->
  let v := map_page_in_table r 0x400000 0x3000 7 v in
  get_physical_in_pml4 r 0x400000 (unmap_page 0x400000 v) = Some 0x3000.
Proof. intros E. vm_compute in E. injection E as <- <-. by vm_compute. Qed.
End PageTableSpec.

