(* ===== verification/Cow.v ===== *)
(** * Copy on write ([framework/mm/cow.rs], and [destroy_page_table] of [vmm_x86_64.rs])

    After [fork] parent and child share their pages, read-only; [refs] counts the
    holders of a page.  Copying a table allocates one page after another and stops
    at the first that is missing: [each] goes through the entries of a table and
    says whether it came to the end. *)
From S2P Require Import Prelude PageTable.

Module Cow.
Import PageTable.

Section Cow.
Context {A : Type} `{PageSource A}.

(** [COW_REFS] is [None] before [cow_init]. *)
Record Mem := mkMem { vmm : Vmm A; refs : option (gmap Z Z); full_flushes : Z }.

Definition on_vmm (f : Vmm A -> Vmm A) (m : Mem) : Mem := mkMem (f (vmm m)) (refs m) (full_flushes m).
Definition set_refs (r : option (gmap Z Z)) (m : Mem) : Mem := mkMem (vmm m) r (full_flushes m).
Definition alloc_frame (m : Mem) : option Z * Mem :=
  let '(r, v) := alloc (vmm m) in (r, mkMem v (refs m) (full_flushes m)).

(** ** Holders of a page *)
Definition cow_init (m : Mem) : Mem := set_refs (Some ∅) m.
Definition frame_key (phys : Z) : Z := Z.ldiff phys (PAGE_SIZE - 1).

Definition cow_inc_ref (phys : Z) (m : Mem) : Mem :=
  match refs m with
  | None => m
  | Some r => set_refs (Some (<[frame_key phys := wrap_u32 (default 0 (r !! frame_key phys) + 1)]> r)) m
  end.

(** Whether that was the last holder. *)
Definition cow_dec_ref (phys : Z) (m : Mem) : bool * Mem :=
  match refs m with
  | None => (false, m)
  | Some r =>
    match r !! frame_key phys with
    | None => (false, m)
    | Some c =>
      let c := wrap_u32 (c - 1) in
      if c =? 0 then (true, set_refs (Some (delete (frame_key phys) r)) m)
      else (false, set_refs (Some (<[frame_key phys := c]> r)) m)
    end
  end.

Definition cow_ref_count (phys : Z) (m : Mem) : Z :=
  match refs m with None => 0 | Some r => default 0 (r !! frame_key phys) end.

(** ** Copying a table *)
Fixpoint each (f : Z -> Mem -> bool * Mem) (l : list Z) (m : Mem) : bool * Mem :=
  match l with
  | [] => (true, m)
  | i :: l => let '(ok, m) := f i m in if ok then each f l m else (false, m)
  end.

(** The flags of the parent's entry with another frame. *)
Definition link (e p : Z) : Z := Z.lor (Z.land e 0xFFF) (Z.land p FRAME_MASK).
Definition shares (e : Z) : bool := has_bits e PAGE_WRITABLE && has_bits e PAGE_USER.

Definition clone_pte (pt cpt l : Z) (m : Mem) : bool * Mem :=
  let e := word (vmm m) pt l in
  if negb (is_present e) then (true, m)
  else if shares e then
    let e' := Z.ldiff e PAGE_WRITABLE in
    (true, cow_inc_ref (frame e) (on_vmm (fun v => put cpt l e' (put pt l e' v)) m))
  else (true, on_vmm (put cpt l e) m).

(** A table for an entry of the child, and its contents. *)
Definition clone_below (c i e : Z) (f : Z -> Mem -> bool * Mem) (m : Mem) : bool * Mem :=
  match alloc_frame m with
  | (None, m) => (false, m)
  | (Some p, m) => f p (on_vmm (fun v => put c i (link e p) (fill p (fun _ => 0) v)) m)
  end.

Definition clone_pde (pd cpd k : Z) (m : Mem) : bool * Mem :=
  let e := word (vmm m) pd k in
  if negb (is_present e) then (true, m)
  else if is_huge e then (true, on_vmm (put cpd k e) m)
  else clone_below cpd k e (fun cpt => each (clone_pte (frame e) cpt) (seqZ 0 512)) m.

Definition clone_pdpte (pdpt cpdpt j : Z) (m : Mem) : bool * Mem :=
  let e := word (vmm m) pdpt j in
  if negb (is_present e) || is_huge e then (true, m)
  else clone_below cpdpt j e (fun cpd => each (clone_pde (frame e) cpd) (seqZ 0 512)) m.

Definition clone_pml4e (pml4 cpml4 i : Z) (m : Mem) : bool * Mem :=
  let e := word (vmm m) pml4 i in
  if negb (is_present e) then (true, m)
  else clone_below cpml4 i e (fun cpdpt => each (clone_pdpte (frame e) cpdpt) (seqZ 0 512)) m.

Definition clone_user_page_table_cow (parent : Z) (m : Mem) : option Z * Mem :=
  if parent =? 0 then (None, m) else
  match alloc_frame m with
  | (None, m) => (None, m)
  | (Some child, m) =>
    let m := on_vmm (fill child (fun _ => 0)) m in
    let kernel := word (vmm m) (kernel_pml4 (vmm m)) in
    let m := on_vmm (fill child (fun i => if 256 <=? i then kernel i else 0)) m in
    match each (clone_pml4e parent child) (seqZ 0 256) m with
    | (false, m) => (None, m)
    | (true, m) => (Some child, mkMem (vmm m) (refs m) (full_flushes m + 1))
    end
  end.

(** ** A write to a shared page *)
Definition COW_FLAGS : Z := Z.lor (Z.lor PAGE_PRESENT PAGE_WRITABLE) PAGE_USER.
Definition page_of (addr : Z) : Z := Z.ldiff addr (PAGE_SIZE - 1).

(** Whether the writer is alone; it then takes the page out of the count. *)
Definition take_reuse (frame : Z) (m : Mem) : option bool * Mem :=
  match refs m with
  | None => (None, m)
  | Some r =>
    match r !! frame with
    | Some c => if c <=? 1 then (Some true, set_refs (Some (delete frame r)) m) else (Some false, m)
    | None => (Some true, m)
    end
  end.

Definition copy_page (p q : Z) (v : Vmm A) : Vmm A := fill q (word v p) v.

Definition cow_handle_fault (pml4 addr : Z) (m : Mem) : option Z * Mem :=
  let va := page_of addr in
  match get_physical_in_pml4 pml4 va (vmm m) with
  | None => (None, m)
  | Some old =>
    let old_frame := Z.land old FRAME_MASK in
    match take_reuse old_frame m with
    | (None, m) => (None, m)
    | (Some true, m) => (Some old, on_vmm (map_page_in_table pml4 va old COW_FLAGS) m)
    | (Some false, m) =>
      match alloc_frame m with
      | (None, m) => (None, m)
      | (Some new, m) =>
        let m := on_vmm (copy_page old_frame new) m in
        let '(last, m) := cow_dec_ref old_frame m in
        let m := if last then on_vmm (free old_frame) m else m in
        (Some new, on_vmm (map_page_in_table pml4 va new COW_FLAGS) m)
      end
    end
  end.

(** ** The end of an address space *)
Definition drop_page (phys : Z) (m : Mem) : Mem :=
  let '(last, m) := cow_dec_ref phys m in if last then on_vmm (free phys) m else m.

(** The pages and tables below an entry, the table last. *)
Definition drop_entries (f : Z -> Mem -> Mem) (t n : Z) (m : Mem) : Mem :=
  on_vmm (free t) (foldl (fun m i => f (word (vmm m) t i) m) m (seqZ 0 n)).

Definition drop_pte (e : Z) (m : Mem) : Mem := if is_present e then drop_page (frame e) m else m.
Definition drop_pde (e : Z) (m : Mem) : Mem :=
  if is_present e && negb (is_huge e) then drop_entries drop_pte (frame e) 512 m else m.
Definition drop_pdpte (e : Z) (m : Mem) : Mem :=
  if is_present e && negb (is_huge e) then drop_entries drop_pde (frame e) 512 m else m.
Definition drop_pml4e (e : Z) (m : Mem) : Mem :=
  if is_present e then drop_entries drop_pdpte (frame e) 512 m else m.

Definition forget_table (pml4 : Z) (v : Vmm A) : Vmm A :=
  match position (fun t => (t.1 =? pml4) && t.2) (user_tables v) with
  | Some k => set_table_count (wrap_u64 (user_table_count v - 1)) (set_tables (<[k := (0, false)]> (user_tables v)) v)
  | None => v
  end.

Definition destroy_page_table (pml4 : Z) (m : Mem) : Mem :=
  if pml4 =? 0 then m else on_vmm (forget_table pml4) (drop_entries drop_pml4e pml4 256 m).

End Cow.
#[global] Arguments Mem A : clear implicits.
End Cow.
