(* ===== verification/CowSpec.v ===== *)
(** * What copy on write promises (facts on framework/mm/cow.rs)

    A copy of a table gives the child the parent's address space: every address
    leads to the same frame, and no page that user code could write stays
    writable, in either.  [forked] is what each part of the copy does, from one
    entry of the last level up.  At the end, where the counts are one too low. *)
From S2P Require Import Prelude Pmm PmmSpec PageTable PageTableSpec Cow.

Module CowSpec.
Import Pmm PageTable PageTableSpec Cow.

(** ** Shared permissions *)
Definition share (x : Z * Z) : Z * Z := (x.1, if shares x.2 then Z.ldiff x.2 PAGE_WRITABLE else x.2).

Lemma shares_bits e : shares e = Z.testbit e 1 && Z.testbit e 2.
Proof. unfold shares, PAGE_WRITABLE, PAGE_USER. by rewrite !has_bit. Qed.

Lemma shares_perm e : shares (perm e) = shares e.
Proof. rewrite !shares_bits. unfold perm. rewrite !Z.land_spec, !perm_bits by lia. by rewrite !andb_true_r. Qed.

Lemma shares_clear e : shares (Z.ldiff e PAGE_WRITABLE) = false.
Proof. by rewrite shares_bits, !Z.ldiff_spec, andb_false_r. Qed.

Lemma share_share x : share (share x) = share x.
Proof. unfold share at 1. cbn [fst snd share]. unfold share. destruct (shares x.2) eqn:E; cbn; [by rewrite shares_clear|by rewrite E]. Qed.

Lemma clear_writable e :
  let e' := Z.ldiff e PAGE_WRITABLE in
  frame e' = frame e /\ perm e' = Z.ldiff (perm e) PAGE_WRITABLE /\ is_present e' = is_present e.
Proof.
  cbv zeta. split_and!.
  - apply frame_ext. intros n Hn. rewrite Z.ldiff_spec. change PAGE_WRITABLE with (2 ^ 1). rewrite Z.pow2_bits_eqb by lia.
    destruct (Z.eqb_spec 1 n); [lia|apply andb_true_r].
  - apply Z.bits_inj'. intros n Hn. unfold perm. rewrite Z.land_spec, !Z.ldiff_spec, Z.land_spec.
    by destruct (Z.testbit e n), (Z.testbit PERM n), (Z.testbit PAGE_WRITABLE n).
  - rewrite !present_bit, Z.ldiff_spec. apply andb_true_r.
Qed.

Lemma link_step e p t : step e = Table t -> page_addr p -> step (link e p) = Table p.
Proof.
  intros He Hp. unfold link. rewrite frame_page by done. change 0xFFF with (Z.ones 12).
  assert (Hb : forall n, 0 <= n < 12 -> Z.testbit (Z.lor (Z.land e (Z.ones 12)) p) n = Z.testbit e n).
  { intros n Hn. rewrite Z.lor_spec, Z.land_spec, Z.testbit_ones by lia. rewrite <- (frame_page p Hp), Z.land_spec, frame_mask_bits by lia.
    split_bool; try lia. by rewrite ?andb_false_r, ?andb_true_r, ?orb_false_r. }
  assert (Hf : frame (Z.lor (Z.land e (Z.ones 12)) p) = p).
  { transitivity (frame p); [|by apply frame_page]. apply frame_ext. intros n Hn.
    rewrite Z.lor_spec, Z.land_spec, Z.testbit_ones by lia. split_bool; [lia|by rewrite ?andb_false_r..]. }
  unfold step in *. rewrite !present_bit, !huge_bit, !Hb, Hf by lia. rewrite present_bit, huge_bit in He.
  by destruct (Z.testbit e 0), (Z.testbit e 7).
Qed.

(** ** Addresses below an entry *)
Definition ipath (va : Z) : list Z := path va ++ [idx 0 va].
Definition covers (ρ : list Z) (va : Z) : Prop := take (length ρ) (ipath va) = ρ.
#[export] Instance covers_dec ρ va : Decision (covers ρ va).
Proof. unfold covers. apply _. Defined.
Definition covered (ρs : list (list Z)) (va : Z) : Prop := Exists (fun ρ => covers ρ va) ρs.
#[export] Instance covered_dec ρs va : Decision (covered ρs va).
Proof. unfold covered. apply _. Defined.

Lemma length_ipath va : length (ipath va) = 4%nat.
Proof. done. Qed.

Lemma ipath_at n va : (n <= 3)%nat -> ipath va !! n = Some (idx (3 - n) va).
Proof. intros Hn. destruct n as [|[|[|[|n]]]]; [done..|lia]. Qed.

Lemma covers_snoc π i va : (length π <= 3)%nat -> covers (π ++ [i]) va <-> covers π va /\ idx (3 - length π) va = i.
Proof.
  intros Hl. unfold covers. rewrite length_app. cbn [length]. rewrite Nat.add_1_r, (take_S_r _ _ _ (ipath_at _ va Hl)). split.
  - intros H. apply app_inj_tail in H. naive_solver.
  - by intros [-> ->].
Qed.

Lemma covers_path π va : (length π <= 3)%nat -> covers π va <-> π = take (length π) (path va).
Proof.
  intros Hl. unfold covers, ipath. rewrite take_app_le by (cbn; lia). naive_solver.
Qed.

Lemma covers_leaf π i va : length π = 3%nat -> covers (π ++ [i]) va <-> path va = π /\ idx 0 va = i.
Proof.
  intros Hl. rewrite covers_snoc, covers_path, Hl by lia. rewrite firstn_all2 by done. cbn [Nat.sub].
  split; intros [? ?]; by split.
Qed.

Lemma covered_one ρ va : covered [ρ] va <-> covers ρ va.
Proof. unfold covered. rewrite Exists_cons, Exists_nil. tauto. Qed.

(** The entries of a table cover what the table covers. *)
Lemma covered_entries π n va :
  (length π <= 3)%nat -> idx (3 - length π) va < n ->
  covered ((fun i => π ++ [i]) <$> seqZ 0 n) va <-> covered [π] va.
Proof.
  intros Hl Hn. unfold covered. rewrite !Exists_exists. split.
  - intros (ρ & (i & -> & Hi)%list_elem_of_fmap & [Hc _]%covers_snoc); [|done]. exists π. split; [apply list_elem_of_here|done].
  - intros (ρ & ->%list_elem_of_singleton & Hc). exists (π ++ [idx (3 - length π) va]). split.
    + apply list_elem_of_fmap. eexists. split; [done|]. apply elem_of_seqZ. pose proof (idx_range (3 - length π) va). lia.
    + by apply covers_snoc.
Qed.

(** ** What a part of a fork does *)
Section Fork.
Context {A : Type} `{PageSourceLaws A}.
Implicit Types (v : Vmm A) (m : Mem A).
Variables (root child : Z) (X : Z -> option (Z * Z)).
Hypothesis Hdiff : root <> child.

(** [X] is the parent's view before the fork. *)
Definition fork_view (ρs : list (list Z)) : view_change := fun r va x =>
  if decide (covered ρs va) then if decide (r = child) then share <$> X va else if decide (r = root) then share <$> x else x
  else x.

Definition gentle (δ : view_change) : Prop := forall r va x,
  (r = root -> share <$> δ r va x = share <$> x) /\ (r <> root -> r <> child -> δ r va x = x).

Lemma share_share_fmap (x : option (Z * Z)) : share <$> (share <$> x) = share <$> x.
Proof. destruct x; cbn; [by rewrite share_share|done]. Qed.

Lemma fork_view_gentle ρs : gentle (fork_view ρs).
Proof.
  intros r va x. unfold fork_view. destruct (decide (covered ρs va)); [|done].
  destruct (decide (r = child)) as [->|]; [split; intros; congruence|].
  destruct (decide (r = root)) as [->|]; [|done]. split; [|done]. intros _. apply share_share_fmap.
Qed.

Lemma fork_view_child ρs va x : covered ρs va -> fork_view ρs child va x = share <$> X va.
Proof. intros Hc. unfold fork_view. by rewrite !decide_True. Qed.

Lemma fork_view_root ρs va x : covered ρs va -> fork_view ρs root va x = share <$> x.
Proof. intros Hc. unfold fork_view. by rewrite decide_True, decide_False, decide_True. Qed.

Lemma unchanged_gentle : gentle unchanged.
Proof. done. Qed.

Lemma gentle_trans δ1 δ2 : gentle δ1 -> gentle δ2 -> gentle (fun r va x => δ2 r va (δ1 r va x)).
Proof.
  intros H1 H2 r va x. destruct (H1 r va x) as [Hr1 Ho1], (H2 r va (δ1 r va x)) as [Hr2 Ho2].
  split; intros; [rewrite Hr2|rewrite Ho2]; auto.
Qed.

Lemma fork_view_app ρs1 ρs2 r va x : fork_view ρs2 r va (fork_view ρs1 r va x) = fork_view (ρs1 ++ ρs2) r va x.
Proof.
  unfold fork_view, covered. destruct (decide (Exists _ (ρs1 ++ ρs2))) as [He|He]; rewrite Exists_app in He;
    destruct (decide (Exists _ ρs1)), (decide (Exists _ ρs2)); try tauto; repeat case_decide; try done.
  apply share_share_fmap.
Qed.

(** What holds between the steps of a fork. *)
Definition forking (T : gmap Z (Z * list Z)) (U F : gset Z) v : Prop :=
  tables v T U F /\ no_huge T (word v) /\ T !! root = Some (root, []) /\
  forall va, user va -> share <$> view root va v = share <$> X va.

(** From [v] to [v']: the addresses below [ρs] are copied, or a page was missing;
    of the child's tables only those entries change that [keep] does not hold of. *)
Definition forked (ρs : list (list Z)) (keep : Z -> Z -> Prop) (T : gmap Z (Z * list Z)) (U F : gset Z) v (ok : bool) v' : Prop :=
  exists T' F' δ, moves T T' U F F' v v' δ /\ gentle δ /\ T ⊆ T' /\ F' ⊆ F /\
    (if ok then forall r va x, user va -> δ r va x = fork_view ρs r va x else F' = ∅) /\
    (forall q σ j, T !! q = Some (child, σ) -> keep q j -> word v' q j = word v q j).

Lemma forking_moves T T' U F F' v v' δ :
  forking T U F v -> moves T T' U F F' v v' δ -> gentle δ -> T ⊆ T' -> forking T' U F' v'.
Proof.
  intros (Ht & Hn & Hr & Hv) M Hg Hs. split_and!; [apply M|by apply M|by eapply lookup_weaken|].
  intros va Hu. unfold view. rewrite (moves_view _ _ _ _ _ _ _ _ M) by done. rewrite (proj1 (Hg root va _) eq_refl). by apply Hv.
Qed.

Lemma forked_trans ρs1 ρs2 keep T U F v v1 ok v2 :
  forked ρs1 keep T U F v true v1 ->
  (forall T1 F1 δ1, moves T T1 U F F1 v v1 δ1 -> gentle δ1 -> T ⊆ T1 -> F1 ⊆ F -> forked ρs2 keep T1 U F1 v1 ok v2) ->
  forked (ρs1 ++ ρs2) keep T U F v ok v2.
Proof.
  intros (T1 & F1 & δ1 & M1 & G1 & S1 & U1 & V1 & K1) H2.
  destruct (H2 T1 F1 δ1 M1 G1 S1 U1) as (T2 & F2 & δ2 & M2 & G2 & S2 & U2 & V2 & K2).
  exists T2, F2, (fun r va x => δ2 r va (δ1 r va x)). split_and!.
  - exact (moves_trans _ _ _ _ _ _ _ _ _ _ _ _ M1 M2).
  - by apply gentle_trans.
  - by etrans.
  - by etrans.
  - destruct ok; [|done]. intros r va x Hu. rewrite V2, V1 by done. apply fork_view_app.
  - intros q σ j Hq Hk. rewrite (K2 q σ j), (K1 q σ j); [done..| |done]. by eapply lookup_weaken.
Qed.

Lemma forked_keep ρs keep keep' T U F v ok v' :
  (forall q j, keep' q j -> keep q j) -> forked ρs keep T U F v ok v' -> forked ρs keep' T U F v ok v'.
Proof. intros Hk (T' & F' & δ & ? & ? & ? & ? & ? & K). exists T', F', δ. split_and!; eauto. Qed.

Lemma forked_fails ρs ρs' keep T U F v v' : forked ρs keep T U F v false v' -> forked ρs' keep T U F v false v'.
Proof. done. Qed.

Lemma forked_ext ρs ρs' keep T U F v ok v' :
  (forall va, user va -> covered ρs va <-> covered ρs' va) -> forked ρs keep T U F v ok v' -> forked ρs' keep T U F v ok v'.
Proof.
  intros He (T' & F' & δ & ? & ? & ? & ? & Hv & K). exists T', F', δ. split_and!; try done. destruct ok; [|done].
  intros r va x Hu. rewrite Hv by done. unfold fork_view. pose proof (He va Hu).
  destruct (decide (covered ρs va)), (decide (covered ρs' va)); tauto || done.
Qed.

(** Nothing done. *)
Lemma forked_refl keep T U F v : tables v T U F -> forked [] keep T U F v true v.
Proof.
  intros Ht. exists T, F, unchanged. split_and!; [by apply moves_refl|apply unchanged_gentle|done|done| |done].
  intros r va x _. unfold fork_view. destruct (decide (covered [] va)) as [Hc|]; [by apply Exists_nil in Hc|done].
Qed.

(** One entry after another. *)
Lemma each_spec f π t c :
  forall l, NoDup l ->
  (forall i T U F m, i ∈ l -> forking T U F (vmm m) -> T !! t = Some (root, π) -> T !! c = Some (child, π) -> word (vmm m) c i = 0 ->
     forked [π ++ [i]] (fun q j => (q, j) <> (c, i)) T U F (vmm m) (f i m).1 (vmm (f i m).2)) ->
  forall T U F m, forking T U F (vmm m) -> T !! t = Some (root, π) -> T !! c = Some (child, π) ->
    (forall i, i ∈ l -> word (vmm m) c i = 0) ->
    forked ((fun i => π ++ [i]) <$> l) (fun q j => q <> c \/ j ∉ l) T U F (vmm m) (each f l m).1 (vmm (each f l m).2).
Proof.
  induction l as [|i l IH]; intros Hnd Hf T U F m Hm Ht Hc Hz; cbn [each fmap list_fmap]; [apply forked_refl, Hm|].
  apply NoDup_cons in Hnd as [Hi Hnd].
  pose proof (Hf i T U F m ltac:(left) Hm Ht Hc (Hz i ltac:(left))) as H1. destruct (f i m) as [ok m1]. cbn [fst snd] in H1.
  assert (Hk1 : forall q j, (q <> c \/ j ∉ i :: l) -> (q, j) <> (c, i)).
  { intros q j Hqj [= -> ->]. destruct Hqj as [?|Hj]; [done|]. apply Hj. left. }
  destruct ok; [|by eapply forked_keep; [exact Hk1|]].
  apply (forked_trans [π ++ [i]]) with (v1 := vmm m1); [by eapply forked_keep; [exact Hk1|]|].
  intros T1 F1 δ1 M1 G1 S1 U1. eapply forked_keep; [|apply (IH Hnd)].
  - intros q j [?|Hj]; [by left|]. right. by intros ?; apply Hj; right.
  - intros i' T' U' F' m' Hi'. apply Hf. by right.
  - by eapply forking_moves.
  - by eapply lookup_weaken.
  - by eapply lookup_weaken.
  - intros j Hj. destruct H1 as (T2 & F2 & δ2 & _ & _ & _ & _ & _ & K). rewrite (K c π j Hc); [apply Hz; by right|]. intros [= ->]. done.
Qed.

(** *** Entries *)
Lemma table_view T U F v s t π va :
  tables v T U F -> T !! t = Some (s, π) -> covers π va ->
  view s va v = value (level π) (word v t (idx (level π) va)) va (word v).
Proof.
  intros (Ho & _) Ht Hc. pose proof (own_depth _ _ Ho _ _ _ Ht) as Hl. apply covers_path in Hc; [|done]. rewrite Hc in Ht.
  destruct (trans_reach T (word v) (word v) va s Ho (length π) t Hl Ht) as (r0 & Hr0 & Htr); [done|].
  rewrite (own_root _ _ Ho _ _ Hr0) in Htr. exact Htr.
Qed.

Lemma entry_view T U F v s t π i va :
  tables v T U F -> T !! t = Some (s, π) -> covers (π ++ [i]) va -> view s va v = value (level π) (word v t i) va (word v).
Proof.
  intros Hv Ht Hc. pose proof (own_depth _ _ (proj1 Hv) _ _ _ Ht) as Hl. apply covers_snoc in Hc as [Hc Hi]; [|done].
  rewrite (table_view T U F v s t π va Hv Ht Hc). unfold level. by rewrite Hi.
Qed.

(** An entry that is absent in the parent is absent in the child. *)
Lemma forked_absent keep T U F v t c π i :
  forking T U F v -> T !! t = Some (root, π) -> T !! c = Some (child, π) ->
  is_present (word v t i) = false -> word v c i = 0 -> forked [π ++ [i]] keep T U F v true v.
Proof.
  intros (Ht & Hn & Hr & Hv) Hpt Hpc He Hz. exists T, F, (fork_view [π ++ [i]]). split_and!; try done; [|apply fork_view_gentle].
  destruct (moves_refl T U F v Ht) as [M1 M2 M3 M4 M5 M6 M7]. split; try done.
  intros r va Hroot Hu. unfold fork_view. destruct (decide (covered _ va)) as [Hc|]; [|done].
  apply Exists_cons in Hc as [Hc|Hc]; [|by apply Exists_nil in Hc].
  pose proof (entry_view T U F v root t π i va Ht Hpt Hc) as V1. rewrite value_absent in V1 by done.
  pose proof (entry_view T U F v child c π i va Ht Hpc Hc) as V2. rewrite Hz, value_absent in V2 by done.
  destruct (decide (r = child)) as [->|].
  - rewrite <- Hv, V1 by done. exact V2.
  - destruct (decide (r = root)) as [->|]; [|done]. change (trans 3 root va (word v)) with (view root va v). by rewrite V1.
Qed.

Lemma moves_view_at T T' U F F' v v' δ δ' :
  moves T T' U F F' v v' δ ->
  (forall r va, T !! r = Some (r, []) -> user va -> δ r va (view r va v) = δ' r va (view r va v)) -> moves T T' U F F' v v' δ'.
Proof. intros [] Hd. split; try done. intros r va Hr Hu. rewrite <- Hd by done. auto. Qed.

(** The entries of the last level, written with [e'] that is the parent's as it is shared. *)
Lemma forked_leaf T U F v v1 pt cpt π l e' :
  forking T U F v -> T !! pt = Some (root, π) -> T !! cpt = Some (child, π) -> length π = 3%nat ->
  (forall va w, share <$> value 0 (word v pt l) va w = value 0 e' va w) ->
  (v1 = put pt l e' v \/ v1 = v /\ e' = word v pt l) ->
  forked [π ++ [l]] (fun q j => (q, j) <> (cpt, l)) T U F v true (put cpt l e' v1).
Proof.
  intros (Ht & Hn & Hr & Hv) Hpt Hpc Hl He Hv1. exists T, F, (fork_view [π ++ [l]]).
  assert (Hne : pt <> cpt) by congruence.
  assert (M1 : moves T T U F F v v1 (fun r va y => if decide (r = root /\ path va = π /\ idx 0 va = l) then value 0 e' va (word v) else y)).
  { destruct Hv1 as [-> | [-> Heq]]; [by apply put_entry|]. eapply moves_view_at; [by apply moves_refl|]. intros r va Hr' Hu. unfold unchanged.
    destruct (decide _) as [(-> & Hp & Hi)|]; [|done]. rewrite Heq.
    rewrite (entry_view T U F v root pt π l va Ht Hpt); [unfold level; by rewrite Hl|].
    by apply covers_leaf. }
  pose proof (put_entry T U F child cpt π l e' v1 (moves_tables _ _ _ _ _ _ _ _ M1) Hpc Hl) as M2.
  pose proof (moves_trans _ _ _ _ _ _ _ _ _ _ _ _ M1 M2) as M. split_and!; try done; [|apply fork_view_gentle|].
  - eapply moves_view_at; [exact M|]. intros r va Hroot Hu. cbv beta. unfold fork_view.
    destruct (decide (covered _ va)) as [Hc|Hc]; rewrite covered_one in Hc.
    + pose proof Hc as [Hp Hi]%(covers_leaf _ _ _ Hl).
      pose proof (entry_view T U F v root pt π l va Ht Hpt Hc) as V1. unfold level in V1. rewrite Hl in V1. cbn [Nat.sub] in V1.
      destruct (decide (r = child)) as [->|Hnc].
      * rewrite decide_True by done. rewrite <- Hv, V1 by done. by rewrite He.
      * rewrite decide_False by (intros [? _]; done). destruct (decide (r = root)) as [->|Hnr].
        -- rewrite decide_True by done. by rewrite V1, He.
        -- rewrite decide_False by (intros [? _]; done). done.
    + rewrite covers_leaf in Hc by done. rewrite !decide_False by (intros [_ ?]; by apply Hc). done.
  - intros q σ j Hq Hk. rewrite put_other by done. destruct Hv1 as [-> | [-> _]]; [|done]. apply put_other.
    intros [= -> ->]. congruence.
Qed.

Lemma clone_pte_spec T U F m pt cpt π l :
  forking T U F (vmm m) -> T !! pt = Some (root, π) -> T !! cpt = Some (child, π) -> length π = 3%nat -> word (vmm m) cpt l = 0 ->
  forked [π ++ [l]] (fun q j => (q, j) <> (cpt, l)) T U F (vmm m) (clone_pte pt cpt l m).1 (vmm (clone_pte pt cpt l m).2).
Proof.
  intros Hm Hpt Hpc Hl Hz. unfold clone_pte. set (e := word (vmm m) pt l).
  destruct (is_present e) eqn:Ep; cbn [negb]; [|by eapply forked_absent].
  destruct (clear_writable e) as (Hfr & Hpm & Hpr).
  destruct (shares e) eqn:Es; cbn [fst snd].
  - assert (Hv : vmm (cow_inc_ref (frame e) (on_vmm (fun v => put cpt l (Z.ldiff e PAGE_WRITABLE) (put pt l (Z.ldiff e PAGE_WRITABLE) v)) m))
      = put cpt l (Z.ldiff e PAGE_WRITABLE) (put pt l (Z.ldiff e PAGE_WRITABLE) (vmm m))).
    { unfold cow_inc_ref. cbn. by destruct (refs m). }
    rewrite Hv. eapply forked_leaf; [done..| |by left]. intros va w. cbn [value]. fold e. rewrite Ep, Hpr, Ep, Hfr, Hpm.
    cbn. unfold share. cbn [fst snd]. by rewrite shares_perm, Es.
  - cbn. eapply forked_leaf; [done..| |by right]. intros va w. cbn [value]. fold e. rewrite Ep. cbn. unfold share. cbn [fst snd]. by rewrite shares_perm, Es.
Qed.

(** A table for the child, filled by [f]. *)
Lemma clone_below_spec f T U F m t c π i :
  forking T U F (vmm m) -> T !! t = Some (root, π) -> T !! c = Some (child, π) -> (length π < 3)%nat -> place π i ->
  let e := word (vmm m) t i in step e = Table (frame e) -> word (vmm m) c i = 0 ->
  (forall p T1 F1 m1, forking T1 U F1 (vmm m1) -> T1 !! frame e = Some (root, π ++ [i]) -> T1 !! p = Some (child, π ++ [i]) ->
     (forall j, word (vmm m1) p j = 0) ->
     forked [π ++ [i]] (fun q j => q <> p) T1 U F1 (vmm m1) (f p m1).1 (vmm (f p m1).2)) ->
  forked [π ++ [i]] (fun q j => (q, j) <> (c, i)) T U F (vmm m) (clone_below c i e f m).1 (vmm (clone_below c i e f m).2).
Proof.
  intros Hm Hpt Hpc Hl Hpl e Hs Hz Hf. pose proof Hm as (Ht & Hn & _). pose proof Ht as (Ho & Ha & _). unfold clone_below, alloc_frame.
  pose proof (vmm_alloc (vmm m) T U F Ht) as Hal. destruct (alloc (vmm m)) as [[p|] v1].
  2: { destruct Hal as (-> & Ht1 & Hw & Hk). exists T, ∅, unchanged. split_and!; try done.
       - split; try done; [|split|]; cbn; rewrite ?Hw; intros; by rewrite ?Hw.
       - intros q σ j _ _. cbn. by rewrite Hw. }
  destruct Hal as (HpF & Ha1 & Hw1 & Hk1 & Hpa & Hp0 & HpT & HpU). set (m2 := on_vmm _ _).
  assert (Hcp : c <> p) by congruence.
  assert (Hw2 : forall q j, word (vmm m2) q j = if (q =? c) && (j =? i) then link e p else if q =? p then 0 else word (vmm m) q j).
  { intros q j. unfold m2. cbn. rewrite Hw1. destruct ((q =? c) && (j =? i)); [done|]. by destruct (q =? p). }
  assert (M : moves T (<[p := (child, π ++ [i])]> T) U F (F ∖ {[p]}) (vmm m) (vmm m2) unchanged).
  { eapply (new_table_moves (vmm m) (vmm m2) T U F c child π i p (fun _ => 0) (link e p)); try done.
    - rewrite Hz. done.
    - rewrite Hz. by apply zero_content.
    - by eapply link_step. }
  assert (Hsub : T ⊆ <[p := (child, π ++ [i])]> T) by by apply insert_subseteq.
  destruct (Hf p (<[p := (child, π ++ [i])]> T) (F ∖ {[p]}) m2) as (T' & F' & δ & M' & G' & S' & U' & V' & K').
  - by eapply forking_moves; [|exact M|apply unchanged_gentle|].
  - eapply lookup_weaken; [|exact Hsub]. by eapply own_link.
  - by rewrite lookup_insert_eq.
  - intros j. rewrite Hw2, Z.eqb_refl. destruct (Z.eqb_spec p c); [congruence|done].
  - exists T', F', δ. split_and!.
    + exact (moves_trans _ _ _ _ _ _ _ _ _ _ _ _ M M').
    + done.
    + by etrans.
    + etrans; [exact U'|]. clear. set_solver.
    + done.
    + intros q σ j Hq Hk. assert (Hqp : q <> p) by congruence. rewrite (K' q σ j); [|by eapply lookup_weaken|done].
      rewrite Hw2, (proj2 (Z.eqb_neq q p) Hqp). destruct (Z.eqb_spec q c) as [->|], (Z.eqb_spec j i) as [->|]; done.
Qed.

(** A whole table of the child. *)
Lemma clone_table_spec f T U F m t c π n :
  (length π <= 3)%nat -> (forall va, user va -> idx (3 - length π) va < n) ->
  forking T U F (vmm m) -> T !! t = Some (root, π) -> T !! c = Some (child, π) -> (forall j, 0 <= j < n -> word (vmm m) c j = 0) ->
  (forall i T U F m, 0 <= i < n -> forking T U F (vmm m) -> T !! t = Some (root, π) -> T !! c = Some (child, π) -> word (vmm m) c i = 0 ->
     forked [π ++ [i]] (fun q j => (q, j) <> (c, i)) T U F (vmm m) (f i m).1 (vmm (f i m).2)) ->
  forked [π] (fun q j => q <> c) T U F (vmm m) (each f (seqZ 0 n) m).1 (vmm (each f (seqZ 0 n) m).2).
Proof.
  intros Hl Hidx Hm Hpt Hpc Hz Hf. eapply forked_ext; [|eapply forked_keep; [|eapply (each_spec f π t c)]].
  - intros va Hu. apply covered_entries; auto.
  - intros q j Hq. by left.
  - apply NoDup_seqZ.
  - intros i T1 U1 F1 m1 Hi. apply Hf. apply elem_of_seqZ in Hi. lia.
  - done.
  - done.
  - done.
  - intros i Hi. apply Hz. apply elem_of_seqZ in Hi. lia.
Qed.

Lemma idx_lt k va : idx k va < 512.
Proof. apply idx_range. Qed.

Lemma present_table T U F m t π i :
  forking T U F (vmm m) -> T !! t = Some (root, π) -> (length π < 3)%nat -> place π i -> let e := word (vmm m) t i in
  is_present e = true -> step e = Table (frame e) /\ is_huge e = false.
Proof.
  intros (Ht & Hn & _) Hpt Hl Hpl e He. pose proof (Hn t root π i (frame e) Hpt Hl Hpl) as Hh. unfold step in *. fold e in Hh.
  rewrite He in *. cbn [negb] in *. by destruct (is_huge e).
Qed.

Lemma clone_pde_spec T U F m pd cpd π k :
  length π = 2%nat -> 0 <= k < 512 -> forking T U F (vmm m) -> T !! pd = Some (root, π) -> T !! cpd = Some (child, π) -> word (vmm m) cpd k = 0 ->
  forked [π ++ [k]] (fun q j => (q, j) <> (cpd, k)) T U F (vmm m) (clone_pde pd cpd k m).1 (vmm (clone_pde pd cpd k m).2).
Proof.
  intros Hl Hk Hm Hpt Hpc Hz. assert (Hpl : place π k) by (split; [done|]; by intros ->). unfold clone_pde.
  destruct (is_present (word (vmm m) pd k)) eqn:Ep; cbn [negb]; [|by eapply forked_absent].
  destruct (present_table T U F m pd π k) as [Hs ->]; [done|done|lia|done|done|].
  eapply (clone_below_spec _ T U F m pd cpd π k); [done|done|done|lia|done|done|done|].
  intros p T1 F1 m1 Hm1 Ht1 Hc1 Hz1. eapply clone_table_spec; [rewrite length_app; cbn; lia|intros; apply idx_lt|done|exact Ht1|done|auto|].
  intros l T2 U2 F2 m2 Hl2 Hm2 Hp2 Hc2 Hz2. apply (clone_pte_spec T2 U2 F2); try done. rewrite length_app. cbn. lia.
Qed.

Lemma clone_pdpte_spec T U F m pdpt cpdpt π j :
  length π = 1%nat -> 0 <= j < 512 -> forking T U F (vmm m) -> T !! pdpt = Some (root, π) -> T !! cpdpt = Some (child, π) -> word (vmm m) cpdpt j = 0 ->
  forked [π ++ [j]] (fun q i => (q, i) <> (cpdpt, j)) T U F (vmm m) (clone_pdpte pdpt cpdpt j m).1 (vmm (clone_pdpte pdpt cpdpt j m).2).
Proof.
  intros Hl Hk Hm Hpt Hpc Hz. assert (Hpl : place π j) by (split; [done|]; by intros ->). unfold clone_pdpte.
  destruct (is_present (word (vmm m) pdpt j)) eqn:Ep; cbn [negb orb]; [|by eapply forked_absent].
  destruct (present_table T U F m pdpt π j) as [Hs ->]; [done|done|lia|done|done|].
  eapply (clone_below_spec _ T U F m pdpt cpdpt π j); [done|done|done|lia|done|done|done|].
  intros p T1 F1 m1 Hm1 Ht1 Hc1 Hz1. eapply clone_table_spec; [rewrite length_app; cbn; lia|intros; apply idx_lt|done|exact Ht1|done|auto|].
  intros l T2 U2 F2 m2 Hl2 Hm2 Hp2 Hc2 Hz2. apply (clone_pde_spec T2 U2 F2); try done. rewrite length_app. cbn. lia.
Qed.

Lemma clone_pml4e_spec T U F m i :
  0 <= i < 256 -> forking T U F (vmm m) -> T !! root = Some (root, []) -> T !! child = Some (child, []) -> word (vmm m) child i = 0 ->
  forked [[i]] (fun q j => (q, j) <> (child, i)) T U F (vmm m) (clone_pml4e root child i m).1 (vmm (clone_pml4e root child i m).2).
Proof.
  intros Hi Hm Hpt Hpc Hz. assert (Hpl : place [] i) by (split; [lia|]; intros; lia). unfold clone_pml4e.
  destruct (is_present (word (vmm m) root i)) eqn:Ep; cbn [negb]; [|by eapply (forked_absent _ T U F _ root child [] i)].
  destruct (present_table T U F m root [] i) as [Hs Hh]; [done|done|cbn; lia|done|done|].
  eapply (clone_below_spec _ T U F m root child [] i); [done|done|done|cbn; lia|done|done|done|].
  intros p T1 F1 m1 Hm1 Ht1 Hc1 Hz1. eapply clone_table_spec; [cbn; lia|intros; apply idx_lt|done|exact Ht1|done|auto|].
  intros l T2 U2 F2 m2 Hl2 Hm2 Hp2 Hc2 Hz2. by apply (clone_pdpte_spec T2 U2 F2).
Qed.

End Fork.

Section Spec.
Context {A : Type} `{PageSourceLaws A}.

(** C7: fork shares the address space: the copy leads every user address of the child to
    the frame it has in the parent, and takes the right to write from every page user
    code may write, in both; the child has the kernel's upper half, its root is the only
    new one, and every page is still free or a table reached from a root.  It fails only
    when no page is left; the parent keeps its frames then but may have lost the right to write to some
    pages, and the tables made for the child so far stay behind under a root nobody is
    told of (at most one).  Other processes see no change either way.  The tables hold no
    huge pages. *)
Theorem fork_shares_address_space T U F (m : Mem A) root
  (Htables : tables (vmm m) T U F) (Hsmall : no_huge T (word (vmm m))) (Hroot : T !! root = Some (root, []))
  (Hkernel : kernel_pml4 (vmm m) ∉ F) :
  exists T' F' m', let v := vmm m in let v' := vmm m' in
    tables v' T' U F' /\ no_huge T' (word v') /\ dom T' ∪ F' = dom T ∪ F /\
    (forall r va, T !! r = Some (r, []) -> r <> root -> user va -> view r va v' = view r va v) /\
    (clone_user_page_table_cow root m = (None, m') /\ F' = ∅ /\
       (forall va, user va -> share <$> view root va v' = share <$> view root va v) /\
       (exists left_behind, forall r, T' !! r = Some (r, []) <->
          T !! r = Some (r, []) \/ left_behind = Some r /\ T !! r = None) \/
     exists child, clone_user_page_table_cow root m = (Some child, m') /\ T !! child = None /\ T' !! child = Some (child, []) /\
       (forall r, T' !! r = Some (r, []) <-> T !! r = Some (r, []) \/ r = child) /\
       (forall va, user va -> view child va v' = share <$> view root va v /\ view root va v' = share <$> view root va v) /\
       (forall i, 256 <= i -> word v' child i = word v (kernel_pml4 v) i)).
Proof.
  unfold clone_user_page_table_cow. pose proof (root_nonzero (vmm m) T U F root Htables Hroot) as Hr0.
  destruct (Z.eqb_spec root 0) as [|_]; [done|].
  unfold alloc_frame. pose proof (vmm_alloc (vmm m) T U F Htables) as Hal. destruct (alloc (vmm m)) as [[p|] v1].
  2: { destruct Hal as (-> & Ht1 & Hw & Hk). exists T, ∅, (mkMem v1 (refs m) (full_flushes m)). split_and!; [exact Ht1|by cbn; rewrite Hw|done| |left].
       - intros r va Hr _ Hu. unfold view. cbn. by rewrite Hw.
       - split_and!; [done|done|intros va _; unfold view; cbn; by rewrite Hw|]. exists None. intros r. naive_solver. }
  destruct Hal as (HpF & Ha1 & Hw1 & Hk1 & _). set (m1 := on_vmm (fill p (fun _ => 0)) _).
  set (m2 := on_vmm _ m1).
  assert (Hkp : kernel_pml4 (vmm m) <> p) by congruence.
  assert (Hw2 : forall q j, q <> p -> word (vmm m2) q j = word (vmm m) q j).
  { intros q j Hq. unfold m2, m1. cbn. rewrite Hw1. by destruct (Z.eqb_spec q p). }
  assert (Hp2 : forall j, word (vmm m2) p j = if 256 <=? j then word (vmm m) (kernel_pml4 (vmm m)) j else 0).
  { intros j. unfold m2, m1. cbn. rewrite Z.eqb_refl, Hk1, Hw1. by destruct (256 <=? j), (Z.eqb_spec (kernel_pml4 (vmm m)) p). }
  assert (Hz : forall i, 0 <= i < 256 -> word (vmm m2) p i = 0) by (intros i Hi; rewrite Hp2; destruct (Z.leb_spec 256 i); [lia|done]).
  destruct (new_root_spec (vmm m) (vmm m2) T U F p Htables HpF Ha1 Hw2 Hz) as (HpT & Ht2 & Hn2 & Hv2 & _).
  assert (Hne : root <> p) by congruence.
  assert (Hm2 : forking root (fun va => view root va (vmm m)) (<[p := (p, [])]> T) U (F ∖ {[p]}) (vmm m2)).
  { split_and!; [done|auto|by rewrite lookup_insert_ne|]. intros va Hu. by rewrite Hv2. }
  pose proof (clone_table_spec root p (fun va => view root va (vmm m)) (clone_pml4e root p) (<[p := (p, [])]> T) U (F ∖ {[p]}) m2
    root p [] 256 ltac:(cbn; lia) ltac:(by intros) Hm2 ltac:(by rewrite lookup_insert_ne) ltac:(by rewrite lookup_insert_eq) Hz) as Hf.
  destruct Hf as (T' & F' & δ & M & G & S & HF & V & _); [intros; by apply (clone_pml4e_spec root p _ Hne T0 U0 F0)|].
  destruct (each _ _ m2) as [ok m3]. cbn [fst snd] in *. pose proof M as [M1 M2 M3 M4 [_ M5] _ M7].
  assert (Hdom : dom T' ∪ F' = dom T ∪ F).
  { apply set_eq. intros q. pose proof (M3 q) as Hq. rewrite !elem_of_union, !elem_of_dom in *. rewrite Hq.
    destruct (decide (q = p)) as [->|]; [rewrite lookup_insert_eq; naive_solver|rewrite lookup_insert_ne by done; set_solver]. }
  assert (Hothers : forall r va, T !! r = Some (r, []) -> r <> root -> user va -> view r va (vmm m3) = view r va (vmm m)).
  { intros r va Hr Hnr Hu. assert (Hrp : r <> p) by congruence. unfold view. rewrite M4 by (done || by rewrite lookup_insert_ne).
    destruct (G r va (trans 3 r va (word (vmm m2)))) as [_ ->]; [|done|done]. by apply Hv2. }
  assert (Hroots : forall r, T' !! r = Some (r, []) <-> T !! r = Some (r, []) \/ r = p).
  { intros r. rewrite M2. destruct (decide (r = p)) as [->|Hr]; [rewrite lookup_insert_eq; naive_solver|].
    rewrite lookup_insert_ne by done. naive_solver. }
  destruct ok.
  - exists T', F', (mkMem (vmm m3) (refs m3) (full_flushes m3 + 1)). cbv zeta. split_and!; [exact M1|by apply M7, Hn2|done|exact Hothers|]. right. exists p. split; [done|].
    split; [done|]. split; [apply M2; by rewrite lookup_insert_eq|]. split; [exact Hroots|]. split.
    + intros va Hu. cbn [vmm]. unfold view at 1 3. rewrite !M4, !V by (done || by rewrite ?lookup_insert_eq, ?lookup_insert_ne).
      rewrite fork_view_child, fork_view_root by (done || by apply covered_one).
      split; [done|]. change (trans 3 root va (word (vmm m2))) with (view root va (vmm m2)). by rewrite Hv2.
    + intros i Hi. cbn [vmm]. rewrite M5, Hp2 by (done || by rewrite lookup_insert_eq). destruct (Z.leb_spec 256 i); [done|lia].
  - exists T', F', m3. cbv zeta. split_and!; [exact M1|by apply M7, Hn2|done|exact Hothers|]. left. split_and!; [by subst F'|done| |].
    + intros va Hu. unfold view. rewrite M4 by (done || by rewrite lookup_insert_ne).
      rewrite (proj1 (G root va _) eq_refl). change (trans 3 root va (word (vmm m2))) with (view root va (vmm m2)). by rewrite Hv2.
    + exists (Some p). intros r. rewrite Hroots. naive_solver.
Qed.

(** *** A write to a shared page *)
Lemma page_of_offset addr : Z.land (page_of addr) (span 0 - 1) = 0.
Proof. unfold page_of. change (span 0 - 1) with (PAGE_SIZE - 1). apply Z.bits_inj'. intros n Hn. rewrite Z.land_spec, Z.ldiff_spec, Z.bits_0. by destruct (Z.testbit addr n), (Z.testbit (PAGE_SIZE - 1) n). Qed.

Lemma frame_key_page p : page_addr p -> frame_key p = p.
Proof.
  intros Hp. unfold frame_key. change (PAGE_SIZE - 1) with (Z.ones 12). apply Z.bits_inj'. intros n Hn.
  rewrite Z.ldiff_spec, Z.testbit_ones by lia. rewrite <- (frame_page p Hp), Z.land_spec, frame_mask_bits by lia.
  split_bool; try lia; by rewrite ?andb_false_r, ?andb_true_r.
Qed.

(** Words outside the tables do not count. *)
Lemma tables_words v v' T U F F' :
  tables v T U F -> (forall q j, is_Some (T !! q) -> word v' q j = word v q j) -> available (source v') U F' -> F' ⊆ F ->
  tables v' T U F' /\ (no_huge T (word v) -> no_huge T (word v')) /\
  (forall r va, T !! r = Some (r, []) -> user va -> view r va v' = view r va v).
Proof.
  intros (Ho & Ha & Hin) Hw Ha' Hsub. split; [split_and!|split].
  - eapply owned_steps; [|exact Ho]. intros t r π i Ht _ _. by rewrite Hw by eauto.
  - done.
  - intros q Hq%Hin. set_solver.
  - intros Hn t r π i p Ht Hl Hp. rewrite Hw by eauto. by eapply Hn.
  - intros r va Hr Hu. by apply (trans_tables T).
Qed.

Definition own_page (root va fr : Z) : view_change :=
  at_page root va (fun va' => Some (fr + Z.land va' (PAGE_SIZE - 1), perm COW_FLAGS)).

Lemma map_cow v T U F root va phys x :
  tables v T U F -> no_huge T (word v) -> T !! root = Some (root, []) -> user va -> view root va v = Some x -> page_addr phys ->
  moves T T U F F v (map_page_in_table root va phys COW_FLAGS v) (own_page root va phys).
Proof.
  intros Ht Hn Hr Hu Hx Hp. rewrite map_in_table_eq by (done || by eapply root_nonzero).
  eapply moves_view_ext; [|eapply (map_present v T U F root va phys COW_FLAGS x); try done; by vm_compute]. done.
Qed.

Lemma view_page v T U F root addr old pm :
  tables v T U F -> no_huge T (word v) -> T !! root = Some (root, []) -> user (page_of addr) ->
  view root (page_of addr) v = Some (old, pm) -> page_addr old /\ get_physical_in_pml4 root (page_of addr) v = Some old.
Proof.
  intros Ht Hn Hr Hu Hv. split.
  - destruct (view_leaf v T U F root (page_of addr) (old, pm) Ht Hn Hr Hu Hv) as (pdpt & pd & pt & _ & _ & _ & _ & [= -> _]).
    rewrite page_of_offset, Z.add_0_r. apply frame_is_page.
  - rewrite (get_physical_spec v T U F) by done. unfold view in Hv. by rewrite Hv.
Qed.

(** C8: a write fault on a page of a process: counted as alone on it, the process gets the
    right to write; counted with others, it gets a page that was free, with the same
    contents, and the count goes down by one, or the fault fails when no page is left.
    In each case the rest of its address space and the other processes keep theirs, and
    so do the contents of all pages that are neither tables nor free. *)
Theorem write_fault_copies_shared_page T U F (m : Mem A) root addr r old pm
  (Htables : tables (vmm m) T U F) (Hsmall : no_huge T (word (vmm m))) (Hroot : T !! root = Some (root, []))
  (Huser : user (page_of addr)) (Hrefs : refs m = Some r) (Hcounts : forall f c, r !! f = Some c -> 0 < c < 2 ^ 32)
  (Hpage : view root (page_of addr) (vmm m) = Some (old, pm)) :
  let c := default 1 (r !! old) in
  exists F' m', let v := vmm m in let v' := vmm m' in
    tables v' T U F' /\ (forall q j, T !! q = None -> q ∉ F -> word v' q j = word v q j) /\
    ((exists fr, cow_handle_fault root addr m = (Some fr, m') /\
        (forall s va, T !! s = Some (s, []) -> user va -> view s va v' = own_page root (page_of addr) fr s va (view s va v)) /\
        (c <= 1 /\ fr = old /\ F' = F /\ refs m' = Some (delete old r) \/
         1 < c /\ fr ∈ F /\ F' = F ∖ {[fr]} /\ refs m' = Some (<[old := c - 1]> r) /\ forall j, word v' fr j = word v old j)) \/
     cow_handle_fault root addr m = (None, m') /\ 1 < c /\ F = ∅ /\
        forall s va, T !! s = Some (s, []) -> user va -> view s va v' = view s va v).
Proof.
  intros c. destruct (view_page (vmm m) T U F root addr old pm Htables Hsmall Hroot Huser Hpage) as [Hold Hphys].
  unfold cow_handle_fault. rewrite Hphys, frame_page by done. unfold take_reuse. rewrite Hrefs.
  assert (Hreuse : forall r', r' = delete old r -> c <= 1 -> let m' := on_vmm (map_page_in_table root (page_of addr) old COW_FLAGS) (set_refs (Some r') m) in
    tables (vmm m') T U F /\ (forall q j, T !! q = None -> q ∉ F -> word (vmm m') q j = word (vmm m) q j) /\
    (forall s va, T !! s = Some (s, []) -> user va -> view s va (vmm m') = own_page root (page_of addr) old s va (view s va (vmm m)))).
  { intros r' -> Hc m'. pose proof (map_cow (vmm m) T U F root (page_of addr) old _ Htables Hsmall Hroot Huser Hpage Hold) as [M1 _ _ M4 [M5 _] _ _].
    split_and!; [exact M1|exact M5|]. intros s va Hs Hu. by apply M4. }
  destruct (r !! old) as [k|] eqn:Ek; cbn in c.
  - destruct (Z.leb_spec k 1).
    + exists F, (on_vmm (map_page_in_table root (page_of addr) old COW_FLAGS) (set_refs (Some (delete old r)) m)). cbv zeta. destruct (Hreuse _ eq_refl ltac:(done)) as (R1 & R2 & R3). split_and!; [exact R1|exact R2|].
      left. exists old. split_and!; [done|exact R3|]. left. by split_and!.
    + pose proof (vmm_alloc (vmm m) T U F Htables) as Hal. unfold alloc_frame. destruct (alloc (vmm m)) as [[p|] v1].
      2: { destruct Hal as (-> & Ht1 & Hw & Hk). exists ∅, (mkMem v1 (refs m) (full_flushes m)). cbv zeta. cbn [vmm].
           split_and!; [exact Ht1|by intros; rewrite Hw|]. right. split_and!; [by rewrite Hrefs|done|done|]. intros. unfold view. by rewrite Hw. }
      destruct Hal as (HpF & Ha1 & Hw1 & Hk1 & Hpa & Hp0 & HpT & HpU). set (m2 := on_vmm _ _).
      assert (Hw2 : forall q j, word (vmm m2) q j = if q =? p then word (vmm m) old j else word (vmm m) q j).
      { intros q j. unfold m2. cbn. rewrite Hw1. by destruct (q =? p). }
      assert (HwT : forall q j, q <> p -> word (vmm m2) q j = word (vmm m) q j) by (intros q j Hq; rewrite Hw2; by destruct (Z.eqb_spec q p)).
      destruct (tables_words (vmm m) (vmm m2) T U F (F ∖ {[p]}) Htables) as (Ht2 & Hn2 & Hv2); [intros q j [x Hx]; apply HwT; congruence|done|set_solver|].
      assert (Hr2 : refs m2 = Some r) by (unfold m2; done).
      unfold cow_dec_ref. rewrite Hr2, frame_key_page, Ek by done.
      assert (Hk32 : wrap_u32 (k - 1) = k - 1) by (apply wrap_u32_small; unfold u32, U32_MAX; specialize (Hcounts _ _ Ek); lia).
      rewrite Hk32. destruct (Z.eqb_spec (k - 1) 0); [lia|].
      pose proof (map_cow (vmm m2) T U (F ∖ {[p]}) root (page_of addr) p (old, pm) Ht2 (Hn2 Hsmall) Hroot Huser ltac:(by rewrite Hv2) Hpa) as [M1 _ _ M4 [M5 _] _ _].
      exists (F ∖ {[p]}), (on_vmm (map_page_in_table root (page_of addr) p COW_FLAGS) (set_refs (Some (<[old := k - 1]> r)) m2)). cbv zeta. split_and!; [exact M1| |].
      * intros q j Hq HqF. assert (Hqp : q <> p) by congruence. cbn [vmm on_vmm set_refs]. rewrite M5, HwT; [done..|set_solver].
      * left. exists p. split_and!; [done| |].
        -- intros s va Hs Hu. cbn [vmm on_vmm set_refs]. unfold view at 1. rewrite M4 by done. by rewrite <- Hv2.
        -- right. split_and!; try done. intros j. cbn [vmm on_vmm set_refs]. rewrite M5 by (done || set_solver). by rewrite Hw2, Z.eqb_refl.
  - exists F, (on_vmm (map_page_in_table root (page_of addr) old COW_FLAGS) m). cbv zeta. destruct (Hreuse r) as (R1 & R2 & R3); [by rewrite delete_id|done|].
    split_and!; [exact R1|exact R2|]. left. exists old. split_and!; [done|exact R3|]. left. split_and!; [done..|]. cbn. by rewrite delete_id.
Qed.

End Spec.

(** *** A process with one page *)
Definition with_page (refs : gmap Z Z) (phys : Z) (v : Vmm PhysicalMemoryManager) : Mem PhysicalMemoryManager :=
  mkMem (map_page_in_table 258048 0x400000 phys 7 v) (Some refs) 0.

Lemma one_page refs :
  exists U T F v, create_user_page_table booted = (Some 258048, v) /\ tables (vmm (with_page refs 0x3000 v)) T U F /\
    no_huge T (word (vmm (with_page refs 0x3000 v))) /\ T !! 258048 = Some (258048, []) /\
    kernel_pml4 (vmm (with_page refs 0x3000 v)) ∉ F.
Proof.
  destruct booted_space as (U & F & v & Hv & Ht & Hn & Hs & Hk).
  destruct (calls_all_carried [MapPage 258048 0x400000 0x3000 7] v {[258048 := (258048, [])]} U F Ht Hn) as (T' & F' & M).
  - apply Forall_cons. split; [|constructor]. split; [apply lookup_singleton_eq|]. unfold page_addr. split_and?; by vm_compute.
  - rewrite Hs. cbn. lia.
  - exists U, T', F', v. split; [done|]. destruct M as [M1 M2 M3 _ _ M6 M7]. split; [exact M1|]. split; [by apply M7|].
    split; [apply M2, lookup_singleton_eq|]. change (kernel_pml4 v ∉ F') in Hk || idtac. intros HF.
    destruct (proj1 (M3 _) (or_intror HF)) as [[x Hx]|HF0].
    + unfold with_page, calls, call in *. cbn [foldl vmm] in *. rewrite M6 in Hx.
      assert (Hkv : kernel_pml4 v = 4096) by (assert (E : v = (create_user_page_table booted).2) by (by rewrite Hv); rewrite E; by vm_compute).
      rewrite Hkv in Hx. by rewrite lookup_singleton_ne in Hx.
    + apply Hk. unfold with_page, calls, call in *. cbn [foldl vmm] in *. by rewrite M6 in HF0.
Qed.

Lemma fork_shares_address_space_witness :
  exists v, create_user_page_table booted = (Some 258048, v) /\
    exists m', clone_user_page_table_cow 258048 (with_page ∅ 0x3000 v) = (Some 229376, m') /\
      view 229376 0x400123 (vmm m') = Some (0x3123, 4) /\ view 258048 0x400123 (vmm m') = Some (0x3123, 4).
Proof.
  destruct (one_page ∅) as (U & T & F & v & Hv & Ht & Hn & Hr & Hk). exists v. split; [done|].
  destruct (fork_shares_address_space T U F _ 258048 Ht Hn Hr Hk) as (T' & F' & m' & _ & _ & _ & _ & Hres).
  assert (Ev : v = (create_user_page_table booted).2) by by rewrite Hv.
  assert (Ec : (clone_user_page_table_cow 258048 (with_page ∅ 0x3000 v)).1 = Some 229376) by (rewrite Ev; by vm_compute).
  destruct Hres as [[E _]|(child & E & _ & _ & _ & Hview & _)]; rewrite E in Ec; [done|]. injection Ec as ->.
  exists m'. split; [done|]. destruct (Hview 0x400123) as [-> ->]; [by vm_compute|]. rewrite Ev. split; by vm_compute.
Defined.

Lemma write_fault_copies_shared_page_witness :
  exists v, create_user_page_table booted = (Some 258048, v) /\
    exists fr m', cow_handle_fault 258048 0x400123 (with_page {[0x3000 := 2]} 0x3000 v) = (Some fr, m') /\
      fr <> 0x3000 /\ refs m' = Some {[0x3000 := 1]} /\ forall j, word (vmm m') fr j = word (vmm (with_page {[0x3000 := 2]} 0x3000 v)) 0x3000 j.
Proof.
  destruct (one_page {[0x3000 := 2]}) as (U & T & F & v & Hv & Ht & Hn & Hr & _). exists v. split; [done|].
  assert (Ev : v = (create_user_page_table booted).2) by by rewrite Hv.
  destruct (write_fault_copies_shared_page T U F (with_page {[0x3000 := 2]} 0x3000 v) 258048 0x400123 {[0x3000 := 2]} 0x3000 6)
    as (F' & m' & _ & _ & Hres); [done..|by vm_compute|done| |rewrite Ev; by vm_compute|].
  { intros f c [<- <-]%lookup_singleton_Some. lia. }
  assert (Ec : (cow_handle_fault 258048 0x400123 (with_page {[0x3000 := 2]} 0x3000 v)).1 = Some 229376) by (rewrite Ev; by vm_compute).
  destruct Hres as [(fr & E & _ & Hf)|[E _]]; rewrite E in Ec; [injection Ec as ->|done].
  rewrite lookup_singleton_eq in Hf. cbn [default] in Hf. exists 229376, m'. split; [done|].
  destruct Hf as [(? & ? & _)|(_ & _ & _ & Hrefs & Hw)]; [done|]. split_and!; [done| |done]. by rewrite Hrefs, insert_singleton_eq.
Defined.

(** ** Where the counts are one too low

    The first fork counts a shared page once instead of twice. *)
Definition forked_page (phys : Z) (v : Vmm PhysicalMemoryManager) : Mem PhysicalMemoryManager :=
  (clone_user_page_table_cow 258048 (with_page ∅ phys v)).2.

Lemma fork_counts_one v :
  create_user_page_table booted = (Some 258048, v) -> cow_ref_count 0x3000 (forked_page 0x3000 v) = 1.
Proof. intros E. vm_compute in E. injection E as <-. by vm_compute. Qed.

(** So the process that writes first writes to the page the other still reads. *)
Lemma first_writer_keeps_shared_page v :
  create_user_page_table booted = (Some 258048, v) ->
  let m := (cow_handle_fault 229376 0x400000 (forked_page 0x3000 v)).2 in
  view 229376 0x400000 (vmm m) = Some (0x3000, 6) /\ view 258048 0x400000 (vmm m) = Some (0x3000, 4).
Proof. intros E. vm_compute in E. injection E as <-. by vm_compute. Qed.

(** And the process that exits first gives back the page of the other. *)
Lemma exit_frees_shared_page v :
  create_user_page_table booted = (Some 258048, v) ->
  let m := forked_page 253952 (alloc v).2 in
  let m' := destroy_page_table 233472 m in
  view 258048 0x400000 (vmm m') = Some (253952, 4) /\ test_bit (source (vmm m)) 62 = true /\ test_bit (source (vmm m')) 62 = false.
Proof. intros E. vm_compute in E. injection E as <-. by vm_compute. Qed.

(** A page that was never shared is not given back at all. *)
Lemma exit_keeps_private_page v :
  create_user_page_table booted = (Some 258048, v) ->
  test_bit (source (vmm (destroy_page_table 258048 (with_page ∅ 253952 (alloc v).2)))) 62 = true.
Proof. intros E. vm_compute in E. injection E as <-. by vm_compute. Qed.
End CowSpec.
