(* ===== verification/Swap.v ===== *)
(** * Swap ([framework/mm/swap.rs], [swap_trait.rs], [services/mm/swap_policy.rs])

    Pages on disk are pages of a reserved part of memory, one per slot; the entry of
    a page that is out holds its slot.  Two lists of 256 places remember which pages
    were used.  The policy the services register and the one of the framework are the
    same functions. *)
From Stdlib Require Import Floats.SpecFloat.
From S2P Require Import Prelude Pmm PageTable Cow.

Module Swap.
Import PageTable.

(** [PfResult] of [page_fault.rs]. *)
Inductive PfResult := Fixed | SignalSegv | SignalBus | Oom | Unhandled.

(** ** Entries *)
Definition SLOT_MASK : Z := 0x003FFFFFFFFFFFFF.

Definition entry_new (slot : Z) : Z := Z.shiftl (Z.land slot SLOT_MASK) 2.
Definition from_pte (pte : Z) : option Z :=
  if negb (Z.land pte 1 =? 0) || (pte =? 0) then None
  else if negb (Z.land pte 2 =? 0) then None else Some pte.
Definition slot_of (e : Z) : Z := Z.land (Z.shiftr e 2) SLOT_MASK.
Definition to_pte (e : Z) : Z := e.
Definition is_valid (e : Z) : bool := negb (e =? 0).
Definition is_swap_pte (pte : Z) : bool := bool_decide (is_Some (from_pte pte)).

(** ** The slots *)
Definition SWAP_MAX_SLOTS : Z := 4096.
Definition SLOT_FREE : Z := 0.
Definition SLOT_USED : Z := 1.

(** [storage_virt] is the physical page it maps. *)
Record SwapArea := mkArea {
  bitmap : list Z; used_count : Z; storage_virt : Z; storage_phys : Z; storage_size : Z; initialized : bool
}.
Definition area_new : SwapArea := mkArea (replicate (Z.to_nat SWAP_MAX_SLOTS) SLOT_FREE) 0 0 0 0 false.
Definition set_slots (b : list Z) (n : Z) (a : SwapArea) : SwapArea :=
  mkArea b n (storage_virt a) (storage_phys a) (storage_size a) (initialized a).

Definition alloc_slot (a : SwapArea) : option Z * SwapArea :=
  match position (fun s => s =? SLOT_FREE) (bitmap a) with
  | Some i => (Some (Z.of_nat i), set_slots (<[i := SLOT_USED]> (bitmap a)) (wrap_u64 (used_count a + 1)) a)
  | None => (None, a)
  end.

Definition free_slot (slot : Z) (a : SwapArea) : SwapArea :=
  if (slot <? SWAP_MAX_SLOTS) && bool_decide (bitmap a !! Z.to_nat slot = Some SLOT_USED)
  then set_slots (<[Z.to_nat slot := SLOT_FREE]> (bitmap a)) (wrap_u64 (used_count a - 1)) a else a.

Definition slot_addr (slot : Z) (a : SwapArea) : Z := storage_virt a + slot * PAGE_SIZE.
Definition free_slots (a : SwapArea) : Z := SWAP_MAX_SLOTS - used_count a.
Definition swap_info (a : SwapArea) : Z * Z := (SWAP_MAX_SLOTS * PAGE_SIZE, free_slots a * PAGE_SIZE).

(** *** Making and giving back the storage *)
Definition zero_range (base size : Z) (v : Vmm Pmm.PhysicalMemoryManager) : Vmm Pmm.PhysicalMemoryManager :=
  set_words (fun q => if (base <=? q) && (q <? base + size) then fun _ => 0 else word v q) v.

Definition area_init (a : SwapArea) (v : Vmm Pmm.PhysicalMemoryManager) : bool * SwapArea * Vmm Pmm.PhysicalMemoryManager :=
  if initialized a then (true, a, v) else
  let bytes := SWAP_MAX_SLOTS * PAGE_SIZE in
  match Pmm.find_contig_range bytes (source v) with
  | None => (false, a, v)
  | Some base =>
    let '(e, s) := Pmm.reserve_range base bytes (source v) in
    let v := set_source s v in
    match e with
    | Some _ => (false, a, v)
    | None => (true, mkArea (bitmap a) (used_count a) base base bytes true, zero_range base bytes v)
    end
  end.

Definition area_deinit (a : SwapArea) (v : Vmm Pmm.PhysicalMemoryManager) : bool * SwapArea * Vmm Pmm.PhysicalMemoryManager :=
  if negb (initialized a) then (true, a, v) else
  let a := mkArea (bitmap a) (used_count a) 0 (storage_phys a) (storage_size a) false in
  let '(e, s) := Pmm.unreserve_range (storage_phys a) (storage_size a) (source v) in
  let v := set_source s v in
  match e with
  | Some _ => (false, a, v)
  | None => (true, mkArea (bitmap a) (used_count a) (storage_virt a) 0 0 (initialized a), v)
  end.

(** ** Which pages were used *)
Definition LRU_CAPACITY : Z := 256.

Record LruEntry := mkLru { pml4 : Z; virt_addr : Z; phys_addr : Z; dirty : bool; occupied : bool; locked : bool }.
Definition empty : LruEntry := mkLru 0 0 0 false false false.
Definition set_dirty (b : bool) (e : LruEntry) : LruEntry := mkLru (pml4 e) (virt_addr e) (phys_addr e) b (occupied e) (locked e).
Definition set_lock (b : bool) (e : LruEntry) : LruEntry := mkLru (pml4 e) (virt_addr e) (phys_addr e) (dirty e) (occupied e) b.

Record LruList := mkLists { active : list LruEntry; active_count : Z; inactive : list LruEntry; inactive_count : Z }.
Definition lru_new : LruList :=
  mkLists (replicate (Z.to_nat LRU_CAPACITY) empty) 0 (replicate (Z.to_nat LRU_CAPACITY) empty) 0.

Definition set_active (l : list LruEntry) (n : Z) (u : LruList) : LruList := mkLists l n (inactive u) (inactive_count u).
Definition set_inactive (l : list LruEntry) (n : Z) (u : LruList) : LruList := mkLists (active u) (active_count u) l n.

Definition at_addr (va : Z) (e : LruEntry) : bool := occupied e && (virt_addr e =? va).
Definition is_free (e : LruEntry) : bool := negb (occupied e).

(** The policy. *)
Record SwapPolicyContext := mkContext {
  total_slots : Z; used_slots : Z; c_active : Z; c_inactive : Z; free_pages : Z; total_pages : Z
}.
Definition reclaim_batch_size (c : SwapPolicyContext) : Z := 8.
Definition should_demote_active (n capacity : Z) : bool := capacity <=? n.
Definition should_evict_inactive (n capacity : Z) : bool := capacity <=? n.
Definition select_victim (l : list (option LruEntry)) : option nat :=
  position (fun x => match x with Some e => negb (locked e) | None => false end) l.

(** Numbers of type [f64]. *)
Definition f64 (z : Z) : spec_float := binary_normalize 53 1024 z 0 false.
Definition f64_ratio (a b : Z) : spec_float := SFdiv 53 1024 (f64 a) (f64 b).
Definition should_wakeup_kswapd (c : SwapPolicyContext) : bool :=
  let free_ratio := if 0 <? total_pages c then f64_ratio (free_pages c) (total_pages c) else f64 1 in
  let swap_usage := if 0 <? total_slots c then f64_ratio (used_slots c) (total_slots c) else f64 0 in
  SFltb free_ratio (f64_ratio 1 10) || SFltb (f64_ratio 8 10) swap_usage.

(** A full list of used pages gives the first of its places to the other. *)
Definition evict_one (u : LruList) : LruList :=
  if should_evict_inactive (inactive_count u) LRU_CAPACITY then
    match position (fun e => occupied e && negb (locked e)) (inactive u) with
    | Some j => set_inactive (<[j := empty]> (inactive u)) (inactive_count u - 1) u
    | None => u
    end
  else u.

Definition demote_oldest (u : LruList) : LruList :=
  match position occupied (active u) with
  | None => u
  | Some i =>
    match active u !! i with
    | None => u
    | Some e =>
      let u := evict_one (set_active (<[i := empty]> (active u)) (active_count u - 1) u) in
      match position is_free (inactive u) with
      | Some j => set_inactive (<[j := e]> (inactive u)) (inactive_count u + 1) u
      | None => u
      end
    end
  end.

Definition push_active (root va phys : Z) (d l : bool) (u : LruList) : LruList :=
  match position (at_addr va) (active u) with
  | Some i =>
    match active u !! i with
    | Some e => let e := set_dirty d e in
        set_active (<[i := if l then set_lock true e else e]> (active u)) (active_count u) u
    | None => u
    end
  | None =>
    let u := if should_demote_active (active_count u) LRU_CAPACITY then demote_oldest u else u in
    match position is_free (active u) with
    | Some i => set_active (<[i := mkLru root va phys d true l]> (active u)) (active_count u + 1) u
    | None => u
    end
  end.

Definition add_active (root va phys : Z) (d l : bool) (u : LruList) : LruList :=
  match position (at_addr va) (inactive u) with
  | Some i =>
    match inactive u !! i with
    | Some e =>
      let u := set_inactive (<[i := empty]> (inactive u)) (inactive_count u - 1) u in
      push_active (pml4 e) (virt_addr e) (phys_addr e) (dirty e || d) (l || locked e) u
    | None => u
    end
  | None => push_active root va phys d l u
  end.

Definition candidates (u : LruList) : list (option LruEntry) := (fun e => if occupied e then Some e else None) <$> inactive u.

Definition get_victim (u : LruList) : option LruEntry * LruList :=
  match select_victim (candidates u) with
  | None => (None, u)
  | Some i =>
    match inactive u !! i with
    | Some e => (Some e, set_inactive (<[i := empty]> (inactive u)) (inactive_count u - 1) u)
    | None => (None, u)
    end
  end.

Definition set_locked (va : Z) (b : bool) (u : LruList) : bool * LruList :=
  match position (at_addr va) (active u) with
  | Some i => (true, set_active (alter (set_lock b) i (active u)) (active_count u) u)
  | None =>
    match position (at_addr va) (inactive u) with
    | Some i => (true, set_inactive (alter (set_lock b) i (inactive u)) (inactive_count u) u)
    | None => (false, u)
    end
  end.

Definition is_locked (va : Z) (u : LruList) : option bool :=
  match find_first (at_addr va) (active u) with
  | Some e => Some (locked e)
  | None => locked <$> find_first (at_addr va) (inactive u)
  end.

(** ** Out and in *)
Section Pages.
Context {A : Type} `{PageSource A}.
Implicit Types v : Vmm A.

Record State := mkState { area : SwapArea; lru : LruList; kswapd_pending : bool }.
Definition set_area (a : SwapArea) (s : State) : State := mkState a (lru s) (kswapd_pending s).
Definition set_lru (u : LruList) (s : State) : State := mkState (area s) u (kswapd_pending s).

Definition write_slot (slot src : Z) (a : SwapArea) v : Vmm A :=
  if initialized a then Cow.copy_page src (slot_addr slot a) v else v.
Definition read_slot (slot dst : Z) (a : SwapArea) v : Vmm A :=
  if initialized a then Cow.copy_page (slot_addr slot a) dst v else v.

(** The address and the dirty mark are not used. *)
Definition swap_out (va phys : Z) (d : bool) (a : SwapArea) v : option Z * SwapArea * Vmm A :=
  if negb (initialized a) then (None, a, v) else
  match alloc_slot a with
  | (None, a) => (None, a, v)
  | (Some slot, a) => (Some (entry_new slot), a, write_slot slot phys a v)
  end.

Definition swap_out_to_pte (root va : Z) (a : SwapArea) v : option Z * SwapArea * Vmm A :=
  match get_pte_value root va v with
  | None => (None, a, v)
  | Some pte =>
    if Z.land pte 1 =? 0 then (None, a, v) else
    match swap_out va (Z.land pte FRAME_MASK) false a v with
    | (None, a, v) => (None, a, v)
    | (Some e, a, v) => (Some e, a, set_pte_value root va (to_pte e) v)
    end
  end.

Definition swap_in (e : Z) (a : SwapArea) v : option Z * SwapArea * Vmm A :=
  let slot := slot_of e in
  if negb (initialized a) then (None, a, v) else
  match alloc v with
  | (None, v) => (None, a, v)
  | (Some p, v) => (Some p, free_slot slot a, read_slot slot p a v)
  end.

Definition swap_free (e : Z) (a : SwapArea) : SwapArea := free_slot (slot_of e) a.

Definition SWAP_FLAGS : Z := Z.lor (Z.lor PAGE_PRESENT PAGE_WRITABLE) PAGE_USER.

Definition handle_swap_fault (root addr : Z) (a : SwapArea) v : PfResult * SwapArea * Vmm A :=
  match get_pte_value root addr v with
  | None => (SignalSegv, a, v)
  | Some pte =>
    match from_pte pte with
    | None => (SignalSegv, a, v)
    | Some e =>
      match swap_in e a v with
      | (None, a, v) => (Oom, a, v)
      | (Some p, a, v) => (Fixed, a, map_page_in_table root addr p SWAP_FLAGS v)
      end
    end
  end.

(** ** Reclaim *)
Definition lru_touch (root va phys : Z) (d l : bool) (s : State) : State := set_lru (add_active root va phys d l (lru s)) s.

(** One victim; whether it was put out. *)
Definition reclaim_victim (e : LruEntry) (a : SwapArea) v : bool * SwapArea * Vmm A :=
  if negb (pml4 e =? 0) then
    match swap_out_to_pte (pml4 e) (virt_addr e) a v with
    | (Some _, a, v) => (true, a, free (phys_addr e) v)
    | (None, a, v) => (false, a, v)
    end
  else
    match swap_out (virt_addr e) (phys_addr e) (dirty e) a v with
    | (Some _, a, v) => (true, a, free (phys_addr e) (unmap_page (virt_addr e) v))
    | (None, a, v) => (false, a, v)
    end.

Fixpoint reclaim_loop (n : nat) (s : State) v : Z * State * Vmm A :=
  match n with
  | O => (0, s, v)
  | S n =>
    let '(victim, u) := get_victim (lru s) in
    let s := set_lru u s in
    match victim with
    | None => (0, s, v)
    | Some e =>
      let '(ok, a, v) := reclaim_victim e (area s) v in
      let s := set_area a s in
      if ok then let '(k, s, v) := reclaim_loop n s v in (k + 1, s, v) else (0, s, v)
    end
  end.
Definition reclaim_pages (max_count : Z) (s : State) v : Z * State * Vmm A := reclaim_loop (Z.to_nat max_count) s v.
End Pages.

(** ** The reclaimer, over the page allocator *)
Definition context (s : State) (v : Vmm Pmm.PhysicalMemoryManager) : SwapPolicyContext :=
  mkContext SWAP_MAX_SLOTS (used_count (area s)) (active_count (lru s)) (inactive_count (lru s))
    (Pmm.free_pages (source v)) (Pmm.total_pages (source v)).

Definition kswapd_softirq_handler `{PageSource Pmm.PhysicalMemoryManager} (s : State) (v : Vmm Pmm.PhysicalMemoryManager) : Z * State * Vmm Pmm.PhysicalMemoryManager :=
  let s := mkState (area s) (lru s) false in reclaim_pages (reclaim_batch_size (context s v)) s v.

(** Whether the handler is raised. *)
Definition kswapd_wakeup (s : State) (v : Vmm Pmm.PhysicalMemoryManager) : bool * State :=
  if kswapd_pending s then (false, s)
  else if negb (should_wakeup_kswapd (context s v)) then (false, s)
  else (true, mkState (area s) (lru s) true).
End Swap.
