(* ===== verification/SwapSpec.v ===== *)
(** * Swapping is invisible

    [SwapSpec]: the entries of pages that are out, the lists of used pages, and that
    any history of uses, reclaims and faults leaves every page of every process with
    its contents, in a frame or in a slot. *)
From S2P Require Import Prelude Pmm PageTable PageTableSpec Cow CowSpec Swap.

Module SwapSpec.
Import PageTable PageTableSpec Swap.

(** ** Entries *)
Lemma slot_of_entry s : 0 <= s < 2 ^ 54 -> slot_of (entry_new s) = s.
Proof.
  intros Hs. unfold slot_of, entry_new. change SLOT_MASK with (Z.ones 54). rewrite Z.shiftr_shiftl_l, Z.shiftl_0_r by lia.
  rewrite !Z.land_ones by lia. rewrite Z.mod_mod by lia. by apply Z.mod_small.
Qed.

Lemma entry_value s : 0 <= s < 2 ^ 54 -> entry_new s = s * 4.
Proof.
  intros Hs. unfold entry_new. change SLOT_MASK with (Z.ones 54). rewrite Z.land_ones, Z.shiftl_mul_pow2, Z.mod_small by lia. lia.
Qed.

Lemma entry_low s k : 0 <= s < 2 ^ 54 -> 0 <= k < 2 -> Z.testbit (entry_new s) k = false.
Proof. intros Hs Hk. unfold entry_new. rewrite Z.shiftl_spec by lia. apply Z.testbit_neg_r. lia. Qed.

Lemma land_bit e k : 0 <= k -> (Z.land e (Z.shiftl 1 k) =? 0) = negb (Z.testbit e k).
Proof. intros Hk. rewrite <- has_bit by done. unfold has_bits. by rewrite negb_involutive. Qed.

Lemma from_pte_spec e x : from_pte e = Some x <-> x = e /\ Z.testbit e 0 = false /\ Z.testbit e 1 = false /\ e <> 0.
Proof.
  unfold from_pte. change 1 with (Z.shiftl 1 0) at 1. change 2 with (Z.shiftl 1 1). rewrite !land_bit by lia. rewrite !negb_involutive.
  destruct (Z.testbit e 0), (Z.testbit e 1), (Z.eqb_spec e 0); cbn; naive_solver.
Qed.

(** The entry of a slot says so, but for slot 0. *)
Lemma entry_is_swap s : 0 < s < 2 ^ 54 -> from_pte (to_pte (entry_new s)) = Some (entry_new s).
Proof.
  intros Hs. apply from_pte_spec. unfold to_pte. rewrite !entry_low by lia. split_and!; [done..|]. rewrite entry_value by lia. lia.
Qed.

Lemma slot_zero_is_no_entry : to_pte (entry_new 0) = 0 /\ is_swap_pte (to_pte (entry_new 0)) = false.
Proof. by vm_compute. Qed.

(** ** The lists of used pages *)
Definition occ (l : list LruEntry) : list LruEntry := filter (fun e => occupied e = true) l.
Definition key (e : LruEntry) : Z * Z * Z := (pml4 e, virt_addr e, phys_addr e).
Definition keys_of (l : list LruEntry) : list (Z * Z * Z) := key <$> occ l.
#[local] Arguments keys_of : simpl never.
Definition keys (u : LruList) : list (Z * Z * Z) := keys_of (active u) ++ keys_of (inactive u).

Definition key_if (e : LruEntry) : list (Z * Z * Z) := if occupied e then [key e] else [].

Lemma keys_of_cons e l : keys_of (e :: l) = key_if e ++ keys_of l.
Proof.
  unfold keys_of, key_if, occ. rewrite filter_cons. case_decide as Hd; [by rewrite Hd|by destruct (occupied e)].
Qed.

Lemma keys_insert l i x : l !! i = Some x -> exists L, keys_of l ≡ₚ key_if x ++ L /\ forall y, keys_of (<[i := y]> l) ≡ₚ key_if y ++ L.
Proof.
  revert i. induction l as [|e l IH]; intros [|i] Hi; [done..| |]; cbn in Hi.
  - injection Hi as ->. exists (keys_of l). split; [|intros y; change (<[0%nat := y]> (x :: l)) with (y :: l)]; by rewrite keys_of_cons.
  - destruct (IH i Hi) as (L & H1 & H2). exists (key_if e ++ L). split; [|intros y; change (<[S i := y]> (e :: l)) with (e :: <[i := y]> l)];
      rewrite keys_of_cons, ?H1, ?H2; solve_Permutation.
Qed.

Lemma keys_clear l i e : l !! i = Some e -> occupied e = true -> keys_of l ≡ₚ key e :: keys_of (<[i := empty]> l).
Proof. intros Hi Ho. destruct (keys_insert l i e Hi) as (L & H1 & H2). rewrite H1, (H2 empty). unfold key_if. by rewrite Ho. Qed.

Lemma keys_place l i x e : l !! i = Some x -> occupied x = false -> keys_of (<[i := e]> l) ≡ₚ key_if e ++ keys_of l.
Proof. intros Hi Ho. destruct (keys_insert l i x Hi) as (L & H1 & H2). rewrite (H2 e), H1. unfold key_if at 3. by rewrite Ho. Qed.

Lemma keys_same l i e e' : l !! i = Some e -> occupied e' = occupied e -> key e' = key e -> keys_of (<[i := e']> l) ≡ₚ keys_of l.
Proof. intros Hi Ho Hk. destruct (keys_insert l i e Hi) as (L & H1 & H2). rewrite (H2 e'), H1. unfold key_if. by rewrite Ho, Hk. Qed.

Lemma evict_one_keys u : keys (evict_one u) ⊆+ keys u.
Proof.
  unfold evict_one. destruct (should_evict_inactive _ _); [|done]. destruct (position _ (inactive u)) as [j|] eqn:E; [|done].
  apply position_Some in E as (e & He & [Ho _]%andb_true_iff & _). unfold keys. cbn. apply submseteq_app; [done|].
  rewrite (keys_clear _ _ _ He Ho). by apply submseteq_cons.
Qed.

Lemma demote_oldest_keys u : keys (demote_oldest u) ⊆+ keys u.
Proof.
  unfold demote_oldest. destruct (position occupied (active u)) as [i|] eqn:E; [|done]. apply position_Some in E as (e & He & Ho & _). rewrite He.
  set (u1 := set_active _ _ u). pose proof (evict_one_keys u1) as Hev.
  assert (H1 : key e :: keys u1 ≡ₚ keys u) by (unfold keys, u1; cbn; by rewrite (keys_clear _ _ _ He Ho)).
  rewrite <- H1. destruct (position is_free (inactive (evict_one u1))) as [j|] eqn:Ej.
  - apply position_Some in Ej as (x & Hx & Hf & _). unfold is_free in Hf. apply negb_true_iff in Hf.
    assert (Hk : keys (set_inactive (<[j:=e]> (inactive (evict_one u1))) (inactive_count (evict_one u1) + 1) (evict_one u1)) ≡ₚ key e :: keys (evict_one u1)).
    { unfold keys. cbn. rewrite (keys_place _ _ _ e Hx Hf). unfold key_if. rewrite Ho. solve_Permutation. }
    rewrite Hk. by apply submseteq_skip.
  - by apply submseteq_cons.
Qed.

Definition virts (l : list (Z * Z * Z)) : list Z := (fun k => k.1.2) <$> l.

Lemma at_addr_none va l : position (at_addr va) l = None -> va ∉ virts (keys_of l).
Proof.
  rewrite position_None. intros Hn (k & -> & (e & -> & [Ho He]%list_elem_of_filter)%list_elem_of_fmap)%list_elem_of_fmap.
  specialize (Hn e He). unfold at_addr in Hn. cbn in Hn. rewrite Ho, Z.eqb_refl in Hn. done.
Qed.

Lemma push_active_keys root va phys d l u :
  keys (push_active root va phys d l u) ⊆+ keys u \/
  va ∉ virts (keys_of (active u)) /\ keys (push_active root va phys d l u) ⊆+ (root, va, phys) :: keys u.
Proof.
  unfold push_active. destruct (position (at_addr va) (active u)) as [i|] eqn:E.
  - left. apply position_Some in E as (e & He & _ & _). rewrite He. unfold keys. cbn. apply submseteq_app; [|done].
    by rewrite (keys_same _ i e) by by destruct l.
  - right. split; [by apply at_addr_none|]. set (u1 := if should_demote_active _ _ then _ else u).
    assert (Hu1 : keys u1 ⊆+ keys u) by (unfold u1; destruct (should_demote_active _ _); [apply demote_oldest_keys|done]).
    destruct (position is_free (active u1)) as [i|] eqn:Ei; [|by apply submseteq_cons].
    apply position_Some in Ei as (x & Hx & Hf & _). unfold is_free in Hf. apply negb_true_iff in Hf.
    unfold keys at 1. cbn. rewrite (keys_place _ _ _ _ Hx Hf). cbn. by apply submseteq_skip.
Qed.

(** A use adds at most its page, and only if its address is not there. *)
Lemma add_active_keys root va phys d l u :
  keys (add_active root va phys d l u) ⊆+ keys u \/
  va ∉ virts (keys u) /\ keys (add_active root va phys d l u) ⊆+ (root, va, phys) :: keys u.
Proof.
  unfold add_active. destruct (position (at_addr va) (inactive u)) as [i|] eqn:E.
  - left. apply position_Some in E as (e & He & [Ho _]%andb_true_iff & _). rewrite He. set (u1 := set_inactive _ _ u).
    assert (H1 : key e :: keys u1 ≡ₚ keys u) by (unfold keys, u1; cbn; rewrite (keys_clear _ _ _ He Ho); solve_Permutation).
    rewrite <- H1. destruct (push_active_keys (pml4 e) (virt_addr e) (phys_addr e) (dirty e || d) (l || locked e) u1) as [Hk|[_ Hk]];
      [by apply submseteq_cons|exact Hk].
  - destruct (push_active_keys root va phys d l u) as [Hk|[Hn Hk]]; [by left|right]. split; [|done].
    unfold keys, virts. rewrite fmap_app, not_elem_of_app. split; [done|by apply at_addr_none].
Qed.

(** The victim is taken off the list, and is not locked. *)
Lemma get_victim_spec u :
  match get_victim u with
  | (Some e, u') => occupied e = true /\ locked e = false /\ keys u ≡ₚ key e :: keys u'
  | (None, u') => u' = u
  end.
Proof.
  unfold get_victim, select_victim, candidates. rewrite position_fmap. destruct (position _ (inactive u)) as [i|] eqn:E; [|done].
  apply position_Some in E as (e & He & Hf & _). rewrite He. destruct (occupied e) eqn:Ho; [|done].
  split_and!; [done|by destruct (locked e)|]. unfold keys. cbn. rewrite (keys_clear _ _ _ He Ho). solve_Permutation.
Qed.

Lemma set_locked_keys va b u : keys (set_locked va b u).2 ≡ₚ keys u.
Proof.
  assert (Hl : forall l i, keys_of (alter (set_lock b) i l) ≡ₚ keys_of l).
  { intros l i. destruct (l !! i) as [e|] eqn:He.
    - replace (alter (set_lock b) i l) with (<[i := set_lock b e]> l); [by apply (keys_same l i e)|].
      apply list_eq. intros j. destruct (decide (j = i)) as [->|Hne].
      + rewrite list_lookup_alter_eq, list_lookup_insert_eq, He by (by eapply lookup_lt_Some). done.
      + by rewrite list_lookup_insert_ne, list_lookup_alter_ne.
    - replace (alter (set_lock b) i l) with l; [done|]. apply list_eq. intros j. destruct (decide (j = i)) as [->|Hne].
      + by rewrite list_lookup_alter_eq, He.
      + by rewrite list_lookup_alter_ne. }
  unfold set_locked. destruct (position _ (active u)); [|destruct (position _ (inactive u))]; cbn; unfold keys; cbn; by rewrite ?Hl.
Qed.

(** ** Pages in frames and in slots *)
Section Swapping.
Context {A : Type} `{PageSourceLaws A}.
Implicit Types (v : Vmm A) (a : SwapArea) (T : gmap Z (Z * list Z)) (U F : gset Z).

Lemma path_tables T w root va pt : owned T w -> T !! root = Some (root, []) -> T !! pt = Some (root, path va) ->
  exists pdpt pd, on_path T root va pdpt 1 /\ on_path T root va pd 2 /\
    step (w root (idx 3 va)) = Table pdpt /\ step (w pdpt (idx 2 va)) = Table pd /\ step (w pd (idx 1 va)) = Table pt.
Proof.
  intros Ho Hr Hpt. destruct (own_parent _ _ Ho pt root (take 2 (path va)) (idx 1 va) Hpt) as (_ & pd & Hpd & S1).
  destruct (own_parent _ _ Ho pd root (take 1 (path va)) (idx 2 va) Hpd) as (_ & pdpt & Hpdpt & S2).
  destruct (own_parent _ _ Ho pdpt root [] (idx 3 va) Hpdpt) as (_ & r' & Hr' & S3).
  rewrite (own_inj _ _ Ho _ _ _ Hr' Hr) in S3. by exists pdpt, pd.
Qed.

Lemma find_pt_spec v T U F root va pt :
  tables v T U F -> T !! root = Some (root, []) -> user va -> find_pt root va v = Some pt <-> T !! pt = Some (root, path va).
Proof.
  intros (Ho & _) Hr Hu. unfold find_pt. change (pml4_idx va) with (idx 3 va). change (pdpt_idx va) with (idx 2 va).
  change (pd_idx va) with (idx 1 va). rewrite (top_step T) by (first [done|split; [apply idx_range|exact Hu]]). split.
  - destruct (step (word v root (idx 3 va))) as [| |pdpt] eqn:S3; [done..|].
    assert (Hp1 : on_path T root va pdpt 1) by (apply (own_walk T (word v) root root va 0); [done|done|lia|done|done]).
    destruct (step (word v pdpt (idx 2 va))) as [| |pd] eqn:S2; [done..|].
    assert (Hp2 : on_path T root va pd 2) by (apply (own_walk T (word v) pdpt root va 1); [done|done|lia|done|done]).
    destruct (step (word v pd (idx 1 va))) as [| |pt'] eqn:S1; [done..|]. intros [= <-].
    apply (own_walk T (word v) pd root va 2); [done|done|lia|done|done].
  - intros Hpt. destruct (path_tables T (word v) root va pt Ho Hr Hpt) as (pdpt & pd & _ & _ & S3 & S2 & S1). by rewrite S3, S2, S1.
Qed.

(** The places of the last level. *)
Definition leaf T (l : Z * Z) : Prop := exists r π, T !! l.1 = Some (r, π) /\ length π = 3%nat /\ 0 <= l.2 < 512.
Definition entry v (l : Z * Z) : Z := word v l.1 l.2.

Lemma leaf_path T root va pt : T !! pt = Some (root, path va) -> leaf T (pt, pt_idx va).
Proof. intros Hpt. exists root, (path va). split_and!; [done..| |]; apply (idx_range 0 va). Qed.

(** Every page that is there has a frame of its own, every page that is out a slot of
    its own, outside the memory of the allocator; slot 0 is not used for pages. *)
Record swap_ok T U F a v : Prop := {
  ok_tables : tables v T U F;
  ok_huge : no_huge T (word v);
  ok_init : initialized a = true;
  ok_slots : length (bitmap a) = Z.to_nat SWAP_MAX_SLOTS;
  ok_first : bitmap a !! 0%nat = Some SLOT_USED;
  ok_store s : 0 <= s < SWAP_MAX_SLOTS -> slot_addr s a ∉ U;
  ok_present l : leaf T l -> is_present (entry v l) = true ->
    frame (entry v l) ∈ U /\ frame (entry v l) ∉ F /\ T !! frame (entry v l) = None;
  ok_frames l l' : leaf T l -> leaf T l' -> is_present (entry v l) = true -> is_present (entry v l') = true ->
    frame (entry v l) = frame (entry v l') -> l = l';
  ok_out l e : leaf T l -> from_pte (entry v l) = Some e -> bitmap a !! Z.to_nat (slot_of e) = Some SLOT_USED /\ slot_of e <> 0;
  ok_places l l' e e' : leaf T l -> leaf T l' -> from_pte (entry v l) = Some e -> from_pte (entry v l') = Some e' ->
    slot_of e = slot_of e' -> l = l';
}.

(** The contents of a page, wherever they are. *)
Definition content a v (l : Z * Z) (j : Z) : option Z :=
  let e := entry v l in
  if is_present e then Some (word v (frame e) j) else (fun x => word v (slot_addr (slot_of x) a) j) <$> from_pte e.

Lemma slot_range T U F a v l e : swap_ok T U F a v -> leaf T l -> from_pte (entry v l) = Some e -> 0 < slot_of e < SWAP_MAX_SLOTS.
Proof.
  intros Hok Hl He. destruct (ok_out _ _ _ _ _ Hok l e Hl He) as [Hs Hn]. apply lookup_lt_Some in Hs. rewrite (ok_slots _ _ _ _ _ Hok) in Hs.
  assert (0 <= slot_of e) by (apply Z.land_nonneg; right; by vm_compute). lia.
Qed.

Lemma out_not_present e x : from_pte e = Some x -> is_present e = false /\ x = e.
Proof. intros (-> & Hb & _)%from_pte_spec. by rewrite present_bit. Qed.

Lemma slot_addr_inj s s' a : slot_addr s a = slot_addr s' a -> s = s'.
Proof. unfold slot_addr, PAGE_SIZE. lia. Qed.

Lemma leaf_table T U F v l : tables v T U F -> leaf T l -> l.1 ∈ U /\ l.1 ∉ F.
Proof. intros (_ & _ & Hin) (r & π & Hr & _). apply Hin. eauto. Qed.

Lemma used_insert b s s' x : (s' < length b)%nat -> (<[s := x]> b : list Z) !! s' = if decide (s' = s) then Some x else b !! s'.
Proof. intros Hs. case_decide as Hd; [subst; by rewrite list_lookup_insert_eq|by rewrite list_lookup_insert_ne]. Qed.

(** *** A page goes out *)
Section Out.
Variables (T : gmap Z (Z * list Z)) (U F : gset Z) (a : SwapArea) (v : Vmm A) (l : Z * Z) (s n : Z) (v' : Vmm A).
Let p := frame (entry v l).
Let a' := set_slots (<[Z.to_nat s := SLOT_USED]> (bitmap a)) n a.
Hypotheses (Hok : swap_ok T U F a v) (Hl : leaf T l) (Hpr : is_present (entry v l) = true) (Hs : 0 < s < SWAP_MAX_SLOTS)
  (Hfree : bitmap a !! Z.to_nat s = Some SLOT_FREE)
  (Hw : word v' = word (put l.1 l.2 (entry_new s) (Cow.copy_page p (slot_addr s a) v))).

Lemma out_entry_is_swap : from_pte (entry_new s) = Some (entry_new s) /\ slot_of (entry_new s) = s /\ is_present (entry_new s) = false.
Proof.
  unfold SWAP_MAX_SLOTS in Hs. assert (Hsw : from_pte (entry_new s) = Some (entry_new s)) by (apply entry_is_swap; lia).
  split_and!; [done|apply slot_of_entry; lia|by eapply out_not_present].
Qed.

(** In the memory of the allocator the entry changes only, in the storage the slot. *)
Lemma out_words :
  (forall q j, q ∈ U -> (q, j) <> l -> word v' q j = word v q j) /\
  (forall x j, 0 <= x < SWAP_MAX_SLOTS -> word v' (slot_addr x a) j = if decide (x = s) then word v p j else word v (slot_addr x a) j).
Proof.
  pose proof (ok_tables _ _ _ _ _ Hok) as Ht. split.
  - intros q j HqU Hql. rewrite Hw, put_other by (by destruct l). cbn. destruct (Z.eqb_spec q (slot_addr s a)) as [->|]; [|done].
    destruct (ok_store _ _ _ _ _ Hok s); [lia|done].
  - intros x j Hx. rewrite Hw, put_other.
    + cbn. case_decide as Hd; [subst; by rewrite Z.eqb_refl|]. destruct (Z.eqb_spec (slot_addr x a) (slot_addr s a)) as [E%slot_addr_inj|]; done.
    + intros [= E _]. apply (ok_store _ _ _ _ _ Hok x Hx). rewrite E. apply (leaf_table _ _ _ _ _ Ht Hl).
Qed.

Lemma out_entry : entry v' l = entry_new s.
Proof. unfold entry. rewrite Hw. apply put_same. Qed.

Lemma out_others l' : leaf T l' -> l' <> l -> entry v' l' = entry v l'.
Proof. intros Hl' Hd. apply out_words; [apply (leaf_table _ _ _ _ _ (ok_tables _ _ _ _ _ Hok) Hl')|by destruct l', l]. Qed.

Lemma out_upper t r π i : T !! t = Some (r, π) -> (length π < 3)%nat -> word v' t i = word v t i.
Proof.
  intros Htr Hlen. apply out_words; [apply (proj2 (proj2 (ok_tables _ _ _ _ _ Hok))); eauto|]. intros E.
  destruct Hl as (r' & π' & Hr' & Hl3 & _). rewrite <- E in Hr'. cbn in Hr'. rewrite Htr in Hr'. injection Hr' as <- <-. lia.
Qed.

Lemma out_slot l' e : leaf T l' -> from_pte (entry v l') = Some e -> slot_of e <> s.
Proof. intros Hl' He <-. destruct (ok_out _ _ _ _ _ Hok l' e Hl' He) as [Hu _]. rewrite Hu in Hfree. done. Qed.

Lemma out_tables : available (source v') U ({[p]} ∪ F) -> tables v' T U ({[p]} ∪ F) /\ no_huge T (word v').
Proof.
  intros Ha'. destruct (ok_tables _ _ _ _ _ Hok) as (Ho & _ & Hin). destruct (ok_present _ _ _ _ _ Hok l Hl Hpr) as (_ & _ & HpT). fold p in HpT.
  split; [split_and!; [|done|]|].
  - eapply owned_steps; [|exact Ho]. intros t r π i Htr Hlen _. by erewrite out_upper.
  - intros t [x Hx]. destruct (Hin t) as [? ?]; [eauto|]. split; [done|]. intros [->%elem_of_singleton|?]%elem_of_union; [congruence|done].
  - intros t r π i q Htr Hlen Hpl. erewrite out_upper by done. by eapply (ok_huge _ _ _ _ _ Hok).
Qed.

Lemma out_ok : available (source v') U ({[p]} ∪ F) -> swap_ok T U ({[p]} ∪ F) a' v'.
Proof.
  intros Ha'. destruct (out_tables Ha') as [Ht' Hn']. destruct out_entry_is_swap as (Hsw & Hso & Hnp). pose proof out_entry as Hwl.
  pose proof out_others as Hel. split; [done|done|apply Hok|cbn; rewrite length_insert; apply Hok| |apply Hok| | | |].
  - cbn. rewrite list_lookup_insert_ne by lia. apply Hok.
  - intros l' Hl' Hp'. destruct (decide (l' = l)) as [->|Hd]; [congruence|]. rewrite Hel in Hp' |- * by done.
    destruct (ok_present _ _ _ _ _ Hok l' Hl' Hp') as (? & ? & ?). split_and!; [done| |done].
    intros [Heq%elem_of_singleton|?]%elem_of_union; [|done]. apply Hd. by eapply (ok_frames _ _ _ _ _ Hok).
  - intros l1 l2 Hl1 Hl2 Hp1 Hp2. destruct (decide (l1 = l)) as [->|], (decide (l2 = l)) as [->|]; [done|congruence..|].
    rewrite !Hel in * by done. by eapply (ok_frames _ _ _ _ _ Hok).
  - intros l' e Hl' He. cbn. destruct (decide (l' = l)) as [->|Hd].
    + rewrite Hwl, Hsw in He. injection He as <-. rewrite Hso, list_lookup_insert_eq by (rewrite (ok_slots _ _ _ _ _ Hok); lia). split; [done|lia].
    + rewrite Hel in He by done. destruct (ok_out _ _ _ _ _ Hok l' e Hl' He) as [Hu ?]. split; [|done].
      destruct (decide (Z.to_nat s = Z.to_nat (slot_of e))) as [E|]; [|by rewrite list_lookup_insert_ne].
      rewrite E. apply list_lookup_insert_eq. by eapply lookup_lt_Some.
  - intros l1 l2 e1 e2 Hl1 Hl2 He1 He2 Heq. destruct (decide (l1 = l)) as [->|], (decide (l2 = l)) as [->|]; [done|..].
    + rewrite Hwl, Hsw in He1. injection He1 as <-. rewrite Hel in He2 by done. rewrite Hso in Heq. by destruct (out_slot _ _ Hl2 He2).
    + rewrite Hwl, Hsw in He2. injection He2 as <-. rewrite Hel in He1 by done. rewrite Hso in Heq. by destruct (out_slot _ _ Hl1 He1).
    + rewrite !Hel in * by done. by eapply (ok_places _ _ _ _ _ Hok).
Qed.

Lemma out_content l' j : leaf T l' -> content a' v' l' j = content a v l' j.
Proof.
  intros Hl'. destruct out_entry_is_swap as (Hsw & Hso & Hnp). destruct out_words as [HwU HwS].
  assert (Hslot : forall x, slot_addr x a' = slot_addr x a) by done. unfold content. destruct (decide (l' = l)) as [->|Hd].
  - rewrite out_entry, Hnp, Hsw, Hpr. cbn [fmap option_fmap option_map]. rewrite Hso, Hslot, HwS by lia. by rewrite decide_True.
  - rewrite out_others by done. destruct (is_present (entry v l')) eqn:Hp'.
    + destruct (ok_present _ _ _ _ _ Hok l' Hl' Hp') as (? & _ & HfT). f_equal. apply HwU; [done|]. intros E.
      destruct Hl as (r & π & Hr & _). rewrite <- E in Hr. cbn in Hr. congruence.
    + destruct (from_pte (entry v l')) as [e|] eqn:He; [|done]. cbn. pose proof (slot_range _ _ _ _ _ _ _ Hok Hl' He).
      rewrite Hslot, HwS by lia. rewrite decide_False; [done|]. by apply (out_slot l').
Qed.
End Out.

(** *** A page comes in *)
Definition given_back (s : Z) a : SwapArea := set_slots (<[Z.to_nat s := SLOT_FREE]> (bitmap a)) (wrap_u64 (used_count a - 1)) a.

Lemma in_ok T U F a v l e p v' :
  swap_ok T U F a v -> leaf T l -> from_pte (entry v l) = Some e -> p ∈ F -> tables v' T U (F ∖ {[p]}) -> no_huge T (word v') ->
  (forall l', leaf T l' -> l' <> l -> entry v' l' = entry v l') -> is_present (entry v' l) = true -> frame (entry v' l) = p ->
  (forall j, word v' p j = word v (slot_addr (slot_of e) a) j) -> (forall q j, T !! q = None -> q ∉ F -> word v' q j = word v q j) ->
  swap_ok T U (F ∖ {[p]}) (given_back (slot_of e) a) v' /\
  forall l' j, leaf T l' -> content (given_back (slot_of e) a) v' l' j = content a v l' j.
Proof.
  intros Hok Hl He HpF Ht' Hn' Hel Hpl Hfl Hwp Hwq. pose proof (ok_tables _ _ _ _ _ Hok) as Ht. pose proof Ht as (Ho & Ha & Hin).
  pose proof (slot_range _ _ _ _ _ _ _ Hok Hl He) as Hse. destruct (out_not_present _ _ He) as [Hnp _].
  assert (Hpo : forall x, from_pte (entry v' l) = Some x -> False) by (intros x Hx; apply out_not_present in Hx as [Hx _]; congruence).
  pose proof (proj1 (available_pages _ _ _ Ha)) as HFU. assert (HpU : p ∈ U) by by apply HFU.
  assert (HsU : forall x, 0 <= x < SWAP_MAX_SLOTS -> slot_addr x a ∉ U) by (intros; by eapply ok_store).
  assert (HsT : forall x, 0 <= x < SWAP_MAX_SLOTS -> T !! slot_addr x a = None).
  { intros x Hx. apply eq_None_not_Some. intros Hs%Hin. apply (HsU x Hx), Hs. }
  assert (Hother : forall l' x, leaf T l' -> l' <> l -> from_pte (entry v l') = Some x -> slot_of x <> slot_of e).
  { intros l' x Hl' Hd Hx Heq. apply Hd. by eapply (ok_places _ _ _ _ _ Hok). }
  split.
  - split; [done|done|apply Hok|cbn; rewrite length_insert; apply Hok| |exact HsU| | | |].
    + cbn. rewrite list_lookup_insert_ne by lia. apply Hok.
    + intros l' Hl' Hp'. destruct (decide (l' = l)) as [->|Hd].
      * rewrite Hfl. split_and!; [done|set_solver|]. apply eq_None_not_Some. intros Hs%Hin. by destruct Hs.
      * rewrite Hel in Hp' |- * by done. destruct (ok_present _ _ _ _ _ Hok l' Hl' Hp') as (? & ? & ?). split_and!; [done|set_solver|done].
    + intros l1 l2 Hl1 Hl2 Hp1 Hp2 Heq.
      assert (Hno : forall l', leaf T l' -> is_present (entry v l') = true -> frame (entry v l') <> p).
      { intros l' Hl' Hp' E. destruct (ok_present _ _ _ _ _ Hok l' Hl' Hp') as (_ & Hx & _). by rewrite E in Hx. }
      destruct (decide (l1 = l)) as [->|], (decide (l2 = l)) as [->|]; [done|..].
      * rewrite Hfl, Hel in Heq by done. rewrite Hel in Hp2 by done. by destruct (Hno _ Hl2 Hp2).
      * rewrite Hfl, Hel in Heq by done. rewrite Hel in Hp1 by done. by destruct (Hno _ Hl1 Hp1).
      * rewrite !Hel in * by done. by eapply (ok_frames _ _ _ _ _ Hok).
    + intros l' x Hl' Hx. destruct (decide (l' = l)) as [->|Hd]; [by apply Hpo in Hx|]. rewrite Hel in Hx by done.
      pose proof (slot_range _ _ _ _ _ _ _ Hok Hl' Hx) as Hsx. destruct (ok_out _ _ _ _ _ Hok l' x Hl' Hx) as [? ?]. split; [|done]. cbn.
      rewrite list_lookup_insert_ne; [done|]. specialize (Hother l' x Hl' Hd Hx). lia.
    + intros l1 l2 x1 x2 Hl1 Hl2 Hx1 Hx2. destruct (decide (l1 = l)) as [->|]; [by apply Hpo in Hx1|].
      destruct (decide (l2 = l)) as [->|]; [by apply Hpo in Hx2|]. rewrite Hel in * by done. by eapply (ok_places _ _ _ _ _ Hok).
  - intros l' j Hl'. unfold content. destruct (decide (l' = l)) as [->|Hd].
    + rewrite Hpl, Hfl, Hnp, He. cbn. by rewrite Hwp.
    + rewrite Hel by done. destruct (is_present (entry v l')) eqn:Hp'.
      * destruct (ok_present _ _ _ _ _ Hok l' Hl' Hp') as (? & HfF & HfT). by rewrite Hwq.
      * destruct (from_pte (entry v l')) as [x|] eqn:Hx; [|done]. cbn. pose proof (slot_range _ _ _ _ _ _ _ Hok Hl' Hx) as Hsx.
        change (slot_addr (slot_of x) (given_back (slot_of e) a)) with (slot_addr (slot_of x) a).
        rewrite Hwq; [done|apply HsT; lia|]. intros E%HFU. apply (HsU (slot_of x)); [lia|done].
Qed.

(** What mapping a page writes when its tables are there. *)
Lemma map_writes v T root va phys f pdpt pd pt :
  owned T (word v) -> on_path T root va root 0 -> on_path T root va pdpt 1 -> on_path T root va pd 2 -> on_path T root va pt 3 ->
  entry (map_user root va phys f v) (pt, pt_idx va) = set_flags f (set_frame phys (entry v (pt, pt_idx va))) /\
  forall l, leaf T l -> l <> (pt, pt_idx va) -> entry (map_user root va phys f v) l = entry v l.
Proof.
  intros Ho H0' H1 H2' H3. unfold map_user. rewrite (walk_present v T root va pdpt pd pt) by done.
  set (v2 := if has_bits f PAGE_USER then _ else v).
  assert (Hw : forall q j, q <> root -> q <> pdpt -> q <> pd -> word v2 q j = word v q j).
  { intros q j Hq1 Hq2 Hq3. unfold v2. destruct (has_bits f PAGE_USER); [|done]. unfold change. rewrite !put_other; congruence. }
  assert (Hleaf : forall q n r π, T !! q = Some (r, π) -> length π = 3%nat -> on_path T root va q n -> (n < 3)%nat -> False).
  { intros q n r π Hq Hl Hp Hn. unfold on_path in Hp. rewrite Hq in Hp. injection Hp as _ ->. rewrite length_path_take in Hl; lia. }
  assert (Hl2 : forall l, leaf T l -> entry v2 l = entry v l).
  { intros l (r & π & Hr & Hl & _). apply Hw; intros E; rewrite E in Hr; eauto using Hleaf with lia. }
  assert (Hpt : leaf T (pt, pt_idx va)) by (by apply (leaf_path T root)).
  unfold set_leaf, change. split.
  - rewrite <- (Hl2 _ Hpt). apply put_same.
  - intros l Hl Hne. rewrite <- (Hl2 l Hl). unfold entry. change (word (put pt (pt_idx va) (set_flags f (set_frame phys (word v2 pt (pt_idx va)))) v2) l.1 l.2 = word v2 l.1 l.2).
    apply put_other. by destruct l.
Qed.

(** *** The operations *)
Definition at_leaf T (root va pt : Z) : Prop := T !! root = Some (root, []) /\ user va /\ T !! pt = Some (root, path va).

Lemma pte_at T U F v root va pt : tables v T U F -> at_leaf T root va pt -> get_pte_value root va v = Some (entry v (pt, pt_idx va)).
Proof.
  intros Ht (Hr & Hu & Hpt). unfold get_pte_value. destruct (Z.eqb_spec root 0); [by destruct (root_nonzero v T U F root Ht Hr)|].
  by rewrite (proj2 (find_pt_spec v T U F root va pt Ht Hr Hu) Hpt).
Qed.

Lemma pte_some T U F v root va e : tables v T U F -> T !! root = Some (root, []) -> user va -> get_pte_value root va v = Some e ->
  exists pt, at_leaf T root va pt /\ e = entry v (pt, pt_idx va).
Proof.
  intros Ht Hr Hu. unfold get_pte_value. destruct (root =? 0); [done|]. intros (pt & Hpt & ->)%fmap_Some.
  exists pt. split; [|done]. split_and!; [done..|]. by apply (find_pt_spec v T U F).
Qed.

Lemma swap_out_to_pte_spec T U F a v root va pt :
  swap_ok T U F a v -> at_leaf T root va pt ->
  let l := (pt, pt_idx va) in
  match swap_out_to_pte root va a v with
  | (Some e, a', v') => is_present (entry v l) = true /\ source v' = source v /\
      exists s n, 0 < s < SWAP_MAX_SLOTS /\ bitmap a !! Z.to_nat s = Some SLOT_FREE /\
        a' = set_slots (<[Z.to_nat s := SLOT_USED]> (bitmap a)) n a /\
        word v' = word (put l.1 l.2 (entry_new s) (Cow.copy_page (frame (entry v l)) (slot_addr s a) v))
  | (None, a', v') => a' = a /\ v' = v
  end.
Proof.
  intros Hok Hat l. pose proof (ok_tables _ _ _ _ _ Hok) as Ht. unfold swap_out_to_pte. rewrite (pte_at T U F v root va pt Ht Hat). fold l.
  change 1 with (Z.shiftl 1 0). rewrite land_bit, <- present_bit by lia. destruct (is_present (entry v l)) eqn:Hp; cbn [negb]; [|done].
  unfold swap_out. rewrite (ok_init _ _ _ _ _ Hok). cbn [negb]. unfold alloc_slot.
  destruct (position _ (bitmap a)) as [i|] eqn:E; [|done]. apply position_Some in E as (x & Hx & ->%Z.eqb_eq & _).
  pose proof (lookup_lt_Some _ _ _ Hx) as Hi. rewrite (ok_slots _ _ _ _ _ Hok) in Hi.
  assert (Hi0 : i <> 0%nat) by (intros ->; rewrite (ok_first _ _ _ _ _ Hok) in Hx; done).
  unfold write_slot. change (initialized (set_slots (<[i := SLOT_USED]> (bitmap a)) (wrap_u64 (used_count a + 1)) a)) with (initialized a).
  rewrite (ok_init _ _ _ _ _ Hok). unfold set_pte_value.
  destruct Hat as (Hr & Hu & Hpt). destruct (Z.eqb_spec root 0); [by destruct (root_nonzero v T U F root Ht Hr)|].
  set (v1 := Cow.copy_page _ _ v).
  assert (Ht1 : tables v1 T U F).
  { eapply (CowSpec.tables_words v v1 T U F F); [done| |exact (proj1 (proj2 Ht))|done]. intros q j Hq. unfold v1. cbn.
    destruct (Z.eqb_spec q (slot_addr (Z.of_nat i) (set_slots (<[i:=SLOT_USED]> (bitmap a)) (wrap_u64 (used_count a + 1)) a))) as [->|]; [|done].
    destruct (ok_store _ _ _ _ _ Hok (Z.of_nat i)); [lia|]. by apply (proj2 (proj2 Ht)). }
  rewrite (proj2 (find_pt_spec v1 T U F root va pt Ht1 Hr Hu) Hpt). split_and!; [done..|].
  exists (Z.of_nat i), (wrap_u64 (used_count a + 1)). rewrite Nat2Z.id. split_and!; [lia..|done|done|done].
Qed.

(** What the lists may say of a page. *)
Definition tracked T v (k : Z * Z * Z) : Prop :=
  let '(root, va, phys) := k in 0 <= va < 2 ^ 47 /\ va mod PAGE_SIZE = 0 /\
  exists pt, at_leaf T root va pt /\ is_present (entry v (pt, pt_idx va)) = true /\ frame (entry v (pt, pt_idx va)) = phys.

Lemma same_address va va' : 0 <= va < 2 ^ 47 -> 0 <= va' < 2 ^ 47 -> va mod PAGE_SIZE = 0 -> va' mod PAGE_SIZE = 0 ->
  path va = path va' -> pt_idx va = pt_idx va' -> va = va'.
Proof.
  intros H1 H2 H3 H4 [= E3 E2 E1] E0. change (pt_idx va) with (idx 0 va) in E0. change (pt_idx va') with (idx 0 va') in E0.
  change (va mod span 0 = 0) in H3. change (va' mod span 0 = 0) in H4.
  rewrite <- (Z.mod_small va (span 4)), <- (Z.mod_small va' (span 4)) by (change (span 4) with (2 ^ 48); lia).
  by rewrite !(offset_S 3), !(offset_S 2), !(offset_S 1), !(offset_S 0), E3, E2, E1, E0, H3, H4.
Qed.

Lemma tracked_other T v v' k l :
  tracked T v k -> (forall l', leaf T l' -> l' <> l -> entry v' l' = entry v l') ->
  (forall root va phys pt, k = (root, va, phys) -> at_leaf T root va pt -> (pt, pt_idx va) <> l) -> tracked T v' k.
Proof.
  destruct k as [[root va] phys]. intros (H1 & H2 & pt & Hat & Hp & Hf) Hel Hne. split; [done|]. split; [done|]. exists pt.
  rewrite Hel; [by split_and!| |by eapply Hne]. destruct Hat as (_ & _ & Hpt). by eapply leaf_path.
Qed.

Lemma reclaim_victim_spec T U F a v e :
  swap_ok T U F a v -> tracked T v (key e) ->
  match reclaim_victim e a v with
  | (true, a', v') => exists F', swap_ok T U F' a' v' /\ (forall l j, leaf T l -> content a' v' l j = content a v l j) /\
      forall k, tracked T v k -> k.1.2 <> virt_addr e -> tracked T v' k
  | (false, a', v') => a' = a /\ v' = v
  end.
Proof.
  intros Hok (Hva & Hal & pt & Hat & Hp & Hf). unfold reclaim_victim. pose proof (ok_tables _ _ _ _ _ Hok) as Ht.
  destruct (Z.eqb_spec (pml4 e) 0) as [Hz|_]; cbn [negb]; [by destruct (root_nonzero v T U F _ Ht (proj1 Hat))|].
  pose proof (swap_out_to_pte_spec T U F a v (pml4 e) (virt_addr e) pt Hok Hat) as Hs. cbv zeta in Hs.
  destruct (swap_out_to_pte (pml4 e) (virt_addr e) a v) as [[[x|] a'] v']; [|done].
  destruct Hs as (_ & Hsrc & s & n & Hs & Hfree & -> & Hw). set (l := (pt, pt_idx (virt_addr e))) in *.
  assert (Hl : leaf T l) by (eapply leaf_path; apply Hat).
  destruct (ok_present _ _ _ _ _ Hok l Hl Hp) as (HU & HF & _). rewrite Hf in HU, HF.
  set (v2 := free (phys_addr e) v'). assert (Hw2 : word v2 = word (put l.1 l.2 (entry_new s) (Cow.copy_page (frame (entry v l)) (slot_addr s a) v)))
    by (rewrite <- Hw; by destruct v').
  exists ({[frame (entry v l)]} ∪ F). split; [|split].
  - apply out_ok; try done. rewrite Hf. unfold v2. destruct v'. cbn in *. rewrite Hsrc. apply free_page_law; [apply Ht|done..].
  - intros l' j Hl'. eapply (out_content T U F a v l s n v2); done.
  - intros k Hk Hne. eapply (tracked_other T v _ _ l); [done|intros l' Hl' Hd; by apply (out_others T U F a v l s v2)|].
    intros root va phys pt' -> (_ & _ & Hpt') [= -> Hidx]. destruct Hk as (Hva' & Hal' & _). destruct Hat as (_ & _ & Hpt).
    assert (Hpath : path va = path (virt_addr e)) by congruence. by apply Hne, same_address.
Qed.

Lemma handle_swap_fault_spec T U F a v root va :
  swap_ok T U F a v -> T !! root = Some (root, []) -> user va ->
  match handle_swap_fault root va a v with
  | (Fixed, a', v') => exists pt e p, at_leaf T root va pt /\ from_pte (entry v (pt, pt_idx va)) = Some e /\ p ∈ F /\
      entry v' (pt, pt_idx va) = set_flags SWAP_FLAGS (set_frame p (entry v (pt, pt_idx va))) /\
      swap_ok T U (F ∖ {[p]}) a' v' /\ (forall l j, leaf T l -> content a' v' l j = content a v l j) /\
      forall l, leaf T l -> l <> (pt, pt_idx va) -> entry v' l = entry v l
  | (Oom, a', v') => F = ∅ /\ a' = a /\ word v' = word v /\ swap_ok T U F a v'
  | (SignalSegv, a', v') => a' = a /\ v' = v /\ forall pt, at_leaf T root va pt -> from_pte (entry v (pt, pt_idx va)) = None
  | _ => False
  end.
Proof.
  intros Hok Hr Hu. pose proof (ok_tables _ _ _ _ _ Hok) as Ht. pose proof Ht as (Ho & Ha & Hin). unfold handle_swap_fault.
  destruct (get_pte_value root va v) as [pte|] eqn:E.
  2: { split_and!; [done..|]. intros pt Hat. by rewrite (pte_at T U F v root va pt Ht Hat) in E. }
  destruct (pte_some T U F v root va pte Ht Hr Hu E) as (pt & Hat & ->). set (l := (pt, pt_idx va)) in *.
  assert (Hl : leaf T l) by (eapply leaf_path; apply Hat).
  destruct (from_pte (entry v l)) as [e|] eqn:He.
  2: { split_and!; [done..|]. intros pt' Hat'. rewrite (pte_at T U F v root va pt' Ht Hat') in E. injection E as ->. done. }
  unfold swap_in. rewrite (ok_init _ _ _ _ _ Hok). cbn [negb].
  pose proof (vmm_alloc v T U F Ht) as Hal. destruct (alloc v) as [[p|] v1].
  2: { destruct Hal as (HF & Ht1 & Hw & _). split_and!; [done..|]. destruct Hok as [K1 K2 K3 K4 K5 K6 K7 K8 K9 K10].
       split; try done; unfold entry in *; by rewrite Hw. }
  destruct Hal as (HpF & Ha1 & Hw1 & _ & Hpa & _ & HpT & HpU).
  pose proof (slot_range _ _ _ _ _ _ _ Hok Hl He) as Hse. destruct (ok_out _ _ _ _ _ Hok l e Hl He) as [Hused _].
  assert (Hfs : free_slot (slot_of e) a = given_back (slot_of e) a).
  { unfold free_slot, given_back. rewrite (proj2 (Z.ltb_lt _ _)) by lia. by rewrite bool_decide_true. }
  rewrite Hfs. unfold read_slot. rewrite (ok_init _ _ _ _ _ Hok). set (v2 := Cow.copy_page _ p v1).
  assert (Hw2 : forall q j, word v2 q j = if q =? p then word v (slot_addr (slot_of e) a) j else word v q j).
  { intros q j. unfold v2. cbn. rewrite Hw1. by destruct (q =? p). }
  destruct (CowSpec.tables_words v v2 T U F (F ∖ {[p]}) Ht) as (Ht2 & Hn2 & _); [|by destruct v1|clear; set_solver|].
  { intros q j Hq. rewrite Hw2. destruct (Z.eqb_spec q p) as [->|]; [|done]. rewrite HpT in Hq. by destruct Hq. }
  destruct Hat as (_ & _ & Hpt). destruct (path_tables T (word v2) root va pt (proj1 Ht2) Hr Hpt) as (pdpt & pd & H1 & H2' & _).
  rewrite map_in_table_eq by (done || by eapply root_nonzero).
  destruct (map_writes v2 T root va p SWAP_FLAGS pdpt pd pt (proj1 Ht2) Hr H1 H2' Hpt) as [Hwl Hel].
  pose proof (map_walked v2 v2 T U (F ∖ {[p]}) root va p SWAP_FLAGS pdpt pd pt
    (walk_present v2 T root va pdpt pd pt (proj1 Ht2) Hr H1 H2' Hpt) Ht2 Hr H1 H2' Hpt ltac:(by vm_compute) Hpa) as M.
  assert (Hl2 : forall l', leaf T l' -> entry v2 l' = entry v l').
  { intros l' (r & π & Hr' & _). unfold entry. rewrite Hw2. destruct (Z.eqb_spec l'.1 p) as [E'|]; [|done]. congruence. }
  fold l in Hwl, Hel. rewrite Hl2 in Hwl by done. set (v3 := map_user root va p SWAP_FLAGS v2) in *.
  destruct (leaf_entry SWAP_FLAGS p (entry v l) ltac:(by vm_compute) Hpa) as (Hfr & Hpr & _).
  assert (Hwq : forall q j, T !! q = None -> q ∉ F ∖ {[p]} -> word v3 q j = word v2 q j) by apply (moves_frame _ _ _ _ _ _ _ _ M).
  destruct (in_ok T U F a v l e p v3 Hok Hl He HpF) as [Hok' Hc].
  - apply M.
  - apply M, Hn2, Hok.
  - intros l' Hl' Hd. rewrite Hel, Hl2; done.
  - rewrite Hwl, Hpr. by vm_compute.
  - by rewrite Hwl.
  - intros j. rewrite Hwq by (done || clear; set_solver). by rewrite Hw2, Z.eqb_refl.
  - intros q j HqT HqF. rewrite Hwq by (done || clear -HqF; set_solver). rewrite Hw2. destruct (Z.eqb_spec q p) as [->|]; [done|done].
  - exists pt, e, p. split_and!; try done. intros l' Hl' Hd. rewrite Hel, Hl2; done.
Qed.

(** *** Histories *)
Definition lru_ok T v (u : LruList) : Prop := Forall (tracked T v) (keys u) /\ NoDup (virts (keys u)).
Definition good T U F (s : State) v : Prop := swap_ok T U F (area s) v /\ lru_ok T v (lru s).
Definition same_contents T a v a' v' : Prop := forall l j, leaf T l -> content a' v' l j = content a v l j.

Lemma NoDup_virts l k : l ⊆+ k -> NoDup (virts k) -> NoDup (virts l).
Proof. intros (x & Hk)%submseteq_Permutation. unfold virts. rewrite Hk, fmap_app. by intros (? & _)%NoDup_app. Qed.

Lemma lru_ok_sub T v u u' : keys u' ⊆+ keys u -> lru_ok T v u -> lru_ok T v u'.
Proof.
  intros Hs [H1 H2']. split.
  - rewrite Forall_forall in *. intros k Hk. apply H1. by eapply elem_of_submseteq.
  - by eapply NoDup_virts.
Qed.

Lemma reclaim_loop_spec T U n : forall F s v, good T U F s v ->
  let '(_, s', v') := reclaim_loop n s v in exists F', good T U F' s' v' /\ same_contents T (area s) v (area s') v'.
Proof.
  induction n as [|n IH]; intros F s v Hg; cbn [reclaim_loop]; [by exists F|]. destruct Hg as [Hok Hlru].
  pose proof (get_victim_spec (lru s)) as Hv. destruct (get_victim (lru s)) as [[e|] u]; [|subst u; by exists F].
  destruct Hv as (_ & _ & Hk). destruct Hlru as [Htr Hnd]. unfold virts in Hnd. rewrite Hk in Htr, Hnd. apply Forall_cons in Htr as [Hte Htr].
  rewrite fmap_cons in Hnd. apply NoDup_cons in Hnd as [Hne Hnd]. cbn [set_lru area lru] in *.
  pose proof (reclaim_victim_spec T U F (area s) v e Hok Hte) as Hs. destruct (reclaim_victim e (area s) v) as [[[|] a'] v'].
  - destruct Hs as (F1 & Hok1 & Hc & Hkeep). cbn [set_area area lru].
    assert (Hg1 : good T U F1 (mkState a' u (kswapd_pending s)) v').
    { split; [done|]. split; [|done]. cbn [lru]. rewrite Forall_forall in *. intros k Hin. apply Hkeep; [by apply Htr|].
      intros E. apply Hne. change (key e).1.2 with (virt_addr e). rewrite <- E. by apply (list_elem_of_fmap_2 (fun k => k.1.2)). }
    specialize (IH F1 _ v' Hg1). unfold set_area. cbn [lru kswapd_pending]. destruct (reclaim_loop n _ v') as [[k s'] v2].
    destruct IH as (F2 & Hg2 & Hc2). exists F2. split; [done|]. intros l j Hl. rewrite Hc2 by done. by apply Hc.
  - destruct Hs as [-> ->]. exists F. split; [|done]. split; [done|]. by split.
Qed.

(** What the kernel asks of the pages that are out. *)
Inductive Use :=
  | Touch (root va phys : Z) (d l : bool) | Lock (va : Z) (b : bool) | Reclaim (max : Z) | Fault (root va : Z).

Definition exec (x : Use) (s : State) v : State * Vmm A :=
  match x with
  | Touch root va phys d l => (lru_touch root va phys d l s, v)
  | Lock va b => (set_lru (set_locked va b (lru s)).2 s, v)
  | Reclaim max => let '(_, s, v) := reclaim_pages max s v in (s, v)
  | Fault root va => let '(_, a, v) := handle_swap_fault root va (area s) v in (set_area a s, v)
  end.

(** The page that is touched is there, at the given frame. *)
Definition allowed T v (x : Use) : Prop :=
  match x with
  | Touch root va phys _ _ => tracked T v (root, va, phys)
  | Fault root va => T !! root = Some (root, []) /\ user va
  | _ => True
  end.

Inductive history T : State -> Vmm A -> list Use -> State -> Vmm A -> Prop :=
  | history_nil s v : history T s v [] s v
  | history_cons s v x xs s' v' : allowed T v x -> history T (exec x s v).1 (exec x s v).2 xs s' v' -> history T s v (x :: xs) s' v'.

Lemma touch_good T U F s v root va phys d l : good T U F s v -> tracked T v (root, va, phys) -> good T U F (lru_touch root va phys d l s) v.
Proof.
  intros [Hok Hlru] Htr. split; [done|]. cbn. destruct (add_active_keys root va phys d l (lru s)) as [Hk|[Hn Hk]]; [by eapply lru_ok_sub|].
  destruct Hlru as [H1 H2']. split.
  - rewrite Forall_forall in *. intros k Hin. eapply elem_of_submseteq in Hin; [|exact Hk]. apply elem_of_cons in Hin as [->|Hin]; auto.
  - eapply NoDup_virts; [exact Hk|]. by constructor.
Qed.

Lemma fault_good T U F s v root va : good T U F s v -> T !! root = Some (root, []) -> user va ->
  let '(_, a, v') := handle_swap_fault root va (area s) v in
  exists F', good T U F' (set_area a s) v' /\ same_contents T (area s) v a v'.
Proof.
  intros [Hok Hlru] Hr Hu. pose proof (handle_swap_fault_spec T U F (area s) v root va Hok Hr Hu) as Hs.
  destruct (handle_swap_fault root va (area s) v) as [[r a] v']. destruct r; try done.
  - destruct Hs as (pt & e & p & Hat & He & Hp & Hent & Hok' & Hc & Hel). exists (F ∖ {[p]}). split; [|done]. split; [done|].
    destruct Hlru as [H1 H2']. split; [|done]. cbn [set_area lru]. rewrite Forall_forall in *. intros k Hk.
    apply (tracked_other T v v' k (pt, pt_idx va)); [by apply H1|done|]. intros root' va' phys pt' -> Hat' E.
    destruct (H1 _ Hk) as (_ & _ & pt2 & Hat2 & Hp2 & _). destruct (out_not_present _ _ He) as [Hnp _].
    assert (pt2 = pt') as -> by (eapply (own_inj _ _ (proj1 (ok_tables _ _ _ _ _ Hok))); [apply Hat2|apply Hat']). rewrite E in Hp2. congruence.
  - destruct Hs as (-> & -> & _). exists F. by split.
  - destruct Hs as (-> & -> & Hw & Hok'). exists ∅. split; [split; [done|]|].
    + destruct Hlru as [H1 H2']. split; [|done]. cbn [set_area lru]. rewrite Forall_forall in *. intros k Hk. specialize (H1 k Hk).
      destruct k as [[? ?] ?]. unfold tracked, entry in *. by rewrite Hw.
    + intros l j _. unfold content, entry. by rewrite Hw.
Qed.

Lemma exec_good T U F s v x : good T U F s v -> allowed T v x ->
  exists F', good T U F' (exec x s v).1 (exec x s v).2 /\ same_contents T (area s) v (area (exec x s v).1) (exec x s v).2.
Proof.
  intros Hg Hx. destruct x as [root va phys d l|va b|max|root va]; cbn [exec].
  - exists F. split; [by apply touch_good|done].
  - exists F. split; [|done]. destruct Hg as [Hok Hlru]. split; [done|]. cbn. eapply lru_ok_sub; [|exact Hlru]. by rewrite set_locked_keys.
  - pose proof (reclaim_loop_spec T U (Z.to_nat max) F s v Hg) as Hr. unfold reclaim_pages. by destruct (reclaim_loop _ s v) as [[k s'] v'].
  - destruct Hx as [Hr Hu]. pose proof (fault_good T U F s v root va Hg Hr Hu) as Hf. by destruct (handle_swap_fault root va (area s) v) as [[r a] v'].
Qed.

(** Word [j] of a process's page, in memory or out. *)
Definition page_word root va a v (j : Z) : option Z := pt ← find_pt root va v; content a v (pt, pt_idx va) j.
Definition page_out root va v : Prop := exists pte, get_pte_value root va v = Some pte /\ is_swap_pte pte = true.

End Swapping.

(** *** A process with one page *)
Definition one_page_with (f : Z) : Vmm Pmm.PhysicalMemoryManager :=
  map_page_in_table 258048 0x400000 253952 f (put 253952 5 77 (alloc (create_user_page_table booted).2).2).
Definition swap_area (b : list Z) : SwapArea := mkArea b 0 0x10000000 0x10000000 (SWAP_MAX_SLOTS * PAGE_SIZE) true.
Definition listed (l : list LruEntry) (a : SwapArea) : State :=
  mkState a (mkLists (replicate 256 empty) 0 (l ++ replicate (256 - length l) empty) (Z.of_nat (length l))) false.
Definition page_entry (phys : Z) : LruEntry := mkLru 258048 0x400000 phys false true false.
Definition first_taken : SwapArea := swap_area (SLOT_USED :: replicate 4095 SLOT_FREE).

(** The words of its memory that are not 0: the tables and the page. *)
Definition written : list (Z * Z) := [(4096, 256); (229376, 0); (245760, 0); (249856, 2); (253952, 5); (258048, 0); (258048, 256)].

Lemma one_page_words t i : 0 <= t < 64 -> 0 <= i < 512 -> word (one_page_with 7) (4096 * t) i <> 0 ->
  Exists (fun l => 4096 * t = l.1 /\ i = l.2) written.
Proof.
  intros Ht Hi Hw.
  assert (Hall : forallb (fun t => forallb (fun i => (word (one_page_with 7) (4096 * t) i =? 0) ||
    existsb (fun l => (4096 * t =? l.1) && (i =? l.2)) written) (seqZ 0 512)) (seqZ 0 64) = true) by (vm_compute; reflexivity).
  rewrite forallb_forall in Hall. specialize (Hall t ltac:(apply list_elem_of_In, elem_of_seqZ; lia)).
  rewrite forallb_forall in Hall. specialize (Hall i ltac:(apply list_elem_of_In, elem_of_seqZ; lia)).
  apply orb_true_iff in Hall as [Hz%Z.eqb_eq|Hin%existsb_exists]; [congruence|].
  apply List.Exists_exists. destruct Hin as (l & Hl & [H1%Z.eqb_eq H2%Z.eqb_eq]%andb_true_iff). by exists l.
Qed.

(** What is known of its tables. *)
Record one_page_space (T : gmap Z (Z * list Z)) (U F : gset Z) (v : Vmm Pmm.PhysicalMemoryManager) : Prop := {
  space_tables : tables v T U F;
  space_huge : no_huge T (word v);
  space_root : T !! 258048 = Some (258048, []);
  space_page : 253952 ∈ U /\ 253952 ∉ F /\ T !! 253952 = None;
  space_kernel : T !! 4096 = None;
  space_range q : q ∈ U -> exists t, q = 4096 * t /\ 0 <= t < 64;
}.

Lemma one_page_tables : exists T U F, one_page_space T U F (one_page_with 7).
Proof.
  destruct booted_space as (U & F & v & Hv & Ht & Hn & Hs & Hk). pose proof (vmm_alloc v _ U F Ht) as Hal.
  assert (Ev : v = (create_user_page_table booted).2) by by rewrite Hv.
  assert (Ea : (alloc v).1 = Some 253952) by (rewrite Ev; by vm_compute).
  assert (Ek : kernel_pml4 v = 4096) by (rewrite Ev; by vm_compute). rewrite Ek in Hk.
  destruct (alloc v) as [r v1] eqn:E1. cbn in Ea. subst r. destruct Hal as (HpF & Ha1 & Hw1 & _ & Hpa & _ & HpT & HpU).
  set (v2 := put 253952 5 77 v1). set (T0 := {[258048 := (258048, [])]} : gmap Z (Z * list Z)) in *.
  assert (E2 : map_page_in_table 258048 0x400000 253952 7 v2 = one_page_with 7) by (unfold v2, one_page_with; by rewrite <- Ev, E1).
  destruct (CowSpec.tables_words v v2 T0 U F (F ∖ {[253952]}) Ht) as (Ht2 & Hn2 & _); [|by destruct v1|clear; set_solver|].
  { intros q j [x Hq]. unfold v2. rewrite put_other, Hw1; [done|]. intros [= -> _]. congruence. }
  assert (Hr : T0 !! 258048 = Some (258048, [])) by apply lookup_singleton_eq. clear Hv Ev.
  destruct (calls_all_carried [MapPage 258048 0x400000 253952 7] v2 T0 U (F ∖ {[253952]}) Ht2 (Hn2 Hn)) as (T & F' & M).
  { apply Forall_singleton. split_and!; [done|by vm_compute|by vm_compute|done]. }
  { rewrite size_difference, size_singleton by (clear -HpF; set_solver). cbn [length]. lia. }
  cbn [calls foldl call] in M. rewrite E2 in M. pose proof (moves_pages _ _ _ _ _ _ _ _ M) as Hp. exists T, U, F'. split.
  - exact (moves_tables _ _ _ _ _ _ _ _ M).
  - exact (moves_small _ _ _ _ _ _ _ _ M (Hn2 Hn)).
  - by apply (moves_roots _ _ _ _ _ _ _ _ M).
  - split_and!; [done| |apply eq_None_not_Some]; intros Hx.
    + destruct (proj1 (Hp 253952) (or_intror Hx)) as [[x Hy]|[_ Hd]%elem_of_difference]; [congruence|apply Hd, elem_of_singleton, eq_refl].
    + destruct (proj1 (Hp 253952) (or_introl Hx)) as [[x Hy]|[_ Hd]%elem_of_difference]; [congruence|apply Hd, elem_of_singleton, eq_refl].
  - apply eq_None_not_Some. intros Hx. destruct (proj1 (Hp 4096) (or_introl Hx)) as [[x Hy]|[Hd _]%elem_of_difference]; [|destruct (Hk Hd)].
    unfold T0 in Hy. rewrite lookup_singleton_ne in Hy by lia. discriminate Hy.
  - intros q Hq. destruct (moves_tables _ _ _ _ _ _ _ _ M) as (_ & (F0 & _ & _ & _ & _ & HU) & _). destruct (HU q Hq) as (t & -> & Hlt).
    assert (E64 : Pmm.total_pages (source (one_page_with 7)) = 64) by by vm_compute. rewrite E64 in Hlt. exists t.
    unfold Pmm.page_to_phys, Pmm.RAM_BASE, Pmm.PAGE_SIZE. lia.
Qed.

Lemma one_page_path T U F : one_page_space T U F (one_page_with 7) ->
  T !! 245760 = Some (258048, [0]) /\ T !! 249856 = Some (258048, [0; 0]) /\ T !! 229376 = Some (258048, [0; 0; 2]).
Proof.
  intros S. pose proof (proj1 (space_tables _ _ _ _ S)) as Ho. pose proof (space_root _ _ _ _ S) as Hr.
  assert (S1 : step (word (one_page_with 7) 258048 0) = Table 245760) by (vm_compute; reflexivity).
  assert (S2 : step (word (one_page_with 7) 245760 0) = Table 249856) by (vm_compute; reflexivity).
  assert (S3 : step (word (one_page_with 7) 249856 2) = Table 229376) by (vm_compute; reflexivity).
  assert (T1 : T !! 245760 = Some (258048, [0])) by (eapply (own_link _ _ Ho _ _ []); [exact Hr|cbn; lia|split; lia|exact S1]).
  assert (T2 : T !! 249856 = Some (258048, [0; 0])) by (eapply (own_link _ _ Ho _ _ [0]); [exact T1|cbn; lia|split; [lia|done]|exact S2]).
  split_and!; [exact T1|exact T2|]. eapply (own_link _ _ Ho _ _ [0; 0]); [exact T2|cbn; lia|split; [lia|done]|exact S3].
Qed.

Lemma one_page_leaf T U F l : one_page_space T U F (one_page_with 7) -> leaf T l -> entry (one_page_with 7) l <> 0 -> l = (229376, 0).
Proof.
  intros S. destruct (one_page_path T U F S) as (T1 & T2 & T3). destruct S as [(_ & _ & Hin) _ Hr (_ & _ & Hp) Hk HU].
  destruct l as [q i]. intros (r & π & Hq & Hl & Hi). unfold entry. cbn [fst snd] in *.
  destruct (Hin q) as [HqU _]; [eauto|]. destruct (HU q HqU) as (t & -> & Ht). intros Hz.
  pose proof (one_page_words t i Ht Hi Hz) as Hx. clear Hz. unfold written in Hx. rewrite !Exists_cons, Exists_nil in Hx. cbn [fst snd] in Hx.
  destruct Hx as [[E3 E4]|[[E3 E4]|[[E3 E4]|[[E3 E4]|[[E3 E4]|[[E3 E4]|[[E3 E4]|[]]]]]]]]; rewrite E3 in Hq; [congruence|by rewrite E3, E4|..|congruence| |];
    [rewrite T1 in Hq|rewrite T2 in Hq|rewrite Hr in Hq|rewrite Hr in Hq]; injection Hq as <- <-; done.
Qed.

Lemma one_page_good : exists T U F,
  T !! 258048 = Some (258048, []) /\ good T U F (listed [page_entry 253952] first_taken) (one_page_with 7).
Proof.
  destruct one_page_tables as (T & U & F & S). exists T, U, F. pose proof (fun l => one_page_leaf T U F l S) as Hent.
  destruct (one_page_path T U F S) as (_ & _ & T3). destruct S as [Ht Hn Hr Hp Hk HU]. split; [exact Hr|].
  assert (Hleaf : entry (one_page_with 7) (229376, 0) = 253959) by (vm_compute; reflexivity).
  assert (Hkeys : keys (lru (listed [page_entry 253952] first_taken)) = [(258048, 0x400000, 253952)]) by (vm_compute; reflexivity).
  assert (E0 : pt_idx 0x400000 = 0) by (vm_compute; reflexivity). assert (Ef : frame 253959 = 253952) by (vm_compute; reflexivity).
  revert Ht Hn Hent Hleaf. generalize (one_page_with 7). intros v Ht Hn Hent Hleaf.
  assert (Hpres : forall l, leaf T l -> is_present (entry v l) = true -> l = (229376, 0)).
  { intros l Hl Hpr. apply Hent; [done|]. intros Hz. by rewrite Hz in Hpr. }
  assert (Hout : forall l e, leaf T l -> from_pte (entry v l) = Some e -> False).
  { intros l e Hl He. pose proof He as (_ & _ & _ & Hz)%from_pte_spec. rewrite (Hent l Hl Hz), Hleaf in He. by vm_compute in He. }
  split; [split|split].
  - done.
  - done.
  - done.
  - by vm_compute.
  - done.
  - intros x Hx (t & Ht' & Htt)%HU. unfold slot_addr, first_taken, swap_area, PAGE_SIZE in Ht'. cbn [storage_virt area listed] in Ht'. lia.
  - intros l Hl Hpr. rewrite (Hpres l Hl Hpr), Hleaf, Ef. done.
  - intros l1 l2 Hl1 Hl2 Hp1 Hp2 _. by rewrite (Hpres _ Hl1 Hp1), (Hpres _ Hl2 Hp2).
  - intros l e Hl He. by destruct (Hout l e Hl He).
  - intros l1 l2 e1 e2 Hl1 _ He1. by destruct (Hout l1 e1 Hl1 He1).
  - rewrite Hkeys. apply Forall_singleton. split; [lia|]. split; [done|]. exists 229376.
    split; [split_and!; [done|by vm_compute|exact T3]|]. by rewrite E0, Hleaf, Ef.
  - rewrite Hkeys. apply NoDup_singleton.
Qed.


(** ** Where the code does otherwise *)

(** The entry of slot 0 is that of no page: the first page that goes out is lost. *)
Lemma first_page_out_is_lost :
  let s := listed [page_entry 253952] (swap_area (replicate 4096 SLOT_FREE)) in let v := one_page_with 7 in
  let '(n, s', v') := reclaim_pages 8 s v in
  n = 1 /\ get_pte_value 258048 0x400000 v' = Some 0 /\ (handle_swap_fault 258048 0x400000 (area s') v').1.1 = SignalSegv /\
  Pmm.test_bit (source v') 62 = false.
Proof. by vm_compute. Qed.

(** A page comes back writable, whatever it was. *)
Lemma read_only_page_comes_back_writable :
  let s := listed [page_entry 253952] first_taken in let v := one_page_with (Z.lor 5 PAGE_NX) in
  let '(s1, v1) := exec (Reclaim 8) s v in let '(_, v2) := exec (Fault 258048 0x400000) s1 v1 in
  view 258048 0x400000 v = Some (253952, Z.lor 4 PAGE_NX) /\ view 258048 0x400000 v2 = Some (253952, 6).
Proof. by vm_compute. Qed.

(** The frame that is given back is the one in the list, not the one of the page that
    went out: here the table of the page. *)
Lemma reclaim_frees_stale_frame :
  let s := listed [page_entry 229376] first_taken in let v := one_page_with 7 in
  let '(_, _, v') := reclaim_pages 8 s v in
  Pmm.test_bit (source v') 56 = false /\ Pmm.test_bit (source v') 62 = true.
Proof. by vm_compute. Qed.

(** A page that parent and child share is freed under the child. *)
Lemma reclaim_frees_shared_page :
  let m := Cow.mkMem (one_page_with 7) (Some ∅) 0 in let '(child, m) := Cow.clone_user_page_table_cow 258048 m in
  let '(_, _, v') := reclaim_pages 8 (listed [page_entry 253952] first_taken) (Cow.vmm m) in
  (fun c => view c 0x400000 v') <$> child = Some (Some (253952, 4)) /\ Pmm.test_bit (source v') 62 = false.
Proof. by vm_compute. Qed.

(** A full list gives away the page used last: of two more pages, the second drives out
    the first and the 255 older ones stay. *)
Lemma newest_page_is_demoted :
  let u := foldl (fun u k => add_active 258048 (k * 4096) (k * 4096) false false u) lru_new (seqZ 1 256) in
  let u' := add_active 258048 0x900000 0 false false (add_active 258048 0x800000 0 false false u) in
  virt_addr <$> occ (inactive u') = [4096; 0x800000] /\ is_Some (find_first (at_addr (2 * 4096)) (active u')).
Proof. split; [by vm_compute|]. vm_compute. by eexists. Qed.

(** The lists are keyed by the address alone: the page of another process at the same
    address is not entered. *)
Lemma other_process_is_not_listed :
  let u := add_active 258048 0x400000 0x3000 false false lru_new in
  keys (add_active 229376 0x400000 0x5000 false false u) = keys u /\ is_Some (find_first (at_addr 0x400000) (active u)).
Proof. split; [by vm_compute|]. vm_compute. by eexists. Qed.
End SwapSpec.
