(* ===== verification/PageCache.v ===== *)
(** * The page cache ([framework/mm/pcache.rs], [services/mm/pcache.rs])

    64 buckets of 16 entries; an entry holds a page of a file and counts its
    holders. *)
From S2P Require Import Prelude PageTable.

Module PageCache.
Import PageTable.

Definition PCACHE_HASH_BUCKETS : Z := 64.
Definition PCACHE_BUCKET_CAPACITY : nat := 16.

Record Entry := mkEntry {
  inode_id : Z; page_index : Z; phys : Z; ref_count : Z; dirty : bool; occupied : bool
}.
Definition empty : Entry := mkEntry 0 0 0 0 false false.

Definition with_refs (n : Z) (e : Entry) : Entry := mkEntry (inode_id e) (page_index e) (phys e) n (dirty e) (occupied e).
Definition set_dirty (e : Entry) : Entry := mkEntry (inode_id e) (page_index e) (phys e) (ref_count e) true (occupied e).

Record Bucket := mkBucket { entries : list Entry; count : Z }.
Definition bucket_new : Bucket := mkBucket (replicate PCACHE_BUCKET_CAPACITY empty) 0.

Definition holds (ino idx : Z) (e : Entry) : bool := occupied e && (inode_id e =? ino) && (page_index e =? idx).
Definition find (ino idx : Z) (b : Bucket) : option nat := position (holds ino idx) (entries b).
Definition update (k : nat) (e : Entry) (b : Bucket) : Bucket := mkBucket (<[k := e]> (entries b)) (count b).

Definition lookup (ino idx : Z) (b : Bucket) : option Z :=
  k ← find ino idx b; e ← entries b !! k; Some (phys e).

Definition lookup_and_ref (ino idx : Z) (b : Bucket) : option (Z * Bucket) :=
  k ← find ino idx b; e ← entries b !! k; Some (phys e, update k (with_refs (wrap_u32 (ref_count e + 1)) e) b).

Section Cache.
Context {A : Type} `{PageSource A}.
Implicit Types v : Vmm A.

Definition zero_phys_page (p : Z) v : Vmm A := fill p (fun _ => 0) v.

(** Byte [k] of a page; a page is read as 512 little-endian words. *)
Definition byte_of (w k : Z) : Z := Z.land (Z.shiftr w (8 * k)) 255.
Definition page_byte (p k : Z) v : Z := byte_of (word v p (k / 8)) (k mod 8).
Definition word_of (f : Z -> Z) : Z := foldr (fun k w => Z.lor (Z.land (f k) 255) (Z.shiftl w 8)) 0 (seqZ 0 8).

Definition copy_to_phys_page (p : Z) (src : list Z) v : Vmm A :=
  let n := Z.min (Z.of_nat (length src)) PAGE_SIZE in
  fill p (fun i => word_of (fun k => if 8 * i + k <? n then nth (Z.to_nat (8 * i + k)) src 0 else byte_of (word v p i) k)) v.

(** ** One bucket *)
Definition insert (ino idx : Z) (b : Bucket) v : option Z * Bucket * Vmm A :=
  if Z.of_nat PCACHE_BUCKET_CAPACITY <=? count b then (None, b, v) else
  match lookup_and_ref ino idx b with
  | Some (p, b) => (Some p, b, v)
  | None =>
    match alloc v with
    | (None, v) => (None, b, v)
    | (Some p, v) =>
      let v := zero_phys_page p v in
      match position (fun e => negb (occupied e)) (entries b) with
      | Some k => (Some p, mkBucket (<[k := mkEntry ino idx p 1 false true]> (entries b)) (count b + 1), v)
      | None => (None, b, free p v)
      end
    end
  end.

Definition mark_dirty (ino idx : Z) (b : Bucket) : Bucket :=
  match find ino idx b with
  | None => b
  | Some k => match entries b !! k with None => b | Some e => update k (set_dirty e) b end
  end.

Definition deref (ino idx : Z) (b : Bucket) v : Bucket * Vmm A :=
  match find ino idx b with
  | None => (b, v)
  | Some k =>
    match entries b !! k with
    | None => (b, v)
    | Some e =>
      let n := if 0 <? ref_count e then ref_count e - 1 else ref_count e in
      if n =? 0 then (mkBucket (<[k := empty]> (entries b)) (count b - 1), free (phys e) v)
      else (update k (with_refs n e) b, v)
    end
  end.

Fixpoint invalidate_loop (ino : Z) (l : list Entry) (n : Z) v : list Entry * Z * Vmm A :=
  match l with
  | [] => ([], n, v)
  | e :: l =>
    let '(e, n, v) := if occupied e && (inode_id e =? ino) then (empty, n - 1, free (phys e) v) else (e, n, v) in
    let '(l, n, v) := invalidate_loop ino l n v in (e :: l, n, v)
  end.

Definition invalidate_bucket (ino : Z) (b : Bucket) v : Bucket * Vmm A :=
  let '(l, n, v) := invalidate_loop ino (entries b) (count b) v in (mkBucket l n, v).

Definition fill_bucket (ino idx : Z) (src : list Z) (b : Bucket) v : bool * Vmm A :=
  match lookup ino idx b with
  | Some p => (true, copy_to_phys_page p src v)
  | None => (false, v)
  end.

(** ** The cache *)
Definition cache_new : list Bucket := replicate (Z.to_nat PCACHE_HASH_BUCKETS) bucket_new.

Definition pcache_hash (ino idx : Z) : Z :=
  Z.land (wrap_u64 (wrap_u64 (ino * 0x9E3779B97F4A7C15) + wrap_u64 (idx * 0x517CC1B727220A95))) (PCACHE_HASH_BUCKETS - 1).

Definition slot (ino idx : Z) : nat := Z.to_nat (pcache_hash ino idx).
Definition bucket (ino idx : Z) (c : list Bucket) : Bucket := nth (slot ino idx) c bucket_new.
Definition set_bucket (ino idx : Z) (b : Bucket) (c : list Bucket) : list Bucket := <[slot ino idx := b]> c.

Definition pcache_get (ino idx : Z) (c : list Bucket) v : option Z * list Bucket * Vmm A :=
  let '(r, b, v) := insert ino idx (bucket ino idx c) v in (r, set_bucket ino idx b c, v).
Definition pcache_lookup (ino idx : Z) (c : list Bucket) : option Z := lookup ino idx (bucket ino idx c).
Definition pcache_mark_dirty (ino idx : Z) (c : list Bucket) : list Bucket := set_bucket ino idx (mark_dirty ino idx (bucket ino idx c)) c.
Definition pcache_put (ino idx : Z) (c : list Bucket) v : list Bucket * Vmm A :=
  let '(b, v) := deref ino idx (bucket ino idx c) v in (set_bucket ino idx b c, v).

Fixpoint invalidate_buckets (ino : Z) (c : list Bucket) v : list Bucket * Vmm A :=
  match c with
  | [] => ([], v)
  | b :: c => let '(b, v) := invalidate_bucket ino b v in let '(c, v) := invalidate_buckets ino c v in (b :: c, v)
  end.
Definition pcache_invalidate_inode (ino : Z) (c : list Bucket) v : list Bucket * Vmm A := invalidate_buckets ino c v.

Definition pcache_fill (ino idx : Z) (src : list Z) (c : list Bucket) v : bool * Vmm A := fill_bucket ino idx src (bucket ino idx c) v.

(** The bytes of a cached page, as many as asked for. *)
Definition pcache_read_to_slice (ino idx n : Z) (c : list Bucket) v : option (list Z) :=
  p ← pcache_lookup ino idx c; Some ((fun k => page_byte p k v) <$> seqZ 0 (Z.min n PAGE_SIZE)).

(** ** The safe interface ([services]): inode 0 is none *)
Definition safe_get (ino idx : Z) (c : list Bucket) v : option Z * list Bucket * Vmm A :=
  if ino =? 0 then (None, c, v) else pcache_get ino idx c v.
Definition safe_lookup (ino idx : Z) (c : list Bucket) : option Z := if ino =? 0 then None else pcache_lookup ino idx c.
Definition safe_mark_dirty (ino idx : Z) (c : list Bucket) : list Bucket := if ino =? 0 then c else pcache_mark_dirty ino idx c.
Definition safe_put (ino idx : Z) (c : list Bucket) v : list Bucket * Vmm A := if ino =? 0 then (c, v) else pcache_put ino idx c v.
Definition safe_invalidate_inode (ino : Z) (c : list Bucket) v : list Bucket * Vmm A :=
  if ino =? 0 then (c, v) else pcache_invalidate_inode ino c v.
End Cache.
End PageCache.
