(* ===== verification/PageCacheSpec.v ===== *)
(** * The page cache as a map from pages of files to their bytes

    [PageCacheFacts]: the buckets are a finite map from pages of files to frames
    of their own, and what each operation does to it.  [PageCacheMap]: the map
    with the bytes, and that the cache implements it. *)
From S2P Require Import Prelude Pmm PageTable PageTableSpec PageCache.

Module PageCacheFacts.
Import PageTable PageTableSpec PageCache.

(** ** Bytes of a word *)
Lemma word_byte_low a w : byte_of (Z.lor (Z.land a 255) (Z.shiftl w 8)) 0 = Z.land a 255.
Proof.
  unfold byte_of. rewrite Z.mul_0_r, Z.shiftr_0_r. change 255 with (Z.ones 8). apply Z.bits_inj'. intros n Hn.
  rewrite !Z.land_spec, Z.lor_spec, Z.land_spec, Z.shiftl_spec by done. rewrite Z.testbit_ones by lia.
  split_bool; [|by rewrite ?andb_false_r..]. rewrite (Z.testbit_neg_r w) by lia. by rewrite !andb_true_r, orb_false_r.
Qed.

Lemma word_byte_next a w k : 0 <= k -> byte_of (Z.lor (Z.land a 255) (Z.shiftl w 8)) (k + 1) = byte_of w k.
Proof.
  intros Hk. unfold byte_of. f_equal. apply Z.bits_inj'. intros n Hn. rewrite !Z.shiftr_spec by done.
  rewrite Z.lor_spec, Z.land_spec, Z.shiftl_spec by lia. change 255 with (Z.ones 8). rewrite Z.testbit_ones by lia.
  split_bool; try lia. rewrite andb_false_r. cbn. f_equal. lia.
Qed.

Lemma byte_of_word f k : 0 <= k < 8 -> byte_of (word_of f) k = Z.land (f k) 255.
Proof.
  intros Hk. unfold word_of. change (seqZ 0 8) with [0; 1; 2; 3; 4; 5; 6; 7]. cbn [foldr].
  assert (k = 0 \/ k = 1 \/ k = 2 \/ k = 3 \/ k = 4 \/ k = 5 \/ k = 6 \/ k = 7) as Hc by lia.
  destruct Hc as [->|[->|[->|[->|[->|[->|[->| ->]]]]]]].
  - apply word_byte_low.
  - rewrite (word_byte_next _ _ 0) by lia. apply word_byte_low.
  - rewrite (word_byte_next _ _ 1), (word_byte_next _ _ 0) by lia. apply word_byte_low.
  - rewrite (word_byte_next _ _ 2), (word_byte_next _ _ 1), (word_byte_next _ _ 0) by lia. apply word_byte_low.
  - rewrite (word_byte_next _ _ 3), (word_byte_next _ _ 2), (word_byte_next _ _ 1), (word_byte_next _ _ 0) by lia. apply word_byte_low.
  - rewrite (word_byte_next _ _ 4), (word_byte_next _ _ 3), (word_byte_next _ _ 2), (word_byte_next _ _ 1), (word_byte_next _ _ 0) by lia. apply word_byte_low.
  - rewrite (word_byte_next _ _ 5), (word_byte_next _ _ 4), (word_byte_next _ _ 3), (word_byte_next _ _ 2), (word_byte_next _ _ 1), (word_byte_next _ _ 0) by lia. apply word_byte_low.
  - rewrite (word_byte_next _ _ 6), (word_byte_next _ _ 5), (word_byte_next _ _ 4), (word_byte_next _ _ 3), (word_byte_next _ _ 2), (word_byte_next _ _ 1), (word_byte_next _ _ 0) by lia. apply word_byte_low.
Qed.

(** ** One bucket *)
Definition entry_of (ino idx : Z) (b : Bucket) : option Entry := k ← find ino idx b; entries b !! k.

Definition bucket_ok (h : nat) (b : Bucket) : Prop :=
  length (entries b) = PCACHE_BUCKET_CAPACITY /\ count b = Z.of_nat (count_if occupied (entries b)) /\
  (forall i e, entries b !! i = Some e -> occupied e = true -> slot (inode_id e) (page_index e) = h) /\
  (forall i j e e', entries b !! i = Some e -> entries b !! j = Some e' -> occupied e = true -> occupied e' = true ->
     inode_id e = inode_id e' -> page_index e = page_index e' -> i = j).

Lemma holds_spec ino idx e : holds ino idx e = true <-> occupied e = true /\ inode_id e = ino /\ page_index e = idx.
Proof. unfold holds. rewrite !andb_true_iff, !Z.eqb_eq. tauto. Qed.

Lemma find_spec h b ino idx i : bucket_ok h b ->
  find ino idx b = Some i <-> exists e, entries b !! i = Some e /\ holds ino idx e = true.
Proof.
  intros (_ & _ & _ & Hu). split.
  - intros (e & He & Hh & _)%position_Some. by exists e.
  - intros (e & He & Hh). unfold find. destruct (position (holds ino idx) (entries b)) as [j|] eqn:E.
    + apply position_Some in E as (e' & He' & Hh' & _). apply holds_spec in Hh as (? & ? & ?), Hh' as (? & ? & ?).
      f_equal. eapply Hu; eauto; congruence.
    + exfalso. rewrite position_None in E. by rewrite (E e) in Hh by (by eapply list_elem_of_lookup_2).
Qed.

Lemma entry_of_spec h b ino idx e : bucket_ok h b ->
  entry_of ino idx b = Some e <-> exists i, entries b !! i = Some e /\ holds ino idx e = true.
Proof.
  intros Hb. unfold entry_of. split.
  - intros (i & Hi & He)%bind_Some. apply (find_spec h) in Hi as (e' & He' & Hh); [|done].
    rewrite He in He'. injection He' as <-. by exists i.
  - intros (i & He & Hh). assert (Hi : find ino idx b = Some i) by (apply (find_spec h); eauto). by rewrite Hi.
Qed.

Lemma lookup_entry ino idx b : lookup ino idx b = phys <$> entry_of ino idx b.
Proof. unfold lookup, entry_of. destruct (find ino idx b) as [k|]; [|done]. cbn. by destruct (entries b !! k). Qed.

(** One place of a bucket rewritten. *)
Lemma bucket_put h b i e0 e n :
  bucket_ok h b -> entries b !! i = Some e0 ->
  (occupied e = true -> slot (inode_id e) (page_index e) = h /\
     forall j e', entries b !! j = Some e' -> holds (inode_id e) (page_index e) e' = true -> j = i) ->
  n + Z.b2z (occupied e0) = count b + Z.b2z (occupied e) ->
  let b' := mkBucket (<[i := e]> (entries b)) n in
  bucket_ok h b' /\
  forall ino idx, entry_of ino idx b' = if holds ino idx e then Some e else if holds ino idx e0 then None else entry_of ino idx b.
Proof.
  intros Hb He0 He Hn b'. pose proof Hb as (Hl & Hc & Hs & Hu). pose proof (lookup_lt_Some _ _ _ He0) as Hi.
  assert (Hat : forall j x, entries b' !! j = Some x <-> j = i /\ x = e \/ j <> i /\ entries b !! j = Some x).
  { intros j x. cbn. destruct (decide (j = i)) as [->|Hne].
    - rewrite list_lookup_insert_eq by done. naive_solver.
    - rewrite list_lookup_insert_ne by done. naive_solver. }
  assert (Hb' : bucket_ok h b').
  { split_and!.
    - cbn. by rewrite length_insert.
    - unfold b'. cbn [entries count]. pose proof (count_if_insert occupied (entries b) i e0 e He0) as Hci.
      destruct (occupied e), (occupied e0); cbn [Nat.b2n Z.b2z] in *; lia.
    - intros j x [[-> ->]|[_ Hx]]%Hat Ho; [by apply He|by eapply Hs].
    - intros j k x y [[-> ->]|[Hj Hx]]%Hat [[-> ->]|[Hk Hy]]%Hat Hox Hoy H1 H2'; [done| | |by eapply Hu].
      + symmetry. destruct (He Hox) as [_ Hun]. eapply Hun; [exact Hy|]. by apply holds_spec.
      + destruct (He Hoy) as [_ Hun]. eapply Hun; [exact Hx|]. by apply holds_spec. }
  split; [done|]. intros ino idx. destruct (holds ino idx e) eqn:E.
  - apply (entry_of_spec h); [done|]. exists i. split; [apply Hat; by left|done].
  - apply option_eq. intros x. rewrite (entry_of_spec h) by done. destruct (holds ino idx e0) eqn:E0.
    + split; [|done]. intros (j & [[-> ->]|[Hj Hx]]%Hat & Hh); [congruence|]. exfalso. apply Hj.
      apply holds_spec in Hh as (? & ? & ?), E0 as (? & ? & ?). eapply Hu; eauto; congruence.
    + rewrite (entry_of_spec h) by done. split.
      * intros (j & [[-> ->]|[Hj Hx]]%Hat & Hh); [congruence|eauto].
      * intros (j & Hx & Hh). exists j. split; [|done]. apply Hat. right. split; [|done]. intros ->. congruence.
Qed.
Lemma bucket_change h b ino idx k e e' :
  bucket_ok h b -> find ino idx b = Some k -> entries b !! k = Some e -> inode_id e' = inode_id e -> page_index e' = page_index e ->
  occupied e' = true ->
  bucket_ok h (update k e' b) /\ entry_of ino idx (update k e' b) = Some e' /\
  forall ino' idx', (ino', idx') <> (ino, idx) -> entry_of ino' idx' (update k e' b) = entry_of ino' idx' b.
Proof.
  intros Hb Hk He Hi Hp Ho. pose proof Hb as (_ & _ & Hs & Hu). apply (find_spec h) in Hk as (x & Hx & Hh); [|done].
  rewrite He in Hx. injection Hx as <-. apply holds_spec in Hh as (Hoe & <- & <-).
  destruct (bucket_put h b k e e' (count b) Hb He) as [Hb' Hget].
  - intros _. rewrite Hi, Hp. split; [by eapply Hs|]. intros j y Hy (Hoy & ? & ?)%holds_spec. eapply Hu; eauto; congruence.
  - by rewrite Ho, Hoe.
  - split; [done|]. split.
    + unfold update. rewrite Hget. by rewrite (proj2 (holds_spec _ _ e')) by done.
    + intros ino' idx' Hne. unfold update. rewrite Hget.
      assert (Hf : forall x, inode_id x = inode_id e -> page_index x = page_index e -> holds ino' idx' x = false).
      { intros x H1 H2. destruct (holds ino' idx' x) eqn:E; [|done]. apply holds_spec in E as (_ & <- & <-). congruence. }
      by rewrite !Hf.
Qed.

Lemma bucket_remove h b ino idx k e :
  bucket_ok h b -> find ino idx b = Some k -> entries b !! k = Some e ->
  let b' := mkBucket (<[k := empty]> (entries b)) (count b - 1) in
  bucket_ok h b' /\ entry_of ino idx b' = None /\
  forall ino' idx', (ino', idx') <> (ino, idx) -> entry_of ino' idx' b' = entry_of ino' idx' b.
Proof.
  intros Hb Hk He b'. pose proof Hb as (_ & _ & Hs & Hu). apply (find_spec h) in Hk as (x & Hx & Hh); [|done].
  rewrite He in Hx. injection Hx as <-. pose proof Hh as (Hoe & Hi & Hp)%holds_spec.
  destruct (bucket_put h b k e empty (count b - 1) Hb He) as [Hb' Hget]; [done|rewrite Hoe; cbn; lia|].
  split; [done|]. split; [unfold b'; rewrite Hget; by rewrite Hh|]. intros ino' idx' Hne. unfold b'. rewrite Hget.
  destruct (holds ino' idx' e) eqn:E; [|done]. apply holds_spec in E as (_ & <- & <-). congruence.
Qed.

Lemma bucket_add b ino idx k e0 e :
  let h := slot ino idx in
  bucket_ok h b -> entry_of ino idx b = None -> entries b !! k = Some e0 -> occupied e0 = false -> holds ino idx e = true ->
  let b' := mkBucket (<[k := e]> (entries b)) (count b + 1) in
  bucket_ok h b' /\ entry_of ino idx b' = Some e /\
  forall ino' idx', (ino', idx') <> (ino, idx) -> entry_of ino' idx' b' = entry_of ino' idx' b.
Proof.
  intros h Hb Hno He Ho0 Hh b'. pose proof Hh as (Hoe & Hi & Hp)%holds_spec.
  destruct (bucket_put h b k e0 e (count b + 1) Hb He) as [Hb' Hget].
  - intros _. rewrite Hi, Hp. split; [done|]. intros j y Hy Hhy. exfalso.
    assert (Hs : entry_of ino idx b = Some y) by (apply (entry_of_spec h); eauto). congruence.
  - rewrite Ho0, Hoe. cbn. lia.
  - split; [done|]. split; [unfold b'; rewrite Hget; by rewrite Hh|]. intros ino' idx' Hne. unfold b'. rewrite Hget.
    destruct (holds ino' idx' e) eqn:E; [apply holds_spec in E as (_ & <- & <-); congruence|].
    destruct (holds ino' idx' e0) eqn:E0; [apply holds_spec in E0 as (? & _); congruence|done].
Qed.

(** ** The cache *)
Definition wf (c : list Bucket) : Prop :=
  length c = Z.to_nat PCACHE_HASH_BUCKETS /\ forall h b, c !! h = Some b -> bucket_ok h b.
Definition cached (c : list Bucket) (ino idx : Z) : option Entry := entry_of ino idx (bucket ino idx c).

Lemma slot_lt ino idx : (slot ino idx < Z.to_nat PCACHE_HASH_BUCKETS)%nat.
Proof.
  unfold slot, pcache_hash, PCACHE_HASH_BUCKETS. change (64 - 1) with (Z.ones 6). rewrite Z.land_ones by lia.
  pose proof (Z.mod_pos_bound (wrap_u64 (wrap_u64 (ino * 0x9E3779B97F4A7C15) + wrap_u64 (idx * 0x517CC1B727220A95))) (2 ^ 6)). lia.
Qed.

Lemma bucket_at c ino idx : wf c -> c !! slot ino idx = Some (bucket ino idx c).
Proof.
  intros [Hl _]. unfold bucket. pose proof (slot_lt ino idx). destruct (c !! slot ino idx) as [b|] eqn:E.
  - by rewrite (nth_lookup_Some _ _ bucket_new b E).
  - apply lookup_ge_None in E. lia.
Qed.

Lemma bucket_is_ok c ino idx : wf c -> bucket_ok (slot ino idx) (bucket ino idx c).
Proof. intros Hc. by apply Hc, bucket_at. Qed.

Lemma set_bucket_spec c ino idx b :
  wf c -> bucket_ok (slot ino idx) b ->
  (forall ino' idx', (ino', idx') <> (ino, idx) -> entry_of ino' idx' b = entry_of ino' idx' (bucket ino idx c)) ->
  wf (set_bucket ino idx b c) /\ cached (set_bucket ino idx b c) ino idx = entry_of ino idx b /\
  forall ino' idx', (ino', idx') <> (ino, idx) -> cached (set_bucket ino idx b c) ino' idx' = cached c ino' idx'.
Proof.
  intros Hc Hb Hother. pose proof Hc as [Hl Hok]. pose proof (slot_lt ino idx) as Hs.
  assert (Hwf : wf (set_bucket ino idx b c)).
  { split; [unfold set_bucket; by rewrite length_insert|]. intros h b' [(<- & <- & _)|[_ Hb']]%list_lookup_insert_Some; [done|by apply Hok]. }
  assert (Hbk : forall ino' idx', bucket ino' idx' (set_bucket ino idx b c) = if decide (slot ino' idx' = slot ino idx) then b else bucket ino' idx' c).
  { intros ino' idx'. pose proof (bucket_at _ ino' idx' Hwf) as H1. unfold set_bucket in H1 at 1. destruct (decide _) as [He|Hne].
    - rewrite He, list_lookup_insert_eq in H1 by lia. congruence.
    - rewrite list_lookup_insert_ne, bucket_at in H1 by done. congruence. }
  split; [done|]. unfold cached. split; [by rewrite Hbk, decide_True|]. intros ino' idx' Hne. rewrite Hbk.
  destruct (decide _) as [He|]; [|done]. rewrite Hother by done. unfold bucket. by rewrite He.
Qed.
(** ** Frames of their own *)
Section Caching.
Context {A : Type} `{PageSourceLaws A}.
Implicit Types (v : Vmm A) (f : Z -> Z -> option Entry).

Definition frames (f : Z -> Z -> option Entry) (U F : gset Z) : Prop :=
  (forall ino idx e, f ino idx = Some e -> phys e ∈ U /\ phys e ∉ F) /\
  (forall ino idx ino' idx' e e', f ino idx = Some e -> f ino' idx' = Some e' -> phys e = phys e' -> ino = ino' /\ idx = idx').

Definition caching (c : list Bucket) v (U F : gset Z) : Prop := wf c /\ available (source v) U F /\ frames (cached c) U F.

(** [f'] is [f] with [x] at one page. *)
Definition becomes f f' (ino idx : Z) (x : option Entry) : Prop :=
  f' ino idx = x /\ forall ino' idx', (ino', idx') <> (ino, idx) -> f' ino' idx' = f ino' idx'.

Lemma becomes_cases f f' ino idx x ino' idx' e :
  becomes f f' ino idx x -> f' ino' idx' = Some e -> (ino' = ino /\ idx' = idx /\ x = Some e) \/ f ino' idx' = Some e.
Proof.
  intros [Hx Ho] He. destruct (decide ((ino', idx') = (ino, idx))) as [[= -> ->]|Hne]; [left; by rewrite <- Hx|right; by rewrite <- Ho].
Qed.

Lemma frames_same f f' U F ino idx e e' :
  frames f U F -> f ino idx = Some e -> phys e' = phys e -> becomes f f' ino idx (Some e') -> frames f' U F.
Proof.
  intros [H1 H2] He Hp Hb.
  assert (Hold : forall i x y, f' i x = Some y -> exists z, f i x = Some z /\ phys z = phys y).
  { intros i x y Hy. destruct (becomes_cases _ _ _ _ _ _ _ _ Hb Hy) as [(-> & -> & [= ->])|]; eauto. }
  split.
  - intros i x y (z & Hz & <-)%Hold. by eapply H1.
  - intros i x i' x' y y' (z & Hz & <-)%Hold (z' & Hz' & <-)%Hold Heq. by eapply H2.
Qed.

Lemma frames_less f f' U F p :
  frames f U F -> (forall i x e, f' i x = Some e -> f i x = Some e /\ phys e <> p) -> frames f' U ({[p]} ∪ F).
Proof.
  intros [H1 H2] Hf. split.
  - intros i x e (He & Hp)%Hf. apply H1 in He. set_solver.
  - intros i x i' x' e e' (He & _)%Hf (He' & _)%Hf. by eapply H2.
Qed.

Lemma frames_new f f' U F ino idx e :
  frames f U F -> phys e ∈ F -> F ⊆ U -> becomes f f' ino idx (Some e) -> frames f' U (F ∖ {[phys e]}).
Proof.
  intros [H1 H2] Hp Hsub Hb. split.
  - intros i x y Hy. destruct (becomes_cases _ _ _ _ _ _ _ _ Hb Hy) as [(-> & -> & [= <-])|Hy']; [set_solver|apply H1 in Hy'; set_solver].
  - intros i x i' x' y y' Hy Hy' Heq.
    destruct (becomes_cases _ _ _ _ _ _ _ _ Hb Hy) as [(-> & -> & [= <-])|Hz], (becomes_cases _ _ _ _ _ _ _ _ Hb Hy') as [(-> & -> & [= <-])|Hz'].
    + done.
    + apply H1 in Hz' as [_ Hz']. rewrite <- Heq in Hz'. done.
    + apply H1 in Hz as [_ Hz]. rewrite Heq in Hz. done.
    + by eapply H2.
Qed.

(** Sixteen other pages share its bucket. *)
Definition full f (ino idx : Z) : Prop := exists l : list (Z * Z), NoDup l /\ length l = PCACHE_BUCKET_CAPACITY /\
  forall k, k ∈ l -> slot k.1 k.2 = slot ino idx /\ is_Some (f k.1 k.2).

Lemma bucket_full c ino idx :
  wf c -> Z.of_nat PCACHE_BUCKET_CAPACITY <= count (bucket ino idx c) -> full (cached c) ino idx.
Proof.
  intros Hc Hn. pose proof (bucket_is_ok c ino idx Hc) as Hb. pose proof Hb as (Hl & Hcount & Hs & Hu).
  set (b := bucket ino idx c) in *.
  assert (Hall : forall i e, entries b !! i = Some e -> occupied e = true).
  { intros i e He. destruct (occupied e) eqn:Ho; [done|]. exfalso.
    pose proof (count_if_insert occupied (entries b) i e empty He) as Hci. rewrite Ho in Hci. cbn [Nat.b2n empty occupied] in Hci.
    pose proof (count_if_insert occupied (entries b) i e (mkEntry 0 0 0 0 false true) He) as Hci'. rewrite Ho in Hci'. cbn [Nat.b2n occupied] in Hci'.
    pose proof (count_if_le occupied (<[i := mkEntry 0 0 0 0 false true]> (entries b))) as Hle. rewrite length_insert in Hle. lia. }
  exists ((fun e => (inode_id e, page_index e)) <$> entries b). split_and!.
  - apply NoDup_alt. intros i j k Hi Hj. apply list_lookup_fmap_Some in Hi as (e & -> & Hi), Hj as (e' & [= ? ?] & Hj).
    eapply Hu; eauto.
  - by rewrite length_fmap.
  - intros k (e & -> & (i & He)%list_elem_of_lookup)%list_elem_of_fmap. cbn.
    assert (Hslot : slot (inode_id e) (page_index e) = slot ino idx) by (by eapply Hs; eauto). split; [done|].
    exists e. unfold cached. assert (Hbk : bucket (inode_id e) (page_index e) c = b) by (unfold bucket, b; by rewrite Hslot).
    rewrite Hbk. apply (entry_of_spec (slot ino idx)); [done|]. exists i. split; [done|]. apply holds_spec. eauto.
Qed.

(** ** What each operation does *)
Lemma room h b : bucket_ok h b -> count b < Z.of_nat PCACHE_BUCKET_CAPACITY ->
  exists k e, position (fun e => negb (occupied e)) (entries b) = Some k /\ entries b !! k = Some e /\ occupied e = false.
Proof.
  intros (Hl & Hc & _) Hlt. destruct (position _ (entries b)) as [k|] eqn:E.
  - pose proof E as (e & He & Ho & _)%position_Some. exists k, e. split_and!; [done..|]. by destruct (occupied e).
  - exfalso. rewrite position_None in E. enough (count_if occupied (entries b) = length (entries b)) by lia.
    unfold count_if. f_equal. apply List.forallb_filter_id, List.forallb_forall. intros e He%list_elem_of_In. specialize (E e He). by destruct (occupied e).
Qed.

Lemma unfound ino idx b : entry_of ino idx b = None -> find ino idx b = None.
Proof.
  unfold entry_of. destruct (find ino idx b) as [k|] eqn:E; [|done]. cbn. intros Hn.
  apply position_Some in E as (e & He & _). congruence.
Qed.

Lemma found h ino idx b e : bucket_ok h b -> entry_of ino idx b = Some e ->
  exists k, find ino idx b = Some k /\ entries b !! k = Some e /\ occupied e = true.
Proof.
  intros Hb He. unfold entry_of in He. apply bind_Some in He as (k & Hk & He). exists k. split_and!; [done..|].
  apply (find_spec h) in Hk as (e' & He' & Hh); [|done]. rewrite He in He'. injection He' as <-. by apply holds_spec in Hh as (? & _).
Qed.

Lemma set_bucket_same c ino idx : wf c -> set_bucket ino idx (bucket ino idx c) c = c.
Proof. intros Hc. apply list_insert_id. by apply bucket_at. Qed.

Definition zeroed (p : Z) (w : Z -> Z -> Z) : Z -> Z -> Z := fun q => if q =? p then fun _ => 0 else w q.

Lemma get_spec c v U F ino idx :
  caching c v U F ->
  let '(r, c', v') := pcache_get ino idx c v in
  (exists p, cached c ino idx = None /\ r = Some p /\ p ∈ F /\ caching c' v' U (F ∖ {[p]}) /\
     becomes (cached c) (cached c') ino idx (Some (mkEntry ino idx p 1 false true)) /\ word v' = zeroed p (word v)) \/
  (exists e, cached c ino idx = Some e /\ r = Some (phys e) /\ caching c' v' U F /\
     becomes (cached c) (cached c') ino idx (Some (with_refs (wrap_u32 (ref_count e + 1)) e)) /\ v' = v) \/
  (r = None /\ c' = c /\ caching c v' U F /\ word v' = word v /\
     (full (cached c) ino idx \/ cached c ino idx = None /\ F = ∅)).
Proof.
  intros (Hc & Ha & Hf). pose proof (bucket_is_ok c ino idx Hc) as Hb. unfold pcache_get, insert.
  destruct (Z.leb_spec (Z.of_nat PCACHE_BUCKET_CAPACITY) (count (bucket ino idx c))) as [Hn|Hn].
  { right; right. rewrite set_bucket_same by done. split_and!; [done..| |left; by apply bucket_full]. by split. }
  unfold lookup_and_ref. destruct (entry_of ino idx (bucket ino idx c)) as [e|] eqn:E.
  - destruct (found _ _ _ _ _ Hb E) as (k & Hk & He & Ho). rewrite Hk. cbn. rewrite He. cbn.
    right; left. exists e. set (e' := with_refs _ e).
    destruct (bucket_change _ _ ino idx k e e' Hb Hk He) as (Hb' & Hs & Hr); [done..|].
    destruct (set_bucket_spec c ino idx _ Hc Hb' Hr) as (Hc' & Hs' & Hr'). rewrite Hs in Hs'.
    assert (Hbec : becomes (cached c) (cached (set_bucket ino idx (update k e' (bucket ino idx c)) c)) ino idx (Some e')) by by split.
    split_and!; [done..| |done|done]. split_and!; [done..|]. by eapply (frames_same _ _ U F ino idx e e').
  - rewrite (unfound _ _ _ E). cbn. pose proof (alloc_page_law _ _ _ Ha) as Hal. unfold alloc.
    destruct (alloc_page (source v)) as [[p|] s]; destruct Hal as [HF Hs].
    + destruct (room _ _ Hb Hn) as (k & e0 & Hk & He0 & Ho). rewrite Hk. left. exists p.
      set (e := mkEntry ino idx p 1 false true). assert (Hh : holds ino idx e = true) by by apply holds_spec.
      destruct (bucket_add _ ino idx k e0 e Hb E He0 Ho Hh) as (Hb' & Hs1 & Hr).
      destruct (set_bucket_spec c ino idx _ Hc Hb' Hr) as (Hc' & Hs' & Hr'). rewrite Hs1 in Hs'.
      assert (Hbec : becomes (cached c) (cached (set_bucket ino idx (mkBucket (<[k:=e]> (entries (bucket ino idx c))) (count (bucket ino idx c) + 1)) c)) ino idx (Some e)) by by split.
      split_and!; [done..| |done|by destruct v]. split_and!; [done|by destruct v|]. change p with (phys e).
      eapply frames_new; [done|done|by apply (available_pages _ _ _ Ha)|done].
    + right; right. rewrite set_bucket_same by done. split_and!; [done..| |by destruct v|by right]. split_and!; by destruct v.
Qed.

(** *** Removal *)
Lemma entry_remove_spec c v U F h k b e :
  caching c v U F -> c !! h = Some b -> entries b !! k = Some e -> occupied e = true ->
  let c' := <[h := mkBucket (<[k := empty]> (entries b)) (count b - 1)]> c in
  caching c' (free (phys e) v) U ({[phys e]} ∪ F) /\ word (free (phys e) v) = word v /\
  cached c (inode_id e) (page_index e) = Some e /\ becomes (cached c) (cached c') (inode_id e) (page_index e) None.
Proof.
  intros (Hc & Ha & Hf) Hh Hk Ho c'. pose proof (proj2 Hc h b Hh) as Hb. pose proof Hb as (_ & _ & Hs & _).
  assert (Hslot : slot (inode_id e) (page_index e) = h) by (by eapply Hs).
  assert (Hbk : bucket (inode_id e) (page_index e) c = b).
  { pose proof (bucket_at c (inode_id e) (page_index e) Hc) as Hat. rewrite Hslot in Hat. congruence. }
  assert (Hfind : find (inode_id e) (page_index e) b = Some k).
  { apply (find_spec h); [done|]. exists e. split; [done|]. by apply holds_spec. }
  assert (Hold : cached c (inode_id e) (page_index e) = Some e).
  { unfold cached, entry_of. rewrite Hbk, Hfind. exact Hk. }
  destruct (bucket_remove _ _ _ _ k e Hb Hfind Hk) as (Hb' & Hno & Hr). rewrite <- Hslot in Hb'.
  destruct (set_bucket_spec c _ _ _ Hc Hb') as (Hc' & Hs' & Hr'); [by rewrite Hbk|]. rewrite Hno in Hs'.
  unfold set_bucket in Hc', Hs', Hr'. rewrite Hslot in Hc', Hs', Hr'. fold c' in Hc', Hs', Hr'.
  assert (Hbec : becomes (cached c) (cached c') (inode_id e) (page_index e) None) by by split.
  destruct (proj1 Hf _ _ _ Hold) as [HU HF]. split_and!; [|by destruct v|done..]. split_and!; [done| |].
  - destruct v; cbn in *. by apply free_page_law.
  - apply (frames_less (cached c)); [done|]. intros i x e' He'.
    destruct (becomes_cases _ _ _ _ _ _ _ _ Hbec He') as [(_ & _ & ?)|Hx]; [done|]. split; [done|]. intros Heq.
    destruct (proj2 Hf _ _ _ _ _ _ Hx Hold Heq) as [-> ->]. congruence.
Qed.

(** Some pages of [ino] are gone, their frames free. *)
Definition swept (ino : Z) (U : gset Z) c v (F : gset Z) c' v' (F' : gset Z) : Prop :=
  caching c' v' U F' /\ word v' = word v /\
  (forall i x, cached c' i x = cached c i x \/ i = ino /\ cached c' i x = None) /\
  (forall p, p ∈ F' <-> p ∈ F \/ exists x e, cached c ino x = Some e /\ cached c' ino x = None /\ p = phys e).

Lemma swept_refl ino U c v F : caching c v U F -> swept ino U c v F c v F.
Proof. intros Hc. split_and!; [done|done|by left|]. intros p. split; [by left|]. intros [?|(x & e & ? & ? & _)]; [done|congruence]. Qed.

Lemma swept_trans ino U c1 v1 F1 c2 v2 F2 c3 v3 F3 :
  swept ino U c1 v1 F1 c2 v2 F2 -> swept ino U c2 v2 F2 c3 v3 F3 -> swept ino U c1 v1 F1 c3 v3 F3.
Proof.
  intros (_ & Hw1 & Hs1 & HF1) (Hc & Hw2 & Hs2 & HF2). split_and!; [done|congruence| |].
  - intros i x. destruct (Hs2 i x) as [->|?]; [|by right]. apply Hs1.
  - intros p. rewrite HF2, HF1. split.
    + intros [[?|(x & e & H1 & H2 & ->)]|(x & e & H1 & H2 & ->)]; [by left| |]; right; exists x, e.
      * destruct (Hs2 ino x) as [Heq|[_ ?]]; [rewrite H2 in Heq|]; done.
      * destruct (Hs1 ino x) as [Heq|[_ ?]]; [rewrite <- Heq|congruence]; done.
    + intros [?|(x & e & H1 & H2 & ->)]; [by left; left|]. destruct (cached c2 ino x) as [e'|] eqn:E.
      * right. exists x, e'. destruct (Hs1 ino x) as [Heq|[_ ?]]; [|congruence]. split_and!; [done|done|congruence].
      * left; right. by exists x, e.
Qed.

Lemma swept_remove ino U c v F h k b e :
  caching c v U F -> c !! h = Some b -> entries b !! k = Some e -> occupied e && (inode_id e =? ino) = true ->
  swept ino U c v F (<[h := mkBucket (<[k := empty]> (entries b)) (count b - 1)]> c) (free (phys e) v) ({[phys e]} ∪ F).
Proof.
  intros Hc Hh Hk (Ho & <-%Z.eqb_eq)%andb_true_iff. destruct (entry_remove_spec c v U F h k b e Hc Hh Hk Ho) as (Hc' & Hw & Hold & Hn & Hr).
  split_and!; [done..| |].
  - intros i x. destruct (decide ((i, x) = (inode_id e, page_index e))) as [[= -> ->]|Hne]; [by right|left; by apply Hr].
  - intros p. rewrite elem_of_union, elem_of_singleton. split.
    + intros [->|?]; [right; by exists (page_index e), e|by left].
    + intros [?|(x & e' & H1 & H2 & ->)]; [by right|left]. destruct (decide (x = page_index e)) as [->|Hne]; [congruence|].
      rewrite Hr in H2 by congruence. congruence.
Qed.

Definition victim (ino : Z) (e : Entry) : bool := occupied e && (inode_id e =? ino).
Definition none_of (ino : Z) (l : list Entry) : Prop := Forall (fun e => victim ino e = false) l.

Lemma invalidate_loop_spec ino U h l : forall c v F l0 n,
  caching c v U F -> c !! h = Some (mkBucket (l0 ++ l) n) ->
  let '(l', n', v') := invalidate_loop ino l n v in
  exists F', swept ino U c v F (<[h := mkBucket (l0 ++ l') n']> c) v' F' /\ none_of ino l'.
Proof.
  induction l as [|e l IH]; intros c v F l0 n Hc Hh; cbn [invalidate_loop].
  - exists F. rewrite list_insert_id by done. split; [by apply swept_refl|constructor].
  - destruct (occupied e && (inode_id e =? ino)) eqn:E.
    + assert (Hk : entries (mkBucket (l0 ++ e :: l) n) !! length l0 = Some e) by apply list_lookup_middle, eq_refl.
      pose proof (swept_remove ino U c v F h _ _ e Hc Hh Hk E) as Hsw. cbn [entries count] in Hsw.
      rewrite insert_app_r_alt, Nat.sub_diag in Hsw by done. cbn in Hsw.
      pose proof (lookup_lt_Some _ _ _ Hh) as Hlt. set (c1 := <[h := _]> c) in *.
      specialize (IH c1 (free (phys e) v) ({[phys e]} ∪ F) (l0 ++ [empty]) (n - 1) (proj1 Hsw)).
      destruct (invalidate_loop ino l (n - 1) (free (phys e) v)) as [[l' n'] v'].
      destruct IH as (F' & Hsw' & Hn); [unfold c1; rewrite list_lookup_insert_eq by done; by rewrite <- app_assoc|].
      unfold c1 in Hsw'. rewrite list_insert_insert_eq, <- app_assoc in Hsw'. exists F'. split; [by eapply swept_trans|by constructor].
    + specialize (IH c v F (l0 ++ [e]) n Hc). destruct (invalidate_loop ino l n v) as [[l' n'] v'].
      destruct IH as (F' & Hsw' & Hn); [by rewrite <- app_assoc|]. rewrite <- app_assoc in Hsw'. exists F'. split; [done|by constructor].
Qed.

Lemma invalidate_buckets_spec ino U c2 : forall c1 v F,
  caching (c1 ++ c2) v U F ->
  let '(c2', v') := invalidate_buckets ino c2 v in
  exists F', swept ino U (c1 ++ c2) v F (c1 ++ c2') v' F' /\ Forall (fun b => none_of ino (entries b)) c2'.
Proof.
  induction c2 as [|b c2 IH]; intros c1 v F Hc; cbn [invalidate_buckets].
  - exists F. split; [by apply swept_refl|constructor].
  - unfold invalidate_bucket.
    pose proof (invalidate_loop_spec ino U (length c1) (entries b) (c1 ++ b :: c2) v F [] (count b) Hc) as Hl.
    destruct (invalidate_loop ino (entries b) (count b) v) as [[l' n'] v1].
    destruct Hl as (F1 & Hsw & Hn); [rewrite list_lookup_middle by done; by destruct b|]. cbn [app] in Hsw.
    rewrite insert_app_r_alt, Nat.sub_diag in Hsw by done. cbn in Hsw.
    specialize (IH (c1 ++ [mkBucket l' n']) v1 F1). rewrite <- !app_assoc in IH. specialize (IH (proj1 Hsw)).
    destruct (invalidate_buckets ino c2 v1) as [c2' v']. destruct IH as (F' & Hsw' & Hall). rewrite <- app_assoc in Hsw'.
    exists F'. split; [by eapply swept_trans|by constructor].
Qed.

Lemma invalidate_spec ino c v U F :
  caching c v U F ->
  let '(c', v') := pcache_invalidate_inode ino c v in
  exists F', caching c' v' U F' /\ word v' = word v /\
    (forall i x, cached c' i x = if i =? ino then None else cached c i x) /\
    (forall p, p ∈ F' <-> p ∈ F \/ exists x e, cached c ino x = Some e /\ p = phys e).
Proof.
  intros Hc. pose proof (invalidate_buckets_spec ino U c [] v F Hc) as Hi. unfold pcache_invalidate_inode.
  destruct (invalidate_buckets ino c v) as [c' v']. destruct Hi as (F' & (Hc' & Hw & Hs & HF) & Hn). cbn [app] in *.
  assert (Hgone : forall x, cached c' ino x = None).
  { intros x. destruct (cached c' ino x) as [e|] eqn:E; [|done]. exfalso. pose proof (proj1 Hc') as Hwf.
    unfold cached in E. apply (entry_of_spec (slot ino x)) in E as (i & Hi & (Ho & He & _)%holds_spec); [|by apply bucket_is_ok].
    rewrite Forall_lookup in Hn. specialize (Hn _ _ (bucket_at c' ino x Hwf)). unfold none_of in Hn. rewrite Forall_lookup in Hn.
    specialize (Hn _ _ Hi). unfold victim in Hn. rewrite Ho, He, Z.eqb_refl in Hn. done. }
  exists F'. split_and!; [done..| |].
  - intros i x. destruct (Z.eqb_spec i ino) as [->|]; [done|]. destruct (Hs i x) as [?|[? _]]; [done|congruence].
  - intros p. rewrite HF. naive_solver.
Qed.

(** *** The other operations *)
Definition drop_ref (n : Z) : Z := if 0 <? n then n - 1 else n.

Lemma cached_place c ino idx e : wf c -> cached c ino idx = Some e ->
  exists k, find ino idx (bucket ino idx c) = Some k /\ entries (bucket ino idx c) !! k = Some e /\ holds ino idx e = true.
Proof.
  intros Hc He. pose proof (bucket_is_ok c ino idx Hc) as Hb. destruct (found _ _ _ _ _ Hb He) as (k & Hk & Hl & _).
  exists k. split_and!; [done..|]. apply (find_spec _ _ _ _ _ Hb) in Hk as (e' & He' & Hh). rewrite Hl in He'. by injection He' as <-.
Qed.

Lemma change_spec c v U F ino idx k e e' :
  caching c v U F -> find ino idx (bucket ino idx c) = Some k -> entries (bucket ino idx c) !! k = Some e ->
  inode_id e' = inode_id e -> page_index e' = page_index e -> phys e' = phys e -> occupied e' = true ->
  let c' := set_bucket ino idx (update k e' (bucket ino idx c)) c in
  caching c' v U F /\ becomes (cached c) (cached c') ino idx (Some e').
Proof.
  intros (Hc & Ha & Hf) Hk He H1 H2 H3 H4 c'. pose proof (bucket_is_ok c ino idx Hc) as Hb.
  destruct (bucket_change _ _ ino idx k e e' Hb Hk He) as (Hb' & Hs & Hr); [done..|].
  destruct (set_bucket_spec c ino idx _ Hc Hb' Hr) as (Hc' & Hs' & Hr'). rewrite Hs in Hs'.
  assert (Hold : cached c ino idx = Some e) by (unfold cached, entry_of; by rewrite Hk).
  assert (Hbec : becomes (cached c) (cached c') ino idx (Some e')) by by split.
  split; [|done]. split_and!; [done..|]. by eapply (frames_same (cached c)).
Qed.

Lemma put_spec c v U F ino idx :
  caching c v U F ->
  let '(c', v') := pcache_put ino idx c v in
  match cached c ino idx with
  | None => c' = c /\ v' = v
  | Some e =>
    word v' = word v /\
    if drop_ref (ref_count e) =? 0 then caching c' v' U ({[phys e]} ∪ F) /\ becomes (cached c) (cached c') ino idx None
    else caching c' v' U F /\ becomes (cached c) (cached c') ino idx (Some (with_refs (drop_ref (ref_count e)) e))
  end.
Proof.
  intros Hca. pose proof Hca as (Hc & _). unfold pcache_put, deref.
  destruct (cached c ino idx) as [e|] eqn:E.
  - destruct (cached_place c ino idx e Hc E) as (k & Hk & He & (Ho & Hi & Hx)%holds_spec). rewrite Hk, He. fold (drop_ref (ref_count e)).
    destruct (drop_ref (ref_count e) =? 0).
    + destruct (entry_remove_spec c v U F _ k _ e Hca (bucket_at c ino idx Hc) He Ho) as (Hc' & Hw & _ & Hb). by rewrite Hi, Hx in Hb.
    + split; [done|]. by apply (change_spec c v U F ino idx k e).
  - rewrite (unfound _ _ _ E). by rewrite set_bucket_same.
Qed.

Lemma mark_dirty_spec c v U F ino idx :
  caching c v U F ->
  let c' := pcache_mark_dirty ino idx c in
  match cached c ino idx with
  | None => c' = c
  | Some e => caching c' v U F /\ becomes (cached c) (cached c') ino idx (Some (set_dirty e))
  end.
Proof.
  intros Hca. pose proof Hca as (Hc & _). unfold pcache_mark_dirty, mark_dirty.
  destruct (cached c ino idx) as [e|] eqn:E.
  - destruct (cached_place c ino idx e Hc E) as (k & Hk & He & (Ho & _)%holds_spec). rewrite Hk, He. by apply (change_spec c v U F ino idx k e).
  - rewrite (unfound _ _ _ E). by rewrite set_bucket_same.
Qed.

Lemma lookup_spec c ino idx : pcache_lookup ino idx c = phys <$> cached c ino idx.
Proof. unfold pcache_lookup, cached. apply lookup_entry. Qed.

(** *** The bytes of a page *)
Definition page_data (p : Z) v : list Z := (fun k => page_byte p k v) <$> seqZ 0 PAGE_SIZE.
Definition bytes (l : list Z) : Prop := Forall (fun b => 0 <= b < 256) l.

Lemma copy_other p src v q : q <> p -> word (copy_to_phys_page p src v) q = word v q.
Proof. intros Hq. unfold copy_to_phys_page, fill. destruct v; cbn. by rewrite (proj2 (Z.eqb_neq q p)). Qed.

Lemma copy_byte p src v k : bytes src -> 0 <= k < PAGE_SIZE ->
  page_byte p k (copy_to_phys_page p src v) = if k <? Z.of_nat (length src) then nth (Z.to_nat k) src 0 else page_byte p k v.
Proof.
  intros Hs Hk. unfold page_byte, copy_to_phys_page, fill. destruct v; cbn. rewrite Z.eqb_refl.
  pose proof (Z.mod_pos_bound k 8). rewrite byte_of_word by lia. rewrite <- (Z.div_mod k 8) by lia.
  destruct (Z.ltb_spec k (Z.of_nat (length src))).
  - rewrite (proj2 (Z.ltb_lt _ _)) by lia. change 255 with (Z.ones 8). rewrite Z.land_ones by lia. apply Z.mod_small.
    unfold bytes in Hs. rewrite List.Forall_forall in Hs. apply Hs, nth_In. lia.
  - rewrite (proj2 (Z.ltb_ge _ _)) by lia. unfold byte_of. by rewrite <- Z.land_assoc.
Qed.

Lemma page_data_lookup p v i : page_data p v !! i = if decide (Z.of_nat i < PAGE_SIZE) then Some (page_byte p (Z.of_nat i) v) else None.
Proof.
  unfold page_data. rewrite list_lookup_fmap. case_decide.
  - by rewrite lookup_seqZ_lt by lia.
  - by rewrite lookup_seqZ_ge by lia.
Qed.

Lemma page_data_ext p v v' : word v' p = word v p -> page_data p v' = page_data p v.
Proof. intros Hw. unfold page_data, page_byte. by rewrite Hw. Qed.

Definition overwrite (src d : list Z) : list Z := take (Z.to_nat PAGE_SIZE) src ++ drop (length src) d.

Lemma page_data_copy p src v : bytes src -> page_data p (copy_to_phys_page p src v) = overwrite src (page_data p v).
Proof.
  intros Hs. apply list_eq. intros i. rewrite page_data_lookup. unfold overwrite. destruct (decide (Z.of_nat i < PAGE_SIZE)) as [Hi|Hi].
  - rewrite copy_byte by (done || lia). destruct (Z.ltb_spec (Z.of_nat i) (Z.of_nat (length src))) as [Hlt|Hge].
    + rewrite lookup_app_l by (rewrite length_take; lia). rewrite lookup_take_lt by lia. rewrite Nat2Z.id.
      destruct (src !! i) as [b|] eqn:E; [by rewrite (nth_lookup_Some _ _ _ _ E)|]. apply lookup_ge_None in E. lia.
    + rewrite lookup_app_r, length_take by (rewrite length_take; lia). rewrite lookup_drop, page_data_lookup.
      replace (length src + (i - Z.to_nat PAGE_SIZE `min` length src))%nat with i by lia. by rewrite decide_True.
  - symmetry. apply lookup_ge_None. rewrite length_app, length_take, length_drop. unfold page_data. rewrite length_fmap, length_seqZ. lia.
Qed.
End Caching.
End PageCacheFacts.

(** * The specification *)
Module PageCacheMap.
Import PageTable PageTableSpec PageCache PageCacheFacts.

Record Page := mkPage { frame : Z; refs : Z; is_dirty : bool; data : list Z }.
Abbreviation Key := (Z * Z)%type (only parsing).

Inductive Call : Type :=
  | Get (k : Key) | Put (k : Key) | MarkDirty (k : Key) | Lookup (k : Key)
  | Fill (k : Key) (src : list Z) | Read (k : Key) (n : Z) | Invalidate (ino : Z).
Inductive Result : Type := Frame (r : option Z) | Done | Filled (b : bool) | Bytes (r : option (list Z)).

(** ** What the calls do to the map [m] and the free frames [F] *)
Definition crowded (m : gmap Key Page) (k : Key) : Prop := exists l : list Key,
  NoDup l /\ length l = PCACHE_BUCKET_CAPACITY /\ forall k', k' ∈ l -> slot k'.1 k'.2 = slot k.1 k.2 /\ is_Some (m !! k').

Definition with_page_refs (n : Z) (q : Page) : Page := mkPage (frame q) n (is_dirty q) (data q).
Definition dirtied (q : Page) : Page := mkPage (frame q) (refs q) true (data q).
Definition filled (src : list Z) (q : Page) : Page := mkPage (frame q) (refs q) (is_dirty q) (overwrite src (data q)).

Inductive step : gmap Key Page * gset Z -> Call -> Result -> gmap Key Page * gset Z -> Prop :=
  | get_new m F k p : m !! k = None -> p ∈ F ->
      step (m, F) (Get k) (Frame (Some p)) (<[k := mkPage p 1 false (replicate (Z.to_nat PAGE_SIZE) 0)]> m, F ∖ {[p]})
  | get_hit m F k q : m !! k = Some q ->
      step (m, F) (Get k) (Frame (Some (frame q))) (<[k := with_page_refs (wrap_u32 (refs q + 1)) q]> m, F)
  | get_none m F k : crowded m k \/ m !! k = None /\ F = ∅ -> step (m, F) (Get k) (Frame None) (m, F)
  | put_none m F k : m !! k = None -> step (m, F) (Put k) Done (m, F)
  | put_last m F k q : m !! k = Some q -> drop_ref (refs q) = 0 -> step (m, F) (Put k) Done (delete k m, {[frame q]} ∪ F)
  | put_held m F k q : m !! k = Some q -> drop_ref (refs q) <> 0 ->
      step (m, F) (Put k) Done (<[k := with_page_refs (drop_ref (refs q)) q]> m, F)
  | mark m F k : step (m, F) (MarkDirty k) Done (alter dirtied k m, F)
  | look m F k : step (m, F) (Lookup k) (Frame (frame <$> m !! k)) (m, F)
  | fills m F k src : step (m, F) (Fill k src) (Filled (bool_decide (is_Some (m !! k)))) (alter (filled src) k m, F)
  | reads m F k n : step (m, F) (Read k n) (Bytes ((fun q => take (Z.to_nat n) (data q)) <$> m !! k)) (m, F)
  | drops m m' F F' ino : (forall k, m' !! k = if k.1 =? ino then None else m !! k) ->
      (forall p, p ∈ F' <-> p ∈ F \/ exists x q, m !! (ino, x) = Some q /\ p = frame q) -> step (m, F) (Invalidate ino) Done (m', F').

Inductive steps : gmap Key Page * gset Z -> list Call -> list Result -> gmap Key Page * gset Z -> Prop :=
  | steps_nil s : steps s [] [] s
  | steps_cons s1 s2 s3 x r xs rs : step s1 x r s2 -> steps s2 xs rs s3 -> steps s1 (x :: xs) (r :: rs) s3.

Definition valid (x : Call) : Prop := match x with Fill _ src => bytes src | Read _ n => 0 <= n | _ => True end.

(** ** The cache *)
Section Run.
Context {A : Type} `{PageSource A}.

Definition call (x : Call) (s : list Bucket * Vmm A) : Result * (list Bucket * Vmm A) :=
  let '(c, v) := s in
  match x with
  | Get k => let '(r, c, v) := pcache_get k.1 k.2 c v in (Frame r, (c, v))
  | Put k => (Done, pcache_put k.1 k.2 c v)
  | MarkDirty k => (Done, (pcache_mark_dirty k.1 k.2 c, v))
  | Lookup k => (Frame (pcache_lookup k.1 k.2 c), (c, v))
  | Fill k src => let '(b, v) := pcache_fill k.1 k.2 src c v in (Filled b, (c, v))
  | Read k n => (Bytes (pcache_read_to_slice k.1 k.2 n c v), (c, v))
  | Invalidate ino => (Done, pcache_invalidate_inode ino c v)
  end.

Fixpoint run (xs : list Call) (s : list Bucket * Vmm A) : list Result * (list Bucket * Vmm A) :=
  match xs with
  | [] => ([], s)
  | x :: xs => let '(r, s) := call x s in let '(rs, s) := run xs s in (r :: rs, s)
  end.
End Run.

Section Refinement.
Context {A : Type} `{PageSourceLaws A}.
Implicit Types (v : Vmm A) (m : gmap Key Page).

Definition page_of v (e : Entry) : Page := mkPage (phys e) (ref_count e) (dirty e) (page_data (phys e) v).

Definition represents (U : gset Z) (a : gmap Key Page * gset Z) (s : list Bucket * Vmm A) : Prop :=
  caching s.1 s.2 U a.2 /\ forall ino idx, a.1 !! (ino, idx) = page_of s.2 <$> cached s.1 ino idx.

Lemma represents_becomes U m F c v c' v' F' ino idx x :
  represents U (m, F) (c, v) -> caching c' v' U F' -> becomes (cached c) (cached c') ino idx x ->
  (forall i y e, (i, y) <> (ino, idx) -> cached c i y = Some e -> word v' (phys e) = word v (phys e)) ->
  represents U (partial_alter (fun _ => page_of v' <$> x) (ino, idx) m, F') (c', v').
Proof.
  intros [_ Hm] Hc' [Hx Ho] Hw. split; [done|]. cbn in *. intros i y. destruct (decide ((i, y) = (ino, idx))) as [[= -> ->]|Hne].
  - by rewrite lookup_partial_alter_eq, Hx.
  - rewrite lookup_partial_alter_ne, Hm, Ho by congruence. destruct (cached c i y) as [e|] eqn:E; [|done]. cbn. unfold page_of.
    f_equal. f_equal. symmetry. apply page_data_ext. by eapply Hw.
Qed.

Lemma represents_full U m F c v ino idx : represents U (m, F) (c, v) -> full (cached c) ino idx -> crowded m (ino, idx).
Proof.
  intros [_ Hm] (l & Hn & Hl & Hall). exists l. split_and!; [done..|]. intros [i x] Hk. apply Hall in Hk as [? Hs]. split; [done|].
  cbn in Hm. by rewrite Hm, fmap_is_Some.
Qed.

Lemma page_data_zeroed p v v' : word v' = zeroed p (word v) -> page_data p v' = replicate (Z.to_nat PAGE_SIZE) 0.
Proof.
  intros Hw. apply list_eq. intros i. rewrite page_data_lookup. case_decide.
  - rewrite lookup_replicate_2 by lia. unfold page_byte. rewrite Hw. unfold zeroed. rewrite Z.eqb_refl. unfold byte_of. by rewrite Z.shiftr_0_l.
  - symmetry. apply lookup_ge_None. rewrite length_replicate. lia.
Qed.

Lemma get_refines U m F c v k : represents U (m, F) (c, v) ->
  let '(r, s) := call (Get k) (c, v) in exists a, step (m, F) (Get k) r a /\ represents U a s.
Proof.
  destruct k as [ino idx]. intros HR. pose proof HR as [Hca Hm]. cbn in Hca, Hm. cbn.
  pose proof (get_spec c v U F ino idx Hca) as Hg. destruct (pcache_get ino idx c v) as [[r c'] v'].
  destruct Hg as [(p & Hno & -> & Hp & Hc' & Hb & Hw)|[(e & He & -> & Hc' & Hb & ->)|(-> & -> & Hc' & Hw & Hfail)]].
  - eexists. split; [apply get_new; [by rewrite Hm, Hno|done]|].
    rewrite <- (page_data_zeroed p v v' Hw). apply (represents_becomes U m F c v c' v' _ ino idx _ HR Hc' Hb).
    intros i y e _ He. rewrite Hw. unfold zeroed. destruct (Z.eqb_spec (phys e) p) as [Hep|]; [|done].
    destruct Hca as (_ & _ & Hf & _). apply Hf in He as [_ He]. by rewrite Hep in He.
  - eexists. split; [apply (get_hit m F (ino, idx) (page_of v e)); by rewrite Hm, He|].
    by apply (represents_becomes U m F c v c' v _ ino idx _ HR Hc' Hb).
  - exists (m, F). split.
    + apply get_none. destruct Hfail as [Hfull|[Hno ->]]; [left; by eapply represents_full|right; by rewrite Hm, Hno].
    + split; [done|]. intros i x. cbn. rewrite Hm. destruct (cached c i x); [|done]. cbn. unfold page_of. f_equal. f_equal.
      symmetry. apply page_data_ext. by rewrite Hw.
Qed.

Lemma put_refines U m F c v k : represents U (m, F) (c, v) ->
  let '(r, s) := call (Put k) (c, v) in exists a, step (m, F) (Put k) r a /\ represents U a s.
Proof.
  destruct k as [ino idx]. intros HR. pose proof HR as [Hca Hm]. cbn in Hca, Hm. cbn.
  pose proof (put_spec c v U F ino idx Hca) as Hp. destruct (pcache_put ino idx c v) as [c' v'].
  destruct (cached c ino idx) as [e|] eqn:E.
  - destruct Hp as [Hw Hp]. destruct (Z.eqb_spec (drop_ref (ref_count e)) 0) as [Hz|Hnz]; destruct Hp as [Hc' Hb]; eexists.
    + split; [apply (put_last m F (ino, idx) (page_of v e)); [by rewrite Hm, E|done]|].
      apply (represents_becomes U m F c v c' v' _ ino idx _ HR Hc' Hb). intros; by rewrite Hw.
    + split; [apply (put_held m F (ino, idx) (page_of v e)); [by rewrite Hm, E|done]|].
      assert (Hd : page_data (phys e) v' = page_data (phys e) v) by by apply page_data_ext; rewrite Hw.
      unfold with_page_refs, page_of. cbn. rewrite <- Hd.
      apply (represents_becomes U m F c v c' v' _ ino idx _ HR Hc' Hb). intros; by rewrite Hw.
  - destruct Hp as [-> ->]. exists (m, F). split; [apply put_none; by rewrite Hm, E|done].
Qed.

Lemma alter_at (f : Page -> Page) (k : Key) m q : m !! k = Some q -> alter f k m = <[k := f q]> m.
Proof. intros Hq. apply map_eq. intros j. destruct (decide (j = k)) as [->|]; [|by rewrite lookup_alter_ne, lookup_insert_ne]. by rewrite lookup_alter_eq, Hq, lookup_insert_eq. Qed.

Lemma mark_refines U m F c v k : represents U (m, F) (c, v) ->
  let '(r, s) := call (MarkDirty k) (c, v) in exists a, step (m, F) (MarkDirty k) r a /\ represents U a s.
Proof.
  destruct k as [ino idx]. intros HR. pose proof HR as [Hca Hm]. cbn in Hca, Hm. cbn. eexists. split; [apply mark|].
  pose proof (mark_dirty_spec c v U F ino idx Hca) as Hd. cbn in Hd. destruct (cached c ino idx) as [e|] eqn:E.
  - destruct Hd as [Hc' Hb]. pose proof (represents_becomes U m F c v _ v F ino idx _ HR Hc' Hb) as Hr.
    rewrite (alter_at _ _ _ (page_of v e)) by by rewrite Hm, E. by apply Hr.
  - rewrite Hd, alter_id; [done|]. intros y Hy. rewrite Hm, E in Hy. done.
Qed.

Lemma fill_refines U m F c v k src : represents U (m, F) (c, v) -> bytes src ->
  let '(r, s) := call (Fill k src) (c, v) in exists a, step (m, F) (Fill k src) r a /\ represents U a s.
Proof.
  destruct k as [ino idx]. intros HR Hs. pose proof HR as [Hca Hm]. cbn in Hca, Hm. cbn. unfold pcache_fill, fill_bucket.
  change (lookup ino idx (bucket ino idx c)) with (pcache_lookup ino idx c). rewrite lookup_spec.
  pose proof (fills m F (ino, idx) src) as Hst. rewrite Hm in Hst. destruct (cached c ino idx) as [e|] eqn:E; cbn in *; eexists; (split; [exact Hst|]).
  - set (v' := copy_to_phys_page (phys e) src v).
    assert (Hc' : caching c v' U F) by (destruct Hca as (? & ? & ?); unfold v'; destruct v; by split_and!).
    assert (Hb : becomes (cached c) (cached c) ino idx (Some e)) by by split.
    pose proof (represents_becomes U m F c v c v' F ino idx _ HR Hc' Hb) as Hr.
    rewrite (alter_at _ _ _ (page_of v e)) by by rewrite Hm, E. unfold filled. cbn. rewrite <- page_data_copy by done. apply Hr.
    intros i y e' Hne He'. apply copy_other. intros Heq. destruct Hca as (_ & _ & _ & Hu).
    destruct (Hu _ _ _ _ _ _ He' E Heq) as [-> ->]. done.
  - rewrite alter_id; [done|]. intros y Hy. rewrite Hm, E in Hy. done.
Qed.

Lemma read_refines U m F c v k n : represents U (m, F) (c, v) -> 0 <= n ->
  let '(r, s) := call (Read k n) (c, v) in exists a, step (m, F) (Read k n) r a /\ represents U a s.
Proof.
  destruct k as [ino idx]. intros HR Hn. pose proof HR as [_ Hm]. cbn in Hm. cbn. exists (m, F). split; [|done].
  replace (pcache_read_to_slice ino idx n c v) with ((fun q => take (Z.to_nat n) (data q)) <$> m !! (ino, idx)); [apply reads|].
  unfold pcache_read_to_slice. rewrite lookup_spec, Hm. destruct (cached c ino idx) as [e|]; [|done]. cbn. f_equal.
  apply list_eq. intros i. destruct (decide (Z.of_nat i < n)).
  - rewrite lookup_take_lt by lia. rewrite page_data_lookup, list_lookup_fmap. case_decide.
    + by rewrite lookup_seqZ_lt by lia.
    + by rewrite lookup_seqZ_ge by lia.
  - rewrite lookup_take_ge by lia. rewrite list_lookup_fmap, lookup_seqZ_ge by lia. done.
Qed.

Lemma invalidate_refines U m F c v ino : represents U (m, F) (c, v) ->
  let '(r, s) := call (Invalidate ino) (c, v) in exists a, step (m, F) (Invalidate ino) r a /\ represents U a s.
Proof.
  intros [Hca Hm]. cbn in Hca, Hm. cbn. pose proof (invalidate_spec ino c v U F Hca) as Hi.
  destruct (pcache_invalidate_inode ino c v) as [c' v']. destruct Hi as (F' & Hc' & Hw & Hs & HF).
  set (m' := filter (fun kq : Key * Page => kq.1.1 <> ino) m).
  assert (Hm' : forall i x, m' !! (i, x) = if i =? ino then None else m !! (i, x)).
  { intros i x. unfold m'. rewrite map_lookup_filter. destruct (m !! (i, x)); cbn; [|by destruct (i =? ino)].
    destruct (Z.eqb_spec i ino); [by rewrite option_guard_False by naive_solver|by rewrite option_guard_True]. }
  exists (m', F'). split.
  - apply drops; [intros [i x]; apply Hm'|]. intros p. rewrite HF. split; (intros [?|Hx]; [by left|right]).
    + destruct Hx as (x & e & He & ->). exists x, (page_of v e). by rewrite Hm, He.
    + destruct Hx as (x & q & Hq & ->). rewrite Hm in Hq. apply fmap_Some in Hq as (e & He & ->). by exists x, e.
  - split; [done|]. cbn. intros i x. rewrite Hm', Hs, Hm. destruct (i =? ino); [done|]. destruct (cached c i x); [|done]. cbn.
    unfold page_of. f_equal. f_equal. symmetry. apply page_data_ext. by rewrite Hw.
Qed.

Lemma call_refines U a s x : represents U a s -> valid x ->
  let '(r, s') := call x s in exists a', step a x r a' /\ represents U a' s'.
Proof.
  destruct a as [m F], s as [c v]. intros HR Hx. destruct x as [k|k|k|k|k src|k n|ino].
  - by apply get_refines.
  - by apply put_refines.
  - by apply mark_refines.
  - cbn. exists (m, F). split; [|done]. rewrite lookup_spec. destruct k as [ino idx], HR as [_ Hm]. cbn in *.
    replace (phys <$> cached c ino idx) with (frame <$> m !! (ino, idx)); [apply look|]. rewrite Hm. by destruct (cached c ino idx).
  - by apply fill_refines.
  - by apply read_refines.
  - by apply invalidate_refines.
Qed.

(** C9: any sequence of calls on the page cache answers, and leaves the cache, as the same
    calls on a map from pages of files to their bytes, holder count and dirty mark do: a
    new page is zero and takes a free frame of its own, what was written is read back, the
    frame is free again when the last holder puts it or the file is dropped, and [pcache_get]
    fails only when the bucket of the page is crowded or no frame is free. *)
Theorem page_cache_refines_map U xs : forall a s,
  represents U a s -> Forall valid xs ->
  let '(rs, s') := run xs s in exists a', steps a xs rs a' /\ represents U a' s'.
Proof.
  induction xs as [|x xs IH]; intros a s HR Hall; cbn [run].
  - exists a. split; [constructor|done].
  - inversion_clear Hall as [|? ? Hx Hxs]. pose proof (call_refines U a s x HR Hx) as Hc. destruct (call x s) as [r s1].
    destruct Hc as (a1 & Hst & HR1). specialize (IH a1 s1 HR1 Hxs). destruct (run xs s1) as [rs s2].
    destruct IH as (a2 & Hsts & HR2). exists a2. split; [by econstructor|done].
Qed.

(** The empty cache. *)
Lemma represents_new v U F : available (source v) U F -> represents U (∅, F) (cache_new, v).
Proof.
  intros Ha. assert (Hnone : forall ino idx, cached cache_new ino idx = None).
  { intros ino idx. unfold cached, bucket. rewrite nth_lookup. destruct (cache_new !! slot ino idx) eqn:E; [|done].
    by apply lookup_replicate in E as [-> _]. }
  split; [|intros ino idx; cbn; by rewrite lookup_empty, Hnone]. split_and!; [|done|].
  - split; [apply length_replicate|]. intros h b [-> _]%lookup_replicate. split_and!; [done|by vm_compute| |].
    + by intros i e [-> _]%lookup_replicate.
    + by intros i j e e' [-> _]%lookup_replicate.
  - split; intros *; by rewrite Hnone.
Qed.
End Refinement.

(** *** After boot *)
Lemma page_cache_refines_map_witness :
  exists v, create_user_page_table booted = (Some 258048, v) /\
    let k := (5, 0) in
    let '(rs, s) := run [Get k; Fill k [1; 2; 3]; Get k; Put k; Read k 4; Put k; Lookup k] (cache_new, v) in
    rs = [Frame (Some 253952); Filled true; Frame (Some 253952); Done; Bytes (Some [1; 2; 3; 0]); Done; Frame None] /\
    exists U a, represents U a s.
Proof.
  destruct booted_space as (U & F & v & Hv & (_ & Ha & _) & _). exists v. split; [done|]. intros k.
  pose proof (page_cache_refines_map U [Get k; Fill k [1; 2; 3]; Get k; Put k; Read k 4; Put k; Lookup k] _ _ (represents_new v U F Ha)) as Hr.
  assert (E : v = (create_user_page_table booted).2) by by rewrite Hv.
  assert (Ers : (run [Get k; Fill k [1; 2; 3]; Get k; Put k; Read k 4; Put k; Lookup k] (cache_new, v)).1 =
    [Frame (Some 253952); Filled true; Frame (Some 253952); Done; Bytes (Some [1; 2; 3; 0]); Done; Frame None]) by (rewrite E; by vm_compute).
  destruct (run _ (cache_new, v)) as [rs s]. split; [exact Ers|]. destruct Hr as (a & _ & HR); [|by exists U, a].
  repeat apply List.Forall_cons; first [exact I|apply List.Forall_nil|cbn; lia].
Defined.

(** ** Where the code does otherwise

    A page that is cached is refused once its bucket is full. *)
Lemma full_bucket_refuses_hits v :
  create_user_page_table booted = (Some 258048, v) ->
  let s := (run ((fun j => Get (5, 64 * j)) <$> seqZ 0 16) (cache_new, v)).2 in
  (run [Lookup (5, 0); Get (5, 0)] s).1 = [Frame (Some 253952); Frame None].
Proof. intros E. vm_compute in E. injection E as <-. by vm_compute. Qed.

(** Closing a file gives its pages back to the allocator however many hold them. *)
Lemma close_frees_held_pages v :
  create_user_page_table booted = (Some 258048, v) ->
  let s := (run [Get (5, 0); Get (5, 0)] (cache_new, v)).2 in
  Pmm.test_bit (source s.2) 62 = true /\ Pmm.test_bit (source (run [Invalidate 5] s).2.2) 62 = false.
Proof. intros E. vm_compute in E. injection E as <-. by vm_compute. Qed.
End PageCacheMap.
